(* ===== verification/_CoqProject ===== *)
-Q . S2P
Prelude.v
CString.v
Spi.v
SpiProps.v
FdFrontend.v
FdScan.v
FdProps.v
FdTrigger.v
BitUtils.v
Bitmapset.v
BitmapsetVal.v
BitmapsetTests.v
BitmapsetProps.v
BinaryHeap.v
BinaryHeapProps.v
FsmPage.v
FsmPageProps.v
Xact.v
XactBlock.v
SimpleQuery.v
XactSpec.v
XactLow.v
XactInv.v
XactCommit.v
XactFrame.v
XactMarks.v
XactBody.v
XactLoop.v
XactRefine.v
XactBracket.v
XactProps.v
SortTemplate.v
SortProps.v
Double.v
ExtStats.v
Dependencies.v
DepGen.v
DepDegree.v
ItemFormat.v
DepFormat.v
DepProps.v
BmsSet.v
DepSelect.v
DepStrongest.v
DepApply.v
DepSelectProps.v
PgList.v
PgListSpec.v
PgListOps.v
PgListProps.v
MvDistinct.v
MvGen.v
MvCount.v
MvEstimate.v
MvFormat.v
MvProps.v
Xid.v
Subtrans.v
Clog.v
Transam.v
ClogSpec.v
ClogWrites.v
ClogProps.v
HeapTuple.v
ComboCid.v
Snapshot.v
Visibility.v
VisSpec.v
VisInv.v
VisSelf.v
VisDirty.v
VisMvcc.v
VisUpdate.v
VisVacuum.v
VisShared.v
VisProps.v
ProcArray.v
ProcInv.v
ProcSnap.v
ProcProps.v
