(* ===== verification/Prelude.v ===== *)
(** * A verification library for the functional-dependency PostgreSQL server

    The repository is PostgreSQL 14.7 with one addition: a front end, in
    src/postgresql/src/backend/tcop/postgres.c, that recognises

      insert into FD_table values ('fd1','rel','{A,B}','{C}');

    (the attribute names in double quotes) and tries to install a trigger that
    enforces the functional dependency A,B -> C on rel.  This library models
    that front end completely, the parts of the server it runs on (SPI, the
    transaction manager, the processing of simple queries), the server's own
    statistics on functional dependencies and the sort they use, the commit log
    and tuple visibility, and a group of the server's core data structures, and
    proves what they do.

    ** Parts and files

    - Prelude.v: outcomes of C code ([res]: normal return, ereport(ERROR),
      undefined behaviour), total correctness [wp], machine integers, arrays
      with checked access, counted loops and their proof rules, the tactics
      [wp_step], [wp_steps], [step_ok] and the hint databases [pg] and [pg_len].
    - CString.v: character buffers with indeterminate cells, [strcpy],
      [strcasecmp], [sprintf] with %s; each is characterised on every string,
      overflow included.
    - Spi.v, SpiProps.v: backend/executor/spi.c (connection stack, tuple tables,
      [SPI_execute] down to [_SPI_execute_plan] and [_SPI_pquery]),
      [CommandIsReadOnly] (tcop/utility.c), [pg_plan_queries]
      (tcop/postgres.c), [PlannedStmtRequiresSnapshot] and
      [EnsurePortalSnapshotExists] (tcop/pquery.c).  The state is the record
      [State]: the API globals, the stack, memory contexts as a finite set of
      live identifiers, the active-snapshot stack, the command counter, and a
      database of an arbitrary type.  The record [Backend] is the interface to
      the code left open: the grammar that bison generates from gram.y, parse
      analysis, planner, executor, [ProcessUtility], transaction start and
      commit, and what [pfree] does to memory of [malloc]; what runs statements
      acts on the record [Env] (the database, the active snapshots and the
      command counter).  The theorems hold for every [Backend]; where they need
      the planner's documented contract (plannodes.h) it is the hypothesis
      [planner_ok], and that statements leave the snapshot stack as they found
      it is [statements_ok].
    - FdFrontend.v, FdScan.v, FdProps.v: [append], [add_trigger] and the part of
      [exec_simple_query] the project adds, on explicit buffers of the sizes in
      the source.  FdScan.v proves the scan and the command text for every
      well-formed declaration, FdProps.v states the claims.
    - FdTrigger.v: the generated trigger function and the interpreter of
      pl/plpgsql/src/pl_exec.c that would run it: statements as an inductive
      type, [exec_stmts] over blocks with exception handlers, IF, CASE, the
      loops, EXIT, assignment, PERFORM, RAISE, SQL with INTO and RETURN,
      [plpgsql_exec_trigger], and of pl_comp.c [add_dummy_return] and
      [do_compile].  The PL/pgSQL grammar, the evaluation of SQL and the
      variables are the record [Engine].
    - Xact.v, XactBlock.v: backend/access/transam/xact.c.  The state is the
      stack of [TransactionStateData] (current level first) and the module's
      static variables, the record [Core]; routines are functions of a state and
      exception monad [X] whose exits are those of the code (ereport, elog, a
      failed Assert) and keep the state they were raised in.  Xact.v has the
      routines that start, commit, prepare, abort and clean up a transaction or
      subtransaction, XID assignment and the command counter; XactBlock.v the
      per-command routines, transaction blocks, savepoints and internal
      subtransactions.  Calls into other modules (about 150 functions: locks,
      WAL, portals, snapshots, resource owners, GUC, memory contexts) go
      through the record [Subsystems]: any function of a state of its own that
      answers a value or raises an error.
    - SimpleQuery.v: [exec_simple_query] after the added front end, the
      transaction statements of [standard_ProcessUtility], and the message loop
      of [PostgresMain] with its error handler as the transition relation
      [step].  What other statements do is a list of [action]s: command counter,
      ids and flags, and errors.  Statements that open internal subtransactions or
      enter parallel mode are outside it.
    - XactSpec.v: a program logic for [X] ([spec]) with two readings, calls may
      fail at any time or never do.  XactLow.v: the low-level routines.
      XactInv.v: states [AbortCurrentTransaction] can bring to rest.
      XactCommit.v: [CommitTransactionCommand] on each kind of state.
      XactFrame.v: what every routine keeps.  XactMarks.v: the block commands.
      XactBody.v: statement bodies.  XactLoop.v: the message loop when calls may
      fail.  XactRefine.v: the SQL transaction state machine and the simulation.
      XactBracket.v: internal subtransactions and [AbortOutOfAnyTransaction].
      XactProps.v: the claims.
    - BitUtils.v: port/pg_bitutils.c and include/port/pg_bitutils.h.
    - Bitmapset.v (operations), BitmapsetVal.v (the integer a set denotes and
      the set-building operations), BitmapsetTests.v (tests, counting,
      iteration), BitmapsetProps.v (claims): backend/nodes/bitmapset.c.
    - BinaryHeap.v, BinaryHeapProps.v: backend/lib/binaryheap.c.  The comparator
      is an argument; the class [Comparator] is what the header demands of it.
    - FsmPage.v, FsmPageProps.v: backend/storage/freespace/fsmpage.c.
    - SortTemplate.v, SortProps.v: include/lib/sort_template.h, the quicksort of
      which [qsort_arg] and the typed sorts are instances.  Pointers are
      indices; the comparator may be any function, and the class
      [SortComparator] is what an order satisfies.
    - Double.v: C's [double] as IEEE binary64 ([spec_float] of the standard
      library), its bytes, quotients of integers and the order.
    - ExtStats.v: the routines of backend/statistics/extended_stats.c that the
      next files use (sorting on several columns, [build_sorted_items],
      attribute arrays).  The record [TypeSystem] stands for the type system:
      lengths, ordering operators, detoasting.
    - Dependencies.v: backend/statistics/dependencies.c, the part that builds,
      stores and prints dependencies.  DepGen.v: the generator of candidates.
      DepDegree.v: the degree counted in the sorted rows and what it says of the
      columns of the sample.  ItemFormat.v: arrays of items in a
      bytea, with the interface [ItemFormat] that the code for one item meets.
      DepFormat.v: the bytea format and [statext_dependencies_build].
      DepProps.v: the claims.
    - BmsSet.v: the interface [SetLaws], what bitmapset.c promises to its
      clients in terms of finite sets of integers, its instance, and the loop
      over the members of a set.
    - DepSelect.v: dependencies.c, the part the planner uses: compatible
      clauses and expressions, the strongest dependency, the selectivity.  The
      record [Planner] stands for the functions of other modules.
      DepStrongest.v (the choice of dependencies), DepApply.v (the selectivity
      from them and the whole estimate) are proved against [SetLaws]; DepSelectProps.v has the claims.
    - MvDistinct.v: backend/statistics/mvdistinct.c, the number of distinct
      combinations of columns.  MvGen.v: combinations and their number.
      MvCount.v: counting the groups of sorted rows.  MvEstimate.v: the estimate
      for a combination and [statext_ndistinct_build].  MvFormat.v: the bytea
      format and the text form.  MvProps.v: the claims.
    - PgList.v: backend/nodes/list.c and the loops of include/nodes/pg_list.h.  A
      list is a header in a shared store, changed in place and seen through
      every pointer to it.  PgListSpec.v: a program logic for the store, what a
      header holds, and the routines that build lists.  PgListOps.v: iteration,
      deletion, lists as sets, deduplication, sorting.  PgListProps.v: the claims.
    - Xid.v: transaction ids and their circular order (access/transam.h,
      transam.c).  Subtrans.v: backend/access/transam/subtrans.c.  Clog.v:
      backend/access/transam/clog.c, two status bits per transaction on pages,
      with the update of a group of processes by its leader.  Transam.v: the
      look-up of a status with its cache, commit and abort of a tree of
      transactions.  ClogSpec.v, ClogWrites.v, ClogProps.v: status
      words, the sequence of single status writes of a tree update, what a
      reader sees between any two of them, the claim.
    - HeapTuple.v: tuple headers and their flags (access/htup_details.h).
      ComboCid.v: backend/utils/time/combocid.c with its claim.  Snapshot.v:
      utils/snapshot.h and [XidInMVCCSnapshot].
    - Visibility.v: backend/access/heap/heapam_visibility.c.  What the routines
      ask of shared state (is a transaction running, did it commit, is the log
      flushed) is a record of functions of the moment of the question, and a
      clock advances with every question, so that anything may happen between
      two of them.  VisSpec.v: the laws of these look-ups (class [History]), the
      truth that hint bits cache, the invariant, a program logic.  VisInv.v: the
      invariant's rules.  VisSelf.v, VisDirty.v,
      VisMvcc.v, VisUpdate.v, VisVacuum.v: each routine against its rule.
      VisShared.v: several backends at one tuple.  VisProps.v: the claims.
    - ProcArray.v: backend/storage/ipc/procarray.c outside recovery (the PGPROC
      entries and the dense arrays that mirror them, ends of transactions, group
      clearing, aborted subtransactions, processes that come and go,
      [GetSnapshotData] with its reuse), of backend/access/transam/varsup.c
      [GetNewTransactionId] and [SetTransactionIdLimit], of twophase.c what PREPARE
      does to its entry, and the statements of vacuum.c, indexcmds.c, logical.c and
      slot.c that change status flags.  Under the exclusive lock
      an operation is a function of the record [Shared]; GetSnapshotData, under the
      shared lock, reads a history of it, one moment per read.  ProcInv.v: the
      invariant that ties the arrays to the transactions that run (ghost state:
      the 64-bit ids of each process), kept by assignments and ends.  ProcSnap.v:
      two moments under the shared lock, what a snapshot describes, the loop over
      the slots.  ProcProps.v: joining and leaving, executions, the claims.

    ** What the theorems show

    - Front end: a well-formed declaration is recognised and scanned back
      exactly; the command text is exactly the intended SQL;
      other queries under 1000 bytes are untouched.  And what goes wrong: every
      query of 1000 bytes or more overflows a local buffer, an unterminated
      declaration is scanned past its terminator, no declaration ever succeeds
      (the command is run read-only), and the trigger would reject every row: a
      trigger function without RETURN gives no row, whatever its statements do.
    - SPI: nesting of levels restores the caller's state, cleanup at abort pops
      exactly the open levels, [SPI_execute] keeps the snapshot stack balanced
      and in read-only mode does not move the command counter itself, read-only
      execution refuses utility commands.
    - Transactions: whatever calls into other modules fail, also during commit,
      abort and recovery, the backend (with the statements above) always comes back to one of three kinds of
      states between messages and never takes one of the exits the code calls
      impossible; without failures it implements the SQL state machine
      [sql_step] for every statement, errors included, and every message ends;
      leaving all transactions ends outside any; internal subtransactions
      restore the stack.  And what goes wrong: COMMIT AND CHAIN inside a
      savepoint loses the transaction's characteristics; an Assert is too
      strict for an internal subtransaction rolled back during commit; and an
      error that escapes from an internal subtransaction outside a block leaves
      a state in which ROLLBACK is a FATAL error, which is why the invariant
      stops short of such statements.
    - Bitmap sets: every operation computes its set operation on the denoted
      integer; order, hashing and iteration laws; a defect of
      [bms_next_member] at INT_MAX.
    - Heap: invariant, multiset semantics of each operation, sorting.
    - Free space map: invariant and repair of torn pages, the page as an array,
      the search finds the first suitable slot in cyclic order.
    - Sort: on any comparator a permutation of the segment, nothing outside it
      touched, at most log2 n + 1 frames; sorted if the comparator is an order.
    - Dependency statistics: each candidate is generated once; the degree is
      the share of the rows that respect the dependency; what is built is stored
      and read back unchanged; the planner's loop makes the greedy choice
      without overrunning its array, and the estimate is the product of
      conditional selectivities over the attributes of the choice, for exactly
      the clauses it marks.  And what goes wrong: the reader's size check uses
      the wrong macro and lets it read past a truncated value, and two clauses
      on one expression fail an assertion.

    - N-distinct statistics: one item for each set of columns, the estimator
      applied to the numbers of distinct and of unique rows; combinations counted
      as they are listed; stored and read back unchanged.  And what goes wrong:
      the text form casts the estimate to int.
    - Lists: every sequence of updates does to the cells of the store what it does
      to a mathematical list and changes no other list, also where a list is
      appended to itself; the set operations, deletion in a loop, sorting with
      deduplication; the length at which the allocation fails.
    - Commit status: a tree of transactions commits or aborts at once for every
      reader, although its status bits are written one by one on several pages.
    - Combo command ids: the pair stored behind an id reads back as long as the
      transaction lives.
    - Proc array: the arrays show what runs after any sequence of operations, none
      of which fails an Assert or leaves an array; a snapshot tells for each id of
      others whether it ran when the lock was taken, also through overflowed
      subtransaction caches, and stays true until the completion count moves, and
      the xmin advertised for it holds back no less than what runs; under the
      postmaster ids are refused before they can wrap around, also when processes
      wait between the check of the limits and the assignment.
    - Tuple visibility: the answer for a snapshot is that of a rule about the
      inserter and the updater, now and later, whatever hint bits are set; hint
      bits are always true, and a commit hint never reaches disk before the
      commit record; what UPDATE, DELETE, row locks and unique checks are told;
      VACUUM calls dead only what no snapshot sees.

    ** Bounds and fuel

    Loops whose number of iterations is not a C counter take fuel, and running
    out of it is the outcome [UB "fuel"]: the scan loops get one more step than
    the size of the memory they read (each step reads one more cell), string
    loops the same, [sift_up] and [sift_down] the size of the node array, the
    free-space-map climbs 13 (the tree has 13 levels), its search one restart.
    [CommitTransactionCommand], [AbortCurrentTransaction] and
    [AbortOutOfAnyTransaction] get one step more than the height of the
    transaction stack (each step pops a level), XID assignment the height; the
    loop that fires deferred triggers runs as long as other modules produce
    work, so its bound [portal_rounds] is theirs.  The sort's scans get the
    length of the segment, its frames are [log2 n + 1]; the loop over the members
    of a set gets one more than their number, the choice of dependencies one
    more than the number of attributes; [foreach] gets the length of the list.
    The climb to the parents of a subtransaction gets the distance to the oldest
    id it may reach, the loops over the pages of a tree its length.
    Each theorem that says a function returns proves that this is enough.
    Page geometry is that of BLCKSZ 8192 on a 64-bit platform; [int]
    arithmetic wraps, as the build uses -fwrapv.

    ** Not modelled

    In the front end the stock remainder of [exec_simple_query] is an argument;
    SimpleQuery.v models it for parsed statements.  Parser, analyser, planner,
    executor, access methods, storage other than the free-space-map page,
    replication, utilities and client programs are not modelled; memory
    contexts are modelled by liveness only, or by the calls that can fail;
    locking of buffers, interrupts and signals are not modelled.  In the files
    on statistics, lists, heaps and the proc array [UB] also stands for a failed
    Assert (for statistics in a build with assertions, the parameter [cassert]),
    and sizes of allocations are modelled for lists
    and heaps only: the [int] sizes of [build_sorted_items] are not, so samples
    the code could not allocate succeed in the model, far above ANALYZE's sample
    sizes.  Of PL/pgSQL: loops over queries, cursors and arrays, dynamic SQL, CALL
    and DO, COMMIT and ROLLBACK, RETURN NEXT, GET DIAGNOSTICS and ASSERT.  Of xact.c:
    parallel workers' state transfer, WAL records and replay, callbacks, and
    [TransactionIdIsCurrentTransactionId].  Of the message loop: the
    extended-query messages, and statements with internal subtransactions or
    parallel mode.  Of extended_stats.c: ANALYZE, the choice of a
    statistics object.  Of the commit log: its SLRU buffers (a page is in the map
    or reading it fails), WAL and truncation.  Of the proc array: hot standby,
    the horizons and GlobalVis state, look-ups of running transactions and
    signalling.  In an [execution] an assignment is one step and the oldest id in
    use stays the same; in the runs of [gen_step], for the wraparound limits, the
    check and the assignment are two steps and the limits advance.  In a [History]
    of the visibility files a backend's own transaction goes on throughout, and
    its snapshot is one for each moment of it: a history covers the part of a
    backend's life within one transaction, and longer runs are several of them.
    That a snapshot and the look-ups of the visibility
    routines agree is the hypothesis [snapshot_ok] there; for the ids that the proc
    array shows as running it is part of [snapshot_sees_running].  Left in the plan: MCV
    lists (statistics/mcv.c), the rest of extended_stats.c, the rest of xact.c and
    hash functions. *)
From Stdlib Require Export ZArith Lia Bool.
From stdpp Require Export base list numbers strings.
#[export] Set Default Proof Using "Type".
#[export] Set Default Goal Selector "!".

Open Scope Z_scope.

(** * Outcomes of C code

    [Ok a] is a normal return, [Err m] is [ereport]/[elog] at level ERROR (a
    non-local exit), [UB w] is behaviour the C standard leaves undefined: an
    access outside an object, a shift by the word's width, a loop that does
    not end. *)
Inductive res (A : Type) : Type :=
| Ok (a : A)
| Err (msg : string)
| UB (what : string).
Arguments Ok {A} a.
Arguments Err {A} msg.
Arguments UB {A} what.

#[export] Instance res_ret : MRet res := fun A a => Ok a.

#[export] Instance res_bind : MBind res := fun A B k m =>
  match m with
  | Ok a => k a
  | Err e => Err e
  | UB w => UB w
  end.

#[export] Instance res_fmap : FMap res := fun A B f m =>
  match m with
  | Ok a => Ok (f a)
  | Err e => Err e
  | UB w => UB w
  end.

(** Total correctness of an outcome: it is a normal return and its value
    satisfies [Q]. *)
Definition wp {A} (m : res A) (Q : A -> Prop) : Prop :=
  match m with Ok a => Q a | _ => False end.

(** * Machine integers *)
Definition u8 (z : Z) : Z := z mod 2 ^ 8.
Definition u16 (z : Z) : Z := z mod 2 ^ 16.
Definition u32 (z : Z) : Z := z mod 2 ^ 32.
Definition u64 (z : Z) : Z := z mod 2 ^ 64.
Definition i32 (z : Z) : Z := (z + 2 ^ 31) mod 2 ^ 32 - 2 ^ 31.
Definition i64 (z : Z) : Z := (z + 2 ^ 63) mod 2 ^ 64 - 2 ^ 63.

(** [x << n] and [x >> n] on a [w]-bit unsigned word: undefined unless
    [0 <= n < w]. *)
Definition shl (w x n : Z) : res Z :=
  if (0 <=? n) && (n <? w) then Ok (Z.shiftl x n mod 2 ^ w) else UB "shift out of range".

Definition shr (w x n : Z) : res Z :=
  if (0 <=? n) && (n <? w) then Ok (Z.shiftr x n) else UB "shift out of range".

(** * Arrays: a list with a [Z] index *)
Definition len {A} (l : list A) : Z := Z.of_nat (length l).

Definition getd {A} (d : A) (l : list A) (i : Z) : A := default d (l !! Z.to_nat i).

Definition upd {A} (l : list A) (i : Z) (v : A) : list A := <[Z.to_nat i := v]> l.

Definition rd {A} (l : list A) (i : Z) : res A :=
  if 0 <=? i
  then match l !! Z.to_nat i with Some v => Ok v | None => UB "read outside the array" end
  else UB "read outside the array".

Definition wr {A} (l : list A) (i : Z) (v : A) : res (list A) :=
  if (0 <=? i) && (i <? len l) then Ok (upd l i v) else UB "write outside the array".

(** * Loops

    [for_up lo hi body s] is [for (i = lo; i < hi; i++) body]: the body
    returns the next state ([inl]) or leaves the function ([inr]). *)
Fixpoint loop_up {S R} (n : nat) (i : Z) (body : Z -> S -> res (S + R)) (s : S)
  : res (S + R) :=
  match n with
  | O => Ok (inl s)
  | Datatypes.S n' =>
      o ← body i s;
      match o with
      | inl s' => loop_up n' (i + 1) body s'
      | inr r => Ok (inr r)
      end
  end.

Definition for_up {S R} (lo hi : Z) (body : Z -> S -> res (S + R)) (s : S) : res (S + R) :=
  loop_up (Z.to_nat (hi - lo)) lo body s.

(** [for_down hi lo body s] is [for (i = hi; i >= lo; i--) body]. *)
Fixpoint loop_down {S R} (n : nat) (i : Z) (body : Z -> S -> res (S + R)) (s : S)
  : res (S + R) :=
  match n with
  | O => Ok (inl s)
  | Datatypes.S n' =>
      o ← body i s;
      match o with
      | inl s' => loop_down n' (i - 1) body s'
      | inr r => Ok (inr r)
      end
  end.

Definition for_down {S R} (hi lo : Z) (body : Z -> S -> res (S + R)) (s : S) : res (S + R) :=
  loop_down (Z.to_nat (hi - lo + 1)) hi body s.

(** * Rules for [wp] *)
Lemma wp_ok {A} (m : res A) Q : wp m Q <-> exists a, m = Ok a /\ Q a.
Proof.
  split.
  - destruct m as [a|e|w]; simpl; [|done..]. by exists a.
  - by intros (a & -> & HQ).
Qed.

Lemma wp_ret {A} (a : A) (Q : A -> Prop) : Q a -> wp (mret a) Q.
Proof. done. Qed.

Lemma wp_Ok {A} (a : A) (Q : A -> Prop) : Q a -> wp (Ok a) Q.
Proof. done. Qed.

Lemma wp_bind {A B} (m : res A) (k : A -> res B) Q :
  wp m (fun a => wp (k a) Q) -> wp (m ≫= k) Q.
Proof. by destruct m. Qed.

Lemma wp_mono {A} (m : res A) (P Q : A -> Prop) :
  wp m P -> (forall a, P a -> Q a) -> wp m Q.
Proof. destruct m; simpl; auto. Qed.

Lemma wp_and {A} (m : res A) (P Q : A -> Prop) :
  wp m P -> wp m Q -> wp m (fun a => P a /\ Q a).
Proof. destruct m; simpl; auto. Qed.

(** * Array lemmas *)
Lemma len_nonneg {A} (l : list A) : 0 <= len l.
Proof. unfold len; lia. Qed.

Lemma len_nil {A} : len (@nil A) = 0.
Proof. done. Qed.

Lemma len_cons {A} (x : A) l : len (x :: l) = 1 + len l.
Proof. unfold len; simpl; lia. Qed.

Lemma len_app {A} (l k : list A) : len (l ++ k) = len l + len k.
Proof. unfold len; rewrite length_app; lia. Qed.

Lemma len_upd {A} (l : list A) i v : len (upd l i v) = len l.
Proof. unfold len, upd; by rewrite length_insert. Qed.

Lemma len_replicate {A} (n : nat) (x : A) : len (replicate n x) = Z.of_nat n.
Proof. unfold len; by rewrite length_replicate. Qed.

Lemma getd_upd_eq {A} (d : A) l i v : 0 <= i < len l -> getd d (upd l i v) i = v.
Proof. unfold len, getd, upd; intros. rewrite list_lookup_insert_eq; [done|lia]. Qed.

Lemma getd_upd_ne {A} (d : A) l i j v :
  0 <= i -> 0 <= j -> i <> j -> getd d (upd l i v) j = getd d l j.
Proof. unfold getd, upd; intros. rewrite list_lookup_insert_ne; [done|lia]. Qed.

Lemma getd_upd {A} (d : A) l i j v :
  0 <= i < len l -> 0 <= j ->
  getd d (upd l i v) j = if j =? i then v else getd d l j.
Proof.
  intros; destruct (Z.eqb_spec j i) as [->|].
  - by apply getd_upd_eq.
  - apply getd_upd_ne; lia.
Qed.

Lemma getd_ge {A} (d : A) l i : len l <= i -> getd d l i = d.
Proof. unfold getd, len; intros. rewrite lookup_ge_None_2; [done|lia]. Qed.

Lemma getd_app {A} (d : A) l k i :
  0 <= i -> getd d (l ++ k) i = if i <? len l then getd d l i else getd d k (i - len l).
Proof.
  unfold getd, len; intros. destruct (Z.ltb_spec i (Z.of_nat (length l))).
  - rewrite lookup_app_l; [done|lia].
  - rewrite lookup_app_r; [|lia]. do 2 f_equal; lia.
Qed.

Lemma getd_replicate {A} (d : A) n x i :
  0 <= i -> getd d (replicate n x) i = if i <? Z.of_nat n then x else d.
Proof.
  unfold getd; intros. destruct (Z.ltb_spec i (Z.of_nat n)).
  - rewrite lookup_replicate_2; [done|lia].
  - rewrite lookup_ge_None_2; [done|rewrite length_replicate; lia].
Qed.

Lemma getd_Forall {A} (P : A -> Prop) d l i : Forall P l -> P d -> P (getd d l i).
Proof.
  intros Hl Hd; unfold getd. destruct (l !! Z.to_nat i) eqn:E; [|done].
  simpl. by eapply Forall_lookup_1.
Qed.

Lemma Forall_getd {A} (P : A -> Prop) d (l : list A) :
  (forall i, 0 <= i < len l -> P (getd d l i)) -> Forall P l.
Proof.
  intros H; apply Forall_lookup_2; intros i x Hi.
  pose proof (lookup_lt_Some _ _ _ Hi).
  specialize (H (Z.of_nat i)); unfold getd, len in H.
  rewrite Nat2Z.id, Hi in H. apply H; lia.
Qed.

(** Two arrays of one length with the same cells are equal. *)
Lemma getd_ext {A} (d : A) (l k : list A) :
  len l = len k -> (forall i, 0 <= i < len l -> getd d l i = getd d k i) -> l = k.
Proof.
  unfold len, getd; intros Hlen H. apply list_eq_same_length with (length k); [done|lia|].
  intros i x y Hi Hx Hy. specialize (H (Z.of_nat i)).
  rewrite Nat2Z.id, Hx, Hy in H. simpl in H. apply H; lia.
Qed.

Lemma wp_rd {A} (d : A) l i (Q : A -> Prop) :
  0 <= i < len l -> Q (getd d l i) -> wp (rd l i) Q.
Proof.
  unfold rd, getd, len; intros Hi HQ. destruct (Z.leb_spec 0 i); [|lia].
  destruct (lookup_lt_is_Some_2 l (Z.to_nat i)) as [x Hx]; [lia|].
  rewrite Hx in *. done.
Qed.

Lemma wp_wr {A} (l : list A) i v (Q : list A -> Prop) :
  0 <= i < len l -> Q (upd l i v) -> wp (wr l i v) Q.
Proof.
  unfold wr; intros. destruct (Z.leb_spec 0 i), (Z.ltb_spec i (len l)); simpl; try lia; done.
Qed.

(** * Loop rules *)
Lemma wp_loop_up {S R} (I : Z -> S -> Prop) (Q : S + R -> Prop) body n :
  forall i s,
  I i s ->
  (forall j t, i <= j < i + Z.of_nat n -> I j t ->
     wp (body j t) (fun o => match o with inl t' => I (j + 1) t' | inr r => Q (inr r) end)) ->
  (forall t, I (i + Z.of_nat n) t -> Q (inl t)) ->
  wp (loop_up n i body s) Q.
Proof.
  induction n as [|n IH]; intros i s HI Hbody Hend; simpl.
  - apply Hend. by replace (i + Z.of_nat 0) with i by lia.
  - apply wp_bind. eapply wp_mono; [apply Hbody; [lia|done]|].
    intros [s'|r]; simpl; [|done]. intros HI'.
    apply IH; [done|intros; apply Hbody; [lia|done]|].
    intros t Ht; apply Hend.
    by replace (i + Z.of_nat (Datatypes.S n)) with (i + 1 + Z.of_nat n) by lia.
Qed.

(** The ascending loop: an invariant that holds at [lo], is kept by each
    iteration, and gives [Q] when the loop ends or the body leaves it. *)
Lemma wp_for_up {S R} (I : Z -> S -> Prop) (Q : S + R -> Prop) lo hi body s :
  lo <= hi -> I lo s ->
  (forall j t, lo <= j < hi -> I j t ->
     wp (body j t) (fun o => match o with inl t' => I (j + 1) t' | inr r => Q (inr r) end)) ->
  (forall t, I hi t -> Q (inl t)) ->
  wp (for_up lo hi body s) Q.
Proof.
  intros Hle HI Hbody Hend. unfold for_up.
  eapply wp_loop_up; [exact HI|..].
  - intros j t Hj; apply Hbody; lia.
  - intros t Ht; apply Hend. by replace hi with (lo + Z.of_nat (Z.to_nat (hi - lo))) by lia.
Qed.

Lemma wp_loop_down {S R} (I : Z -> S -> Prop) (Q : S + R -> Prop) body n :
  forall i s,
  I i s ->
  (forall j t, i - Z.of_nat n < j <= i -> I j t ->
     wp (body j t) (fun o => match o with inl t' => I (j - 1) t' | inr r => Q (inr r) end)) ->
  (forall t, I (i - Z.of_nat n) t -> Q (inl t)) ->
  wp (loop_down n i body s) Q.
Proof.
  induction n as [|n IH]; intros i s HI Hbody Hend; simpl.
  - apply Hend. by replace (i - Z.of_nat 0) with i by lia.
  - apply wp_bind. eapply wp_mono; [apply Hbody; [lia|done]|].
    intros [s'|r]; simpl; [|done]. intros HI'.
    apply IH; [done|intros; apply Hbody; [lia|done]|].
    intros t Ht; apply Hend.
    by replace (i - Z.of_nat (Datatypes.S n)) with (i - 1 - Z.of_nat n) by lia.
Qed.

Lemma wp_for_down {S R} (I : Z -> S -> Prop) (Q : S + R -> Prop) hi lo body s :
  lo - 1 <= hi -> I hi s ->
  (forall j t, lo <= j <= hi -> I j t ->
     wp (body j t) (fun o => match o with inl t' => I (j - 1) t' | inr r => Q (inr r) end)) ->
  (forall t, I (lo - 1) t -> Q (inl t)) ->
  wp (for_down hi lo body s) Q.
Proof.
  intros Hle HI Hbody Hend. unfold for_down.
  eapply wp_loop_down; [exact HI|..].
  - intros j t Hj; apply Hbody; lia.
  - intros t Ht; apply Hend.
    by replace (lo - 1) with (hi - Z.of_nat (Z.to_nat (hi - lo + 1))) by lia.
Qed.

(** * Machine-integer lemmas *)
Lemma u32_small z : 0 <= z < 2 ^ 32 -> u32 z = z.
Proof. apply Z.mod_small. Qed.

Lemma u64_small z : 0 <= z < 2 ^ 64 -> u64 z = z.
Proof. apply Z.mod_small. Qed.

Lemma i32_small z : - 2 ^ 31 <= z < 2 ^ 31 -> i32 z = z.
Proof. unfold i32; intros. rewrite Z.mod_small; lia. Qed.

Lemma i64_small z : - 2 ^ 63 <= z < 2 ^ 63 -> i64 z = z.
Proof. unfold i64; intros. rewrite Z.mod_small; lia. Qed.

Lemma u64_range z : 0 <= u64 z < 2 ^ 64.
Proof. apply Z.mod_pos_bound; lia. Qed.

Lemma i32_range z : - 2 ^ 31 <= i32 z < 2 ^ 31.
Proof. unfold i32. pose proof (Z.mod_pos_bound (z + 2 ^ 31) (2 ^ 32)). lia. Qed.

Lemma wp_shl w x n (Q : Z -> Prop) :
  0 <= n < w -> Q (Z.shiftl x n mod 2 ^ w) -> wp (shl w x n) Q.
Proof.
  unfold shl; intros. destruct (Z.leb_spec 0 n), (Z.ltb_spec n w); simpl; try lia; done.
Qed.

Lemma wp_shr w x n (Q : Z -> Prop) :
  0 <= n < w -> Q (Z.shiftr x n) -> wp (shr w x n) Q.
Proof.
  unfold shr; intros. destruct (Z.leb_spec 0 n), (Z.ltb_spec n w); simpl; try lia; done.
Qed.

(** * Bits *)
Lemma testbit_high w n i : 0 <= w < 2 ^ n -> 0 <= n <= i -> Z.testbit w i = false.
Proof.
  intros. rewrite <- (Z.mod_small w (2 ^ n)) by done. apply Z.mod_pow2_bits_high; lia.
Qed.

Lemma nonzero_testbit w : 0 <= w -> w <> 0 -> exists i, 0 <= i /\ Z.testbit w i = true.
Proof.
  intros. exists (Z.log2 w). split; [apply Z.log2_nonneg|apply Z.bit_log2; lia].
Qed.

Lemma zero_testbit w : 0 <= w -> (w = 0 <-> forall i, 0 <= i -> Z.testbit w i = false).
Proof.
  intros. split; [intros ->; intros; apply Z.bits_0|].
  intros Hall. apply Z.bits_inj'. intros i Hi. by rewrite Hall, Z.bits_0.
Qed.

Lemma land_255 w : Z.land w 255 = w mod 2 ^ 8.
Proof. change 255 with (Z.ones 8). apply Z.land_ones; lia. Qed.

Lemma bits_range n w :
  0 <= n -> 0 <= w -> (forall i, n <= i -> Z.testbit w i = false) -> 0 <= w < 2 ^ n.
Proof.
  intros Hn Hw H. split; [done|].
  destruct (Z.eq_dec w 0) as [->|]; [lia|].
  destruct (Z.lt_ge_cases (Z.log2 w) n) as [Hl|Hl].
  - apply Z.log2_lt_pow2; lia.
  - specialize (H _ Hl). rewrite Z.bit_log2 in H; [done|lia].
Qed.

(** * Search and update loops *)

(** A loop that looks for the first index that passes a test. *)
Lemma wp_find_up {R} (test : Z -> bool) (r : Z -> R) (Q : unit + R -> Prop) lo hi body :
  (forall i, lo <= i < hi ->
     wp (body i tt) (fun o => o = if test i then inr (r i) else inl tt)) ->
  ((forall i, lo <= i < hi -> test i = false) -> Q (inl tt)) ->
  (forall i, lo <= i < hi -> test i = true ->
     (forall j, lo <= j < i -> test j = false) -> Q (inr (r i))) ->
  wp (for_up lo hi body tt) Q.
Proof.
  intros Hbody Hnone Hsome. destruct (Z.le_gt_cases lo hi) as [Hle|Hgt].
  - apply (wp_for_up (fun i _ => forall j, lo <= j < i -> test j = false)); [done|lia|..].
    + intros i [] Hi Hprev. eapply wp_mono; [by apply Hbody|].
      intros o ->. destruct (test i) eqn:Ht; [by apply Hsome|].
      intros j Hj. destruct (Z.eq_dec j i) as [->|]; [done|apply Hprev; lia].
    + intros [] Hall. by apply Hnone.
  - unfold for_up. replace (Z.to_nat (hi - lo)) with 0%nat by lia. simpl. apply Hnone. lia.
Qed.

(** The same, downwards. *)
Lemma wp_find_down {R} (test : Z -> bool) (r : Z -> R) (Q : unit + R -> Prop) hi lo body :
  (forall i, lo <= i <= hi ->
     wp (body i tt) (fun o => o = if test i then inr (r i) else inl tt)) ->
  ((forall i, lo <= i <= hi -> test i = false) -> Q (inl tt)) ->
  (forall i, lo <= i <= hi -> test i = true ->
     (forall j, i < j <= hi -> test j = false) -> Q (inr (r i))) ->
  wp (for_down hi lo body tt) Q.
Proof.
  intros Hbody Hnone Hsome. destruct (Z.le_gt_cases (lo - 1) hi) as [Hle|Hgt].
  - apply (wp_for_down (fun i _ => forall j, i < j <= hi -> test j = false)); [done|lia|..].
    + intros i [] Hi Hprev. eapply wp_mono; [by apply Hbody|].
      intros o ->. destruct (test i) eqn:Ht; [by apply Hsome|].
      intros j Hj. destruct (Z.eq_dec j i) as [->|]; [done|apply Hprev; lia].
    + intros [] Hall. apply Hnone. intros i Hi; apply Hall; lia.
  - unfold for_down. replace (Z.to_nat (hi - lo + 1)) with 0%nat by lia. simpl. apply Hnone. lia.
Qed.

(** The value of a loop whose body never leaves the function. *)
Definition loop_state {S} (m : res (S + Empty_set)) : res S :=
  o ← m; match o with inl s => Ok s | inr e => match (e : Empty_set) with end end.

(** The value of a search loop: the body's early return, or [r] at the end. *)
Definition loop_return {R} (m : res (unit + R)) (r : R) : res R :=
  o ← m; match o with inl _ => Ok r | inr r' => Ok r' end.

Lemma wp_loop_state {S} (m : res (S + Empty_set)) (Q : S -> Prop) :
  wp m (fun o => match o with inl s => Q s | inr _ => False end) -> wp (loop_state m) Q.
Proof. unfold loop_state; intros. apply wp_bind. eapply wp_mono; [done|]. by intros [|]. Qed.

Lemma wp_loop_return {R} (m : res (unit + R)) r (Q : R -> Prop) :
  wp m (fun o => match o with inl _ => Q r | inr r' => Q r' end) -> wp (loop_return m r) Q.
Proof. unfold loop_return; intros. apply wp_bind. eapply wp_mono; [done|]. by intros [|]. Qed.

(** A loop that rewrites the cells [lo <= i < hi] of an array one by one. *)
Lemma wp_map_up {A} (d : A) (f : Z -> A -> A) lo hi body (l : list A) (Q : list A -> Prop) :
  0 <= lo <= hi -> hi <= len l ->
  (forall i l', lo <= i < hi -> len l' = len l -> getd d l' i = getd d l i ->
     wp (body i l') (fun o => o = inl (upd l' i (f i (getd d l i))))) ->
  (forall l', len l' = len l ->
     (forall j, 0 <= j ->
        getd d l' j = if (lo <=? j) && (j <? hi) then f j (getd d l j) else getd d l j) ->
     Q l') ->
  wp (loop_state (for_up lo hi body l)) Q.
Proof.
  intros Hlo Hhi Hbody HQ. apply wp_loop_state.
  apply (wp_for_up (fun i l' => len l' = len l /\ forall j, 0 <= j ->
    getd d l' j = if (lo <=? j) && (j <? i) then f j (getd d l j) else getd d l j)); [lia|..].
  - split; [done|]. intros j Hj.
    destruct (Z.leb_spec lo j), (Z.ltb_spec j lo); simpl; try lia; done.
  - intros i l' Hi [Hlen Hget]. eapply wp_mono.
    + apply Hbody; [done|done|]. rewrite Hget by lia.
      destruct (Z.leb_spec lo i), (Z.ltb_spec i i); simpl; try lia; done.
    + intros o ->. split; [by rewrite len_upd|]. intros j Hj.
      rewrite getd_upd by lia. destruct (Z.eqb_spec j i) as [->|Hne].
      * destruct (Z.leb_spec lo i), (Z.ltb_spec i (i + 1)); simpl; try lia; done.
      * rewrite Hget by lia.
        destruct (Z.leb_spec lo j), (Z.ltb_spec j i), (Z.ltb_spec j (i + 1)); simpl; try lia; done.
  - intros l' [Hlen Hget]. by apply HQ.
Qed.

Lemma wp_eq {A} (m : res A) x : wp m (fun v => v = x) <-> m = Ok x.
Proof. destruct m; simpl; split; intros H; try done; congruence. Qed.

(** One step of symbolic execution; side conditions are left to [lia]. *)
Ltac wp_step :=
  lazymatch goal with
  | |- wp (mbind _ _) _ => apply wp_bind
  | |- wp (rd _ _) _ => first [apply (wp_rd 0); [lia|] | eapply wp_rd; [lia|]]
  | |- wp (wr _ _ _) _ => apply wp_wr; [lia|]
  | |- wp (shl _ _ _) _ => apply wp_shl; [lia|]
  | |- wp (shr _ _ _) _ => apply wp_shr; [lia|]
  | |- wp (Ok _) _ => apply wp_Ok
  | |- wp (mret _) _ => apply wp_ret
  | |- wp (loop_state _) _ => apply wp_loop_state
  | |- wp (loop_return _ _) _ => apply wp_loop_return
  end.

Ltac wp_steps := repeat (wp_step; cbv beta).

(** Run a bind whose first part has returned. *)
Ltac step_ok := change (mbind ?k (Ok ?x)) with (k x); cbv beta iota.

(** Decide the integer comparisons of the goal. *)
Ltac z_case :=
  match goal with
  | |- context [Z.leb ?x ?y] => destruct (Z.leb_spec x y)
  | |- context [Z.ltb ?x ?y] => destruct (Z.ltb_spec x y)
  | |- context [Z.eqb ?x ?y] => destruct (Z.eqb_spec x y)
  end; try lia; cbn [andb orb negb].

Ltac z_cases := repeat z_case.

(** * Automation *)
Create HintDb pg.
#[export] Hint Resolve len_nonneg u64_range i32_range wp_Ok wp_ret : pg.

Create Rewrite HintDb pg_len.
#[export] Hint Rewrite @len_nil @len_cons @len_app @len_upd @len_replicate : pg_len.

(** Compute the lengths of composed arrays, in the goal and everywhere. *)
Ltac len_simpl := autorewrite with pg_len.
Ltac len_simpl_all := autorewrite with pg_len in *.

(** * Prefixes of arrays *)
Lemma take_upd {A} (l : list A) (i : Z) (v : A) :
  0 <= i < len l -> take (Z.to_nat (i + 1)) (upd l i v) = take (Z.to_nat i) l ++ [v].
Proof.
  unfold len, upd; intros. replace (Z.to_nat (i + 1)) with (S (Z.to_nat i)) by lia.
  rewrite (take_S_r _ _ v) by (rewrite list_lookup_insert_eq; [done|lia]).
  by rewrite take_insert_ge by lia.
Qed.

Lemma take_cell {A} (d : A) (l : list A) (i : Z) :
  0 <= i < len l -> take (Z.to_nat (i + 1)) l = take (Z.to_nat i) l ++ [getd d l i].
Proof.
  unfold len; intros. replace (Z.to_nat (i + 1)) with (S (Z.to_nat i)) by lia. apply take_S_r.
  destruct (lookup_lt_is_Some_2 l (Z.to_nat i)) as [v Hv]; [lia|]. unfold getd. by rewrite Hv.
Qed.

Lemma take_all {A} (l : list A) n : len l = n -> take (Z.to_nat n) l = l.
Proof. unfold len; intros. apply take_ge. lia. Qed.

Lemma getd_take {A} (d : A) (l : list A) (n i : Z) : 0 <= i < n -> getd d (take (Z.to_nat n) l) i = getd d l i.
Proof. intros. unfold getd. rewrite lookup_take_lt by lia. done. Qed.

Lemma Forall_upd {A} (P : A -> Prop) l i v : Forall P l -> P v -> Forall P (upd l i v).
Proof. intros Hl Hv. unfold upd. by apply Forall_insert. Qed.

(** Exchanging two cells of a list permutes it. *)
Lemma insert_swap_perm {A} (l : list A) (a b : nat) x y :
  l !! a = Some x -> l !! b = Some y -> <[b:=x]> (<[a:=y]> l) ≡ₚ l.
Proof.
  intros Ha Hb. destruct (decide (a = b)) as [->|Hne].
  { replace y with x by congruence. rewrite list_insert_insert_eq. by rewrite list_insert_id. }
  apply Permutation_inj. split; [by rewrite !length_insert|].
  exists (fun i => if decide (i = a) then b else if decide (i = b) then a else i).
  split; [intros i j; repeat case_decide; congruence|].
  intros i. pose proof (lookup_lt_Some _ _ _ Ha). pose proof (lookup_lt_Some _ _ _ Hb).
  case_decide; [subst i|case_decide; [subst i|]].
  - rewrite list_lookup_insert_ne by done. rewrite list_lookup_insert_eq by done. done.
  - rewrite list_lookup_insert_eq by (by rewrite length_insert). done.
  - rewrite !list_lookup_insert_ne by done. done.
Qed.

(** Filters that agree on the elements of a list. *)
Lemma filter_elem_ext {A} (P1 P2 : A -> Prop) `{!forall x, Decision (P1 x), !forall x, Decision (P2 x)}
    (l : list A) :
  (forall x, x ∈ l -> (P1 x <-> P2 x)) -> filter P1 l = filter P2 l.
Proof.
  induction l as [|x l IH]; intros Hext; [done|]. rewrite !filter_cons.
  rewrite IH by (intros y Hy; apply Hext; by right). pose proof (Hext x ltac:(by left)).
  repeat case_decide; done || tauto.
Qed.
