(* ===== verification/CString.v ===== *)
(** C strings and character buffers.

    A buffer is an array of cells, each indeterminate ([None]: allocated and
    not yet written) or a character. Loads of indeterminate cells and every
    access outside the array are undefined behaviour. The file models what the
    program uses of [<string.h>], [<strings.h>] and [<stdio.h>]: [strcpy],
    [strcasecmp] (in the POSIX locale) and [sprintf] with [%s] conversions, and
    proves what each does to a buffer that holds a string, overflow included. *)
From Stdlib Require Export Ascii.
From S2P Require Import Prelude.
Open Scope Z_scope.

Definition NUL : ascii := "000"%char.

Abbreviation buf := (list (option ascii)).

(** [malloc(n)] or [char b[n]]: [n] indeterminate cells. *)
Definition uninit (n : Z) : buf := replicate (Z.to_nat n) None.

Definition chars : string -> list ascii := String.list_ascii_of_string.

(** The object that holds the bytes [l]. *)
Definition bytes (l : list ascii) : buf := Some <$> l.

(** A string literal: its characters and the terminator. *)
Definition literal (s : string) : buf := bytes (chars s ++ [NUL]).

Definition ld (b : buf) (i : Z) : res ascii :=
  c ← rd b i;
  match c with Some a => Ok a | None => UB "read of an indeterminate character" end.

Definition st (b : buf) (i : Z) (c : ascii) : res buf := wr b i (Some c).

#[global] Arguments chars : simpl never.
#[global] Arguments literal : simpl never.
#[global] Arguments uninit : simpl never.

(** A pointer into a buffer. *)
Abbreviation ptr := (buf * Z)%type.

(** Copying loop shared by [strcpy], [append] and the [%s] conversion: copy
    the characters at [(src, si)] up to the terminator, which is not copied.
    Returns the destination and the index after the last character written. *)
Fixpoint copy_loop (fuel : nat) (dst : buf) (di : Z) (src : buf) (si : Z) : res (buf * Z) :=
  match fuel with
  | O => UB "fuel"
  | S f =>
      c ← ld src si;
      if decide (c = NUL) then Ok (dst, di)
      else dst' ← st dst di c; copy_loop f dst' (di + 1) src (si + 1)
  end.

Definition copy (dst : buf) (di : Z) (p : ptr) : res (buf * Z) :=
  copy_loop (S (length p.1)) dst di p.1 p.2.

(** [strcpy(dst, src)]. *)
Definition strcpy (dst : buf) (src : ptr) : res buf :=
  '(dst', di) ← copy dst 0 src; st dst' di NUL.

(** The string a pointer designates. *)
Fixpoint strz_loop (fuel : nat) (b : buf) (i : Z) : res (list ascii) :=
  match fuel with
  | O => UB "fuel"
  | S f =>
      c ← ld b i;
      if decide (c = NUL) then Ok [] else s ← strz_loop f b (i + 1); Ok (c :: s)
  end.

Definition strz (p : ptr) : res (list ascii) := strz_loop (S (length p.1)) p.1 p.2.

Definition char_code (c : ascii) : Z := Z.of_nat (nat_of_ascii c).

(** [tolower] in the POSIX locale. *)
Definition tolower (c : ascii) : ascii :=
  let n := nat_of_ascii c in
  if (65 <=? Z.of_nat n) && (Z.of_nat n <=? 90) then ascii_of_nat (n + 32) else c.

(** [strcasecmp]: the difference of the first characters that differ after
    [tolower], 0 when the strings end together. *)
Fixpoint strcasecmp_loop (fuel : nat) (a : buf) (i : Z) (b : buf) (j : Z) : res Z :=
  match fuel with
  | O => UB "fuel"
  | S f =>
      x ← ld a i;
      y ← ld b j;
      let d := char_code (tolower x) - char_code (tolower y) in
      if negb (d =? 0) then Ok d
      else if decide (x = NUL) then Ok 0
      else strcasecmp_loop f a (i + 1) b (j + 1)
  end.

Definition strcasecmp (p q : ptr) : res Z :=
  strcasecmp_loop (S (length p.1)) p.1 p.2 q.1 q.2.

(** [sprintf(dst, fmt, args...)] for formats whose only conversion is [%s]. *)
Fixpoint sprintf_loop (fmt : list ascii) (args : list ptr) (dst : buf) (di : Z) : res buf :=
  match fmt with
  | [] => st dst di NUL
  | "%"%char :: "s"%char :: fmt' =>
      match args with
      | p :: args' => '(dst', di') ← copy dst di p; sprintf_loop fmt' args' dst' di'
      | [] => UB "missing argument"
      end
  | "%"%char :: _ => UB "conversion not modelled"
  | c :: fmt' => dst' ← st dst di c; sprintf_loop fmt' args dst' (di + 1)
  end.

Definition sprintf (dst : buf) (fmt : string) (args : list ptr) : res buf :=
  sprintf_loop (chars fmt) args dst 0.

(** * What a buffer holds *)

(** The cells from index [i] on are the characters of [l]. *)
Definition holds (b : buf) (i : Z) (l : list ascii) : Prop :=
  0 <= i /\ forall k c, l !! k = Some c -> b !! (Z.to_nat i + k)%nat = Some (Some c).

(** [p] designates the C string [s]. *)
Definition cstr (p : ptr) (s : list ascii) : Prop :=
  holds p.1 p.2 (s ++ [NUL]) /\ NUL ∉ s.

(** [b] with the characters [l] written from index [i] on. *)
Definition blit (b : buf) (i : Z) (l : list ascii) : buf :=
  take (Z.to_nat i) b ++ bytes l ++ drop (Z.to_nat i + length l) b.

Lemma holds_app b i l k : holds b i (l ++ k) <-> holds b i l /\ holds b (i + len l) k.
Proof.
  unfold holds, len. split.
  - intros [Hi H]. split; (split; [lia|]); intros n c Hn.
    + apply H. by apply lookup_app_l_Some.
    + replace (Z.to_nat (i + Z.of_nat (length l)) + n)%nat
        with (Z.to_nat i + (length l + n))%nat by lia.
      apply H. rewrite lookup_app_r by lia. rewrite <- Hn. f_equal; lia.
  - intros [[Hi Hl] [_ Hk]]. split; [done|]. intros n c [Hn|[Hge Hn]]%lookup_app_Some.
    + by apply Hl.
    + apply Hk in Hn. rewrite <- Hn. f_equal; lia.
Qed.

Lemma holds_cons b i c l : holds b i (c :: l) <-> holds b i [c] /\ holds b (i + 1) l.
Proof. by rewrite (holds_app b i [c] l). Qed.

Lemma holds_bytes l k : holds (bytes (l ++ k)) (len l) k.
Proof.
  split; [apply len_nonneg|]. intros n c Hn. unfold bytes, len.
  rewrite list_lookup_fmap, Nat2Z.id, lookup_app_r by lia.
  replace (length l + n - length l)%nat with n by lia. by rewrite Hn.
Qed.

Lemma holds_bytes_0 l k : holds (bytes (l ++ k)) 0 l.
Proof.
  pose proof (holds_bytes [] (l ++ k)) as H. rewrite len_nil in H. simpl in H.
  by apply holds_app in H as [H _].
Qed.

Lemma len_bytes l : len (bytes l) = len l.
Proof. unfold len, bytes. by rewrite length_fmap. Qed.

Lemma len_uninit n : 0 <= n -> len (uninit n) = n.
Proof. intros. unfold uninit. rewrite len_replicate. lia. Qed.

Lemma holds_len b i l : holds b i l -> l <> [] -> i + len l <= len b.
Proof.
  intros [Hi H] Hl. destruct (last l) as [c|] eqn:Hc; [|by apply last_None in Hc].
  rewrite last_lookup in Hc. apply H in Hc. apply lookup_lt_Some in Hc.
  unfold len. destruct l; [done|]. simpl in *. lia.
Qed.

Lemma ld_holds b i c : holds b i [c] -> ld b i = Ok c.
Proof.
  intros [Hi H]. specialize (H 0%nat c eq_refl). unfold ld, rd.
  rewrite (proj2 (Z.leb_le 0 i)) by done.
  by rewrite <- (Nat.add_0_r (Z.to_nat i)), H.
Qed.

Lemma ld_out b i : len b <= i -> exists w, w <> "fuel" /\ ld b i = UB w.
Proof.
  intros Hi. exists "read outside the array"%string. split; [done|]. unfold ld, rd, len in *.
  rewrite lookup_ge_None_2 by lia. by case_match.
Qed.

Lemma st_in b i c : 0 <= i < len b -> st b i c = Ok (blit b i [c]).
Proof.
  intros Hi. unfold st, wr. rewrite (proj2 (Z.leb_le 0 i)), (proj2 (Z.ltb_lt i (len b))) by lia.
  simpl. f_equal. unfold upd, blit, len in *. simpl.
  rewrite insert_take_drop by lia. repeat f_equal. lia.
Qed.

Lemma st_out b i c : len b <= i -> st b i c = UB "write outside the array".
Proof.
  intros Hi. unfold st, wr. rewrite (proj2 (Z.ltb_ge i (len b))) by done. by rewrite andb_false_r.
Qed.

Lemma len_blit b i l : 0 <= i -> i + len l <= len b -> len (blit b i l) = len b.
Proof.
  unfold blit, len, bytes. intros. rewrite !length_app, length_take, length_fmap, length_drop. lia.
Qed.

Lemma blit_nil b i : blit b i [] = b.
Proof. unfold blit. simpl. rewrite Nat.add_0_r. apply take_drop. Qed.

(** The cells of [blit b i l]. *)
Lemma lookup_blit b i l (k : nat) :
  0 <= i -> i + len l <= len b ->
  blit b i l !! k =
    if (i <=? Z.of_nat k) && (Z.of_nat k <? i + len l)
    then Some (l !! (k - Z.to_nat i)%nat) else b !! k.
Proof.
  intros Hi Hb. unfold blit, len, bytes in *.
  destruct (Z.leb_spec i (Z.of_nat k)), (Z.ltb_spec (Z.of_nat k) (i + Z.of_nat (length l))); simpl.
  - rewrite lookup_app_r by (rewrite length_take; lia). rewrite length_take.
    rewrite lookup_app_l by (rewrite length_fmap; lia). rewrite list_lookup_fmap.
    replace (k - Z.to_nat i `min` length b)%nat with (k - Z.to_nat i)%nat by lia.
    destruct (lookup_lt_is_Some_2 l (k - Z.to_nat i)) as [c Hc]; [lia|]. by rewrite Hc.
  - rewrite lookup_app_r by (rewrite length_take; lia). rewrite length_take.
    rewrite lookup_app_r by (rewrite length_fmap; lia). rewrite length_fmap, lookup_drop.
    f_equal. lia.
  - rewrite lookup_app_l by (rewrite length_take; lia). apply lookup_take_lt. lia.
  - lia.
Qed.

(** Writing [l], then [k] right after it, is writing [l ++ k]. *)
Lemma blit_blit b i l k :
  0 <= i -> i + len l + len k <= len b ->
  blit (blit b i l) (i + len l) k = blit b i (l ++ k).
Proof.
  intros Hi Hb. pose proof (len_nonneg l). pose proof (len_nonneg k). apply list_eq. intros n.
  rewrite !lookup_blit; rewrite ?len_blit, ?len_app; try lia.
  destruct (Z.leb_spec i (Z.of_nat n)), (Z.leb_spec (i + len l) (Z.of_nat n)),
    (Z.ltb_spec (Z.of_nat n) (i + len l)), (Z.ltb_spec (Z.of_nat n) (i + len l + len k)),
    (Z.ltb_spec (Z.of_nat n) (i + (len l + len k))); simpl; try lia; try done;
    unfold len in *.
  - rewrite lookup_app_r by lia. do 2 f_equal. lia.
  - rewrite lookup_app_l by lia. done.
Qed.

Lemma holds_blit b i l : 0 <= i -> i + len l <= len b -> holds (blit b i l) i l.
Proof.
  intros Hi Hb. split; [done|]. intros k c Hk. rewrite lookup_blit by done.
  pose proof (lookup_lt_Some _ _ _ Hk). unfold len in *.
  rewrite (proj2 (Z.leb_le _ _)), (proj2 (Z.ltb_lt _ _)) by lia. simpl.
  replace (Z.to_nat i + k - Z.to_nat i)%nat with k by lia. by rewrite Hk.
Qed.

(** Writing beyond a string leaves it alone. *)
Lemma holds_blit_frame b i l j k :
  holds b i l -> i + len l <= j -> 0 <= j -> j + len k <= len b -> holds (blit b j k) i l.
Proof.
  intros [Hi H] Hj Hj0 Hb. split; [done|]. intros n c Hn. rewrite lookup_blit by done.
  pose proof (lookup_lt_Some _ _ _ Hn). unfold len in *.
  rewrite (proj2 (Z.leb_gt _ _)) by lia. simpl. by apply H.
Qed.

Lemma cstr_literal s : NUL ∉ chars s -> cstr (literal s, 0) (chars s).
Proof.
  intros. split; [|done]. simpl. unfold literal.
  pose proof (holds_bytes_0 (chars s ++ [NUL]) []) as Hb. by rewrite app_nil_r in Hb.
Qed.

(** * The copying loop *)
Lemma copy_loop_run fuel dst di src si s :
  holds src si (s ++ [NUL]) -> NUL ∉ s -> (length s < fuel)%nat -> 0 <= di <= len dst ->
  (di + len s <= len dst -> copy_loop fuel dst di src si = Ok (blit dst di s, di + len s)) /\
  (len dst < di + len s -> copy_loop fuel dst di src si = UB "write outside the array").
Proof.
  revert dst di si s. induction fuel as [|f IH]; intros dst di si s Hsrc HN Hf Hdi; [lia|].
  destruct s as [|c s]; simpl in Hsrc; simpl copy_loop.
  - rewrite (ld_holds _ _ _ Hsrc). simpl.
    rewrite blit_nil, len_nil, Z.add_0_r. split; [done|lia].
  - apply holds_cons in Hsrc as [Hc Hs]. rewrite (ld_holds _ _ _ Hc). simpl.
    apply not_elem_of_cons in HN as [HN1 HN2]. rewrite decide_False by congruence.
    rewrite len_cons. simpl in Hf. pose proof (len_nonneg s).
    destruct (Z.lt_ge_cases di (len dst)) as [Hd|Hd].
    + rewrite st_in by lia. simpl. change (len [c]) with 1 in *.
      destruct (IH (blit dst di [c]) (di + 1) (si + 1) s) as [IHo IHu]; [done..|lia|rewrite len_blit; change (len [c]) with 1; lia|].
      rewrite len_blit in IHo, IHu by (change (len [c]) with 1; lia).
      split; intros Hfit.
      * rewrite IHo by lia. f_equal. f_equal; [|lia].
        apply (blit_blit dst di [c] s); change (len [c]) with 1; lia.
      * apply IHu. lia.
    + rewrite st_out by done. split; [lia|done].
Qed.

(** Copying a C string: exactly its characters are written, and it is
    undefined behaviour when they do not fit. *)
Lemma copy_run dst di p s :
  cstr p s -> 0 <= di <= len dst ->
  (di + len s <= len dst -> copy dst di p = Ok (blit dst di s, di + len s)) /\
  (len dst < di + len s -> copy dst di p = UB "write outside the array").
Proof.
  intros [Hp HN] Hdi. apply copy_loop_run; [done..| |done].
  pose proof (holds_len _ _ _ Hp ltac:(by destruct s)) as Hl. destruct Hp as [Hp0 _].
  rewrite len_app in Hl. change (len [NUL]) with 1 in Hl. unfold len in *. lia.
Qed.

Lemma copy_ok dst di p s :
  cstr p s -> 0 <= di -> di + len s <= len dst ->
  copy dst di p = Ok (blit dst di s, di + len s).
Proof. intros ? ? ?. pose proof (len_nonneg s). apply copy_run; [done|lia|done]. Qed.

(** [strcpy] writes the string and its terminator, and overflows exactly when
    the destination has no room for the terminator. *)
Lemma strcpy_run dst p s :
  cstr p s ->
  (len s < len dst -> strcpy dst p = Ok (blit dst 0 (s ++ [NUL]))) /\
  (len dst <= len s -> strcpy dst p = UB "write outside the array").
Proof.
  intros Hp. pose proof (len_nonneg s). pose proof (len_nonneg dst).
  destruct (copy_run dst 0 p s Hp) as [Ho Hu]; [lia|].
  unfold strcpy. split; intros Hl.
  - rewrite Ho by lia. simpl. rewrite st_in by (rewrite len_blit; lia).
    f_equal. change (blit dst 0 s) with (blit dst 0 s).
    apply (blit_blit dst 0 s [NUL]); [lia|]. change (len [NUL]) with 1. lia.
  - destruct (Z.eq_dec (len dst) (len s)) as [He|].
    + rewrite Ho by lia. simpl. apply st_out. rewrite len_blit; lia.
    + by rewrite Hu by lia.
Qed.

(** * Reading a string back *)
Lemma strz_ok p s : cstr p s -> strz p = Ok s.
Proof.
  intros [Hp HN].
  assert (Hl : (length s < S (length p.1))%nat).
  { pose proof (holds_len _ _ _ Hp ltac:(by destruct s)) as Hl. destruct Hp as [Hp0 _].
    rewrite len_app in Hl. change (len [NUL]) with 1 in Hl. unfold len in *. lia. }
  unfold strz. revert Hp Hl. generalize (S (length p.1)) p.2. destruct p as [b ?]. simpl.
  intros fuel i. revert i HN. generalize dependent s. induction fuel as [|f IH];
    intros s i HN Hp Hl; [lia|]. destruct s as [|c s]; simpl.
  - by rewrite (ld_holds _ _ _ Hp).
  - apply holds_cons in Hp as [Hc Hs]. rewrite (ld_holds _ _ _ Hc). simpl.
    apply not_elem_of_cons in HN as [HN1 HN2]. rewrite decide_False by congruence.
    rewrite (IH s); [done..|]. simpl in Hl. lia.
Qed.

(** * Case-insensitive comparison *)
Lemma char_code_inj a b : char_code a = char_code b -> a = b.
Proof.
  unfold char_code. intros H%Nat2Z.inj.
  rewrite <- (ascii_nat_embedding a), <- (ascii_nat_embedding b). by f_equal.
Qed.

Lemma tolower_NUL c : tolower c = NUL -> c = NUL.
Proof. destruct c as [[] [] [] [] [] [] [] []]; vm_compute; done. Qed.

(** [strcasecmp] returns 0 exactly on strings that are equal up to case. *)
Lemma strcasecmp_run p q s t :
  cstr p s -> cstr q t ->
  exists d, strcasecmp p q = Ok d /\ (d = 0 <-> tolower <$> s = tolower <$> t).
Proof.
  intros [Hp HNs] [Hq HNt].
  assert (Hl : (length s < S (length p.1))%nat).
  { pose proof (holds_len _ _ _ Hp ltac:(by destruct s)) as Hl. destruct Hp as [Hp0 _].
    rewrite len_app in Hl. change (len [NUL]) with 1 in Hl. unfold len in *. lia. }
  unfold strcasecmp. destruct p as [a i], q as [b j]; cbn [fst snd] in *.
  revert i j s t Hp Hq HNs HNt Hl. generalize (S (length a)).
  induction n as [|f IH]; intros i j s t Hp Hq HNs HNt Hl; [lia|]. simpl.
  destruct s as [|x s], t as [|y t].
  - rewrite (ld_holds _ _ _ Hp). simpl. rewrite (ld_holds _ _ _ Hq). by exists 0.
  - apply holds_cons in Hq as [Hy Hq]. rewrite (ld_holds _ _ _ Hp). simpl.
    rewrite (ld_holds _ _ _ Hy). simpl. apply not_elem_of_cons in HNt as [HNy _].
    destruct (Z.eqb_spec (char_code (tolower NUL) - char_code (tolower y)) 0) as [He|He].
    + exfalso. assert (tolower NUL = tolower y) as He2 by (apply char_code_inj; lia).
      symmetry in He2. by apply tolower_NUL in He2.
    + simpl. eexists. split; [done|]. done.
  - apply holds_cons in Hp as [Hx Hp]. rewrite (ld_holds _ _ _ Hx). simpl.
    rewrite (ld_holds _ _ _ Hq). simpl. apply not_elem_of_cons in HNs as [HNx _].
    destruct (Z.eqb_spec (char_code (tolower x) - char_code (tolower NUL)) 0) as [He|He].
    + exfalso. assert (tolower x = tolower NUL) as He2 by (apply char_code_inj; lia).
      by apply tolower_NUL in He2.
    + simpl. eexists. split; [done|]. done.
  - apply holds_cons in Hp as [Hx Hp]. apply holds_cons in Hq as [Hy Hq].
    rewrite (ld_holds _ _ _ Hx). simpl. rewrite (ld_holds _ _ _ Hy). simpl.
    apply not_elem_of_cons in HNs as [HNx HNs], HNt as [HNy HNt]. simpl in Hl.
    destruct (Z.eqb_spec (char_code (tolower x) - char_code (tolower y)) 0) as [He|He]; simpl.
    + rewrite decide_False by congruence.
      assert (tolower x = tolower y) as He2 by (apply char_code_inj; lia).
      destruct (IH (i + 1) (j + 1) s t) as (d & -> & Hd); [done..|lia|].
      exists d. split; [done|]. rewrite Hd. split; intros Ht; [f_equal; [exact He2|exact Ht]|].
      by injection Ht.
    + eexists. split; [done|]. split; [done|]. intros [= He2 _]. rewrite He2 in He. lia.
Qed.

(** * Formatting *)

(** The text a format denotes; [None] when an argument is missing or a
    conversion is not [%s]. *)
Fixpoint format_text (fmt : list ascii) (args : list (list ascii)) : option (list ascii) :=
  match fmt with
  | [] => Some []
  | "%"%char :: "s"%char :: fmt' =>
      match args with
      | a :: args' => app a <$> format_text fmt' args'
      | [] => None
      end
  | "%"%char :: _ => None
  | c :: fmt' => cons c <$> format_text fmt' args
  end.

(** Case analysis on the head of a format. *)
Lemma format_cases (fmt : list ascii) :
  fmt = [] \/ (exists f, fmt = "%"%char :: "s"%char :: f) \/
  (exists f, fmt = "%"%char :: f /\ forall args, format_text fmt args = None) \/
  (exists c f, fmt = c :: f /\
     (forall args, format_text fmt args = cons c <$> format_text f args) /\
     (forall args dst di,
        sprintf_loop fmt args dst di = (dst' ← st dst di c; sprintf_loop f args dst' (di + 1)))).
Proof.
  destruct fmt as [|c f]; [by left|]. right.
  destruct (decide (c = "%"%char)) as [->|Hc].
  - destruct f as [|d f]; [by right; left; eexists; split|].
    destruct (decide (d = "s"%char)) as [->|Hd]; [left; by eexists|].
    right; left. eexists. split; [done|]. intros args. simpl.
    by destruct d as [[] [] [] [] [] [] [] []].
  - right; right. exists c, f.
    destruct c as [[] [] [] [] [] [] [] []]; done.
Qed.

(** [sprintf] writes the formatted text and a terminator when they fit, and
    overflows otherwise. *)
Lemma sprintf_loop_run fmt args texts text dst di :
  Forall2 cstr args texts -> format_text fmt texts = Some text ->
  0 <= di -> di + len text < len dst ->
  sprintf_loop fmt args dst di = Ok (blit dst di (text ++ [NUL])).
Proof.
  remember (length fmt) as n eqn:Hn. revert fmt Hn args texts text dst di.
  induction n as [n IH] using lt_wf_ind. intros fmt -> args texts text dst di Hargs Htext Hdi Hfit.
  pose proof (len_nonneg text).
  destruct (format_cases fmt) as [->|[[f ->]|[(f & -> & Hbad)|(c & f & -> & Hft & Hrun)]]].
  - simpl in *. injection Htext as <-. simpl. apply st_in. lia.
  - simpl in *. destruct texts as [|t texts]; [done|].
    inversion Hargs as [|p ? args' ? Hp Hargs']; subst.
    destruct (format_text f texts) as [text'|] eqn:Ht; [|done]. injection Htext as <-.
    rewrite len_app in Hfit. pose proof (len_nonneg text'). pose proof (len_nonneg t).
    rewrite (copy_ok dst di p t) by (done || lia). simpl.
    rewrite (IH (length f)) with (texts := texts) (text := text'); [|lia|done..|lia|].
    + rewrite blit_blit, app_assoc; [done|lia|]. rewrite len_app. change (len [NUL]) with 1. lia.
    + rewrite len_blit; lia.
  - by rewrite Hbad in Htext.
  - rewrite Hft in Htext. rewrite Hrun.
    destruct (format_text f texts) as [text'|] eqn:Ht; [|done]. injection Htext as <-.
    rewrite len_cons in Hfit. pose proof (len_nonneg text').
    rewrite st_in by lia. simpl.
    rewrite (IH (length f)) with (texts := texts) (text := text'); [|simpl; lia|done..|lia|].
    + f_equal. apply (blit_blit dst di [c] (text' ++ [NUL])); [lia|].
      rewrite len_app. change (len [c]) with 1. change (len [NUL]) with 1. lia.
    + rewrite len_blit; change (len [c]) with 1; lia.
Qed.
