(* ===== verification/Spi.v ===== *)
(** The Server Programming Interface (src/postgresql/src/backend/executor/spi.c)
    as the functional-dependency front end uses it: the connection stack
    ([SPI_connect_ext], [SPI_finish], [AtEOXact_SPI]), the call brackets
    ([_SPI_begin_call], [_SPI_end_call]), tuple tables ([spi_dest_startup],
    [SPI_freetuptable]) and one-shot execution ([SPI_execute],
    [_SPI_execute_plan], [_SPI_pquery]), with [CommandIsReadOnly]
    (tcop/utility.c), [pg_plan_queries] (tcop/postgres.c) and
    [PlannedStmtRequiresSnapshot], [EnsurePortalSnapshotExists] (tcop/pquery.c).

    The grammar (generated from gram.y), parse analysis, the planner, the
    executor and [ProcessUtility] are arguments of the model, collected in the
    record [Backend]: they act on a database state [W] of their own, and the
    executor and [ProcessUtility], which run arbitrary functions, also on the
    command counter and the active-snapshot stack.  Everything here is proved
    for every choice of them; where a theorem relies on how they behave, it
    says so in a hypothesis. *)
From stdpp Require Export gmap.
From S2P Require Import Prelude.
From S2P Require Import CString.
Open Scope Z_scope.

(** * Statements *)
Inductive CmdType :=
| CMD_UNKNOWN | CMD_SELECT | CMD_UPDATE | CMD_INSERT | CMD_DELETE | CMD_UTILITY | CMD_NOTHING.

#[export] Instance CmdType_eq_dec : EqDecision CmdType.
Proof. solve_decision. Defined.

(** The utility statements [_SPI_execute_plan] and
    [PlannedStmtRequiresSnapshot] tell apart. *)
Inductive UtilityStmt :=
| CopyStmt (filename : option string)
| TransactionStmt
| CreateTableAsStmt (is_select_into : bool)
| LockStmt | VariableSetStmt | VariableShowStmt | ConstraintsSetStmt
| FetchStmt | ListenStmt | NotifyStmt | UnlistenStmt | CheckPointStmt
| CreateFunctionStmt (funcname : string)
| CreateTrigStmt (trigname : string)
| OtherUtilityStmt (tag : string).

Record PlannedStmt := {
  commandType : CmdType;
  hasReturning : bool;
  hasModifyingCTE : bool;
  canSetTag : bool;
  rowMarks : list Z;
  utilityStmt : option UtilityStmt
}.

(** The fields of a rewritten [Query] the code reads before planning. *)
Record Query := {
  q_commandType : CmdType;
  q_canSetTag : bool;
  q_utilityStmt : option UtilityStmt;
  q_payload : Z
}.

Definition CommandIsReadOnly (pstmt : PlannedStmt) : bool :=
  match commandType pstmt with
  | CMD_SELECT =>
      match rowMarks pstmt with
      | _ :: _ => false
      | [] => if hasModifyingCTE pstmt then false else true
      end
  | CMD_UPDATE | CMD_INSERT | CMD_DELETE => false
  | CMD_UTILITY => false
  | _ => false
  end.

Definition PlannedStmtRequiresSnapshot (pstmt : PlannedStmt) : bool :=
  match utilityStmt pstmt with
  | None => true
  | Some (TransactionStmt | LockStmt | VariableSetStmt | VariableShowStmt | ConstraintsSetStmt
         | FetchStmt | ListenStmt | NotifyStmt | UnlistenStmt | CheckPointStmt) => false
  | Some _ => true
  end.

(** * Return codes and options *)
Definition SPI_ERROR_COPY : Z := -2.
Definition SPI_ERROR_OPUNKNOWN : Z := -3.
Definition SPI_ERROR_UNCONNECTED : Z := -4.
Definition SPI_ERROR_ARGUMENT : Z := -6.
Definition SPI_ERROR_TRANSACTION : Z := -8.
Definition SPI_OK_CONNECT : Z := 1.
Definition SPI_OK_FINISH : Z := 2.
Definition SPI_OK_UTILITY : Z := 4.
Definition SPI_OK_SELECT : Z := 5.
Definition SPI_OK_SELINTO : Z := 6.
Definition SPI_OK_INSERT : Z := 7.
Definition SPI_OK_DELETE : Z := 8.
Definition SPI_OK_UPDATE : Z := 9.
Definition SPI_OK_INSERT_RETURNING : Z := 11.
Definition SPI_OK_DELETE_RETURNING : Z := 12.
Definition SPI_OK_UPDATE_RETURNING : Z := 13.
Definition SPI_OK_REWRITTEN : Z := 14.
Definition SPI_OPT_NONATOMIC : Z := 1.
Definition InvalidSubTransactionId : Z := 0.

Inductive CommandDest := DestNone | DestSPI | DestOther.

#[export] Instance CommandDest_eq_dec : EqDecision CommandDest.
Proof. solve_decision. Defined.

Inductive ProcessUtilityContext := PROCESS_UTILITY_QUERY | PROCESS_UTILITY_QUERY_NONATOMIC.

(** [SPIExecuteOptions]; [params] and [owner] are only handed on. *)
Record SPIExecuteOptions := {
  read_only : bool;
  allow_nonatomic : bool;
  must_return_tuples : bool;
  tcount : Z;
  opt_dest : option CommandDest
}.

(** * State *)

(** A tuple table: its memory context is its identity. *)
Record SPITupleTable := { tuptabcxt : Z; numvals : Z; subid : Z }.

#[export] Instance SPITupleTable_eq_dec : EqDecision SPITupleTable.
Proof. solve_decision. Defined.

(** [_SPI_connection]. *)
Record Connection := {
  processed : Z;
  tuptable : option SPITupleTable;
  execSubid : Z;
  tuptables : list SPITupleTable;
  procCxt : option Z;
  execCxt : option Z;
  savedcxt : Z;
  connectSubid : Z;
  atomic : bool;
  internal_xact : bool;
  outer_processed : Z;
  outer_tuptable : option SPITupleTable;
  outer_result : Z
}.

(** A snapshot: what it was taken as, and its command id. *)
Record Snapshot := { snap_id : Z; curcid : Z }.

(** The API globals of spi.c. *)
Record Api := {
  SPI_processed : Z;
  SPI_tuptable : option SPITupleTable;
  SPI_result : Z
}.

(** The connection stack: [_SPI_stack] ([None] is NULL; entries above
    [_SPI_connected] are indeterminate), [_SPI_stack_depth],
    [_SPI_connected] and [_SPI_current] as an index into the stack. *)
Record Stack := {
  SPI_stack : option (list (option Connection));
  SPI_stack_depth : Z;
  SPI_connected : Z;
  SPI_current : option Z
}.

(** With them the memory contexts (identified by numbers), the
    active-snapshot stack, the command counter, the current subtransaction
    and the database. *)
Record State {W : Type} := {
  api : Api;
  stk : Stack;
  CurrentMemoryContext : Z;
  contexts : gset Z;
  ActiveSnapshot : list Snapshot;
  commandId : Z;
  currentSubid : Z;
  world : W
}.
Arguments State : clear implicits.

(** What executing a statement can change besides the SPI state: the database,
    the command counter (a volatile function that is called from a query
    increments it) and the stack of active snapshots. *)
Record Env {W : Type} := {
  env_world : W;
  env_commandId : Z;
  env_snapshots : list Snapshot
}.
Arguments Env : clear implicits.

(** Code the model leaves open. [pfree_malloced] is [pfree] applied to memory
    that does not come from [palloc]: its outcome is left open. *)
Record ExecResult := { es_processed : Z; es_tuples : option Z }.
Record UtilResult := { qc_is_select : bool; qc_nprocessed : Z; ut_tuples : option Z }.

Record Backend {W : Type} := {
  RawStmt : Type;
  raw_parser : list ascii -> res (list RawStmt);
  pg_analyze_and_rewrite : RawStmt -> list ascii -> W -> res (list Query * W);
  resultDesc : list Query -> bool;
  pg_plan_query : Query -> list ascii -> W -> res (PlannedStmt * W);
  CreateCommandName : PlannedStmt -> string;
  Executor : PlannedStmt -> CommandDest -> Z -> bool -> Env W -> res (ExecResult * Env W);
  ProcessUtility : PlannedStmt -> ProcessUtilityContext -> CommandDest -> Env W ->
    res (UtilResult * Env W);
  TransactionSnapshot : W -> Z -> Snapshot;
  ActivePortal : W -> bool;
  NextCommandId : W -> Z -> Z;
  StartTransactionCommand : W -> res W;
  CommitTransactionCommand : W -> res W;
  pfree_malloced : W -> res W
}.
Arguments Backend : clear implicits.

(** What the planner documents (plannodes.h): only utility statements carry a
    [utilityStmt], and those do not go through it. *)
Definition planner_ok {W} (B : Backend W) : Prop :=
  forall q src w p w', B.(pg_plan_query) q src w = Ok (p, w') -> utilityStmt p = None.

(** * A state and error monad *)
Definition M (W A : Type) : Type := State W -> res (A * State W).

#[export] Instance M_ret {W} : MRet (M W) := fun A a s => Ok (a, s).
#[export] Instance M_bind {W} : MBind (M W) := fun A B k m s => '(a, s') ← m s; k a s'.

Definition get {W} : M W (State W) := fun s => Ok (s, s).
Definition put {W} (s : State W) : M W unit := fun _ => Ok (tt, s).
Definition raise {W A} (msg : string) : M W A := fun _ => Err msg.
Definition undefined {W A} (what : string) : M W A := fun _ => UB what.
Definition lift {W A} (r : res A) : M W A := fun s => a ← r; Ok (a, s).

Definition set_api {W} (a : Api) : M W unit := fun s =>
  Ok (tt, {| api := a; stk := stk s; CurrentMemoryContext := CurrentMemoryContext s;
             contexts := contexts s; ActiveSnapshot := ActiveSnapshot s;
             commandId := commandId s; currentSubid := currentSubid s; world := world s |}).
Definition set_stk {W} (k : Stack) : M W unit := fun s =>
  Ok (tt, {| api := api s; stk := k; CurrentMemoryContext := CurrentMemoryContext s;
             contexts := contexts s; ActiveSnapshot := ActiveSnapshot s;
             commandId := commandId s; currentSubid := currentSubid s; world := world s |}).
Definition set_contexts {W} (cur : Z) (live : gset Z) : M W unit := fun s =>
  Ok (tt, {| api := api s; stk := stk s; CurrentMemoryContext := cur;
             contexts := live; ActiveSnapshot := ActiveSnapshot s;
             commandId := commandId s; currentSubid := currentSubid s; world := world s |}).
Definition set_snapshots {W} (l : list Snapshot) : M W unit := fun s =>
  Ok (tt, {| api := api s; stk := stk s; CurrentMemoryContext := CurrentMemoryContext s;
             contexts := contexts s; ActiveSnapshot := l;
             commandId := commandId s; currentSubid := currentSubid s; world := world s |}).
Definition set_commandId {W} (c : Z) : M W unit := fun s =>
  Ok (tt, {| api := api s; stk := stk s; CurrentMemoryContext := CurrentMemoryContext s;
             contexts := contexts s; ActiveSnapshot := ActiveSnapshot s;
             commandId := c; currentSubid := currentSubid s; world := world s |}).
Definition lift_world {W A} (f : W -> res (A * W)) : M W A := fun s =>
  '(a, w) ← f (world s);
  Ok (a, {| api := api s; stk := stk s; CurrentMemoryContext := CurrentMemoryContext s;
            contexts := contexts s; ActiveSnapshot := ActiveSnapshot s;
            commandId := commandId s; currentSubid := currentSubid s; world := w |}).

Definition lift_env {W A} (f : Env W -> res (A * Env W)) : M W A := fun s =>
  '(a, e) ← f {| env_world := world s; env_commandId := commandId s;
                 env_snapshots := ActiveSnapshot s |};
  Ok (a, {| api := api s; stk := stk s; CurrentMemoryContext := CurrentMemoryContext s;
            contexts := contexts s; ActiveSnapshot := env_snapshots e;
            commandId := env_commandId e; currentSubid := currentSubid s;
            world := env_world e |}).

(** * Memory contexts and snapshots *)
Definition MemoryContextSwitchTo {W} (c : Z) : M W Z :=
  s ← get; set_contexts c (contexts s);; mret (CurrentMemoryContext s).

(** A context that is not live yet. *)
Definition AllocSetContextCreate {W} : M W Z :=
  s ← get;
  let c := fresh (contexts s) in
  set_contexts (CurrentMemoryContext s) ({[c]} ∪ contexts s);; mret c.

Definition MemoryContextDelete {W} (c : Z) : M W unit :=
  s ← get; set_contexts (CurrentMemoryContext s) (contexts s ∖ {[c]}).

Definition PushActiveSnapshot {W} (snap : Snapshot) : M W unit :=
  s ← get; set_snapshots (snap :: ActiveSnapshot s).

(** [newstack = ActiveSnapshot->as_next] with no active snapshot is a null
    dereference. *)
Definition PopActiveSnapshot {W} : M W unit :=
  s ← get;
  match ActiveSnapshot s with
  | _ :: l => set_snapshots l
  | [] => undefined "null pointer"
  end.

Definition ActiveSnapshotSet {W} (s : State W) : bool :=
  match ActiveSnapshot s with [] => false | _ => true end.

Definition UpdateActiveSnapshotCommandId {W} : M W unit :=
  s ← get;
  match ActiveSnapshot s with
  | snap :: l => set_snapshots ({| snap_id := snap_id snap; curcid := commandId s |} :: l)
  | [] => undefined "null pointer"
  end.

(** * The current connection *)
Definition cur_conn {W} : M W (option Connection) :=
  s ← get;
  match SPI_current (stk s), SPI_stack (stk s) with
  | None, _ => mret None
  | Some i, Some l =>
      c ← lift (rd l i);
      match c with
      | Some c => mret (Some c)
      | None => undefined "indeterminate stack entry"
      end
  | Some _, None => undefined "null pointer"
  end.

(** [_SPI_current->field = ...]. *)
Definition upd_conn {W} (f : Connection -> Connection) : M W unit :=
  s ← get;
  match SPI_current (stk s), SPI_stack (stk s) with
  | Some i, Some l =>
      c ← lift (rd l i);
      match c with
      | Some c =>
          l' ← lift (wr l i (Some (f c)));
          set_stk {| SPI_stack := Some l'; SPI_stack_depth := SPI_stack_depth (stk s);
                     SPI_connected := SPI_connected (stk s);
                     SPI_current := SPI_current (stk s) |}
      | None => undefined "indeterminate stack entry"
      end
  | _, _ => undefined "null pointer"
  end.

Definition need_conn {W} : M W Connection :=
  c ← cur_conn;
  match c with Some c => mret c | None => undefined "null pointer" end.

Definition with_results (p : Z) (t : option SPITupleTable) (ts : list SPITupleTable)
    (c : Connection) : Connection :=
  {| processed := p; tuptable := t; execSubid := execSubid c; tuptables := ts;
     procCxt := procCxt c; execCxt := execCxt c; savedcxt := savedcxt c;
     connectSubid := connectSubid c; atomic := atomic c; internal_xact := internal_xact c;
     outer_processed := outer_processed c; outer_tuptable := outer_tuptable c;
     outer_result := outer_result c |}.

Definition with_execSubid (x : Z) (c : Connection) : Connection :=
  {| processed := processed c; tuptable := tuptable c; execSubid := x; tuptables := tuptables c;
     procCxt := procCxt c; execCxt := execCxt c; savedcxt := savedcxt c;
     connectSubid := connectSubid c; atomic := atomic c; internal_xact := internal_xact c;
     outer_processed := outer_processed c; outer_tuptable := outer_tuptable c;
     outer_result := outer_result c |}.

Definition with_contexts (p e : option Z) (c : Connection) : Connection :=
  {| processed := processed c; tuptable := tuptable c; execSubid := execSubid c;
     tuptables := tuptables c; procCxt := p; execCxt := e; savedcxt := savedcxt c;
     connectSubid := connectSubid c; atomic := atomic c; internal_xact := internal_xact c;
     outer_processed := outer_processed c; outer_tuptable := outer_tuptable c;
     outer_result := outer_result c |}.

(** * SPI_connect and SPI_finish *)

(** The first half of [SPI_connect_ext]: allocate the stack or double it. *)
Definition enlarge_stack (k : Stack) : res Stack :=
  match SPI_stack k with
  | None =>
      if negb (SPI_connected k =? -1) || negb (SPI_stack_depth k =? 0)
      then Err "SPI stack corrupted"
      else Ok {| SPI_stack := Some (replicate 16 None); SPI_stack_depth := 16;
                 SPI_connected := SPI_connected k; SPI_current := SPI_current k |}
  | Some l =>
      if (SPI_stack_depth k <=? 0) || (SPI_stack_depth k <=? SPI_connected k)
      then Err "SPI stack corrupted"
      else if SPI_stack_depth k =? SPI_connected k + 1
      then let newdepth := SPI_stack_depth k * 2 in
           Ok {| SPI_stack := Some (l ++ replicate (Z.to_nat (newdepth - len l)) None);
                 SPI_stack_depth := newdepth;
                 SPI_connected := SPI_connected k; SPI_current := SPI_current k |}
      else Ok k
  end.

Definition SPI_connect_ext {W} (options : Z) : M W Z :=
  s0 ← get;
  k ← lift (enlarge_stack (stk s0));
  let n := SPI_connected k + 1 in
  l ← match SPI_stack k with Some l => mret l | None => undefined "null pointer" end;
  let conn :=
    {| processed := 0; tuptable := None; execSubid := InvalidSubTransactionId; tuptables := [];
       procCxt := None; execCxt := None; savedcxt := 0;
       connectSubid := currentSubid s0;
       atomic := if Z.testbit options 0 then false else true;
       internal_xact := false;
       outer_processed := SPI_processed (api s0); outer_tuptable := SPI_tuptable (api s0);
       outer_result := SPI_result (api s0) |} in
  l' ← lift (wr l n (Some conn));
  set_stk {| SPI_stack := Some l'; SPI_stack_depth := SPI_stack_depth k;
             SPI_connected := n; SPI_current := Some n |};;
  pc ← AllocSetContextCreate;
  ec ← AllocSetContextCreate;
  upd_conn (with_contexts (Some pc) (Some ec));;
  saved ← MemoryContextSwitchTo pc;
  upd_conn (fun c => {| processed := processed c; tuptable := tuptable c;
     execSubid := execSubid c; tuptables := tuptables c; procCxt := procCxt c;
     execCxt := execCxt c; savedcxt := saved; connectSubid := connectSubid c;
     atomic := atomic c; internal_xact := internal_xact c;
     outer_processed := outer_processed c; outer_tuptable := outer_tuptable c;
     outer_result := outer_result c |});;
  set_api {| SPI_processed := 0; SPI_tuptable := None; SPI_result := 0 |};;
  mret SPI_OK_CONNECT.

Definition SPI_connect {W} : M W Z := SPI_connect_ext 0.

Definition switch_to_cxt {W} (c : option Z) : M W unit :=
  match c with
  | Some c => MemoryContextSwitchTo c;; mret tt
  | None => undefined "null pointer"
  end.

Definition _SPI_begin_call {W} (use_exec : bool) : M W Z :=
  c ← cur_conn;
  match c with
  | None => mret SPI_ERROR_UNCONNECTED
  | Some c =>
      if use_exec then
        s ← get;
        upd_conn (with_execSubid (currentSubid s));;
        switch_to_cxt (execCxt c);;
        mret 0
      else mret 0
  end.

(** The executor context's own content, which is reset, is not modelled. *)
Definition _SPI_end_call {W} (use_exec : bool) : M W Z :=
  if use_exec then
    c ← need_conn;
    switch_to_cxt (procCxt c);;
    upd_conn (with_execSubid InvalidSubTransactionId);;
    mret 0
  else mret 0.

Definition delete_cxt {W} (c : option Z) : M W unit :=
  match c with
  | Some c => MemoryContextDelete c
  | None => undefined "null pointer"
  end.

(** Deleting a context deletes its children: the tuple tables' contexts are
    children of [procCxt]. *)
Definition delete_tuptables {W} (ts : list SPITupleTable) : M W unit :=
  s ← get;
  set_contexts (CurrentMemoryContext s) (contexts s ∖ list_to_set (tuptabcxt <$> ts)).

Definition pop_stack {W} : M W unit :=
  s ← get;
  let n := SPI_connected (stk s) - 1 in
  set_stk {| SPI_stack := SPI_stack (stk s); SPI_stack_depth := SPI_stack_depth (stk s);
             SPI_connected := n;
             SPI_current := if n <? 0 then None else Some n |}.

Definition SPI_finish {W} : M W Z :=
  r ← _SPI_begin_call false;
  if r <? 0 then mret r
  else
    c ← need_conn;
    MemoryContextSwitchTo (savedcxt c);;
    delete_cxt (execCxt c);;
    delete_tuptables (tuptables c);;
    delete_cxt (procCxt c);;
    upd_conn (with_contexts None None);;
    set_api {| SPI_processed := outer_processed c; SPI_tuptable := outer_tuptable c;
               SPI_result := outer_result c |};;
    pop_stack;;
    mret SPI_OK_FINISH.

(** [AtEOXact_SPI]: pop the entries that are not marked [internal_xact]; the
    result tells whether the warning is given. *)
Fixpoint AtEOXact_loop {W} (fuel : nat) (found : bool) : M W bool :=
  s ← get;
  if SPI_connected (stk s) <? 0 then mret found
  else match fuel with
  | O => undefined "fuel"
  | S f =>
      match SPI_stack (stk s) with
      | None => undefined "null pointer"
      | Some l =>
          c ← lift (rd l (SPI_connected (stk s)));
          match c with
          | None => undefined "indeterminate stack entry"
          | Some c =>
              if internal_xact c then mret found
              else
                set_api {| SPI_processed := outer_processed c;
                           SPI_tuptable := outer_tuptable c;
                           SPI_result := outer_result c |};;
                pop_stack;;
                AtEOXact_loop f true
          end
      end
  end.

Definition AtEOXact_SPI {W} (isCommit : bool) : M W bool :=
  s ← get;
  found ← AtEOXact_loop (Z.to_nat (SPI_connected (stk s) + 1)) false;
  mret (found && isCommit).

(** * Tuple tables *)

(** [spi_dest_startup], with the number of tuples [spi_printtup] then stores. *)
Definition spi_dest_startup {W} (ntuples : Z) : M W unit :=
  c ← cur_conn;
  match c with
  | None => raise "spi_dest_startup called while not connected to SPI"
  | Some c =>
      match tuptable c with
      | Some _ => raise "improper call to spi_dest_startup"
      | None =>
          cxt ← AllocSetContextCreate;
          s ← get;
          let tt := {| tuptabcxt := cxt; numvals := ntuples; subid := currentSubid s |} in
          upd_conn (fun c => with_results (processed c) (Some tt) (tt :: tuptables c) c)
      end
  end.

Definition set_tuptable {W} (t : option SPITupleTable) : M W unit :=
  upd_conn (fun c => with_results (processed c) t (tuptables c) c).

Definition set_processed {W} (n : Z) : M W unit :=
  upd_conn (fun c => with_results n (tuptable c) (tuptables c) c).

(** [slist_delete_current] on the first entry that is [t]. *)
Fixpoint slist_delete (t : SPITupleTable) (l : list SPITupleTable) : list SPITupleTable :=
  match l with
  | [] => []
  | x :: l' => if decide (x = t) then l' else x :: slist_delete t l'
  end.

(** [SPI_freetuptable]: a table that is not on the current connection's list
    gets a warning and nothing else. *)
Definition SPI_freetuptable {W} (t : option SPITupleTable) : M W unit :=
  match t with
  | None => mret tt
  | Some t =>
      c ← cur_conn;
      match c with
      | None => mret tt
      | Some c =>
          if bool_decide (t ∈ tuptables c) then
            upd_conn (fun c => with_results (processed c)
              (if bool_decide (tuptable c = Some t) then None else tuptable c)
              (slist_delete t (tuptables c)) c);;
            s ← get;
            set_api {| SPI_processed := SPI_processed (api s);
                       SPI_tuptable := if bool_decide (SPI_tuptable (api s) = Some t)
                                       then None else SPI_tuptable (api s);
                       SPI_result := SPI_result (api s) |};;
            MemoryContextDelete (tuptabcxt t)
          else mret tt
      end
  end.

Section execution.
Context {W : Type} (B : Backend W).

Definition GetTransactionSnapshot : M W Snapshot :=
  s ← get; mret (B.(TransactionSnapshot) (world s) (commandId s)).

(** [CommandCounterIncrement] (xact.c): the new command id depends on whether
    the current one was used, which is part of the backend's state. *)
Definition CommandCounterIncrement : M W unit :=
  s ← get; set_commandId (B.(NextCommandId) (world s) (commandId s)).

Definition EnsurePortalSnapshotExists : M W unit :=
  s ← get;
  if ActiveSnapshotSet s then mret tt
  else if B.(ActivePortal) (world s)
  then snap ← GetTransactionSnapshot; PushActiveSnapshot snap
  else raise "cannot execute SQL without an outer snapshot or portal".

(** [pg_plan_queries]. *)
Fixpoint pg_plan_queries (querytrees : list Query) (query_string : list ascii)
  : M W (list PlannedStmt) :=
  match querytrees with
  | [] => mret []
  | query :: rest =>
      stmt ← (if decide (q_commandType query = CMD_UTILITY)
              then mret {| commandType := CMD_UTILITY; hasReturning := false;
                           hasModifyingCTE := false; canSetTag := q_canSetTag query;
                           rowMarks := []; utilityStmt := q_utilityStmt query |}
              else lift_world (B.(pg_plan_query) query query_string));
      stmt_list ← pg_plan_queries rest query_string;
      mret (stmt :: stmt_list)
  end.

(** [_SPI_pquery]. *)
Definition _SPI_pquery (stmt : PlannedStmt) (dest : CommandDest) (fire_triggers : bool)
    (tcount : Z) : M W Z :=
  let code :=
    match commandType stmt with
    | CMD_SELECT => Some (if decide (dest = DestNone) then SPI_OK_UTILITY else SPI_OK_SELECT)
    | CMD_INSERT => Some (if hasReturning stmt then SPI_OK_INSERT_RETURNING else SPI_OK_INSERT)
    | CMD_DELETE => Some (if hasReturning stmt then SPI_OK_DELETE_RETURNING else SPI_OK_DELETE)
    | CMD_UPDATE => Some (if hasReturning stmt then SPI_OK_UPDATE_RETURNING else SPI_OK_UPDATE)
    | _ => None
    end in
  match code with
  | None => mret SPI_ERROR_OPUNKNOWN
  | Some r =>
      e ← lift_env (B.(Executor) stmt dest tcount fire_triggers);
      match es_tuples e with
      | Some n => if decide (dest = DestSPI) then spi_dest_startup n else mret tt
      | None => mret tt
      end;;
      set_processed (es_processed e);;
      c ← need_conn;
      if ((r =? SPI_OK_SELECT) || hasReturning stmt) && bool_decide (dest = DestSPI)
         && match tuptable c with
            | None => true
            | Some t => negb (processed c =? numvals t)
            end
      then raise "consistency check on SPI tuple count failed"
      else mret r
  end.

(** The local variables of [_SPI_execute_plan] that live across statements. *)
Record Locals := {
  my_res : Z;
  my_processed : Z;
  my_tuptable : option SPITupleTable;
  pushed_active_snap : bool
}.

Definition with_my_res (r : Z) (l : Locals) : Locals :=
  {| my_res := r; my_processed := my_processed l; my_tuptable := my_tuptable l;
     pushed_active_snap := pushed_active_snap l |}.

Definition with_pushed (b : bool) (l : Locals) : Locals :=
  {| my_res := my_res l; my_processed := my_processed l; my_tuptable := my_tuptable l;
     pushed_active_snap := b |}.

(** The utility branch: [ProcessUtility] and its result code. *)
Definition exec_utility (options : SPIExecuteOptions) (stmt : PlannedStmt) (u : UtilityStmt)
    (dest : CommandDest) : M W Z :=
  c ← need_conn;
  let context := if atomic c || negb (allow_nonatomic options)
                 then PROCESS_UTILITY_QUERY else PROCESS_UTILITY_QUERY_NONATOMIC in
  qc ← lift_env (B.(ProcessUtility) stmt context dest);
  match ut_tuples qc with
  | Some n => if decide (dest = DestSPI)
              then spi_dest_startup n;; set_processed n else mret tt
  | None => mret tt
  end;;
  match u with
  | CreateTableAsStmt is_select_into =>
      set_processed (if qc_is_select qc then qc_nprocessed qc else 0);;
      mret (if is_select_into then SPI_OK_SELINTO else SPI_OK_UTILITY)
  | CopyStmt _ => set_processed (qc_nprocessed qc);; mret SPI_OK_UTILITY
  | _ => mret SPI_OK_UTILITY
  end.

(** One iteration of the loop over [stmt_list] from the read-only check on;
    [inr] is [goto fail]. *)
Definition exec_supported (options : SPIExecuteOptions) (fire_triggers : bool)
    (stmt : PlannedStmt) (l : Locals) : M W (Locals + Locals) :=
  if read_only options && negb (CommandIsReadOnly stmt)
  then raise (B.(CreateCommandName) stmt ++ " is not allowed in a non-volatile function")
  else
    (if negb (read_only options) && pushed_active_snap l
     then CommandCounterIncrement;; UpdateActiveSnapshotCommandId else mret tt);;
    let dest := if negb (canSetTag stmt) then DestNone
                else match opt_dest options with Some d => d | None => DestSPI end in
    r ← match utilityStmt stmt with
        | None => _SPI_pquery stmt dest fire_triggers
                    (if canSetTag stmt then tcount options else 0)
        | Some u => exec_utility options stmt u dest
        end;
    c ← need_conn;
    l' ← (if canSetTag stmt
          then SPI_freetuptable (my_tuptable l);;
               c' ← need_conn;
               mret {| my_res := r; my_processed := processed c;
                       my_tuptable := tuptable c';
                       pushed_active_snap := pushed_active_snap l |}
          else SPI_freetuptable (tuptable c);; set_tuptable None;; mret l);
    mret (if r <? 0 then inr (with_my_res r l') else inl l').

(** The whole iteration: reset the output state, refuse what SPI does not
    support, go on. *)
Definition exec_one (options : SPIExecuteOptions) (fire_triggers : bool)
    (stmt : PlannedStmt) (l : Locals) : M W (Locals + Locals) :=
  upd_conn (fun c => with_results 0 None (tuptables c) c);;
  match utilityStmt stmt with
  | Some (CopyStmt None) => mret (inr (with_my_res SPI_ERROR_COPY l))
  | Some TransactionStmt => mret (inr (with_my_res SPI_ERROR_TRANSACTION l))
  | _ => exec_supported options fire_triggers stmt l
  end.

Fixpoint exec_stmt_list (options : SPIExecuteOptions) (fire_triggers : bool)
    (stmts : list PlannedStmt) (l : Locals) : M W (Locals + Locals) :=
  match stmts with
  | [] => mret (inl l)
  | stmt :: rest =>
      o ← exec_one options fire_triggers stmt l;
      match o with
      | inl l' => exec_stmt_list options fire_triggers rest l'
      | inr l' => mret (inr l')
      end
  end.

(** The snapshot set up for one statement list. *)
Definition setup_snapshot (options : SPIExecuteOptions) (snapshot : option Snapshot)
    (stmts : list PlannedStmt) (l : Locals) : M W Locals :=
  if bool_decide (snapshot = None) &&
     match stmts with
     | [] => false
     | [p] => PlannedStmtRequiresSnapshot p
     | _ => true
     end
  then
    EnsurePortalSnapshotExists;;
    (if negb (read_only options) && negb (allow_nonatomic options)
     then
       (if pushed_active_snap l then PopActiveSnapshot else mret tt);;
       snap ← GetTransactionSnapshot;
       PushActiveSnapshot snap;;
       mret (with_pushed true l)
     else mret l)
  else mret l.

(** The loop over [plan->plancache_list], a one-shot plan: analysis and
    planning happen as each entry is reached. *)
Fixpoint exec_plancache_list (options : SPIExecuteOptions) (snapshot : option Snapshot)
    (fire_triggers : bool) (src : list ascii) (plans : list (B.(RawStmt))) (l : Locals)
  : M W Locals :=
  match plans with
  | [] => mret l
  | parsetree :: rest =>
      queries ← lift_world (B.(pg_analyze_and_rewrite) parsetree src);
      if must_return_tuples options && negb (B.(resultDesc) queries)
      then raise "query does not return tuples"
      else
        stmts ← pg_plan_queries queries src;
        l' ← setup_snapshot options snapshot stmts l;
        o ← exec_stmt_list options fire_triggers stmts l';
        match o with
        | inr l'' => mret l''
        | inl l'' =>
            (if negb (read_only options) then CommandCounterIncrement else mret tt);;
            exec_plancache_list options snapshot fire_triggers src rest l''
        end
  end.

Definition _SPI_execute_plan (src : list ascii) (plans : list (B.(RawStmt)))
    (options : SPIExecuteOptions) (snapshot : option Snapshot) (fire_triggers : bool) : M W Z :=
  pushed ← match snapshot with
           | Some snap => PushActiveSnapshot snap;; mret true
           | None => mret false
           end;
  if must_return_tuples options && match plans with [] => true | _ => false end
  then raise "empty query does not return tuples"
  else
    l ← exec_plancache_list options snapshot fire_triggers src plans
          {| my_res := 0; my_processed := 0; my_tuptable := None;
             pushed_active_snap := pushed |};
    (if pushed_active_snap l then PopActiveSnapshot else mret tt);;
    s ← get;
    set_api {| SPI_processed := my_processed l; SPI_tuptable := my_tuptable l;
               SPI_result := SPI_result (api s) |};;
    set_tuptable None;;
    mret (if my_res l =? 0 then SPI_OK_REWRITTEN else my_res l).

(** [SPI_execute]; [None] is a null [src]. *)
Definition SPI_execute (src : option (list ascii)) (ro : bool) (tc : Z) : M W Z :=
  match src with
  | None => mret SPI_ERROR_ARGUMENT
  | Some src =>
      if tc <? 0 then mret SPI_ERROR_ARGUMENT
      else
        r ← _SPI_begin_call true;
        if r <? 0 then mret r
        else
          plans ← lift (B.(raw_parser) src);
          r ← _SPI_execute_plan src plans
                {| read_only := ro; allow_nonatomic := false; must_return_tuples := false;
                   tcount := tc; opt_dest := None |} None true;
          _SPI_end_call true;;
          mret r
  end.
End execution.

#[global] Arguments SPI_execute : simpl never.
