(* ===== verification/SpiProps.v ===== *)
(** Properties of the Server Programming Interface model of Spi.v: nesting of
    connections, cleanup at abort, snapshot and command-counter discipline of
    [SPI_execute], and what read-only execution refuses. *)
From S2P Require Import Prelude.
From S2P Require Import CString.
From S2P Require Import Spi.
Open Scope Z_scope.

(** * Reasoning about returned values *)

(** Every normal return of [m] from [s] satisfies [Q]. *)
Definition returns {W A} (m : M W A) (s : State W) (Q : A -> State W -> Prop) : Prop :=
  forall a s', m s = Ok (a, s') -> Q a s'.

Lemma returns_bind {W A A'} (m : M W A) (k : A -> M W A') s Q :
  returns m s (fun a s' => returns (k a) s' Q) -> returns (m ≫= k) s Q.
Proof.
  unfold returns. intros H b s2. simpl. unfold mbind, M_bind.
  destruct (m s) as [[a s1]|e|w] eqn:E; [|done|done]. simpl. by apply H.
Qed.

Lemma returns_ret {W A} (a : A) (s : State W) (Q : A -> State W -> Prop) :
  Q a s -> returns (mret a) s Q.
Proof. by intros H b s' [= <- <-]. Qed.

Lemma returns_get {W} (s : State W) (Q : State W -> State W -> Prop) : Q s s -> returns get s Q.
Proof. by intros H b s' [= <- <-]. Qed.

Lemma returns_raise {W A} msg (s : State W) (Q : A -> State W -> Prop) : returns (raise msg) s Q.
Proof. done. Qed.

Lemma returns_undefined {W A} w (s : State W) (Q : A -> State W -> Prop) :
  returns (undefined w) s Q.
Proof. done. Qed.

Lemma returns_mono {W A} (m : M W A) s (P Q : A -> State W -> Prop) :
  returns m s P -> (forall a s', P a s' -> Q a s') -> returns m s Q.
Proof. intros H HPQ a s' Hm. by apply HPQ, H. Qed.

Lemma returns_lift {W A} (r : res A) (s : State W) (Q : A -> State W -> Prop) :
  (forall a, r = Ok a -> Q a s) -> returns (lift r) s Q.
Proof. intros H a s'. unfold lift. destruct r as [b|e|w]; [|done|done]. intros [= <- <-]. by apply H. Qed.

Lemma returns_true {W A} (m : M W A) s : returns m s (fun _ _ => True).
Proof. done. Qed.

Create HintDb spi.
#[export] Hint Resolve returns_raise returns_undefined returns_true returns_ret returns_get : spi.

(** One step of a returned computation. *)
Ltac ret_step :=
  lazymatch goal with
  | |- returns (mbind _ _) _ _ => apply returns_bind
  | |- returns (mret _) _ _ => apply returns_ret
  | |- returns get _ _ => apply returns_get
  | |- returns (raise _) _ _ => apply returns_raise
  | |- returns (undefined _) _ _ => apply returns_undefined
  | |- returns (if ?b then _ else _) _ _ => destruct b eqn:?
  | |- returns (match ?x with _ => _ end) _ _ => destruct x eqn:?
  end.

Ltac ret_steps := repeat (ret_step; cbv beta).

(** Ignoring the value and state of the first part of a sequence. *)
Lemma returns_seq {W A A'} (m : M W A) (k : A -> M W A') s Q :
  (forall a s', returns (k a) s' Q) -> returns (m ≫= k) s Q.
Proof. intros H. apply returns_bind. intros a s' _. apply H. Qed.

(** * Read-only execution *)
Section readonly.
Context {W : Type} (B : Backend W) (Hplanner : planner_ok B).

(** What planning guarantees of each statement. *)
Definition stmt_ok (p : PlannedStmt) : Prop :=
  match utilityStmt p with Some _ => commandType p = CMD_UTILITY | None => True end.

Lemma pg_plan_queries_stmt_ok qs src s :
  returns (pg_plan_queries B qs src) s (fun ps _ => Forall stmt_ok ps).
Proof using Hplanner.
  revert s. induction qs as [|q qs IH]; intros s; simpl; [by apply returns_ret; constructor|].
  apply returns_bind.
  apply (returns_mono _ _ (fun p _ => stmt_ok p)).
  - case_decide; [by apply returns_ret; unfold stmt_ok; simpl; case_match|].
    intros p s'. unfold lift_world, mbind, res_bind.
    destruct (pg_plan_query B q src (world s)) as [[p' w]|e|w] eqn:E; [|done|done].
    intros [= <- <-]. unfold stmt_ok. by rewrite (Hplanner _ _ _ _ _ E).
  - intros p s1 Hp. apply returns_bind. eapply returns_mono; [apply IH|].
    intros ps s2 Hps. apply returns_ret. by constructor.
Qed.

Lemma SPI_pquery_res p dest ft tc s :
  dest <> DestNone ->
  returns (_SPI_pquery B p dest ft tc) s (fun r _ => r <> SPI_OK_UTILITY).
Proof.
  intros Hd. unfold _SPI_pquery.
  destruct (commandType p); simpl; try (by apply returns_ret);
    rewrite ?(decide_False (P := dest = DestNone)) by done;
    do 4 (apply returns_seq; intros ? ?); (ret_step; [apply returns_raise|]);
    apply returns_ret; by repeat case_match.
Qed.

Lemma readonly_utility p : stmt_ok p -> CommandIsReadOnly p = true -> utilityStmt p = None.
Proof.
  unfold stmt_ok, CommandIsReadOnly. destruct (utilityStmt p); [|done]. by intros ->.
Qed.

Definition locals_of (o : Locals + Locals) : Locals := match o with inl l | inr l => l end.

Lemma exec_one_readonly options ft p l s :
  read_only options = true -> opt_dest options = None -> stmt_ok p ->
  my_res l <> SPI_OK_UTILITY ->
  returns (exec_one B options ft p l) s (fun o _ => my_res (locals_of o) <> SPI_OK_UTILITY).
Proof.
  intros Hro Hdest Hp Hl. unfold exec_one. apply returns_seq. intros _ s1.
  assert (Hbody : returns (exec_supported B options ft p l) s1
    (fun o _ => my_res (locals_of o) <> SPI_OK_UTILITY)).
  { unfold exec_supported. rewrite Hro, Hdest. simpl.
    destruct (CommandIsReadOnly p) eqn:Hcro; simpl; [|apply returns_raise].
    rewrite (readonly_utility p Hp Hcro). apply returns_seq. intros _ s2.
    apply returns_bind. destruct (canSetTag p) eqn:Htag; simpl.
    - eapply returns_mono; [by apply SPI_pquery_res|]. intros r s3 Hr. cbv beta.
      apply returns_seq. intros c s4. apply returns_bind. do 2 (apply returns_seq; intros ? ?).
      apply returns_ret. apply returns_ret. by case_match.
    - intros r s3 _. apply returns_seq. intros c s4. apply returns_bind.
      do 2 (apply returns_seq; intros ? ?). apply returns_ret. apply returns_ret.
      destruct (Z.ltb_spec r 0); simpl; [|done]. unfold SPI_OK_UTILITY. lia. }
  destruct (utilityStmt p) as [[[f|]| | | | | | | | | | | | | |]|]; try exact Hbody;
    by apply returns_ret.
Qed.

Lemma exec_stmt_list_readonly options ft ps l s :
  read_only options = true -> opt_dest options = None -> Forall stmt_ok ps ->
  my_res l <> SPI_OK_UTILITY ->
  returns (exec_stmt_list B options ft ps l) s
    (fun o _ => my_res (locals_of o) <> SPI_OK_UTILITY).
Proof.
  intros Hro Hdest Hps. revert l s. induction Hps as [|p ps Hp Hps IH]; intros l s Hl; simpl.
  - by apply returns_ret.
  - apply returns_bind. eapply returns_mono; [by apply exec_one_readonly|].
    intros [l'|l'] s' Hl'; simpl in Hl'; [by apply IH|by apply returns_ret].
Qed.

Lemma setup_snapshot_locals options snap ps l s :
  returns (setup_snapshot B options snap ps l) s (fun l' _ => my_res l' = my_res l).
Proof.
  unfold setup_snapshot. ret_step; [|by apply returns_ret]. apply returns_seq. intros _ s1.
  ret_step; [|by apply returns_ret]. do 3 (apply returns_seq; intros ? ?). by apply returns_ret.
Qed.

Lemma exec_plancache_list_readonly options snap ft src plans l s :
  read_only options = true -> opt_dest options = None -> my_res l <> SPI_OK_UTILITY ->
  returns (exec_plancache_list B options snap ft src plans l) s
    (fun l' _ => my_res l' <> SPI_OK_UTILITY).
Proof using Hplanner.
  intros Hro Hdest. revert l s. induction plans as [|t plans IH]; intros l s Hl; simpl.
  - by apply returns_ret.
  - apply returns_seq. intros qs s1. ret_step; [apply returns_raise|].
    apply returns_bind. eapply returns_mono; [apply pg_plan_queries_stmt_ok|].
    intros ps s2 Hps. apply returns_bind. eapply returns_mono; [apply setup_snapshot_locals|].
    intros l1 s3 Hl1. apply returns_bind.
    eapply returns_mono; [apply exec_stmt_list_readonly; [done..|congruence]|].
    intros [l2|l2] s4 Hl2; simpl in Hl2; [|by apply returns_ret].
    apply returns_seq. intros _ s5. by apply IH.
Qed.

Lemma SPI_execute_readonly src tc s :
  returns (SPI_execute B src true tc) s (fun r _ => r <> SPI_OK_UTILITY).
Proof using Hplanner.
  unfold SPI_execute. destruct src as [src|]; [|by apply returns_ret].
  ret_step; [by apply returns_ret|]. apply returns_seq. intros r s1.
  ret_step; [apply returns_ret; unfold SPI_OK_UTILITY; lia|].
  apply returns_seq. intros plans s2. apply returns_bind.
  apply (returns_mono _ _ (fun r _ => r <> SPI_OK_UTILITY)).
  - unfold _SPI_execute_plan. apply returns_seq. intros pushed s3. simpl.
    apply returns_bind. eapply returns_mono; [by apply exec_plancache_list_readonly|].
    intros l s4 Hl. do 4 (apply returns_seq; intros ? ?). apply returns_ret.
    by case_match.
  - intros r' s3 Hr'. apply returns_seq. intros _ s4. by apply returns_ret.
Qed.
End readonly.

(** * Snapshots and the command counter *)

(** [m] leaves the active-snapshot stack alone and moves the command counter
    only along [R]. *)
Definition keeps {W A} (R : relation Z) (m : M W A) : Prop :=
  forall s, returns m s (fun _ s' =>
    ActiveSnapshot s' = ActiveSnapshot s /\ R (commandId s) (commandId s')).

Lemma keeps_bind {W A A'} R {HR : PreOrder R} (m : M W A) (k : A -> M W A') :
  keeps R m -> (forall a, keeps R (k a)) -> keeps R (m ≫= k).
Proof.
  intros Hm Hk s. apply returns_bind. eapply returns_mono; [apply Hm|].
  intros a s1 [H1 H2]. eapply returns_mono; [apply Hk|]. intros b s2 [H3 H4].
  split; [by rewrite H3|by etransitivity].
Qed.

Lemma keeps_ret {W A} {R} {HR : PreOrder R} (a : A) : keeps R (W := W) (mret a).
Proof. intros s. by apply returns_ret. Qed.
Lemma keeps_get {W} {R} {HR : PreOrder R} : keeps R (W := W) get.
Proof. intros s. by apply returns_get. Qed.
Lemma keeps_raise {W A} {R} {HR : PreOrder R} msg : keeps R (W := W) (A := A) (raise msg).
Proof. done. Qed.
Lemma keeps_undefined {W A} {R} {HR : PreOrder R} w : keeps R (W := W) (A := A) (undefined w).
Proof. done. Qed.
Lemma keeps_lift {W A} {R} {HR : PreOrder R} (r : res A) : keeps R (W := W) (lift r).
Proof. intros s. by apply returns_lift. Qed.
Lemma keeps_lift_world {W A} {R} {HR : PreOrder R} (f : W -> res (A * W)) : keeps R (lift_world f).
Proof.
  intros s a s'. unfold lift_world, mbind, res_bind.
  destruct (f (world s)) as [[b w]|e|w]; [|done|done]. by intros [= <- <-].
Qed.
Lemma keeps_set_api {W} {R} {HR : PreOrder R} a : keeps R (W := W) (set_api a).
Proof. by intros s [] s' [= <-]. Qed.
Lemma keeps_set_stk {W} {R} {HR : PreOrder R} k : keeps R (W := W) (set_stk k).
Proof. by intros s [] s' [= <-]. Qed.
Lemma keeps_set_contexts {W} {R} {HR : PreOrder R} c l : keeps R (W := W) (set_contexts c l).
Proof. by intros s [] s' [= <-]. Qed.
#[export] Hint Resolve keeps_ret keeps_get keeps_raise keeps_undefined keeps_lift
  keeps_lift_world keeps_set_api keeps_set_stk keeps_set_contexts : spi.

Ltac keeps_step :=
  lazymatch goal with
  | |- keeps _ (mbind _ _) => apply keeps_bind; [assumption| |intros ?]
  | |- keeps _ (if ?b then _ else _) => destruct b
  | |- keeps _ (match ?x with _ => _ end) => destruct x
  end.
Ltac keeps_auto := intros; repeat (cbv beta zeta; first [solve [auto with spi nocore] | keeps_step]).

Lemma keeps_cur_conn {W} {R} {HR : PreOrder R} : keeps R (W := W) cur_conn.
Proof. unfold cur_conn. keeps_auto. Qed.
Lemma keeps_upd_conn {W} {R} {HR : PreOrder R} f : keeps R (W := W) (upd_conn f).
Proof. unfold upd_conn. keeps_auto. Qed.
#[export] Hint Resolve keeps_cur_conn keeps_upd_conn : spi.
Lemma keeps_need_conn {W} {R} {HR : PreOrder R} : keeps R (W := W) need_conn.
Proof. unfold need_conn. keeps_auto. Qed.
Lemma keeps_alloc {W} {R} {HR : PreOrder R} : keeps R (W := W) AllocSetContextCreate.
Proof. unfold AllocSetContextCreate. keeps_auto. Qed.
Lemma keeps_switch {W} {R} {HR : PreOrder R} c : keeps R (W := W) (MemoryContextSwitchTo c).
Proof. unfold MemoryContextSwitchTo. keeps_auto. Qed.
Lemma keeps_delete {W} {R} {HR : PreOrder R} c : keeps R (W := W) (MemoryContextDelete c).
Proof. unfold MemoryContextDelete. keeps_auto. Qed.
#[export] Hint Resolve keeps_need_conn keeps_alloc keeps_switch keeps_delete : spi.
Lemma keeps_dest_startup {W} {R} {HR : PreOrder R} n : keeps R (W := W) (spi_dest_startup n).
Proof. unfold spi_dest_startup. keeps_auto. Qed.
Lemma keeps_set_tuptable {W} {R} {HR : PreOrder R} t : keeps R (W := W) (set_tuptable t).
Proof. unfold set_tuptable. keeps_auto. Qed.
Lemma keeps_set_processed {W} {R} {HR : PreOrder R} n : keeps R (W := W) (set_processed n).
Proof. unfold set_processed. keeps_auto. Qed.
Lemma keeps_freetuptable {W} {R} {HR : PreOrder R} t : keeps R (W := W) (SPI_freetuptable t).
Proof. unfold SPI_freetuptable. keeps_auto. Qed.
Lemma keeps_begin_call {W} {R} {HR : PreOrder R} b : keeps R (W := W) (_SPI_begin_call b).
Proof. unfold _SPI_begin_call, switch_to_cxt. keeps_auto. Qed.
Lemma keeps_end_call {W} {R} {HR : PreOrder R} b : keeps R (W := W) (_SPI_end_call b).
Proof. unfold _SPI_end_call, switch_to_cxt. keeps_auto. Qed.
Lemma keeps_plan_queries {W} {R} {HR : PreOrder R} (B : Backend W) qs src : keeps R (pg_plan_queries B qs src).
Proof. induction qs; simpl; keeps_auto. Qed.
#[export] Hint Resolve keeps_dest_startup keeps_set_tuptable keeps_set_processed
  keeps_freetuptable keeps_begin_call keeps_end_call keeps_plan_queries : spi.

(** What [SPI_execute] may rely on of the code it runs: a statement executed in
    an atomic context leaves the stack of active snapshots as it found it, and
    moves the command counter only along [R]. *)
Record statements_ok {W} (R : relation Z) (B : Backend W) : Prop := {
  Executor_ok : forall p d tc ft e r e', B.(Executor) p d tc ft e = Ok (r, e') ->
    env_snapshots e' = env_snapshots e /\ R (env_commandId e) (env_commandId e');
  ProcessUtility_ok : forall p d e r e',
    B.(ProcessUtility) p PROCESS_UTILITY_QUERY d e = Ok (r, e') ->
    env_snapshots e' = env_snapshots e /\ R (env_commandId e) (env_commandId e')
}.

Lemma keeps_lift_env {W A} {R : relation Z} (f : Env W -> res (A * Env W)) :
  (forall e a e', f e = Ok (a, e') ->
    env_snapshots e' = env_snapshots e /\ R (env_commandId e) (env_commandId e')) ->
  keeps R (lift_env f).
Proof.
  intros Hf s a s'. unfold lift_env, mbind, res_bind.
  destruct (f _) as [[b e]|e|w] eqn:E; [|done|done]. intros [= <- <-]. exact (Hf _ _ _ E).
Qed.

Lemma keeps_Executor {W} {R} (B : Backend W) p d tc ft :
  statements_ok R B -> keeps R (lift_env (B.(Executor) p d tc ft)).
Proof. intros H. apply keeps_lift_env. intros e r e'. apply (Executor_ok _ _ H). Qed.

Lemma keeps_ProcessUtility {W} {R} (B : Backend W) p d :
  statements_ok R B -> keeps R (lift_env (B.(ProcessUtility) p PROCESS_UTILITY_QUERY d)).
Proof. intros H. apply keeps_lift_env. intros e r e'. apply (ProcessUtility_ok _ _ H). Qed.
#[export] Hint Resolve keeps_Executor keeps_ProcessUtility : spi.

Lemma keeps_pquery {W} {R} {HR : PreOrder R} (B : Backend W) p d ft tc :
  statements_ok R B -> keeps R (_SPI_pquery B p d ft tc).
Proof. unfold _SPI_pquery. keeps_auto. Qed.
Lemma keeps_exec_utility {W} {R} {HR : PreOrder R} (B : Backend W) o p u d :
  statements_ok R B -> allow_nonatomic o = false -> keeps R (exec_utility B o p u d).
Proof.
  intros HB Ho. unfold exec_utility. rewrite Ho. apply keeps_bind; [done|auto with spi|].
  intros c. rewrite orb_true_r. keeps_auto.
Qed.
#[export] Hint Resolve keeps_pquery keeps_exec_utility : spi.

Section snapshots.
Context {W : Type} (B : Backend W) (base : list Snapshot) (c0 : Z).
Context (R : relation Z) {HR : PreOrder R} (HB : statements_ok R B).

(** What [_SPI_execute_plan] maintains: the stack is the one it found, with
    one snapshot of its own on top when [pushed_active_snap]; in read-only
    mode the command counter was moved only by what was executed. *)
Definition snaps_ok (options : SPIExecuteOptions) (pushed : bool) (s : State W) : Prop :=
  (if pushed then exists sn, ActiveSnapshot s = sn :: base else ActiveSnapshot s = base) /\
  (read_only options = true -> R c0 (commandId s)).

Lemma snaps_ok_keeps {A} (m : M W A) options pushed s :
  keeps R m -> snaps_ok options pushed s ->
  returns m s (fun a s' => snaps_ok options pushed s').
Proof using HR.
  intros Hm [H1 H2]. eapply returns_mono; [apply Hm|]. intros a s' [H3 H4].
  unfold snaps_ok. rewrite H3. split; [done|]. intros Hro. etransitivity; [by apply H2|done].
Qed.

Lemma exec_supported_snaps options ft p l s :
  allow_nonatomic options = false -> snaps_ok options (pushed_active_snap l) s ->
  returns (exec_supported B options ft p l) s (fun o s' =>
    snaps_ok options (pushed_active_snap (locals_of o)) s' /\
    pushed_active_snap (locals_of o) = pushed_active_snap l).
Proof using HR HB.
  intros Hna Hs. unfold exec_supported. ret_step; [apply returns_raise|]. apply returns_bind.
  apply (returns_mono _ _ (fun _ s' => snaps_ok options (pushed_active_snap l) s')).
  { destruct Hs as (Hsn & Hro).
    destruct (read_only options) eqn:Er, (pushed_active_snap l) eqn:El; simpl;
      try (apply returns_ret; unfold snaps_ok; rewrite Er; by auto).
    destruct Hsn as [sn Hsn]. intros a s1. unfold CommandCounterIncrement,
      UpdateActiveSnapshotCommandId, mbind, M_bind. simpl. rewrite Hsn. simpl.
    intros [= <- <-]. split; simpl; [eauto|by rewrite Er]. }
  intros _ s1 Hs1.
  apply (returns_mono _ _ (fun o s' => snaps_ok options (pushed_active_snap l) s' /\
    pushed_active_snap (locals_of o) = pushed_active_snap l)).
  2: { intros o s' [H1 H2]. by rewrite H2. }
  cbv zeta. apply returns_bind. eapply returns_mono.
  { eapply snaps_ok_keeps; [|exact Hs1]. keeps_auto. }
  intros r s2 Hs2. apply returns_bind. eapply returns_mono.
  { eapply snaps_ok_keeps; [|exact Hs2]. keeps_auto. }
  intros c s3 Hs3. apply returns_bind.
  apply (returns_mono _ _ (fun l' s' => snaps_ok options (pushed_active_snap l) s' /\
    pushed_active_snap l' = pushed_active_snap l)).
  2: { intros l' s' [H1 H2]. apply returns_ret. split; [done|]. by case_match. }
  destruct (canSetTag p); apply returns_bind; (eapply returns_mono;
    [eapply snaps_ok_keeps; [|exact Hs3]; keeps_auto|]);
    intros ? s4 Hs4; apply returns_bind; (eapply returns_mono;
    [eapply snaps_ok_keeps; [|exact Hs4]; keeps_auto|]);
    intros ? s5 Hs5; by apply returns_ret.
Qed.

Lemma exec_one_snaps options ft p l s :
  allow_nonatomic options = false -> snaps_ok options (pushed_active_snap l) s ->
  returns (exec_one B options ft p l) s (fun o s' =>
    snaps_ok options (pushed_active_snap (locals_of o)) s').
Proof using HR HB.
  intros Hna Hs. unfold exec_one. apply returns_bind. eapply returns_mono.
  { eapply snaps_ok_keeps; [|exact Hs]. keeps_auto. }
  intros ? s1 Hs1.
  assert (Hbody : returns (exec_supported B options ft p l) s1
    (fun o s' => snaps_ok options (pushed_active_snap (locals_of o)) s')).
  { eapply returns_mono; [by apply exec_supported_snaps|]. by intros o s' [? _]. }
  destruct (utilityStmt p) as [[[f|]| | | | | | | | | | | | | |]|]; try exact Hbody;
    by apply returns_ret.
Qed.

Lemma exec_stmt_list_snaps options ft ps l s :
  allow_nonatomic options = false -> snaps_ok options (pushed_active_snap l) s ->
  returns (exec_stmt_list B options ft ps l) s (fun o s' =>
    snaps_ok options (pushed_active_snap (locals_of o)) s').
Proof using HR HB.
  intros Hna. revert l s. induction ps as [|p ps IH]; intros l s Hs; simpl; [by apply returns_ret|].
  apply returns_bind. eapply returns_mono; [by apply exec_one_snaps|].
  intros [l'|l'] s' Hs'; simpl in Hs'; [by apply IH|by apply returns_ret].
Qed.

Lemma setup_snapshot_snaps options ps l s :
  base <> [] -> snaps_ok options (pushed_active_snap l) s ->
  returns (setup_snapshot B options None ps l) s (fun l' s' =>
    snaps_ok options (pushed_active_snap l') s').
Proof.
  intros Hb (Hsn & Hro). unfold setup_snapshot.
  ret_step; [|by apply returns_ret; repeat split].
  unfold EnsurePortalSnapshotExists, ActiveSnapshotSet, GetTransactionSnapshot,
    PushActiveSnapshot, PopActiveSnapshot, mbind, M_bind, get, returns. simpl.
  destruct (ActiveSnapshot s) as [|sn0 sns] eqn:Es.
  { destruct (pushed_active_snap l); [by destruct Hsn|congruence]. }
  simpl. destruct (read_only options) eqn:Er; simpl.
  { intros l' s' [= <- <-]. unfold snaps_ok. by rewrite Es, Er. }
  destruct (allow_nonatomic options); simpl.
  { intros l' s' [= <- <-]. unfold snaps_ok. by rewrite Es, Er. }
  destruct (pushed_active_snap l); simpl.
  - rewrite Es. simpl. intros l' s' [= <- <-]. destruct Hsn as [sn [= -> ->]].
    unfold snaps_ok. simpl. rewrite Er. eauto.
  - rewrite Es. intros l' s' [= <- <-]. unfold snaps_ok. simpl. rewrite Er, <- Hsn. eauto.
Qed.

Lemma exec_plancache_list_snaps options ft src plans l s :
  base <> [] -> allow_nonatomic options = false -> snaps_ok options (pushed_active_snap l) s ->
  returns (exec_plancache_list B options None ft src plans l) s
    (fun l' s' => snaps_ok options (pushed_active_snap l') s').
Proof using HR HB.
  intros Hb Hna. revert l s. induction plans as [|t plans IH]; intros l s Hs; simpl.
  - by apply returns_ret.
  - apply returns_bind. eapply returns_mono.
    { eapply snaps_ok_keeps; [|exact Hs]. keeps_auto. }
    intros qs s1 Hs1. cbv beta. ret_step; [apply returns_raise|]. apply returns_bind.
    eapply returns_mono.
    { eapply snaps_ok_keeps; [|exact Hs1]. keeps_auto. }
    intros ps s2 Hs2. cbv beta. apply returns_bind.
    eapply returns_mono; [by apply setup_snapshot_snaps|].
    intros l1 s3 Hl1. cbv beta. apply returns_bind.
    eapply returns_mono; [by apply exec_stmt_list_snaps|].
    intros [l2|l2] s4 Hl2; simpl in Hl2; [|by apply returns_ret].
    apply returns_bind.
    apply (returns_mono _ _ (fun _ s' => snaps_ok options (pushed_active_snap l2) s')).
    + destruct Hl2 as (H1 & H3). destruct (read_only options) eqn:Er; simpl.
      * apply returns_ret. unfold snaps_ok. rewrite Er. by auto.
      * intros a s5 [= <- <-]. split; simpl; [done|by rewrite Er].
    + intros _ s5 Hs5. by apply IH.
Qed.
End snapshots.

Lemma SPI_execute_snaps {W} (B : Backend W) (R : relation Z) {HR : PreOrder R} src ro tc s :
  statements_ok R B -> ActiveSnapshot s <> [] ->
  returns (SPI_execute B src ro tc) s (fun _ s' =>
    ActiveSnapshot s' = ActiveSnapshot s /\
    (ro = true -> R (commandId s) (commandId s'))).
Proof.
  intros HB Hne. unfold SPI_execute. destruct src as [src|]; [|by apply returns_ret].
  ret_step; [by apply returns_ret|]. apply returns_bind.
  eapply returns_mono; [by apply (keeps_begin_call (R := R))|]. intros r s1 [Hs1 Hc1].
  ret_step; [by apply returns_ret; rewrite Hs1|].
  apply returns_bind. apply returns_lift. intros plans _. apply returns_bind.
  set (options := {| read_only := ro; allow_nonatomic := _; must_return_tuples := _;
                     tcount := _; opt_dest := _ |}).
  apply (returns_mono _ _ (fun _ s' => snaps_ok (ActiveSnapshot s) (commandId s) R options false s')).
  - unfold _SPI_execute_plan. apply returns_bind. apply returns_ret. simpl. apply returns_bind.
    eapply returns_mono.
    { by apply (exec_plancache_list_snaps B (ActiveSnapshot s) (commandId s) R). }
    intros l s2 Hl. cbv beta. apply returns_bind.
    apply (returns_mono _ _ (fun _ s' =>
      snaps_ok (ActiveSnapshot s) (commandId s) R options false s')).
    + destruct Hl as [Hsn Hc]. destruct (pushed_active_snap l); [|by apply returns_ret].
      destruct Hsn as [sn Hsn]. intros a s3. unfold PopActiveSnapshot, mbind, M_bind. simpl.
      rewrite Hsn. by intros [= <- <-].
    + intros _ s3 Hs3. cbv beta. eapply returns_mono.
      { eapply snaps_ok_keeps; [done| |exact Hs3]. keeps_auto. }
      by intros.
  - intros r' s2 (H1 & H3). apply returns_bind.
    eapply returns_mono; [by apply (keeps_end_call (R := R))|]. intros ? s3 [H4 H5].
    apply returns_ret. simpl in *. rewrite H4. split; [done|]. intros Hro.
    etransitivity; [by apply H3|done].
Qed.

(** * The connection stack *)

(** The defined part of the stack array. *)
Definition entries (cs : list Connection) : list (option Connection) := Some <$> cs.

Lemma entries_app cs ds : entries (cs ++ ds) = entries cs ++ entries ds.
Proof. apply fmap_app. Qed.

Lemma length_entries cs : length (entries cs) = length cs.
Proof. apply length_fmap. Qed.

(** The stack [k] holds exactly the connections [cs], the innermost last. *)
Definition view (k : Stack) (cs : list Connection) : Prop :=
  SPI_connected k = len cs - 1 /\
  SPI_current k = (if len cs - 1 <? 0 then None else Some (len cs - 1)) /\
  match SPI_stack k with
  | None => cs = [] /\ SPI_stack_depth k = 0
  | Some l => len l = SPI_stack_depth k /\ 0 < SPI_stack_depth k /\
              exists junk, l = entries cs ++ junk
  end.

Lemma view_top l cs c junk :
  l = entries (cs ++ [c]) ++ junk ->
  rd l (len cs) = Ok (Some c) /\
  forall c', wr l (len cs) (Some c') = Ok (entries (cs ++ [c']) ++ junk).
Proof.
  intros ->. rewrite entries_app, <- app_assoc. simpl.
  assert (Hn : Z.to_nat (len cs) = length (entries cs)) by (unfold len; rewrite length_entries; lia).
  split.
  - unfold rd. rewrite (proj2 (Z.leb_le 0 (len cs))) by apply len_nonneg.
    rewrite Hn. by rewrite list_lookup_middle.
  - intros c'. unfold wr. rewrite (proj2 (Z.leb_le 0 (len cs))) by apply len_nonneg.
    rewrite (proj2 (Z.ltb_lt _ _)); [simpl|].
    + f_equal. unfold upd. rewrite Hn. rewrite entries_app, <- app_assoc. simpl.
      rewrite insert_app_r_alt by lia. by rewrite Nat.sub_diag.
    + rewrite len_app, len_cons. unfold len at 2. rewrite length_entries.
      pose proof (len_nonneg junk). unfold len in *. lia.
Qed.

(** The stack pointers of a state with connections [cs ++ [c]]. *)
Lemma view_snoc k cs c :
  view k (cs ++ [c]) ->
  SPI_connected k = len cs /\ SPI_current k = Some (len cs) /\
  exists junk, SPI_stack k = Some (entries (cs ++ [c]) ++ junk) /\
    len (entries (cs ++ [c]) ++ junk) = SPI_stack_depth k /\ 0 < SPI_stack_depth k.
Proof.
  intros (H1 & H2 & H3). rewrite len_app in H1, H2. change (len [c]) with 1 in *.
  replace (len cs + 1 - 1) with (len cs) in * by lia. pose proof (len_nonneg cs).
  rewrite (proj2 (Z.ltb_ge _ _)) in H2 by done. split; [done|]. split; [done|].
  destruct (SPI_stack k) as [l|]; [|by destruct H3 as [H3 _]; destruct cs].
  destruct H3 as (H3 & H4 & junk & ->). by exists junk.
Qed.

Lemma upd_conn_run {W} (s : State W) cs c f :
  view (stk s) (cs ++ [c]) ->
  exists k, upd_conn f s = set_stk k s /\ view k (cs ++ [f c]).
Proof.
  intros Hv. pose proof (view_snoc _ _ _ Hv) as (H1 & H2 & junk & H3 & H4 & H5).
  destruct (view_top _ cs c junk eq_refl) as [Hrd Hwr].
  unfold upd_conn, mbind, M_bind. simpl. rewrite H2, H3. unfold lift, mbind, M_bind. simpl.
  rewrite Hrd. simpl. rewrite Hwr. simpl.
  eexists. split; [done|]. unfold view. simpl. rewrite H1, len_app. change (len [f c]) with 1.
  pose proof (len_nonneg cs). rewrite (proj2 (Z.ltb_ge _ _)) by lia.
  split; [lia|]. split; [f_equal; lia|]. split; [|eauto].
  rewrite <- H4. unfold len. rewrite !length_app, !length_entries, !length_app. done.
Qed.

Lemma cur_conn_run {W} (s : State W) cs c :
  view (stk s) (cs ++ [c]) -> cur_conn s = Ok (Some c, s) /\ need_conn s = Ok (c, s).
Proof.
  intros Hv. pose proof (view_snoc _ _ _ Hv) as (H1 & H2 & junk & H3 & H4 & H5).
  destruct (view_top _ cs c junk eq_refl) as [Hrd _].
  assert (Hc : cur_conn s = Ok (Some c, s)).
  { unfold cur_conn, mbind, M_bind. simpl. rewrite H2, H3. unfold lift, mbind, M_bind. simpl.
    rewrite Hrd. done. }
  split; [done|]. unfold need_conn, mbind, M_bind. simpl. by rewrite Hc.
Qed.

(** Making room keeps the connections and leaves a free entry. *)
Lemma enlarge_stack_run k cs :
  view k cs ->
  exists k' l junk x, enlarge_stack k = Ok k' /\ SPI_connected k' = len cs - 1 /\
    SPI_stack k' = Some l /\ l = entries cs ++ x :: junk /\ len l = SPI_stack_depth k'.
Proof.
  intros (H1 & H2 & H3). unfold enlarge_stack. pose proof (len_nonneg cs).
  destruct (SPI_stack k) as [l|] eqn:Hst.
  - destruct H3 as (H3 & H4 & junk & ->).
    assert (Hl : len (entries cs ++ junk) = len cs + len junk).
    { rewrite len_app. unfold len at 1. by rewrite length_entries. }
    pose proof (len_nonneg junk). rewrite Hl in H3. rewrite H1.
    rewrite (proj2 (Z.leb_gt _ _)), (proj2 (Z.leb_gt _ _)) by lia. simpl.
    destruct (Z.eqb_spec (SPI_stack_depth k) (len cs - 1 + 1)) as [He|He].
    + destruct (Z.to_nat (SPI_stack_depth k * 2 - len (entries cs ++ junk))) as [|n] eqn:En;
        [rewrite Hl in En; lia|].
      assert (junk = []) as ->.
      { destruct junk; [done|]. rewrite len_cons in *. pose proof (len_nonneg junk). lia. }
      do 4 eexists. split; [done|]. simpl. split; [lia|]. split; [done|].
      rewrite app_nil_r. split; [done|].
      rewrite len_app. unfold len at 1. rewrite length_entries. rewrite len_cons, len_replicate.
      rewrite app_nil_r in En, Hl. rewrite Hl in En. unfold len in *. simpl in *. lia.
    + destruct junk as [|x junk]; [rewrite len_nil in *; lia|].
      do 4 eexists. split; [done|]. simpl. split; [lia|]. split; [exact Hst|]. split; [done|].
      rewrite Hl. lia.
  - destruct H3 as [-> H3]. rewrite H1, H3. simpl.
    do 4 eexists. split; [done|]. simpl. by repeat split.
Qed.

(** The connection a level opened with [options] starts with. *)
Definition opened {W} (s : State W) (options : Z) : Connection :=
  let pc := fresh (contexts s) in
  let ec := fresh ({[pc]} ∪ contexts s) in
  {| processed := 0; tuptable := None; execSubid := InvalidSubTransactionId; tuptables := [];
     procCxt := Some pc; execCxt := Some ec; savedcxt := CurrentMemoryContext s;
     connectSubid := currentSubid s;
     atomic := if Z.testbit options 0 then false else true;
     internal_xact := false;
     outer_processed := SPI_processed (api s); outer_tuptable := SPI_tuptable (api s);
     outer_result := SPI_result (api s) |}.

Lemma SPI_connect_run {W} (s : State W) cs options :
  view (stk s) cs ->
  exists k pc ec, pc = fresh (contexts s) /\ ec = fresh ({[pc]} ∪ contexts s) /\
    SPI_connect_ext options s =
      Ok (SPI_OK_CONNECT,
          {| api := {| SPI_processed := 0; SPI_tuptable := None; SPI_result := 0 |};
             stk := k; CurrentMemoryContext := pc;
             contexts := {[ec]} ∪ ({[pc]} ∪ contexts s);
             ActiveSnapshot := ActiveSnapshot s; commandId := commandId s;
             currentSubid := currentSubid s; world := world s |}) /\
    view k (cs ++ [opened s options]).
Proof.
  intros Hv. destruct (enlarge_stack_run _ _ Hv) as (k & l & junk & x & He & Hk & Hl & Hj & Hd).
  unfold SPI_connect_ext, get, mbind, M_bind. simpl. unfold lift at 1. rewrite He. simpl.
  rewrite Hl, Hk. simpl. replace (len cs - 1 + 1) with (len cs) by lia.
  set (conn := {| processed := 0 |}).
  assert (Hwr : wr l (len cs) (Some conn) = Ok (entries (cs ++ [conn]) ++ junk)).
  { rewrite Hj. unfold wr. rewrite (proj2 (Z.leb_le 0 (len cs))) by apply len_nonneg.
    assert (Hlen : len (entries cs) = len cs) by (unfold len; by rewrite length_entries).
    rewrite (proj2 (Z.ltb_lt _ _)).
    - simpl. f_equal. unfold upd. rewrite entries_app, <- app_assoc. simpl.
      rewrite insert_app_r_alt by (unfold len; rewrite length_entries; lia).
      replace (Z.to_nat (len cs) - length (entries cs))%nat with 0%nat; [done|].
      unfold len; rewrite length_entries; lia.
    - rewrite len_app, len_cons, Hlen. pose proof (len_nonneg junk). lia. }
  unfold lift. rewrite Hwr. simpl.
  set (k1 := {| SPI_stack := Some _ |}).
  assert (Hv1 : view k1 (cs ++ [conn])).
  { unfold view, k1. simpl. rewrite len_app. change (len [conn]) with 1.
    pose proof (len_nonneg cs). rewrite (proj2 (Z.ltb_ge _ _)) by lia.
    replace (len cs + 1 - 1) with (len cs) by lia. split; [done|]. split; [done|].
    rewrite <- Hd, Hj. rewrite !len_app, !len_cons.
    assert (Hlen : len (entries (cs ++ [conn])) = len (entries cs) + 1).
    { unfold len. rewrite !length_entries, length_app. simpl. lia. }
    rewrite Hlen. pose proof (len_nonneg (entries cs)). pose proof (len_nonneg junk).
    split; [lia|]. split; [lia|]. by exists junk. }
  set (s2 := {| api := api s; stk := k1 |}).
  destruct (upd_conn_run s2 cs conn
    (with_contexts (Some (fresh (contexts s))) (Some (fresh ({[fresh (contexts s)]} ∪ contexts s))))
    Hv1) as (k2 & Hu2 & Hv2).
  rewrite Hu2. simpl.
  set (s3 := {| api := api s; stk := k2 |}).
  match goal with |- context [upd_conn ?f s3] =>
    destruct (upd_conn_run s3 cs _ f Hv2) as (k3 & Hu3 & Hv3) end.
  rewrite Hu3. simpl. exists k3. by do 2 eexists.
Qed.

Lemma pop_view k cs c n (k' : Stack) :
  view k (cs ++ [c]) -> n = len cs ->
  k' = {| SPI_stack := SPI_stack k; SPI_stack_depth := SPI_stack_depth k;
          SPI_connected := n - 1; SPI_current := if n - 1 <? 0 then None else Some (n - 1) |} ->
  view k' cs.
Proof.
  intros Hv -> ->. pose proof (view_snoc _ _ _ Hv) as (H1 & H2 & junk & H3 & H4 & H5).
  unfold view. simpl. split; [done|]. split; [done|]. rewrite H3.
  split; [done|]. split; [done|]. exists (Some c :: junk).
  rewrite entries_app, <- app_assoc. done.
Qed.

Lemma SPI_finish_run {W} (s : State W) cs c pc ec :
  view (stk s) (cs ++ [c]) -> procCxt c = Some pc -> execCxt c = Some ec ->
  exists k, view k cs /\
    SPI_finish s =
      Ok (SPI_OK_FINISH,
          {| api := {| SPI_processed := outer_processed c; SPI_tuptable := outer_tuptable c;
                       SPI_result := outer_result c |};
             stk := k; CurrentMemoryContext := savedcxt c;
             contexts := contexts s ∖ {[ec]} ∖ list_to_set (tuptabcxt <$> tuptables c) ∖ {[pc]};
             ActiveSnapshot := ActiveSnapshot s; commandId := commandId s;
             currentSubid := currentSubid s; world := world s |}).
Proof.
  intros Hv Hpc Hec. destruct (cur_conn_run s cs c Hv) as [Hc Hn].
  unfold SPI_finish, _SPI_begin_call, mbind, M_bind. simpl. rewrite Hc. simpl.
  rewrite Hn. simpl. rewrite Hec, Hpc. simpl.
  match goal with |- context [upd_conn ?f ?s2] =>
    destruct (upd_conn_run s2 cs c f Hv) as (k & Hu & Hk) end.
  rewrite Hu. simpl. eexists. split; [|done].
  pose proof (view_snoc _ _ _ Hk) as (H1 & _). by eapply pop_view; [exact Hk|exact H1|].
Qed.

(** * Nested levels *)
Fixpoint nested {W} (options : list Z) (body : M W unit) : M W unit :=
  match options with
  | [] => body
  | o :: rest => SPI_connect_ext o;; nested rest body;; SPI_finish;; mret tt
  end.

(** A body that returns at the level it was started at; it may change the API
    globals, the current memory context, the snapshots and the database. *)
Definition level_ok {W} (body : M W unit) : Prop :=
  forall s cs, view (stk s) cs ->
    exists s', body s = Ok (tt, s') /\ view (stk s') cs /\ contexts s' = contexts s.

(** What a bracketed computation restores. *)
Definition restored {W} (cs : list Connection) (s s' : State W) : Prop :=
  view (stk s') cs /\ api s' = api s /\ contexts s' = contexts s /\
  CurrentMemoryContext s' = CurrentMemoryContext s.

Lemma bracket_restores {W} (m : M W unit) options :
  level_ok m ->
  forall s cs, view (stk s) cs ->
    exists s', (SPI_connect_ext options;; m;; SPI_finish;; mret tt) s = Ok (tt, s') /\
      restored cs s s'.
Proof.
  intros Hm s cs Hv. destruct (SPI_connect_run s cs options Hv) as (k & pc & ec & Hpc & Hec & Hc & Hk).
  unfold mbind, M_bind. simpl. rewrite Hc. simpl.
  match goal with |- context [m ?s1] => destruct (Hm s1 _ Hk) as (s2 & -> & Hv2 & Hc2) end.
  simpl. destruct (SPI_finish_run s2 cs _ _ _ Hv2 eq_refl eq_refl) as (k3 & Hk3 & ->).
  simpl. eexists. split; [done|]. unfold restored. simpl. split; [done|].
  split; [by destruct (api s)|]. split; [|done].
  rewrite Hc2. simpl. rewrite <- Hpc, <- Hec.
  assert (pc ∉ contexts s) by (rewrite Hpc; apply is_fresh).
  assert (ec ∉ {[pc]} ∪ contexts s) by (rewrite Hec; apply is_fresh). set_solver.
Qed.

Lemma nested_level_ok {W} options (body : M W unit) : level_ok body -> level_ok (nested options body).
Proof.
  intros Hb. induction options as [|o rest IH]; [done|]. intros s cs Hv. simpl.
  destruct (bracket_restores (nested rest body) o IH s cs Hv) as (s' & -> & H1 & _ & H3 & _). eauto.
Qed.

(** * Claims *)

(** Levels of SPI nest: opening any number of levels (the stack is
    reallocated and doubled on the way), running a computation that ends at
    its own level, and finishing them returns normally and restores the API
    globals, the current memory context, the set of live memory contexts and
    the stack of the caller, whatever the computation did to the first two. *)
Theorem spi_nesting_restores {W} (options : list Z) (body : M W unit) (s : State W)
    (cs : list Connection) (Hne : options <> []) (Hbody : level_ok body)
    (Hview : view (stk s) cs) :
  exists s', nested options body s = Ok (tt, s') /\ restored cs s s'.
Proof.
  destruct options as [|o rest]; [done|]. simpl.
  apply bracket_restores; [|done]. by apply nested_level_ok.
Qed.

(** A backend with no SPI level open. *)
Definition boot_state {W} (w : W) : State W :=
  {| api := {| SPI_processed := 3; SPI_tuptable := None; SPI_result := 7 |};
     stk := {| SPI_stack := None; SPI_stack_depth := 0; SPI_connected := -1; SPI_current := None |};
     CurrentMemoryContext := 1; contexts := {[1]}; ActiveSnapshot := [];
     commandId := 0; currentSubid := 1; world := w |}.

Lemma boot_view {W} (w : W) : view (stk (boot_state w)) [].
Proof. done. Qed.

Lemma spi_nesting_restores_witness :
  exists s', nested (replicate 40 0) (set_api {| SPI_processed := 9; SPI_tuptable := None; SPI_result := 9 |})
    (boot_state tt) = Ok (tt, s') /\ restored [] (boot_state tt) s'.
Proof.
  apply spi_nesting_restores; [done| |apply boot_view].
  intros s cs Hv. eexists. split; [reflexivity|]. by split.
Defined.

(** The API globals once the levels [cs] are popped. *)
Definition outermost (cs : list Connection) (a : Api) : Api :=
  match cs with
  | [] => a
  | c :: _ => {| SPI_processed := outer_processed c; SPI_tuptable := outer_tuptable c;
                 SPI_result := outer_result c |}
  end.

Lemma AtEOXact_loop_run {W} fuel (s : State W) cs1 cs2 found :
  view (stk s) (cs1 ++ cs2) -> Forall (fun c => internal_xact c = false) cs2 ->
  match last cs1 with Some c => internal_xact c = true | None => True end ->
  (length (cs1 ++ cs2) <= fuel)%nat ->
  exists k, view k cs1 /\
    AtEOXact_loop fuel found s =
      Ok (found || negb (bool_decide (cs2 = [])),
          {| api := outermost cs2 (api s); stk := k;
             CurrentMemoryContext := CurrentMemoryContext s; contexts := contexts s;
             ActiveSnapshot := ActiveSnapshot s; commandId := commandId s;
             currentSubid := currentSubid s; world := world s |}).
Proof.
  revert s cs2 found. induction fuel as [|f IH]; intros s cs2 found Hv Hint Hlast Hf.
  - rewrite length_app in Hf. destruct cs1; [|simpl in Hf; lia]. destruct cs2; [|simpl in Hf; lia].
    exists (stk s). split; [done|]. destruct Hv as (H1 & _). simpl. unfold mbind, M_bind. simpl.
    rewrite H1. simpl. rewrite orb_false_r. by destruct s.
  - destruct cs2 as [|c cs2' _] using rev_ind.
    + rewrite app_nil_r in *. exists (stk s). split; [done|]. simpl. unfold mbind at 1, M_bind at 1.
      simpl. rewrite orb_false_r.
      destruct cs1 as [|c cs1' _] using rev_ind.
      * destruct Hv as (H1 & _). rewrite H1. simpl. by destruct s.
      * pose proof (view_snoc _ _ _ Hv) as (H1 & H2 & junk & H3 & H4 & H5).
        destruct (view_top _ cs1' c junk eq_refl) as [Hrd _].
        rewrite last_snoc in Hlast. pose proof (len_nonneg cs1').
        rewrite H1, (proj2 (Z.ltb_ge _ _)), H3 by done. unfold lift, mbind, M_bind. simpl.
        rewrite Hrd. simpl. rewrite Hlast. by destruct s.
    + rewrite app_assoc in Hv. pose proof (view_snoc _ _ _ Hv) as (H1 & H2 & junk & H3 & H4 & H5).
      destruct (view_top _ (cs1 ++ cs2') c junk eq_refl) as [Hrd _].
      apply Forall_app in Hint as [Hint Hc]. rewrite Forall_singleton in Hc.
      pose proof (len_nonneg (cs1 ++ cs2')).
      simpl. unfold mbind at 1, M_bind at 1. simpl.
      rewrite H1, (proj2 (Z.ltb_ge _ _)), H3 by done. unfold lift, mbind, M_bind. simpl.
      rewrite Hrd. simpl. rewrite Hc. simpl.
      match goal with |- context [AtEOXact_loop f true ?s1] =>
        destruct (IH s1 cs2' true) as (k & Hk & ->) end; [|done|done| |].
      * simpl. by eapply pop_view; [exact Hv|reflexivity|rewrite H1, H3].
      * rewrite !length_app in *. simpl in Hf. lia.
      * exists k. split; [done|]. by destruct cs2'; simpl; rewrite ?orb_true_r.
Qed.

(** Cleanup at the end of a transaction: from a stack whose levels above
    [cs1] are not marked [internal_xact], where [cs1] is empty or ends with a
    marked level, [AtEOXact_SPI] terminates, pops exactly the levels [cs2],
    leaves the API globals as they were before the first of them was opened,
    and reports leftover levels only at commit. *)
Theorem spi_end_of_xact_pops {W} (s : State W) (cs1 cs2 : list Connection) (isCommit : bool)
    (Hview : view (stk s) (cs1 ++ cs2))
    (Hopen : Forall (fun c => internal_xact c = false) cs2)
    (Hkeep : match last cs1 with Some c => internal_xact c = true | None => True end) :
  exists s', AtEOXact_SPI isCommit s = Ok (negb (bool_decide (cs2 = [])) && isCommit, s') /\
    view (stk s') cs1 /\ api s' = outermost cs2 (api s) /\ contexts s' = contexts s /\
    world s' = world s.
Proof.
  destruct (AtEOXact_loop_run (Z.to_nat (SPI_connected (stk s) + 1)) s cs1 cs2 false)
    as (k & Hk & Hrun); [done..| |].
  - destruct Hview as [-> _]. unfold len. lia.
  - unfold AtEOXact_SPI, mbind, M_bind. simpl. rewrite Hrun. simpl. eexists. split; [done|]. split; [exact Hk|done].
Qed.

(** Two levels open on [boot_state]. *)
Definition two_open : State unit :=
  match (SPI_connect;; SPI_connect_ext SPI_OPT_NONATOMIC) (boot_state tt) with
  | Ok (_, s) => s
  | _ => boot_state tt
  end.

Definition two_levels : list Connection :=
  match SPI_stack (stk two_open) with Some l => omap id (take 2 l) | None => [] end.

Lemma spi_end_of_xact_pops_witness :
  exists s', AtEOXact_SPI false two_open = Ok (false, s') /\
    view (stk s') [] /\ api s' = api (boot_state tt) /\ contexts s' = contexts two_open /\
    world s' = tt.
Proof.
  apply (spi_end_of_xact_pops two_open [] two_levels false).
  - vm_compute. repeat split. eexists. reflexivity.
  - vm_compute. repeat constructor.
  - exact I.
Defined.

(** With an active snapshot, read-only execution takes none of its own. *)
Lemma setup_snapshot_readonly {W} (B : Backend W) options snap ps l (s : State W) :
  read_only options = true -> ActiveSnapshot s <> [] ->
  setup_snapshot B options snap ps l s = Ok (l, s).
Proof.
  intros Hro Hs. unfold setup_snapshot. case_match; [|done].
  unfold EnsurePortalSnapshotExists, ActiveSnapshotSet, mbind, M_bind. simpl.
  destruct (ActiveSnapshot s); [done|]. simpl. by rewrite Hro.
Qed.

(** Read-only execution never answers [SPI_OK_UTILITY]: whatever the
    grammar, analysis, planner, executor and utility code do, a call of
    [SPI_execute] with [read_only = true] that returns normally returns
    another code. *)
Theorem spi_readonly_never_utility {W} (B : Backend W) (src : option (list ascii)) (tc r : Z)
    (s s' : State W) (Hplanner : planner_ok B)
    (Hrun : SPI_execute B src true tc s = Ok (r, s')) :
  r <> SPI_OK_UTILITY.
Proof. by eapply SPI_execute_readonly in Hrun. Qed.

(** C36. Snapshot and command-counter discipline: when the statements it runs
    leave the stack of active snapshots as they found it and move the command
    counter only along a preorder [R], a call of [SPI_execute] made with an
    active snapshot leaves the stack as it found it on every normal return,
    the [goto fail] paths included; and in read-only mode the counter is at
    most where the statements themselves took it: SPI never increments it
    ([R] equality: with statements that leave the counter alone it does not
    move). *)
Theorem spi_execute_snapshot_discipline {W} (B : Backend W) (R : relation Z) (HR : PreOrder R)
    (HB : statements_ok R B) (src : option (list ascii))
    (ro : bool) (tc r : Z) (s s' : State W) (Hsnap : ActiveSnapshot s <> [])
    (Hrun : SPI_execute B src ro tc s = Ok (r, s')) :
  ActiveSnapshot s' = ActiveSnapshot s /\
  (ro = true -> R (commandId s) (commandId s')).
Proof. by eapply SPI_execute_snaps in Hrun. Qed.

(** A small backend: a source text that starts with C is CREATE FUNCTION
    followed by CREATE TRIGGER, any other non-empty text is one SELECT that
    returns two rows and calls a function that moves the command counter by
    two. The database logs what was run. *)
Definition utility_query (u : UtilityStmt) : Query :=
  {| q_commandType := CMD_UTILITY; q_canSetTag := true; q_utilityStmt := Some u; q_payload := 0 |}.

Definition demo_backend : Backend (list string) :=
  {| RawStmt := Query;
     raw_parser src :=
       match src with
       | [] => Err "syntax error"
       | "C"%char :: _ => Ok [utility_query (CreateFunctionStmt "f"); utility_query (CreateTrigStmt "t")]
       | _ => Ok [{| q_commandType := CMD_SELECT; q_canSetTag := true; q_utilityStmt := None;
                     q_payload := 0 |}]
       end;
     pg_analyze_and_rewrite q _ w := Ok ([q], w);
     resultDesc _ := true;
     pg_plan_query q _ w :=
       Ok ({| commandType := q_commandType q; hasReturning := false; hasModifyingCTE := false;
              canSetTag := q_canSetTag q; rowMarks := []; utilityStmt := None |}, w);
     CreateCommandName p :=
       match utilityStmt p with
       | Some (CreateFunctionStmt _) => "CREATE FUNCTION"
       | Some (CreateTrigStmt _) => "CREATE TRIGGER"
       | _ => "SELECT"
       end;
     Executor _ _ _ _ e :=
       Ok ({| es_processed := 2; es_tuples := Some 2 |},
           {| env_world := "executor"%string :: env_world e; env_commandId := env_commandId e + 2;
              env_snapshots := env_snapshots e |});
     ProcessUtility p _ _ e :=
       Ok ({| qc_is_select := false; qc_nprocessed := 0; ut_tuples := None |},
           {| env_world := "utility"%string :: env_world e; env_commandId := env_commandId e;
              env_snapshots := env_snapshots e |});
     TransactionSnapshot _ cid := {| snap_id := 1; curcid := cid |};
     ActivePortal _ := true;
     NextCommandId _ c := c + 1;
     StartTransactionCommand w := Ok w;
     CommitTransactionCommand w := Ok w;
     pfree_malloced w := Ok w |}.

(** The statements of the small backend move the counter by an even number. *)
Definition even_steps (c c' : Z) : Prop := exists k, 0 <= k /\ c' = c + 2 * k.

Lemma even_steps_preorder : PreOrder even_steps.
Proof.
  split.
  - intros c. exists 0. lia.
  - intros a b c (j & Hj & ->) (k & Hk & ->). exists (j + k). lia.
Qed.

Lemma demo_statements_ok : statements_ok even_steps demo_backend.
Proof.
  split.
  - intros p d tc ft e r e' [= <- <-]. split; [done|]. exists 1. simpl. lia.
  - intros p d e r e' [= <- <-]. split; [done|]. exists 0. simpl. lia.
Qed.

Lemma demo_planner_ok : planner_ok demo_backend.
Proof. by intros q src w p w' [= <- <-]. Qed.

(** [boot_state] with one SPI level open and an active snapshot. *)
Definition demo_state : State (list string) :=
  match (SPI_connect;; PushActiveSnapshot {| snap_id := 9; curcid := 0 |}) (boot_state []) with
  | Ok (_, s) => s
  | _ => boot_state []
  end.

Definition after_select (ro : bool) : State (list string) :=
  match SPI_execute demo_backend (Some (chars "SELECT 1")) ro 0 demo_state with
  | Ok (_, s) => s
  | _ => demo_state
  end.

Lemma spi_readonly_never_utility_witness :
  SPI_execute demo_backend (Some (chars "SELECT 1")) true 0 demo_state =
    Ok (SPI_OK_SELECT, after_select true) /\ SPI_OK_SELECT <> SPI_OK_UTILITY.
Proof.
  split; [vm_compute; reflexivity|].
  apply (spi_readonly_never_utility demo_backend (Some (chars "SELECT 1")) 0 SPI_OK_SELECT
           demo_state (after_select true) demo_planner_ok).
  vm_compute. reflexivity.
Defined.

Lemma spi_execute_snapshot_discipline_witness :
  commandId demo_state < commandId (after_select true) /\
  ActiveSnapshot (after_select true) = ActiveSnapshot demo_state /\
  even_steps (commandId demo_state) (commandId (after_select true)).
Proof.
  split; [vm_compute; reflexivity|].
  assert (Hrun : SPI_execute demo_backend (Some (chars "SELECT 1")) true 0 demo_state =
    Ok (SPI_OK_SELECT, after_select true)) by (vm_compute; reflexivity).
  assert (Hsn : ActiveSnapshot demo_state <> []) by done.
  destruct (spi_execute_snapshot_discipline demo_backend even_steps even_steps_preorder
           demo_statements_ok (Some (chars "SELECT 1")) true 0
           SPI_OK_SELECT demo_state (after_select true) Hsn Hrun) as [H1 H2].
  split; [exact H1|exact (H2 eq_refl)].
Defined.

Lemma SPI_execute_rejects {W} (B : Backend W) (src : list ascii) (tc : Z)
    (s : State W) (cs : list Connection) (c : Connection) (ec : Z)
    (t : B.(RawStmt)) (rest : list (B.(RawStmt))) (u : UtilityStmt) (tag : bool) (n : Z)
    (Htc : 0 <= tc) (Hview : view (stk s) (cs ++ [c])) (Hec : execCxt c = Some ec)
    (Hsnap : ActiveSnapshot s <> [])
    (Hparse : B.(raw_parser) src = Ok (t :: rest))
    (Hanalyze : B.(pg_analyze_and_rewrite) t src (world s) =
      Ok ([{| q_commandType := CMD_UTILITY; q_canSetTag := tag; q_utilityStmt := Some u;
              q_payload := n |}], world s))
    (Hcopy : u <> CopyStmt None) (Hxact : u <> TransactionStmt) :
  SPI_execute B (Some src) true tc s =
    Err (B.(CreateCommandName) {| commandType := CMD_UTILITY; hasReturning := false;
           hasModifyingCTE := false; canSetTag := tag; rowMarks := []; utilityStmt := Some u |}
         ++ " is not allowed in a non-volatile function").
Proof.
  destruct (cur_conn_run s cs c Hview) as [Hc _].
  unfold SPI_execute. rewrite (proj2 (Z.ltb_ge _ _)) by done.
  unfold _SPI_begin_call, mbind, M_bind. simpl. rewrite Hc. simpl.
  destruct (upd_conn_run s cs c (with_execSubid (currentSubid s)) Hview) as (k & Hu & Hk).
  unfold mbind, M_bind. simpl. rewrite Hu. simpl. rewrite Hec. simpl.
  unfold lift. rewrite Hparse. simpl. unfold _SPI_execute_plan, mbind, M_bind. simpl.
  unfold lift_world, mbind, M_bind. simpl. rewrite Hanalyze. simpl.
  rewrite setup_snapshot_readonly by done. simpl.
  unfold exec_one, mbind, M_bind. simpl.
  match goal with |- context [upd_conn ?f ?s1] =>
    destruct (upd_conn_run s1 cs _ f Hk) as (k' & Hu' & _) end.
  rewrite Hu'. by destruct u as [[f|]| | | | | | | | | | | | | |].
Qed.

(** The error the read-only mode raises: when the source's first
    statement is a utility command (other than COPY from the client and
    transaction control), [SPI_execute] with [read_only = true], called at an
    open level with an active snapshot, always ends in the error naming the
    command, before anything of the statement is executed. *)
Theorem spi_readonly_rejects_utility {W} (B : Backend W) (src : list ascii) (tc : Z)
    (s : State W) (cs : list Connection) (c : Connection) (ec : Z)
    (t : B.(RawStmt)) (rest : list (B.(RawStmt))) (u : UtilityStmt) (tag : bool) (n : Z)
    (Htc : 0 <= tc) (Hview : view (stk s) (cs ++ [c])) (Hec : execCxt c = Some ec)
    (Hsnap : ActiveSnapshot s <> [])
    (Hparse : B.(raw_parser) src = Ok (t :: rest))
    (Hanalyze : B.(pg_analyze_and_rewrite) t src (world s) =
      Ok ([{| q_commandType := CMD_UTILITY; q_canSetTag := tag; q_utilityStmt := Some u;
              q_payload := n |}], world s))
    (Hcopy : u <> CopyStmt None) (Hxact : u <> TransactionStmt) :
  SPI_execute B (Some src) true tc s =
    Err (B.(CreateCommandName) {| commandType := CMD_UTILITY; hasReturning := false;
           hasModifyingCTE := false; canSetTag := tag; rowMarks := []; utilityStmt := Some u |}
         ++ " is not allowed in a non-volatile function").
Proof. by eapply SPI_execute_rejects. Qed.

Lemma spi_readonly_rejects_utility_witness :
  SPI_execute demo_backend (Some (chars "CREATE FUNCTION f")) true 0 demo_state =
    Err "CREATE FUNCTION is not allowed in a non-volatile function".
Proof.
  eapply (spi_readonly_rejects_utility demo_backend (chars "CREATE FUNCTION f") 0 demo_state []
            (default (opened (boot_state tt) 0) (match SPI_stack (stk demo_state) with
                                  | Some (Some c :: _) => Some c | _ => None end))
            _ (utility_query (CreateFunctionStmt "f")) [utility_query (CreateTrigStmt "t")]
            (CreateFunctionStmt "f") true 0).
  - lia.
  - vm_compute. repeat split. eexists. reflexivity.
  - vm_compute. reflexivity.
  - done.
  - reflexivity.
  - reflexivity.
  - done.
  - done.
Defined.
