(* ===== verification/FdFrontend.v ===== *)
(** The functional-dependency front end (src/postgresql/src/backend/tcop/
    postgres.c, [append], [add_trigger] and the first part of
    [exec_simple_query]): every simple query is copied to a local buffer and
    compared with the prefix of

      insert into FD_table values ('fd1','relName','{"Al","Bl"}','{"Cr","Dr"}');

    and a query that has it is scanned for the dependency's name, relation and
    attributes, from which a trigger function and a trigger are created
    through SPI.

    The scan works on [char] pointers: [mem] is the memory from [query_string]
    on, which may extend beyond the terminator. All accesses are checked: the
    outcome is [UB] when the C code leaves an object. *)
From S2P Require Import Prelude.
From S2P Require Import CString.
From S2P Require Import Spi.
Open Scope Z_scope.

(** * append and add_trigger *)

(** [append(ptr, c)]: copies without the terminator and returns the advanced
    pointer. *)
Definition append (dst : buf) (di : Z) (c : ptr) : res (buf * Z) := copy dst di c.

(** [lhs[i]] with [lhs] an array of pointers into [names]. *)
Definition arg (names : buf) (args : list (option Z)) (i : Z) : res ptr :=
  o ← rd args i;
  match o with Some off => Ok (names, off) | None => UB "indeterminate pointer" end.

(** The loops that join the names with commas (left and right sides). *)
Definition join_names (names : buf) (args : list (option Z)) (sz : Z) : res buf :=
  '(b, p) ← loop_state (for_up 0 sz (fun i '(b, p) =>
      a ← arg names args i;
      '(b, p) ← append b p a;
      if i + 1 <? sz
      then bp ← append b p (literal ",", 0); Ok (inl bp)
      else Ok (inl (b, p)))
    (uninit 10000, 0));
  st b p NUL.

(** The loop that builds the condition. *)
Definition join_conditions (names : buf) (args : list (option Z)) (sz : Z) : res buf :=
  '(b, p) ← loop_state (for_up 0 sz (fun i '(b, p) =>
      a ← arg names args i;
      '(b, p) ← append b p a;
      '(b, p) ← append b p (literal "=NEW.", 0);
      '(b, p) ← append b p a;
      if i + 1 <? sz
      then bp ← append b p (literal " AND ", 0); Ok (inl bp)
      else Ok (inl (b, p)))
    (uninit 10000, 0));
  st b p NUL.

(** The format of [sprintf], one source line per line. *)
Definition command_format : string :=
  "CREATE FUNCTION %s_check() RETURNS TRIGGER language plpgsql " ++
  "			as $$" ++
  "			declare " ++
  "				cnt integer;" ++
  "			begin" ++
  "				SELECT COUNT(DISTINCT %s)  " ++
  "				INTO cnt" ++
  "				FROM %s " ++
  "				WHERE %s ;" ++
  "				if cnt > 1 THEN " ++
  "				RAISE EXCEPTION 'Functional dependency fd1 failed'; " ++
  "				END IF;" ++
  "			end;" ++
  "			$$ ;" ++
  "			CREATE TRIGGER trigg_%s BEFORE INSERT OR UPDATE ON %s " ++
  "			FOR EACH ROW " ++
  "			EXECUTE FUNCTION %s_check();".

(** The part of [add_trigger] before [SPI_execute]: the text of the command. *)
Definition build_command (fd_id relation names : buf) (lhs : list (option Z)) (lsz : Z)
    (rhs : list (option Z)) (rsz : Z) : res buf :=
  _ ← join_names names lhs lsz;
  R ← join_names names rhs rsz;
  cond ← join_conditions names lhs lsz;
  sprintf (uninit 10000) command_format
    [(fd_id, 0); (R, 0); (relation, 0); (cond, 0); (fd_id, 0); (relation, 0); (fd_id, 0)].

Section add_trigger.
Context {W : Type} (B : Backend W).

Definition world_step (f : W -> res W) : M W unit :=
  lift_world (fun w => w' ← f w; Ok (tt, w')).

(** [add_trigger]. [command] comes from [malloc], so [pfree(command)] at the
    end is undefined behaviour, and its outcome is left to [B]. *)
Definition add_trigger (fd_id relation names : buf) (lhs : list (option Z)) (lsz : Z)
    (rhs : list (option Z)) (rsz : Z) : M W unit :=
  world_step (B.(StartTransactionCommand));;
  SPI_connect;;
  snap ← GetTransactionSnapshot B;
  PushActiveSnapshot snap;;
  command ← lift (build_command fd_id relation names lhs lsz rhs rsz);
  text ← lift (strz (command, 0));
  ret ← SPI_execute B (Some text) true 0;
  if negb (ret =? SPI_OK_UTILITY) then raise "ALTER command failed"
  else
    SPI_finish;;
    PopActiveSnapshot;;
    world_step (B.(CommitTransactionCommand));;
    world_step (B.(pfree_malloced)).
End add_trigger.

(** * The scanner *)
Definition dquote : ascii := "034"%char.
Definition fd_query_prefix : string := "insert into FD_table values ('".

(** The first two loops: copy characters to [dst] up to a single quote, then
    skip [skip] characters. Returns the index reached and the buffer. *)
Fixpoint scan_name (fuel : nat) (mem : buf) (i : Z) (dst : buf) (idx skip : Z) : res (Z * buf) :=
  match fuel with
  | O => UB "fuel"
  | S f =>
      c ← ld mem i;
      if decide (c = "'"%char)
      then dst' ← st dst idx NUL; Ok (i + skip, dst')
      else dst' ← st dst idx c; scan_name f mem (i + 1) dst' (idx + 1) skip
  end.

(** The variables of the attribute loops: the buffer [ptr] with its fill
    [cidx], the start of the current name, whether a name is open, and the
    array of names ([lhs] or [rhs]) with its size. *)
Record AttrScan := {
  a_ptr : buf;
  a_cidx : Z;
  a_start : Z;
  a_flag : bool;
  a_out : list (option Z);
  a_idx : Z
}.

(** The attribute loops: after the name that is followed by a closing brace,
    skip [skip] characters. *)
Fixpoint scan_attrs (fuel : nat) (mem : buf) (i : Z) (a : AttrScan) (skip : Z)
  : res (Z * AttrScan) :=
  match fuel with
  | O => UB "fuel"
  | S f =>
      c ← ld mem i;
      if decide (c = dquote) then
        if a_flag a then
          ptr' ← st (a_ptr a) (a_cidx a) NUL;
          out' ← wr (a_out a) (a_idx a) (Some (a_start a));
          let a' := {| a_ptr := ptr'; a_cidx := a_cidx a + 1; a_start := a_start a;
                       a_flag := false; a_out := out'; a_idx := a_idx a + 1 |} in
          c' ← ld mem (i + 1);
          if decide (c' = "}"%char) then Ok (i + 1 + skip, a')
          else scan_attrs f mem (i + 2) a' skip
        else
          scan_attrs f mem (i + 1)
            {| a_ptr := a_ptr a; a_cidx := a_cidx a; a_start := a_cidx a;
               a_flag := true; a_out := a_out a; a_idx := a_idx a |} skip
      else
        ptr' ← st (a_ptr a) (a_cidx a) c;
        scan_attrs f mem (i + 1)
          {| a_ptr := ptr'; a_cidx := a_cidx a + 1; a_start := a_start a;
             a_flag := a_flag a; a_out := a_out a; a_idx := a_idx a |} skip
  end.

(** What the scan hands to [add_trigger]. *)
Record FdScan := {
  s_fd_id : buf;
  s_relation : buf;
  s_names : buf;
  s_lhs : list (option Z);
  s_lidx : Z;
  s_rhs : list (option Z);
  s_ridx : Z
}.

Definition scan_declaration (mem : buf) : res FdScan :=
  let fuel := S (length mem) in
  let i := Z.of_nat (String.length fd_query_prefix) in
  '(i, fd_id) ← scan_name fuel mem i (uninit 100) 0 3;
  '(i, relation) ← scan_name fuel mem i (uninit 100) 0 4;
  '(i, l) ← scan_attrs fuel mem i
      {| a_ptr := uninit 10000; a_cidx := 0; a_start := 0; a_flag := false;
         a_out := replicate 100 None; a_idx := 0 |} 5;
  '(_, r) ← scan_attrs fuel mem i
      {| a_ptr := a_ptr l; a_cidx := a_cidx l; a_start := a_start l; a_flag := a_flag l;
         a_out := replicate 100 None; a_idx := 0 |} 0;
  Ok {| s_fd_id := fd_id; s_relation := relation; s_names := a_ptr r;
        s_lhs := a_out l; s_lidx := a_idx l; s_rhs := a_out r; s_ridx := a_idx r |}.

(** The test that every simple query goes through. *)
Definition is_fd_declaration (mem : buf) : res bool :=
  temp ← strcpy (uninit 1000) (mem, 0);
  temp ← st temp (Z.of_nat (String.length fd_query_prefix)) NUL;
  d ← strcasecmp (temp, 0) (literal fd_query_prefix, 0);
  Ok (d =? 0).

(** The part of [exec_simple_query] this project adds; [stock] is the rest of
    the function. *)
Definition exec_simple_query {W} (B : Backend W) (stock : M W unit) (mem : buf) : M W unit :=
  b ← lift (is_fd_declaration mem);
  (if (b : bool) then
    f ← lift (scan_declaration mem);
    add_trigger B (s_fd_id f) (s_relation f) (s_names f) (s_lhs f) (s_lidx f)
      (s_rhs f) (s_ridx f)
  else mret tt);;
  stock.
