(* ===== verification/FdScan.v ===== *)
(** The functional-dependency scanner and command builder of FdFrontend.v on
    well-formed declarations: what the scan loops leave in their buffers, and
    the text the command loops produce. *)
From S2P Require Import Prelude.
From S2P Require Import CString.
From S2P Require Import Spi.
From S2P Require Import FdFrontend.
Open Scope Z_scope.

(** * Declarations and their concrete syntax *)
Record fd_decl := {
  d_id : list ascii;
  d_rel : list ascii;
  d_lhs : list (list ascii);
  d_rhs : list (list ascii)
}.

Definition quote : ascii := "'"%char.
Definition rbrace : ascii := "}"%char.

Definition quoted (a : list ascii) : list ascii := dquote :: a ++ [dquote].

(** Quoted names with [sep] between them. *)
Fixpoint print_attrs (sep : list ascii) (l : list (list ascii)) : list ascii :=
  match l with
  | [] => []
  | [a] => quoted a
  | a :: l' => quoted a ++ sep ++ print_attrs sep l'
  end.

(** The declaration after the prefix, up to the last brace. *)
Definition print_body (sep : list ascii) (d : fd_decl) : list ascii :=
  d_id d ++ chars "','" ++ d_rel d ++ chars "','{" ++ print_attrs sep (d_lhs d) ++
  chars "}','{" ++ print_attrs sep (d_rhs d) ++ [rbrace].

(** Names the scanner can read: no terminator and no delimiter in them, sizes
    within the arrays. *)
Record decl_ok (d : fd_decl) : Prop := {
  ok_id : (NUL ∉ d_id d) /\ (quote ∉ d_id d) /\ len (d_id d) < 100;
  ok_rel : (NUL ∉ d_rel d) /\ (quote ∉ d_rel d) /\ len (d_rel d) < 100;
  ok_lhs : Forall (fun a => (NUL ∉ a) /\ (dquote ∉ a)) (d_lhs d) /\ d_lhs d <> [] /\
           len (d_lhs d) <= 100;
  ok_rhs : Forall (fun a => (NUL ∉ a) /\ (dquote ∉ a)) (d_rhs d) /\ d_rhs d <> [] /\
           len (d_rhs d) <= 100
}.

(** A separator: one character that is not a brace, then no double quote. *)
Definition sep_ok (sep : list ascii) : Prop :=
  match sep with
  | [] => False
  | c :: junk => c <> rbrace /\ (dquote ∉ junk)
  end.

(** * The name loops *)
Lemma scan_name_run fuel mem i dst idx skip s :
  holds mem i (s ++ [quote]) -> quote ∉ s -> (length s < fuel)%nat ->
  0 <= idx -> idx + len s < len dst ->
  scan_name fuel mem i dst idx skip = Ok (i + len s + skip, blit dst idx (s ++ [NUL])).
Proof.
  revert i dst idx s. induction fuel as [|f IH]; intros i dst idx s Hm Hq Hf Hi Hfit; [lia|].
  destruct s as [|c s]; simpl in Hm; simpl scan_name.
  - rewrite (ld_holds _ _ _ Hm). simpl. rewrite len_nil in Hfit. rewrite st_in by lia. simpl.
    rewrite len_nil. do 2 f_equal. lia.
  - apply holds_cons in Hm as [Hc Hm]. rewrite (ld_holds _ _ _ Hc). simpl.
    apply not_elem_of_cons in Hq as [Hq1 Hq2]. rewrite decide_False by (unfold quote in *; congruence).
    rewrite len_cons in Hfit |- *. pose proof (len_nonneg s). rewrite st_in by lia. simpl. simpl in Hf.
    rewrite (IH (i + 1) _ (idx + 1) s); [|done|done|lia|lia|].
    + f_equal. f_equal; [lia|]. apply (blit_blit dst idx [c] (s ++ [NUL])); [lia|].
      rewrite len_app. change (len [c]) with 1. change (len [NUL]) with 1. lia.
    + rewrite len_blit; change (len [c]) with 1; lia.
Qed.

(** * The attribute loops *)

(** The scan after [s] was copied. *)
Definition filled (a : AttrScan) (s : list ascii) : AttrScan :=
  {| a_ptr := blit (a_ptr a) (a_cidx a) s; a_cidx := a_cidx a + len s; a_start := a_start a;
     a_flag := a_flag a; a_out := a_out a; a_idx := a_idx a |}.

Lemma filled_app a s t :
  0 <= a_cidx a -> a_cidx a + len s + len t <= len (a_ptr a) ->
  filled (filled a s) t = filled a (s ++ t).
Proof.
  intros. unfold filled. simpl. rewrite blit_blit, len_app by lia. f_equal. lia.
Qed.

Lemma filled_nil a : filled a [] = a.
Proof. unfold filled. rewrite blit_nil, len_nil, Z.add_0_r. by destruct a. Qed.

(** Characters other than the double quote are copied. *)
Lemma scan_attrs_plain fuel mem i a skip s :
  holds mem i s -> dquote ∉ s -> 0 <= a_cidx a -> a_cidx a + len s <= len (a_ptr a) ->
  scan_attrs (length s + fuel) mem i a skip = scan_attrs fuel mem (i + len s) (filled a s) skip.
Proof.
  revert i a. induction s as [|c s IH]; intros i a Hm Hq Ha Hfit.
  - rewrite filled_nil, len_nil, Z.add_0_r. done.
  - apply holds_cons in Hm as [Hc Hm]. apply not_elem_of_cons in Hq as [Hq1 Hq2].
    rewrite len_cons in Hfit |- *. pose proof (len_nonneg s).
    simpl. rewrite (ld_holds _ _ _ Hc). simpl. rewrite decide_False by congruence.
    rewrite st_in by lia. simpl. change (a_cidx a + 1) with (a_cidx a + len [c]).
    change (scan_attrs (length s + fuel) mem (i + 1) (filled a [c]) skip =
            scan_attrs fuel mem (i + (1 + len s)) (filled a (c :: s)) skip).
    rewrite IH; [|done|done|simpl; change (len [c]) with 1; lia|].
    + rewrite filled_app; [|done|change (len [c]) with 1; lia]. f_equal. lia.
    + simpl. rewrite len_blit; change (len [c]) with 1; lia.
Qed.

(** The scan after the name [s] was stored. *)
Definition stored (a : AttrScan) (s : list ascii) : AttrScan :=
  {| a_ptr := blit (a_ptr a) (a_cidx a) (s ++ [NUL]); a_cidx := a_cidx a + len s + 1;
     a_start := a_cidx a; a_flag := false; a_out := upd (a_out a) (a_idx a) (Some (a_cidx a));
     a_idx := a_idx a + 1 |}.

(** One quoted name, from the state outside quotes. *)
Lemma scan_attrs_quoted fuel mem i a skip s c :
  holds mem i (quoted s ++ [c]) -> dquote ∉ s -> a_flag a = false ->
  0 <= a_cidx a -> a_cidx a + len s < len (a_ptr a) -> 0 <= a_idx a < len (a_out a) ->
  scan_attrs (length s + 2 + fuel) mem i a skip =
    if decide (c = rbrace) then Ok (i + len s + 2 + skip, stored a s)
    else scan_attrs fuel mem (i + len s + 3) (stored a s) skip.
Proof.
  intros Hm Hq Hfl Ha Hfit Hidx. unfold quoted in Hm. simpl in Hm.
  apply holds_cons in Hm as [Ho Hm]. rewrite <- app_assoc in Hm. simpl in Hm.
  apply holds_app in Hm as [Hs Hm]. apply holds_cons in Hm as [Hcl Hc].
  replace (length s + 2 + fuel)%nat with (S (length s + S fuel))%nat by lia.
  simpl. rewrite (ld_holds _ _ _ Ho). simpl. rewrite Hfl. simpl.
  set (a1 := {| a_ptr := a_ptr a; a_start := a_cidx a; a_flag := true |}).
  rewrite (scan_attrs_plain (S fuel) mem (i + 1) a1 skip s) by (done || simpl; lia).
  simpl. rewrite (ld_holds _ _ _ Hcl). simpl. pose proof (len_nonneg s).
  rewrite st_in by (rewrite len_blit; lia). simpl.
  unfold wr. rewrite (proj2 (Z.leb_le _ _)), (proj2 (Z.ltb_lt _ _)) by lia. simpl.
  rewrite (ld_holds _ _ _ Hc). simpl.
  rewrite (blit_blit (a_ptr a) (a_cidx a) s [NUL]) by (change (len [NUL]) with 1; lia).
  unfold rbrace, stored. case_decide.
  - do 2 f_equal. lia.
  - f_equal. lia.
Qed.

(** * What the attribute loops leave behind *)
Record scanned (a a' : AttrScan) (l : list (list ascii)) (used : Z) : Prop := {
  sc_flag : a_flag a' = false;
  sc_idx : a_idx a' = a_idx a + len l;
  sc_ptr_len : len (a_ptr a') = len (a_ptr a);
  sc_out_len : len (a_out a') = len (a_out a);
  sc_cidx : a_cidx a <= a_cidx a' <= a_cidx a + used;
  sc_ptr_frame : forall j, Z.of_nat j < a_cidx a -> a_ptr a' !! j = a_ptr a !! j;
  sc_out_frame : forall j, Z.of_nat j < a_idx a -> a_out a' !! j = a_out a !! j;
  sc_names : forall (k : nat) s, l !! k = Some s ->
    exists off, a_out a' !! (Z.to_nat (a_idx a) + k)%nat = Some (Some off) /\
      cstr (a_ptr a', off) s /\ off + len s < a_cidx a'
}.

Lemma holds_ext b b' i l :
  holds b i l -> (forall j, Z.of_nat j < i + len l -> b' !! j = b !! j) -> holds b' i l.
Proof.
  intros [Hi H] Hext. split; [done|]. intros k c Hk. rewrite Hext; [by apply H|].
  pose proof (lookup_lt_Some _ _ _ Hk). unfold len. lia.
Qed.

Lemma stored_scanned a s :
  NUL ∉ s -> 0 <= a_cidx a -> a_cidx a + len s < len (a_ptr a) -> 0 <= a_idx a < len (a_out a) ->
  scanned a (stored a s) [s] (len s + 1).
Proof.
  intros HN Ha Hfit Hidx. pose proof (len_nonneg s).
  assert (Hl : len (s ++ [NUL]) = len s + 1) by (rewrite len_app; done).
  constructor; simpl; try done.
  - rewrite len_blit; lia.
  - apply len_upd.
  - lia.
  - intros j Hj. rewrite lookup_blit by lia. by rewrite (proj2 (Z.leb_gt _ _)) by lia.
  - intros j Hj. unfold upd. rewrite list_lookup_insert_ne; [done|lia].
  - intros [|k] t Ht; simpl in Ht; [|done]. injection Ht as <-.
    exists (a_cidx a). rewrite Nat.add_0_r. split; [|split; [split; [|done]|lia]].
    + unfold upd. rewrite list_lookup_insert_eq; [done|]. unfold len in *. lia.
    + apply holds_blit; [done|simpl; lia].
Qed.

Lemma scanned_trans a a1 a2 l1 l2 u1 u2 :
  0 <= a_idx a -> scanned a a1 l1 u1 -> scanned a1 a2 l2 u2 -> scanned a a2 (l1 ++ l2) (u1 + u2).
Proof.
  intros Ha H1 H2. destruct H1 as [F1 I1 P1 O1 C1 PF1 OF1 N1], H2 as [F2 I2 P2 O2 C2 PF2 OF2 N2].
  constructor; try congruence.
  - rewrite len_app. lia.
  - lia.
  - intros j Hj. rewrite PF2 by lia. by apply PF1.
  - intros j Hj. pose proof (len_nonneg l1). rewrite OF2 by lia. by apply OF1.
  - intros k s [Hk|[Hge Hk]]%lookup_app_Some.
    + destruct (N1 k s Hk) as (off & Hoff & [Hh HN] & Hb). exists off. split; [|split; [|lia]].
      * rewrite OF2; [done|]. apply lookup_lt_Some in Hk. unfold len in *. lia.
      * split; [|done]. simpl in *. eapply holds_ext; [exact Hh|].
        intros j Hj. apply PF2. rewrite len_app in Hj. change (len [NUL]) with 1 in Hj. lia.
    + destruct (N2 _ s Hk) as (off & Hoff & Hh & Hb). exists off. split; [|by split].
      rewrite <- Hoff. f_equal. unfold len in *. lia.
Qed.

Lemma filled_scanned a s :
  a_flag a = false -> 0 <= a_cidx a -> a_cidx a + len s <= len (a_ptr a) ->
  scanned a (filled a s) [] (len s).
Proof.
  intros. pose proof (len_nonneg s). constructor; simpl; try done.
  - by rewrite len_nil, Z.add_0_r.
  - rewrite len_blit; lia.
  - lia.
  - intros j Hj. rewrite lookup_blit by lia. by rewrite (proj2 (Z.leb_gt _ _)) by lia.
Qed.

Lemma length_quoted t : length (quoted t) = (length t + 2)%nat.
Proof. unfold quoted. simpl. rewrite length_app. simpl. lia. Qed.

Lemma len_quoted t : len (quoted t) = len t + 2.
Proof. unfold len. rewrite length_quoted. lia. Qed.

(** A whole attribute list, followed by its closing brace. *)
Lemma scan_attrs_run mem skip sep l fuel i a :
  sep_ok sep -> l <> [] -> Forall (fun s => (NUL ∉ s) /\ (dquote ∉ s)) l ->
  holds mem i (print_attrs sep l ++ [rbrace]) -> (length (print_attrs sep l) <= fuel)%nat ->
  a_flag a = false -> 0 <= a_cidx a -> a_cidx a + len (print_attrs sep l) <= len (a_ptr a) ->
  0 <= a_idx a -> a_idx a + len l <= len (a_out a) ->
  exists a', scan_attrs fuel mem i a skip = Ok (i + len (print_attrs sep l) + skip, a') /\
    scanned a a' l (len (print_attrs sep l)).
Proof.
  intros Hsep Hne Hl. destruct sep as [|c0 junk]; [done|]. destruct Hsep as [Hc0 Hjunk].
  revert fuel i a. induction Hl as [|s l [HsN Hsq] Hl IH]; [done|].
  intros fuel i a Hm Hf Hfl Ha Hfit Hidx Hout. rewrite len_cons in Hout.
  pose proof (len_nonneg s). pose proof (len_nonneg l).
  pose proof len_quoted as Hqlen. pose proof (length_quoted s) as Hqs.
  destruct l as [|s2 l'].
  - change (print_attrs (c0 :: junk) [s]) with (quoted s) in *. rewrite Hqlen in Hfit |- *.
    assert (exists g, fuel = (length s + 2 + g)%nat) as [g ->].
    { exists (fuel - (length s + 2))%nat. lia. }
    rewrite (scan_attrs_quoted g mem i a skip s rbrace) by (done || lia).
    rewrite decide_True by done. exists (stored a s). split; [do 2 f_equal; lia|].
    destruct (stored_scanned a s) as []; [done|lia..|]. constructor; try done. lia.
  - change (print_attrs (c0 :: junk) (s :: s2 :: l')) with
      (quoted s ++ (c0 :: junk) ++ print_attrs (c0 :: junk) (s2 :: l')) in *.
    set (rest := print_attrs (c0 :: junk) (s2 :: l')) in *.
    pose proof (len_nonneg rest). pose proof (len_nonneg junk).
    rewrite !len_app, len_cons, Hqlen in Hfit |- *.
    rewrite !length_app, length_quoted in Hf. simpl in Hf.
    rewrite <- !app_assoc in Hm. change ((c0 :: junk) ++ rest ++ [rbrace])
      with ([c0] ++ junk ++ rest ++ [rbrace]) in Hm.
    rewrite app_assoc in Hm. apply holds_app in Hm as [Hq Hm].
    apply holds_app in Hm as [Hj Hm]. rewrite len_app, Hqlen in Hj, Hm. change (len [c0]) with 1 in *.
    assert (exists g, fuel = (length s + 2 + (length junk + g))%nat) as [g ->].
    { exists (fuel - (length s + 2) - length junk)%nat. lia. }
    rewrite (scan_attrs_quoted _ mem i a skip s c0) by (done || lia).
    rewrite decide_False by done.
    assert (Hst : scanned a (stored a s) [s] (len s + 1)) by (apply stored_scanned; done || lia).
    assert (Hstl : len (a_ptr (stored a s)) = len (a_ptr a)) by apply Hst.
    replace (i + len s + 3) with (i + (len s + 2 + 1)) by lia.
    rewrite (scan_attrs_plain g mem _ (stored a s) skip junk) by (done || simpl in *; lia).
    assert (Hfi : scanned (stored a s) (filled (stored a s) junk) [] (len junk)).
    { apply filled_scanned; [done|simpl; lia|rewrite Hstl; simpl; lia]. }
    assert (Hfl2 : len (a_ptr (filled (stored a s) junk)) = len (a_ptr a)).
    { rewrite <- Hstl. apply Hfi. }
    assert (Hol : len (a_out (filled (stored a s) junk)) = len (a_out a)) by apply len_upd.
    destruct (IH ltac:(done) g (i + (len s + 2 + 1) + len junk) (filled (stored a s) junk))
      as (a' & Hrun & Hsc); [done|unfold rest in *; lia|done|simpl; lia| | | |].
    + rewrite Hfl2. simpl. unfold rest in *. lia.
    + simpl. lia.
    + rewrite Hol. simpl. rewrite len_cons in *. lia.
    + exists a'. split; [rewrite Hrun; do 2 f_equal; unfold rest; lia|].
      pose proof (scanned_trans _ _ _ _ _ _ _ ltac:(done) Hst Hfi) as H12.
      pose proof (scanned_trans _ _ _ _ _ _ _ ltac:(done) H12 Hsc) as H3. simpl in H3.
      destruct H3. constructor; try done. unfold rest in *. lia.
Qed.

(** * The command loops *)

(** A loop whose [i]-th iteration appends [g i] to a buffer. *)
Lemma emit_loop (g : Z -> list ascii) (body : Z -> buf * Z -> res ((buf * Z) + Empty_set)) sz b :
  (forall i b p, 0 <= i < sz -> 0 <= p -> p + len (g i) <= len b ->
     body i (b, p) = Ok (inl (blit b p (g i), p + len (g i)))) ->
  0 <= sz -> len (mjoin (g <$> seqZ 0 sz)) <= len b ->
  loop_state (for_up 0 sz body (b, 0)) =
    Ok (blit b 0 (mjoin (g <$> seqZ 0 sz)), len (mjoin (g <$> seqZ 0 sz))).
Proof.
  intros Hbody Hsz Hfit. apply wp_eq. apply wp_loop_state.
  apply (wp_for_up (fun i '(b', p) =>
    b' = blit b 0 (mjoin (g <$> seqZ 0 i)) /\ p = len (mjoin (g <$> seqZ 0 i)))); [done|..].
  - simpl. by rewrite blit_nil.
  - intros i [b' p] Hi [-> ->].
    assert (Hsplit : mjoin (g <$> seqZ 0 (i + 1)) = mjoin (g <$> seqZ 0 i) ++ g i).
    { rewrite seqZ_app by lia. rewrite fmap_app, join_app. f_equal. simpl.
      rewrite Z.add_0_l. apply app_nil_r. }
    assert (Hpre : len (mjoin (g <$> seqZ 0 (i + 1))) <= len b).
    { etrans; [|exact Hfit].
      replace (seqZ 0 sz) with (seqZ 0 (i + 1) ++ seqZ (0 + (i + 1)) (sz - (i + 1)))
        by (rewrite <- seqZ_app by lia; f_equal; lia).
      rewrite fmap_app, join_app, len_app. pose proof (len_nonneg (mjoin (g <$> seqZ (0 + (i + 1)) (sz - (i + 1))))). lia. }
    rewrite Hsplit, len_app in Hpre. pose proof (len_nonneg (mjoin (g <$> seqZ 0 i))).
    pose proof (len_nonneg (g i)).
    rewrite Hbody; [|lia|lia|rewrite len_blit; lia]. simpl. rewrite Hsplit, len_app. split; [|done].
    apply (blit_blit b 0); lia.
  - intros [b' p] [-> ->]. done.
Qed.

Fixpoint intercalate (sep : list ascii) (l : list (list ascii)) : list ascii :=
  match l with
  | [] => []
  | [a] => a
  | a :: l' => a ++ sep ++ intercalate sep l'
  end.

(** The pieces the loops emit make up the separated text. *)
Lemma intercalate_pieces (f : list ascii -> list ascii) sep l :
  mjoin ((fun i => f (getd [] l i) ++ (if i + 1 <? len l then sep else [])) <$> seqZ 0 (len l)) =
  intercalate sep (f <$> l).
Proof.
  assert (Hgen : forall pre suf, l = pre ++ suf ->
    mjoin ((fun i => f (getd [] l i) ++ (if i + 1 <? len l then sep else [])) <$>
      seqZ (len pre) (len suf)) = intercalate sep (f <$> suf)).
  { intros pre suf. revert pre. induction suf as [|a suf IH]; intros pre Hl; [done|].
    rewrite len_cons. rewrite seqZ_cons by (pose proof (len_nonneg suf); lia).
    rewrite fmap_cons. simpl mjoin.
    assert (getd [] l (len pre) = a) as ->.
    { rewrite Hl, getd_app by apply len_nonneg. rewrite (proj2 (Z.ltb_ge _ _)) by lia.
      by rewrite Z.sub_diag. }
    specialize (IH (pre ++ [a])). rewrite len_app in IH. change (len [a]) with 1 in IH.
    replace (Z.pred (1 + len suf)) with (len suf) by lia.
    replace (Z.succ (len pre)) with (len pre + 1) by lia.
    rewrite IH by (rewrite Hl, <- app_assoc; done). rewrite Hl, len_app, len_cons.
    destruct suf as [|a2 suf]; simpl.
    - rewrite len_nil, (proj2 (Z.ltb_ge _ _)) by lia. by rewrite !app_nil_r.
    - rewrite len_cons. pose proof (len_nonneg suf).
      rewrite (proj2 (Z.ltb_lt _ _)) by lia. by rewrite <- app_assoc. }
  apply (Hgen [] l eq_refl).
Qed.

(** The pointers of [args] designate the names [l]. *)
Definition names_ok (names : buf) (args : list (option Z)) (l : list (list ascii)) : Prop :=
  forall (k : nat) s, l !! k = Some s ->
    exists off, args !! k = Some (Some off) /\ cstr (names, off) s.

Lemma arg_run names args l i :
  names_ok names args l -> 0 <= i < len l ->
  exists off, arg names args i = Ok (names, off) /\ cstr (names, off) (getd [] l i).
Proof.
  intros Hn Hi. destruct (lookup_lt_is_Some_2 l (Z.to_nat i)) as [s Hs]; [unfold len in *; lia|].
  destruct (Hn _ _ Hs) as (off & Hoff & Hc). exists off. unfold arg, rd, getd.
  rewrite (proj2 (Z.leb_le _ _)), Hoff, Hs by lia. done.
Qed.

Lemma cstr_lit_comma : cstr (literal ",", 0) (chars ",").
Proof. apply cstr_literal. by apply (bool_decide_unpack _). Qed.

Lemma join_names_run names args l :
  names_ok names args l -> len (intercalate (chars ",") l) < 10000 ->
  join_names names args (len l) =
    Ok (blit (uninit 10000) 0 (intercalate (chars ",") l ++ [NUL])).
Proof.
  intros Hn Hfit. unfold join_names.
  assert (Hp := intercalate_pieces id (chars ",") l). rewrite list_fmap_id in Hp.
  rewrite (emit_loop (fun i => id (getd [] l i) ++ (if i + 1 <? len l then chars "," else []))).
  - rewrite Hp. step_ok. pose proof (len_nonneg (intercalate (chars ",") l)).
    rewrite st_in by (rewrite len_blit; rewrite ?len_uninit; lia). f_equal. rewrite <- (Z.add_0_l (len _)).
    apply blit_blit; rewrite ?len_uninit; change (len [NUL]) with 1; lia.
  - intros i b p Hi Hpos Hb. destruct (arg_run names args l i Hn Hi) as (off & -> & Hc). simpl.
    rewrite len_app in Hb. unfold id in *. pose proof (len_nonneg (getd [] l i)).
    revert Hb. destruct (Z.ltb_spec (i + 1) (len l)); intros Hb.
    + change (len (chars ",")) with 1 in *. unfold append. rewrite (copy_ok _ _ _ (getd [] l i)) by (done || lia). simpl.
      rewrite (copy_ok _ _ _ (chars ",")).
      * simpl. rewrite blit_blit, len_app by (change (len (chars ",")) with 1; lia).
        do 3 f_equal. lia.
      * apply cstr_lit_comma.
      * lia.
      * rewrite len_blit; change (len (chars ",")) with 1; lia.
    + rewrite len_nil in *. unfold append. rewrite (copy_ok _ _ _ (getd [] l i)) by (done || lia).
      simpl. rewrite app_nil_r. done.
  - apply len_nonneg.
  - rewrite Hp, len_uninit; lia.
Qed.

(** [A=NEW.A]. *)
Definition condition (a : list ascii) : list ascii := a ++ chars "=NEW." ++ a.

Lemma cstr_lit_new : cstr (literal "=NEW.", 0) (chars "=NEW.").
Proof. apply cstr_literal. by apply (bool_decide_unpack _). Qed.

Lemma cstr_lit_and : cstr (literal " AND ", 0) (chars " AND ").
Proof. apply cstr_literal. by apply (bool_decide_unpack _). Qed.

Lemma join_conditions_run names args l :
  names_ok names args l -> len (intercalate (chars " AND ") (condition <$> l)) < 10000 ->
  join_conditions names args (len l) =
    Ok (blit (uninit 10000) 0 (intercalate (chars " AND ") (condition <$> l) ++ [NUL])).
Proof.
  intros Hn Hfit. unfold join_conditions.
  assert (Hp := intercalate_pieces condition (chars " AND ") l).
  set (text := intercalate (chars " AND ") (condition <$> l)) in *.
  rewrite (emit_loop (fun i => condition (getd [] l i) ++ (if i + 1 <? len l then chars " AND " else []))).
  - rewrite Hp. step_ok. pose proof (len_nonneg text).
    rewrite st_in by (rewrite len_blit; rewrite ?len_uninit; lia). f_equal. rewrite <- (Z.add_0_l (len _)).
    apply blit_blit; rewrite ?len_uninit; change (len [NUL]) with 1; lia.
  - intros i b p Hi Hpos Hb. destruct (arg_run names args l i Hn Hi) as (off & -> & Hc). step_ok.
    set (a := getd [] l i) in *. unfold condition in *. rewrite !len_app in Hb.
    change (len (chars "=NEW.")) with 5 in *. pose proof (len_nonneg a).
    pose proof (len_nonneg (if i + 1 <? len l then chars " AND " else [])).
    unfold append. rewrite (copy_ok _ _ _ a) by (done || lia). step_ok.
    rewrite (copy_ok _ _ _ (chars "=NEW.")) by
      (apply cstr_lit_new || rewrite ?len_blit; change (len (chars "=NEW.")) with 5; lia).
    step_ok. rewrite (blit_blit b p a (chars "=NEW.")) by (change (len (chars "=NEW.")) with 5; lia).
    rewrite (copy_ok _ _ _ a); [|done|change (len (chars "=NEW.")) with 5; lia|].
    2: { rewrite len_blit; rewrite ?len_app; change (len (chars "=NEW.")) with 5; lia. }
    step_ok. replace (p + len a + len (chars "=NEW.")) with (p + len (a ++ chars "=NEW."))
      by (rewrite len_app; lia).
    rewrite (blit_blit b p (a ++ chars "=NEW.") a)
      by (rewrite ?len_app; change (len (chars "=NEW.")) with 5; lia).
    rewrite <- (app_assoc a (chars "=NEW.") a).
    replace (p + len (a ++ chars "=NEW.") + len a) with (p + len (a ++ chars "=NEW." ++ a))
      by (rewrite !len_app; lia).
    revert Hb. destruct (Z.ltb_spec (i + 1) (len l)); intros Hb.
    + change (len (chars " AND ")) with 5 in *.
      rewrite (copy_ok _ _ _ (chars " AND ")); [|apply cstr_lit_and|rewrite !len_app; change (len (chars "=NEW.")) with 5; lia|].
      2: { rewrite len_blit; rewrite ?len_app; change (len (chars "=NEW.")) with 5;
           change (len (chars " AND ")) with 5; lia. }
      step_ok. rewrite (blit_blit b p (a ++ chars "=NEW." ++ a) (chars " AND ")).
      * rewrite (len_app (a ++ chars "=NEW." ++ a) (chars " AND ")). do 3 f_equal. lia.
      * done.
      * rewrite !len_app. change (len (chars "=NEW.")) with 5.
        change (len (chars " AND ")) with 5. lia.
    + by rewrite !app_nil_r.
  - apply len_nonneg.
  - rewrite Hp. rewrite len_uninit; lia.
Qed.

(** * The whole scan *)

(** What the scan hands over represents the declaration [d]. *)
Record represents (f : FdScan) (d : fd_decl) : Prop := {
  rp_id : cstr (s_fd_id f, 0) (d_id d);
  rp_rel : cstr (s_relation f, 0) (d_rel d);
  rp_lidx : s_lidx f = len (d_lhs d);
  rp_lhs : names_ok (s_names f) (s_lhs f) (d_lhs d);
  rp_ridx : s_ridx f = len (d_rhs d);
  rp_rhs : names_ok (s_names f) (s_rhs f) (d_rhs d)
}.

Lemma names_ok_scanned a a' l u :
  a_idx a = 0 -> scanned a a' l u -> names_ok (a_ptr a') (a_out a') l.
Proof.
  intros Hi H k s Hk. destruct (sc_names _ _ _ _ H k s Hk) as (off & Hoff & Hc & _).
  exists off. rewrite Hi in Hoff. by split.
Qed.

Lemma len_print_body sep d :
  len (print_body sep d) = len (d_id d) + len (d_rel d) + len (print_attrs sep (d_lhs d)) +
    len (print_attrs sep (d_rhs d)) + 13.
Proof.
  unfold print_body. rewrite !len_app. change (len (chars "','")) with 3.
  change (len (chars "','{")) with 4. change (len (chars "}','{")) with 5.
  change (len [rbrace]) with 1. lia.
Qed.

Lemma scan_declaration_run mem sep d :
  decl_ok d -> sep_ok sep -> holds mem 30 (print_body sep d) -> len (print_body sep d) < 1000 ->
  exists f, scan_declaration mem = Ok f /\ represents f d.
Proof.
  intros [Hid Hrel Hlhs Hrhs] Hsep Hm Hlen. destruct Hid as (HidN & Hidq & Hidl),
    Hrel as (HrelN & Hrelq & Hrell), Hlhs as (HlA & Hlne & Hll), Hrhs as (HrA & Hrne & Hrl).
  pose proof (holds_len _ _ _ Hm ltac:(unfold print_body; by destruct (d_id d))) as Hmem.
  rewrite len_print_body in Hlen, Hmem.
  pose proof (len_nonneg (d_id d)). pose proof (len_nonneg (d_rel d)).
  pose proof (len_nonneg (print_attrs sep (d_lhs d))).
  pose proof (len_nonneg (print_attrs sep (d_rhs d))).
  unfold print_body in Hm. change (chars "','") with ([quote] ++ chars ",'") in Hm.
  change (chars "','{") with ([quote] ++ chars ",'{") in Hm.
  change (chars "}','{") with ([rbrace] ++ chars "','{") in Hm.
  rewrite <- !app_assoc in Hm.
  rewrite (app_assoc (d_id d)), (app_assoc (d_rel d)), (app_assoc (print_attrs sep (d_lhs d))) in Hm.
  apply holds_app in Hm as [Hm1 Hm]. apply holds_app in Hm as [_ Hm].
  apply holds_app in Hm as [Hm2 Hm]. apply holds_app in Hm as [_ Hm].
  apply holds_app in Hm as [Hm3 Hm]. apply holds_app in Hm as [_ Hm4].
  rewrite !len_app in Hm2. rewrite !len_app in Hm3. rewrite !len_app in Hm4.
  change (len [quote]) with 1 in *. change (len [rbrace]) with 1 in *.
  change (len (chars ",'")) with 2 in *. change (len (chars ",'{")) with 3 in *.
  change (len (chars "','{")) with 4 in *.
  unfold scan_declaration. change (Z.of_nat (String.length fd_query_prefix)) with 30.
  rewrite (scan_name_run _ mem 30 _ 0 3 (d_id d)); [|done|done|unfold len in *; lia|lia|by rewrite len_uninit].
  step_ok. replace (30 + len (d_id d) + 3) with (30 + (len (d_id d) + 1) + 2) by lia.
  rewrite (scan_name_run _ mem _ _ 0 4 (d_rel d)); [|done|done|unfold len in *; lia|lia|by rewrite len_uninit].
  step_ok.
  set (a0 := {| a_ptr := uninit 10000; a_cidx := 0 |}).
  replace (30 + (len (d_id d) + 1) + 2 + len (d_rel d) + 4) with
    (30 + (len (d_id d) + 1) + 2 + (len (d_rel d) + 1) + 3) by lia.
  destruct (scan_attrs_run mem 5 sep (d_lhs d) (S (length mem))
    (30 + (len (d_id d) + 1) + 2 + (len (d_rel d) + 1) + 3) a0) as (al & -> & Hsl);
    [done|done|done|done|unfold len in *; lia|done|done|simpl; rewrite len_uninit; lia|done|
     change (len (a_out a0)) with 100; simpl; lia|].
  step_ok.
  set (a1 := {| a_ptr := a_ptr al; a_cidx := a_cidx al |}).
  destruct Hsl as [F I P O C PF OF N] eqn:Hsl'. clear Hsl'.
  simpl in I, P, C. rewrite len_uninit in P by done.
  replace (30 + (len (d_id d) + 1) + 2 + (len (d_rel d) + 1) + 3 + len (print_attrs sep (d_lhs d)) + 5)
    with (30 + (len (d_id d) + 1) + 2 + (len (d_rel d) + 1) + 3 +
          (len (print_attrs sep (d_lhs d)) + 1) + 4) by lia.
  destruct (scan_attrs_run mem 0 sep (d_rhs d) (S (length mem))
    (30 + (len (d_id d) + 1) + 2 + (len (d_rel d) + 1) + 3 +
     (len (print_attrs sep (d_lhs d)) + 1) + 4) a1) as (ar & -> & Hsr);
    [done|done|done|done|unfold len in *; lia|done|simpl; lia|simpl; rewrite P; lia|done|
     change (len (a_out a1)) with 100; simpl; lia|].
  step_ok. eexists. split; [done|]. constructor; simpl.
  - split; [|done]. apply holds_blit; [done|]. rewrite len_uninit by done. rewrite len_app.
    change (len [NUL]) with 1. simpl. lia.
  - split; [|done]. apply holds_blit; [done|]. rewrite len_uninit by done. rewrite len_app.
    change (len [NUL]) with 1. simpl. lia.
  - lia.
  - intros k s Hk. destruct (N k s Hk) as (off & Hoff & [Hh HN] & Hb).
    exists off. split; [done|]. split; [|done]. simpl in *. eapply holds_ext; [exact Hh|].
    intros j Hj. rewrite (sc_ptr_frame _ _ _ _ Hsr); [done|]. simpl.
    rewrite len_app in Hj. change (len [NUL]) with 1 in Hj. lia.
  - rewrite (sc_idx _ _ _ _ Hsr). done.
  - by eapply names_ok_scanned; [|exact Hsr].
Qed.

(** * The command text *)
Definition fd_sql (d : fd_decl) : list ascii :=
  chars "CREATE FUNCTION " ++ d_id d ++
  chars ("_check() RETURNS TRIGGER language plpgsql 			as $$			declare " ++
         "				cnt integer;			begin				SELECT COUNT(DISTINCT ") ++
  intercalate (chars ",") (d_rhs d) ++
  chars ")  				INTO cnt				FROM " ++ d_rel d ++
  chars " 				WHERE " ++ intercalate (chars " AND ") (condition <$> d_lhs d) ++
  chars (" ;				if cnt > 1 THEN 				RAISE EXCEPTION 'Functional dependency fd1 failed'; " ++
         "				END IF;			end;			$$ ;			CREATE TRIGGER trigg_") ++
  d_id d ++ chars " BEFORE INSERT OR UPDATE ON " ++ d_rel d ++
  chars " 			FOR EACH ROW 			EXECUTE FUNCTION " ++ d_id d ++ chars "_check();".

Lemma command_format_text id R rel cond :
  format_text (chars command_format) [id; R; rel; cond; id; rel; id] =
  Some (chars "CREATE FUNCTION " ++ id ++
  chars ("_check() RETURNS TRIGGER language plpgsql 			as $$			declare " ++
         "				cnt integer;			begin				SELECT COUNT(DISTINCT ") ++
  R ++
  chars ")  				INTO cnt				FROM " ++ rel ++
  chars " 				WHERE " ++ cond ++
  chars (" ;				if cnt > 1 THEN 				RAISE EXCEPTION 'Functional dependency fd1 failed'; " ++
         "				END IF;			end;			$$ ;			CREATE TRIGGER trigg_") ++
  id ++ chars " BEFORE INSERT OR UPDATE ON " ++ rel ++
  chars " 			FOR EACH ROW 			EXECUTE FUNCTION " ++ id ++ chars "_check();").
Proof. reflexivity. Qed.

(** The text is linear in the query. *)
Lemma len_intercalate_le (f : list ascii -> list ascii) isep sep l c :
  0 <= c -> (forall a, len (f a) + len isep <= c * (len a + 2)) ->
  len (intercalate isep (f <$> l)) <= c * len (print_attrs sep l).
Proof.
  intros Hc Hf. induction l as [|a l IH]; [simpl; rewrite len_nil; lia|].
  specialize (Hf a). pose proof (len_nonneg isep). destruct l as [|b l].
  - simpl. rewrite len_quoted. lia.
  - change (intercalate isep (f <$> a :: b :: l)) with (f a ++ isep ++ intercalate isep (f <$> b :: l)).
    change (print_attrs sep (a :: b :: l)) with (quoted a ++ sep ++ print_attrs sep (b :: l)).
    rewrite !len_app, len_quoted. pose proof (len_nonneg sep). nia.
Qed.

Lemma len_commas_le sep l : len (intercalate (chars ",") l) <= 1 * len (print_attrs sep l).
Proof.
  rewrite <- (list_fmap_id l) at 1. apply len_intercalate_le; [done|]. intros a.
  change (len (chars ",")) with 1. unfold id. pose proof (len_nonneg a). lia.
Qed.

Lemma NUL_intercalate sp P :
  NUL ∉ sp -> Forall (fun a => NUL ∉ a) P -> NUL ∉ intercalate sp P.
Proof.
  intros Hsp HP. induction HP as [|a P Ha HP IH]; [by apply not_elem_of_nil|].
  destruct P as [|b P]; [done|].
  change (intercalate sp (a :: b :: P)) with (a ++ sp ++ intercalate sp (b :: P)).
  rewrite !not_elem_of_app. done.
Qed.

(** A terminated text in a fresh buffer. *)
Lemma cstr_blit n text :
  0 <= n -> NUL ∉ text -> len text < n -> cstr (blit (uninit n) 0 (text ++ [NUL]), 0) text.
Proof.
  intros Hn HN Hl. split; [|done]. simpl. apply holds_blit; [done|].
  rewrite len_uninit, len_app by done. change (len [NUL]) with 1. lia.
Qed.

Lemma len_fd_sql d R cond :
  R = intercalate (chars ",") (d_rhs d) ->
  cond = intercalate (chars " AND ") (condition <$> d_lhs d) ->
  len (d_id d) < 100 -> len (d_rel d) < 100 -> len R < 1000 -> len cond < 5000 ->
  0 + len (fd_sql d) < 10000.
Proof.
  intros -> -> ? ? ? ?. unfold fd_sql. rewrite !len_app.
  repeat match goal with |- context [len (chars ?s)] =>
    let n := eval vm_compute in (len (chars s)) in change (len (chars s)) with n end.
  lia.
Qed.

Lemma build_command_run f d sep :
  represents f d -> decl_ok d -> len (print_body sep d) < 1000 ->
  exists cmd, build_command (s_fd_id f) (s_relation f) (s_names f) (s_lhs f) (s_lidx f)
                (s_rhs f) (s_ridx f) = Ok cmd /\ cstr (cmd, 0) (fd_sql d).
Proof.
  intros [Hid Hrel Hl Hlhs Hr Hrhs] [] Hlen. rewrite len_print_body in Hlen.
  pose proof (len_nonneg (d_id d)). pose proof (len_nonneg (d_rel d)).
  pose proof (len_nonneg (print_attrs sep (d_lhs d))).
  pose proof (len_nonneg (print_attrs sep (d_rhs d))).
  assert (HL : len (intercalate (chars ",") (d_lhs d)) <= 1 * len (print_attrs sep (d_lhs d))).
  { apply len_commas_le. }
  assert (HR : len (intercalate (chars ",") (d_rhs d)) <= 1 * len (print_attrs sep (d_rhs d))).
  { apply len_commas_le. }
  assert (HC : len (intercalate (chars " AND ") (condition <$> d_lhs d)) <=
               5 * len (print_attrs sep (d_lhs d))).
  { apply (len_intercalate_le condition); [done|]. intros a. unfold condition. rewrite !len_app.
    change (len (chars "=NEW.")) with 5. change (len (chars " AND ")) with 5.
    pose proof (len_nonneg a). lia. }
  unfold build_command. rewrite Hl, Hr.
  rewrite (join_names_run _ _ (d_lhs d)) by (done || lia). step_ok.
  rewrite (join_names_run _ _ (d_rhs d)) by (done || lia). step_ok.
  rewrite (join_conditions_run _ _ (d_lhs d)) by (done || lia). step_ok.
  set (R := intercalate (chars ",") (d_rhs d)) in *.
  set (cond := intercalate (chars " AND ") (condition <$> d_lhs d)) in *.
  assert (HRN : NUL ∉ R).
  { apply NUL_intercalate; [by apply (bool_decide_unpack _)|].
    eapply Forall_impl; [apply ok_rhs0|]. by intros a [? _]. }
  assert (HCN : NUL ∉ cond).
  { apply NUL_intercalate; [by apply (bool_decide_unpack _)|]. apply Forall_fmap.
    eapply Forall_impl; [apply ok_lhs0|]. intros a [Ha _]. simpl. unfold condition.
    rewrite !not_elem_of_app. split; [done|]. split; [by apply (bool_decide_unpack _)|done]. }
  eexists. split.
  - unfold sprintf.
    apply (sprintf_loop_run _ _ [d_id d; R; d_rel d; cond; d_id d; d_rel d; d_id d] (fd_sql d)).
    + do 7 (apply Forall2_cons; split; [first [exact Hid|exact Hrel|apply cstr_blit; [done|done|lia]]|]).
      constructor.
    + apply command_format_text.
    + done.
    + rewrite len_uninit by done. apply (len_fd_sql d R cond); try done; lia.
  - apply cstr_blit; [done| |].
    + unfold fd_sql. fold R cond. rewrite !not_elem_of_app.
      repeat (split; [first [by apply (bool_decide_unpack _)|done|apply ok_id0|apply ok_rel0]|]).
      by apply (bool_decide_unpack _).
    + apply (len_fd_sql d R cond); try done; lia.
Qed.
