(* ===== verification/FdProps.v ===== *)
(** Properties of the functional-dependency front end: what it recognises,
    what it reads from a declaration, the command it builds, what becomes of
    every declaration, and where its C code leaves its buffers. *)
From S2P Require Import Prelude.
From S2P Require Import CString.
From S2P Require Import Spi.
From S2P Require Import SpiProps.
From S2P Require Import FdFrontend.
From S2P Require Import FdScan.
Open Scope Z_scope.

(** * Recognition *)

(** The test of the prefix on a query [q]. *)
Definition has_prefix (q : list ascii) : Prop :=
  tolower <$> take 30 q = tolower <$> chars fd_query_prefix.

#[export] Instance has_prefix_dec q : Decision (has_prefix q).
Proof. unfold has_prefix. apply _. Defined.

(** The memory of a query: the text, its terminator, whatever follows. *)
Definition query_mem (q tail : list ascii) : buf := bytes (q ++ NUL :: tail).

Lemma cstr_query q tail : NUL ∉ q -> cstr (query_mem q tail, 0) q.
Proof.
  intros HN. split; [|done]. simpl. unfold query_mem.
  replace (q ++ NUL :: tail) with ((q ++ [NUL]) ++ tail) by by rewrite <- app_assoc.
  apply holds_bytes_0.
Qed.

Lemma cstr_prefix : cstr (literal fd_query_prefix, 0) (chars fd_query_prefix).
Proof. apply cstr_literal. by apply (bool_decide_unpack _). Qed.

(** Cutting the copy at the prefix's length leaves the query's first
    characters. *)
Lemma cstr_cut q :
  NUL ∉ q -> len q < 1000 ->
  exists temp, st (blit (uninit 1000) 0 (q ++ [NUL])) 30 NUL = Ok temp /\ cstr (temp, 0) (take 30 q).
Proof.
  intros HN Hl. assert (Hu : len (uninit 1000) = 1000) by by apply len_uninit.
  assert (Hb : len (blit (uninit 1000) 0 (q ++ [NUL])) = 1000).
  { rewrite len_blit; rewrite ?Hu, ?len_app; change (len [NUL]) with 1; lia. }
  rewrite st_in by lia. eexists. split; [done|].
  assert (Hsub : NUL ∉ take 30 q).
  { rewrite <- (take_drop 30 q), not_elem_of_app in HN. apply HN. }
  split; [|done]. simpl.
  destruct (Z.lt_ge_cases (len q) 30) as [Hs|Hs].
  - rewrite take_ge by (unfold len in Hs; lia).
    apply holds_blit_frame; [|rewrite len_app; change (len [NUL]) with 1; lia|lia|].
    + apply holds_blit; [lia|]. rewrite Hu, len_app. change (len [NUL]) with 1. lia.
    + change (len [NUL]) with 1. lia.
  - assert (Ht : len (take 30 q) = 30) by (unfold len in *; rewrite length_take; lia).
    apply holds_app. rewrite Ht. split.
    + apply holds_blit_frame; [|lia|lia|change (len [NUL]) with 1; lia].
      rewrite <- (take_drop 30 q) at 1. rewrite <- app_assoc.
      assert (Hh : holds (blit (uninit 1000) 0 (take 30 q ++ drop 30 q ++ [NUL])) 0
                     (take 30 q ++ drop 30 q ++ [NUL])).
      { apply holds_blit; [lia|]. rewrite app_assoc, take_drop, Hu, len_app.
        change (len [NUL]) with 1. lia. }
      by apply holds_app in Hh as [Hh _].
    + apply holds_blit; [lia|]. change (len [NUL]) with 1. lia.
Qed.

Lemma is_fd_declaration_run q tail :
  NUL ∉ q ->
  (len q < 1000 -> is_fd_declaration (query_mem q tail) = Ok (bool_decide (has_prefix q))) /\
  (1000 <= len q -> is_fd_declaration (query_mem q tail) = UB "write outside the array").
Proof.
  intros HN. pose proof (cstr_query q tail HN) as Hq.
  destruct (strcpy_run (uninit 1000) _ _ Hq) as [Hok Hub].
  rewrite len_uninit in Hok, Hub by done. unfold is_fd_declaration.
  split; intros Hl; [|by rewrite Hub].
  rewrite Hok by done. step_ok. change (Z.of_nat (String.length fd_query_prefix)) with 30.
  destruct (cstr_cut q HN Hl) as (temp & -> & Ht). step_ok.
  destruct (strcasecmp_run _ _ _ _ Ht cstr_prefix) as (d & -> & Hd). step_ok.
  f_equal. unfold has_prefix. rewrite (bool_decide_ext _ _ (iff_sym Hd)).
  by destruct (Z.eqb_spec d 0); [rewrite bool_decide_true|rewrite bool_decide_false].
Qed.

(** A declaration as it is typed: the prefix in any case, the body, and the
    end of the statement. *)
Definition declaration (pre sep : list ascii) (d : fd_decl) (rest : list ascii) : list ascii :=
  pre ++ print_body sep d ++ rest.

Definition prefix_ok (pre : list ascii) : Prop :=
  tolower <$> pre = tolower <$> chars fd_query_prefix.

Lemma prefix_length pre : prefix_ok pre -> length pre = 30%nat.
Proof. intros H%(f_equal length). by rewrite !length_fmap in H. Qed.

Lemma declaration_prefix pre sep d rest : prefix_ok pre -> has_prefix (declaration pre sep d rest).
Proof.
  intros H. unfold has_prefix, declaration. pose proof (prefix_length _ H).
  by rewrite take_app_length'.
Qed.

Lemma declaration_holds pre sep d rest tail :
  prefix_ok pre -> holds (query_mem (declaration pre sep d rest) tail) 30 (print_body sep d).
Proof.
  intros H%prefix_length. unfold query_mem, declaration.
  rewrite <- !app_assoc. pose proof (holds_bytes pre (print_body sep d ++ rest ++ NUL :: tail)) as Hh.
  replace (len pre) with 30 in Hh by (unfold len; lia). by apply holds_app in Hh as [Hh _].
Qed.

Lemma declaration_len pre sep d rest :
  len (print_body sep d) <= len (declaration pre sep d rest).
Proof.
  unfold declaration. rewrite !len_app. pose proof (len_nonneg pre). pose proof (len_nonneg rest). lia.
Qed.

(** * Claims on the scan *)
Section scan_claims.
Variables (pre sep : list ascii) (d : fd_decl) (rest tail : list ascii).
Hypothesis Hpre : prefix_ok pre.
Hypothesis Hsep : sep_ok sep.
Hypothesis Hdecl : decl_ok d.
Hypothesis HN : NUL ∉ declaration pre sep d rest.
Hypothesis Hlen : len (declaration pre sep d rest) < 1000.

(** C2. Round trip of a declaration: a query that spells the prefix in any
    case and prints the declaration [d] (names without delimiters, the sizes
    of the C arrays, separators of one character other than a brace and then
    anything but a double quote), under 1000 bytes, is recognised and scanned
    back: the buffers handed to [add_trigger] hold exactly the name, the
    relation and the two attribute lists of [d], in order, whatever follows
    the query in memory. *)
Theorem fd_declaration_roundtrip :
  is_fd_declaration (query_mem (declaration pre sep d rest) tail) = Ok true /\
  exists f, scan_declaration (query_mem (declaration pre sep d rest) tail) = Ok f /\
    represents f d.
Proof using Hpre Hsep Hdecl HN Hlen.
  split.
  - rewrite (proj1 (is_fd_declaration_run _ tail HN) Hlen).
    by rewrite bool_decide_true by by apply declaration_prefix.
  - apply (scan_declaration_run _ sep); [done|done|by apply declaration_holds|].
    pose proof (declaration_len pre sep d rest). lia.
Qed.

(** C3. The command of a declaration: for the same queries, [add_trigger]
    stays within its buffers and builds exactly the text [fd_sql d]: one
    CREATE FUNCTION that counts the distinct right-hand sides of the rows of
    the relation that agree with NEW on every left-hand attribute, and one
    CREATE TRIGGER that calls it before insert or update. *)
Theorem fd_command_text :
  exists f cmd,
    scan_declaration (query_mem (declaration pre sep d rest) tail) = Ok f /\
    build_command (s_fd_id f) (s_relation f) (s_names f) (s_lhs f) (s_lidx f)
      (s_rhs f) (s_ridx f) = Ok cmd /\
    strz (cmd, 0) = Ok (fd_sql d).
Proof using Hpre Hsep Hdecl Hlen.
  pose proof (declaration_len pre sep d rest).
  destruct (scan_declaration_run (query_mem (declaration pre sep d rest) tail) sep d)
    as (f & Hf & Hr); [done|done|by apply declaration_holds|lia|].
  destruct (build_command_run f d sep) as (cmd & Hc & Hs); [done|done|lia|].
  exists f, cmd. split; [done|]. split; [done|]. by apply strz_ok.
Qed.
End scan_claims.

(** The declaration in the source's comment. *)
Definition sample_decl : fd_decl :=
  {| d_id := chars "fd1"; d_rel := chars "relName";
     d_lhs := [chars "Al"; chars "Bl"]; d_rhs := [chars "Cr"; chars "Dr"] |}.

Definition sample_query : list ascii :=
  declaration (chars "INSERT INTO fd_table values ('") (chars ", ") sample_decl (chars "');").

Lemma sample_ok :
  prefix_ok (chars "INSERT INTO fd_table values ('") /\ sep_ok (chars ", ") /\
  decl_ok sample_decl /\ (NUL ∉ sample_query) /\ len sample_query < 1000.
Proof.
  split; [reflexivity|]. split; [split; [done|by apply (bool_decide_unpack _)]|].
  split; [|by split; [apply (bool_decide_unpack _)|]].
  constructor; (split; [|split]); try done; try (by apply (bool_decide_unpack _));
    repeat constructor; by apply (bool_decide_unpack _).
Qed.

Lemma fd_declaration_roundtrip_witness :
  is_fd_declaration (query_mem sample_query (chars "junk")) = Ok true /\
  exists f, scan_declaration (query_mem sample_query (chars "junk")) = Ok f /\
    represents f sample_decl.
Proof.
  destruct sample_ok as (H1 & H2 & H3 & H4 & H5).
  exact (fd_declaration_roundtrip _ _ _ _ (chars "junk") H1 H2 H3 H4 H5).
Defined.

Lemma fd_command_text_witness :
  exists f cmd,
    scan_declaration (query_mem sample_query []) = Ok f /\
    build_command (s_fd_id f) (s_relation f) (s_names f) (s_lhs f) (s_lidx f)
      (s_rhs f) (s_ridx f) = Ok cmd /\
    strz (cmd, 0) = Ok (fd_sql sample_decl).
Proof.
  destruct sample_ok as (H1 & H2 & H3 & H4 & H5).
  exact (fd_command_text _ _ _ _ [] H1 H2 H3 H5).
Defined.

(** C27. Every other query goes through unchanged: on a query of fewer than
    1000 bytes the test answers whether its first 30 characters are the prefix
    up to case, and when they are not, [exec_simple_query] is the stock
    function. *)
Theorem fd_other_queries_unchanged {W} (B : Backend W) (stock : M W unit) (q tail : list ascii)
    (s : State W) (HN : NUL ∉ q) (Hlen : len q < 1000) :
  is_fd_declaration (query_mem q tail) = Ok (bool_decide (has_prefix q)) /\
  (~ has_prefix q -> exec_simple_query B stock (query_mem q tail) s = stock s).
Proof.
  pose proof (proj1 (is_fd_declaration_run q tail HN) Hlen) as Hrun. split; [done|].
  intros Hno. unfold exec_simple_query, lift, mbind, M_bind. rewrite Hrun.
  by rewrite bool_decide_false.
Qed.

Lemma fd_other_queries_unchanged_witness :
  exec_simple_query demo_backend (set_commandId 5) (query_mem (chars "select 1;") []) (boot_state [])
    = set_commandId 5 (boot_state []).
Proof.
  apply (fd_other_queries_unchanged demo_backend (set_commandId 5) (chars "select 1;") [] (boot_state [])).
  - by apply (bool_decide_unpack _).
  - done.
  - by apply (bool_decide_unpack _).
Defined.

(** C28. Any simple query of 1000 bytes or more, a declaration or not, writes
    past the end of the local buffer [temp] before anything else happens. *)
Theorem fd_long_query_overflows {W} (B : Backend W) (stock : M W unit) (q tail : list ascii)
    (s : State W) (HN : NUL ∉ q) (Hlen : 1000 <= len q) :
  exec_simple_query B stock (query_mem q tail) s = UB "write outside the array".
Proof.
  unfold exec_simple_query, lift, mbind, M_bind.
  by rewrite (proj2 (is_fd_declaration_run q tail HN) Hlen).
Qed.

Lemma fd_long_query_overflows_witness :
  exec_simple_query demo_backend (set_commandId 5)
    (query_mem (chars "select " ++ replicate 993 "1"%char) []) (boot_state [])
  = UB "write outside the array".
Proof.
  apply (fd_long_query_overflows demo_backend (set_commandId 5)
           (chars "select " ++ replicate 993 "1"%char) [] (boot_state [])).
  - by apply (bool_decide_unpack _).
  - vm_compute. congruence.
Defined.

(** * Every declaration fails *)
Lemma add_trigger_never_returns {W} (B : Backend W) (Hplanner : planner_ok B)
    fd_id relation names lhs lsz rhs rsz (s : State W) :
  returns (add_trigger B fd_id relation names lhs lsz rhs rsz) s (fun _ _ => False).
Proof.
  unfold add_trigger. do 6 (apply returns_seq; intros ? ?). apply returns_bind.
  eapply returns_mono; [by apply SPI_execute_readonly|]. intros r s1 Hr. cbv beta.
  destruct (Z.eqb_spec r SPI_OK_UTILITY); [done|apply returns_raise].
Qed.

(** C1. No declaration ever succeeds: whatever the parser, planner, executor
    and utility code do, whatever the final [pfree] of memory that [malloc]
    allocated does, and in every state, a query that the test recognises
    as a declaration never returns from [exec_simple_query]; in particular its
    INSERT into FD_table is never run. The reason is the [read_only] argument
    of [SPI_execute]: [add_trigger] accepts only SPI_OK_UTILITY, which
    read-only execution never answers. *)
Theorem fd_declaration_never_succeeds {W} (B : Backend W) (stock : M W unit) (mem : buf)
    (s : State W) (Hplanner : planner_ok B) (Hfd : is_fd_declaration mem = Ok true) :
  forall u s', exec_simple_query B stock mem s <> Ok (u, s').
Proof.
  intros u s' Hrun.
  enough (H : returns (exec_simple_query B stock mem) s (fun _ _ => False))
    by exact (H _ _ Hrun).
  unfold exec_simple_query. apply returns_bind, returns_lift. rewrite Hfd. intros b [= <-].
  apply returns_bind. apply returns_seq. intros f s1.
  eapply returns_mono; [by apply add_trigger_never_returns|]. done.
Qed.

Lemma fd_declaration_never_succeeds_witness :
  is_fd_declaration (query_mem sample_query []) = Ok true /\
  (forall u s', exec_simple_query demo_backend (mret tt) (query_mem sample_query []) (boot_state [])
     <> Ok (u, s')).
Proof.
  split; [vm_compute; reflexivity|].
  apply (fd_declaration_never_succeeds demo_backend (mret tt) (query_mem sample_query []) (boot_state [])
           demo_planner_ok).
  vm_compute. reflexivity.
Defined.

(** C4. The error every well-formed declaration ends in: when the grammar reads
    the command's text as a list that starts with the CREATE FUNCTION
    statement, the declaration's query ends in "CREATE FUNCTION is not allowed
    in a non-volatile function" (as the server log shows), from any state whose
    SPI stack is consistent and in which a transaction can start. *)
Theorem fd_declaration_error {W} (B : Backend W) (stock : M W unit)
    (pre sep : list ascii) (d : fd_decl) (rest tail : list ascii)
    (s : State W) (cs : list Connection) (w : W) (t : B.(RawStmt)) (ts : list (B.(RawStmt))) (fname : string)
    (n : Z) (Hpre : prefix_ok pre) (Hsep : sep_ok sep) (Hdecl : decl_ok d)
    (HN : NUL ∉ declaration pre sep d rest) (Hlen : len (declaration pre sep d rest) < 1000)
    (Hview : view (stk s) cs)
    (Hstart : B.(StartTransactionCommand) (world s) = Ok w)
    (Hparse : B.(raw_parser) (fd_sql d) = Ok (t :: ts))
    (Hanalyze : B.(pg_analyze_and_rewrite) t (fd_sql d) w =
      Ok ([{| q_commandType := CMD_UTILITY; q_canSetTag := true;
              q_utilityStmt := Some (CreateFunctionStmt fname); q_payload := n |}], w))
    (Hname : forall p f, utilityStmt p = Some (CreateFunctionStmt f) ->
      B.(CreateCommandName) p = "CREATE FUNCTION"%string) :
  exec_simple_query B stock (query_mem (declaration pre sep d rest) tail) s =
    Err "CREATE FUNCTION is not allowed in a non-volatile function".
Proof.
  pose proof (declaration_len pre sep d rest).
  destruct (scan_declaration_run (query_mem (declaration pre sep d rest) tail) sep d)
    as (f & Hf & Hr); [done|done|by apply declaration_holds|lia|].
  destruct (build_command_run f d sep) as (cmd & Hc & Hs); [done|done|lia|].
  unfold exec_simple_query, lift, mbind, M_bind.
  rewrite (proj1 (is_fd_declaration_run _ tail HN) Hlen).
  rewrite bool_decide_true by by apply declaration_prefix. simpl. unfold lift. rewrite Hf. simpl.
  unfold add_trigger, world_step, lift_world, mbind, M_bind. simpl. rewrite Hstart. simpl.
  match goal with |- context [SPI_connect ?s1] =>
    destruct (SPI_connect_run s1 cs 0 Hview) as (k & pc & ec & Hpc & Hec & Hconn & Hk) end.
  unfold SPI_connect. rewrite Hconn. simpl. unfold mbind, M_bind. simpl.
  unfold lift. rewrite Hc. simpl. rewrite (strz_ok _ _ Hs). simpl.
  erewrite SPI_execute_rejects with (t := t) (rest := ts) (u := CreateFunctionStmt fname)
    (tag := true) (n := n); [|lia|exact Hk|reflexivity|done|done|exact Hanalyze|done|done].
  simpl. by erewrite Hname.
Qed.

Lemma fd_declaration_error_witness :
  exec_simple_query demo_backend (mret tt) (query_mem sample_query []) (boot_state []) =
    Err "CREATE FUNCTION is not allowed in a non-volatile function".
Proof.
  destruct sample_ok as (H1 & H2 & H3 & H4 & H5).
  eapply (fd_declaration_error demo_backend (mret tt) _ _ _ _ [] (boot_state []) [] []
            (utility_query (CreateFunctionStmt "f")) _ "f" 0 H1 H2 H3 H4 H5).
  - apply boot_view.
  - reflexivity.
  - reflexivity.
  - reflexivity.
  - intros p f Hp. simpl. by rewrite Hp.
Defined.

(** * Reading past the terminator *)

(** The name loop only ends at a quote. *)
Lemma scan_name_needs_quote fuel mem i dst idx skip :
  (forall j, i <= j -> ld mem j <> Ok quote) ->
  exists w, scan_name fuel mem i dst idx skip = UB w.
Proof.
  revert i dst idx. induction fuel as [|f IH]; intros i dst idx Hq; simpl; [eauto|].
  pose proof (Hq i ltac:(lia)) as Hi. unfold ld, rd in Hi |- *.
  destruct (if 0 <=? i then _ else _) as [[c|]|e|w] eqn:E; simpl in *; [|eauto| |eauto].
  - rewrite decide_False by (unfold quote in *; congruence). unfold st, wr.
    destruct ((0 <=? idx) && (idx <? len dst)); simpl; [|eauto].
    apply IH. intros j Hj. apply Hq. lia.
  - destruct (0 <=? i); [|done]. by destruct (mem !! Z.to_nat i).
Qed.

Lemma ld_query q tail j c : ld (query_mem q tail) j = Ok c -> (q ++ NUL :: tail) !! Z.to_nat j = Some c.
Proof.
  unfold ld, rd, query_mem, bytes. destruct (0 <=? j); [|done]. rewrite list_lookup_fmap.
  destruct ((q ++ NUL :: tail) !! Z.to_nat j); [|done]. by intros [= ->].
Qed.

(** C29. The scan does not stop at the end of the query. For a recognised query
    whose text after the prefix has no single quote, the outcome depends on the
    memory beyond the terminator: with no quote there either, it is undefined
    behaviour; otherwise the text, the terminator and the bytes beyond it up to
    that quote are taken as the dependency's name. *)
Theorem fd_scan_reads_past_terminator (pre s tail : list ascii)
    (Hpre : prefix_ok pre) (HN : NUL ∉ pre ++ s) (Hs : quote ∉ s)
    (Hlen : len (pre ++ s) < 1000) :
  is_fd_declaration (query_mem (pre ++ s) tail) = Ok true /\
  (quote ∉ tail -> exists w, scan_declaration (query_mem (pre ++ s) tail) = UB w) /\
  (forall t u, tail = t ++ quote :: u -> (quote ∉ t) -> len s + 1 + len t < 100 ->
    scan_name (S (length (query_mem (pre ++ s) tail))) (query_mem (pre ++ s) tail) 30
      (uninit 100) 0 3 =
    Ok (30 + len (s ++ NUL :: t) + 3, blit (uninit 100) 0 ((s ++ NUL :: t) ++ [NUL]))).
Proof.
  pose proof (prefix_length _ Hpre) as Hp. split; [|split].
  - rewrite (proj1 (is_fd_declaration_run _ tail HN) Hlen). rewrite bool_decide_true; [done|].
    unfold has_prefix. by rewrite take_app_length'.
  - intros Ht. unfold scan_declaration. change (Z.of_nat (String.length fd_query_prefix)) with 30.
    destruct (scan_name_needs_quote (S (length (query_mem (pre ++ s) tail)))
      (query_mem (pre ++ s) tail) 30 (uninit 100) 0 3) as [w ->]; [|by exists w].
    intros j Hj Hld. apply ld_query in Hld. rewrite <- app_assoc in Hld.
    rewrite lookup_app_r in Hld by lia. apply list_elem_of_lookup_2 in Hld.
    apply elem_of_app in Hld as [?|Hld]; [done|]. by apply elem_of_cons in Hld as [?|?].
  - intros t u -> Ht Hfit. apply scan_name_run.
    + unfold query_mem.
      replace ((pre ++ s) ++ NUL :: t ++ quote :: u) with (pre ++ ((s ++ NUL :: t) ++ [quote]) ++ u)
        by (rewrite <- !app_assoc; done).
      pose proof (holds_bytes pre (((s ++ NUL :: t) ++ [quote]) ++ u)) as Hh.
      replace (len pre) with 30 in Hh by (unfold len; lia). by apply holds_app in Hh as [Hh _].
    + rewrite not_elem_of_app, not_elem_of_cons. by repeat split.
    + unfold query_mem, bytes. rewrite length_fmap, !length_app. simpl. rewrite length_app. lia.
    + done.
    + rewrite len_uninit, len_app, len_cons by done. lia.
Qed.

Lemma fd_scan_reads_past_terminator_witness :
  exists w, scan_declaration (query_mem (chars fd_query_prefix ++ chars "fd1") (chars "x")) = UB w.
Proof.
  apply (fd_scan_reads_past_terminator (chars fd_query_prefix) (chars "fd1") (chars "x")).
  - reflexivity.
  - by apply (bool_decide_unpack _).
  - by apply (bool_decide_unpack _).
  - reflexivity.
  - by apply (bool_decide_unpack _).
Defined.
