(* ===== verification/FdTrigger.v ===== *)
(** The PL/pgSQL interpreter (src/postgresql/src/pl/plpgsql/src/pl_exec.c and
    pl_comp.c) as far as its control flow goes, and the trigger function that a
    functional-dependency declaration asks for (the text built by
    [add_trigger], tcop/postgres.c) run by it.

    Blocks with their exception handlers, IF, CASE, LOOP, WHILE, integer FOR,
    EXIT and CONTINUE, RETURN, RAISE, SQL statements with INTO, assignment and
    PERFORM are translated with their return codes, labels and errors.  What
    they compute with is an argument of the model, the record [Engine]: the
    grammar (generated from pl_gram.y), expression evaluation, the variables
    and the database [D], SPI and subtransactions.  An error carries the state
    it was raised in, which handlers go on from.  The statements on cursors and
    dynamic SQL, CALL, ASSERT, GET DIAGNOSTICS, transaction control and the
    set-returning RETURNs are not modelled. *)
From S2P Require Import Prelude.
From S2P Require Import CString.
From S2P Require Import Spi.
From S2P Require Import FdScan.
Open Scope Z_scope.

(** * Errors *)
Record ErrorData := { sqlerrcode : Z; err_message : string }.

Definition PGSIXBIT (ch : ascii) : Z :=
  Z.land (Z.of_nat (nat_of_ascii ch) - Z.of_nat (nat_of_ascii "0"%char)) 63.

Definition MAKE_SQLSTATE (c1 c2 c3 c4 c5 : ascii) : Z :=
  PGSIXBIT c1 + Z.shiftl (PGSIXBIT c2) 6 + Z.shiftl (PGSIXBIT c3) 12 +
  Z.shiftl (PGSIXBIT c4) 18 + Z.shiftl (PGSIXBIT c5) 24.

Definition ERRCODE_TO_CATEGORY (ec : Z) : Z := Z.land ec (Z.shiftl 1 12 - 1).
Definition ERRCODE_IS_CATEGORY (ec : Z) : bool := Z.land ec (Z.lnot (Z.shiftl 1 12 - 1)) =? 0.

Definition ERRCODE_QUERY_CANCELED : Z := MAKE_SQLSTATE "5" "7" "0" "1" "4".
Definition ERRCODE_ASSERT_FAILURE : Z := MAKE_SQLSTATE "P" "0" "0" "0" "4".
Definition ERRCODE_RAISE_EXCEPTION : Z := MAKE_SQLSTATE "P" "0" "0" "0" "1".
Definition ERRCODE_NO_DATA_FOUND : Z := MAKE_SQLSTATE "P" "0" "0" "0" "2".
Definition ERRCODE_TOO_MANY_ROWS : Z := MAKE_SQLSTATE "P" "0" "0" "0" "3".
Definition ERRCODE_CASE_NOT_FOUND : Z := MAKE_SQLSTATE "2" "0" "0" "0" "0".
Definition ERRCODE_SYNTAX_ERROR : Z := MAKE_SQLSTATE "4" "2" "6" "0" "1".
Definition ERRCODE_INTERNAL_ERROR : Z := MAKE_SQLSTATE "X" "X" "0" "0" "0".
Definition ERRCODE_FEATURE_NOT_SUPPORTED : Z := MAKE_SQLSTATE "0" "A" "0" "0" "0".
Definition ERRCODE_NULL_VALUE_NOT_ALLOWED : Z := MAKE_SQLSTATE "2" "2" "0" "0" "4".
Definition ERRCODE_INVALID_PARAMETER_VALUE : Z := MAKE_SQLSTATE "2" "2" "0" "2" "3".
Definition ERRCODE_DATATYPE_MISMATCH : Z := MAKE_SQLSTATE "4" "2" "8" "0" "4".
Definition ERRCODE_NO_ACTIVE_HANDLER : Z := MAKE_SQLSTATE "0" "Z" "0" "0" "2".
Definition ERRCODE_NO_RETURN_STATEMENT : Z := MAKE_SQLSTATE "2" "F" "0" "0" "5".

(** [unpack_sql_state]. *)
Definition PGUNSIXBIT (val : Z) : ascii :=
  ascii_of_nat (Z.to_nat (Z.land val 63 + Z.of_nat (nat_of_ascii "0"%char))).

Definition unpack_sql_state (sql_state : Z) : string :=
  String.string_of_list_ascii
    (map (fun i => PGUNSIXBIT (Z.shiftr sql_state (6 * i))) [0; 1; 2; 3; 4]).

(** [exception_matches_conditions]: does any condition of the list match? *)
Fixpoint exception_matches_conditions (edata : ErrorData) (conds : list Z) : bool :=
  match conds with
  | [] => false
  | sqlerrstate :: rest =>
      if (if sqlerrstate =? 0
          then negb (sqlerrcode edata =? ERRCODE_QUERY_CANCELED) &&
               negb (sqlerrcode edata =? ERRCODE_ASSERT_FAILURE)
          else (sqlerrcode edata =? sqlerrstate) ||
               (ERRCODE_IS_CATEGORY sqlerrstate &&
                (ERRCODE_TO_CATEGORY (sqlerrcode edata) =? sqlerrstate)))
      then true
      else exception_matches_conditions edata rest
  end.

(** * Statements *)
Abbreviation expr := (list ascii).

Inductive raise_option :=
| PLPGSQL_RAISEOPTION_ERRCODE
| PLPGSQL_RAISEOPTION_MESSAGE
| PLPGSQL_RAISEOPTION_TEXT (name : string).

Inductive stmt :=
| PLPGSQL_STMT_BLOCK (label : option string) (initvarnos : list Z) (body : list stmt)
    (exceptions : option (list (list Z * list stmt)))
| PLPGSQL_STMT_ASSIGN (varno : Z) (e : expr)
| PLPGSQL_STMT_PERFORM (e : expr)
| PLPGSQL_STMT_IF (cond : expr) (then_body : list stmt) (elsif_list : list (expr * list stmt))
    (else_body : list stmt)
| PLPGSQL_STMT_CASE (t_expr : option (expr * Z)) (case_when_list : list (expr * list stmt))
    (else_stmts : option (list stmt))
| PLPGSQL_STMT_LOOP (label : option string) (body : list stmt)
| PLPGSQL_STMT_WHILE (label : option string) (cond : expr) (body : list stmt)
| PLPGSQL_STMT_FORI (label : option string) (var : Z) (lower upper : expr) (step : option expr)
    (reverse : bool) (body : list stmt)
| PLPGSQL_STMT_EXIT (is_exit : bool) (label : option string) (cond : option expr)
| PLPGSQL_STMT_RETURN (e : option expr) (retvarno : Z)
| PLPGSQL_STMT_RAISE (elog_level : Z) (condname message : option string) (params : list expr)
    (options : list (raise_option * expr))
| PLPGSQL_STMT_EXECSQL (sqlstmt : expr) (into strict : bool) (target : Z).

Inductive rc := PLPGSQL_RC_OK | PLPGSQL_RC_EXIT | PLPGSQL_RC_RETURN | PLPGSQL_RC_CONTINUE.

#[export] Instance rc_eq_dec : EqDecision rc.
Proof. solve_decision. Defined.

(** * The execution state *)
Record PLpgSQL_execstate {D : Type} := {
  data : D;
  exitlabel : option string;
  cur_error : option ErrorData;
  retisset : bool;
  retisnull : bool
}.
Arguments PLpgSQL_execstate : clear implicits.

Inductive eres (D A : Type) : Type :=
| EOk (a : A) (d : D)
| EErr (e : ErrorData) (d : D)
| EUB (what : string).
Arguments EOk {D A} a d.
Arguments EErr {D A} e d.
Arguments EUB {D A} what.

(** What an SPI call leaves: its code, [SPI_processed] and [SPI_tuptable]. *)
Record SpiOut {Row : Type} := {
  spi_rc : Z;
  spi_processed : Z;
  spi_tuptable : option (list Row)
}.
Arguments SpiOut : clear implicits.

(** The code the interpreter calls, on the variables and the database [D].
    [exec_eval_boolean] answers [None] for NULL; [exec_eval_int32] is
    [exec_eval_expr] followed by the cast to the loop variable's type;
    [init_datum] is the initialisation of one variable at block entry;
    [return_datum] evaluates what RETURN returns and tells whether it is NULL;
    [trigger_tuple] converts it to a row of the trigger's relation;
    [mod_stmt] tells whether a statement is INSERT, UPDATE or DELETE;
    [too_many_rows_level] is set by plpgsql.extra_errors and extra_warnings. *)
Record Engine {D Row T : Type} := {
  plpgsql_yyparse : list ascii -> res stmt;
  exec_eval_boolean : expr -> D -> eres D (option bool);
  exec_eval_int32 : expr -> D -> eres D (option Z);
  exec_eval_string : expr -> D -> eres D (option string);
  exec_assign_expr : Z -> expr -> D -> eres D unit;
  assign_case_var : Z -> expr -> D -> eres D unit;
  assign_simple_var : Z -> option Z -> D -> D;
  assign_error_vars : ErrorData -> D -> D;
  init_datum : Z -> D -> eres D unit;
  exec_move_row : Z -> option Row -> D -> eres D unit;
  exec_set_found : bool -> D -> D;
  exec_run_select : expr -> D -> eres D Z;
  prepare_plan : expr -> D -> eres D unit;
  mod_stmt : expr -> bool;
  too_many_rows_level : Z;
  SPI_execute_plan_with_paramlist : expr -> Z -> D -> eres D (SpiOut Row);
  plpgsql_recognize_err_condition : string -> D -> eres D Z;
  return_datum : option expr -> Z -> D -> eres D bool;
  BeginInternalSubTransaction : D -> eres D unit;
  ReleaseCurrentSubTransaction : D -> eres D unit;
  RollbackAndReleaseCurrentSubTransaction : D -> eres D unit;
  setup_trigger_data : D -> eres D unit;
  trigger_tuple : D -> eres D T
}.
Arguments Engine : clear implicits.

(** * The monad *)
Definition PM (D A : Type) : Type := PLpgSQL_execstate D -> eres (PLpgSQL_execstate D) A.

#[export] Instance PM_ret {D} : MRet (PM D) := fun A a s => EOk a s.
#[export] Instance PM_bind {D} : MBind (PM D) := fun A B k m s =>
  match m s with
  | EOk a s' => k a s'
  | EErr e s' => EErr e s'
  | EUB w => EUB w
  end.

Definition pl_get {D} : PM D (PLpgSQL_execstate D) := fun s => EOk s s.
Definition pl_error {D A} (code : Z) (msg : string) : PM D A := fun s =>
  EErr {| sqlerrcode := code; err_message := msg |} s.
Definition pl_throw {D A} (e : ErrorData) : PM D A := fun s => EErr e s.
Definition pl_undefined {D A} (what : string) : PM D A := fun _ => EUB what.
Definition pl_assert {D} (b : bool) : PM D unit :=
  if b then mret tt else pl_undefined "failed assertion".

Definition set_data {D} (d : D) (s : PLpgSQL_execstate D) : PLpgSQL_execstate D :=
  {| data := d; exitlabel := exitlabel s; cur_error := cur_error s;
     retisset := retisset s; retisnull := retisnull s |}.
Definition set_exitlabel {D} (l : option string) : PM D unit := fun s =>
  EOk tt {| data := data s; exitlabel := l; cur_error := cur_error s;
            retisset := retisset s; retisnull := retisnull s |}.
Definition set_cur_error {D} (e : option ErrorData) : PM D unit := fun s =>
  EOk tt {| data := data s; exitlabel := exitlabel s; cur_error := e;
            retisset := retisset s; retisnull := retisnull s |}.
Definition set_retisnull {D} (b : bool) : PM D unit := fun s =>
  EOk tt {| data := data s; exitlabel := exitlabel s; cur_error := cur_error s;
            retisset := retisset s; retisnull := b |}.

(** A call of the engine. *)
Definition call {D A} (f : D -> eres D A) : PM D A := fun s =>
  match f (data s) with
  | EOk a d => EOk a (set_data d s)
  | EErr e d => EErr e (set_data d s)
  | EUB w => EUB w
  end.
Definition modify_data {D} (f : D -> D) : PM D unit := call (fun d => EOk tt (f d)).

(** PG_TRY with a PG_CATCH that gets the error. *)
Definition pl_try {D A} (m : PM D A) (handler : ErrorData -> PM D A) : PM D A := fun s =>
  match m s with
  | EErr e s' => handler e s'
  | o => o
  end.

Section interpreter.
Context {D Row T : Type} (E : Engine D Row T).

(** * Control statements

    Each takes [exec_stmts], the execution of a list of statements; loops take
    a bound on their iterations. *)
Section control.
Variable exec_stmts : list stmt -> PM D rc.

Fixpoint exec_elsifs (elsif_list : list (expr * list stmt)) (else_body : list stmt) : PM D rc :=
  match elsif_list with
  | [] => exec_stmts else_body
  | (cond, stmts) :: rest =>
      value ← call (E.(exec_eval_boolean) cond);
      if decide (value = Some true) then exec_stmts stmts else exec_elsifs rest else_body
  end.

Definition exec_stmt_if (cond : expr) (then_body : list stmt)
    (elsif_list : list (expr * list stmt)) (else_body : list stmt) : PM D rc :=
  value ← call (E.(exec_eval_boolean) cond);
  if decide (value = Some true) then exec_stmts then_body
  else exec_elsifs elsif_list else_body.

Definition discard_case_var (t_expr : option (expr * Z)) : PM D unit :=
  match t_expr with
  | Some (_, t_varno) => modify_data (E.(assign_simple_var) t_varno None)
  | None => mret tt
  end.

Fixpoint exec_whens (t_expr : option (expr * Z)) (case_when_list : list (expr * list stmt))
    (else_stmts : option (list stmt)) : PM D rc :=
  match case_when_list with
  | [] =>
      discard_case_var t_expr;;
      match else_stmts with
      | None => pl_error ERRCODE_CASE_NOT_FOUND "case not found"
      | Some stmts => exec_stmts stmts
      end
  | (e, stmts) :: rest =>
      value ← call (E.(exec_eval_boolean) e);
      if decide (value = Some true) then discard_case_var t_expr;; exec_stmts stmts
      else exec_whens t_expr rest else_stmts
  end.

Definition exec_stmt_case (t_expr : option (expr * Z)) (case_when_list : list (expr * list stmt))
    (else_stmts : option (list stmt)) : PM D rc :=
  match t_expr with
  | Some (e, t_varno) => call (E.(assign_case_var) t_varno e)
  | None => mret tt
  end;;
  exec_whens t_expr case_when_list else_stmts.

(** LOOP_RC_PROCESSING: [inr] leaves the loop with the statement's code. *)
Definition LOOP_RC_PROCESSING (looplabel : option string) (r : rc) : PM D (unit + rc) :=
  s ← pl_get;
  match r with
  | PLPGSQL_RC_RETURN => mret (inr PLPGSQL_RC_RETURN)
  | PLPGSQL_RC_EXIT =>
      match exitlabel s with
      | None => mret (inr PLPGSQL_RC_OK)
      | Some l =>
          if decide (looplabel = Some l)
          then set_exitlabel None;; mret (inr PLPGSQL_RC_OK)
          else mret (inr PLPGSQL_RC_EXIT)
      end
  | PLPGSQL_RC_CONTINUE =>
      match exitlabel s with
      | None => mret (inl tt)
      | Some l =>
          if decide (looplabel = Some l)
          then set_exitlabel None;; mret (inl tt)
          else mret (inr PLPGSQL_RC_CONTINUE)
      end
  | PLPGSQL_RC_OK => mret (inl tt)
  end.

Fixpoint exec_stmt_loop (fuel : nat) (label : option string) (body : list stmt) : PM D rc :=
  match fuel with
  | O => pl_undefined "fuel"
  | S f =>
      r ← exec_stmts body;
      o ← LOOP_RC_PROCESSING label r;
      match o with
      | inl _ => exec_stmt_loop f label body
      | inr r => mret r
      end
  end.

Fixpoint exec_stmt_while (fuel : nat) (label : option string) (cond : expr) (body : list stmt)
  : PM D rc :=
  match fuel with
  | O => pl_undefined "fuel"
  | S f =>
      value ← call (E.(exec_eval_boolean) cond);
      if decide (value = Some true) then
        r ← exec_stmts body;
        o ← LOOP_RC_PROCESSING label r;
        match o with
        | inl _ => exec_stmt_while f label cond body
        | inr r => mret r
        end
      else mret PLPGSQL_RC_OK
  end.

Definition PG_INT32_MIN : Z := - 2 ^ 31.
Definition PG_INT32_MAX : Z := 2 ^ 31 - 1.

(** The loop of [exec_stmt_fori]; returns [rc] and [found]. *)
Fixpoint fori_loop (fuel : nat) (label : option string) (var loop_value end_value step_value : Z)
    (reverse found : bool) (body : list stmt) : PM D (rc * bool) :=
  match fuel with
  | O => pl_undefined "fuel"
  | S f =>
      if (if reverse then loop_value <? end_value else end_value <? loop_value)
      then mret (PLPGSQL_RC_OK, found)
      else
        modify_data (E.(assign_simple_var) var (Some loop_value));;
        r ← exec_stmts body;
        o ← LOOP_RC_PROCESSING label r;
        match o with
        | inr r => mret (r, true)
        | inl _ =>
            if reverse then
              if loop_value <? PG_INT32_MIN + step_value then mret (PLPGSQL_RC_OK, true)
              else fori_loop f label var (loop_value - step_value) end_value step_value
                     reverse true body
            else
              if PG_INT32_MAX - step_value <? loop_value then mret (PLPGSQL_RC_OK, true)
              else fori_loop f label var (loop_value + step_value) end_value step_value
                     reverse true body
        end
  end.

Definition fori_bound (e : expr) (what : string) : PM D Z :=
  value ← call (E.(exec_eval_int32) e);
  match value with
  | None => pl_error ERRCODE_NULL_VALUE_NOT_ALLOWED (what ++ " of FOR loop cannot be null")
  | Some v => mret v
  end.

Definition exec_stmt_fori (fuel : nat) (label : option string) (var : Z) (lower upper : expr)
    (step : option expr) (reverse : bool) (body : list stmt) : PM D rc :=
  loop_value ← fori_bound lower "lower bound";
  end_value ← fori_bound upper "upper bound";
  step_value ← match step with
               | None => mret 1
               | Some e =>
                   v ← fori_bound e "BY value";
                   if v <=? 0
                   then pl_error ERRCODE_INVALID_PARAMETER_VALUE
                          "BY value of FOR loop must be greater than zero"
                   else mret v
               end;
  '(r, found) ← fori_loop fuel label var loop_value end_value step_value reverse false body;
  modify_data (E.(exec_set_found) found);;
  mret r.

(** The search for a handler in [exec_stmt_block]. *)
Fixpoint exec_handlers (edata : ErrorData) (save_cur_error : option ErrorData)
    (exc_list : list (list Z * list stmt)) : PM D rc :=
  match exc_list with
  | [] => set_cur_error save_cur_error;; pl_throw edata
  | (conditions, action) :: rest =>
      if exception_matches_conditions edata conditions then
        modify_data (E.(assign_error_vars) edata);;
        set_cur_error (Some edata);;
        r ← exec_stmts action;
        set_cur_error save_cur_error;;
        mret r
      else exec_handlers edata save_cur_error rest
  end.

Fixpoint init_vars (initvarnos : list Z) : PM D unit :=
  match initvarnos with
  | [] => mret tt
  | n :: rest => call (E.(init_datum) n);; init_vars rest
  end.

Definition exec_stmt_block (label : option string) (initvarnos : list Z) (body : list stmt)
    (exceptions : option (list (list Z * list stmt))) : PM D rc :=
  init_vars initvarnos;;
  r ← match exceptions with
      | Some exc_list =>
          s ← pl_get;
          call (E.(BeginInternalSubTransaction));;
          pl_try
            (r ← exec_stmts body;
             call (E.(ReleaseCurrentSubTransaction));;
             mret r)
            (fun edata =>
               call (E.(RollbackAndReleaseCurrentSubTransaction));;
               exec_handlers edata (cur_error s) exc_list)
      | None => exec_stmts body
      end;
  s ← pl_get;
  match r with
  | PLPGSQL_RC_OK | PLPGSQL_RC_RETURN | PLPGSQL_RC_CONTINUE => mret r
  | PLPGSQL_RC_EXIT =>
      match exitlabel s, label with
      | Some l, Some b =>
          if decide (b = l) then set_exitlabel None;; mret PLPGSQL_RC_OK
          else mret PLPGSQL_RC_EXIT
      | _, _ => mret PLPGSQL_RC_EXIT
      end
  end.
End control.

(** * Statements without statements inside *)
Definition exec_stmt_assign (varno : Z) (e : expr) : PM D rc :=
  pl_assert (0 <=? varno);;
  call (E.(exec_assign_expr) varno e);;
  mret PLPGSQL_RC_OK.

Definition exec_stmt_perform (e : expr) : PM D rc :=
  eval_processed ← call (E.(exec_run_select) e);
  modify_data (E.(exec_set_found) (negb (eval_processed =? 0)));;
  mret PLPGSQL_RC_OK.

Definition exec_stmt_exit (is_exit : bool) (label : option string) (cond : option expr) : PM D rc :=
  value ← match cond with
          | Some e => call (E.(exec_eval_boolean) e)
          | None => mret (Some true)
          end;
  if decide (value = Some true)
  then set_exitlabel label;;
       mret (if is_exit then PLPGSQL_RC_EXIT else PLPGSQL_RC_CONTINUE)
  else mret PLPGSQL_RC_OK.

Definition exec_stmt_return (e : option expr) (retvarno : Z) : PM D rc :=
  s ← pl_get;
  if retisset s then mret PLPGSQL_RC_RETURN
  else
    set_retisnull true;;
    isnull ← call (E.(return_datum) e retvarno);
    set_retisnull isnull;;
    mret PLPGSQL_RC_RETURN.

(** The message of RAISE, with its parameters. *)
Fixpoint raise_message (fmt : list ascii) (params : list expr) : PM D (list ascii) :=
  match fmt with
  | [] =>
      match params with
      | [] => mret []
      | _ => pl_error ERRCODE_INTERNAL_ERROR "unexpected RAISE parameter list length"
      end
  | "%"%char :: fmt' =>
      match fmt' with
      | "%"%char :: fmt'' => m ← raise_message fmt'' params; mret ("%"%char :: m)
      | _ =>
          match params with
          | [] => pl_error ERRCODE_INTERNAL_ERROR "unexpected RAISE parameter list length"
          | p :: params' =>
              v ← call (E.(exec_eval_string) p);
              m ← raise_message fmt' params';
              mret (chars (default "<NULL>"%string v) ++ m)
          end
      end
  | c :: fmt' => m ← raise_message fmt' params; mret (c :: m)
  end.

(** The variables of [exec_stmt_raise] that its options set. *)
Record RaiseLocals := {
  r_err_code : Z;
  r_condname : option string;
  r_message : option string;
  r_texts : list string
}.

Definition already_specified {A} (name : string) : PM D A :=
  pl_error ERRCODE_SYNTAX_ERROR ("RAISE option already specified: " ++ name).

Definition raise_set (opt : raise_option) (extval : string) (l : RaiseLocals)
  : PM D RaiseLocals :=
  match opt with
  | PLPGSQL_RAISEOPTION_ERRCODE =>
      if negb (r_err_code l =? 0) then already_specified "ERRCODE"
      else
        code ← call (E.(plpgsql_recognize_err_condition) extval);
        mret {| r_err_code := code; r_condname := Some extval; r_message := r_message l;
                r_texts := r_texts l |}
  | PLPGSQL_RAISEOPTION_MESSAGE =>
      match r_message l with
      | Some _ => already_specified "MESSAGE"
      | None => mret {| r_err_code := r_err_code l; r_condname := r_condname l;
                        r_message := Some extval; r_texts := r_texts l |}
      end
  | PLPGSQL_RAISEOPTION_TEXT name =>
      if bool_decide (name ∈ r_texts l) then already_specified name
      else mret {| r_err_code := r_err_code l; r_condname := r_condname l;
                   r_message := r_message l; r_texts := name :: r_texts l |}
  end.

Fixpoint raise_options (options : list (raise_option * expr)) (l : RaiseLocals)
  : PM D RaiseLocals :=
  match options with
  | [] => mret l
  | (opt, e) :: rest =>
      value ← call (E.(exec_eval_string) e);
      match value with
      | None => pl_error ERRCODE_NULL_VALUE_NOT_ALLOWED "RAISE statement option cannot be null"
      | Some extval => l' ← raise_set opt extval l; raise_options rest l'
      end
  end.

Definition elevel_WARNING : Z := 19.
Definition elevel_ERROR : Z := 21.

Definition raise_no_args (condname message : option string) (options : list (raise_option * expr))
  : bool :=
  match condname, message, options with None, None, [] => true | _, _, _ => false end.

Definition exec_stmt_raise (elog_level : Z) (condname message : option string)
    (params : list expr) (options : list (raise_option * expr)) : PM D rc :=
  s ← pl_get;
  if raise_no_args condname message options then
    match cur_error s with
    | Some e => pl_throw e
    | None => pl_error ERRCODE_NO_ACTIVE_HANDLER
        "RAISE without parameters cannot be used outside an exception handler"
    end
  else
    code ← match condname with
           | Some c => call (E.(plpgsql_recognize_err_condition) c)
           | None => mret 0
           end;
    msg ← match message with
          | Some m => t ← raise_message (chars m) params; mret (Some (String.string_of_list_ascii t))
          | None => mret None
          end;
    l ← raise_options options
          {| r_err_code := code; r_condname := condname; r_message := msg; r_texts := [] |};
    let err_code := if (r_err_code l =? 0) && (elevel_ERROR <=? elog_level)
                    then ERRCODE_RAISE_EXCEPTION else r_err_code l in
    let text := match r_message l, r_condname l with
                | Some m, _ => m
                | None, Some c => c
                | None, None => unpack_sql_state err_code
                end in
    if elevel_ERROR <=? elog_level then pl_error err_code text else mret PLPGSQL_RC_OK.

(** [exec_stmt_execsql]: the check of the result code sets FOUND. *)
Definition execsql_code (sqlstmt : expr) (out : SpiOut Row) : PM D unit :=
  let r := spi_rc out in
  let found := modify_data (E.(exec_set_found) (negb (spi_processed out =? 0))) in
  if r =? SPI_OK_SELECT then pl_assert (negb (E.(mod_stmt) sqlstmt));; found
  else if (r =? SPI_OK_INSERT) || (r =? SPI_OK_UPDATE) || (r =? SPI_OK_DELETE)
       || (r =? SPI_OK_INSERT_RETURNING) || (r =? SPI_OK_UPDATE_RETURNING)
       || (r =? SPI_OK_DELETE_RETURNING)
  then pl_assert (E.(mod_stmt) sqlstmt);; found
  else if (r =? SPI_OK_SELINTO) || (r =? SPI_OK_UTILITY)
  then pl_assert (negb (E.(mod_stmt) sqlstmt))
  else if r =? SPI_OK_REWRITTEN then modify_data (E.(exec_set_found) false)
  else if r =? SPI_ERROR_COPY
  then pl_error ERRCODE_FEATURE_NOT_SUPPORTED "cannot COPY to/from client in PL/pgSQL"
  else if r =? SPI_ERROR_TRANSACTION
  then pl_error ERRCODE_FEATURE_NOT_SUPPORTED "unsupported transaction command in PL/pgSQL"
  else pl_error ERRCODE_INTERNAL_ERROR "SPI_execute_plan_with_paramlist failed executing query".

(** The INTO part: one row wanted, two when more than one is an error. *)
Definition execsql_into (strict : bool) (must_be_one : bool) (target : Z) (out : SpiOut Row)
  : PM D unit :=
  match spi_tuptable out with
  | None => pl_error ERRCODE_SYNTAX_ERROR "INTO used with a command that cannot return data"
  | Some vals =>
      if spi_processed out =? 0 then
        if strict then pl_error ERRCODE_NO_DATA_FOUND "query returned no rows"
        else call (E.(exec_move_row) target None)
      else
        (if (1 <? spi_processed out)
            && (must_be_one || (elevel_ERROR <=? E.(too_many_rows_level)))
         then pl_error ERRCODE_TOO_MANY_ROWS "query returned more than one row"
         else mret tt);;
        match vals with
        | [] => pl_undefined "read outside the array"
        | v :: _ => call (E.(exec_move_row) target (Some v))
        end
  end.

Definition exec_stmt_execsql (sqlstmt : expr) (into strict : bool) (target : Z) : PM D rc :=
  call (E.(prepare_plan) sqlstmt);;
  let must_be_one := strict || E.(mod_stmt) sqlstmt in
  let tcount := if into
                then if must_be_one || negb (E.(too_many_rows_level) =? 0) then 2 else 1
                else 0 in
  out ← call (E.(SPI_execute_plan_with_paramlist) sqlstmt tcount);
  execsql_code sqlstmt out;;
  (if into then execsql_into strict must_be_one target out
   else match spi_tuptable out with
        | Some _ => pl_error ERRCODE_SYNTAX_ERROR "query has no destination for result data"
        | None => mret tt
        end);;
  mret PLPGSQL_RC_OK.

(** * exec_stmts *)

(** One statement, given the execution of lists. *)
Definition exec_stmt (fuel : nat) (exec_stmts : list stmt -> PM D rc) (s : stmt) : PM D rc :=
  match s with
  | PLPGSQL_STMT_BLOCK label initvarnos body exceptions =>
      exec_stmt_block exec_stmts label initvarnos body exceptions
  | PLPGSQL_STMT_ASSIGN varno e => exec_stmt_assign varno e
  | PLPGSQL_STMT_PERFORM e => exec_stmt_perform e
  | PLPGSQL_STMT_IF cond then_body elsif_list else_body =>
      exec_stmt_if exec_stmts cond then_body elsif_list else_body
  | PLPGSQL_STMT_CASE t_expr case_when_list else_stmts =>
      exec_stmt_case exec_stmts t_expr case_when_list else_stmts
  | PLPGSQL_STMT_LOOP label body => exec_stmt_loop exec_stmts fuel label body
  | PLPGSQL_STMT_WHILE label cond body => exec_stmt_while exec_stmts fuel label cond body
  | PLPGSQL_STMT_FORI label var lower upper step reverse body =>
      exec_stmt_fori exec_stmts fuel label var lower upper step reverse body
  | PLPGSQL_STMT_EXIT is_exit label cond => exec_stmt_exit is_exit label cond
  | PLPGSQL_STMT_RETURN e retvarno => exec_stmt_return e retvarno
  | PLPGSQL_STMT_RAISE elog_level condname message params options =>
      exec_stmt_raise elog_level condname message params options
  | PLPGSQL_STMT_EXECSQL sqlstmt into strict target => exec_stmt_execsql sqlstmt into strict target
  end.

(** The statements of a list are executed while their code is OK. *)
Fixpoint run_list (run : stmt -> PM D rc) (stmts : list stmt) : PM D rc :=
  match stmts with
  | [] => mret PLPGSQL_RC_OK
  | s :: rest =>
      r ← run s;
      if decide (r = PLPGSQL_RC_OK) then run_list run rest else mret r
  end.

(** [fuel] bounds the nesting of statements and the iterations of a loop. *)
Fixpoint exec_stmts (fuel : nat) (stmts : list stmt) : PM D rc :=
  match fuel with
  | O => pl_undefined "fuel"
  | S f => run_list (exec_stmt f (exec_stmts f)) stmts
  end.

(** * Functions *)
Inductive fn_kind :=
| PLPGSQL_NOT_TRIGGER (num_out_args : Z) (returns_void fn_retset : bool) (out_param_varno : Z)
| PLPGSQL_DML_TRIGGER.

(** [add_dummy_return], on the function's outer block. *)
Definition add_dummy_return (out_param_varno : Z) (action : stmt) : stmt :=
  let action :=
    match action with
    | PLPGSQL_STMT_BLOCK None _ _ None => action
    | _ => PLPGSQL_STMT_BLOCK None [] [action] None
    end in
  match action with
  | PLPGSQL_STMT_BLOCK label initvarnos body exceptions =>
      match last body with
      | Some (PLPGSQL_STMT_RETURN _ _) => action
      | _ => PLPGSQL_STMT_BLOCK label initvarnos
               (body ++ [PLPGSQL_STMT_RETURN None out_param_varno]) exceptions
      end
  | _ => action
  end.

(** [do_compile] from the parsing of the text on: whether control may fall off
    the end. A trigger function has no OUT arguments, its return type is not
    VOID and it does not return a set. *)
Definition do_compile (kind : fn_kind) (proc_source : list ascii) : res stmt :=
  action ← E.(plpgsql_yyparse) proc_source;
  Ok match kind with
     | PLPGSQL_NOT_TRIGGER num_out_args returns_void fn_retset out_param_varno =>
         if (0 <? num_out_args) || returns_void || fn_retset
         then add_dummy_return out_param_varno action else action
     | PLPGSQL_DML_TRIGGER => action
     end.

(** [exec_toplevel_block]. *)
Definition exec_toplevel_block (fuel : nat) (action : stmt) : PM D rc :=
  exec_stmt fuel (exec_stmts fuel) action.

(** [plpgsql_exec_trigger]: [None] is a null result. *)
Definition plpgsql_exec_trigger (fuel : nat) (action : stmt) (for_row : bool) : PM D (option T) :=
  call (E.(setup_trigger_data));;
  modify_data (E.(exec_set_found) false);;
  r ← exec_toplevel_block fuel action;
  if decide (r = PLPGSQL_RC_RETURN) then
    s ← pl_get;
    if retisset s then pl_error ERRCODE_DATATYPE_MISMATCH "trigger procedure cannot return a set"
    else if retisnull s || negb for_row then mret None
    else t ← call (E.(trigger_tuple)); mret (Some t)
  else pl_error ERRCODE_NO_RETURN_STATEMENT
         "control reached end of trigger procedure without RETURN".
End interpreter.

(** [plpgsql_estate_setup] for a trigger function. *)
Definition initial_estate {D} (d : D) : PLpgSQL_execstate D :=
  {| data := d; exitlabel := None; cur_error := None; retisset := false; retisnull := true |}.

(** The call of a trigger function from its source text. *)
Definition call_trigger_function {D Row T} (E : Engine D Row T) (fuel : nat)
    (proc_source : list ascii) (for_row : bool) (d : D) : eres (PLpgSQL_execstate D) (option T) :=
  match do_compile E PLPGSQL_DML_TRIGGER proc_source with
  | Ok action => plpgsql_exec_trigger E fuel action for_row (initial_estate d)
  | Err msg => EErr {| sqlerrcode := ERRCODE_SYNTAX_ERROR; err_message := msg |} (initial_estate d)
  | UB w => EUB w
  end.

(** * Functions without RETURN *)

(** A RETURN statement occurs in [s]. *)
Fixpoint has_return (s : stmt) : bool :=
  match s with
  | PLPGSQL_STMT_BLOCK _ _ body exceptions =>
      existsb has_return body ||
      match exceptions with
      | Some exc_list => existsb (fun h : list Z * list stmt => existsb has_return h.2) exc_list
      | None => false
      end
  | PLPGSQL_STMT_IF _ then_body elsif_list else_body =>
      existsb has_return then_body ||
      existsb (fun h : expr * list stmt => existsb has_return h.2) elsif_list ||
      existsb has_return else_body
  | PLPGSQL_STMT_CASE _ case_when_list else_stmts =>
      existsb (fun h : expr * list stmt => existsb has_return h.2) case_when_list ||
      match else_stmts with Some l => existsb has_return l | None => false end
  | PLPGSQL_STMT_LOOP _ body | PLPGSQL_STMT_WHILE _ _ body
  | PLPGSQL_STMT_FORI _ _ _ _ _ _ body => existsb has_return body
  | PLPGSQL_STMT_RETURN _ _ => true
  | _ => false
  end.

(** [m] never completes with the code RETURN. *)
Definition no_return {D} (m : PM D rc) : Prop :=
  forall s r s', m s = EOk r s' -> r <> PLPGSQL_RC_RETURN.

Lemma no_return_bind {D A} (m : PM D A) (k : A -> PM D rc) :
  (forall a, no_return (k a)) -> no_return (m ≫= k).
Proof.
  intros Hk s r s'. unfold mbind, PM_bind. destruct (m s) as [a s1|e s1|w]; [|done|done].
  apply Hk.
Qed.

(** When the code of [m] itself matters. *)
Lemma no_return_bind_rc {D} (m : PM D rc) (k : rc -> PM D rc) :
  no_return m -> (forall r, r <> PLPGSQL_RC_RETURN -> no_return (k r)) -> no_return (m ≫= k).
Proof.
  intros Hm Hk s r s'. unfold mbind, PM_bind.
  destruct (m s) as [a s1|e s1|w] eqn:E; [|done|done]. exact (Hk a (Hm _ _ _ E) s1 r s').
Qed.

Lemma no_return_ret {D} r : r <> PLPGSQL_RC_RETURN -> no_return (D := D) (mret r).
Proof. by intros H s r' s' [= <- <-]. Qed.

Lemma no_return_error {D} c m : no_return (D := D) (pl_error c m).
Proof. done. Qed.
Lemma no_return_throw {D} e : no_return (D := D) (pl_throw e).
Proof. done. Qed.
Lemma no_return_undefined {D} w : no_return (D := D) (pl_undefined w).
Proof. done. Qed.

Lemma no_return_try {D} (m : PM D rc) h :
  no_return m -> (forall e, no_return (h e)) -> no_return (pl_try m h).
Proof.
  intros Hm Hh s r s'. unfold pl_try. destruct (m s) as [a s1|e s1|w] eqn:E; [|apply Hh|done].
  intros [= <- <-]. by eapply Hm.
Qed.

Create HintDb plpgsql.
#[export] Hint Resolve no_return_error no_return_throw no_return_undefined : plpgsql.

Ltac no_return_step :=
  lazymatch goal with
  | |- no_return (mret _) => apply no_return_ret; first [done | by repeat case_match]
  | |- no_return (mbind _ _) => apply no_return_bind; intros ?
  | |- no_return (if ?b then _ else _) => destruct b
  | |- no_return (match ?x with _ => _ end) => destruct x
  end.
Ltac no_return_auto := repeat (cbv beta zeta; first [solve [auto with plpgsql nocore] | no_return_step]).

Lemma existsb_pairs {A} (p : A * list stmt) (l : list (A * list stmt)) :
  existsb (fun h : A * list stmt => existsb has_return h.2) (p :: l) = false ->
  existsb has_return p.2 = false /\
  existsb (fun h : A * list stmt => existsb has_return h.2) l = false.
Proof. simpl. by intros [H1 H2]%orb_false_iff. Qed.

Section no_return.
Context {D Row T : Type} (E : Engine D Row T) (run : list stmt -> PM D rc).
Hypothesis Hrun : forall l, existsb has_return l = false -> no_return (run l).

Lemma LOOP_RC_no_return label r s o s' :
  r <> PLPGSQL_RC_RETURN -> LOOP_RC_PROCESSING (D := D) label r s = EOk o s' ->
  o <> inr PLPGSQL_RC_RETURN.
Proof.
  intros Hr. unfold LOOP_RC_PROCESSING, mbind, PM_bind. simpl.
  destruct r; try done; [by intros [= <- <-]| |]; destruct (exitlabel s); try case_decide;
    by intros [= <- <-].
Qed.

(** The end of a loop's iteration, when it goes on with [k]. *)
Lemma loop_end_no_return label r (k : PM D rc) :
  r <> PLPGSQL_RC_RETURN -> no_return k ->
  no_return (LOOP_RC_PROCESSING label r ≫= fun o => match o with inl _ => k | inr r => mret r end).
Proof.
  intros Hr Hk s r' s'. unfold mbind, PM_bind.
  destruct (LOOP_RC_PROCESSING label r s) as [o s1|e s1|w] eqn:Ho; [|done|done].
  destruct o as [u|x]; [apply Hk|]. intros [= <- <-].
  pose proof (LOOP_RC_no_return _ _ _ _ _ Hr Ho). congruence.
Qed.

Lemma exec_elsifs_no_return l else_body :
  existsb (fun h : expr * list stmt => existsb has_return h.2) l = false ->
  existsb has_return else_body = false ->
  no_return (exec_elsifs E run l else_body).
Proof using Hrun.
  intros Hl He. induction l as [|[c b] l IH]; simpl; [by apply Hrun|].
  apply existsb_pairs in Hl as [Hb Hl]. apply no_return_bind. intros v.
  case_decide; [by apply Hrun|by apply IH].
Qed.

Lemma exec_whens_no_return t l els :
  existsb (fun h : expr * list stmt => existsb has_return h.2) l = false ->
  match els with Some b => existsb has_return b | None => false end = false ->
  no_return (exec_whens E run t l els).
Proof using Hrun.
  intros Hl He. induction l as [|[c b] l IH]; simpl.
  - apply no_return_bind. intros _. destruct els; [by apply Hrun|auto with plpgsql].
  - apply existsb_pairs in Hl as [Hb Hl]. apply no_return_bind. intros v.
    case_decide; [|by apply IH]. apply no_return_bind. intros _. by apply Hrun.
Qed.

Lemma exec_loop_no_return fuel label body :
  existsb has_return body = false -> no_return (exec_stmt_loop run fuel label body).
Proof using Hrun.
  intros Hb. induction fuel as [|f IH]; simpl; [auto with plpgsql|].
  apply no_return_bind_rc; [by apply Hrun|]. intros r Hr. by apply loop_end_no_return.
Qed.

Lemma exec_while_no_return fuel label cond body :
  existsb has_return body = false -> no_return (exec_stmt_while E run fuel label cond body).
Proof using Hrun.
  intros Hb. induction fuel as [|f IH]; simpl; [auto with plpgsql|].
  apply no_return_bind. intros v. case_decide; [|by apply no_return_ret].
  apply no_return_bind_rc; [by apply Hrun|]. intros r Hr. by apply loop_end_no_return.
Qed.

Lemma fori_loop_no_return fuel label var a b step rev found body s r s' :
  existsb has_return body = false ->
  fori_loop E run fuel label var a b step rev found body s = EOk r s' ->
  r.1 <> PLPGSQL_RC_RETURN.
Proof using Hrun.
  intros Hb. revert a found s. induction fuel as [|f IH]; intros a found s; simpl; [done|].
  case_match; [by intros [= <- <-]|]. unfold mbind, PM_bind. simpl.
  destruct (run body _) as [x s1|e s1|w] eqn:Er; [|done|done].
  pose proof (Hrun body Hb _ _ _ Er) as Hx.
  destruct (LOOP_RC_PROCESSING label x s1) as [o s2|e s2|w] eqn:Ho; [|done|done].
  pose proof (LOOP_RC_no_return _ _ _ _ _ Hx Ho) as Hno.
  destruct o as [u|y]; [|intros [= <- <-]; simpl; congruence].
  destruct rev; (case_match; [by intros [= <- <-]|apply IH]).
Qed.

Lemma exec_fori_no_return fuel label var lo up step rev body :
  existsb has_return body = false ->
  no_return (exec_stmt_fori E run fuel label var lo up step rev body).
Proof using Hrun.
  intros Hb. unfold exec_stmt_fori. do 3 (apply no_return_bind; intros ?).
  intros s r s'. unfold mbind, PM_bind.
  destruct (fori_loop _ _ _ _ _ _ _ _ _ _ _ s) as [[x b] s1|e s1|w] eqn:El; [|done|done].
  apply fori_loop_no_return in El; [|done]. simpl in El. by intros [= <- <-].
Qed.

Lemma exec_handlers_no_return e save l :
  existsb (fun h : list Z * list stmt => existsb has_return h.2) l = false ->
  no_return (exec_handlers E run e save l).
Proof using Hrun.
  intros Hl. induction l as [|[c b] l IH]; simpl.
  - apply no_return_bind. intros _. auto with plpgsql.
  - apply existsb_pairs in Hl as [Hb Hl]. case_match; [|by apply IH].
    do 2 (apply no_return_bind; intros ?).
    apply no_return_bind_rc; [by apply Hrun|]. intros r Hr. apply no_return_bind. intros _.
    by apply no_return_ret.
Qed.

Lemma exec_block_no_return label vars body exceptions :
  existsb has_return body = false ->
  match exceptions with
  | Some l => existsb (fun h : list Z * list stmt => existsb has_return h.2) l
  | None => false
  end = false ->
  no_return (exec_stmt_block E run label vars body exceptions).
Proof using Hrun.
  intros Hb He. unfold exec_stmt_block. apply no_return_bind. intros _.
  apply no_return_bind_rc.
  - destruct exceptions as [l|]; [|by apply Hrun]. do 2 (apply no_return_bind; intros ?).
    apply no_return_try.
    + apply no_return_bind_rc; [by apply Hrun|]. intros r Hr. apply no_return_bind. intros _.
      by apply no_return_ret.
    + intros e. apply no_return_bind. intros _. by apply exec_handlers_no_return.
  - intros r Hr. apply no_return_bind. intros s. destruct r; no_return_auto.
Qed.

Lemma exec_stmt_no_return fuel s : has_return s = false -> no_return (exec_stmt E fuel run s).
Proof using Hrun.
  intros Hs. destruct s; simpl in *;
    repeat match goal with H : _ || _ = false |- _ => apply orb_false_iff in H as [? ?] end.
  - by apply exec_block_no_return.
  - unfold exec_stmt_assign. no_return_auto.
  - unfold exec_stmt_perform. no_return_auto.
  - unfold exec_stmt_if. apply no_return_bind. intros v.
    case_decide; [by apply Hrun|by apply exec_elsifs_no_return].
  - unfold exec_stmt_case. apply no_return_bind. intros _. by apply exec_whens_no_return.
  - by apply exec_loop_no_return.
  - by apply exec_while_no_return.
  - by apply exec_fori_no_return.
  - unfold exec_stmt_exit. no_return_auto.
  - done.
  - unfold exec_stmt_raise. no_return_auto.
  - unfold exec_stmt_execsql. no_return_auto.
Qed.

Lemma run_list_no_return f l :
  existsb has_return l = false -> no_return (run_list (exec_stmt E f run) l).
Proof using Hrun.
  induction l as [|s l IH]; simpl; [by intros _; apply no_return_ret|].
  intros [Hs Hl]%orb_false_iff. apply no_return_bind_rc; [by apply exec_stmt_no_return|].
  intros r Hr. case_decide; [by apply IH|by apply no_return_ret].
Qed.
End no_return.

Lemma exec_stmts_no_return {D Row T} (E : Engine D Row T) fuel l :
  existsb has_return l = false -> no_return (exec_stmts E fuel l).
Proof.
  revert l. induction fuel as [|f IH]; intros l Hl; simpl; [auto with plpgsql|].
  by apply run_list_no_return.
Qed.

Lemma exec_trigger_no_return {D Row T} (E : Engine D Row T) fuel action for_row s t s' :
  has_return action = false -> plpgsql_exec_trigger E fuel action for_row s <> EOk t s'.
Proof.
  intros Ha. unfold plpgsql_exec_trigger, exec_toplevel_block, mbind, PM_bind, pl_get.
  destruct (call _ s) as [u s1|e s1|w]; [|done|done]. simpl.
  destruct (exec_stmt E fuel (exec_stmts E fuel) action _) as [r s2|e s2|w] eqn:Er; [|done|done].
  rewrite decide_False; [done|].
  eapply exec_stmt_no_return; [|exact Ha|exact Er]. apply exec_stmts_no_return.
Qed.

(** * Claims *)

(** C31. A trigger function without RETURN never returns: whatever the source text,
    the relation, the engine's answers and the number of steps, when the
    function's parsed body, made of the kinds of statement modelled here, has no
    RETURN at any depth (handlers and loops included), calling it for a row gives neither a row nor NULL. Falling
    off the end is an error for a trigger function, since no dummy RETURN is
    added to it. *)
Theorem trigger_without_return_fails {D Row T} (E : Engine D Row T) (fuel : nat)
    (src : list ascii) (action : stmt) (for_row : bool) (d : D)
    (Hparse : E.(plpgsql_yyparse) src = Ok action) (Hno : has_return action = false) :
  forall t s', call_trigger_function E fuel src for_row d <> EOk t s'.
Proof.
  intros t s'. unfold call_trigger_function, do_compile. rewrite Hparse. simpl.
  by apply exec_trigger_no_return.
Qed.

(** The text between the dollar quotes of the command. *)
Definition fd_source (d : fd_decl) : list ascii :=
  chars ("			declare 				cnt integer;			begin				SELECT COUNT(DISTINCT ") ++
  intercalate (chars ",") (d_rhs d) ++
  chars ")  				INTO cnt				FROM " ++ d_rel d ++
  chars " 				WHERE " ++ intercalate (chars " AND ") (condition <$> d_lhs d) ++
  chars (" ;				if cnt > 1 THEN 				RAISE EXCEPTION 'Functional dependency fd1 failed'; " ++
         "				END IF;			end;			").



(** The block the grammar reads in it: the variable cnt has number [cnt], the
    query with its INTO clause cut out is [q], [target] is the row of INTO and
    [e] is the text of the condition. *)
Definition fd_action (cnt : Z) (q : expr) (target : Z) (e : expr) : stmt :=
  PLPGSQL_STMT_BLOCK None [cnt]
    [PLPGSQL_STMT_EXECSQL q true false target;
     PLPGSQL_STMT_IF e
       [PLPGSQL_STMT_RAISE elevel_ERROR None (Some "Functional dependency fd1 failed"%string) [] []]
       [] []] None.





(** * A concrete engine

    The relation r has the integer columns A and C; the query's text is the
    one the command of fd1 on A -> C holds, evaluated by counting. *)
Record demo_data := {
  rows : list (Z * Z);
  NEW : Z * Z;
  var_cnt : option Z
}.

Definition set_cnt (v : option Z) (d : demo_data) : demo_data :=
  {| rows := rows d; NEW := NEW d; var_cnt := v |}.

Definition demo_decl : fd_decl :=
  {| d_id := chars "fd1"; d_rel := chars "r"; d_lhs := [chars "A"]; d_rhs := [chars "C"] |}.

Definition demo_query : expr :=
  chars "SELECT COUNT(DISTINCT C)  				            FROM r 				WHERE A=NEW.A".

Definition demo_engine : Engine demo_data Z (Z * Z) :=
  {| plpgsql_yyparse src :=
       if decide (src = fd_source demo_decl) then Ok (fd_action 3 demo_query 4 (chars "cnt > 1"))
       else Err "syntax error";
     exec_eval_boolean e d :=
       if decide (e = chars "cnt > 1") then EOk ((fun n => 1 <? n) <$> var_cnt d) d
       else EErr {| sqlerrcode := ERRCODE_SYNTAX_ERROR; err_message := "syntax error" |} d;
     exec_eval_int32 _ d := EOk None d;
     exec_eval_string _ d := EOk None d;
     exec_assign_expr _ _ d := EOk tt d;
     assign_case_var _ _ d := EOk tt d;
     assign_simple_var _ v d := set_cnt v d;
     assign_error_vars _ d := d;
     init_datum _ d := EOk tt (set_cnt None d);
     exec_move_row _ r d := EOk tt (set_cnt r d);
     exec_set_found _ d := d;
     exec_run_select _ d := EOk 0 d;
     prepare_plan _ d := EOk tt d;
     mod_stmt _ := false;
     too_many_rows_level := 0;
     SPI_execute_plan_with_paramlist q _ d :=
       if decide (q = demo_query) then
         let n := len (remove_dups (snd <$> filter (fun r => r.1 = (NEW d).1) (rows d))) in
         EOk {| spi_rc := SPI_OK_SELECT; spi_processed := 1; spi_tuptable := Some [n] |} d
       else EErr {| sqlerrcode := ERRCODE_SYNTAX_ERROR; err_message := "syntax error" |} d;
     plpgsql_recognize_err_condition _ d := EOk ERRCODE_RAISE_EXCEPTION d;
     return_datum _ _ d := EOk false d;
     BeginInternalSubTransaction d := EOk tt d;
     ReleaseCurrentSubTransaction d := EOk tt d;
     RollbackAndReleaseCurrentSubTransaction d := EOk tt d;
     setup_trigger_data d := EOk tt d;
     trigger_tuple d := EOk (NEW d) d |}.

Lemma trigger_without_return_fails_witness :
  has_return (fd_action 3 demo_query 4 (chars "cnt > 1")) = false /\
  (forall t s', call_trigger_function demo_engine 5 (fd_source demo_decl) true
    {| rows := [(1, 10)]; NEW := (2, 20); var_cnt := None |} <> EOk t s').
Proof.
  split; [reflexivity|].
  apply (trigger_without_return_fails demo_engine 5 (fd_source demo_decl)
           (fd_action 3 demo_query 4 (chars "cnt > 1")) true
           {| rows := [(1, 10)]; NEW := (2, 20); var_cnt := None |}).
  - vm_compute. reflexivity.
  - reflexivity.
Defined.

