(* ===== verification/BitUtils.v ===== *)
(** * Bit utilities: src/port/pg_bitutils.c and src/include/port/pg_bitutils.h

    The byte tables, the portable bodies of the population count and of the
    left- and rightmost set-bit functions (the [#else] branches; the other
    branches call the compiler's builtins and the POPCNT instruction, which
    compute the same mathematical functions), and the power-of-two helpers.
    The theorems relate every body to the bits of the word.

    Each [while] loop over the bytes of a word is bounded by the number of
    bytes; the lemmas show that the bound is never what ends the loop. *)
From S2P Require Import Prelude.

(** pg_leftmost_one_pos[256] *)
Definition pg_leftmost_one_pos : list Z :=
  [
    0; 0; 1; 1; 2; 2; 2; 2; 3; 3; 3; 3; 3; 3; 3; 3; 4; 4; 4; 4; 4; 4; 4; 4; 4; 4; 4; 4; 4; 4; 4; 4;
    5; 5; 5; 5; 5; 5; 5; 5; 5; 5; 5; 5; 5; 5; 5; 5; 5; 5; 5; 5; 5; 5; 5; 5; 5; 5; 5; 5; 5; 5; 5; 5;
    6; 6; 6; 6; 6; 6; 6; 6; 6; 6; 6; 6; 6; 6; 6; 6; 6; 6; 6; 6; 6; 6; 6; 6; 6; 6; 6; 6; 6; 6; 6; 6;
    6; 6; 6; 6; 6; 6; 6; 6; 6; 6; 6; 6; 6; 6; 6; 6; 6; 6; 6; 6; 6; 6; 6; 6; 6; 6; 6; 6; 6; 6; 6; 6;
    7; 7; 7; 7; 7; 7; 7; 7; 7; 7; 7; 7; 7; 7; 7; 7; 7; 7; 7; 7; 7; 7; 7; 7; 7; 7; 7; 7; 7; 7; 7; 7;
    7; 7; 7; 7; 7; 7; 7; 7; 7; 7; 7; 7; 7; 7; 7; 7; 7; 7; 7; 7; 7; 7; 7; 7; 7; 7; 7; 7; 7; 7; 7; 7;
    7; 7; 7; 7; 7; 7; 7; 7; 7; 7; 7; 7; 7; 7; 7; 7; 7; 7; 7; 7; 7; 7; 7; 7; 7; 7; 7; 7; 7; 7; 7; 7;
    7; 7; 7; 7; 7; 7; 7; 7; 7; 7; 7; 7; 7; 7; 7; 7; 7; 7; 7; 7; 7; 7; 7; 7; 7; 7; 7; 7; 7; 7; 7; 7
  ].

(** pg_rightmost_one_pos[256] *)
Definition pg_rightmost_one_pos : list Z :=
  [
    0; 0; 1; 0; 2; 0; 1; 0; 3; 0; 1; 0; 2; 0; 1; 0; 4; 0; 1; 0; 2; 0; 1; 0; 3; 0; 1; 0; 2; 0; 1; 0;
    5; 0; 1; 0; 2; 0; 1; 0; 3; 0; 1; 0; 2; 0; 1; 0; 4; 0; 1; 0; 2; 0; 1; 0; 3; 0; 1; 0; 2; 0; 1; 0;
    6; 0; 1; 0; 2; 0; 1; 0; 3; 0; 1; 0; 2; 0; 1; 0; 4; 0; 1; 0; 2; 0; 1; 0; 3; 0; 1; 0; 2; 0; 1; 0;
    5; 0; 1; 0; 2; 0; 1; 0; 3; 0; 1; 0; 2; 0; 1; 0; 4; 0; 1; 0; 2; 0; 1; 0; 3; 0; 1; 0; 2; 0; 1; 0;
    7; 0; 1; 0; 2; 0; 1; 0; 3; 0; 1; 0; 2; 0; 1; 0; 4; 0; 1; 0; 2; 0; 1; 0; 3; 0; 1; 0; 2; 0; 1; 0;
    5; 0; 1; 0; 2; 0; 1; 0; 3; 0; 1; 0; 2; 0; 1; 0; 4; 0; 1; 0; 2; 0; 1; 0; 3; 0; 1; 0; 2; 0; 1; 0;
    6; 0; 1; 0; 2; 0; 1; 0; 3; 0; 1; 0; 2; 0; 1; 0; 4; 0; 1; 0; 2; 0; 1; 0; 3; 0; 1; 0; 2; 0; 1; 0;
    5; 0; 1; 0; 2; 0; 1; 0; 3; 0; 1; 0; 2; 0; 1; 0; 4; 0; 1; 0; 2; 0; 1; 0; 3; 0; 1; 0; 2; 0; 1; 0
  ].

(** pg_number_of_ones[256] *)
Definition pg_number_of_ones : list Z :=
  [
    0; 1; 1; 2; 1; 2; 2; 3; 1; 2; 2; 3; 2; 3; 3; 4; 1; 2; 2; 3; 2; 3; 3; 4; 2; 3; 3; 4; 3; 4; 4; 5;
    1; 2; 2; 3; 2; 3; 3; 4; 2; 3; 3; 4; 3; 4; 4; 5; 2; 3; 3; 4; 3; 4; 4; 5; 3; 4; 4; 5; 4; 5; 5; 6;
    1; 2; 2; 3; 2; 3; 3; 4; 2; 3; 3; 4; 3; 4; 4; 5; 2; 3; 3; 4; 3; 4; 4; 5; 3; 4; 4; 5; 4; 5; 5; 6;
    2; 3; 3; 4; 3; 4; 4; 5; 3; 4; 4; 5; 4; 5; 5; 6; 3; 4; 4; 5; 4; 5; 5; 6; 4; 5; 5; 6; 5; 6; 6; 7;
    1; 2; 2; 3; 2; 3; 3; 4; 2; 3; 3; 4; 3; 4; 4; 5; 2; 3; 3; 4; 3; 4; 4; 5; 3; 4; 4; 5; 4; 5; 5; 6;
    2; 3; 3; 4; 3; 4; 4; 5; 3; 4; 4; 5; 4; 5; 5; 6; 3; 4; 4; 5; 4; 5; 5; 6; 4; 5; 5; 6; 5; 6; 6; 7;
    2; 3; 3; 4; 3; 4; 4; 5; 3; 4; 4; 5; 4; 5; 5; 6; 3; 4; 4; 5; 4; 5; 5; 6; 4; 5; 5; 6; 5; 6; 6; 7;
    3; 4; 4; 5; 4; 5; 5; 6; 4; 5; 5; 6; 5; 6; 6; 7; 4; 5; 5; 6; 5; 6; 6; 7; 5; 6; 6; 7; 6; 7; 7; 8
  ].

(** [while (word != 0) { result += pg_number_of_ones[word & 255]; word >>= 8; }] *)
Fixpoint popcount_loop (fuel : nat) (word result : Z) : res Z :=
  if word =? 0 then Ok result
  else match fuel with
       | O => UB "loop does not end"
       | S f => n ← rd pg_number_of_ones (Z.land word 255);
                popcount_loop f (Z.shiftr word 8) (result + n)
       end.

Definition pg_popcount32_slow (word : Z) : res Z := popcount_loop 4 word 0.

Definition pg_popcount64_slow (word : Z) : res Z := popcount_loop 8 word 0.

(** The byte loop that ends [pg_popcount]: [while (bytes--) popcnt += ...]. *)
Fixpoint popcount_bytes (buf : list Z) (popcnt : Z) : res Z :=
  match buf with
  | [] => Ok popcnt
  | b :: buf' => n ← rd pg_number_of_ones b; popcount_bytes buf' (u64 (popcnt + n))
  end.

(** A 64-bit little-endian load, as x86_64 reads [*words]. *)
Fixpoint load_le (bytes : list Z) : Z :=
  match bytes with
  | [] => 0
  | b :: bs => Z.lor b (Z.shiftl (load_le bs) 8)
  end.

(** [while (bytes >= 8) { popcnt += pg_popcount64( *words++ ); bytes -= 8; }] *)
Fixpoint popcount_words (fuel : nat) (buf : list Z) (popcnt : Z) : res (list Z * Z) :=
  if len buf <? 8 then Ok (buf, popcnt)
  else match fuel with
       | O => UB "loop does not end"
       | S f => n ← pg_popcount64_slow (load_le (take 8 buf));
                popcount_words f (drop 8 buf) (u64 (popcnt + n))
       end.

(** [pg_popcount(buf, bytes)]: [aligned] says whether [buf] is 8-byte aligned. *)
Definition pg_popcount (aligned : bool) (buf : list Z) : res Z :=
  if aligned
  then '(rest, popcnt) ← popcount_words (length buf) buf 0; popcount_bytes rest popcnt
  else popcount_bytes buf 0.

(** [while ((word >> shift) == 0) shift -= 8;]: a negative shift is undefined. *)
Fixpoint leftmost_loop (fuel : nat) (word shift : Z) : res Z :=
  if shift <? 0 then UB "shift by a negative amount"
  else if Z.shiftr word shift =? 0
  then match fuel with
       | O => UB "loop does not end"
       | S f => leftmost_loop f word (shift - 8)
       end
  else Ok shift.

Definition pg_leftmost_one_pos32 (word : Z) : res Z :=
  shift ← leftmost_loop 4 word (32 - 8);
  p ← rd pg_leftmost_one_pos (Z.land (Z.shiftr word shift) 255);
  Ok (shift + p).

Definition pg_leftmost_one_pos64 (word : Z) : res Z :=
  shift ← leftmost_loop 8 word (64 - 8);
  p ← rd pg_leftmost_one_pos (Z.land (Z.shiftr word shift) 255);
  Ok (shift + p).

(** [while ((word & 255) == 0) { word >>= 8; result += 8; }] *)
Fixpoint rightmost_loop (fuel : nat) (word result : Z) : res (Z * Z) :=
  if Z.land word 255 =? 0
  then match fuel with
       | O => UB "loop does not end"
       | S f => rightmost_loop f (Z.shiftr word 8) (result + 8)
       end
  else Ok (word, result).

Definition pg_rightmost_one_pos32 (word : Z) : res Z :=
  '(word, result) ← rightmost_loop 4 word 0;
  p ← rd pg_rightmost_one_pos (Z.land word 255);
  Ok (result + p).

Definition pg_rightmost_one_pos64 (word : Z) : res Z :=
  '(word, result) ← rightmost_loop 8 word 0;
  p ← rd pg_rightmost_one_pos (Z.land word 255);
  Ok (result + p).

Definition pg_nextpower2_32 (num : Z) : res Z :=
  if Z.land num (u32 (num - 1)) =? 0 then Ok num
  else p ← pg_leftmost_one_pos32 num; shl 32 1 (p + 1).

Definition pg_nextpower2_64 (num : Z) : res Z :=
  if Z.land num (u64 (num - 1)) =? 0 then Ok num
  else p ← pg_leftmost_one_pos64 num; shl 64 1 (p + 1).

Definition pg_prevpower2_32 (num : Z) : res Z :=
  p ← pg_leftmost_one_pos32 num; shl 32 1 p.

Definition pg_prevpower2_64 (num : Z) : res Z :=
  p ← pg_leftmost_one_pos64 num; shl 64 1 p.

Definition pg_ceil_log2_32 (num : Z) : res Z :=
  if num <? 2 then Ok 0 else p ← pg_leftmost_one_pos32 (num - 1); Ok (p + 1).

Definition pg_ceil_log2_64 (num : Z) : res Z :=
  if num <? 2 then Ok 0 else p ← pg_leftmost_one_pos64 (num - 1); Ok (p + 1).

(** [(word >> n) | (word << (32 - n))] *)
Definition pg_rotate_right32 (word n : Z) : res Z :=
  a ← shr 32 word n; b ← shl 32 word (32 - n); Ok (Z.lor a b).

(** * What the functions are to compute *)

(** The number of set bits among the [n] low bits of [w]. *)
Fixpoint bitcount (n : nat) (w : Z) : Z :=
  match n with
  | O => 0
  | S n' => Z.b2z (Z.testbit w 0) + bitcount n' (Z.shiftr w 1)
  end.

(** [r] is the position of the least significant set bit of [w]. *)
Definition lowest_bit (w r : Z) : Prop :=
  0 <= r /\ Z.testbit w r = true /\ forall j, 0 <= j < r -> Z.testbit w j = false.

(** [r] is the position of the most significant set bit of [w]. *)
Definition highest_bit (w r : Z) : Prop :=
  0 <= r /\ Z.testbit w r = true /\ forall j, r < j -> Z.testbit w j = false.

(** * Lemmas on [bitcount] *)
Lemma bitcount_add m n w :
  bitcount (m + n) w = bitcount m w + bitcount n (Z.shiftr w (Z.of_nat m)).
Proof.
  revert w; induction m as [|m IH]; intros w; cbn [bitcount Nat.add]; [by rewrite Z.shiftr_0_r|].
  rewrite IH, Z.shiftr_shiftr by lia.
  replace (1 + Z.of_nat m) with (Z.of_nat (S m)) by lia. lia.
Qed.

Lemma bitcount_ext n w v :
  (forall i, 0 <= i < Z.of_nat n -> Z.testbit w i = Z.testbit v i) ->
  bitcount n w = bitcount n v.
Proof.
  revert w v; induction n as [|n IH]; intros w v H; cbn [bitcount]; [done|].
  rewrite H by lia. f_equal. apply IH. intros i Hi.
  rewrite !Z.shiftr_spec by lia. apply H; lia.
Qed.

Lemma bitcount_0 n : bitcount n 0 = 0.
Proof. induction n; cbn [bitcount]; [done|]. by rewrite Z.shiftr_0_l, Z.bits_0. Qed.

Lemma bitcount_bound n w : 0 <= bitcount n w <= Z.of_nat n.
Proof.
  revert w; induction n as [|n IH]; intros w; cbn [bitcount]; [lia|].
  specialize (IH (Z.shiftr w 1)). destruct (Z.testbit w 0); simpl; lia.
Qed.

(** The count is the number of positions at which the word has a one. *)
Lemma bitcount_filter n w :
  bitcount n w = len (filter (fun i => Z.testbit w i = true) (seqZ 0 (Z.of_nat n))).
Proof.
  revert w; induction n as [|n IH]; intros w; [done|].
  rewrite seqZ_cons by lia.
  replace (Z.pred (Z.of_nat (S n))) with (Z.of_nat n) by lia.
  cbn [bitcount]. rewrite IH. rewrite filter_cons.
  assert (Hs : forall k m, len (filter (fun i => Z.testbit (Z.shiftr w 1) i = true) (seqZ k (Z.of_nat m)))
    = len (filter (fun i => Z.testbit w i = true) (seqZ (Z.succ k) (Z.of_nat m))) \/ k < 0).
  { intros k m. destruct (Z.lt_ge_cases k 0) as [?|Hk]; [by right|left].
    revert k Hk; induction m as [|m IHm]; intros k Hk; [done|].
    rewrite (seqZ_cons k), (seqZ_cons (Z.succ k) (Z.of_nat (S m))) by lia.
    replace (Z.pred (Z.of_nat (S m))) with (Z.of_nat m) by lia.
    rewrite !filter_cons, Z.shiftr_spec by lia.
    replace (k + 1) with (Z.succ k) by lia.
    case_decide; rewrite ?len_cons, IHm by lia; done. }
  destruct (Hs 0 n) as [->|]; [|lia].
  case_decide as Hd.
  - rewrite len_cons, Hd. simpl. lia.
  - destruct (Z.testbit w 0); [done|]. simpl. lia.
Qed.

(** * The tables *)
Lemma byte_cases (P : Z -> bool) b :
  forallb P (seqZ 0 256) = true -> 0 <= b < 256 -> P b = true.
Proof.
  intros H Hb. rewrite forallb_forall in H. apply H.
  apply list_elem_of_In, elem_of_seqZ. lia.
Qed.

Definition lowest_bitb (w r : Z) : bool :=
  Z.testbit w r && forallb (fun j => negb (Z.testbit w j)) (seqZ 0 r).

Definition highest_bitb (w r : Z) : bool :=
  Z.testbit w r && forallb (fun j => negb (Z.testbit w j)) (seqZ (r + 1) (7 - r)).

Lemma number_of_ones_spec b : 0 <= b < 256 -> getd 0 pg_number_of_ones b = bitcount 8 b.
Proof.
  intros Hb. apply Z.eqb_eq.
  apply (byte_cases (fun b => getd 0 pg_number_of_ones b =? bitcount 8 b)); [by vm_compute|done].
Qed.

Lemma forallb_seqZ (P : Z -> bool) lo n j :
  forallb P (seqZ lo n) = true -> lo <= j < lo + n -> P j = true.
Proof.
  intros H Hj. rewrite forallb_forall in H. apply H.
  apply list_elem_of_In, elem_of_seqZ. lia.
Qed.

Lemma rightmost_table b : 0 < b < 256 -> lowest_bit b (getd 0 pg_rightmost_one_pos b) /\ getd 0 pg_rightmost_one_pos b < 8.
Proof.
  intros Hb.
  assert (H : (b =? 0) || ((0 <=? getd 0 pg_rightmost_one_pos b) && (getd 0 pg_rightmost_one_pos b <? 8) &&
    lowest_bitb b (getd 0 pg_rightmost_one_pos b)) = true).
  { apply (byte_cases (fun b => (b =? 0) || ((0 <=? getd 0 pg_rightmost_one_pos b) && (getd 0 pg_rightmost_one_pos b <? 8) &&
      lowest_bitb b (getd 0 pg_rightmost_one_pos b)))); [by vm_compute|lia]. }
  unfold lowest_bitb in H. destruct (Z.eqb_spec b 0); [lia|].
  simpl in H. rewrite !andb_true_iff in H. destruct H as [[H1 H2] [H3 H4]].
  split; [|lia]. split; [lia|]. split; [done|]. intros j Hj.
  apply negb_true_iff. by apply (forallb_seqZ _ _ _ j H4).
Qed.

Lemma leftmost_table b : 0 < b < 256 -> highest_bit b (getd 0 pg_leftmost_one_pos b) /\ getd 0 pg_leftmost_one_pos b < 8.
Proof.
  intros Hb.
  assert (H : (b =? 0) || ((0 <=? getd 0 pg_leftmost_one_pos b) && (getd 0 pg_leftmost_one_pos b <? 8) &&
    highest_bitb b (getd 0 pg_leftmost_one_pos b)) = true).
  { apply (byte_cases (fun b => (b =? 0) || ((0 <=? getd 0 pg_leftmost_one_pos b) && (getd 0 pg_leftmost_one_pos b <? 8) &&
      highest_bitb b (getd 0 pg_leftmost_one_pos b)))); [by vm_compute|lia]. }
  unfold highest_bitb in H. destruct (Z.eqb_spec b 0); [lia|].
  simpl in H. rewrite !andb_true_iff in H. destruct H as [[H1 H2] [H3 H4]].
  split; [|lia]. split; [lia|]. split; [done|]. intros j Hj.
  destruct (Z.lt_ge_cases j 8).
  - apply negb_true_iff. apply (forallb_seqZ _ _ _ j H4). lia.
  - apply (testbit_high _ 8); lia.
Qed.

(** * The loops *)
Lemma shiftr8_range n w : 0 <= w < 2 ^ (8 * Z.of_nat (S n)) -> 0 <= Z.shiftr w 8 < 2 ^ (8 * Z.of_nat n).
Proof.
  intros H. rewrite Z.shiftr_div_pow2 by lia.
  replace (8 * Z.of_nat (S n)) with (8 + 8 * Z.of_nat n) in H by lia.
  rewrite Z.pow_add_r in H by lia.
  split; [apply Z.div_pos; lia|apply Z.div_lt_upper_bound; lia].
Qed.

Lemma popcount_loop_spec n w r :
  0 <= w < 2 ^ (8 * Z.of_nat n) -> popcount_loop n w r = Ok (r + bitcount (8 * n) w).
Proof.
  revert w r; induction n as [|n IH]; intros w r Hw; cbn [popcount_loop].
  - replace w with 0 by lia. simpl. f_equal; lia.
  - destruct (Z.eqb_spec w 0) as [->|Hnz].
    { rewrite bitcount_0. f_equal; lia. }
    assert (Hb : 0 <= Z.land w 255 < 256).
    { rewrite land_255. apply Z.mod_pos_bound; lia. }
    assert (Hrd : rd pg_number_of_ones (Z.land w 255) = Ok (bitcount 8 w)).
    { assert (Hwp : wp (rd pg_number_of_ones (Z.land w 255)) (fun v => v = bitcount 8 w)).
      { apply (wp_rd 0); [exact Hb|].
        rewrite number_of_ones_spec by done. apply bitcount_ext. intros i Hi.
        rewrite land_255. apply Z.mod_pow2_bits_low. lia. }
      apply wp_ok in Hwp as (a & -> & ->). done. }
    rewrite Hrd. cbn [mbind res_bind].
    rewrite IH by (by apply shiftr8_range).
    replace (8 * S n)%nat with (8 + 8 * n)%nat by lia.
    rewrite bitcount_add. change (Z.of_nat 8) with 8. f_equal. lia.
Qed.

Lemma rightmost_loop_spec n w r :
  0 < w < 2 ^ (8 * Z.of_nat n) ->
  wp (rightmost_loop n w r) (fun '(w', r') =>
    exists k, r' = r + k /\ 0 <= k < 8 * Z.of_nat n /\ w' = Z.shiftr w k /\
      Z.land w' 255 <> 0 /\ forall j, 0 <= j < k -> Z.testbit w j = false).
Proof.
  revert w r; induction n as [|n IH]; intros w r Hw; cbn [rightmost_loop].
  - simpl in Hw. lia.
  - destruct (Z.eqb_spec (Z.land w 255) 0) as [Hz|Hnz].
    + assert (Hlow : forall j, 0 <= j < 8 -> Z.testbit w j = false).
      { intros j Hj. rewrite <- (Z.mod_pow2_bits_low w 8 j) by lia.
        rewrite <- land_255, Hz. apply Z.bits_0. }
      assert (Hs : 0 < Z.shiftr w 8).
      { rewrite land_255 in Hz. rewrite Z.shiftr_div_pow2 by lia.
        pose proof (Z.div_mod w (2 ^ 8)). nia. }
      eapply wp_mono; [apply IH; pose proof (shiftr8_range n w); lia|].
      intros [w' r'] (k & -> & Hk & -> & Hb & Hj). exists (8 + k).
      rewrite Z.shiftr_shiftr in * by lia.
      split; [lia|]. split; [lia|]. split; [done|]. split; [done|].
      intros j Hjk. destruct (Z.lt_ge_cases j 8); [apply Hlow; lia|].
      specialize (Hj (j - 8)). rewrite Z.shiftr_spec in Hj by lia.
      replace (j - 8 + 8) with j in Hj by lia. apply Hj; lia.
    + simpl. exists 0. rewrite Z.shiftr_0_r. repeat split; try lia; done.
Qed.

Lemma leftmost_loop_spec n w :
  0 < w < 2 ^ (8 * Z.of_nat n) ->
  wp (leftmost_loop n w (8 * Z.of_nat n - 8)) (fun s =>
    0 <= s <= 8 * Z.of_nat n - 8 /\ 0 < Z.shiftr w s < 256).
Proof.
  induction n as [|n IH]; intros Hw.
  - simpl in Hw. lia.
  - replace (8 * Z.of_nat (S n) - 8) with (8 * Z.of_nat n) by lia.
    replace (8 * Z.of_nat (S n)) with (8 + 8 * Z.of_nat n) in Hw by lia.
    cbn [leftmost_loop]. destruct (Z.ltb_spec (8 * Z.of_nat n) 0); [lia|].
    pose proof (Z.pow_pos_nonneg 2 (8 * Z.of_nat n)).
    rewrite Z.pow_add_r in Hw by lia.
    destruct (Z.eqb_spec (Z.shiftr w (8 * Z.of_nat n)) 0) as [Hz|Hnz].
    + eapply wp_mono; [apply IH|intros s [Hs1 Hs2]; split; [lia|done]].
      rewrite Z.shiftr_div_pow2 in Hz by lia.
      apply Z.div_small_iff in Hz; lia.
    + simpl. rewrite Z.shiftr_div_pow2 in * by lia. split; [lia|].
      split; [|apply Z.div_lt_upper_bound; lia].
      pose proof (Z.div_pos w (2 ^ (8 * Z.of_nat n))). lia.
Qed.

(** * The word functions *)
Lemma pg_popcount64_spec w : 0 <= w < 2 ^ 64 -> pg_popcount64_slow w = Ok (bitcount 64 w).
Proof. intros. unfold pg_popcount64_slow. by rewrite popcount_loop_spec. Qed.

Lemma pg_popcount32_spec w : 0 <= w < 2 ^ 32 -> pg_popcount32_slow w = Ok (bitcount 32 w).
Proof. intros. unfold pg_popcount32_slow. by rewrite popcount_loop_spec. Qed.

Lemma rightmost_pos_spec n w :
  0 < w < 2 ^ (8 * Z.of_nat n) ->
  wp ('(w', r) ← rightmost_loop n w 0; p ← rd pg_rightmost_one_pos (Z.land w' 255); Ok (r + p))
     (fun r => lowest_bit w r /\ r < 8 * Z.of_nat n).
Proof.
  intros Hw. apply wp_bind. eapply wp_mono; [by apply rightmost_loop_spec|].
  intros [w' r'] (k & -> & Hk & -> & Hb & Hlow).
  assert (Hb' : 0 < Z.land (Z.shiftr w k) 255 < 256).
  { rewrite land_255 in *. pose proof (Z.mod_pos_bound (Z.shiftr w k) (2 ^ 8)). lia. }
  apply wp_bind, (wp_rd 0); [change (len pg_rightmost_one_pos) with 256; lia|].
  destruct (rightmost_table _ Hb') as [(Hp0 & Hp1 & Hp2) Hp3]. simpl.
  set (p := getd 0 pg_rightmost_one_pos _) in *.
  assert (Hbit : forall j, 0 <= j < 8 -> Z.testbit (Z.land (Z.shiftr w k) 255) j = Z.testbit w (j + k)).
  { intros j Hj. rewrite land_255, Z.mod_pow2_bits_low, Z.shiftr_spec by lia. done. }
  rewrite Hbit in Hp1 by lia.
  split; [split; [lia|split]|].
  - by replace (0 + k + p) with (p + k) by lia.
  - intros j Hj. destruct (Z.lt_ge_cases j k); [by apply Hlow; lia|].
    specialize (Hp2 (j - k)). rewrite Hbit in Hp2 by lia.
    replace (j - k + k) with j in Hp2 by lia. apply Hp2; lia.
  - apply Z.nle_gt. intros Hge.
    rewrite (testbit_high w (8 * Z.of_nat n)) in Hp1; [done|lia|lia].
Qed.

Lemma leftmost_pos_spec n w :
  0 < w < 2 ^ (8 * Z.of_nat n) ->
  wp (s ← leftmost_loop n w (8 * Z.of_nat n - 8);
      p ← rd pg_leftmost_one_pos (Z.land (Z.shiftr w s) 255); Ok (s + p))
     (fun r => highest_bit w r /\ r < 8 * Z.of_nat n).
Proof.
  intros Hw. apply wp_bind. eapply wp_mono; [by apply leftmost_loop_spec|].
  intros s (Hs & Hb). simpl.
  assert (Hl : Z.land (Z.shiftr w s) 255 = Z.shiftr w s).
  { rewrite land_255. apply Z.mod_small. lia. }
  rewrite Hl. apply wp_bind, (wp_rd 0); [change (len pg_leftmost_one_pos) with 256; lia|].
  destruct (leftmost_table _ Hb) as [(Hp0 & Hp1 & Hp2) Hp3]. simpl.
  set (p := getd 0 pg_leftmost_one_pos _) in *.
  rewrite Z.shiftr_spec in Hp1 by lia.
  split; [split; [lia|split]|lia].
  - by replace (s + p) with (p + s) by lia.
  - intros j Hj. specialize (Hp2 (j - s)). rewrite Z.shiftr_spec in Hp2 by lia.
    replace (j - s + s) with j in Hp2 by lia. apply Hp2; lia.
Qed.

Lemma wp_rightmost64 w (Q : Z -> Prop) :
  0 < w < 2 ^ 64 -> (forall r, lowest_bit w r -> r < 64 -> Q r) -> wp (pg_rightmost_one_pos64 w) Q.
Proof.
  intros Hw HQ. eapply wp_mono; [exact (rightmost_pos_spec 8 w Hw)|].
  intros r [H1 H2]. by apply HQ.
Qed.

Lemma wp_leftmost64 w (Q : Z -> Prop) :
  0 < w < 2 ^ 64 -> (forall r, highest_bit w r -> r < 64 -> Q r) -> wp (pg_leftmost_one_pos64 w) Q.
Proof.
  intros Hw HQ. eapply wp_mono; [exact (leftmost_pos_spec 8 w Hw)|].
  intros r [H1 H2]. by apply HQ.
Qed.

(** Below its lowest one, [w - 1] has ones; at it a zero; above it the bits of [w]. *)
Lemma pred_bits w r :
  lowest_bit w r -> 0 <= w ->
  forall i, 0 <= i -> Z.testbit (Z.pred w) i =
    if i <? r then true else if i =? r then false else Z.testbit w i.
Proof.
  intros (Hr & Hbit & Hlow) Hw.
  assert (Hq : w = 2 ^ r * (1 + 2 * (w / 2 ^ (r + 1)))).
  { assert (Hm : w mod 2 ^ r = 0).
    { apply Z.bits_inj'. intros i Hi. rewrite Z.bits_0.
      destruct (Z.lt_ge_cases i r); [rewrite Z.mod_pow2_bits_low by lia; apply Hlow; lia|].
      apply Z.mod_pow2_bits_high; lia. }
    apply Z.testbit_true in Hbit; [|done].
    rewrite Z.pow_add_r, Z.pow_1_r by lia. rewrite <- Z.div_div by lia.
    pose proof (Z.div_mod w (2 ^ r)). pose proof (Z.div_mod (w / 2 ^ r) 2).
    pose proof (Z.pow_pos_nonneg 2 r). lia. }
  set (q := w / 2 ^ (r + 1)) in *.
  assert (Hp : Z.pred w = Z.shiftl q (r + 1) + Z.ones r).
  { rewrite Z.shiftl_mul_pow2, Z.ones_equiv, Z.pow_add_r, Z.pow_1_r by lia. lia. }
  assert (Hor : Z.pred w = Z.lor (Z.shiftl q (r + 1)) (Z.ones r)).
  { rewrite Hp, <- Z.lxor_lor, <- Z.add_nocarry_lxor; [done|..].
    all: apply Z.bits_inj'; intros i Hi; rewrite Z.land_spec, Z.bits_0.
    all: destruct (Z.lt_ge_cases i r).
    1,3: rewrite Z.shiftl_spec_low by lia; done.
    all: rewrite Z.ones_spec_high by lia; apply andb_false_r. }
  intros i Hi. rewrite Hor, Z.lor_spec.
  destruct (Z.ltb_spec i r) as [Hlt|Hge].
  - rewrite Z.ones_spec_low by lia. apply orb_true_r.
  - rewrite Z.ones_spec_high, orb_false_r by lia.
    destruct (Z.eqb_spec i r) as [->|Hne]; [by apply Z.shiftl_spec_low; lia|].
    rewrite Z.shiftl_spec by lia. unfold q.
    rewrite Z.div_pow2_bits by lia. f_equal; lia.
Qed.


Lemma land_pred_zero w r :
  0 < w -> lowest_bit w r -> Z.land w (w - 1) = 0 -> w = 2 ^ r.
Proof.
  intros Hw Hr Hz. pose proof Hr as (Hr0 & Hr1 & Hr2). apply Z.bits_inj'. intros i Hi.
  rewrite Z.pow2_bits_eqb by done. pose proof (f_equal (fun v => Z.testbit v i) Hz) as Hb. simpl in Hb.
  rewrite Z.land_spec, Z.bits_0, Z.sub_1_r, (pred_bits w r) in Hb by (done || lia).
  destruct (Z.ltb_spec i r); [rewrite Hr2 by lia; symmetry; apply Z.eqb_neq; lia|].
  destruct (Z.eqb_spec i r) as [->|Hne]; [by rewrite Hr1, Z.eqb_refl|].
  destruct (Z.eqb_spec r i); [lia|]. by destruct (Z.testbit w i).
Qed.

Lemma highest_bit_bounds w h : 0 < w -> highest_bit w h -> 2 ^ h <= w < 2 ^ (h + 1).
Proof.
  intros Hw (Hh0 & Hh1 & Hh2). split.
  - apply Z.nlt_ge. intros Hlt. rewrite (testbit_high w h) in Hh1; [done|lia|lia].
  - apply bits_range; [lia|lia|]. intros i Hi. apply Hh2. lia.
Qed.

(** * Byte arrays *)
Definition is_byte (b : Z) : Prop := 0 <= b < 256.

Definition ones_of (buf : list Z) : Z := foldr (fun b n => bitcount 8 b + n) 0 buf.

Lemma ones_of_app l k : ones_of (l ++ k) = ones_of l + ones_of k.
Proof. induction l as [|b l IH]; [done|]. unfold ones_of in *. cbn [app foldr]. lia. Qed.

Lemma ones_of_bound buf : 0 <= ones_of buf <= 8 * len buf.
Proof.
  induction buf as [|b l IH]; [done|]. rewrite len_cons. unfold ones_of in *. cbn [foldr].
  pose proof (bitcount_bound 8 b). lia.
Qed.

Lemma load_le_spec bytes :
  Forall is_byte bytes ->
  0 <= load_le bytes < 2 ^ (8 * len bytes) /\
  bitcount (8 * length bytes) (load_le bytes) = ones_of bytes.
Proof.
  induction 1 as [|b bs Hb Hbs [IHr IHc]]; [done|].
  pose proof (len_nonneg bs). cbn [load_le]. rewrite len_cons.
  assert (Hlow : forall i, 0 <= i < 8 -> Z.testbit (Z.lor b (Z.shiftl (load_le bs) 8)) i = Z.testbit b i).
  { intros i Hi. rewrite Z.lor_spec, Z.shiftl_spec_low by lia. apply orb_false_r. }
  assert (Hshift : Z.shiftr (Z.lor b (Z.shiftl (load_le bs) 8)) 8 = load_le bs).
  { rewrite Z.shiftr_lor, Z.shiftr_shiftl_l, Z.sub_diag, Z.shiftl_0_r by lia.
    rewrite Z.shiftr_div_pow2, Z.div_small by (unfold is_byte in Hb; lia). done. }
  split.
  - apply bits_range; [lia|apply Z.lor_nonneg; split; [apply Hb|apply Z.shiftl_nonneg; lia]|].
    intros i Hi. rewrite Z.lor_spec, (testbit_high b 8), Z.shiftl_spec by (done || lia). simpl.
    apply (testbit_high _ (8 * len bs)); [done|lia].
  - replace (8 * length (b :: bs))%nat with (8 + 8 * length bs)%nat by (simpl; lia).
    rewrite bitcount_add. change (Z.of_nat 8) with 8. rewrite Hshift, IHc.
    rewrite (bitcount_ext 8 _ b) by (intros i Hi; apply Hlow; lia). done.
Qed.

Lemma popcount_bytes_spec buf n :
  Forall is_byte buf -> 0 <= n -> n + 8 * len buf < 2 ^ 64 -> popcount_bytes buf n = Ok (n + ones_of buf).
Proof.
  intros Hbuf. revert n. induction Hbuf as [|b l Hb Hl IH]; intros n Hn Hmax; cbn [popcount_bytes].
  - f_equal. unfold ones_of; simpl; lia.
  - rewrite len_cons in Hmax. pose proof (bitcount_bound 8 b). pose proof (len_nonneg l).
    assert (Hrd : rd pg_number_of_ones b = Ok (bitcount 8 b)).
    { apply wp_eq, (wp_rd 0); [exact Hb|]. by apply number_of_ones_spec. }
    rewrite Hrd. cbn [mbind res_bind]. rewrite u64_small by lia.
    rewrite IH by lia. f_equal. unfold ones_of; cbn [foldr]. lia.
Qed.

Lemma popcount_words_spec fuel buf n :
  Forall is_byte buf -> 0 <= n -> n + 8 * len buf < 2 ^ 64 -> len buf < 8 * (Z.of_nat fuel + 1) ->
  wp (popcount_words fuel buf n) (fun '(rest, m) =>
    Forall is_byte rest /\ m = n + ones_of buf - ones_of rest /\ ones_of rest <= ones_of buf /\
    len rest <= len buf).
Proof.
  revert buf n. induction fuel as [|fuel IH]; intros buf n Hbuf Hn Hmax Hf; cbn [popcount_words].
  - destruct (Z.ltb_spec (len buf) 8); [|lia]. simpl. split; [done|]. lia.
  - destruct (Z.ltb_spec (len buf) 8) as [|Hge]; [simpl; split; [done|]; lia|].
    assert (Hsplit : buf = take 8 buf ++ drop 8 buf) by (by rewrite take_drop).
    assert (Htake : len (take 8 buf) = 8).
    { unfold len in *. rewrite length_take. lia. }
    assert (Hdrop : len (drop 8 buf) = len buf - 8).
    { unfold len in *. rewrite length_drop. lia. }
    assert (Hok : Forall is_byte (take 8 buf) /\ Forall is_byte (drop 8 buf)).
    { rewrite Hsplit in Hbuf. by apply Forall_app in Hbuf. }
    destruct Hok as [Hok1 Hok2]. destruct (load_le_spec _ Hok1) as [Hr Hc]. rewrite Htake in Hr.
    replace (length (take 8 buf)) with 8%nat in Hc by (unfold len in Htake; lia).
    rewrite pg_popcount64_spec by done. cbn [mbind res_bind].
    change (8 * 8)%nat with 64%nat in Hc. rewrite Hc.
    pose proof (ones_of_bound (take 8 buf)). pose proof (ones_of_bound (drop 8 buf)).
    rewrite u64_small by lia. eapply wp_mono; [apply IH; [done|lia|lia|lia]|].
    intros [rest m] (Hrest & -> & Hle & Hlen). split; [done|].
    assert (ones_of buf = ones_of (take 8 buf) + ones_of (drop 8 buf)) as ->
      by (rewrite <- ones_of_app; by rewrite take_drop). lia.
Qed.

Lemma leftmost64_ok w :
  0 < w < 2 ^ 64 -> exists hi, pg_leftmost_one_pos64 w = Ok hi /\ highest_bit w hi /\ hi < 64.
Proof. intros Hw. apply wp_ok. by apply wp_leftmost64. Qed.

Lemma rightmost64_ok w :
  0 < w < 2 ^ 64 -> exists lo, pg_rightmost_one_pos64 w = Ok lo /\ lowest_bit w lo /\ lo < 64.
Proof. intros Hw. apply wp_ok. by apply wp_rightmost64. Qed.

(** ** Powers of two *)
Lemma land_pred_pow2 h : 0 <= h -> Z.land (2 ^ h) (2 ^ h - 1) = 0.
Proof.
  intros Hh. apply Z.bits_inj'. intros i Hi.
  rewrite Z.land_spec, Z.bits_0, Z.sub_1_r, <- Z.ones_equiv.
  rewrite Z.pow2_bits_eqb by done. destruct (Z.eqb_spec h i) as [->|]; [|done].
  by rewrite Z.ones_spec_high by lia.
Qed.

Lemma shl_one w p : 0 <= p < w -> shl w 1 p = Ok (2 ^ p).
Proof.
  intros Hp. apply wp_eq, wp_shl; [done|]. rewrite Z.shiftl_1_l. apply Z.mod_small.
  split; [apply Z.pow_nonneg; lia|apply Z.pow_lt_mono_r; lia].
Qed.

Lemma nextpower2_32_ok num :
  0 < num <= 2 ^ 31 -> exists k, pg_nextpower2_32 num = Ok (2 ^ k) /\ 0 <= k < 32 /\ num <= 2 ^ k < 2 * num.
Proof.
  intros Hn. destruct (proj1 (wp_ok _ _) (leftmost_pos_spec 4 num ltac:(lia))) as (h & Hh & Hhb & Hh32).
  destruct (rightmost64_ok num) as (l & _ & Hl & Hl64); [lia|]. pose proof Hl as (Hl0 & Hlb & _).
  pose proof (highest_bit_bounds num h ltac:(lia) Hhb) as Hb. pose proof Hhb as (Hh0 & _).
  rewrite Z.pow_add_r, Z.pow_1_r in Hb by lia.
  unfold pg_nextpower2_32. rewrite u32_small by lia.
  destruct (Z.eqb_spec (Z.land num (num - 1)) 0) as [Hz|Hnz].
  - pose proof (land_pred_zero num l ltac:(lia) Hl Hz) as Hp. exists l. rewrite <- Hp. split; [done|].
    assert (l < 32); [|lia]. apply (Z.pow_lt_mono_r_iff 2); lia.
  - assert (num <> 2 ^ h) by (intros ->; by apply Hnz, land_pred_pow2).
    assert (h <> 31) by (intros ->; lia).
    change (pg_leftmost_one_pos32 num = Ok h) in Hh. rewrite Hh. cbn [mbind res_bind].
    rewrite shl_one by lia. exists (h + 1). split; [done|]. split; [lia|].
    rewrite Z.pow_add_r, Z.pow_1_r by lia. lia.
Qed.

(** * Theorems *)

(** for a nonzero 64-bit word the table-driven functions that replace the
    compiler builtins return, without running past the word, its number of
    one bits, the position of its most significant one and the position of
    its least significant one. *)
Theorem pg_bit_positions w :
  0 < w < 2 ^ 64 ->
  pg_popcount64_slow w = Ok (len (filter (fun i => Z.testbit w i = true) (seqZ 0 64))) /\
  (exists hi, pg_leftmost_one_pos64 w = Ok hi /\ highest_bit w hi /\ hi < 64) /\
  (exists lo, pg_rightmost_one_pos64 w = Ok lo /\ lowest_bit w lo /\ lo < 64).
Proof.
  intros Hw. split; [|split].
  - rewrite pg_popcount64_spec by lia. by rewrite bitcount_filter.
  - by apply leftmost64_ok.
  - by apply rightmost64_ok.
Qed.

Lemma pg_bit_positions_witness :
  pg_popcount64_slow 40960 = Ok 2 /\ pg_leftmost_one_pos64 40960 = Ok 15 /\
  exists lo, pg_rightmost_one_pos64 40960 = Ok lo /\ lowest_bit 40960 lo.
Proof.
  destruct (pg_bit_positions 40960) as (H1 & _ & lo & H2 & H3 & _); [lia|].
  split; [exact H1|]. split; [reflexivity|]. exists lo. split; [exact H2|exact H3].
Defined.

(** [pg_popcount] returns the number of one bits of the whole byte array,
    the same for an aligned buffer, which it reads in 64-bit words, and for
    an unaligned one, which it reads byte by byte. *)
Theorem pg_popcount_alignment aligned buf :
  Forall is_byte buf -> len buf < 2 ^ 31 ->
  pg_popcount aligned buf = Ok (ones_of buf).
Proof.
  intros Hbuf Hlen. pose proof (len_nonneg buf). unfold pg_popcount. destruct aligned.
  - apply wp_eq. wp_step. eapply wp_mono; [apply popcount_words_spec; [done|lia|lia|unfold len; lia]|].
    intros [rest m] (Hrest & -> & Hle & Hlr). pose proof (ones_of_bound buf).
    pose proof (ones_of_bound rest). pose proof (len_nonneg rest).
    rewrite popcount_bytes_spec by (done || lia). wp_step. lia.
  - rewrite popcount_bytes_spec by (done || lia). done.
Qed.

Lemma pg_popcount_alignment_witness :
  pg_popcount true [255; 1; 2; 3; 4; 5; 6; 7; 128] = Ok 21 /\
  pg_popcount false [255; 1; 2; 3; 4; 5; 6; 7; 128] = Ok 21.
Proof.
  assert (Hb : Forall is_byte [255; 1; 2; 3; 4; 5; 6; 7; 128]) by (repeat constructor; done).
  split; [exact (pg_popcount_alignment true _ Hb eq_refl)|exact (pg_popcount_alignment false _ Hb eq_refl)].
Defined.

(** [pg_nextpower2_64] returns the least power of two that is not below
    its argument, for every argument its comment allows, and
    [pg_prevpower2_64] the greatest that is not above it. *)
Theorem pg_power2_bounds num :
  0 < num <= 2 ^ 63 ->
  (exists k, pg_nextpower2_64 num = Ok (2 ^ k) /\ 0 <= k < 64 /\ num <= 2 ^ k < 2 * num) /\
  (exists k, pg_prevpower2_64 num = Ok (2 ^ k) /\ 0 <= k < 64 /\ 2 ^ k <= num < 2 * 2 ^ k).
Proof.
  intros Hn. destruct (leftmost64_ok num) as (h & Hh & Hhb & Hh64); [lia|].
  destruct (rightmost64_ok num) as (l & _ & Hl & Hl64); [lia|].
  pose proof (highest_bit_bounds num h ltac:(lia) Hhb) as Hb. pose proof Hhb as (Hh0 & _).
  pose proof Hl as (Hl0 & _).
  pose proof (shl_one 64) as Hshl.
  rewrite Z.pow_add_r, Z.pow_1_r in Hb by lia. split.
  - unfold pg_nextpower2_64. rewrite u64_small by lia.
    destruct (Z.eqb_spec (Z.land num (num - 1)) 0) as [Hz|Hnz].
    + exists l. rewrite <- (land_pred_zero num l) by (done || lia). split; [done|]. lia.
    + assert (num <> 2 ^ h) by (intros ->; by apply Hnz, land_pred_pow2).
      assert (h <> 63) by (intros ->; lia).
      rewrite Hh. cbn [mbind res_bind]. rewrite Hshl by lia. exists (h + 1).
      split; [done|]. split; [lia|]. rewrite Z.pow_add_r, Z.pow_1_r by lia. lia.
  - unfold pg_prevpower2_64. rewrite Hh. cbn [mbind res_bind]. rewrite Hshl by lia.
    exists h. split; [done|]. lia.
Qed.

Lemma pg_power2_bounds_witness :
  exists k, pg_nextpower2_64 1000 = Ok (2 ^ k) /\ 1000 <= 2 ^ k < 2000.
Proof.
  destruct (proj1 (pg_power2_bounds 1000 ltac:(lia))) as (k & H1 & _ & H2).
  exists k. split; [exact H1|lia].
Defined.
