(* ===== verification/Bitmapset.v ===== *)
(** * Bitmap sets: src/backend/nodes/bitmapset.c

    A [Bitmapset] is an array of 64-bit words ([nwords] is the array's
    length); a pointer to one is an [option], [None] being NULL.  Operations
    that recycle an input return its new contents.  [elog(ERROR)] is [Err],
    an access outside [words] or a shift by 64 is [UB].  Arithmetic on C
    [int] is wrapped by [i32] where it can leave the range (the server is
    built with -fwrapv).

    The abstract value of a set is the integer whose bits are the members
    ([bms_val]); the theorems show that the word-level code computes the set
    operation on that integer. *)
From S2P Require Import Prelude.
From S2P Require Import BitUtils.

(** BITS_PER_BITMAPWORD (bitmapset.h) *)
Definition BITS_PER_BITMAPWORD : Z := 64.

Record Bitmapset := mkBms { words : list Z }.

Definition nwords (a : Bitmapset) : Z := len (words a).

Inductive BMS_Comparison := BMS_EQUAL | BMS_SUBSET1 | BMS_SUBSET2 | BMS_DIFFERENT.

Inductive BMS_Membership := BMS_EMPTY_SET | BMS_SINGLETON | BMS_MULTIPLE.

#[export] Instance BMS_Comparison_eq_dec : EqDecision BMS_Comparison.
Proof. solve_decision. Defined.

#[export] Instance BMS_Membership_eq_dec : EqDecision BMS_Membership.
Proof. solve_decision. Defined.

(** C division and remainder of [int] truncate towards zero. *)
Definition WORDNUM (x : Z) : Z := Z.quot x BITS_PER_BITMAPWORD.
Definition BITNUM (x : Z) : Z := Z.rem x BITS_PER_BITMAPWORD.

(** [~w] on a bitmapword *)
Definition bmw_not (w : Z) : Z := u64 (Z.lnot w).

(** [((signedbitmapword) (x) & -((signedbitmapword) (x)))], read back as a bitmapword *)
Definition RIGHTMOST_ONE (x : Z) : Z := u64 (Z.land (i64 x) (i64 (- i64 x))).

Definition HAS_MULTIPLE_ONES (x : Z) : bool := negb (RIGHTMOST_ONE x =? x).

Definition bmw_leftmost_one_pos (w : Z) : res Z := pg_leftmost_one_pos64 w.
Definition bmw_rightmost_one_pos (w : Z) : res Z := pg_rightmost_one_pos64 w.
Definition bmw_popcount (w : Z) : res Z := pg_popcount64_slow w.

Definition neg_member {A} : res A := Err "negative bitmapset member not allowed".

Definition bms_copy (a : option Bitmapset) : option Bitmapset :=
  match a with
  | None => None
  | Some a => Some (mkBms (words a))
  end.

Definition bms_is_empty (a : option Bitmapset) : res bool :=
  match a with
  | None => Ok true
  | Some a =>
      loop_return (for_up 0 (nwords a) (fun wordnum _ =>
        w ← rd (words a) wordnum;
        if negb (w =? 0) then Ok (inr false) else Ok (inl tt)) tt) true
  end.

Definition bms_equal (a b : option Bitmapset) : res bool :=
  match a, b with
  | None, None => Ok true
  | None, Some _ => bms_is_empty b
  | Some _, None => bms_is_empty a
  | Some a, Some b =>
      let '(shorter, longer) := if nwords a <=? nwords b then (a, b) else (b, a) in
      let shortlen := nwords shorter in
      o ← for_up 0 shortlen (fun i _ =>
        sw ← rd (words shorter) i;
        lw ← rd (words longer) i;
        if negb (sw =? lw) then Ok (inr false) else Ok (inl tt)) tt;
      match o with
      | inr r => Ok r
      | inl _ =>
          loop_return (for_up shortlen (nwords longer) (fun i _ =>
            lw ← rd (words longer) i;
            if negb (lw =? 0) then Ok (inr false) else Ok (inl tt)) tt) true
      end
  end.

(** Is some word of [a] at [lo <= i] nonzero?  The loop is in several functions. *)
Definition extra_words {R} (a : Bitmapset) (lo : Z) (r : R) : res (unit + R) :=
  for_up lo (nwords a) (fun i _ =>
    w ← rd (words a) i;
    if negb (w =? 0) then Ok (inr r) else Ok (inl tt)) tt.

Definition bms_compare (a b : option Bitmapset) : res Z :=
  match a, b with
  | None, _ => e ← bms_is_empty b; Ok (if e : bool then 0 else -1)
  | Some _, None => e ← bms_is_empty a; Ok (if e : bool then 0 else 1)
  | Some a, Some b =>
      let shortlen := Z.min (nwords a) (nwords b) in
      oa ← extra_words a shortlen 1;
      match oa with
      | inr r => Ok r
      | inl _ =>
          ob ← extra_words b shortlen (-1);
          match ob with
          | inr r => Ok r
          | inl _ =>
              loop_return (for_down (shortlen - 1) 0 (fun i _ =>
                aw ← rd (words a) i;
                bw ← rd (words b) i;
                if negb (aw =? bw) then Ok (inr (if bw <? aw then 1 else -1))
                else Ok (inl tt)) tt) 0
          end
      end
  end.

Definition bms_make_singleton (x : Z) : res (option Bitmapset) :=
  if x <? 0 then neg_member
  else
    let wordnum := WORDNUM x in
    let bitnum := BITNUM x in
    bit ← shl 64 1 bitnum;
    ws ← wr (replicate (Z.to_nat (wordnum + 1)) 0) wordnum bit;
    Ok (Some (mkBms ws)).

(** [for (i = 0; i < n; i++) dst->words[i] = f(dst->words[i], src->words[i])] *)
Definition combine_words (f : Z -> Z -> Z) (dst src : list Z) (n : Z) : res (list Z) :=
  loop_state (for_up 0 n (fun i dst =>
    d ← rd dst i;
    s ← rd src i;
    dst ← wr dst i (f d s);
    Ok (inl dst)) dst).

Definition bms_union (a b : option Bitmapset) : res (option Bitmapset) :=
  match a, b with
  | None, _ => Ok (bms_copy b)
  | _, None => Ok (bms_copy a)
  | Some a, Some b =>
      let '(result, other) := if nwords a <=? nwords b then (b, a) else (a, b) in
      ws ← combine_words Z.lor (words result) (words other) (nwords other);
      Ok (Some (mkBms ws))
  end.

Definition bms_intersect (a b : option Bitmapset) : res (option Bitmapset) :=
  match a, b with
  | None, _ | _, None => Ok None
  | Some a, Some b =>
      let '(result, other) := if nwords a <=? nwords b then (a, b) else (b, a) in
      ws ← combine_words Z.land (words result) (words other) (nwords result);
      Ok (Some (mkBms ws))
  end.

Definition and_not (x y : Z) : Z := Z.land x (bmw_not y).

Definition bms_difference (a b : option Bitmapset) : res (option Bitmapset) :=
  match a, b with
  | None, _ => Ok None
  | Some _, None => Ok (bms_copy a)
  | Some a, Some b =>
      let shortlen := Z.min (nwords a) (nwords b) in
      ws ← combine_words and_not (words a) (words b) shortlen;
      Ok (Some (mkBms ws))
  end.

Definition bms_is_subset (a b : option Bitmapset) : res bool :=
  match a, b with
  | None, _ => Ok true
  | Some _, None => bms_is_empty a
  | Some a, Some b =>
      let shortlen := Z.min (nwords a) (nwords b) in
      o ← for_up 0 shortlen (fun i _ =>
        aw ← rd (words a) i;
        bw ← rd (words b) i;
        if negb (and_not aw bw =? 0) then Ok (inr false) else Ok (inl tt)) tt;
      match o with
      | inr r => Ok r
      | inl _ =>
          if nwords b <? nwords a then loop_return (extra_words a shortlen false) true
          else Ok true
      end
  end.

(** One test of [bms_subset_compare]: [differs] says that one side has a bit
    the other lacks, which makes the result [now] or, after [seen], BMS_DIFFERENT. *)
Definition subset_step (differs : bool) (seen now result : BMS_Comparison)
  : BMS_Comparison + BMS_Comparison :=
  if differs
  then if decide (result = seen) then inr BMS_DIFFERENT else inl now
  else inl result.

Definition subset_extra (a : Bitmapset) (lo : Z) (seen now result : BMS_Comparison)
  : res BMS_Comparison :=
  o ← for_up lo (nwords a) (fun i result =>
    w ← rd (words a) i;
    Ok (subset_step (negb (w =? 0)) seen now result)) result;
  match o with inl r => Ok r | inr r => Ok r end.

Definition bms_subset_compare (a b : option Bitmapset) : res BMS_Comparison :=
  match a, b with
  | None, None => Ok BMS_EQUAL
  | None, Some _ => e ← bms_is_empty b; Ok (if e : bool then BMS_EQUAL else BMS_SUBSET1)
  | Some _, None => e ← bms_is_empty a; Ok (if e : bool then BMS_EQUAL else BMS_SUBSET2)
  | Some a, Some b =>
      let shortlen := Z.min (nwords a) (nwords b) in
      o ← for_up 0 shortlen (fun i result =>
        aword ← rd (words a) i;
        bword ← rd (words b) i;
        match subset_step (negb (and_not aword bword =? 0)) BMS_SUBSET1 BMS_SUBSET2 result with
        | inr r => Ok (inr r)
        | inl result =>
            Ok (subset_step (negb (and_not bword aword =? 0)) BMS_SUBSET2 BMS_SUBSET1 result)
        end) BMS_EQUAL;
      match o with
      | inr r => Ok r
      | inl result =>
          if nwords b <? nwords a
          then subset_extra a shortlen BMS_SUBSET1 BMS_SUBSET2 result
          else if nwords a <? nwords b
          then subset_extra b shortlen BMS_SUBSET2 BMS_SUBSET1 result
          else Ok result
      end
  end.

Definition bms_is_member (x : Z) (a : option Bitmapset) : res bool :=
  if x <? 0 then neg_member
  else match a with
  | None => Ok false
  | Some a =>
      let wordnum := WORDNUM x in
      let bitnum := BITNUM x in
      if nwords a <=? wordnum then Ok false
      else
        w ← rd (words a) wordnum;
        bit ← shl 64 1 bitnum;
        if negb (Z.land w bit =? 0) then Ok true else Ok false
  end.

(** [for (i = 0; i < n; i++) if (words[i] != 0) result += bmw_popcount(words[i]);] *)
Definition popcount_upto (a : Bitmapset) (n : Z) : res Z :=
  loop_state (for_up 0 n (fun i result =>
    w ← rd (words a) i;
    if negb (w =? 0) then c ← bmw_popcount w; Ok (inl (i32 (result + c)))
    else Ok (inl result)) 0).

Definition bms_member_index (a : option Bitmapset) (x : Z) : res Z :=
  m ← bms_is_member x a;
  if negb m then Ok (-1)
  else match a with
  | None => UB "null pointer"
  | Some a =>
      let wordnum := WORDNUM x in
      let bitnum := BITNUM x in
      result ← popcount_upto a wordnum;
      bit ← shl 64 1 bitnum;
      let mask := u64 (bit - 1) in
      w ← rd (words a) wordnum;
      c ← bmw_popcount (Z.land w mask);
      Ok (i32 (result + c))
  end.

Definition bms_overlap (a b : option Bitmapset) : res bool :=
  match a, b with
  | None, _ | _, None => Ok false
  | Some a, Some b =>
      let shortlen := Z.min (nwords a) (nwords b) in
      loop_return (for_up 0 shortlen (fun i _ =>
        aw ← rd (words a) i;
        bw ← rd (words b) i;
        if negb (Z.land aw bw =? 0) then Ok (inr true) else Ok (inl tt)) tt) false
  end.

(** [foreach(lc, b)] over an integer list *)
Fixpoint overlap_list_loop (a : Bitmapset) (b : list Z) : res bool :=
  match b with
  | [] => Ok false
  | x :: b' =>
      if x <? 0 then neg_member
      else
        let wordnum := WORDNUM x in
        let bitnum := BITNUM x in
        if wordnum <? nwords a
        then
          w ← rd (words a) wordnum;
          bit ← shl 64 1 bitnum;
          if negb (Z.land w bit =? 0) then Ok true else overlap_list_loop a b'
        else overlap_list_loop a b'
  end.

Definition bms_overlap_list (a : option Bitmapset) (b : list Z) : res bool :=
  match a, b with
  | None, _ | _, [] => Ok false
  | Some a, _ => overlap_list_loop a b
  end.

Definition bms_nonempty_difference (a b : option Bitmapset) : res bool :=
  match a, b with
  | None, _ => Ok false
  | Some _, None => e ← bms_is_empty a; Ok (negb e)
  | Some a, Some b =>
      let shortlen := Z.min (nwords a) (nwords b) in
      o ← for_up 0 shortlen (fun i _ =>
        aw ← rd (words a) i;
        bw ← rd (words b) i;
        if negb (and_not aw bw =? 0) then Ok (inr true) else Ok (inl tt)) tt;
      match o with
      | inr r => Ok r
      | inl _ => loop_return (extra_words a shortlen true) false
      end
  end.

(** The word loop of [bms_singleton_member] and [bms_get_singleton_member]:
    [inr tt] is the exit on a second member. *)
Definition singleton_loop (a : Bitmapset) : res (Z + unit) :=
  for_up 0 (nwords a) (fun wordnum result =>
    w ← rd (words a) wordnum;
    if negb (w =? 0) then
      if (0 <=? result) || HAS_MULTIPLE_ONES w then Ok (inr tt)
      else p ← bmw_rightmost_one_pos w;
           Ok (inl (i32 (i32 (wordnum * BITS_PER_BITMAPWORD) + p)))
    else Ok (inl result)) (-1).

Definition bms_singleton_member (a : option Bitmapset) : res Z :=
  match a with
  | None => Err "bitmapset is empty"
  | Some a =>
      o ← singleton_loop a;
      match o with
      | inr _ => Err "bitmapset has multiple members"
      | inl result => if result <? 0 then Err "bitmapset is empty" else Ok result
      end
  end.

(** [Some m]: returns true with *member = m; [None]: returns false. *)
Definition bms_get_singleton_member (a : option Bitmapset) : res (option Z) :=
  match a with
  | None => Ok None
  | Some a =>
      o ← singleton_loop a;
      match o with
      | inr _ => Ok None
      | inl result => if result <? 0 then Ok None else Ok (Some result)
      end
  end.

Definition bms_num_members (a : option Bitmapset) : res Z :=
  match a with
  | None => Ok 0
  | Some a => popcount_upto a (nwords a)
  end.

Definition bms_membership (a : option Bitmapset) : res BMS_Membership :=
  match a with
  | None => Ok BMS_EMPTY_SET
  | Some a =>
      o ← for_up 0 (nwords a) (fun wordnum result =>
        w ← rd (words a) wordnum;
        if negb (w =? 0) then
          if bool_decide (result <> BMS_EMPTY_SET) || HAS_MULTIPLE_ONES w
          then Ok (inr BMS_MULTIPLE) else Ok (inl BMS_SINGLETON)
        else Ok (inl result)) BMS_EMPTY_SET;
      match o with inl r => Ok r | inr r => Ok r end
  end.

(** [repalloc] to [n] words and the loop that zeroes the new ones *)
Definition enlarge (a : Bitmapset) (n : Z) : Bitmapset :=
  mkBms (words a ++ replicate (Z.to_nat (n - nwords a)) 0).

Definition bms_add_member (a : option Bitmapset) (x : Z) : res (option Bitmapset) :=
  if x <? 0 then neg_member
  else match a with
  | None => bms_make_singleton x
  | Some a =>
      let wordnum := WORDNUM x in
      let bitnum := BITNUM x in
      let a := if nwords a <=? wordnum then enlarge a (wordnum + 1) else a in
      w ← rd (words a) wordnum;
      bit ← shl 64 1 bitnum;
      ws ← wr (words a) wordnum (Z.lor w bit);
      Ok (Some (mkBms ws))
  end.

Definition bms_del_member (a : option Bitmapset) (x : Z) : res (option Bitmapset) :=
  if x <? 0 then neg_member
  else match a with
  | None => Ok None
  | Some a =>
      let wordnum := WORDNUM x in
      let bitnum := BITNUM x in
      if wordnum <? nwords a
      then
        w ← rd (words a) wordnum;
        bit ← shl 64 1 bitnum;
        ws ← wr (words a) wordnum (Z.land w (bmw_not bit));
        Ok (Some (mkBms ws))
      else Ok (Some a)
  end.

Definition bms_add_members (a b : option Bitmapset) : res (option Bitmapset) :=
  match a, b with
  | None, _ => Ok (bms_copy b)
  | Some _, None => Ok a
  | Some a, Some b =>
      let '(result, other) := if nwords a <? nwords b then (b, a) else (a, b) in
      ws ← combine_words Z.lor (words result) (words other) (nwords other);
      Ok (Some (mkBms ws))
  end.

Definition bms_add_range (a : option Bitmapset) (lower upper : Z) : res (option Bitmapset) :=
  if upper <? lower then Ok a
  else if lower <? 0 then neg_member
  else
    let uwordnum := WORDNUM upper in
    let a :=
      match a with
      | None => mkBms (replicate (Z.to_nat (uwordnum + 1)) 0)
      | Some a => if nwords a <=? uwordnum then enlarge a (uwordnum + 1) else a
      end in
    let lwordnum := WORDNUM lower in
    let lbitnum := BITNUM lower in
    let ushiftbits := BITS_PER_BITMAPWORD - (BITNUM upper + 1) in
    lbit ← shl 64 1 lbitnum;
    let lmask := bmw_not (u64 (lbit - 1)) in
    umask ← shr 64 (bmw_not 0) ushiftbits;
    if lwordnum =? uwordnum
    then
      w ← rd (words a) lwordnum;
      ws ← wr (words a) lwordnum (Z.lor w (Z.land lmask umask));
      Ok (Some (mkBms ws))
    else
      w ← rd (words a) lwordnum;
      ws ← wr (words a) lwordnum (Z.lor w lmask);
      ws ← loop_state (for_up (lwordnum + 1) uwordnum (fun wordnum ws =>
             ws ← wr ws wordnum (bmw_not 0); Ok (inl ws)) ws);
      u ← rd ws uwordnum;
      ws ← wr ws uwordnum (Z.lor u umask);
      Ok (Some (mkBms ws)).

Definition bms_int_members (a b : option Bitmapset) : res (option Bitmapset) :=
  match a, b with
  | None, _ => Ok None
  | Some _, None => Ok None
  | Some a, Some b =>
      let shortlen := Z.min (nwords a) (nwords b) in
      ws ← combine_words Z.land (words a) (words b) shortlen;
      ws ← loop_state (for_up shortlen (nwords a) (fun i ws =>
             ws ← wr ws i 0; Ok (inl ws)) ws);
      Ok (Some (mkBms ws))
  end.

Definition bms_del_members (a b : option Bitmapset) : res (option Bitmapset) :=
  match a, b with
  | None, _ => Ok None
  | Some _, None => Ok a
  | Some a, Some b =>
      let shortlen := Z.min (nwords a) (nwords b) in
      ws ← combine_words and_not (words a) (words b) shortlen;
      Ok (Some (mkBms ws))
  end.

Definition bms_join (a b : option Bitmapset) : res (option Bitmapset) :=
  match a, b with
  | None, _ => Ok b
  | Some _, None => Ok a
  | Some a, Some b =>
      let '(result, other) := if nwords a <? nwords b then (b, a) else (a, b) in
      ws ← combine_words Z.lor (words result) (words other) (nwords other);
      Ok (Some (mkBms ws))
  end.

(** The result and the set it leaves. *)
Definition bms_first_member (a : option Bitmapset) : res (Z * option Bitmapset) :=
  match a with
  | None => Ok (-1, None)
  | Some a =>
      loop_return (for_up 0 (nwords a) (fun wordnum _ =>
        w ← rd (words a) wordnum;
        if negb (w =? 0) then
          let w1 := RIGHTMOST_ONE w in
          ws ← wr (words a) wordnum (Z.land w (bmw_not w1));
          p ← bmw_rightmost_one_pos w1;
          Ok (inr (i32 (i32 (wordnum * BITS_PER_BITMAPWORD) + p), Some (mkBms ws)))
        else Ok (inl tt)) tt) (-1, Some a)
  end.

Definition bms_next_member (a : option Bitmapset) (prevbit : Z) : res Z :=
  match a with
  | None => Ok (-2)
  | Some a =>
      let prevbit := i32 (prevbit + 1) in
      mask ← shl 64 (bmw_not 0) (BITNUM prevbit);
      o ← for_up (WORDNUM prevbit) (nwords a) (fun wordnum mask =>
        w ← rd (words a) wordnum;
        let w := Z.land w mask in
        if negb (w =? 0) then
          p ← bmw_rightmost_one_pos w;
          Ok (inr (i32 (i32 (wordnum * BITS_PER_BITMAPWORD) + p)))
        else Ok (inl (bmw_not 0))) mask;
      match o with inl _ => Ok (-2) | inr r => Ok r end
  end.

Definition bms_prev_member (a : option Bitmapset) (prevbit : Z) : res Z :=
  match a with
  | None => Ok (-2)
  | Some a =>
      if prevbit =? 0 then Ok (-2)
      else
        let prevbit :=
          if prevbit =? -1 then i32 (i32 (nwords a * BITS_PER_BITMAPWORD) - 1)
          else i32 (prevbit - 1) in
        let ushiftbits := BITS_PER_BITMAPWORD - (BITNUM prevbit + 1) in
        mask ← shr 64 (bmw_not 0) ushiftbits;
        o ← for_down (WORDNUM prevbit) 0 (fun wordnum mask =>
          w ← rd (words a) wordnum;
          let w := Z.land w mask in
          if negb (w =? 0) then
            p ← bmw_leftmost_one_pos w;
            Ok (inr (i32 (i32 (wordnum * BITS_PER_BITMAPWORD) + p)))
          else Ok (inl (bmw_not 0))) mask;
        match o with inl _ => Ok (-2) | inr r => Ok r end
  end.

(** [hash_any] (src/common/hashfn.c) is a parameter: a function of the words
    passed to it. *)
Definition bms_hash_value (hash_any : list Z -> Z) (a : option Bitmapset) : res Z :=
  match a with
  | None => Ok 0
  | Some a =>
      o ← for_down (nwords a - 1) 0 (fun lastword _ =>
        w ← rd (words a) lastword;
        if negb (w =? 0) then Ok (inr lastword) else Ok (inl tt)) tt;
      match o with
      | inl _ => Ok 0
      | inr lastword => Ok (hash_any (take (Z.to_nat (lastword + 1)) (words a)))
      end
  end.

Definition bitmap_hash (hash_any : list Z -> Z) (key : option Bitmapset) : res Z :=
  bms_hash_value hash_any key.

Definition bitmap_match (key1 key2 : option Bitmapset) : res bool :=
  e ← bms_equal key1 key2; Ok (negb e).
