(* ===== verification/BitmapsetVal.v ===== *)
(** * Bitmap sets: values and set-building operations

    The integer value of a set, the facts on single words, and for each
    operation of Bitmapset.v that builds a set the value it returns. *)
From S2P Require Import Prelude.
From S2P Require Import BitUtils.
From S2P Require Import Bitmapset.

(** * The abstract value *)
Definition MAX_WORDS : Z := 2 ^ 25.

Definition word_ok (w : Z) : Prop := 0 <= w < 2 ^ 64.

(** A set's words are bitmapwords and its members are C [int]s. *)
Definition bms_wf (a : Bitmapset) : Prop :=
  Forall word_ok (words a) /\ 1 <= nwords a <= MAX_WORDS.

Definition bms_ok (a : option Bitmapset) : Prop :=
  match a with None => True | Some a => bms_wf a end.

Fixpoint words_val (ws : list Z) : Z :=
  match ws with
  | [] => 0
  | w :: ws' => w + 2 ^ 64 * words_val ws'
  end.

(** The set as one integer: bit [x] is set when [x] is a member. *)
Definition bms_val (a : option Bitmapset) : Z :=
  match a with None => 0 | Some a => words_val (words a) end.

(** Two representations of one set. *)
Definition bms_same (a b : option Bitmapset) : Prop := bms_val a = bms_val b.

#[export] Instance bms_same_equiv : Equivalence bms_same.
Proof. unfold bms_same; split; [intros ?|intros ? ?|intros ? ? ?]; congruence. Qed.

(** * Lemmas on the value *)
Lemma word_ok_0 : word_ok 0.
Proof. done. Qed.

Lemma words_val_nonneg ws : Forall word_ok ws -> 0 <= words_val ws.
Proof. induction 1 as [|w ws [? ?] _ IH]; simpl; lia. Qed.

Lemma words_val_bits ws x :
  Forall word_ok ws -> 0 <= x ->
  Z.testbit (words_val ws) x = Z.testbit (getd 0 ws (x / 64)) (x mod 64).
Proof.
  intros H; revert x; induction H as [|w ws Hw Hws IH]; intros x Hx; cbn [words_val].
  - unfold getd. rewrite lookup_nil. simpl. by rewrite !Z.bits_0.
  - pose proof (words_val_nonneg ws Hws) as Hv. unfold word_ok in Hw.
    assert (Hsum : w + 2 ^ 64 * words_val ws = Z.lor w (Z.shiftl (words_val ws) 64)).
    { rewrite Z.shiftl_mul_pow2 by lia. rewrite (Z.mul_comm (words_val ws)).
      rewrite <- Z.lxor_lor, <- Z.add_nocarry_lxor; [done|..].
      all: apply Z.bits_inj'; intros i Hi; rewrite Z.land_spec, Z.bits_0.
      all: destruct (Z.lt_ge_cases i 64) as [?|?].
      1,3: rewrite Z.mul_comm, Z.mul_pow2_bits_low by lia; apply andb_false_r.
      all: rewrite (testbit_high w 64) by lia; done. }
    rewrite Hsum, Z.lor_spec. destruct (Z.lt_ge_cases x 64) as [Hlt|Hge].
    + rewrite Z.shiftl_spec_low, orb_false_r by lia.
      rewrite Z.div_small, Z.mod_small by lia. done.
    + rewrite (testbit_high w 64) by lia. rewrite Z.shiftl_spec by lia. simpl.
      rewrite IH by lia.
      replace (x / 64) with (1 + (x - 64) / 64)
        by (replace x with ((x - 64) + 1 * 64) at 2 by lia; rewrite Z.div_add by lia; lia).
      replace (x mod 64) with ((x - 64) mod 64)
        by (replace x with ((x - 64) + 1 * 64) at 2 by lia; rewrite Z.mod_add by lia; done).
      f_equal. unfold getd.
      pose proof (Z.div_pos (x - 64) 64).
      replace (Z.to_nat (1 + (x - 64) / 64)) with (S (Z.to_nat ((x - 64) / 64))) by lia. done.
Qed.

Lemma words_val_ext ws vs :
  Forall word_ok ws -> Forall word_ok vs ->
  (words_val ws = words_val vs <-> forall j, 0 <= j -> getd 0 ws j = getd 0 vs j).
Proof.
  intros Hw Hv. split.
  - intros Heq j Hj. apply Z.bits_inj'. intros i Hi.
    destruct (Z.lt_ge_cases i 64) as [Hlt|Hge].
    + pose proof (f_equal (fun v => Z.testbit v (64 * j + i)) Heq) as Hb. simpl in Hb.
      rewrite !words_val_bits in Hb by (done || lia).
      replace ((64 * j + i) / 64) with j in Hb by (apply (Z.div_unique_pos _ _ _ i); lia).
      replace ((64 * j + i) mod 64) with i in Hb by (apply (Z.mod_unique_pos _ _ j); lia).
      done.
    + rewrite !(testbit_high _ 64); [done|..]; try lia; by apply getd_Forall.
  - intros H. apply Z.bits_inj'. intros i Hi. rewrite !words_val_bits by done.
    rewrite H; [done|apply Z.div_pos; lia].
Qed.

Lemma words_val_zero ws :
  Forall word_ok ws -> (words_val ws = 0 <-> forall j, 0 <= j < len ws -> getd 0 ws j = 0).
Proof.
  intros Hw. change 0 with (words_val []) at 1. rewrite words_val_ext by done.
  assert (Hnil : forall j, getd 0 (@nil Z) j = 0) by (intros j; unfold getd; by rewrite lookup_nil).
  split; intros H j Hj; [by rewrite H, Hnil by lia|]. rewrite Hnil.
  destruct (Z.lt_ge_cases j (len ws)); [apply H; lia|by apply getd_ge].
Qed.

(** The value of words that are pointwise a bit operation of others' bits. *)
Lemma words_val_bitop (f : bool -> bool -> bool) ws vs us v :
  Forall word_ok ws -> Forall word_ok vs -> Forall word_ok us ->
  (forall j i, 0 <= j -> 0 <= i < 64 ->
     Z.testbit (getd 0 us j) i = f (Z.testbit (getd 0 ws j) i) (Z.testbit (getd 0 vs j) i)) ->
  (forall i, 0 <= i -> Z.testbit v i = f (Z.testbit (words_val ws) i) (Z.testbit (words_val vs) i)) ->
  words_val us = v.
Proof.
  intros Hw Hv Hu Hbit Hres. apply Z.bits_inj'. intros i Hi.
  rewrite Hres, !words_val_bits, Hbit by (try done; try apply Z.div_pos; try apply Z.mod_pos_bound; lia).
  done.
Qed.

Lemma words_val_lt ws : Forall word_ok ws -> words_val ws < 2 ^ (64 * len ws).
Proof.
  induction 1 as [|w ws Hw Hws IH]; [done|]. cbn [words_val]. rewrite len_cons.
  replace (64 * (1 + len ws)) with (64 + 64 * len ws) by lia.
  pose proof (len_nonneg ws). rewrite Z.pow_add_r by lia. unfold word_ok in Hw. nia.
Qed.

(** * Lemmas on words *)
Lemma bmw_not_ok w : word_ok (bmw_not w).
Proof. apply u64_range. Qed.

Lemma bmw_not_bits w i : 0 <= i < 64 -> Z.testbit (bmw_not w) i = negb (Z.testbit w i).
Proof.
  intros Hi. unfold bmw_not, u64. rewrite Z.mod_pow2_bits_low by lia. apply Z.lnot_spec; lia.
Qed.

Lemma word_bits_range w : 0 <= w -> (forall i, 64 <= i -> Z.testbit w i = false) -> word_ok w.
Proof. intros; apply bits_range; [lia|done|done]. Qed.

Lemma word_ok_high w i : word_ok w -> 64 <= i -> Z.testbit w i = false.
Proof. intros. apply (testbit_high w 64); [done|lia]. Qed.

Lemma lor_ok a b : word_ok a -> word_ok b -> word_ok (Z.lor a b).
Proof.
  intros Ha Hb. apply word_bits_range; [apply Z.lor_nonneg; unfold word_ok in *; lia|].
  intros i Hi. rewrite Z.lor_spec, !word_ok_high by done. done.
Qed.

Lemma land_ok a b : word_ok a -> 0 <= b -> word_ok (Z.land a b).
Proof.
  intros Ha Hb. apply word_bits_range; [apply Z.land_nonneg; unfold word_ok in *; lia|].
  intros i Hi. rewrite Z.land_spec, word_ok_high by done. done.
Qed.

Lemma and_not_ok a b : word_ok a -> word_ok (and_not a b).
Proof. intros. apply land_ok; [done|apply bmw_not_ok]. Qed.

Lemma and_not_bits a b i :
  0 <= i < 64 -> Z.testbit (and_not a b) i = Z.testbit a i && negb (Z.testbit b i).
Proof. intros. unfold and_not. by rewrite Z.land_spec, bmw_not_bits. Qed.

(** [a & ~b] is zero when every bit of [a] is one of [b]. *)
Lemma and_not_zero a b :
  word_ok a ->
  (and_not a b = 0 <-> forall i, 0 <= i < 64 -> Z.testbit a i = true -> Z.testbit b i = true).
Proof.
  intros Ha. pose proof (and_not_ok a b Ha) as Ho.
  rewrite zero_testbit by (unfold word_ok in Ho; lia). split.
  - intros H i Hi Hai. specialize (H i). rewrite and_not_bits, Hai in H by done.
    destruct (Z.testbit b i); [done|]. discriminate H; lia.
  - intros H i Hi. destruct (Z.lt_ge_cases i 64); [|by apply word_ok_high].
    rewrite and_not_bits by lia. destruct (Z.testbit a i) eqn:E; [|done].
    by rewrite H.
Qed.

Lemma land_zero a b :
  word_ok a -> 0 <= b ->
  (Z.land a b = 0 <-> forall i, 0 <= i < 64 -> Z.testbit a i = true -> Z.testbit b i = false).
Proof.
  intros Ha Hb. pose proof (land_ok a b Ha Hb) as Ho.
  rewrite zero_testbit by (unfold word_ok in Ho; lia). split.
  - intros H i Hi Hai. specialize (H i). rewrite Z.land_spec, Hai in H. apply H; lia.
  - intros H i Hi. destruct (Z.lt_ge_cases i 64); [|by apply word_ok_high].
    rewrite Z.land_spec. destruct (Z.testbit a i) eqn:E; [|done]. simpl. apply H; [lia|done].
Qed.

Lemma one_shl b : 0 <= b < 64 -> Z.shiftl 1 b mod 2 ^ 64 = 2 ^ b.
Proof.
  intros Hb. rewrite Z.shiftl_1_l. apply Z.mod_small.
  split; [apply Z.pow_nonneg; lia|apply Z.pow_lt_mono_r; lia].
Qed.

Lemma pow2_ok b : 0 <= b < 64 -> word_ok (2 ^ b).
Proof. split; [apply Z.pow_nonneg; lia|apply Z.pow_lt_mono_r; lia]. Qed.

Lemma land_pow2 w b : word_ok w -> 0 <= b < 64 -> negb (Z.land w (2 ^ b) =? 0) = Z.testbit w b.
Proof.
  intros Hw Hb. assert (Hp : 0 <= 2 ^ b) by (apply Z.pow_nonneg; lia).
  destruct (Z.eqb_spec (Z.land w (2 ^ b)) 0) as [H|H]; simpl.
  - rewrite land_zero in H by done.
    specialize (H b Hb). rewrite Z.pow2_bits_true in H by lia.
    destruct (Z.testbit w b); [|done]. discriminate H; done.
  - destruct (Z.testbit w b) eqn:E; [done|]. exfalso; apply H.
    apply land_zero; [done|apply Z.pow_nonneg; lia|].
    intros i Hi Hwi. rewrite Z.pow2_bits_eqb by lia. apply Z.eqb_neq. congruence.
Qed.

Lemma WORDNUM_div x : 0 <= x -> WORDNUM x = x / 64.
Proof. intros. apply Z.quot_div_nonneg; [done|by vm_compute]. Qed.

Lemma BITNUM_mod x : 0 <= x -> BITNUM x = x mod 64.
Proof. intros. apply Z.rem_mod_nonneg; [done|by vm_compute]. Qed.

Lemma BITNUM_range x : 0 <= x -> 0 <= BITNUM x < 64.
Proof. intros. rewrite BITNUM_mod by done. apply Z.mod_pos_bound. lia. Qed.

Lemma i64_bits z i : 0 <= i < 64 -> Z.testbit (i64 z) i = Z.testbit z i.
Proof.
  intros Hi. unfold i64.
  rewrite <- (Z.mod_pow2_bits_low _ 64) by lia.
  rewrite <- (Z.mod_pow2_bits_low z 64) by lia. f_equal.
  rewrite Zminus_mod_idemp_l. f_equal. lia.
Qed.

Lemma mod64_opp_bits z y i :
  0 <= i < 64 -> z mod 2 ^ 64 = y mod 2 ^ 64 -> Z.testbit (- z) i = Z.testbit (- y) i.
Proof.
  intros Hi H. rewrite <- (Z.mod_pow2_bits_low (- z) 64), <- (Z.mod_pow2_bits_low (- y) 64) by lia.
  f_equal. rewrite <- (Z.sub_0_l z), <- (Z.sub_0_l y).
  rewrite <- (Zminus_mod_idemp_r 0 z), <- (Zminus_mod_idemp_r 0 y). by rewrite H.
Qed.

Lemma i64_mod z : i64 z mod 2 ^ 64 = z mod 2 ^ 64.
Proof. unfold i64. rewrite Zminus_mod_idemp_l. f_equal. lia. Qed.

Lemma RIGHTMOST_ONE_bits w i :
  0 <= i < 64 -> Z.testbit (RIGHTMOST_ONE w) i = Z.testbit w i && Z.testbit (- w) i.
Proof.
  intros Hi. unfold RIGHTMOST_ONE, u64. rewrite Z.mod_pow2_bits_low by lia.
  rewrite Z.land_spec, !i64_bits by done. f_equal.
  apply mod64_opp_bits; [done|apply i64_mod].
Qed.

Lemma RIGHTMOST_ONE_spec w r :
  word_ok w -> lowest_bit w r -> r < 64 -> RIGHTMOST_ONE w = 2 ^ r.
Proof.
  intros Hw Hlow Hr. pose proof Hlow as (H0 & Hbit & Hz).
  apply Z.bits_inj'. intros i Hi. rewrite Z.pow2_bits_eqb by lia.
  destruct (Z.lt_ge_cases i 64) as [Hlt|Hge].
  - rewrite RIGHTMOST_ONE_bits by lia. rewrite Z.bits_opp by lia.
    rewrite (pred_bits w r) by (done || unfold word_ok in Hw; lia).
    destruct (Z.ltb_spec i r); [rewrite Hz by lia; simpl; symmetry; apply Z.eqb_neq; lia|].
    destruct (Z.eqb_spec i r) as [->|Hne]; [by rewrite Hbit, Z.eqb_refl|].
    rewrite andb_negb_r. symmetry. apply Z.eqb_neq. lia.
  - rewrite word_ok_high; [|apply u64_range|done]. symmetry. apply Z.eqb_neq. lia.
Qed.

(** * The operations *)
Section Ops.
Implicit Types a b : Bitmapset.
Implicit Types oa ob : option Bitmapset.

Lemma bms_is_empty_val oa : bms_ok oa -> bms_is_empty oa = Ok (bms_val oa =? 0).
Proof.
destruct oa as [a|]; [|done]. intros [Hw Hn]. unfold nwords in *.
apply wp_eq. unfold bms_is_empty. wp_step.
apply (wp_find_up (fun i => negb (getd 0 (words a) i =? 0)) (fun _ => false)).
- intros i Hi. unfold nwords in Hi. wp_steps. by destruct (negb _).
- intros H. symmetry. apply Z.eqb_eq. simpl. apply words_val_zero; [done|].
  intros j Hj. apply H in Hj. by apply negb_false_iff, Z.eqb_eq in Hj.
- intros i Hi Ht _. symmetry. apply Z.eqb_neq. simpl. intros Hz.
  rewrite words_val_zero in Hz by done. rewrite Hz in Ht by done. done.
Qed.

(** The loop over the words of [a] beyond [lo]. *)
Lemma wp_extra_words {R} a lo (r : R) (Q : unit + R -> Prop) :
0 <= lo ->
((forall j, lo <= j -> getd 0 (words a) j = 0) -> Q (inl tt)) ->
(forall j, lo <= j < nwords a -> getd 0 (words a) j <> 0 -> Q (inr r)) ->
wp (extra_words a lo r) Q.
Proof.
intros Hlo Hz Hnz. unfold extra_words.
apply (wp_find_up (fun i => negb (getd 0 (words a) i =? 0)) (fun _ => r)).
- intros i Hi. unfold nwords in Hi. wp_steps. by destruct (negb _).
- intros H. apply Hz. intros j Hj. destruct (Z.lt_ge_cases j (nwords a)).
  + specialize (H j). rewrite negb_false_iff, Z.eqb_eq in H. apply H; lia.
  + by apply getd_ge.
- intros i Hi Ht _. apply (Hnz i Hi). by apply negb_true_iff, Z.eqb_neq in Ht.
Qed.

Lemma bms_equal_words a b :
bms_wf a -> bms_wf b -> nwords a <= nwords b ->
wp (o ← for_up 0 (nwords a) (fun i _ =>
      sw ← rd (words a) i;
      lw ← rd (words b) i;
      if negb (sw =? lw) then Ok (inr false) else Ok (inl tt)) tt;
    match o with
    | inr r => Ok r
    | inl _ =>
        loop_return (for_up (nwords a) (nwords b) (fun i _ =>
          lw ← rd (words b) i;
          if negb (lw =? 0) then Ok (inr false) else Ok (inl tt)) tt) true
    end) (fun v => v = (words_val (words a) =? words_val (words b))).
Proof.
intros [Ha Hna] [Hb Hnb] Hle. wp_step.
apply (wp_find_up (fun i => negb (getd 0 (words a) i =? getd 0 (words b) i)) (fun _ => false)).
- intros i Hi. unfold nwords in *. wp_steps. by destruct (negb _).
- intros H. wp_step. fold (@extra_words bool b (nwords a) false).
  apply wp_extra_words; [lia|..].
  + intros Hx. symmetry. apply Z.eqb_eq, words_val_ext; [done..|]. intros j Hj.
    destruct (Z.lt_ge_cases j (nwords a)) as [Hlt|Hge].
    * specialize (H j). rewrite negb_false_iff, Z.eqb_eq in H. apply H; lia.
    * by rewrite Hx, getd_ge.
  + intros j Hj Hnz. symmetry. apply Z.eqb_neq. rewrite words_val_ext by done.
    intros Heq. apply Hnz. rewrite <- Heq by lia. apply getd_ge. unfold nwords in *; lia.
- intros i Hi Ht _. wp_step. symmetry. apply Z.eqb_neq.
  rewrite words_val_ext by done. intros Heq.
  rewrite Heq, Z.eqb_refl in Ht by lia. done.
Qed.

Lemma bms_equal_val oa ob :
bms_ok oa -> bms_ok ob -> bms_equal oa ob = Ok (bms_val oa =? bms_val ob).
Proof.
destruct oa as [a|], ob as [b|]; intros Ha Hb; [|..|done].
- apply wp_eq. unfold bms_equal. destruct (Z.leb_spec (nwords a) (nwords b)).
  + by apply bms_equal_words.
  + rewrite Z.eqb_sym. apply bms_equal_words; [done..|lia].
- unfold bms_equal. by rewrite bms_is_empty_val.
- unfold bms_equal. rewrite bms_is_empty_val by done. by rewrite Z.eqb_sym.
Qed.

(** ** Comparison *)
Lemma words_val_shiftr ws i :
Forall word_ok ws -> 0 <= i ->
words_val ws / 2 ^ (64 * i) = getd 0 ws i + 2 ^ 64 * (words_val ws / 2 ^ (64 * (i + 1))).
Proof.
intros Hw Hi. pose proof (words_val_nonneg ws Hw) as Hv.
assert (Hg : word_ok (getd 0 ws i)) by (by apply getd_Forall).
assert (Hlow : words_val ws / 2 ^ (64 * i) mod 2 ^ 64 = getd 0 ws i).
{ apply Z.bits_inj'. intros j Hj. destruct (Z.lt_ge_cases j 64).
  - rewrite Z.mod_pow2_bits_low, Z.div_pow2_bits, words_val_bits by (done || lia).
    replace ((j + 64 * i) / 64) with i by (apply (Z.div_unique_pos _ _ _ j); lia).
    by replace ((j + 64 * i) mod 64) with j by (apply (Z.mod_unique_pos _ _ i); lia).
  - rewrite Z.mod_pow2_bits_high by lia. by rewrite word_ok_high. }
replace (64 * (i + 1)) with (64 * i + 64) by lia.
rewrite Z.pow_add_r, <- Z.div_div by lia.
pose proof (Z.div_mod (words_val ws / 2 ^ (64 * i)) (2 ^ 64)). lia.
Qed.

Lemma words_val_top ws vs i :
Forall word_ok ws -> Forall word_ok vs -> 0 <= i ->
(forall j, i < j -> getd 0 ws j = getd 0 vs j) ->
getd 0 ws i < getd 0 vs i -> words_val ws < words_val vs.
Proof.
intros Hw Hv Hi Heq Hlt.
assert (Htop : words_val ws / 2 ^ (64 * (i + 1)) = words_val vs / 2 ^ (64 * (i + 1))).
{ apply Z.bits_inj'. intros j Hj. rewrite !Z.div_pow2_bits, !words_val_bits by (done || lia).
  rewrite Heq; [done|]. apply Z.le_succ_l, Z.div_le_lower_bound; lia. }
apply Z.nle_gt. intros Hle.
assert (Hdiv : words_val vs / 2 ^ (64 * i) <= words_val ws / 2 ^ (64 * i)).
{ apply Z.div_le_mono; [apply Z.pow_pos_nonneg; lia|done]. }
rewrite (words_val_shiftr ws i), (words_val_shiftr vs i), Htop in Hdiv by done. lia.
Qed.

(** A nonzero word at [i] makes the value at least [2 ^ (64 * i)]. *)
Lemma words_val_ge ws i :
Forall word_ok ws -> 0 <= i -> getd 0 ws i <> 0 -> 2 ^ (64 * i) <= words_val ws.
Proof.
intros Hw Hi Hnz. pose proof (words_val_nonneg ws Hw).
assert (Hg : word_ok (getd 0 ws i)) by (by apply getd_Forall). unfold word_ok in Hg.
pose proof (words_val_shiftr ws i Hw Hi) as Hs.
pose proof (Z.pow_pos_nonneg 2 (64 * i)). pose proof (Z.pow_pos_nonneg 2 (64 * (i + 1))).
pose proof (Z.div_pos (words_val ws) (2 ^ (64 * (i + 1)))).
apply Z.nlt_ge. intros Hlt. rewrite Z.div_small in Hs by lia. lia.
Qed.

(** A set longer than the other in nonzero words is the larger one. *)
Lemma words_val_longer ws vs n j :
Forall word_ok ws -> Forall word_ok vs ->
len ws <= n -> n <= j -> getd 0 vs j <> 0 -> words_val ws < words_val vs.
Proof.
intros Hw Hv Hn Hj Hnz. pose proof (len_nonneg ws).
apply Z.lt_le_trans with (2 ^ (64 * len ws)); [by apply words_val_lt|].
apply Z.le_trans with (2 ^ (64 * j)); [apply Z.pow_le_mono_r; lia|].
apply words_val_ge; [done|lia|done].
Qed.

Definition sign_of (c : comparison) : Z := match c with Lt => -1 | Eq => 0 | Gt => 1 end.

Lemma sign_lt x y : x < y -> sign_of (x ?= y) = -1.
Proof. intros H. apply Z.compare_lt_iff in H. by rewrite H. Qed.

Lemma sign_gt x y : y < x -> sign_of (x ?= y) = 1.
Proof. intros H. apply Z.lt_gt in H. unfold Z.gt in H. by rewrite H. Qed.

Lemma bms_val_nonneg oa : bms_ok oa -> 0 <= bms_val oa.
Proof. destruct oa; [|done]. intros [H _]. by apply words_val_nonneg. Qed.

Lemma bms_compare_val oa ob :
bms_ok oa -> bms_ok ob -> bms_compare oa ob = Ok (sign_of (bms_val oa ?= bms_val ob)).
Proof.
intros Hoa Hob. pose proof (bms_val_nonneg _ Hoa) as Hpa. pose proof (bms_val_nonneg _ Hob) as Hpb.
destruct oa as [a|].
2: { unfold bms_compare. rewrite bms_is_empty_val by done. cbn [mbind res_bind]. f_equal.
  change (bms_val None) with 0. destruct (Z.eqb_spec (bms_val ob) 0) as [->|Hne]; [done|].
  rewrite sign_lt; [done|lia]. }
destruct ob as [b|].
2: { unfold bms_compare. rewrite bms_is_empty_val by done. cbn [mbind res_bind]. f_equal.
  change (bms_val None) with 0. destruct (Z.eqb_spec (bms_val (Some a)) 0) as [->|Hne]; [done|].
  rewrite sign_gt; [done|lia]. }
destruct Hoa as [Ha Hna], Hob as [Hb Hnb].
apply wp_eq. unfold bms_compare. simpl bms_val.
wp_step. apply wp_extra_words; [lia|..].
2: { intros j Hj Hnz. simpl.
  assert (words_val (words b) < words_val (words a)).
  { apply (words_val_longer _ _ (nwords b) j); [done|done|unfold nwords; lia|lia|done]. }
  by rewrite sign_gt. }
intros Hza. wp_step. apply wp_extra_words; [lia|..].
2: { intros j Hj Hnz. simpl.
  assert (words_val (words a) < words_val (words b)).
  { apply (words_val_longer _ _ (nwords a) j); [done|done|unfold nwords; lia|lia|done]. }
  by rewrite sign_lt. }
intros Hzb. wp_step.
apply (wp_find_down (fun i => negb (getd 0 (words a) i =? getd 0 (words b) i))
  (fun i => if getd 0 (words b) i <? getd 0 (words a) i then 1 else -1)).
- intros i Hi. unfold nwords in *. wp_steps. by destruct (negb _).
- intros H. assert (words_val (words a) = words_val (words b)) as ->.
  { apply words_val_ext; [done..|]. intros j Hj.
    destruct (Z.lt_ge_cases j (Z.min (nwords a) (nwords b))) as [Hlt|Hge].
    - specialize (H j). rewrite negb_false_iff, Z.eqb_eq in H. apply H; lia.
    - by rewrite Hza, Hzb. }
  by rewrite Z.compare_refl.
- intros i Hi Ht Hprev. apply negb_true_iff, Z.eqb_neq in Ht.
  assert (Hup : forall j, i < j -> getd 0 (words a) j = getd 0 (words b) j).
  { intros j Hj. destruct (Z.lt_ge_cases j (Z.min (nwords a) (nwords b))) as [Hlt|Hge].
    - specialize (Hprev j). rewrite negb_false_iff, Z.eqb_eq in Hprev. apply Hprev; lia.
    - by rewrite Hza, Hzb. }
  destruct (Z.ltb_spec (getd 0 (words b) i) (getd 0 (words a) i)) as [Hlt|Hge].
  + assert (words_val (words b) < words_val (words a)).
    { apply (words_val_top _ _ i); [done..|lia| |done]. intros j Hj. by rewrite Hup. }
    by rewrite sign_gt.
  + assert (words_val (words a) < words_val (words b)).
    { apply (words_val_top _ _ i); [done..|lia|done|lia]. }
    by rewrite sign_lt.
Qed.

(** ** Operations that build a set *)

(** The operation returns a well-formed set of the value [v]. *)
Definition returns_set (m : res (option Bitmapset)) (v : Z) : Prop :=
exists oa, m = Ok oa /\ bms_ok oa /\ bms_val oa = v.

Lemma returns_set_wp m v : wp m (fun oa => bms_ok oa /\ bms_val oa = v) -> returns_set m v.
Proof. rewrite wp_ok. intros (oa & ? & ? & ?). by exists oa. Qed.

Lemma bms_copy_val oa : bms_copy oa = oa.
Proof. by destruct oa as [[ws]|]. Qed.

Lemma wp_combine f dst src n (Q : list Z -> Prop) :
0 <= n <= len dst -> n <= len src ->
(forall ws, len ws = len dst ->
   (forall j, 0 <= j -> getd 0 ws j =
      if j <? n then f (getd 0 dst j) (getd 0 src j) else getd 0 dst j) -> Q ws) ->
wp (combine_words f dst src n) Q.
Proof.
intros Hn Hs HQ.
apply (wp_map_up 0 (fun i d => f d (getd 0 src i))); [lia|lia|..].
- intros i l' Hi Hlen Hget. wp_steps. by rewrite Hget.
- intros ws Hlen Hget. apply HQ; [done|]. intros j Hj. rewrite Hget by done.
  by destruct (Z.leb_spec 0 j); [|lia].
Qed.

(** A word-by-word combination of two sets has the combined value. *)
Lemma combine_set (f : Z -> Z -> Z) (fb : bool -> bool -> bool) (v : Z) a b n :
bms_wf a -> Forall word_ok (words b) -> 0 <= n <= nwords a -> n <= nwords b ->
(forall x y, word_ok x -> word_ok y -> word_ok (f x y)) ->
(forall x y i, 0 <= i < 64 -> Z.testbit (f x y) i = fb (Z.testbit x i) (Z.testbit y i)) ->
(forall j, n <= j -> forall i, 0 <= i < 64 ->
   Z.testbit (getd 0 (words a) j) i =
   fb (Z.testbit (getd 0 (words a) j) i) (Z.testbit (getd 0 (words b) j) i)) ->
(forall i, 0 <= i -> Z.testbit v i =
   fb (Z.testbit (words_val (words a)) i) (Z.testbit (words_val (words b)) i)) ->
wp (ws ← combine_words f (words a) (words b) n; Ok (Some (mkBms ws)))
   (fun oa => bms_ok oa /\ bms_val oa = v).
Proof.
intros [Ha Hna] Hb Hn1 Hn2 Hok Hbit Hrest Hv. wp_step.
apply wp_combine; [unfold nwords in *; lia..|]. intros ws Hlen Hget.
assert (Hws : Forall word_ok ws).
{ apply (Forall_getd _ 0). intros i Hi. rewrite Hget by lia.
  assert (word_ok (getd 0 (words a) i)) by (by apply getd_Forall).
  assert (word_ok (getd 0 (words b) i)) by (by apply getd_Forall).
  destruct (i <? n); auto. }
wp_step. split.
- split; [done|]. unfold nwords in *; simpl. lia.
- simpl. apply (words_val_bitop fb (words a) (words b)); [done..| |done].
  intros j i Hj Hi. rewrite Hget by done. destruct (Z.ltb_spec j n); [by apply Hbit|].
  by apply Hrest.
Qed.

Lemma lor_bits x y i : 0 <= i < 64 -> Z.testbit (Z.lor x y) i = Z.testbit x i || Z.testbit y i.
Proof. intros; apply Z.lor_spec. Qed.

Lemma land_bits x y i : 0 <= i < 64 -> Z.testbit (Z.land x y) i = Z.testbit x i && Z.testbit y i.
Proof. intros; apply Z.land_spec. Qed.

Lemma land_ok2 x y : word_ok x -> word_ok y -> word_ok (Z.land x y).
Proof. intros ? [? _]. by apply land_ok. Qed.

(** The union loop: the longer set takes in the words of the shorter one. *)
Lemma union_loop a b :
bms_wf a -> bms_wf b -> nwords b <= nwords a ->
wp (ws ← combine_words Z.lor (words a) (words b) (nwords b); Ok (Some (mkBms ws)))
   (fun oa => bms_ok oa /\ bms_val oa = Z.lor (words_val (words a)) (words_val (words b))).
Proof.
intros Ha Hb Hle. apply (combine_set Z.lor orb).
1: done.
1: apply Hb.
1,2: pose proof (len_nonneg (words b)); unfold nwords in *; lia.
1: apply lor_ok.
1: apply lor_bits.
2: intros; apply Z.lor_spec.
intros j Hj i Hi. rewrite (getd_ge 0 (words b)) by done. by rewrite Z.bits_0, orb_false_r.
Qed.

Lemma bms_union_val oa ob :
bms_ok oa -> bms_ok ob -> returns_set (bms_union oa ob) (Z.lor (bms_val oa) (bms_val ob)).
Proof.
intros Ha Hb. apply returns_set_wp. unfold bms_union.
destruct oa as [a|]; [destruct ob as [b|]|].
- destruct (Z.leb_spec (nwords a) (nwords b)).
  + simpl bms_val. rewrite Z.lor_comm. by apply union_loop.
  + apply union_loop; [done..|lia].
- rewrite bms_copy_val. wp_step. by rewrite Z.lor_0_r.
- rewrite bms_copy_val. wp_step. by rewrite Z.lor_0_l.
Qed.

Lemma bms_add_members_val oa ob :
bms_ok oa -> bms_ok ob -> returns_set (bms_add_members oa ob) (Z.lor (bms_val oa) (bms_val ob)).
Proof.
intros Ha Hb. apply returns_set_wp. unfold bms_add_members.
destruct oa as [a|]; [destruct ob as [b|]|].
- destruct (Z.ltb_spec (nwords a) (nwords b)).
  + simpl bms_val. rewrite Z.lor_comm. apply union_loop; [done..|lia].
  + by apply union_loop.
- wp_step. by rewrite Z.lor_0_r.
- rewrite bms_copy_val. wp_step. by rewrite Z.lor_0_l.
Qed.

Lemma bms_join_val oa ob :
bms_ok oa -> bms_ok ob -> returns_set (bms_join oa ob) (Z.lor (bms_val oa) (bms_val ob)).
Proof.
intros Ha Hb. apply returns_set_wp. unfold bms_join.
destruct oa as [a|]; [destruct ob as [b|]|].
- destruct (Z.ltb_spec (nwords a) (nwords b)).
  + simpl bms_val. rewrite Z.lor_comm. apply union_loop; [done..|lia].
  + by apply union_loop.
- wp_step. by rewrite Z.lor_0_r.
- wp_step. by rewrite Z.lor_0_l.
Qed.

Lemma intersect_loop a b :
bms_wf a -> bms_wf b -> nwords a <= nwords b ->
wp (ws ← combine_words Z.land (words a) (words b) (nwords a); Ok (Some (mkBms ws)))
   (fun oa => bms_ok oa /\ bms_val oa = Z.land (words_val (words a)) (words_val (words b))).
Proof.
intros Ha Hb Hle. apply (combine_set Z.land andb).
1: done.
1: apply Hb.
1,2: pose proof (len_nonneg (words a)); unfold nwords in *; lia.
1: apply land_ok2.
1: apply land_bits.
2: intros; apply Z.land_spec.
intros j Hj i Hi. rewrite (getd_ge 0 (words a)) by done. by rewrite Z.bits_0.
Qed.

Lemma bms_intersect_val oa ob :
bms_ok oa -> bms_ok ob -> returns_set (bms_intersect oa ob) (Z.land (bms_val oa) (bms_val ob)).
Proof.
intros Ha Hb. apply returns_set_wp. unfold bms_intersect.
destruct oa as [a|]; [destruct ob as [b|]|].
- destruct (Z.leb_spec (nwords a) (nwords b)).
  + by apply intersect_loop.
  + simpl bms_val. rewrite Z.land_comm. apply intersect_loop; [done..|lia].
- wp_step. by rewrite Z.land_0_r.
- wp_step. by rewrite Z.land_0_l.
Qed.

Lemma difference_loop a b :
bms_wf a -> bms_wf b ->
wp (ws ← combine_words and_not (words a) (words b) (Z.min (nwords a) (nwords b));
    Ok (Some (mkBms ws)))
   (fun oa => bms_ok oa /\ bms_val oa = Z.ldiff (words_val (words a)) (words_val (words b))).
Proof.
intros Ha Hb. pose proof (len_nonneg (words a)). pose proof (len_nonneg (words b)).
apply (combine_set and_not (fun x y => x && negb y)).
1: done.
1: apply Hb.
1,2: unfold nwords in *; lia.
1: intros; by apply and_not_ok.
1: apply and_not_bits.
2: intros; apply Z.ldiff_spec.
intros j Hj i Hi. destruct (Z.lt_ge_cases j (nwords a)).
- rewrite (getd_ge 0 (words b)) by (unfold nwords in *; lia). by rewrite Z.bits_0, andb_true_r.
- rewrite (getd_ge 0 (words a)) by (unfold nwords in *; lia). by rewrite Z.bits_0.
Qed.

Lemma bms_difference_val oa ob :
bms_ok oa -> bms_ok ob -> returns_set (bms_difference oa ob) (Z.ldiff (bms_val oa) (bms_val ob)).
Proof.
intros Ha Hb. apply returns_set_wp. unfold bms_difference.
destruct oa as [a|]; [destruct ob as [b|]|].
- by apply difference_loop.
- rewrite bms_copy_val. wp_step. by rewrite Z.ldiff_0_r.
- wp_step. by rewrite Z.ldiff_0_l.
Qed.

Lemma bms_del_members_val oa ob :
bms_ok oa -> bms_ok ob -> returns_set (bms_del_members oa ob) (Z.ldiff (bms_val oa) (bms_val ob)).
Proof.
intros Ha Hb. apply returns_set_wp. unfold bms_del_members.
destruct oa as [a|]; [destruct ob as [b|]|].
- by apply difference_loop.
- wp_step. by rewrite Z.ldiff_0_r.
- wp_step. by rewrite Z.ldiff_0_l.
Qed.

Lemma bms_int_members_val oa ob :
bms_ok oa -> bms_ok ob -> returns_set (bms_int_members oa ob) (Z.land (bms_val oa) (bms_val ob)).
Proof.
intros Hoa Hob. apply returns_set_wp. unfold bms_int_members.
destruct oa as [a|]; [destruct ob as [b|]|].
2: wp_step; by rewrite Z.land_0_r.
2: wp_step; by rewrite Z.land_0_l.
destruct Hoa as [Ha Hna], Hob as [Hb Hnb]. unfold nwords in *.
wp_step. apply wp_combine; [lia..|]. intros ws Hlen Hget.
wp_step. apply (wp_map_up 0 (fun _ _ => 0)); [lia..| |].
{ intros i l' Hi Hl' Hgi. by wp_steps. }
intros vs Hvlen Hvget. wp_step.
assert (Hbits : forall j, 0 <= j -> getd 0 vs j = Z.land (getd 0 (words a) j) (getd 0 (words b) j)).
{ intros j Hj. rewrite Hvget, Hget by done.
  destruct (Z.leb_spec (Z.min (len (words a)) (len (words b))) j),
    (Z.ltb_spec j (len (words a))), (Z.ltb_spec j (Z.min (len (words a)) (len (words b))));
    simpl; try lia; try done.
  - rewrite (getd_ge 0 (words b)) by lia. by rewrite Z.land_0_r.
  - rewrite (getd_ge 0 (words a)) by lia. done. }
assert (Hvs : Forall word_ok vs).
{ apply (Forall_getd _ 0). intros i Hi. rewrite Hbits by lia. apply land_ok2; by apply getd_Forall. }
split; [split; [done|unfold nwords; simpl; lia]|].
simpl. apply (words_val_bitop andb (words a) (words b)); [done..| |].
- intros j i Hj Hi. rewrite Hbits by done. apply Z.land_spec.
- intros. apply Z.land_spec.
Qed.

(** ** Single members *)
Lemma bms_is_member_neg x oa : x < 0 -> bms_is_member x oa = neg_member.
Proof. intros. unfold bms_is_member. by destruct (Z.ltb_spec x 0); [|lia]. Qed.

Lemma bms_is_member_val x oa :
bms_ok oa -> 0 <= x -> bms_is_member x oa = Ok (Z.testbit (bms_val oa) x).
Proof.
intros Ha Hx. unfold bms_is_member. destruct (Z.ltb_spec x 0); [lia|].
destruct oa as [a|]; [|simpl; by rewrite Z.bits_0]. destruct Ha as [Ha Hn].
simpl bms_val. rewrite words_val_bits by done.
rewrite WORDNUM_div by done. pose proof (BITNUM_range x Hx).
pose proof (Z.div_pos x 64). unfold nwords in *.
destruct (Z.leb_spec (len (words a)) (x / 64)).
- rewrite getd_ge by done. by rewrite Z.bits_0.
- apply wp_eq. wp_steps. rewrite one_shl, land_pow2 by (done || by apply getd_Forall).
  rewrite BITNUM_mod by done. by destruct (Z.testbit _ _).
Qed.

(** The value of the words after one of them is replaced. *)
Lemma words_val_upd ws i w v :
Forall word_ok ws -> word_ok w -> 0 <= i < len ws ->
(forall x, 0 <= x -> Z.testbit v x =
   if x / 64 =? i then Z.testbit w (x mod 64) else Z.testbit (words_val ws) x) ->
Forall word_ok (upd ws i w) /\ words_val (upd ws i w) = v.
Proof.
intros Hws Hw Hi Hv.
assert (Hok : Forall word_ok (upd ws i w)) by (by apply Forall_insert).
split; [done|]. apply Z.bits_inj'. intros x Hx.
rewrite Hv, words_val_bits by done.
rewrite getd_upd by (done || apply Z.div_pos; lia).
destruct (x / 64 =? i); [done|]. by rewrite words_val_bits.
Qed.

Lemma setbit_bits v x i : 0 <= x -> 0 <= i -> Z.testbit (Z.lor v (2 ^ x)) i = Z.testbit v i || (x =? i).
Proof. intros. by rewrite Z.lor_spec, Z.pow2_bits_eqb. Qed.

Lemma split_eqb x i : 0 <= x -> 0 <= i -> (x =? i) = (i / 64 =? x / 64) && (x mod 64 =? i mod 64).
Proof.
intros. pose proof (Z.div_mod x 64). pose proof (Z.div_mod i 64).
destruct (Z.eqb_spec x i) as [->|]; [by rewrite !Z.eqb_refl|].
destruct (Z.eqb_spec (i / 64) (x / 64)), (Z.eqb_spec (x mod 64) (i mod 64)); simpl; try done; lia.
Qed.

(** Setting bit [x mod 64] of word [x / 64] adds the member [x]. *)
Lemma set_member_words ws x :
Forall word_ok ws -> 0 <= x -> x / 64 < len ws ->
let ws' := upd ws (x / 64) (Z.lor (getd 0 ws (x / 64)) (2 ^ (x mod 64))) in
Forall word_ok ws' /\ words_val ws' = Z.lor (words_val ws) (2 ^ x).
Proof.
intros Hws Hx Hlt. pose proof (Z.mod_pos_bound x 64). pose proof (Z.div_pos x 64).
apply words_val_upd; [done| |lia|].
- apply lor_ok; [by apply getd_Forall|apply pow2_ok; lia].
- intros i Hi. pose proof (Z.mod_pos_bound i 64). rewrite setbit_bits by done.
  rewrite split_eqb by done. destruct (Z.eqb_spec (i / 64) (x / 64)) as [Heq|]; simpl.
  + rewrite words_val_bits, Heq, Z.lor_spec, Z.pow2_bits_eqb by (done || lia). done.
  + by rewrite orb_false_r.
Qed.

Lemma words_val_replicate n : words_val (replicate n 0) = 0.
Proof. induction n; cbn [replicate words_val]; [done|]. rewrite IHn. done. Qed.

Lemma words_val_app_zero ws n : words_val (ws ++ replicate n 0) = words_val ws.
Proof. induction ws as [|w ws IH]; cbn [app words_val]; [apply words_val_replicate|]. by rewrite IH. Qed.

Lemma replicate_ok n : Forall word_ok (replicate n 0).
Proof. apply Forall_replicate. done. Qed.

Lemma enlarge_ok a n :
Forall word_ok (words a) -> nwords a <= n ->
Forall word_ok (words (enlarge a n)) /\ nwords (enlarge a n) = n /\
words_val (words (enlarge a n)) = words_val (words a).
Proof.
intros Ha Hn. unfold enlarge, nwords in *; simpl. split; [|split].
- apply Forall_app; split; [done|apply replicate_ok].
- rewrite len_app, len_replicate. lia.
- apply words_val_app_zero.
Qed.

Lemma div64_lt_max x : 0 <= x < 2 ^ 31 -> 0 <= x / 64 < MAX_WORDS.
Proof.
intros. split; [apply Z.div_pos; lia|]. apply Z.div_lt_upper_bound; [lia|]. unfold MAX_WORDS. lia.
Qed.

Lemma bms_make_singleton_val x :
0 <= x < 2 ^ 31 -> returns_set (bms_make_singleton x) (2 ^ x).
Proof.
intros Hx. apply returns_set_wp. unfold bms_make_singleton.
destruct (Z.ltb_spec x 0); [lia|]. pose proof (BITNUM_range x). pose proof (div64_lt_max x Hx).
rewrite WORDNUM_div, BITNUM_mod in * by lia.
assert (Hlen : len (replicate (Z.to_nat (x / 64 + 1)) 0) = x / 64 + 1) by (rewrite len_replicate; lia).
wp_step. wp_step. wp_step. wp_step. wp_step.
rewrite one_shl by lia.
destruct (set_member_words (replicate (Z.to_nat (x / 64 + 1)) 0) x) as [Hu1 Hu2];
  [apply replicate_ok|lia|lia|].
rewrite getd_replicate, words_val_replicate in * by lia.
destruct (Z.ltb_spec (x / 64) (Z.of_nat (Z.to_nat (x / 64 + 1)))); [|lia].
rewrite Z.lor_0_l in *. split; [|done]. split; [done|].
unfold nwords; cbn [words]. rewrite len_upd. lia.
Qed.

Lemma bms_add_member_val x oa :
bms_ok oa -> 0 <= x < 2 ^ 31 -> returns_set (bms_add_member oa x) (Z.lor (bms_val oa) (2 ^ x)).
Proof.
intros Ha Hx. unfold bms_add_member. destruct (Z.ltb_spec x 0); [lia|].
destruct oa as [a|]; [|rewrite Z.lor_0_l; by apply bms_make_singleton_val].
apply returns_set_wp. destruct Ha as [Ha Hn].
pose proof (BITNUM_range x). pose proof (div64_lt_max x Hx).
rewrite WORDNUM_div, BITNUM_mod in * by lia.
set (a' := if nwords a <=? x / 64 then enlarge a (x / 64 + 1) else a).
assert (Ha' : Forall word_ok (words a') /\ x / 64 < nwords a' <= MAX_WORDS /\
  words_val (words a') = words_val (words a)).
{ unfold a'. destruct (Z.leb_spec (nwords a) (x / 64)); [|split; [done|split; [lia|done]]].
  destruct (enlarge_ok a (x / 64 + 1)) as (He1 & He2 & He3); [done|lia|].
  split; [done|]. split; [lia|done]. }
clearbody a'. destruct Ha' as (Hok & Hlen & Hval). unfold nwords in Hlen.
wp_steps. rewrite one_shl by lia.
destruct (set_member_words (words a') x) as [Hu1 Hu2]; [done|lia|lia|].
split; [split; [done|unfold nwords; cbn [words]; rewrite len_upd; lia]|].
cbn [bms_val words]. by rewrite Hu2, Hval.
Qed.

Lemma bms_del_member_val x oa :
bms_ok oa -> 0 <= x < 2 ^ 31 -> returns_set (bms_del_member oa x) (Z.ldiff (bms_val oa) (2 ^ x)).
Proof.
intros Ha Hx. apply returns_set_wp. unfold bms_del_member. destruct (Z.ltb_spec x 0); [lia|].
destruct oa as [a|]; [|wp_step; by rewrite Z.ldiff_0_l]. destruct Ha as [Ha Hn].
pose proof (BITNUM_range x). pose proof (div64_lt_max x Hx).
rewrite WORDNUM_div, BITNUM_mod in * by lia. unfold nwords in *.
assert (Hbits : forall i, 0 <= i -> Z.testbit (Z.ldiff (words_val (words a)) (2 ^ x)) i =
  Z.testbit (words_val (words a)) i && negb (x =? i)).
{ intros i Hi. by rewrite Z.ldiff_spec, Z.pow2_bits_eqb by lia. }
destruct (Z.ltb_spec (x / 64) (len (words a))) as [Hlt|Hge].
- wp_steps. rewrite one_shl by lia.
  destruct (words_val_upd (words a) (x / 64) (and_not (getd 0 (words a) (x / 64)) (2 ^ (x mod 64)))
    (Z.ldiff (words_val (words a)) (2 ^ x))) as [Hu1 Hu2].
  + done.
  + apply and_not_ok. by apply getd_Forall.
  + lia.
  + intros i Hi. rewrite Hbits, split_eqb by lia. pose proof (Z.mod_pos_bound i 64).
    destruct (Z.eqb_spec (i / 64) (x / 64)) as [Heq|]; simpl; [|by rewrite andb_true_r].
    rewrite and_not_bits, Z.pow2_bits_eqb, words_val_bits, Heq by (done || lia). done.
  + split; [split; [done|unfold nwords; cbn [words]; rewrite len_upd; lia]|done].
- wp_step. split; [by split|]. simpl. apply Z.bits_inj'. intros i Hi. rewrite Hbits by done.
  destruct (Z.eqb_spec x i) as [->|]; [|by rewrite andb_true_r].
  rewrite words_val_bits, getd_ge by done. by rewrite Z.bits_0.
Qed.

(** ** Ranges *)
Definition range_mask (lower upper : Z) : Z := Z.shiftl (Z.ones (upper - lower + 1)) lower.

Definition in_range (lower upper x : Z) : bool := (lower <=? x) && (x <=? upper).

Lemma range_mask_bits lower upper x :
0 <= lower <= upper -> 0 <= x -> Z.testbit (range_mask lower upper) x = in_range lower upper x.
Proof.
intros. unfold range_mask, in_range. destruct (Z.leb_spec lower x); simpl.
- rewrite Z.shiftl_spec by lia. destruct (Z.leb_spec x upper).
  + apply Z.ones_spec_low; lia.
  + apply Z.ones_spec_high; lia.
- apply Z.shiftl_spec_low; lia.
Qed.

Lemma lmask_bits (b i : Z) : 0 <= b < 64 -> 0 <= i < 64 ->
Z.testbit (bmw_not (u64 (2 ^ b - 1))) i = (b <=? i).
Proof.
intros Hb Hi. rewrite bmw_not_bits by done. unfold u64. rewrite Z.mod_pow2_bits_low by lia.
rewrite Z.sub_1_r, <- Z.ones_equiv. destruct (Z.leb_spec b i).
- by rewrite Z.ones_spec_high by lia.
- by rewrite Z.ones_spec_low by lia.
Qed.

Lemma umask_bits (b i : Z) : 0 <= b < 64 -> 0 <= i ->
Z.testbit (Z.shiftr (bmw_not 0) (64 - (b + 1))) i = (i <=? b).
Proof.
intros Hb Hi. rewrite Z.shiftr_spec by lia. destruct (Z.leb_spec i b).
- rewrite bmw_not_bits, Z.bits_0 by lia. done.
- apply word_ok_high; [apply bmw_not_ok|lia].
Qed.

Lemma umask_ok (b : Z) : 0 <= b < 64 -> word_ok (Z.shiftr (bmw_not 0) (64 - (b + 1))).
Proof.
intros. apply word_bits_range; [apply Z.shiftr_nonneg, bmw_not_ok|].
intros i Hi. rewrite umask_bits by lia. apply Z.leb_gt. lia.
Qed.

Lemma all_ones_bits i : 0 <= i < 64 -> Z.testbit (bmw_not 0) i = true.
Proof. intros. by rewrite bmw_not_bits, Z.bits_0. Qed.

(** The words hold the range as well as what they held. *)
Definition has_range (ws ws' : list Z) (lower upper : Z) : Prop :=
Forall word_ok ws' /\ len ws' = len ws /\
forall j i, 0 <= j -> 0 <= i < 64 ->
  Z.testbit (getd 0 ws' j) i = Z.testbit (getd 0 ws j) i || in_range lower upper (64 * j + i).

Lemma has_range_val ws ws' lower upper :
Forall word_ok ws -> 0 <= lower <= upper -> has_range ws ws' lower upper ->
words_val ws' = Z.lor (words_val ws) (range_mask lower upper).
Proof.
intros Hws Hr (Hok & _ & Hbits). apply Z.bits_inj'. intros x Hx.
rewrite Z.lor_spec, range_mask_bits, !words_val_bits by done.
rewrite Hbits; [|apply Z.div_pos; lia|apply Z.mod_pos_bound; lia].
f_equal. f_equal. pose proof (Z.div_mod x 64). lia.
Qed.

Lemma range_one_word ws lower upper :
Forall word_ok ws -> 0 <= lower <= upper -> lower / 64 = upper / 64 -> upper / 64 < len ws ->
has_range ws (upd ws (lower / 64) (Z.lor (getd 0 ws (lower / 64))
  (Z.land (bmw_not (u64 (2 ^ (lower mod 64) - 1)))
          (Z.shiftr (bmw_not 0) (64 - (upper mod 64 + 1)))))) lower upper.
Proof.
intros Hws Hr Heq Hlt.
pose proof (Z.mod_pos_bound lower 64). pose proof (Z.mod_pos_bound upper 64).
pose proof (Z.div_mod lower 64). pose proof (Z.div_mod upper 64). pose proof (Z.div_pos lower 64).
split; [|split; [apply len_upd|]].
- apply Forall_insert; [done|]. apply lor_ok; [by apply getd_Forall|].
  apply land_ok; [apply bmw_not_ok|]. apply umask_ok; lia.
- intros j i Hj Hi. rewrite getd_upd by lia. unfold in_range.
  destruct (Z.eqb_spec j (lower / 64)) as [->|Hne].
  + rewrite Z.lor_spec, Z.land_spec, lmask_bits, umask_bits by lia. f_equal.
    destruct (Z.leb_spec (lower mod 64) i), (Z.leb_spec i (upper mod 64)),
      (Z.leb_spec lower (64 * (lower / 64) + i)), (Z.leb_spec (64 * (lower / 64) + i) upper);
      simpl; try done; lia.
  + destruct (Z.leb_spec lower (64 * j + i)), (Z.leb_spec (64 * j + i) upper); simpl;
      rewrite ?orb_false_r; try done; lia.
Qed.

Lemma range_words ws ws2 lower upper :
Forall word_ok ws -> 0 <= lower <= upper -> lower / 64 < upper / 64 -> upper / 64 < len ws ->
len ws2 = len ws ->
(forall j, 0 <= j -> getd 0 ws2 j =
   if (lower / 64 + 1 <=? j) && (j <? upper / 64) then bmw_not 0
   else getd 0 (upd ws (lower / 64) (Z.lor (getd 0 ws (lower / 64))
          (bmw_not (u64 (2 ^ (lower mod 64) - 1))))) j) ->
has_range ws (upd ws2 (upper / 64) (Z.lor (getd 0 ws2 (upper / 64))
  (Z.shiftr (bmw_not 0) (64 - (upper mod 64 + 1))))) lower upper.
Proof.
intros Hws Hr Hlu Hlt Hlen Hget.
pose proof (Z.mod_pos_bound lower 64). pose proof (Z.mod_pos_bound upper 64).
pose proof (Z.div_mod lower 64). pose proof (Z.div_mod upper 64). pose proof (Z.div_pos lower 64).
assert (Hok : Forall word_ok (upd ws (lower / 64) (Z.lor (getd 0 ws (lower / 64))
          (bmw_not (u64 (2 ^ (lower mod 64) - 1)))))).
{ apply Forall_insert; [done|]. apply lor_ok; [by apply getd_Forall|apply bmw_not_ok]. }
assert (Hok2 : Forall word_ok ws2).
{ apply (Forall_getd _ 0). intros j Hj. rewrite Hget by lia.
  destruct (_ && _); [apply bmw_not_ok|by apply getd_Forall]. }
split; [|split; [by rewrite len_upd|]].
- apply Forall_insert; [done|]. apply lor_ok; [by apply getd_Forall|]. apply umask_ok; lia.
- intros j i Hj Hi. rewrite getd_upd by lia. unfold in_range.
  destruct (Z.eqb_spec j (upper / 64)) as [->|Hne].
  + rewrite Z.lor_spec, umask_bits by lia. rewrite Hget by lia.
    destruct (Z.ltb_spec (upper / 64) (upper / 64)); [lia|]. rewrite andb_false_r.
    rewrite getd_upd_ne by lia. f_equal.
    destruct (Z.leb_spec lower (64 * (upper / 64) + i)), (Z.leb_spec i (upper mod 64)),
      (Z.leb_spec (64 * (upper / 64) + i) upper); simpl; try done; lia.
  + rewrite Hget by lia.
    destruct (Z.leb_spec (lower / 64 + 1) j), (Z.ltb_spec j (upper / 64)); cbn [andb].
    1: rewrite all_ones_bits by done.
    1: destruct (Z.leb_spec lower (64 * j + i)), (Z.leb_spec (64 * j + i) upper);
         simpl; try lia; by rewrite orb_true_r.
    all: rewrite getd_upd by lia; destruct (Z.eqb_spec j (lower / 64)) as [->|]; try lia.
    1,3: destruct (Z.leb_spec lower (64 * j + i)), (Z.leb_spec (64 * j + i) upper);
         simpl; try lia; by rewrite orb_false_r.
    rewrite Z.lor_spec, lmask_bits by lia. f_equal.
    destruct (Z.leb_spec (lower mod 64) i), (Z.leb_spec lower (64 * (lower / 64) + i)),
      (Z.leb_spec (64 * (lower / 64) + i) upper); simpl; try done; lia.
Qed.

Lemma bms_add_range_val oa lower upper :
bms_ok oa -> 0 <= lower <= upper -> upper < 2 ^ 31 ->
returns_set (bms_add_range oa lower upper) (Z.lor (bms_val oa) (range_mask lower upper)).
Proof.
intros Ha Hr Hmax. apply returns_set_wp. unfold bms_add_range.
destruct (Z.ltb_spec upper lower), (Z.ltb_spec lower 0); try lia.
rewrite !WORDNUM_div, !BITNUM_mod by lia.
pose proof (div64_lt_max upper). pose proof (Z.div_le_mono lower upper 64).
pose proof (Z.div_pos lower 64).
pose proof (Z.mod_pos_bound lower 64). pose proof (Z.mod_pos_bound upper 64).
set (a' := match oa with None => _ | Some a => _ end).
assert (Ha' : Forall word_ok (words a') /\ upper / 64 < nwords a' <= MAX_WORDS /\
  words_val (words a') = bms_val oa).
{ unfold a'. destruct oa as [a|].
  - destruct Ha as [Ha Hn]. destruct (Z.leb_spec (nwords a) (upper / 64)).
    + destruct (enlarge_ok a (upper / 64 + 1)) as (He1 & He2 & He3); [done|lia|].
      split; [done|]. split; [lia|done].
    + split; [done|]. split; [lia|done].
  - unfold nwords; cbn [words]. rewrite len_replicate, words_val_replicate.
    split; [apply replicate_ok|]. split; [lia|done]. }
clearbody a'. destruct Ha' as (Hok & Hlen & Hval). unfold nwords, BITS_PER_BITMAPWORD in *.
assert (Hend : forall ws, has_range (words a') ws lower upper ->
  bms_ok (Some (mkBms ws)) /\ bms_val (Some (mkBms ws)) = Z.lor (bms_val oa) (range_mask lower upper)).
{ intros ws Hws. pose proof Hws as (Hwok & Hwlen & _).
  split; [split; [done|unfold nwords; cbn [words]; lia]|].
  cbn [bms_val words]. rewrite <- Hval. by apply has_range_val. }
wp_step. wp_step. rewrite one_shl by lia. wp_step. wp_step.
destruct (Z.eqb_spec (lower / 64) (upper / 64)) as [Heq|Hne].
- wp_steps. apply Hend, range_one_word; [done|done|done|lia].
- wp_step. wp_step. wp_step. wp_step. wp_step.
  apply (wp_map_up 0 (fun _ _ => bmw_not 0)); [lia|rewrite len_upd; lia|..].
  + intros i l' Hi Hl' Hgi. rewrite len_upd in Hl'. by wp_steps.
  + intros ws2 Hlen2 Hget2. rewrite len_upd in Hlen2. wp_steps.
    apply Hend, range_words; [done|done|lia|lia|done|done].
Qed.

(** An empty range leaves the set alone; a negative member is an error. *)
Lemma bms_add_range_empty oa lower upper : upper < lower -> bms_add_range oa lower upper = Ok oa.
Proof. intros. unfold bms_add_range. by destruct (Z.ltb_spec upper lower); [|lia]. Qed.
End Ops.
