(* ===== verification/BitmapsetTests.v ===== *)
(** * Bitmap sets: tests, counts and iteration

    For each operation of Bitmapset.v that inspects a set, what it returns as
    a function of the set's value. *)
From S2P Require Import Prelude.
From S2P Require Import BitUtils.
From S2P Require Import Bitmapset.
From S2P Require Import BitmapsetVal.

Section Ops.
Implicit Types a b : Bitmapset.
Implicit Types oa ob : option Bitmapset.

(** ** Tests *)
Lemma getd_ok ws j : Forall word_ok ws -> word_ok (getd 0 ws j).
Proof. intros. by apply getd_Forall. Qed.

(** Set relations hold of the values when they hold of each pair of words. *)
Lemma words_ldiff_zero ws vs :
Forall word_ok ws -> Forall word_ok vs ->
(Z.ldiff (words_val ws) (words_val vs) = 0 <->
 forall j, 0 <= j -> and_not (getd 0 ws j) (getd 0 vs j) = 0).
Proof.
intros Hw Hv. rewrite zero_testbit by (apply Z.ldiff_nonneg; left; by apply words_val_nonneg).
split.
- intros H j Hj. apply and_not_zero; [by apply getd_ok|]. intros i Hi Hwi.
  specialize (H (64 * j + i)). rewrite Z.ldiff_spec, !words_val_bits in H by (done || lia).
  replace ((64 * j + i) / 64) with j in H by (apply (Z.div_unique_pos _ _ _ i); lia).
  replace ((64 * j + i) mod 64) with i in H by (apply (Z.mod_unique_pos _ _ j); lia).
  rewrite Hwi in H. destruct (Z.testbit (getd 0 vs j) i); [done|]. discriminate H; lia.
- intros H x Hx. rewrite Z.ldiff_spec, !words_val_bits by done.
  specialize (H (x / 64)). rewrite and_not_zero in H by (by apply getd_ok).
  destruct (Z.testbit (getd 0 ws (x / 64)) (x mod 64)) eqn:E; [|done].
  rewrite H; [done|apply Z.div_pos; lia|apply Z.mod_pos_bound; lia|done].
Qed.

Lemma words_land_zero ws vs :
Forall word_ok ws -> Forall word_ok vs ->
(Z.land (words_val ws) (words_val vs) = 0 <->
 forall j, 0 <= j -> Z.land (getd 0 ws j) (getd 0 vs j) = 0).
Proof.
intros Hw Hv. rewrite zero_testbit by (apply Z.land_nonneg; left; by apply words_val_nonneg).
split.
- intros H j Hj. apply land_zero; [by apply getd_ok|apply (getd_ok vs j Hv)|]. intros i Hi Hwi.
  specialize (H (64 * j + i)). rewrite Z.land_spec, !words_val_bits in H by (done || lia).
  replace ((64 * j + i) / 64) with j in H by (apply (Z.div_unique_pos _ _ _ i); lia).
  replace ((64 * j + i) mod 64) with i in H by (apply (Z.mod_unique_pos _ _ j); lia).
  rewrite Hwi in H. apply H; lia.
- intros H x Hx. rewrite Z.land_spec, !words_val_bits by done.
  rewrite <- Z.land_spec, H, Z.bits_0; [done|apply Z.div_pos; lia].
Qed.

Lemma bms_overlap_val oa ob :
bms_ok oa -> bms_ok ob -> bms_overlap oa ob = Ok (negb (Z.land (bms_val oa) (bms_val ob) =? 0)).
Proof.
intros Hoa Hob. unfold bms_overlap. destruct oa as [a|]; [destruct ob as [b|]|].
2: by rewrite Z.land_0_r.
2: by rewrite Z.land_0_l.
destruct Hoa as [Ha Hna], Hob as [Hb Hnb]. unfold nwords in *. cbn [bms_val].
apply wp_eq. wp_step.
apply (wp_find_up (fun i => negb (Z.land (getd 0 (words a) i) (getd 0 (words b) i) =? 0)) (fun _ => true)).
- intros i Hi. wp_steps. by destruct (negb _).
- intros H. symmetry. apply negb_false_iff, Z.eqb_eq, words_land_zero; [done..|].
  intros j Hj. destruct (Z.lt_ge_cases j (Z.min (len (words a)) (len (words b)))).
  + specialize (H j). rewrite negb_false_iff, Z.eqb_eq in H. apply H; lia.
  + destruct (Z.lt_ge_cases j (len (words a))).
    * rewrite (getd_ge 0 (words b)) by lia. apply Z.land_0_r.
    * rewrite (getd_ge 0 (words a)) by lia. apply Z.land_0_l.
- intros i Hi Ht _. symmetry. apply negb_true_iff, Z.eqb_neq.
  rewrite words_land_zero by done. intros H. rewrite H in Ht; [done|lia].
Qed.

(** The common part of [bms_is_subset] and [bms_nonempty_difference]. *)
Lemma wp_diff_words a b (r : bool) (Q : unit + bool -> Prop) :
bms_wf a -> bms_wf b ->
((forall j, 0 <= j < Z.min (nwords a) (nwords b) ->
    and_not (getd 0 (words a) j) (getd 0 (words b) j) = 0) -> Q (inl tt)) ->
(Z.ldiff (words_val (words a)) (words_val (words b)) <> 0 -> Q (inr r)) ->
wp (for_up 0 (Z.min (nwords a) (nwords b)) (fun i _ =>
      aw ← rd (words a) i;
      bw ← rd (words b) i;
      if negb (and_not aw bw =? 0) then Ok (inr r) else Ok (inl tt)) tt) Q.
Proof.
intros [Ha Hna] [Hb Hnb] Hz Hnz. unfold nwords in *.
apply (wp_find_up (fun i => negb (and_not (getd 0 (words a) i) (getd 0 (words b) i) =? 0)) (fun _ => r)).
- intros i Hi. wp_steps. by destruct (negb _).
- intros H. apply Hz. intros j Hj. specialize (H j Hj). by apply negb_false_iff, Z.eqb_eq in H.
- intros i Hi Ht _. apply Hnz. rewrite words_ldiff_zero by done. intros H.
  rewrite H in Ht; [done|lia].
Qed.

Lemma ldiff_common a b :
bms_wf a -> bms_wf b ->
(forall j, 0 <= j < Z.min (nwords a) (nwords b) ->
   and_not (getd 0 (words a) j) (getd 0 (words b) j) = 0) ->
(forall j, Z.min (nwords a) (nwords b) <= j -> getd 0 (words a) j = 0) ->
Z.ldiff (words_val (words a)) (words_val (words b)) = 0.
Proof.
intros [Ha _] [Hb _] Hc He. apply words_ldiff_zero; [done..|]. intros j Hj.
destruct (Z.lt_ge_cases j (Z.min (nwords a) (nwords b))); [by apply Hc|]. by rewrite He.
Qed.

Lemma extra_ldiff a b j :
bms_wf a -> bms_wf b -> Z.min (nwords a) (nwords b) <= j < nwords a ->
getd 0 (words a) j <> 0 -> Z.ldiff (words_val (words a)) (words_val (words b)) <> 0.
Proof.
intros [Ha Hna] [Hb Hnb] Hj Hnz. rewrite words_ldiff_zero by done. intros H. apply Hnz.
specialize (H j). rewrite (getd_ge 0 (words b)) in H by (unfold nwords in *; lia).
rewrite and_not_zero in H by (by apply getd_ok).
pose proof (getd_ok (words a) j Ha) as [Hn _].
apply zero_testbit; [done|]. intros i Hi.
destruct (Z.lt_ge_cases i 64); [|by apply word_ok_high; [apply getd_ok|]].
destruct (Z.testbit (getd 0 (words a) j) i) eqn:E; [|done].
apply H in E; [by rewrite Z.bits_0 in E|lia|lia].
Qed.

Lemma bms_is_subset_val oa ob :
bms_ok oa -> bms_ok ob -> bms_is_subset oa ob = Ok (Z.ldiff (bms_val oa) (bms_val ob) =? 0).
Proof.
intros Ha Hb. unfold bms_is_subset. destruct oa as [a|]; [destruct ob as [b|]|].
2: rewrite bms_is_empty_val by done; by rewrite Z.ldiff_0_r.
2: by rewrite Z.ldiff_0_l.
cbn [bms_val bms_ok] in *. apply wp_eq. wp_step. apply wp_diff_words; [done..| |].
- intros Hc. destruct (Z.ltb_spec (nwords b) (nwords a)).
  + wp_step. apply wp_extra_words; [destruct Ha, Hb; lia|..].
    * intros He. symmetry. apply Z.eqb_eq. by apply ldiff_common.
    * intros j Hj Hnz. symmetry. apply Z.eqb_neq. by apply (extra_ldiff a b j).
  + wp_step. symmetry. apply Z.eqb_eq. apply ldiff_common; [done..|].
    intros j Hj. apply getd_ge. unfold nwords in *; lia.
- intros Hne. wp_step. symmetry. by apply Z.eqb_neq.
Qed.

Lemma bms_nonempty_difference_val oa ob :
bms_ok oa -> bms_ok ob ->
bms_nonempty_difference oa ob = Ok (negb (Z.ldiff (bms_val oa) (bms_val ob) =? 0)).
Proof.
intros Ha Hb. unfold bms_nonempty_difference. destruct oa as [a|]; [destruct ob as [b|]|].
2: rewrite bms_is_empty_val by done; by rewrite Z.ldiff_0_r.
2: by rewrite Z.ldiff_0_l.
cbn [bms_val bms_ok] in *. apply wp_eq. wp_step. apply wp_diff_words; [done..| |].
- intros Hc. wp_step. apply wp_extra_words; [destruct Ha, Hb; lia|..].
  + intros He. symmetry. apply negb_false_iff, Z.eqb_eq. by apply ldiff_common.
  + intros j Hj Hnz. symmetry. apply negb_true_iff, Z.eqb_neq. by apply (extra_ldiff a b j).
- intros Hne. wp_step. symmetry. by apply negb_true_iff, Z.eqb_neq.
Qed.

(** ** Subset comparison *)
Definition subset_spec (x y : Z) : BMS_Comparison :=
match Z.ldiff x y =? 0, Z.ldiff y x =? 0 with
| true, true => BMS_EQUAL
| true, false => BMS_SUBSET1
| false, true => BMS_SUBSET2
| false, false => BMS_DIFFERENT
end.

Lemma ldiff_both_zero x y : Z.ldiff x y = 0 -> Z.ldiff y x = 0 -> x = y.
Proof.
intros H1 H2. apply Z.bits_inj'. intros i Hi.
pose proof (f_equal (fun v => Z.testbit v i) H1) as E1.
pose proof (f_equal (fun v => Z.testbit v i) H2) as E2. simpl in E1, E2.
rewrite Z.ldiff_spec, Z.bits_0 in E1, E2.
destruct (Z.testbit x i), (Z.testbit y i); done.
Qed.

(** What the status says of two decidable facts: [p], all of the first set's
  words seen so far are within the second's, and [q], the converse. *)
Definition status_of (p q : Prop) (r : BMS_Comparison) : Prop :=
(r = BMS_EQUAL /\ p /\ q) \/ (r = BMS_SUBSET1 /\ p /\ ~ q) \/ (r = BMS_SUBSET2 /\ ~ p /\ q).

Lemma status_step_a p q p' (d : bool) r (Q : BMS_Comparison + BMS_Comparison -> Prop) :
status_of p q r -> (p' <-> p /\ d = false) ->
(forall r', status_of p' q r' -> Q (inl r')) -> (~ p' -> ~ q -> Q (inr BMS_DIFFERENT)) ->
Q (subset_step d BMS_SUBSET1 BMS_SUBSET2 r).
Proof.
intros Hs Hp Hl Hr. unfold subset_step, status_of in *. destruct d.
- assert (Hnp : ~ p') by (rewrite Hp; intros []; done).
  destruct Hs as [(-> & ? & ?)|[(-> & ? & ?)|(-> & ? & ?)]]; case_decide; try done; auto 6.
- apply Hl. naive_solver.
Qed.

Lemma status_step_b p q q' (d : bool) r (Q : BMS_Comparison + BMS_Comparison -> Prop) :
status_of p q r -> (q' <-> q /\ d = false) ->
(forall r', status_of p q' r' -> Q (inl r')) -> (~ p -> ~ q' -> Q (inr BMS_DIFFERENT)) ->
Q (subset_step d BMS_SUBSET2 BMS_SUBSET1 r).
Proof.
intros Hs Hq Hl Hr. unfold subset_step, status_of in *. destruct d.
- assert (Hnq : ~ q') by (rewrite Hq; intros []; done).
  destruct Hs as [(-> & ? & ?)|[(-> & ? & ?)|(-> & ? & ?)]]; case_decide; try done; auto 6.
- apply Hl. naive_solver.
Qed.

Lemma status_final p q x y r :
status_of p q r -> (p <-> Z.ldiff x y = 0) -> (q <-> Z.ldiff y x = 0) -> r = subset_spec x y.
Proof.
intros Hs Hp Hq. unfold subset_spec.
destruct (Z.eqb_spec (Z.ldiff x y) 0), (Z.eqb_spec (Z.ldiff y x) 0);
  unfold status_of in Hs; naive_solver.
Qed.

Lemma subset_spec_different x y :
Z.ldiff x y <> 0 -> Z.ldiff y x <> 0 -> subset_spec x y = BMS_DIFFERENT.
Proof.
intros. unfold subset_spec.
by destruct (Z.eqb_spec (Z.ldiff x y) 0), (Z.eqb_spec (Z.ldiff y x) 0).
Qed.

(** All of the first [n] words of [ws] are within those of [vs]. *)
Definition within (ws vs : list Z) (n : Z) : Prop :=
forall j, 0 <= j < n -> and_not (getd 0 ws j) (getd 0 vs j) = 0.

Lemma within_step ws vs n d :
0 <= n -> d = negb (and_not (getd 0 ws n) (getd 0 vs n) =? 0) ->
(within ws vs (n + 1) <-> within ws vs n /\ d = false).
Proof.
intros Hn ->. unfold within. rewrite negb_false_iff, Z.eqb_eq. split.
- intros H. split; [intros j Hj; apply H; lia|apply H; lia].
- intros [H1 H2] j Hj. destruct (Z.eq_dec j n) as [->|]; [done|apply H1; lia].
Qed.

Lemma within_all ws vs n :
Forall word_ok ws -> Forall word_ok vs -> len ws <= n ->
(within ws vs n <-> Z.ldiff (words_val ws) (words_val vs) = 0).
Proof.
intros Hw Hv Hn. rewrite words_ldiff_zero by done. split; [|intros H j Hj; apply H; lia].
intros H j Hj. destruct (Z.lt_ge_cases j n); [apply H; lia|].
by rewrite getd_ge by lia.
Qed.

Lemma within_not ws vs n :
Forall word_ok ws -> Forall word_ok vs -> ~ within ws vs n ->
Z.ldiff (words_val ws) (words_val vs) <> 0.
Proof.
intros Hw Hv Hn. rewrite words_ldiff_zero by done. intros H. apply Hn. intros j Hj. apply H; lia.
Qed.

Lemma and_not_0_r w : word_ok w -> and_not w 0 = w.
Proof.
intros Hw. apply Z.bits_inj'. intros i Hi. destruct (Z.lt_ge_cases i 64).
- by rewrite and_not_bits, Z.bits_0, andb_true_r by lia.
- rewrite !word_ok_high; [done|done|done|by apply and_not_ok|done].
Qed.

(** The loops over the extra words of the longer set. *)
Lemma wp_subset_extra_a a b lo r (Q : BMS_Comparison -> Prop) :
bms_wf a -> bms_wf b -> nwords b <= lo <= nwords a ->
status_of (within (words a) (words b) lo) (within (words b) (words a) lo) r ->
Q (subset_spec (words_val (words a)) (words_val (words b))) ->
wp (subset_extra a lo BMS_SUBSET1 BMS_SUBSET2 r) Q.
Proof.
intros [Ha Hna] [Hb Hnb] Hlo Hs HQ. unfold subset_extra, nwords in *. wp_step.
apply (wp_for_up (fun i r => status_of (within (words a) (words b) i) (within (words b) (words a) lo) r));
  [lia|done|..].
- intros i t Hi Ht. wp_steps. eapply (status_step_a _ _ (within (words a) (words b) (i + 1)));
    [exact Ht| | |].
  + apply within_step; [lia|]. rewrite (getd_ge 0 (words b)) by lia.
    by rewrite and_not_0_r by (by apply getd_ok).
  + by intros r' Hr'.
  + intros Hn1 Hn2. wp_step. rewrite subset_spec_different in HQ; [done|..].
    * by apply (within_not _ _ (i + 1)).
    * by apply (within_not _ _ lo).
- intros t Ht. wp_step. erewrite status_final; [exact HQ|exact Ht|..].
  + apply within_all; [done..|lia].
  + apply within_all; [done..|lia].
Qed.

Lemma wp_subset_extra_b a b lo r (Q : BMS_Comparison -> Prop) :
bms_wf a -> bms_wf b -> nwords a <= lo <= nwords b ->
status_of (within (words a) (words b) lo) (within (words b) (words a) lo) r ->
Q (subset_spec (words_val (words a)) (words_val (words b))) ->
wp (subset_extra b lo BMS_SUBSET2 BMS_SUBSET1 r) Q.
Proof.
intros [Ha Hna] [Hb Hnb] Hlo Hs HQ. unfold subset_extra, nwords in *. wp_step.
apply (wp_for_up (fun i r => status_of (within (words a) (words b) lo) (within (words b) (words a) i) r));
  [lia|done|..].
- intros i t Hi Ht. wp_steps. eapply (status_step_b _ _ (within (words b) (words a) (i + 1)));
    [exact Ht| | |].
  + apply within_step; [lia|]. rewrite (getd_ge 0 (words a)) by lia.
    by rewrite and_not_0_r by (by apply getd_ok).
  + by intros r' Hr'.
  + intros Hn1 Hn2. wp_step. rewrite subset_spec_different in HQ; [done|..].
    * by apply (within_not _ _ lo).
    * by apply (within_not _ _ (i + 1)).
- intros t Ht. wp_step. erewrite status_final; [exact HQ|exact Ht|..].
  + apply within_all; [done..|lia].
  + apply within_all; [done..|lia].
Qed.

Lemma bms_subset_compare_val oa ob :
bms_ok oa -> bms_ok ob ->
bms_subset_compare oa ob = Ok (subset_spec (bms_val oa) (bms_val ob)).
Proof.
intros Hoa Hob. unfold bms_subset_compare.
destruct oa as [a|], ob as [b|]; [| | |done].
2: { rewrite bms_is_empty_val by done. unfold subset_spec. cbn [mbind res_bind]. f_equal.
     change (bms_val None) with 0. rewrite Z.ldiff_0_r, Z.ldiff_0_l. by destruct (_ =? 0). }
2: { rewrite bms_is_empty_val by done. unfold subset_spec. cbn [mbind res_bind]. f_equal.
     change (bms_val None) with 0. rewrite Z.ldiff_0_r, Z.ldiff_0_l. by destruct (_ =? 0). }
pose proof Hoa as [Ha Hna]. pose proof Hob as [Hb Hnb]. cbn [bms_val bms_ok] in *.
apply wp_eq. wp_step. set (n := Z.min (nwords a) (nwords b)).
apply (wp_for_up (fun i r => status_of (within (words a) (words b) i) (within (words b) (words a) i) r));
  [lia| |..].
- left. split; [done|]. split; intros j Hj; lia.
- intros i t Hi Ht. unfold n, nwords in Hi. wp_step. wp_step. wp_step. wp_step.
  pattern (subset_step (negb (and_not (getd 0 (words a) i) (getd 0 (words b) i) =? 0))
             BMS_SUBSET1 BMS_SUBSET2 t).
  eapply (status_step_a _ _ (within (words a) (words b) (i + 1))); [exact Ht| | |].
  + apply within_step; [lia|done].
  + intros r' Hr'. wp_step.
    eapply (status_step_b _ _ (within (words b) (words a) (i + 1))); [exact Hr'| | |].
    * apply within_step; [lia|done].
    * by intros r'' Hr''.
    * intros Hn1 Hn2. wp_step. symmetry.
      apply subset_spec_different; by apply (within_not _ _ (i + 1)).
  + intros Hn1 Hn2. wp_step. wp_step. symmetry. apply subset_spec_different.
    * by apply (within_not _ _ (i + 1)).
    * by apply (within_not _ _ i).
- intros t Ht. destruct (Z.ltb_spec (nwords b) (nwords a)).
  + apply (wp_subset_extra_a a b); [done..|lia|done|done].
  + destruct (Z.ltb_spec (nwords a) (nwords b)).
    * apply (wp_subset_extra_b a b); [done..|lia|done|done].
    * wp_step. eapply status_final; [exact Ht|..].
      all: apply within_all; [done..|unfold n, nwords in *; lia].
Qed.

(** ** Counting *)
Lemma i32_add_l x y : i32 (i32 x + y) = i32 (x + y).
Proof.
unfold i32. f_equal.
replace ((x + 2 ^ 31) mod 2 ^ 32 - 2 ^ 31 + y + 2 ^ 31) with ((x + 2 ^ 31) mod 2 ^ 32 + y) by lia.
rewrite Zplus_mod_idemp_l. f_equal. lia.
Qed.

Lemma words_val_shiftr_low ws j i :
Forall word_ok ws -> 0 <= j -> 0 <= i < 64 ->
Z.testbit (Z.shiftr (words_val ws) (64 * j)) i = Z.testbit (getd 0 ws j) i.
Proof.
intros Hw Hj Hi. rewrite Z.shiftr_spec, words_val_bits by (done || lia).
replace ((i + 64 * j) / 64) with j by (apply (Z.div_unique_pos _ _ _ i); lia).
by replace ((i + 64 * j) mod 64) with i by (apply (Z.mod_unique_pos _ _ j); lia).
Qed.

Lemma bitcount_words ws j n :
Forall word_ok ws -> 0 <= j -> 0 <= n <= 64 ->
bitcount (Z.to_nat (64 * j + n)) (words_val ws) =
bitcount (Z.to_nat (64 * j)) (words_val ws) + bitcount (Z.to_nat n) (getd 0 ws j).
Proof.
intros Hw Hj Hn. replace (Z.to_nat (64 * j + n)) with (Z.to_nat (64 * j) + Z.to_nat n)%nat by lia.
rewrite bitcount_add. f_equal. apply bitcount_ext. intros i Hi.
replace (Z.of_nat (Z.to_nat (64 * j))) with (64 * j) by lia.
apply words_val_shiftr_low; [done..|lia].
Qed.

Lemma wp_popcount_upto a n (Q : Z -> Prop) :
Forall word_ok (words a) -> 0 <= n <= nwords a ->
Q (i32 (bitcount (Z.to_nat (64 * n)) (words_val (words a)))) -> wp (popcount_upto a n) Q.
Proof.
intros Ha Hn HQ. unfold popcount_upto, nwords in *. wp_step.
apply (wp_for_up (fun i r => r = i32 (bitcount (Z.to_nat (64 * i)) (words_val (words a)))));
  [lia|done| |].
- intros i r Hi ->. pose proof (getd_ok (words a) i Ha) as Hw. wp_steps.
  assert (Hb : bitcount (Z.to_nat (64 * (i + 1))) (words_val (words a)) =
    bitcount (Z.to_nat (64 * i)) (words_val (words a)) + bitcount 64 (getd 0 (words a) i)).
  { replace (64 * (i + 1)) with (64 * i + 64) by lia. by rewrite bitcount_words by (done || lia). }
  destruct (Z.eqb_spec (getd 0 (words a) i) 0) as [Hz|Hnz]; cbn [negb]; wp_steps.
  + rewrite Hb, Hz, bitcount_0. f_equal. lia.
  + unfold bmw_popcount. rewrite pg_popcount64_spec by done.
    rewrite Hb. wp_steps. apply i32_add_l.
- intros t ->. done.
Qed.

(** The set's members in increasing order. *)
Definition bms_members (oa : option Bitmapset) : list Z :=
match oa with
| None => []
| Some a => filter (fun x => Z.testbit (bms_val oa) x = true) (seqZ 0 (64 * nwords a))
end.

Lemma bms_num_members_val oa : bms_ok oa -> bms_num_members oa = Ok (i32 (len (bms_members oa))).
Proof.
intros Ha. destruct oa as [a|]; [|done]. destruct Ha as [Ha Hn]. apply wp_eq.
unfold bms_num_members. apply wp_popcount_upto; [done|lia|].
rewrite bitcount_filter. unfold bms_members. cbn [bms_val]. by rewrite Z2Nat.id by lia.
Qed.

Lemma elem_of_members oa x : bms_ok oa -> (x ∈ bms_members oa <-> 0 <= x /\ Z.testbit (bms_val oa) x = true).
Proof.
intros Ha. destruct oa as [a|]; simpl.
- destruct Ha as [Ha Hn]. rewrite list_elem_of_filter, elem_of_seqZ. unfold nwords in *.
  split; [naive_solver|]. intros [Hx Hb]. split; [done|]. split; [done|].
  apply Z.nle_gt. intros Hge. rewrite words_val_bits, getd_ge in Hb; [by rewrite Z.bits_0 in Hb| |done|done].
  apply Z.div_le_lower_bound; lia.
- rewrite Z.bits_0. split; [by intros ?%elem_of_nil|naive_solver].
Qed.

Lemma bitcount_mask w n :
0 <= n < 64 -> bitcount 64 (Z.land w (u64 (2 ^ n - 1))) = bitcount (Z.to_nat n) w.
Proof.
intros Hn. replace (u64 (2 ^ n - 1)) with (Z.ones n).
2: { rewrite u64_small; [rewrite Z.ones_equiv; lia|].
     pose proof (Z.pow_pos_nonneg 2 n). pose proof (Z.pow_lt_mono_r 2 n 64). lia. }
rewrite Z.land_ones by lia.
replace 64%nat with (Z.to_nat n + Z.to_nat (64 - n))%nat by lia.
rewrite bitcount_add. rewrite Z2Nat.id by lia.
rewrite (bitcount_ext (Z.to_nat (64 - n)) _ 0), bitcount_0.
- rewrite Z.add_0_r. apply bitcount_ext. intros i Hi. apply Z.mod_pow2_bits_low. lia.
- intros i Hi. rewrite Z.shiftr_spec, Z.bits_0 by lia. apply Z.mod_pow2_bits_high. lia.
Qed.

Lemma bms_member_index_val oa x :
bms_ok oa -> 0 <= x ->
bms_member_index oa x =
  Ok (if Z.testbit (bms_val oa) x then i32 (bitcount (Z.to_nat x) (bms_val oa)) else -1).
Proof.
intros Ha Hx. unfold bms_member_index. rewrite bms_is_member_val by done. cbn [mbind res_bind].
destruct (Z.testbit (bms_val oa) x) eqn:Hm; cbn [negb]; [|done].
destruct oa as [a|]; [|simpl in Hm; by rewrite Z.bits_0 in Hm].
destruct Ha as [Ha Hn]. cbn [bms_val] in *. pose proof (BITNUM_range x Hx).
rewrite WORDNUM_div, BITNUM_mod in * by done.
assert (Hw : 0 <= x / 64 < nwords a).
{ split; [apply Z.div_pos; lia|]. apply Z.nle_gt. intros Hge.
  rewrite words_val_bits, getd_ge in Hm by (done || lia). by rewrite Z.bits_0 in Hm. }
apply wp_eq. wp_step. apply wp_popcount_upto; [done|lia|].
unfold nwords in *. wp_step. wp_step. rewrite one_shl by lia. wp_step. wp_step. wp_step.
unfold bmw_popcount. rewrite pg_popcount64_spec.
- wp_steps. rewrite bitcount_mask by lia. rewrite i32_add_l. f_equal.
  rewrite <- bitcount_words by (done || lia). do 2 f_equal. pose proof (Z.div_mod x 64). lia.
- apply land_ok; [by apply getd_ok|]. apply u64_range.
Qed.

(** ** Iteration *)

(** [r] is the least member of the value [v] above [p], or -2. *)
Definition least_above (v p r : Z) : Prop :=
(p < r /\ Z.testbit v r = true /\ forall y, p < y < r -> Z.testbit v y = false) \/
(r = -2 /\ forall y, p < y -> Z.testbit v y = false).

(** [r] is the greatest member of [v] below [p], or -2. *)
Definition greatest_below (v p r : Z) : Prop :=
(0 <= r < p /\ Z.testbit v r = true /\ forall y, r < y < p -> Z.testbit v y = false) \/
(r = -2 /\ forall y, 0 <= y < p -> Z.testbit v y = false).

Lemma word_bits_eq a j i :
bms_wf a -> 0 <= j -> 0 <= i < 64 ->
Z.testbit (words_val (words a)) (64 * j + i) = Z.testbit (getd 0 (words a) j) i.
Proof.
intros [Ha _] Hj Hi. rewrite words_val_bits by (done || lia).
replace ((64 * j + i) / 64) with j by (apply (Z.div_unique_pos _ _ _ i); lia).
by replace ((64 * j + i) mod 64) with i by (apply (Z.mod_unique_pos _ _ j); lia).
Qed.

Lemma word_index x j i : x = 64 * j + i -> 0 <= i < 64 -> x / 64 = j /\ x mod 64 = i.
Proof.
intros -> Hi. split; [symmetry; apply (Z.div_unique_pos _ _ _ i); lia|].
symmetry. apply (Z.mod_unique_pos _ _ j); lia.
Qed.

Lemma i32_word j r :
0 <= j < MAX_WORDS -> 0 <= r < 64 -> i32 (i32 (j * BITS_PER_BITMAPWORD) + r) = 64 * j + r.
Proof.
intros Hj Hr. unfold MAX_WORDS, BITS_PER_BITMAPWORD in *.
rewrite (i32_small (j * 64)), i32_small by lia. lia.
Qed.

Lemma nonzero_pos w : word_ok w -> w <> 0 -> 0 < w < 2 ^ 64.
Proof. unfold word_ok. lia. Qed.

Lemma not_member_bits a j :
bms_wf a -> 0 <= j -> getd 0 (words a) j = 0 ->
forall y, 64 * j <= y < 64 * (j + 1) -> Z.testbit (words_val (words a)) y = false.
Proof.
intros Ha Hj Hz y Hy. replace y with (64 * j + (y - 64 * j)) by lia.
rewrite word_bits_eq by (done || lia). rewrite Hz. apply Z.bits_0.
Qed.

Lemma above_words a y :
bms_wf a -> 64 * nwords a <= y -> Z.testbit (words_val (words a)) y = false.
Proof.
intros [Ha Hn] Hy. unfold nwords in *. rewrite words_val_bits by (done || lia).
rewrite getd_ge; [apply Z.bits_0|]. apply Z.div_le_lower_bound; lia.
Qed.

Lemma bms_next_member_val oa p :
bms_ok oa -> -1 <= p < 2 ^ 31 - 1 ->
wp (bms_next_member oa p) (least_above (bms_val oa) p).
Proof.
intros Ha Hp. unfold bms_next_member. destruct oa as [a|].
2: { right. split; [done|]. intros; apply Z.bits_0. }
cbn [bms_ok bms_val] in *. pose proof Ha as [Hw Hn]. rewrite i32_small by lia.
set (q := p + 1). pose proof (BITNUM_range q). rewrite WORDNUM_div, BITNUM_mod in * by lia.
pose proof (Z.div_pos q 64). pose proof (Z.div_mod q 64).
wp_step. wp_step. wp_step.
set (mask0 := Z.shiftl (bmw_not 0) (q mod 64) mod 2 ^ 64).
assert (Hmask0 : forall i, 0 <= i < 64 -> Z.testbit mask0 i = (q mod 64 <=? i)).
{ intros i Hi. unfold mask0. rewrite Z.mod_pow2_bits_low by lia. destruct (Z.leb_spec (q mod 64) i).
  - rewrite Z.shiftl_spec by lia. apply all_ones_bits. lia.
  - apply Z.shiftl_spec_low. lia. }
destruct (Z.le_gt_cases (q / 64) (nwords a)) as [Hle|Hgt].
2: { unfold for_up. replace (Z.to_nat (nwords a - q / 64)) with 0%nat by lia.
     right. split; [done|]. intros y Hy. apply above_words; [done|lia]. }
apply (wp_for_up (fun j mask =>
  (forall y, q <= y < 64 * j -> Z.testbit (words_val (words a)) y = false) /\
  word_ok mask /\
  forall i, 0 <= i < 64 -> Z.testbit mask i = (q <=? 64 * j + i))); [done|..].
- split; [intros y Hy; lia|]. split; [apply Z.mod_pos_bound; lia|]. intros i Hi. rewrite Hmask0 by done.
  destruct (Z.leb_spec (q mod 64) i), (Z.leb_spec q (64 * (q / 64) + i)); try done; lia.
- intros j mask Hj (Hprev & Hmok & Hmask). unfold nwords in Hj, Hn. wp_step. wp_step.
  set (w := Z.land (getd 0 (words a) j) mask).
  assert (Hwok : word_ok w) by (apply land_ok; [by apply getd_ok|apply Hmok]).
  assert (Hwbit : forall i, 0 <= i < 64 -> Z.testbit w i =
    Z.testbit (words_val (words a)) (64 * j + i) && (q <=? 64 * j + i)).
  { intros i Hi. unfold w. rewrite Z.land_spec, Hmask by done.
    by rewrite word_bits_eq by (done || lia). }
  destruct (Z.eqb_spec w 0) as [Hz|Hnz]; cbn [negb].
  + wp_step. split; [|split; [apply bmw_not_ok|]].
    * intros y Hy. destruct (Z.lt_ge_cases y (64 * j)); [apply Hprev; lia|].
      specialize (Hwbit (y - 64 * j)). replace (64 * j + (y - 64 * j)) with y in Hwbit by lia.
      rewrite Hz, Z.bits_0 in Hwbit. destruct (Z.leb_spec q y); [|lia].
      rewrite andb_true_r in Hwbit. symmetry. apply Hwbit; lia.
    * intros i Hi. rewrite all_ones_bits by done. symmetry. apply Z.leb_le. lia.
  + wp_step. apply wp_rightmost64; [by apply nonzero_pos|]. intros r (Hr0 & Hr1 & Hr2) Hr3.
    wp_step. wp_step. left. rewrite i32_word by lia. rewrite Hwbit in Hr1 by lia.
    apply andb_prop in Hr1 as [Hr1 Hrq]. split; [lia|]. split; [done|].
    intros y Hy. destruct (Z.lt_ge_cases y (64 * j)); [apply Hprev; lia|].
    specialize (Hr2 (y - 64 * j)). rewrite Hwbit in Hr2 by lia.
    replace (64 * j + (y - 64 * j)) with y in Hr2 by lia.
    destruct (Z.leb_spec q y); [|lia]. rewrite andb_true_r in Hr2. apply Hr2; lia.
- intros mask (Hall & _). wp_step. right. split; [done|]. intros y Hy.
  destruct (Z.lt_ge_cases y (64 * nwords a)); [apply Hall; lia|]. by apply above_words.
Qed.

Lemma bms_prev_member_words a p (Q : Z -> Prop) :
bms_wf a -> 0 <= p < 64 * nwords a ->
(forall r, greatest_below (words_val (words a)) (p + 1) r -> Q r) ->
wp (mask ← shr 64 (bmw_not 0) (BITS_PER_BITMAPWORD - (BITNUM p + 1));
    o ← for_down (WORDNUM p) 0 (fun wordnum mask =>
      w ← rd (words a) wordnum;
      let w := Z.land w mask in
      if negb (w =? 0) then
        p ← bmw_leftmost_one_pos w;
        Ok (inr (i32 (i32 (wordnum * BITS_PER_BITMAPWORD) + p)))
      else Ok (inl (bmw_not 0))) mask;
    match o with inl _ => Ok (-2) | inr r => Ok r end) Q.
Proof.
intros Ha Hp HQ. pose proof Ha as [Hw Hn].
rewrite WORDNUM_div, BITNUM_mod by lia.
change (BITS_PER_BITMAPWORD - (p mod 64 + 1)) with (64 - (p mod 64 + 1)).
pose proof (Z.mod_pos_bound p 64). pose proof (Z.div_pos p 64). pose proof (Z.div_mod p 64).
wp_step. wp_step. wp_step.
apply (wp_for_down (fun j mask =>
  (forall y, 64 * (j + 1) <= y <= p -> Z.testbit (words_val (words a)) y = false) /\
  word_ok mask /\
  forall i, 0 <= i < 64 -> Z.testbit mask i = (64 * j + i <=? p))); [lia|..].
- split; [intros y Hy; lia|]. split; [apply umask_ok; lia|]. intros i Hi.
  rewrite umask_bits by lia.
  destruct (Z.leb_spec i (p mod 64)), (Z.leb_spec (64 * (p / 64) + i) p); try done; lia.
- intros j mask Hj (Hprev & Hmok & Hmask). unfold nwords in *. wp_step. wp_step.
  set (w := Z.land (getd 0 (words a) j) mask).
  assert (Hwok : word_ok w) by (apply land_ok; [by apply getd_ok|apply Hmok]).
  assert (Hwbit : forall i, 0 <= i < 64 -> Z.testbit w i =
    Z.testbit (words_val (words a)) (64 * j + i) && (64 * j + i <=? p)).
  { intros i Hi. unfold w. rewrite Z.land_spec, Hmask by done.
    by rewrite word_bits_eq by (done || lia). }
  destruct (Z.eqb_spec w 0) as [Hz|Hnz]; cbn [negb].
  + wp_step. split; [|split; [apply bmw_not_ok|]].
    * intros y Hy. destruct (Z.le_gt_cases (64 * (j + 1)) y); [apply Hprev; lia|].
      specialize (Hwbit (y - 64 * j)). replace (64 * j + (y - 64 * j)) with y in Hwbit by lia.
      rewrite Hz, Z.bits_0 in Hwbit. destruct (Z.leb_spec y p); [|lia].
      rewrite andb_true_r in Hwbit. symmetry. apply Hwbit; lia.
    * intros i Hi. rewrite all_ones_bits by done. symmetry. apply Z.leb_le. lia.
  + wp_step. apply wp_leftmost64; [by apply nonzero_pos|]. intros r (Hr0 & Hr1 & Hr2) Hr3.
    wp_step. wp_step. apply HQ. left. rewrite i32_word by lia. rewrite Hwbit in Hr1 by lia.
    apply andb_prop in Hr1 as [Hr1 Hrq]. split; [lia|]. split; [done|].
    intros y Hy. destruct (Z.le_gt_cases (64 * (j + 1)) y); [apply Hprev; lia|].
    specialize (Hr2 (y - 64 * j)). rewrite Hwbit in Hr2 by lia.
    replace (64 * j + (y - 64 * j)) with y in Hr2 by lia.
    destruct (Z.leb_spec y p); [|lia]. rewrite andb_true_r in Hr2. apply Hr2; lia.
- intros mask (Hall & _). wp_step. apply HQ. right. split; [done|]. intros y Hy. apply Hall. lia.
Qed.

Lemma bms_prev_member_val a p :
bms_wf a -> 0 <= p <= 64 * nwords a -> p < 2 ^ 31 ->
wp (bms_prev_member (Some a) p) (greatest_below (words_val (words a)) p).
Proof.
intros Ha Hp Hmax. unfold bms_prev_member. destruct (Z.eqb_spec p 0) as [->|Hnz].
{ right. split; [done|lia]. }
destruct (Z.eqb_spec p (-1)); [lia|]. rewrite i32_small by lia.
apply bms_prev_member_words; [done|lia|]. intros r. by replace (p - 1 + 1) with p by lia.
Qed.

(** From -1 the search starts at the last bit of the last word, also when the
  set fills the range of [int] and the product wraps around. *)
Lemma bms_prev_member_last a :
bms_wf a -> wp (bms_prev_member (Some a) (-1)) (greatest_below (words_val (words a)) (64 * nwords a)).
Proof.
intros Ha. pose proof Ha as [Hw Hn].
assert (Hlast : i32 (i32 (nwords a * BITS_PER_BITMAPWORD) - 1) = 64 * nwords a - 1).
{ rewrite <- Z.add_opp_r, i32_add_l. unfold BITS_PER_BITMAPWORD, MAX_WORDS in *.
  rewrite i32_small; lia. }
unfold bms_prev_member. change (-1 =? 0) with false. change (-1 =? -1) with true.
cbv beta iota zeta. rewrite Hlast.
apply (bms_prev_member_words a (64 * nwords a - 1)); [done|lia|].
intros r. by replace (64 * nwords a - 1 + 1) with (64 * nwords a) by lia.
Qed.

(** ** Extraction of the first member *)
Definition first_member_spec (oa : option Bitmapset) (out : Z * option Bitmapset) : Prop :=
(fst out = -1 /\ bms_val oa = 0 /\ snd out = oa) \/
(lowest_bit (bms_val oa) (fst out) /\ bms_ok (snd out) /\
 bms_val (snd out) = Z.ldiff (bms_val oa) (2 ^ fst out)).

Lemma words_below_zero a j :
bms_wf a -> (forall k, 0 <= k < j -> getd 0 (words a) k = 0) ->
forall y, 0 <= y < 64 * j -> Z.testbit (words_val (words a)) y = false.
Proof.
intros [Ha _] Hz y Hy. rewrite words_val_bits by (done || lia).
rewrite Hz; [apply Z.bits_0|].
split; [apply Z.div_pos; lia|apply Z.div_lt_upper_bound; lia].
Qed.

Lemma lowest_bit_pow2 r : 0 <= r -> lowest_bit (2 ^ r) r.
Proof.
intros Hr. split; [done|]. split; [by apply Z.pow2_bits_true|].
intros j Hj. apply Z.pow2_bits_false. lia.
Qed.

Lemma lowest_bit_unique w r r' : lowest_bit w r -> lowest_bit w r' -> r = r'.
Proof.
intros (H1 & H2 & H3) (H1' & H2' & H3').
destruct (Z.lt_trichotomy r r') as [Hlt|[?|Hgt]]; [|done|].
- rewrite H3' in H2 by lia. done.
- rewrite H3 in H2' by lia. done.
Qed.

Lemma bms_first_member_val oa : bms_ok oa -> wp (bms_first_member oa) (first_member_spec oa).
Proof.
intros Ha. destruct oa as [a|]; [|by left]. pose proof Ha as [Hw Hn].
unfold bms_first_member. wp_step.
apply (wp_for_up (fun j (_ : unit) => forall k, 0 <= k < j -> getd 0 (words a) k = 0));
  [lia|intros k Hk; lia|..].
- intros j [] Hj Hprev. unfold nwords in Hj, Hn. wp_step. wp_step.
  pose proof (getd_ok (words a) j Hw) as Hok.
  destruct (Z.eqb_spec (getd 0 (words a) j) 0) as [Hz|Hnz]; cbn [negb].
  + wp_step. intros k Hk. destruct (Z.eq_dec k j) as [->|]; [done|apply Hprev; lia].
  + assert (exists r, lowest_bit (getd 0 (words a) j) r /\ r < 64) as (r & Hr & Hr64).
    { pose proof (wp_rightmost64 _ (fun r => lowest_bit (getd 0 (words a) j) r /\ r < 64)
        (nonzero_pos _ Hok Hnz)) as H. apply wp_ok in H; [naive_solver|done]. }
    pose proof Hr as (Hr0 & Hr1 & Hr2).
    rewrite (RIGHTMOST_ONE_spec _ r) by done. cbv zeta. wp_step. wp_step.
    wp_step. apply wp_rightmost64; [apply nonzero_pos; [apply pow2_ok; lia|]|].
    { pose proof (Z.pow_pos_nonneg 2 r). lia. }
    intros r' Hr' _. rewrite (lowest_bit_unique _ _ _ Hr' (lowest_bit_pow2 r Hr0)).
    wp_step. right. cbn [fst snd bms_val]. rewrite i32_word by lia.
    split; [|].
    * split; [lia|]. rewrite word_bits_eq by (done || lia). split; [done|].
      intros y Hy. destruct (Z.lt_ge_cases y (64 * j)).
      -- apply (words_below_zero a j); [done|done|lia].
      -- replace y with (64 * j + (y - 64 * j)) by lia. rewrite word_bits_eq by (done || lia).
         apply Hr2. lia.
    * destruct (words_val_upd (words a) j (and_not (getd 0 (words a) j) (2 ^ r))
        (Z.ldiff (words_val (words a)) (2 ^ (64 * j + r)))) as [Hu1 Hu2].
      -- done.
      -- by apply and_not_ok.
      -- lia.
      -- intros x Hx. rewrite Z.ldiff_spec, Z.pow2_bits_eqb by lia.
         destruct (word_index (64 * j + r) j r) as [Hq1 Hq2]; [done|lia|].
         rewrite split_eqb, Hq1, Hq2 by lia. pose proof (Z.mod_pos_bound x 64).
         destruct (Z.eqb_spec (x / 64) j) as [Heq|]; simpl; [|by rewrite andb_true_r].
         by rewrite words_val_bits, Heq, and_not_bits, Z.pow2_bits_eqb by (done || lia).
      -- split; [split; [done|unfold nwords; cbn [words]; rewrite len_upd; done]|done].
- intros [] Hall. left. split; [done|]. split; [|done]. cbn [bms_val].
  apply words_val_zero; [done|]. exact Hall.
Qed.

(** ** Singletons *)

(** Two different members. *)
Definition many (v : Z) : Prop :=
exists x y, 0 <= x /\ 0 <= y /\ x <> y /\ Z.testbit v x = true /\ Z.testbit v y = true.

Lemma many_not_pow2 v x : many v -> 0 <= x -> v <> 2 ^ x.
Proof.
intros (y & z & Hy & Hz & Hne & Hby & Hbz) Hx ->.
rewrite Z.pow2_bits_eqb in Hby, Hbz by done. apply Z.eqb_eq in Hby, Hbz. lia.
Qed.

Lemma multiple_ones_spec w r :
word_ok w -> lowest_bit w r -> r < 64 ->
if HAS_MULTIPLE_ONES w then exists r', r < r' < 64 /\ Z.testbit w r' = true else w = 2 ^ r.
Proof.
intros Hw Hr H64. pose proof Hr as (Hr0 & Hr1 & Hr2).
unfold HAS_MULTIPLE_ONES. rewrite (RIGHTMOST_ONE_spec w r) by done.
destruct (Z.eqb_spec (2 ^ r) w) as [Heq|Hne]; cbn [negb]; [done|].
assert (Hd : Z.ldiff w (2 ^ r) <> 0).
{ intros Hz. apply Hne. apply Z.bits_inj'. intros i Hi.
  pose proof (f_equal (fun v => Z.testbit v i) Hz) as Hzi. simpl in Hzi.
  rewrite Z.ldiff_spec, Z.bits_0, Z.pow2_bits_eqb in Hzi by lia. rewrite Z.pow2_bits_eqb by lia.
  destruct (Z.eqb_spec r i) as [->|]; [done|]. by rewrite andb_true_r in Hzi. }
destruct (nonzero_testbit (Z.ldiff w (2 ^ r))) as (i & Hi & Hb).
{ apply Z.ldiff_nonneg. left. apply Hw. }
{ done. }
rewrite Z.ldiff_spec, Z.pow2_bits_eqb in Hb by lia. apply andb_prop in Hb as [Hb1 Hb2].
apply negb_true_iff, Z.eqb_neq in Hb2. exists i. split; [|done]. split.
- apply Z.nle_gt. intros Hle. rewrite Hr2 in Hb1; [done|lia].
- apply Z.nle_gt. intros Hge. by rewrite word_ok_high in Hb1.
Qed.

(** What the words below [j] hold: nothing ([None]) or the single member [x]. *)
Definition one_below (a : Bitmapset) (j : Z) (o : option Z) : Prop :=
match o with
| None => forall k, 0 <= k < j -> getd 0 (words a) k = 0
| Some x => 0 <= x < 64 * j /\
    forall k, 0 <= k < j -> getd 0 (words a) k = if k =? x / 64 then 2 ^ (x mod 64) else 0
end.

Lemma one_below_val a o :
bms_wf a -> one_below a (nwords a) o ->
words_val (words a) = match o with None => 0 | Some x => 2 ^ x end.
Proof.
intros [Ha Hn] Ho. destruct o as [x|]; [|by apply words_val_zero].
destruct Ho as [Hx Hk]. apply Z.bits_inj'. intros i Hi.
rewrite words_val_bits, Z.pow2_bits_eqb, split_eqb by (done || lia).
pose proof (Z.mod_pos_bound x 64). unfold nwords in *.
destruct (Z.lt_ge_cases (i / 64) (len (words a))).
- rewrite Hk by (split; [apply Z.div_pos; lia|done]).
  destruct (Z.eqb_spec (i / 64) (x / 64)); simpl; [|apply Z.bits_0].
  by rewrite Z.pow2_bits_eqb by lia.
- rewrite getd_ge, Z.bits_0 by done. destruct (Z.eqb_spec (i / 64) (x / 64)) as [Heq|]; [|done].
  assert (x / 64 < len (words a)) by (apply Z.div_lt_upper_bound; lia). lia.
Qed.

Lemma one_below_zero a j o :
0 <= j -> one_below a j o -> getd 0 (words a) j = 0 -> one_below a (j + 1) o.
Proof.
intros Hj Ho Hz. destruct o as [x|]; simpl in *.
- destruct Ho as [Hx Hk]. split; [lia|]. intros k Hk1.
  destruct (Z.eq_dec k j) as [->|]; [|apply Hk; lia]. rewrite Hz.
  destruct (Z.eqb_spec j (x / 64)) as [->|]; [|done].
  assert (x / 64 < x / 64) by (apply Z.div_lt_upper_bound; lia). lia.
- intros k Hk. destruct (Z.eq_dec k j) as [->|]; [done|apply Ho; lia].
Qed.

Lemma one_below_next a j r :
0 <= j -> 0 <= r < 64 -> one_below a j None -> getd 0 (words a) j = 2 ^ r ->
one_below a (j + 1) (Some (64 * j + r)).
Proof.
intros Hj Hr Ho Hw. destruct (word_index (64 * j + r) j r) as [Hq1 Hq2]; [done..|].
simpl. split; [lia|]. rewrite Hq1, Hq2. intros k Hk.
destruct (Z.eqb_spec k j) as [->|]; [done|apply Ho; lia].
Qed.

Lemma one_below_many a j x :
bms_wf a -> 0 <= j -> one_below a j (Some x) -> getd 0 (words a) j <> 0 ->
many (words_val (words a)).
Proof.
intros Ha Hj [Hx Hk] Hnz. destruct (nonzero_testbit (getd 0 (words a) j)) as (i & Hi & Hb).
{ apply (getd_ok (words a) j), Ha. }
{ done. }
assert (i < 64).
{ apply Z.nle_gt. intros Hge. rewrite word_ok_high in Hb; [done|apply getd_ok, Ha|done]. }
assert (0 <= x / 64 < j) by (split; [apply Z.div_pos; lia|apply Z.div_lt_upper_bound; lia]).
pose proof (Z.mod_pos_bound x 64). pose proof (Z.div_mod x 64).
exists x, (64 * j + i). split; [lia|]. split; [lia|]. split; [lia|].
rewrite word_bits_eq by (done || lia). split; [|done].
rewrite words_val_bits, Hk, Z.eqb_refl by (apply Ha || lia). apply Z.pow2_bits_true. lia.
Qed.

Lemma word_many a j :
bms_wf a -> 0 <= j -> getd 0 (words a) j <> 0 -> HAS_MULTIPLE_ONES (getd 0 (words a) j) = true ->
many (words_val (words a)).
Proof.
intros Ha Hj Hnz Hm. pose proof (getd_ok (words a) j (proj1 Ha)) as Hok.
pose proof (wp_rightmost64 _ (fun r => lowest_bit (getd 0 (words a) j) r /\ r < 64)
        (nonzero_pos _ Hok Hnz) ltac:(done)) as H.
apply wp_ok in H as (r & _ & Hr & Hr64). pose proof Hr as (Hr0 & Hr1 & _).
pose proof (multiple_ones_spec _ r Hok Hr Hr64) as Hs. rewrite Hm in Hs.
destruct Hs as (r' & Hr' & Hb). exists (64 * j + r), (64 * j + r').
rewrite !word_bits_eq by (done || lia). repeat split; try lia; done.
Qed.

(** The member of a singleton, [None] for an empty set. *)
Definition single (v : Z) (o : option Z) : Prop :=
match o with None => v = 0 | Some x => 0 <= x < 2 ^ 31 /\ v = 2 ^ x end.

Lemma single_not_many v o : single v o -> ~ many v.
Proof.
intros Hs Hm. destruct o as [x|]; simpl in Hs.
- destruct Hs as [Hx ->]. by apply (many_not_pow2 _ x Hm); [lia|].
- subst. destruct Hm as (x & _ & _ & _ & _ & Hb & _). by rewrite Z.bits_0 in Hb.
Qed.

Lemma lowest_exists w : word_ok w -> w <> 0 -> exists r, lowest_bit w r /\ r < 64.
Proof.
intros Hok Hnz.
pose proof (wp_rightmost64 _ (fun r => lowest_bit w r /\ r < 64) (nonzero_pos _ Hok Hnz)) as H.
apply wp_ok in H; [naive_solver|done].
Qed.

Definition result_of (o : option Z) : Z := match o with None => -1 | Some x => x end.

(** The loop ends with the only member or -1, or leaves on a second member. *)
Lemma wp_singleton_loop a (Q : Z + unit -> Prop) :
bms_wf a ->
(forall o, single (words_val (words a)) o -> Q (inl (result_of o))) ->
(many (words_val (words a)) -> Q (inr tt)) ->
wp (singleton_loop a) Q.
Proof.
intros Ha Hone Hmany. pose proof Ha as [Hw Hn]. unfold singleton_loop.
apply (wp_for_up (fun j r => exists o, one_below a j o /\ r = result_of o)); [lia|..].
- exists None. split; [|done]. intros k Hk. lia.
- intros j r Hj (o & Ho & ->). pose proof (getd_ok (words a) j Hw) as Hok.
  unfold nwords in Hj, Hn. wp_step. wp_step.
  destruct (Z.eqb_spec (getd 0 (words a) j) 0) as [Hz|Hnz]; cbn [negb].
  { wp_step. exists o. split; [|done]. apply one_below_zero; [lia|done|done]. }
  destruct o as [x|]; simpl result_of.
  + destruct Ho as [Hx Hk]. destruct (Z.leb_spec 0 x); [|lia]. cbn [orb]. wp_step.
    apply Hmany, (one_below_many a j x); [done|lia|by split|done].
  + cbn [Z.leb Z.compare orb].
    destruct (HAS_MULTIPLE_ONES (getd 0 (words a) j)) eqn:Hm.
    { wp_step. apply Hmany, (word_many a j); [done|lia|done|done]. }
    wp_step. apply wp_rightmost64; [by apply nonzero_pos|]. intros r Hr Hr64.
    pose proof (multiple_ones_spec _ r Hok Hr Hr64) as Hp. rewrite Hm in Hp.
    wp_step. rewrite i32_word by (destruct Hr; lia). exists (Some (64 * j + r)).
    split; [|done]. apply one_below_next; [lia|destruct Hr; lia|done|done].
- intros r (o & Ho & ->). apply Hone. pose proof (one_below_val a o Ha Ho) as Hv.
  destruct o as [x|]; simpl in *; [|done]. split; [|done].
  unfold MAX_WORDS, nwords in *. lia.
Qed.

Lemma bms_singleton_member_ok oa x :
bms_ok oa -> 0 <= x -> bms_val oa = 2 ^ x -> bms_singleton_member oa = Ok x.
Proof.
intros Ha Hx Hv. destruct oa as [a|].
2: { pose proof (Z.pow_pos_nonneg 2 x). simpl in Hv. lia. }
apply wp_eq. unfold bms_singleton_member. wp_step. apply wp_singleton_loop; [done|..].
- cbn [bms_val] in Hv. rewrite Hv. intros [y|]; simpl.
  + intros [Hy Heq]. apply Z.pow_inj_r in Heq; [|lia..]. subst.
    destruct (Z.ltb_spec y 0); [lia|]. done.
  + pose proof (Z.pow_pos_nonneg 2 x). lia.
- intros Hm. exfalso. by apply (many_not_pow2 _ x Hm).
Qed.

(** [singleton_loop] as a function of the value, for the error branches. *)
Lemma singleton_loop_cases a :
bms_wf a ->
(exists o, single (words_val (words a)) o /\ singleton_loop a = Ok (inl (result_of o))) \/
(many (words_val (words a)) /\ singleton_loop a = Ok (inr tt)).
Proof.
intros Ha.
pose proof (wp_singleton_loop a (fun out =>
  (exists o, single (words_val (words a)) o /\ out = inl (result_of o)) \/
  (many (words_val (words a)) /\ out = inr tt)) Ha) as H.
apply wp_ok in H; [|by left; eauto|by right].
destruct H as (out & -> & [(o & Ho & ->)|[Hm ->]]); [left; by exists o|by right].
Qed.

Lemma bms_singleton_member_err oa :
bms_ok oa ->
(bms_val oa = 0 -> bms_singleton_member oa = Err "bitmapset is empty") /\
(many (bms_val oa) -> bms_singleton_member oa = Err "bitmapset has multiple members").
Proof.
intros Ha. destruct oa as [a|]; simpl.
- unfold bms_singleton_member. destruct (singleton_loop_cases a Ha) as [(o & Ho & ->)|[Hm ->]].
  + split; [|intros Hm; by apply (single_not_many _ o) in Hm]. intros Hz.
    destruct o as [x|]; [|done]. destruct Ho as [Hx Hv].
    pose proof (Z.pow_pos_nonneg 2 x). lia.
  + split; [|done]. intros Hz. by apply (single_not_many _ None Hz) in Hm.
- split; [done|]. intros Hm. by apply (single_not_many 0 None eq_refl) in Hm.
Qed.

Lemma bms_get_singleton_member_val oa o :
bms_ok oa -> bms_get_singleton_member oa = Ok o ->
match o with
| Some x => 0 <= x /\ bms_val oa = 2 ^ x
| None => bms_val oa = 0 \/ many (bms_val oa)
end.
Proof.
intros Ha. destruct oa as [a|]; simpl; [|intros [= <-]; by left].
destruct (singleton_loop_cases a Ha) as [([x|] & Ho & ->)|[Hm ->]]; simpl in *.
- destruct Ho as [Hx Hv]. destruct (Z.ltb_spec x 0); [lia|].
  intros [= <-]. split; [lia|done].
- intros [= <-]. by left.
- intros [= <-]. by right.
Qed.

Lemma bms_get_singleton_member_total oa : bms_ok oa -> exists o, bms_get_singleton_member oa = Ok o.
Proof.
intros Ha. destruct oa as [a|]; simpl; [|by eexists].
destruct (singleton_loop_cases a Ha) as [([x|] & Ho & ->)|[Hm ->]]; simpl; try by eexists.
destruct (Z.ltb_spec x 0); by eexists.
Qed.

Lemma bms_membership_val oa :
bms_ok oa ->
wp (bms_membership oa) (fun m =>
  match m with
  | BMS_EMPTY_SET => bms_val oa = 0
  | BMS_SINGLETON => exists x, 0 <= x /\ bms_val oa = 2 ^ x
  | BMS_MULTIPLE => many (bms_val oa)
  end).
Proof.
intros Ha. destruct oa as [a|]; [|done]. pose proof Ha as [Hw Hn]. unfold bms_membership.
cbn [bms_val bms_ok] in *. wp_step.
apply (wp_for_up (fun j r => exists o, one_below a j o /\
  r = match o with None => BMS_EMPTY_SET | Some _ => BMS_SINGLETON end)); [lia|..].
- exists None. split; [|done]. intros k Hk. lia.
- intros j r Hj (o & Ho & ->). pose proof (getd_ok (words a) j Hw) as Hok.
  unfold nwords in Hj, Hn. wp_step. wp_step.
  destruct (Z.eqb_spec (getd 0 (words a) j) 0) as [Hz|Hnz]; cbn [negb].
  { wp_step. exists o. split; [|done]. apply one_below_zero; [lia|done|done]. }
  destruct o as [x|].
  + rewrite bool_decide_true by done. cbn [orb]. wp_step. wp_step.
    apply (one_below_many a j x); [done|lia|done|done].
  + rewrite bool_decide_false by (intros H; by apply H). cbn [orb].
    destruct (HAS_MULTIPLE_ONES (getd 0 (words a) j)) eqn:Hm; wp_step.
    { wp_step. apply (word_many a j); [done|lia|done|done]. }
    destruct (lowest_exists _ Hok Hnz) as (r & Hr & Hr64).
    pose proof (multiple_ones_spec _ r Hok Hr Hr64) as Hp. rewrite Hm in Hp.
    exists (Some (64 * j + r)). split; [|done].
    apply one_below_next; [lia|destruct Hr; lia|done|done].
- intros r (o & Ho & ->). pose proof (one_below_val a o Ha Ho) as Hv.
  wp_step. destruct o as [x|]; [|done]. exists x. split; [apply Ho|done].
Qed.

(** ** Lists and hashing *)
Lemma overlap_list_loop_val a (b : list Z) :
bms_wf a -> Forall (fun x => 0 <= x) b ->
overlap_list_loop a b = Ok (existsb (Z.testbit (words_val (words a))) b).
Proof.
intros Ha Hb. induction Hb as [|x b Hx Hb IH]; [done|]. cbn [overlap_list_loop existsb].
destruct (Z.ltb_spec x 0); [lia|]. rewrite IH.
pose proof (bms_is_member_val x (Some a) Ha Hx) as Hm. unfold bms_is_member in Hm.
destruct (Z.ltb_spec x 0); [lia|]. cbn [bms_val] in Hm.
destruct (Z.ltb_spec (WORDNUM x) (nwords a)), (Z.leb_spec (nwords a) (WORDNUM x)); try lia.
- destruct (rd (words a) (WORDNUM x)); simpl in *; [|done..].
  destruct (shl 64 1 (BITNUM x)); simpl in *; [|done..].
  destruct (negb _); injection Hm as <-; done.
- injection Hm as <-. done.
Qed.

Lemma bms_overlap_list_val oa (b : list Z) :
bms_ok oa -> Forall (fun x => 0 <= x) b ->
bms_overlap_list oa b = Ok (existsb (Z.testbit (bms_val oa)) b).
Proof.
intros Ha Hb. destruct oa as [a|]; simpl.
- destruct b as [|x b]; [done|]. by apply overlap_list_loop_val.
- f_equal. induction Hb as [|x b Hx Hb IH]; [done|]. simpl. by rewrite Z.bits_0.
Qed.

(** The words up to the last nonzero one. *)
Fixpoint strip (ws : list Z) : list Z :=
match ws with
| [] => []
| w :: ws' => match strip ws' with
              | [] => if w =? 0 then [] else [w]
              | vs => w :: vs
              end
end.

Lemma strip_zero ws : (forall j, 0 <= j < len ws -> getd 0 ws j = 0) -> strip ws = [].
Proof.
induction ws as [|w ws IH]; intros H; [done|]. rewrite len_cons in H. simpl.
pose proof (len_nonneg ws).
rewrite IH.
- specialize (H 0). unfold getd in H. simpl in H. rewrite H by lia. done.
- intros j Hj. specialize (H (j + 1)). unfold getd in *.
  replace (Z.to_nat (j + 1)) with (S (Z.to_nat j)) in H by lia. apply H. lia.
Qed.

Lemma strip_last ws n :
0 <= n < len ws -> getd 0 ws n <> 0 -> (forall j, n < j < len ws -> getd 0 ws j = 0) ->
strip ws = take (Z.to_nat (n + 1)) ws.
Proof.
revert n; induction ws as [|w ws IH]; intros n Hn Hnz Hz; [change (len (@nil Z)) with 0 in Hn; lia|].
rewrite len_cons in Hn, Hz.
replace (Z.to_nat (n + 1)) with (S (Z.to_nat n)) by lia. cbn [take strip].
assert (Hshift : forall j, 0 <= j -> getd 0 (w :: ws) (j + 1) = getd 0 ws j).
{ intros j Hj. unfold getd. by replace (Z.to_nat (j + 1)) with (S (Z.to_nat j)) by lia. }
destruct (Z.eq_dec n 0) as [->|Hn0].
- rewrite strip_zero.
  + unfold getd in Hnz. simpl in *. by destruct (Z.eqb_spec w 0).
  + intros j Hj. rewrite <- Hshift by lia. apply Hz. lia.
- rewrite (IH (n - 1)).
  + replace (n - 1 + 1) with n by lia. destruct ws as [|v ws]; [change (len (@nil Z)) with 0 in Hn; lia|].
    by destruct (Z.to_nat n) eqn:E; [lia|].
  + lia.
  + rewrite <- Hshift by lia. by replace (n - 1 + 1) with n by lia.
  + intros j Hj. rewrite <- Hshift by lia. apply Hz. lia.
Qed.

Lemma strip_ext ws vs :
(forall j, 0 <= j -> getd 0 ws j = getd 0 vs j) -> strip ws = strip vs.
Proof.
revert vs; induction ws as [|w ws IH]; intros vs H.
- symmetry. apply strip_zero. intros j Hj. rewrite <- H by lia. unfold getd. by rewrite lookup_nil.
- destruct vs as [|v vs].
  + apply strip_zero. intros j Hj. rewrite H by lia. unfold getd. by rewrite lookup_nil.
  + simpl. rewrite (IH vs).
    * pose proof (H 0) as H0. unfold getd in H0. simpl in H0. by rewrite H0.
    * intros j Hj. specialize (H (j + 1)). unfold getd in *.
      replace (Z.to_nat (j + 1)) with (S (Z.to_nat j)) in H by lia. apply H. lia.
Qed.

Lemma bms_hash_value_val hash_any oa :
bms_ok oa ->
bms_hash_value hash_any oa =
  Ok (match oa with
      | None => 0
      | Some a => match strip (words a) with [] => 0 | ws => hash_any ws end
      end).
Proof.
intros Ha. destruct oa as [a|]; [|done]. destruct Ha as [Ha Hn].
apply wp_eq. unfold bms_hash_value, nwords in *. wp_step.
apply (wp_find_down (fun i => negb (getd 0 (words a) i =? 0)) (fun i => i)).
- intros i Hi. wp_steps. by destruct (negb _).
- intros H. wp_step. rewrite strip_zero; [done|]. intros j Hj.
  specialize (H j). rewrite negb_false_iff, Z.eqb_eq in H. apply H; lia.
- intros i Hi Ht Hz. wp_step. apply negb_true_iff, Z.eqb_neq in Ht.
  rewrite (strip_last (words a) i); [|lia|done|].
  + destruct (words a); [change (len (@nil Z)) with 0 in Hn; lia|].
    by replace (Z.to_nat (i + 1)) with (S (Z.to_nat i)) by lia.
  + intros j Hj. specialize (Hz j). rewrite negb_false_iff, Z.eqb_eq in Hz. apply Hz; lia.
Qed.
End Ops.
