(* ===== verification/BitmapsetProps.v ===== *)
(** * Bitmap sets: the theorems

    The contract of src/backend/nodes/bitmapset.c, stated over the operations
    themselves: membership after each operation, the order, the equivalence
    of the two representations of a set, iteration, counting and hashing. *)
From S2P Require Import Prelude.
From S2P Require Import BitUtils.
From S2P Require Import Bitmapset.
From S2P Require Import BitmapsetVal.
From S2P Require Import BitmapsetTests.

(** ** Statements *)

(** [op a b] returns a well-formed set, and a member test on it answers [f] of
    the member tests on [a] and [b]. *)
Definition set_op (op : option Bitmapset -> option Bitmapset -> res (option Bitmapset))
    (f : bool -> bool -> bool) (a b : option Bitmapset) : Prop :=
  exists c, op a b = Ok c /\ bms_ok c /\
    forall x, 0 <= x ->
      exists ma mb, bms_is_member x a = Ok ma /\ bms_is_member x b = Ok mb /\
        bms_is_member x c = Ok (f ma mb).

(** The pattern of the comments at bitmapset.c 1005-1010 and 1062-1066:
    [x = -1; while ((x = next(inputset, x)) >= 0) process member x;] *)
Fixpoint iterate (next : Z -> res Z) (fuel : nat) (x : Z) : res (list Z) :=
  match fuel with
  | O => UB "loop does not end"
  | S f =>
      r ← next x;
      if 0 <=? r then rest ← iterate next f r; Ok (r :: rest) else Ok []
  end.

(** [while ((x = bms_first_member(inputset)) >= 0) process member x;] *)
Fixpoint drain (fuel : nat) (a : option Bitmapset) : res (list Z * option Bitmapset) :=
  match fuel with
  | O => UB "loop does not end"
  | S f =>
      '(r, a') ← bms_first_member a;
      if 0 <=? r then '(rest, a'') ← drain f a'; Ok (r :: rest, a'') else Ok ([], a')
  end.

(** [bms_add_member] called on each of [xs] in turn. *)
Fixpoint add_each (a : option Bitmapset) (xs : list Z) : res (option Bitmapset) :=
  match xs with
  | [] => Ok a
  | x :: xs' => a' ← bms_add_member a x; add_each a' xs'
  end.

(** ** Lemmas *)
Section Lemmas.
Implicit Types a b c : option Bitmapset.

Lemma set_op_val op f a b v :
bms_ok a -> bms_ok b -> returns_set (op a b) v ->
(forall x, 0 <= x -> Z.testbit v x = f (Z.testbit (bms_val a) x) (Z.testbit (bms_val b) x)) ->
set_op op f a b.
Proof.
intros Ha Hb (c & Hop & Hc & Hv) Hbits. exists c. split; [done|]. split; [done|].
intros x Hx. exists (Z.testbit (bms_val a) x), (Z.testbit (bms_val b) x).
rewrite !bms_is_member_val by done. rewrite Hv, Hbits by done. done.
Qed.

Lemma add_each_val a xs :
bms_ok a -> Forall (fun x => 0 <= x < 2 ^ 31) xs ->
returns_set (add_each a xs) (foldl (fun v x => Z.lor v (2 ^ x)) (bms_val a) xs).
Proof.
intros Ha Hxs. revert a Ha. induction Hxs as [|x xs Hx Hxs IH]; intros a Ha; simpl.
- by exists a.
- destruct (bms_add_member_val x a Ha Hx) as (a' & -> & Ha' & Hv). simpl.
  rewrite <- Hv. by apply IH.
Qed.

Lemma foldl_lor_bits xs v i :
Forall (fun x => 0 <= x) xs -> 0 <= i ->
Z.testbit (foldl (fun v x => Z.lor v (2 ^ x)) v xs) i = Z.testbit v i || bool_decide (i ∈ xs).
Proof.
intros Hxs Hi. revert v. induction Hxs as [|x xs Hx Hxs IH]; intros v; cbn [foldl].
- rewrite bool_decide_false by apply not_elem_of_nil. by rewrite orb_false_r.
- rewrite IH, setbit_bits by done. rewrite <- orb_assoc. f_equal.
  destruct (Z.eqb_spec x i) as [->|Hne]; cbn [orb].
  + symmetry. apply bool_decide_eq_true. by left.
  + apply bool_decide_ext. rewrite elem_of_cons. naive_solver.
Qed.

(** Members listed from [x + 1] on. *)
Definition members_above (v n x : Z) : list Z :=
filter (fun y => Z.testbit v y = true) (seqZ (x + 1) (n - (x + 1))).

Lemma seqZ_split lo hi r :
lo <= r < hi -> seqZ lo (hi - lo) = seqZ lo (r - lo) ++ r :: seqZ (r + 1) (hi - (r + 1)).
Proof.
intros Hr. replace (hi - lo) with ((r - lo) + (hi - r)) by lia.
rewrite seqZ_app by lia. f_equal. replace (lo + (r - lo)) with r by lia.
rewrite seqZ_cons by lia. do 2 f_equal; lia.
Qed.

Lemma filter_none v lo n :
(forall y, lo <= y < lo + n -> Z.testbit v y = false) ->
filter (fun y => Z.testbit v y = true) (seqZ lo n) = [].
Proof.
intros H.
destruct (filter _ _) as [|y l] eqn:E; [done|].
assert (Hy : y ∈ filter (fun y => Z.testbit v y = true) (seqZ lo n)) by (rewrite E; by left).
apply list_elem_of_filter in Hy as [Hb Hy]. apply elem_of_seqZ in Hy. by rewrite H in Hb.
Qed.

Lemma members_above_next v n x r :
(forall y, n <= y -> Z.testbit v y = false) -> 0 <= r -> least_above v x r ->
members_above v n x = r :: members_above v n r.
Proof.
intros Hn Hr [(Hlt & Hb & Hnone)|[-> _]]; [|lia].
assert (Hrn : r < n) by (apply Z.nle_gt; intros Hge; by rewrite Hn in Hb).
unfold members_above. rewrite (seqZ_split (x + 1) n r), filter_app, filter_cons by lia.
rewrite filter_none by (intros y Hy; apply Hnone; lia). by rewrite decide_True.
Qed.

Lemma members_above_end v n x :
least_above v x (-2) -> -1 <= x -> members_above v n x = [].
Proof.
intros [(Hlt & _)|[_ Hnone]] Hx; [lia|]. apply filter_none. intros y Hy. apply Hnone. lia.
Qed.

Lemma iterate_next a v n fuel x :
(forall p, -1 <= p < 2 ^ 31 - 1 -> wp (bms_next_member a p) (least_above v p)) ->
(forall y, n <= y -> Z.testbit v y = false) -> n <= 2 ^ 31 -> Z.testbit v (2 ^ 31 - 1) = false ->
-1 <= x < 2 ^ 31 - 1 -> len (members_above v n x) < Z.of_nat fuel ->
iterate (bms_next_member a) fuel x = Ok (members_above v n x).
Proof.
intros Hnext Hn Hmax Htop. revert x. induction fuel as [|fuel IH]; intros x Hx Hf.
{ pose proof (len_nonneg (members_above v n x)). lia. }
cbn [iterate]. pose proof (Hnext x Hx) as Hw. apply wp_ok in Hw as (r & -> & Hr).
cbn [mbind res_bind]. destruct (Z.leb_spec 0 r) as [H0|H0].
- pose proof (members_above_next v n x r Hn H0 Hr) as Hm. rewrite Hm in *.
  rewrite len_cons in Hf. rewrite IH; [done| |lia].
  split; [lia|]. destruct Hr as [(Hlt & Hb & _)|[-> _]]; [|lia].
  assert (r < n) by (apply Z.nle_gt; intros Hge; by rewrite Hn in Hb).
  assert (r <> 2 ^ 31 - 1) by (intros ->; by rewrite Htop in Hb). lia.
- assert (r = -2) as -> by (destruct Hr as [(? & Hb & _)|[? _]]; [|done];
    rewrite Z.testbit_neg_r in Hb by lia; done).
  by rewrite (members_above_end v n x Hr) by lia.
Qed.

(** Members listed downwards from below [x]. *)
Definition members_below (v x : Z) : list Z :=
filter (fun y => Z.testbit v y = true) (seqZ 0 x).

Lemma members_below_prev v x r :
0 <= r -> greatest_below v x r -> members_below v x = members_below v r ++ [r].
Proof.
intros Hr [(Hlt & Hb & Hnone)|[-> _]]; [|lia].
unfold members_below. replace x with (x - 0) at 1 by lia.
rewrite (seqZ_split 0 x r), filter_app, filter_cons by lia.
rewrite (filter_none v (r + 1)) by (intros y Hy; apply Hnone; lia).
rewrite decide_True by done. by replace (r - 0) with r by lia.
Qed.

Lemma iterate_prev (a : Bitmapset) fuel x :
bms_wf a -> 0 <= x <= 64 * nwords a -> x < 2 ^ 31 ->
len (members_below (words_val (words a)) x) < Z.of_nat fuel ->
iterate (bms_prev_member (Some a)) fuel x = Ok (rev (members_below (words_val (words a)) x)).
Proof.
intros Ha. revert x. induction fuel as [|fuel IH]; intros x Hx Hmax Hf.
{ pose proof (len_nonneg (members_below (words_val (words a)) x)). lia. }
cbn [iterate]. pose proof (bms_prev_member_val a x Ha Hx Hmax) as Hw.
apply wp_ok in Hw as (r & -> & Hr). cbn [mbind res_bind].
destruct (Z.leb_spec 0 r) as [H0|H0].
- pose proof (members_below_prev _ x r H0 Hr) as Hm. rewrite Hm in *.
  assert (r < x) by (destruct Hr as [?|[? _]]; lia).
  rewrite len_app, len_cons in Hf. change (len (@nil Z)) with 0 in Hf.
  rewrite IH by lia. cbn [mbind res_bind]. by rewrite rev_app_distr.
- destruct Hr as [?|[-> Hnone]]; [lia|].
  unfold members_below. rewrite filter_none; [done|]. intros y Hy. apply Hnone. lia.
Qed.

Lemma lowest_least v r : lowest_bit v r -> least_above v (-1) r.
Proof. intros (H0 & H1 & H2). left. split; [lia|]. split; [done|]. intros y Hy. apply H2. lia. Qed.

Lemma members_above_ldiff v n r :
0 <= r -> lowest_bit v r ->
members_above (Z.ldiff v (2 ^ r)) n (-1) = members_above v n r.
Proof.
intros Hr (_ & Hb & Hlow). unfold members_above.
assert (Hbits : forall y, 0 <= y -> Z.testbit (Z.ldiff v (2 ^ r)) y = Z.testbit v y && negb (r =? y)).
{ intros y Hy. by rewrite Z.ldiff_spec, Z.pow2_bits_eqb. }
destruct (Z.lt_ge_cases r n) as [Hrn|Hrn].
- change (-1 + 1) with 0. rewrite (seqZ_split 0 n r), filter_app, filter_cons by lia.
  rewrite decide_False by (rewrite Hbits, Z.eqb_refl, andb_false_r; done).
  rewrite filter_none.
  + apply filter_elem_ext. intros y Hy. apply elem_of_seqZ in Hy. rewrite Hbits by lia.
    destruct (Z.eqb_spec r y); [lia|]. by rewrite andb_true_r.
  + intros y Hy. rewrite Hbits, Hlow by lia. done.
- rewrite !filter_none; [done|intros y Hy; lia|].
  intros y Hy. rewrite Hbits by lia. destruct (Z.eqb_spec r y); [lia|]. rewrite Hlow by lia. done.
Qed.

Lemma drain_members a n fuel :
bms_ok a -> 0 <= n -> (forall y, n <= y -> Z.testbit (bms_val a) y = false) ->
len (members_above (bms_val a) n (-1)) < Z.of_nat fuel ->
wp (drain fuel a) (fun out =>
  fst out = members_above (bms_val a) n (-1) /\ bms_ok (snd out) /\ bms_val (snd out) = 0).
Proof.
revert a. induction fuel as [|fuel IH]; intros a Ha Hn0 Hn Hf.
{ pose proof (len_nonneg (members_above (bms_val a) n (-1))). lia. }
cbn [drain]. wp_step. eapply wp_mono; [by apply bms_first_member_val|].
intros [r a'] [(Hr & Hz & Ha')|(Hr & Ha' & Hv)]; cbn [fst snd] in *.
- subst r a'. cbn [Z.leb Z.compare]. wp_step. cbn [fst snd]. rewrite Hz.
  split; [|by split]. symmetry. apply filter_none. intros; apply Z.bits_0.
- pose proof Hr as (H0 & Hb & _). destruct (Z.leb_spec 0 r); [|lia].
  assert (Hm : members_above (bms_val a) n (-1) = r :: members_above (bms_val a') n (-1)).
  { rewrite Hv, members_above_ldiff by done.
    apply members_above_next; [done|done|by apply lowest_least]. }
  rewrite Hm in *. rewrite len_cons in Hf. wp_step. eapply wp_mono.
  { apply IH; [done|done| |lia]. intros y Hy. rewrite Hv, Z.ldiff_spec, Hn by done. done. }
  intros [l a''] (Hl & Ha'' & Hz). cbn [fst snd] in *. subst l. wp_step. by split.
Qed.

Lemma bms_members_above a :
bms_ok a -> exists n, 0 <= n <= 2 ^ 31 /\ bms_members a = members_above (bms_val a) n (-1) /\
  forall y, n <= y -> Z.testbit (bms_val a) y = false.
Proof.
intros Ha. destruct a as [a|].
- exists (64 * nwords a). pose proof Ha as [_ Hn]. unfold MAX_WORDS in Hn.
  split; [lia|]. split; [|intros y Hy; by apply above_words].
  unfold members_above. change (-1 + 1) with 0. by rewrite Z.sub_0_r.
- exists 0. split; [lia|]. split; [done|]. intros; apply Z.bits_0.
Qed.
End Lemmas.

(** ** Theorems *)

(** C39. the seven binary operations of bitmapset.c, the three that copy and the
    four that recycle their inputs, return a well-formed set for any two
    well-formed inputs (NULL and trailing zero words included), and a member
    test on the result is the union, intersection or difference of the member
    tests on the inputs. *)
Theorem bms_binary_ops_correct a b :
  bms_ok a -> bms_ok b ->
  set_op bms_union orb a b /\
  set_op bms_intersect andb a b /\
  set_op bms_difference (fun x y => x && negb y) a b /\
  set_op bms_add_members orb a b /\
  set_op bms_int_members andb a b /\
  set_op bms_del_members (fun x y => x && negb y) a b /\
  set_op bms_join orb a b.
Proof.
  intros Ha Hb. repeat split.
  - eapply set_op_val; [done..|by apply bms_union_val|intros; apply Z.lor_spec].
  - eapply set_op_val; [done..|by apply bms_intersect_val|intros; apply Z.land_spec].
  - eapply set_op_val; [done..|by apply bms_difference_val|intros; apply Z.ldiff_spec].
  - eapply set_op_val; [done..|by apply bms_add_members_val|intros; apply Z.lor_spec].
  - eapply set_op_val; [done..|by apply bms_int_members_val|intros; apply Z.land_spec].
  - eapply set_op_val; [done..|by apply bms_del_members_val|intros; apply Z.ldiff_spec].
  - eapply set_op_val; [done..|by apply bms_join_val|intros; apply Z.lor_spec].
Qed.

(** A set of members 1 and 65 in two words, and one of member 1 in one word. *)
Definition two_words : option Bitmapset := Some (mkBms [2; 2]).
Definition one_word : option Bitmapset := Some (mkBms [2]).

Lemma two_words_ok : bms_ok two_words.
Proof. split; [repeat constructor; done|done]. Defined.

Lemma one_word_ok : bms_ok one_word.
Proof. split; [repeat constructor; done|done]. Defined.

Lemma bms_binary_ops_correct_witness :
  bms_ok two_words /\ bms_ok one_word /\ set_op bms_difference (fun x y => x && negb y) two_words one_word.
Proof.
  split; [exact two_words_ok|]. split; [exact one_word_ok|].
  exact (proj1 (proj2 (proj2 (bms_binary_ops_correct two_words one_word two_words_ok one_word_ok)))).
Defined.

(** insert, delete and lookup agree.  For a member [x] that is a
    nonnegative [int], [bms_add_member] and [bms_del_member] return
    well-formed sets in which exactly the membership of [x] has changed, and
    [bms_make_singleton] one whose only member is [x]; a negative [x] is the
    error of the code in all of them and in [bms_is_member]. *)
Theorem bms_member_update a x y :
  bms_ok a -> 0 <= y ->
  (0 <= x < 2 ^ 31 ->
    exists m add del one,
      bms_is_member y a = Ok m /\
      bms_add_member a x = Ok add /\ bms_ok add /\ bms_is_member y add = Ok (m || (x =? y)) /\
      bms_del_member a x = Ok del /\ bms_ok del /\ bms_is_member y del = Ok (m && negb (x =? y)) /\
      bms_make_singleton x = Ok one /\ bms_ok one /\ bms_is_member y one = Ok (x =? y)) /\
  (x < 0 ->
    bms_add_member a x = neg_member /\ bms_del_member a x = neg_member /\
    bms_make_singleton x = neg_member /\ bms_is_member x a = neg_member).
Proof.
  intros Ha Hy. split.
  - intros Hx. exists (Z.testbit (bms_val a) y).
    destruct (bms_add_member_val x a Ha Hx) as (add & Hadd & Hadd1 & Hadd2).
    destruct (bms_del_member_val x a Ha Hx) as (del & Hdel & Hdel1 & Hdel2).
    destruct (bms_make_singleton_val x Hx) as (one & Hone & Hone1 & Hone2).
    exists add, del, one. rewrite !bms_is_member_val by done.
    rewrite Hadd2, Hdel2, Hone2, setbit_bits, Z.ldiff_spec, Z.pow2_bits_eqb by lia.
    by repeat split.
  - intros Hx. unfold bms_add_member, bms_del_member, bms_make_singleton, bms_is_member.
    destruct (Z.ltb_spec x 0); [|lia]. by repeat split.
Qed.

Lemma bms_member_update_witness :
  bms_is_member 65 two_words = Ok true /\
  exists del, bms_del_member two_words 65 = Ok del /\ bms_is_member 65 del = Ok false.
Proof.
  destruct (proj1 (bms_member_update two_words 65 65 two_words_ok ltac:(lia)) ltac:(lia))
    as (m & add & del & one & Hm & _ & _ & _ & Hdel & _ & Hd & _).
  split; [reflexivity|]. exists del. split; [exact Hdel|].
  rewrite Hd. destruct m; reflexivity.
Defined.

(** [bms_add_range], which works a word at a time, adds the same members
    as the loop of [bms_add_member] calls its comment names, whatever words
    the range starts and ends in. *)
Theorem bms_add_range_loop a lower upper :
  bms_ok a -> 0 <= lower -> upper < 2 ^ 31 ->
  exists c d,
    bms_add_range a lower upper = Ok c /\ bms_ok c /\
    add_each a (seqZ lower (upper - lower + 1)) = Ok d /\ bms_same c d.
Proof.
  intros Ha Hl Hu.
  assert (Hall : Forall (fun x => 0 <= x < 2 ^ 31) (seqZ lower (upper - lower + 1))).
  { apply Forall_forall. intros x Hx. apply elem_of_seqZ in Hx. lia. }
  destruct (add_each_val a _ Ha Hall) as (d & Hd & _ & Hdv).
  destruct (Z.le_gt_cases lower upper) as [Hle|Hgt].
  - destruct (bms_add_range_val a lower upper Ha) as (c & Hc & Hcok & Hcv); [lia|done|].
    exists c, d. split; [done|]. split; [done|]. split; [done|].
    unfold bms_same. rewrite Hcv, Hdv. apply Z.bits_inj'. intros i Hi.
    rewrite foldl_lor_bits, Z.lor_spec, range_mask_bits; [|lia|done| |done].
    + f_equal. unfold in_range. destruct (bool_decide_reflect (i ∈ seqZ lower (upper - lower + 1))) as [Hin|Hin];
        rewrite elem_of_seqZ in Hin; destruct (Z.leb_spec lower i), (Z.leb_spec i upper); simpl; try done; lia.
    + eapply Forall_impl; [exact Hall|]. simpl. lia.
  - rewrite bms_add_range_empty by lia. exists a, d. split; [done|]. split; [done|]. split; [done|].
    unfold bms_same. rewrite Hdv. by rewrite seqZ_nil by lia.
Qed.

Lemma bms_add_range_loop_witness :
  exists c d, bms_add_range one_word 60 130 = Ok c /\ bms_ok c /\
    add_each one_word (seqZ 60 (130 - 60 + 1)) = Ok d /\ bms_same c d.
Proof. apply (bms_add_range_loop one_word 60 130 one_word_ok); lia. Defined.

(** [bms_compare] is a total order on sets that agrees with [bms_equal]:
    it returns 0 exactly when [bms_equal] says true, swapping the arguments
    negates it, and otherwise the highest-numbered bit set in one set and not
    in the other decides. *)
Theorem bms_compare_order a b :
  bms_ok a -> bms_ok b ->
  exists r e,
    bms_compare a b = Ok r /\ bms_compare b a = Ok (- r) /\ bms_equal a b = Ok e /\
    (r = 0 <-> e = true) /\
    (forall x, 0 <= x -> bms_is_member x a = Ok true -> bms_is_member x b = Ok false ->
       (forall y, x < y -> bms_is_member y a = bms_is_member y b) -> r = 1).
Proof.
  intros Ha Hb. rewrite !bms_compare_val, bms_equal_val by done.
  exists (sign_of (bms_val a ?= bms_val b)), (bms_val a =? bms_val b).
  split; [done|]. split; [|split; [done|split]].
  - f_equal. rewrite (Z.compare_antisym (bms_val a)). by destruct (_ ?= _).
  - rewrite Z.eqb_eq, <- (Z.compare_eq_iff (bms_val a) (bms_val b)).
    destruct (_ ?= _); cbn [sign_of]; split; intros ?; done || discriminate.
  - intros x Hx Hxa Hxb Hup. rewrite bms_is_member_val in Hxa, Hxb by done.
    injection Hxa as Hxa. injection Hxb as Hxb. apply sign_gt.
    assert (Hdiv : forall v, 0 <= v -> v / 2 ^ x = Z.b2z (Z.testbit v x) + 2 * (v / 2 ^ (x + 1))).
    { intros v Hv. rewrite Z.testbit_spec' by done. rewrite Z.pow_add_r, Z.pow_1_r by lia.
      rewrite <- Z.div_div by (try apply Z.pow_nonzero; lia).
      pose proof (Z.div_mod (v / 2 ^ x) 2). lia. }
    assert (Htop : bms_val a / 2 ^ (x + 1) = bms_val b / 2 ^ (x + 1)).
    { apply Z.bits_inj'. intros i Hi. rewrite !Z.div_pow2_bits by lia.
      specialize (Hup (i + (x + 1))). rewrite !bms_is_member_val in Hup by (done || lia).
      by injection Hup; [|lia]. }
    apply Z.nle_gt. intros Hle. pose proof (Z.div_le_mono _ _ (2 ^ x) (Z.pow_pos_nonneg 2 x ltac:(lia) Hx) Hle) as Hd.
    rewrite (Hdiv (bms_val a)), (Hdiv (bms_val b)), Hxa, Hxb, Htop in Hd by (by apply bms_val_nonneg).
    simpl in Hd. lia.
Qed.

Lemma bms_compare_order_witness :
  exists r e, bms_compare two_words one_word = Ok r /\ bms_equal two_words one_word = Ok e /\
    (r = 0 <-> e = true) /\ r = 1.
Proof.
  destruct (bms_compare_order two_words one_word two_words_ok one_word_ok)
    as (r & e & Hr & _ & He & Heq & Htop).
  exists r, e. split; [exact Hr|]. split; [exact He|]. split; [exact Heq|].
  apply (Htop 65); [lia|reflexivity|reflexivity|].
  intros y Hy. rewrite !bms_is_member_val by (exact two_words_ok || exact one_word_ok || lia).
  f_equal. rewrite !(testbit_high _ 66) by (simpl; lia). reflexivity.
Defined.

(** [bms_subset_compare] is the combination of the two [bms_is_subset]
    tests it replaces, and [bms_nonempty_difference] is the negation of
    [bms_is_subset]; [bms_overlap] says whether the intersection built by
    [bms_intersect] is nonempty. *)
Theorem bms_subset_tests_agree a b :
  bms_ok a -> bms_ok b ->
  exists ab ba i,
    bms_is_subset a b = Ok ab /\ bms_is_subset b a = Ok ba /\
    bms_subset_compare a b =
      Ok (match ab, ba with
          | true, true => BMS_EQUAL
          | true, false => BMS_SUBSET1
          | false, true => BMS_SUBSET2
          | false, false => BMS_DIFFERENT
          end) /\
    bms_nonempty_difference a b = Ok (negb ab) /\
    bms_intersect a b = Ok i /\ (e ← bms_is_empty i; Ok (negb e)) = bms_overlap a b /\
    (forall x, ab = true -> 0 <= x -> bms_is_member x a = Ok true -> bms_is_member x b = Ok true).
Proof.
  intros Ha Hb. destruct (bms_intersect_val a b Ha Hb) as (i & Hi & Hiok & Hiv).
  exists (Z.ldiff (bms_val a) (bms_val b) =? 0), (Z.ldiff (bms_val b) (bms_val a) =? 0), i.
  rewrite !bms_is_subset_val, bms_subset_compare_val, bms_nonempty_difference_val, bms_overlap_val by done.
  rewrite bms_is_empty_val, Hiv by done.
  do 6 (split; [done|]). intros x Hs Hx. apply Z.eqb_eq in Hs.
  rewrite !bms_is_member_val by done. intros [= Hm]. f_equal.
  pose proof (f_equal (fun v => Z.testbit v x) Hs) as Hbit. simpl in Hbit.
  rewrite Z.ldiff_spec, Hm, Z.bits_0 in Hbit. by destruct (Z.testbit (bms_val b) x).
Qed.

Lemma bms_subset_tests_agree_witness :
  bms_ok one_word /\ bms_ok two_words /\ bms_subset_compare one_word two_words = Ok BMS_SUBSET1.
Proof.
  split; [exact one_word_ok|]. split; [exact two_words_ok|].
  destruct (bms_subset_tests_agree one_word two_words one_word_ok two_words_ok)
    as (ab & ba & i & Hab & Hba & Hc & _).
  rewrite Hc. vm_compute in Hab, Hba. injection Hab as <-. injection Hba as <-. reflexivity.
Defined.

(** the iteration pattern the comments give ends and visits each member
    once, in increasing order, for [bms_next_member] started at -1, and in
    decreasing order for [bms_prev_member] started one above the last word;
    [bms_first_member] called until it returns -1 yields the same members in
    increasing order and leaves the set empty.  One more step than there are
    members is enough; a set that holds INT_MAX is excluded, as the increment
    of [bms_next_member] overflows there. *)
Theorem bms_iteration a fuel :
  bms_ok a -> Z.testbit (bms_val a) (2 ^ 31 - 1) = false ->
  len (bms_members a) < Z.of_nat fuel ->
  (forall x, x ∈ bms_members a <-> 0 <= x /\ bms_is_member x a = Ok true) /\
  iterate (bms_next_member a) fuel (-1) = Ok (bms_members a) /\
  (forall w, a = Some w -> nwords w < MAX_WORDS ->
     iterate (bms_prev_member a) fuel (64 * nwords w) = Ok (rev (bms_members a))) /\
  (exists a', drain fuel a = Ok (bms_members a, a') /\ bms_ok a' /\ bms_is_empty a' = Ok true).
Proof.
  intros Ha Htop Hf. split; [|split; [|split]].
  - intros x. rewrite elem_of_members by done. split.
    + intros [Hx Hm]. by rewrite bms_is_member_val, Hm.
    + intros [Hx Hm]. rewrite bms_is_member_val in Hm by done. by injection Hm.
  - destruct (bms_members_above a Ha) as (n & Hn & Hm & Habove). rewrite Hm in *.
    apply iterate_next; [|done|lia|done|lia|done].
    intros p Hp. by apply bms_next_member_val.
  - intros w -> Hw. pose proof Ha as [_ Hn]. unfold MAX_WORDS in Hw.
    apply iterate_prev; [done|lia|lia|exact Hf].
  - destruct (bms_members_above a Ha) as (n & Hn & Hm & Habove). rewrite Hm in *.
    pose proof (drain_members a n fuel Ha ltac:(lia) Habove Hf) as Hd.
    apply wp_ok in Hd as ([l a'] & Hd & Hl & Ha' & Hz). cbn [fst snd] in *. subst l.
    exists a'. split; [done|]. split; [done|]. by rewrite bms_is_empty_val, Hz.
Qed.

Lemma bms_iteration_witness :
  iterate (bms_next_member two_words) 3 (-1) = Ok [1; 65] /\
  iterate (bms_prev_member two_words) 3 128 = Ok [65; 1].
Proof.
  destruct (bms_iteration two_words 3 two_words_ok) as (_ & H1 & H2 & _).
  - reflexivity.
  - reflexivity.
  - split; [exact H1|]. apply (H2 (mkBms [2; 2])); reflexivity.
Defined.

(** [bms_num_members] is the number of members, and [bms_member_index]
    is the position of a member in the increasing list of members and -1 for
    a non-member (for a set with fewer than 2^31 members). *)
Theorem bms_counting a x :
  bms_ok a -> 0 <= x -> len (bms_members a) < 2 ^ 31 ->
  bms_num_members a = Ok (len (bms_members a)) /\
  (bms_is_member x a = Ok false -> bms_member_index a x = Ok (-1)) /\
  (bms_is_member x a = Ok true ->
     exists i, bms_member_index a x = Ok i /\ 0 <= i /\ bms_members a !! Z.to_nat i = Some x).
Proof.
  intros Ha Hx Hmax. rewrite bms_num_members_val, bms_is_member_val, bms_member_index_val by done.
  pose proof (len_nonneg (bms_members a)).
  split; [by rewrite i32_small by lia|]. split; [by intros [= ->]|]. intros [= Hm]. rewrite Hm.
  destruct (bms_members_above a Ha) as (n & Hn & Hmem & Habove). rewrite Hmem in *.
  assert (Hxn : x < n) by (apply Z.nle_gt; intros Hge; by rewrite Habove in Hm).
  unfold members_above in *. change (-1 + 1) with 0 in *.
  rewrite (seqZ_split 0 n x), filter_app, filter_cons, decide_True in * by (done || lia).
  rewrite Z.sub_0_r in *. rewrite bitcount_filter, Z2Nat.id by lia.
  set (l := filter _ (seqZ 0 x)) in *. rewrite len_app, len_cons in Hmax.
  pose proof (len_nonneg l). exists (len l).
  pose proof (len_nonneg (filter (fun y => Z.testbit (bms_val a) y = true) (seqZ (x + 1) (n - (x + 1))))).
  rewrite i32_small by lia.
  split; [done|]. split; [done|]. unfold len. rewrite Nat2Z.id.
  by rewrite list_lookup_middle.
Qed.

Lemma bms_counting_witness :
  bms_num_members two_words = Ok 2 /\ bms_member_index two_words 65 = Ok 1.
Proof.
  destruct (bms_counting two_words 65 two_words_ok) as (H1 & _ & H2); [lia|reflexivity|].
  split; [exact H1|]. destruct (H2 eq_refl) as (i & Hi & _). rewrite Hi.
  vm_compute in Hi. injection Hi as <-. reflexivity.
Defined.

(** ** The equivalence of representations *)

(** Well-formed sets with the same members; a partial equivalence. *)
Definition bms_eqv (a b : option Bitmapset) : Prop := bms_ok a /\ bms_ok b /\ bms_same a b.

#[export] Instance bms_eqv_per : RelationClasses.PER bms_eqv.
Proof.
  unfold bms_eqv, bms_same. split; [intros a b|intros a b c]; naive_solver congruence.
Qed.

(** Outcomes that are equal, or normal returns of equivalent sets. *)
Definition res_eqv (m n : res (option Bitmapset)) : Prop :=
  exists a b, m = Ok a /\ n = Ok b /\ bms_eqv a b.

Lemma returns_set_eqv m n v : returns_set m v -> returns_set n v -> res_eqv m n.
Proof.
  intros (a & Hm & Ha & Hav) (b & Hn & Hb & Hbv). exists a, b.
  split; [done|]. split; [done|]. split; [done|]. split; [done|]. unfold bms_same. congruence.
Qed.

#[export] Instance bms_union_proper : Proper (bms_eqv ==> bms_eqv ==> res_eqv) bms_union.
Proof.
  intros a a' (Ha & Ha' & Hs) b b' (Hb & Hb' & Ht). unfold bms_same in *.
  eapply returns_set_eqv; [by apply bms_union_val|]. rewrite Hs, Ht. by apply bms_union_val.
Qed.

#[export] Instance bms_intersect_proper : Proper (bms_eqv ==> bms_eqv ==> res_eqv) bms_intersect.
Proof.
  intros a a' (Ha & Ha' & Hs) b b' (Hb & Hb' & Ht). unfold bms_same in *.
  eapply returns_set_eqv; [by apply bms_intersect_val|]. rewrite Hs, Ht. by apply bms_intersect_val.
Qed.

#[export] Instance bms_difference_proper : Proper (bms_eqv ==> bms_eqv ==> res_eqv) bms_difference.
Proof.
  intros a a' (Ha & Ha' & Hs) b b' (Hb & Hb' & Ht). unfold bms_same in *.
  eapply returns_set_eqv; [by apply bms_difference_val|]. rewrite Hs, Ht. by apply bms_difference_val.
Qed.

#[export] Instance bms_equal_proper : Proper (bms_eqv ==> bms_eqv ==> eq) bms_equal.
Proof.
  intros a a' (Ha & Ha' & Hs) b b' (Hb & Hb' & Ht). unfold bms_same in *.
  by rewrite !bms_equal_val, Hs, Ht by done.
Qed.

#[export] Instance bms_compare_proper : Proper (bms_eqv ==> bms_eqv ==> eq) bms_compare.
Proof.
  intros a a' (Ha & Ha' & Hs) b b' (Hb & Hb' & Ht). unfold bms_same in *.
  by rewrite !bms_compare_val, Hs, Ht by done.
Qed.

#[export] Instance bms_is_subset_proper : Proper (bms_eqv ==> bms_eqv ==> eq) bms_is_subset.
Proof.
  intros a a' (Ha & Ha' & Hs) b b' (Hb & Hb' & Ht). unfold bms_same in *.
  by rewrite !bms_is_subset_val, Hs, Ht by done.
Qed.

#[export] Instance bms_hash_value_proper hash_any : Proper (bms_eqv ==> eq) (bms_hash_value hash_any).
Proof.
  intros a b (Ha & Hb & Hs). rewrite !bms_hash_value_val by done. f_equal. unfold bms_same in Hs.
  assert (Hnil : forall w, bms_wf w -> words_val (words w) = 0 -> strip (words w) = []).
  { intros w [Hw _] Hz. apply strip_zero. by apply words_val_zero. }
  destruct a as [a|], b as [b|]; simpl in *.
  - rewrite (strip_ext (words a) (words b)); [done|]. by apply words_val_ext; [apply Ha|apply Hb|].
  - by rewrite Hnil.
  - by rewrite Hnil.
  - done.
Qed.

(** for hash tables keyed by bitmap sets, whatever [hash_any] computes on
    the words it is given: [bitmap_match] reports a match (zero) exactly when
    the two keys have the same members, and then [bitmap_hash] gives them the
    same hash value, although their word arrays may have different lengths
    or one of them be NULL. *)
Theorem bitmap_hash_respects_match hash_any a b :
  bms_ok a -> bms_ok b ->
  exists m, bitmap_match a b = Ok m /\
    (m = false <-> forall x, 0 <= x -> bms_is_member x a = bms_is_member x b) /\
    (m = false -> bitmap_hash hash_any a = bitmap_hash hash_any b).
Proof.
  intros Ha Hb. unfold bitmap_match. rewrite bms_equal_val by done. cbn [mbind res_bind].
  exists (negb (bms_val a =? bms_val b)). rewrite negb_false_iff, Z.eqb_eq.
  split; [done|]. split.
  - split.
    + intros Heq x Hx. by rewrite !bms_is_member_val, Heq by done.
    + intros H. apply Z.bits_inj'. intros x Hx. specialize (H x Hx).
      rewrite !bms_is_member_val in H by done. by injection H.
  - intros Heq. unfold bitmap_hash. by apply bms_hash_value_proper.
Qed.

Lemma bitmap_hash_respects_match_witness :
  bitmap_hash (fun ws => len ws) (Some (mkBms [2; 0; 0])) = bitmap_hash (fun ws => len ws) one_word.
Proof.
  assert (Hok : bms_ok (Some (mkBms [2; 0; 0]))) by (split; [repeat constructor; done|done]).
  destruct (bitmap_hash_respects_match (fun ws => len ws) _ one_word Hok one_word_ok) as (m & Hm & _ & H).
  apply H. vm_compute in Hm. by injection Hm.
Defined.

(** the classification of a set by its number of members: the singleton
    functions and [bms_membership] agree with the members there are, on the
    three branches: empty, one member, several members. *)
Theorem bms_singleton_classification a :
  bms_ok a ->
  exists m o, bms_membership a = Ok m /\ bms_get_singleton_member a = Ok o /\
    match m with
    | BMS_EMPTY_SET =>
        o = None /\ bms_singleton_member a = Err "bitmapset is empty" /\
        forall x, 0 <= x -> bms_is_member x a = Ok false
    | BMS_SINGLETON =>
        exists x, 0 <= x /\ o = Some x /\ bms_singleton_member a = Ok x /\
          forall y, 0 <= y -> bms_is_member y a = Ok (x =? y)
    | BMS_MULTIPLE =>
        o = None /\ bms_singleton_member a = Err "bitmapset has multiple members" /\
        exists x y, x <> y /\ bms_is_member x a = Ok true /\ bms_is_member y a = Ok true
    end.
Proof.
  intros Ha. pose proof (bms_membership_val a Ha) as Hm. apply wp_ok in Hm as (m & Hm & Hval).
  destruct (bms_get_singleton_member_total a Ha) as [o Ho].
  pose proof (bms_get_singleton_member_val a o Ha Ho) as Hget.
  destruct (bms_singleton_member_err a Ha) as [Hempty Hmult].
  exists m, o. split; [done|]. split; [done|]. destruct m.
  - destruct o as [x|].
    { destruct Hget as [Hx Hv]. pose proof (Z.pow_pos_nonneg 2 x). lia. }
    split; [done|]. split; [by apply Hempty|]. intros x Hx.
    by rewrite bms_is_member_val, Hval, Z.bits_0 by done.
  - destruct Hval as (x & Hx & Hv). exists x. split; [done|].
    assert (o = Some x) as ->.
    { destruct o as [y|].
      - destruct Hget as [Hy Hv']. f_equal. rewrite Hv in Hv'. by apply Z.pow_inj_r in Hv'.
      - destruct Hget as [Hz|Hm']; [pose proof (Z.pow_pos_nonneg 2 x); lia|].
        by destruct (many_not_pow2 _ x Hm' Hx). }
    split; [done|]. split; [by apply bms_singleton_member_ok|]. intros y Hy.
    by rewrite bms_is_member_val, Hv, Z.pow2_bits_eqb by done.
  - assert (o = None) as ->.
    { destruct o as [y|]; [|done]. destruct Hget as [Hy Hv]. by destruct (many_not_pow2 _ y Hval Hy). }
    split; [done|]. split; [by apply Hmult|]. destruct Hval as (x & y & Hx & Hy & Hne & Hbx & Hby).
    exists x, y. split; [done|]. by rewrite !bms_is_member_val, Hbx, Hby by done.
Qed.

Lemma bms_singleton_classification_witness :
  exists m o, bms_membership two_words = Ok m /\ bms_get_singleton_member two_words = Ok o /\ o = None.
Proof.
  destruct (bms_singleton_classification two_words two_words_ok) as (m & o & Hm & Ho & H).
  exists m, o. split; [exact Hm|]. split; [exact Ho|].
  vm_compute in Ho. injection Ho as <-. reflexivity.
Defined.

(** the boundary of [bms_next_member]: started at INT_MAX, a value a set
    may hold, the increment of [prevbit] wraps to INT_MIN and the search reads
    the word array at a negative index. *)
Theorem bms_next_member_int_max a :
  bms_wf a -> bms_next_member (Some a) (2 ^ 31 - 1) = UB "read outside the array".
Proof.
  intros [_ Hn]. unfold bms_next_member.
  change (i32 (2 ^ 31 - 1 + 1)) with (- 2 ^ 31).
  change (BITNUM (- 2 ^ 31)) with 0. change (WORDNUM (- 2 ^ 31)) with (- 2 ^ 25).
  change (shl 64 (bmw_not 0) 0) with (@Ok Z (2 ^ 64 - 1)). cbn [mbind res_bind].
  unfold for_up. destruct (Z.to_nat (nwords a - - 2 ^ 25)) as [|n] eqn:E; [lia|].
  done.
Qed.

Lemma bms_next_member_int_max_witness :
  bms_next_member two_words (2 ^ 31 - 1) = UB "read outside the array".
Proof. apply (bms_next_member_int_max (mkBms [2; 2])), two_words_ok. Defined.
