(* ===== verification/BinaryHeap.v ===== *)
(** The binary heap (src/postgresql/src/backend/lib/binaryheap.c and
    include/lib/binaryheap.h), used by merge append, gather merge, reorder
    buffers and the tape merge of sorting.

    The node array is a list of [Datum]s of the allocated length; [int] offsets
    are computed with wrap-around. The comparator [bh_compare] (with [bh_arg])
    is an argument; what the header asks of it is the class [Comparator]. *)
From S2P Require Import Prelude.
Open Scope Z_scope.

Record binaryheap := {
  bh_size : Z;
  bh_space : Z;
  bh_has_heap_property : bool;
  bh_nodes : list Z
}.

Definition with_nodes (h : binaryheap) (l : list Z) : binaryheap :=
  {| bh_size := bh_size h; bh_space := bh_space h;
     bh_has_heap_property := bh_has_heap_property h; bh_nodes := l |}.

Definition with_size (h : binaryheap) (n : Z) : binaryheap :=
  {| bh_size := n; bh_space := bh_space h;
     bh_has_heap_property := bh_has_heap_property h; bh_nodes := bh_nodes h |}.

Definition with_property (h : binaryheap) (b : bool) : binaryheap :=
  {| bh_size := bh_size h; bh_space := bh_space h; bh_has_heap_property := b;
     bh_nodes := bh_nodes h |}.

(** [MaxAllocSize]. *)
Definition MaxAllocSize : Z := 0x3fffffff.

(** [offsetof(binaryheap, bh_nodes)] and [sizeof(Datum)] on a 64-bit platform. *)
Definition nodes_offset : Z := 32.
Definition datum_size : Z := 8.

(** [binaryheap_allocate]: the size is computed as [size_t] and kept in an
    [int]; the node array has the whole [Datum]s that fit in what [palloc]
    returns. Their content is indeterminate (0 here) and never read before it
    is written. *)
Definition binaryheap_allocate (capacity : Z) : res binaryheap :=
  let sz := i32 (u64 (nodes_offset + datum_size * u64 capacity)) in
  if MaxAllocSize <? u64 sz then Err "invalid memory alloc request size"
  else if u64 sz <? nodes_offset then UB "write outside the array"
  else Ok {| bh_size := 0; bh_space := capacity; bh_has_heap_property := true;
             bh_nodes := replicate (Z.to_nat ((u64 sz - nodes_offset) / datum_size)) 0 |}.

Definition binaryheap_reset (h : binaryheap) : binaryheap :=
  with_property (with_size h 0) true.

Definition left_offset (i : Z) : Z := i32 (i32 (2 * i) + 1).
Definition right_offset (i : Z) : Z := i32 (i32 (2 * i) + 2).
Definition parent_offset (i : Z) : Z := Z.quot (i32 (i - 1)) 2.

Definition binaryheap_empty (h : binaryheap) : bool := bh_size h =? 0.

(** The Assert of the routines that read the first node. *)
Definition assert_first (h : binaryheap) : res unit :=
  if negb (binaryheap_empty h) && bh_has_heap_property h then Ok tt
  else UB "!binaryheap_empty(heap) && heap->bh_has_heap_property".

Definition binaryheap_add_unordered (h : binaryheap) (d : Z) : res binaryheap :=
  if bh_space h <=? bh_size h then Err "out of binary heap slots"
  else
    let h := with_property h false in
    l ← wr (bh_nodes h) (bh_size h) d;
    Ok (with_size (with_nodes h l) (i32 (bh_size h + 1))).

Definition swap_nodes (l : list Z) (a b : Z) : res (list Z) :=
  x ← rd l a;
  y ← rd l b;
  l ← wr l a y;
  wr l b x.

Section heap.
Context (bh_compare : Z -> Z -> Z).

(** [sift_up]: the loop halves the offset. *)
Fixpoint sift_up (fuel : nat) (l : list Z) (node_off : Z) : res (list Z) :=
  if node_off =? 0 then Ok l
  else match fuel with
  | O => UB "fuel"
  | S f =>
      let parent_off := parent_offset node_off in
      x ← rd l node_off;
      y ← rd l parent_off;
      if bh_compare x y <=? 0 then Ok l
      else
        l ← swap_nodes l node_off parent_off;
        sift_up f l parent_off
  end.

(** The child to swap with, 0 for none. *)
Definition swap_target (l : list Z) (size node_off : Z) : res Z :=
  let left_off := left_offset node_off in
  let right_off := right_offset node_off in
  swap_off ←
    (if left_off <? size then
       x ← rd l node_off;
       y ← rd l left_off;
       Ok (if bh_compare x y <? 0 then left_off else 0)
     else Ok 0);
  if right_off <? size then
    x ← rd l node_off;
    y ← rd l right_off;
    if bh_compare x y <? 0 then
      if swap_off =? 0 then Ok right_off
      else
        z ← rd l left_off;
        Ok (if bh_compare z y <? 0 then right_off else swap_off)
    else Ok swap_off
  else Ok swap_off.

(** [sift_down]: each iteration at least doubles the offset. *)
Fixpoint sift_down (fuel : nat) (l : list Z) (size node_off : Z) : res (list Z) :=
  match fuel with
  | O => UB "fuel"
  | S f =>
      swap_off ← swap_target l size node_off;
      if swap_off =? 0 then Ok l
      else
        l ← swap_nodes l swap_off node_off;
        sift_down f l size swap_off
  end.

Definition sift_down_heap (h : binaryheap) (node_off : Z) : res binaryheap :=
  l ← sift_down (S (length (bh_nodes h))) (bh_nodes h) (bh_size h) node_off;
  Ok (with_nodes h l).

Definition binaryheap_build (h : binaryheap) : res binaryheap :=
  h ← loop_state (for_down (parent_offset (i32 (bh_size h - 1))) 0
        (fun i h => h ← sift_down_heap h i; Ok (inl h)) h);
  Ok (with_property h true).

Definition binaryheap_add (h : binaryheap) (d : Z) : res binaryheap :=
  if bh_space h <=? bh_size h then Err "out of binary heap slots"
  else
    l ← wr (bh_nodes h) (bh_size h) d;
    let h := with_size (with_nodes h l) (i32 (bh_size h + 1)) in
    l ← sift_up (S (length (bh_nodes h))) (bh_nodes h) (bh_size h - 1);
    Ok (with_nodes h l).

Definition binaryheap_first (h : binaryheap) : res Z :=
  assert_first h;;
  rd (bh_nodes h) 0.

Definition binaryheap_remove_first (h : binaryheap) : res (Z * binaryheap) :=
  assert_first h;;
  if bh_size h =? 1 then
    let h := with_size h 0 in
    d ← rd (bh_nodes h) 0;
    Ok (d, h)
  else
    l ← swap_nodes (bh_nodes h) 0 (bh_size h - 1);
    let h := with_size (with_nodes h l) (bh_size h - 1) in
    h ← sift_down_heap h 0;
    d ← rd (bh_nodes h) (bh_size h);
    Ok (d, h).

Definition binaryheap_replace_first (h : binaryheap) (d : Z) : res binaryheap :=
  assert_first h;;
  l ← wr (bh_nodes h) 0 d;
  let h := with_nodes h l in
  if 1 <? bh_size h then sift_down_heap h 0 else Ok h.
End heap.

(** What the header asks of a comparator: the sign of [bh_compare a b] orders
    the data. *)
Class Comparator (bh_compare : Z -> Z -> Z) : Prop := {
  compare_flip : forall a b, bh_compare a b < 0 <-> 0 < bh_compare b a;
  compare_trans : forall a b c, bh_compare a b <= 0 -> bh_compare b c <= 0 -> bh_compare a c <= 0
}.

(** * Offsets *)
Lemma left_offset_small i : 0 <= i < 2 ^ 29 -> left_offset i = 2 * i + 1.
Proof. intros. unfold left_offset. rewrite (i32_small (2 * i)) by lia. apply i32_small. lia. Qed.

Lemma right_offset_small i : 0 <= i < 2 ^ 29 -> right_offset i = 2 * i + 2.
Proof. intros. unfold right_offset. rewrite (i32_small (2 * i)) by lia. apply i32_small. lia. Qed.

Lemma parent_offset_small i : 0 < i < 2 ^ 29 -> parent_offset i = (i - 1) / 2.
Proof. intros. unfold parent_offset. rewrite i32_small by lia. apply Z.quot_div_nonneg; lia. Qed.

Lemma parent_bounds i : 0 < i -> 0 <= (i - 1) / 2 < i.
Proof. intros. split; [apply Z.div_pos; lia|]. apply Z.div_lt_upper_bound; lia. Qed.

(** [c] is a child of [i]. *)
Lemma child_parent i c : 0 <= i -> 0 < c -> (c - 1) / 2 = i <-> c = 2 * i + 1 \/ c = 2 * i + 2.
Proof.
  intros Hi Hc. split.
  - intros <-. pose proof (Z.div_mod (c - 1) 2 ltac:(lia)).
    pose proof (Z.mod_pos_bound (c - 1) 2 ltac:(lia)). lia.
  - intros [-> | ->].
    + replace (2 * i + 1 - 1) with (i * 2) by lia. apply Z.div_mul. lia.
    + replace (2 * i + 2 - 1) with (1 + i * 2) by lia. rewrite Z.div_add by lia. done.
Qed.

(** * Swapping *)
Definition swapped (l : list Z) (a b : Z) : list Z := upd (upd l a (getd 0 l b)) b (getd 0 l a).

Lemma swap_nodes_run l a b :
  0 <= a < len l -> 0 <= b < len l -> swap_nodes l a b = Ok (swapped l a b).
Proof.
  intros. apply wp_eq. unfold swap_nodes. wp_steps. apply wp_wr; [rewrite len_upd; lia|done].
Qed.

Lemma len_swapped l a b : len (swapped l a b) = len l.
Proof. unfold swapped. by rewrite !len_upd. Qed.

Lemma getd_swapped l a b j :
  0 <= a < len l -> 0 <= b < len l -> 0 <= j ->
  getd 0 (swapped l a b) j =
    if j =? b then getd 0 l a else if j =? a then getd 0 l b else getd 0 l j.
Proof.
  intros. unfold swapped. rewrite getd_upd by (rewrite ?len_upd; lia).
  destruct (j =? b); [done|]. by rewrite getd_upd by lia.
Qed.

(** The nodes below [size] are permuted, the others stay. *)
Definition permutes (size : Z) (l l' : list Z) : Prop :=
  take (Z.to_nat size) l' ≡ₚ take (Z.to_nat size) l /\ drop (Z.to_nat size) l' = drop (Z.to_nat size) l.

Lemma permutes_refl size l : permutes size l l.
Proof. done. Qed.

Lemma permutes_trans size l1 l2 l3 : permutes size l1 l2 -> permutes size l2 l3 -> permutes size l1 l3.
Proof. intros [H1 H2] [H3 H4]. split; [by rewrite H3|by rewrite H4]. Qed.

Lemma swapped_permutes l a b size :
  0 <= a < size -> 0 <= b < size -> size <= len l -> permutes size l (swapped l a b).
Proof.
  intros Ha Hb Hs. unfold permutes, swapped, upd, len in *. split.
  - rewrite !take_insert_lt by lia. apply insert_swap_perm.
    + rewrite lookup_take_lt by lia. unfold getd.
      destruct (lookup_lt_is_Some_2 l (Z.to_nat a)) as [x Hx]; [lia|]. by rewrite Hx.
    + rewrite lookup_take_lt by lia. unfold getd.
      destruct (lookup_lt_is_Some_2 l (Z.to_nat b)) as [x Hx]; [lia|]. by rewrite Hx.
  - by rewrite !drop_insert_lt by lia.
Qed.

(** * Sifting *)
Section sift.
Context (cmp : Z -> Z -> Z) `{!Comparator cmp}.
#[local] Set Default Proof Using "Type*".

Lemma compare_refl a : cmp a a <= 0.
Proof. destruct (Z.lt_ge_cases 0 (cmp a a)) as [H|]; [|done]. apply compare_flip in H. lia. Qed.

Lemma compare_lt a b : cmp a b < 0 -> cmp a b <= 0.
Proof. lia. Qed.

Lemma compare_ge a b : 0 <= cmp a b -> cmp b a <= 0.
Proof.
  intros H. destruct (Z.lt_ge_cases 0 (cmp b a)) as [Hb|]; [|done].
  apply compare_flip in Hb. lia.
Qed.

(** The node [c] is not larger than its parent. *)
Definition edge (l : list Z) (c : Z) : Prop :=
  cmp (getd 0 l c) (getd 0 l ((c - 1) / 2)) <= 0.

(** The heap property below the nodes from [k] on. *)
Definition heap_from (k size : Z) (l : list Z) : Prop :=
  forall c, 0 < c < size -> k <= (c - 1) / 2 -> edge l c.

Lemma swap_target_spec l size node :
  0 <= node < size -> size <= len l -> size < 2 ^ 29 ->
  exists t, swap_target cmp l size node = Ok t /\
    (t = 0 -> forall c, 0 < c < size -> (c - 1) / 2 = node ->
       cmp (getd 0 l c) (getd 0 l node) <= 0) /\
    (t <> 0 -> 0 < t < size /\ (t - 1) / 2 = node /\ cmp (getd 0 l node) (getd 0 l t) < 0 /\
       forall c, 0 < c < size -> (c - 1) / 2 = node -> cmp (getd 0 l c) (getd 0 l t) <= 0).
Proof.
  intros Hn Hs Hb. apply wp_ok. unfold swap_target.
  rewrite left_offset_small, right_offset_small by lia.
  set (P := fun t => (t = 0 -> forall c, 0 < c < size -> (c - 1) / 2 = node ->
       cmp (getd 0 l c) (getd 0 l node) <= 0) /\
    (t <> 0 -> 0 < t < size /\ (t - 1) / 2 = node /\ cmp (getd 0 l node) (getd 0 l t) < 0 /\
       forall c, 0 < c < size -> (c - 1) / 2 = node -> cmp (getd 0 l c) (getd 0 l t) <= 0)).
  assert (Hp1 : (2 * node + 1 - 1) / 2 = node) by (apply child_parent; lia).
  assert (Hp2 : (2 * node + 2 - 1) / 2 = node) by (apply child_parent; lia).
  assert (Hch : forall c, 0 < c < size -> (c - 1) / 2 = node -> c = 2 * node + 1 \/ c = 2 * node + 2).
  { intros c Hc Hpc. apply child_parent in Hpc; lia. }
  pose proof (compare_refl (getd 0 l (2 * node + 1))) as Hr1.
  pose proof (compare_refl (getd 0 l (2 * node + 2))) as Hr2.
  set (x := getd 0 l node) in *. set (y := getd 0 l (2 * node + 1)) in *.
  set (z := getd 0 l (2 * node + 2)) in *.
  pose proof (compare_ge x y) as Gxy. pose proof (compare_ge x z) as Gxz.
  pose proof (compare_ge y z) as Gyz. pose proof (compare_trans y x z) as Tyxz.
  pose proof (compare_trans z x y) as Tzxy.
  destruct (Z.ltb_spec (2 * node + 1) size) as [Hl|Hl],
    (Z.ltb_spec (2 * node + 2) size) as [Hr|Hr]; try lia; wp_steps; fold x y z.
  - destruct (Z.ltb_spec (cmp x y) 0) as [Hxy|Hxy], (Z.ltb_spec (cmp x z) 0) as [Hxz|Hxz];
      rewrite ?(proj2 (Z.eqb_neq (2 * node + 1) 0)) by lia; simpl; wp_steps; fold x y z;
      try destruct (Z.ltb_spec (cmp y z) 0) as [Hyz|Hyz];
      (split; intros Ht; try lia);
      try (split; [lia|split; [done|split; [done|]]]);
      intros c Hc Hpc; destruct (Hch c Hc Hpc) as [-> | ->]; fold y z; lia.
  - destruct (Z.ltb_spec (cmp x y) 0) as [Hxy|Hxy];
      (split; intros Ht; try lia);
      try (split; [lia|split; [done|split; [done|]]]);
      intros c Hc Hpc; destruct (Hch c Hc Hpc) as [-> | ->]; fold y z; lia.
  - split; [|done]. intros _ c Hc Hpc. destruct (Hch c Hc Hpc); lia.
Qed.

(** The property with a hole at [node]: every edge but those from [node] to
    its children, and the children fit below [node]'s parent. *)
Definition hole_down (k size node : Z) (l : list Z) : Prop :=
  (forall c, 0 < c < size -> k <= (c - 1) / 2 -> (c - 1) / 2 <> node -> edge l c) /\
  (0 < node -> k <= (node - 1) / 2 -> forall c, 0 < c < size -> (c - 1) / 2 = node ->
     cmp (getd 0 l c) (getd 0 l ((node - 1) / 2)) <= 0).

Lemma hole_down_swap k size node t l :
  0 <= node -> k <= node -> size <= len l -> 0 < t < size -> (t - 1) / 2 = node ->
  cmp (getd 0 l node) (getd 0 l t) < 0 ->
  (forall c, 0 < c < size -> (c - 1) / 2 = node -> cmp (getd 0 l c) (getd 0 l t) <= 0) ->
  hole_down k size node l -> hole_down k size t (swapped l t node).
Proof.
  intros Hn Hk Hs Ht Hp Hlt Hmax [H1 H2].
  assert (Hnt : node < t) by (pose proof (parent_bounds t ltac:(lia)); lia).
  assert (Hget : forall j, 0 <= j -> getd 0 (swapped l t node) j =
    if j =? node then getd 0 l t else if j =? t then getd 0 l node else getd 0 l j).
  { intros j Hj. apply getd_swapped; lia. }
  split.
  - intros c Hc Hkc Hne. pose proof (parent_bounds c ltac:(lia)) as Hpc.
    unfold edge. rewrite !Hget by lia.
    destruct (Z.eqb_spec c node) as [->|Hcn].
    + rewrite (proj2 (Z.eqb_neq _ _)), (proj2 (Z.eqb_neq _ _)) by lia.
      apply H2; lia || done.
    + destruct (Z.eqb_spec ((c - 1) / 2) node) as [Hpn|Hpn].
      * destruct (Z.eqb_spec c t); [lia|]. by apply Hmax.
      * rewrite (proj2 (Z.eqb_neq ((c - 1) / 2) t)) by done.
        destruct (Z.eqb_spec c t) as [->|]; [done|]. by apply H1.
  - intros _ _ c Hc Hpc. rewrite Hp, !Hget by lia. rewrite Z.eqb_refl.
    pose proof (parent_bounds c ltac:(lia)).
    rewrite (proj2 (Z.eqb_neq c node)), (proj2 (Z.eqb_neq c t)) by lia.
    rewrite <- Hpc. apply H1; lia.
Qed.

Lemma sift_down_spec fuel l k size node :
  0 <= k -> k <= node < size -> size <= len l -> size < 2 ^ 29 ->
  size - node <= Z.of_nat fuel -> hole_down k size node l ->
  exists l', sift_down cmp fuel l size node = Ok l' /\ len l' = len l /\
    heap_from k size l' /\ permutes size l l'.
Proof.
  intros Hk. revert l node. induction fuel as [|f IH]; intros l node Hn Hs Hb Hf Hh; [lia|].
  destruct (swap_target_spec l size node) as (t & Ht & Hz & Hnz); [lia|done|done|].
  simpl. rewrite Ht. simpl. destruct (Z.eqb_spec t 0) as [->|Htn].
  - exists l. split; [done|]. split; [done|]. split; [|apply permutes_refl].
    intros c Hc Hkc. destruct (Z.eq_dec ((c - 1) / 2) node) as [He|He].
    + unfold edge. rewrite He. by apply Hz.
    + by apply Hh.
  - destruct (Hnz Htn) as (Hts & Htp & Hlt & Hmax).
    pose proof (parent_bounds t ltac:(lia)).
    rewrite swap_nodes_run by lia. simpl.
    destruct (IH (swapped l t node) t) as (l' & Hr & Hl & Hheap & Hperm);
      [lia|by rewrite len_swapped|done|lia|by apply hole_down_swap; lia || done|].
    exists l'. split; [done|]. rewrite len_swapped in Hl. split; [done|]. split; [done|].
    eapply permutes_trans; [|done]. apply swapped_permutes; lia.
Qed.

(** The property with a hole above [node]: every edge but the one from
    [node] up, and [node]'s children fit below its parent. *)
Definition hole_up (size node : Z) (l : list Z) : Prop :=
  (forall c, 0 < c < size -> c <> node -> edge l c) /\
  (0 < node -> forall c, 0 < c < size -> (c - 1) / 2 = node ->
     cmp (getd 0 l c) (getd 0 l ((node - 1) / 2)) <= 0).

Lemma hole_up_swap size node l :
  0 < node < size -> size <= len l ->
  0 < cmp (getd 0 l node) (getd 0 l ((node - 1) / 2)) ->
  hole_up size node l -> hole_up size ((node - 1) / 2) (swapped l node ((node - 1) / 2)).
Proof.
  intros Hn Hs Hgt [H1 H2]. pose proof (parent_bounds node ltac:(lia)) as Hp.
  set (p := (node - 1) / 2) in *.
  assert (Hget : forall j, 0 <= j -> getd 0 (swapped l node p) j =
    if j =? p then getd 0 l node else if j =? node then getd 0 l p else getd 0 l j).
  { intros j Hj. apply getd_swapped; lia. }
  assert (Hlt : cmp (getd 0 l p) (getd 0 l node) <= 0) by (apply compare_ge; lia).
  split.
  - intros c Hc Hne. pose proof (parent_bounds c ltac:(lia)).
    unfold edge. rewrite !Hget by lia. rewrite (proj2 (Z.eqb_neq c p)) by done.
    destruct (Z.eqb_spec c node) as [->|Hcn].
    + fold p. rewrite Z.eqb_refl. done.
    + destruct (Z.eqb_spec ((c - 1) / 2) p) as [Hcp|Hcp].
      * apply (compare_trans _ (getd 0 l p)); [|done]. rewrite <- Hcp. by apply H1.
      * destruct (Z.eqb_spec ((c - 1) / 2) node) as [Hcq|Hcq].
        -- apply H2; lia.
        -- by apply H1.
  - intros Hp0 c Hc Hcp. pose proof (parent_bounds p ltac:(lia)). pose proof (parent_bounds c ltac:(lia)).
    rewrite !Hget by lia.
    rewrite (proj2 (Z.eqb_neq c p)), (proj2 (Z.eqb_neq ((p - 1) / 2) p)),
      (proj2 (Z.eqb_neq ((p - 1) / 2) node)) by lia.
    assert (Hpp : cmp (getd 0 l p) (getd 0 l ((p - 1) / 2)) <= 0) by (apply H1; lia).
    destruct (Z.eqb_spec c node) as [->|Hcn]; [done|].
    apply (compare_trans _ (getd 0 l p)); [|done]. rewrite <- Hcp. apply H1; lia.
Qed.

Lemma sift_up_spec fuel l size node :
  0 <= node < size -> size <= len l -> size < 2 ^ 29 -> node < Z.of_nat fuel ->
  hole_up size node l ->
  exists l', sift_up cmp fuel l node = Ok l' /\ len l' = len l /\
    heap_from 0 size l' /\ permutes size l l'.
Proof.
  revert l node. induction fuel as [|f IH]; intros l node Hn Hs Hb Hf Hh; [lia|].
  simpl. destruct (Z.eqb_spec node 0) as [->|Hn0].
  - exists l. split; [done|]. split; [done|]. split; [|apply permutes_refl].
    intros c Hc _. apply Hh; lia.
  - rewrite parent_offset_small by lia. pose proof (parent_bounds node ltac:(lia)) as Hp.
    assert (Hrd : forall i, 0 <= i < len l -> rd l i = Ok (getd 0 l i)).
    { intros i Hi. apply wp_eq. by apply (wp_rd 0). }
    rewrite !Hrd by lia. simpl.
    destruct (Z.leb_spec (cmp (getd 0 l node) (getd 0 l ((node - 1) / 2))) 0) as [Hle|Hgt].
    + exists l. split; [done|]. split; [done|]. split; [|apply permutes_refl].
      intros c Hc _. destruct (Z.eq_dec c node) as [->|]; [done|]. by apply Hh.
    + rewrite swap_nodes_run by lia. simpl.
      destruct (IH (swapped l node ((node - 1) / 2)) ((node - 1) / 2))
        as (l' & Hr & Hl & Hheap & Hperm);
        [lia|by rewrite len_swapped|done|lia|apply hole_up_swap; lia || done|].
      exists l'. split; [done|]. rewrite len_swapped in Hl. split; [done|]. split; [done|].
      eapply permutes_trans; [|done]. apply swapped_permutes; lia.
Qed.

(** The root of a heap is its largest node. *)
Lemma heap_root_max l size i :
  heap_from 0 size l -> 0 <= i < size -> cmp (getd 0 l i) (getd 0 l 0) <= 0.
Proof.
  intros Hh. induction i as [i IH] using (well_founded_induction (Z.lt_wf 0)). intros Hi.
  destruct (Z.eq_dec i 0) as [->|]; [apply compare_refl|].
  pose proof (parent_bounds i ltac:(lia)).
  apply (compare_trans _ (getd 0 l ((i - 1) / 2))); [apply Hh; lia|apply IH; lia].
Qed.
End sift.
