(* ===== verification/BinaryHeapProps.v ===== *)
(** Properties of the binary heap of BinaryHeap.v: the heap invariant, its
    preservation by every operation, and what the operations do to the
    multiset of stored data, up to sorting by repeated removal. *)
From S2P Require Import Prelude.
From S2P Require Import BinaryHeap.
From Stdlib Require Import Sorted.
Open Scope Z_scope.

(** * The invariant *)
Record heap_wf (h : binaryheap) : Prop := {
  wf_size : 0 <= bh_size h <= bh_space h;
  wf_space : bh_space h < 2 ^ 28;
  wf_nodes : len (bh_nodes h) = bh_space h
}.

(** The stored data. *)
Definition content (h : binaryheap) : list Z := take (Z.to_nat (bh_size h)) (bh_nodes h).

Lemma len_content h : heap_wf h -> len (content h) = bh_size h.
Proof. intros []. unfold content, len in *. rewrite length_take. lia. Qed.

(** Writing the cell after the stored data appends to them. *)
Lemma content_permutes h l :
  permutes (bh_size h) (bh_nodes h) l -> content (with_nodes h l) ≡ₚ content h.
Proof. by intros [H _]. Qed.

Lemma len_permutes size l l' : permutes size l l' -> len l' = len l.
Proof.
  intros [H1 H2]. unfold len. rewrite <- (take_drop (Z.to_nat size) l'), <- (take_drop (Z.to_nat size) l).
  rewrite !length_app, H2. by rewrite (Permutation_length H1).
Qed.

Section ops.
Context (cmp : Z -> Z -> Z) `{!Comparator cmp}.
#[local] Set Default Proof Using "Type*".

Definition heap_ok (h : binaryheap) : Prop :=
  heap_wf h /\ heap_from cmp 0 (bh_size h) (bh_nodes h) /\ bh_has_heap_property h = true.

Lemma first_allowed h : heap_ok h -> 0 < bh_size h -> assert_first h = Ok tt.
Proof. intros (_ & _ & E) Hs. unfold assert_first, binaryheap_empty. by rewrite E, (proj2 (Z.eqb_neq _ _)) by lia. Qed.

Lemma with_nodes_wf h l : heap_wf h -> len l = len (bh_nodes h) -> heap_wf (with_nodes h l).
Proof. intros [] ?. constructor; simpl; lia. Qed.

Lemma add_ok h d :
  heap_ok h -> bh_size h < bh_space h ->
  exists h', binaryheap_add cmp h d = Ok h' /\ heap_ok h' /\ content h' ≡ₚ d :: content h.
Proof.
  intros [[Hs Hb Hn] [Hh Hflag]] Hroom. unfold binaryheap_add.
  rewrite (proj2 (Z.leb_gt _ _)) by lia.
  assert (Hw : wr (bh_nodes h) (bh_size h) d = Ok (upd (bh_nodes h) (bh_size h) d)).
  { apply wp_eq. by apply wp_wr; [lia|]. }
  rewrite Hw. simpl. rewrite i32_small by lia.
  replace (bh_size h + 1 - 1) with (bh_size h) by lia.
  set (l := upd (bh_nodes h) (bh_size h) d).
  assert (Hl : len l = bh_space h) by (unfold l; by rewrite len_upd).
  destruct (sift_up_spec cmp (S (length l)) l (bh_size h + 1) (bh_size h))
    as (l' & Hr & Hl' & Hheap & Hperm); [lia|lia|lia|unfold len in *; lia| |].
  - split.
    + intros c Hc Hne. pose proof (parent_bounds c ltac:(lia)). unfold edge, l.
      rewrite !getd_upd_ne by lia. apply Hh; lia.
    + intros Hpos c Hc Hpc. pose proof (parent_bounds c ltac:(lia)). lia.
  - change (length (bh_nodes (with_size (with_nodes h l) (bh_size h + 1)))) with (length l) in *.
    simpl in Hr. simpl. unfold l in *. rewrite Hr. simpl. eexists. split; [done|]. split.
    + split; [|done]. constructor; simpl; lia.
    + destruct Hperm as [Hp _]. unfold content. simpl. rewrite Hp, take_upd by lia.
      by rewrite Permutation_app_comm.
Qed.

Lemma sift_root_ok h :
  heap_wf h -> 0 < bh_size h -> bh_has_heap_property h = true -> heap_from cmp 1 (bh_size h) (bh_nodes h) ->
  exists h', sift_down_heap cmp h 0 = Ok h' /\ heap_ok h' /\ bh_size h' = bh_size h /\
    permutes (bh_size h) (bh_nodes h) (bh_nodes h').
Proof.
  intros [Hs Hb Hn] Hpos Hflag Hh. unfold sift_down_heap.
  destruct (sift_down_spec cmp (S (length (bh_nodes h))) (bh_nodes h) 0 (bh_size h) 0)
    as (l' & -> & Hl & Hheap & Hperm); [lia|lia|lia|lia|unfold len in *; lia| |].
  - split; [|lia]. intros c Hc _ Hne. pose proof (parent_bounds c ltac:(lia)). apply Hh; lia.
  - simpl. eexists. split; [done|]. split; [split; [by apply with_nodes_wf|done]|]. by split.
Qed.

Lemma getd_content h i : 0 <= i < bh_size h -> getd 0 (bh_nodes h) i = getd 0 (content h) i.
Proof. intros. unfold getd, content. by rewrite lookup_take_lt by lia. Qed.

Lemma content_max h x :
  heap_ok h -> x ∈ content h -> cmp x (getd 0 (bh_nodes h) 0) <= 0.
Proof.
  intros (Hwf & Hh & _) [i Hi]%list_elem_of_lookup_1. pose proof (lookup_lt_Some _ _ _ Hi) as Hlt.
  pose proof (len_content h Hwf) as Hl. unfold len in Hl.
  assert (x = getd 0 (bh_nodes h) (Z.of_nat i)) as ->.
  { rewrite getd_content by lia. unfold getd. by rewrite Nat2Z.id, Hi. }
  apply (heap_root_max cmp _ (bh_size h)); [done|lia].
Qed.

Lemma heap_tail l size : heap_from cmp 0 size l -> heap_from cmp 1 size l.
Proof. intros H c Hc Hk. apply H; lia. Qed.

Lemma remove_first_ok h :
  heap_ok h -> 0 < bh_size h ->
  exists d h', binaryheap_remove_first cmp h = Ok (d, h') /\ heap_ok h' /\
    bh_size h' = bh_size h - 1 /\ content h ≡ₚ d :: content h' /\
    (forall x, x ∈ content h -> cmp x d <= 0).
Proof.
  intros Hok Hpos. pose proof Hok as [[Hs Hb Hn] [Hh Hflag]]. unfold binaryheap_remove_first.
  rewrite (first_allowed h Hok Hpos). step_ok.
  assert (Hrd : forall l i, 0 <= i < len l -> rd l i = Ok (getd 0 l i)).
  { intros l i Hi. apply wp_eq. by apply (wp_rd 0). }
  destruct (Z.eqb_spec (bh_size h) 1) as [H1|H1].
  - simpl. rewrite Hrd by lia. simpl. do 2 eexists. split; [done|]. split; [|split; [simpl; lia|split]].
    + split; [constructor; simpl; lia|]. split; [|done]. intros c Hc. simpl in Hc. lia.
    + unfold content. rewrite H1. simpl. destruct (bh_nodes h) as [|x l]; [unfold len in Hn; simpl in Hn; lia|].
      simpl. by destruct l.
    + intros x. by apply content_max.
  - rewrite swap_nodes_run by lia. simpl.
    set (l := swapped (bh_nodes h) 0 (bh_size h - 1)).
    set (h1 := with_size (with_nodes h l) (bh_size h - 1)).
    assert (Hl : len l = bh_space h) by (unfold l; by rewrite len_swapped).
    assert (Hget : forall j, 0 <= j -> getd 0 l j =
      if j =? bh_size h - 1 then getd 0 (bh_nodes h) 0
      else if j =? 0 then getd 0 (bh_nodes h) (bh_size h - 1) else getd 0 (bh_nodes h) j).
    { intros j Hj. apply getd_swapped; lia. }
    destruct (sift_root_ok h1) as (h2 & -> & Hok2 & Hsz & Hperm).
    + constructor; simpl; lia.
    + simpl. lia.
    + done.
    + intros c Hc Hk. simpl in Hc. pose proof (parent_bounds c ltac:(lia)). unfold edge.
      rewrite !Hget by lia.
      rewrite (proj2 (Z.eqb_neq c (bh_size h - 1))), (proj2 (Z.eqb_neq c 0)),
        (proj2 (Z.eqb_neq ((c - 1) / 2) (bh_size h - 1))), (proj2 (Z.eqb_neq ((c - 1) / 2) 0)) by lia.
      apply Hh; lia.
    + assert (Hd : getd 0 (bh_nodes h2) (bh_size h - 1) = getd 0 (bh_nodes h) 0).
      { destruct Hperm as [_ Hdrop]. simpl in Hdrop.
        assert (Hat : drop (Z.to_nat (bh_size h - 1)) (bh_nodes h2) !! 0%nat =
                      drop (Z.to_nat (bh_size h - 1)) l !! 0%nat) by by rewrite Hdrop.
        rewrite !lookup_drop, !Nat.add_0_r in Hat. unfold getd at 1. rewrite Hat.
        change (getd 0 l (bh_size h - 1) = getd 0 (bh_nodes h) 0).
        rewrite Hget by lia. by rewrite Z.eqb_refl. }
      simpl. simpl in Hsz. pose proof (len_permutes _ _ _ Hperm) as Hl2. simpl in Hl2.
      rewrite Hsz, Hrd by lia. simpl. rewrite Hd. do 2 eexists. split; [done|].
      split; [done|]. split; [lia|]. split.
      * pose proof (swapped_permutes (bh_nodes h) 0 (bh_size h - 1) (bh_size h)
          ltac:(lia) ltac:(lia) ltac:(lia)) as [Hsw _]. fold l in Hsw.
        destruct Hperm as [Hpc _]. simpl in Hpc. unfold content. rewrite Hsz, Hpc, <- Hsw.
        replace (Z.to_nat (bh_size h)) with (S (Z.to_nat (bh_size h - 1))) by lia.
        rewrite (take_S_r _ _ (getd 0 (bh_nodes h) 0)); [by rewrite Permutation_app_comm|].
        destruct (lookup_lt_is_Some_2 l (Z.to_nat (bh_size h - 1))) as [v Hv]; [unfold len in Hl; lia|].
        pose proof (Hget (bh_size h - 1) ltac:(lia)) as Hg. rewrite Z.eqb_refl in Hg.
        unfold getd at 1 in Hg. rewrite Hv in Hg. simpl in Hg. by rewrite Hv, Hg.
      * intros x. by apply content_max.
Qed.

Lemma build_ok h :
  heap_wf h ->
  exists h', binaryheap_build cmp h = Ok h' /\ heap_ok h' /\ bh_size h' = bh_size h /\
    content h' ≡ₚ content h.
Proof.
  intros [Hs Hb Hn]. unfold binaryheap_build. apply wp_ok. apply wp_bind, wp_loop_state.
  rewrite i32_small by lia.
  assert (Hpo : parent_offset (bh_size h - 1) =
    if bh_size h =? 0 then -1 else if bh_size h =? 1 then 0 else (bh_size h - 2) / 2).
  { destruct (Z.eqb_spec (bh_size h) 0) as [->|]; [done|].
    destruct (Z.eqb_spec (bh_size h) 1) as [->|]; [done|].
    rewrite parent_offset_small by lia. f_equal. lia. }
  assert (Hpb : -1 <= parent_offset (bh_size h - 1) < Z.max 1 (bh_size h)).
  { rewrite Hpo. destruct (Z.eqb_spec (bh_size h) 0); [lia|].
    destruct (Z.eqb_spec (bh_size h) 1); [lia|].
    pose proof (parent_bounds (bh_size h - 1) ltac:(lia)).
    replace (bh_size h - 1 - 1) with (bh_size h - 2) in * by lia. lia. }
  apply (wp_for_down (fun i h' => heap_wf h' /\ bh_size h' = bh_size h /\ bh_space h' = bh_space h /\
    permutes (bh_size h) (bh_nodes h) (bh_nodes h') /\
    heap_from cmp (i + 1) (bh_size h) (bh_nodes h'))).
  - lia.
  - split; [by constructor|]. split; [done|]. split; [done|]. split; [apply permutes_refl|].
    intros c Hc Hk. exfalso. rewrite Hpo in Hk.
    destruct (Z.eqb_spec (bh_size h) 0); [lia|]. destruct (Z.eqb_spec (bh_size h) 1); [lia|].
    assert ((c - 1) / 2 <= (bh_size h - 2) / 2); [apply Z.div_le_mono; lia|lia].
  - intros i h1 Hi (Hwf1 & Hs1 & Hsp1 & Hp1 & Hh1).
    assert (0 < bh_size h) by (destruct (Z.eq_dec (bh_size h) 0) as [E|]; [rewrite Hpo, E in Hi; simpl in Hi|]; lia).
    destruct Hwf1 as [Hsz1 Hb1 Hn1]. unfold sift_down_heap. rewrite Hs1.
    destruct (sift_down_spec cmp (S (length (bh_nodes h1))) (bh_nodes h1) i (bh_size h) i)
      as (l' & -> & Hl & Hheap & Hperm); [lia|lia|lia|lia|unfold len in *; lia| |].
    { split; [|intros ? ?; pose proof (parent_bounds i ltac:(lia)); lia].
      intros c Hc Hk Hne. apply Hh1; lia. }
    simpl. split; [constructor; simpl; lia|]. split; [done|]. split; [done|].
    split; [by eapply permutes_trans|]. replace (i - 1 + 1) with i by lia. done.
  - intros h' (Hwf' & Hs' & Hsp' & Hp' & Hh'). simpl.
    split; [split; [by destruct Hwf'; constructor|]|].
    { cbn [bh_size bh_nodes with_property]. rewrite Hs'. by split. } split; [done|].
    unfold content. simpl. rewrite Hs'. apply Hp'.
Qed.
End ops.

(** * Clients *)

(** Fill a heap without ordering it. *)
Fixpoint load (h : binaryheap) (l : list Z) : res binaryheap :=
  match l with
  | [] => Ok h
  | d :: l' => h' ← binaryheap_add_unordered h d; load h' l'
  end.

(** Remove the first node until the heap is empty. *)
Fixpoint drain (cmp : Z -> Z -> Z) (fuel : nat) (h : binaryheap) : res (list Z) :=
  if binaryheap_empty h then Ok []
  else match fuel with
  | O => UB "fuel"
  | S f => '(d, h') ← binaryheap_remove_first cmp h; l ← drain cmp f h'; Ok (d :: l)
  end.

(** Allocate, load, build, drain. *)
Definition heap_sort (cmp : Z -> Z -> Z) (l : list Z) : res (list Z) :=
  h ← binaryheap_allocate (len l);
  h ← load h l;
  h ← binaryheap_build cmp h;
  drain cmp (length l) h.

Lemma allocate_ok capacity :
  0 <= capacity <= 134217723 ->
  exists h, binaryheap_allocate capacity = Ok h /\ heap_wf h /\ bh_size h = 0 /\
    bh_space h = capacity.
Proof.
  intros Hc. unfold binaryheap_allocate, nodes_offset, datum_size, MaxAllocSize.
  rewrite (u64_small capacity) by lia. rewrite (u64_small (32 + 8 * capacity)) by lia.
  rewrite i32_small by lia. rewrite u64_small by lia.
  rewrite (proj2 (Z.ltb_ge _ _)), (proj2 (Z.ltb_ge _ _)) by lia.
  replace ((32 + 8 * capacity - 32) / 8) with capacity
    by (replace (32 + 8 * capacity - 32) with (capacity * 8) by lia; by rewrite Z.div_mul).
  eexists. split; [done|]. split; [|done]. constructor; simpl; [lia|lia|].
  rewrite len_replicate. lia.
Qed.

Lemma load_ok l h :
  heap_wf h -> bh_size h + len l <= bh_space h ->
  exists h', load h l = Ok h' /\ heap_wf h' /\ content h' ≡ₚ content h ++ l /\
    bh_size h' = bh_size h + len l.
Proof.
  revert h. induction l as [|d l IH]; intros h [Hs Hb Hn] Hroom.
  - exists h. split; [done|]. split; [done|]. rewrite app_nil_r, len_nil. by split; [|lia].
  - rewrite len_cons in Hroom. pose proof (len_nonneg l). simpl. unfold binaryheap_add_unordered.
    rewrite (proj2 (Z.leb_gt _ _)) by lia. simpl.
    assert (wr (bh_nodes h) (bh_size h) d = Ok (upd (bh_nodes h) (bh_size h) d)) as ->.
    { apply wp_eq. by apply wp_wr; [lia|]. }
    simpl. rewrite i32_small by lia.
    destruct (IH (with_size (with_nodes (with_property h false) (upd (bh_nodes h) (bh_size h) d))
      (bh_size h + 1))) as (h' & -> & Hwf & Hc & Hsz).
    + constructor; simpl; rewrite ?len_upd; lia.
    + simpl. lia.
    + exists h'. split; [done|]. split; [done|]. rewrite len_cons. simpl in Hsz. split; [|lia].
      rewrite Hc. unfold content. simpl. rewrite take_upd by lia. by rewrite <- app_assoc.
Qed.

(** Descending order for a comparator. *)
Definition descending (cmp : Z -> Z -> Z) (a b : Z) : Prop := cmp b a <= 0.

Lemma drain_ok cmp `{!Comparator cmp} fuel h :
  heap_ok cmp h -> bh_size h <= Z.of_nat fuel ->
  exists l, drain cmp fuel h = Ok l /\ l ≡ₚ content h /\ StronglySorted (descending cmp) l.
Proof.
  revert h. induction fuel as [|f IH]; intros h Hok Hf; simpl; unfold binaryheap_empty.
  - pose proof Hok as [[Hs _ _] _]. rewrite (proj2 (Z.eqb_eq _ _)) by lia.
    exists []. unfold content. replace (bh_size h) with 0 by lia. split; [done|]. by repeat constructor.
  - destruct (Z.eqb_spec (bh_size h) 0) as [Hz|Hz].
    + exists []. unfold content. rewrite Hz. split; [done|]. by repeat constructor.
    + pose proof Hok as [[Hs _ _] _].
      destruct (remove_first_ok cmp h Hok ltac:(lia)) as (d & h' & -> & Hok' & Hsz & Hp & Hmax).
      simpl. destruct (IH h' Hok' ltac:(lia)) as (l & -> & Hl & Hsorted). simpl.
      exists (d :: l). split; [done|]. split; [by rewrite Hl|].
      constructor; [done|]. apply List.Forall_forall. intros x Hx%list_elem_of_In. unfold descending.
      apply Hmax. rewrite Hp. right. by rewrite <- Hl.
Qed.

(** * Claims *)
Section claims.
Context (cmp : Z -> Z -> Z) (Hcmp : Comparator cmp).

(** Adding to a heap: with a free slot the heap property is kept and
    exactly the datum is added to the stored data; on a full heap the error is
    raised. *)
Theorem binaryheap_add_correct (h : binaryheap) (d : Z) (Hok : heap_ok cmp h) :
  (bh_size h < bh_space h ->
     exists h', binaryheap_add cmp h d = Ok h' /\ heap_ok cmp h' /\ content h' ≡ₚ d :: content h) /\
  (bh_size h = bh_space h -> binaryheap_add cmp h d = Err "out of binary heap slots").
Proof using Hcmp.
  split; [by apply add_ok|]. intros He. unfold binaryheap_add.
  by rewrite (proj2 (Z.leb_le _ _)) by lia.
Qed.

(** Removing from a non-empty heap returns normally a largest stored
    datum, takes exactly it out, and keeps the heap property. *)
Theorem binaryheap_remove_first_correct (h : binaryheap) (Hok : heap_ok cmp h)
    (Hne : binaryheap_empty h = false) :
  exists d h', binaryheap_remove_first cmp h = Ok (d, h') /\ heap_ok cmp h' /\
    content h ≡ₚ d :: content h' /\ (forall x, x ∈ content h -> cmp x d <= 0).
Proof using Hcmp.
  pose proof Hok as [[Hs _ _] _]. apply Z.eqb_neq in Hne.
  destruct (remove_first_ok cmp h Hok ltac:(lia)) as (d & h' & H1 & H2 & _ & H3 & H4). eauto 7.
Qed.

(** Replacing the first datum of a non-empty heap keeps the heap
    property and exchanges exactly that datum. *)
Theorem binaryheap_replace_first_correct (h : binaryheap) (d : Z) (Hok : heap_ok cmp h)
    (Hne : binaryheap_empty h = false) :
  exists top h', binaryheap_first h = Ok top /\ binaryheap_replace_first cmp h d = Ok h' /\
    heap_ok cmp h' /\ top :: content h' ≡ₚ d :: content h.
Proof using Hcmp.
  pose proof Hok as [[Hs Hb Hn] [Hh Hflag]]. apply Z.eqb_neq in Hne.
  exists (getd 0 (bh_nodes h) 0). unfold binaryheap_first, binaryheap_replace_first.
  rewrite (first_allowed cmp h Hok ltac:(lia)). step_ok.
  assert (rd (bh_nodes h) 0 = Ok (getd 0 (bh_nodes h) 0)) as -> by (apply wp_eq; by apply (wp_rd 0); [lia|]).
  assert (wr (bh_nodes h) 0 d = Ok (upd (bh_nodes h) 0 d)) as -> by (apply wp_eq; by apply wp_wr; [lia|]).
  simpl. set (h1 := with_nodes h (upd (bh_nodes h) 0 d)).
  assert (Hwf1 : heap_wf h1) by (apply with_nodes_wf; [done|apply len_upd]).
  assert (Hc1 : getd 0 (bh_nodes h) 0 :: content h1 ≡ₚ d :: content h).
  { unfold content, h1, upd. simpl. destruct (bh_nodes h) as [|x l]; [unfold len in Hn; simpl in Hn; lia|].
    replace (Z.to_nat (bh_size h)) with (S (Z.to_nat (bh_size h - 1))) by lia. simpl. constructor. }
  assert (Hh1 : heap_from cmp 1 (bh_size h1) (bh_nodes h1)).
  { intros c Hc Hk. simpl in *. pose proof (parent_bounds c ltac:(lia)). unfold edge.
    rewrite !getd_upd_ne by lia. apply Hh; lia. }
  destruct (Z.ltb_spec 1 (bh_size h)) as [H1|H1].
  - destruct (sift_root_ok cmp h1 Hwf1 ltac:(simpl; lia) Hflag Hh1) as (h2 & -> & Hok2 & Hsz & Hperm).
    exists h2. split; [done|]. split; [done|]. split; [done|]. rewrite <- Hc1. constructor.
    destruct Hperm as [Hp _]. unfold content. by rewrite Hsz, Hp.
  - exists h1. split; [done|]. split; [done|]. split; [|done]. split; [done|]. split; [|done].
    intros c Hc. simpl in Hc. lia.
Qed.

(** Building: from any array of data, [binaryheap_build] terminates and
    establishes the heap property on the same data. *)
Theorem binaryheap_build_correct (h : binaryheap) (Hwf : heap_wf h) :
  exists h', binaryheap_build cmp h = Ok h' /\ heap_ok cmp h' /\ content h' ≡ₚ content h.
Proof using Hcmp. destruct (build_ok cmp h Hwf) as (h' & H1 & H2 & _ & H3). eauto. Qed.

(** C38. Sorting by a heap: allocating a heap for the data, adding them
    unordered, building and removing the first node until the heap is empty
    returns the data in descending order. *)
Theorem heap_sort_correct (l : list Z) (Hlen : len l <= 134217723) :
  exists l', heap_sort cmp l = Ok l' /\ l' ≡ₚ l /\ StronglySorted (descending cmp) l'.
Proof using Hcmp.
  pose proof (len_nonneg l). unfold heap_sort.
  destruct (allocate_ok (len l)) as (h & -> & Hwf & Hsz & Hsp); [lia|]. simpl.
  destruct (load_ok l h Hwf ltac:(lia)) as (h1 & -> & Hwf1 & Hc1 & Hs1). simpl.
  destruct (build_ok cmp h1 Hwf1) as (h2 & -> & Hok2 & Hs2 & Hc2). simpl.
  destruct (drain_ok cmp (length l) h2 Hok2) as (l' & -> & Hp & Hsorted); [unfold len in *; lia|].
  exists l'. split; [done|]. split; [|done]. rewrite Hp, Hc2, Hc1. unfold content. by rewrite Hsz.
Qed.
End claims.

(** Allocation: for capacities up to 134217723 the heap has room for its
    capacity; from 2^29 on the [int] size wraps around and the heap is returned
    with fewer slots than its recorded capacity. *)
Theorem binaryheap_allocate_bounds (capacity : Z) :
  (0 <= capacity <= 134217723 ->
     exists h, binaryheap_allocate capacity = Ok h /\ heap_wf h /\ bh_size h = 0 /\
       bh_space h = capacity) /\
  (2 ^ 29 <= capacity <= 2 ^ 29 + 134217723 ->
     exists h, binaryheap_allocate capacity = Ok h /\ bh_space h = capacity /\
       len (bh_nodes h) = capacity - 2 ^ 29).
Proof.
  split; [apply allocate_ok|]. intros Hc.
  unfold binaryheap_allocate, nodes_offset, datum_size, MaxAllocSize.
  rewrite (u64_small capacity) by lia. rewrite (u64_small (32 + 8 * capacity)) by lia.
  assert (i32 (32 + 8 * capacity) = 32 + 8 * (capacity - 2 ^ 29)) as ->.
  { unfold i32. replace (32 + 8 * capacity + 2 ^ 31)
      with (32 + 8 * (capacity - 2 ^ 29) + 2 ^ 31 + 1 * 2 ^ 32) by lia.
    rewrite Z.mod_add by lia. rewrite Z.mod_small by lia. lia. }
  rewrite u64_small by lia.
  rewrite (proj2 (Z.ltb_ge _ _)), (proj2 (Z.ltb_ge _ _)) by lia.
  eexists. split; [done|]. split; [done|]. simpl. rewrite len_replicate.
  replace ((32 + 8 * (capacity - 2 ^ 29) - 32) / 8) with (capacity - 2 ^ 29); [lia|].
  replace (32 + 8 * (capacity - 2 ^ 29) - 32) with ((capacity - 2 ^ 29) * 8) by lia. by rewrite Z.div_mul.
Qed.

(** * Witnesses *)
Lemma sub_comparator : Comparator Z.sub.
Proof. constructor; lia. Qed.

Definition sample_heap : binaryheap :=
  {| bh_size := 3; bh_space := 4; bh_has_heap_property := true; bh_nodes := [9; 4; 7; 0] |}.

Lemma sample_heap_ok : heap_ok Z.sub sample_heap.
Proof.
  split; [by constructor|]. split; [|done]. intros c Hc _. simpl in Hc.
  assert (c = 1 \/ c = 2) as [-> | ->] by lia; by vm_compute.
Qed.

Lemma binaryheap_add_correct_witness :
  exists h', binaryheap_add Z.sub sample_heap 8 = Ok h' /\ heap_ok Z.sub h' /\
    content h' ≡ₚ 8 :: content sample_heap.
Proof. apply (binaryheap_add_correct Z.sub sub_comparator sample_heap 8 sample_heap_ok). done. Defined.

Lemma binaryheap_remove_first_correct_witness :
  exists d h', binaryheap_remove_first Z.sub sample_heap = Ok (d, h') /\ heap_ok Z.sub h' /\
    content sample_heap ≡ₚ d :: content h' /\ (forall x, x ∈ content sample_heap -> x - d <= 0).
Proof. exact (binaryheap_remove_first_correct Z.sub sub_comparator sample_heap sample_heap_ok eq_refl). Defined.

Lemma binaryheap_replace_first_correct_witness :
  exists top h', binaryheap_first sample_heap = Ok top /\
    binaryheap_replace_first Z.sub sample_heap 5 = Ok h' /\
    heap_ok Z.sub h' /\ top :: content h' ≡ₚ 5 :: content sample_heap.
Proof. exact (binaryheap_replace_first_correct Z.sub sub_comparator sample_heap 5 sample_heap_ok eq_refl). Defined.

Lemma binaryheap_build_correct_witness :
  exists h', binaryheap_build Z.sub (with_nodes sample_heap [1; 2; 3; 4]) = Ok h' /\
    heap_ok Z.sub h' /\ content h' ≡ₚ [1; 2; 3].
Proof.
  apply (binaryheap_build_correct Z.sub sub_comparator (with_nodes sample_heap [1; 2; 3; 4])).
  by constructor.
Defined.

Lemma heap_sort_correct_witness :
  exists l', heap_sort Z.sub [3; 1; 2] = Ok l' /\ l' ≡ₚ [3; 1; 2] /\
    StronglySorted (descending Z.sub) l'.
Proof. apply (heap_sort_correct Z.sub sub_comparator [3; 1; 2]). done. Defined.

Lemma binaryheap_allocate_bounds_witness :
  exists h, binaryheap_allocate 5 = Ok h /\ heap_wf h /\ bh_size h = 0 /\ bh_space h = 5.
Proof. apply (binaryheap_allocate_bounds 5). lia. Defined.
