(* ===== verification/FsmPage.v ===== *)
(** One page of the free space map (src/postgresql/src/backend/storage/
    freespace/fsmpage.c and include/storage/fsm_internals.h): a binary tree of
    bytes in an array, the leaves being the page's slots, each inner node the
    maximum of its children.

    [int] node numbers stay far below the limits of [int] on a page, so they
    are plain integers. Locking and dirty marking of the buffer are not
    modelled: a call of [fsm_search_avail] is one step. *)
From S2P Require Import Prelude.
Open Scope Z_scope.

(** Page geometry: BLCKSZ is 8192, the page header takes 24 bytes and
    [fp_nodes] starts after the [int] [fp_next_slot]. *)
Definition BLCKSZ : Z := 8192.
Definition NodesPerPage : Z := BLCKSZ - 24 - 4.
Definition NonLeafNodesPerPage : Z := BLCKSZ / 2 - 1.
Definition LeafNodesPerPage : Z := NodesPerPage - NonLeafNodesPerPage.

Record FSMPageData := {
  fp_next_slot : Z;
  fp_nodes : list Z
}.

Definition set_nodes (p : FSMPageData) (l : list Z) : FSMPageData :=
  {| fp_next_slot := fp_next_slot p; fp_nodes := l |}.

Definition leftchild (x : Z) : Z := 2 * x + 1.
Definition rightchild (x : Z) : Z := 2 * x + 2.
Definition parentof (x : Z) : Z := Z.quot (x - 1) 2.

Definition rightneighbor (x : Z) : Z :=
  let x := x + 1 in
  if Z.land (x + 1) x =? 0 then parentof x else x.

(** The maximum of a node's children that exist. *)
Definition children_max (l : list Z) (nodeno : Z) : res Z :=
  let lchild := leftchild nodeno in
  let rchild := lchild + 1 in
  newvalue ← (if lchild <? NodesPerPage then rd l lchild else Ok 0);
  if rchild <? NodesPerPage then v ← rd l rchild; Ok (Z.max newvalue v) else Ok newvalue.

(** [fsm_rebuild_page]: the page and whether it was modified. *)
Definition fsm_rebuild_page (p : FSMPageData) : res (FSMPageData * bool) :=
  '(l, changed) ← loop_state (for_down (NonLeafNodesPerPage - 1) 0
    (fun nodeno '(l, changed) =>
       newvalue ← children_max l nodeno;
       old ← rd l nodeno;
       if negb (old =? newvalue)
       then l ← wr l nodeno newvalue; Ok (inl (l, true))
       else Ok (inl (l, changed)))
    (fp_nodes p, false));
  Ok (set_nodes p l, changed).

(** The [do ... while] of [fsm_set_avail]; the left child of an inner node on
    the way up always exists. *)
Fixpoint propagate (fuel : nat) (l : list Z) (nodeno : Z) : res (list Z) :=
  match fuel with
  | O => UB "fuel"
  | S f =>
      let nodeno := parentof nodeno in
      let lchild := leftchild nodeno in
      let rchild := lchild + 1 in
      newvalue ← rd l lchild;
      newvalue ← (if rchild <? NodesPerPage then v ← rd l rchild; Ok (Z.max newvalue v)
                  else Ok newvalue);
      oldvalue ← rd l nodeno;
      if oldvalue =? newvalue then Ok l
      else
        l ← wr l nodeno newvalue;
        if 0 <? nodeno then propagate f l nodeno else Ok l
  end.

Definition fsm_set_avail (p : FSMPageData) (slot value : Z) : res (FSMPageData * bool) :=
  let nodeno := NonLeafNodesPerPage + slot in
  oldvalue ← rd (fp_nodes p) nodeno;
  root ← rd (fp_nodes p) 0;
  if (oldvalue =? value) && (value <=? root) then Ok (p, false)
  else
    l ← wr (fp_nodes p) nodeno value;
    l ← propagate 13 l nodeno;
    root ← rd l 0;
    if root <? value then '(p, _) ← fsm_rebuild_page (set_nodes p l); Ok (p, true)
    else Ok (set_nodes p l, true).

Definition fsm_get_avail (p : FSMPageData) (slot : Z) : res Z :=
  rd (fp_nodes p) (NonLeafNodesPerPage + slot).

Definition fsm_get_max_avail (p : FSMPageData) : res Z := rd (fp_nodes p) 0.

(** The first loop of [fsm_search_avail]: move right and up. *)
Fixpoint search_up (fuel : nat) (l : list Z) (minvalue nodeno : Z) : res Z :=
  if 0 <? nodeno then
    match fuel with
    | O => UB "fuel"
    | S f =>
        v ← rd l nodeno;
        if minvalue <=? v then Ok nodeno
        else search_up f l minvalue (parentof (rightneighbor nodeno))
    end
  else Ok nodeno.

(** The second loop: descend to a leaf; [None] when a node promises space that
    neither child has. *)
Fixpoint search_down (fuel : nat) (l : list Z) (minvalue nodeno : Z) : res (option Z) :=
  if nodeno <? NonLeafNodesPerPage then
    match fuel with
    | O => UB "fuel"
    | S f =>
        let childnodeno := leftchild nodeno in
        left_fits ← (if childnodeno <? NodesPerPage
                     then v ← rd l childnodeno; Ok (minvalue <=? v) else Ok false);
        if (left_fits : bool) then search_down f l minvalue childnodeno
        else
          let childnodeno := childnodeno + 1 in
          right_fits ← (if childnodeno <? NodesPerPage
                        then v ← rd l childnodeno; Ok (minvalue <=? v) else Ok false);
          if (right_fits : bool) then search_down f l minvalue childnodeno
          else Ok None
    end
  else Ok (Some nodeno).

(** [fsm_search_avail]: each restart rebuilds the page first. *)
Fixpoint fsm_search_avail (restarts : nat) (p : FSMPageData) (minvalue : Z) (advancenext : bool)
  : res (FSMPageData * Z) :=
  match restarts with
  | O => UB "fuel"
  | S f =>
      root ← rd (fp_nodes p) 0;
      if root <? minvalue then Ok (p, -1)
      else
        let target := fp_next_slot p in
        let target := if (target <? 0) || (LeafNodesPerPage <=? target) then 0 else target in
        let target := target + NonLeafNodesPerPage in
        nodeno ← search_up 13 (fp_nodes p) minvalue target;
        leaf ← search_down 13 (fp_nodes p) minvalue nodeno;
        match leaf with
        | Some nodeno =>
            let slot := u16 (nodeno - NonLeafNodesPerPage) in
            Ok ({| fp_next_slot := slot + (if advancenext then 1 else 0);
                   fp_nodes := fp_nodes p |}, slot)
        | None =>
            '(p, _) ← fsm_rebuild_page p;
            fsm_search_avail f p minvalue advancenext
        end
  end.

(** [fsm_truncate_avail]. *)
Definition fsm_truncate_avail (p : FSMPageData) (nslots : Z) : res (FSMPageData * bool) :=
  '(l, changed) ← loop_state (for_up (NonLeafNodesPerPage + nslots) NodesPerPage
    (fun i '(l, changed) =>
       v ← rd l i;
       l ← wr l i 0;
       Ok (inl (l, (changed : bool) || negb (v =? 0))))
    (fp_nodes p, false));
  if (changed : bool)
  then '(p, _) ← fsm_rebuild_page (set_nodes p l); Ok (p, true)
  else Ok (set_nodes p l, false).

(** * Invariants *)
Record page_wf (p : FSMPageData) : Prop := {
  pw_len : len (fp_nodes p) = NodesPerPage;
  pw_bytes : Forall (fun b => 0 <= b < 256) (fp_nodes p)
}.

(** The value of a slot, 0 for the slots beyond the page's end. *)
Definition slot_value (p : FSMPageData) (slot : Z) : Z :=
  getd 0 (fp_nodes p) (NonLeafNodesPerPage + slot).

(** An inner node is the maximum of its children ([getd] reads 0 for the ones
    that do not exist). *)
Definition node_ok (l : list Z) (n : Z) : Prop :=
  getd 0 l n = Z.max (getd 0 l (2 * n + 1)) (getd 0 l (2 * n + 2)).

Definition page_ok (p : FSMPageData) : Prop :=
  page_wf p /\ forall n, 0 <= n < NonLeafNodesPerPage -> node_ok (fp_nodes p) n.

Lemma geometry : NodesPerPage = 8164 /\ NonLeafNodesPerPage = 4095 /\ LeafNodesPerPage = 4069.
Proof. done. Qed.

Lemma node_range l i : Forall (fun b => 0 <= b < 256) l -> 0 <= getd 0 l i < 256.
Proof. intros. by apply getd_Forall. Qed.

Lemma parentof_div x : 0 < x -> parentof x = (x - 1) / 2.
Proof. intros. unfold parentof. apply Z.quot_div_nonneg; lia. Qed.

(** * Rebuilding *)
Lemma rd_run l i : 0 <= i < len l -> rd l i = Ok (getd 0 l i).
Proof. intros. apply wp_eq. by apply (wp_rd 0). Qed.

Lemma wr_run (l : list Z) i v : 0 <= i < len l -> wr l i v = Ok (upd l i v).
Proof. intros. apply wp_eq. by apply wp_wr. Qed.

Lemma children_max_run l n :
  len l = NodesPerPage -> Forall (fun b => 0 <= b < 256) l -> 0 <= n ->
  children_max l n = Ok (Z.max (getd 0 l (2 * n + 1)) (getd 0 l (2 * n + 2))).
Proof.
  intros Hl Hb Hn. unfold children_max, leftchild.
  pose proof (node_range l (2 * n + 1) Hb). pose proof (node_range l (2 * n + 2) Hb).
  replace (2 * n + 1 + 1) with (2 * n + 2) by lia.
  destruct (Z.ltb_spec (2 * n + 1) NodesPerPage), (Z.ltb_spec (2 * n + 2) NodesPerPage); try lia.
  - rewrite !rd_run by lia. done.
  - rewrite rd_run by lia. simpl. rewrite (getd_ge 0 l (2 * n + 2)) by lia. f_equal. lia.
  - simpl. rewrite !getd_ge by lia. done.
Qed.

(** The inner nodes from [k] on are right, the leaves are those of [l0]. *)
Definition rebuilt (k : Z) (l0 l : list Z) : Prop :=
  len l = NodesPerPage /\ Forall (fun b => 0 <= b < 256) l /\
  (forall n, k <= n < NonLeafNodesPerPage -> node_ok l n) /\
  (forall i, NonLeafNodesPerPage <= i -> getd 0 l i = getd 0 l0 i) /\
  (forall i, 0 <= i < k -> getd 0 l i = getd 0 l0 i).

Lemma rebuilt_step k l0 l :
  0 <= k < NonLeafNodesPerPage -> rebuilt (k + 1) l0 l ->
  rebuilt k l0 (upd l k (Z.max (getd 0 l (2 * k + 1)) (getd 0 l (2 * k + 2)))).
Proof.
  intros Hk (Hl & Hb & Hn & Hleaf & Hlow). destruct geometry as (G1 & G2 & G3).
  pose proof (node_range l (2 * k + 1) Hb). pose proof (node_range l (2 * k + 2) Hb).
  assert (Hget : forall j, 0 <= j -> j <> k -> forall v, getd 0 (upd l k v) j = getd 0 l j).
  { intros j Hj Hne v. apply getd_upd_ne; lia. }
  split; [by rewrite len_upd|]. split; [apply Forall_upd; [done|lia]|]. split; [|split].
  - intros n Hkn. unfold node_ok. rewrite !(Hget (2 * n + 1)), !(Hget (2 * n + 2)) by lia.
    destruct (Z.eq_dec n k) as [->|]; [by rewrite getd_upd_eq by lia|].
    rewrite Hget by lia. apply Hn. lia.
  - intros i Hi. rewrite Hget by lia. by apply Hleaf.
  - intros i Hi. rewrite Hget by lia. apply Hlow. lia.
Qed.

Lemma upd_same (l : list Z) i : 0 <= i < len l -> upd l i (getd 0 l i) = l.
Proof.
  intros. apply (getd_ext 0); [apply len_upd|]. intros j Hj. rewrite len_upd in Hj.
  rewrite getd_upd by lia. by destruct (Z.eqb_spec j i) as [->|].
Qed.

Lemma rebuild_run p :
  page_wf p ->
  exists p' changed, fsm_rebuild_page p = Ok (p', changed) /\ page_ok p' /\
    fp_next_slot p' = fp_next_slot p /\
    (forall slot, 0 <= slot -> slot_value p' slot = slot_value p slot) /\
    (changed = false <-> p' = p).
Proof.
  intros [Hl Hb]. destruct geometry as (G1 & G2 & G3). unfold fsm_rebuild_page.
  enough (Hloop : wp (loop_state (for_down (NonLeafNodesPerPage - 1) 0
    (fun nodeno '(l, changed) =>
       newvalue ← children_max l nodeno;
       old ← rd l nodeno;
       if negb (old =? newvalue)
       then l ← wr l nodeno newvalue; Ok (inl (l, true))
       else Ok (inl (l, changed)))
    (fp_nodes p, false))) (fun '(l, changed) => rebuilt 0 (fp_nodes p) l /\
      ((changed : bool) = false -> l = fp_nodes p) /\ (changed = true -> l <> fp_nodes p))).
  { apply wp_ok in Hloop as ([l changed] & -> & (Hl' & Hb' & Hn & Hleaf & _) & H1 & H2). simpl.
    do 2 eexists. split; [done|]. split; [split; [by constructor|done]|]. split; [done|]. split.
    - intros slot Hs. apply Hleaf. lia.
    - destruct p as [ns l0]. unfold set_nodes. simpl in *.
      destruct changed; split; [done| |by intros _; rewrite H1|done].
      intros [= He]. by destruct (H2 eq_refl). }
  apply wp_loop_state.
  apply (wp_for_down (fun k '(l, changed) => rebuilt (k + 1) (fp_nodes p) l /\
    ((changed : bool) = false -> l = fp_nodes p) /\
    (changed = true -> exists i, k < i /\ 0 <= i /\ getd 0 l i <> getd 0 (fp_nodes p) i))).
  - lia.
  - split; [|done]. split; [done|]. split; [done|]. split; [lia|done].
  - intros k [l changed] Hk (Hr & H1 & H2). pose proof Hr as (Hl' & Hb' & Hn & Hleaf & Hlow).
    rewrite (children_max_run l k) by (done || lia). simpl. rewrite rd_run by lia. simpl.
    replace (k - 1 + 1) with k by lia.
    set (v := Z.max (getd 0 l (2 * k + 1)) (getd 0 l (2 * k + 2))).
    pose proof (rebuilt_step k (fp_nodes p) l ltac:(lia) Hr) as Hstep. fold v in Hstep.
    destruct (Z.eqb_spec (getd 0 l k) v) as [He|He]; simpl.
    + rewrite <- He, upd_same in Hstep by lia. split; [done|]. split; [done|].
      intros Hc. destruct (H2 Hc) as (i & Hi & Hi0 & Hne). exists i. split; [lia|done].
    + rewrite wr_run by lia. simpl. split; [done|]. split; [done|]. intros _.
      exists k. split; [lia|]. split; [lia|]. rewrite getd_upd_eq by lia.
      rewrite <- Hlow by lia. congruence.
  - intros [l changed] (Hr & H1 & H2). split; [by replace 0 with (0 - 1 + 1) by lia|].
    split; [done|]. intros Hc ->. destruct (H2 Hc) as (i & _ & _ & Hne). done.
Qed.

(** * Setting a slot *)

(** Every inner node is right but those on the path from [n] up. *)
Definition path_ok (l : list Z) (n : Z) : Prop :=
  forall m, 0 <= m < NonLeafNodesPerPage -> m <> (n - 1) / 2 -> node_ok l m.

Lemma div2_child n m : 0 < n -> 0 <= m -> 2 * m + 1 <> n -> 2 * m + 2 <> n -> (n - 1) / 2 <> m.
Proof.
  intros Hn Hm H1 H2 <-. pose proof (Z.div_mod (n - 1) 2 ltac:(lia)).
  pose proof (Z.mod_pos_bound (n - 1) 2 ltac:(lia)). lia.
Qed.

Lemma propagate_run fuel l n :
  len l = NodesPerPage -> Forall (fun b => 0 <= b < 256) l -> 0 < n < NodesPerPage ->
  n < 2 ^ Z.of_nat fuel -> path_ok l n ->
  exists l', propagate fuel l n = Ok l' /\ len l' = NodesPerPage /\
    Forall (fun b => 0 <= b < 256) l' /\
    (forall m, 0 <= m < NonLeafNodesPerPage -> node_ok l' m) /\
    (forall i, NonLeafNodesPerPage <= i -> getd 0 l' i = getd 0 l i).
Proof.
  destruct geometry as (G1 & G2 & G3).
  revert l n. induction fuel as [|f IH]; intros l n Hl Hb Hn Hf Hp; [simpl in Hf; lia|].
  simpl. rewrite parentof_div by lia. unfold leftchild.
  set (q := (n - 1) / 2) in *.
  assert (Hq : 0 <= q < NonLeafNodesPerPage /\ 2 * q + 1 < NodesPerPage /\
               (n = 2 * q + 1 \/ n = 2 * q + 2)).
  { pose proof (Z.div_mod (n - 1) 2 ltac:(lia)). pose proof (Z.mod_pos_bound (n - 1) 2 ltac:(lia)).
    fold q in H. lia. }
  pose proof (children_max_run l q Hl Hb ltac:(lia)) as Hcm. unfold children_max, leftchild in Hcm.
  rewrite (proj2 (Z.ltb_lt (2 * q + 1) NodesPerPage)) in Hcm by lia.
  rewrite (rd_run l (2 * q + 1)) in Hcm |- * by lia. simpl in Hcm |- *. rewrite Hcm. simpl.
  rewrite (rd_run l q) by lia. simpl.
  set (v := Z.max (getd 0 l (2 * q + 1)) (getd 0 l (2 * q + 2))) in *.
  assert (Hv : 0 <= v < 256).
  { pose proof (node_range l (2 * q + 1) Hb). pose proof (node_range l (2 * q + 2) Hb). lia. }
  destruct (Z.eqb_spec (getd 0 l q) v) as [He|He].
  { exists l. split; [done|]. split; [done|]. split; [done|]. split; [|done].
    intros m Hm. destruct (Z.eq_dec m q) as [->|]; [done|]. by apply Hp. }
  rewrite wr_run by lia. simpl.
  assert (Hget : forall j, 0 <= j -> j <> q -> getd 0 (upd l q v) j = getd 0 l j).
  { intros j Hj Hne. apply getd_upd_ne; lia. }
  assert (Hleaf : forall i, NonLeafNodesPerPage <= i -> getd 0 (upd l q v) i = getd 0 l i).
  { intros i Hi. apply Hget; lia. }
  assert (Hstep : forall m, 0 <= m < NonLeafNodesPerPage -> 2 * m + 1 <> q -> 2 * m + 2 <> q ->
    node_ok (upd l q v) m).
  { intros m Hm H1 H2. unfold node_ok. rewrite (Hget (2 * m + 1)), (Hget (2 * m + 2)) by lia.
    destruct (Z.eq_dec m q) as [->|Hne]; [by rewrite getd_upd_eq by lia|].
    rewrite Hget by lia. by apply Hp. }
  destruct (Z.ltb_spec 0 q) as [Hq0|Hq0].
  - assert (2 ^ Z.of_nat (S f) = 2 * 2 ^ Z.of_nat f) as Hpow
      by (rewrite Nat2Z.inj_succ, Z.pow_succ_r by lia; done).
    destruct (IH (upd l q v) q) as (l' & Hr & Hl' & Hb' & Hn' & Hle');
      [by rewrite len_upd|by apply Forall_upd|lia|lia| |].
    { intros m Hm Hne. apply Hstep; [done|..]; intros Heq; apply Hne; rewrite <- Heq.
      - replace (2 * m + 1 - 1) with (m * 2) by lia. by rewrite Z.div_mul.
      - replace (2 * m + 2 - 1) with (1 + m * 2) by lia. by rewrite Z.div_add. }
    exists l'. split; [done|]. split; [done|]. split; [done|]. split; [done|].
    intros i Hi. rewrite Hle' by done. by apply Hleaf.
  - exists (upd l q v). split; [done|]. split; [by rewrite len_upd|]. split; [by apply Forall_upd|].
    split; [|done]. intros m Hm. apply Hstep; lia.
Qed.
