(* ===== verification/FsmPageProps.v ===== *)
(** Properties of the free-space-map page of FsmPage.v: the tree invariant and
    its repair, the slots as an array, and the search, which finds the first
    suitable slot after the hint. *)
From S2P Require Import Prelude.
From S2P Require Import FsmPage.
Open Scope Z_scope.

(** * Nodes by height and position *)

(** The node at height [h] above the slots, [p]-th from the left: it covers
    the slots from [p * 2 ^ h] to [(p + 1) * 2 ^ h - 1]. *)
Definition node_at (h : nat) (p : Z) : Z := 2 ^ (12 - Z.of_nat h) - 1 + p.

Lemma pow_split (h : nat) :
  (h < 12)%nat -> 2 ^ (12 - Z.of_nat h) = 2 * 2 ^ (12 - Z.of_nat (S h)) /\ 0 < 2 ^ (12 - Z.of_nat (S h)).
Proof.
  intros. split; [|apply Z.pow_pos_nonneg; lia].
  rewrite <- Z.pow_succ_r by lia. f_equal. lia.
Qed.

Lemma pow_succ_h (h : nat) : 2 ^ Z.of_nat (S h) = 2 * 2 ^ Z.of_nat h /\ 0 < 2 ^ Z.of_nat h.
Proof.
  split; [|apply Z.pow_pos_nonneg; lia].
  rewrite Nat2Z.inj_succ, Z.pow_succ_r by lia. done.
Qed.

Lemma node_children (h : nat) p :
  (h < 12)%nat ->
  2 * node_at (S h) p + 1 = node_at h (2 * p) /\ 2 * node_at (S h) p + 2 = node_at h (2 * p + 1).
Proof. intros Hh. destruct (pow_split h Hh) as [H1 H2]. unfold node_at. lia. Qed.

Lemma node_inner (h : nat) p :
  (h < 12)%nat -> 0 <= p < 2 ^ (12 - Z.of_nat (S h)) -> 0 <= node_at (S h) p < NonLeafNodesPerPage.
Proof.
  intros Hh Hp. unfold node_at. change NonLeafNodesPerPage with (2 * 2 ^ 11 - 1).
  assert (2 ^ (12 - Z.of_nat (S h)) <= 2 ^ 11) by (apply Z.pow_le_mono_r; lia). lia.
Qed.

Lemma node_leaf p : node_at 0 p = NonLeafNodesPerPage + p.
Proof. done. Qed.

(** On a consistent page, a node promises [v] exactly when a slot it covers
    has it. *)
Lemma node_promise pg v (h : nat) :
  page_ok pg -> (h <= 12)%nat ->
  forall p, 0 <= p < 2 ^ (12 - Z.of_nat h) ->
  v <= getd 0 (fp_nodes pg) (node_at h p) <->
  exists j, p * 2 ^ Z.of_nat h <= j < (p + 1) * 2 ^ Z.of_nat h /\ v <= slot_value pg j.
Proof.
  intros [Hwf Hok]. induction h as [|h IH]; intros Hh p Hp.
  - rewrite node_leaf. fold (slot_value pg p). simpl Z.of_nat. rewrite Z.pow_0_r. split.
    + intros Hv. exists p. split; [lia|done].
    + intros (j & Hj & Hv). by replace p with j by lia.
  - destruct (pow_split h ltac:(lia)) as [H1 H2]. destruct (pow_succ_h h) as [H3 H4].
    destruct (node_children h p ltac:(lia)) as [H5 H6].
    rewrite (Hok (node_at (S h) p)) by (apply node_inner; lia). rewrite H5, H6, H3.
    rewrite Z.max_le_iff, (IH ltac:(lia) (2 * p)), (IH ltac:(lia) (2 * p + 1)) by lia.
    split.
    + intros [(j & Hj & Hv)|(j & Hj & Hv)]; exists j; (split; [nia|done]).
    + intros (j & Hj & Hv). destruct (Z.lt_ge_cases j ((2 * p + 1) * 2 ^ Z.of_nat h)).
      * left. exists j. split; [nia|done].
      * right. exists j. split; [nia|done].
Qed.

(** The root promises exactly what some slot has. *)
Lemma root_promise pg v :
  page_ok pg -> v <= getd 0 (fp_nodes pg) 0 <-> exists j, 0 <= j < 4096 /\ v <= slot_value pg j.
Proof.
  intros Hok. pose proof (node_promise pg v 12 Hok ltac:(lia) 0 ltac:(lia)) as H.
  change (node_at 12 0) with 0 in H. rewrite H.
  change (2 ^ Z.of_nat 12) with 4096. rewrite Z.mul_0_l, Z.add_0_l, Z.mul_1_l. done.
Qed.

Lemma slot_beyond pg j : page_wf pg -> LeafNodesPerPage <= j -> slot_value pg j = 0.
Proof.
  intros [Hl _] Hj. unfold slot_value. apply getd_ge. rewrite Hl.
  destruct geometry as (G1 & G2 & G3). lia.
Qed.

Lemma slot_range pg j : page_wf pg -> 0 <= slot_value pg j < 256.
Proof. intros [_ Hb]. by apply node_range. Qed.

(** * Moving right and up *)
Lemma land_low_bit (x : Z) (k : nat) : 2 ^ Z.of_nat k <= x < 2 ^ Z.of_nat (S k) ->
  Z.land (x + 1) x = 0 <-> x = 2 ^ Z.of_nat (S k) - 1.
Proof.
  intros Hx. destruct (pow_succ_h k) as [Hp Hpos]. split.
  - intros Hz. destruct (Z.eq_dec x (2 ^ Z.of_nat (S k) - 1)) as [|Hne]; [done|]. exfalso.
    assert (Hb : Z.testbit (Z.land (x + 1) x) (Z.of_nat k) = true).
    { rewrite Z.land_spec. apply andb_true_intro. split; apply Z.testbit_true; try lia.
      - rewrite <- (Z.div_unique (x + 1) (2 ^ Z.of_nat k) 1 (x + 1 - 2 ^ Z.of_nat k)) by lia. done.
      - rewrite <- (Z.div_unique x (2 ^ Z.of_nat k) 1 (x - 2 ^ Z.of_nat k)) by lia. done. }
    rewrite Hz, Z.bits_0 in Hb. done.
  - intros ->. replace (2 ^ Z.of_nat (S k) - 1 + 1) with (2 ^ Z.of_nat (S k)) by lia.
    replace (2 ^ Z.of_nat (S k) - 1) with (Z.ones (Z.of_nat (S k))) by (rewrite Z.ones_equiv; lia).
    rewrite Z.land_ones by lia. apply Z.mod_same. lia.
Qed.

(** The step of the search in coordinates: one level up, at the position of
    the next node to the right, wrapping to the left edge. *)
Lemma up_right (h : nat) p :
  (h < 12)%nat -> 0 <= p < 2 ^ (12 - Z.of_nat h) ->
  parentof (rightneighbor (node_at h p)) =
    node_at (S h) (if p =? 2 ^ (12 - Z.of_nat h) - 1 then 0 else (p + 1) / 2).
Proof.
  intros Hh Hp. destruct (pow_split h Hh) as [H1 H2].
  set (k := (11 - h)%nat).
  assert (Hk : 2 ^ (12 - Z.of_nat (S h)) = 2 ^ Z.of_nat k) by (f_equal; lia).
  assert (HSk : 2 ^ (12 - Z.of_nat h) = 2 ^ Z.of_nat (S k)) by (f_equal; lia).
  destruct (pow_succ_h k) as [H3 H4].
  unfold rightneighbor, node_at. rewrite Hk, HSk in *.
  set (x := 2 ^ Z.of_nat (S k) - 1 + p + 1).
  destruct (Z.eqb_spec p (2 ^ Z.of_nat (S k) - 1)) as [Hlast|Hnot].
  - assert (Hz : Z.land (x + 1) x = 0).
    { apply (land_low_bit x (S k)); destruct (pow_succ_h (S k)); unfold x; lia. }
    rewrite Hz. simpl (0 =? 0). cbv iota. rewrite (parentof_div x) by (unfold x; lia).
    replace ((x - 1) / 2) with (2 ^ Z.of_nat (S k) - 1) by
      (unfold x; rewrite Hlast; apply (Z.div_unique _ 2 _ 0); lia).
    rewrite parentof_div by lia. symmetry. apply (Z.div_unique _ 2 _ 0); lia.
  - rewrite (proj2 (Z.eqb_neq _ _)).
    + rewrite parentof_div by (unfold x; lia).
      unfold x. replace (2 ^ Z.of_nat (S k) - 1 + p + 1 - 1) with (p + 1 + (2 ^ Z.of_nat k - 1) * 2) by lia.
      rewrite Z.div_add by lia. lia.
    + intros Hz. apply (land_low_bit x (S k)) in Hz; destruct (pow_succ_h (S k)); unfold x in *; lia.
Qed.

(** * The search *)
Section search.
Context (pg : FSMPageData) (v t0 : Z).
Hypothesis Hok : page_ok pg.
Hypothesis Hv : 1 <= v.
Hypothesis Ht0 : 0 <= t0 < LeafNodesPerPage.

#[local] Set Default Proof Using "Type*".

Definition unsuitable (j : Z) : Prop := slot_value pg j < v.

(** Nothing suitable lies between the start slot [t0] and the slots from [n]
    on, in the cyclic order of the search. *)
Definition none_before (n : Z) : Prop :=
  (t0 <= n /\ forall j, t0 <= j < n -> unsuitable j) \/
  ((forall j, t0 <= j -> unsuitable j) /\ forall j, 0 <= j < n -> unsuitable j).

Lemma none_before_extend n m :
  none_before n -> n <= m -> (forall j, n <= j < m -> unsuitable j) -> none_before m.
Proof.
  intros [[H1 H2]|[H1 H2]] Hnm Hj.
  - left. split; [lia|]. intros j Hr. destruct (Z.lt_ge_cases j n); [apply H2; lia|apply Hj; lia].
  - right. split; [done|]. intros j Hr. destruct (Z.lt_ge_cases j n); [apply H2; lia|apply Hj; lia].
Qed.

Lemma node_unsuitable (h : nat) p :
  (h <= 12)%nat -> 0 <= p < 2 ^ (12 - Z.of_nat h) -> getd 0 (fp_nodes pg) (node_at h p) < v ->
  forall j, p * 2 ^ Z.of_nat h <= j < (p + 1) * 2 ^ Z.of_nat h -> unsuitable j.
Proof.
  intros Hh Hp Hlt j Hj. unfold unsuitable.
  destruct (Z.lt_ge_cases (slot_value pg j) v) as [|Hge]; [done|]. exfalso.
  assert (v <= getd 0 (fp_nodes pg) (node_at h p)); [|lia].
  apply (node_promise pg v h Hok Hh p Hp). by exists j.
Qed.

Lemma page_len : len (fp_nodes pg) = NodesPerPage.
Proof. apply Hok. Qed.

Lemma node_readable (h : nat) p :
  (h <= 12)%nat -> 0 <= p < 2 ^ (12 - Z.of_nat h) -> (h = 0%nat -> p < LeafNodesPerPage) ->
  0 <= node_at h p < len (fp_nodes pg).
Proof.
  intros Hh Hp H0. rewrite page_len. destruct geometry as (G1 & G2 & G3). destruct h as [|h].
  - rewrite node_leaf. specialize (H0 eq_refl). lia.
  - pose proof (node_inner h p ltac:(lia) Hp). lia.
Qed.

Lemma search_up_run fuel (h : nat) p :
  (h <= 12)%nat -> (12 - h < fuel)%nat -> 0 <= p < 2 ^ (12 - Z.of_nat h) ->
  (h = 0%nat -> p < LeafNodesPerPage) -> v <= getd 0 (fp_nodes pg) 0 ->
  none_before (p * 2 ^ Z.of_nat h) ->
  exists (h' : nat) p', search_up fuel (fp_nodes pg) v (node_at h p) = Ok (node_at h' p') /\
    (h' <= 12)%nat /\ 0 <= p' < 2 ^ (12 - Z.of_nat h') /\
    (h' = 0%nat -> p' < LeafNodesPerPage) /\
    v <= getd 0 (fp_nodes pg) (node_at h' p') /\ none_before (p' * 2 ^ Z.of_nat h').
Proof.
  revert h p. induction fuel as [|f IH]; intros h p Hh Hf Hp H0 Hroot Hnone; [lia|].
  simpl. destruct (Z.ltb_spec 0 (node_at h p)) as [Hpos|Hpos].
  2: { exists h, p. split; [done|]. split; [done|]. split; [done|]. split; [done|]. split; [|done].
       pose proof (node_readable h p Hh Hp H0). by replace (node_at h p) with 0 by lia. }
  rewrite rd_run by by apply node_readable. simpl.
  destruct (Z.leb_spec v (getd 0 (fp_nodes pg) (node_at h p))) as [Hle|Hgt].
  { by exists h, p. }
  assert (Hh12 : (h < 12)%nat).
  { destruct (decide (h = 12%nat)) as [->|]; [|lia]. exfalso.
    change (2 ^ (12 - Z.of_nat 12)) with 1 in Hp. replace p with 0 in Hpos by lia. done. }
  rewrite up_right by done.
  destruct (pow_split h Hh12) as [H1 H2]. destruct (pow_succ_h h) as [H3 H4].
  pose proof (node_unsuitable h p Hh Hp Hgt) as Hbad.
  apply IH; [lia|lia| |lia|done|].
  - case_match; [lia|]. split; [apply Z.div_pos; lia|]. apply Z.div_lt_upper_bound; lia.
  - destruct (Z.eqb_spec p (2 ^ (12 - Z.of_nat h) - 1)) as [Hlast|Hnl].
    + right. split; [|lia]. intros j Hj.
      assert (Htot : 2 ^ (12 - Z.of_nat h) * 2 ^ Z.of_nat h = 4096).
      { rewrite <- Z.pow_add_r by lia. by replace (12 - Z.of_nat h + Z.of_nat h) with 12 by lia. }
      destruct (Z.lt_ge_cases j 4096) as [Hj2|Hj2].
      * destruct (Z.lt_ge_cases j (p * 2 ^ Z.of_nat h)) as [Hj3|Hj3]; [|apply Hbad; nia].
        destruct Hnone as [[_ Hn]|[Hn _]]; apply Hn; lia.
      * unfold unsuitable. destruct geometry as (G1 & G2 & G3).
        rewrite slot_beyond by (apply Hok || lia). lia.
    + rewrite H3. pose proof (Z.div_mod (p + 1) 2 ltac:(lia)) as Hdm.
      pose proof (Z.mod_pos_bound (p + 1) 2 ltac:(lia)) as Hm.
      apply (none_before_extend (p * 2 ^ Z.of_nat h)); [done|nia|].
      intros j Hj. apply Hbad. nia.
Qed.

Lemma search_down_run fuel (h : nat) p :
  (h <= 12)%nat -> (h < fuel)%nat -> 0 <= p < 2 ^ (12 - Z.of_nat h) ->
  v <= getd 0 (fp_nodes pg) (node_at h p) -> none_before (p * 2 ^ Z.of_nat h) ->
  exists s, search_down fuel (fp_nodes pg) v (node_at h p) = Ok (Some (NonLeafNodesPerPage + s)) /\
    0 <= s < LeafNodesPerPage /\ v <= slot_value pg s /\ none_before s.
Proof.
  destruct geometry as (G1 & G2 & G3).
  revert h p. induction fuel as [|f IH]; intros h p Hh Hf Hp Hle Hnone; [lia|].
  destruct h as [|h].
  - rewrite node_leaf in *. simpl. rewrite (proj2 (Z.ltb_ge _ _)) by lia.
    exists p. split; [done|]. fold (slot_value pg p) in Hle. simpl Z.of_nat in Hnone.
    rewrite Z.pow_0_r, Z.mul_1_r in Hnone. split; [|done]. split; [lia|].
    destruct (Z.lt_ge_cases p LeafNodesPerPage) as [|Hge]; [done|].
    rewrite slot_beyond in Hle by (apply Hok || lia). lia.
  - pose proof (node_inner h p ltac:(lia) Hp) as Hin.
    destruct (node_children h p ltac:(lia)) as [Hc1 Hc2].
    destruct (pow_split h ltac:(lia)) as [H1 H2]. destruct (pow_succ_h h) as [H3 H4].
    simpl. rewrite (proj2 (Z.ltb_lt _ _)) by lia. unfold leftchild. 
    replace (2 * node_at (S h) p + 1 + 1) with (2 * node_at (S h) p + 2) by lia.
    rewrite Hc1, Hc2.
    assert (Hfit : forall n, 0 <= n ->
      (if n <? NodesPerPage then x ← rd (fp_nodes pg) n; Ok (v <=? x) else Ok false) =
      Ok (v <=? getd 0 (fp_nodes pg) n)).
    { intros n Hn. destruct (Z.ltb_spec n NodesPerPage).
      - rewrite rd_run by (rewrite page_len; lia). done.
      - rewrite getd_ge by (rewrite page_len; lia). rewrite (proj2 (Z.leb_gt _ _)) by lia. done. }
    rewrite (Hfit (node_at h (2 * p))) by lia. simpl.
    destruct (Z.leb_spec v (getd 0 (fp_nodes pg) (node_at h (2 * p)))) as [Hl|Hl].
    { apply IH; [lia|lia|lia|done|]. rewrite H3 in Hnone.
      by replace (2 * p * 2 ^ Z.of_nat h) with (p * (2 * 2 ^ Z.of_nat h)) by lia. }
    rewrite (Hfit (node_at h (2 * p + 1))) by lia. simpl.
    assert (Hr : v <= getd 0 (fp_nodes pg) (node_at h (2 * p + 1))).
    { destruct Hok as [_ Hnodes]. specialize (Hnodes _ Hin). unfold node_ok in Hnodes.
      rewrite Hc1, Hc2 in Hnodes. lia. }
    rewrite (proj2 (Z.leb_le _ _)) by done.
    apply IH; [lia|lia|lia|done|].
    apply (none_before_extend (p * 2 ^ Z.of_nat (S h))); [done|rewrite H3; nia|].
    intros j Hj. apply (node_unsuitable h (2 * p)); [lia|lia|done|]. rewrite H3 in Hj. nia.
Qed.
End search.

(** The start slot of a search. *)
Definition start_slot (pg : FSMPageData) : Z :=
  if (fp_next_slot pg <? 0) || (LeafNodesPerPage <=? fp_next_slot pg) then 0 else fp_next_slot pg.

Lemma start_slot_range pg : 0 <= start_slot pg < LeafNodesPerPage.
Proof.
  destruct geometry as (G1 & G2 & G3). unfold start_slot.
  destruct (Z.ltb_spec (fp_next_slot pg) 0), (Z.leb_spec LeafNodesPerPage (fp_next_slot pg)); simpl; lia.
Qed.

Lemma u16_slot s : 0 <= s < LeafNodesPerPage -> u16 (NonLeafNodesPerPage + s - NonLeafNodesPerPage) = s.
Proof.
  intros. destruct geometry as (G1 & G2 & G3).
  replace (NonLeafNodesPerPage + s - NonLeafNodesPerPage) with s by lia.
  apply Z.mod_small. lia.
Qed.

(** The page after a search that returned [s]. *)
Definition searched (pg : FSMPageData) (s : Z) (adv : bool) : FSMPageData :=
  {| fp_next_slot := s + (if adv then 1 else 0); fp_nodes := fp_nodes pg |}.

(** [s] is the first slot with [v] from [t0] on, in cyclic order. *)
Definition first_from (pg : FSMPageData) (v t0 s : Z) : Prop :=
  0 <= s < LeafNodesPerPage /\ v <= slot_value pg s /\ none_before pg v t0 s.

(** The loops on a node that needs no move. *)
Lemma search_up_here f l v n :
  0 < n < len l -> v <= getd 0 l n -> search_up (S f) l v n = Ok n.
Proof.
  intros Hn Hv. cbn [search_up]. rewrite (proj2 (Z.ltb_lt _ _)) by lia. rewrite rd_run by lia.
  step_ok. by rewrite (proj2 (Z.leb_le _ _)) by lia.
Qed.

Lemma search_down_here f l v n :
  NonLeafNodesPerPage <= n -> search_down (S f) l v n = Ok (Some n).
Proof. intros Hn. cbn [search_down]. by rewrite (proj2 (Z.ltb_ge _ _)) by lia. Qed.

Lemma search_ok_run r pg v adv :
  page_ok pg -> 0 <= v ->
  (getd 0 (fp_nodes pg) 0 < v -> fsm_search_avail (S r) pg v adv = Ok (pg, -1)) /\
  (v <= getd 0 (fp_nodes pg) 0 ->
     exists s, fsm_search_avail (S r) pg v adv = Ok (searched pg s adv, s) /\
       first_from pg v (start_slot pg) s).
Proof.
  intros Hok Hv. destruct geometry as (G1 & G2 & G3). pose proof Hok as [[Hl Hb] _].
  pose proof (start_slot_range pg) as Hst. cbn [fsm_search_avail]. rewrite rd_run by lia. step_ok.
  split; intros Hroot; [by rewrite (proj2 (Z.ltb_lt _ _))|].
  rewrite (proj2 (Z.ltb_ge _ _)) by done. fold (start_slot pg).
  assert (Hstart : none_before pg v (start_slot pg) (start_slot pg)) by (left; split; [lia|intros; lia]).
  replace (start_slot pg + NonLeafNodesPerPage) with (node_at 0 (start_slot pg))
    by (rewrite node_leaf; lia).
  destruct (Z.eq_dec v 0) as [->|Hv1].
  - rewrite node_leaf. pose proof (node_range (fp_nodes pg) (NonLeafNodesPerPage + start_slot pg) Hb).
    rewrite search_up_here by lia. step_ok. rewrite search_down_here by lia. step_ok.
    rewrite u16_slot by done. exists (start_slot pg). split; [done|]. split; [done|]. split; [|done].
    unfold slot_value. lia.
  - destruct (search_up_run pg v (start_slot pg) Hok ltac:(lia) Hst 13 0 (start_slot pg))
      as (h & p & -> & Hh & Hp & _ & Hle & Hnone); [lia|lia|simpl Z.of_nat; lia|lia|done| |].
    { simpl Z.of_nat. by rewrite Z.pow_0_r, Z.mul_1_r. }
    destruct (search_down_run pg v (start_slot pg) Hok ltac:(lia) Hst 13 h p)
      as (s & Hdown & Hs & Hvs & Hns); [done|lia|done..|].
    step_ok. rewrite Hdown. step_ok. rewrite u16_slot by done. exists s. split; [done|]. by split.
Qed.

(** * Pages with a broken tree *)
Lemma torn_up fuel pg v (h : nat) p :
  page_wf pg -> (h <= 12)%nat -> (12 - h < fuel)%nat -> 0 <= p < 2 ^ (12 - Z.of_nat h) ->
  (h = 0%nat -> p < LeafNodesPerPage) ->
  exists (h' : nat) p', search_up fuel (fp_nodes pg) v (node_at h p) = Ok (node_at h' p') /\
    (h' <= 12)%nat /\ 0 <= p' < 2 ^ (12 - Z.of_nat h') /\ (h' = 0%nat -> p' < LeafNodesPerPage) /\
    (h' = 0%nat -> v <= slot_value pg p').
Proof.
  intros [Hl Hb]. destruct geometry as (G1 & G2 & G3).
  revert h p. induction fuel as [|f IH]; intros h p Hh Hf Hp H0; [lia|].
  assert (Hread : 0 <= node_at h p < len (fp_nodes pg)).
  { rewrite Hl. destruct h as [|h]; [rewrite node_leaf; specialize (H0 eq_refl); lia|].
    pose proof (node_inner h p ltac:(lia) Hp). lia. }
  simpl. destruct (Z.ltb_spec 0 (node_at h p)) as [Hpos|Hpos].
  2: { exists h, p. split; [done|]. split; [done|]. split; [done|]. split; [done|].
       intros ->. rewrite node_leaf in Hpos. lia. }
  rewrite rd_run by done. simpl.
  destruct (Z.leb_spec v (getd 0 (fp_nodes pg) (node_at h p))) as [Hle|Hgt].
  { exists h, p. split; [done|]. split; [done|]. split; [done|]. split; [done|].
    intros ->. by rewrite node_leaf in Hle. }
  assert (Hh12 : (h < 12)%nat).
  { destruct (decide (h = 12%nat)) as [->|]; [|lia]. exfalso.
    change (2 ^ (12 - Z.of_nat 12)) with 1 in Hp. replace p with 0 in Hpos by lia. done. }
  rewrite up_right by done. destruct (pow_split h Hh12) as [H1 H2].
  apply IH; [lia|lia| |lia].
  case_match; [lia|]. split; [apply Z.div_pos; lia|]. apply Z.div_lt_upper_bound; lia.
Qed.

Lemma torn_down fuel pg v (h : nat) p :
  page_wf pg -> (h <= 12)%nat -> (h < fuel)%nat -> 0 <= p < 2 ^ (12 - Z.of_nat h) ->
  (h = 0%nat -> p < LeafNodesPerPage) -> (h = 0%nat -> v <= slot_value pg p) ->
  search_down fuel (fp_nodes pg) v (node_at h p) = Ok None \/
  exists s, search_down fuel (fp_nodes pg) v (node_at h p) = Ok (Some (NonLeafNodesPerPage + s)) /\
    0 <= s < LeafNodesPerPage /\ v <= slot_value pg s.
Proof.
  intros [Hl Hb]. destruct geometry as (G1 & G2 & G3).
  revert h p. induction fuel as [|f IH]; intros h p Hh Hf Hp H0 Hv0; [lia|].
  destruct h as [|h].
  - right. rewrite node_leaf. simpl. rewrite (proj2 (Z.ltb_ge _ _)) by lia.
    exists p. split; [done|]. specialize (H0 eq_refl). split; [lia|by apply Hv0].
  - pose proof (node_inner h p ltac:(lia) Hp) as Hin.
    destruct (node_children h p ltac:(lia)) as [Hc1 Hc2].
    destruct (pow_split h ltac:(lia)) as [H1 H2].
    simpl. rewrite (proj2 (Z.ltb_lt _ _)) by lia. unfold leftchild.
    replace (2 * node_at (S h) p + 1 + 1) with (2 * node_at (S h) p + 2) by lia.
    rewrite Hc1, Hc2.
    assert (Hchild : forall q, 0 <= node_at h q -> h = 0%nat -> node_at h q < NodesPerPage ->
      q < LeafNodesPerPage) by (intros q Hq -> Hn; rewrite node_leaf in Hn; lia).
    assert (Hval : forall q, h = 0%nat -> v <= getd 0 (fp_nodes pg) (node_at h q) -> v <= slot_value pg q)
      by (intros q -> Hn; by rewrite node_leaf in Hn).
    assert (Hnn : 0 <= node_at h (2 * p) /\ 0 <= node_at h (2 * p + 1)) by (unfold node_at; lia).
    destruct (Z.ltb_spec (node_at h (2 * p)) NodesPerPage) as [Hn1|Hn1].
    + rewrite (rd_run _ (node_at h (2 * p))) by lia. simpl.
      destruct (Z.leb_spec v (getd 0 (fp_nodes pg) (node_at h (2 * p)))) as [Hl1|Hl1].
      { apply IH; [lia|lia|lia| |]; intros E; [apply Hchild; lia|by apply Hval]. }
      destruct (Z.ltb_spec (node_at h (2 * p + 1)) NodesPerPage) as [Hn2|Hn2]; [|by left].
      rewrite (rd_run _ (node_at h (2 * p + 1))) by lia. simpl.
      destruct (Z.leb_spec v (getd 0 (fp_nodes pg) (node_at h (2 * p + 1)))) as [Hl2|Hl2]; [|by left].
      apply IH; [lia|lia|lia| |]; intros E; [apply Hchild; lia|by apply Hval].
    + simpl. rewrite (proj2 (Z.ltb_ge (node_at h (2 * p + 1)) NodesPerPage)) by (unfold node_at in *; lia).
      by left.
Qed.

Lemma propagate_total fuel l n :
  len l = NodesPerPage -> Forall (fun b => 0 <= b < 256) l -> 0 < n < NodesPerPage ->
  n < 2 ^ Z.of_nat fuel ->
  exists l', propagate fuel l n = Ok l' /\ len l' = NodesPerPage /\
    Forall (fun b => 0 <= b < 256) l' /\
    (forall i, NonLeafNodesPerPage <= i -> getd 0 l' i = getd 0 l i).
Proof.
  destruct geometry as (G1 & G2 & G3).
  revert l n. induction fuel as [|f IH]; intros l n Hl Hb Hn Hf; [simpl in Hf; lia|].
  simpl. rewrite parentof_div by lia. unfold leftchild. set (q := (n - 1) / 2) in *.
  assert (Hq : 0 <= q < NonLeafNodesPerPage /\ 2 * q + 1 < NodesPerPage /\ 2 * q + 1 <= n).
  { pose proof (Z.div_mod (n - 1) 2 ltac:(lia)). pose proof (Z.mod_pos_bound (n - 1) 2 ltac:(lia)).
    fold q in H. lia. }
  pose proof (children_max_run l q Hl Hb ltac:(lia)) as Hcm. unfold children_max, leftchild in Hcm.
  rewrite (proj2 (Z.ltb_lt (2 * q + 1) NodesPerPage)) in Hcm by lia.
  rewrite (rd_run l (2 * q + 1)) in Hcm |- * by lia. simpl in Hcm |- *. rewrite Hcm. simpl.
  rewrite (rd_run l q) by lia. simpl.
  set (x := Z.max (getd 0 l (2 * q + 1)) (getd 0 l (2 * q + 2))) in *.
  assert (Hx : 0 <= x < 256).
  { pose proof (node_range l (2 * q + 1) Hb). pose proof (node_range l (2 * q + 2) Hb). lia. }
  destruct (Z.eqb_spec (getd 0 l q) x) as [_|_]; [by exists l|]. rewrite wr_run by lia. simpl.
  assert (Hleaf : forall i, NonLeafNodesPerPage <= i -> getd 0 (upd l q x) i = getd 0 l i).
  { intros i Hi. apply getd_upd_ne; lia. }
  destruct (Z.ltb_spec 0 q) as [Hq0|Hq0].
  - assert (2 ^ Z.of_nat (S f) = 2 * 2 ^ Z.of_nat f) as Hpow
      by (rewrite Nat2Z.inj_succ, Z.pow_succ_r by lia; done).
    destruct (IH (upd l q x) q) as (l' & Hr & Hl' & Hb' & Hle');
      [by rewrite len_upd|by apply Forall_upd|lia|lia|].
    exists l'. split; [done|]. split; [done|]. split; [done|].
    intros i Hi. rewrite Hle' by done. by apply Hleaf.
  - exists (upd l q x). split; [done|]. split; [by rewrite len_upd|]. by split; [apply Forall_upd|].
Qed.

(** The slots of [p'] are those of [p] with [value] at [slot]. *)
Definition slots_updated (p p' : FSMPageData) (slot value : Z) : Prop :=
  forall j, 0 <= j -> slot_value p' j = if j =? slot then value else slot_value p j.

Lemma written_leaf p slot value :
  page_wf p -> 0 <= slot < LeafNodesPerPage -> 0 <= value < 256 ->
  page_wf (set_nodes p (upd (fp_nodes p) (NonLeafNodesPerPage + slot) value)) /\
  slots_updated p (set_nodes p (upd (fp_nodes p) (NonLeafNodesPerPage + slot) value)) slot value.
Proof.
  intros [Hl Hb] Hs Hv. destruct geometry as (G1 & G2 & G3). split.
  - constructor; simpl; [by rewrite len_upd|by apply Forall_upd].
  - intros j Hj. unfold slot_value. simpl. rewrite getd_upd by lia.
    destruct (Z.eqb_spec (NonLeafNodesPerPage + j) (NonLeafNodesPerPage + slot)),
      (Z.eqb_spec j slot); lia || done.
Qed.

Lemma leaf_path p slot value :
  page_ok p -> 0 <= slot < LeafNodesPerPage ->
  path_ok (upd (fp_nodes p) (NonLeafNodesPerPage + slot) value) (NonLeafNodesPerPage + slot).
Proof.
  intros [[Hl Hb] Hn] Hs m Hm Hne. destruct geometry as (G1 & G2 & G3). unfold node_ok.
  rewrite !getd_upd_ne; [by apply Hn|try lia..].
  - intros Heq. apply Hne. rewrite Heq. replace (2 * m + 2 - 1) with (1 + m * 2) by lia.
    rewrite Z.div_add by lia. done.
  - intros Heq. apply Hne. rewrite Heq. replace (2 * m + 1 - 1) with (m * 2) by lia.
    rewrite Z.div_mul by lia. done.
Qed.

Lemma root_ge_slot p slot : page_ok p -> 0 <= slot < 4096 -> slot_value p slot <= getd 0 (fp_nodes p) 0.
Proof. intros Hok Hs. apply (root_promise p _ Hok). exists slot. split; [done|lia]. Qed.

(** * Claims *)

(** [fsm_rebuild_page] repairs any page: whatever the inner nodes hold, it
    terminates with every inner node the maximum of its children, the slots
    and the hint unchanged, and reports a change exactly when there was one. *)
Theorem fsm_rebuild_page_repairs (p : FSMPageData) (Hwf : page_wf p) :
  exists p' changed, fsm_rebuild_page p = Ok (p', changed) /\ page_ok p' /\
    fp_next_slot p' = fp_next_slot p /\
    (forall slot, 0 <= slot -> slot_value p' slot = slot_value p slot) /\
    (changed = false <-> p' = p).
Proof. by apply rebuild_run. Qed.

(** [fsm_set_avail] is an array store: on any page, torn pages included,
    it terminates, the slot gets the value, no other slot changes, and
    afterwards the root promises at least the value; on a consistent page it
    keeps the invariant and returns false exactly when nothing changed. *)
Theorem fsm_set_avail_stores (p : FSMPageData) (slot value : Z)
    (Hwf : page_wf p) (Hslot : 0 <= slot < LeafNodesPerPage) (Hvalue : 0 <= value < 256) :
  exists p' modified, fsm_set_avail p slot value = Ok (p', modified) /\ page_wf p' /\
    slots_updated p p' slot value /\ value <= getd 0 (fp_nodes p') 0 /\
    (page_ok p -> page_ok p' /\ (modified = false <-> p' = p)).
Proof.
  destruct geometry as (G1 & G2 & G3). pose proof Hwf as [Hl Hb].
  destruct (written_leaf p slot value Hwf Hslot Hvalue) as [Hwf1 Hupd1].
  unfold fsm_set_avail. rewrite (rd_run _ (NonLeafNodesPerPage + slot)) by lia. step_ok.
  rewrite (rd_run _ 0) by lia. step_ok. fold (slot_value p slot).
  destruct ((slot_value p slot =? value) && (value <=? getd 0 (fp_nodes p) 0)) eqn:Hsame.
  { apply andb_true_iff in Hsame as [He%Z.eqb_eq Hr%Z.leb_le]. exists p, false.
    split; [done|]. split; [done|]. split; [|by split].
    intros j Hj. destruct (Z.eqb_spec j slot) as [->|]; done. }
  rewrite wr_run by lia. step_ok. set (l := upd (fp_nodes p) (NonLeafNodesPerPage + slot) value) in *.
  destruct (propagate_total 13 l (NonLeafNodesPerPage + slot)) as (l' & Hr & Hl' & Hb' & Hleaf);
    [apply Hwf1|apply Hwf1|lia|change (2 ^ Z.of_nat 13) with 8192; lia|].
  rewrite Hr. step_ok. rewrite (rd_run _ 0) by lia. step_ok.
  assert (Hwf2 : page_wf (set_nodes p l')) by by constructor.
  assert (Hupd2 : slots_updated p (set_nodes p l') slot value).
  { intros j Hj. rewrite <- Hupd1 by done. apply Hleaf. lia. }
  assert (Hok2 : page_ok p -> page_ok (set_nodes p l') /\ value <= getd 0 l' 0).
  { intros Hok.
    destruct (propagate_run 13 l (NonLeafNodesPerPage + slot)) as (l2 & Hr2 & _ & _ & Hn2 & _);
      [apply Hwf1|apply Hwf1|lia|change (2 ^ Z.of_nat 13) with 8192; lia|by apply leaf_path|].
    replace l' with l2 in * by congruence.
    assert (page_ok (set_nodes p l2)) as Hok2 by done. split; [done|].
    pose proof (root_ge_slot _ slot Hok2 ltac:(lia)) as Hge. rewrite Hupd2, Z.eqb_refl in Hge by lia. done. }
  assert (Hne : page_ok p -> forall p', slots_updated p p' slot value -> p' <> p).
  { intros Hok p' Hu ->. specialize (Hu slot ltac:(lia)). rewrite Z.eqb_refl in Hu.
    pose proof (root_ge_slot p slot Hok ltac:(lia)). rewrite Hu, Z.eqb_refl in Hsame.
    rewrite (proj2 (Z.leb_le _ _)) in Hsame by lia. done. }
  destruct (Z.ltb_spec (getd 0 l' 0) value) as [Hlt|Hge].
  - destruct (rebuild_run (set_nodes p l') Hwf2) as (p3 & ch & -> & Hok3 & _ & Hs3 & _). step_ok.
    exists p3, true. split; [done|]. split; [apply Hok3|].
    assert (Hu3 : slots_updated p p3 slot value) by (intros j Hj; rewrite Hs3 by done; by apply Hupd2).
    split; [done|]. split.
    + pose proof (root_ge_slot _ slot Hok3 ltac:(lia)) as Hge. by rewrite Hu3, Z.eqb_refl in Hge by lia.
    + intros Hok. destruct (Hok2 Hok) as [_ ?]. lia.
  - exists (set_nodes p l'), true. split; [done|]. split; [done|]. split; [done|]. split; [done|].
    intros Hok. split; [by apply Hok2|]. split; [done|]. intros He. by destruct (Hne Hok _ Hupd2).
Qed.

(** On a consistent page the root, which [fsm_get_max_avail] returns, is
    the largest slot. *)
Theorem fsm_max_avail_is_max (p : FSMPageData) (Hok : page_ok p) :
  exists m, fsm_get_max_avail p = Ok m /\
    (forall slot, 0 <= slot < LeafNodesPerPage -> slot_value p slot <= m) /\
    exists slot, 0 <= slot < LeafNodesPerPage /\ slot_value p slot = m.
Proof.
  destruct geometry as (G1 & G2 & G3). pose proof Hok as [Hwf _]. pose proof Hwf as [Hl Hb].
  exists (getd 0 (fp_nodes p) 0). split; [apply rd_run; lia|].
  split; [intros slot Hs; apply root_ge_slot; [done|lia]|].
  destruct (proj1 (root_promise p (getd 0 (fp_nodes p) 0) Hok) ltac:(lia)) as (j & Hj & Hge).
  pose proof (root_ge_slot p j Hok Hj). pose proof (node_range (fp_nodes p) 0 Hb).
  destruct (Z.lt_ge_cases j LeafNodesPerPage) as [Hlt|Hout].
  - exists j. split; lia.
  - rewrite (slot_beyond p j Hwf Hout) in *. pose proof (root_ge_slot p 0 Hok ltac:(lia)).
    pose proof (slot_range p 0 Hwf). exists 0. split; lia.
Qed.

(** C37. The search on a consistent page: it returns -1, leaving the page
    alone, exactly when no slot has the wanted category; otherwise it returns
    the first slot that has it in cyclic order from the hint [fp_next_slot]
    (from 0 when the hint is out of range), and moves the hint to that slot or
    the next one. *)
Theorem fsm_search_finds_first (p : FSMPageData) (minvalue : Z) (advancenext : bool)
    (Hok : page_ok p) (Hmin : 0 <= minvalue < 256) :
  ((forall slot, 0 <= slot < LeafNodesPerPage -> slot_value p slot < minvalue) ->
     fsm_search_avail 2 p minvalue advancenext = Ok (p, -1)) /\
  ((exists slot, 0 <= slot < LeafNodesPerPage /\ minvalue <= slot_value p slot) ->
     exists s, fsm_search_avail 2 p minvalue advancenext = Ok (searched p s advancenext, s) /\
       first_from p minvalue (start_slot p) s).
Proof.
  destruct geometry as (G1 & G2 & G3). pose proof Hok as [Hwf _].
  destruct (search_ok_run 1 p minvalue advancenext Hok ltac:(lia)) as [Hno Hyes]. split.
  - intros Hall. apply Hno. destruct (Z.lt_ge_cases (getd 0 (fp_nodes p) 0) minvalue) as [|Hge]; [done|].
    apply (root_promise p _ Hok) in Hge as (j & Hj & Hv).
    destruct (Z.lt_ge_cases j LeafNodesPerPage) as [Hlt|Hout].
    + specialize (Hall j ltac:(lia)). lia.
    + specialize (Hall 0 ltac:(lia)). pose proof (slot_range p 0 Hwf).
      rewrite (slot_beyond p j Hwf Hout) in Hv. lia.
  - intros (slot & Hs & Hv). apply Hyes. apply (root_promise p _ Hok). exists slot. split; [lia|done].
Qed.

(** The search on any page, torn pages included: it terminates with at
    most one rebuild and restart, the slots keep their values, and a slot it
    returns exists and has the wanted category. *)
Theorem fsm_search_any_page (p : FSMPageData) (minvalue : Z) (advancenext : bool)
    (Hwf : page_wf p) (Hmin : 0 <= minvalue < 256) :
  exists p' r, fsm_search_avail 2 p minvalue advancenext = Ok (p', r) /\ page_wf p' /\
    (forall slot, 0 <= slot -> slot_value p' slot = slot_value p slot) /\
    (r = -1 \/ (0 <= r < LeafNodesPerPage /\ minvalue <= slot_value p r)).
Proof.
  destruct geometry as (G1 & G2 & G3). pose proof Hwf as [Hl Hb].
  pose proof (start_slot_range p) as Hst.
  assert (exists one, one = 1%nat /\ 2%nat = S one) as (one & Hone & ->) by eauto.
  cbn [fsm_search_avail]. rewrite (rd_run _ 0) by lia. step_ok.
  destruct (Z.ltb_spec (getd 0 (fp_nodes p) 0) minvalue) as [Hlt|Hge].
  { exists p, (-1). by split; [|split; [|split; [|left]]]. }
  fold (start_slot p).
  replace (start_slot p + NonLeafNodesPerPage) with (node_at 0 (start_slot p)) by (rewrite node_leaf; lia).
  destruct (torn_up 13 p minvalue 0 (start_slot p) Hwf) as (h & q & -> & Hh & Hq & Hq0 & Hqv);
    [lia|lia|simpl Z.of_nat; lia|lia|]. step_ok.
  destruct (torn_down 13 p minvalue h q Hwf) as [-> |(s & -> & Hs & Hv)]; [lia|lia|done|done|done| |].
  - step_ok. destruct (rebuild_run p Hwf) as (p2 & ch & -> & Hok2 & Hns & Hs2 & _). step_ok.
    subst one.
    destruct (search_ok_run 0 p2 minvalue advancenext Hok2 ltac:(lia)) as [Hno Hyes].
    destruct (Z.lt_ge_cases (getd 0 (fp_nodes p2) 0) minvalue) as [Hr|Hr].
    + exists p2, (-1). split; [by apply Hno|]. split; [apply Hok2|]. by split; [|left].
    + destruct (Hyes Hr) as (s & Hrun & Hs & Hv & _). exists (searched p2 s advancenext), s.
      split; [done|]. split; [destruct Hok2 as [[] _]; by constructor|]. split; [done|].
      right. split; [done|]. by rewrite <- Hs2 by lia.
  - step_ok. rewrite u16_slot by done. exists (searched p s advancenext), s.
    split; [done|]. split; [by constructor|]. split; [done|]. by right.
Qed.

(** [fsm_truncate_avail] clears the slots from [nslots] on and no other,
    leaves a consistent page, and returns false exactly when there was nothing
    to clear. *)
Theorem fsm_truncate_avail_clears (p : FSMPageData) (nslots : Z)
    (Hok : page_ok p) (Hn : 0 <= nslots < LeafNodesPerPage) :
  exists p' changed, fsm_truncate_avail p nslots = Ok (p', changed) /\ page_ok p' /\
    (forall slot, 0 <= slot < LeafNodesPerPage ->
       slot_value p' slot = if nslots <=? slot then 0 else slot_value p slot) /\
    (changed = false <-> forall slot, nslots <= slot < LeafNodesPerPage -> slot_value p slot = 0).
Proof.
  destruct geometry as (G1 & G2 & G3). pose proof Hok as [[Hl Hb] Hnodes]. unfold fsm_truncate_avail.
  set (lo := NonLeafNodesPerPage + nslots) in *.
  match goal with |- context [loop_state ?m] =>
    enough (Hloop : wp (loop_state m) (fun '(l, changed) =>
      len l = NodesPerPage /\ (forall i, 0 <= i < NodesPerPage ->
        getd 0 l i = if lo <=? i then 0 else getd 0 (fp_nodes p) i) /\
      ((changed : bool) = false <-> forall i, lo <= i < NodesPerPage -> getd 0 (fp_nodes p) i = 0))) end.
  { apply wp_ok in Hloop as ([l changed] & -> & Hl' & Hget & Hch). step_ok.
    assert (Hwf1 : page_wf (set_nodes p l)).
    { constructor; [done|]. apply (Forall_getd _ 0). intros i Hi. simpl in *. rewrite Hget by lia.
      case_match; [lia|by apply node_range]. }
    assert (Hslots : forall slot, 0 <= slot < LeafNodesPerPage ->
      slot_value (set_nodes p l) slot = if nslots <=? slot then 0 else slot_value p slot).
    { intros slot Hs. unfold slot_value. simpl. rewrite Hget by lia.
      destruct (Z.leb_spec lo (NonLeafNodesPerPage + slot)), (Z.leb_spec nslots slot); lia || done. }
    assert (Hiff : changed = false <-> forall slot, nslots <= slot < LeafNodesPerPage -> slot_value p slot = 0).
    { rewrite Hch. split; [intros H slot Hs; apply H; lia|]. intros H i Hi.
      specialize (H (i - NonLeafNodesPerPage) ltac:(lia)). unfold slot_value in H.
      by replace (NonLeafNodesPerPage + (i - NonLeafNodesPerPage)) with i in H by lia. }
    destruct changed.
    - destruct (rebuild_run (set_nodes p l) Hwf1) as (p2 & ch & -> & Hok2 & _ & Hs2 & _). step_ok.
      exists p2, true. split; [done|]. split; [done|]. split; [|done].
      intros slot Hs. rewrite Hs2 by lia. by apply Hslots.
    - exists (set_nodes p l), false. split; [done|]. split; [|done].
      assert (l = fp_nodes p) as ->; [|done]. apply (getd_ext 0); [lia|]. intros i Hi.
      rewrite Hget by lia. destruct (Z.leb_spec lo i); [|done]. symmetry. apply Hch; [done|lia]. }
  apply wp_loop_state.
  apply (wp_for_up (fun k '(l, changed) => len l = NodesPerPage /\
    (forall i, 0 <= i < NodesPerPage ->
       getd 0 l i = if (lo <=? i) && (i <? k) then 0 else getd 0 (fp_nodes p) i) /\
    ((changed : bool) = false <-> forall i, lo <= i < k -> getd 0 (fp_nodes p) i = 0))).
  - lia.
  - split; [done|]. split; [|split; [intros _; lia|done]]. intros i Hi.
    destruct (Z.leb_spec lo i), (Z.ltb_spec i lo); simpl; try lia; done.
  - intros k [l changed] Hk (Hl' & Hget & Hch). rewrite rd_run by lia. step_ok.
    rewrite wr_run by lia. step_ok. apply wp_Ok. split; [by rewrite len_upd|]. split.
    + intros i Hi. rewrite getd_upd by lia. rewrite Hget by lia.
      destruct (Z.eqb_spec i k), (Z.leb_spec lo i), (Z.ltb_spec i k), (Z.ltb_spec i (k + 1)); simpl; lia || done.
    + assert (Hk0 : getd 0 l k = getd 0 (fp_nodes p) k).
      { rewrite Hget by lia. destruct (Z.leb_spec lo k), (Z.ltb_spec k k); simpl; lia || done. }
      rewrite Hk0, orb_false_iff, negb_false_iff, Z.eqb_eq, Hch. split.
      * intros [H1 H2] i Hi. destruct (Z.eq_dec i k) as [->|]; [done|apply H1; lia].
      * intros H. split; [intros i Hi; apply H; lia|apply H; lia].
  - intros [l changed] (Hl' & Hget & Hch). split; [done|]. split; [|done]. intros i Hi.
    rewrite Hget by lia. rewrite (proj2 (Z.ltb_lt i NodesPerPage)) by lia. by rewrite andb_true_r.
Qed.

(** * Witnesses *)

(** A page with 7 in slot 10 and nothing else; its inner nodes are all 0, as
    on a torn page. *)
Definition torn_page : FSMPageData :=
  {| fp_next_slot := 42; fp_nodes := upd (replicate (Z.to_nat NodesPerPage) 0) (4095 + 10) 7 |}.

Lemma torn_page_wf : page_wf torn_page.
Proof.
  constructor; unfold torn_page; cbn [fp_nodes].
  - rewrite len_upd, len_replicate. done.
  - apply Forall_upd; [|lia]. apply Forall_replicate. lia.
Qed.

Lemma torn_slot j : 0 <= j -> slot_value torn_page j = if j =? 10 then 7 else 0.
Proof.
  intros Hj. unfold slot_value, torn_page. cbn [fp_nodes].
  rewrite getd_upd by (rewrite ?len_replicate; change NonLeafNodesPerPage with 4095;
    change (Z.of_nat (Z.to_nat NodesPerPage)) with 8164; lia).
  change NonLeafNodesPerPage with 4095. rewrite getd_replicate by lia.
  destruct (Z.eqb_spec (4095 + j) (4095 + 10)), (Z.eqb_spec j 10); try lia; try done. by case_match.
Qed.

Lemma fsm_rebuild_page_repairs_witness :
  exists p' changed, fsm_rebuild_page torn_page = Ok (p', changed) /\ page_ok p' /\
    fp_next_slot p' = fp_next_slot torn_page /\
    (forall slot, 0 <= slot -> slot_value p' slot = slot_value torn_page slot) /\
    (changed = false <-> p' = torn_page).
Proof. exact (fsm_rebuild_page_repairs torn_page torn_page_wf). Defined.

Lemma fsm_set_avail_stores_witness :
  exists p' modified, fsm_set_avail torn_page 3 200 = Ok (p', modified) /\ page_wf p' /\
    slots_updated torn_page p' 3 200 /\ 200 <= getd 0 (fp_nodes p') 0 /\
    (page_ok torn_page -> page_ok p' /\ (modified = false <-> p' = torn_page)).
Proof.
  apply (fsm_set_avail_stores torn_page 3 200 torn_page_wf); destruct geometry as (_ & _ & G3); lia.
Defined.

Lemma fsm_max_avail_is_max_witness :
  exists p m, slot_value p 10 = 7 /\ fsm_get_max_avail p = Ok m /\ 7 <= m.
Proof.
  destruct (rebuild_run torn_page torn_page_wf) as (p & ch & _ & Hok & _ & Hs & _).
  destruct (fsm_max_avail_is_max p Hok) as (m & Hm & Hle & _). exists p, m.
  assert (H10 : slot_value p 10 = 7) by by rewrite Hs, torn_slot by lia.
  split; [done|]. split; [done|]. rewrite <- H10. apply Hle. destruct geometry as (_ & _ & G3). lia.
Defined.

Lemma fsm_search_finds_first_witness :
  exists p s, fsm_search_avail 2 p 5 true = Ok (searched p s true, s) /\
    first_from p 5 (start_slot p) s.
Proof.
  destruct (rebuild_run torn_page torn_page_wf) as (p & ch & _ & Hok & _ & Hs & _). exists p.
  apply (fsm_search_finds_first p 5 true Hok ltac:(lia)). exists 10.
  rewrite Hs, torn_slot by lia. destruct geometry as (_ & _ & G3). simpl. lia.
Defined.

Lemma fsm_search_any_page_witness :
  exists p' r, fsm_search_avail 2 torn_page 5 false = Ok (p', r) /\ page_wf p' /\
    (forall slot, 0 <= slot -> slot_value p' slot = slot_value torn_page slot) /\
    (r = -1 \/ (0 <= r < LeafNodesPerPage /\ 5 <= slot_value torn_page r)).
Proof. apply (fsm_search_any_page torn_page 5 false torn_page_wf). lia. Defined.

Lemma fsm_truncate_avail_clears_witness :
  exists p p', fsm_truncate_avail p 4 = Ok (p', true) /\ slot_value p 10 = 7 /\ slot_value p' 10 = 0.
Proof.
  destruct (rebuild_run torn_page torn_page_wf) as (p & ch & _ & Hok & _ & Hs & _).
  assert (H10 : slot_value p 10 = 7) by by rewrite Hs, torn_slot by lia.
  destruct geometry as (_ & _ & G3).
  destruct (fsm_truncate_avail_clears p 4 Hok ltac:(lia)) as (p' & c & Hrun & _ & Hslots & Hc).
  exists p, p'. destruct c.
  - split; [done|]. split; [done|]. rewrite Hslots by lia. done.
  - exfalso. assert (slot_value p 10 = 0) by (apply Hc; [done|lia]). lia.
Defined.
