(* ===== verification/Xact.v ===== *)
(** The transaction manager (src/postgresql/src/backend/access/transam/xact.c),
    part 1: the stack of transaction states, the module's static variables and
    the low-level routines that start, commit, prepare, abort and clean up a
    transaction or a subtransaction.

    The stack is a list, the current transaction first and
    [TopTransactionStateData] last, so [s->parent] is the next element.  Calls
    into other modules (resource owners, memory contexts, locks, WAL, portals,
    snapshots, GUC, statistics) go through [sub], which runs the function of
    that name of the record [Subsystems] on a state [W] of its own: the call
    answers a value or raises ERROR.  Every theorem holds for all of them.
    Interrupt hold-off counts, tracing macros and [ShowTransactionState] (which
    only prints) are left out.

    Unlike in Spi.v, an error keeps the state it was raised in, because the
    handler in [PostgresMain] goes on from there. *)
From S2P Require Import Prelude.
Open Scope string_scope.
Open Scope list_scope.
Open Scope Z_scope.

(** * Data *)
Inductive TransState :=
| TRANS_DEFAULT | TRANS_START | TRANS_INPROGRESS | TRANS_COMMIT | TRANS_ABORT | TRANS_PREPARE.

Inductive TBlockState :=
| TBLOCK_DEFAULT | TBLOCK_STARTED
| TBLOCK_BEGIN | TBLOCK_INPROGRESS | TBLOCK_IMPLICIT_INPROGRESS | TBLOCK_PARALLEL_INPROGRESS
| TBLOCK_END | TBLOCK_ABORT | TBLOCK_ABORT_END | TBLOCK_ABORT_PENDING | TBLOCK_PREPARE
| TBLOCK_SUBBEGIN | TBLOCK_SUBINPROGRESS | TBLOCK_SUBRELEASE | TBLOCK_SUBCOMMIT
| TBLOCK_SUBABORT | TBLOCK_SUBABORT_END | TBLOCK_SUBABORT_PENDING | TBLOCK_SUBRESTART
| TBLOCK_SUBABORT_RESTART.

#[export] Instance TransState_eq_dec : EqDecision TransState.
Proof. solve_decision. Defined.
#[export] Instance TBlockState_eq_dec : EqDecision TBlockState.
Proof. solve_decision. Defined.

Record TransactionStateData := mkTransactionState {
  fullTransactionId : Z;
  subTransactionId : Z;
  name : option string;
  savepointLevel : Z;
  state : TransState;
  blockState : TBlockState;
  nestingLevel : Z;
  gucNestLevel : Z;
  curTransactionOwner : option Z;
  childXids : list Z;
  maxChildXids : Z;
  prevUser : Z;
  prevSecContext : Z;
  prevXactReadOnly : bool;
  startedInRecovery : bool;
  didLogXid : bool;
  parallelModeLevel : Z;
  chain : bool;
  assigned : bool
}.

(** The transaction characteristics that COMMIT AND CHAIN carries over:
    [XactIsoLevel], [XactReadOnly] and [XactDeferrable]. *)
Record Characteristics := { IsoLevel : Z; ReadOnly : bool; Deferrable : bool }.

(** The static and global variables of xact.c.  [xact_chars] are the current
    characteristics, [save_chars] the variables save_XactIsoLevel,
    save_XactReadOnly and save_XactDeferrable, [default_chars] the GUC
    defaults; [unreportedXids] holds its first [nUnreportedXids] elements.
    [xact_started] is the variable of tcop/postgres.c. *)
Record Core := mkCore {
  stack : list TransactionStateData;
  currentSubTransactionId : Z;
  currentCommandId : Z;
  currentCommandIdUsed : bool;
  XactTopFullTransactionId : Z;
  nParallelCurrentXids : Z;
  unreportedXids : list Z;
  xact_chars : Characteristics;
  save_chars : Characteristics;
  default_chars : Characteristics;
  forceSyncCommit : bool;
  MyXactFlags : Z;
  prepareGID : option string;
  CurrentUserId : Z;
  SecurityRestrictionContext : Z;
  CurrentResourceOwner : option Z;
  CurTransactionResourceOwner : option Z;
  TopTransactionResourceOwner : option Z;
  xactStartTimestamp : Z;
  stmtStartTimestamp : Z;
  xactStopTimestamp : Z;
  xact_is_sampled : bool;
  ParallelWorkerNumber : Z;
  xact_started : bool
}.

(** Assignments to one field. *)
Definition set_fullTransactionId (v : Z) (x : TransactionStateData) : TransactionStateData :=
  mkTransactionState v (subTransactionId x) (name x) (savepointLevel x) (state x) (blockState x)
    (nestingLevel x) (gucNestLevel x) (curTransactionOwner x) (childXids x) (maxChildXids x)
    (prevUser x) (prevSecContext x) (prevXactReadOnly x) (startedInRecovery x) (didLogXid x)
    (parallelModeLevel x) (chain x) (assigned x).
Definition set_subTransactionId (v : Z) (x : TransactionStateData) : TransactionStateData :=
  mkTransactionState (fullTransactionId x) v (name x) (savepointLevel x) (state x) (blockState
    x) (nestingLevel x) (gucNestLevel x) (curTransactionOwner x) (childXids x) (maxChildXids x)
    (prevUser x) (prevSecContext x) (prevXactReadOnly x) (startedInRecovery x) (didLogXid x)
    (parallelModeLevel x) (chain x) (assigned x).
Definition set_name (v : option string) (x : TransactionStateData) : TransactionStateData :=
  mkTransactionState (fullTransactionId x) (subTransactionId x) v (savepointLevel x) (state x)
    (blockState x) (nestingLevel x) (gucNestLevel x) (curTransactionOwner x) (childXids x)
    (maxChildXids x) (prevUser x) (prevSecContext x) (prevXactReadOnly x) (startedInRecovery x)
    (didLogXid x) (parallelModeLevel x) (chain x) (assigned x).
Definition set_savepointLevel (v : Z) (x : TransactionStateData) : TransactionStateData :=
  mkTransactionState (fullTransactionId x) (subTransactionId x) (name x) v (state x) (blockState
    x) (nestingLevel x) (gucNestLevel x) (curTransactionOwner x) (childXids x) (maxChildXids x)
    (prevUser x) (prevSecContext x) (prevXactReadOnly x) (startedInRecovery x) (didLogXid x)
    (parallelModeLevel x) (chain x) (assigned x).
Definition set_state (v : TransState) (x : TransactionStateData) : TransactionStateData :=
  mkTransactionState (fullTransactionId x) (subTransactionId x) (name x) (savepointLevel x) v
    (blockState x) (nestingLevel x) (gucNestLevel x) (curTransactionOwner x) (childXids x)
    (maxChildXids x) (prevUser x) (prevSecContext x) (prevXactReadOnly x) (startedInRecovery x)
    (didLogXid x) (parallelModeLevel x) (chain x) (assigned x).
Definition set_blockState (v : TBlockState) (x : TransactionStateData) : TransactionStateData :=
  mkTransactionState (fullTransactionId x) (subTransactionId x) (name x) (savepointLevel x)
    (state x) v (nestingLevel x) (gucNestLevel x) (curTransactionOwner x) (childXids x)
    (maxChildXids x) (prevUser x) (prevSecContext x) (prevXactReadOnly x) (startedInRecovery x)
    (didLogXid x) (parallelModeLevel x) (chain x) (assigned x).
Definition set_nestingLevel (v : Z) (x : TransactionStateData) : TransactionStateData :=
  mkTransactionState (fullTransactionId x) (subTransactionId x) (name x) (savepointLevel x)
    (state x) (blockState x) v (gucNestLevel x) (curTransactionOwner x) (childXids x)
    (maxChildXids x) (prevUser x) (prevSecContext x) (prevXactReadOnly x) (startedInRecovery x)
    (didLogXid x) (parallelModeLevel x) (chain x) (assigned x).
Definition set_gucNestLevel (v : Z) (x : TransactionStateData) : TransactionStateData :=
  mkTransactionState (fullTransactionId x) (subTransactionId x) (name x) (savepointLevel x)
    (state x) (blockState x) (nestingLevel x) v (curTransactionOwner x) (childXids x)
    (maxChildXids x) (prevUser x) (prevSecContext x) (prevXactReadOnly x) (startedInRecovery x)
    (didLogXid x) (parallelModeLevel x) (chain x) (assigned x).
Definition set_curTransactionOwner (v : option Z) (x : TransactionStateData) : TransactionStateData :=
  mkTransactionState (fullTransactionId x) (subTransactionId x) (name x) (savepointLevel x)
    (state x) (blockState x) (nestingLevel x) (gucNestLevel x) v (childXids x) (maxChildXids x)
    (prevUser x) (prevSecContext x) (prevXactReadOnly x) (startedInRecovery x) (didLogXid x)
    (parallelModeLevel x) (chain x) (assigned x).
Definition set_childXids (v : list Z) (x : TransactionStateData) : TransactionStateData :=
  mkTransactionState (fullTransactionId x) (subTransactionId x) (name x) (savepointLevel x)
    (state x) (blockState x) (nestingLevel x) (gucNestLevel x) (curTransactionOwner x) v
    (maxChildXids x) (prevUser x) (prevSecContext x) (prevXactReadOnly x) (startedInRecovery x)
    (didLogXid x) (parallelModeLevel x) (chain x) (assigned x).
Definition set_maxChildXids (v : Z) (x : TransactionStateData) : TransactionStateData :=
  mkTransactionState (fullTransactionId x) (subTransactionId x) (name x) (savepointLevel x)
    (state x) (blockState x) (nestingLevel x) (gucNestLevel x) (curTransactionOwner x)
    (childXids x) v (prevUser x) (prevSecContext x) (prevXactReadOnly x) (startedInRecovery x)
    (didLogXid x) (parallelModeLevel x) (chain x) (assigned x).
Definition set_prevUser (v : Z) (x : TransactionStateData) : TransactionStateData :=
  mkTransactionState (fullTransactionId x) (subTransactionId x) (name x) (savepointLevel x)
    (state x) (blockState x) (nestingLevel x) (gucNestLevel x) (curTransactionOwner x)
    (childXids x) (maxChildXids x) v (prevSecContext x) (prevXactReadOnly x) (startedInRecovery
    x) (didLogXid x) (parallelModeLevel x) (chain x) (assigned x).
Definition set_prevSecContext (v : Z) (x : TransactionStateData) : TransactionStateData :=
  mkTransactionState (fullTransactionId x) (subTransactionId x) (name x) (savepointLevel x)
    (state x) (blockState x) (nestingLevel x) (gucNestLevel x) (curTransactionOwner x)
    (childXids x) (maxChildXids x) (prevUser x) v (prevXactReadOnly x) (startedInRecovery x)
    (didLogXid x) (parallelModeLevel x) (chain x) (assigned x).
Definition set_startedInRecovery (v : bool) (x : TransactionStateData) : TransactionStateData :=
  mkTransactionState (fullTransactionId x) (subTransactionId x) (name x) (savepointLevel x)
    (state x) (blockState x) (nestingLevel x) (gucNestLevel x) (curTransactionOwner x)
    (childXids x) (maxChildXids x) (prevUser x) (prevSecContext x) (prevXactReadOnly x) v
    (didLogXid x) (parallelModeLevel x) (chain x) (assigned x).
Definition set_didLogXid (v : bool) (x : TransactionStateData) : TransactionStateData :=
  mkTransactionState (fullTransactionId x) (subTransactionId x) (name x) (savepointLevel x)
    (state x) (blockState x) (nestingLevel x) (gucNestLevel x) (curTransactionOwner x)
    (childXids x) (maxChildXids x) (prevUser x) (prevSecContext x) (prevXactReadOnly x)
    (startedInRecovery x) v (parallelModeLevel x) (chain x) (assigned x).
Definition set_parallelModeLevel (v : Z) (x : TransactionStateData) : TransactionStateData :=
  mkTransactionState (fullTransactionId x) (subTransactionId x) (name x) (savepointLevel x)
    (state x) (blockState x) (nestingLevel x) (gucNestLevel x) (curTransactionOwner x)
    (childXids x) (maxChildXids x) (prevUser x) (prevSecContext x) (prevXactReadOnly x)
    (startedInRecovery x) (didLogXid x) v (chain x) (assigned x).
Definition set_chain (v : bool) (x : TransactionStateData) : TransactionStateData :=
  mkTransactionState (fullTransactionId x) (subTransactionId x) (name x) (savepointLevel x)
    (state x) (blockState x) (nestingLevel x) (gucNestLevel x) (curTransactionOwner x)
    (childXids x) (maxChildXids x) (prevUser x) (prevSecContext x) (prevXactReadOnly x)
    (startedInRecovery x) (didLogXid x) (parallelModeLevel x) v (assigned x).

Definition set_stack (v : list TransactionStateData) (x : Core) : Core :=
  mkCore v (currentSubTransactionId x) (currentCommandId x) (currentCommandIdUsed x)
    (XactTopFullTransactionId x) (nParallelCurrentXids x) (unreportedXids x) (xact_chars x)
    (save_chars x) (default_chars x) (forceSyncCommit x) (MyXactFlags x) (prepareGID x)
    (CurrentUserId x) (SecurityRestrictionContext x) (CurrentResourceOwner x)
    (CurTransactionResourceOwner x) (TopTransactionResourceOwner x) (xactStartTimestamp x)
    (stmtStartTimestamp x) (xactStopTimestamp x) (xact_is_sampled x) (ParallelWorkerNumber x)
    (xact_started x).
Definition set_currentSubTransactionId (v : Z) (x : Core) : Core :=
  mkCore (stack x) v (currentCommandId x) (currentCommandIdUsed x) (XactTopFullTransactionId x)
    (nParallelCurrentXids x) (unreportedXids x) (xact_chars x) (save_chars x) (default_chars x)
    (forceSyncCommit x) (MyXactFlags x) (prepareGID x) (CurrentUserId x)
    (SecurityRestrictionContext x) (CurrentResourceOwner x) (CurTransactionResourceOwner x)
    (TopTransactionResourceOwner x) (xactStartTimestamp x) (stmtStartTimestamp x)
    (xactStopTimestamp x) (xact_is_sampled x) (ParallelWorkerNumber x) (xact_started x).
Definition set_currentCommandId (v : Z) (x : Core) : Core :=
  mkCore (stack x) (currentSubTransactionId x) v (currentCommandIdUsed x)
    (XactTopFullTransactionId x) (nParallelCurrentXids x) (unreportedXids x) (xact_chars x)
    (save_chars x) (default_chars x) (forceSyncCommit x) (MyXactFlags x) (prepareGID x)
    (CurrentUserId x) (SecurityRestrictionContext x) (CurrentResourceOwner x)
    (CurTransactionResourceOwner x) (TopTransactionResourceOwner x) (xactStartTimestamp x)
    (stmtStartTimestamp x) (xactStopTimestamp x) (xact_is_sampled x) (ParallelWorkerNumber x)
    (xact_started x).
Definition set_currentCommandIdUsed (v : bool) (x : Core) : Core :=
  mkCore (stack x) (currentSubTransactionId x) (currentCommandId x) v (XactTopFullTransactionId
    x) (nParallelCurrentXids x) (unreportedXids x) (xact_chars x) (save_chars x) (default_chars
    x) (forceSyncCommit x) (MyXactFlags x) (prepareGID x) (CurrentUserId x)
    (SecurityRestrictionContext x) (CurrentResourceOwner x) (CurTransactionResourceOwner x)
    (TopTransactionResourceOwner x) (xactStartTimestamp x) (stmtStartTimestamp x)
    (xactStopTimestamp x) (xact_is_sampled x) (ParallelWorkerNumber x) (xact_started x).
Definition set_XactTopFullTransactionId (v : Z) (x : Core) : Core :=
  mkCore (stack x) (currentSubTransactionId x) (currentCommandId x) (currentCommandIdUsed x) v
    (nParallelCurrentXids x) (unreportedXids x) (xact_chars x) (save_chars x) (default_chars x)
    (forceSyncCommit x) (MyXactFlags x) (prepareGID x) (CurrentUserId x)
    (SecurityRestrictionContext x) (CurrentResourceOwner x) (CurTransactionResourceOwner x)
    (TopTransactionResourceOwner x) (xactStartTimestamp x) (stmtStartTimestamp x)
    (xactStopTimestamp x) (xact_is_sampled x) (ParallelWorkerNumber x) (xact_started x).
Definition set_nParallelCurrentXids (v : Z) (x : Core) : Core :=
  mkCore (stack x) (currentSubTransactionId x) (currentCommandId x) (currentCommandIdUsed x)
    (XactTopFullTransactionId x) v (unreportedXids x) (xact_chars x) (save_chars x)
    (default_chars x) (forceSyncCommit x) (MyXactFlags x) (prepareGID x) (CurrentUserId x)
    (SecurityRestrictionContext x) (CurrentResourceOwner x) (CurTransactionResourceOwner x)
    (TopTransactionResourceOwner x) (xactStartTimestamp x) (stmtStartTimestamp x)
    (xactStopTimestamp x) (xact_is_sampled x) (ParallelWorkerNumber x) (xact_started x).
Definition set_unreportedXids (v : list Z) (x : Core) : Core :=
  mkCore (stack x) (currentSubTransactionId x) (currentCommandId x) (currentCommandIdUsed x)
    (XactTopFullTransactionId x) (nParallelCurrentXids x) v (xact_chars x) (save_chars x)
    (default_chars x) (forceSyncCommit x) (MyXactFlags x) (prepareGID x) (CurrentUserId x)
    (SecurityRestrictionContext x) (CurrentResourceOwner x) (CurTransactionResourceOwner x)
    (TopTransactionResourceOwner x) (xactStartTimestamp x) (stmtStartTimestamp x)
    (xactStopTimestamp x) (xact_is_sampled x) (ParallelWorkerNumber x) (xact_started x).
Definition set_xact_chars (v : Characteristics) (x : Core) : Core :=
  mkCore (stack x) (currentSubTransactionId x) (currentCommandId x) (currentCommandIdUsed x)
    (XactTopFullTransactionId x) (nParallelCurrentXids x) (unreportedXids x) v (save_chars x)
    (default_chars x) (forceSyncCommit x) (MyXactFlags x) (prepareGID x) (CurrentUserId x)
    (SecurityRestrictionContext x) (CurrentResourceOwner x) (CurTransactionResourceOwner x)
    (TopTransactionResourceOwner x) (xactStartTimestamp x) (stmtStartTimestamp x)
    (xactStopTimestamp x) (xact_is_sampled x) (ParallelWorkerNumber x) (xact_started x).
Definition set_save_chars (v : Characteristics) (x : Core) : Core :=
  mkCore (stack x) (currentSubTransactionId x) (currentCommandId x) (currentCommandIdUsed x)
    (XactTopFullTransactionId x) (nParallelCurrentXids x) (unreportedXids x) (xact_chars x) v
    (default_chars x) (forceSyncCommit x) (MyXactFlags x) (prepareGID x) (CurrentUserId x)
    (SecurityRestrictionContext x) (CurrentResourceOwner x) (CurTransactionResourceOwner x)
    (TopTransactionResourceOwner x) (xactStartTimestamp x) (stmtStartTimestamp x)
    (xactStopTimestamp x) (xact_is_sampled x) (ParallelWorkerNumber x) (xact_started x).
Definition set_forceSyncCommit (v : bool) (x : Core) : Core :=
  mkCore (stack x) (currentSubTransactionId x) (currentCommandId x) (currentCommandIdUsed x)
    (XactTopFullTransactionId x) (nParallelCurrentXids x) (unreportedXids x) (xact_chars x)
    (save_chars x) (default_chars x) v (MyXactFlags x) (prepareGID x) (CurrentUserId x)
    (SecurityRestrictionContext x) (CurrentResourceOwner x) (CurTransactionResourceOwner x)
    (TopTransactionResourceOwner x) (xactStartTimestamp x) (stmtStartTimestamp x)
    (xactStopTimestamp x) (xact_is_sampled x) (ParallelWorkerNumber x) (xact_started x).
Definition set_MyXactFlags (v : Z) (x : Core) : Core :=
  mkCore (stack x) (currentSubTransactionId x) (currentCommandId x) (currentCommandIdUsed x)
    (XactTopFullTransactionId x) (nParallelCurrentXids x) (unreportedXids x) (xact_chars x)
    (save_chars x) (default_chars x) (forceSyncCommit x) v (prepareGID x) (CurrentUserId x)
    (SecurityRestrictionContext x) (CurrentResourceOwner x) (CurTransactionResourceOwner x)
    (TopTransactionResourceOwner x) (xactStartTimestamp x) (stmtStartTimestamp x)
    (xactStopTimestamp x) (xact_is_sampled x) (ParallelWorkerNumber x) (xact_started x).
Definition set_prepareGID (v : option string) (x : Core) : Core :=
  mkCore (stack x) (currentSubTransactionId x) (currentCommandId x) (currentCommandIdUsed x)
    (XactTopFullTransactionId x) (nParallelCurrentXids x) (unreportedXids x) (xact_chars x)
    (save_chars x) (default_chars x) (forceSyncCommit x) (MyXactFlags x) v (CurrentUserId x)
    (SecurityRestrictionContext x) (CurrentResourceOwner x) (CurTransactionResourceOwner x)
    (TopTransactionResourceOwner x) (xactStartTimestamp x) (stmtStartTimestamp x)
    (xactStopTimestamp x) (xact_is_sampled x) (ParallelWorkerNumber x) (xact_started x).
Definition set_CurrentUserId (v : Z) (x : Core) : Core :=
  mkCore (stack x) (currentSubTransactionId x) (currentCommandId x) (currentCommandIdUsed x)
    (XactTopFullTransactionId x) (nParallelCurrentXids x) (unreportedXids x) (xact_chars x)
    (save_chars x) (default_chars x) (forceSyncCommit x) (MyXactFlags x) (prepareGID x) v
    (SecurityRestrictionContext x) (CurrentResourceOwner x) (CurTransactionResourceOwner x)
    (TopTransactionResourceOwner x) (xactStartTimestamp x) (stmtStartTimestamp x)
    (xactStopTimestamp x) (xact_is_sampled x) (ParallelWorkerNumber x) (xact_started x).
Definition set_SecurityRestrictionContext (v : Z) (x : Core) : Core :=
  mkCore (stack x) (currentSubTransactionId x) (currentCommandId x) (currentCommandIdUsed x)
    (XactTopFullTransactionId x) (nParallelCurrentXids x) (unreportedXids x) (xact_chars x)
    (save_chars x) (default_chars x) (forceSyncCommit x) (MyXactFlags x) (prepareGID x)
    (CurrentUserId x) v (CurrentResourceOwner x) (CurTransactionResourceOwner x)
    (TopTransactionResourceOwner x) (xactStartTimestamp x) (stmtStartTimestamp x)
    (xactStopTimestamp x) (xact_is_sampled x) (ParallelWorkerNumber x) (xact_started x).
Definition set_CurrentResourceOwner (v : option Z) (x : Core) : Core :=
  mkCore (stack x) (currentSubTransactionId x) (currentCommandId x) (currentCommandIdUsed x)
    (XactTopFullTransactionId x) (nParallelCurrentXids x) (unreportedXids x) (xact_chars x)
    (save_chars x) (default_chars x) (forceSyncCommit x) (MyXactFlags x) (prepareGID x)
    (CurrentUserId x) (SecurityRestrictionContext x) v (CurTransactionResourceOwner x)
    (TopTransactionResourceOwner x) (xactStartTimestamp x) (stmtStartTimestamp x)
    (xactStopTimestamp x) (xact_is_sampled x) (ParallelWorkerNumber x) (xact_started x).
Definition set_CurTransactionResourceOwner (v : option Z) (x : Core) : Core :=
  mkCore (stack x) (currentSubTransactionId x) (currentCommandId x) (currentCommandIdUsed x)
    (XactTopFullTransactionId x) (nParallelCurrentXids x) (unreportedXids x) (xact_chars x)
    (save_chars x) (default_chars x) (forceSyncCommit x) (MyXactFlags x) (prepareGID x)
    (CurrentUserId x) (SecurityRestrictionContext x) (CurrentResourceOwner x) v
    (TopTransactionResourceOwner x) (xactStartTimestamp x) (stmtStartTimestamp x)
    (xactStopTimestamp x) (xact_is_sampled x) (ParallelWorkerNumber x) (xact_started x).
Definition set_TopTransactionResourceOwner (v : option Z) (x : Core) : Core :=
  mkCore (stack x) (currentSubTransactionId x) (currentCommandId x) (currentCommandIdUsed x)
    (XactTopFullTransactionId x) (nParallelCurrentXids x) (unreportedXids x) (xact_chars x)
    (save_chars x) (default_chars x) (forceSyncCommit x) (MyXactFlags x) (prepareGID x)
    (CurrentUserId x) (SecurityRestrictionContext x) (CurrentResourceOwner x)
    (CurTransactionResourceOwner x) v (xactStartTimestamp x) (stmtStartTimestamp x)
    (xactStopTimestamp x) (xact_is_sampled x) (ParallelWorkerNumber x) (xact_started x).
Definition set_xactStartTimestamp (v : Z) (x : Core) : Core :=
  mkCore (stack x) (currentSubTransactionId x) (currentCommandId x) (currentCommandIdUsed x)
    (XactTopFullTransactionId x) (nParallelCurrentXids x) (unreportedXids x) (xact_chars x)
    (save_chars x) (default_chars x) (forceSyncCommit x) (MyXactFlags x) (prepareGID x)
    (CurrentUserId x) (SecurityRestrictionContext x) (CurrentResourceOwner x)
    (CurTransactionResourceOwner x) (TopTransactionResourceOwner x) v (stmtStartTimestamp x)
    (xactStopTimestamp x) (xact_is_sampled x) (ParallelWorkerNumber x) (xact_started x).
Definition set_stmtStartTimestamp (v : Z) (x : Core) : Core :=
  mkCore (stack x) (currentSubTransactionId x) (currentCommandId x) (currentCommandIdUsed x)
    (XactTopFullTransactionId x) (nParallelCurrentXids x) (unreportedXids x) (xact_chars x)
    (save_chars x) (default_chars x) (forceSyncCommit x) (MyXactFlags x) (prepareGID x)
    (CurrentUserId x) (SecurityRestrictionContext x) (CurrentResourceOwner x)
    (CurTransactionResourceOwner x) (TopTransactionResourceOwner x) (xactStartTimestamp x) v
    (xactStopTimestamp x) (xact_is_sampled x) (ParallelWorkerNumber x) (xact_started x).
Definition set_xactStopTimestamp (v : Z) (x : Core) : Core :=
  mkCore (stack x) (currentSubTransactionId x) (currentCommandId x) (currentCommandIdUsed x)
    (XactTopFullTransactionId x) (nParallelCurrentXids x) (unreportedXids x) (xact_chars x)
    (save_chars x) (default_chars x) (forceSyncCommit x) (MyXactFlags x) (prepareGID x)
    (CurrentUserId x) (SecurityRestrictionContext x) (CurrentResourceOwner x)
    (CurTransactionResourceOwner x) (TopTransactionResourceOwner x) (xactStartTimestamp x)
    (stmtStartTimestamp x) v (xact_is_sampled x) (ParallelWorkerNumber x) (xact_started x).
Definition set_xact_is_sampled (v : bool) (x : Core) : Core :=
  mkCore (stack x) (currentSubTransactionId x) (currentCommandId x) (currentCommandIdUsed x)
    (XactTopFullTransactionId x) (nParallelCurrentXids x) (unreportedXids x) (xact_chars x)
    (save_chars x) (default_chars x) (forceSyncCommit x) (MyXactFlags x) (prepareGID x)
    (CurrentUserId x) (SecurityRestrictionContext x) (CurrentResourceOwner x)
    (CurTransactionResourceOwner x) (TopTransactionResourceOwner x) (xactStartTimestamp x)
    (stmtStartTimestamp x) (xactStopTimestamp x) v (ParallelWorkerNumber x) (xact_started x).
Definition set_xact_started (v : bool) (x : Core) : Core :=
  mkCore (stack x) (currentSubTransactionId x) (currentCommandId x) (currentCommandIdUsed x)
    (XactTopFullTransactionId x) (nParallelCurrentXids x) (unreportedXids x) (xact_chars x)
    (save_chars x) (default_chars x) (forceSyncCommit x) (MyXactFlags x) (prepareGID x)
    (CurrentUserId x) (SecurityRestrictionContext x) (CurrentResourceOwner x)
    (CurTransactionResourceOwner x) (TopTransactionResourceOwner x) (xactStartTimestamp x)
    (stmtStartTimestamp x) (xactStopTimestamp x) (xact_is_sampled x) (ParallelWorkerNumber x) v.

Definition set_XactReadOnly (v : bool) (x : Core) : Core :=
  set_xact_chars {| IsoLevel := IsoLevel (xact_chars x); ReadOnly := v;
                    Deferrable := Deferrable (xact_chars x) |} x.

Definition InvalidSubTransactionId : Z := 0.
Definition TopSubTransactionId : Z := 1.
Definition FirstCommandId : Z := 0.
Definition InvalidCommandId : Z := 2 ^ 32 - 1.
Definition XACT_FLAGS_ACCESSEDTEMPNAMESPACE : Z := 1.
Definition XACT_FLAGS_NEEDIMMEDIATECOMMIT : Z := 4.
Definition XACT_FLAGS_PIPELINING : Z := 8.
Definition PGPROC_MAX_CACHED_SUBXIDS : Z := 64.
Definition MaxChildXids : Z := 1073741823 / 4.
Definition InvalidFullTransactionId : Z := 0.

Definition XidFromFullTransactionId (x : Z) : Z := u32 x.
Definition FullTransactionIdIsValid (x : Z) : bool := negb (XidFromFullTransactionId x =? 0).

(** * Effects *)

(** How a routine can leave other than by returning: [ereport(ERROR)] (also an
    error raised by another module), [elog(ERROR)] and [elog(FATAL)] (the code's
    own can't-happen reports), a failed Assert, or a loop that does not end. *)
Inductive exit :=
| EReport (msg : string) | EElog (msg : string) | EFatal (msg : string) | EAssert (msg : string)
| EDiverges.

(** [notices] are the user-level warnings, [internal] the elog(WARNING)s. *)
Record Xact (W : Type) := mkXact {
  core : Core; world : W; notices : list string; internal : list string }.
Arguments mkXact {W}. Arguments core {W}. Arguments world {W}.
Arguments notices {W}. Arguments internal {W}.

Record Subsystems (W : Type) := {
  subsys : string -> list Z -> W -> Z * W + string;
  portal_rounds : nat }.
Arguments subsys {W}. Arguments portal_rounds {W}.

Definition X (W A : Type) := Xact W -> (A + exit) * Xact W.

#[export] Instance X_ret {W} : MRet (X W) := fun A a x => (inl a, x).
#[export] Instance X_bind {W} : MBind (X W) := fun A B k m x =>
  match m x with
  | (inl a, x') => k a x'
  | (inr e, x') => (inr e, x')
  end.

Definition throw {W A} (e : exit) : X W A := fun x => (inr e, x).
Definition get {W} : X W Core := fun x => (inl (core x), x).
Definition modify {W} (f : Core -> Core) : X W unit := fun x =>
  (inl tt, mkXact (f (core x)) (world x) (notices x) (internal x)).
Definition Assert {W} (b : bool) (what : string) : X W unit :=
  if b then mret tt else throw (EAssert what).
Definition elog_warning {W} (msg : string) : X W unit := fun x =>
  (inl tt, mkXact (core x) (world x) (notices x) (internal x ++ [msg])).
Definition ereport_warning {W} (msg : string) : X W unit := fun x =>
  (inl tt, mkXact (core x) (world x) (notices x ++ [msg]) (internal x)).

Definition when {W} (b : bool) (m : X W unit) : X W unit := if b then m else mret tt.

Definition b2z (b : bool) : Z := if b then 1 else 0.

(** The current transaction state, and an assignment to its fields. *)
Definition CurrentTransactionState {W} : X W TransactionStateData :=
  c ← get;
  match stack c with
  | s :: _ => mret s
  | [] => throw (EAssert "CurrentTransactionState")
  end.

Definition on_top (f : TransactionStateData -> TransactionStateData) (c : Core) : Core :=
  match stack c with
  | s :: rest => set_stack (f s :: rest) c
  | [] => c
  end.

Definition upd_cur {W} (f : TransactionStateData -> TransactionStateData) : X W unit :=
  modify (on_top f).

(** [s->parent]; following a null pointer is a failed assertion here. *)
Definition parent_state {W} : X W TransactionStateData :=
  c ← get;
  match stack c with
  | _ :: p :: _ => mret p
  | _ => throw (EAssert "s->parent")
  end.

Definition IsInParallelMode {W} : X W bool :=
  s ← CurrentTransactionState; mret (negb (parallelModeLevel s =? 0)).

Definition is_state (t : TransState) (s : TransactionStateData) : bool :=
  bool_decide (state s = t).
Definition is_block (b : TBlockState) (s : TransactionStateData) : bool :=
  bool_decide (blockState s = b).

Section routines.
Context {W : Type} (E : Subsystems W).

(** A call into another module. *)
Definition sub (f : string) (args : list Z) : X W Z := fun x =>
  match E.(subsys) f args (world x) with
  | inl (v, w) => (inl v, mkXact (core x) w (notices x) (internal x))
  | inr msg => (inr (EReport msg), x)
  end.

Fixpoint calls (l : list (string * list Z)) : X W unit :=
  match l with
  | [] => mret tt
  | (f, args) :: l => sub f args;; calls l
  end.

(** * Resource owners and child XIDs *)
Definition AtStart_ResourceOwner : X W unit :=
  c ← get;
  Assert (bool_decide (TopTransactionResourceOwner c = None)) "TopTransactionResourceOwner == NULL";;
  o ← sub "ResourceOwnerCreate" [];
  upd_cur (set_curTransactionOwner (Some o));;
  modify (set_TopTransactionResourceOwner (Some o));;
  modify (set_CurTransactionResourceOwner (Some o));;
  modify (set_CurrentResourceOwner (Some o)).

Definition AtSubStart_ResourceOwner : X W unit :=
  p ← parent_state;
  o ← sub "ResourceOwnerCreate" [default 0 (curTransactionOwner p)];
  upd_cur (set_curTransactionOwner (Some o));;
  modify (set_CurTransactionResourceOwner (Some o));;
  modify (set_CurrentResourceOwner (Some o)).

Definition AtAbort_ResourceOwner : X W unit :=
  modify (fun c => set_CurrentResourceOwner (TopTransactionResourceOwner c) c).

Definition AtSubAbort_ResourceOwner : X W unit :=
  s ← CurrentTransactionState;
  modify (set_CurrentResourceOwner (curTransactionOwner s)).

Definition AtSubAbort_childXids : X W unit :=
  upd_cur (fun s => set_maxChildXids 0 (set_childXids [] s)).

(** The parent's array is enlarged (an allocation, which can fail) and gets the
    XID of the subtransaction and then its children's. *)
Definition AtSubCommit_childXids : X W unit :=
  s ← CurrentTransactionState;
  p ← parent_state;
  let new_nChildXids := len (childXids p) + len (childXids s) + 1 in
  (if maxChildXids p <? new_nChildXids
   then
     let new_maxChildXids := Z.min (new_nChildXids * 2) MaxChildXids in
     if new_maxChildXids <? new_nChildXids
     then throw (EReport "maximum number of committed subtransactions exceeded")
     else
       sub "MemoryContextAlloc" [new_maxChildXids * 4];;
       modify (fun c => match stack c with
                        | s :: p :: r => set_stack (s :: set_maxChildXids new_maxChildXids p :: r) c
                        | _ => c end)
   else mret tt);;
  modify (fun c => match stack c with
    | s :: p :: r =>
        set_stack (s :: set_childXids (childXids p ++ XidFromFullTransactionId (fullTransactionId s)
                                         :: childXids s) p :: r) c
    | _ => c end);;
  upd_cur (fun s => set_maxChildXids 0 (set_childXids [] s)).

(** * Command counter and XIDs *)
Definition CommandCounterIncrement : X W unit :=
  c ← get;
  if currentCommandIdUsed c then
    par ← IsInParallelMode;
    if par || (0 <=? ParallelWorkerNumber c)
    then throw (EElog "cannot start commands during a parallel operation")
    else
      let id := u32 (currentCommandId c + 1) in
      if id =? InvalidCommandId
      then throw (EReport "cannot have more than 2^32-2 commands in a transaction")
      else
        modify (set_currentCommandId id);;
        modify (set_currentCommandIdUsed false);;
        calls [("SnapshotSetCommandId", [id]); ("AtCCI_LocalCache", [])]
  else mret tt.

Definition GetCurrentCommandId (used : bool) : X W Z :=
  (if used
   then c ← get; Assert (ParallelWorkerNumber c <? 0) "!IsParallelWorker()";;
        modify (set_currentCommandIdUsed true)
   else mret tt);;
  c ← get; mret (currentCommandId c).

(** The levels of the stack by their distance [k] from the current one. *)
Definition level (k : nat) : X W TransactionStateData :=
  c ← get;
  match stack c !! k with Some s => mret s | None => throw (EAssert "TransactionState") end.

Definition upd_level (k : nat) (f : TransactionStateData -> TransactionStateData) : X W unit :=
  modify (fun c => set_stack (alter f k (stack c)) c).

(** The last part of [AssignTransactionId]: the parents have their XIDs. *)
Definition assign_xid (k : nat) (isSubXact log_unknown_top : bool) : X W unit :=
  x ← sub "GetNewTransactionId" [b2z isSubXact];
  upd_level k (set_fullTransactionId x);;
  (if isSubXact
   then p ← level (S k);
        sub "SubTransSetParent" [XidFromFullTransactionId x;
                                 XidFromFullTransactionId (fullTransactionId p)]
   else modify (set_XactTopFullTransactionId x);;
        sub "RegisterPredicateLockingXid" [XidFromFullTransactionId x]);;
  c ← get;
  let currentOwner := CurrentResourceOwner c in
  s ← level k;
  modify (set_CurrentResourceOwner (curTransactionOwner s));;
  sub "XactLockTableInsert" [XidFromFullTransactionId x];;
  modify (set_CurrentResourceOwner currentOwner);;
  standby ← sub "XLogStandbyInfoActive" [];
  if isSubXact && negb (standby =? 0) then
    modify (fun c => set_unreportedXids (unreportedXids c ++ [XidFromFullTransactionId x]) c);;
    c ← get;
    if (PGPROC_MAX_CACHED_SUBXIDS <=? len (unreportedXids c)) || log_unknown_top then
      sub "XLogInsert" (XidFromFullTransactionId (XactTopFullTransactionId c) :: unreportedXids c);;
      modify (set_unreportedXids []);;
      upd_level (pred (length (stack c))) (set_didLogXid true)
    else mret tt
  else mret tt.

(** [AssignTransactionId] of the level at distance [k].  [depth] bounds the
    number of ancestors: the source walks up to the outermost ancestor without
    an XID and assigns on the way down. *)
Fixpoint AssignTransactionId (depth : nat) (k : nat) : X W unit :=
  s ← level k;
  c ← get;
  let isSubXact := bool_decide (S k < length (stack c))%nat in
  Assert (negb (FullTransactionIdIsValid (fullTransactionId s))) "!FullTransactionIdIsValid";;
  Assert (is_state TRANS_INPROGRESS s) "s->state == TRANS_INPROGRESS";;
  par ← IsInParallelMode;
  (if par || (0 <=? ParallelWorkerNumber c)
   then throw (EElog "cannot assign XIDs during a parallel operation")
   else mret tt);;
  (if isSubXact then
     p ← level (S k);
     if FullTransactionIdIsValid (fullTransactionId p) then mret tt
     else match depth with
          | O => throw EDiverges
          | S depth => AssignTransactionId depth (S k)
          end
   else mret tt);;
  logical ← sub "XLogLogicalInfoActive" [];
  top ← level (pred (length (stack c)));
  assign_xid k isSubXact (isSubXact && negb (logical =? 0) && negb (didLogXid top)).

Definition GetCurrentTransactionId : X W Z :=
  s ← CurrentTransactionState;
  c ← get;
  (if FullTransactionIdIsValid (fullTransactionId s) then mret tt
   else AssignTransactionId (length (stack c)) 0);;
  s ← CurrentTransactionState;
  mret (XidFromFullTransactionId (fullTransactionId s)).

(** * Top-level transactions *)

(** [StartTransaction] with the state stack emptied first. *)
Definition StartTransaction : X W unit :=
  modify (fun c => set_stack (drop (pred (length (stack c))) (stack c)) c);;
  c ← get;
  Assert (negb (FullTransactionIdIsValid (XactTopFullTransactionId c))) "XactTopFullTransactionId";;
  s ← CurrentTransactionState;
  Assert (is_state TRANS_DEFAULT s) "s->state == TRANS_DEFAULT";;
  upd_cur (fun s => set_fullTransactionId InvalidFullTransactionId (set_state TRANS_START s));;
  sampled ← sub "log_xact_sample" [];
  modify (set_xact_is_sampled (negb (sampled =? 0)));;
  upd_cur (fun s => set_maxChildXids 0 (set_childXids [] (set_gucNestLevel 1 (set_nestingLevel 1 s))));;
  upd_cur (fun s => set_prevSecContext (SecurityRestrictionContext c)
                      (set_prevUser (CurrentUserId c) s));;
  Assert (SecurityRestrictionContext c =? 0) "s->prevSecContext == 0";;
  recovery ← sub "RecoveryInProgress" [];
  upd_cur (set_startedInRecovery (negb (recovery =? 0)));;
  modify (set_xact_chars
    {| IsoLevel := IsoLevel (default_chars c);
       ReadOnly := if negb (recovery =? 0) then true else ReadOnly (default_chars c);
       Deferrable := Deferrable (default_chars c) |});;
  modify (fun c => set_MyXactFlags 0 (set_forceSyncCommit false c));;
  upd_cur (set_subTransactionId TopSubTransactionId);;
  modify (set_currentSubTransactionId TopSubTransactionId);;
  modify (fun c => set_currentCommandIdUsed false (set_currentCommandId FirstCommandId c));;
  modify (set_unreportedXids []);;
  upd_cur (set_didLogXid false);;
  sub "AtStart_Memory" [];;
  AtStart_ResourceOwner;;
  lxid ← sub "GetNextLocalTransactionId" [];
  calls [("VirtualXactLockTableInsert", [lxid]); ("MyProc->lxid", [lxid])];;
  (if ParallelWorkerNumber c <? 0 then
     nonatomic ← sub "SPI_inside_nonatomic_context" [];
     if nonatomic =? 0 then modify (set_xactStartTimestamp (stmtStartTimestamp c))
     else t ← sub "GetCurrentTimestamp" []; modify (set_xactStartTimestamp t)
   else Assert (negb (xactStartTimestamp c =? 0)) "xactStartTimestamp != 0");;
  c ← get;
  sub "pgstat_report_xact_timestamp" [xactStartTimestamp c];;
  modify (set_xactStopTimestamp 0);;
  calls [("AtStart_GUC", []); ("AtStart_Cache", []); ("AfterTriggerBeginXact", [])];;
  upd_cur (set_state TRANS_INPROGRESS).

(** Fire deferred triggers and close portals until there are none left. *)
Fixpoint fire_deferred (fuel : nat) (isPrepare : bool) : X W unit :=
  match fuel with
  | O => throw EDiverges
  | S fuel =>
      sub "AfterTriggerFireDeferred" [];;
      more ← sub "PreCommit_Portals" [b2z isPrepare];
      if more =? 0 then mret tt else fire_deferred fuel isPrepare
  end.

(** The end of [CommitTransaction], [PrepareTransaction] and
    [CleanupTransaction]: the state fields are reset. *)
Definition reset_xact_fields (s : TransactionStateData) : TransactionStateData :=
  set_maxChildXids 0 (set_childXids [] (set_gucNestLevel 0 (set_nestingLevel 0
    (set_subTransactionId InvalidSubTransactionId
      (set_fullTransactionId InvalidFullTransactionId s))))).

Definition forget_owners : X W unit :=
  upd_cur (set_curTransactionOwner None);;
  modify (set_CurTransactionResourceOwner None);;
  modify (set_TopTransactionResourceOwner None).

Definition reset_xids : X W unit :=
  modify (set_XactTopFullTransactionId InvalidFullTransactionId);;
  modify (set_nParallelCurrentXids 0).

Definition check_state (routine : string) (t : TransState) : X W unit :=
  s ← CurrentTransactionState;
  if is_state t s then mret tt else elog_warning (routine ++ " while in unexpected state").

Definition assert_no_parent : X W unit :=
  c ← get; Assert (bool_decide (length (stack c) <= 1)%nat) "s->parent == NULL".

Definition owner_id (o : option Z) : Z := default 0 o.

Definition CommitTransaction : X W unit :=
  s ← CurrentTransactionState;
  let is_parallel_worker := is_block TBLOCK_PARALLEL_INPROGRESS s in
  (if is_parallel_worker
   then upd_cur (fun s => set_parallelModeLevel (parallelModeLevel s + 1) s) else mret tt);;
  check_state "CommitTransaction" TRANS_INPROGRESS;;
  assert_no_parent;;
  fire_deferred (portal_rounds E) false;;
  sub "CallXactCallbacks:PRE_COMMIT" [b2z is_parallel_worker];;
  par ← IsInParallelMode;
  when par (calls [("AtEOXact_Parallel", [1])]);;
  calls [("AfterTriggerEndXact", [1]); ("PreCommit_on_commit_actions", []);
         ("smgrDoPendingSyncs", [1; b2z is_parallel_worker]); ("AtEOXact_LargeObject", [1]);
         ("PreCommit_Notify", [])];;
  (if is_parallel_worker then mret tt
   else calls [("PreCommit_CheckForSerializationFailure", [])]);;
  sub "AtEOXact_RelationMap" [1; b2z is_parallel_worker];;
  upd_cur (fun s => set_parallelModeLevel 0 (set_state TRANS_COMMIT s));;
  latestXid ← (if is_parallel_worker then calls [("ParallelWorkerReportLastRecEnd", [])];; mret 0
               else sub "RecordTransactionCommit" []);
  c ← get;
  let top := owner_id (TopTransactionResourceOwner c) in
  calls [("ProcArrayEndTransaction", [latestXid]);
         ("CallXactCallbacks:COMMIT", [b2z is_parallel_worker]);
         ("ResourceOwnerRelease:BEFORE_LOCKS", [top; 1; 1]);
         ("AtEOXact_Buffers", [1]); ("AtEOXact_RelationCache", [1]); ("AtEOXact_Inval", [1]);
         ("AtEOXact_MultiXact", []);
         ("ResourceOwnerRelease:LOCKS", [top; 1; 1]);
         ("ResourceOwnerRelease:AFTER_LOCKS", [top; 1; 1]);
         ("smgrDoPendingDeletes", [1]); ("AtCommit_Notify", []);
         ("AtEOXact_GUC", [1; 1]); ("AtEOXact_SPI", [1]); ("AtEOXact_Enum", []);
         ("AtEOXact_on_commit_actions", [1]); ("AtEOXact_Namespace", [1; b2z is_parallel_worker]);
         ("AtEOXact_SMgr", []); ("AtEOXact_Files", [1]); ("AtEOXact_ComboCid", []);
         ("AtEOXact_HashTables", [1]); ("AtEOXact_PgStat", [1; b2z is_parallel_worker]);
         ("AtEOXact_Snapshot", [1; 0]); ("AtEOXact_ApplyLauncher", [1]);
         ("pgstat_report_xact_timestamp", [0])];;
  modify (set_CurrentResourceOwner None);;
  sub "ResourceOwnerDelete" [top];;
  forget_owners;;
  sub "AtCommit_Memory" [];;
  upd_cur reset_xact_fields;;
  reset_xids;;
  upd_cur (set_state TRANS_DEFAULT).

Definition PrepareTransaction : X W unit :=
  xid ← GetCurrentTransactionId;
  par ← IsInParallelMode;
  Assert (negb par) "!IsInParallelMode()";;
  check_state "PrepareTransaction" TRANS_INPROGRESS;;
  assert_no_parent;;
  fire_deferred (portal_rounds E) true;;
  calls [("CallXactCallbacks:PRE_PREPARE", []); ("AfterTriggerEndXact", [1]);
         ("PreCommit_on_commit_actions", []); ("smgrDoPendingSyncs", [1; 0]);
         ("AtEOXact_LargeObject", [1]); ("PreCommit_CheckForSerializationFailure", [])];;
  c ← get;
  (if negb (Z.land (MyXactFlags c) XACT_FLAGS_ACCESSEDTEMPNAMESPACE =? 0)
   then throw (EReport "cannot PREPARE a transaction that has operated on temporary objects")
   else mret tt);;
  exported ← sub "XactHasExportedSnapshots" [];
  (if negb (exported =? 0)
   then throw (EReport "cannot PREPARE a transaction that has exported snapshots") else mret tt);;
  upd_cur (set_state TRANS_PREPARE);;
  prepared_at ← sub "GetCurrentTimestamp" [];
  sub "BufmgrCommit" [];;
  gxact ← sub "MarkAsPreparing" [xid; prepared_at; CurrentUserId c];
  modify (set_prepareGID None);;
  let top := owner_id (TopTransactionResourceOwner c) in
  calls [("StartPrepare", [gxact]); ("AtPrepare_Notify", []); ("AtPrepare_Locks", []);
         ("AtPrepare_PredicateLocks", []); ("AtPrepare_PgStat", []); ("AtPrepare_MultiXact", []);
         ("AtPrepare_RelationMap", []); ("EndPrepare", [gxact]); ("XactLastRecEnd = 0", []);
         ("PostPrepare_Locks", [xid]); ("ProcArrayClearTransaction", []);
         ("CallXactCallbacks:PREPARE", []); ("ResourceOwnerRelease:BEFORE_LOCKS", [top; 1; 1]);
         ("AtEOXact_Buffers", [1]); ("AtEOXact_RelationCache", [1]); ("PostPrepare_PgStat", []);
         ("PostPrepare_Inval", []); ("PostPrepare_smgr", []); ("PostPrepare_MultiXact", [xid]);
         ("PostPrepare_PredicateLocks", [xid]); ("ResourceOwnerRelease:LOCKS", [top; 1; 1]);
         ("ResourceOwnerRelease:AFTER_LOCKS", [top; 1; 1]); ("PostPrepare_Twophase", []);
         ("AtEOXact_GUC", [1; 1]); ("AtEOXact_SPI", [1]); ("AtEOXact_Enum", []);
         ("AtEOXact_on_commit_actions", [1]); ("AtEOXact_Namespace", [1; 0]);
         ("AtEOXact_SMgr", []); ("AtEOXact_Files", [1]); ("AtEOXact_ComboCid", []);
         ("AtEOXact_HashTables", [1]); ("AtEOXact_Snapshot", [1; 1]);
         ("pgstat_report_xact_timestamp", [0])];;
  modify (set_CurrentResourceOwner None);;
  sub "ResourceOwnerDelete" [top];;
  forget_owners;;
  sub "AtCommit_Memory" [];;
  upd_cur reset_xact_fields;;
  reset_xids;;
  upd_cur (set_state TRANS_DEFAULT).

(** The first steps of an abort, of a transaction or of a subtransaction. *)
Definition abort_first_steps : X W unit :=
  calls [("LWLockReleaseAll", []); ("pgstat_report_wait_end", []);
         ("pgstat_progress_end_command", []); ("AbortBufferIO", []); ("UnlockBuffers", []);
         ("XLogResetInsertion", []); ("ConditionVariableCancelSleep", []);
         ("LockErrorCleanup", []); ("reschedule_timeouts", []); ("PG_SETMASK", [])].

Definition SetUserIdAndSecContext (userid sec : Z) : X W unit :=
  modify (fun c => set_SecurityRestrictionContext sec (set_CurrentUserId userid c)).

Definition AbortTransaction : X W unit :=
  sub "AtAbort_Memory" [];;
  AtAbort_ResourceOwner;;
  abort_first_steps;;
  s ← CurrentTransactionState;
  let is_parallel_worker := is_block TBLOCK_PARALLEL_INPROGRESS s in
  (if is_state TRANS_INPROGRESS s || is_state TRANS_PREPARE s then mret tt
   else elog_warning "AbortTransaction while in unexpected state");;
  assert_no_parent;;
  upd_cur (set_state TRANS_ABORT);;
  SetUserIdAndSecContext (prevUser s) (prevSecContext s);;
  calls [("ResetReindexState", [nestingLevel s]); ("ResetLogicalStreamingState", []);
         ("SnapBuildResetExportedSnapshotState", [])];;
  par ← IsInParallelMode;
  when par (sub "AtEOXact_Parallel" [0];; upd_cur (set_parallelModeLevel 0));;
  calls [("AfterTriggerEndXact", [0]); ("AtAbort_Portals", []);
         ("smgrDoPendingSyncs", [0; b2z is_parallel_worker]); ("AtEOXact_LargeObject", [0]);
         ("AtAbort_Notify", []); ("AtEOXact_RelationMap", [0; b2z is_parallel_worker]);
         ("AtAbort_Twophase", [])];;
  latestXid ← (if is_parallel_worker then sub "XLogSetAsyncXactLSN" [];; mret 0
               else sub "RecordTransactionAbort" [0]);
  sub "ProcArrayEndTransaction" [latestXid];;
  c ← get;
  match TopTransactionResourceOwner c with
  | None => mret tt
  | Some top =>
      calls [("CallXactCallbacks:ABORT", [b2z is_parallel_worker]);
             ("ResourceOwnerRelease:BEFORE_LOCKS", [top; 0; 1]); ("AtEOXact_Buffers", [0]);
             ("AtEOXact_RelationCache", [0]); ("AtEOXact_Inval", [0]); ("AtEOXact_MultiXact", []);
             ("ResourceOwnerRelease:LOCKS", [top; 0; 1]);
             ("ResourceOwnerRelease:AFTER_LOCKS", [top; 0; 1]); ("smgrDoPendingDeletes", [0]);
             ("AtEOXact_GUC", [0; 1]); ("AtEOXact_SPI", [0]); ("AtEOXact_Enum", []);
             ("AtEOXact_on_commit_actions", [0]);
             ("AtEOXact_Namespace", [0; b2z is_parallel_worker]); ("AtEOXact_SMgr", []);
             ("AtEOXact_Files", [0]); ("AtEOXact_ComboCid", []); ("AtEOXact_HashTables", [0]);
             ("AtEOXact_PgStat", [0; b2z is_parallel_worker]); ("AtEOXact_ApplyLauncher", [0]);
             ("pgstat_report_xact_timestamp", [0])]
  end.

Definition CleanupTransaction : X W unit :=
  s ← CurrentTransactionState;
  if negb (is_state TRANS_ABORT s) then throw (EFatal "CleanupTransaction: unexpected state")
  else
    calls [("AtCleanup_Portals", []); ("AtEOXact_Snapshot", [0; 1])];;
    modify (set_CurrentResourceOwner None);;
    c ← get;
    (match TopTransactionResourceOwner c with
     | Some top => calls [("ResourceOwnerDelete", [top])]
     | None => mret tt
     end);;
    forget_owners;;
    assert_no_parent;;
    sub "AtCleanup_Memory" [];;
    upd_cur (fun s => set_parallelModeLevel 0 (reset_xact_fields s));;
    reset_xids;;
    upd_cur (set_state TRANS_DEFAULT).

(** * Subtransactions *)
Definition new_substate (p : TransactionStateData) (subid guc : Z) (c : Core)
  : TransactionStateData :=
  {| fullTransactionId := InvalidFullTransactionId; subTransactionId := subid; name := None;
     savepointLevel := savepointLevel p; state := TRANS_DEFAULT; blockState := TBLOCK_SUBBEGIN;
     nestingLevel := nestingLevel p + 1; gucNestLevel := guc; curTransactionOwner := None;
     childXids := []; maxChildXids := 0; prevUser := CurrentUserId c;
     prevSecContext := SecurityRestrictionContext c; prevXactReadOnly := ReadOnly (xact_chars c);
     startedInRecovery := false; didLogXid := false; parallelModeLevel := 0; chain := false;
     assigned := false |}.

Definition PushTransaction : X W unit :=
  p ← CurrentTransactionState;
  sub "MemoryContextAllocZero" [];;
  modify (fun c => set_currentSubTransactionId (u32 (currentSubTransactionId c + 1)) c);;
  c ← get;
  if currentSubTransactionId c =? InvalidSubTransactionId then
    modify (fun c => set_currentSubTransactionId (u32 (currentSubTransactionId c - 1)) c);;
    throw (EReport "cannot have more than 2^32-1 subtransactions in a transaction")
  else
    guc ← sub "NewGUCNestLevel" [];
    modify (fun c => set_stack (new_substate p (currentSubTransactionId c) guc c :: stack c) c).

Definition PopTransaction : X W unit :=
  check_state "PopTransaction" TRANS_DEFAULT;;
  c ← get;
  match stack c with
  | _ :: p :: rest =>
      modify (set_stack (p :: rest));;
      modify (fun c => set_CurrentResourceOwner (curTransactionOwner p)
                         (set_CurTransactionResourceOwner (curTransactionOwner p) c))
  | _ => throw (EFatal "PopTransaction with no parent")
  end.

Definition StartSubTransaction : X W unit :=
  check_state "StartSubTransaction" TRANS_DEFAULT;;
  upd_cur (set_state TRANS_START);;
  sub "AtSubStart_Memory" [];;
  AtSubStart_ResourceOwner;;
  sub "AfterTriggerBeginSubXact" [];;
  upd_cur (set_state TRANS_INPROGRESS);;
  s ← CurrentTransactionState;
  p ← parent_state;
  sub "CallSubXactCallbacks:START_SUB" [subTransactionId s; subTransactionId p];;
  mret tt.

Definition CommitSubTransaction : X W unit :=
  check_state "CommitSubTransaction" TRANS_INPROGRESS;;
  s ← CurrentTransactionState;
  p ← parent_state;
  let my := subTransactionId s in
  let up := subTransactionId p in
  sub "CallSubXactCallbacks:PRE_COMMIT_SUB" [my; up];;
  par ← IsInParallelMode;
  when par (sub "AtEOSubXact_Parallel" [1; my];; upd_cur (set_parallelModeLevel 0));;
  upd_cur (set_state TRANS_COMMIT);;
  CommandCounterIncrement;;
  (if FullTransactionIdIsValid (fullTransactionId s) then AtSubCommit_childXids else mret tt);;
  let o := owner_id (curTransactionOwner s) in
  calls [("AfterTriggerEndSubXact", [1]);
         ("AtSubCommit_Portals", [my; up; nestingLevel p; owner_id (curTransactionOwner p)]);
         ("AtEOSubXact_LargeObject", [1; my; up]); ("AtSubCommit_Notify", []);
         ("CallSubXactCallbacks:COMMIT_SUB", [my; up]);
         ("ResourceOwnerRelease:BEFORE_LOCKS", [o; 1; 0]);
         ("AtEOSubXact_RelationCache", [1; my; up]); ("AtEOSubXact_Inval", [1]);
         ("AtSubCommit_smgr", [])];;
  modify (set_CurrentResourceOwner (curTransactionOwner s));;
  (if FullTransactionIdIsValid (fullTransactionId s)
   then calls [("XactLockTableDelete", [XidFromFullTransactionId (fullTransactionId s)])]
   else mret tt);;
  calls [("ResourceOwnerRelease:LOCKS", [o; 1; 0]); ("ResourceOwnerRelease:AFTER_LOCKS", [o; 1; 0]);
         ("AtEOXact_GUC", [1; gucNestLevel s]); ("AtEOSubXact_SPI", [1; my]);
         ("AtEOSubXact_on_commit_actions", [1; my; up]); ("AtEOSubXact_Namespace", [1; my; up]);
         ("AtEOSubXact_Files", [1; my; up]); ("AtEOSubXact_HashTables", [1; nestingLevel s]);
         ("AtEOSubXact_PgStat", [1; nestingLevel s]); ("AtSubCommit_Snapshot", [nestingLevel s])];;
  modify (set_XactReadOnly (prevXactReadOnly s));;
  modify (set_CurrentResourceOwner (curTransactionOwner p));;
  modify (set_CurTransactionResourceOwner (curTransactionOwner p));;
  sub "ResourceOwnerDelete" [o];;
  upd_cur (set_curTransactionOwner None);;
  sub "AtSubCommit_Memory" [];;
  upd_cur (set_state TRANS_DEFAULT);;
  PopTransaction.

Definition AbortSubTransaction : X W unit :=
  sub "AtSubAbort_Memory" [];;
  AtSubAbort_ResourceOwner;;
  abort_first_steps;;
  check_state "AbortSubTransaction" TRANS_INPROGRESS;;
  upd_cur (set_state TRANS_ABORT);;
  s ← CurrentTransactionState;
  SetUserIdAndSecContext (prevUser s) (prevSecContext s);;
  calls [("ResetReindexState", [nestingLevel s]); ("ResetLogicalStreamingState", [])];;
  let my := subTransactionId s in
  par ← IsInParallelMode;
  when par (sub "AtEOSubXact_Parallel" [0; my];; upd_cur (set_parallelModeLevel 0));;
  (match curTransactionOwner s with
   | None => mret tt
   | Some o =>
       p ← parent_state;
       let up := subTransactionId p in
       calls [("AfterTriggerEndSubXact", [0]);
              ("AtSubAbort_Portals", [my; up; o; owner_id (curTransactionOwner p)]);
              ("AtEOSubXact_LargeObject", [0; my; up]); ("AtSubAbort_Notify", []);
              ("RecordTransactionAbort", [1])];;
       (if FullTransactionIdIsValid (fullTransactionId s) then AtSubAbort_childXids else mret tt);;
       calls [("CallSubXactCallbacks:ABORT_SUB", [my; up]);
              ("ResourceOwnerRelease:BEFORE_LOCKS", [o; 0; 0]);
              ("AtEOSubXact_RelationCache", [0; my; up]); ("AtEOSubXact_Inval", [0]);
              ("ResourceOwnerRelease:LOCKS", [o; 0; 0]);
              ("ResourceOwnerRelease:AFTER_LOCKS", [o; 0; 0]); ("AtSubAbort_smgr", []);
              ("AtEOXact_GUC", [0; gucNestLevel s]); ("AtEOSubXact_SPI", [0; my]);
              ("AtEOSubXact_on_commit_actions", [0; my; up]);
              ("AtEOSubXact_Namespace", [0; my; up]); ("AtEOSubXact_Files", [0; my; up]);
              ("AtEOSubXact_HashTables", [0; nestingLevel s]);
              ("AtEOSubXact_PgStat", [0; nestingLevel s]);
              ("AtSubAbort_Snapshot", [nestingLevel s])]
   end);;
  modify (set_XactReadOnly (prevXactReadOnly s)).

Definition CleanupSubTransaction : X W unit :=
  check_state "CleanupSubTransaction" TRANS_ABORT;;
  s ← CurrentTransactionState;
  sub "AtSubCleanup_Portals" [subTransactionId s];;
  p ← parent_state;
  modify (set_CurrentResourceOwner (curTransactionOwner p));;
  modify (set_CurTransactionResourceOwner (curTransactionOwner p));;
  (match curTransactionOwner s with
   | Some o => calls [("ResourceOwnerDelete", [o])]
   | None => mret tt
   end);;
  upd_cur (set_curTransactionOwner None);;
  sub "AtSubCleanup_Memory" [];;
  upd_cur (set_state TRANS_DEFAULT);;
  PopTransaction.

End routines.

#[export] Instance Characteristics_eq_dec : EqDecision Characteristics.
Proof. solve_decision. Defined.
