(* ===== verification/XactBlock.v ===== *)
(** The transaction manager, part 2 (xact.c): the per-command routines
    ([StartTransactionCommand], [CommitTransactionCommand],
    [AbortCurrentTransaction], [AbortOutOfAnyTransaction]), the transaction
    block commands (BEGIN, COMMIT, ROLLBACK, PREPARE TRANSACTION, SAVEPOINT,
    RELEASE, ROLLBACK TO), internal subtransactions and the status queries.

    [CommitTransactionCommand] and [AbortCurrentTransaction] call themselves
    after popping a level; their fuel is one more than the height of the stack,
    and running out of it is the exit [EDiverges]. *)
From Stdlib Require Import Ascii.
From S2P Require Import Prelude.
From S2P Require Import Xact.
Open Scope string_scope.
Open Scope list_scope.
Open Scope Z_scope.

(** * Status queries *)
Section queries.
Context {W : Type}.

Definition IsTransactionState : X W bool :=
  s ← CurrentTransactionState; mret (is_state TRANS_INPROGRESS s).

Definition IsAbortedTransactionBlockState : X W bool :=
  s ← CurrentTransactionState; mret (is_block TBLOCK_ABORT s || is_block TBLOCK_SUBABORT s).

Definition IsTransactionBlock : X W bool :=
  s ← CurrentTransactionState;
  mret (negb (is_block TBLOCK_DEFAULT s || is_block TBLOCK_STARTED s)).

Definition IsTransactionOrTransactionBlock : X W bool :=
  s ← CurrentTransactionState; mret (negb (is_block TBLOCK_DEFAULT s)).

Definition IsSubTransaction : X W bool :=
  s ← CurrentTransactionState; mret (2 <=? nestingLevel s).

Definition status_code (b : TBlockState) : Ascii.ascii :=
  match b with
  | TBLOCK_DEFAULT | TBLOCK_STARTED => "I"
  | TBLOCK_BEGIN | TBLOCK_SUBBEGIN | TBLOCK_INPROGRESS | TBLOCK_IMPLICIT_INPROGRESS
  | TBLOCK_PARALLEL_INPROGRESS | TBLOCK_SUBINPROGRESS | TBLOCK_END | TBLOCK_SUBRELEASE
  | TBLOCK_SUBCOMMIT | TBLOCK_PREPARE => "T"
  | TBLOCK_ABORT | TBLOCK_SUBABORT | TBLOCK_ABORT_END | TBLOCK_SUBABORT_END
  | TBLOCK_ABORT_PENDING | TBLOCK_SUBABORT_PENDING | TBLOCK_SUBRESTART
  | TBLOCK_SUBABORT_RESTART => "E"
  end%char.

Definition TransactionBlockStatusCode : X W Ascii.ascii :=
  s ← CurrentTransactionState; mret (status_code (blockState s)).

Definition PreventInTransactionBlock (isTopLevel : bool) (stmtType : string) : X W unit :=
  blk ← IsTransactionBlock;
  if (blk : bool) then throw (EReport (stmtType ++ " cannot run inside a transaction block")%string)
  else
  sb ← IsSubTransaction;
  if (sb : bool) then throw (EReport (stmtType ++ " cannot run inside a subtransaction")%string)
  else
  c ← get;
  if negb (Z.land (MyXactFlags c) XACT_FLAGS_PIPELINING =? 0)
  then throw (EReport (stmtType ++ " cannot be executed within a pipeline")%string)
  else if negb isTopLevel
  then throw (EReport (stmtType ++ " cannot be executed from a function")%string)
  else
  s ← CurrentTransactionState;
  if negb (is_block TBLOCK_DEFAULT s) && negb (is_block TBLOCK_STARTED s)
  then throw (EFatal "cannot prevent transaction chain")
  else modify (fun c => set_MyXactFlags (Z.lor (MyXactFlags c) XACT_FLAGS_NEEDIMMEDIATECOMMIT) c).

Definition CheckTransactionBlock (isTopLevel throwError : bool) (stmtType : string) : X W unit :=
  blk ← IsTransactionBlock;
  if (blk : bool) then mret tt else
  sb ← IsSubTransaction;
  if (sb : bool) then mret tt else
  if negb isTopLevel then mret tt else
  let msg := (stmtType ++ " can only be used in transaction blocks")%string in
  if throwError then throw (EReport msg) else ereport_warning msg.

Definition RequireTransactionBlock (isTopLevel : bool) (stmtType : string) : X W unit :=
  CheckTransactionBlock isTopLevel true stmtType.

Definition WarnNoTransactionBlock (isTopLevel : bool) (stmtType : string) : X W unit :=
  CheckTransactionBlock isTopLevel false stmtType.

Definition IsInTransactionBlock (isTopLevel : bool) : X W bool :=
  blk ← IsTransactionBlock;
  if (blk : bool) then mret true else
  sb ← IsSubTransaction;
  if (sb : bool) then mret true else
  c ← get;
  if negb (Z.land (MyXactFlags c) XACT_FLAGS_PIPELINING =? 0) then mret true else
  if negb isTopLevel then mret true else
  s ← CurrentTransactionState;
  mret (negb (is_block TBLOCK_DEFAULT s) && negb (is_block TBLOCK_STARTED s)).

(** * Transaction block commands: they only mark the levels of the stack *)

(** Walk from the current level to the outermost one, giving each level the
    block state [f] (the outermost one [g]) has for it; stop where there is
    none, keeping what was marked so far. *)
Fixpoint mark_levels (f g : TBlockState -> option TBlockState)
    (l : list TransactionStateData) : bool * list TransactionStateData :=
  match l with
  | [] => (false, [])
  | [s] => match g (blockState s) with
           | Some b => (true, [set_blockState b s])
           | None => (false, [s])
           end
  | s :: l => match f (blockState s) with
              | Some b => let '(ok, l') := mark_levels f g l in (ok, set_blockState b s :: l')
              | None => (false, s :: l)
              end
  end.

Definition mark (routine : string) (f g : TBlockState -> option TBlockState) : X W unit :=
  c ← get;
  let '(ok, l) := mark_levels f g (stack c) in
  modify (set_stack l);;
  if ok then mret tt else throw (EFatal (routine ++ ": unexpected state")%string).

Definition pending_abort (b : TBlockState) : option TBlockState :=
  match b with
  | TBLOCK_SUBINPROGRESS => Some TBLOCK_SUBABORT_PENDING
  | TBLOCK_SUBABORT => Some TBLOCK_SUBABORT_END
  | _ => None
  end.

Definition pending_abort_top (b : TBlockState) : option TBlockState :=
  match b with
  | TBLOCK_INPROGRESS => Some TBLOCK_ABORT_PENDING
  | TBLOCK_ABORT => Some TBLOCK_ABORT_END
  | _ => None
  end.

Definition pending_commit (b : TBlockState) : option TBlockState :=
  match b with TBLOCK_SUBINPROGRESS => Some TBLOCK_SUBCOMMIT | _ => None end.

Definition pending_commit_top (b : TBlockState) : option TBlockState :=
  match b with TBLOCK_INPROGRESS => Some TBLOCK_END | _ => None end.

(** The Asserts on the outermost level at the end of both routines. *)
Definition assert_outermost (allowed : list TBlockState) : X W unit :=
  c ← get;
  Assert (match last (stack c) with
          | Some s => bool_decide (blockState s ∈ allowed)
          | None => false
          end) "s->blockState".

(** [s->chain = chain], [s] the outermost level reached by the loops above. *)
Definition set_top_chain (v : bool) : X W unit :=
  c ← get; upd_level (pred (length (stack c))) (set_chain v).

Definition no_transaction (chain_wanted : bool) (what : string) : X W unit :=
  if chain_wanted
  then throw (EReport (what ++ " can only be used in transaction blocks")%string)
  else ereport_warning "there is no transaction in progress".

Definition BeginTransactionBlock : X W unit :=
  s ← CurrentTransactionState;
  match blockState s with
  | TBLOCK_STARTED => upd_cur (set_blockState TBLOCK_BEGIN)
  | TBLOCK_IMPLICIT_INPROGRESS => upd_cur (set_blockState TBLOCK_BEGIN)
  | TBLOCK_INPROGRESS | TBLOCK_PARALLEL_INPROGRESS | TBLOCK_SUBINPROGRESS | TBLOCK_ABORT
  | TBLOCK_SUBABORT => ereport_warning "there is already a transaction in progress"
  | _ => throw (EFatal "BeginTransactionBlock: unexpected state")
  end.

Definition EndTransactionBlock (want_chain : bool) : X W bool :=
  s ← CurrentTransactionState;
  result ← match blockState s with
    | TBLOCK_INPROGRESS => upd_cur (set_blockState TBLOCK_END);; mret true
    | TBLOCK_IMPLICIT_INPROGRESS =>
        no_transaction want_chain "COMMIT AND CHAIN";;
        upd_cur (set_blockState TBLOCK_END);; mret true
    | TBLOCK_ABORT => upd_cur (set_blockState TBLOCK_ABORT_END);; mret false
    | TBLOCK_SUBINPROGRESS =>
        mark "EndTransactionBlock" pending_commit pending_commit_top;; mret true
    | TBLOCK_SUBABORT =>
        mark "EndTransactionBlock" pending_abort pending_abort_top;; mret false
    | TBLOCK_STARTED => no_transaction want_chain "COMMIT AND CHAIN";; mret true
    | TBLOCK_PARALLEL_INPROGRESS =>
        throw (EFatal "cannot commit during a parallel operation")
    | _ => throw (EFatal "EndTransactionBlock: unexpected state")
    end;
  assert_outermost [TBLOCK_STARTED; TBLOCK_END; TBLOCK_ABORT_END; TBLOCK_ABORT_PENDING];;
  set_top_chain want_chain;;
  mret result.

Definition PrepareTransactionBlock (gid : string) : X W bool :=
  result ← EndTransactionBlock false;
  if (result : bool) then
    c ← get;
    match last (stack c) with
    | Some s =>
        if is_block TBLOCK_END s then
          modify (set_prepareGID (Some gid));;
          upd_level (pred (length (stack c))) (set_blockState TBLOCK_PREPARE);;
          mret true
        else
          Assert (is_block TBLOCK_STARTED s || is_block TBLOCK_IMPLICIT_INPROGRESS s)
            "s->blockState == TBLOCK_STARTED";;
          mret false
    | None => throw (EAssert "CurrentTransactionState")
    end
  else mret false.

Definition UserAbortTransactionBlock (want_chain : bool) : X W unit :=
  s ← CurrentTransactionState;
  (match blockState s with
   | TBLOCK_INPROGRESS => upd_cur (set_blockState TBLOCK_ABORT_PENDING)
   | TBLOCK_ABORT => upd_cur (set_blockState TBLOCK_ABORT_END)
   | TBLOCK_SUBINPROGRESS | TBLOCK_SUBABORT =>
       mark "UserAbortTransactionBlock" pending_abort pending_abort_top
   | TBLOCK_STARTED | TBLOCK_IMPLICIT_INPROGRESS =>
       no_transaction want_chain "ROLLBACK AND CHAIN";;
       upd_cur (set_blockState TBLOCK_ABORT_PENDING)
   | TBLOCK_PARALLEL_INPROGRESS => throw (EFatal "cannot abort during a parallel operation")
   | _ => throw (EFatal "UserAbortTransactionBlock: unexpected state")
   end);;
  assert_outermost [TBLOCK_ABORT_END; TBLOCK_ABORT_PENDING];;
  set_top_chain want_chain.

Definition BeginImplicitTransactionBlock : X W unit :=
  s ← CurrentTransactionState;
  when (is_block TBLOCK_STARTED s) (upd_cur (set_blockState TBLOCK_IMPLICIT_INPROGRESS)).

Definition EndImplicitTransactionBlock : X W unit :=
  s ← CurrentTransactionState;
  when (is_block TBLOCK_IMPLICIT_INPROGRESS s) (upd_cur (set_blockState TBLOCK_STARTED)).

(** The first level, from the current one outwards, with the savepoint name. *)
Definition find_savepoint (n : string) (l : list TransactionStateData) : option nat :=
  fst <$> list_find (fun t => name t = Some n) l.

(** The search both RELEASE and ROLLBACK TO make, with its two errors. *)
Definition savepoint_target (n : string) : X W nat :=
  s ← CurrentTransactionState;
  c ← get;
  match find_savepoint n (stack c) with
  | None => throw (EReport ("savepoint " ++ n ++ " does not exist")%string)
  | Some k =>
      t ← level k;
      if savepointLevel t =? savepointLevel s then mret k
      else throw (EReport ("savepoint " ++ n ++ " does not exist within current savepoint level")%string)
  end.

Definition ReleaseSavepoint (n : string) : X W unit :=
  par ← IsInParallelMode;
  if (par : bool) then throw (EReport "cannot release savepoints during a parallel operation") else
  s ← CurrentTransactionState;
  match blockState s with
  | TBLOCK_INPROGRESS => throw (EReport ("savepoint " ++ n ++ " does not exist")%string)
  | TBLOCK_IMPLICIT_INPROGRESS =>
      throw (EReport "RELEASE SAVEPOINT can only be used in transaction blocks")
  | TBLOCK_SUBINPROGRESS =>
      k ← savepoint_target n;
      c ← get;
      Assert (forallb (is_block TBLOCK_SUBINPROGRESS) (take (S k) (stack c)))
        "xact->blockState == TBLOCK_SUBINPROGRESS";;
      modify (fun c => set_stack (map (set_blockState TBLOCK_SUBRELEASE) (take (S k) (stack c))
                                    ++ drop (S k) (stack c)) c)
  | _ => throw (EFatal "ReleaseSavepoint: unexpected state")
  end.

Definition pending_restart (b : TBlockState) : option TBlockState :=
  match b with
  | TBLOCK_SUBINPROGRESS => Some TBLOCK_SUBRESTART
  | TBLOCK_SUBABORT => Some TBLOCK_SUBABORT_RESTART
  | _ => None
  end.

(** Levels above the target become abort-pending, the target restart-pending. *)
Definition RollbackToSavepoint (n : string) : X W unit :=
  par ← IsInParallelMode;
  if (par : bool) then throw (EReport "cannot rollback to savepoints during a parallel operation") else
  s ← CurrentTransactionState;
  match blockState s with
  | TBLOCK_INPROGRESS | TBLOCK_ABORT =>
      throw (EReport ("savepoint " ++ n ++ " does not exist")%string)
  | TBLOCK_IMPLICIT_INPROGRESS =>
      throw (EReport "ROLLBACK TO SAVEPOINT can only be used in transaction blocks")
  | TBLOCK_SUBINPROGRESS | TBLOCK_SUBABORT =>
      k ← savepoint_target n;
      c ← get;
      let '(ok, l) := mark_levels pending_abort pending_restart (take (S k) (stack c)) in
      modify (set_stack (l ++ drop (S k) (stack c)));;
      if ok then mret tt else throw (EFatal "RollbackToSavepoint: unexpected state")
  | _ => throw (EFatal "RollbackToSavepoint: unexpected state")
  end.

End queries.

Section commands.
Context {W : Type} (E : Subsystems W).

(** * Savepoints *)
Definition push_named (n : option string) : X W unit :=
  PushTransaction E;;
  match n with
  | Some n => sub E "MemoryContextStrdup" [];; upd_cur (set_name (Some n))
  | None => mret tt
  end.

Definition DefineSavepoint (n : option string) : X W unit :=
  par ← IsInParallelMode;
  if (par : bool) then throw (EReport "cannot define savepoints during a parallel operation") else
  s ← CurrentTransactionState;
  match blockState s with
  | TBLOCK_INPROGRESS | TBLOCK_SUBINPROGRESS => push_named n
  | TBLOCK_IMPLICIT_INPROGRESS => throw (EReport "SAVEPOINT can only be used in transaction blocks")
  | _ => throw (EFatal "DefineSavepoint: unexpected state")
  end.

(** * The per-command routines *)
Definition StartTransactionCommand : X W unit :=
  s ← CurrentTransactionState;
  (match blockState s with
   | TBLOCK_DEFAULT => StartTransaction E;; upd_cur (set_blockState TBLOCK_STARTED)
   | TBLOCK_INPROGRESS | TBLOCK_IMPLICIT_INPROGRESS | TBLOCK_SUBINPROGRESS => mret tt
   | TBLOCK_ABORT | TBLOCK_SUBABORT => mret tt
   | _ => throw (EElog "StartTransactionCommand: unexpected state")
   end);;
  calls E [("MemoryContextSwitchTo", [])].

Definition SaveTransactionCharacteristics : X W unit :=
  modify (fun c => set_save_chars (xact_chars c) c).

Definition RestoreTransactionCharacteristics : X W unit :=
  modify (fun c => set_xact_chars (save_chars c) c).

(** A COMMIT or ROLLBACK AND CHAIN goes straight into the next transaction. *)
Definition start_chained : X W unit :=
  s ← CurrentTransactionState;
  when (chain s)
    (StartTransaction E;;
     upd_cur (set_blockState TBLOCK_INPROGRESS);;
     upd_cur (set_chain false);;
     RestoreTransactionCharacteristics).

Definition to_idle : X W unit := upd_cur (set_blockState TBLOCK_DEFAULT).

(** [do CommitSubTransaction() while (s->blockState == b)] *)
Fixpoint commit_subs (fuel : nat) (b : TBlockState) : X W unit :=
  match fuel with
  | O => throw EDiverges
  | S fuel =>
      CommitSubTransaction E;;
      s ← CurrentTransactionState;
      if is_block b s then commit_subs fuel b else mret tt
  end.

(** Pop the target of a ROLLBACK TO (its clean-up is [pop]) and start it anew
    under the same name. *)
Definition restart_savepoint (pop : X W unit) : X W unit :=
  s ← CurrentTransactionState;
  upd_cur (set_name None);;
  pop;;
  DefineSavepoint None;;
  upd_cur (set_name (name s));;
  upd_cur (set_savepointLevel (savepointLevel s));;
  s' ← CurrentTransactionState;
  Assert (is_block TBLOCK_SUBBEGIN s') "s->blockState == TBLOCK_SUBBEGIN";;
  StartSubTransaction E;;
  upd_cur (set_blockState TBLOCK_SUBINPROGRESS).

Fixpoint commit_command (fuel : nat) : X W unit :=
  match fuel with
  | O => throw EDiverges
  | S fuel =>
      s ← CurrentTransactionState;
      when (chain s) SaveTransactionCharacteristics;;
      match blockState s with
      | TBLOCK_DEFAULT | TBLOCK_PARALLEL_INPROGRESS =>
          throw (EFatal "CommitTransactionCommand: unexpected state")
      | TBLOCK_STARTED => CommitTransaction E;; to_idle
      | TBLOCK_BEGIN => upd_cur (set_blockState TBLOCK_INPROGRESS)
      | TBLOCK_INPROGRESS | TBLOCK_IMPLICIT_INPROGRESS | TBLOCK_SUBINPROGRESS =>
          CommandCounterIncrement E
      | TBLOCK_END => CommitTransaction E;; to_idle;; start_chained
      | TBLOCK_ABORT | TBLOCK_SUBABORT => mret tt
      | TBLOCK_ABORT_END => CleanupTransaction E;; to_idle;; start_chained
      | TBLOCK_ABORT_PENDING =>
          AbortTransaction E;; CleanupTransaction E;; to_idle;; start_chained
      | TBLOCK_PREPARE => PrepareTransaction E;; to_idle
      | TBLOCK_SUBBEGIN =>
          StartSubTransaction E;; upd_cur (set_blockState TBLOCK_SUBINPROGRESS)
      | TBLOCK_SUBRELEASE =>
          commit_subs (S fuel) TBLOCK_SUBRELEASE;;
          s ← CurrentTransactionState;
          Assert (is_block TBLOCK_INPROGRESS s || is_block TBLOCK_SUBINPROGRESS s)
            "s->blockState == TBLOCK_INPROGRESS || s->blockState == TBLOCK_SUBINPROGRESS"
      | TBLOCK_SUBCOMMIT =>
          commit_subs (S fuel) TBLOCK_SUBCOMMIT;;
          s ← CurrentTransactionState;
          if is_block TBLOCK_END s then
            assert_no_parent;; CommitTransaction E;; to_idle;; start_chained
          else if is_block TBLOCK_PREPARE s then
            assert_no_parent;; PrepareTransaction E;; to_idle
          else throw (EElog "CommitTransactionCommand: unexpected state")
      | TBLOCK_SUBABORT_END => CleanupSubTransaction E;; commit_command fuel
      | TBLOCK_SUBABORT_PENDING =>
          AbortSubTransaction E;; CleanupSubTransaction E;; commit_command fuel
      | TBLOCK_SUBRESTART =>
          restart_savepoint (AbortSubTransaction E;; CleanupSubTransaction E)
      | TBLOCK_SUBABORT_RESTART => restart_savepoint (CleanupSubTransaction E)
      end
  end.

Definition CommitTransactionCommand : X W unit :=
  c ← get; commit_command (S (length (stack c))).

(** The clean-up of a transaction that failed while it was starting, shared
    with [AbortOutOfAnyTransaction]. *)
Definition abort_default : X W unit :=
  s ← CurrentTransactionState;
  if is_state TRANS_DEFAULT s then mret tt
  else
    when (is_state TRANS_START s) (upd_cur (set_state TRANS_INPROGRESS));;
    AbortTransaction E;; CleanupTransaction E.

Fixpoint abort_current (fuel : nat) : X W unit :=
  match fuel with
  | O => throw EDiverges
  | S fuel =>
      s ← CurrentTransactionState;
      match blockState s with
      | TBLOCK_DEFAULT => abort_default
      | TBLOCK_STARTED | TBLOCK_IMPLICIT_INPROGRESS =>
          AbortTransaction E;; CleanupTransaction E;; to_idle
      | TBLOCK_BEGIN => AbortTransaction E;; CleanupTransaction E;; to_idle
      | TBLOCK_INPROGRESS | TBLOCK_PARALLEL_INPROGRESS =>
          AbortTransaction E;; upd_cur (set_blockState TBLOCK_ABORT)
      | TBLOCK_END => AbortTransaction E;; CleanupTransaction E;; to_idle
      | TBLOCK_ABORT | TBLOCK_SUBABORT => mret tt
      | TBLOCK_ABORT_END => CleanupTransaction E;; to_idle
      | TBLOCK_ABORT_PENDING => AbortTransaction E;; CleanupTransaction E;; to_idle
      | TBLOCK_PREPARE => AbortTransaction E;; CleanupTransaction E;; to_idle
      | TBLOCK_SUBINPROGRESS =>
          AbortSubTransaction E;; upd_cur (set_blockState TBLOCK_SUBABORT)
      | TBLOCK_SUBBEGIN | TBLOCK_SUBRELEASE | TBLOCK_SUBCOMMIT | TBLOCK_SUBABORT_PENDING
      | TBLOCK_SUBRESTART =>
          AbortSubTransaction E;; CleanupSubTransaction E;; abort_current fuel
      | TBLOCK_SUBABORT_END | TBLOCK_SUBABORT_RESTART =>
          CleanupSubTransaction E;; abort_current fuel
      end
  end.

Definition AbortCurrentTransaction : X W unit :=
  c ← get; abort_current (S (length (stack c))).

(** One turn of the loop of [AbortOutOfAnyTransaction]. *)
Definition abort_one : X W unit :=
  s ← CurrentTransactionState;
  match blockState s with
  | TBLOCK_DEFAULT => abort_default
  | TBLOCK_STARTED | TBLOCK_BEGIN | TBLOCK_INPROGRESS | TBLOCK_IMPLICIT_INPROGRESS
  | TBLOCK_PARALLEL_INPROGRESS | TBLOCK_END | TBLOCK_ABORT_PENDING | TBLOCK_PREPARE =>
      AbortTransaction E;; CleanupTransaction E;; to_idle
  | TBLOCK_ABORT | TBLOCK_ABORT_END =>
      sub E "AtAbort_Portals" [];; CleanupTransaction E;; to_idle
  | TBLOCK_SUBBEGIN | TBLOCK_SUBINPROGRESS | TBLOCK_SUBRELEASE | TBLOCK_SUBCOMMIT
  | TBLOCK_SUBABORT_PENDING | TBLOCK_SUBRESTART =>
      AbortSubTransaction E;; CleanupSubTransaction E
  | TBLOCK_SUBABORT | TBLOCK_SUBABORT_END | TBLOCK_SUBABORT_RESTART =>
      (match curTransactionOwner s with
       | Some o => p ← parent_state;
                   calls E [("AtSubAbort_Portals", [subTransactionId s; subTransactionId p; o;
                                                    owner_id (curTransactionOwner p)])]
       | None => mret tt
       end);;
      CleanupSubTransaction E
  end.

Fixpoint abort_out (fuel : nat) : X W unit :=
  match fuel with
  | O => throw EDiverges
  | S fuel =>
      abort_one;;
      s ← CurrentTransactionState;
      if is_block TBLOCK_DEFAULT s then mret tt else abort_out fuel
  end.

Definition AbortOutOfAnyTransaction : X W unit :=
  sub E "AtAbort_Memory" [];;
  c ← get;
  abort_out (S (length (stack c)));;
  assert_no_parent;;
  calls E [("AtCleanup_Memory", [])].

(** * Internal subtransactions *)
Definition BeginInternalSubTransaction (n : option string) : X W unit :=
  par ← IsInParallelMode;
  if (par : bool) then throw (EReport "cannot start subtransactions during a parallel operation") else
  s ← CurrentTransactionState;
  (match blockState s with
   | TBLOCK_STARTED | TBLOCK_INPROGRESS | TBLOCK_IMPLICIT_INPROGRESS | TBLOCK_END
   | TBLOCK_PREPARE | TBLOCK_SUBINPROGRESS => push_named n
   | _ => throw (EFatal "BeginInternalSubTransaction: unexpected state")
   end);;
  CommitTransactionCommand;;
  StartTransactionCommand.

Definition ReleaseCurrentSubTransaction : X W unit :=
  par ← IsInParallelMode;
  if (par : bool) then throw (EReport "cannot commit subtransactions during a parallel operation") else
  s ← CurrentTransactionState;
  if negb (is_block TBLOCK_SUBINPROGRESS s)
  then throw (EElog "ReleaseCurrentSubTransaction: unexpected state")
  else
    Assert (is_state TRANS_INPROGRESS s) "s->state == TRANS_INPROGRESS";;
    sub E "MemoryContextSwitchTo" [];;
    CommitSubTransaction E;;
    s ← CurrentTransactionState;
    Assert (is_state TRANS_INPROGRESS s) "s->state == TRANS_INPROGRESS".

Definition RollbackAndReleaseCurrentSubTransaction : X W unit :=
  s ← CurrentTransactionState;
  (match blockState s with
   | TBLOCK_SUBINPROGRESS | TBLOCK_SUBABORT => mret tt
   | _ => throw (EFatal "RollbackAndReleaseCurrentSubTransaction: unexpected state")
   end);;
  when (is_block TBLOCK_SUBINPROGRESS s) (AbortSubTransaction E);;
  CleanupSubTransaction E;;
  s ← CurrentTransactionState;
  Assert (is_block TBLOCK_SUBINPROGRESS s || is_block TBLOCK_INPROGRESS s
          || is_block TBLOCK_IMPLICIT_INPROGRESS s || is_block TBLOCK_STARTED s)
    "s->blockState after RollbackAndRelease".

End commands.
