(* ===== verification/SimpleQuery.v ===== *)
(** Simple-query processing: the part of [exec_simple_query] that PostgreSQL
    itself has (src/postgresql/src/backend/tcop/postgres.c), transaction
    control statements in [standard_ProcessUtility] (tcop/utility.c) and the
    message loop of [PostgresMain] with its error handler, as a transition
    system on the state of Xact.v. *)
From S2P Require Import Prelude.
From S2P Require Import Xact.
From S2P Require Import XactBlock.
Open Scope string_scope.
Open Scope list_scope.
Open Scope Z_scope.

(** * Statements *)
Inductive TransactionOption :=
| transaction_isolation (v : Z) | transaction_read_only (v : bool) | transaction_deferrable (v : bool)
| other_option.

Inductive TransactionStmt :=
| TRANS_STMT_BEGIN (options : list TransactionOption)
| TRANS_STMT_START (options : list TransactionOption)
| TRANS_STMT_COMMIT (chain : bool)
| TRANS_STMT_ROLLBACK (chain : bool)
| TRANS_STMT_SAVEPOINT (savepoint_name : string)
| TRANS_STMT_RELEASE (savepoint_name : string)
| TRANS_STMT_ROLLBACK_TO (savepoint_name : string)
| TRANS_STMT_PREPARE (gid : string)
| TRANS_STMT_COMMIT_PREPARED (gid : string)
| TRANS_STMT_ROLLBACK_PREPARED (gid : string).

(** What executing another statement does as far as the transaction manager
    sees: run code of other modules, mark the command counter used, ask for an
    XID, set a transaction characteristic, note the use of a temporary
    relation, demand not to be in a transaction block, or raise an error.  Not
    among these are internal subtransactions (exception blocks of procedural
    languages) and parallel mode: the message loop is about statements without
    them.  The routines for internal subtransactions are modelled on their own
    in XactBlock.v. *)
Inductive action :=
| Run | UseCommandId | NeedXid | SetOption (o : TransactionOption) | AccessTempNamespace
| NotInBlock (stmtType : string) | Raise (msg : string).

Inductive RawStmt :=
| TransStmt (t : TransactionStmt)
| OtherStmt (body : list action).

Definition is_TransactionStmt (p : RawStmt) : bool :=
  match p with TransStmt _ => true | OtherStmt _ => false end.

Definition IsTransactionExitStmt (p : RawStmt) : bool :=
  match p with
  | TransStmt (TRANS_STMT_COMMIT _) | TransStmt (TRANS_STMT_PREPARE _)
  | TransStmt (TRANS_STMT_ROLLBACK _) | TransStmt (TRANS_STMT_ROLLBACK_TO _) => true
  | _ => false
  end.

Section query.
Context {W : Type} (E : Subsystems W).

(** [SetPGVariable] of a transaction characteristic; the GUC machinery may
    refuse the value. *)
Definition SetPGVariable (o : TransactionOption) : X W unit :=
  match o with
  | other_option => mret tt
  | _ =>
    sub E "SetPGVariable" [];;
    modify (fun c =>
      let x := xact_chars c in
      set_xact_chars
        match o with
        | transaction_isolation v => {| IsoLevel := v; ReadOnly := ReadOnly x; Deferrable := Deferrable x |}
        | transaction_read_only v => {| IsoLevel := IsoLevel x; ReadOnly := v; Deferrable := Deferrable x |}
        | transaction_deferrable v => {| IsoLevel := IsoLevel x; ReadOnly := ReadOnly x; Deferrable := v |}
        | other_option => x
        end c)
  end.

Fixpoint set_options (l : list TransactionOption) : X W unit :=
  match l with
  | [] => mret tt
  | o :: l => SetPGVariable o;; set_options l
  end.

(** The check of [standard_ProcessUtility] on statements that are not strictly
    read-only; the transaction statements it concerns are allowed in read-only
    transactions but not in parallel mode or during recovery. *)
Definition check_read_only (t : TransactionStmt) : X W unit :=
  match t with
  | TRANS_STMT_PREPARE _ | TRANS_STMT_COMMIT_PREPARED _ | TRANS_STMT_ROLLBACK_PREPARED _ =>
      c ← get;
      par ← IsInParallelMode;
      if ReadOnly (xact_chars c) || par then
        when par (throw (EReport "cannot execute during a parallel operation"));;
        recovery ← sub E "RecoveryInProgress" [];
        when (negb (recovery =? 0)) (throw (EReport "cannot execute during recovery"))
      else mret tt
  | _ => mret tt
  end.

Definition ProcessUtility (t : TransactionStmt) : X W unit :=
  calls E [("check_stack_depth", [])];;
  check_read_only t;;
  match t with
  | TRANS_STMT_BEGIN options | TRANS_STMT_START options =>
      BeginTransactionBlock;; set_options options
  | TRANS_STMT_COMMIT ch =>
      r ← EndTransactionBlock ch;
      when (negb r) (calls E [("SetQueryCompletion", [])])
  | TRANS_STMT_PREPARE gid =>
      r ← PrepareTransactionBlock gid;
      when (negb r) (calls E [("SetQueryCompletion", [])])
  | TRANS_STMT_COMMIT_PREPARED gid =>
      PreventInTransactionBlock true "COMMIT PREPARED";;
      calls E [("FinishPreparedTransaction", [1])]
  | TRANS_STMT_ROLLBACK_PREPARED gid =>
      PreventInTransactionBlock true "ROLLBACK PREPARED";;
      calls E [("FinishPreparedTransaction", [0])]
  | TRANS_STMT_ROLLBACK ch => UserAbortTransactionBlock ch
  | TRANS_STMT_SAVEPOINT n => RequireTransactionBlock true "SAVEPOINT";; DefineSavepoint E (Some n)
  | TRANS_STMT_RELEASE n => RequireTransactionBlock true "RELEASE SAVEPOINT";; ReleaseSavepoint n
  | TRANS_STMT_ROLLBACK_TO n =>
      RequireTransactionBlock true "ROLLBACK TO SAVEPOINT";; RollbackToSavepoint n
  end.

Definition perform (a : action) : X W unit :=
  match a with
  | Run => calls E [("executor", [])]
  | UseCommandId => GetCurrentCommandId true;; mret tt
  | NeedXid => GetCurrentTransactionId E;; mret tt
  | SetOption o => SetPGVariable o
  | AccessTempNamespace =>
      modify (fun c => set_MyXactFlags (Z.lor (MyXactFlags c) XACT_FLAGS_ACCESSEDTEMPNAMESPACE) c)
  | NotInBlock s => PreventInTransactionBlock true s
  | Raise msg => throw (EReport msg)
  end.

Fixpoint perform_all (l : list action) : X W unit :=
  match l with
  | [] => mret tt
  | a :: l => perform a;; perform_all l
  end.

(** Analysis, planning and execution of one statement through a portal. *)
Definition exec_portal (p : RawStmt) : X W unit :=
  when (negb (is_TransactionStmt p)) (calls E [("PushActiveSnapshot", [])]);;
  calls E [("pg_analyze_and_rewrite", []); ("pg_plan_queries", [])];;
  when (negb (is_TransactionStmt p)) (calls E [("PopActiveSnapshot", [])]);;
  calls E [("CHECK_FOR_INTERRUPTS", []); ("CreatePortal", []); ("PortalDefineQuery", []);
           ("PortalStart", []); ("PortalSetResultFormat", []); ("CreateDestReceiver", [])];;
  (match p with
   | TransStmt t => ProcessUtility t
   | OtherStmt body => perform_all body
   end);;
  calls E [("rDestroy", []); ("PortalDrop", [])].

Definition start_xact_command : X W unit :=
  c ← get;
  when (negb (xact_started c)) (StartTransactionCommand E;; modify (set_xact_started true));;
  calls E [("enable_statement_timeout", []); ("enable_timeout_after", [])].

Definition finish_xact_command : X W unit :=
  calls E [("disable_statement_timeout", [])];;
  c ← get;
  when (xact_started c) (CommitTransactionCommand E;; modify (set_xact_started false)).

(** The loop over the statements of the query string. *)
Fixpoint exec_parsetrees (use_implicit_block : bool) (l : list RawStmt) : X W unit :=
  match l with
  | [] => mret tt
  | p :: l =>
      calls E [("pgstat_report_query_id", []); ("set_ps_display", []); ("BeginCommand", [])];;
      aborted ← IsAbortedTransactionBlockState;
      if aborted && negb (IsTransactionExitStmt p) then
        throw (EReport "current transaction is aborted, commands ignored until end of transaction block")
      else
        start_xact_command;;
        when use_implicit_block BeginImplicitTransactionBlock;;
        calls E [("CHECK_FOR_INTERRUPTS", [])];;
        exec_portal p;;
        (match l with
         | [] => when use_implicit_block EndImplicitTransactionBlock;; finish_xact_command
         | _ :: _ =>
             if is_TransactionStmt p then finish_xact_command
             else
               c ← get;
               Assert (Z.land (MyXactFlags c) XACT_FLAGS_NEEDIMMEDIATECOMMIT =? 0)
                 "!(MyXactFlags & XACT_FLAGS_NEEDIMMEDIATECOMMIT)";;
               CommandCounterIncrement E;;
               calls E [("disable_statement_timeout", [])]
         end);;
        calls E [("EndCommand", [])];;
        exec_parsetrees use_implicit_block l
  end.

Definition exec_simple_query (parsetree_list : list RawStmt) : X W unit :=
  calls E [("pgstat_report_activity", []); ("ResetUsage", [])];;
  start_xact_command;;
  calls E [("drop_unnamed_stmt", []); ("pg_parse_query", []); ("check_log_statement", [])];;
  exec_parsetrees (1 <? len parsetree_list) parsetree_list;;
  finish_xact_command;;
  (match parsetree_list with [] => calls E [("NullCommand", [])] | _ => mret tt end);;
  calls E [("check_log_duration", []); ("ShowUsage", [])].

(** * The message loop *)

(** A simple-query message. *)
Definition handle_query (parsetree_list : list RawStmt) : X W unit :=
  now ← sub E "GetCurrentTimestamp" [];
  modify (set_stmtStartTimestamp now);;
  exec_simple_query parsetree_list.

(** The handler at the top of [PostgresMain], entered by every ERROR. *)
Definition recover : X W unit :=
  calls E [("disable_all_timeouts", []); ("pq_comm_reset", []); ("EmitErrorReport", [])];;
  AbortCurrentTransaction E;;
  calls E [("PortalErrorCleanup", []); ("ReplicationSlotCleanup", []); ("jit_reset_after_error", []);
           ("FlushErrorState", [])];;
  modify (set_xact_started false).

(** The loop waits for a message, or the handler is running. *)
Inductive phase := Waiting | Recovering.

Inductive step : phase * Xact W -> phase * Xact W -> Prop :=
| step_query q x x' :
    handle_query q x = (inl tt, x') -> step (Waiting, x) (Waiting, x')
| step_query_error q x e x' :
    handle_query q x = (inr e, x') -> step (Waiting, x) (Recovering, x')
| step_recover x x' :
    recover x = (inl tt, x') -> step (Recovering, x) (Waiting, x')
| step_recover_error x e x' :
    recover x = (inr e, x') -> step (Recovering, x) (Recovering, x').

(** A message and, if it raises an error, its recovery. *)
Definition process_message (q : list RawStmt) : X W (option exit) := fun x =>
  match handle_query q x with
  | (inl _, x') => (inl None, x')
  | (inr e, x') => match recover x' with
                   | (inl _, x'') => (inl (Some e), x'')
                   | (inr e', x'') => (inr e', x'')
                   end
  end.

End query.

(** The state a backend starts with. *)
Definition TopTransactionStateData : TransactionStateData :=
  {| fullTransactionId := 0; subTransactionId := 0; name := None; savepointLevel := 0;
     state := TRANS_DEFAULT; blockState := TBLOCK_DEFAULT; nestingLevel := 0; gucNestLevel := 0;
     curTransactionOwner := None; childXids := []; maxChildXids := 0; prevUser := 0;
     prevSecContext := 0; prevXactReadOnly := false; startedInRecovery := false;
     didLogXid := false; parallelModeLevel := 0; chain := false; assigned := false |}.

Definition boot_core (defaults : Characteristics) : Core :=
  {| stack := [TopTransactionStateData]; currentSubTransactionId := 0; currentCommandId := 0;
     currentCommandIdUsed := false; XactTopFullTransactionId := 0; nParallelCurrentXids := 0;
     unreportedXids := []; xact_chars := defaults;
     save_chars := {| IsoLevel := 0; ReadOnly := false; Deferrable := false |};
     default_chars := defaults; forceSyncCommit := false; MyXactFlags := 0; prepareGID := None;
     CurrentUserId := 0; SecurityRestrictionContext := 0; CurrentResourceOwner := None;
     CurTransactionResourceOwner := None; TopTransactionResourceOwner := None;
     xactStartTimestamp := 0; stmtStartTimestamp := 0; xactStopTimestamp := 0;
     xact_is_sampled := false; ParallelWorkerNumber := -1; xact_started := false |}.
