(* ===== verification/XactSpec.v ===== *)
(** A program logic for the routines of Xact.v and what the low-level routines
    do to the transaction stack.

    [spec m c Q R]: started with static variables [c], [m] ends normally in a
    state satisfying [Q] or by ereport(ERROR) in a state satisfying [R]; it never
    reports an internal error, fails an Assert or reaches a FATAL.  The logic has
    two readings.  With [fails := True] every call into another module may raise
    an error at any time; with [fails := False] such calls succeed, and then no
    elog(WARNING) is issued and every routine ends. *)
From S2P Require Import Prelude.
From S2P Require Import Xact.
From S2P Require Import XactBlock.
Open Scope list_scope.
Open Scope Z_scope.

(** In the second reading, the loop that fires deferred triggers and closes
    portals must come to an end: it does when [PreCommit_Portals] finds no
    portal to close. *)
Definition no_failures {W} (E : Subsystems W) : Prop :=
  (forall f args w, exists v w', E.(subsys) f args w = inl (v, w')) /\
  (exists rounds, portal_rounds E = S rounds) /\
  (forall args w v w', E.(subsys) "PreCommit_Portals" args w = inl (v, w') -> v = 0).

Section logic.
Context {W : Type} (E : Subsystems W) (fails : Prop).

Definition quiet (x x' : Xact W) : Prop := fails \/ internal x' = internal x.

Definition spec {A} (m : X W A) (c : Core) (Q : A -> Core -> Prop) (R : Core -> Prop) : Prop :=
  forall x, core x = c ->
  match m x with
  | (inl a, x') => Q a (core x') /\ quiet x x'
  | (inr (EReport _), x') => R (core x') /\ quiet x x'
  | (inr EDiverges, x') => R (core x') /\ fails
  | (inr _, _) => False
  end.

Lemma quiet_refl x : quiet x x.
Proof. by right. Qed.

Lemma quiet_trans x y z : quiet x y -> quiet y z -> quiet x z.
Proof. intros [?|Hxy] [?|Hyz]; [by left..|]. right. by rewrite Hyz. Qed.

Lemma spec_mono {A} (m : X W A) c (Q Q' : A -> Core -> Prop) (R R' : Core -> Prop) :
  spec m c Q R -> (forall a c', Q a c' -> Q' a c') -> (forall c', R c' -> R' c') -> spec m c Q' R'.
Proof.
  intros H HQ HR x Hx. specialize (H x Hx).
  destruct (m x) as [[a|[]] x']; naive_solver.
Qed.

Lemma spec_ret {A} (a : A) c (Q : A -> Core -> Prop) R : Q a c -> spec (mret a) c Q R.
Proof. intros H x <-. by split; [|apply quiet_refl]. Qed.

Lemma spec_bind {A B} (m : X W A) (k : A -> X W B) c Q R :
  spec m c (fun a c' => spec (k a) c' Q R) R -> spec (m ≫= k) c Q R.
Proof.
  intros H x Hx. specialize (H x Hx). unfold mbind, X_bind.
  destruct (m x) as [[a|[]] x']; try done.
  destruct H as [Hk Hq]. specialize (Hk x' eq_refl).
  destruct (k a x') as [[b|[]] x'']; try done;
    (destruct Hk as [??]; split; [done|by eauto using quiet_trans]).
Qed.

Lemma spec_assoc {A B C} (m : X W A) (f : A -> X W B) (k : B -> X W C) c Q R :
  spec (m ≫= fun a => f a ≫= k) c Q R -> spec ((m ≫= f) ≫= k) c Q R.
Proof.
  intros H x Hx. specialize (H x Hx). unfold mbind, X_bind in *.
  by destruct (m x) as [[a|e] x'].
Qed.

Lemma spec_unret {A} (m : X W A) (k : A -> X W unit) c Q R :
  spec (m ≫= fun a => k a ≫= fun _ => mret tt) c Q R -> spec (m ≫= k) c Q R.
Proof.
  intros H x Hx. specialize (H x Hx). unfold mbind, X_bind in *.
  destruct (m x) as [[a|e] x']; [|done]. by destruct (k a x') as [[[]|e] x''].
Qed.

Lemma spec_unret1 (m : X W unit) c Q R : spec (m ≫= fun _ => mret tt) c Q R -> spec m c Q R.
Proof.
  intros H x Hx. specialize (H x Hx). unfold mbind, X_bind in *. by destruct (m x) as [[[]|e] x'].
Qed.

Lemma spec_throw {A} msg c (Q : A -> Core -> Prop) (R : Core -> Prop) :
  R c -> spec (throw (EReport msg)) c Q R.
Proof. intros H x <-. by split; [|apply quiet_refl]. Qed.

Lemma spec_diverges {A} c (Q : A -> Core -> Prop) (R : Core -> Prop) :
  fails -> R c -> spec (throw EDiverges) c Q R.
Proof. by intros ?? x <-. Qed.

Lemma spec_get c (Q : Core -> Core -> Prop) R : Q c c -> spec get c Q R.
Proof. intros H x <-. by split; [|apply quiet_refl]. Qed.

(** Reading the static variables, of which only [F] is remembered. *)
Lemma spec_get_as {B} (F : Core -> Prop) (k : Core -> X W B) c Q R :
  F c -> (forall c1, F c1 -> spec (k c1) c Q R) -> spec (get ≫= k) c Q R.
Proof. intros HF H. apply spec_bind, spec_get. by apply H. Qed.

Lemma spec_modify f c (Q : unit -> Core -> Prop) R : Q tt (f c) -> spec (modify f) c Q R.
Proof. intros H x <-. by split; [|right]. Qed.

Lemma spec_ereport_warning msg c (Q : unit -> Core -> Prop) R :
  Q tt c -> spec (ereport_warning msg) c Q R.
Proof. intros H x <-. by split; [|right]. Qed.

Lemma spec_elog_warning msg c (Q : unit -> Core -> Prop) R :
  fails -> Q tt c -> spec (elog_warning msg) c Q R.
Proof. intros ? H x <-. by split; [|left]. Qed.

Lemma spec_assert b what c (Q : unit -> Core -> Prop) R :
  b = true -> Q tt c -> spec (Assert b what) c Q R.
Proof. intros -> ?. by apply spec_ret. Qed.

Lemma spec_when b m c (Q : unit -> Core -> Prop) R :
  (b = true -> spec m c Q R) -> (b = false -> Q tt c) -> spec (when b m) c Q R.
Proof. destruct b; intros H1 H2; [by apply H1|by apply spec_ret, H2]. Qed.

Lemma spec_cur c s r (Q : TransactionStateData -> Core -> Prop) R :
  stack c = s :: r -> Q s c -> spec CurrentTransactionState c Q R.
Proof.
  intros Hs HQ. apply spec_bind, spec_get. rewrite Hs. by apply spec_ret.
Qed.

Lemma spec_parent c s p r (Q : TransactionStateData -> Core -> Prop) R :
  stack c = s :: p :: r -> Q p c -> spec parent_state c Q R.
Proof.
  intros Hs HQ. apply spec_bind, spec_get. rewrite Hs. by apply spec_ret.
Qed.

Lemma spec_parallel c s r (Q : bool -> Core -> Prop) R :
  stack c = s :: r -> parallelModeLevel s = 0 -> Q false c -> spec IsInParallelMode c Q R.
Proof.
  intros Hs Hp HQ. apply spec_bind. eapply spec_cur; [done|]. apply spec_ret. by rewrite Hp.
Qed.

Lemma spec_check_state routine t c s r (Q : unit -> Core -> Prop) R :
  stack c = s :: r -> (fails \/ state s = t) -> Q tt c -> spec (check_state routine t) c Q R.
Proof.
  intros Hs Ht HQ. apply spec_bind. eapply spec_cur; [done|]. unfold is_state.
  case_bool_decide; [by apply spec_ret|]. destruct Ht; [|done]. by apply spec_elog_warning.
Qed.

Context (Hfails : fails \/ no_failures E).

Lemma spec_sub f args c (Q : Z -> Core -> Prop) (R : Core -> Prop) :
  (forall v, Q v c) -> (fails -> R c) -> spec (sub E f args) c Q R.
Proof using Hfails.
  intros HQ HR x <-. unfold sub.
  destruct (subsys E f args (world x)) as [[v w]|msg] eqn:Hf; [by split; [|right]|].
  destruct Hfails as [?|[Hno _]]; [by split; [auto|left]|].
  destruct (Hno f args (world x)) as (? & ? & ?). congruence.
Qed.

Lemma spec_calls l c (Q : unit -> Core -> Prop) (R : Core -> Prop) :
  Q tt c -> (fails -> R c) -> spec (calls E l) c Q R.
Proof using Hfails.
  intros HQ HR. induction l as [|[f args] l IH]; cbn [calls]; [by apply spec_ret|].
  apply spec_bind, spec_sub; auto.
Qed.

Lemma spec_fire_deferred isPrepare c (Q : unit -> Core -> Prop) (R : Core -> Prop) :
  Q tt c -> (fails -> R c) -> spec (fire_deferred E (portal_rounds E) isPrepare) c Q R.
Proof using Hfails.
  intros HQ HR. destruct Hfails as [Hf|(Hno & [n Hn] & Hpc)].
  - generalize (portal_rounds E) as n. intros n. induction n as [|n IH]; cbn [fire_deferred].
    + by apply spec_diverges; auto.
    + apply spec_bind, spec_sub; [intros _|auto]. apply spec_bind, spec_sub; [intros v|auto].
      case_match; [by apply spec_ret|done].
  - rewrite Hn. cbn [fire_deferred]. apply spec_bind, spec_sub; [intros _|auto].
    intros x <-. unfold mbind, X_bind, sub.
    destruct (Hno "PreCommit_Portals"%string [b2z isPrepare] (world x)) as (v & w & Hv).
    rewrite Hv. rewrite (Hpc _ _ _ _ Hv). by split; [|right].
Qed.

End logic.

(** * What every routine keeps *)

(** Facts about a level of the stack that hold all the time in a backend that
    is not a parallel worker. *)
Definition lvl_ok (t : TransactionStateData) : Prop :=
  parallelModeLevel t = 0 /\ prevSecContext t = 0 /\ savepointLevel t = 0.

(** [t'] is [t] after routines that do not touch its place in a block. *)
Definition same_lvl (t t' : TransactionStateData) : Prop :=
  blockState t' = blockState t /\ name t' = name t /\ chain t' = chain t /\ lvl_ok t' /\
  len (childXids t') <= len (childXids t).

Definition glob_ok (c : Core) : Prop :=
  SecurityRestrictionContext c = 0 /\ ParallelWorkerNumber c < 0.

(** Room left in the command counter and in the subtransaction counter. *)
Definition limits (c : Core) : Prop :=
  0 <= currentCommandId c /\
  (currentCommandId c < InvalidCommandId - 1 \/ currentCommandIdUsed c = false).

Definition sub_room (c : Core) : Prop := 0 <= currentSubTransactionId c < 2 ^ 32 - 1.

(** The static variables stay in order, and those that matter stay the same. *)
Definition kept_glob (c c' : Core) : Prop :=
  glob_ok c' /\ xact_started c' = xact_started c /\ save_chars c' = save_chars c /\
  (MyXactFlags c' = MyXactFlags c \/ MyXactFlags c' = 0) /\ (limits c -> limits c').

Definition same_glob (c c' : Core) : Prop := kept_glob c c' /\ (sub_room c -> sub_room c').

(** The current level is [t0] but for fields that do not matter here, and
    satisfies [P]; the levels below are [rest]. *)
Definition at_level (c0 : Core) (t0 : TransactionStateData) (rest : list TransactionStateData)
    (P : TransactionStateData -> Core -> Prop) (c : Core) : Prop :=
  exists t, stack c = t :: rest /\ same_lvl t0 t /\ P t c /\ same_glob c0 c.

Definition any_state (t : TransactionStateData) (c : Core) : Prop := True.
Definition in_state (st : TransState) (t : TransactionStateData) (c : Core) : Prop := state t = st.

Lemma same_lvl_refl t : lvl_ok t -> same_lvl t t.
Proof. unfold same_lvl. intuition lia. Qed.

Lemma same_lvl_trans t1 t2 t3 : same_lvl t1 t2 -> same_lvl t2 t3 -> same_lvl t1 t3.
Proof. unfold same_lvl. intuition (congruence || lia). Qed.

Lemma same_glob_refl c : glob_ok c -> same_glob c c.
Proof. unfold same_glob, kept_glob. tauto. Qed.

Lemma same_glob_trans c1 c2 c3 : same_glob c1 c2 -> same_glob c2 c3 -> same_glob c1 c3.
Proof. unfold same_glob, kept_glob. intuition congruence. Qed.

Lemma kept_glob_trans c1 c2 c3 : kept_glob c1 c2 -> kept_glob c2 c3 -> kept_glob c1 c3.
Proof. unfold kept_glob. intuition congruence. Qed.

Lemma at_level_start c t rest (P : TransactionStateData -> Core -> Prop) :
  stack c = t :: rest -> lvl_ok t -> glob_ok c -> P t c -> at_level c t rest P c.
Proof. intros. exists t. auto using same_lvl_refl, same_glob_refl. Qed.

Lemma at_level_weaken c0 t0 rest (P P' : TransactionStateData -> Core -> Prop) c :
  (forall t, P t c -> P' t c) -> at_level c0 t0 rest P c -> at_level c0 t0 rest P' c.
Proof. intros HP (t & ? & ? & ? & ?). exists t. auto. Qed.

Lemma at_level_any c0 t0 rest P c : at_level c0 t0 rest P c -> at_level c0 t0 rest any_state c.
Proof. by apply at_level_weaken. Qed.

(** Assigning fields of the current level. *)
Lemma at_level_on_top c0 t0 rest (P P' : TransactionStateData -> Core -> Prop) f c :
  at_level c0 t0 rest P c ->
  (forall t, same_lvl t0 t -> same_lvl t0 (f t)) ->
  (forall t, P t c -> P' (f t) (on_top f c)) ->
  at_level c0 t0 rest P' (on_top f c).
Proof.
  intros (t & Hs & Hl & HP & Hg) Hf HPf. exists (f t).
  assert (Ho : on_top f c = set_stack (f t :: rest) c) by (unfold on_top; by rewrite Hs).
  specialize (HPf t HP). rewrite Ho in HPf |- *. split_and!; [done|auto|done|exact Hg].
Qed.

Definition keep {W A} (fails : Prop) (m : X W A) (K R : Core -> Prop) : Prop :=
  forall c, K c -> spec fails m c (fun _ => K) R.

Section keep.
Context {W : Type} (E : Subsystems W) (fails : Prop).

Lemma keep_seq {A B} (m : X W A) (k : A -> X W B) c (K : Core -> Prop) Q R :
  K c -> keep fails m K R -> (forall a c', K c' -> spec fails (k a) c' Q R) ->
  spec fails (m ≫= k) c Q R.
Proof.
  intros Hc Hm Hk. apply spec_bind. eapply spec_mono; [by apply Hm|naive_solver|done].
Qed.

Lemma keep_modify f (K R : Core -> Prop) :
  (forall c, K c -> K (f c)) -> keep fails (modify (W := W) f) K R.
Proof. intros H c Hc. apply spec_modify. auto. Qed.

Lemma keep_upd f c0 t0 rest (P : TransactionStateData -> Core -> Prop) R :
  (forall t, same_lvl t0 t -> same_lvl t0 (f t)) ->
  (forall t c, P t c -> P (f t) (on_top f c)) ->
  keep fails (upd_cur (W := W) f) (at_level c0 t0 rest P) R.
Proof. intros ?? c Hc. apply spec_modify. by eapply at_level_on_top; eauto. Qed.

Lemma keep_ret {A} (a : A) (K R : Core -> Prop) : keep fails (mret a : X W A) K R.
Proof. intros c Hc. by apply spec_ret. Qed.

Lemma keep_bind {A B} (m : X W A) (k : A -> X W B) (K R : Core -> Prop) :
  keep fails m K R -> (forall a, keep fails (k a) K R) -> keep fails (m ≫= k) K R.
Proof. intros Hm Hk c Hc. eapply keep_seq; [done|done|]. intros a c' Hc'. by apply Hk. Qed.

Lemma keep_when b (m : X W unit) K R : keep fails m K R -> keep fails (when b m) K R.
Proof. intros Hm c Hc. apply spec_when; [intros _; auto|done]. Qed.

Lemma keep_get (K R : Core -> Prop) : keep fails (get (W := W)) K R.
Proof. intros c Hc. by apply spec_get. Qed.

Lemma keep_check routine st c0 t0 rest P R :
  (forall t c, P t c -> fails \/ state t = st) ->
  keep fails (check_state (W := W) routine st) (at_level c0 t0 rest P) R.
Proof.
  intros HP c Hc. pose proof Hc as (t & Hs & _ & Ht & _).
  eapply spec_check_state; [done|by eauto|done].
Qed.

Lemma keep_no_parent c0 t0 P R :
  keep fails (assert_no_parent (W := W)) (at_level c0 t0 [] P) R.
Proof.
  intros c Hc. pose proof Hc as (t & Hs & _). apply spec_bind, spec_get. apply spec_assert; [|done].
  rewrite Hs. by apply bool_decide_eq_true_2.
Qed.

(** Reading the current level and its parent. *)
Lemma at_level_cur {B} (k : TransactionStateData -> X W B) c0 t0 rest P c Q R :
  at_level c0 t0 rest P c ->
  (forall t, stack c = t :: rest -> same_lvl t0 t -> P t c -> at_level c0 t0 rest P c ->
     spec fails (k t) c Q R) ->
  spec fails (CurrentTransactionState ≫= k) c Q R.
Proof.
  intros Hc Hk. pose proof Hc as (t & Hs & Hl & HP & _). apply spec_bind.
  eapply spec_cur; [done|]. auto.
Qed.

Lemma at_level_parent {B} (k : TransactionStateData -> X W B) c0 t0 p rest P c Q R :
  at_level c0 t0 (p :: rest) P c -> spec fails (k p) c Q R ->
  spec fails (parent_state ≫= k) c Q R.
Proof.
  intros (t & Hs & _) Hk. apply spec_bind. by eapply spec_parent.
Qed.

Lemma at_level_parallel {B} (k : bool -> X W B) c0 t0 rest P c Q R :
  at_level c0 t0 rest P c -> spec fails (k false) c Q R ->
  spec fails (IsInParallelMode ≫= k) c Q R.
Proof.
  intros (t & Hs & (_ & _ & _ & (Hp & _) & _) & _) Hk. apply spec_bind. by eapply spec_parallel.
Qed.

Lemma keep_set_user u c0 t0 rest (P : TransactionStateData -> Core -> Prop) R :
  (forall t c, P t c -> P t (set_SecurityRestrictionContext 0 (set_CurrentUserId u c))) ->
  keep fails (SetUserIdAndSecContext (W := W) u 0) (at_level c0 t0 rest P) R.
Proof.
  intros HP c (t & Hs & Hl & Ht & (((_ & Hw) & Hg) & Hr)). apply spec_modify. exists t.
  by refine (conj Hs (conj Hl (conj (HP _ _ Ht) (conj (conj (conj _ Hw) Hg) Hr)))).
Qed.

(** A step that moves the current level to another state. *)
Lemma at_level_upd {B} f (k : unit -> X W B) c0 t0 rest (P P' : TransactionStateData -> Core -> Prop)
    c Q R :
  at_level c0 t0 rest P c ->
  (forall t, same_lvl t0 t -> same_lvl t0 (f t)) ->
  (forall t, P t c -> P' (f t) (on_top f c)) ->
  (forall c', at_level c0 t0 rest P' c' -> spec fails (k tt) c' Q R) ->
  spec fails (upd_cur f ≫= k) c Q R.
Proof.
  intros Hc ?? Hk. apply spec_bind, spec_modify, Hk. by eapply at_level_on_top.
Qed.

(** A step on the static variables after which more is known. *)
Lemma at_level_mod {B} f (k : unit -> X W B) c0 t0 rest (P P' : TransactionStateData -> Core -> Prop)
    c Q R :
  at_level c0 t0 rest P c ->
  (stack (f c) = stack c /\ (same_glob c0 c -> same_glob c0 (f c))) ->
  (forall t, P t c -> P' t (f c)) ->
  (forall c', at_level c0 t0 rest P' c' -> spec fails (k tt) c' Q R) ->
  spec fails (modify f ≫= k) c Q R.
Proof.
  intros (t & Hs & Hl & HP & Hg) [Hf1 Hf2] Hf3 Hk. apply spec_bind, spec_modify, Hk.
  exists t. rewrite Hf1. auto.
Qed.

Context (Hfails : fails \/ no_failures E).

Lemma keep_sub f args (K R : Core -> Prop) : (forall c, K c -> fails -> R c) -> keep fails (sub E f args) K R.
Proof using Hfails. intros H c Hc. apply spec_sub; auto. Qed.

Lemma keep_calls l (K R : Core -> Prop) : (forall c, K c -> fails -> R c) -> keep fails (calls E l) K R.
Proof using Hfails. intros H c Hc. apply spec_calls; auto. Qed.

Lemma keep_fire_deferred b (K R : Core -> Prop) :
  (forall c, K c -> fails -> R c) -> keep fails (fire_deferred E (portal_rounds E) b) K R.
Proof using Hfails. intros H c Hc. apply spec_fire_deferred; auto. Qed.

End keep.

Ltac same_lvl_side :=
  let Hk := fresh in
  intros ? Hk;
  first [exact Hk | unfold same_lvl, lvl_ok in *; cbn in *; rewrite ?len_nil; intuition (lia || apply len_nonneg)].

(** One step of a routine that keeps what is known of the state: the hypothesis
    [K c] is carried over the first call of the sequence. *)
Ltac keep_side :=
  first
    [ apply keep_ret | apply keep_get
    | apply keep_sub; [assumption|solve [eauto]]
    | apply keep_calls; [assumption|solve [eauto]]
    | apply keep_fire_deferred; [assumption|solve [eauto]]
    | apply keep_modify; let Hk := fresh in intros ? Hk; exact Hk
    | apply keep_upd; [same_lvl_side|
        let c := fresh in let Hk := fresh in intros ? c Hk;
        first [exact Hk | unfold on_top; destruct (stack c); exact Hk]]
    | apply keep_no_parent
    | apply keep_set_user; let Hk := fresh in intros ? ? Hk; exact Hk
    | apply keep_when; keep_side
    | apply keep_bind; [keep_side|intros ?; keep_side]
    | match goal with
      | |- keep _ (if ?b then _ else _) _ _ => destruct b; keep_side
      | |- keep _ (match ?o with Some _ => _ | None => _ end) _ _ => destruct o; keep_side
      end ].

Ltac keep_step :=
  lazymatch goal with
  | H : ?K ?c |- spec _ (mbind _ _) ?c _ _ =>
      eapply (keep_seq _ _ _ _ _ _ _ H); [keep_side|]; clear dependent c; intros ? c H; cbv beta
  end.

(** The same for the last call of a routine. *)
Ltac keep_end :=
  lazymatch goal with
  | H : ?K ?c |- spec ?f ?m ?c _ ?R =>
      let Hk := fresh in
      assert (Hk : keep f m K R) by keep_side;
      refine (spec_mono _ _ _ _ _ _ _ (Hk c H) _ _); [intros _|]; clear; eauto
  end.

(** Assign fields of the current level, which then satisfies [P']. *)
Ltac upd_step P' :=
  lazymatch goal with
  | H : at_level _ _ _ _ ?c |- spec _ (mbind _ (upd_cur _)) ?c _ _ =>
      eapply (at_level_upd _ _ _ _ _ _ _ P' _ _ _ H);
        [same_lvl_side|
         intros ? Hk|clear dependent c; intros c H; cbv beta]
  end.

(** Assign static variables, after which the current level satisfies [P']. *)
Ltac mod_step P' :=
  lazymatch goal with
  | H : at_level _ _ _ _ ?c |- spec _ (mbind _ (modify _)) ?c _ _ =>
      eapply (at_level_mod _ _ _ _ _ _ _ P' _ _ _ H);
        [split; [reflexivity|intros Hk; exact Hk]|intros ? Hk|clear dependent c; intros c H; cbv beta]
  end.

Ltac cur_step t Hs Hl HP :=
  lazymatch goal with
  | H : at_level _ _ _ _ ?c |- spec _ (mbind _ CurrentTransactionState) ?c _ _ =>
      eapply (at_level_cur _ _ _ _ _ _ _ _ _ H); clear H; intros t Hs Hl HP H; cbv beta in HP
  end.

Ltac par_step := eapply at_level_parallel; [eassumption|]; cbv beta; cbn [when].

Ltac upd_end :=
  lazymatch goal with
  | H : at_level _ _ _ _ ?c |- spec _ (upd_cur _) ?c _ _ =>
      apply spec_modify; eapply at_level_on_top;
        [exact H|same_lvl_side|
         intros ? Hk]
  end.
