(* ===== verification/XactLow.v ===== *)
(** What the low-level routines of Xact.v do to the transaction stack, stated in
    the logic of XactSpec.v: the routines on a top-level transaction
    ([StartTransaction], [CommitTransaction], [PrepareTransaction],
    [AbortTransaction], [CleanupTransaction]) and on a subtransaction. *)
From S2P Require Import Prelude.
From S2P Require Import Xact.
From S2P Require Import XactBlock.
From S2P Require Import XactSpec.
Open Scope list_scope.
Open Scope Z_scope.

(** The static variables of a backend outside any transaction. *)
Definition idle_glob (c : Core) : Prop :=
  XactTopFullTransactionId c = 0 /\ TopTransactionResourceOwner c = None.

Definition closed (t : TransactionStateData) (c : Core) : Prop :=
  state t = TRANS_DEFAULT /\ nestingLevel t = 0 /\ idle_glob c.

#[export] Hint Resolve at_level_any : core.

Section low.
Context {W : Type} (E : Subsystems W) (fails : Prop) (Hfails : fails \/ no_failures E).

(** The parallel-worker branches are never taken. *)
Lemma not_parallel (t0 t : TransactionStateData) :
  same_lvl t0 t -> blockState t0 <> TBLOCK_PARALLEL_INPROGRESS ->
  is_block TBLOCK_PARALLEL_INPROGRESS t = false.
Proof. intros (Hb & _) ?. apply bool_decide_eq_false_2. by rewrite Hb. Qed.

Lemma lvl_sec t0 t : same_lvl t0 t -> prevSecContext t = 0.
Proof. by intros (_ & _ & _ & (_ & ? & _) & _). Qed.

Lemma AbortTransaction_spec (P : TransactionStateData -> Prop) c0 t0 c :
  (forall t, P t -> fails \/ state t = TRANS_INPROGRESS \/ state t = TRANS_PREPARE) ->
  at_level c0 t0 [] (fun t _ => P t) c ->
  spec fails (AbortTransaction E) c (fun _ => at_level c0 t0 [] (in_state TRANS_ABORT))
    (fun c' => fails /\ at_level c0 t0 [] (fun t _ => P t \/ state t = TRANS_ABORT) c').
Proof using Hfails.
  intros HP H. unfold AbortTransaction, abort_first_steps, AtAbort_ResourceOwner.
  assert (H1 : forall c', at_level c0 t0 [] (fun t _ => P t) c' ->
                 at_level c0 t0 [] (fun t _ => P t \/ state t = TRANS_ABORT) c').
  { intros c'. apply at_level_weaken. by left. }
  assert (H2 : forall c', at_level c0 t0 [] (in_state TRANS_ABORT) c' ->
                 at_level c0 t0 [] (fun t _ => P t \/ state t = TRANS_ABORT) c').
  { intros c'. apply at_level_weaken. by right. }
  keep_step. eapply (keep_seq _ _ _ _ _ _ _ H); [by apply keep_modify|].
  clear dependent c. intros _ c H. keep_step. cur_step t Hs Hl Hst.
  rewrite (lvl_sec _ _ Hl).
  apply spec_bind. apply spec_mono with (Q := fun _ c' => c' = c) (R := fun _ => False); [|intros ? ? ->|done].
  { unfold is_state. repeat case_bool_decide; cbn; [by apply spec_ret..|].
    apply spec_elog_warning; [|done]. destruct (HP t Hst) as [?|[?|?]]; done. }
  keep_step. upd_step (in_state TRANS_ABORT); [done|].
  do 2 keep_step. par_step. do 5 keep_step. keep_end.
Qed.

(** The common end of commit, prepare and clean-up. *)
Lemma forget_owners_spec {B} (k : unit -> X W B) c0 t0 rest P c Q R :
  (forall t c o, P t c -> P (set_curTransactionOwner o t) (on_top (set_curTransactionOwner o) c)) ->
  (forall t c, P t c -> P t (set_CurTransactionResourceOwner None c) /\
                        P t (set_TopTransactionResourceOwner None c)) ->
  at_level c0 t0 rest P c ->
  (forall c', at_level c0 t0 rest (fun t c => P t c /\ TopTransactionResourceOwner c = None) c' ->
     spec fails (k tt) c' Q R) ->
  spec fails (forget_owners ≫= k) c Q R.
Proof.
  intros HP1 HP2 H Hcont. unfold forget_owners. apply spec_assoc.
  upd_step P; [by apply HP1|]. apply spec_assoc.
  mod_step P; [by apply HP2|].
  mod_step (fun t c => P t c /\ TopTransactionResourceOwner c = None);
    [by split; [apply HP2|]|]. by apply Hcont.
Qed.

Lemma on_top_Top f c : TopTransactionResourceOwner (on_top f c) = TopTransactionResourceOwner c.
Proof. unfold on_top. by destruct (stack c). Qed.

Lemma on_top_xid f c : XactTopFullTransactionId (on_top f c) = XactTopFullTransactionId c.
Proof. unfold on_top. by destruct (stack c). Qed.

Definition no_owner (t : TransactionStateData) (c : Core) : Prop :=
  TopTransactionResourceOwner c = None.

Lemma reset_end_spec f c0 t0 rest P c R :
  (forall t c, P t c -> no_owner t c) ->
  (forall t, same_lvl t0 t -> same_lvl t0 (f t)) ->
  (forall t, childXids (f t) = [] /\ nestingLevel (f t) = 0) ->
  at_level c0 t0 rest P c ->
  spec (W := W) fails (upd_cur f;; reset_xids;; upd_cur (set_state TRANS_DEFAULT)) c
    (fun _ => at_level c0 t0 rest closed) R.
Proof.
  intros HP Hf1 Hf2 H.
  eapply (at_level_upd _ _ _ _ _ _ _ (fun t c => nestingLevel t = 0 /\ no_owner t c) _ _ _ H).
  - done.
  - intros t Ht. split; [apply Hf2|]. unfold no_owner. rewrite on_top_Top. by eapply HP.
  - clear dependent c. intros c H. unfold reset_xids. apply spec_assoc.
    mod_step (fun t c => nestingLevel t = 0 /\ idle_glob c); [by destruct Hk|].
    keep_step. upd_end. destruct Hk as (Hn & Hx & Ho). split; [done|].
    split; [done|]. split; [by rewrite on_top_xid|by rewrite on_top_Top].
Qed.

Lemma CleanupTransaction_spec c0 t0 c :
  at_level c0 t0 [] (in_state TRANS_ABORT) c ->
  spec fails (CleanupTransaction E) c (fun _ => at_level c0 t0 [] closed)
    (fun c' => fails /\ at_level c0 t0 [] (in_state TRANS_ABORT) c').
Proof using Hfails.
  intros H. unfold CleanupTransaction. cur_step t Hs Hl Hst.
  unfold is_state. rewrite bool_decide_eq_true_2 by done. cbn [negb].
  do 4 keep_step. eapply forget_owners_spec; [..|exact H|]; [done|done|].
  clear dependent c. intros c H.
  assert (Hw : forall c', at_level c0 t0 [] (fun t c => in_state TRANS_ABORT t c /\
      TopTransactionResourceOwner c = None) c' -> at_level c0 t0 [] (in_state TRANS_ABORT) c').
  { intros c'. apply at_level_weaken. tauto. }
  do 2 keep_step.
  eapply reset_end_spec; [..|exact H]; [by intros ? ? [_ ?]|same_lvl_side|done].
Qed.

Lemma CommitTransaction_spec c0 t0 c :
  blockState t0 <> TBLOCK_PARALLEL_INPROGRESS ->
  at_level c0 t0 [] (fun t _ => fails \/ state t = TRANS_INPROGRESS) c ->
  spec fails (CommitTransaction E) c (fun _ => at_level c0 t0 [] closed)
    (fun c' => fails /\ at_level c0 t0 [] any_state c').
Proof using Hfails.
  intros Hb H. unfold CommitTransaction. cur_step t Hs Hl Hst.
  rewrite (not_parallel t0 t Hl Hb). keep_step.
  eapply (keep_seq _ _ _ _ _ _ _ H); [by apply keep_check|].
  clear dependent c. intros _ c H. apply at_level_any in H.
  do 3 keep_step. par_step. do 4 keep_step.
  upd_step any_state; [done|]. do 5 keep_step.
  eapply forget_owners_spec; [..|exact H|]; [done|done|]. clear dependent c. intros c H.
  keep_step. eapply reset_end_spec; [..|exact H]; [by intros ? ? [_ ?]|same_lvl_side|done].
Qed.

(** A fresh transaction. *)
Definition counters_reset (t : TransactionStateData) (c : Core) : Prop :=
  MyXactFlags c = 0 /\ currentSubTransactionId c = TopSubTransactionId /\
  currentCommandId c = FirstCommandId /\ currentCommandIdUsed c = false /\
  childXids t = [] /\ nestingLevel t = 1.

Definition opened (t : TransactionStateData) (c : Core) : Prop :=
  state t = TRANS_INPROGRESS /\ counters_reset t c.

Lemma set_flags_glob c0 c : same_glob c0 c -> same_glob c0 (set_MyXactFlags 0 (set_forceSyncCommit false c)).
Proof. intros ((H1 & H2 & H3 & _ & H5) & H6). by refine (conj (conj H1 (conj H2 (conj H3 (conj _ H5)))) H6); right. Qed.

Lemma set_subid_glob c0 c : same_glob c0 c -> same_glob c0 (set_currentSubTransactionId TopSubTransactionId c).
Proof. intros [H1 H2]. by refine (conj H1 _). Qed.

Lemma set_cid_glob c0 c :
  same_glob c0 c -> same_glob c0 (set_currentCommandIdUsed false (set_currentCommandId FirstCommandId c)).
Proof.
  intros ((H1 & H2 & H3 & H4 & H5) & H6). refine (conj (conj H1 (conj H2 (conj H3 (conj H4 _)))) H6).
  intros Hl. by refine (conj _ _); [|right].
Qed.

Lemma AtStart_ResourceOwner_spec {B} (k : unit -> X W B) c0 t0 (P P' : TransactionStateData -> Core -> Prop)
    c Q (R : Core -> Prop) :
  (forall t c o, P t c -> P' (set_curTransactionOwner o t) (on_top (set_curTransactionOwner o) c)) ->
  (forall t c o, P' t c -> P' t (set_TopTransactionResourceOwner o c) /\
     P' t (set_CurTransactionResourceOwner o c) /\ P' t (set_CurrentResourceOwner o c)) ->
  (forall c, at_level c0 t0 [] P c -> fails -> R c) ->
  at_level c0 t0 [] (fun t c => P t c /\ no_owner t c) c ->
  (forall c', at_level c0 t0 [] P' c' -> spec fails (k tt) c' Q R) ->
  spec fails (AtStart_ResourceOwner E ≫= k) c Q R.
Proof using Hfails.
  intros HP1 HP2 HR H Hcont. unfold AtStart_ResourceOwner. apply spec_assoc, spec_bind, spec_get.
  apply spec_assoc, spec_bind, spec_assert.
  { apply bool_decide_eq_true_2. by destruct H as (t & _ & _ & (_ & Ho) & _). }
  assert (H' : at_level c0 t0 [] P c) by (eapply at_level_weaken; [|exact H]; tauto). clear H.
  rename H' into H. apply spec_assoc. keep_step. apply spec_assoc.
  upd_step P'; [by apply HP1|]. apply spec_assoc. mod_step P'; [by eapply HP2|].
  apply spec_assoc. mod_step P'; [by eapply HP2|]. mod_step P'; [by eapply HP2|]. by apply Hcont.
Qed.

Definition starting (t : TransactionStateData) (c : Core) : Prop :=
  state t = TRANS_START /\ no_owner t c.

Definition starting_fields (t : TransactionStateData) (c : Core) : Prop :=
  starting t c /\ childXids t = [] /\ nestingLevel t = 1.

Ltac mod_with L P' :=
  lazymatch goal with
  | H : at_level _ _ _ _ ?c |- _ =>
      eapply (at_level_mod _ _ _ _ _ _ _ P' _ _ _ H);
        [split; [reflexivity|apply L]|
         let Hk := fresh in intros ? Hk; repeat (split; [reflexivity|]); exact Hk|
         clear dependent c; intros c H; cbv beta]
  end.

Lemma starting_err c0 t0 (P : TransactionStateData -> Core -> Prop) c :
  at_level c0 t0 [] P c -> (forall t, P t c -> state t = TRANS_START) ->
  at_level c0 t0 [] (in_state TRANS_START) c.
Proof. intros H HP. by eapply at_level_weaken. Qed.

Hint Extern 1 (at_level _ _ [] (in_state TRANS_START) _) =>
  eapply starting_err; [eassumption|unfold starting_fields, starting, counters_reset; tauto] : core.

Lemma StartTransaction_spec c0 t0 c :
  at_level c0 t0 [] (fun t c => state t = TRANS_DEFAULT /\ idle_glob c) c ->
  spec fails (StartTransaction E) c (fun _ => at_level c0 t0 [] opened)
    (fun c' => fails /\ at_level c0 t0 [] (in_state TRANS_START) c').
Proof using Hfails.
  intros H. unfold StartTransaction.
  eapply (keep_seq _ _ _ _ _ _ _ H); [apply keep_modify; clear|].
  { intros c (t & Hs & Hl & HP & Hg). exists t. rewrite Hs. cbn [length pred drop].
    split; [done|]. split; [done|]. split; [exact HP|].
    exact Hg. }
  clear dependent c. intros _ c H.
  eapply (spec_get_as _ (fun c => idle_glob c /\ glob_ok c)).
  { by destruct H as (t & _ & _ & (_ & ?) & ((? & _) & _)). }
  intros c1 ((Hx & Ho) & Hsec & Hpw). rewrite Hx, Hsec. apply Z.ltb_lt in Hpw. rewrite Hpw.
  apply spec_bind, spec_assert; [done|]. cur_step t Hs Hl Hst.
  apply spec_bind, spec_assert; [apply bool_decide_eq_true_2, Hst|]. clear t Hs Hl Hst.
  upd_step starting; [by destruct Hk as (? & _ & ?); split; [|unfold no_owner; rewrite on_top_Top]|].
  do 2 keep_step.
  upd_step starting_fields;
    [by destruct Hk as [? ?]; repeat split; unfold no_owner; rewrite ?on_top_Top|].
  upd_step starting_fields;
    [by unfold on_top; destruct (stack c)|].
  apply spec_bind, spec_assert; [done|]. do 3 keep_step.
  mod_with set_flags_glob (fun t c => MyXactFlags c = 0 /\ starting_fields t c). keep_step.
  mod_with set_subid_glob (fun t c => currentSubTransactionId c = TopSubTransactionId /\
    MyXactFlags c = 0 /\ starting_fields t c).
  mod_with set_cid_glob (fun t c => currentCommandId c = FirstCommandId /\
    currentCommandIdUsed c = false /\ currentSubTransactionId c = TopSubTransactionId /\
    MyXactFlags c = 0 /\ starting_fields t c).
  do 3 keep_step.
  eapply (AtStart_ResourceOwner_spec _ _ _ (fun t c => state t = TRANS_START /\ counters_reset t c)
    (fun t c => state t = TRANS_START /\ counters_reset t c)).
  { intros t c' o. unfold on_top. by destruct (stack c'). }
  { done. }
  { auto. }
  { eapply at_level_weaken; [|exact H]. unfold starting_fields, starting, counters_reset. tauto. }
  clear dependent c. intros c H. do 7 keep_step. upd_end.
  destruct Hk as [_ Hk]. split; [done|]. unfold on_top. by destruct (stack c).
Qed.

(** * XID assignment *)

(** Assigning XIDs changes nothing else on the stack. *)
Definition xid_only (t t' : TransactionStateData) : Prop :=
  exists x b, t' = set_didLogXid b (set_fullTransactionId x t).

Definition xids_assigned (c0 : Core) (l0 : list TransactionStateData) (c : Core) : Prop :=
  Forall2 xid_only l0 (stack c) /\ same_glob c0 c.

Lemma xid_only_refl t : xid_only t t.
Proof. exists (fullTransactionId t), (didLogXid t). by destruct t. Qed.

Lemma xid_only_lvl t0 t t' : same_lvl t0 t -> xid_only t t' -> same_lvl t0 t'.
Proof. by intros H (x & b & ->). Qed.

Lemma xids_alter c0 l0 c k f :
  xids_assigned c0 l0 c -> (forall t t', xid_only t t' -> xid_only t (f t')) ->
  xids_assigned c0 l0 (set_stack (alter f k (stack c)) c).
Proof.
  intros (Hl & Hg) Hf. assert (Hl' : Forall2 xid_only l0 (alter f k (stack c))).
  { apply Forall2_lookup. intros i. rewrite Forall2_lookup in Hl. specialize (Hl i).
    rewrite list_lookup_alter. case_decide as Hk; [|done]. subst.
    inversion Hl; cbn; constructor; auto. }
  by split; [|exact Hg].
Qed.

Lemma keep_upd_level k f c0 l0 R :
  (forall t t', xid_only t t' -> xid_only t (f t')) ->
  keep (W := W) fails (upd_level k f) (xids_assigned c0 l0) R.
Proof. intros Hf c Hc. apply spec_modify. by apply xids_alter. Qed.

Lemma keep_level k c0 l0 R :
  (k < length l0)%nat -> keep (W := W) fails (level k) (xids_assigned c0 l0) R.
Proof.
  intros Hk c Hc. unfold level. apply spec_bind, spec_get.
  destruct (stack c !! k) eqn:Hs; [by apply spec_ret|].
  apply lookup_ge_None in Hs. destruct Hc as [Hl _]. apply Forall2_length in Hl. lia.
Qed.

Ltac xid_side :=
  first [ by apply keep_level; lia
        | apply keep_upd_level; intros ? ? (? & ? & ->); eexists _, _; reflexivity
        | keep_side ].

Ltac xid_step :=
  lazymatch goal with
  | H : ?K ?c |- spec _ (mbind _ _) ?c _ _ =>
      eapply (keep_seq _ _ _ _ _ _ _ H);
      [first [xid_side | apply keep_bind; [xid_side|intros ?; xid_side]]|];
      clear dependent c; intros ? c H; cbv beta
  end.

Lemma assign_xid_spec k b1 b2 c0 l0 c :
  (k < length l0)%nat -> (b1 = true -> (S k < length l0)%nat) -> xids_assigned c0 l0 c ->
  spec fails (assign_xid E k b1 b2) c (fun _ => xids_assigned c0 l0)
    (fun c' => fails /\ xids_assigned c0 l0 c').
Proof using Hfails.
  intros Hk Hb H. unfold assign_xid. do 2 xid_step.
  eapply (keep_seq _ _ _ _ _ _ _ H).
  { destruct b1; [specialize (Hb eq_refl)|]; apply keep_bind.
    - xid_side.
    - intros p. xid_side.
    - xid_side.
    - intros ?. xid_side. }
  clear dependent c. intros _ c H. do 6 xid_step.
  destruct (b1 && _); [|by apply spec_ret]. do 2 xid_step.
  destruct (_ || _); [|by apply spec_ret]. do 2 xid_step.
  apply keep_upd_level; [|done]. intros ? ? (? & ? & ->). eexists _, _; reflexivity.
Qed.

(** What XID assignment needs of the stack. *)
Definition xid_ready (l : list TransactionStateData) : Prop :=
  Forall (fun t => state t = TRANS_INPROGRESS /\ parallelModeLevel t = 0) l.

Lemma xids_lookup c0 l0 c k :
  xids_assigned c0 l0 c -> xid_ready l0 -> (k < length l0)%nat ->
  exists t, stack c !! k = Some t /\ state t = TRANS_INPROGRESS /\ parallelModeLevel t = 0.
Proof.
  intros [Hl _] Hr Hk. destruct (lookup_lt_is_Some_2 l0 k Hk) as [t0 Ht0].
  destruct (Forall2_lookup_l _ _ _ _ _ Hl Ht0) as (t & Ht & x & b & ->).
  exists (set_didLogXid b (set_fullTransactionId x t0)).
  by split; [|apply (Forall_lookup_1 _ _ _ _ Hr Ht0)].
Qed.

Lemma spec_level {B} k t (kont : TransactionStateData -> X W B) c Q R :
  stack c !! k = Some t -> spec fails (kont t) c Q R -> spec fails (level k ≫= kont) c Q R.
Proof. intros Ht H. apply spec_bind. unfold level. apply spec_bind, spec_get. rewrite Ht. by apply spec_ret. Qed.

Lemma AssignTransactionId_spec depth k c0 l0 c t :
  (k < length l0)%nat -> (length l0 <= S k + depth)%nat -> xid_ready l0 ->
  xids_assigned c0 l0 c -> stack c !! k = Some t ->
  FullTransactionIdIsValid (fullTransactionId t) = false ->
  spec fails (AssignTransactionId E depth k) c (fun _ => xids_assigned c0 l0)
    (fun c' => fails /\ xids_assigned c0 l0 c').
Proof using Hfails.
  revert k c t. induction depth as [|depth IH]; intros k c t Hk Hd Hr H Ht Hx;
    cbn [AssignTransactionId]; (eapply spec_level; [done|]);
    destruct (xids_lookup _ _ _ _ H Hr Hk) as (t' & Ht' & Hst & _); simplify_eq;
    pose proof (Forall2_length _ _ _ (proj1 H)) as Hlen;
    (eapply (spec_get_as _ (fun c1 => length (stack c1) = length l0 /\ (0 <=? ParallelWorkerNumber c1) = false));
      [split; [done|]; apply Z.leb_gt, H|]); intros c1 [Hl1 Hw1];
    (apply spec_bind, spec_assert; [by rewrite Hx|]);
    (apply spec_bind, spec_assert; [by apply bool_decide_eq_true_2|]);
    (destruct (xids_lookup _ _ _ 0 H Hr) as (t0 & Ht0 & _ & Hp); [lia|]);
    (destruct (stack c) as [|s0 r0] eqn:Hs0; [done|]); simplify_eq/=;
    (apply spec_bind; eapply spec_parallel; [done|done|]); rewrite Hw1; cbn [orb];
    apply spec_bind, spec_ret; rewrite Hl1, <- Hs0 in *; clear Hs0.
  - rewrite bool_decide_eq_false_2 by lia. do 2 xid_step. xid_step.
    apply assign_xid_spec; [done|done|done].
  - eapply (keep_seq _ _ _ _ (xids_assigned c0 l0)); [done| |].
    { intros c2 H2. case_bool_decide as Hlt; [|by apply spec_ret].
      destruct (xids_lookup _ _ _ (S k) H2 Hr Hlt) as (p & Hp2 & _).
      eapply spec_level; [done|]. destruct (FullTransactionIdIsValid (fullTransactionId p)) eqn:Hv; [by apply spec_ret|].
      by eapply IH; [lia|lia|..]. }
    clear dependent c. intros _ c H. do 2 xid_step.
    apply assign_xid_spec; [done| |done]. intros Hb. by apply bool_decide_eq_true_1 in Hb.
Qed.

Lemma GetCurrentTransactionId_spec c0 l0 c :
  l0 <> [] -> xid_ready l0 -> xids_assigned c0 l0 c ->
  spec fails (GetCurrentTransactionId E) c (fun _ => xids_assigned c0 l0)
    (fun c' => fails /\ xids_assigned c0 l0 c').
Proof using Hfails.
  intros Hne Hr H. unfold GetCurrentTransactionId.
  assert (Hpos : (0 < length l0)%nat) by (destruct l0; [done|cbn; lia]).
  destruct (xids_lookup _ _ _ 0 H Hr Hpos) as (t & Ht & Hst & Hp).
  assert (exists r, stack c = t :: r) as [r Hs].
  { destruct (stack c); simplify_eq/=. eauto. }
  apply spec_bind. eapply spec_cur; [done|]. apply spec_bind, spec_get.
  apply spec_bind. apply spec_mono with (Q := fun _ => xids_assigned c0 l0)
    (R := fun c' => fails /\ xids_assigned c0 l0 c');
    [|clear dependent c t; intros _ c H|done].
  - destruct (FullTransactionIdIsValid _) eqn:Hv; [by apply spec_ret|].
    eapply AssignTransactionId_spec; [done| |done|done|done|done].
    destruct H as [Hl _]. apply Forall2_length in Hl. lia.
  - destruct (xids_lookup _ _ _ 0 H Hr Hpos) as (t & Ht & _).
    destruct (stack c) eqn:Hs; simplify_eq/=.
    apply spec_bind. eapply spec_cur; [done|]. by apply spec_ret.
Qed.

Definition undecided (t : TransactionStateData) (c : Core) : Prop :=
  fails \/ state t = TRANS_INPROGRESS.

Lemma undecided_any c0 t0 rest P c :
  at_level c0 t0 rest P c -> fails -> at_level c0 t0 rest undecided c.
Proof. intros H Hf. eapply at_level_weaken; [|exact H]. by left. Qed.

Hint Resolve undecided_any : core.

(** PREPARE TRANSACTION can be refused while the transaction is still live. *)
Lemma PrepareTransaction_spec c0 t0 c :
  at_level c0 t0 [] (in_state TRANS_INPROGRESS) c ->
  spec fails (PrepareTransaction E) c (fun _ => at_level c0 t0 [] closed)
    (at_level c0 t0 [] undecided).
Proof using Hfails.
  intros (t & Hs & Hl & Hst & Hg). unfold PrepareTransaction.
  assert (Hx : forall c', xids_assigned c0 [t] c' -> at_level c0 t0 [] (in_state TRANS_INPROGRESS) c').
  { intros c' [Hf Hg']. apply Forall2_cons_inv_l in Hf as (t' & l & Ht' & Hn & Hs').
    apply Forall2_nil_inv_l in Hn as ->. exists t'. split; [done|].
    split; [by eapply xid_only_lvl|]. destruct Ht' as (x & b & ->). done. }
  assert (Hu : forall c', at_level c0 t0 [] (in_state TRANS_INPROGRESS) c' ->
                 at_level c0 t0 [] undecided c').
  { intros c' H. eapply at_level_weaken; [|exact H]. by right. }
  apply spec_bind. eapply spec_mono; [apply (GetCurrentTransactionId_spec c0 [t])|..].
  - done.
  - apply Forall_singleton. split; [done|apply Hl].
  - split; [rewrite Hs|done]. constructor; [apply xid_only_refl|done].
  - clear dependent c. intros xid c H. cbv beta. apply Hx in H. clear dependent t.
    par_step. apply spec_bind, spec_assert; [done|].
    eapply (keep_seq _ _ _ _ _ _ _ H); [apply keep_check; by right|].
    clear dependent c. intros _ c H. do 3 keep_step. apply spec_bind, spec_get.
    apply spec_bind. destruct (negb _); [by apply spec_throw, Hu|]. apply spec_ret.
    generalize (owner_id (TopTransactionResourceOwner c)), (CurrentUserId c). intros top user.
    keep_step. apply spec_bind. destruct (negb _); [by apply spec_throw, Hu|]. apply spec_ret.
    upd_step any_state; [done|]. do 7 keep_step.
    eapply forget_owners_spec; [..|exact H|]; [done|done|]. clear dependent c. intros c H.
    keep_step. eapply reset_end_spec; [..|exact H]; [by intros ? ? [_ ?]|same_lvl_side|done].
  - intros c' [_ H]. by apply Hu, Hx.
Qed.

(** * Subtransactions *)
Lemma AbortSubTransaction_spec c0 t0 p rest c :
  at_level c0 t0 (p :: rest) (fun t _ => fails \/ state t = TRANS_INPROGRESS) c ->
  spec fails (AbortSubTransaction E) c (fun _ => at_level c0 t0 (p :: rest) (in_state TRANS_ABORT))
    (fun c' => fails /\ at_level c0 t0 (p :: rest) any_state c').
Proof using Hfails.
  intros H. unfold AbortSubTransaction, abort_first_steps. keep_step.
  unfold AtSubAbort_ResourceOwner. apply spec_assoc. cur_step u Hu Hlu Hstu.
  do 2 keep_step. eapply (keep_seq _ _ _ _ _ _ _ H); [by apply keep_check|].
  clear dependent c. intros _ c H. upd_step (in_state TRANS_ABORT); [done|].
  cur_step t Hs Hl Hst. rewrite (lvl_sec _ _ Hl).
  do 2 keep_step. par_step. keep_step.
  apply spec_bind.
  apply spec_mono with (Q := fun _ => at_level c0 t0 (p :: rest) (in_state TRANS_ABORT))
    (R := fun c' => fails /\ at_level c0 t0 (p :: rest) any_state c'); [|clear dependent c; intros _ c H; keep_end|done].
  destruct (curTransactionOwner t) as [o|]; [|by apply spec_ret].
  eapply at_level_parent; [exact H|]. keep_step. unfold AtSubAbort_childXids.
  destruct (FullTransactionIdIsValid _); keep_step; keep_end.
Qed.

Lemma PopTransaction_spec c0 t0 p rest P c R :
  (forall t c, P t c -> fails \/ state t = TRANS_DEFAULT) ->
  at_level c0 t0 (p :: rest) P c ->
  spec (W := W) fails PopTransaction c (fun _ c' => stack c' = p :: rest /\ same_glob c0 c') R.
Proof.
  intros HP H. unfold PopTransaction.
  eapply (keep_seq _ _ _ _ _ _ _ H); [by apply keep_check|]. clear dependent c. intros _ c H.
  pose proof H as (t & Hs & _). apply spec_bind, spec_get. rewrite Hs.
  apply spec_bind, spec_modify, spec_modify. split; [done|].
  by destruct H as (_ & _ & _ & _ & ?).
Qed.

Lemma CleanupSubTransaction_spec c0 t0 p rest c :
  at_level c0 t0 (p :: rest) (fun t _ => fails \/ state t = TRANS_ABORT) c ->
  spec fails (CleanupSubTransaction E) c (fun _ c' => stack c' = p :: rest /\ same_glob c0 c')
    (fun c' => fails /\ at_level c0 t0 (p :: rest) (fun t _ => fails \/ state t = TRANS_ABORT) c').
Proof using Hfails.
  intros H. unfold CleanupSubTransaction.
  eapply (keep_seq _ _ _ _ _ _ _ H); [by apply keep_check|]. clear dependent c. intros _ c H.
  cur_step t Hs Hl Hst. keep_step. eapply at_level_parent; [exact H|]. do 5 keep_step.
  upd_step (in_state TRANS_DEFAULT); [done|]. eapply PopTransaction_spec; [|exact H]. by right.
Qed.

Lemma StartSubTransaction_spec c0 t0 p rest c :
  at_level c0 t0 (p :: rest) (fun t _ => fails \/ state t = TRANS_DEFAULT) c ->
  spec fails (StartSubTransaction E) c (fun _ => at_level c0 t0 (p :: rest) (in_state TRANS_INPROGRESS))
    (fun c' => fails /\ at_level c0 t0 (p :: rest) any_state c').
Proof using Hfails.
  intros H. unfold StartSubTransaction.
  eapply (keep_seq _ _ _ _ _ _ _ H); [by apply keep_check|]. clear dependent c. intros _ c H.
  upd_step any_state; [done|]. keep_step. unfold AtSubStart_ResourceOwner. apply spec_assoc.
  eapply at_level_parent; [exact H|]. apply spec_assoc. keep_step. apply spec_assoc. keep_step.
  do 2 keep_step. upd_step (in_state TRANS_INPROGRESS); [done|]. cur_step t Hs Hl Hst.
  eapply at_level_parent; [exact H|]. keep_end.
Qed.

Lemma keep_CCI c0 t0 rest (P : TransactionStateData -> Core -> Prop) R :
  (fails \/ limits c0) ->
  (forall t c v, P t c -> P t (set_currentCommandIdUsed false (set_currentCommandId v c))) ->
  (forall c, at_level c0 t0 rest P c -> fails -> R c) ->
  keep fails (CommandCounterIncrement E) (at_level c0 t0 rest P) R.
Proof using Hfails.
  intros Hlim HP HR c H. unfold CommandCounterIncrement. apply spec_bind, spec_get.
  destruct (currentCommandIdUsed c) eqn:Hu; [|by apply spec_ret]. par_step.
  pose proof H as (t & Hs & Hl & Ht & Hg). pose proof Hg as (((_ & Hw) & _ & _ & _ & Hg5) & _).
  replace (0 <=? ParallelWorkerNumber c) with false by (symmetry; apply Z.leb_gt; lia). cbn [orb].
  destruct (Z.eqb_spec (u32 (currentCommandId c + 1)) InvalidCommandId) as [Hov|Hne].
  - apply spec_throw. destruct Hlim as [Hf|Hlim]; [by apply HR|].
    destruct (Hg5 Hlim) as (L1 & [L2|L2]); [|congruence].
    unfold InvalidCommandId in *. rewrite u32_small in Hov by lia. lia.
  - apply spec_bind, spec_modify, spec_bind, spec_modify.
    assert (H' : at_level c0 t0 rest P (set_currentCommandIdUsed false
                  (set_currentCommandId (u32 (currentCommandId c + 1)) c))).
    { exists t. split; [done|]. split; [done|]. split; [by apply HP|].
      destruct Hg as ((H1 & H2 & H3 & H4 & H5) & H6).
      refine (conj (conj H1 (conj H2 (conj H3 (conj H4 _)))) H6).
      intros Hl0. refine (conj _ _); [|by right].
      cbn. unfold u32. apply Z.mod_pos_bound. lia. }
    apply spec_calls; [done|done|by apply HR].
Qed.

(** The parent of a committing subtransaction changes only in its child XIDs. *)
Definition child_only (n : Z) (p p' : TransactionStateData) : Prop :=
  exists l m, p' = set_childXids l (set_maxChildXids m p) /\ len l <= n.

Lemma child_only_refl n p : len (childXids p) <= n -> child_only n p p.
Proof. exists (childXids p), (maxChildXids p). by destruct p. Qed.

Lemma at_level_rest c0 t0 rest rest' P P' c :
  (forall t, P t c -> P' t (set_stack (t :: rest') c)) ->
  at_level c0 t0 rest P c ->
  exists t, stack c = t :: rest /\ at_level c0 t0 rest' P' (set_stack (t :: rest') c).
Proof.
  intros HP (t & Hs & Hl & Ht & Hg). exists t. split; [done|]. exists t.
  split; [done|]. split; [done|]. split; [by apply HP|exact Hg].
Qed.

Lemma AtSubCommit_childXids_spec c0 t0 p rest c :
  let n := len (childXids t0) + len (childXids p) + 1 in
  (fails \/ n <= MaxChildXids) ->
  at_level c0 t0 (p :: rest) any_state c ->
  spec fails (AtSubCommit_childXids E) c
    (fun _ c' => exists p', child_only n p p' /\ at_level c0 t0 (p' :: rest) any_state c')
    (fun c' => fails /\ exists p', child_only n p p' /\ at_level c0 t0 (p' :: rest) any_state c').
Proof using Hfails.
  intros n Hroom H. unfold AtSubCommit_childXids. cur_step t Hs Hl Ht.
  eapply at_level_parent; [exact H|].
  assert (Hlt : len (childXids t) <= len (childXids t0)) by apply Hl.
  pose proof (len_nonneg (childXids t0)). pose proof (len_nonneg (childXids t)).
  pose proof (len_nonneg (childXids p)).
  set (p1 := fun m => set_maxChildXids m p).
  apply spec_bind.
  apply spec_mono with (Q := fun _ c' => exists m, stack c' = t :: p1 m :: rest /\ same_glob c0 c')
    (R := fun c' => fails /\ exists p', child_only n p p' /\ at_level c0 t0 (p' :: rest) any_state c');
    [| |done].
  - destruct (Z.ltb_spec (maxChildXids p) (len (childXids p) + len (childXids t) + 1)) as [Hm|Hm].
    + destruct (Z.ltb_spec (Z.min ((len (childXids p) + len (childXids t) + 1) * 2) MaxChildXids)
                  (len (childXids p) + len (childXids t) + 1)) as [Ho|Ho].
      * apply spec_throw. destruct Hroom as [Hf|Hr]; [|unfold n in Hr; lia].
        split; [done|]. exists p. split; [apply child_only_refl; unfold n; lia|done].
      * apply spec_bind, spec_sub; [done|intros _|].
        -- apply spec_modify. rewrite Hs. eexists. split; [reflexivity|].
           by destruct H as (_ & _ & _ & _ & Hg).
        -- intros Hf. split; [done|]. exists p. split; [apply child_only_refl; unfold n; lia|done].
    + apply spec_ret. exists (maxChildXids p). rewrite Hs. unfold p1.
      split; [by destruct p|]. by destruct H as (_ & _ & _ & _ & Hg).
  - intros _ c' (m & Hs' & Hg'). apply spec_bind, spec_modify, spec_modify. rewrite Hs'.
    exists (set_childXids (childXids p ++ XidFromFullTransactionId (fullTransactionId t) :: childXids t) (p1 m)).
    split.
    + eexists _, m. split; [reflexivity|]. rewrite len_app, len_cons. unfold n.
      change (childXids (p1 m)) with (childXids p). lia.
    + eexists. split; [reflexivity|]. split; [|by split].
      destruct Hl as (L1 & L2 & L3 & L4 & _).
      refine (conj L1 (conj L2 (conj L3 (conj L4 _)))).
      change (len (@nil Z) <= len (childXids t0)). rewrite len_nil. lia.
Qed.

Lemma CommitSubTransaction_spec c0 t0 p rest c :
  let n := len (childXids t0) + len (childXids p) + 1 in
  (fails \/ limits c0 /\ n <= MaxChildXids) ->
  at_level c0 t0 (p :: rest) (fun t _ => fails \/ state t = TRANS_INPROGRESS) c ->
  spec fails (CommitSubTransaction E) c
    (fun _ c' => exists p', child_only n p p' /\ stack c' = p' :: rest /\ same_glob c0 c')
    (fun c' => fails /\ exists p', child_only n p p' /\ at_level c0 t0 (p' :: rest) any_state c').
Proof using Hfails.
  intros n Hroom H. unfold CommitSubTransaction.
  assert (Hp : child_only n p p).
  { apply child_only_refl. unfold n. pose proof (len_nonneg (childXids t0)). lia. }
  assert (HR : forall p' P c', child_only n p p' -> at_level c0 t0 (p' :: rest) P c' -> fails ->
    fails /\ exists p', child_only n p p' /\ at_level c0 t0 (p' :: rest) any_state c') by eauto.
  eapply (keep_seq _ _ _ _ _ _ _ H); [by apply keep_check|]. clear dependent c. intros _ c H.
  apply at_level_any in H. cur_step t Hs Hl Ht. eapply at_level_parent; [exact H|].
  keep_step. par_step. keep_step. upd_step any_state; [done|].
  eapply (keep_seq _ _ _ _ _ _ _ H); [apply keep_CCI; [tauto|done|eauto]|].
  clear dependent c. intros _ c H. apply spec_bind.
  apply spec_mono with (Q := fun _ c' => exists p', child_only n p p' /\ at_level c0 t0 (p' :: rest) any_state c')
    (R := fun c' => fails /\ exists p', child_only n p p' /\ at_level c0 t0 (p' :: rest) any_state c');
    [|clear Hp; intros _ c1 (p' & Hp & H1)|done].
  - destruct (FullTransactionIdIsValid _); [|apply spec_ret; eauto].
    by apply AtSubCommit_childXids_spec; [tauto|].
  - clear dependent c. rename c1 into c, H1 into H. do 9 keep_step.
    keep_step. upd_step (in_state TRANS_DEFAULT); [done|].
    eapply spec_mono; [eapply PopTransaction_spec; [|exact H]; by right|eauto|].
    intros c1 Hc1. exact Hc1.
Qed.

(** A new level on top of the stack. *)
Definition fresh_sub (p u : TransactionStateData) : Prop :=
  blockState u = TBLOCK_SUBBEGIN /\ state u = TRANS_DEFAULT /\ name u = None /\ chain u = false /\
  lvl_ok u /\ childXids u = [] /\ nestingLevel u = nestingLevel p + 1.

Lemma PushTransaction_spec c0 t0 rest (P : TransactionStateData -> Prop) c :
  (fails \/ sub_room c0) ->
  at_level c0 t0 rest (fun t _ => P t) c ->
  spec fails (PushTransaction E) c
    (fun _ c' => exists p u, stack c' = u :: p :: rest /\ same_lvl t0 p /\ P p /\
                             fresh_sub p u /\ kept_glob c0 c')
    (fun c' => fails /\ exists p, stack c' = p :: rest /\ same_lvl t0 p /\ P p /\ kept_glob c0 c').
Proof using Hfails.
  intros Hroom H. unfold PushTransaction. cur_step t Hs Hl Ht.
  assert (HR : forall c', stack c' = t :: rest -> kept_glob c0 c' -> fails ->
    fails /\ exists p, stack c' = p :: rest /\ same_lvl t0 p /\ P p /\ kept_glob c0 c') by eauto 10.
  destruct H as (t' & Hs' & _ & _ & (Hg & Hsr)). assert (t' = t) as -> by congruence.
  apply spec_bind, spec_sub; [done|intros _|by apply HR].
  apply spec_bind, spec_modify, spec_bind, spec_get.
  cbn [currentSubTransactionId set_currentSubTransactionId].
  destruct (Z.eqb_spec (u32 (currentSubTransactionId c + 1)) InvalidSubTransactionId) as [Hz|Hz].
  - apply spec_bind, spec_modify, spec_throw. destruct Hroom as [Hf|Hr]; [by apply HR|].
    specialize (Hsr Hr). unfold sub_room, InvalidSubTransactionId in *.
    rewrite u32_small in Hz by lia. lia.
  - apply spec_bind, spec_sub; [done|intros guc|by apply HR].
    apply spec_modify. cbn [stack set_currentSubTransactionId]. rewrite Hs.
    exists t, (new_substate t (u32 (currentSubTransactionId c + 1)) guc
               (set_currentSubTransactionId (u32 (currentSubTransactionId c + 1)) c)).
    split; [done|]. split; [done|]. split; [done|]. split; [|exact Hg]. repeat split; try done.
    + cbn. by destruct Hg as ((? & _) & _).
    + cbn. by destruct Hl as (_ & _ & _ & (_ & _ & ?) & _).
Qed.

End low.
