(* ===== verification/XactInv.v ===== *)
(** The states a backend can be in between and within commands, and what
    [AbortCurrentTransaction] and [CommitTransactionCommand] (XactBlock.v) do to
    them. *)
From S2P Require Import Prelude.
From S2P Require Import Xact.
From S2P Require Import XactBlock.
From S2P Require Import XactSpec.
From S2P Require Import XactLow.
Open Scope list_scope.
Open Scope Z_scope.

(** A live level: open, with nothing pending. *)
Definition live_lvl (b : TBlockState) (t : TransactionStateData) : Prop :=
  blockState t = b /\ state t = TRANS_INPROGRESS /\ lvl_ok t.

(** A live transaction block with its savepoints. *)
Fixpoint live (l : list TransactionStateData) : Prop :=
  match l with
  | [] => False
  | [t] => live_lvl TBLOCK_INPROGRESS t
  | t :: l => live_lvl TBLOCK_SUBINPROGRESS t /\ live l
  end.

(** A failed transaction block: the innermost level is aborted. *)
Definition failed (l : list TransactionStateData) : Prop :=
  match l with
  | [] => False
  | [t] => blockState t = TBLOCK_ABORT /\ state t = TRANS_ABORT /\ lvl_ok t
  | t :: l => blockState t = TBLOCK_SUBABORT /\ state t = TRANS_ABORT /\ lvl_ok t /\ live l
  end.

(** Outside any transaction. *)
Definition idle (c : Core) : Prop :=
  exists t, stack c = [t] /\ blockState t = TBLOCK_DEFAULT /\ state t = TRANS_DEFAULT /\
            nestingLevel t = 0 /\ lvl_ok t /\ idle_glob c.

(** The backend's state between two commands. *)
Definition resting (c : Core) : Prop := idle c \/ live (stack c) \/ failed (stack c).

(** Block states of an outermost level that is in a transaction. *)
Definition base_block (b : TBlockState) : bool :=
  match b with
  | TBLOCK_STARTED | TBLOCK_BEGIN | TBLOCK_INPROGRESS | TBLOCK_IMPLICIT_INPROGRESS | TBLOCK_END
  | TBLOCK_ABORT | TBLOCK_ABORT_END | TBLOCK_ABORT_PENDING | TBLOCK_PREPARE => true
  | _ => false
  end.

(** Block states in which a subtransaction waits to be popped. *)
Definition marked (b : TBlockState) : bool :=
  match b with
  | TBLOCK_SUBBEGIN | TBLOCK_SUBRELEASE | TBLOCK_SUBCOMMIT | TBLOCK_SUBABORT_PENDING
  | TBLOCK_SUBRESTART | TBLOCK_SUBABORT_END | TBLOCK_SUBABORT_RESTART => true
  | _ => false
  end.

Section inv.
Context {W : Type} (E : Subsystems W) (fails : Prop) (Hfails : fails \/ no_failures E).

(** The low-level state the routines expect of a level that is to be aborted or
    cleaned up. *)
Definition abort_ready (t : TransactionStateData) : Prop :=
  match blockState t with
  | TBLOCK_ABORT | TBLOCK_ABORT_END => state t = TRANS_ABORT
  | TBLOCK_SUBABORT_END | TBLOCK_SUBABORT_RESTART | TBLOCK_SUBABORT => fails \/ state t = TRANS_ABORT
  | _ => fails \/ state t = TRANS_INPROGRESS
  end.

(** A stack that [AbortCurrentTransaction] can bring to rest. *)
Fixpoint recoverable (l : list TransactionStateData) : Prop :=
  match l with
  | [] => False
  | [t] => base_block (blockState t) = true /\ lvl_ok t /\ abort_ready t
  | t :: l =>
      lvl_ok t /\ abort_ready t /\
      (blockState t = TBLOCK_SUBINPROGRESS /\ live l \/
       blockState t = TBLOCK_SUBABORT /\ state t = TRANS_ABORT /\ live l \/
       marked (blockState t) = true /\ recoverable l)
  end.

(** A transaction that failed while it was being started, or none. *)
Definition half_started (c : Core) : Prop :=
  exists t, stack c = [t] /\ blockState t = TBLOCK_DEFAULT /\ lvl_ok t /\
            (state t = TRANS_DEFAULT /\ nestingLevel t = 0 /\ idle_glob c \/
             state t <> TRANS_DEFAULT /\ fails).

Lemma live_recoverable l : live l -> recoverable l.
Proof.
  destruct l as [|t [|p l]]; [done|..].
  - intros (Hb & Hs & Hl). cbn. unfold abort_ready. rewrite Hb. auto.
  - intros [(Hb & Hs & Hl) Hlive]. split; [done|]. unfold abort_ready. rewrite Hb. eauto.
Qed.

Lemma at_level_self c t rest (P : TransactionStateData -> Core -> Prop) :
  stack c = t :: rest -> lvl_ok t -> glob_ok c -> P t c -> at_level c t rest P c.
Proof. intros. by apply at_level_start. Qed.

(** Abort and clean up the outermost transaction. *)
Lemma abort_cleanup_spec {B} (k : unit -> X W B) (P : TransactionStateData -> Prop) c0 t0 c Q
    (R : Core -> Prop) :
  (forall t, P t -> fails \/ state t = TRANS_INPROGRESS \/ state t = TRANS_PREPARE) ->
  at_level c0 t0 [] (fun t _ => P t) c ->
  (forall c', at_level c0 t0 [] closed c' -> spec fails (k tt) c' Q R) ->
  (forall c', fails -> at_level c0 t0 [] (fun t _ => P t \/ state t = TRANS_ABORT) c' -> R c') ->
  spec fails (AbortTransaction E ≫= fun _ => CleanupTransaction E ≫= k) c Q R.
Proof using Hfails.
  intros HP H Hk HR. apply spec_bind.
  eapply spec_mono; [by apply (AbortTransaction_spec E fails Hfails P)|
    intros [] c1 H1; cbv beta in H1|intros c1 [? ?]; auto].
  apply spec_bind.
  eapply spec_mono; [by apply CleanupTransaction_spec|intros [] c2 H2; by apply Hk|].
  intros c2 [? H2]. apply HR; [done|]. eapply at_level_weaken; [|exact H2]. by right.
Qed.

Lemma to_idle_spec c0 t0 c R :
  at_level c0 t0 [] closed c ->
  spec (W := W) fails to_idle c (fun _ c' => idle c' /\ same_glob c0 c') R.
Proof.
  intros (t & Hs & (Hb & Hn & Hc & Hl & Hx) & (Hst & Hnest & Hi) & Hg). apply spec_modify.
  unfold on_top. rewrite Hs. split; [|exact Hg].
  exists (set_blockState TBLOCK_DEFAULT t). by repeat split; try apply Hl; try apply Hi.
Qed.

Definition abortable (c : Core) : Prop := recoverable (stack c) \/ half_started c.

Definition abort_err (c0 c : Core) : Prop := fails /\ abortable c /\ same_glob c0 c.

Lemma abort_err_trans c0 c1 c2 : same_glob c0 c1 -> abort_err c1 c2 -> abort_err c0 c2.
Proof. intros ? (? & ? & ?). split; [done|]. split; [done|]. by eapply same_glob_trans. Qed.

(** A failure in the middle of aborting a level leaves it to be aborted again. *)
Lemma abort_err_top c t c' :
  recoverable [t] -> blockState t <> TBLOCK_ABORT -> blockState t <> TBLOCK_ABORT_END ->
  fails -> at_level c t [] any_state c' -> abort_err c c'.
Proof.
  intros (Hb & _ & _) Hn1 Hn2 Hf (t' & Hs & (Hb' & _ & _ & Hl & _) & _ & Hg).
  split; [done|]. split; [left|done]. rewrite Hs. cbn. rewrite Hb'. split; [done|].
  split; [done|]. unfold abort_ready. rewrite Hb'. by destruct (blockState t); try done; left.
Qed.

Lemma abort_err_sub c t p rest c' :
  recoverable (t :: p :: rest) -> blockState t <> TBLOCK_SUBABORT ->
  fails -> at_level c t (p :: rest) any_state c' -> abort_err c c'.
Proof.
  intros (_ & _ & Hr) Hn Hf (t' & Hs & (Hb' & _ & _ & Hl & _) & _ & Hg).
  split; [done|]. split; [left|done]. rewrite Hs. split; [done|]. split.
  - unfold abort_ready. rewrite Hb'.
    destruct Hr as [[-> _]|[[? _]|[Hm _]]]; [by left|done|]. by destruct (blockState t); try done; left.
  - rewrite Hb'. destruct Hr as [?|[[? _]|?]]; [by left|done|by right; right].
Qed.

Lemma abort_ready_base t :
  recoverable [t] -> blockState t <> TBLOCK_ABORT -> blockState t <> TBLOCK_ABORT_END ->
  fails \/ state t = TRANS_INPROGRESS.
Proof. intros (Hb & _ & Hr). unfold abort_ready in Hr. by destruct (blockState t). Qed.

(** Abort the outermost transaction and go idle. *)
Lemma abort_to_idle_spec c t :
  stack c = [t] -> recoverable [t] -> glob_ok c ->
  blockState t <> TBLOCK_ABORT -> blockState t <> TBLOCK_ABORT_END ->
  spec fails (AbortTransaction E;; CleanupTransaction E;; to_idle) c
    (fun _ c' => idle c' /\ same_glob c c') (abort_err c).
Proof using Hfails.
  intros Hs Hr Hg Hn1 Hn2.
  eapply abort_cleanup_spec with (c0 := c) (t0 := t) (P := fun t => fails \/ state t = TRANS_INPROGRESS).
  - tauto.
  - apply at_level_self; [done|apply Hr|done|]. by eapply abort_ready_base.
  - intros c' H. by apply to_idle_spec with (t0 := t).
  - intros c' Hf H. eapply abort_err_top; try done. by eapply at_level_any.
Qed.

Definition aborted (c0 c : Core) : Prop := (idle c \/ failed (stack c)) /\ same_glob c0 c.

(** Pop a level that waits for it. *)
Lemma pop_aborted_spec {B} (k : unit -> X W B) c t p rest Q (R : Core -> Prop) :
  stack c = t :: p :: rest -> lvl_ok t -> glob_ok c -> (fails \/ state t = TRANS_INPROGRESS) ->
  (forall c', stack c' = p :: rest -> same_glob c c' -> spec fails (k tt) c' Q R) ->
  (forall c', fails -> at_level c t (p :: rest) any_state c' -> R c') ->
  spec fails (AbortSubTransaction E ≫= fun _ => CleanupSubTransaction E ≫= k) c Q R.
Proof using Hfails.
  intros Hs Hl Hg Hst Hk HR. apply spec_bind.
  eapply spec_mono; [apply (AbortSubTransaction_spec E fails Hfails c t); by apply at_level_self| |].
  - intros [] c1 H1. cbv beta in H1. apply spec_bind.
    eapply spec_mono; [eapply (CleanupSubTransaction_spec E fails Hfails); eapply at_level_weaken; [|exact H1]; by right| |].
    + intros [] c2 [H2 H3]. by apply Hk.
    + intros c2 [Hf H2]. apply HR; [done|]. by eapply at_level_any.
  - intros c1 [Hf H1]. by apply HR.
Qed.

Lemma pop_cleaned_spec {B} (k : unit -> X W B) c t p rest Q (R : Core -> Prop) :
  stack c = t :: p :: rest -> lvl_ok t -> glob_ok c -> (fails \/ state t = TRANS_ABORT) ->
  (forall c', stack c' = p :: rest -> same_glob c c' -> spec fails (k tt) c' Q R) ->
  (forall c', fails -> at_level c t (p :: rest) any_state c' -> R c') ->
  spec fails (CleanupSubTransaction E ≫= k) c Q R.
Proof using Hfails.
  intros Hs Hl Hg Hst Hk HR. apply spec_bind.
  eapply spec_mono; [apply (CleanupSubTransaction_spec E fails Hfails c t); by apply at_level_self| |].
  - intros [] c2 [H2 H3]. by apply Hk.
  - intros c2 [Hf H2]. apply HR; [done|]. by eapply at_level_any.
Qed.

Lemma abort_default_spec c :
  half_started c -> glob_ok c ->
  spec fails (abort_default E) c (fun _ => aborted c) (abort_err c).
Proof using Hfails.
  intros (t & Hs & Hb & Hl & Hd) Hg. unfold abort_default. apply spec_bind.
  eapply spec_cur; [done|]. unfold is_state at 1. case_bool_decide as Hst.
  - apply spec_ret. destruct Hd as [(_ & Hn & Hi)|[? _]]; [|done].
    split; [left; by exists t|by apply same_glob_refl].
  - destruct Hd as [[? _]|[_ Hf]]; [done|]. apply spec_bind.
    assert (H : at_level c t [] (fun t _ => state t <> TRANS_DEFAULT) c) by by apply at_level_self.
    assert (HR : forall c', at_level c t [] (fun t _ => state t <> TRANS_DEFAULT) c' -> abort_err c c').
    { intros c' (t' & Hs' & (Hb' & _ & _ & Hl' & _) & Ht' & Hg'). split; [done|]. split; [right|done].
      exists t'. rewrite Hb'. by split_and!; [..|right]. }
    apply spec_mono with (Q := fun _ => at_level c t [] (fun t _ => state t <> TRANS_DEFAULT))
      (R := fun _ => False); [| |done].
    { apply spec_when; [intros _|done]. upd_end. done. }
    intros [] c1 H1. cbv beta in H1.
    apply spec_bind. eapply spec_mono;
      [eapply (AbortTransaction_spec E fails Hfails (fun t => state t <> TRANS_DEFAULT)); [by left|exact H1]
      |intros [] c2 H2; cbv beta in H2|].
    + eapply spec_mono; [by apply CleanupTransaction_spec|intros [] c3|].
      * intros (t' & Hs' & (Hb' & _ & _ & Hl' & _) & (? & ? & ?) & Hg').
        split; [left|done]. exists t'. rewrite Hb'. by split_and!.
      * intros c3 [_ H3]. apply HR. eapply at_level_weaken; [|exact H3]. by intros t' ->.
    + intros c2 [_ H2]. apply HR. eapply at_level_weaken; [|exact H2]. by intros t' [?| ->].
Qed.

(** A live block becomes a failed one with the same savepoints. *)
Definition failed_same (c0 c : Core) : Prop :=
  failed (stack c) /\ map name (stack c) = map name (stack c0) /\ same_glob c0 c.

Lemma abort_block_spec c t :
  stack c = [t] -> recoverable [t] -> blockState t = TBLOCK_INPROGRESS -> glob_ok c ->
  spec fails (AbortTransaction E;; upd_cur (set_blockState TBLOCK_ABORT)) c
    (fun _ => failed_same c) (abort_err c).
Proof using Hfails.
  intros Hs Hr Hb Hg. apply spec_bind.
  eapply spec_mono; [eapply (AbortTransaction_spec E fails Hfails
    (fun t => fails \/ state t = TRANS_INPROGRESS)); [tauto|] |intros [] c1 H1|intros c1 [Hf H1]].
  - apply at_level_self; [done|apply Hr|done|]. apply abort_ready_base; [done|by rewrite Hb..].
  - destruct H1 as (t' & Hs' & (_ & Hn & _ & Hl & _) & Hst & Hg'). apply spec_modify.
    unfold on_top. rewrite Hs'. split; [by split_and!|]. split; [|exact Hg'].
    cbn. by rewrite Hs, Hn.
  - eapply abort_err_top; [done|by rewrite Hb..|done|]. by eapply at_level_any.
Qed.

Lemma abort_savepoint_spec c t p rest :
  stack c = t :: p :: rest -> recoverable (t :: p :: rest) -> blockState t = TBLOCK_SUBINPROGRESS ->
  glob_ok c ->
  spec fails (AbortSubTransaction E;; upd_cur (set_blockState TBLOCK_SUBABORT)) c
    (fun _ => failed_same c) (abort_err c).
Proof using Hfails.
  intros Hs Hr Hb Hg. apply spec_bind. pose proof Hr as (Hl0 & Hrd & Hlive).
  eapply spec_mono; [apply (AbortSubTransaction_spec E fails Hfails c t p rest)|
    intros [] c1 H1|intros c1 [Hf H1]].
  - apply at_level_self; [done..|]. unfold abort_ready in Hrd. by rewrite Hb in Hrd.
  - destruct H1 as (t' & Hs' & (_ & Hn & _ & Hl & _) & Hst & Hg'). apply spec_modify.
    unfold on_top. rewrite Hs'. split.
    + destruct Hlive as [[_ ?]|[[? _]|[Hm _]]]; [by split_and!|congruence|by rewrite Hb in Hm].
    + split; [|exact Hg']. cbn. by rewrite Hs, Hn.
  - eapply abort_err_sub; [done|by rewrite Hb|done|done].
Qed.

Lemma cleanup_to_idle_spec c t :
  stack c = [t] -> blockState t = TBLOCK_ABORT_END -> state t = TRANS_ABORT -> lvl_ok t -> glob_ok c ->
  spec fails (CleanupTransaction E;; to_idle) c (fun _ => aborted c) (abort_err c).
Proof using Hfails.
  intros Hs Hb Hst Hl Hg. apply spec_bind.
  eapply spec_mono; [apply (CleanupTransaction_spec E fails Hfails c t); by apply at_level_self|
    intros [] c1 H1|intros c1 [Hf (t' & Hs' & (Hb' & _ & _ & Hl' & _) & Ht' & Hg')]].
  - eapply spec_mono; [by eapply to_idle_spec|intros _ c2 [? ?]; by split; [left|]|].
    intros c2 Hc2. exact Hc2.
  - split; [done|]. split; [left|done]. rewrite Hs'. cbn. unfold abort_ready.
    by rewrite Hb', Hb.
Qed.

(** [AbortCurrentTransaction] brings every recoverable state to rest. *)
Lemma abort_current_spec fuel c :
  (length (stack c) < fuel)%nat -> abortable c -> glob_ok c ->
  spec fails (abort_current E fuel) c (fun _ => aborted c) (abort_err c).
Proof using Hfails.
  revert c. induction fuel as [|fuel IH]; intros c Hlen Hab Hg; [lia|]. cbn [abort_current].
  destruct Hab as [Hr|Hh].
  2: { pose proof Hh as (t & Hs & Hb & _). apply spec_bind. eapply spec_cur; [done|]. rewrite Hb.
       by apply abort_default_spec. }
  destruct (stack c) as [|t [|p rest]] eqn:Hs; [done|..]; (apply spec_bind; eapply spec_cur; [done|]).
  - assert (Hidle : blockState t <> TBLOCK_ABORT -> blockState t <> TBLOCK_ABORT_END ->
      spec fails (AbortTransaction E;; CleanupTransaction E;; to_idle) c (fun _ => aborted c) (abort_err c)).
    { intros. eapply spec_mono; [by apply (abort_to_idle_spec c t)|intros _ c' [? ?]; by split; [left|]|done]. }
    pose proof Hr as (Hb & Hl & Hrd). unfold abort_ready in Hrd.
    destruct (blockState t) eqn:Hbt; try done; try (by apply Hidle).
    + eapply spec_mono; [by apply (abort_block_spec c t)|intros _ c' (? & _ & ?); by split; [right|]|done].
    + apply spec_ret. split; [right; by rewrite Hs|by apply same_glob_refl].
    + by apply cleanup_to_idle_spec with t.
  - pose proof Hr as (Hl & Hrd & Hcase).
    destruct Hcase as [[Hb Hlive]|[(Hb & Hst & Hlive)|[Hm Hrec]]].
    + rewrite Hb. eapply spec_mono; [by apply (abort_savepoint_spec c t p rest)|
        intros _ c' (? & _ & ?); by split; [right|]|done].
    + rewrite Hb. apply spec_ret. split; [right; by rewrite Hs|by apply same_glob_refl].
    + assert (Hnext : forall c', stack c' = p :: rest -> same_glob c c' ->
        spec fails (abort_current E fuel) c' (fun _ => aborted c) (abort_err c)).
      { intros c' Hs' Hg'. eapply spec_mono; [apply IH|..].
        - rewrite Hs'. cbn in Hlen |- *. lia.
        - left. by rewrite Hs'.
        - apply Hg'.
        - intros _ c2 [? ?]. split; [done|]. by eapply same_glob_trans.
        - intros c2. by apply abort_err_trans. }
      assert (Herr : forall c', fails -> at_level c t (p :: rest) any_state c' -> abort_err c c').
      { intros c' Hf H'. eapply abort_err_sub; [done| |done|done]. by intros Hx; rewrite Hx in Hm. }
      unfold abort_ready in Hrd.
      destruct (blockState t) eqn:Hbt; try done;
        first [by eapply pop_aborted_spec | by eapply pop_cleaned_spec].
Qed.

End inv.
