(* ===== verification/XactCommit.v ===== *)
(** What [CommitTransactionCommand] does to each state a transaction command can
    leave behind. *)
From S2P Require Import Prelude.
From S2P Require Import Xact.
From S2P Require Import XactBlock.
From S2P Require Import XactSpec.
From S2P Require Import XactLow.
From S2P Require Import XactInv.
Open Scope list_scope.
Open Scope Z_scope.

(** * States a command leaves for [CommitTransactionCommand] *)
Definition in_block (b : TBlockState) (st : TransState) (t : TransactionStateData) : Prop :=
  blockState t = b /\ state t = st /\ lvl_ok t.

(** RELEASE: the levels to be released on top of a live block. *)
Fixpoint releasing (l : list TransactionStateData) : Prop :=
  match l with
  | [] => False
  | t :: l => in_block TBLOCK_SUBRELEASE TRANS_INPROGRESS t /\ (live l \/ releasing l)
  end.

(** COMMIT or PREPARE: all levels, to the outermost one, which is in [b]. *)
Fixpoint committing (b : TBlockState) (l : list TransactionStateData) : Prop :=
  match l with
  | [] => False
  | [t] => in_block b TRANS_INPROGRESS t
  | t :: l => in_block TBLOCK_SUBCOMMIT TRANS_INPROGRESS t /\ committing b l
  end.

(** A subtransaction to be rolled back, live or already aborted. *)
Definition doomed (t : TransactionStateData) : Prop :=
  in_block TBLOCK_SUBABORT_PENDING TRANS_INPROGRESS t \/ in_block TBLOCK_SUBABORT_END TRANS_ABORT t.

Fixpoint aborting (l : list TransactionStateData) : Prop :=
  match l with
  | [] => False
  | [t] => in_block TBLOCK_ABORT_PENDING TRANS_INPROGRESS t \/ in_block TBLOCK_ABORT_END TRANS_ABORT t
  | t :: l => doomed t /\ aborting l
  end.

(** ROLLBACK TO: doomed levels, the target, and the live block below it. *)
Fixpoint restarting (l : list TransactionStateData) : Prop :=
  match l with
  | [] => False
  | t :: l =>
      (in_block TBLOCK_SUBRESTART TRANS_INPROGRESS t \/ in_block TBLOCK_SUBABORT_RESTART TRANS_ABORT t)
      /\ live l \/ doomed t /\ restarting l
  end.

(** Room in the arrays of child XIDs. *)
Definition xid_load (l : list TransactionStateData) : Z :=
  foldr (fun t n => len (childXids t) + 1 + n) 0 l.

(** Static variables between commands; [save_chars] may have changed. *)
Definition run_glob (c c' : Core) : Prop :=
  glob_ok c' /\ xact_started c' = xact_started c /\
  (MyXactFlags c' = MyXactFlags c \/ MyXactFlags c' = 0).

Lemma same_run c c' : same_glob c c' -> run_glob c c'.
Proof. unfold same_glob, kept_glob, run_glob. tauto. Qed.

Lemma kept_run c c' : kept_glob c c' -> run_glob c c'.
Proof. unfold kept_glob, run_glob. tauto. Qed.

Lemma run_glob_trans c1 c2 c3 : run_glob c1 c2 -> run_glob c2 c3 -> run_glob c1 c3.
Proof.
  intros (_ & H2 & H3) (G1 & G2 & G3). split; [done|]. split; [congruence|].
  destruct G3 as [->|?]; [done|by right].
Qed.

Section commit.
Context {W : Type} (E : Subsystems W) (fails : Prop) (Hfails : fails \/ no_failures E).

(** The end of a transaction block: idle, or in the next block of a chain. *)
Definition ended (c0 : Core) (want_chain : bool) (c : Core) : Prop :=
  same_glob c0 c /\
  if want_chain
  then exists t, stack c = [t] /\ live_lvl TBLOCK_INPROGRESS t /\ chain t = false /\ MyXactFlags c = 0 /\
                 xact_chars c = save_chars c0
  else idle c.

Lemma finish_block_spec c0 t0 c :
  at_level c0 t0 [] closed c ->
  spec fails (to_idle;; start_chained E) c (fun _ => ended c0 (chain t0)) (abort_err fails c0).
Proof using Hfails.
  intros (t & Hs & (Hb & Hn & Hc & Hl & Hx) & (Hst & Hnest & Hi) & Hg).
  apply spec_bind, spec_modify. unfold on_top. rewrite Hs.
  set (c1 := set_stack [set_blockState TBLOCK_DEFAULT t] c).
  assert (H1 : at_level c0 (set_blockState TBLOCK_DEFAULT t) []
                 (fun t c => state t = TRANS_DEFAULT /\ idle_glob c) c1).
  { eexists. split; [reflexivity|]. split; [by apply same_lvl_refl|]. split; [done|exact Hg]. }
  unfold start_chained. apply spec_bind. eapply spec_cur; [done|]. cbn [chain set_blockState].
  rewrite Hc. apply spec_when; intros Hch; rewrite Hch.
  - apply spec_bind. eapply spec_mono; [by apply (StartTransaction_spec E fails Hfails)|..].
    + intros [] c2 (t2 & Hs2 & (Hb2 & _ & _ & Hl2 & _) & (Hst2 & Hf2 & _) & Hg2).
      apply spec_bind, spec_modify, spec_bind, spec_modify, spec_modify.
      unfold on_top. rewrite Hs2. cbn [stack set_stack]. split; [exact Hg2|].
      eexists. split; [reflexivity|]. split; [by split_and!|]. split; [done|].
      split; [exact Hf2|]. by apply Hg2.
    + intros c2 [Hf (t2 & Hs2 & (Hb2 & _ & _ & Hl2 & _) & Hst2 & Hg2)].
      split; [done|]. split; [|done]. right. exists t2. split; [done|]. split; [done|].
      split; [done|]. right. split; [by rewrite Hst2|done].
  - split; [exact Hg|]. eexists. split; [reflexivity|]. by split_and!; try apply Hl; try apply Hi.
Qed.

(** * Committing and releasing subtransactions *)
Lemma xid_load_nonneg l : 0 <= xid_load l.
Proof. induction l as [|t l IH]; [done|]. cbn. pose proof (len_nonneg (childXids t)). unfold xid_load in IH. lia. Qed.

Lemma child_only_lvl n p p' b st : child_only n p p' -> in_block b st p -> in_block b st p'.
Proof. by intros (l & m & -> & _). Qed.

Lemma child_only_name n p p' : child_only n p p' -> name p' = name p /\ chain p' = chain p.
Proof. by intros (l & m & -> & _). Qed.

Lemma child_only_live n p p' rest : child_only n p p' -> live (p :: rest) -> live (p' :: rest).
Proof. intros Hc. destruct rest as [|q rest]; cbn; intros H; destruct Hc as (l & m & -> & _); exact H. Qed.

Lemma child_only_load n p p' rest :
  child_only n p p' -> xid_load (p' :: rest) <= n + 1 + xid_load rest.
Proof. intros (l & m & -> & ?). cbn. unfold xid_load. lia. Qed.

Lemma pending_abort_ready b st t :
  in_block b st t ->
  match b with
  | TBLOCK_SUBABORT_END | TBLOCK_SUBABORT_RESTART | TBLOCK_ABORT_END => st = TRANS_ABORT
  | TBLOCK_ABORT => st = TRANS_ABORT
  | TBLOCK_SUBABORT => st = TRANS_ABORT
  | _ => st = TRANS_INPROGRESS
  end -> abort_ready fails t.
Proof. intros (Hb & Hst & _). unfold abort_ready. rewrite Hb, Hst. by destruct b; intros ->; auto. Qed.

(** A level that waits to be popped, over a recoverable stack. *)
Lemma marked_recoverable t l :
  l <> [] -> lvl_ok t -> abort_ready fails t -> marked (blockState t) = true -> recoverable fails l ->
  recoverable fails (t :: l).
Proof. intros Hne Hl Ha Hm Hr. destruct l as [|p l]; [done|]. split; [done|]. split; [done|]. auto. Qed.

Lemma recoverable_nonempty l : recoverable fails l -> l <> [].
Proof. by destruct l. Qed.

Lemma in_block_recoverable b st t l :
  in_block b st t -> abort_ready fails t -> marked b = true -> recoverable fails l ->
  recoverable fails (t :: l).
Proof.
  intros (Hb & _ & Hl) Ha Hm Hr. apply marked_recoverable; [by eapply recoverable_nonempty|done|done| |done].
  by rewrite Hb.
Qed.

Lemma releasing_recoverable l : releasing l -> recoverable fails l.
Proof.
  induction l as [|t l IH]; [done|]. intros [Ht Hl].
  eapply in_block_recoverable; [done|by eapply pending_abort_ready|done|].
  destruct Hl as [Hl|Hl]; [by apply live_recoverable|auto].
Qed.

Lemma committing_recoverable b l : b = TBLOCK_END \/ b = TBLOCK_PREPARE -> committing b l -> recoverable fails l.
Proof.
  intros Hb. induction l as [|t [|p l] IH]; [done|..].
  - intros Ht. pose proof Ht as (Hbt & _ & Hl). split; [rewrite Hbt; by destruct Hb as [->| ->]|].
    split; [done|]. eapply pending_abort_ready; [done|]. by destruct Hb as [->| ->].
  - intros [Ht Hl]. eapply in_block_recoverable; [done|by eapply pending_abort_ready|done|auto].
Qed.

Lemma doomed_recoverable t l : doomed t -> recoverable fails l -> recoverable fails (t :: l).
Proof.
  intros [Ht|Ht] Hl; (eapply in_block_recoverable; [done|by eapply pending_abort_ready|done|done]).
Qed.

Lemma aborting_recoverable l : aborting l -> recoverable fails l.
Proof.
  induction l as [|t [|p l] IH]; [done|..].
  - intros [Ht|Ht]; pose proof Ht as (Hbt & _ & Hl);
      (split; [by rewrite Hbt|]; split; [done|]; by eapply pending_abort_ready).
  - intros [Ht Hl]. apply doomed_recoverable; auto.
Qed.

Lemma restarting_recoverable l : restarting l -> recoverable fails l.
Proof.
  induction l as [|t l IH]; [done|]. intros [[Ht Hl]|[Ht Hl]].
  - apply live_recoverable with (fails := fails) in Hl.
    destruct Ht as [Ht|Ht]; (eapply in_block_recoverable; [done|by eapply pending_abort_ready|done|done]).
  - apply doomed_recoverable; auto.
Qed.

Lemma child_only_recoverable n p p' rest :
  child_only n p p' -> recoverable fails (p :: rest) -> recoverable fails (p' :: rest).
Proof. intros (l & m & -> & _). by destruct rest. Qed.

(** One turn of the loops that commit subtransactions. *)
Lemma commit_sub_spec {B} (k : unit -> X W B) c t p rest b Q :
  stack c = t :: p :: rest -> in_block b TRANS_INPROGRESS t -> marked b = true -> abort_ready fails t ->
  recoverable fails (p :: rest) -> glob_ok c ->
  (fails \/ limits c /\ xid_load (t :: p :: rest) <= MaxChildXids) ->
  (forall n p' c', child_only n p p' -> stack c' = p' :: rest -> same_glob c c' ->
     (fails \/ limits c' /\ xid_load (p' :: rest) <= MaxChildXids) ->
     spec fails (k tt) c' Q (abort_err fails c')) ->
  spec fails (CommitSubTransaction E ≫= k) c Q (abort_err fails c).
Proof using Hfails.
  intros Hs Ht Hm Ha Hr Hg Hroom Hk. apply spec_bind.
  pose proof (len_nonneg (childXids t)). pose proof (len_nonneg (childXids p)).
  pose proof (xid_load_nonneg rest).
  eapply spec_mono; [apply (CommitSubTransaction_spec E fails Hfails c t p rest)|..].
  - destruct Hroom as [?|[? Hl]]; [by left|right]. split; [done|]. cbn in Hl. unfold xid_load in *. lia.
  - apply at_level_self; [done|apply Ht|done|]. right. apply Ht.
  - intros [] c1 (p' & Hp & Hs1 & Hg1). eapply spec_mono; [eapply Hk; [done..|]|done|].
    + destruct Hroom as [?|[? Hl]]; [by left|right]. split; [by apply Hg1|].
      pose proof (child_only_load _ _ _ rest Hp). cbn in Hl. unfold xid_load in *. cbn in *. lia.
    + intros c2. by apply abort_err_trans.
  - intros c1 [Hf (p' & Hp & (t' & Hs1 & (Hb' & _ & _ & Hl' & _) & _ & Hg1))].
    split; [done|]. split; [left|done]. rewrite Hs1. apply marked_recoverable; [done|done| | |].
    + unfold abort_ready in *. rewrite Hb'. destruct Ht as (Hb & _). rewrite Hb in *. by destruct b; auto.
    + rewrite Hb'. by destruct Ht as (-> & _).
    + by eapply child_only_recoverable.
Qed.

(** What is left of the stack after RELEASE. *)
Fixpoint after_release (l : list TransactionStateData) : list TransactionStateData :=
  match l with
  | t :: r => if is_block TBLOCK_SUBRELEASE t then after_release r else l
  | [] => []
  end.

Lemma live_not_released l : live l -> after_release l = l.
Proof.
  destruct l as [|t [|p l]]; [done|..].
  - intros (Hb & _). cbn. unfold is_block. by rewrite Hb.
  - intros [(Hb & _) _]. cbn. unfold is_block. by rewrite Hb.
Qed.

Lemma live_head_block t l :
  live (t :: l) -> is_block TBLOCK_INPROGRESS t || is_block TBLOCK_SUBINPROGRESS t = true /\
                   is_block TBLOCK_SUBRELEASE t = false.
Proof. destruct l; intros H; [destruct H as (Hb & _)|destruct H as [(Hb & _) _]]; unfold is_block; by rewrite Hb. Qed.

Lemma releasing_live n p p' rest :
  child_only n p p' -> live (p :: rest) \/ releasing (p :: rest) ->
  live (p' :: rest) \/ releasing (p' :: rest).
Proof.
  intros Hc [Hl|[Ht Hl]]; [left; by eapply child_only_live|right].
  split; [by eapply child_only_lvl|done].
Qed.

Lemma after_release_name n p p' rest :
  child_only n p p' -> map name (after_release (p' :: rest)) = map name (after_release (p :: rest)).
Proof.
  intros (l & m & -> & _). cbn. change (is_block TBLOCK_SUBRELEASE (set_childXids l (set_maxChildXids m p)))
    with (is_block TBLOCK_SUBRELEASE p). by destruct (is_block _ p).
Qed.

Lemma release_spec fuel c :
  (length (stack c) <= fuel)%nat -> releasing (stack c) -> glob_ok c ->
  (fails \/ limits c /\ xid_load (stack c) <= MaxChildXids) ->
  spec fails (commit_subs E fuel TBLOCK_SUBRELEASE) c
    (fun _ c' => live (stack c') /\ map name (stack c') = map name (after_release (stack c)) /\
                 same_glob c c') (abort_err fails c).
Proof using Hfails.
  revert c. induction fuel as [|fuel IH]; intros c Hlen Hrel Hg Hroom;
    [by destruct (stack c); cbn in Hlen; [|lia]|].
  destruct (stack c) as [|t [|p rest]] eqn:Hs; [done|by destruct Hrel as [_ [?|?]]|].
  destruct Hrel as [Ht Hrest]. cbn [commit_subs].
  assert (Hr : recoverable fails (p :: rest)).
  { destruct Hrest; [by apply live_recoverable|by apply releasing_recoverable]. }
  eapply commit_sub_spec; [done|done|done|by eapply pending_abort_ready|done|done|done|].
  intros n p' c' Hp Hs' Hg' Hroom'. pose proof (releasing_live _ _ _ _ Hp Hrest) as Hrest'.
  assert (Hn : map name (after_release (t :: p :: rest)) = map name (after_release (p' :: rest))).
  { rewrite (after_release_name _ _ _ _ Hp). cbn [after_release].
    destruct Ht as (Hb & _). unfold is_block at 1. by rewrite bool_decide_eq_true_2. }
  apply spec_bind. eapply spec_cur; [done|]. rewrite Hn.
  destruct Hrest' as [Hl|Hl].
  - destruct (live_head_block _ _ Hl) as [_ ->]. apply spec_ret. rewrite Hs'.
    by rewrite live_not_released.
  - assert (is_block TBLOCK_SUBRELEASE p' = true) as ->.
    { destruct Hl as [(Hb & _) _]. by apply bool_decide_eq_true_2. }
    eapply spec_mono; [apply IH|..].
    + rewrite Hs'. cbn in Hlen |- *. lia.
    + by rewrite Hs'.
    + apply Hg'.
    + by rewrite Hs'.
    + rewrite Hs'. intros _ c2 (? & ? & ?). split_and!; [done|done|by eapply same_glob_trans].
    + done.
Qed.

(** The chain flag COMMIT and ROLLBACK leave on the outermost level. *)
Definition top_chain (l : list TransactionStateData) : bool :=
  match last l with Some t => chain t | None => false end.

Lemma top_chain_child n p p' rest : child_only n p p' -> top_chain (p' :: rest) = top_chain (p :: rest).
Proof. intros (l & m & -> & _). unfold top_chain. by destruct rest. Qed.

Lemma committing_child n b p p' rest :
  child_only n p p' -> committing b (p :: rest) -> committing b (p' :: rest).
Proof.
  intros Hc. destruct rest; cbn; [by apply (child_only_lvl n)|].
  intros [? ?]. split; [by eapply child_only_lvl|done].
Qed.

Lemma subcommit_spec b fuel c t p rest :
  b = TBLOCK_END \/ b = TBLOCK_PREPARE -> stack c = t :: p :: rest ->
  (length (stack c) <= fuel)%nat -> committing b (stack c) -> glob_ok c ->
  (fails \/ limits c /\ xid_load (stack c) <= MaxChildXids) ->
  spec fails (commit_subs E fuel TBLOCK_SUBCOMMIT) c
    (fun _ c' => exists u, stack c' = [u] /\ in_block b TRANS_INPROGRESS u /\
                 chain u = top_chain (stack c) /\ same_glob c c') (abort_err fails c).
Proof using Hfails.
  intros Hb. revert c t p rest.
  induction fuel as [|fuel IH]; intros c t p rest Hs Hlen Hcom Hg Hroom;
    [by rewrite Hs in Hlen; cbn in Hlen; lia|].
  rewrite Hs in Hlen, Hcom, Hroom |- *. destruct Hcom as [Ht Hrest]. cbn [commit_subs].
  eapply commit_sub_spec; [done|done|done|by eapply pending_abort_ready|
    by eapply committing_recoverable|done|done|].
  intros n p' c' Hp Hs' Hg' Hroom'. pose proof (committing_child _ _ _ _ _ Hp Hrest) as Hrest'.
  change (top_chain (t :: p :: rest)) with (top_chain (p :: rest)).
  rewrite <- (top_chain_child _ _ _ _ Hp).
  apply spec_bind. eapply spec_cur; [done|]. destruct rest as [|q rest].
  - destruct Hrest' as (Hbp & Hrest').
    assert (is_block TBLOCK_SUBCOMMIT p' = false) as ->.
    { apply bool_decide_eq_false_2. rewrite Hbp. by destruct Hb as [->| ->]. }
    apply spec_ret. exists p'. by repeat split; try apply Hrest'; try apply Hg'.
  - assert (is_block TBLOCK_SUBCOMMIT p' = true) as ->.
    { destruct Hrest' as [(Hbp & _) _]. by apply bool_decide_eq_true_2. }
    eapply spec_mono; [eapply IH; [done|..]|..].
    + rewrite Hs'. cbn in Hlen |- *. lia.
    + by rewrite Hs'.
    + apply Hg'.
    + by rewrite Hs'.
    + rewrite Hs'. intros _ c2 (u & ? & ? & ? & ?). exists u. split_and!; [done..|by eapply same_glob_trans].
    + done.
Qed.

(** * The outcome of [CommitTransactionCommand] *)

Definition commit_err (c0 c : Core) : Prop := fails /\ abortable fails c /\ run_glob c0 c.

Lemma abort_commit_err c c' : abort_err fails c c' -> commit_err c c'.
Proof. intros (? & ? & ?). split_and!; [done..|by apply same_run]. Qed.

(** The characteristics [CommitTransactionCommand] saves on entry. *)
Definition saved (c : Core) (t : TransactionStateData) : Core :=
  if chain t then set_save_chars (xact_chars c) c else c.

Lemma saved_stack c t : stack (saved c t) = stack c.
Proof. unfold saved. by destruct (chain t). Qed.

Lemma saved_glob c t : glob_ok c -> glob_ok (saved c t) /\ run_glob c (saved c t).
Proof. unfold saved, run_glob. destruct (chain t); by auto. Qed.

Lemma saved_limits c t : (fails \/ limits c) -> fails \/ limits (saved c t).
Proof. unfold saved. by destruct (chain t). Qed.

Lemma saved_room c t : (fails \/ sub_room c) -> fails \/ sub_room (saved c t).
Proof. unfold saved. by destruct (chain t). Qed.

Lemma spec_save c t (Q : unit -> Core -> Prop) R :
  Q tt (saved c t) -> spec (W := W) fails (when (chain t) SaveTransactionCharacteristics) c Q R.
Proof.
  unfold saved. intros H. apply spec_when; intros Hc; rewrite Hc in H; [by apply spec_modify|done].
Qed.

Lemma commit_transaction_end_spec c0 t0 c :
  blockState t0 = TBLOCK_END ->
  at_level c0 t0 [] (in_state TRANS_INPROGRESS) c ->
  spec fails (CommitTransaction E;; to_idle;; start_chained E) c (fun _ => ended c0 (chain t0)) (abort_err fails c0).
Proof using Hfails.
  intros Hb H. apply spec_bind.
  eapply spec_mono; [apply (CommitTransaction_spec E fails Hfails c0 t0 c)|..].
  - by rewrite Hb.
  - eapply at_level_weaken; [|exact H]. by right.
  - intros [] c1 H1. by apply finish_block_spec.
  - intros c1 [Hf (t' & Hs' & (Hb' & _ & _ & Hl' & _) & _ & Hg')]. split; [done|]. split; [left|done].
    rewrite Hs'. cbn. unfold abort_ready. rewrite Hb', Hb. auto.
Qed.

Lemma prepare_end_spec c0 t0 c :
  blockState t0 = TBLOCK_PREPARE ->
  at_level c0 t0 [] (in_state TRANS_INPROGRESS) c ->
  spec fails (PrepareTransaction E;; to_idle) c (fun _ c' => idle c' /\ same_glob c0 c')
    (fun c' => exists t, stack c' = [t] /\ blockState t = TBLOCK_PREPARE /\ recoverable fails [t] /\
                         same_glob c0 c').
Proof using Hfails.
  intros Hb H. apply spec_bind.
  eapply spec_mono; [by apply (PrepareTransaction_spec E fails Hfails c0 t0 c)|..].
  - intros [] c1 H1. by apply to_idle_spec with t0.
  - intros c1 (t' & Hs' & (Hb' & _ & _ & Hl' & _) & Hu & Hg'). exists t'. split; [done|].
    split; [by rewrite Hb'|]. split; [|done]. cbn. unfold abort_ready. by rewrite Hb', Hb.
Qed.

Lemma live_same p p' rest :
  live (p :: rest) -> same_lvl p p' -> state p' = TRANS_INPROGRESS -> live (p' :: rest).
Proof.
  intros Hl (Hb & _ & _ & Hok & _) Hst.
  destruct rest; [destruct Hl as (Hbp & _)|destruct Hl as [(Hbp & _) ?]; split; [|done]];
    (split; [congruence|by split]).
Qed.

Lemma live_head t l : live (t :: l) -> state t = TRANS_INPROGRESS /\ lvl_ok t /\
  (blockState t = TBLOCK_INPROGRESS \/ blockState t = TBLOCK_SUBINPROGRESS).
Proof. destruct l; [intros (? & ? & ?)|intros [(? & ? & ?) _]]; auto. Qed.

(** A new level, still being set up, on top of a live block. *)
Definition pushed (c0 : Core) (n : option string) (l : list TransactionStateData) (c : Core) : Prop :=
  exists u p rest, stack c = u :: p :: rest /\ live (p :: rest) /\ map name (p :: rest) = map name l /\
    in_block TBLOCK_SUBBEGIN TRANS_DEFAULT u /\ name u = n /\ chain u = false /\ kept_glob c0 c.

Lemma push_err c0 c u p rest :
  fails -> stack c = u :: p :: rest -> live (p :: rest) -> blockState u = TBLOCK_SUBBEGIN -> lvl_ok u ->
  kept_glob c0 c -> commit_err c0 c.
Proof.
  intros Hf Hs Hl Hb Hok Hg. split; [done|]. split; [left|by apply kept_run]. rewrite Hs.
  apply marked_recoverable; [done|done| |by rewrite Hb|by apply live_recoverable].
  unfold abort_ready. rewrite Hb. by left.
Qed.

Lemma push_named_spec n c0 c :
  (fails \/ sub_room c0) -> live (stack c) -> same_glob c0 c ->
  spec fails (push_named E n) c (fun _ => pushed c0 n (stack c)) (commit_err c0).
Proof using Hfails.
  intros Hroom Hlive Hg. unfold push_named. destruct (stack c) as [|p rest] eqn:Hs; [done|].
  destruct (live_head _ _ Hlive) as (Hst & Hok & _). apply spec_bind.
  eapply spec_mono; [eapply (PushTransaction_spec E fails Hfails c0 p rest
    (fun t => state t = TRANS_INPROGRESS)); [done|]|..].
  - exists p. split; [done|]. split; [by apply same_lvl_refl|]. by split.
  - intros [] c1 (p' & u & Hs1 & Hl1 & Hst1 & (Hb & Hsu & Hn & Hc & Hlu & _) & Hg1).
    pose proof (live_same _ _ _ Hlive Hl1 Hst1) as Hlive1.
    assert (Hnames : map name (p' :: rest) = map name (p :: rest)).
    { cbn. by rewrite (proj1 (proj2 Hl1)). }
    destruct n as [n|].
    + apply spec_bind, spec_sub; [done|intros _|intros Hf; by eapply push_err].
      apply spec_modify. unfold on_top. rewrite Hs1. eexists _, p', rest. by split_and!.
    + apply spec_ret. by exists u, p', rest.
  - intros c1 [Hf (p' & Hs1 & Hl1 & Hst1 & Hg1)]. split; [done|]. split; [left|by apply kept_run].
    rewrite Hs1. by apply live_recoverable; eapply live_same.
Qed.

Lemma DefineSavepoint_spec n c0 c :
  (fails \/ sub_room c0) -> live (stack c) -> same_glob c0 c ->
  spec fails (DefineSavepoint E n) c (fun _ => pushed c0 n (stack c)) (commit_err c0).
Proof using Hfails.
  intros Hroom Hlive Hg. unfold DefineSavepoint.
  destruct (stack c) as [|p rest] eqn:Hs; [done|]. destruct (live_head _ _ Hlive) as (_ & (Hp & _) & Hb).
  apply spec_bind. eapply spec_parallel; [done|done|]. apply spec_bind. eapply spec_cur; [done|].
  rewrite <- Hs in *. destruct Hb as [-> | ->]; by apply push_named_spec.
Qed.

(** The new level becomes a live subtransaction. *)
Lemma start_sub_spec n l c0 c :
  pushed c0 n l c ->
  spec fails (StartSubTransaction E;; upd_cur (set_blockState TBLOCK_SUBINPROGRESS)) c
    (fun _ c' => live (stack c') /\ map name (stack c') = n :: map name l /\ kept_glob c0 c')
    (commit_err c0).
Proof using Hfails.
  intros (u & p & rest & Hs & Hlive & Hn & (Hb & Hst & Hok) & Hnu & _ & Hg). apply spec_bind.
  eapply spec_mono; [apply (StartSubTransaction_spec E fails Hfails c u p rest)|..].
  - apply at_level_self; [done|done|apply Hg|by right].
  - intros [] c1 (u' & Hs1 & (Hb1 & Hn1 & _ & Hok1 & _) & Hst1 & [Hg1 _]). apply spec_modify.
    unfold on_top. rewrite Hs1. split; [exact (conj (conj eq_refl (conj Hst1 Hok1)) Hlive)|]. split.
    + cbn. rewrite <- Hn. cbn. by rewrite Hn1, Hnu.
    + eapply kept_glob_trans; [exact Hg|exact Hg1].
  - intros c1 [Hf (u' & Hs1 & (Hb1 & _ & _ & Hok1 & _) & _ & [Hg1 _])].
    eapply push_err; [done|done|done|congruence|done|by eapply kept_glob_trans].
Qed.

Lemma restart_spec pop c t p rest :
  stack c = t :: p :: rest -> lvl_ok t -> live (p :: rest) -> glob_ok c -> (fails \/ sub_room c) ->
  (forall c1, stack c1 = set_name None t :: p :: rest -> same_glob c c1 ->
     spec fails pop c1 (fun _ c2 => stack c2 = p :: rest /\ same_glob c1 c2) (abort_err fails c1)) ->
  spec fails (restart_savepoint E pop) c
    (fun _ c' => live (stack c') /\ map name (stack c') = name t :: map name (p :: rest) /\ run_glob c c')
    (commit_err c).
Proof using Hfails.
  intros Hs Hok Hlive Hg Hroom Hpop. unfold restart_savepoint. apply spec_bind.
  eapply spec_cur; [done|]. apply spec_bind, spec_modify. unfold on_top. rewrite Hs.
  set (c1 := set_stack (set_name None t :: p :: rest) c).
  assert (Hg1 : same_glob c c1) by exact (same_glob_refl c Hg).
  apply spec_bind. eapply spec_mono; [by apply (Hpop c1)|..].
  - intros [] c2 [Hs2 Hg2]. assert (Hg02 : same_glob c c2) by exact (same_glob_trans _ _ _ Hg1 Hg2).
    apply spec_bind.
    eapply spec_mono; [apply (DefineSavepoint_spec None c c2); [done|by rewrite Hs2|done]|..|done].
    intros [] c3 (u & p' & rest' & Hs3 & Hl3 & Hn3 & (Hb & Hst & Hoku) & _ & Hch & Hg3).
    rewrite Hs2 in Hn3. apply spec_bind, spec_modify, spec_bind, spec_modify. unfold on_top.
    rewrite Hs3. cbn [stack set_stack]. apply spec_bind. eapply spec_cur; [reflexivity|].
    apply spec_bind, spec_assert; [unfold is_block; cbn; by rewrite Hb|].
    eapply spec_mono; [eapply start_sub_spec with (c0 := c) (n := name t) (l := p :: rest)|..|done].
    + eexists _, p', rest'. split; [reflexivity|].
      refine (conj Hl3 (conj Hn3 (conj (conj Hb (conj Hst _)) (conj eq_refl (conj Hch Hg3))))).
      destruct Hoku as (H1 & H2 & _), Hok as (_ & _ & H3). exact (conj H1 (conj H2 H3)).
    + intros _ c4 (? & ? & ?). split_and!; [done|done|by apply kept_run].
  - intros c2 H2. apply abort_commit_err. by eapply abort_err_trans.
Qed.

(** * [CommitTransactionCommand], state by state *)
Definition ended_run (c0 : Core) (want_chain : bool) (c : Core) : Prop :=
  run_glob c0 c /\
  if want_chain
  then exists t, stack c = [t] /\ live_lvl TBLOCK_INPROGRESS t /\ MyXactFlags c = 0
  else idle c.

Lemma ended_to_run c0 c1 b c : run_glob c0 c1 -> ended c1 b c -> ended_run c0 b c.
Proof.
  intros Hr [Hg He]. split; [by eapply run_glob_trans; [|apply same_run]|].
  destruct b; [|done]. destruct He as (t & ? & ? & _ & ? & _). by exists t.
Qed.

Lemma commit_started_spec fuel c t :
  stack c = [t] -> in_block TBLOCK_STARTED TRANS_INPROGRESS t -> glob_ok c ->
  spec fails (commit_command E (S fuel)) c (fun _ c' => idle c' /\ run_glob c c')
    (fun c' => commit_err c c' /\ exists t', stack c' = [t'] /\ blockState t' = TBLOCK_STARTED).
Proof using Hfails.
  intros Hs (Hb & Hst & Hl) Hg. destruct (saved_glob c t Hg) as [Hg1 Hr1]. cbn [commit_command].
  apply spec_bind. eapply spec_cur; [done|]. apply spec_bind, spec_save. rewrite Hb. apply spec_bind.
  eapply spec_mono; [apply (CommitTransaction_spec E fails Hfails (saved c t) t)|..].
  - by rewrite Hb.
  - apply at_level_self; [by rewrite saved_stack|done|done|by right].
  - intros [] c1 H1. eapply spec_mono; [by apply (to_idle_spec fails (saved c t) t)| |].
    + intros _ c2 [? Hg2]. split; [done|]. by eapply run_glob_trans, same_run.
    + intros c2 Hc2. exact Hc2.
  - intros c1 [Hf (t' & Hs' & (Hb' & _ & _ & Hl' & _) & _ & Hg')]. split.
    + split; [done|]. split; [|by eapply run_glob_trans, same_run].
      left. rewrite Hs'. cbn. unfold abort_ready. rewrite Hb', Hb. auto.
    + exists t'. by rewrite Hb', Hb.
Qed.

Lemma commit_begin_spec fuel c t :
  stack c = [t] -> in_block TBLOCK_BEGIN TRANS_INPROGRESS t -> glob_ok c ->
  spec fails (commit_command E (S fuel)) c
    (fun _ c' => (exists t', stack c' = [t'] /\ live [t']) /\ run_glob c c') (commit_err c).
Proof.
  intros Hs (Hb & Hst & Hl) Hg. destruct (saved_glob c t Hg) as [Hg1 Hr1]. cbn [commit_command].
  apply spec_bind. eapply spec_cur; [done|]. apply spec_bind, spec_save. rewrite Hb. apply spec_modify.
  unfold on_top. rewrite saved_stack, Hs. split; [|exact Hr1].
  eexists. split; [reflexivity|]. by split_and!.
Qed.

Lemma commit_live_spec fuel c :
  live (stack c) -> glob_ok c -> (fails \/ limits c) ->
  spec fails (commit_command E (S fuel)) c
    (fun _ c' => live (stack c') /\ map name (stack c') = map name (stack c) /\ run_glob c c')
    (commit_err c).
Proof using Hfails.
  intros Hlive Hg Hlim. destruct (stack c) as [|t rest] eqn:Hs; [done|].
  destruct (live_head _ _ Hlive) as (Hst & Hl & Hb). destruct (saved_glob c t Hg) as [Hg1 Hr1].
  cbn [commit_command]. apply spec_bind. eapply spec_cur; [done|]. apply spec_bind, spec_save.
  assert (H : at_level (saved c t) t rest (in_state TRANS_INPROGRESS) (saved c t)).
  { apply at_level_self; [by rewrite saved_stack|done..]. }
  assert (Hcci : spec fails (CommandCounterIncrement E) (saved c t)
    (fun _ => at_level (saved c t) t rest (in_state TRANS_INPROGRESS))
    (fun c' => fails /\ at_level (saved c t) t rest (in_state TRANS_INPROGRESS) c')).
  { apply (keep_CCI E fails Hfails); [by apply saved_limits|done|done|done]. }
  assert (Hdone : spec fails (CommandCounterIncrement E) (saved c t)
    (fun _ c' => live (stack c') /\ map name (stack c') = map name (t :: rest) /\ run_glob c c')
    (commit_err c)).
  { eapply spec_mono; [exact Hcci|..].
    - intros _ c1 (t1 & Hs1 & Hl1 & Hst1 & Hg2). rewrite Hs1. split_and!.
      + by eapply live_same.
      + cbn. by rewrite (proj1 (proj2 Hl1)).
      + by eapply run_glob_trans, same_run.
    - intros c1 [Hf (t1 & Hs1 & Hl1 & Hst1 & Hg2)]. split; [done|]. split.
      + left. rewrite Hs1. by apply live_recoverable; eapply live_same.
      + by eapply run_glob_trans, same_run. }
  by destruct Hb as [-> | ->].
Qed.

Lemma commit_failed_spec fuel c :
  failed (stack c) -> glob_ok c ->
  spec fails (commit_command E (S fuel)) c
    (fun _ c' => stack c' = stack c /\ run_glob c c') (commit_err c).
Proof.
  intros Hf Hg. destruct (stack c) as [|t rest] eqn:Hs; [done|].
  destruct (saved_glob c t Hg) as [Hg1 Hr1]. cbn [commit_command].
  apply spec_bind. eapply spec_cur; [done|]. apply spec_bind, spec_save.
  assert (Hb : blockState t = TBLOCK_ABORT \/ blockState t = TBLOCK_SUBABORT).
  { destruct rest; [left|right]; apply Hf. }
  assert (H : stack (saved c t) = t :: rest /\ run_glob c (saved c t)) by by rewrite saved_stack.
  destruct Hb as [-> | ->]; by apply spec_ret.
Qed.

Ltac enter Hs t Hg Hg1 Hr1 :=
  destruct (saved_glob _ t Hg) as [Hg1 Hr1]; cbn [commit_command];
  apply spec_bind; eapply spec_cur; [exact Hs|]; apply spec_bind, spec_save.

Lemma commit_pushed_spec fuel n l c0 c :
  pushed c0 n l c -> glob_ok c ->
  spec fails (commit_command E (S fuel)) c
    (fun _ c' => live (stack c') /\ map name (stack c') = n :: map name l /\ run_glob c c')
    (commit_err c).
Proof using Hfails.
  intros (u & p & rest & Hs & Hlive & Hn & Hu & Hnu & Hch & Hg0) Hg.
  enter Hs u Hg Hg1 Hr1. rewrite (proj1 Hu). unfold saved. rewrite Hch.
  eapply spec_mono; [apply (start_sub_spec n l c)|..|done].
  - exists u, p, rest. split_and!; try done; try apply Hu. unfold kept_glob. split; [apply Hg|]. auto.
  - intros _ c1 (? & ? & ?). split_and!; [done|done|by apply kept_run].
Qed.

Lemma commit_release_spec fuel c :
  releasing (stack c) -> (length (stack c) <= S fuel)%nat -> glob_ok c ->
  (fails \/ limits c /\ xid_load (stack c) <= MaxChildXids) ->
  spec fails (commit_command E (S fuel)) c
    (fun _ c' => live (stack c') /\ map name (stack c') = map name (after_release (stack c)) /\ run_glob c c')
    (commit_err c).
Proof using Hfails.
  intros Hrel Hlen Hg Hroom. destruct (stack c) as [|t rest] eqn:Hs; [done|].
  enter Hs t Hg Hg1 Hr1. rewrite (proj1 (proj1 Hrel)). apply spec_bind.
  eapply spec_mono; [apply (release_spec (S fuel) (saved c t))|..].
  - by rewrite saved_stack, Hs.
  - by rewrite saved_stack, Hs.
  - done.
  - rewrite saved_stack, Hs. destruct Hroom as [?|[? ?]]; [by left|].
    destruct (saved_limits c t) as [?|?]; auto.
  - rewrite saved_stack, Hs. intros [] c1 (Hl1 & Hn1 & Hg2).
    destruct (stack c1) as [|t1 r1] eqn:Hs1; [done|].
    apply spec_bind. eapply spec_cur; [done|]. apply spec_assert; [by apply live_head_block in Hl1 as [-> _]|].
    rewrite Hs1. split_and!; [done|done|by eapply run_glob_trans, same_run].
  - intros c1 (? & ? & ?). split_and!; [done|done|by eapply run_glob_trans, same_run].
Qed.

Lemma in_block_level b st c t rest :
  stack c = t :: rest -> in_block b st t -> glob_ok c -> at_level c t rest (in_state st) c.
Proof. intros Hs (_ & Hst & Hl) Hg. by apply at_level_self. Qed.

Lemma commit_end_spec fuel c t rest :
  stack c = t :: rest -> committing TBLOCK_END (stack c) -> (length (stack c) <= S fuel)%nat ->
  glob_ok c -> (fails \/ limits c /\ xid_load (stack c) <= MaxChildXids) ->
  spec fails (commit_command E (S fuel)) c
    (fun _ c' => exists c1, run_glob c c1 /\ save_chars c1 = save_chars (saved c t) /\
                            ended c1 (top_chain (stack c)) c')
    (commit_err c).
Proof using Hfails.
  intros Hs Hcom Hlen Hg Hroom. enter Hs t Hg Hg1 Hr1. rewrite Hs in *.
  destruct rest as [|p rest].
  - rewrite (proj1 Hcom).
    eapply spec_mono; [apply (commit_transaction_end_spec (saved c t) t)|..].
    + apply Hcom.
    + eapply in_block_level; [by rewrite saved_stack|exact Hcom|done].
    + intros [] c1 H1. exists (saved c t). by split_and!.
    + intros c1 (? & ? & ?). split_and!; [done|done|by eapply run_glob_trans, same_run].
  - rewrite (proj1 (proj1 Hcom)). apply spec_bind.
    eapply spec_mono; [apply (subcommit_spec TBLOCK_END (S fuel) (saved c t) t p rest)|..].
    + by left.
    + by rewrite saved_stack.
    + by rewrite saved_stack, Hs.
    + by rewrite saved_stack, Hs.
    + done.
    + rewrite saved_stack, Hs. destruct Hroom as [?|[? ?]]; [by left|].
      destruct (saved_limits c t) as [?|?]; auto.
    + intros [] c1 (u & Hs1 & Hu & Hch & Hg2). rewrite saved_stack, Hs in Hch.
      apply spec_bind. eapply spec_cur; [done|]. unfold is_block. rewrite (proj1 Hu). cbn.
      apply spec_bind, spec_bind, spec_get, spec_assert; [by rewrite Hs1|].
      eapply spec_mono; [apply (commit_transaction_end_spec c1 u)|..].
      * apply Hu.
      * eapply in_block_level; [done|exact Hu|apply Hg2].
      * intros [] c2 H2. exists c1. rewrite <- Hch.
        split_and!; [by eapply run_glob_trans, same_run|apply Hg2|done].
      * intros c2 (? & ? & ?). split_and!; [done|done|].
        eapply run_glob_trans; [exact Hr1|]. by eapply run_glob_trans; apply same_run.
    + intros c1 (? & ? & ?). split_and!; [done|done|by eapply run_glob_trans, same_run].
Qed.

(** PREPARE can also be refused, with the transaction still open. *)
Definition prepare_err (c0 c : Core) : Prop :=
  commit_err c0 c \/
  exists t, stack c = [t] /\ blockState t = TBLOCK_PREPARE /\ recoverable fails [t] /\ run_glob c0 c.

Lemma commit_prepare_spec fuel c t rest :
  stack c = t :: rest -> committing TBLOCK_PREPARE (stack c) -> (length (stack c) <= S fuel)%nat ->
  glob_ok c -> (fails \/ limits c /\ xid_load (stack c) <= MaxChildXids) ->
  spec fails (commit_command E (S fuel)) c (fun _ c' => idle c' /\ run_glob c c') (prepare_err c).
Proof using Hfails.
  intros Hs Hcom Hlen Hg Hroom. enter Hs t Hg Hg1 Hr1. rewrite Hs in *.
  destruct rest as [|p rest].
  - rewrite (proj1 Hcom).
    eapply spec_mono; [apply (prepare_end_spec (saved c t) t)|..].
    + apply Hcom.
    + eapply in_block_level; [by rewrite saved_stack|exact Hcom|done].
    + intros _ c1 [? ?]. split; [done|by eapply run_glob_trans, same_run].
    + intros c1 (u & ? & ? & ? & ?). right. exists u.
      split_and!; [done|done|done|by eapply run_glob_trans, same_run].
  - rewrite (proj1 (proj1 Hcom)). apply spec_bind.
    eapply spec_mono; [apply (subcommit_spec TBLOCK_PREPARE (S fuel) (saved c t) t p rest)|..].
    + by right.
    + by rewrite saved_stack.
    + by rewrite saved_stack, Hs.
    + by rewrite saved_stack, Hs.
    + done.
    + rewrite saved_stack, Hs. destruct Hroom as [?|[? ?]]; [by left|].
      destruct (saved_limits c t) as [?|?]; auto.
    + intros [] c1 (u & Hs1 & Hu & _ & Hg2).
      apply spec_bind. eapply spec_cur; [done|]. unfold is_block. rewrite (proj1 Hu). cbn.
      apply spec_bind, spec_bind, spec_get, spec_assert; [by rewrite Hs1|].
      assert (Hr2 : run_glob c c1) by by eapply run_glob_trans, same_run.
      eapply spec_mono; [apply (prepare_end_spec c1 u)|..].
      * apply Hu.
      * eapply in_block_level; [done|exact Hu|apply Hg2].
      * intros _ c2 [? ?]. split; [done|by eapply run_glob_trans, same_run].
      * intros c2 (v & ? & ? & ? & ?). right. exists v.
        split_and!; [done|done|done|by eapply run_glob_trans, same_run].
    + intros c1 (? & ? & ?). left. split_and!; [done|done|by eapply run_glob_trans, same_run].
Qed.

Lemma commit_err_run c0 c1 c : run_glob c0 c1 -> commit_err c1 c -> commit_err c0 c.
Proof. intros ? (? & ? & ?). split_and!; [done|done|by eapply run_glob_trans]. Qed.

Lemma ended_run_run c0 c1 b c : run_glob c0 c1 -> ended_run c1 b c -> ended_run c0 b c.
Proof. intros ? [? ?]. split; [by eapply run_glob_trans|done]. Qed.

(** Pop a doomed level and go on with the next one. *)
Lemma doomed_spec {B} (k : unit -> X W B) c t p rest Q R :
  stack c = t :: p :: rest -> doomed t -> glob_ok c -> recoverable fails (p :: rest) ->
  (forall c', stack c' = p :: rest -> same_glob c c' -> spec fails (k tt) c' Q R) ->
  (forall c', abort_err fails c c' -> R c') ->
  (blockState t = TBLOCK_SUBABORT_PENDING ->
   spec fails (AbortSubTransaction E ≫= fun _ => CleanupSubTransaction E ≫= k) c Q R) /\
  (blockState t = TBLOCK_SUBABORT_END -> spec fails (CleanupSubTransaction E ≫= k) c Q R).
Proof using Hfails.
  intros Hs Ht Hg Hrec Hk HR.
  assert (Herr : forall c', fails -> at_level c t (p :: rest) any_state c' -> abort_err fails c c').
  { intros c' Hf H'. eapply abort_err_sub; [by apply doomed_recoverable| |done|done].
    by destruct Ht as [(-> & _)|(-> & _)]. }
  destruct Ht as [(Hb & Hst & Hl)|(Hb & Hst & Hl)]; (split; [intros Hb'|intros Hb']); try congruence.
  - eapply pop_aborted_spec; eauto.
  - eapply pop_cleaned_spec; eauto.
Qed.

Lemma commit_abort_spec fuel c :
  aborting (stack c) -> (length (stack c) <= fuel)%nat -> glob_ok c ->
  spec fails (commit_command E fuel) c (fun _ => ended_run c (top_chain (stack c))) (commit_err c).
Proof using Hfails.
  revert c. induction fuel as [|fuel IH]; intros c Hab Hlen Hg;
    [by destruct (stack c); cbn in Hlen; [|lia]|].
  destruct (stack c) as [|t [|p rest]] eqn:Hs; [done|..]; enter Hs t Hg Hg1 Hr1.
  - change (top_chain [t]) with (chain t).
    destruct Hab as [(Hb & Hst & Hl)|(Hb & Hst & Hl)]; rewrite Hb.
    + eapply abort_cleanup_spec with (c0 := saved c t) (t0 := t)
        (P := fun t => fails \/ state t = TRANS_INPROGRESS); [done|tauto|..].
      * apply at_level_self; [by rewrite saved_stack|done|done|by right].
      * intros c1 H1. eapply spec_mono; [by apply (finish_block_spec (saved c t) t)|..].
        -- intros [] c2 H2. by eapply ended_to_run.
        -- intros c2 H2. by eapply commit_err_run; [|apply abort_commit_err].
      * intros c1 Hf H1. eapply commit_err_run; [done|]. apply abort_commit_err.
        eapply abort_err_top; [|by rewrite Hb|by rewrite Hb|done|by eapply at_level_any].
        cbn. unfold abort_ready. rewrite Hb. auto.
    + apply spec_bind.
      eapply spec_mono; [apply (CleanupTransaction_spec E fails Hfails (saved c t) t)|..].
      * apply at_level_self; [by rewrite saved_stack|done..].
      * intros [] c1 H1. eapply spec_mono; [by apply (finish_block_spec (saved c t) t)|..].
        -- intros [] c2 H2. by eapply ended_to_run.
        -- intros c2 H2. by eapply commit_err_run; [|apply abort_commit_err].
      * intros c1 [Hf (t' & Hs' & (Hb' & _ & _ & Hl' & _) & Hst' & Hg')]. split; [done|]. split.
        -- left. rewrite Hs'. cbn. unfold abort_ready. by rewrite Hb', Hb.
        -- by eapply run_glob_trans, same_run.
  - destruct Hab as [Ht Hrest]. change (top_chain (t :: p :: rest)) with (top_chain (p :: rest)).
    destruct (doomed_spec (fun _ => commit_command E fuel) (saved c t) t p rest
      (fun _ => ended_run c (top_chain (p :: rest))) (commit_err c)) as [H1 H2].
    + by rewrite saved_stack.
    + done.
    + done.
    + by apply aborting_recoverable.
    + intros c1 Hs1 Hg2. assert (Hr2 : run_glob c c1) by by eapply run_glob_trans, same_run.
      rewrite <- Hs1. eapply spec_mono; [apply IH|..].
      * by rewrite Hs1.
      * rewrite Hs1. cbn in Hlen |- *. lia.
      * apply Hg2.
      * intros [] c2 H2. by eapply ended_run_run.
      * intros c2 H2. by eapply commit_err_run.
    + intros c1 H1. by eapply commit_err_run; [|apply abort_commit_err].
    + destruct Ht as [(Hb & _)|(Hb & _)]; rewrite Hb; auto.
Qed.

(** What is left of the stack after ROLLBACK TO. *)
Fixpoint after_rollback (l : list TransactionStateData) : list TransactionStateData :=
  match l with
  | t :: r => if is_block TBLOCK_SUBABORT_PENDING t || is_block TBLOCK_SUBABORT_END t
              then after_rollback r else l
  | [] => []
  end.

Lemma commit_restart_spec fuel c :
  restarting (stack c) -> (length (stack c) <= fuel)%nat -> glob_ok c -> (fails \/ sub_room c) ->
  spec fails (commit_command E fuel) c
    (fun _ c' => live (stack c') /\ map name (stack c') = map name (after_rollback (stack c)) /\ run_glob c c')
    (commit_err c).
Proof using Hfails.
  revert c. induction fuel as [|fuel IH]; intros c Hre Hlen Hg Hroom;
    [by destruct (stack c); cbn in Hlen; [|lia]|].
  destruct (stack c) as [|t rest] eqn:Hs; [done|]. enter Hs t Hg Hg1 Hr1.
  destruct Hre as [[Ht Hlive]|[Ht Hre]]; (destruct rest as [|p rest]; [done|]).
  - assert (Hn : after_rollback (t :: p :: rest) = t :: p :: rest).
    { cbn. unfold is_block. by destruct Ht as [(-> & _)|(-> & _)]. }
    rewrite Hn. cbn [map].
    assert (Hrs : forall pop,
      (forall c1, stack c1 = set_name None t :: p :: rest -> same_glob (saved c t) c1 ->
         spec fails pop c1 (fun _ c2 => stack c2 = p :: rest /\ same_glob c1 c2) (abort_err fails c1)) ->
      spec fails (restart_savepoint E pop) (saved c t)
        (fun _ c' => live (stack c') /\ map name (stack c') = name t :: map name (p :: rest) /\ run_glob c c')
        (commit_err c)).
    { intros pop Hpop. eapply spec_mono; [eapply restart_spec; [by rewrite saved_stack|..|exact Hpop]|..].
      - by destruct Ht as [(_ & _ & ?)|(_ & _ & ?)].
      - done.
      - done.
      - by apply saved_room.
      - intros _ c1 (? & ? & ?). split_and!; [done|done|by eapply run_glob_trans].
      - intros c1 H1. by eapply commit_err_run. }
    destruct Ht as [(Hb & Hst & Hl)|(Hb & Hst & Hl)]; rewrite Hb; apply Hrs; intros c1 Hs1 Hg2.
    + apply spec_unret. eapply pop_aborted_spec; [done|exact Hs1|exact Hl|apply Hg2|by right|..].
      * intros c2 Hs2 Hg3. by apply spec_ret.
      * intros c2 Hf H2. apply (abort_err_sub _ _ (set_name None t) p rest); [|by cbn; rewrite Hb|done|exact H2].
        apply restarting_recoverable. left. split; [left; by split_and!|done].
    + apply spec_unret1. eapply pop_cleaned_spec; [done|exact Hs1|exact Hl|apply Hg2|by right|..].
      * intros c2 Hs2 Hg3. by apply spec_ret.
      * intros c2 Hf H2. apply (abort_err_sub _ _ (set_name None t) p rest); [|by cbn; rewrite Hb|done|exact H2].
        apply restarting_recoverable. left. split; [right; by split_and!|done].
  - assert (Hn : after_rollback (t :: p :: rest) = after_rollback (p :: rest)).
    { cbn [after_rollback]. unfold is_block at 1 2. by destruct Ht as [(-> & _)|(-> & _)]. }
    rewrite Hn.
    destruct (doomed_spec (fun _ => commit_command E fuel) (saved c t) t p rest
      (fun _ c' => live (stack c') /\ map name (stack c') = map name (after_rollback (p :: rest)) /\
                   run_glob c c') (commit_err c)) as [H1 H2].
    + by rewrite saved_stack.
    + done.
    + done.
    + by apply restarting_recoverable.
    + intros c1 Hs1 Hg2. assert (Hr2 : run_glob c c1) by by eapply run_glob_trans, same_run.
      rewrite <- Hs1. eapply spec_mono; [apply IH|..].
      * by rewrite Hs1.
      * rewrite Hs1. cbn in Hlen |- *. lia.
      * apply Hg2.
      * destruct (saved_room c t Hroom) as [?|?]; [by left|right]. by apply Hg2.
      * intros [] c2 (? & ? & ?). split_and!; [done|done|by eapply run_glob_trans].
      * intros c2 H2. by eapply commit_err_run.
    + intros c1 H1. by eapply commit_err_run; [|apply abort_commit_err].
    + destruct Ht as [(Hb & _)|(Hb & _)]; rewrite Hb; auto.
Qed.

End commit.
