(* ===== verification/XactFrame.v ===== *)
(** A property of the transaction stack that every routine of Xact.v and
    XactBlock.v keeps, whatever the other modules do and however the routine
    ends: the outermost level has no savepoint name, so neither RELEASE nor
    ROLLBACK TO can reach it. *)
From S2P Require Import Prelude.
From S2P Require Import Xact.
From S2P Require Import XactBlock.
From S2P Require Import SimpleQuery.
From S2P Require Import XactSpec.
Open Scope list_scope.
Open Scope Z_scope.

Definition unnamed (c : Core) : Prop := mjoin (last (map name (stack c))) = None.

(** [m] keeps [I], whether it returns or not. *)
Definition stable {W A} (I : Core -> Prop) (m : X W A) : Prop :=
  forall x, I (core x) -> I (core (snd (m x))).

Lemma spec_stable {W A} fails (I : Core -> Prop) (m : X W A) c Q R :
  stable I m -> I c -> spec fails m c Q R ->
  spec fails m c (fun a c' => Q a c' /\ I c') (fun c' => R c' /\ I c').
Proof.
  intros Hm Hc H x <-. specialize (H x eq_refl). specialize (Hm x Hc).
  destruct (m x) as [[a|[]] x']; cbn in Hm; tauto.
Qed.

Create HintDb frame.

Section rules.
Context {W : Type} (E : Subsystems W) (I : Core -> Prop).

Lemma st_ret {A} (a : A) : stable I (mret a : X W A).
Proof. by intros x. Qed.

Lemma st_throw {A} e : stable I (throw e : X W A).
Proof. by intros x. Qed.

Lemma st_get : stable I (get : X W Core).
Proof. by intros x. Qed.

Lemma st_bind {A B} (m : X W A) (k : A -> X W B) :
  stable I m -> (forall a, stable I (k a)) -> stable I (m ≫= k).
Proof.
  intros Hm Hk x Hx. unfold mbind, X_bind. specialize (Hm x Hx).
  destruct (m x) as [[a|e] x']; [by apply Hk|done].
Qed.

Lemma st_modify f : (forall c, I c -> I (f c)) -> stable I (modify f : X W unit).
Proof. intros Hf x. apply Hf. Qed.

Lemma st_sub f args : stable I (sub E f args).
Proof. intros x Hx. unfold sub. by destruct (subsys E f args (world x)) as [[v w]|msg]. Qed.

Lemma st_calls l : stable I (calls E l).
Proof. induction l as [|[f a] l IH]; [apply st_ret|]. by apply st_bind; [apply st_sub|]. Qed.

Lemma st_when b (m : X W unit) : stable I m -> stable I (when b m).
Proof. by destruct b; [|intros _; apply st_ret]. Qed.

Lemma st_assert b what : stable I (Assert b what : X W unit).
Proof. by destruct b; intros x. Qed.

Lemma st_cur : stable I (CurrentTransactionState : X W _).
Proof. intros x Hx. unfold CurrentTransactionState, mbind, X_bind. cbn. by destruct (stack _). Qed.

Lemma st_parent : stable I (parent_state : X W _).
Proof. intros x Hx. unfold parent_state, mbind, X_bind. cbn. by destruct (stack _) as [|? [|]]. Qed.

Lemma st_warn msg : stable I (elog_warning msg : X W unit).
Proof. by intros x. Qed.

Lemma st_notice msg : stable I (ereport_warning msg : X W unit).
Proof. by intros x. Qed.

End rules.

Section names.
Context {W : Type}.

(** Assignments to levels that leave the names alone. *)
Lemma unnamed_names c c' : map name (stack c') = map name (stack c) -> unnamed c -> unnamed c'.
Proof. unfold unnamed. by intros ->. Qed.

Lemma names_on_top f c : (forall t, name (f t) = name t) -> map name (stack (on_top f c)) = map name (stack c).
Proof. intros Hf. unfold on_top. destruct (stack c) as [|t l] eqn:Hs; cbn; [by rewrite Hs|by rewrite Hf]. Qed.

Lemma names_alter f k l : (forall t, name (f t) = name t) -> map name (alter f k l) = map name l.
Proof. intros Hf. revert k. induction l as [|t l IH]; intros [|k]; cbn; [done..|by rewrite Hf|by rewrite IH]. Qed.

Lemma mark_levels_cons f g t p l :
  mark_levels f g (t :: p :: l) =
  match f (blockState t) with
  | Some b => let '(ok, l') := mark_levels f g (p :: l) in (ok, set_blockState b t :: l')
  | None => (false, t :: p :: l)
  end.
Proof. done. Qed.

Lemma names_mark f g l : map name (snd (mark_levels f g l)) = map name l.
Proof.
  induction l as [|t [|p l] IH]; [done|cbn; by destruct (g _)|].
  rewrite mark_levels_cons. destruct (f _); [|done].
  destruct (mark_levels f g (p :: l)) as [ok l'] eqn:Hm. cbn in IH |- *. by rewrite IH.
Qed.

Lemma st_upd f : (forall t, name (f t) = name t) -> stable unnamed (upd_cur f : X W unit).
Proof. intros Hf. apply st_modify. intros c. by apply unnamed_names, names_on_top. Qed.

Lemma st_upd_level k f : (forall t, name (f t) = name t) -> stable unnamed (upd_level k f : X W unit).
Proof. intros Hf. apply st_modify. intros c. by apply unnamed_names, names_alter. Qed.

Lemma st_level k : stable unnamed (level k : X W _).
Proof. intros x Hx. unfold level, mbind, X_bind. cbn. by destruct (stack _ !! k). Qed.

(** A name may be given to a level that is not the outermost one. *)
Lemma unnamed_name_top n c :
  (n = None \/ (2 <= length (stack c))%nat) -> unnamed c -> unnamed (on_top (set_name n) c).
Proof.
  unfold unnamed, on_top. destruct (stack c) as [|t [|p l]] eqn:Hs; cbn; [by rewrite Hs|..|done].
  intros [->|?]; [done|lia].
Qed.

Lemma unnamed_pop c t p l : stack c = t :: p :: l -> unnamed c -> unnamed (set_stack (p :: l) c).
Proof. unfold unnamed. by intros ->. Qed.

End names.

#[export] Hint Resolve st_ret st_throw st_get st_sub st_calls st_assert st_cur st_parent st_warn
  st_notice st_level : frame.

(** Go through a routine, call by call. *)
Ltac frame :=
  repeat first
    [ solve [auto with frame]
    | apply st_bind; [|intros ?]
    | apply st_when
    | apply st_upd; intros ?; reflexivity
    | apply st_upd_level; intros ?; reflexivity
    | apply st_modify; let H := fresh in intros ? H; exact H
    | match goal with |- stable _ (match ?e with _ => _ end) => destruct e end ].

Section routines.
Context {W : Type} (E : Subsystems W).

Lemma st_parallel : stable unnamed (IsInParallelMode : X W bool).
Proof. unfold IsInParallelMode. frame. Qed.

Lemma st_check_state r t : stable unnamed (check_state r t : X W unit).
Proof. unfold check_state. frame. Qed.

Lemma st_no_parent : stable unnamed (assert_no_parent : X W unit).
Proof. unfold assert_no_parent. frame. Qed.

Lemma st_fire n b : stable unnamed (fire_deferred E n b).
Proof. induction n as [|n IH]; cbn [fire_deferred]; frame. Qed.

Lemma st_CCI : stable unnamed (CommandCounterIncrement E).
Proof. unfold CommandCounterIncrement. pose proof st_parallel. frame. Qed.

Lemma st_Assign depth k : stable unnamed (AssignTransactionId E depth k).
Proof.
  pose proof st_parallel. revert k. induction depth as [|depth IH]; intros k;
    cbn [AssignTransactionId]; unfold assign_xid; frame.
Qed.

Lemma st_Xid : stable unnamed (GetCurrentTransactionId E).
Proof. unfold GetCurrentTransactionId. pose proof st_Assign. frame. Qed.

Lemma st_ends :
  stable unnamed (AbortTransaction E) /\ stable unnamed (CleanupTransaction E) /\ stable unnamed (CommitTransaction E) /\
  stable unnamed (PrepareTransaction E).
Proof.
  pose proof st_parallel. pose proof st_check_state. pose proof st_no_parent. pose proof st_fire.
  pose proof st_Xid.
  unfold AbortTransaction, AtAbort_ResourceOwner, abort_first_steps, SetUserIdAndSecContext,
    CleanupTransaction, CommitTransaction, PrepareTransaction, forget_owners, reset_xids.
  split_and!; frame.
Qed.

Lemma st_Start : stable unnamed (StartTransaction E).
Proof.
  unfold StartTransaction, AtStart_ResourceOwner. apply st_bind; [|intros ?; frame].
  apply st_modify. intros c. unfold unnamed. cbn.
  destruct (stack c) as [|t l] using rev_ind; [done|].
  rewrite length_app, drop_app, map_app, map_app, !last_app. cbn.
  replace (pred (length l + 1) - length l)%nat with 0%nat by lia. done.
Qed.

Lemma st_Pop : stable unnamed (PopTransaction : X W unit).
Proof.
  unfold PopTransaction. apply st_bind; [apply st_check_state|intros _].
  intros x Hx. unfold mbind, X_bind. cbn. destruct (stack (core x)) as [|t [|p l]] eqn:Hs; [done..|].
  by eapply unnamed_pop.
Qed.

Lemma st_subs :
  stable unnamed (StartSubTransaction E) /\ stable unnamed (CommitSubTransaction E) /\
  stable unnamed (AbortSubTransaction E) /\ stable unnamed (CleanupSubTransaction E).
Proof.
  pose proof st_parallel. pose proof st_check_state. pose proof st_CCI. pose proof st_Pop.
  assert (Hpar : forall (f : TransactionStateData -> TransactionStateData -> TransactionStateData),
    (forall s p, name (f s p) = name p) ->
    stable unnamed (modify (fun c => match stack c with s :: p :: r => set_stack (s :: f s p :: r) c | _ => c end)
            : X W unit)).
  { intros f Hf. apply st_modify. intros c. apply unnamed_names.
    destruct (stack c) as [|s [|p r]] eqn:Hs; cbn; rewrite ?Hs; cbn; [done..|by rewrite Hf]. }
  unfold StartSubTransaction, CommitSubTransaction, AbortSubTransaction, CleanupSubTransaction,
    AtSubStart_ResourceOwner, AtSubAbort_ResourceOwner, AtSubAbort_childXids, abort_first_steps,
    SetUserIdAndSecContext, AtSubCommit_childXids.
  split_and!; frame;
    first [ apply (Hpar (fun _ p => set_maxChildXids _ p)); done
          | apply (Hpar (fun s p => set_childXids (childXids p ++ XidFromFullTransactionId (fullTransactionId s)
                                         :: childXids s) p)); done ].
Qed.

End routines.

#[export] Hint Resolve st_parallel st_check_state st_no_parent st_fire st_CCI st_Xid st_Start st_Pop : frame.
#[export] Hint Extern 1 (stable unnamed (AbortTransaction _)) => apply st_ends : frame.
#[export] Hint Extern 1 (stable unnamed (CleanupTransaction _)) => apply st_ends : frame.
#[export] Hint Extern 1 (stable unnamed (CommitTransaction _)) => apply st_ends : frame.
#[export] Hint Extern 1 (stable unnamed (PrepareTransaction _)) => apply st_ends : frame.
#[export] Hint Extern 1 (stable unnamed (StartSubTransaction _)) => apply st_subs : frame.
#[export] Hint Extern 1 (stable unnamed (CommitSubTransaction _)) => apply st_subs : frame.
#[export] Hint Extern 1 (stable unnamed (AbortSubTransaction _)) => apply st_subs : frame.
#[export] Hint Extern 1 (stable unnamed (CleanupSubTransaction _)) => apply st_subs : frame.

Section commands.
Context {W : Type} (E : Subsystems W).

(** A new level is never the outermost one, and may be given a name. *)
Definition grown (x : Xact W) : Prop := unnamed (core x) /\ (2 <= length (stack (core x)))%nat.

Lemma push_grown x :
  unnamed (core x) ->
  match PushTransaction E x with
  | (inl _, x') => grown x'
  | (inr _, x') => unnamed (core x')
  end.
Proof.
  intros Hx. unfold PushTransaction, CurrentTransactionState, mbind, X_bind. cbn.
  destruct (stack (core x)) as [|p l] eqn:Hs; [done|]. cbn.
  unfold sub at 1. destruct (subsys E _ _ _) as [[v w]|msg]; [|done]. cbn.
  match goal with |- context [?a =? ?b] => destruct (a =? b) end; [exact Hx|].
  unfold sub. destruct (subsys E _ _ _) as [[v' w']|msg]; [|exact Hx]. cbn. split.
  - unfold unnamed in *. cbn. rewrite Hs in *. exact Hx.
  - cbn. rewrite Hs. cbn. lia.
Qed.

Lemma st_then_name {A} (m : X W A) (k : A -> X W unit) :
  (forall x, unnamed (core x) ->
     match m x with (inl _, x') => grown x' | (inr _, x') => unnamed (core x') end) ->
  (forall a x, grown x -> unnamed (core (snd (k a x)))) -> stable unnamed (m ≫= k).
Proof.
  intros Hm Hk x Hx. specialize (Hm x Hx). unfold mbind, X_bind.
  destruct (m x) as [[a|e] x']; [by apply Hk|done].
Qed.

Lemma grown_name n x : grown x -> unnamed (on_top (set_name n) (core x)).
Proof. intros [? ?]. apply unnamed_name_top; auto. Qed.

Lemma st_push_named n : stable unnamed (push_named E n).
Proof.
  apply st_then_name; [by apply push_grown|]. intros _ x Hx.
  destruct n as [n|]; [|apply Hx]. unfold mbind, X_bind, sub.
  destruct (subsys E _ _ _) as [[v w]|msg]; [|apply Hx]. by apply (grown_name (Some n) x).
Qed.

Lemma st_Define n : stable unnamed (DefineSavepoint E n).
Proof. unfold DefineSavepoint. pose proof st_push_named. frame. Qed.

Lemma define_grown x :
  unnamed (core x) ->
  match DefineSavepoint E None x with
  | (inl _, x') => grown x'
  | (inr _, x') => unnamed (core x')
  end.
Proof.
  intros Hx. unfold DefineSavepoint, IsInParallelMode, CurrentTransactionState, mbind, X_bind. cbn.
  destruct (stack (core x)) as [|p l] eqn:Hs; [done|]. cbn.
  pose proof (push_grown x Hx) as Hp.
  destruct (negb _); [done|]. rewrite Hs. cbn. unfold push_named, mbind, X_bind.
  destruct (blockState p); try exact Hx; destruct (PushTransaction E x) as [[[]|e] x']; exact Hp.
Qed.

Lemma st_restart pop : stable unnamed pop -> stable unnamed (restart_savepoint E pop).
Proof.
  intros Hp. unfold restart_savepoint. apply st_bind; [frame|intros s].
  apply st_bind; [apply st_modify; intros c; apply unnamed_name_top; by left|intros _].
  apply st_bind; [done|intros _]. apply st_then_name; [by apply define_grown|]. intros _ x Hx.
  unfold mbind at 1, X_bind at 1. cbn [upd_cur modify].
  match goal with |- unnamed (core (snd (?k ?y))) => assert (Hk : stable unnamed k) by frame; apply Hk end.
  by apply (grown_name (name s) x).
Qed.

Lemma st_commit_subs n b : stable unnamed (commit_subs E n b).
Proof. induction n as [|n IH]; cbn [commit_subs]; frame. Qed.

Lemma st_commit n : stable unnamed (commit_command E n).
Proof.
  pose proof st_commit_subs.
  assert (stable unnamed (restart_savepoint E (AbortSubTransaction E;; CleanupSubTransaction E))) by (apply st_restart; frame).
  assert (stable unnamed (restart_savepoint E (CleanupSubTransaction E))) by (apply st_restart; frame).
  induction n as [|n IH]; cbn [commit_command]; unfold to_idle, start_chained,
    SaveTransactionCharacteristics, RestoreTransactionCharacteristics; frame.
Qed.

Lemma st_abort n : stable unnamed (abort_current E n).
Proof.
  induction n as [|n IH]; cbn [abort_current]; unfold abort_default, to_idle; frame.
Qed.

Lemma st_mark r f g : stable unnamed (mark r f g : X W unit).
Proof.
  intros x Hx. unfold mark, mbind, X_bind. cbn. pose proof (names_mark f g (stack (core x))) as Hn.
  destruct (mark_levels f g (stack (core x))) as [ok l]. cbn.
  destruct ok; (eapply unnamed_names; [|exact Hx]; exact Hn).
Qed.

Lemma st_blocks ch gid :
  stable unnamed (BeginTransactionBlock : X W unit) /\ stable unnamed (EndTransactionBlock ch : X W bool) /\
  stable unnamed (PrepareTransactionBlock gid : X W bool) /\ stable unnamed (UserAbortTransactionBlock ch : X W unit) /\
  stable unnamed (BeginImplicitTransactionBlock : X W unit) /\ stable unnamed (EndImplicitTransactionBlock : X W unit).
Proof.
  pose proof st_mark.
  unfold BeginTransactionBlock, PrepareTransactionBlock, EndTransactionBlock, UserAbortTransactionBlock,
    BeginImplicitTransactionBlock, EndImplicitTransactionBlock, no_transaction, set_top_chain,
    assert_outermost. split_and!; frame.
Qed.

Lemma st_target n : stable unnamed (savepoint_target n : X W nat).
Proof. unfold savepoint_target. frame. Qed.

Lemma st_rollback_mark k f g msg :
  stable unnamed (c ← get;
          let '(ok, l) := mark_levels f g (take (S k) (stack c)) in
          modify (set_stack (l ++ drop (S k) (stack c)));;
          if ok then mret tt else throw (EFatal msg) : X W unit).
Proof.
  intros x Hx. unfold mbind, X_bind. cbn [get].
  pose proof (names_mark f g (take (S k) (stack (core x)))) as Hn.
  destruct (mark_levels f g _) as [ok l]. cbn in Hn.
  destruct ok; (eapply unnamed_names; [|exact Hx]; cbn [stack set_stack modify snd core mret throw X_ret]);
    by rewrite map_app, Hn, <- map_app, take_drop.
Qed.

Lemma st_savepoints n : stable unnamed (ReleaseSavepoint n : X W unit) /\ stable unnamed (RollbackToSavepoint n : X W unit).
Proof.
  pose proof (st_target n). pose proof st_rollback_mark. unfold ReleaseSavepoint, RollbackToSavepoint.
  split; frame. apply st_modify. intros c. apply unnamed_names. cbn [stack set_stack].
  rewrite map_app, map_map. change (fun x => name (set_blockState TBLOCK_SUBRELEASE x)) with name.
  by rewrite <- map_app, take_drop.
Qed.

Lemma st_prevent b s : stable unnamed (PreventInTransactionBlock b s : X W unit).
Proof. unfold PreventInTransactionBlock, IsTransactionBlock, IsSubTransaction. frame. Qed.

Lemma st_options l : stable unnamed (set_options E l).
Proof. induction l as [|[] l IH]; cbn [set_options]; unfold SetPGVariable; frame. Qed.

Lemma st_utility t : stable unnamed (ProcessUtility E t).
Proof.
  pose proof st_prevent. pose proof st_options. pose proof st_Define.
  pose proof (fun ch => st_blocks ch EmptyString) as Hb. pose proof (st_blocks true) as Hp.
  pose proof (fun n => proj1 (st_savepoints n)). pose proof (fun n => proj2 (st_savepoints n)).
  unfold ProcessUtility, check_read_only, RequireTransactionBlock, CheckTransactionBlock,
    IsTransactionBlock, IsSubTransaction.
  assert (forall ch, stable unnamed (EndTransactionBlock ch : X W bool)) by apply Hb.
  assert (forall ch, stable unnamed (UserAbortTransactionBlock ch : X W unit)) by apply Hb.
  assert (forall gid, stable unnamed (PrepareTransactionBlock gid : X W bool)) by apply Hp.
  assert (stable unnamed (BeginTransactionBlock : X W unit)) by apply (Hb true).
  frame.
Qed.

Lemma st_perform l : stable unnamed (perform_all E l).
Proof.
  pose proof st_prevent. induction l as [|[] l IH]; cbn [perform_all perform];
    unfold SetPGVariable, GetCurrentCommandId; frame.
Qed.

Lemma st_portal p : stable unnamed (exec_portal E p).
Proof. pose proof st_utility. pose proof st_perform. unfold exec_portal. frame. Qed.

Lemma st_xact_command : stable unnamed (start_xact_command E) /\ stable unnamed (finish_xact_command E).
Proof.
  pose proof st_commit. unfold start_xact_command, finish_xact_command, StartTransactionCommand,
    CommitTransactionCommand. split; frame.
Qed.

Lemma st_recover : stable unnamed (recover E).
Proof. pose proof st_abort. unfold recover, AbortCurrentTransaction. frame. Qed.

Lemma st_query q : stable unnamed (handle_query E q).
Proof.
  pose proof st_portal. pose proof (proj1 st_xact_command). pose proof (proj2 st_xact_command).
  pose proof (st_blocks true EmptyString) as (_ & _ & _ & _ & Hb & He).
  assert (forall ui l, stable unnamed (exec_parsetrees E ui l)).
  { intros ui l. induction l as [|p l IH]; cbn [exec_parsetrees]; unfold IsAbortedTransactionBlockState; frame. }
  unfold handle_query, exec_simple_query. frame.
Qed.

End commands.
