(* ===== verification/XactMarks.v ===== *)
(** What the transaction block commands (COMMIT, ROLLBACK, PREPARE, RELEASE,
    ROLLBACK TO) leave on the stack for [CommitTransactionCommand]: they mark
    levels and touch nothing else. *)
From S2P Require Import Prelude.
From S2P Require Import Xact.
From S2P Require Import XactBlock.
From S2P Require Import XactSpec.
From S2P Require Import XactInv.
From S2P Require Import XactCommit.
From S2P Require Import XactFrame.
Open Scope list_scope.
Open Scope Z_scope.

(** The levels of [l'] are those of [l] but for their place in the block. *)
Definition relabels (l l' : list TransactionStateData) : Prop :=
  map name l' = map name l /\ map childXids l' = map childXids l.

Lemma relabels_length l l' : relabels l l' -> length l' = length l.
Proof. intros [H _]. apply (f_equal length) in H. by rewrite !length_map in H. Qed.

Lemma xid_load_map l : xid_load l = foldr (fun x n => len x + 1 + n) 0 (map childXids l).
Proof. induction l as [|t l IH]; [done|]. cbn. unfold xid_load in IH. lia. Qed.

Lemma relabels_load l l' : relabels l l' -> xid_load l' = xid_load l.
Proof. intros [_ H]. by rewrite !xid_load_map, H. Qed.

Lemma relabels_refl l : relabels l l.
Proof. done. Qed.

Lemma relabels_trans l1 l2 l3 : relabels l1 l2 -> relabels l2 l3 -> relabels l1 l3.
Proof. intros [??] [??]. split; congruence. Qed.

Lemma relabels_mark f g l : relabels l (snd (mark_levels f g l)).
Proof.
  split; [apply names_mark|].
  induction l as [|t [|p l] IH]; [done|cbn; by destruct (g _)|].
  rewrite mark_levels_cons. destruct (f _); [|done].
  destruct (mark_levels f g (p :: l)) as [ok l'] eqn:Hm. cbn in IH |- *. by rewrite IH.
Qed.

Lemma relabels_chain v k l : relabels l (alter (set_chain v) k l).
Proof.
  split; [by apply names_alter|]. revert k.
  induction l as [|t l IH]; intros [|k]; cbn; [done..|by rewrite IH].
Qed.

Lemma relabels_block b k l : relabels l (alter (set_blockState b) k l).
Proof.
  split; [by apply names_alter|]. revert k.
  induction l as [|t l IH]; intros [|k]; cbn; [done..|by rewrite IH].
Qed.

(** * The stacks of Section [commit] from live and failed blocks *)
Lemma mark_commit l :
  live l -> exists l', mark_levels pending_commit pending_commit_top l = (true, l') /\ committing TBLOCK_END l'.
Proof.
  induction l as [|t [|p l] IH]; [done|..].
  - intros (Hb & Hs & Hl). cbn. rewrite Hb. eexists. split; [reflexivity|]. by split_and!.
  - intros [(Hb & Hs & Hl) Hlive]. destruct (IH Hlive) as (l' & Hm & Hc).
    rewrite mark_levels_cons, Hb, Hm. cbn [pending_commit]. eexists. split; [reflexivity|].
    destruct l' as [|q l']; [done|]. by split.
Qed.

Lemma mark_abort_live l :
  live l -> exists l', mark_levels pending_abort pending_abort_top l = (true, l') /\ aborting l'.
Proof.
  induction l as [|t [|p l] IH]; [done|..].
  - intros (Hb & Hs & Hl). cbn. rewrite Hb. eexists. split; [reflexivity|]. by left.
  - intros [(Hb & Hs & Hl) Hlive]. destruct (IH Hlive) as (l' & Hm & Hc).
    rewrite mark_levels_cons, Hb, Hm. cbn [pending_abort]. eexists. split; [reflexivity|].
    destruct l' as [|q l']; [done|]. split; [by left|done].
Qed.

Lemma mark_abort l :
  live l \/ failed l ->
  exists l', mark_levels pending_abort pending_abort_top l = (true, l') /\ aborting l'.
Proof.
  intros [Hl|Hf]; [by apply mark_abort_live|]. destruct l as [|t [|p l]]; [done|..].
  - destruct Hf as (Hb & Hs & Hl). cbn. rewrite Hb. eexists. split; [reflexivity|]. by right.
  - destruct Hf as (Hb & Hs & Hl & Hlive). destruct (mark_abort_live _ Hlive) as (l' & Hm & Hc).
    rewrite mark_levels_cons, Hb, Hm. cbn [pending_abort]. eexists. split; [reflexivity|].
    destruct l' as [|q l']; [done|]. split; [by right|done].
Qed.

(** Changing the outermost level of a marked stack. *)
Definition at_bottom (f : TransactionStateData -> TransactionStateData) (l : list TransactionStateData)
    : list TransactionStateData :=
  alter f (pred (length l)) l.

Lemma at_bottom_cons f t p l : at_bottom f (t :: p :: l) = t :: at_bottom f (p :: l).
Proof. done. Qed.

Lemma at_bottom_nonempty f l : l <> [] -> at_bottom f l <> [].
Proof. by destruct l as [|t [|p l]]. Qed.

Lemma top_chain_bottom v l : l <> [] -> top_chain (at_bottom (set_chain v) l) = v.
Proof.
  induction l as [|t [|p l] IH]; [done|done|]. intros _. rewrite at_bottom_cons.
  specialize (IH ltac:(done)).
  destruct (at_bottom _ (p :: l)) as [|q r] eqn:Hq; [by apply at_bottom_nonempty in Hq|].
  change (top_chain (t :: q :: r)) with (top_chain (q :: r)). exact IH.
Qed.

Lemma committing_bottom b b' f l :
  (forall t, in_block b TRANS_INPROGRESS t -> in_block b' TRANS_INPROGRESS (f t)) ->
  committing b l -> committing b' (at_bottom f l).
Proof.
  intros Hf. induction l as [|t [|p l] IH]; [done|apply Hf|]. intros [Ht Hl]. rewrite at_bottom_cons.
  specialize (IH Hl). destruct (at_bottom f (p :: l)) as [|q r]; [done|]. by split.
Qed.

Lemma aborting_bottom v l : aborting l -> aborting (at_bottom (set_chain v) l).
Proof.
  induction l as [|t [|p l] IH]; [done|done|]. intros [Ht Hl]. rewrite at_bottom_cons.
  specialize (IH Hl). destruct (at_bottom _ (p :: l)) as [|q r]; [done|]. by split.
Qed.

Lemma committing_last b l : committing b l -> exists t, last l = Some t /\ blockState t = b.
Proof.
  induction l as [|t [|p l] IH]; [done|intros (Hb & _); by exists t|].
  intros [_ Hl]. destruct (IH Hl) as (u & Hu & ?). exists u. by split.
Qed.

Lemma aborting_last l :
  aborting l -> exists t, last l = Some t /\ (blockState t = TBLOCK_ABORT_PENDING \/ blockState t = TBLOCK_ABORT_END).
Proof.
  induction l as [|t [|p l] IH]; [done|intros [(Hb & _)|(Hb & _)]; exists t; by auto|].
  intros [_ Hl]. destruct (IH Hl) as (u & Hu & ?). exists u. by split.
Qed.

(** * RELEASE and ROLLBACK TO *)
Definition release_marks (k : nat) (l : list TransactionStateData) : list TransactionStateData :=
  map (set_blockState TBLOCK_SUBRELEASE) (take (S k) l) ++ drop (S k) l.

Lemma relabels_release k l : relabels l (release_marks k l).
Proof.
  unfold relabels, release_marks. rewrite !map_app, !map_map.
  change (fun x => name (set_blockState TBLOCK_SUBRELEASE x)) with name.
  change (fun x => childXids (set_blockState TBLOCK_SUBRELEASE x)) with childXids.
  by rewrite <- !map_app, !take_drop.
Qed.

Lemma release_live k l :
  live l -> (S k < length l)%nat ->
  forallb (is_block TBLOCK_SUBINPROGRESS) (take (S k) l) = true /\ releasing (release_marks k l) /\
  after_release (release_marks k l) = drop (S k) l.
Proof.
  revert l. induction k as [|k IH]; intros l Hlive Hk;
    (destruct l as [|t [|p l]]; [cbn in Hk; lia..|]); destruct Hlive as [(Hb & Hs & Hl) Hlive].
  - unfold release_marks. cbn. unfold is_block at 1. rewrite Hb. split; [done|].
    split; [split; [by split_and!|by left]|]. exact (live_not_released _ Hlive).
  - destruct (IH (p :: l) Hlive) as (H1 & H2 & H3); [cbn in Hk |- *; lia|].
    change (take (S (S k)) (t :: p :: l)) with (t :: take (S k) (p :: l)). cbn [forallb].
    rewrite H1. unfold is_block at 1. rewrite Hb. split; [done|].
    change (release_marks (S k) (t :: p :: l)) with
      (set_blockState TBLOCK_SUBRELEASE t :: release_marks k (p :: l)).
    split; [split; [by split_and!|by right]|]. exact H3.
Qed.

Lemma restart_live k l :
  live l -> (S k < length l)%nat ->
  exists m, mark_levels pending_abort pending_restart (take (S k) l) = (true, m) /\
            restarting (m ++ drop (S k) l) /\
            map name (after_rollback (m ++ drop (S k) l)) = map name (drop k l).
Proof.
  revert l. induction k as [|k IH]; intros l Hlive Hk;
    (destruct l as [|t [|p l]]; [cbn in Hk; lia..|]); destruct Hlive as [(Hb & Hs & Hl) Hlive].
  - cbn. rewrite Hb. eexists. split; [reflexivity|]. split; [|done]. left. split; [by left|done].
  - destruct (IH (p :: l) Hlive) as (m & H1 & H2 & H3); [cbn in Hk |- *; lia|].
    change (take (S (S k)) (t :: p :: l)) with (t :: p :: take k l).
    change (take (S k) (p :: l)) with (p :: take k l) in H1.
    rewrite mark_levels_cons, Hb, H1. cbn [pending_abort]. eexists. split; [reflexivity|].
    split; [right; split; [by left|exact H2]|exact H3].
Qed.

Lemma restart_marks k l :
  live l \/ failed l -> (S k < length l)%nat ->
  exists m, mark_levels pending_abort pending_restart (take (S k) l) = (true, m) /\
            restarting (m ++ drop (S k) l) /\
            map name (after_rollback (m ++ drop (S k) l)) = map name (drop k l).
Proof.
  intros [Hl|Hf] Hk; [by apply restart_live|].
  destruct l as [|t [|p l]]; [cbn in Hk; lia..|]. destruct Hf as (Hb & Hs & Hl & Hlive).
  destruct k as [|k].
  - cbn. rewrite Hb. eexists. split; [reflexivity|]. split; [|done]. left. split; [by right|done].
  - destruct (restart_live k (p :: l) Hlive) as (m & H1 & H2 & H3); [cbn in Hk |- *; lia|].
    change (take (S (S k)) (t :: p :: l)) with (t :: p :: take k l).
    change (take (S k) (p :: l)) with (p :: take k l) in H1.
    rewrite mark_levels_cons, Hb, H1. cbn [pending_abort]. eexists. split; [reflexivity|].
    split; [right; split; [by right|exact H2]|exact H3].
Qed.

(** The savepoint found is not the outermost level. *)
Lemma find_savepoint_bound n c k :
  unnamed c -> find_savepoint n (stack c) = Some k -> (S k < length (stack c))%nat.
Proof.
  unfold unnamed, find_savepoint. intros Hu Hf.
  destruct (list_find _ (stack c)) as [[i t]|] eqn:Hl; [|done]. injection Hf as <-.
  apply list_find_Some in Hl as (Hk & Hn & _). pose proof (lookup_lt_Some _ _ _ Hk).
  destruct (decide (S i = length (stack c))) as [He|]; [|lia].
  rewrite last_lookup, length_map, <- He in Hu. cbn [pred] in Hu.
  rewrite list_lookup_fmap, Hk in Hu. cbn in Hu. congruence.
Qed.

(** * The commands *)
Section marks.
Context {W : Type} (fails : Prop).

(** An outermost level that is the only one. *)
Definition single (b : TBlockState) (c : Core) : Prop :=
  exists t, stack c = [t] /\ in_block b TRANS_INPROGRESS t.

(** The command replaced the stack by a relabelled one and did nothing else. *)
Definition remarked (P : list TransactionStateData -> Prop) (c c' : Core) : Prop :=
  exists l, c' = set_stack l c /\ relabels (stack c) l /\ P l.

Lemma spec_mark routine f g c l (Q : unit -> Core -> Prop) R :
  mark_levels f g (stack c) = (true, l) -> Q tt (set_stack l c) ->
  spec (W := W) fails (mark routine f g) c Q R.
Proof.
  intros Hm HQ. apply spec_bind, spec_get. rewrite Hm. apply spec_bind, spec_modify. by apply spec_ret.
Qed.

Lemma spec_outermost allowed c t (Q : unit -> Core -> Prop) R :
  last (stack c) = Some t -> blockState t ∈ allowed -> Q tt c ->
  spec (W := W) fails (assert_outermost allowed) c Q R.
Proof.
  intros Hl Ht HQ. apply spec_bind, spec_get, spec_assert; [|done]. rewrite Hl.
  by apply bool_decide_eq_true_2.
Qed.

Lemma spec_top_chain v c (Q : unit -> Core -> Prop) R :
  Q tt (set_stack (at_bottom (set_chain v) (stack c)) c) ->
  spec (W := W) fails (set_top_chain v) c Q R.
Proof. intros HQ. apply spec_bind, spec_get, spec_modify. exact HQ. Qed.

(** The last two steps of [EndTransactionBlock] and [UserAbortTransactionBlock]. *)
Lemma set_stack_twice l l' c : set_stack l (set_stack l' c) = set_stack l c.
Proof. done. Qed.

Lemma chain_remarked (P : list TransactionStateData -> Prop) v c l :
  (P l -> P (at_bottom (set_chain v) l)) -> l <> [] -> relabels (stack c) l -> P l ->
  remarked (fun l => P l /\ top_chain l = v) c (set_stack (at_bottom (set_chain v) l) (set_stack l c)).
Proof.
  intros HP Hne Hr Hl. eexists. split; [by rewrite set_stack_twice|].
  split; [eapply relabels_trans; [done|apply relabels_chain]|]. split; [auto|by apply top_chain_bottom].
Qed.

Lemma on_top_cons f c t l : stack c = t :: l -> on_top f c = set_stack (f t :: l) c.
Proof. unfold on_top. by intros ->. Qed.

Lemma live_cons t p l : live (t :: p :: l) -> blockState t = TBLOCK_SUBINPROGRESS.
Proof. by intros [(Hb & _) _]. Qed.

(** COMMIT of a live block. *)
Lemma End_live_spec v c :
  live (stack c) ->
  spec (W := W) fails (EndTransactionBlock v) c
    (fun r c' => r = true /\ remarked (fun l => committing TBLOCK_END l /\ top_chain l = v) c c')
    (fun _ => False).
Proof.
  intros Hlive. destruct (mark_commit _ Hlive) as (l & Hm & Hc).
  assert (Hne : l <> []) by by destruct l.
  pose proof (relabels_mark pending_commit pending_commit_top (stack c)) as Hr. rewrite Hm in Hr. cbn in Hr.
  destruct (committing_last _ _ Hc) as (u & Hu & Hbu).
  assert (Hend : spec (W := W) fails
    (assert_outermost [TBLOCK_STARTED; TBLOCK_END; TBLOCK_ABORT_END; TBLOCK_ABORT_PENDING];;
     set_top_chain v;; mret true) (set_stack l c)
    (fun r c' => r = true /\ remarked (fun l => committing TBLOCK_END l /\ top_chain l = v) c c')
    (fun _ => False)).
  { apply spec_bind. eapply spec_outermost; [exact Hu|rewrite Hbu; repeat constructor|].
    apply spec_bind, spec_top_chain, spec_ret. split; [done|]. apply chain_remarked; [|done..].
    by apply committing_bottom. }
  unfold EndTransactionBlock. destruct (stack c) as [|t [|p r]] eqn:Hs; [done|..];
    (apply spec_bind; eapply spec_cur; [exact Hs|]).
  - destruct Hlive as (Hb & _). rewrite Hb. apply spec_bind, spec_bind, spec_modify, spec_ret.
    rewrite (on_top_cons _ _ _ _ Hs). cbn in Hm. rewrite Hb in Hm. by injection Hm as <-.
  - rewrite (live_cons _ _ _ Hlive). apply spec_bind, spec_bind.
    eapply spec_mark; [by rewrite Hs|]. by apply spec_ret.
Qed.

(** The end of a block that is rolled back, by COMMIT or by ROLLBACK. *)
Lemma abort_tail_spec {A} allowed v (a : A) c l :
  TBLOCK_ABORT_PENDING ∈ allowed -> TBLOCK_ABORT_END ∈ allowed ->
  relabels (stack c) l -> aborting l ->
  spec (W := W) fails (assert_outermost allowed;; set_top_chain v;; mret a) (set_stack l c)
    (fun a' c' => a' = a /\ remarked (fun l => aborting l /\ top_chain l = v) c c') (fun _ => False).
Proof.
  intros H1 H2 Hr Hl. destruct (aborting_last _ Hl) as (u & Hu & Hb).
  apply spec_bind. eapply spec_outermost; [exact Hu|by destruct Hb as [-> | ->]|].
  apply spec_bind, spec_top_chain, spec_ret. split; [done|].
  apply chain_remarked; [apply aborting_bottom|by destruct l|done..].
Qed.

(** COMMIT of a failed block rolls it back. *)
Lemma End_failed_spec v c :
  failed (stack c) ->
  spec (W := W) fails (EndTransactionBlock v) c
    (fun r c' => r = false /\ remarked (fun l => aborting l /\ top_chain l = v) c c') (fun _ => False).
Proof.
  intros Hf. destruct (mark_abort _ (or_intror Hf)) as (l & Hm & Ha).
  pose proof (relabels_mark pending_abort pending_abort_top (stack c)) as Hr. rewrite Hm in Hr. cbn in Hr.
  unfold EndTransactionBlock. destruct (stack c) as [|t [|p r]] eqn:Hs; [done|..];
    (apply spec_bind; eapply spec_cur; [exact Hs|]); destruct Hf as (Hb & _); rewrite Hb.
  - apply spec_bind, spec_bind, spec_modify, spec_ret. rewrite (on_top_cons _ _ _ _ Hs).
    cbn in Hm. rewrite Hb in Hm. injection Hm as <-.
    apply abort_tail_spec; [repeat constructor|repeat constructor|by rewrite Hs|done].
  - apply spec_bind, spec_bind. eapply spec_mark; [by rewrite Hs|]. apply spec_ret.
    apply abort_tail_spec; [repeat constructor|repeat constructor|by rewrite Hs|done].
Qed.

Lemma UserAbort_spec v c :
  live (stack c) \/ failed (stack c) ->
  spec (W := W) fails (UserAbortTransactionBlock v) c
    (fun _ => remarked (fun l => aborting l /\ top_chain l = v) c) (fun _ => False).
Proof.
  intros Hl. destruct (mark_abort _ Hl) as (l & Hm & Ha).
  pose proof (relabels_mark pending_abort pending_abort_top (stack c)) as Hr. rewrite Hm in Hr. cbn in Hr.
  assert (Hend : spec (W := W) fails
    (assert_outermost [TBLOCK_ABORT_END; TBLOCK_ABORT_PENDING];; set_top_chain v) (set_stack l c)
    (fun _ => remarked (fun l => aborting l /\ top_chain l = v) c) (fun _ => False)).
  { apply spec_unret. eapply spec_mono; [apply (abort_tail_spec _ v tt c l); [repeat constructor|repeat constructor|done..]| |done].
    by intros _ c' [_ ?]. }
  unfold UserAbortTransactionBlock. destruct (stack c) as [|t [|p r]] eqn:Hs; [by destruct Hl|..];
    (apply spec_bind; eapply spec_cur; [exact Hs|]); apply spec_bind.
  - assert (Hgo : forall b, mark_levels pending_abort pending_abort_top [t] = (true, [set_blockState b t]) ->
      spec (W := W) fails (upd_cur (set_blockState b)) c (fun _ c' => spec (W := W) fails
        (assert_outermost [TBLOCK_ABORT_END; TBLOCK_ABORT_PENDING];; set_top_chain v) c'
        (fun _ => remarked (fun l => aborting l /\ top_chain l = v) c) (fun _ => False)) (fun _ => False)).
    { intros b Hb. rewrite Hb in Hm. injection Hm as <-. apply spec_modify.
      by rewrite (on_top_cons _ _ _ _ Hs). }
    destruct Hl as [(Hb & _)|(Hb & _)]; rewrite Hb; apply Hgo; cbn; by rewrite Hb.
  - assert (Hb : blockState t = TBLOCK_SUBINPROGRESS \/ blockState t = TBLOCK_SUBABORT).
    { destruct Hl as [Hl|Hl]; [left; by apply live_cons in Hl|right; apply Hl]. }
    destruct Hb as [-> | ->]; (eapply spec_mark; [by rewrite Hs|done]).
Qed.

(** Outside a block there is nothing to end: a warning, or the error about
    AND CHAIN. *)
Lemma spec_no_transaction v what c (Q : unit -> Core -> Prop) (R : Core -> Prop) :
  (v = false -> Q tt c) -> (v = true -> R c) -> spec (W := W) fails (no_transaction v what) c Q R.
Proof.
  intros HQ HR. unfold no_transaction. destruct v; [by apply spec_throw, HR|by apply spec_ereport_warning, HQ].
Qed.

Definition same (c c' : Core) : Prop := c' = c.

Lemma End_started_spec v c :
  single TBLOCK_STARTED c ->
  spec (W := W) fails (EndTransactionBlock v) c
    (fun r c' => r = true /\ v = false /\ single TBLOCK_STARTED c' /\ exists l, c' = set_stack l c /\ relabels (stack c) l)
    (fun c' => v = true /\ same c c').
Proof.
  intros (t & Hs & Hb & Hst & Hl). unfold EndTransactionBlock. apply spec_bind. eapply spec_cur; [exact Hs|].
  rewrite Hb. apply spec_bind, spec_bind, spec_no_transaction; [intros ->|done]. apply spec_ret.
  apply spec_bind. eapply spec_outermost; [by rewrite Hs|rewrite Hb; repeat constructor|].
  apply spec_bind, spec_top_chain, spec_ret. rewrite Hs. split_and!; [done|done|..].
  - eexists. split; [reflexivity|]. by split_and!.
  - eexists. split; [reflexivity|]. done.
Qed.

Lemma End_implicit_spec v c :
  single TBLOCK_IMPLICIT_INPROGRESS c ->
  spec (W := W) fails (EndTransactionBlock v) c
    (fun r c' => r = true /\ v = false /\ remarked (fun l => committing TBLOCK_END l /\ top_chain l = false) c c')
    (fun c' => v = true /\ same c c').
Proof.
  intros (t & Hs & Hb & Hst & Hl). unfold EndTransactionBlock. apply spec_bind. eapply spec_cur; [exact Hs|].
  rewrite Hb. apply spec_bind, spec_bind, spec_no_transaction; [intros ->|done].
  apply spec_bind, spec_modify, spec_ret. rewrite (on_top_cons _ _ _ _ Hs).
  apply spec_bind. eapply spec_outermost; [done|repeat constructor|].
  apply spec_bind, spec_top_chain, spec_ret. split_and!; [done|done|].
  apply chain_remarked; [by apply committing_bottom|done|by rewrite Hs|by split_and!].
Qed.

Lemma UserAbort_single_spec b v c :
  b = TBLOCK_STARTED \/ b = TBLOCK_IMPLICIT_INPROGRESS -> single b c ->
  spec (W := W) fails (UserAbortTransactionBlock v) c
    (fun _ c' => v = false /\ remarked (fun l => aborting l /\ top_chain l = false) c c')
    (fun c' => v = true /\ same c c').
Proof.
  intros Hb0 (t & Hs & Hb & Hst & Hl). unfold UserAbortTransactionBlock. apply spec_bind.
  eapply spec_cur; [exact Hs|]. apply spec_bind.
  assert (Hgo : spec (W := W) fails
    (no_transaction v "ROLLBACK AND CHAIN";; upd_cur (set_blockState TBLOCK_ABORT_PENDING)) c
    (fun _ c' => spec (W := W) fails
       (assert_outermost [TBLOCK_ABORT_END; TBLOCK_ABORT_PENDING];; set_top_chain v) c'
       (fun _ c' => v = false /\ remarked (fun l => aborting l /\ top_chain l = false) c c')
       (fun c' => v = true /\ same c c')) (fun c' => v = true /\ same c c')).
  { apply spec_bind, spec_no_transaction; [intros ->|done]. apply spec_modify.
    rewrite (on_top_cons _ _ _ _ Hs). apply spec_unret.
    eapply spec_mono; [apply (abort_tail_spec _ false tt c); [repeat constructor|repeat constructor|by rewrite Hs|]|..].
    - left. by split_and!.
    - by intros _ c' [_ ?].
    - done. }
  rewrite Hb. by destruct Hb0 as [-> | ->].
Qed.

(** PREPARE TRANSACTION: as COMMIT, and the outermost level is to be prepared. *)
Lemma prepare_tail_spec gid c c' :
  glob_ok c -> remarked (fun l => committing TBLOCK_END l /\ top_chain l = false) c c' ->
  spec (W := W) fails
    (c ← get;
     match last (stack c) with
     | Some s =>
         if is_block TBLOCK_END s then
           modify (set_prepareGID (Some gid));;
           upd_level (pred (length (stack c))) (set_blockState TBLOCK_PREPARE);;
           mret true
         else
           Assert (is_block TBLOCK_STARTED s || is_block TBLOCK_IMPLICIT_INPROGRESS s)
             "s->blockState == TBLOCK_STARTED";;
           mret false
     | None => throw (EAssert "CurrentTransactionState")
     end) c'
    (fun r c' => r = true /\
       remarked (fun l => committing TBLOCK_PREPARE l) (set_prepareGID (Some gid) c) c')
    (fun _ => False).
Proof.
  intros Hg (l & -> & Hr & Hc & _). destruct (committing_last _ _ Hc) as (u & Hu & Hb).
  apply spec_bind, spec_get. cbn [stack set_stack]. rewrite Hu. unfold is_block at 1. rewrite Hb. cbn [bool_decide].
  rewrite bool_decide_eq_true_2 by done. apply spec_bind, spec_modify, spec_bind, spec_modify, spec_ret.
  split; [done|]. cbn [stack set_prepareGID set_stack]. eexists. split; [reflexivity|].
  split; [eapply relabels_trans; [exact Hr|apply relabels_block]|].
  apply (committing_bottom TBLOCK_END TBLOCK_PREPARE); [|done]. by intros t (_ & ? & ?).
Qed.

Lemma Prepare_live_spec gid c :
  glob_ok c -> live (stack c) ->
  spec (W := W) fails (PrepareTransactionBlock gid) c
    (fun r c' => r = true /\ remarked (fun l => committing TBLOCK_PREPARE l) (set_prepareGID (Some gid) c) c')
    (fun _ => False).
Proof.
  intros Hg Hlive. apply spec_bind. eapply spec_mono; [by apply End_live_spec| |done].
  intros r c' [-> Hr]. by apply prepare_tail_spec.
Qed.

Lemma Prepare_implicit_spec gid c :
  glob_ok c -> single TBLOCK_IMPLICIT_INPROGRESS c ->
  spec (W := W) fails (PrepareTransactionBlock gid) c
    (fun r c' => r = true /\ remarked (fun l => committing TBLOCK_PREPARE l) (set_prepareGID (Some gid) c) c')
    (fun _ => False).
Proof.
  intros Hg Hlive. apply spec_bind. eapply spec_mono; [by apply End_implicit_spec| |by intros ? []].
  intros r c' (-> & _ & Hr). by apply prepare_tail_spec.
Qed.

Lemma Prepare_failed_spec gid c :
  failed (stack c) ->
  spec (W := W) fails (PrepareTransactionBlock gid) c
    (fun r c' => r = false /\ remarked (fun l => aborting l /\ top_chain l = false) c c') (fun _ => False).
Proof.
  intros Hf. apply spec_bind. eapply spec_mono; [by apply End_failed_spec| |done].
  intros r c' [-> Hr]. by apply spec_ret.
Qed.

Lemma Prepare_started_spec gid c :
  single TBLOCK_STARTED c ->
  spec (W := W) fails (PrepareTransactionBlock gid) c
    (fun r c' => r = false /\ single TBLOCK_STARTED c' /\ exists l, c' = set_stack l c /\ relabels (stack c) l)
    (fun _ => False).
Proof.
  intros Hf. apply spec_bind. eapply spec_mono; [by apply End_started_spec| |by intros ? []].
  intros r c' (-> & _ & Ht & Hl). apply spec_bind, spec_get. destruct Ht as (t & Hs & Hb & Ht).
  rewrite Hs. cbn [last]. unfold is_block at 1. rewrite Hb. rewrite bool_decide_eq_false_2 by done.
  apply spec_bind, spec_assert; [unfold is_block; by rewrite Hb|]. apply spec_ret.
  split_and!; [done| |done]. exists t. by split_and!.
Qed.

(** * Savepoints *)
Lemma live_lvls l : live l -> Forall lvl_ok l.
Proof.
  induction l as [|t [|p l] IH]; [done|..].
  - intros (_ & _ & ?). by constructor.
  - intros [(_ & _ & ?) ?]. constructor; auto.
Qed.

Lemma failed_lvls l : failed l -> Forall lvl_ok l.
Proof.
  destruct l as [|t [|p l]]; [done|..].
  - intros (_ & _ & ?). by constructor.
  - intros (_ & _ & ? & ?). constructor; [done|by apply live_lvls].
Qed.

Lemma spec_target n c t r :
  stack c = t :: r -> Forall lvl_ok (stack c) ->
  spec (W := W) fails (savepoint_target n) c
    (fun k c' => same c c' /\ find_savepoint n (stack c) = Some k)
    (fun c' => same c c' /\ find_savepoint n (stack c) = None).
Proof.
  intros Hs Hok. unfold savepoint_target. apply spec_bind. eapply spec_cur; [exact Hs|].
  apply spec_bind, spec_get. destruct (find_savepoint n (stack c)) as [k|] eqn:Hf; [|by apply spec_throw].
  unfold find_savepoint in Hf. destruct (list_find _ (stack c)) as [[i u]|] eqn:Hl; [|done].
  injection Hf as <-. apply list_find_Some in Hl as (Hk & _ & _).
  apply spec_bind. unfold level. apply spec_bind, spec_get. rewrite Hk. apply spec_ret.
  assert (savepointLevel u = 0) as ->. { by pose proof (Forall_lookup_1 _ _ _ _ Hok Hk) as (_ & _ & ?). }
  assert (savepointLevel t = 0) as ->. { rewrite Hs in Hok. by apply Forall_cons_1 in Hok as [(_ & _ & ?) _]. }
  by apply spec_ret.
Qed.

Lemma find_bottom n c t : unnamed c -> stack c = [t] -> find_savepoint n (stack c) = None.
Proof.
  intros Hu Hs. destruct (find_savepoint n (stack c)) as [k|] eqn:Hf; [|done].
  apply find_savepoint_bound in Hf; [|done]. rewrite Hs in Hf. cbn in Hf. lia.
Qed.

Lemma Release_spec n c :
  live (stack c) -> unnamed c ->
  spec (W := W) fails (ReleaseSavepoint n) c
    (fun _ c' => exists k, find_savepoint n (stack c) = Some k /\ c' = set_stack (release_marks k (stack c)) c /\
       releasing (stack c') /\ after_release (stack c') = drop (S k) (stack c))
    (fun c' => same c c' /\ find_savepoint n (stack c) = None).
Proof.
  intros Hlive Hu. pose proof (live_lvls _ Hlive) as Hok. unfold ReleaseSavepoint.
  destruct (stack c) as [|t r] eqn:Hs; [done|]. destruct (live_head _ _ Hlive) as (_ & (Hp & _) & _).
  apply spec_bind. eapply spec_parallel; [done|done|]. apply spec_bind. eapply spec_cur; [done|].
  destruct r as [|p r].
  - destruct Hlive as (Hb & _). rewrite Hb. apply spec_throw. split; [done|]. rewrite <- Hs.
    by eapply find_bottom.
  - rewrite (live_cons _ _ _ Hlive). rewrite <- Hs in *. apply spec_bind.
    eapply spec_mono; [by apply (spec_target n c t (p :: r))| |done].
    intros k c' [-> Hf]. pose proof (find_savepoint_bound _ _ _ Hu Hf) as Hk.
    destruct (release_live k _ Hlive Hk) as (H1 & H2 & H3).
    apply spec_bind, spec_get, spec_bind, spec_assert; [done|]. apply spec_modify. by exists k.
Qed.

Lemma RollbackTo_spec n c :
  live (stack c) \/ failed (stack c) -> unnamed c ->
  spec (W := W) fails (RollbackToSavepoint n) c
    (fun _ c' => exists k, find_savepoint n (stack c) = Some k /\
       remarked (fun l => restarting l /\ map name (after_rollback l) = map name (drop k (stack c))) c c')
    (fun c' => same c c' /\ find_savepoint n (stack c) = None).
Proof.
  intros Hl Hu.
  assert (Hok : Forall lvl_ok (stack c)) by (destruct Hl; [by apply live_lvls|by apply failed_lvls]).
  unfold RollbackToSavepoint. destruct (stack c) as [|t r] eqn:Hs; [by destruct Hl|].
  pose proof Hok as [(Hp & _) _]%Forall_cons_1.
  apply spec_bind. eapply spec_parallel; [done|done|]. apply spec_bind. eapply spec_cur; [done|].
  destruct r as [|p r].
  - assert (Hnone : find_savepoint n [t] = None) by (rewrite <- Hs; by eapply find_bottom).
    destruct Hl as [(Hb & _)|(Hb & _)]; rewrite Hb; by apply spec_throw.
  - assert (Hb : blockState t = TBLOCK_SUBINPROGRESS \/ blockState t = TBLOCK_SUBABORT).
    { destruct Hl as [Hl|Hl]; [left; by apply live_cons in Hl|right; apply Hl]. }
    rewrite <- Hs in *.
    assert (Hgo : spec (W := W) fails
      (k ← savepoint_target n; c ← get;
       let '(ok, l) := mark_levels pending_abort pending_restart (take (S k) (stack c)) in
       modify (set_stack (l ++ drop (S k) (stack c)));;
       if ok then mret tt else throw (EFatal "RollbackToSavepoint: unexpected state")) c
      (fun _ c' => exists k, find_savepoint n (stack c) = Some k /\
         remarked (fun l => restarting l /\ map name (after_rollback l) = map name (drop k (stack c))) c c')
      (fun c' => same c c' /\ find_savepoint n (stack c) = None)).
    { apply spec_bind. eapply spec_mono; [by apply (spec_target n c t (p :: r))| |done].
      intros k c' [-> Hf]. pose proof (find_savepoint_bound _ _ _ Hu Hf) as Hk.
      destruct (restart_marks k _ Hl Hk) as (m & H1 & H2 & H3).
      apply spec_bind, spec_get. pose proof (relabels_mark pending_abort pending_restart (take (S k) (stack c))) as Hr.
      rewrite H1 in Hr |- *. cbn in Hr. apply spec_bind, spec_modify, spec_ret. exists k. split; [done|].
      eexists. split; [reflexivity|]. split; [|done]. destruct Hr as [Hr1 Hr2].
      split; rewrite map_app, ?Hr1, ?Hr2, <- map_app, take_drop; done. }
    by destruct Hb as [-> | ->].
Qed.

End marks.
