(* ===== verification/XactBody.v ===== *)
(** What executing a statement that is not a transaction statement
    ([perform_all] of SimpleQuery.v) does to the transaction state: the block
    structure stays, whether the statement succeeds or raises an error. *)
From S2P Require Import Prelude.
From S2P Require Import Xact.
From S2P Require Import XactBlock.
From S2P Require Import SimpleQuery.
From S2P Require Import XactSpec.
From S2P Require Import XactLow.
From S2P Require Import XactInv.
From S2P Require Import XactCommit.
From S2P Require Import XactFrame.
From S2P Require Import XactMarks.
Open Scope list_scope.
Open Scope Z_scope.

(** * Flags *)
Lemma land_bit f k : 0 <= k -> (Z.land f (2 ^ k) =? 0) = negb (Z.testbit f k).
Proof.
  intros Hk. destruct (Z.testbit f k) eqn:Hb; cbn [negb].
  - apply Z.eqb_neq. intros H0. assert (Z.testbit (Z.land f (2 ^ k)) k = true) as Ht.
    { rewrite Z.land_spec, Hb, Z.pow2_bits_true by done. done. }
    by rewrite H0, Z.bits_0 in Ht.
  - apply Z.eqb_eq, Z.bits_inj'. intros i Hi. rewrite Z.land_spec, Z.bits_0.
    destruct (Z.eq_dec i k) as [->|Hne]; [by rewrite Hb|].
    rewrite Z.pow2_bits_false by lia. apply andb_false_r.
Qed.

(** The bits that say that the transaction must be committed at once, and that
    the command is part of a pipeline. *)
Definition flag_commit (c : Core) : bool := Z.testbit (MyXactFlags c) 2.
Definition flag_pipe (c : Core) : bool := Z.testbit (MyXactFlags c) 3.

Lemma flag_commit_eq c : (Z.land (MyXactFlags c) XACT_FLAGS_NEEDIMMEDIATECOMMIT =? 0) = negb (flag_commit c).
Proof. by apply (land_bit _ 2). Qed.

Lemma flag_pipe_eq c : (Z.land (MyXactFlags c) XACT_FLAGS_PIPELINING =? 0) = negb (flag_pipe c).
Proof. by apply (land_bit _ 3). Qed.

Lemma run_flags c c' :
  MyXactFlags c' = MyXactFlags c \/ MyXactFlags c' = 0 ->
  (flag_commit c = false -> flag_commit c' = false) /\ (flag_pipe c = false -> flag_pipe c' = false).
Proof. unfold flag_commit, flag_pipe. intros [-> | ->]; by rewrite ?Z.bits_0. Qed.

(** * Room for one more command *)
Definition cmd_room (c : Core) : Prop := 0 <= currentCommandId c < InvalidCommandId - 1.

Lemma cmd_room_limits c : cmd_room c -> limits c.
Proof. unfold cmd_room, limits. lia. Qed.

Lemma st_Xid_cmd {W} (E : Subsystems W) : stable cmd_room (GetCurrentTransactionId E).
Proof.
  assert (H : forall depth k, stable cmd_room (AssignTransactionId E depth k)).
  { induction depth as [|depth IH]; intros k; cbn [AssignTransactionId]; unfold IsInParallelMode, assign_xid; frame. }
  unfold GetCurrentTransactionId. frame.
Qed.

(** * Statement bodies *)
(** The block the statement runs in: one that accepts commands. *)
Definition accepts (l : list TransactionStateData) : Prop :=
  live l \/ exists b t, (b = TBLOCK_STARTED \/ b = TBLOCK_IMPLICIT_INPROGRESS) /\ l = [t] /\
                        in_block b TRANS_INPROGRESS t.

(** Alone in a transaction of its own. *)
Definition alone (c : Core) : Prop := single TBLOCK_STARTED c.

Definition in_a_block (l : list TransactionStateData) : bool :=
  match l with t :: _ => negb (is_block TBLOCK_STARTED t) | [] => true end.

Definition body (c0 c : Core) : Prop :=
  Forall2 xid_only (stack c0) (stack c) /\ glob_ok c /\ xact_started c = xact_started c0 /\
  (sub_room c0 -> sub_room c) /\ (cmd_room c0 -> cmd_room c) /\
  (flag_pipe c0 = false -> flag_pipe c = false) /\
  (flag_commit c0 = false -> flag_commit c = false \/ in_a_block (stack c0) = false).

(** The statement raises an error of its own accord. *)
Fixpoint raises (block : bool) (l : list action) : bool :=
  match l with
  | [] => false
  | Raise _ :: _ => true
  | NotInBlock _ :: l => block || raises block l
  | _ :: l => raises block l
  end.

Lemma xid_only_trans t1 t2 t3 : xid_only t1 t2 -> xid_only t2 t3 -> xid_only t1 t3.
Proof. intros (x & b & ->) (x' & b' & ->). eexists _, _. reflexivity. Qed.

Lemma xids_trans l1 l2 l3 : Forall2 xid_only l1 l2 -> Forall2 xid_only l2 l3 -> Forall2 xid_only l1 l3.
Proof.
  intros H. revert l3. induction H as [|t t' l l' Ht Hl IH]; intros l3 H3.
  - done.
  - apply Forall2_cons_inv_l in H3 as (u & l4 & Hu & Hl4 & ->). constructor; [by eapply xid_only_trans|auto].
Qed.

Lemma xids_refl l : Forall2 xid_only l l.
Proof. induction l; constructor; auto using xid_only_refl. Qed.

Lemma xids_live l l' : Forall2 xid_only l l' -> live l -> live l'.
Proof.
  induction 1 as [|t t' l l' (x & b & ->) Hl IH]; [done|].
  inversion Hl; subst; [done|]. intros [Ht Hlive]. by split; [|apply IH].
Qed.

Lemma xids_single b c c' : Forall2 xid_only (stack c) (stack c') -> single b c -> single b c'.
Proof.
  intros H (t & Hs & Ht). rewrite Hs in H. apply Forall2_cons_inv_l in H as (u & l & (x & d & ->) & Hn & Hs').
  apply Forall2_nil_inv_l in Hn as ->. eexists. split; [exact Hs'|]. exact Ht.
Qed.

Lemma xids_accepts l l' : Forall2 xid_only l l' -> accepts l -> accepts l'.
Proof.
  intros H [Hl|(b & t & Hb & -> & Ht)]; [left; by eapply xids_live|right].
  apply Forall2_cons_inv_l in H as (u & r & (x & d & ->) & Hn & ->). apply Forall2_nil_inv_l in Hn as ->.
  eexists b, _. split; [done|]. split; [done|exact Ht].
Qed.

Lemma xids_relabels l l' : Forall2 xid_only l l' -> relabels l l'.
Proof.
  induction 1 as [|t t' l l' (x & b & ->) _ [IH1 IH2]]; [done|]. split; cbn; by rewrite ?IH1, ?IH2.
Qed.

Lemma live_xid_ready l : live l -> xid_ready l.
Proof.
  induction l as [|t [|p l] IH]; [done|..].
  - intros (_ & Hs & Hp & _). by repeat constructor.
  - intros [(_ & Hs & Hp & _) Hl]. constructor; [done|by apply IH].
Qed.

Lemma accepts_xid_ready l : accepts l -> l <> [] /\ xid_ready l.
Proof.
  intros [Hl|(b & t & _ & -> & _ & Hs & Hp & _)]; [split; [by destruct l|by apply live_xid_ready]|].
  split; [done|]. by repeat constructor.
Qed.

Lemma accepts_head l : accepts l -> exists t r, l = t :: r /\
  (in_a_block l = false /\ blockState t = TBLOCK_STARTED \/
   in_a_block l = true /\ blockState t <> TBLOCK_STARTED /\ blockState t <> TBLOCK_DEFAULT).
Proof.
  intros [Hl|(b & t & Hb & -> & Hbt & _)].
  - destruct l as [|t r]; [done|]. exists t, r. split; [done|]. right. unfold in_a_block, is_block.
    destruct (live_head _ _ Hl) as (_ & _ & [-> | ->]); done.
  - exists t, []. split; [done|]. unfold in_a_block, is_block. rewrite Hbt. destruct Hb as [-> | ->]; auto.
Qed.

Lemma live_in_block l : live l -> in_a_block l = true.
Proof.
  destruct l as [|t r]; [done|]. intros Hl. unfold in_a_block, is_block.
  by destruct (live_head _ _ Hl) as (_ & _ & [-> | ->]).
Qed.

Definition plain (c : Core) : Prop :=
  forall t, stack c = [t] -> blockState t = TBLOCK_STARTED -> nestingLevel t < 2 /\ flag_pipe c = false.

Lemma in_a_block_xids l l' : Forall2 xid_only l l' -> in_a_block l' = in_a_block l.
Proof. by destruct 1 as [|t t' l l' (x & b & ->) Hl]. Qed.

Lemma body_refl c : glob_ok c -> body c c.
Proof. intros Hg. split_and!; auto using xids_refl. Qed.

(** Changes of the flags and of the other static variables. *)
Lemma body_flags c0 c k :
  body c0 c -> (k = 0 \/ k = 2 /\ in_a_block (stack c0) = false) ->
  body c0 (set_MyXactFlags (Z.lor (MyXactFlags c) (2 ^ k)) c).
Proof.
  intros (H1 & H2 & H3 & H4 & H5 & H6 & H7) Hk.
  refine (conj H1 (conj H2 (conj H3 (conj H4 (conj H5 (conj _ _)))))).
  - intros Hp. unfold flag_pipe. cbn [MyXactFlags set_MyXactFlags]. rewrite Z.lor_spec.
    change (Z.testbit (MyXactFlags c) 3) with (flag_pipe c). rewrite H6 by done.
    by destruct Hk as [-> | [-> _]].
  - intros Hc. destruct Hk as [-> | [-> ?]]; [|by right]. destruct (H7 Hc) as [Hc'|?]; [left|by right].
    unfold flag_commit. cbn [MyXactFlags set_MyXactFlags]. rewrite Z.lor_spec.
    change (Z.testbit (MyXactFlags c) 2) with (flag_commit c). by rewrite Hc'.
Qed.

Section body.
Context {W : Type} (E : Subsystems W) (fails : Prop) (Hfails : fails \/ no_failures E).

Definition body_err (c0 : Core) (own : bool) (c : Core) : Prop := body c0 c /\ (fails \/ own = true).

Lemma Prevent_spec s c0 c :
  accepts (stack c0) -> (fails \/ plain c0) -> body c0 c ->
  spec (W := W) fails (PreventInTransactionBlock true s) c
    (fun _ c' => body c0 c' /\ in_a_block (stack c0) = false) (body_err c0 (in_a_block (stack c0))).
Proof.
  intros Hacc Hpl Hb. pose proof Hb as (Hx & _). pose proof (xids_accepts _ _ Hx Hacc) as Hacc'.
  rewrite <- (in_a_block_xids _ _ Hx).
  destruct (accepts_head _ Hacc') as (t & r & Hs & Hcase). unfold PreventInTransactionBlock.
  apply spec_bind. unfold IsTransactionBlock. apply spec_bind. eapply spec_cur; [exact Hs|]. apply spec_ret.
  unfold is_block at 1 2. destruct Hcase as [[Hin Hbt]|(Hin & Hn1 & Hn2)]; rewrite Hin.
  - rewrite Hbt. cbn [bool_decide orb]. rewrite (bool_decide_eq_true_2 (TBLOCK_STARTED = TBLOCK_STARTED)) by done.
    rewrite orb_true_r. cbn [negb]. apply spec_bind. unfold IsSubTransaction. apply spec_bind.
    eapply spec_cur; [exact Hs|]. apply spec_ret.
    assert (Hplain : fails \/ nestingLevel t < 2 /\ flag_pipe c = false).
    { destruct Hpl as [?|Hpl]; [by left|right]. rewrite Hs in Hx.
      apply Forall2_cons_inv_r in Hx as (u & l & (x & b & ->) & Hl & Hs0).
      destruct Hacc as [Hlive|(b0 & t0 & _ & Hs1 & _)].
      - rewrite Hs0 in Hlive. destruct (live_head _ _ Hlive) as (_ & _ & [Hu|Hu]); cbn in Hbt; congruence.
      - rewrite Hs0 in Hs1. injection Hs1 as -> ->. destruct (Hpl _ Hs0 Hbt) as [? Hp]. split; [done|].
        destruct Hb as (_ & _ & _ & _ & _ & Hb & _). auto. }
    destruct (2 <=? nestingLevel t) eqn:Hlev.
    { apply spec_throw. split; [done|]. left. destruct Hplain as [?|[? _]]; [done|]. apply Z.leb_le in Hlev. lia. }
    apply spec_bind, spec_get. rewrite flag_pipe_eq. destruct (flag_pipe c) eqn:Hp; cbn [negb].
    { apply spec_throw. split; [done|]. left. by destruct Hplain as [?|[_ ?]]. }
    apply spec_bind. eapply spec_cur; [exact Hs|]. unfold is_block. rewrite Hbt.
    rewrite (bool_decide_eq_true_2 (TBLOCK_STARTED = TBLOCK_STARTED)) by done. cbn [negb]. rewrite andb_false_r.
    apply spec_modify. split; [|done]. apply (body_flags c0 c 2); [done|]. right. split; [done|].
    by rewrite <- (in_a_block_xids _ _ (proj1 Hb)).
  - rewrite !bool_decide_eq_false_2 by done. cbn [orb negb]. apply spec_throw. split; [done|by right].
Qed.

Lemma SetPGVariable_spec o c0 c :
  body c0 c -> spec fails (SetPGVariable E o) c (fun _ => body c0) (fun c' => fails /\ body c0 c').
Proof using Hfails.
  intros Hb. destruct o; cbn [SetPGVariable];
    try (apply spec_bind, spec_sub; [done|intros _; apply spec_modify; exact Hb|by auto]).
  by apply spec_ret.
Qed.

Lemma perform_spec a c0 c :
  accepts (stack c0) -> (fails \/ plain c0) -> body c0 c ->
  spec fails (perform E a) c
    (fun _ c' => body c0 c' /\ raises (in_a_block (stack c0)) [a] = false)
    (body_err c0 (raises (in_a_block (stack c0)) [a])).
Proof using Hfails.
  intros Hacc Hpl Hb. pose proof Hb as (H1 & H2 & H3 & H4 & H5 & H6 & H7).
  destruct a as [| | |o| |s|msg]; cbn [perform raises].
  - apply spec_calls; [done|done|]. intros Hf. split; [done|by left].
  - apply spec_bind. unfold GetCurrentCommandId. apply spec_bind, spec_bind, spec_get, spec_bind, spec_assert.
    { apply Z.ltb_lt. apply H2. }
    apply spec_modify, spec_bind, spec_get, spec_ret, spec_ret. split; [|done].
    exact (conj H1 (conj H2 (conj H3 (conj H4 (conj H5 (conj H6 H7)))))).
  - apply spec_bind. destruct (accepts_xid_ready _ (xids_accepts _ _ H1 Hacc)) as [Hne Hr].
    assert (Hgo : forall c', xids_assigned c (stack c) c' /\ (cmd_room c0 -> cmd_room c') -> body c0 c').
    { intros c' [[Hx ((G1 & G2 & _ & G3 & _) & G4)] Hcmd]. destruct (run_flags _ _ G3) as [F1 F2].
      split_and!; [by eapply xids_trans|done|congruence|by auto|done|by auto|].
      intros Hc. destruct (H7 Hc); [left; auto|by right]. }
    eapply spec_mono; [apply (spec_stable fails (fun c' => cmd_room c0 -> cmd_room c') (GetCurrentTransactionId E) c)|..].
    + intros x Hx Hroom. apply st_Xid_cmd. auto.
    + done.
    + apply (GetCurrentTransactionId_spec E fails Hfails c (stack c)); [done|done|].
      split; [apply xids_refl|by apply same_glob_refl].
    + intros z c' H. apply spec_ret. split; [by apply Hgo|done].
    + intros c' [[Hf Hx] Hc]. split; [apply Hgo; by split|by left].
  - eapply spec_mono; [by apply SetPGVariable_spec|done|]. intros c' [? ?]. split; [done|by left].
  - apply spec_modify. split; [|done]. apply (body_flags c0 c 0); [done|by left].
  - rewrite orb_false_r. by apply Prevent_spec.
  - apply spec_throw. split; [done|by right].
Qed.

Lemma raises_cons b a l : raises b (a :: l) = raises b [a] || raises b l.
Proof. destruct a; cbn; [done..|by rewrite orb_false_r|done]. Qed.

Lemma perform_all_spec l c0 c :
  accepts (stack c0) -> (fails \/ plain c0) -> body c0 c ->
  spec fails (perform_all E l) c
    (fun _ c' => body c0 c' /\ raises (in_a_block (stack c0)) l = false)
    (body_err c0 (raises (in_a_block (stack c0)) l)).
Proof using Hfails.
  intros Hacc Hpl. revert c. induction l as [|a l IH]; intros c Hb; cbn [perform_all]; [by apply spec_ret|].
  rewrite raises_cons. apply spec_bind. eapply spec_mono; [by apply perform_spec|..].
  - intros [] c' [Hb' Ha]. rewrite Ha. by apply IH.
  - intros c' [Hb' [Hf|Ha]]; (split; [done|]); [by left|right]. by rewrite Ha.
Qed.

End body.
