(* ===== verification/XactLoop.v ===== *)
(** The message loop when every call into another module may raise an error at
    any moment: the invariant between messages, and the states in which the
    error handler is entered. *)
From S2P Require Import Prelude.
From S2P Require Import Xact.
From S2P Require Import XactBlock.
From S2P Require Import SimpleQuery.
From S2P Require Import XactSpec.
From S2P Require Import XactLow.
From S2P Require Import XactInv.
From S2P Require Import XactCommit.
From S2P Require Import XactFrame.
From S2P Require Import XactMarks.
From S2P Require Import XactBody.
Open Scope list_scope.
Open Scope Z_scope.

(** Not in a transaction, or alone in one. *)
Definition outer (c : Core) : Prop :=
  exists t, stack c = [t] /\ (blockState t = TBLOCK_DEFAULT \/ blockState t = TBLOCK_STARTED).

(** The backend waits for a message. *)
Definition waiting_ok (c : Core) : Prop :=
  glob_ok c /\ unnamed c /\ xact_started c = false /\ resting c /\ (flag_commit c = false \/ idle c).

(** The state an error is raised in. *)
Definition erred (c : Core) : Prop :=
  glob_ok c /\ unnamed c /\ abortable True c /\ (flag_commit c = false \/ outer c).

(** A statement can be executed. *)
Definition fresh (c : Core) : Prop :=
  exists t, stack c = [t] /\ in_block TBLOCK_STARTED TRANS_INPROGRESS t /\ nestingLevel t < 2.

Definition ready (c : Core) : Prop :=
  fresh c \/ single TBLOCK_IMPLICIT_INPROGRESS c \/ live (stack c) \/ failed (stack c).

Lemma fresh_single c : fresh c -> single TBLOCK_STARTED c.
Proof. intros (t & ? & ? & _). by exists t. Qed.

Definition running (c : Core) : Prop :=
  glob_ok c /\ unnamed c /\ xact_started c = true /\ ready c /\ flag_commit c = false.

(** What a statement leaves for [CommitTransactionCommand]. *)
Inductive leftover (c : Core) : Prop :=
| left_started : single TBLOCK_STARTED c -> leftover c
| left_begin : single TBLOCK_BEGIN c -> leftover c
| left_live : live (stack c) -> leftover c
| left_failed : failed (stack c) -> leftover c
| left_commit b : b = TBLOCK_END \/ b = TBLOCK_PREPARE -> committing b (stack c) -> leftover c
| left_abort : aborting (stack c) -> leftover c
| left_release : releasing (stack c) -> leftover c
| left_restart : restarting (stack c) -> leftover c
| left_pushed c0 n l : pushed c0 n l c -> leftover c.

Definition finished (c : Core) : Prop :=
  glob_ok c /\ unnamed c /\ leftover c /\ (flag_commit c = false \/ single TBLOCK_STARTED c).

(** [StartTransactionCommand] outside a transaction. *)
Section start.
Context {W : Type} (E : Subsystems W) (fails : Prop) (Hfails : fails \/ no_failures E).

Definition begun (c0 c : Core) : Prop :=
  exists t, stack c = [t] /\ in_block TBLOCK_STARTED TRANS_INPROGRESS t /\ counters_reset t c /\ same_glob c0 c.

Lemma start_idle_spec c :
  idle c -> glob_ok c ->
  spec fails (StartTransactionCommand E) c (fun _ => begun c)
    (fun c' => fails /\ abortable fails c' /\ outer c' /\ same_glob c c').
Proof using Hfails.
  intros (t & Hs & Hb & Hst & Hn & Hl & Hi) Hg. unfold StartTransactionCommand.
  apply spec_bind. eapply spec_cur; [exact Hs|]. rewrite Hb. apply spec_bind, spec_bind.
  eapply spec_mono; [apply (StartTransaction_spec E fails Hfails c t)|..].
  - by apply at_level_self.
  - intros [] c1 (t1 & Hs1 & (_ & _ & _ & Hl1 & _) & (Hst1 & Hc1) & Hg1). apply spec_modify.
    rewrite (on_top_cons _ _ _ _ Hs1).
    assert (H : begun c (set_stack [set_blockState TBLOCK_STARTED t1] c1)).
    { eexists. split; [reflexivity|]. split; [by split_and!|]. split; [exact Hc1|exact Hg1]. }
    apply spec_calls; [done|exact H|]. intros Hf. split; [done|].
    destruct H as (u & Hu & (Hbu & _ & Hlu) & _ & Hgu). split; [|split; [exists u; auto|done]].
    left. rewrite Hu. cbn. unfold abort_ready. rewrite Hbu. auto.
  - intros c1 [Hf (t1 & Hs1 & (Hb1 & _ & _ & Hl1 & _) & Hst1 & Hg1)]. split; [done|].
    split; [right|split; [exists t1; rewrite Hb1; auto|done]].
    exists t1. rewrite Hb1. split; [done|]. split; [done|]. split; [done|]. right. by rewrite Hst1.
Qed.

(** In a block it does nothing. *)
Lemma start_block_spec c (Q : unit -> Core -> Prop) (R : Core -> Prop) :
  live (stack c) \/ failed (stack c) -> Q tt c -> (fails -> R c) ->
  spec fails (StartTransactionCommand E) c Q R.
Proof using Hfails.
  intros Hl HQ HR. unfold StartTransactionCommand. destruct (stack c) as [|t r] eqn:Hs; [by destruct Hl|].
  apply spec_bind. eapply spec_cur; [exact Hs|]. apply spec_bind.
  assert (Hgo : spec fails (mret tt : X W unit) c
    (fun _ c' => spec fails (calls E [("MemoryContextSwitchTo"%string, [])]) c' Q R) R).
  { apply spec_ret, spec_calls; auto. }
  destruct Hl as [Hl|Hl].
  - by destruct (live_head _ _ Hl) as (_ & _ & [-> | ->]).
  - by destruct r; destruct Hl as (-> & _).
Qed.

End start.

Section safety.
Context {W : Type} (E : Subsystems W).

Local Definition any : True \/ no_failures E := or_introl I.
Hint Resolve any I : core.

Lemma single_recoverable b c :
  single b c -> base_block b = true -> b <> TBLOCK_ABORT -> b <> TBLOCK_ABORT_END -> recoverable True (stack c).
Proof.
  intros (t & -> & Hb & Hst & Hl) Hbase H1 H2. cbn. unfold abort_ready. rewrite Hb.
  split; [done|]. split; [done|]. by destruct b; try done; left.
Qed.

Lemma failed_recoverable l : failed l -> recoverable True l.
Proof.
  destruct l as [|t [|p l]]; [done|..].
  - intros (Hb & Hs & Hl). cbn. unfold abort_ready. by rewrite Hb.
  - intros (Hb & Hs & Hl & Hlive). split; [done|]. unfold abort_ready. rewrite Hb. split; [by left|].
    right; left. by split_and!.
Qed.

Lemma ready_abortable c : ready c -> abortable True c.
Proof.
  intros [H|[H|[H|H]]]; left.
  - by eapply single_recoverable; [apply fresh_single|..].
  - by eapply single_recoverable.
  - by apply live_recoverable.
  - by apply failed_recoverable.
Qed.

Lemma pushed_recoverable c0 n l c : pushed c0 n l c -> recoverable True (stack c).
Proof.
  intros (u & p & rest & -> & Hl & _ & (Hb & _ & Hok) & _).
  apply marked_recoverable; [done|done| |by rewrite Hb|by apply live_recoverable].
  unfold abort_ready. rewrite Hb. by left.
Qed.

Lemma leftover_abortable c : leftover c -> abortable True c.
Proof.
  intros []; left.
  - by eapply single_recoverable.
  - by eapply single_recoverable.
  - by apply live_recoverable.
  - by apply failed_recoverable.
  - by eapply committing_recoverable.
  - by apply aborting_recoverable.
  - by apply releasing_recoverable.
  - by apply restarting_recoverable.
  - by eapply pushed_recoverable.
Qed.

Lemma single_outer c : single TBLOCK_STARTED c -> outer c.
Proof. intros (t & Hs & Hb & _). exists t. auto. Qed.

(** Aborting a transaction that is not a block leads outside any transaction. *)
Lemma abort_outer_spec fuel c :
  outer c -> abortable True c -> glob_ok c ->
  spec True (abort_current E (S fuel)) c (fun _ c' => idle c' /\ same_glob c c')
    (fun c' => abort_err True c c' /\ outer c').
Proof.
  intros (t & Hs & Hb) Hab Hg. cbn [abort_current]. apply spec_bind. eapply spec_cur; [exact Hs|].
  assert (Hkeep : forall P c', at_level c t [] P c' -> outer c' /\ same_glob c c').
  { intros P c' (t' & Hs' & (Hb' & _) & _ & Hg'). split; [|done]. exists t'. by rewrite Hb'. }
  destruct Hb as [Hb|Hb]; rewrite Hb.
  - assert (Hh : half_started True c).
    { destruct Hab as [Hr|Hh]; [|done]. rewrite Hs in Hr. destruct Hr as (Hbase & _). by rewrite Hb in Hbase. }
    destruct Hh as (t0 & Hs0 & _ & Hl & Hd). rewrite Hs0 in Hs. injection Hs as ->.
    unfold abort_default. apply spec_bind. eapply spec_cur; [done|]. unfold is_state at 1.
    case_bool_decide as Hst.
    { apply spec_ret. destruct Hd as [(_ & Hn & Hi)|[? _]]; [|done].
      split; [by exists t|by apply same_glob_refl]. }
    assert (HR : forall c', at_level c t [] (fun t _ => state t <> TRANS_DEFAULT) c' -> abort_err True c c' /\ outer c').
    { intros c' H'. destruct (Hkeep _ _ H') as [Ho Hg']. split; [|done]. split; [done|]. split; [right|done].
      destruct H' as (t' & Hs' & (Hb' & _ & _ & Hl' & _) & Ht' & _). exists t'. rewrite Hb'.
      split; [done|]. split; [done|]. split; [done|]. right. by split. }
    assert (H : at_level c t [] (fun t _ => state t <> TRANS_DEFAULT) c) by by apply at_level_self.
    apply spec_bind. apply spec_mono with (Q := fun _ => at_level c t [] (fun t _ => state t <> TRANS_DEFAULT))
      (R := fun _ => False); [| |done].
    { apply spec_when; [intros _|done]. upd_end. done. }
    intros [] c1 H1. apply spec_unret. eapply abort_cleanup_spec; [done|by left|exact H1|..].
    + intros c2 (t' & Hs' & (Hb' & _ & _ & Hl' & _) & (? & ? & ?) & Hg'). apply spec_ret.
      split; [|done]. exists t'. rewrite Hb'. by split_and!.
    + intros c2 _ H2. apply HR. eapply at_level_weaken; [|exact H2]. by intros t' [?| ->].
  - assert (Hr : recoverable True [t]).
    { destruct Hab as [Hr|(t0 & Hs0 & Hb0 & _)]; [by rewrite Hs in Hr|]. congruence. }
    eapply abort_cleanup_spec with (c0 := c) (t0 := t) (P := fun t => True \/ state t = TRANS_INPROGRESS); [done|tauto|..].
    + apply at_level_self; [done|apply Hr|done|by left].
    + intros c' H. by apply to_idle_spec with (t0 := t).
    + intros c' _ H'. destruct (Hkeep _ _ H') as [Ho Hg']. split; [|done].
      eapply abort_err_top; [done|by rewrite Hb..|done|]. by eapply at_level_any.
Qed.

Lemma same_flag c c' : same_glob c c' -> flag_commit c = false -> flag_commit c' = false.
Proof. intros ((_ & _ & _ & Hf & _) & _). by apply run_flags. Qed.

Lemma abort_erred_spec c :
  erred c ->
  spec True (AbortCurrentTransaction E) c
    (fun _ c' => glob_ok c' /\ unnamed c' /\ resting c' /\ (flag_commit c' = false \/ idle c')) erred.
Proof.
  intros (Hg & Hu & Hab & Hf). unfold AbortCurrentTransaction. apply spec_bind, spec_get.
  destruct Hf as [Hf|Ho].
  - eapply spec_mono; [apply (spec_stable _ unnamed); [apply st_abort|done|];
      apply (abort_current_spec E True any); [lia|done|done]|..].
    + intros _ c' [[Hr Hg'] Hu']. split_and!; [apply Hg'|done| |left; by eapply same_flag].
      destruct Hr; [by left|by right; right].
    + intros c' [(_ & Hab' & Hg') Hu']. split_and!; [apply Hg'|done|done|left; by eapply same_flag].
  - eapply spec_mono; [apply (spec_stable _ unnamed); [apply st_abort|done|]; by apply abort_outer_spec|..].
    + intros _ c' [[Hi Hg'] Hu']. split_and!; [apply Hg'|done|by left|by right].
    + intros c' [[(_ & Hab' & Hg') Ho'] Hu']. split_and!; [apply Hg'|done|done|by right].
Qed.

Lemma resting_erred c :
  glob_ok c -> unnamed c -> resting c -> flag_commit c = false \/ idle c -> erred c.
Proof.
  intros Hg Hu Hr Hf. split_and!; [done|done| |].
  - destruct Hr as [(t & Hs & Hb & Hst & Hn & Hl & Hi)|[Hl|Hl]].
    + right. exists t. split; [done|]. split; [done|]. split; [done|]. left. by split_and!.
    + left. by apply live_recoverable.
    + left. by apply failed_recoverable.
  - destruct Hf as [?|(t & Hs & Hb & _)]; [by left|]. right. exists t. auto.
Qed.

Lemma recover_spec c : erred c -> spec True (recover E) c (fun _ => waiting_ok) erred.
Proof.
  intros Hc. unfold recover. apply spec_bind, spec_calls; [done| |done]. apply spec_bind.
  eapply spec_mono; [by apply abort_erred_spec| |done]. intros [] c1 (Hg & Hu & Hr & Hf).
  assert (He : erred c1) by by apply resting_erred.
  apply spec_bind, spec_calls; [done| |done]. apply spec_modify.
  refine (conj Hg (conj Hu (conj eq_refl (conj Hr _)))). exact Hf.
Qed.

(** * Commands *)
Lemma ready_erred c : running c -> erred c.
Proof. intros (Hg & Hu & _ & Hr & Hf). split_and!; [done|done|by apply ready_abortable|by left]. Qed.

Lemma finished_erred c : finished c -> erred c.
Proof.
  intros (Hg & Hu & Hl & Hf). split_and!; [done|done|by apply leftover_abortable|].
  destruct Hf; [by left|right; by apply single_outer].
Qed.

Lemma start_xact_command_spec c :
  waiting_ok c \/ running c ->
  spec True (start_xact_command E) c (fun _ c' => running c' /\ (fresh c' \/ stack c' = stack c)) erred.
Proof.
  intros Hc. unfold start_xact_command. apply spec_bind, spec_get, spec_bind.
  assert (Hend : forall c', running c' /\ (fresh c' \/ stack c' = stack c) -> spec True
    (calls E [("enable_statement_timeout"%string, []); ("enable_timeout_after"%string, [])]) c'
    (fun _ c' => running c' /\ (fresh c' \/ stack c' = stack c)) erred).
  { intros c' H. apply spec_calls; [done|done|]. intros _. apply ready_erred, H. }
  destruct Hc as [(Hg & Hu & Hx & Hr & Hf)|Hc].
  2: { destruct (Hc) as (_ & _ & Hx & _). rewrite Hx. apply spec_ret, Hend. auto. }
  rewrite Hx. cbn [when negb]. apply spec_bind.
  assert (Hst : stable unnamed (StartTransactionCommand E)).
  { unfold StartTransactionCommand. frame. }
  destruct Hr as [Hi|Hl].
  - eapply spec_mono; [apply (spec_stable _ unnamed); [done|done|by apply start_idle_spec]|..].
    + intros [] c1 [(t & Hs1 & Ht & (Hf1 & _ & _ & _ & _ & Hn1) & Hg1) Hu1]. apply spec_modify, Hend.
      assert (Hfr : fresh (set_xact_started true c1)) by (exists t; split_and!; [done|apply Ht..|lia]).
      split; [|by left]. split_and!; [apply Hg1|exact Hu1|done|by left|].
      unfold flag_commit. cbn. by rewrite Hf1.
    + intros c1 [(_ & Hab & Ho & Hg1) Hu1]. split_and!; [apply Hg1|done|done|by right].
  - assert (Hflag : flag_commit c = false).
    { destruct Hf as [?|(t & Hs & Hb & _)]; [done|]. rewrite Hs in Hl.
      destruct Hl as [(Hb' & _)|(Hb' & _)]; congruence. }
    apply start_block_spec; [done|exact Hl| |].
    + apply spec_modify, Hend. split; [|by right].
      exact (conj Hg (conj Hu (conj eq_refl (conj (or_intror (or_intror Hl)) Hflag)))).
    + intros _. split_and!; [done|done| |by left]. left.
      destruct Hl; [by apply live_recoverable|by apply failed_recoverable].
Qed.

Lemma commit_err_weak c c' : commit_err True c c' -> abortable True c' /\ run_glob c c'.
Proof. by intros (_ & ? & ?). Qed.

Lemma ended_resting c b c' : ended_run c b c' -> resting c' /\ run_glob c c'.
Proof.
  intros [Hr He]. split; [|done]. destruct b; [|by left].
  destruct He as (t & Hs & Ht & _). right; left. by rewrite Hs.
Qed.

(** [CommitTransactionCommand] after a statement. *)
Lemma commit_leftover_spec c :
  glob_ok c -> leftover c ->
  spec True (CommitTransactionCommand E) c (fun _ c' => resting c' /\ run_glob c c')
    (fun c' => abortable True c' /\ run_glob c c').
Proof.
  intros Hg Hl. unfold CommitTransactionCommand. apply spec_bind, spec_get.
  assert (Hroom : True \/ limits c /\ xid_load (stack c) <= MaxChildXids) by by left.
  destruct Hl as [(t & Hs & Ht)|(t & Hs & Ht)|Hl|Hl|b Hb Hl|Hl|Hl|Hl|c0 n l Hl].
  - eapply spec_mono; [by eapply (commit_started_spec E True any)|..].
    + intros _ c' [? ?]. split; [by left|done].
    + intros c' [? _]. by apply commit_err_weak.
  - eapply spec_mono; [by eapply commit_begin_spec|..|apply commit_err_weak].
    intros _ c' [(t' & Hs' & Ht') ?]. split; [right; left; by rewrite Hs'|done].
  - eapply spec_mono; [apply (commit_live_spec E True any); [done|done|by left]|..|apply commit_err_weak].
    intros _ c' (? & _ & ?). split; [by right; left|done].
  - eapply spec_mono; [by apply commit_failed_spec|..|apply commit_err_weak].
    intros _ c' [Hs ?]. split; [right; right; by rewrite Hs|done].
  - destruct (stack c) as [|t rest] eqn:Hs; [done|]. rewrite <- Hs in Hl. destruct Hb as [-> | ->].
    + eapply spec_mono; [eapply (commit_end_spec E True any); [exact Hs|done|rewrite Hs; cbn; lia|done|by left]|..|
        apply commit_err_weak].
      intros _ c' (c1 & Hr & _ & He). by eapply ended_resting, ended_to_run.
    + eapply spec_mono; [eapply (commit_prepare_spec E True any); [exact Hs|done|rewrite Hs; cbn; lia|done|by left]|..].
      * intros _ c' [? ?]. split; [by left|done].
      * intros c' [?|(u & Hs' & _ & Hrec & Hr)]; [by apply commit_err_weak|]. split; [left; by rewrite Hs'|done].
  - eapply spec_mono; [by apply (commit_abort_spec E True any); [| lia|]|..|apply commit_err_weak].
    intros [] c'. by apply ended_resting.
  - eapply spec_mono; [apply (commit_release_spec E True any); [done|lia|done|by left]|..|apply commit_err_weak].
    intros _ c' (? & _ & ?). split; [by right; left|done].
  - eapply spec_mono; [apply (commit_restart_spec E True any); [done|lia|done|by left]|..|apply commit_err_weak].
    intros _ c' (? & _ & ?). split; [by right; left|done].
  - eapply spec_mono; [by eapply (commit_pushed_spec E True any)|..|apply commit_err_weak].
    intros _ c' (? & _ & ?). split; [by right; left|done].
Qed.

Lemma commit_finished_spec c :
  finished c ->
  spec True (CommitTransactionCommand E) c
    (fun _ c' => glob_ok c' /\ unnamed c' /\ resting c' /\ (flag_commit c' = false \/ idle c')) erred.
Proof.
  intros (Hg & Hu & Hl & Hf).
  assert (Hst : stable unnamed (CommitTransactionCommand E)).
  { unfold CommitTransactionCommand. pose proof (st_commit E). frame. }
  destruct Hf as [Hf|(t & Hs & Ht)].
  - eapply spec_mono; [apply (spec_stable _ unnamed); [done|done|by apply commit_leftover_spec]|..].
    + intros _ c' [[Hr (? & _ & Hfl)] Hu']. split_and!; [done|done|done|left]. by apply run_flags in Hfl as [? _]; auto.
    + intros c' [[Hr (? & _ & Hfl)] Hu']. split_and!; [done|done|done|left]. by apply run_flags in Hfl as [? _]; auto.
  - eapply spec_mono; [apply (spec_stable _ unnamed); [done|done|]|..].
    + unfold CommitTransactionCommand. apply spec_bind, spec_get. by eapply (commit_started_spec E True any).
    + intros _ c' [[Hi (? & _)] Hu']. split_and!; [done|done|by left|by right].
    + intros c' [[(_ & Hab & (? & _)) (t' & Hs' & Hb')] Hu']. split_and!; [done|done|done|].
      right. exists t'. auto.
Qed.

Lemma finish_xact_command_spec c :
  waiting_ok c \/ finished c /\ xact_started c = true ->
  spec True (finish_xact_command E) c (fun _ => waiting_ok) erred.
Proof.
  intros Hc. unfold finish_xact_command.
  assert (He : erred c).
  { destruct Hc as [(Hg & Hu & _ & Hr & Hf)|[? _]]; [by apply resting_erred|by apply finished_erred]. }
  apply spec_bind, spec_calls; [done| |done]. apply spec_bind, spec_get.
  destruct Hc as [Hc|[Hc Hx]].
  - destruct (Hc) as (_ & _ & Hx & _). rewrite Hx. by apply spec_ret.
  - rewrite Hx. cbn [when]. apply spec_bind. eapply spec_mono; [by apply commit_finished_spec| |done].
    intros [] c' (Hg & Hu & Hr & Hf). apply spec_modify.
    refine (conj Hg (conj Hu (conj eq_refl (conj Hr _)))). exact Hf.
Qed.

(** * Transaction statements *)
Lemma remarked_finished (P : list TransactionStateData -> Prop) c c' :
  running c -> remarked P c c' -> (forall l, P l -> leftover (set_stack l c)) ->
  finished c' /\ xact_started c' = true.
Proof.
  intros (Hg & Hu & Hx & _ & Hf) (l & -> & [Hn _] & Hl) HP. split; [|exact Hx].
  split_and!; [exact Hg| |by apply HP|left; exact Hf]. by eapply unnamed_names.
Qed.

Definition done_stmt (c : Core) : Prop := finished c /\ xact_started c = true.

Lemma running_done c : running c -> leftover c -> done_stmt c.
Proof. intros (Hg & Hu & Hx & _ & Hf) Hl. split; [|done]. split_and!; [done|done|done|by left]. Qed.

Lemma finish_calls l c : done_stmt c -> spec True (calls E l) c (fun _ => done_stmt) erred.
Proof. intros H. apply spec_calls; [done|done|]. intros _. by apply finished_erred, H. Qed.

Lemma same_erred c c' : running c -> same c c' -> erred c'.
Proof. intros H ->. by apply ready_erred. Qed.

Lemma ready_parallel c :
  ready c -> exists t r, stack c = t :: r /\ parallelModeLevel t = 0.
Proof.
  intros [(t & Hs & (_ & _ & Hp & _) & _)|[(t & Hs & _ & _ & Hp & _)|[Hl|Hl]]]; [by exists t, []..| |].
  - destruct (stack c) as [|t r]; [done|]. exists t, r. split; [done|]. apply (live_head _ _ Hl).
  - destruct (stack c) as [|t r]; [done|]. exists t, r. split; [done|].
    by apply failed_lvls, Forall_cons_1 in Hl as [(? & _) _].
Qed.

Lemma check_read_only_spec fails (Hfails : fails \/ no_failures E) t c :
  ready c -> spec fails (check_read_only E t) c (fun _ => same c) (same c).
Proof.
  intros Hr. destruct (ready_parallel _ Hr) as (s & r & Hs & Hp). unfold check_read_only.
  destruct t; try by apply spec_ret.
  all: apply spec_bind, spec_get, spec_bind; eapply spec_parallel; [exact Hs|exact Hp|];
    rewrite orb_false_r; destruct (ReadOnly (xact_chars c)); [|by apply spec_ret];
    cbn [when]; apply spec_bind, spec_ret, spec_bind, spec_sub; [done| |done];
    intros v; destruct (v =? 0); [by apply spec_ret|by apply spec_throw].
Qed.

Lemma set_options_body fails (Hfails : fails \/ no_failures E) l c0 c :
  body c0 c -> spec fails (set_options E l) c (fun _ => body c0) (fun c' => fails /\ body c0 c').
Proof.
  revert c. induction l as [|o l IH]; intros c Hb; cbn [set_options]; [by apply spec_ret|].
  apply spec_bind. eapply spec_mono; [by apply SetPGVariable_spec| |done]. intros [] c' Hc'. by apply IH.
Qed.

Lemma begin_single_spec fails b c :
  b = TBLOCK_STARTED \/ b = TBLOCK_IMPLICIT_INPROGRESS -> single b c ->
  spec (W := W) fails BeginTransactionBlock c
    (fun _ => remarked (fun l => exists t, l = [t] /\ in_block TBLOCK_BEGIN TRANS_INPROGRESS t) c) (fun _ => False).
Proof.
  intros Hb (t & Hs & Hbt & Hst & Hl). unfold BeginTransactionBlock. apply spec_bind.
  eapply spec_cur; [exact Hs|].
  assert (Hgo : spec (W := W) fails (upd_cur (set_blockState TBLOCK_BEGIN)) c
    (fun _ => remarked (fun l => exists t, l = [t] /\ in_block TBLOCK_BEGIN TRANS_INPROGRESS t) c) (fun _ => False)).
  { apply spec_modify. rewrite (on_top_cons _ _ _ _ Hs). eexists. split; [reflexivity|].
    split; [by rewrite Hs|]. eexists. split; [reflexivity|]. by split_and!. }
  rewrite Hbt. by destruct Hb as [-> | ->].
Qed.

Lemma begin_live_spec fails c :
  live (stack c) -> spec (W := W) fails BeginTransactionBlock c (fun _ => same c) (fun _ => False).
Proof.
  intros Hl. unfold BeginTransactionBlock. destruct (stack c) as [|t r] eqn:Hs; [done|].
  apply spec_bind. eapply spec_cur; [exact Hs|].
  destruct (live_head _ _ Hl) as (_ & _ & [-> | ->]); by apply spec_ereport_warning.
Qed.

(** SAVEPOINT, RELEASE and ROLLBACK TO demand a block ([RequireTransactionBlock]). *)
Lemma require_fresh_spec fails s c (Q : unit -> Core -> Prop) (R : Core -> Prop) :
  fresh c -> R c -> spec (W := W) fails (RequireTransactionBlock true s) c Q R.
Proof.
  intros (t & Hs & (Hb & _) & Hn) HR. unfold RequireTransactionBlock, CheckTransactionBlock.
  apply spec_bind. unfold IsTransactionBlock. apply spec_bind. eapply spec_cur; [exact Hs|]. apply spec_ret.
  unfold is_block. rewrite Hb. cbn. apply spec_bind. unfold IsSubTransaction. apply spec_bind.
  eapply spec_cur; [exact Hs|]. apply spec_ret.
  replace (2 <=? nestingLevel t) with false by (symmetry; apply Z.leb_gt; lia). by apply spec_throw.
Qed.

Lemma require_block_spec fails s c t r (Q : unit -> Core -> Prop) (R : Core -> Prop) :
  stack c = t :: r -> blockState t <> TBLOCK_STARTED -> blockState t <> TBLOCK_DEFAULT -> Q tt c ->
  spec (W := W) fails (RequireTransactionBlock true s) c Q R.
Proof.
  intros Hs H1 H2 HQ. unfold RequireTransactionBlock, CheckTransactionBlock.
  apply spec_bind. unfold IsTransactionBlock. apply spec_bind. eapply spec_cur; [exact Hs|]. apply spec_ret.
  unfold is_block. rewrite !bool_decide_eq_false_2 by done. by apply spec_ret.
Qed.

Lemma require_spec fails s (m : X W unit) c (Q : unit -> Core -> Prop) (R : Core -> Prop) :
  ready c -> (fresh c -> R c) ->
  (single TBLOCK_IMPLICIT_INPROGRESS c \/ live (stack c) \/ failed (stack c) -> spec fails m c Q R) ->
  spec fails (RequireTransactionBlock true s;; m) c Q R.
Proof.
  intros [Hf|Hr] HR Hm; apply spec_bind; [by apply require_fresh_spec; auto|].
  destruct (Hr) as [(t & Hs & Hb & _)|[Hl|Hl]].
  - eapply require_block_spec; [exact Hs|by rewrite Hb..|auto].
  - destruct (stack c) as [|t r] eqn:Hs; [done|]. destruct (live_head _ _ Hl) as (_ & _ & Hb).
    eapply require_block_spec; [exact Hs|by destruct Hb as [-> | ->]..|auto].
  - destruct (stack c) as [|t r] eqn:Hs; [done|].
    eapply require_block_spec; [exact Hs|by destruct r; destruct Hl as (-> & _)..|auto].
Qed.

Lemma unchanged_finished c c' l :
  running c -> single TBLOCK_STARTED c' -> c' = set_stack l c -> relabels (stack c) l -> done_stmt c'.
Proof.
  intros (Hg & Hu & Hx & _ & Hf) Hs -> [Hn _]. split; [|exact Hx].
  split_and!; [exact Hg|by eapply unnamed_names|by apply left_started|by right].
Qed.

Lemma body_finished c0 c :
  running c0 -> body c0 c -> unnamed c -> leftover c ->
  in_a_block (stack c0) = true \/ single TBLOCK_STARTED c -> done_stmt c.
Proof.
  intros (_ & _ & Hx & _ & Hf) (H1 & H2 & H3 & _ & _ & _ & H7) Hu Hl Hb. split; [|congruence].
  split_and!; [done|done|done|]. destruct (H7 Hf) as [?|Hn]; [by left|].
  destruct Hb as [Hb|?]; [congruence|by right].
Qed.

Lemma utility_begin l c :
  running c -> ~ failed (stack c) ->
  spec True (BeginTransactionBlock;; set_options E l) c (fun _ => done_stmt) erred.
Proof.
  intros Hc Hnf. destruct (Hc) as (Hg & Hu & Hx & Hr & Hf).
  assert (Hopt : forall c1, done_stmt c1 -> in_a_block (stack c1) = true ->
     (forall c2, body c1 c2 -> leftover c2) -> flag_commit c1 = false ->
     spec True (set_options E l) c1 (fun _ => done_stmt) erred).
  { intros c1 [(Hg1 & Hu1 & Hl1 & _) Hx1] Hb1 Hk Hf1.
    assert (Hd : forall c2, body c1 c2 /\ unnamed c2 -> done_stmt c2).
    { intros c2 [Hb2 Hu2]. pose proof Hb2 as (_ & H2 & H3 & _ & _ & _ & H7).
      split; [|congruence]. split_and!; [done|done|by apply Hk|]. destruct (H7 Hf1); [by left|congruence]. }
    eapply spec_mono; [apply (spec_stable _ unnamed); [apply st_options|done|];
      apply (set_options_body True any); by apply body_refl|..].
    - intros [] c2 H2. by apply Hd.
    - intros c2 [[_ H2] Hu2]. apply finished_erred, Hd. by split. }
  assert (Hsingle : forall b, b = TBLOCK_STARTED \/ b = TBLOCK_IMPLICIT_INPROGRESS -> single b c ->
    spec True (BeginTransactionBlock;; set_options E l) c (fun _ => done_stmt) erred).
  { intros b Hb Hs. apply spec_bind. eapply spec_mono; [by eapply begin_single_spec| |done].
    intros [] c1 Hm. destruct (Hm) as (r & -> & _ & t & -> & Ht). apply Hopt; [| | |exact Hf].
    - eapply remarked_finished; [done|exact Hm|]. intros l' (u & -> & ?). apply left_begin. by exists u.
    - cbn. unfold is_block. by rewrite (proj1 Ht).
    - intros c2 (H1 & _). apply left_begin. eapply xids_single; [exact H1|]. by exists t. }
  destruct Hr as [H|[H|[H|H]]].
  - apply fresh_single in H. eapply Hsingle; [by left|done].
  - eapply Hsingle; [by right|done].
  - apply spec_bind. eapply spec_mono; [by apply begin_live_spec| |done]. intros [] c1 ->.
    apply Hopt; [by apply running_done, left_live| | |done].
    + by apply live_in_block.
    + intros c2 (H1 & _). apply left_live. by eapply xids_live.
  - done.
Qed.

Lemma utility_commit v c :
  running c -> spec True (EndTransactionBlock v : X W bool) c (fun _ => done_stmt) erred.
Proof.
  intros Hc. destruct (Hc) as (Hg & Hu & Hx & Hr & Hf).
  assert (HE : forall l, committing TBLOCK_END l /\ top_chain l = v -> leftover (set_stack l c)).
  { intros l [? _]. eapply left_commit; [by left|done]. }
  destruct Hr as [H|[H|[H|H]]].
  - eapply spec_mono; [apply End_started_spec; by apply fresh_single|..].
    + intros r c' (_ & _ & ? & l & ? & ?). by eapply unchanged_finished.
    + intros c' [_ ?]. by eapply same_erred.
  - eapply spec_mono; [by apply End_implicit_spec|..].
    + intros r c' (_ & -> & ?). by eapply remarked_finished.
    + intros c' [_ ?]. by eapply same_erred.
  - eapply spec_mono; [by apply End_live_spec| |done]. intros r c' [_ ?]. by eapply remarked_finished.
  - eapply spec_mono; [by apply End_failed_spec| |done]. intros r c' [_ ?].
    eapply remarked_finished; [done..|]. intros l [? _]. by apply left_abort.
Qed.

Lemma utility_rollback v c :
  running c -> spec True (UserAbortTransactionBlock v : X W unit) c (fun _ => done_stmt) erred.
Proof.
  intros Hc. destruct (Hc) as (Hg & Hu & Hx & Hr & Hf).
  assert (HA : forall v l, aborting l /\ top_chain l = v -> leftover (set_stack l c)).
  { intros v' l [? _]. by apply left_abort. }
  assert (Hs : forall b, b = TBLOCK_STARTED \/ b = TBLOCK_IMPLICIT_INPROGRESS -> single b c ->
    spec True (UserAbortTransactionBlock v : X W unit) c (fun _ => done_stmt) erred).
  { intros b Hb H. eapply spec_mono; [by eapply UserAbort_single_spec|..].
    - intros [] c' [_ ?]. eapply remarked_finished; [done..|apply HA].
    - intros c' [_ ?]. by eapply same_erred. }
  destruct Hr as [H|[H|Hl]].
  - apply fresh_single in H. eapply Hs; [by left|done].
  - eapply Hs; [by right|done].
  - eapply spec_mono; [by apply UserAbort_spec| |done]. intros [] c' ?. eapply remarked_finished; [done..|apply HA].
Qed.

Lemma utility_prepare gid c :
  running c -> spec True (PrepareTransactionBlock gid : X W bool) c (fun _ => done_stmt) erred.
Proof.
  intros Hc. destruct (Hc) as (Hg & Hu & Hx & Hr & Hf).
  assert (Hc' : running (set_prepareGID (Some gid) c)) by exact Hc.
  assert (HP : forall l, committing TBLOCK_PREPARE l -> leftover (set_stack l (set_prepareGID (Some gid) c))).
  { intros l ?. eapply left_commit; [by right|done]. }
  destruct Hr as [H|[H|[H|H]]].
  - eapply spec_mono; [apply Prepare_started_spec; by apply fresh_single| |done].
    intros r c' (_ & ? & l & ? & ?). by apply (unchanged_finished c c' l).
  - eapply spec_mono; [by apply Prepare_implicit_spec| |done]. intros r c' [_ Hm].
    exact (remarked_finished _ _ _ Hc' Hm HP).
  - eapply spec_mono; [by apply Prepare_live_spec| |done]. intros r c' [_ Hm].
    exact (remarked_finished _ _ _ Hc' Hm HP).
  - eapply spec_mono; [by apply Prepare_failed_spec| |done]. intros r c' [_ Hm].
    apply (remarked_finished _ _ _ Hc Hm). intros l [? _]. by apply left_abort.
Qed.

(** COMMIT PREPARED and ROLLBACK PREPARED. *)
Lemma ready_accepts c : ready c -> ~ failed (stack c) -> accepts (stack c).
Proof.
  intros [(t & Hs & Ht & _)|[(t & Hs & Ht)|[H|H]]] Hn; [right|right|by left|done].
  - exists TBLOCK_STARTED, t. auto.
  - exists TBLOCK_IMPLICIT_INPROGRESS, t. auto.
Qed.

Lemma body_ready c0 c : ready c0 -> body c0 c -> ready c.
Proof.
  intros Hr (Hx & _). destruct Hr as [(t & Hs & Ht & Hn)|[H|[H|H]]].
  - left. rewrite Hs in Hx. apply Forall2_cons_inv_l in Hx as (u & l & (x & d & ->) & Hnil & Hs').
    apply Forall2_nil_inv_l in Hnil as ->. eexists. split; [exact Hs'|]. by split.
  - right; left. by eapply xids_single.
  - right; right; left. by eapply xids_live.
  - right; right; right. destruct Hx as [|t t' l l' (x & b & ->) Hl]; [done|].
    destruct Hl as [|p p' l l' Hp Hl]; [done|]. destruct H as (Hb & Hs & Hok & Hlive).
    split_and!; [done..|]. eapply xids_live; [|exact Hlive]. by constructor.
Qed.

Lemma body_erred c0 c : running c0 -> body c0 c -> unnamed c -> erred c.
Proof.
  intros (_ & _ & Hx & Hr & Hf) Hb Hu. pose proof (body_ready _ _ Hr Hb) as Hr'.
  pose proof Hb as (H1 & H2 & _ & _ & _ & _ & H7). split_and!; [done|done|by apply ready_abortable|].
  destruct (H7 Hf) as [?|Hn]; [by left|right]. destruct Hr as [H|[(t & Hs & Hbt & _)|[H|H]]].
  - apply single_outer. eapply xids_single; [done|by apply fresh_single].
  - rewrite Hs in Hn. cbn in Hn. unfold is_block in Hn. by rewrite Hbt in Hn.
  - apply live_in_block in H. congruence.
  - exfalso. destruct (stack c0) as [|t r]; [done|]. unfold in_a_block, is_block in Hn.
    by destruct r; destruct H as (Hbt & _); rewrite Hbt in Hn.
Qed.

Lemma utility_prepared s l c :
  running c -> ~ failed (stack c) ->
  spec True (PreventInTransactionBlock true s;; calls E l) c (fun _ => done_stmt) erred.
Proof.
  intros Hc Hn. destruct (Hc) as (Hg & Hu & Hx & Hr & Hf). apply spec_bind.
  eapply spec_mono; [apply (spec_stable _ unnamed); [apply st_prevent|done|];
    apply (Prevent_spec True s c); [by apply ready_accepts|by left|by apply body_refl]|..].
  - intros [] c' [[Hb Hin] Hu']. apply finish_calls.
    assert (Hs : single TBLOCK_STARTED c').
    { destruct Hr as [H|[(t & Hs & Hbt & _)|[H|H]]].
      - eapply xids_single; [apply Hb|by apply fresh_single].
      - rewrite Hs in Hin. cbn in Hin. unfold is_block in Hin. by rewrite Hbt in Hin.
      - apply live_in_block in H. congruence.
      - done. }
    eapply body_finished; [done|done|done|by apply left_started|by right].
  - intros c' [[Hb _] Hu']. by eapply body_erred.
Qed.

(** Savepoint statements in an implicit block are refused. *)
Lemma implicit_refused fails (m : X W unit) msg c Q (R : Core -> Prop) :
  single TBLOCK_IMPLICIT_INPROGRESS c -> R c ->
  (forall t, stack c = [t] -> parallelModeLevel t = 0 -> blockState t = TBLOCK_IMPLICIT_INPROGRESS ->
     forall x, core x = c -> m x = (inr (EReport msg), x)) ->
  spec fails m c Q R.
Proof.
  intros (t & Hs & Hb & _ & Hp & _) HR Hm x Hx. rewrite (Hm t Hs Hp Hb x Hx). rewrite Hx.
  split; [done|]. apply quiet_refl.
Qed.

Ltac refused :=
  let t := fresh in let Hs := fresh in let Hp := fresh in let Hb := fresh in let x := fresh in let Hx := fresh in
  intros t Hs Hp Hb x Hx; unfold DefineSavepoint, ReleaseSavepoint, RollbackToSavepoint, IsInParallelMode,
    CurrentTransactionState, mbind, X_bind, get; rewrite Hx, Hs; cbn; rewrite Hp; cbn; rewrite Hx, Hs; cbn;
  rewrite Hb; reflexivity.

Lemma utility_savepoint n c :
  running c -> ~ failed (stack c) ->
  spec True (RequireTransactionBlock true "SAVEPOINT";; DefineSavepoint E (Some n)) c (fun _ => done_stmt) erred.
Proof.
  intros Hc Hn. destruct (Hc) as (Hg & Hu & Hx & Hr & Hf).
  apply require_spec; [done|intros _; by apply ready_erred|]. intros [H|[H|H]]; [..|done].
  - eapply implicit_refused; [done|by apply ready_erred|refused].
  - eapply spec_mono; [apply (spec_stable _ unnamed); [apply st_Define|done|];
      apply (DefineSavepoint_spec E True any (Some n) c c); [by left|done|by apply same_glob_refl]|..].
    + intros [] c' [Hp Hu']. pose proof Hp as (u & p & r & _ & _ & _ & _ & _ & _ & (G1 & G2 & _ & G3 & _)).
      split; [|congruence]. split_and!; [done|done|by eapply left_pushed|left].
      apply run_flags in G3 as [? _]; auto.
    + intros c' [(_ & Hab & (G1 & _ & G3)) Hu']. split_and!; [done|done|done|left].
      apply run_flags in G3 as [? _]; auto.
Qed.

Lemma utility_release n c :
  running c -> ~ failed (stack c) ->
  spec True (RequireTransactionBlock true "RELEASE SAVEPOINT";; ReleaseSavepoint n : X W unit) c
    (fun _ => done_stmt) erred.
Proof.
  intros Hc Hn. destruct (Hc) as (Hg & Hu & Hx & Hr & Hf).
  apply require_spec; [done|intros _; by apply ready_erred|]. intros [H|[H|H]]; [..|done].
  - eapply implicit_refused; [done|by apply ready_erred|refused].
  - eapply spec_mono; [by apply Release_spec|..].
    + intros [] c' (k & _ & Hc' & Hrel & _).
      eapply (remarked_finished (fun l => releasing l)); [exact Hc| |intros l Hl; by apply left_release].
      exists (release_marks k (stack c)). split; [done|]. split; [apply relabels_release|].
      by rewrite Hc' in Hrel.
    + intros c' [? _]. by eapply same_erred.
Qed.

Lemma utility_rollback_to n c :
  running c ->
  spec True (RequireTransactionBlock true "ROLLBACK TO SAVEPOINT";; RollbackToSavepoint n : X W unit) c
    (fun _ => done_stmt) erred.
Proof.
  intros Hc. destruct (Hc) as (Hg & Hu & Hx & Hr & Hf).
  apply require_spec; [done|intros _; by apply ready_erred|]. intros [H|Hl].
  - eapply implicit_refused; [done|by apply ready_erred|refused].
  - eapply spec_mono; [by apply RollbackTo_spec|..].
    + intros [] c' (k & _ & Hm). eapply remarked_finished; [exact Hc|exact Hm|].
      intros l [? _]. by apply left_restart.
    + intros c' [? _]. by eapply same_erred.
Qed.

Lemma ProcessUtility_spec t c :
  running c -> (failed (stack c) -> IsTransactionExitStmt (TransStmt t) = true) ->
  spec True (ProcessUtility E t) c (fun _ => done_stmt) erred.
Proof.
  intros Hc Hexit. unfold ProcessUtility.
  apply spec_bind, spec_calls; [done| |intros _; by apply ready_erred].
  apply spec_bind. eapply spec_mono; [apply check_read_only_spec; [done|apply Hc]|..].
  2: { intros c' ->. by apply ready_erred. }
  intros [] c' ->.
  assert (Hr : forall (m : X W bool), spec True m c (fun _ => done_stmt) erred ->
    spec True (r ← m; when (negb r) (calls E [("SetQueryCompletion"%string, [])])) c (fun _ => done_stmt) erred).
  { intros m Hm. apply spec_bind. eapply spec_mono; [exact Hm| |done]. intros r c' Hd.
    apply spec_when; [intros _; by apply finish_calls|done]. }
  destruct t; cbn in Hexit.
  - apply utility_begin; [done|]. intros ?. by specialize (Hexit ltac:(done)).
  - apply utility_begin; [done|]. intros ?. by specialize (Hexit ltac:(done)).
  - by apply Hr, utility_commit.
  - by apply utility_rollback.
  - apply utility_savepoint; [done|]. intros ?. by specialize (Hexit ltac:(done)).
  - apply utility_release; [done|]. intros ?. by specialize (Hexit ltac:(done)).
  - by apply utility_rollback_to.
  - by apply Hr, utility_prepare.
  - apply utility_prepared; [done|]. intros ?. by specialize (Hexit ltac:(done)).
  - apply utility_prepared; [done|]. intros ?. by specialize (Hexit ltac:(done)).
Qed.

(** * The statements of a query *)
Definition ran (c0 : Core) (p : RawStmt) (c : Core) : Prop :=
  if is_TransactionStmt p then done_stmt c else body c0 c /\ unnamed c.

Lemma ran_erred c0 p c : running c0 -> ran c0 p c -> erred c.
Proof.
  unfold ran. destruct (is_TransactionStmt p).
  - intros _ [? _]. by apply finished_erred.
  - intros ? [? ?]. by eapply body_erred.
Qed.

Lemma exec_portal_spec p c :
  running c -> (failed (stack c) -> IsTransactionExitStmt p = true) ->
  spec True (exec_portal E p) c (fun _ => ran c p) erred.
Proof.
  intros Hc Hexit. unfold exec_portal. assert (He : erred c) by by apply ready_erred.
  assert (Hcalls : forall l (Q : unit -> Core -> Prop), Q tt c -> spec True (calls E l) c Q erred).
  { intros l Q HQ. by apply spec_calls. }
  apply spec_bind, spec_when; intros _; [apply Hcalls|];
    (apply spec_bind, Hcalls, spec_bind, spec_when; intros _; [apply Hcalls|]; apply spec_bind, Hcalls, spec_bind).
  all: apply spec_mono with (Q := fun _ => ran c p) (R := erred); [|intros [] c' H'|done].
  all: try (apply spec_calls; [done|done|intros _; by eapply ran_erred]).
  all: unfold ran; destruct p as [t|l]; cbn [is_TransactionStmt].
  all: try by apply ProcessUtility_spec.
  all: destruct (Hc) as (Hg & Hu & _ & Hr & _);
    eapply spec_mono; [apply (spec_stable _ unnamed); [apply st_perform|done|];
      apply (perform_all_spec E True any l c c); [|by left|by apply body_refl]|..].
  all: try by (apply ready_accepts; [done|intros Hn; by specialize (Hexit Hn)]).
  all: try by intros [] c' [[? _] ?].
  all: intros c' [[? _] ?]; by eapply body_erred.
Qed.

(** [CommandCounterIncrement] between two statements. *)
Lemma CCI_spec fails (Hfails : fails \/ no_failures E) c t r :
  stack c = t :: r -> lvl_ok t -> glob_ok c -> (fails \/ limits c) ->
  spec fails (CommandCounterIncrement E) c
    (fun _ c' => exists t', stack c' = t' :: r /\ same_lvl t t' /\ state t' = state t /\ same_glob c c')
    (fun c' => fails /\ exists t', stack c' = t' :: r /\ same_lvl t t' /\ state t' = state t /\ same_glob c c').
Proof.
  intros Hs Hl Hg Hlim. set (P := fun (t' : TransactionStateData) (_ : Core) => state t' = state t).
  assert (H : at_level c t r P c) by by apply at_level_self.
  eapply spec_mono; [apply (keep_CCI E fails Hfails c t r P (fun c' => fails /\ at_level c t r P c'));
    [done|done|by auto|exact H]|..]; [by intros [] c'|by intros c' [? ?]].
Qed.

Lemma implicit_live_lvl c :
  single TBLOCK_IMPLICIT_INPROGRESS c \/ live (stack c) ->
  exists t r, stack c = t :: r /\ lvl_ok t /\ state t = TRANS_INPROGRESS.
Proof.
  intros [(t & Hs & _ & ? & ?)|Hl]; [by exists t, []|]. destruct (stack c) as [|t r]; [done|].
  exists t, r. by destruct (live_head _ _ Hl) as (? & ? & _).
Qed.

Lemma next_command_spec c0 c :
  running c0 -> in_a_block (stack c0) = true -> ~ failed (stack c0) -> body c0 c -> unnamed c ->
  spec True (c ← get;
             Assert (Z.land (MyXactFlags c) XACT_FLAGS_NEEDIMMEDIATECOMMIT =? 0)
               "!(MyXactFlags & XACT_FLAGS_NEEDIMMEDIATECOMMIT)";;
             CommandCounterIncrement E;;
             calls E [("disable_statement_timeout"%string, [])]) c
    (fun _ c' => running c' /\ in_a_block (stack c') = true) erred.
Proof.
  intros Hc0 Hin Hnf Hb Hu. destruct (Hc0) as (_ & _ & Hx0 & Hr0 & Hf0).
  pose proof Hb as (H1 & Hg & H3 & _ & _ & _ & H7).
  assert (Hf : flag_commit c = false) by (destruct (H7 Hf0); [done|congruence]).
  assert (Hst : single TBLOCK_IMPLICIT_INPROGRESS c \/ live (stack c)).
  { destruct Hr0 as [(t & Hs & (Hbt & _) & _)|[H|[H|H]]]; [| |right; by eapply xids_live|done].
    - rewrite Hs in Hin. cbn in Hin. unfold is_block in Hin. by rewrite Hbt in Hin.
    - left. by eapply xids_single. }
  apply spec_bind, spec_get, spec_bind, spec_assert; [by rewrite flag_commit_eq, Hf|].
  destruct (implicit_live_lvl c Hst) as (t & r & Hs & Hl & Hts). apply spec_bind.
  assert (Hk : forall c', (exists t', stack c' = t' :: r /\ same_lvl t t' /\ state t' = state t /\ same_glob c c') ->
    unnamed c' -> running c' /\ in_a_block (stack c') = true).
  { intros c' (t' & Hs' & Hsl & Hst' & Hg') Hu'. pose proof Hg' as ((? & Hx' & _ & Hfl & _) & _).
    assert (Hst2 : single TBLOCK_IMPLICIT_INPROGRESS c' \/ live (stack c')).
    { destruct Hst as [(u & Hsu & Hbu & Hsu' & _)|Hlive].
      - left. rewrite Hs in Hsu. injection Hsu as -> ->. exists t'. split; [done|].
        destruct Hsl as (? & _ & _ & ? & _). split_and!; congruence.
      - right. rewrite Hs in Hlive. rewrite Hs'. eapply live_same; [done|done|congruence]. }
    split.
    - split_and!; [done|done|congruence| |by apply run_flags in Hfl as [? _]; auto].
      destruct Hst2; [right; by left|right; right; by left].
    - destruct Hst2 as [(u & Hsu & Hbu & _)|?]; [|by apply live_in_block].
      rewrite Hsu. cbn. unfold is_block. by rewrite Hbu. }
  eapply spec_mono; [apply (spec_stable _ unnamed); [apply st_CCI|done|];
    apply (CCI_spec True any); [exact Hs|done|done|by left]|..].
  - intros [] c' [H' Hu']. destruct (Hk c' H' Hu') as [Hr' Hi']. apply spec_calls; [done|done|].
    intros _. by apply ready_erred.
  - intros c' [[_ H'] Hu']. by apply ready_erred, Hk.
Qed.

(** The last statement: the implicit block, if any, ends with it. *)
Lemma leftover_head c :
  leftover c -> exists t r, stack c = t :: r /\ blockState t <> TBLOCK_IMPLICIT_INPROGRESS.
Proof.
  intros [(t & Hs & Hb & _)|(t & Hs & Hb & _)|Hl|Hl|b Hb Hl|Hl|Hl|Hl|c0 n l (u & q & r & Hs & _ & _ & (Hb & _) & _)].
  1,2: exists t, []; by rewrite Hb.
  7: exists u, (q :: r); by rewrite Hb.
  all: destruct (stack c) as [|t r]; [done|]; exists t, r; split; [done|].
  - by destruct (live_head _ _ Hl) as (_ & _ & [-> | ->]).
  - by destruct r; destruct Hl as (-> & _).
  - destruct r; [destruct Hl as (-> & _); by destruct Hb as [-> | ->]|by destruct Hl as [(-> & _) _]].
  - destruct r; [by destruct Hl as [(-> & _)|(-> & _)]|by destruct Hl as [[(-> & _)|(-> & _)] _]].
  - by destruct Hl as [(-> & _) _].
  - by destruct Hl as [[[(-> & _)|(-> & _)] _]|[[(-> & _)|(-> & _)] _]].
Qed.

Lemma last_statement_spec ui c0 p c :
  running c0 -> ran c0 p c -> (failed (stack c0) -> IsTransactionExitStmt p = true) ->
  (ui = false -> ~ single TBLOCK_IMPLICIT_INPROGRESS c0) ->
  spec True (when ui EndImplicitTransactionBlock;; finish_xact_command E) c (fun _ => waiting_ok) erred.
Proof.
  intros Hc0 Hran Hexit Hui.
  assert (Hdone : done_stmt c -> spec True (when ui EndImplicitTransactionBlock;; finish_xact_command E) c
    (fun _ => waiting_ok) erred).
  { intros Hd. apply spec_bind. destruct (leftover_head c) as (t & r & Hs & Hb); [apply Hd|].
    apply spec_when; intros _; [|apply finish_xact_command_spec; by right].
    apply spec_bind. eapply spec_cur; [exact Hs|]. unfold is_block. rewrite bool_decide_eq_false_2 by done.
    apply spec_ret, finish_xact_command_spec. by right. }
  unfold ran in Hran. destruct p as [t|l]; cbn in Hran, Hexit; [by apply Hdone|].
  destruct Hran as [Hb Hu]. destruct (Hc0) as (_ & _ & Hx0 & Hr0 & Hf0).
  pose proof Hb as (H1 & Hg & H3 & _ & _ & _ & H7).
  destruct Hr0 as [H|[H|[H|H]]].
  - apply Hdone. assert (single TBLOCK_STARTED c) by (eapply xids_single; [done|by apply fresh_single]).
    eapply body_finished; [done|done|done|by apply left_started|by right].
  - destruct ui; [|by destruct (Hui eq_refl)]. assert (Hs : single TBLOCK_IMPLICIT_INPROGRESS c) by by eapply xids_single.
    destruct Hs as (t & Hs & Hbt & Hst & Hl). cbn [when]. apply spec_bind. unfold EndImplicitTransactionBlock.
    apply spec_bind. eapply spec_cur; [exact Hs|]. unfold is_block. rewrite Hbt, bool_decide_eq_true_2 by done.
    apply spec_modify. rewrite (on_top_cons _ _ _ _ Hs). apply finish_xact_command_spec. right.
    split; [|cbn; congruence]. split_and!; [exact Hg| | |].
    + eapply unnamed_names; [|exact Hu]. by rewrite Hs.
    + apply left_started. eexists. split; [reflexivity|]. by split_and!.
    + right. eexists. split; [reflexivity|]. by split_and!.
  - apply Hdone. apply live_in_block in H as Hin.
    eapply body_finished; [done|done|done|apply left_live; by eapply xids_live|by left].
  - by specialize (Hexit H).
Qed.

(** The implicit block of a query with several statements. *)
Lemma begin_implicit_spec ui c :
  running c -> (ui = false -> ~ single TBLOCK_IMPLICIT_INPROGRESS c) ->
  spec True (when ui BeginImplicitTransactionBlock : X W unit) c
    (fun _ c' => running c' /\ (failed (stack c') -> failed (stack c)) /\
       (ui = false -> ~ single TBLOCK_IMPLICIT_INPROGRESS c') /\ (ui = true -> in_a_block (stack c') = true)) erred.
Proof.
  intros Hc Hui. destruct (Hc) as (Hg & Hu & Hx & Hr & Hf).
  apply spec_when; intros Hb; [|by split_and!; [..|congruence]].
  unfold BeginImplicitTransactionBlock. destruct Hr as [(t & Hs & (Hbt & Hst & Hl) & Hn)|Hr].
  - apply spec_bind. eapply spec_cur; [exact Hs|]. unfold is_block. rewrite Hbt, bool_decide_eq_true_2 by done.
    apply spec_modify. rewrite (on_top_cons _ _ _ _ Hs).
    split; [|split; [by intros (? & _)|split; [congruence|done]]].
    split_and!; [exact Hg| |exact Hx| |exact Hf].
    + eapply unnamed_names; [|exact Hu]. by rewrite Hs.
    + right; left. eexists. split; [reflexivity|]. by split_and!.
  - assert (Hh : exists t r, stack c = t :: r /\ blockState t <> TBLOCK_STARTED).
    { destruct (Hr) as [(t & Hs & Hbt & _)|[H|H]]; [exists t, []; by rewrite Hbt|..];
        (destruct (stack c) as [|t r]; [done|]; exists t, r; split; [done|]).
      - by destruct (live_head _ _ H) as (_ & _ & [-> | ->]).
      - by destruct r; destruct H as (-> & _). }
    destruct Hh as (t & r & Hs & Hbt). apply spec_bind. eapply spec_cur; [exact Hs|].
    unfold is_block. rewrite bool_decide_eq_false_2 by done. apply spec_ret.
    split; [by split_and!; [..|right|]|]. split; [done|]. split; [congruence|]. intros _. rewrite Hs. cbn. unfold is_block.
    by rewrite bool_decide_eq_false_2.
Qed.

Lemma waiting_erred c : waiting_ok c -> erred c.
Proof. intros (Hg & Hu & _ & Hr & Hf). by apply resting_erred. Qed.

Lemma between_erred c : waiting_ok c \/ running c -> erred c.
Proof. intros [?|?]; [by apply waiting_erred|by apply ready_erred]. Qed.

Lemma resting_head c : resting c -> exists t r, stack c = t :: r.
Proof.
  intros [(t & Hs & _)|[H|H]]; [by exists t, []|..]; (destruct (stack c) as [|t r]; [done|by exists t, r]).
Qed.

Lemma between_head c : waiting_ok c \/ running c -> exists t r, stack c = t :: r.
Proof.
  intros [(_ & _ & _ & Hr & _)|(_ & _ & _ & Hr & _)]; [by apply resting_head|].
  destruct (ready_parallel _ Hr) as (t & r & Hs & _). by exists t, r.
Qed.

Lemma failed_flag c t r :
  stack c = t :: r -> failed (stack c) -> is_block TBLOCK_ABORT t || is_block TBLOCK_SUBABORT t = true.
Proof.
  intros -> Hf. unfold is_block. by destruct r; destruct Hf as (-> & _).
Qed.

Lemma fresh_not_failed c : fresh c -> ~ failed (stack c).
Proof. intros (t & Hs & (Hb & _) & _). rewrite Hs. intros (Hb' & _). congruence. Qed.

Lemma fresh_not_implicit c : fresh c -> ~ single TBLOCK_IMPLICIT_INPROGRESS c.
Proof. intros (t & Hs & (Hb & _) & _) (u & Hs' & Hb' & _). congruence. Qed.

(** The end of a statement, the last one or not. *)
Lemma statement_end_spec ui p (l : list RawStmt) c0 c :
  running c0 -> ran c0 p c -> (failed (stack c0) -> IsTransactionExitStmt p = true) ->
  (ui = false -> l = [] /\ ~ single TBLOCK_IMPLICIT_INPROGRESS c0) ->
  (ui = true -> in_a_block (stack c0) = true) ->
  spec True
    (match l with
     | [] => when ui EndImplicitTransactionBlock;; finish_xact_command E
     | _ :: _ =>
         if is_TransactionStmt p then finish_xact_command E
         else
           c ← get;
           Assert (Z.land (MyXactFlags c) XACT_FLAGS_NEEDIMMEDIATECOMMIT =? 0)
             "!(MyXactFlags & XACT_FLAGS_NEEDIMMEDIATECOMMIT)";;
           CommandCounterIncrement E;;
           calls E [("disable_statement_timeout"%string, [])]
     end) c
    (fun _ c' => waiting_ok c' \/ l <> [] /\ running c') erred.
Proof.
  intros Hc0 Hran Hexit Hui Hin. destruct l as [|q l].
  - eapply spec_mono; [eapply last_statement_spec; [exact Hc0|exact Hran|done|]| |done].
    + intros Hu. by apply Hui.
    + intros [] c' ?. by left.
  - assert (Hu : ui = true) by (destruct ui; [done|by destruct Hui]).
    unfold ran in Hran. destruct (is_TransactionStmt p) eqn:Hp.
    + eapply spec_mono; [apply finish_xact_command_spec; right; exact Hran| |done]. intros [] c' ?. by left.
    + destruct Hran as [Hb Hun]. eapply spec_mono; [eapply next_command_spec; [exact Hc0|by auto| |done|done]| |done].
      * intros Hf. specialize (Hexit Hf). by destruct p.
      * intros [] c' [? _]. by right.
Qed.

Lemma exec_parsetrees_spec ui l c :
  waiting_ok c \/ running c ->
  (ui = false -> (length l <= 1)%nat /\ ~ single TBLOCK_IMPLICIT_INPROGRESS c) ->
  spec True (exec_parsetrees E ui l) c
    (fun _ c' => match l with [] => c' = c | _ => waiting_ok c' end) erred.
Proof.
  revert c. induction l as [|p l IH]; intros c Hc Hui; cbn [exec_parsetrees]; [by apply spec_ret|].
  pose proof (between_erred _ Hc) as He. apply spec_bind, spec_calls; [done| |done].
  destruct (between_head _ Hc) as (t & r & Hs). apply spec_bind.
  unfold IsAbortedTransactionBlockState. apply spec_bind. eapply spec_cur; [exact Hs|]. apply spec_ret.
  destruct (_ && negb _) eqn:Hab; [by apply spec_throw|].
  assert (Hexit : failed (stack c) -> IsTransactionExitStmt p = true).
  { intros Hf. apply (failed_flag _ _ _ Hs) in Hf. rewrite Hf in Hab. by apply negb_false_iff in Hab. }
  apply spec_bind. eapply spec_mono; [by apply start_xact_command_spec| |done]. intros [] c1 [Hc1 Hsame].
  assert (Hni : ui = false -> ~ single TBLOCK_IMPLICIT_INPROGRESS c1).
  { intros Hu. destruct Hsame as [Hfr|Hsame]; [by apply fresh_not_implicit|].
    intros (u & Hsu & ?). apply (proj2 (Hui Hu)). exists u. by rewrite <- Hsame. }
  apply spec_bind. eapply spec_mono; [by apply begin_implicit_spec| |done].
  intros [] c2 (Hc2 & Hf2 & Hni2 & Hin2).
  assert (Hexit2 : failed (stack c2) -> IsTransactionExitStmt p = true).
  { intros Hf%Hf2. destruct Hsame as [Hfr|Hsame]; [by apply fresh_not_failed in Hf|rewrite Hsame in Hf; auto]. }
  apply spec_bind, spec_calls; [done| |intros _; by apply ready_erred].
  apply spec_bind. eapply spec_mono; [by apply exec_portal_spec| |done]. intros [] c3 Hran.
  apply spec_bind. eapply spec_mono; [eapply (statement_end_spec ui p l c2 c3); try done| |done].
  { intros Hu. split; [|auto]. destruct (Hui Hu) as [Hlen _]. by destruct l; [|cbn in Hlen; lia]. }
  intros [] c4 H4. apply spec_bind, spec_calls; [done| |].
  2: { intros _. apply between_erred. tauto. }
  destruct l as [|q l].
  - cbn [exec_parsetrees]. apply spec_ret. by destruct H4 as [?|[? _]].
  - apply IH; [tauto|]. intros Hu. destruct (Hui Hu) as [Hlen _]. cbn in Hlen. lia.
Qed.

Lemma waiting_not_implicit c : waiting_ok c -> ~ single TBLOCK_IMPLICIT_INPROGRESS c.
Proof.
  intros (_ & _ & _ & Hr & _) (t & Hs & Hb & _). destruct Hr as [(u & Hs' & Hb' & _)|[H|H]].
  - congruence.
  - rewrite Hs in H. destruct H as (? & _). congruence.
  - rewrite Hs in H. destruct H as (? & _). congruence.
Qed.

Lemma running_finished c c0 :
  waiting_ok c0 -> running c -> fresh c \/ stack c = stack c0 -> done_stmt c.
Proof.
  intros Hw Hc Hsame. apply running_done; [done|].
  destruct (Hc) as (_ & _ & _ & [H|[H|[H|H]]] & _).
  - by apply left_started, fresh_single.
  - exfalso. destruct Hsame as [Hfr|Hsame]; [by apply fresh_not_implicit in H|].
    apply (waiting_not_implicit _ Hw). destruct H as (t & Hs & ?). exists t. by rewrite <- Hsame.
  - by apply left_live.
  - by apply left_failed.
Qed.

Lemma handle_query_spec q c : waiting_ok c -> spec True (handle_query E q) c (fun _ => waiting_ok) erred.
Proof.
  intros Hc. pose proof (waiting_erred _ Hc) as He. unfold handle_query, exec_simple_query.
  apply spec_bind, spec_sub; [done|intros now|done]. apply spec_bind, spec_modify.
  assert (Hc' : waiting_ok (set_stmtStartTimestamp now c)) by exact Hc. clear Hc He.
  revert Hc'. generalize (set_stmtStartTimestamp now c). clear c. intros c Hc.
  pose proof (waiting_erred _ Hc) as He.
  apply spec_bind, spec_calls; [done| |done].
  apply spec_bind. eapply spec_mono; [apply start_xact_command_spec; by left| |done]. intros [] c1 [Hc1 Hsame].
  apply spec_bind, spec_calls; [done| |intros _; by apply ready_erred].
  apply spec_bind. eapply spec_mono; [apply (exec_parsetrees_spec (1 <? len q) q c1); [by right|]| |done].
  { intros Hu. split; [unfold len in Hu; apply Z.ltb_ge in Hu; lia|].
    destruct Hsame as [?|Hsame]; [by apply fresh_not_implicit|]. intros (t & Hs & ?).
    apply (waiting_not_implicit _ Hc). exists t. by rewrite <- Hsame. }
  intros [] c2 H2. apply spec_bind.
  assert (Hfin : waiting_ok c2 \/ finished c2 /\ xact_started c2 = true).
  { destruct q; [subst; right; by eapply running_finished|by left]. }
  eapply spec_mono; [by apply finish_xact_command_spec| |done]. intros [] c3 Hc3.
  pose proof (waiting_erred _ Hc3) as He3. apply spec_bind.
  apply spec_mono with (Q := fun _ => waiting_ok) (R := erred); [| |done].
  - destruct q; [by apply spec_calls|by apply spec_ret].
  - intros [] c4 Hc4. apply spec_calls; [done|done|]. intros _. by apply waiting_erred.
Qed.

End safety.
