(* ===== verification/XactRefine.v ===== *)
(** The SQL-level view of transactions and its implementation: a backend that
    processes single-statement messages, with no failures in other modules,
    moves between "idle", "in a block" and "in a failed block" with a list of
    savepoints exactly as the statements say. *)
From S2P Require Import Prelude.
From S2P Require Import Xact.
From S2P Require Import XactBlock.
From S2P Require Import SimpleQuery.
From S2P Require Import XactSpec.
From S2P Require Import XactLow.
From S2P Require Import XactInv.
From S2P Require Import XactCommit.
From S2P Require Import XactFrame.
From S2P Require Import XactMarks.
From S2P Require Import XactBody.
From S2P Require Import XactLoop.
Open Scope list_scope.
Open Scope Z_scope.

(** * The abstract machine *)

(** The state a client sees; savepoints innermost first. *)
Inductive sql_state := Idle | Open (savepoints : list string) | Failed (savepoints : list string).

Definition savepoints (a : sql_state) : list string :=
  match a with Idle => [] | Open l | Failed l => l end.

Definition find_sp (n : string) (l : list string) : option nat := fst <$> list_find (fun m => m = n) l.

Definition sql_fail (a : sql_state) : sql_state :=
  match a with Open l => Failed l | _ => a end.

(** The statement ends in an error (see [undecided] for PREPARE). *)
Definition sql_raises (a : sql_state) (p : RawStmt) : bool :=
  match a, p with
  | Failed l, TransStmt (TRANS_STMT_ROLLBACK_TO n) => bool_decide (find_sp n l = None)
  | Failed _, _ => negb (IsTransactionExitStmt p)
  | Idle, TransStmt (TRANS_STMT_COMMIT ch) | Idle, TransStmt (TRANS_STMT_ROLLBACK ch) => ch
  | Idle, TransStmt (TRANS_STMT_SAVEPOINT _ | TRANS_STMT_RELEASE _ | TRANS_STMT_ROLLBACK_TO _) => true
  | Open l, TransStmt (TRANS_STMT_RELEASE n) | Open l, TransStmt (TRANS_STMT_ROLLBACK_TO n) =>
      bool_decide (find_sp n l = None)
  | Open _, TransStmt (TRANS_STMT_COMMIT_PREPARED _ | TRANS_STMT_ROLLBACK_PREPARED _) => true
  | _, TransStmt _ => false
  | Idle, OtherStmt body => raises false body
  | Open _, OtherStmt body => raises true body
  end.

Definition sql_step (a : sql_state) (p : RawStmt) : sql_state :=
  if sql_raises a p then sql_fail a else
  match p with
  | TransStmt (TRANS_STMT_BEGIN _ | TRANS_STMT_START _) =>
      match a with Idle => Open [] | _ => a end
  | TransStmt (TRANS_STMT_COMMIT ch | TRANS_STMT_ROLLBACK ch) => if ch then Open [] else Idle
  | TransStmt (TRANS_STMT_SAVEPOINT n) => Open (n :: savepoints a)
  | TransStmt (TRANS_STMT_RELEASE n) =>
      match find_sp n (savepoints a) with Some k => Open (drop (S k) (savepoints a)) | None => a end
  | TransStmt (TRANS_STMT_ROLLBACK_TO n) =>
      match find_sp n (savepoints a) with Some k => Open (drop k (savepoints a)) | None => a end
  | TransStmt (TRANS_STMT_PREPARE _) => Idle
  | TransStmt (TRANS_STMT_COMMIT_PREPARED _ | TRANS_STMT_ROLLBACK_PREPARED _) => a
  | OtherStmt _ => a
  end.

(** PREPARE TRANSACTION of an open block may be refused (temporary objects,
    exported snapshots); the block is gone either way. *)
Definition undecided_stmt (a : sql_state) (p : RawStmt) : bool :=
  match a, p with Open _, TransStmt (TRANS_STMT_PREPARE _) => true | _, _ => false end.

(** The server is not a standby: statements are not refused for recovery. *)
Definition primary {W} (E : Subsystems W) : Prop :=
  forall args w v w', subsys E "RecoveryInProgress" args w = inl (v, w') -> v = 0.

(** * The relation to the backend's state *)
Definition names_of (a : sql_state) (c : Core) : Prop :=
  map name (stack c) = map Some (savepoints a) ++ [None].

Definition shape (a : sql_state) (c : Core) : Prop :=
  names_of a c /\
  match a with Idle => idle c | Open _ => live (stack c) | Failed _ => failed (stack c) end.

Definition rep (a : sql_state) (c : Core) : Prop :=
  shape a c /\ glob_ok c /\ xact_started c = false /\ flag_pipe c = false.

(** Room in the counters of the current transaction: one more command, one more
    subtransaction, and the XIDs of the open ones in the parent's array. *)
Definition room (c : Core) : Prop :=
  cmd_room c /\ sub_room c /\ xid_load (stack c) <= MaxChildXids.

(** In the middle of a message: the transaction command has been started. *)
Definition active (a : sql_state) (c : Core) : Prop :=
  names_of a c /\
  match a with Idle => fresh c | Open _ => live (stack c) | Failed _ => failed (stack c) end /\
  glob_ok c /\ xact_started c = true /\ flag_pipe c = false /\ room c.

(** An error has been raised, and aborting leads to [a]. *)
Definition failing (a : sql_state) (c : Core) : Prop :=
  names_of a c /\ glob_ok c /\ flag_pipe c = false /\
  match a with
  | Idle => exists t, stack c = [t] /\ recoverable False [t] /\
                      (blockState t = TBLOCK_STARTED \/ blockState t = TBLOCK_PREPARE)
  | Open _ => False
  | Failed _ => live (stack c) \/ failed (stack c)
  end.

Lemma names_unnamed a c : names_of a c -> unnamed c.
Proof. unfold names_of, unnamed. intros ->. by rewrite last_snoc. Qed.

Lemma single_names a c t : stack c = [t] -> unnamed c -> savepoints a = [] -> names_of a c.
Proof. unfold names_of, unnamed. intros -> H ->. cbn in *. by destruct (name t). Qed.

Lemma find_sp_savepoint n a c :
  names_of a c -> find_savepoint n (stack c) = find_sp n (savepoints a).
Proof.
  unfold names_of, find_savepoint, find_sp. generalize (savepoints a). intros l. revert l.
  induction (stack c) as [|t s IH]; intros [|m l] Hn; cbn in Hn; [done..| |].
  - injection Hn as Ht Hs. destruct s; [|done]. cbn. by rewrite decide_False by congruence.
  - injection Hn as Ht Hs. cbn. destruct (decide (m = n)) as [->|Hne].
    + by rewrite !decide_True.
    + rewrite !decide_False by congruence. specialize (IH l Hs).
      destruct (list_find _ s) as [[i u]|], (list_find _ l) as [[j v]|]; cbn in IH |- *; congruence.
Qed.

Section refine.
Context {W : Type} (E : Subsystems W) (Hno : no_failures E).

Local Definition ok : False \/ no_failures E := or_intror Hno.

Lemma calls_ok l c (Q : unit -> Core -> Prop) R : Q tt c -> spec False (calls E l) c Q R.
Proof using Hno. intros HQ. by apply spec_calls; [apply ok|..|intros []]. Qed.

(** ** Recovery *)
Lemma abort_single_spec fuel c t :
  stack c = [t] -> recoverable False [t] -> blockState t = TBLOCK_STARTED \/ blockState t = TBLOCK_PREPARE ->
  glob_ok c ->
  spec False (abort_current E (S fuel)) c (fun _ c' => idle c' /\ same_glob c c') (fun _ => False).
Proof using Hno.
  intros Hs Hr Hb Hg. cbn [abort_current]. apply spec_bind. eapply spec_cur; [exact Hs|].
  assert (H : spec False (AbortTransaction E;; CleanupTransaction E;; to_idle) c
    (fun _ c' => idle c' /\ same_glob c c') (fun _ => False)).
  { eapply spec_mono; [apply (abort_to_idle_spec E False ok c t); try done; by destruct Hb as [-> | ->]|done|].
    by intros c' [? _]. }
  by destruct Hb as [-> | ->].
Qed.

Lemma abort_open_spec fuel c :
  live (stack c) \/ failed (stack c) -> glob_ok c ->
  spec False (abort_current E (S fuel)) c (fun _ c' => failed_same c c') (fun _ => False).
Proof using Hno.
  intros Hl Hg. cbn [abort_current]. destruct (stack c) as [|t [|p r]] eqn:Hs; [by destruct Hl|..];
    (apply spec_bind; eapply spec_cur; [exact Hs|]).
  - destruct Hl as [Hl|Hl].
    + pose proof (live_recoverable False _ Hl) as Hr. destruct Hl as (Hb & _). rewrite Hb.
      eapply spec_mono; [by apply (abort_block_spec E False ok c t)|by intros [] c' ?|by intros c' [? _]].
    + destruct (Hl) as (-> & _). apply spec_ret. split; [by rewrite Hs|]. split; [done|by apply same_glob_refl].
  - destruct Hl as [Hl|Hl].
    + pose proof (live_recoverable False _ Hl) as Hr. destruct Hl as [(Hb & _) _]. rewrite Hb.
      eapply spec_mono; [by apply (abort_savepoint_spec E False ok c t p r)|by intros [] c' ?|by intros c' [? _]].
    + destruct (Hl) as (-> & _). apply spec_ret. split; [by rewrite Hs|]. split; [done|by apply same_glob_refl].
Qed.

Lemma idle_shape c : idle c -> unnamed c -> shape Idle c.
Proof. intros Hi Hu. split; [|done]. destruct Hi as (t & Hs & _). by eapply single_names. Qed.

Lemma glob_pipe c c' : run_glob c c' -> flag_pipe c = false -> flag_pipe c' = false.
Proof. intros (_ & _ & H). by apply run_flags. Qed.

Lemma recover_rep a c :
  failing a c -> spec False (recover E) c (fun _ => rep a) (fun _ => False).
Proof using Hno.
  intros (Hn & Hg & Hp & Ha). unfold recover. pose proof ok as Hok.
  apply spec_bind, spec_calls; [done| |by intros []]. apply spec_bind.
  apply spec_mono with (Q := fun _ c' => shape a c' /\ run_glob c c') (R := fun _ => False); [| |done].
  - unfold AbortCurrentTransaction. apply spec_bind, spec_get. destruct a as [|l|l].
    + destruct Ha as (t & Hs & Hr & Hb).
      eapply spec_mono; [apply (spec_stable _ unnamed); [apply st_abort|by eapply names_unnamed|];
        by eapply abort_single_spec| |by intros c' [? _]].
      intros [] c' [[Hi Hg'] Hu]. split; [by apply idle_shape|by apply same_run].
    + done.
    + eapply spec_mono; [by apply abort_open_spec| |done]. intros [] c' (Hf & Hn' & Hg').
      split; [split; [|done]; unfold names_of; congruence|by apply same_run].
  - intros [] c' [Hs Hr]. apply spec_bind, spec_calls; [done| |by intros []]. apply spec_modify.
    pose proof (glob_pipe _ _ Hr Hp). split; [exact Hs|]. split; [apply Hr|]. by split.
Qed.

(** ** The start of a message *)
Lemma start_active a c :
  rep a c -> (a = Idle \/ room c) ->
  spec False (start_xact_command E) c (fun _ => active a) (fun _ => False).
Proof using Hno.
  intros ((Hn & Ha) & Hg & Hx & Hp) Hroom. pose proof ok as Hok. unfold start_xact_command.
  apply spec_bind, spec_get, spec_bind. rewrite Hx. cbn [negb when]. apply spec_bind.
  assert (Hend : forall c', active a c' -> spec False
    (calls E [("enable_statement_timeout"%string, []); ("enable_timeout_after"%string, [])]) c'
    (fun _ => active a) (fun _ => False)).
  { intros c' H. apply spec_calls; [done|done|by intros []]. }
  assert (Hst : stable unnamed (StartTransactionCommand E)).
  { unfold StartTransactionCommand. frame. }
  destruct a as [|l|l].
  - eapply spec_mono; [apply (spec_stable _ unnamed); [done|by eapply names_unnamed|];
      by apply (start_idle_spec E False ok)| |by intros c' [[? _] _]].
    intros [] c1 [(t & Hs1 & Ht & (Hf1 & Hsub & Hcid & Hused & Hch & Hn1) & Hg1) Hu1].
    apply spec_modify, Hend. split; [by eapply (single_names _ _ t)|].
    split; [exists t; split_and!; [done|apply Ht..|lia]|]. split; [apply Hg1|]. split; [done|].
    split; [unfold flag_pipe; cbn; by rewrite Hf1|].
    unfold room, cmd_room, sub_room. cbn [currentCommandId currentSubTransactionId stack set_xact_started].
    rewrite Hcid, Hsub, Hs1. cbn. rewrite Hch. by vm_compute.
  - destruct Hroom as [?|Hroom]; [done|]. apply start_block_spec; [done|by left| |by intros []].
    apply spec_modify, Hend. exact (conj Hn (conj Ha (conj Hg (conj eq_refl (conj Hp Hroom))))).
  - destruct Hroom as [?|Hroom]; [done|]. apply start_block_spec; [done|by right| |by intros []].
    apply spec_modify, Hend. exact (conj Hn (conj Ha (conj Hg (conj eq_refl (conj Hp Hroom))))).
Qed.

(** ** The end of a statement *)

(** [CommitTransactionCommand] leads from here to [a]; [u]: it may be refused. *)
Definition lands (a : sql_state) (u : bool) (c : Core) : Prop :=
  glob_ok c /\ xact_started c = true /\ flag_pipe c = false /\
  spec False (CommitTransactionCommand E) c (fun _ c' => shape a c' /\ run_glob c c')
    (fun c' => u = true /\ failing a c').

(** What is known in the middle of a message besides the stack. *)
Definition underway (c : Core) : Prop :=
  glob_ok c /\ unnamed c /\ xact_started c = true /\ flag_pipe c = false.

Lemma lands_intro a u c (Q : unit -> Core -> Prop) (R : Core -> Prop) :
  underway c ->
  spec False (commit_command E (S (length (stack c)))) c Q R ->
  (forall c', Q tt c' -> unnamed c' -> shape a c' /\ run_glob c c') ->
  (forall c', R c' -> unnamed c' -> u = true /\ failing a c') -> lands a u c.
Proof.
  intros (Hg & Hu & Hx & Hp) Hspec HQ HR. split_and!; [done|done|done|]. unfold CommitTransactionCommand.
  apply spec_bind, spec_get. eapply spec_mono; [apply (spec_stable _ unnamed); [apply st_commit|exact Hu|exact Hspec]|..].
  - intros [] c' [? ?]. by apply HQ.
  - intros c' [? ?]. by apply HR.
Qed.

Lemma no_commit_err c c' : commit_err False c c' -> False.
Proof. by intros [? _]. Qed.

Lemma chain_shape c b c' : ended_run c b c' -> unnamed c' -> shape (if b then Open [] else Idle) c' /\ run_glob c c'.
Proof.
  intros [Hr He] Hu. split; [|done]. destruct b; [|by apply idle_shape].
  destruct He as (t & Hs & Ht & _). split; [by eapply single_names|]. by rewrite Hs.
Qed.

Lemma lands_started c : underway c -> single TBLOCK_STARTED c -> lands Idle false c.
Proof using Hno.
  intros Hc (t & Hs & Ht). eapply lands_intro; [done|eapply (commit_started_spec E False ok); [exact Hs|done|apply Hc]|..].
  - intros c' [? ?] ?. split; [by apply idle_shape|done].
  - intros c' [H _] _. by apply no_commit_err in H.
Qed.

Lemma lands_begin c : underway c -> single TBLOCK_BEGIN c -> lands (Open []) false c.
Proof.
  intros Hc (t & Hs & Ht). eapply lands_intro; [done|eapply (commit_begin_spec E False); [exact Hs|done|apply Hc]|..].
  - intros c' [(t' & Hs' & Ht') ?] Hu. split; [|done]. split; [by eapply single_names|by rewrite Hs'].
  - intros c' H _. by apply no_commit_err in H.
Qed.

Lemma lands_live l c :
  underway c -> names_of (Open l) c -> live (stack c) -> limits c -> lands (Open l) false c.
Proof using Hno.
  intros Hc Hn Hl Hlim. eapply lands_intro; [done|apply (commit_live_spec E False ok); [done|apply Hc|by right]|..].
  - intros c' (? & Hn' & ?) _. split; [|done]. split; [|done]. unfold names_of. congruence.
  - intros c' H _. by apply no_commit_err in H.
Qed.

Lemma lands_commit c :
  underway c -> committing TBLOCK_END (stack c) -> limits c -> xid_load (stack c) <= MaxChildXids ->
  lands (if top_chain (stack c) then Open [] else Idle) false c.
Proof using Hno.
  intros Hc Hl Hlim Hload. destruct (stack c) as [|t r] eqn:Hs; [done|]. rewrite <- Hs in *.
  eapply lands_intro; [done|eapply (commit_end_spec E False ok _ c t r); [exact Hs|done|rewrite Hs; cbn; lia|apply Hc|by right]|..].
  - intros c' (c1 & Hr & _ & He) Hu. by eapply chain_shape; [eapply ended_to_run|].
  - intros c' H _. by apply no_commit_err in H.
Qed.

Lemma lands_abort c :
  underway c -> aborting (stack c) -> lands (if top_chain (stack c) then Open [] else Idle) false c.
Proof using Hno.
  intros Hc Hl. eapply lands_intro; [done|apply (commit_abort_spec E False ok); [done|lia|apply Hc]|..].
  - intros c' H Hu. by eapply chain_shape.
  - intros c' H _. by apply no_commit_err in H.
Qed.

Lemma lands_prepare c :
  underway c -> committing TBLOCK_PREPARE (stack c) -> limits c -> xid_load (stack c) <= MaxChildXids ->
  lands Idle true c.
Proof using Hno.
  intros Hc Hl Hlim Hload. destruct (stack c) as [|t r] eqn:Hs; [done|]. rewrite <- Hs in *.
  eapply lands_intro; [done|eapply (commit_prepare_spec E False ok _ c t r); [exact Hs|done|rewrite Hs; cbn; lia|apply Hc|by right]|..].
  - intros c' [? ?] ?. split; [by apply idle_shape|done].
  - intros c' [H|(v & Hsv & Hbv & Hrec & Hr)] Hu; [by apply no_commit_err in H|]. split; [done|].
    split; [by eapply single_names|]. split; [apply Hr|]. split; [eapply glob_pipe; [done|apply Hc]|].
    exists v. auto.
Qed.

Lemma names_after l k c c' :
  map name (stack c) = map Some l ++ [None] -> (k <= length l)%nat ->
  map name (stack c') = map name (drop k (stack c)) -> names_of (Open (drop k l)) c'.
Proof.
  intros Hn Hk H. unfold names_of. cbn [savepoints]. rewrite H. rewrite !fmap_drop.
  change (name <$> stack c) with (map name (stack c)). rewrite Hn. rewrite drop_app_le; [done|].
  by rewrite length_fmap.
Qed.

Lemma lands_release l k c :
  underway c -> releasing (stack c) -> limits c -> xid_load (stack c) <= MaxChildXids ->
  map name (after_release (stack c)) = map Some (drop (S k) l) ++ [None] -> lands (Open (drop (S k) l)) false c.
Proof using Hno.
  intros Hc Hl Hlim Hload Hn. eapply lands_intro; [done|apply (commit_release_spec E False ok); [done|lia|apply Hc|by right]|..].
  - intros c' (? & Hn' & ?) _. split; [|done]. split; [|done]. unfold names_of. by rewrite Hn'.
  - intros c' H _. by apply no_commit_err in H.
Qed.

Lemma lands_restart l c :
  underway c -> restarting (stack c) -> sub_room c ->
  map name (after_rollback (stack c)) = map Some l ++ [None] -> lands (Open l) false c.
Proof using Hno.
  intros Hc Hl Hroom Hn. eapply lands_intro; [done|apply (commit_restart_spec E False ok); [done|lia|apply Hc|by right]|..].
  - intros c' (? & Hn' & ?) _. split; [|done]. split; [|done]. unfold names_of. by rewrite Hn'.
  - intros c' H _. by apply no_commit_err in H.
Qed.

Lemma lands_pushed c0 n l r c :
  underway c -> pushed c0 (Some n) r c -> map name r = map Some l ++ [None] -> lands (Open (n :: l)) false c.
Proof using Hno.
  intros Hc Hl Hn. eapply lands_intro; [done|eapply (commit_pushed_spec E False ok); [done|apply Hc]|..].
  - intros c' (? & Hn' & ?) _. split; [|done]. split; [|done]. unfold names_of. rewrite Hn', Hn. done.
  - intros c' H _. by apply no_commit_err in H.
Qed.

(** ** The statements *)
Lemma active_failing a c : active a c -> failing (sql_fail a) c.
Proof.
  intros (Hn & Ha & Hg & Hx & Hp & _). unfold failing. destruct a as [|l|l]; cbn [sql_fail].
  - split_and!; [done|done|done|]. destruct Ha as (t & Hs & (Hb & Hst & Hl) & _). exists t.
    split; [done|]. split; [|by left]. cbn. unfold abort_ready. rewrite Hb. auto.
  - split_and!; [done|done|done|by left].
  - split_and!; [done|done|done|by right].
Qed.

Lemma active_underway a c : active a c -> underway c.
Proof. intros (Hn & _ & Hg & Hx & Hp & _). split_and!; [done|by eapply names_unnamed|done|done]. Qed.

Lemma remarked_underway P c c' : underway c -> remarked P c c' -> underway c'.
Proof.
  intros (Hg & Hu & Hx & Hp) (l & -> & [Hn _] & _). split_and!; [exact Hg| |exact Hx|exact Hp].
  by eapply unnamed_names.
Qed.

Lemma remarked_room P c c' :
  room c -> remarked P c c' -> limits c' /\ sub_room c' /\ xid_load (stack c') <= MaxChildXids /\ P (stack c').
Proof.
  intros (Hc & Hs & Hl) (l & -> & Hr & HP). split; [by apply cmd_room_limits|]. split; [done|].
  split; [|done]. cbn [stack set_stack]. by rewrite (relabels_load _ _ Hr).
Qed.

(** The specification of a statement's execution. *)
Definition stmt_ok (a : sql_state) (p : RawStmt) {A} (m : X W A) (c : Core) : Prop :=
  spec False m c (fun _ c' => sql_raises a p = false /\ lands (sql_step a p) (undecided_stmt a p) c')
    (fun c' => sql_raises a p = true /\ failing (sql_step a p) c').

Lemma stmt_refused a p {A} (m : X W A) c :
  active a c -> sql_raises a p = true ->
  spec False m c (fun _ _ => False) (same c) -> stmt_ok a p m c.
Proof.
  intros Hc Hr Hm. eapply spec_mono; [exact Hm|done|]. intros c' ->. split; [done|].
  unfold sql_step. rewrite Hr. by apply active_failing.
Qed.

Lemma stmt_lands a p {A} (m : X W A) c Q (R : Core -> Prop) :
  spec False m c Q R ->
  (forall x c', Q x c' -> sql_raises a p = false /\ lands (sql_step a p) (undecided_stmt a p) c') ->
  (forall c', R c' -> sql_raises a p = true /\ same c c') -> active a c -> stmt_ok a p m c.
Proof.
  intros Hm HQ HR Hc. eapply spec_mono; [exact Hm|exact HQ|]. intros c' H'. destruct (HR c' H') as [Hr ->].
  split; [done|]. unfold sql_step. rewrite Hr. by apply active_failing.
Qed.

Lemma stmt_commit a ch c :
  active a c -> stmt_ok a (TransStmt (TRANS_STMT_COMMIT ch)) (EndTransactionBlock ch) c.
Proof using Hno.
  intros Hc. pose proof (active_underway _ _ Hc) as Hu. pose proof Hc as (Hn & Ha & _ & _ & _ & Hroom).
  destruct a as [|l|l].
  - eapply stmt_lands; [apply End_started_spec; by apply fresh_single|..|done].
    + intros r c' (_ & -> & Hs & k & -> & [Hk _]). split; [done|]. apply lands_started; [|done].
      destruct Hu as (H1 & H2 & H3 & H4). split_and!; [exact H1|by eapply unnamed_names|exact H3|exact H4].
    + intros c' [-> ?]. by split.
  - eapply stmt_lands; [by apply End_live_spec|..|done]; [|done]. intros r c' [_ Hm]. split; [done|].
    destruct (remarked_room _ _ _ Hroom Hm) as (H1 & _ & H3 & H4 & <-).
    apply lands_commit; [by eapply remarked_underway|done..].
  - eapply stmt_lands; [by apply End_failed_spec|..|done]; [|done]. intros r c' [_ Hm]. split; [done|].
    destruct (remarked_room _ _ _ Hroom Hm) as (_ & _ & _ & H4 & <-).
    apply lands_abort; [by eapply remarked_underway|done].
Qed.

Lemma stmt_rollback a ch c :
  active a c -> stmt_ok a (TransStmt (TRANS_STMT_ROLLBACK ch)) (UserAbortTransactionBlock ch) c.
Proof using Hno.
  intros Hc. pose proof (active_underway _ _ Hc) as Hu. pose proof Hc as (Hn & Ha & _ & _ & _ & Hroom).
  destruct a as [|l|l].
  - eapply stmt_lands; [eapply UserAbort_single_spec; [by left|by apply fresh_single]|..|done].
    + intros r c' [-> Hm]. split; [done|]. destruct (remarked_room _ _ _ Hroom Hm) as (_ & _ & _ & H4 & H5).
      cbn. pose proof (lands_abort c' ltac:(by eapply remarked_underway) H4) as Hl. by rewrite H5 in Hl.
    + intros c' [-> ?]. by split.
  - eapply stmt_lands; [apply UserAbort_spec; by left|..|done]; [|done]. intros r c' Hm. split; [done|].
    destruct (remarked_room _ _ _ Hroom Hm) as (_ & _ & _ & H4 & <-).
    apply lands_abort; [by eapply remarked_underway|done].
  - eapply stmt_lands; [apply UserAbort_spec; by right|..|done]; [|done]. intros r c' Hm. split; [done|].
    destruct (remarked_room _ _ _ Hroom Hm) as (_ & _ & _ & H4 & <-).
    apply lands_abort; [by eapply remarked_underway|done].
Qed.

Lemma stmt_prepare a gid c :
  active a c -> stmt_ok a (TransStmt (TRANS_STMT_PREPARE gid)) (PrepareTransactionBlock gid) c.
Proof using Hno.
  intros Hc. pose proof (active_underway _ _ Hc) as Hu. pose proof Hc as (Hn & Ha & Hg & _ & _ & Hroom).
  destruct a as [|l|l].
  - eapply stmt_lands; [apply Prepare_started_spec; by apply fresh_single|..|done]; [|done].
    intros r c' (_ & Hs & k & -> & [Hk _]). split; [done|]. apply lands_started; [|done].
    destruct Hu as (H1 & H2 & H3 & H4). split_and!; [exact H1|by eapply unnamed_names|exact H3|exact H4].
  - eapply stmt_lands; [by apply Prepare_live_spec|..|done]; [|done]. intros r c' [_ Hm]. split; [done|].
    assert (Hu' : underway (set_prepareGID (Some gid) c)) by exact Hu.
    assert (Hroom' : room (set_prepareGID (Some gid) c)) by exact Hroom.
    destruct (remarked_room _ _ _ Hroom' Hm) as (H1 & _ & H3 & H4).
    apply lands_prepare; [exact (remarked_underway _ _ _ Hu' Hm)|done..].
  - eapply stmt_lands; [by apply Prepare_failed_spec|..|done]; [|done]. intros r c' [_ Hm]. split; [done|].
    destruct (remarked_room _ _ _ Hroom Hm) as (_ & _ & _ & H4 & H5).
    pose proof (lands_abort c' ltac:(by eapply remarked_underway) H4) as Hl. by rewrite H5 in Hl.
Qed.

Lemma body_underway c0 c : underway c0 -> body c0 c -> unnamed c -> underway c.
Proof.
  intros (_ & _ & Hx & Hp) (_ & Hg & H3 & _ & _ & H6 & _) Hu. split_and!; [done|done|congruence|auto].
Qed.

Lemma options_spec l c0 :
  underway c0 ->
  spec False (set_options E l) c0 (fun _ c => body c0 c /\ underway c) (fun _ => False).
Proof using Hno.
  intros Hc. destruct (Hc) as (Hg & Hu & _ & _).
  eapply spec_mono; [apply (spec_stable _ unnamed); [apply st_options|done|];
    apply (set_options_body E False ok l c0 c0); by apply body_refl| |by intros c' [[? _] _]].
  intros [] c [Hb Hu']. split; [done|]. by eapply body_underway.
Qed.

Lemma stmt_begin a p l c :
  p = TransStmt (TRANS_STMT_BEGIN l) \/ p = TransStmt (TRANS_STMT_START l) ->
  active a c -> sql_raises a p = false -> stmt_ok a p (BeginTransactionBlock;; set_options E l) c.
Proof using Hno.
  intros Hp Hc Hr0. pose proof (active_underway _ _ Hc) as Hu. pose proof Hc as (Hn & Ha & Hg & _ & _ & Hroom).
  unfold stmt_ok. unfold sql_step. rewrite Hr0. destruct a as [|k|k].
  - apply spec_bind. eapply spec_mono; [eapply begin_single_spec; [by left|by apply fresh_single]| |done].
    intros [] c1 Hm. pose proof (remarked_underway _ _ _ Hu Hm) as Hu1.
    destruct Hm as (r & -> & _ & t & -> & Ht).
    eapply spec_mono; [by apply options_spec| |done]. intros [] c2 [(Hx & _) Hu2]. split; [done|].
    assert (Hl : lands (Open []) false c2).
    { apply lands_begin; [done|]. eapply xids_single; [exact Hx|]. by exists t. }
    by destruct Hp as [-> | ->].
  - apply spec_bind. eapply spec_mono; [by apply begin_live_spec| |done]. intros [] c1 ->.
    eapply spec_mono; [by apply options_spec| |done].
    intros [] c2 [(Hx & _ & _ & _ & Hcmd & _) Hu2]. split; [done|].
    assert (Hl : lands (Open k) false c2).
    { apply lands_live; [done| |by eapply xids_live|].
      - unfold names_of. by rewrite (proj1 (xids_relabels _ _ Hx)).
      - apply cmd_room_limits, Hcmd, Hroom. }
    by destruct Hp as [-> | ->].
  - by destruct Hp as [-> | ->].
Qed.

(** SAVEPOINT, RELEASE and ROLLBACK TO outside a block. *)
Lemma stmt_require a p s (m : X W unit) c :
  active a c -> (a = Idle -> sql_raises a p = true) -> (a <> Idle -> stmt_ok a p m c) ->
  stmt_ok a p (RequireTransactionBlock true s;; m) c.
Proof.
  intros Hc Hr Hm. pose proof Hc as (Hn & Ha & _). destruct a as [|l|l].
  - apply stmt_refused; [done|auto|]. apply spec_bind. by apply require_fresh_spec.
  - apply require_spec; [by right; right; left| |intros _; by apply Hm].
    intros (t & Hs & (Hb & _) & _). rewrite Hs in Ha. destruct Ha as (? & _). congruence.
  - apply require_spec; [by right; right; right| |intros _; by apply Hm].
    intros Hf. by apply fresh_not_failed in Hf.
Qed.

Lemma stmt_savepoint a n c :
  active a c -> (forall l, a <> Failed l) ->
  stmt_ok a (TransStmt (TRANS_STMT_SAVEPOINT n))
    (RequireTransactionBlock true "SAVEPOINT";; DefineSavepoint E (Some n)) c.
Proof using Hno.
  intros Hc Hnf. apply stmt_require; [done|by intros ->|]. intros Ha.
  pose proof (active_underway _ _ Hc) as Hu. pose proof Hc as (Hn & Hl & Hg & Hx & Hp & (_ & Hroom & _)).
  destruct a as [|l|l]; [done| |by destruct (Hnf l)].
  eapply spec_mono; [apply (spec_stable _ unnamed); [apply st_Define|apply Hu|];
    apply (DefineSavepoint_spec E False ok (Some n) c c); [by right|done|by apply same_glob_refl]|..].
  - intros [] c' [Hpu Hu']. split; [done|]. pose proof Hpu as (u & q & r & _ & _ & _ & _ & _ & _ & Hk).
    apply kept_run in Hk. eapply lands_pushed; [|exact Hpu|exact Hn].
    split_and!; [apply Hk|done|destruct Hk as (_ & ? & _); congruence|by eapply glob_pipe].
  - by intros c' [[? _] _].
Qed.

Lemma find_sp_bound n l k : find_sp n l = Some k -> (k < length l)%nat.
Proof.
  unfold find_sp. destruct (list_find _ l) as [[i m]|] eqn:H; [|done]. intros [= <-].
  apply list_find_Some in H as [H _]. by eapply lookup_lt_Some.
Qed.

Lemma stmt_release a n c :
  active a c -> (forall l, a <> Failed l) ->
  stmt_ok a (TransStmt (TRANS_STMT_RELEASE n))
    (RequireTransactionBlock true "RELEASE SAVEPOINT";; ReleaseSavepoint n) c.
Proof using Hno.
  intros Hc Hnf. apply stmt_require; [done|by intros ->|]. intros Ha.
  pose proof (active_underway _ _ Hc) as Hu. pose proof Hc as (Hn & Hl & Hg & Hx & Hp & Hroom).
  destruct a as [|l|l]; [done| |by destruct (Hnf l)]. pose proof (find_sp_savepoint n _ _ Hn) as Hfind.
  eapply stmt_lands; [apply Release_spec; [done|apply Hu]|..|done].
  - intros [] c' (k & Hk & Hc' & Hrel & Haft). rewrite Hk in Hfind. symmetry in Hfind. cbn [savepoints] in Hfind.
    unfold sql_step. cbn [sql_raises savepoints]. rewrite Hfind. split; [done|].
    rewrite bool_decide_eq_false_2 by done.
    assert (Hm : remarked releasing c c').
    { exists (release_marks k (stack c)). split; [done|]. split; [apply relabels_release|by rewrite Hc' in Hrel]. }
    destruct (remarked_room _ _ _ Hroom Hm) as (H1 & _ & H3 & H4).
    apply lands_release; [by eapply remarked_underway|done..|]. rewrite Haft.
    pose proof (find_sp_bound _ _ _ Hfind).
    rewrite !fmap_drop. change (name <$> stack c) with (map name (stack c)). rewrite Hn.
    rewrite drop_app_le; [done|]. rewrite length_fmap. cbn. lia.
  - intros c' [? Hk]. rewrite Hk in Hfind. cbn [savepoints] in Hfind. split; [|done].
    cbn [sql_raises]. by rewrite <- Hfind.
Qed.

Lemma stmt_rollback_to a n c :
  active a c ->
  stmt_ok a (TransStmt (TRANS_STMT_ROLLBACK_TO n))
    (RequireTransactionBlock true "ROLLBACK TO SAVEPOINT";; RollbackToSavepoint n) c.
Proof using Hno.
  intros Hc. apply stmt_require; [done|by intros ->|]. intros Ha.
  pose proof (active_underway _ _ Hc) as Hu. pose proof Hc as (Hn & Hl & Hg & Hx & Hp & Hroom).
  assert (Hlf : live (stack c) \/ failed (stack c)) by (destruct a; [by destruct Ha|by left|by right]).
  pose proof (find_sp_savepoint n _ _ Hn) as Hfind.
  assert (Hra : sql_raises a (TransStmt (TRANS_STMT_ROLLBACK_TO n)) = bool_decide (find_sp n (savepoints a) = None))
    by (destruct a; [by destruct Ha|done..]).
  eapply stmt_lands; [apply RollbackTo_spec; [done|apply Hu]|..|done].
  - intros [] c' (k & Hk & Hm). rewrite Hk in Hfind. symmetry in Hfind.
    unfold sql_step. rewrite Hra, Hfind. split; [done|]. rewrite bool_decide_eq_false_2 by done.
    destruct (remarked_room _ _ _ Hroom Hm) as (_ & H2 & _ & H4 & H5).
    replace (undecided_stmt a _) with false by by destruct a.
    apply lands_restart; [by eapply remarked_underway|done|done|]. rewrite H5.
    pose proof (find_sp_bound _ _ _ Hfind).
    rewrite !fmap_drop. change (name <$> stack c) with (map name (stack c)). rewrite Hn.
    rewrite drop_app_le; [done|]. rewrite length_fmap. lia.
  - intros c' [? Hk]. rewrite Hk in Hfind. split; [|done]. rewrite Hra, <- Hfind. done.
Qed.

Lemma body_active a c0 c :
  active a c0 -> (forall l, a <> Failed l) -> body c0 c -> active a c.
Proof.
  intros (Hn & Ha & Hg & Hx & Hp & (R1 & R2 & R3)) Hnf (B1 & B2 & B3 & B4 & B5 & B6 & _).
  pose proof (xids_relabels _ _ B1) as Hr.
  split; [unfold names_of; by rewrite (proj1 Hr)|]. split.
  - destruct a as [|l|l]; [| |by destruct (Hnf l)].
    + destruct Ha as (t & Hs & Ht & Hlev). rewrite Hs in B1.
      apply Forall2_cons_inv_l in B1 as (u & k & (x & d & ->) & Hnil & Hs').
      apply Forall2_nil_inv_l in Hnil as ->. eexists. split; [exact Hs'|]. by split.
    + by eapply xids_live.
  - split_and!; [done|congruence|auto|]. split_and!; [auto|auto|]. by rewrite (relabels_load _ _ Hr).
Qed.

Lemma active_accepts a c :
  active a c -> (forall l, a <> Failed l) ->
  accepts (stack c) /\ plain c /\ in_a_block (stack c) = match a with Idle => false | _ => true end.
Proof.
  intros (Hn & Ha & _ & _ & Hp & _) Hnf. destruct a as [|l|l]; [| |by destruct (Hnf l)].
  - destruct Ha as (t & Hs & Ht & Hlev). split_and!.
    + right. exists TBLOCK_STARTED, t. auto.
    + intros u Hu _. rewrite Hs in Hu. by injection Hu as <-.
    + rewrite Hs. cbn. unfold is_block. by rewrite (proj1 Ht).
  - split_and!; [by left| |by apply live_in_block]. intros u Hu Hb. rewrite Hu in Ha. destruct Ha as (? & _). congruence.
Qed.

(** A statement body that succeeds leaves the state as it is. *)
Lemma body_lands a c0 c :
  active a c0 -> (forall l, a <> Failed l) -> body c0 c -> lands a false c.
Proof using Hno.
  intros Ha Hnf Hb. pose proof (body_active _ _ _ Ha Hnf Hb) as Hc.
  pose proof (active_underway _ _ Hc) as Hu. destruct (Hc) as (Hn & Hl & _ & _ & _ & (R1 & _)).
  destruct a as [|l|l]; [| |by destruct (Hnf l)].
  - apply lands_started; [done|by apply fresh_single].
  - apply lands_live; [done..|by apply cmd_room_limits].
Qed.

Lemma stmt_other a l c :
  active a c -> (forall k, a <> Failed k) -> stmt_ok a (OtherStmt l) (perform_all E l) c.
Proof using Hno.
  intros Hc Hnf. destruct (active_accepts _ _ Hc Hnf) as (Hacc & Hpl & Hin).
  assert (Hr : sql_raises a (OtherStmt l) = raises (in_a_block (stack c)) l).
  { rewrite Hin. by destruct a as [|k|k]; [..|by destruct (Hnf k)]. }
  eapply spec_mono; [apply (perform_all_spec E False ok l c c); [done|by right|apply body_refl, Hc]|..].
  - intros [] c' [Hb Hra]. unfold sql_step. rewrite Hr, Hra. split; [done|].
    replace (undecided_stmt a _) with false by by destruct a. by eapply body_lands.
  - intros c' [Hb [?|Hra]]; [done|]. unfold sql_step. rewrite Hr, Hra. split; [done|].
    eapply active_failing, body_active; done.
Qed.

Lemma stmt_prepared a s t l c :
  t = TRANS_STMT_COMMIT_PREPARED s \/ t = TRANS_STMT_ROLLBACK_PREPARED s ->
  active a c -> (forall k, a <> Failed k) ->
  forall msg, stmt_ok a (TransStmt t) (PreventInTransactionBlock true msg;; calls E l) c.
Proof using Hno.
  intros Ht Hc Hnf msg. destruct (active_accepts _ _ Hc Hnf) as (Hacc & Hpl & Hin). pose proof ok as Hok.
  assert (Hr : sql_raises a (TransStmt t) = in_a_block (stack c)).
  { rewrite Hin. by destruct a as [|k|k], Ht as [-> | ->]; [..|destruct (Hnf k)|destruct (Hnf k)]. }
  apply spec_bind. eapply spec_mono; [apply (Prevent_spec False msg c c); [done|by right|apply body_refl, Hc]|..].
  - intros [] c' [Hb Hra]. apply spec_calls; [done| |by intros []]. rewrite Hr, Hra. split; [done|].
    unfold sql_step. rewrite Hr, Hra.
    replace (undecided_stmt a _) with false by by destruct a, Ht as [-> | ->].
    assert (Hl : lands a false c') by by eapply body_lands. by destruct Ht as [-> | ->].
  - intros c' [Hb [?|Hra]]; [done|]. rewrite Hr, Hra. split; [done|]. unfold sql_step. rewrite Hr, Hra.
    eapply active_failing, body_active; done.
Qed.

Context (Hprim : primary E).

Lemma check_read_only_ok t a c :
  active a c -> spec False (check_read_only E t) c (fun _ => same c) (fun _ => False).
Proof using Hno Hprim.
  intros Ha. assert (Hready : ready c).
  { destruct Ha as (_ & Ha & _). destruct a; [by left|by right; right; left|by right; right; right]. }
  destruct (ready_parallel _ Hready) as (s & r & Hs & Hp). unfold check_read_only.
  destruct t; try by apply spec_ret.
  all: apply spec_bind, spec_get, spec_bind; eapply spec_parallel; [exact Hs|exact Hp|];
    rewrite orb_false_r; destruct (ReadOnly (xact_chars c)); [|by apply spec_ret];
    cbn [when]; apply spec_bind, spec_ret; intros x <-; unfold mbind, X_bind, sub;
    destruct (proj1 Hno "RecoveryInProgress"%string [] (world x)) as (v & w & Hv);
    rewrite Hv, (Hprim _ _ _ _ Hv); by split; [|right].
Qed.

Lemma stmt_utility a t c :
  active a c -> (forall l, a = Failed l -> IsTransactionExitStmt (TransStmt t) = true) ->
  stmt_ok a (TransStmt t) (ProcessUtility E t) c.
Proof using Hno Hprim.
  intros Hc Hexit. pose proof ok as Hok. unfold ProcessUtility.
  apply spec_bind, spec_calls; [done| |by intros []].
  apply spec_bind. eapply spec_mono; [by eapply check_read_only_ok| |done]. intros [] c' ->.
  assert (Hr : forall m : X W bool, stmt_ok a (TransStmt t) m c ->
    stmt_ok a (TransStmt t) (r ← m; when (negb r) (calls E [("SetQueryCompletion"%string, [])])) c).
  { intros m Hm. apply spec_bind. eapply spec_mono; [exact Hm| |done]. intros r c' Hd.
    apply spec_when; [intros _; by apply spec_calls; [..|intros []]|done]. }
  assert (Hnf : IsTransactionExitStmt (TransStmt t) = false -> forall l, a <> Failed l).
  { intros Hf l ->. by rewrite (Hexit l eq_refl) in Hf. }
  destruct t.
  - eapply (stmt_begin a); [by left|done|]. destruct a as [|l|l]; [done..|by destruct (Hnf eq_refl l)].
  - eapply (stmt_begin a); [by right|done|]. destruct a as [|l|l]; [done..|by destruct (Hnf eq_refl l)].
  - by apply Hr, stmt_commit.
  - by apply stmt_rollback.
  - apply stmt_savepoint; [done|by apply Hnf].
  - apply stmt_release; [done|by apply Hnf].
  - by apply stmt_rollback_to.
  - by apply Hr, stmt_prepare.
  - eapply stmt_prepared; [by left|done|by apply Hnf].
  - eapply stmt_prepared; [by right|done|by apply Hnf].
Qed.

(** ** A message with one statement *)
Definition raised (a : sql_state) (p : RawStmt) (c : Core) : Prop :=
  failing (sql_step a p) c /\ (sql_raises a p = true \/ undecided_stmt a p = true).

Definition arrived (a : sql_state) (p : RawStmt) (c : Core) : Prop :=
  rep (sql_step a p) c /\ sql_raises a p = false.

Lemma exec_portal_ok a p c :
  active a c -> (forall l, a = Failed l -> IsTransactionExitStmt p = true) ->
  spec False (exec_portal E p) c
    (fun _ c' => sql_raises a p = false /\ lands (sql_step a p) (undecided_stmt a p) c') (raised a p).
Proof using Hno Hprim.
  intros Hc Hexit. unfold exec_portal. pose proof ok as Hok.
  assert (Hw : forall b l c' (Q : unit -> Core -> Prop) R, Q tt c' -> spec False (when b (calls E l)) c' Q R).
  { intros [] l c' Q R HQ; [by apply calls_ok|by apply spec_ret]. }
  apply spec_bind, Hw, spec_bind, calls_ok, spec_bind, Hw, spec_bind, calls_ok, spec_bind.
  assert (Hs : forall m : X W unit, stmt_ok a p m c ->
    spec False m c (fun _ c' => spec False (calls E [("rDestroy"%string, []); ("PortalDrop"%string, [])]) c'
      (fun _ c' => sql_raises a p = false /\ lands (sql_step a p) (undecided_stmt a p) c') (raised a p)) (raised a p)).
  { intros m Hm. eapply spec_mono; [exact Hm|..].
    - intros x c' H. by apply calls_ok.
    - intros c' [? ?]. split; [done|by left]. }
  destruct p as [t|l]; apply Hs.
  - by apply stmt_utility.
  - apply stmt_other; [done|]. intros k ->. by specialize (Hexit k eq_refl).
Qed.

Lemma finish_lands a p c :
  sql_raises a p = false -> lands (sql_step a p) (undecided_stmt a p) c ->
  spec False (finish_xact_command E) c (fun _ => arrived a p) (raised a p).
Proof using Hno.
  intros Hr (Hg & Hx & Hp & Hl). unfold finish_xact_command. pose proof ok as Hok.
  apply spec_bind, spec_calls; [done| |by intros []]. apply spec_bind, spec_get. rewrite Hx. cbn [when].
  apply spec_bind. eapply spec_mono; [exact Hl|..].
  - intros [] c' [Hs Hrun]. apply spec_modify. pose proof (glob_pipe _ _ Hrun Hp). split; [|done].
    split; [exact Hs|]. split; [apply Hrun|]. by split.
  - intros c' [? ?]. split; [done|by right].
Qed.

Lemma finish_again c : xact_started c = false -> spec False (finish_xact_command E) c (fun _ => same c) (fun _ => False).
Proof using Hno.
  intros Hx. pose proof ok as Hok. unfold finish_xact_command.
  apply spec_bind, spec_calls; [done| |by intros []]. apply spec_bind, spec_get. rewrite Hx. by apply spec_ret.
Qed.

Lemma start_again a c : active a c -> spec False (start_xact_command E) c (fun _ => active a) (fun _ => False).
Proof using Hno.
  intros Hc. destruct (Hc) as (_ & _ & _ & Hx & _). pose proof ok as Hok. unfold start_xact_command.
  apply spec_bind, spec_get, spec_bind. rewrite Hx. apply spec_ret. by apply spec_calls; [..|intros []].
Qed.

Lemma aborted_active a c t r :
  active a c -> stack c = t :: r ->
  is_block TBLOCK_ABORT t || is_block TBLOCK_SUBABORT t = match a with Failed _ => true | _ => false end.
Proof.
  intros (_ & Ha & _) Hs. unfold is_block. destruct a as [|l|l].
  - destruct Ha as (u & Hs' & (Hb & _) & _). rewrite Hs in Hs'. injection Hs' as -> ->. by rewrite Hb.
  - rewrite Hs in Ha. by destruct (live_head _ _ Ha) as (_ & _ & [-> | ->]).
  - rewrite Hs in Ha. by destruct r; destruct Ha as (-> & _).
Qed.

Lemma exec_single a p c :
  active a c -> spec False (exec_parsetrees E false [p]) c (fun _ => arrived a p) (raised a p).
Proof using Hno Hprim.
  intros Hc. pose proof ok as Hok. cbn [exec_parsetrees when].
  apply spec_bind, calls_ok, spec_bind. unfold IsAbortedTransactionBlockState. apply spec_bind.
  assert (exists t r, stack c = t :: r) as (t & r & Hs).
  { destruct (Hc) as (Hn & _). unfold names_of in Hn. destruct (stack c) as [|t r]; [|by exists t, r].
    by destruct (savepoints a). }
  eapply spec_cur; [exact Hs|]. apply spec_ret. rewrite (aborted_active _ _ _ _ Hc Hs).
  destruct (_ && _) eqn:Hab.
  { apply spec_throw. destruct a as [|l|l]; [done..|]. cbn [andb] in Hab. apply negb_true_iff in Hab.
    assert (Hr : sql_raises (Failed l) p = true).
    { cbn [sql_raises]. by destruct p as [[]|]; cbn in Hab |- *. }
    split; [|by left]. unfold sql_step. rewrite Hr. by apply (active_failing (Failed l)). }
  apply spec_bind. eapply spec_mono; [by apply start_again| |done]. intros [] c1 Hc1.
  apply spec_bind, spec_ret, spec_bind, calls_ok, spec_bind.
  eapply spec_mono; [apply exec_portal_ok; [exact Hc1|]| |done].
  { intros l ->. cbn [andb] in Hab. by apply negb_false_iff in Hab. }
  intros [] c2 [Hr Hl]. apply spec_bind, spec_bind, spec_ret.
  eapply spec_mono; [by apply finish_lands| |done]. intros [] c3 H3.
  apply spec_bind, calls_ok, spec_ret. exact H3.
Qed.

Lemma handle_one a p c :
  rep a c -> (a = Idle \/ room c) ->
  spec False (handle_query E [p]) c (fun _ => arrived a p) (raised a p).
Proof using Hno Hprim.
  intros Hc Hroom. pose proof ok as Hok. unfold handle_query, exec_simple_query.
  apply spec_bind, spec_sub; [done|intros now|by intros []]. apply spec_bind, spec_modify.
  apply spec_bind, calls_ok, spec_bind.
  eapply spec_mono; [apply (start_active a); [exact Hc|exact Hroom]| |done]. intros [] c1 Hc1.
  apply spec_bind, calls_ok, spec_bind. eapply spec_mono; [by apply exec_single| |done].
  intros [] c2 H2. apply spec_bind. eapply spec_mono; [apply finish_again, H2| |done]. intros [] c3 ->.
  apply spec_bind, spec_ret, calls_ok. exact H2.
Qed.

(** One message, with the recovery from its error. *)
Lemma message_one a p x :
  rep a (core x) -> (a = Idle \/ room (core x)) ->
  exists o x', process_message E [p] x = (inl o, x') /\ rep (sql_step a p) (core x') /\
    internal x' = internal x /\
    match o with
    | None => sql_raises a p = false
    | Some _ => sql_raises a p = true \/ undecided_stmt a p = true
    end.
Proof using Hno Hprim.
  intros Hc Hroom. pose proof (handle_one a p _ Hc Hroom x eq_refl) as H. unfold process_message.
  destruct (handle_query E [p] x) as [[[]|e] x1].
  - destruct H as [[Hr Hq] [?|Hi]]; [done|]. by exists None, x1.
  - assert (Hrec : raised a p (core x1) /\ internal x1 = internal x).
    { destruct e; try done; destruct H as [? H]; [by destruct H as [?|?]|done]. }
    destruct Hrec as [[Hf Hq] Hi]. pose proof (recover_rep _ _ Hf x1 eq_refl) as H2.
    destruct (recover E x1) as [[[]|e2] x2].
    + destruct H2 as [Hr [?|Hi2]]; [done|]. exists (Some e), x2. split_and!; [done|done|congruence|done].
    + destruct e2; try done; by destruct H2.
Qed.

End refine.
