(* ===== verification/XactBracket.v ===== *)
(** Internal subtransactions (PL exception blocks) and
    [AbortOutOfAnyTransaction]. *)
From S2P Require Import Prelude.
From S2P Require Import Xact.
From S2P Require Import XactBlock.
From S2P Require Import XactSpec.
From S2P Require Import XactLow.
From S2P Require Import XactInv.
From S2P Require Import XactCommit.
From S2P Require Import XactFrame.
From S2P Require Import XactMarks.
Open Scope list_scope.
Open Scope Z_scope.

(** Block states in which a function may start an internal subtransaction. *)
Definition hosts (b : TBlockState) : bool :=
  match b with
  | TBLOCK_STARTED | TBLOCK_INPROGRESS | TBLOCK_IMPLICIT_INPROGRESS | TBLOCK_END
  | TBLOCK_PREPARE | TBLOCK_SUBINPROGRESS => true
  | _ => false
  end.

(** Those [RollbackAndReleaseCurrentSubTransaction] accepts on its way out. *)
Definition resumes (b : TBlockState) : bool :=
  match b with
  | TBLOCK_STARTED | TBLOCK_INPROGRESS | TBLOCK_IMPLICIT_INPROGRESS | TBLOCK_SUBINPROGRESS => true
  | _ => false
  end.

Section bracket.
Context {W : Type} (E : Subsystems W) (fails : Prop) (Hfails : fails \/ no_failures E).

(** An internal subtransaction [n] runs on top of the stack [l]. *)
Definition inside (c0 : Core) (n : option string) (l : list TransactionStateData) (c : Core) : Prop :=
  exists u, stack c = u :: l /\ in_block TBLOCK_SUBINPROGRESS TRANS_INPROGRESS u /\ name u = n /\
            childXids u = [] /\ kept_glob c0 c.

Lemma nil_children t t' : childXids t = [] -> same_lvl t t' -> childXids t' = [].
Proof.
  intros H (_ & _ & _ & _ & Hl). rewrite H, len_nil in Hl. destruct (childXids t') as [|x l]; [done|].
  unfold len in Hl. cbn in Hl. lia.
Qed.

Lemma BeginInternal_spec n c p rest :
  stack c = p :: rest -> lvl_ok p -> hosts (blockState p) = true -> glob_ok c -> (fails \/ sub_room c) ->
  spec fails (BeginInternalSubTransaction E n) c (fun _ => inside c n (stack c)) (fun _ => fails).
Proof using Hfails.
  intros Hs Hl Hh Hg Hroom. unfold BeginInternalSubTransaction. apply spec_bind.
  eapply spec_parallel; [exact Hs|apply Hl|]. apply spec_bind. eapply spec_cur; [exact Hs|]. apply spec_bind.
  (* the new level, pushed and named *)
  assert (Hpush : spec fails (push_named E n) c
    (fun _ c1 => exists u, stack c1 = u :: p :: rest /\ in_block TBLOCK_SUBBEGIN TRANS_DEFAULT u /\ name u = n /\
                           chain u = false /\ childXids u = [] /\ kept_glob c c1) (fun _ => fails)).
  { unfold push_named. apply spec_bind.
    eapply spec_mono; [apply (PushTransaction_spec E fails Hfails c p rest (fun t => t = p)); [done|]|..].
    - by apply at_level_self.
    - intros [] c1 (q & u & Hs1 & _ & -> & (Hb & Hst & Hn & Hc & Hlu & Hx & _) & Hg1). destruct n as [n|].
      + apply spec_bind, spec_sub; [done|intros _|done]. apply spec_modify.
        rewrite (on_top_cons _ _ _ _ Hs1). eexists. split; [reflexivity|]. by split_and!.
      + apply spec_ret. exists u. by split_and!.
    - by intros c1 [? _]. }
  assert (Hgo : spec fails (push_named E n) c
    (fun _ c1 => spec fails (CommitTransactionCommand E;; StartTransactionCommand E) c1
       (fun _ => inside c n (stack c)) (fun _ => fails)) (fun _ => fails)).
  { eapply spec_mono; [exact Hpush| |done]. clear Hpush.
    intros [] c1 (u & Hs1 & (Hb & Hst & Hlu) & Hn & Hch & Hx & Hg1). apply spec_bind.
    unfold CommitTransactionCommand. apply spec_bind, spec_get. cbn [commit_command]. apply spec_bind.
    eapply spec_cur; [exact Hs1|]. rewrite Hch. apply spec_bind, spec_ret. rewrite Hb. apply spec_bind.
    eapply spec_mono; [apply (StartSubTransaction_spec E fails Hfails c1 u p rest)|..].
    - apply at_level_self; [done|done|apply Hg1|by right].
    - intros [] c2 (u2 & Hs2 & Hl2 & Hst2 & [Hg2 _]). apply spec_modify.
      rewrite (on_top_cons _ _ _ _ Hs2). unfold StartTransactionCommand. apply spec_bind.
      eapply spec_cur; [reflexivity|]. apply spec_bind, spec_ret.
      apply spec_calls; [done| |by intros ?]. eexists. rewrite Hs. split; [reflexivity|].
      pose proof (nil_children _ _ Hx Hl2). destruct Hl2 as (_ & Hn2 & _ & Hok2 & _).
      split; [by split_and!|]. split; [by rewrite <- Hn|]. split; [done|].
      eapply kept_glob_trans; [exact Hg1|exact Hg2].
    - by intros c2 [? _]. }
  unfold hosts in Hh. by destruct (blockState p).
Qed.

(** Releasing it: the level below gets its XIDs and nothing else. *)
Lemma ReleaseCurrent_spec c0 n c p rest :
  inside c0 n (p :: rest) c -> lvl_ok p -> state p = TRANS_INPROGRESS ->
  (fails \/ limits c /\ len (childXids p) + 1 <= MaxChildXids) ->
  spec fails (ReleaseCurrentSubTransaction E) c
    (fun _ c' => exists p', stack c' = p' :: rest /\ child_only (len (childXids p) + 1) p p' /\ kept_glob c0 c')
    (fun _ => fails).
Proof using Hfails.
  intros (u & Hs & (Hb & Hst & Hl) & Hn & Hx & Hg) Hp Hsp Hroom. unfold ReleaseCurrentSubTransaction.
  apply spec_bind. eapply spec_parallel; [exact Hs|apply Hl|]. apply spec_bind. eapply spec_cur; [exact Hs|].
  unfold is_block, is_state. rewrite Hb, Hst. rewrite !bool_decide_eq_true_2 by done. cbn [negb].
  apply spec_bind, spec_assert; [done|]. apply spec_bind, spec_sub; [done|intros _|done]. apply spec_bind.
  eapply spec_mono; [apply (CommitSubTransaction_spec E fails Hfails c u p rest)|..].
  - rewrite Hx, len_nil. destruct Hroom as [?|[? ?]]; [by left|right]. split; [done|]. lia.
  - apply at_level_self; [done|done|apply Hg|by right].
  - rewrite Hx, len_nil. intros [] c1 (p' & Hp' & Hs1 & [Hg1 _]). apply spec_bind.
    eapply spec_cur; [exact Hs1|]. apply spec_assert.
    + destruct Hp' as (? & ? & -> & _). by apply bool_decide_eq_true_2.
    + exists p'. split_and!; [done|done|by eapply kept_glob_trans].
  - by intros c1 [? _].
Qed.

(** Rolling it back restores the stack. *)
Lemma RollbackCurrent_spec c0 n c p rest :
  inside c0 n (p :: rest) c -> resumes (blockState p) = true ->
  spec fails (RollbackAndReleaseCurrentSubTransaction E) c
    (fun _ c' => stack c' = p :: rest /\ kept_glob c0 c') (fun _ => fails).
Proof using Hfails.
  intros (u & Hs & (Hb & Hst & Hl) & Hn & Hx & Hg) Hp. unfold RollbackAndReleaseCurrentSubTransaction.
  apply spec_bind. eapply spec_cur; [exact Hs|]. rewrite Hb. apply spec_bind, spec_ret.
  replace (is_block TBLOCK_SUBINPROGRESS u) with true by (symmetry; by apply bool_decide_eq_true_2). cbn [when].
  eapply pop_aborted_spec; [done|exact Hs|done|apply Hg|by right|..].
  - intros c1 Hs1 [Hg1 _]. apply spec_bind. eapply spec_cur; [exact Hs1|]. apply spec_assert.
    + unfold resumes, is_block in *. by destruct (blockState p).
    + split; [done|by eapply kept_glob_trans].
  - by intros c1 ? _.
Qed.

(** * [AbortOutOfAnyTransaction] *)

(** One turn of its loop ends the transaction or pops a level. *)
Definition lower (c0 c : Core) : Prop :=
  same_glob c0 c /\ (idle c \/ recoverable fails (stack c) /\ S (length (stack c)) = length (stack c0)).

Lemma recoverable_tail t p rest : recoverable fails (t :: p :: rest) -> recoverable fails (p :: rest).
Proof.
  intros (_ & _ & [[_ ?]|[(_ & _ & ?)|[_ ?]]]); [by apply live_recoverable..|done].
Qed.

Lemma abort_one_top c t :
  stack c = [t] -> recoverable fails [t] -> glob_ok c ->
  spec fails (abort_one E) c (fun _ => lower c) (fun _ => fails).
Proof using Hfails.
  intros Hs Hr Hg. pose proof Hr as (Hb & Hl & Ha). unfold abort_one. apply spec_bind.
  eapply spec_cur; [exact Hs|].
  assert (H1 : blockState t <> TBLOCK_ABORT -> blockState t <> TBLOCK_ABORT_END ->
    spec fails (AbortTransaction E;; CleanupTransaction E;; to_idle) c (fun _ => lower c) (fun _ => fails)).
  { intros ??. eapply spec_mono; [by apply (abort_to_idle_spec E fails Hfails c t)|..].
    - intros [] c' [? ?]. split; [done|by left].
    - by intros c' [? _]. }
  assert (H2 : state t = TRANS_ABORT ->
    spec fails (sub E "AtAbort_Portals" [];; CleanupTransaction E;; to_idle) c (fun _ => lower c) (fun _ => fails)).
  { intros Hst. apply spec_bind, spec_sub; [done|intros _|done]. apply spec_bind.
    eapply spec_mono; [apply (CleanupTransaction_spec E fails Hfails c t); by apply at_level_self|..].
    - intros [] c' H'. eapply spec_mono; [by apply (to_idle_spec fails c t)|..].
      + intros [] c2 [? ?]. split; [done|by left].
      + intros c2 H2. exact H2.
    - by intros c' [? _]. }
  unfold abort_ready in Ha. destruct (blockState t); try done; auto.
Qed.

Lemma abort_one_sub c t p rest :
  stack c = t :: p :: rest -> recoverable fails (t :: p :: rest) -> glob_ok c ->
  spec fails (abort_one E) c (fun _ => lower c) (fun _ => fails).
Proof using Hfails.
  intros Hs Hr Hg. pose proof Hr as (Hl & Ha & Hcase). pose proof (recoverable_tail _ _ _ Hr) as Ht.
  unfold abort_one. apply spec_bind. eapply spec_cur; [exact Hs|].
  assert (Hend : forall c', stack c' = p :: rest -> same_glob c c' -> lower c c').
  { intros c' Hs' Hg'. split; [done|right]. by rewrite Hs', Hs. }
  assert (H1 : fails \/ state t = TRANS_INPROGRESS ->
    spec fails (AbortSubTransaction E;; CleanupSubTransaction E) c (fun _ => lower c) (fun _ => fails)).
  { intros Hst. apply spec_unret. eapply pop_aborted_spec; [done|exact Hs|done|done|done|..].
    - intros c' Hs' Hg'. apply spec_ret. auto.
    - by intros. }
  assert (H2 : fails \/ state t = TRANS_ABORT ->
    spec fails ((match curTransactionOwner t with
       | Some o => p ← parent_state;
                   calls E [("AtSubAbort_Portals"%string, [subTransactionId t; subTransactionId p; o;
                                                    owner_id (curTransactionOwner p)])]
       | None => mret tt
       end);; CleanupSubTransaction E) c (fun _ => lower c) (fun _ => fails)).
  { intros Hst. apply spec_bind.
    assert (H : spec fails (CleanupSubTransaction E) c (fun _ => lower c) (fun _ => fails)).
    { apply spec_unret1. eapply pop_cleaned_spec; [done|exact Hs|done|done|done|..].
      - intros c' Hs' Hg'. apply spec_ret. auto.
      - by intros. }
    destruct (curTransactionOwner t); [|by apply spec_ret].
    apply spec_bind. eapply spec_parent; [exact Hs|]. by apply spec_calls. }
  unfold abort_ready in Ha.
  destruct Hcase as [[Hb _]|[(Hb & _)|[Hm _]]]; [rewrite Hb in *; auto..|].
  destruct (blockState t); try done; auto.
Qed.

Lemma recoverable_head l : recoverable fails l -> exists t r, l = t :: r /\ is_block TBLOCK_DEFAULT t = false.
Proof.
  destruct l as [|t [|p r]]; [done|..].
  - intros (Hb & _). exists t, []. split; [done|]. apply bool_decide_eq_false_2.
    intros Hd. by rewrite Hd in Hb.
  - intros (_ & _ & H). exists t, (p :: r). split; [done|]. apply bool_decide_eq_false_2. intros Hd.
    rewrite Hd in H. by destruct H as [[? _]|[[? _]|[? _]]].
Qed.

Lemma idle_head c : idle c -> exists t, stack c = [t] /\ is_block TBLOCK_DEFAULT t = true.
Proof. intros (t & Hs & Hb & _). exists t. split; [done|]. by apply bool_decide_eq_true_2. Qed.

Lemma abort_out_spec fuel c :
  recoverable fails (stack c) -> glob_ok c -> (length (stack c) <= fuel)%nat ->
  spec fails (abort_out E fuel) c (fun _ c' => idle c' /\ same_glob c c') (fun _ => fails).
Proof using Hfails.
  revert c. induction fuel as [|fuel IH]; intros c Hr Hg Hlen.
  { apply recoverable_nonempty in Hr. by destruct (stack c); [|cbn in Hlen; lia]. }
  cbn [abort_out]. apply spec_bind.
  assert (Hone : spec fails (abort_one E) c (fun _ => lower c) (fun _ => fails)).
  { destruct (stack c) as [|t [|p rest]] eqn:Hs; [done|by apply (abort_one_top c t)|by apply (abort_one_sub c t p rest)]. }
  eapply spec_mono; [exact Hone| |done]. intros [] c1 [Hg1 [Hi|[Hr1 Hl1]]]; apply spec_bind.
  - destruct (idle_head _ Hi) as (t & Hs & Hd). eapply spec_cur; [exact Hs|]. rewrite Hd. by apply spec_ret.
  - destruct (recoverable_head _ Hr1) as (t & r & Hs & Hd). eapply spec_cur; [exact Hs|]. rewrite Hd.
    eapply spec_mono; [apply IH; [done|apply Hg1|lia]| |done].
    intros [] c2 [? ?]. split; [done|by eapply same_glob_trans].
Qed.

Lemma abort_out_any c :
  resting c -> glob_ok c ->
  spec fails (AbortOutOfAnyTransaction E) c (fun _ c' => idle c' /\ same_glob c c') (fun _ => fails).
Proof using Hfails.
  intros Hr Hg. unfold AbortOutOfAnyTransaction. apply spec_bind, spec_sub; [done|intros _|done].
  apply spec_bind, spec_get, spec_bind.
  apply spec_mono with (Q := fun _ c' => idle c' /\ same_glob c c') (R := fun _ => fails); [| |done].
  - assert (Hrec : recoverable fails (stack c) -> spec fails (abort_out E (S (length (stack c)))) c
      (fun _ c' => idle c' /\ same_glob c c') (fun _ => fails)).
    { intros H. apply abort_out_spec; [done|done|lia]. }
    destruct Hr as [Hi|[Hl|Hf]].
    + cbn [abort_out]. destruct (Hi) as (t & Hs & Hb & Hst & _). apply spec_bind. unfold abort_one, abort_default.
      apply spec_bind. eapply spec_cur; [exact Hs|]. rewrite Hb. apply spec_bind. eapply spec_cur; [exact Hs|].
      unfold is_state. rewrite Hst. cbn. apply spec_ret, spec_bind. eapply spec_cur; [exact Hs|].
      unfold is_block. rewrite Hb. cbn. apply spec_ret. split; [done|by apply same_glob_refl].
    + by apply Hrec, live_recoverable.
    + apply Hrec. destruct (stack c) as [|t [|p l]]; [done|..].
      * destruct Hf as (Hb & Hs & Hl). cbn. unfold abort_ready. by rewrite Hb.
      * destruct Hf as (Hb & Hs & Hl & Hlive). split; [done|]. unfold abort_ready. rewrite Hb.
        split; [by right|]. right; left. by split_and!.
  - intros [] c' [Hi Hg']. apply spec_bind, spec_bind, spec_get, spec_assert.
    + destruct Hi as (t & Hs & _). by rewrite Hs.
    + by apply spec_calls.
Qed.

End bracket.
