(* ===== verification/XactProps.v ===== *)
(** The properties of the transaction manager and of simple-query processing,
    with concrete runs that witness their hypotheses. *)
From Stdlib Require Import Ascii.
From stdpp Require Import relations.
From S2P Require Import Prelude.
From S2P Require Import Xact.
From S2P Require Import XactBlock.
From S2P Require Import SimpleQuery.
From S2P Require Import XactSpec.
From S2P Require Import XactLow.
From S2P Require Import XactInv.
From S2P Require Import XactCommit.
From S2P Require Import XactFrame.
From S2P Require Import XactMarks.
From S2P Require Import XactBody.
From S2P Require Import XactLoop.
From S2P Require Import XactRefine.
From S2P Require Import XactBracket.
Open Scope list_scope.
Open Scope Z_scope.

(** * Concrete modules for the witnesses *)

(** Every call succeeds; XIDs are handed out in order. *)
Definition sound_modules : Subsystems Z := {|
  subsys := fun f args w => inl (if String.eqb f "GetNewTransactionId" then w + 3 else 0, w + 1);
  portal_rounds := 1 |}.

(** As [sound_modules], but the call [f] raises an error. *)
Definition failing_module (f : string) : Subsystems Z := {|
  subsys := fun g args w => if String.eqb f g then inr "injected"%string else subsys sound_modules g args w;
  portal_rounds := 1 |}.

Definition read_committed : Characteristics := {| IsoLevel := 1; ReadOnly := false; Deferrable := false |}.

Definition boot {W} (defaults : Characteristics) (w : W) : Xact W :=
  mkXact (boot_core defaults) w [] [].

Lemma sound_no_failures : no_failures sound_modules.
Proof.
  split; [|split].
  - intros f args w. by eexists _, _.
  - by exists 0%nat.
  - intros args w v w' [= <- _]. reflexivity.
Qed.

Lemma sound_primary : primary sound_modules.
Proof. intros args w v w' [= <- _]. reflexivity. Qed.

(** The state after some messages, each a list of statements. *)
Fixpoint after {W} (E : Subsystems W) (l : list (list RawStmt)) (x : Xact W) : Xact W :=
  match l with
  | [] => x
  | q :: l => after E l (snd (process_message E q x))
  end.

Definition sp_session : list (list RawStmt) :=
  [[TransStmt (TRANS_STMT_BEGIN [transaction_isolation 3])];
   [OtherStmt [UseCommandId; NeedXid]];
   [TransStmt (TRANS_STMT_SAVEPOINT "a")];
   [OtherStmt [UseCommandId; NeedXid]];
   [TransStmt (TRANS_STMT_SAVEPOINT "b")]].

(** Two savepoints are open. *)
Definition in_savepoints : Xact Z := after sound_modules sp_session (boot read_committed 0).

Lemma in_savepoints_rep : rep (Open ["b"; "a"]%string) (core in_savepoints).
Proof. vm_compute. repeat split. Qed.

Lemma in_savepoints_room : room (core in_savepoints).
Proof. by vm_compute. Qed.

(** * The invariant of the message loop *)
Section reachable.
Context {W : Type} (E : Subsystems W).

Definition loop_ok (s : phase * Xact W) : Prop :=
  match fst s with Waiting => waiting_ok (core (snd s)) | Recovering => erred (core (snd s)) end.

Lemma boot_ok defaults (w : W) : loop_ok (Waiting, boot defaults w).
Proof.
  unfold loop_ok, waiting_ok. cbn. split; [by repeat split|]. split; [done|]. split; [done|]. split; [|by left].
  left. eexists. split; [reflexivity|]. by repeat split.
Qed.

(** The exits that the code itself calls impossible. *)
Definition internal_exit (e : exit) : bool :=
  match e with EElog _ | EFatal _ | EAssert _ => true | _ => false end.

Lemma spec_exit {A} (m : X W A) c Q (R : Core -> Prop) x :
  spec True m c Q R -> core x = c ->
  match m x with
  | (inl a, x') => Q a (core x')
  | (inr e, x') => internal_exit e = false /\ R (core x')
  end.
Proof. intros H Hx. specialize (H x Hx). destruct (m x) as [[a|[]] x']; tauto. Qed.

Lemma query_exit q x :
  waiting_ok (core x) ->
  match handle_query E q x with
  | (inl a, x') => waiting_ok (core x')
  | (inr e, x') => internal_exit e = false /\ erred (core x')
  end.
Proof. intros H. exact (spec_exit _ _ _ _ x (handle_query_spec E q _ H) eq_refl). Qed.

Lemma recover_exit x :
  erred (core x) ->
  match recover E x with
  | (inl a, x') => waiting_ok (core x')
  | (inr e, x') => internal_exit e = false /\ erred (core x')
  end.
Proof. intros H. exact (spec_exit _ _ _ _ x (recover_spec E _ H) eq_refl). Qed.

Lemma step_ok s s' : step E s s' -> loop_ok s -> loop_ok s'.
Proof.
  destruct 1 as [q x x' H|q x e x' H|x x' H|x e x' H]; unfold loop_ok; cbn; intros Hok.
  - pose proof (query_exit q _ Hok) as Hq. by rewrite H in Hq.
  - pose proof (query_exit q _ Hok) as Hq. rewrite H in Hq. apply Hq.
  - pose proof (recover_exit _ Hok) as Hq. by rewrite H in Hq.
  - pose proof (recover_exit _ Hok) as Hq. rewrite H in Hq. apply Hq.
Qed.

Lemma reachable_ok s s' : rtc (step E) s s' -> loop_ok s -> loop_ok s'.
Proof. induction 1 as [|s1 s2 s3 H _ IH]; [done|]. intros Hok. by eapply IH, step_ok. Qed.

End reachable.

(** C6. For messages of transaction statements and of statements whose effect on
    the transaction manager is a list of [action]s (they open no internal
    subtransaction and do not enter parallel mode): whatever the other modules do
    (any of their calls may raise an error at any moment, also during commit,
    abort and recovery), a backend that waits for a message is outside any
    transaction, in a live block with its savepoints or in a failed block, and
    nothing of a command is pending; and when it is in the error handler, its
    state is one that [AbortCurrentTransaction] can bring to rest.  (With internal
    subtransactions it would need that their rollback does not fail: see the section
    on them below.) *)
Theorem backend_invariant {W} (E : Subsystems W) defaults (w : W) ph x :
  rtc (step E) (Waiting, boot defaults w) (ph, x) ->
  match ph with
  | Waiting => resting (core x) /\ xact_started (core x) = false /\ unnamed (core x)
  | Recovering => abortable True (core x)
  end.
Proof.
  intros H. pose proof (reachable_ok E _ _ H (boot_ok defaults w)) as Hok. destruct ph; unfold loop_ok in Hok; cbn in Hok.
  - destruct Hok as (_ & Hu & Hx & Hr & _). auto.
  - apply Hok.
Qed.

(** A backend whose commit fails in the middle. *)
Definition commit_fails : Subsystems Z := failing_module "AtEOXact_Inval".

Lemma commit_fails_run :
  rtc (step commit_fails) (Waiting, boot read_committed 0)
    (Recovering, snd (handle_query commit_fails [OtherStmt [UseCommandId; NeedXid]] (boot read_committed 0))).
Proof.
  eapply rtc_once, (step_query_error _ [OtherStmt [UseCommandId; NeedXid]] _ (EReport "injected")).
  vm_compute. reflexivity.
Qed.

Lemma backend_invariant_witness :
  rtc (step commit_fails) (Waiting, boot read_committed 0)
    (Recovering, snd (handle_query commit_fails [OtherStmt [UseCommandId; NeedXid]] (boot read_committed 0))) /\
  abortable True
    (core (snd (handle_query commit_fails [OtherStmt [UseCommandId; NeedXid]] (boot read_committed 0)))).
Proof.
  split; [exact commit_fails_run|]. exact (backend_invariant commit_fails read_committed 0 Recovering _ commit_fails_run).
Defined.

(** C7. For the same messages (no statement opens an internal subtransaction or
    enters parallel mode), whatever calls into other modules fail: in no reachable
    state does processing a message or running the error handler end in one of the
    exits the code calls impossible, elog(ERROR) and elog(FATAL) of xact.c
    ("unexpected state", "cannot abort during a parallel operation", ...) and its
    Asserts, the one in [exec_simple_query] on [XACT_FLAGS_NEEDIMMEDIATECOMMIT]
    included.  Internal subtransactions can reach such exits: see the section on
    them below. *)
Theorem no_impossible_exit {W} (E : Subsystems W) defaults (w : W) ph x q e :
  rtc (step E) (Waiting, boot defaults w) (ph, x) ->
  (ph = Waiting /\ fst (handle_query E q x) = inr e \/ ph = Recovering /\ fst (recover E x) = inr e) ->
  internal_exit e = false.
Proof.
  intros H He. pose proof (reachable_ok E _ _ H (boot_ok defaults w)) as Hok.
  destruct He as [[-> He]|[-> He]]; unfold loop_ok in Hok; cbn in Hok.
  - pose proof (query_exit E q x Hok) as Hq. destruct (handle_query E q x) as [[a|e'] x'] eqn:Hh; [done|].
    injection He as ->. apply Hq.
  - pose proof (recover_exit E x Hok) as Hq. destruct (recover E x) as [[a|e'] x'] eqn:Hh; [done|].
    injection He as ->. apply Hq.
Qed.

Lemma no_impossible_exit_witness :
  (Waiting = Waiting /\
   fst (handle_query commit_fails [OtherStmt [NotInBlock "VACUUM"]] (boot read_committed 0)) = inr (EReport "injected")) /\
  internal_exit (EReport "injected") = false.
Proof.
  assert (He : fst (handle_query commit_fails [OtherStmt [NotInBlock "VACUUM"]] (boot read_committed 0))
    = inr (EReport "injected")) by (vm_compute; reflexivity).
  split; [split; [reflexivity|exact He]|].
  exact (no_impossible_exit commit_fails read_committed 0 Waiting (boot read_committed 0)
    [OtherStmt [NotInBlock "VACUUM"]] (EReport "injected") (rtc_refl _ _) (or_introl (conj eq_refl He))).
Defined.

(** C5. Refinement: a backend on a primary server, with no failures in other
    modules, implements the SQL transaction state machine [sql_step] (idle, in a
    block, in a failed block, with the stack of savepoints).  A message with any
    one statement, from any state that represents [a] and has room in its
    counters, is processed to the end, its error (if it raises one) is recovered
    from, the new state represents [sql_step a p], and no elog(WARNING) is
    issued; the statement fails exactly when [sql_raises] says so, but for
    PREPARE TRANSACTION of an open block, which may be refused. *)
Theorem message_refines_sql {W} (E : Subsystems W) a p x :
  no_failures E -> primary E -> rep a (core x) -> a = Idle \/ room (core x) ->
  exists o x', process_message E [p] x = (inl o, x') /\ rep (sql_step a p) (core x') /\
    internal x' = internal x /\
    match o with
    | None => sql_raises a p = false
    | Some _ => sql_raises a p = true \/ undecided_stmt a p = true
    end.
Proof. intros Hno Hprim. by apply message_one. Qed.

Lemma message_refines_sql_witness :
  rep (Open ["b"; "a"]%string) (core in_savepoints) /\
  exists o x', process_message sound_modules [TransStmt (TRANS_STMT_ROLLBACK_TO "a")] in_savepoints = (inl o, x') /\
    rep (Open ["a"]%string) (core x') /\ internal x' = internal in_savepoints /\
    match o with
    | None => sql_raises (Open ["b"; "a"]%string) (TransStmt (TRANS_STMT_ROLLBACK_TO "a")) = false
    | Some _ => sql_raises (Open ["b"; "a"]%string) (TransStmt (TRANS_STMT_ROLLBACK_TO "a")) = true \/ False
    end.
Proof.
  split; [exact in_savepoints_rep|].
  destruct (message_refines_sql sound_modules (Open ["b"; "a"]%string) (TransStmt (TRANS_STMT_ROLLBACK_TO "a"))
    in_savepoints sound_no_failures sound_primary in_savepoints_rep (or_intror in_savepoints_room))
    as (o & x' & H1 & H2 & H3 & H4).
  exists o, x'. split; [exact H1|]. split; [exact H2|]. split; [exact H3|].
  destruct o; [destruct H4 as [H4|H4]; [left; exact H4|discriminate H4]|exact H4].
Defined.

(** The status byte of ReadyForQuery tells the SQL state: I when idle, T in a
    block, E in a failed block; and the predicates the rest of the server asks
    ([IsTransactionState], [IsTransactionBlock],
    [IsAbortedTransactionBlockState]) agree with it. *)
Theorem status_tells_state {W} (x : Xact W) a :
  rep a (core x) ->
  TransactionBlockStatusCode x = (inl match a with Idle => "I" | Open _ => "T" | Failed _ => "E" end%char, x) /\
  IsTransactionBlock x = (inl match a with Idle => false | _ => true end, x) /\
  IsAbortedTransactionBlockState x = (inl match a with Failed _ => true | _ => false end, x) /\
  IsTransactionState x = (inl match a with Open _ => true | _ => false end, x).
Proof.
  intros ((_ & Ha) & _). unfold TransactionBlockStatusCode, IsTransactionBlock, IsAbortedTransactionBlockState,
    IsTransactionState, CurrentTransactionState, mbind, X_bind. cbn. unfold is_block, is_state.
  destruct a as [|l|l].
  - destruct Ha as (t & -> & Hb & Hs & _). cbn. by rewrite Hb, Hs.
  - destruct (stack (core x)) as [|t [|p r]]; [done|..]; cbn.
    + destruct Ha as (Hb & Hs & _). by rewrite Hb, Hs.
    + destruct Ha as [(Hb & Hs & _) _]. by rewrite Hb, Hs.
  - destruct (stack (core x)) as [|t [|p r]]; [done|..]; cbn; destruct Ha as (Hb & Hs & _); by rewrite Hb, Hs.
Qed.

Lemma status_tells_state_witness :
  rep (Open ["b"; "a"]%string) (core in_savepoints) /\
  fst (TransactionBlockStatusCode in_savepoints) = inl "T"%char.
Proof.
  split; [exact in_savepoints_rep|].
  rewrite (proj1 (status_tells_state in_savepoints _ in_savepoints_rep)). reflexivity.
Defined.

(** * COMMIT AND CHAIN *)
Section chain.
Context {W : Type} (E : Subsystems W) (Hno : no_failures E).

(** COMMIT leaves the chain flag of a subtransaction as it is: the flag it sets
    is the outermost level's. *)
Lemma end_head_chain v c t p r :
  stack c = t :: p :: r -> live (stack c) ->
  spec (W := W) False (EndTransactionBlock v) c
    (fun _ c' => exists u l, stack c' = u :: l /\ chain u = chain t) (fun _ => False).
Proof.
  intros Hs Hl. destruct (mark_commit _ Hl) as (l & Hm & Hc). unfold EndTransactionBlock. apply spec_bind.
  eapply spec_cur; [exact Hs|]. pose proof Hl as Hl'. rewrite Hs in Hl'. rewrite (live_cons _ _ _ Hl').
  apply spec_bind, spec_bind. eapply spec_mark; [exact Hm|]. apply spec_ret.
  destruct (committing_last _ _ Hc) as (u & Hu & Hbu). apply spec_bind.
  eapply spec_outermost; [exact Hu|rewrite Hbu; repeat constructor|]. apply spec_bind, spec_top_chain, spec_ret.
  cbn [stack set_stack]. pose proof (relabels_mark pending_commit pending_commit_top (stack c)) as Hr.
  rewrite Hs, mark_levels_cons, (live_cons _ _ _ Hl') in Hm. cbn [pending_commit] in Hm.
  destruct (mark_levels pending_commit pending_commit_top (p :: r)) as [ok l'] eqn:Hm'.
  injection Hm as -> <-. destruct l' as [|q l']; [|by eexists _, _].
  rewrite Hs, mark_levels_cons, (live_cons _ _ _ Hl'), Hm' in Hr. cbn in Hr. by destruct Hr.
Qed.

Lemma spec_both {A} fails (m : X W A) c Q R Q' R' :
  spec fails m c Q R -> spec fails m c Q' R' ->
  spec fails m c (fun a c' => Q a c' /\ Q' a c') (fun c' => R c' /\ R' c').
Proof.
  intros H1 H2 x Hx. specialize (H1 x Hx). specialize (H2 x Hx). destruct (m x) as [[a|[]] x']; tauto.
Qed.

(** [COMMIT AND CHAIN] of a live block, up to the start of the next one: which
    characteristics the next block has. *)
Lemma commit_chain_spec c t rest :
  stack c = t :: rest -> live (stack c) -> glob_ok c -> limits c -> xid_load (stack c) <= MaxChildXids ->
  spec False (EndTransactionBlock true;; CommitTransactionCommand E) c
    (fun _ c' => live (stack c') /\ length (stack c') = 1%nat /\
       xact_chars c' = match rest with [] => xact_chars c | _ => if chain t then xact_chars c else save_chars c end)
    (fun _ => False).
Proof using Hno.
  intros Hs Hl Hg Hlim Hload. apply spec_bind.
  assert (Hhead : spec (W := W) False (EndTransactionBlock true) c
    (fun _ c' => rest <> [] -> exists u l, stack c' = u :: l /\ chain u = chain t) (fun _ => False)).
  { destruct rest as [|p r].
    - eapply spec_mono; [by apply End_live_spec|done|done].
    - eapply spec_mono; [by eapply end_head_chain|done|done]. }
  eapply spec_mono; [apply (spec_both _ _ _ _ _ _ _ (End_live_spec False true c Hl) Hhead)| |by intros ? [? _]].
  intros r c1 [[_ (l & -> & Hr & Hc & Hch)] Hu].
  unfold CommitTransactionCommand. apply spec_bind, spec_get. set (c1 := set_stack l c) in *.
  destruct l as [|u l]; [done|].
  eapply spec_mono; [apply (commit_end_spec E False (or_intror Hno) (length (u :: l)) c1 u l)|..].
  - done.
  - exact Hc.
  - cbn. lia.
  - exact Hg.
  - right. split; [exact Hlim|]. cbn [stack set_stack c1]. by rewrite (relabels_load _ _ Hr).
  - intros [] c2 (c3 & _ & Hsave & (_ & He)). cbn [stack set_stack c1] in He. rewrite Hch in He.
    destruct He as (v & Hs2 & Hlv & _ & _ & Hx). rewrite Hs2. split; [done|]. split; [done|]. rewrite Hx, Hsave.
    apply relabels_length in Hr as Hlen. rewrite Hs in Hlen. destruct rest as [|p rest], l as [|q l]; try done.
    + unfold saved. cbn in Hch. by rewrite Hch.
    + destruct Hu as (u' & l' & Hu' & Hcu); [done|]. injection Hu' as -> _. unfold saved. rewrite Hcu.
      by destruct (chain t).
  - by intros c2 [? _].
Qed.
End chain.

(** Reading of a specification without failures: the routine returns. *)
Lemma spec_returns {W A} (m : X W A) c Q x :
  spec False m c Q (fun _ => False) -> core x = c ->
  exists a x', m x = (inl a, x') /\ Q a (core x') /\ internal x' = internal x.
Proof.
  intros H Hx. specialize (H x Hx). destruct (m x) as [[a|[]] x']; try tauto.
  exists a, x'. by destruct H as [? [?|?]].
Qed.

(** COMMIT AND CHAIN of a block without savepoints goes straight into a new
    block with the characteristics (isolation level, read-only, deferrable) of
    the one it commits. *)
Theorem commit_and_chain_keeps_characteristics {W} (E : Subsystems W) x t :
  no_failures E -> stack (core x) = [t] -> live (stack (core x)) -> glob_ok (core x) -> limits (core x) ->
  len (childXids t) < MaxChildXids ->
  exists x', (EndTransactionBlock true;; CommitTransactionCommand E) x = (inl tt, x') /\
    live (stack (core x')) /\ length (stack (core x')) = 1%nat /\ xact_chars (core x') = xact_chars (core x).
Proof.
  intros Hno Hs Hl Hg Hlim Hload.
  destruct (spec_returns _ _ _ x (commit_chain_spec E Hno (core x) t [] Hs Hl Hg Hlim ltac:(rewrite Hs; cbn; lia)) eq_refl)
    as ([] & x' & Hx & (H1 & H2 & H3) & _).
  exists x'. by split_and!.
Qed.

Definition in_serializable : Xact Z :=
  after sound_modules [[TransStmt (TRANS_STMT_BEGIN [transaction_isolation 3; transaction_read_only true])]]
    (boot read_committed 0).

Lemma commit_and_chain_keeps_characteristics_witness :
  exists t, stack (core in_serializable) = [t] /\ IsoLevel (xact_chars (core in_serializable)) = 3 /\
  exists x', (EndTransactionBlock true;; CommitTransactionCommand sound_modules) in_serializable = (inl tt, x') /\
    live (stack (core x')) /\ length (stack (core x')) = 1%nat /\
    xact_chars (core x') = xact_chars (core in_serializable).
Proof.
  eexists. split; [vm_compute; reflexivity|]. split; [vm_compute; reflexivity|].
  refine (commit_and_chain_keeps_characteristics sound_modules in_serializable _ sound_no_failures _ _ _ _ _).
  - vm_compute. reflexivity.
  - vm_compute. repeat split.
  - vm_compute. repeat split.
  - vm_compute. repeat split; try discriminate; left; reflexivity.
  - vm_compute. reflexivity.
Defined.

(** C33. When a savepoint is open, COMMIT AND CHAIN loses them: the flag is tested
    on the current subtransaction but was set on the outermost level, so nothing
    is saved and the new block gets whatever an earlier chained command left in
    the [save_] variables (at first: read uncommitted, read-write, not
    deferrable). *)
Theorem commit_and_chain_in_savepoint {W} (E : Subsystems W) x t p rest :
  no_failures E -> stack (core x) = t :: p :: rest -> live (stack (core x)) -> chain t = false ->
  glob_ok (core x) -> limits (core x) -> xid_load (stack (core x)) <= MaxChildXids ->
  exists x', (EndTransactionBlock true;; CommitTransactionCommand E) x = (inl tt, x') /\
    live (stack (core x')) /\ length (stack (core x')) = 1%nat /\ xact_chars (core x') = save_chars (core x).
Proof.
  intros Hno Hs Hl Hch Hg Hlim Hload.
  destruct (spec_returns _ _ _ x (commit_chain_spec E Hno (core x) t (p :: rest) Hs Hl Hg Hlim Hload) eq_refl)
    as ([] & x' & Hx & (H1 & H2 & H3) & _).
  exists x'. rewrite Hch in H3. by split_and!.
Qed.

Lemma commit_and_chain_in_savepoint_witness :
  IsoLevel (xact_chars (core in_savepoints)) = 3 /\ IsoLevel (save_chars (core in_savepoints)) = 0 /\
  exists x', (EndTransactionBlock true;; CommitTransactionCommand sound_modules) in_savepoints = (inl tt, x') /\
    live (stack (core x')) /\ length (stack (core x')) = 1%nat /\
    xact_chars (core x') = save_chars (core in_savepoints).
Proof.
  split; [vm_compute; reflexivity|]. split; [vm_compute; reflexivity|].
  eapply (commit_and_chain_in_savepoint sound_modules in_savepoints _ _ _ sound_no_failures).
  - vm_compute. reflexivity.
  - vm_compute. repeat split.
  - vm_compute. reflexivity.
  - vm_compute. repeat split.
  - vm_compute. repeat split; try discriminate; left; reflexivity.
  - vm_compute. discriminate.
Defined.

(** * Leaving all transactions *)

(** C32. [AbortOutOfAnyTransaction], called when a backend exits: from outside a
    transaction, from a live block with any number of savepoints or from a failed
    one (the backend no parallel worker and not in a restricted security context),
    if it returns then the backend is outside any transaction, and if a call into
    another module fails it raises that error, never one of the exits the code
    calls impossible.  When no call into another module fails it does return, and
    no elog(WARNING) is issued. *)
Theorem abort_out_of_any_transaction_idle {W} (E : Subsystems W) x :
  resting (core x) -> glob_ok (core x) ->
  match AbortOutOfAnyTransaction E x with
  | (inl _, x') => idle (core x')
  | (inr e, _) => internal_exit e = false
  end /\
  (no_failures E -> exists x', AbortOutOfAnyTransaction E x = (inl tt, x') /\ internal x' = internal x).
Proof.
  intros Hr Hg. split.
  - pose proof (spec_exit _ _ _ _ x (abort_out_any E True (or_introl I) _ Hr Hg) eq_refl) as H.
    destruct (AbortOutOfAnyTransaction E x) as [[a|e] x']; apply H.
  - intros Hno. destruct (spec_returns _ _ _ x (abort_out_any E False (or_intror Hno) _ Hr Hg) eq_refl)
      as ([] & x' & Hx & _ & Hq).
    by exists x'.
Qed.

Lemma abort_out_of_any_transaction_idle_witness :
  length (stack (core in_savepoints)) = 3%nat /\
  exists x', AbortOutOfAnyTransaction sound_modules in_savepoints = (inl tt, x') /\ internal x' = internal in_savepoints.
Proof.
  split; [vm_compute; reflexivity|].
  apply (abort_out_of_any_transaction_idle sound_modules in_savepoints).
  - right. left. vm_compute. repeat split.
  - vm_compute. repeat split.
  - exact sound_no_failures.
Defined.

(** * Internal subtransactions *)

(** Round trip: an internal subtransaction (a PL exception block) that is
    rolled back leaves the transaction stack exactly as it was, on top of any
    stack whose current level is in an ordinary statement or block. *)
Theorem internal_subtransaction_rollback {W} (E : Subsystems W) n x p rest :
  no_failures E -> stack (core x) = p :: rest -> lvl_ok p -> resumes (blockState p) = true ->
  glob_ok (core x) -> sub_room (core x) ->
  exists x', (BeginInternalSubTransaction E n;; RollbackAndReleaseCurrentSubTransaction E) x = (inl tt, x') /\
    stack (core x') = stack (core x) /\ internal x' = internal x.
Proof.
  intros Hno Hs Hl Hb Hg Hroom.
  assert (H : spec False (BeginInternalSubTransaction E n;; RollbackAndReleaseCurrentSubTransaction E) (core x)
    (fun _ c' => stack c' = stack (core x)) (fun _ => False)).
  { apply spec_bind. eapply spec_mono; [apply (BeginInternal_spec E False (or_intror Hno) n (core x) p rest)|..].
    - exact Hs.
    - done.
    - by destruct (blockState p).
    - done.
    - by right.
    - intros [] c1 Hin. rewrite Hs in Hin |- *.
      eapply spec_mono; [by apply (RollbackCurrent_spec E False (or_intror Hno) (core x) n c1 p rest)| |done].
      by intros [] c2 [? _].
    - done. }
  destruct (spec_returns _ _ _ x H eq_refl) as ([] & x' & Hx & Hst & Hq). by exists x'.
Qed.

Lemma internal_subtransaction_rollback_witness :
  length (stack (core in_savepoints)) = 3%nat /\
  exists x', (BeginInternalSubTransaction sound_modules None;;
              RollbackAndReleaseCurrentSubTransaction sound_modules) in_savepoints = (inl tt, x') /\
    stack (core x') = stack (core in_savepoints) /\ internal x' = internal in_savepoints.
Proof.
  split; [vm_compute; reflexivity|].
  eapply (internal_subtransaction_rollback sound_modules None in_savepoints _ _ sound_no_failures).
  - vm_compute. reflexivity.
  - vm_compute. repeat split.
  - vm_compute. reflexivity.
  - vm_compute. repeat split.
  - vm_compute. repeat split; discriminate.
Defined.

(** One that is released leaves the stack as it was but for the child XIDs
    of the level below, which grow by at most the subtransaction's own. *)
Theorem internal_subtransaction_release {W} (E : Subsystems W) n x p rest :
  no_failures E -> stack (core x) = p :: rest -> lvl_ok p -> hosts (blockState p) = true ->
  state p = TRANS_INPROGRESS -> glob_ok (core x) -> sub_room (core x) -> limits (core x) ->
  len (childXids p) < MaxChildXids ->
  exists x' p', (BeginInternalSubTransaction E n;; ReleaseCurrentSubTransaction E) x = (inl tt, x') /\
    stack (core x') = p' :: rest /\ internal x' = internal x /\
    p' = set_childXids (childXids p') (set_maxChildXids (maxChildXids p') p) /\
    len (childXids p') <= len (childXids p) + 1.
Proof.
  intros Hno Hs Hl Hb Hst Hg Hroom Hlim Hx.
  assert (H : spec False (BeginInternalSubTransaction E n;; ReleaseCurrentSubTransaction E) (core x)
    (fun _ c' => exists p', stack c' = p' :: rest /\ child_only (len (childXids p) + 1) p p') (fun _ => False)).
  { apply spec_bind. eapply spec_mono; [apply (BeginInternal_spec E False (or_intror Hno) n (core x) p rest)|..|done].
    - exact Hs.
    - done.
    - done.
    - done.
    - by right.
    - intros [] c1 Hin. rewrite Hs in Hin. pose proof Hin as (u & _ & _ & _ & _ & (_ & _ & _ & _ & Hk)).
      eapply spec_mono; [apply (ReleaseCurrent_spec E False (or_intror Hno) (core x) n c1 p rest)|..|done].
      + done.
      + done.
      + done.
      + right. split; [auto|lia].
      + intros [] c2 (p' & ? & ? & _). by exists p'. }
  destruct (spec_returns _ _ _ x H eq_refl) as ([] & x' & Hrun & (p' & Hs' & (l & m & -> & Hlen)) & Hq).
  eexists x', _. split; [exact Hrun|]. split; [exact Hs'|]. by split_and!.
Qed.

Lemma internal_subtransaction_release_witness :
  exists p rest, stack (core in_savepoints) = p :: rest /\
  exists x' p', (BeginInternalSubTransaction sound_modules None;;
                 ReleaseCurrentSubTransaction sound_modules) in_savepoints = (inl tt, x') /\
    stack (core x') = p' :: rest /\ internal x' = internal in_savepoints /\
    p' = set_childXids (childXids p') (set_maxChildXids (maxChildXids p') p) /\
    len (childXids p') <= len (childXids p) + 1.
Proof.
  eexists _, _. split; [vm_compute; reflexivity|].
  eapply (internal_subtransaction_release sound_modules None in_savepoints _ _ sound_no_failures).
  - vm_compute. reflexivity.
  - vm_compute. repeat split.
  - vm_compute. reflexivity.
  - vm_compute. reflexivity.
  - vm_compute. repeat split.
  - vm_compute. repeat split; discriminate.
  - vm_compute. repeat split; try discriminate; left; reflexivity.
  - vm_compute. reflexivity.
Defined.

(** A deferred trigger running at COMMIT: the block state is already
    [TBLOCK_END]. *)
Definition at_commit : Xact Z := snd (EndTransactionBlock false in_serializable).

(** [BeginInternalSubTransaction] accepts a transaction that is being
    committed (for deferred triggers), but rolling that subtransaction back
    fails the Assert at the end of [RollbackAndReleaseCurrentSubTransaction],
    which does not list [TBLOCK_END]; releasing it is fine. *)
Theorem internal_rollback_at_commit_asserts :
  fst ((BeginInternalSubTransaction sound_modules None;;
        RollbackAndReleaseCurrentSubTransaction sound_modules) at_commit)
    = inr (EAssert "s->blockState after RollbackAndRelease") /\
  fst ((BeginInternalSubTransaction sound_modules None;;
        ReleaseCurrentSubTransaction sound_modules) at_commit) = inl tt.
Proof. vm_compute. split; reflexivity. Qed.

(** ** When rolling one back fails

    An error that leaves an internal subtransaction open reaches the handler of
    the message loop.  If there is no transaction block, the level below is that
    of a single statement (or of an implicit block). *)
Definition outside_block (b : TBlockState) : bool :=
  match b with TBLOCK_STARTED | TBLOCK_IMPLICIT_INPROGRESS => true | _ => false end.

Lemma recover_stranded_spec {W} (E : Subsystems W) c t p :
  no_failures E -> stack c = [t; p] -> in_block TBLOCK_SUBINPROGRESS TRANS_INPROGRESS t -> glob_ok c ->
  spec False (recover E) c (fun _ c' => exists t', stack c' = [t'; p] /\ blockState t' = TBLOCK_SUBABORT) (fun _ => False).
Proof.
  intros Hno Hs (Hb & Hst & Hl) Hg. pose proof (or_intror Hno : False \/ no_failures E) as Hf. unfold recover.
  apply spec_bind, spec_calls; [done| |done]. apply spec_bind. unfold AbortCurrentTransaction. apply spec_bind, spec_get.
  cbn [abort_current]. apply spec_bind. eapply spec_cur; [exact Hs|]. rewrite Hb. apply spec_bind.
  eapply spec_mono; [apply (AbortSubTransaction_spec E False Hf c t p []); apply at_level_self; auto| |by intros c1 [? _]].
  intros [] c1 (t1 & Hs1 & _ & _ & _). apply spec_modify. rewrite (on_top_cons _ _ _ _ Hs1).
  apply spec_bind, spec_calls; [done| |done]. apply spec_modify. by eexists.
Qed.

(** C34. An error that escapes while an internal subtransaction is open and no
    transaction block is (its own rollback failed) strands the backend: the
    recovery aborts just the subtransaction and waits for a ROLLBACK, but ROLLBACK
    and COMMIT then end in the FATAL error of the case that cannot happen, and
    every other statement is refused.  So the invariant of the message loop
    cannot extend to statements whose internal subtransactions fail to roll
    back. *)
Theorem failed_internal_rollback_strands {W} (E : Subsystems W) x t p :
  no_failures E -> stack (core x) = [t; p] -> in_block TBLOCK_SUBINPROGRESS TRANS_INPROGRESS t ->
  outside_block (blockState p) = true -> glob_ok (core x) ->
  exists x', recover E x = (inl tt, x') /\ ~ resting (core x') /\
    (forall ch, fst (UserAbortTransactionBlock ch x') = inr (EFatal "UserAbortTransactionBlock: unexpected state")) /\
    (forall ch, fst (EndTransactionBlock ch x') = inr (EFatal "EndTransactionBlock: unexpected state")) /\
    fst (IsAbortedTransactionBlockState x') = inl true.
Proof.
  intros Hno Hs Ht Hp Hg.
  destruct (spec_returns _ _ _ x (recover_stranded_spec E (core x) t p Hno Hs Ht Hg) eq_refl)
    as ([] & x' & Hx & (t' & Hs' & Hb) & _).
  exists x'. split; [done|]. split.
  { intros [(u & Hu & _)|[Hl|Hf]]; [congruence|..]; rewrite Hs' in *.
    - destruct Hl as [(H & _) _]. congruence.
    - destruct Hf as (_ & _ & _ & (H & _)). rewrite H in Hp. done. }
  destruct x' as [c' w' n' i']. cbn in Hs'.
  unfold UserAbortTransactionBlock, EndTransactionBlock, IsAbortedTransactionBlockState, CurrentTransactionState, mark,
    mbind, X_bind, get.
  split; [|split]; [intros ch|intros ch|]; cbn; rewrite Hs'; cbn; unfold is_block; rewrite Hb; cbn; try done.
  all: rewrite Hs'; cbn; rewrite Hb; by destruct (blockState p).
Qed.

(** A statement outside a block has opened an internal subtransaction, and
    releasing the locks fails as that is rolled back. *)
Definition stranded : Xact Z :=
  snd ((start_xact_command sound_modules;; BeginInternalSubTransaction sound_modules None;;
        RollbackAndReleaseCurrentSubTransaction (failing_module "LWLockReleaseAll")) (boot read_committed 0)).

Lemma failed_internal_rollback_strands_witness :
  exists x', recover sound_modules stranded = (inl tt, x') /\ ~ resting (core x') /\
    (forall ch, fst (UserAbortTransactionBlock ch x') = inr (EFatal "UserAbortTransactionBlock: unexpected state")) /\
    (forall ch, fst (EndTransactionBlock ch x') = inr (EFatal "EndTransactionBlock: unexpected state")) /\
    fst (IsAbortedTransactionBlockState x') = inl true.
Proof.
  eapply (failed_internal_rollback_strands sound_modules stranded _ _ sound_no_failures).
  - vm_compute. reflexivity.
  - vm_compute. repeat split.
  - vm_compute. reflexivity.
  - vm_compute. repeat split.
Defined.

(** * Well-formedness of the stack *)

(** C35. From any state, whatever the other modules do and however the message
    ends: if the outermost level has no savepoint name before a message, it has
    none after the message and after each attempt to recover from its error.  So
    RELEASE and ROLLBACK TO, which look a name up from the current level
    outwards, can never pick the transaction itself. *)
Theorem outermost_level_stays_unnamed {W} (E : Subsystems W) q n x :
  unnamed (core x) ->
  unnamed (core (snd (handle_query E q x))) /\ unnamed (core (snd (recover E x))) /\
  forall k, find_savepoint n (stack (core x)) = Some k -> (S k < length (stack (core x)))%nat.
Proof.
  intros Hx. split; [by apply st_query|]. split; [by apply st_recover|].
  intros k. by apply find_savepoint_bound.
Qed.

Lemma outermost_level_stays_unnamed_witness :
  find_savepoint "a" (stack (core in_savepoints)) = Some 1%nat /\ (2 < length (stack (core in_savepoints)))%nat.
Proof.
  split; [vm_compute; reflexivity|].
  apply (outermost_level_stays_unnamed sound_modules [] "a" in_savepoints); vm_compute; reflexivity.
Defined.
