(* ===== verification/SortTemplate.v ===== *)
(** The sort of src/postgresql/src/include/lib/sort_template.h, of which
    [pg_qsort] (port/qsort.c), [qsort_arg] (port/qsort_arg.c) and the typed
    sorts of the server are instances: quicksort after Bentley and McIlroy with
    a check for presorted input.

    Pointers into the array are indices in units of one element
    ([ST_POINTER_STEP]); the byte-wise exchange of the untyped instances moves
    whole elements, since the ranges it exchanges are equal or do not overlap.
    The comparator is an argument and may be any function: the class
    [SortComparator] is what an order has to satisfy.  The first argument of
    [ST_SORT] counts the stack frames of the sort that are available. *)
From S2P Require Import Prelude.
Open Scope Z_scope.

Section sort.
Context {A : Type} (compare : A -> A -> Z).

Definition DO_COMPARE (l : list A) (i j : Z) : res Z :=
  x ← rd l i;
  y ← rd l j;
  Ok (compare x y).

(** The median of three. *)
Definition ST_MED3 (l : list A) (a b c : Z) : res Z :=
  ab ← DO_COMPARE l a b;
  if ab <? 0 then
    bc ← DO_COMPARE l b c;
    if bc <? 0 then Ok b
    else ac ← DO_COMPARE l a c; Ok (if ac <? 0 then c else a)
  else
    bc ← DO_COMPARE l b c;
    if 0 <? bc then Ok b
    else ac ← DO_COMPARE l a c; Ok (if ac <? 0 then a else c).

Definition ST_SWAP (l : list A) (a b : Z) : res (list A) :=
  tmp ← rd l a;
  y ← rd l b;
  l ← wr l a y;
  wr l b tmp.

Definition ST_SWAPN (l : list A) (a b n : Z) : res (list A) :=
  loop_state (for_up 0 n (fun i l => l ← ST_SWAP l (a + i) (b + i); Ok (inl l)) l).

(** ** Fewer than 7 elements: insertion sort *)
Fixpoint sink (fuel : nat) (l : list A) (a pl : Z) : res (list A) :=
  if a <? pl then
    r ← DO_COMPARE l (pl - 1) pl;
    if 0 <? r then
      match fuel with
      | O => UB "fuel"
      | S fuel => l ← ST_SWAP l pl (pl - 1); sink fuel l a (pl - 1)
      end
    else Ok l
  else Ok l.

Definition insertion_sort (l : list A) (a n : Z) : res (list A) :=
  loop_state (for_up (a + 1) (a + n)
    (fun pm l => l ← sink (Z.to_nat (pm - a)) l a pm; Ok (inl l)) l).

Definition presorted (l : list A) (a n : Z) : res bool :=
  loop_return (for_up (a + 1) (a + n)
    (fun pm _ => r ← DO_COMPARE l (pm - 1) pm; Ok (if 0 <? r then inr false else inl tt)) tt) true.

(** ** The pivot: the middle element, a median of three or a median of nine *)
Definition choose_pivot (l : list A) (a n : Z) : res Z :=
  let pm := a + n / 2 in
  if 7 <? n then
    let pl := a in
    let pn := a + (n - 1) in
    '(pl, pm, pn) ←
      (if 40 <? n then
         let d := n / 8 in
         pl ← ST_MED3 l pl (pl + d) (pl + 2 * d);
         pm ← ST_MED3 l (pm - d) pm (pm + d);
         pn ← ST_MED3 l (pn - 2 * d) (pn - d) pn;
         Ok (pl, pm, pn)
       else Ok (pl, pm, pn));
    ST_MED3 l pl pm pn
  else Ok pm.

(** ** The partition around the element at [a]

    Elements equal to the pivot are collected below [pa] and above [pd],
    smaller ones between [pa] and [pb], larger ones between [pc] and [pd]. *)
Record Cursors := { pa : Z; pb : Z; pc : Z; pd : Z }.

Fixpoint scan_up (fuel : nat) (l : list A) (a : Z) (c : Cursors) : res (list A * Cursors) :=
  if pb c <=? pc c then
    r ← DO_COMPARE l (pb c) a;
    if r <=? 0 then
      match fuel with
      | O => UB "fuel"
      | S fuel =>
          '(l, pa') ← (if r =? 0 then l ← ST_SWAP l (pa c) (pb c); Ok (l, pa c + 1)
                       else Ok (l, pa c));
          scan_up fuel l a {| pa := pa'; pb := pb c + 1; pc := pc c; pd := pd c |}
      end
    else Ok (l, c)
  else Ok (l, c).

Fixpoint scan_down (fuel : nat) (l : list A) (a : Z) (c : Cursors) : res (list A * Cursors) :=
  if pb c <=? pc c then
    r ← DO_COMPARE l (pc c) a;
    if 0 <=? r then
      match fuel with
      | O => UB "fuel"
      | S fuel =>
          '(l, pd') ← (if r =? 0 then l ← ST_SWAP l (pc c) (pd c); Ok (l, pd c - 1)
                       else Ok (l, pd c));
          scan_down fuel l a {| pa := pa c; pb := pb c; pc := pc c - 1; pd := pd' |}
      end
    else Ok (l, c)
  else Ok (l, c).

Fixpoint partition (fuel : nat) (l : list A) (a : Z) (c : Cursors) : res (list A * Cursors) :=
  match fuel with
  | O => UB "fuel"
  | S fuel' =>
      '(l, c) ← scan_up fuel l a c;
      '(l, c) ← scan_down fuel l a c;
      if pc c <? pb c then Ok (l, c)
      else
        l ← ST_SWAP l (pb c) (pc c);
        partition fuel' l a {| pa := pa c; pb := pb c + 1; pc := pc c - 1; pd := pd c |}
  end.

(** One pass of [ST_SORT] from its label [loop]: it returns the array, or goes
    back to the label with a part of it. [DO_SORT] is the recursive call. *)
Definition sort_pass (DO_SORT : list A -> Z -> Z -> res (list A)) (l : list A) (a n : Z)
  : res (list A + list A * Z * Z) :=
  if n <? 7 then l ← insertion_sort l a n; Ok (inl l)
  else
    sorted ← presorted l a n;
    if (sorted : bool) then Ok (inl l)
    else
      pm ← choose_pivot l a n;
      l ← ST_SWAP l a pm;
      '(l, c) ← partition (Z.to_nat n) l a
                  {| pa := a + 1; pb := a + 1; pc := a + (n - 1); pd := a + (n - 1) |};
      let pn := a + n in
      let d1 := Z.min (pa c - a) (pb c - pa c) in
      l ← ST_SWAPN l a (pb c - d1) d1;
      let d1 := Z.min (pd c - pc c) (pn - pd c - 1) in
      l ← ST_SWAPN l (pb c) (pn - d1) d1;
      let d1 := pb c - pa c in
      let d2 := pd c - pc c in
      if d1 <=? d2 then
        l ← (if 1 <? d1 then DO_SORT l a d1 else Ok l);
        if 1 <? d2 then Ok (inr (l, pn - d2, d2)) else Ok (inl l)
      else
        l ← (if 1 <? d2 then DO_SORT l (pn - d2) d2 else Ok l);
        if 1 <? d1 then Ok (inr (l, a, d1)) else Ok (inl l).

Fixpoint sort_loop (fuel : nat) (DO_SORT : list A -> Z -> Z -> res (list A)) (l : list A) (a n : Z)
  : res (list A) :=
  match fuel with
  | O => UB "fuel"
  | S fuel =>
      o ← sort_pass DO_SORT l a n;
      match o with
      | inl l => Ok l
      | inr (l, a, n) => sort_loop fuel DO_SORT l a n
      end
  end.

Fixpoint ST_SORT (frames : nat) (l : list A) (a n : Z) : res (list A) :=
  match frames with
  | O => UB "stack overflow"
  | S frames => sort_loop (S (Z.to_nat n)) (ST_SORT frames) l a n
  end.

(** What the comparison function has to be for the result to be sorted. *)
Class SortComparator : Prop := {
  compare_flip : forall x y, compare x y < 0 <-> 0 < compare y x;
  compare_trans : forall x y z, compare x y <= 0 -> compare y z <= 0 -> compare x z <= 0
}.

End sort.

Arguments compare_flip {A compare _} x y.
Arguments compare_trans {A compare _} x y z _ _.

(** [log2 n + 1] frames, which is enough. *)
Definition frames_for (n : Z) : nat := S (Z.to_nat (Z.log2 n)).

(** [qsort_arg] and [pg_qsort] on a whole array. *)
Definition qsort_arg {A} (compare : A -> A -> Z) (l : list A) : res (list A) :=
  ST_SORT compare (frames_for (len l)) l 0 (len l).

Example qsort_small : qsort_arg Z.sub [3; 1; 2] = Ok [1; 2; 3].
Proof. reflexivity. Qed.

Example qsort_medium :
  qsort_arg Z.sub ((fun i => (i * 7) mod 47) <$> seqZ 0 47) = Ok (seqZ 0 47).
Proof. vm_compute. reflexivity. Qed.
