(* ===== verification/SortProps.v ===== *)
(** The sort of SortTemplate.v: on any comparator it returns a permutation of
    the array, stays inside it and uses at most [log2 n + 1] stack frames; on an
    order the result is sorted. *)
From stdpp Require Import sorting.
From S2P Require Import Prelude.
From S2P Require Import SortTemplate.
Open Scope Z_scope.

(** * Permutations of a segment *)
Definition perm_seg {A} (i j : Z) (l l' : list A) : Prop :=
  exists x m m' y, l = x ++ m ++ y /\ l' = x ++ m' ++ y /\ m ≡ₚ m' /\ len x = i /\ len m = j - i.

Section segments.
Context {A : Type} (d : A).
Implicit Types (l : list A) (P : A -> Prop).

Lemma split_seg l i j :
  0 <= i <= j -> j <= len l ->
  exists x m y, l = x ++ m ++ y /\ len x = i /\ len m = j - i.
Proof.
  unfold len; intros. exists (take (Z.to_nat i) l), (take (Z.to_nat (j - i)) (drop (Z.to_nat i) l)),
    (drop (Z.to_nat (j - i)) (drop (Z.to_nat i) l)).
  rewrite !take_drop. rewrite !length_take, length_drop. split; [done|lia].
Qed.

Lemma perm_seg_refl i j l : 0 <= i <= j -> j <= len l -> perm_seg i j l l.
Proof.
  intros Hi Hj. destruct (split_seg l i j Hi Hj) as (x & m & y & -> & Hx & Hm).
  by exists x, m, m, y.
Qed.

Lemma perm_seg_len i j l l' : perm_seg i j l l' -> len l' = len l.
Proof.
  intros (x & m & m' & y & -> & -> & Hp & _). unfold len. rewrite !length_app.
  by rewrite (Permutation_length Hp).
Qed.

Lemma perm_seg_bounds i j l l' : perm_seg i j l l' -> 0 <= i <= j /\ j <= len l.
Proof.
  intros (x & m & m' & y & -> & -> & Hp & <- & Hm). rewrite !len_app.
  pose proof (len_nonneg x). pose proof (len_nonneg m). pose proof (len_nonneg y). lia.
Qed.

Lemma perm_seg_perm i j l l' : perm_seg i j l l' -> l ≡ₚ l'.
Proof. intros (x & m & m' & y & -> & -> & Hp & _). by rewrite Hp. Qed.

Lemma perm_seg_trans i j l1 l2 l3 : perm_seg i j l1 l2 -> perm_seg i j l2 l3 -> perm_seg i j l1 l3.
Proof.
  intros (x & m & m' & y & -> & -> & Hp & Hx & Hm) (x2 & n & n' & y2 & He & -> & Hp2 & Hx2 & Hn).
  apply app_inj_1 in He as [-> He]; [|unfold len in *; lia].
  pose proof (Permutation_length Hp).
  apply app_inj_1 in He as [-> ->]; [|unfold len in *; lia].
  exists x2, m, n', y2. split_and!; [done..|by rewrite Hp|lia|done].
Qed.

Lemma perm_seg_weaken i j i' j' l l' :
  0 <= i' <= i -> j <= j' <= len l -> perm_seg i j l l' -> perm_seg i' j' l l'.
Proof.
  intros Hi Hj (x & m & m' & y & -> & -> & Hp & Hx & Hm). rewrite !len_app in Hj.
  destruct (split_seg x i' i) as (x1 & x2 & x3 & -> & Hx1 & Hx2); [lia|lia|].
  destruct (split_seg y 0 (j' - j)) as (y1 & y2 & y3 & -> & Hy1 & Hy2); [lia|lia|].
  destruct y1 as [|c y1]; [|unfold len in Hy1; simpl in Hy1; lia].
  assert (x3 = []) as ->.
  { destruct x3; [done|]. rewrite !len_app, len_cons in Hx. pose proof (len_nonneg x3). lia. }
  exists x1, (x2 ++ m ++ y2), (x2 ++ m' ++ y2), y3.
  rewrite !app_nil_r, app_nil_l, <- !app_assoc. rewrite !len_app in *.
  split_and!; [done|done|by rewrite Hp|done|lia].
Qed.

(** Cells outside the segment stay. *)
Lemma perm_seg_outside i j l l' k :
  perm_seg i j l l' -> 0 <= k < i \/ j <= k -> getd d l' k = getd d l k.
Proof.
  intros (x & m & m' & y & -> & -> & Hp & Hx & Hm) Hk.
  assert (Hl : len m' = len m) by (unfold len; by rewrite (Permutation_length Hp)).
  pose proof (len_nonneg x). pose proof (len_nonneg m).
  rewrite (getd_app _ x (m ++ y)), (getd_app _ x (m' ++ y)) by lia. z_cases; [done|].
  rewrite !getd_app by lia. rewrite Hl. z_cases. done.
Qed.

Definition seg_all (P : A -> Prop) l (i j : Z) : Prop := forall k, i <= k < j -> P (getd d l k).

Lemma seg_all_Forall P x m y i j :
  len x = i -> len m = j - i -> seg_all P (x ++ m ++ y) i j <-> Forall P m.
Proof.
  intros Hx Hm. split.
  - intros H. apply (Forall_getd P d). intros k Hk. specialize (H (i + k)).
    pose proof (len_nonneg x). rewrite getd_app in H by lia.
    destruct (Z.ltb_spec (i + k) (len x)); [lia|]. rewrite getd_app in H by lia.
    replace (i + k - len x) with k in H by lia.
    destruct (Z.ltb_spec k (len m)); [apply H|]; lia.
  - intros H k Hk. pose proof (len_nonneg x). rewrite getd_app by lia.
    destruct (Z.ltb_spec k (len x)); [lia|]. rewrite getd_app by lia.
    destruct (Z.ltb_spec (k - len x) (len m)); [|lia].
    unfold getd. rewrite Forall_lookup in H.
    destruct (lookup_lt_is_Some_2 m (Z.to_nat (k - len x))) as [v Hv]; [unfold len in *; lia|].
    rewrite Hv. by apply (H (Z.to_nat (k - len x))).
Qed.

(** What holds of every cell of the segment still does. *)
Lemma perm_seg_all P i j l l' : perm_seg i j l l' -> seg_all P l i j -> seg_all P l' i j.
Proof.
  intros (x & m & m' & y & -> & -> & Hp & Hx & Hm) H.
  assert (Hl : len m' = len m) by (unfold len; by rewrite (Permutation_length Hp)).
  apply seg_all_Forall in H; [|done..]. apply seg_all_Forall; [done|lia|]. by rewrite <- Hp.
Qed.

(** * Exchanges *)
Definition exchanged l (a b : Z) : list A := upd (upd l a (getd d l b)) b (getd d l a).

Lemma len_exchanged l a b : len (exchanged l a b) = len l.
Proof. unfold exchanged. by rewrite !len_upd. Qed.

Lemma getd_exchanged l a b k :
  0 <= a < len l -> 0 <= b < len l -> 0 <= k ->
  getd d (exchanged l a b) k = if k =? b then getd d l a else if k =? a then getd d l b else getd d l k.
Proof.
  intros. unfold exchanged. rewrite getd_upd by (rewrite ?len_upd; lia).
  destruct (k =? b); [done|]. by rewrite getd_upd by lia.
Qed.

Lemma exchanged_seg l i j a b :
  i <= a < j -> i <= b < j -> 0 <= i -> j <= len l -> perm_seg i j l (exchanged l a b).
Proof.
  intros Ha Hb Hi Hj. destruct (split_seg l i j) as (x & m & y & -> & Hx & Hm); [lia|lia|].
  assert (Hg : forall k, i <= k < j -> m !! Z.to_nat (k - i) = Some (getd d (x ++ m ++ y) k)).
  { intros k Hk. rewrite getd_app by lia. destruct (Z.ltb_spec k (len x)); [lia|].
    rewrite getd_app by lia. destruct (Z.ltb_spec (k - len x) (len m)); [|lia].
    unfold getd. rewrite Hx.
    destruct (lookup_lt_is_Some_2 m (Z.to_nat (k - i))) as [v Hv]; [unfold len in *; lia|]. by rewrite Hv. }
  exists x, m, (<[Z.to_nat (b - i):=getd d (x ++ m ++ y) a]> (<[Z.to_nat (a - i):=getd d (x ++ m ++ y) b]> m)), y.
  split_and!; [done| |symmetry; by apply insert_swap_perm; apply Hg|done|done].
  unfold exchanged, upd, len in *. subst i.
  assert (Hins : forall k (v : A) (n : list A), Z.of_nat (length x) <= k -> k - Z.of_nat (length x) < Z.of_nat (length n) ->
    <[Z.to_nat k:=v]> (x ++ n ++ y) = x ++ <[Z.to_nat (k - Z.of_nat (length x)):=v]> n ++ y).
  { intros k v n H1 H2. rewrite insert_app_r_alt by lia. f_equal.
    rewrite insert_app_l by lia. do 2 f_equal. lia. }
  rewrite (Hins a) by lia. rewrite Hins by (rewrite ?length_insert; lia). done.
Qed.

Lemma wp_swap l a b (Q : list A -> Prop) :
  0 <= a < len l -> 0 <= b < len l -> Q (exchanged l a b) -> wp (ST_SWAP l a b) Q.
Proof.
  intros Ha Hb HQ. unfold ST_SWAP. apply wp_bind, (wp_rd d); [done|]. apply wp_bind, (wp_rd d); [done|].
  apply wp_bind, wp_wr; [done|]. apply wp_wr; [by rewrite len_upd|]. apply HQ.
Qed.

(** The exchange of two disjoint ranges. *)
Lemma wp_swapn l a b n (Q : list A -> Prop) :
  0 <= a -> 0 <= n -> a + n <= b -> b + n <= len l ->
  (forall l', len l' = len l ->
     (forall i j, 0 <= i <= a -> b + n <= j <= len l -> perm_seg i j l l') ->
     (forall k, 0 <= k -> getd d l' k =
        if (a <=? k) && (k <? a + n) then getd d l (k - a + b)
        else if (b <=? k) && (k <? b + n) then getd d l (k - b + a) else getd d l k) ->
     Q l') ->
  wp (ST_SWAPN l a b n) Q.
Proof.
  intros Ha Hn Hab Hb HQ. unfold ST_SWAPN. apply wp_loop_state.
  apply (wp_for_up (fun c l' => len l' = len l /\
     (forall i j, 0 <= i <= a -> b + n <= j <= len l -> perm_seg i j l l') /\
     (forall k, 0 <= k -> getd d l' k =
        if (a <=? k) && (k <? a + c) then getd d l (k - a + b)
        else if (b <=? k) && (k <? b + c) then getd d l (k - b + a) else getd d l k))); [lia|..].
  - split_and!; [done|intros; apply perm_seg_refl; lia|]. intros k Hk.
    z_cases; done.
  - intros c l' Hc (Hl & Hp & Hg). apply wp_bind, wp_swap; [lia|lia|]. apply wp_Ok. split_and!.
    + by rewrite len_exchanged.
    + intros i j Hi Hj. eapply perm_seg_trans; [by apply Hp|]. apply exchanged_seg; lia.
    + intros k Hk. rewrite getd_exchanged by lia.
      rewrite (Hg (a + c)), (Hg (b + c)), (Hg k) by lia.
      z_cases; subst; try done; f_equal; lia.
  - intros l' (Hl & Hp & Hg). by apply HQ.
Qed.

End segments.

#[local] Set Default Proof Using "All".

Section correctness.
Context {A : Type} (compare : A -> A -> Z) (d : A).
Implicit Types (l : list A).

#[local] Abbreviation cell l i := (getd d l i).
#[local] Abbreviation cmp l i j := (compare (getd d l i) (getd d l j)).

Lemma wp_compare l i j (Q : Z -> Prop) :
  0 <= i < len l -> 0 <= j < len l -> Q (cmp l i j) -> wp (DO_COMPARE compare l i j) Q.
Proof.
  intros Hi Hj HQ. unfold DO_COMPARE. apply wp_bind, (wp_rd d); [done|].
  apply wp_bind, (wp_rd d); [done|]. apply HQ.
Qed.

(** * The median of three is one of the three *)
Lemma wp_med3 l a b c (Q : Z -> Prop) :
  0 <= a < len l -> 0 <= b < len l -> 0 <= c < len l -> Q a -> Q b -> Q c ->
  wp (ST_MED3 compare l a b c) Q.
Proof.
  intros Ha Hb Hc Qa Qb Qc. unfold ST_MED3. apply wp_bind, wp_compare; [done..|].
  destruct (_ <? _); apply wp_bind, wp_compare; try done.
  all: destruct (_ <? _); [done|]; apply wp_bind, wp_compare; try done.
  all: destruct (_ <? _); done.
Qed.

Lemma wp_choose_pivot l a n (Q : Z -> Prop) :
  0 <= a -> 7 <= n -> a + n <= len l -> (forall pm, a <= pm < a + n -> Q pm) ->
  wp (choose_pivot compare l a n) Q.
Proof.
  intros Ha Hn Hl HQ. unfold choose_pivot.
  pose proof (Z.div_mod n 2 ltac:(lia)). pose proof (Z.mod_pos_bound n 2 ltac:(lia)).
  pose proof (Z.div_mod n 8 ltac:(lia)). pose proof (Z.mod_pos_bound n 8 ltac:(lia)).
  destruct (Z.ltb_spec 7 n); [|apply HQ; lia].
  set (inside := fun pm => a <= pm < a + n).
  apply wp_bind, (wp_mono _ (fun '(pl, pm, pn) => inside pl /\ inside pm /\ inside pn)).
  - subst inside; cbv beta. destruct (Z.ltb_spec 40 n); [|split_and!; lia].
    do 3 (apply wp_bind, (wp_mono _ (fun pm => a <= pm < a + n)); [apply wp_med3; lia|intros ? ?]).
    done.
  - intros [[pl pm] pn] (Hpl & Hpm & Hpn). subst inside; cbv beta in *. apply wp_med3; try lia; by apply HQ.
Qed.

(** * Insertion sort *)
Definition sorted_seg l (i j : Z) : Prop := forall x y, i <= x <= y -> y < j -> cmp l x y <= 0.

Lemma sorted_seg_small l i j : SortComparator compare -> j <= i + 1 -> sorted_seg l i j.
Proof.
  intros [Hflip _] Hj x y Hx Hy. replace y with x by lia.
  destruct (Z.le_gt_cases (cmp l x x) 0) as [|H]; [done|]. pose proof (proj2 (Hflip _ _) H). lia.
Qed.

Lemma compare_same x : SortComparator compare -> compare x x = 0.
Proof.
  intros [Hflip _]. destruct (Z.lt_trichotomy (compare x x) 0) as [H|[H|H]]; [|done|].
  - pose proof (proj1 (Hflip _ _) H). lia.
  - pose proof (proj2 (Hflip _ _) H). lia.
Qed.

(** Sorted but for the cell [p] and those before it. *)
Definition sorted_but l (i j p : Z) : Prop :=
  forall x y, i <= x <= y -> y < j -> y <> p -> cmp l x y <= 0.

Lemma sorted_but_swap l a j p :
  SortComparator compare -> 0 <= a < p -> p < j <= len l -> sorted_but l a j p -> 0 < cmp l (p - 1) p ->
  sorted_but (exchanged d l p (p - 1)) a j (p - 1).
Proof.
  intros Hc Hp Hj Hs Hgt x y Hx Hy Hne. pose proof (proj2 (compare_flip _ _) Hgt).
  rewrite !getd_exchanged by lia. z_cases; subst; first [by rewrite compare_same|apply Hs; lia|lia].
Qed.

Lemma sorted_but_done l a j p :
  SortComparator compare -> p < j -> sorted_but l a j p -> (a < p -> cmp l (p - 1) p <= 0) -> sorted_seg l a j.
Proof.
  intros Hc Hj Hs Hle x y Hx Hy. destruct (Z.eq_dec y p) as [->|]; [|by apply Hs].
  destruct (Z.eq_dec x p) as [->|]; [by rewrite compare_same|].
  apply compare_trans with (cell l (p - 1)); [apply Hs; lia|apply Hle; lia].
Qed.

Lemma wp_sink fuel l a pl j :
  0 <= a <= pl -> pl < j <= len l -> Z.of_nat fuel = pl - a ->
  wp (sink compare fuel l a pl) (fun l' => perm_seg a j l l' /\
    (SortComparator compare -> sorted_but l a j pl -> sorted_seg l' a j)).
Proof.
  revert l pl. induction fuel as [|fuel IH]; intros l pl Ha Hj Hf; cbn [sink].
  - destruct (Z.ltb_spec a pl); [lia|]. apply wp_Ok. split; [apply perm_seg_refl; lia|].
    intros Hc Hs. by apply (sorted_but_done l a j pl); [|lia| |lia].
  - destruct (Z.ltb_spec a pl); [|lia]. apply wp_bind, wp_compare; [lia..|].
    destruct (Z.ltb_spec 0 (cmp l (pl - 1) pl)).
    + apply wp_bind, (wp_swap d); [lia..|]. eapply wp_mono; [apply IH; rewrite ?len_exchanged; lia|].
      intros l' [Hp Hs]. split.
      * eapply perm_seg_trans; [|exact Hp]. apply exchanged_seg; lia.
      * intros Hc H1. apply Hs; [done|]. apply sorted_but_swap; done || lia.
    + apply wp_Ok. split; [apply perm_seg_refl; lia|]. intros Hc Hs.
      by apply (sorted_but_done l a j pl); [|lia| |].
Qed.

Lemma wp_insertion_sort l a n :
  0 <= a -> 0 <= n -> a + n <= len l ->
  wp (insertion_sort compare l a n) (fun l' => perm_seg a (a + n) l l' /\
    (SortComparator compare -> sorted_seg l' a (a + n))).
Proof.
  intros Ha Hn Hl. unfold insertion_sort. destruct (Z.eq_dec n 0) as [->|].
  { unfold for_up. replace (Z.to_nat (a + 0 - (a + 1))) with 0%nat by lia. split; [apply perm_seg_refl; lia|].
    intros Hc. apply sorted_seg_small; [done|lia]. }
  apply wp_loop_state.
  apply (wp_for_up (fun pm l' => perm_seg a (a + n) l l' /\
    (SortComparator compare -> sorted_seg l' a pm))); [lia|..].
  - split; [apply perm_seg_refl; lia|]. intros Hc. apply sorted_seg_small; [done|lia].
  - intros pm l' Hpm [Hp Hs]. pose proof (perm_seg_len _ _ _ _ Hp).
    apply wp_bind. eapply wp_mono; [apply (wp_sink _ _ _ _ (pm + 1)); lia|].
    intros l2 [Hp2 Hs2]. apply wp_Ok. split.
    + eapply perm_seg_trans; [done|]. eapply perm_seg_weaken; [..|done]; lia.
    + intros Hc. apply Hs2; [done|]. intros x y Hx Hy Hne. apply (Hs Hc); lia.
  - intros l' H. exact H.
Qed.

Lemma wp_presorted l a n :
  0 <= a -> 1 <= n -> a + n <= len l ->
  wp (presorted compare l a n) (fun b => b = true -> SortComparator compare -> sorted_seg l a (a + n)).
Proof.
  intros Ha Hn Hl. unfold presorted. apply wp_loop_return.
  apply (wp_for_up (fun pm _ => SortComparator compare -> sorted_seg l a pm)); [lia|..].
  - intros Hc. apply sorted_seg_small; [done|lia].
  - intros pm [] Hpm Hs. apply wp_bind, wp_compare; [lia..|]. apply wp_Ok.
    destruct (Z.ltb_spec 0 (cmp l (pm - 1) pm)); [done|]. intros Hc x y Hx Hy.
    destruct (Z.eq_dec y pm) as [->|]; [|apply (Hs Hc); lia].
    destruct (Z.eq_dec x pm) as [->|]; [by rewrite compare_same|].
    apply compare_trans with (cell l (pm - 1)); [apply (Hs Hc); lia|lia].
  - intros [] H. by intros _.
Qed.

(** * The partition *)
Definition eq_to (p x : A) : Prop := x = p \/ compare x p = 0.
Definition lt_to (p x : A) : Prop := compare x p < 0.
Definition gt_to (p x : A) : Prop := 0 < compare x p.

(** Equal, smaller, unknown, larger, equal. *)
Record part_inv (l0 : list A) (a n : Z) (p : A) (l : list A) (c : Cursors) : Prop := {
  pi_low : a + 1 <= pa c <= pb c;
  pi_mid : pb c <= pc c + 1;
  pi_high : pc c <= pd c <= a + n - 1;
  pi_perm : perm_seg a (a + n) l0 l;
  pi_pivot : cell l a = p;
  pi_eq1 : seg_all d (eq_to p) l a (pa c);
  pi_lt : seg_all d (lt_to p) l (pa c) (pb c);
  pi_gt : seg_all d (gt_to p) l (pc c + 1) (pd c + 1);
  pi_eq2 : seg_all d (eq_to p) l (pd c + 1) (a + n)
}.

(** A cell of an array in which two cells were exchanged satisfies [P] because
    the cell it came from does. *)
Ltac moved :=
  let k := fresh "k" in let Hk := fresh "Hk" in
  intros k Hk; rewrite getd_exchanged by lia; z_cases;
  match goal with
  | H : seg_all _ ?P _ _ _ |- ?P _ => apply H; lia
  | H : compare (getd _ _ ?i) _ = 0 |- eq_to _ (getd _ _ ?j) => right; replace j with i by lia; exact H
  | H : ?P (getd _ _ ?i) |- ?P (getd _ _ ?j) => replace j with i by lia; exact H
  end.

Lemma part_inv_bounds l0 a n p l c :
  part_inv l0 a n p l c -> 0 <= a /\ a + n <= len l /\ len l = len l0.
Proof.
  intros []. pose proof (perm_seg_bounds _ _ _ _ pi_perm0). pose proof (perm_seg_len _ _ _ _ pi_perm0). lia.
Qed.

Lemma wp_scan_up fuel l0 a n p l c :
  part_inv l0 a n p l c -> pc c - pb c + 1 <= Z.of_nat fuel ->
  wp (scan_up compare fuel l a c) (fun '(l', c') => part_inv l0 a n p l' c' /\
    pc c' = pc c /\ pb c <= pb c' /\ (pb c' <= pc c' -> gt_to p (cell l' (pb c')))).
Proof.
  revert l c. induction fuel as [|fuel IH]; intros l c Hi Hf; cbn [scan_up].
  all: destruct (Z.leb_spec (pb c) (pc c)); [|split_and!; [done|done|lia|lia]].
  { lia. }
  destruct (part_inv_bounds _ _ _ _ _ _ Hi) as (Ha & Hl & _). pose proof Hi as [].
  apply wp_bind, wp_compare; [lia..|]. rewrite pi_pivot0.
  destruct (Z.leb_spec (compare (cell l (pb c)) p) 0); [|split_and!; [done|done|lia|by intros; unfold gt_to]].
  apply wp_bind. destruct (Z.eqb_spec (compare (cell l (pb c)) p) 0) as [He|Hne].
  - apply wp_bind, (wp_swap d); [lia..|]. apply wp_Ok. eapply wp_mono; [apply IH; [|cbn; lia]|].
    + split; cbn [pa pb pc pd]; [lia|lia|lia|..].
      * eapply perm_seg_trans; [done|]. apply exchanged_seg; lia.
      * rewrite getd_exchanged by lia. z_cases. done.
      * moved.
      * moved.
      * moved.
      * moved.
    + intros [l' c'] (H1 & H2 & H3 & H4). cbn in H2, H3. split_and!; [done|done|lia|done].
  - apply wp_Ok. eapply wp_mono; [apply IH; [|cbn; lia]|].
    + split; cbn [pa pb pc pd]; [lia|lia|lia|done..| |done|done].
      intros k Hk. destruct (Z.eq_dec k (pb c)) as [->|]; [unfold lt_to; lia|apply pi_lt0; lia].
    + intros [l' c'] (H1 & H2 & H3 & H4). cbn in H2, H3. split_and!; [done|done|lia|done].
Qed.

Lemma wp_scan_down fuel l0 a n p l c :
  part_inv l0 a n p l c -> pc c - pb c + 1 <= Z.of_nat fuel ->
  (pb c <= pc c -> gt_to p (cell l (pb c))) ->
  wp (scan_down compare fuel l a c) (fun '(l', c') => part_inv l0 a n p l' c' /\
    pc c' <= pc c /\ pb c' = pb c /\
    (pb c' <= pc c' -> gt_to p (cell l' (pb c')) /\ lt_to p (cell l' (pc c')) /\ pb c' < pc c')).
Proof.
  revert l c. induction fuel as [|fuel IH]; intros l c Hi Hf Hgt; cbn [scan_down].
  all: destruct (Z.leb_spec (pb c) (pc c)); [|split_and!; [done|lia|done|lia]].
  { lia. }
  destruct (part_inv_bounds _ _ _ _ _ _ Hi) as (Ha & Hl & _). pose proof Hi as []. specialize (Hgt H).
  apply wp_bind, wp_compare; [lia..|]. rewrite pi_pivot0.
  destruct (Z.leb_spec 0 (compare (cell l (pc c)) p)).
  2:{ split_and!; [done|lia|done|]. intros _. split_and!; [done|done|].
      destruct (Z.eq_dec (pb c) (pc c)) as [E|]; [|lia]. rewrite E in Hgt. unfold gt_to in Hgt. lia. }
  apply wp_bind. destruct (Z.eqb_spec (compare (cell l (pc c)) p) 0) as [He|Hne].
  - apply wp_bind, (wp_swap d); [lia..|]. apply wp_Ok.
    assert (pb c <> pc c) by (intros E; rewrite E in Hgt; unfold gt_to in Hgt; lia).
    eapply wp_mono; [apply IH; [|cbn; lia|]|].
    + split; cbn [pa pb pc pd]; [lia|lia|lia|..].
      * eapply perm_seg_trans; [done|]. apply exchanged_seg; lia.
      * rewrite getd_exchanged by lia. z_cases. done.
      * moved.
      * moved.
      * moved.
      * moved.
    + cbn. intros. rewrite getd_exchanged by lia. z_cases. done.
    + intros [l' c'] (H1' & H2 & H3 & H4). cbn in H2, H3. split_and!; [done|lia|done|done].
  - apply wp_Ok. eapply wp_mono; [apply IH; [|cbn; lia|]|].
    + split; cbn [pa pb pc pd]; [lia|lia|lia|done..| |done].
      intros k Hk. destruct (Z.eq_dec k (pc c)) as [->|]; [unfold gt_to; lia|apply pi_gt0; lia].
    + done.
    + intros [l' c'] (H1' & H2 & H3 & H4). cbn in H2, H3. split_and!; [done|lia|done|done].
Qed.

Lemma wp_partition fuel l0 a n p l c :
  part_inv l0 a n p l c -> pc c - pb c + 1 <= Z.of_nat fuel -> (0 < fuel)%nat ->
  wp (partition compare fuel l a c) (fun '(l', c') => part_inv l0 a n p l' c' /\ pb c' = pc c' + 1).
Proof.
  revert l c. induction fuel as [|fuel IH]; intros l c Hi Hf Hpos; [lia|]. cbn [partition].
  apply wp_bind. eapply wp_mono; [by apply wp_scan_up|]. intros [l1 c1] (Hi1 & Hc1 & Hb1 & Hg1).
  apply wp_bind. eapply wp_mono; [apply wp_scan_down; [done|lia|done]|].
  intros [l2 c2] (Hi2 & Hc2 & Hb2 & Hg2).
  destruct (part_inv_bounds _ _ _ _ _ _ Hi2) as (Ha & Hl & _). pose proof Hi2 as [].
  destruct (Z.ltb_spec (pc c2) (pb c2)); [split; [done|lia]|].
  destruct Hg2 as (Hg2 & Hl2 & Hlt); [done|].
  apply wp_bind, (wp_swap d); [lia..|]. apply IH; [|cbn; lia|lia].
  split; cbn [pa pb pc pd]; [lia|lia|lia|..].
  - eapply perm_seg_trans; [done|]. apply exchanged_seg; lia.
  - rewrite getd_exchanged by lia. z_cases. done.
  - moved.
  - moved.
  - moved.
  - moved.
Qed.

(** * One pass *)

(** Smaller, equal, larger. *)
Record three_way (p : A) l (a n d1 d2 : Z) : Prop := {
  tw_sizes : 0 <= d1 /\ 0 <= d2 /\ d1 + d2 <= n - 1;
  tw_lt : seg_all d (lt_to p) l a (a + d1);
  tw_eq : seg_all d (eq_to p) l (a + d1) (a + n - d2);
  tw_gt : seg_all d (gt_to p) l (a + n - d2) (a + n)
}.

Lemma outside_all (P : A -> Prop) i j l l' u v :
  perm_seg i j l l' -> 0 <= u -> v <= i \/ j <= u -> seg_all d P l u v -> seg_all d P l' u v.
Proof.
  intros Hp Hu Hv H k Hk. rewrite (perm_seg_outside d _ _ _ _ _ Hp) by lia. by apply H.
Qed.

Lemma three_way_left p l l' a n d1 d2 :
  perm_seg a (a + d1) l l' -> three_way p l a n d1 d2 -> three_way p l' a n d1 d2.
Proof.
  intros Hp []. pose proof (perm_seg_bounds _ _ _ _ Hp). split; [done|..].
  - by eapply perm_seg_all.
  - eapply outside_all; [done|lia|lia|done].
  - eapply outside_all; [done|lia|lia|done].
Qed.

Lemma three_way_right p l l' a n d1 d2 :
  0 <= a -> perm_seg (a + n - d2) (a + n) l l' -> three_way p l a n d1 d2 -> three_way p l' a n d1 d2.
Proof.
  intros Ha Hp []. split; [done|..].
  - eapply outside_all; [done|lia|lia|done].
  - eapply outside_all; [done|lia|lia|done].
  - by eapply perm_seg_all.
Qed.

Lemma sorted_outside i j l l' u v :
  perm_seg i j l l' -> 0 <= u -> v <= i \/ j <= u -> sorted_seg l u v -> sorted_seg l' u v.
Proof.
  intros Hp Hu Hv H x y Hx Hy. rewrite !(perm_seg_outside d _ _ _ _ _ Hp) by lia. by apply H.
Qed.

Lemma three_way_sorted p l a n d1 d2 :
  SortComparator compare -> three_way p l a n d1 d2 ->
  sorted_seg l a (a + d1) -> sorted_seg l (a + n - d2) (a + n) -> sorted_seg l a (a + n).
Proof.
  intros Hc [Hsz Hlt Heq Hgt] H1 H2 x y Hx Hy.
  assert (He : forall z, eq_to p z -> compare z p <= 0 /\ compare p z <= 0).
  { intros z [->|Hz]; [rewrite compare_same by done; lia|].
    destruct (Z.le_gt_cases (compare p z) 0) as [|Hgt']; [lia|]. pose proof (proj2 (compare_flip _ _) Hgt'). lia. }
  assert (Hlo : x < a + n - d2 -> compare (cell l x) p <= 0).
  { intros Hxx. destruct (Z.lt_ge_cases x (a + d1)).
    - pose proof (Hlt x ltac:(lia)) as Hk. unfold lt_to in Hk. lia.
    - apply He, Heq. lia. }
  assert (Hhi : a + d1 <= y -> compare p (cell l y) <= 0).
  { intros Hyy. destruct (Z.lt_ge_cases y (a + n - d2)).
    - apply He, Heq. lia.
    - pose proof (Hgt y ltac:(lia)) as Hk. apply compare_flip in Hk. lia. }
  destruct (Z.lt_ge_cases y (a + d1)); [apply H1; lia|].
  destruct (Z.lt_ge_cases x (a + n - d2)); [|apply H2; lia].
  apply compare_trans with p; [by apply Hlo|by apply Hhi].
Qed.

(** The two exchanges bring the equal elements to the middle. *)
Lemma wp_gather l0 a n p l c (Q : list A -> Prop) :
  part_inv l0 a n p l c -> pb c = pc c + 1 ->
  (forall l', perm_seg a (a + n) l0 l' -> three_way p l' a n (pb c - pa c) (pd c - pc c) -> Q l') ->
  wp (ST_SWAPN l a (pb c - Z.min (pa c - a) (pb c - pa c)) (Z.min (pa c - a) (pb c - pa c)))
    (fun l => wp (ST_SWAPN l (pb c) (a + n - Z.min (pd c - pc c) (a + n - pd c - 1))
                    (Z.min (pd c - pc c) (a + n - pd c - 1))) Q).
Proof.
  intros Hi Hb HQ. destruct (part_inv_bounds _ _ _ _ _ _ Hi) as (Ha & Hl & _). destruct Hi.
  apply (wp_swapn d); [lia..|]. intros l1 Hl1 Hp1 Hg1.
  apply (wp_swapn d); [lia..|]. intros l2 Hl2 Hp2 Hg2.
  apply HQ.
  - eapply perm_seg_trans; [done|]. eapply perm_seg_trans; [apply Hp1; lia|]. apply Hp2; lia.
  - split; [lia|..].
    + intros k Hk. rewrite Hg2 by lia. z_cases; rewrite Hg1 by lia; z_cases; apply pi_lt0; lia.
    + intros k Hk. rewrite Hg2 by lia. z_cases; rewrite Hg1 by lia; z_cases; first [apply pi_eq3; lia | apply pi_eq4; lia].
    + intros k Hk. rewrite Hg2 by lia. z_cases; rewrite Hg1 by lia; z_cases; apply pi_gt0; lia.
Qed.

(** What the sort promises of the elements from [a] to [a + n]. *)
Definition sorts_seg l (a n : Z) l' : Prop :=
  perm_seg a (a + n) l l' /\ (SortComparator compare -> sorted_seg l' a (a + n)).

(** What a pass of [ST_SORT] promises: it is done, or what is left to do is to
    sort a smaller part. *)
Definition pass_post l (a n : Z) (o : list A + list A * Z * Z) : Prop :=
  match o with
  | inl l' => sorts_seg l a n l'
  | inr (l', a', n') =>
      0 <= a' /\ 1 < n' < n /\ a' + n' <= len l' /\
      forall l'', sorts_seg l' a' n' l'' -> sorts_seg l a n l''
  end.

Lemma sorts_seg_refl l a n :
  0 <= a -> 0 <= n <= 1 -> a + n <= len l -> sorts_seg l a n l.
Proof.
  intros. split; [apply perm_seg_refl; lia|]. intros Hc. apply sorted_seg_small; [done|lia].
Qed.

(** Both parts of a partitioned segment sorted, in either order. *)
Lemma three_way_sorts p l0 l l1 l2 a n d1 d2 :
  perm_seg a (a + n) l0 l -> three_way p l a n d1 d2 ->
  sorts_seg l a d1 l1 /\ sorts_seg l1 (a + n - d2) d2 l2 \/
  sorts_seg l (a + n - d2) d2 l1 /\ sorts_seg l1 a d1 l2 ->
  sorts_seg l0 a n l2.
Proof.
  intros Hp Ht Hs. pose proof (perm_seg_bounds _ _ _ _ Hp) as Hb. pose proof (perm_seg_len _ _ _ _ Hp) as Hl.
  pose proof (tw_sizes _ _ _ _ _ _ Ht) as Hsz. destruct Hs as [[[H1 S1] [H2 S2]]|[[H1 S1] [H2 S2]]].
  all: replace (a + n - d2 + d2) with (a + n) in * by lia.
  all: pose proof (perm_seg_len _ _ _ _ H1) as Hl1; pose proof (perm_seg_len _ _ _ _ H2) as Hl2.
  all: split; [do 2 (eapply perm_seg_trans; [eassumption || (eapply perm_seg_weaken; [..|eassumption]; lia)|]);
               eapply perm_seg_weaken; [..|eassumption]; lia|].
  all: intros Hc; apply (three_way_sorted p _ _ _ d1 d2 Hc).
  - apply (three_way_right _ l1); [lia|done|]. by apply (three_way_left _ l).
  - eapply sorted_outside; [exact H2|lia|lia|auto].
  - auto.
  - apply (three_way_left _ l1); [done|]. apply (three_way_right _ l); [lia|done|done].
  - auto.
  - eapply sorted_outside; [exact H2|lia|lia|auto].
Qed.

(** The recursive call does its job on every part of at most half the size. *)
Definition sorter (DO_SORT : list A -> Z -> Z -> res (list A)) (n : Z) : Prop :=
  forall l a m, 0 <= a -> 1 < m -> 2 * m < n -> a + m <= len l -> wp (DO_SORT l a m) (sorts_seg l a m).

Lemma wp_sort_part DO_SORT l a m n :
  sorter DO_SORT n -> 0 <= a -> 0 <= m -> 2 * m < n -> a + m <= len l ->
  wp (if 1 <? m then DO_SORT l a m else Ok l) (sorts_seg l a m).
Proof.
  intros Hr Ha Hm Hn Hl. destruct (Z.ltb_spec 1 m); [by apply Hr|]. apply sorts_seg_refl; lia.
Qed.

Lemma wp_sort_pass DO_SORT l a n :
  sorter DO_SORT n -> 0 <= a -> 0 <= n -> a + n <= len l ->
  wp (sort_pass compare DO_SORT l a n) (pass_post l a n).
Proof.
  intros Hr Ha Hn Hl. unfold sort_pass. destruct (Z.ltb_spec n 7).
  { apply wp_bind. by eapply wp_mono; [apply wp_insertion_sort|]. }
  apply wp_bind. eapply wp_mono; [apply wp_presorted; lia|]. intros sorted Hpre.
  destruct sorted; [split; [apply perm_seg_refl; lia|by apply Hpre]|].
  apply wp_bind, wp_choose_pivot; [lia..|]. intros pm Hpm. apply wp_bind, (wp_swap d); [lia..|].
  apply wp_bind. eapply wp_mono; [apply (wp_partition _ l a n (cell (exchanged d l a pm) a)); [|cbn; lia|lia]|].
  { split; cbn [pa pb pc pd]; try lia; [by apply exchanged_seg; lia|done|..].
    - intros k Hk. left. f_equal. lia.
    - intros k Hk. lia.
    - intros k Hk. lia.
    - intros k Hk. lia. }
  intros [l1 c] [Hi Hbc]. pose proof Hi as [Hlow _ Hhigh _ _ _ _ _ _].
  apply wp_bind. eapply wp_mono; [eapply wp_gather; [done|done|]|intros l2 Hl2; apply wp_bind, Hl2].
  intros l3 Hp Ht. pose proof (perm_seg_len _ _ _ _ Hp). pose proof (tw_sizes _ _ _ _ _ _ Ht) as Hsz.
  destruct (Z.leb_spec (pb c - pa c) (pd c - pc c)).
  all: apply wp_bind; eapply wp_mono; [apply (wp_sort_part _ _ _ _ n); [done|lia..]|]; intros l4 Hs4.
  all: pose proof (perm_seg_len _ _ _ _ (proj1 Hs4)).
  - destruct (Z.ltb_spec 1 (pd c - pc c)); apply wp_Ok.
    + split_and!; [lia..|]. intros l5 Hs5. eapply three_way_sorts; [done|done|left; done].
    + eapply three_way_sorts; [done|done|left; split; [done|apply sorts_seg_refl; lia]].
  - destruct (Z.ltb_spec 1 (pb c - pa c)); apply wp_Ok.
    + split_and!; [lia..|]. intros l5 Hs5. eapply three_way_sorts; [done|done|right; done].
    + eapply three_way_sorts; [done|done|right; split; [done|apply sorts_seg_refl; lia]].
Qed.

Lemma wp_sort_loop fuel DO_SORT l a n :
  sorter DO_SORT n -> 0 <= a -> 0 <= n < Z.of_nat fuel -> a + n <= len l ->
  wp (sort_loop compare fuel DO_SORT l a n) (sorts_seg l a n).
Proof.
  revert l a n. induction fuel as [|fuel IH]; intros l a n Hr Ha Hn Hl; [lia|]. cbn [sort_loop].
  apply wp_bind. eapply wp_mono; [apply wp_sort_pass; done || lia|].
  intros [l'|[[l' a'] n']]; [done|]. intros (Ha' & Hn' & Hl' & Hk).
  eapply wp_mono; [apply IH; [|done|lia|done]|done].
  intros l2 a2 m2 H1 H2 H3 H4. apply Hr; [done|done|lia|done].
Qed.

(** [log2 n + 1] frames are enough, on any comparator. *)
Lemma wp_ST_SORT frames l a n :
  0 <= a -> 0 <= n -> a + n <= len l -> Z.log2 n < Z.of_nat frames ->
  wp (ST_SORT compare frames l a n) (sorts_seg l a n).
Proof.
  revert l a n. induction frames as [|frames IH]; intros l a n Ha Hn Hl Hf; cbn [ST_SORT].
  { pose proof (Z.log2_nonneg n). lia. }
  apply wp_sort_loop; [|lia..]. intros l2 a2 m H1 H2 H3 H4. apply IH; [lia..|].
  assert (Z.log2 (2 * m) <= Z.log2 n) by (apply Z.log2_le_mono; lia).
  rewrite Z.log2_double in H by lia. lia.
Qed.

End correctness.

(** * The whole array *)
Lemma StronglySorted_lookup {A} (R : relation A) (l : list A) :
  (forall i j x y, (i < j)%nat -> l !! i = Some x -> l !! j = Some y -> R x y) <-> StronglySorted R l.
Proof.
  split.
  - induction l as [|x l IH]; intros H; constructor.
    + apply IH. intros i j u v Hij Hu Hv. apply (H (S i) (S j)); [lia|done|done].
    + apply Forall_lookup_2. intros i y Hy. apply (H 0%nat (S i)); [lia|done|done].
  - induction 1 as [|x l Hs IH Hx]; intros i j u v Hij Hu Hv; [done|].
    destruct j as [|j]; [lia|]. destruct i as [|i]; simpl in Hu, Hv.
    + simplify_eq. by eapply Forall_lookup_1.
    + apply (IH i j); [lia|done|done].
Qed.

Lemma StronglySorted_mono {A} (R1 R2 : relation A) (l : list A) :
  (forall x y, R1 x y -> R2 x y) -> StronglySorted R1 l -> StronglySorted R2 l.
Proof. rewrite <- !StronglySorted_lookup. eauto. Qed.

Lemma sorted_seg_StronglySorted {A} (compare : A -> A -> Z) (d : A) l :
  sorted_seg compare d l 0 (len l) -> StronglySorted (fun x y => compare x y <= 0) l.
Proof.
  intros H. apply StronglySorted_lookup. intros i j x y Hij Hx Hy.
  pose proof (lookup_lt_Some _ _ _ Hy). specialize (H (Z.of_nat i) (Z.of_nat j)).
  unfold getd, len in H. rewrite !Nat2Z.id, Hx, Hy in H. apply H; lia.
Qed.

Lemma qsort_arg_sorts {A} (compare : A -> A -> Z) (l : list A) :
  exists l', qsort_arg compare l = Ok l' /\ l' ≡ₚ l /\
    (SortComparator compare -> StronglySorted (fun x y => compare x y <= 0) l').
Proof.
  apply wp_ok. destruct l as [|d l].
  { cbn. split; [done|]. intros _. constructor. }
  unfold qsort_arg. eapply wp_mono; [apply (wp_ST_SORT _ d); [lia|apply len_nonneg|lia|]|].
  { unfold frames_for. pose proof (Z.log2_nonneg (len (d :: l))). lia. }
  intros l' [Hp Hs]. split; [symmetry; by eapply perm_seg_perm|]. intros Hc.
  apply (sorted_seg_StronglySorted _ d). rewrite (perm_seg_len _ _ _ _ Hp). by apply Hs.
Qed.
