(* ===== verification/Double.v ===== *)
(** C's [double], IEEE 754 binary64, by the executable specification of the
    standard library ([spec_float]): the operations round to nearest even.  A
    NaN has no payload here.  [double_bits] is the 8-byte representation. *)
From Stdlib Require Export SpecFloat.
From S2P Require Import Prelude.
Open Scope Z_scope.

Definition double : Type := spec_float.

Definition d_prec : Z := 53.
Definition d_emax : Z := 1024.

Definition d_zero : double := S754_zero false.
Definition d_one : double := S754_finite false 4503599627370496 (-52).

(** An [int] converted to [double]. *)
Definition d_of_Z (z : Z) : double := binary_normalize d_prec d_emax z 0 false.

Definition d_add : double -> double -> double := SFadd d_prec d_emax.
Definition d_sub : double -> double -> double := SFsub d_prec d_emax.
Definition d_mul : double -> double -> double := SFmul d_prec d_emax.
Definition d_div : double -> double -> double := SFdiv d_prec d_emax.

Definition d_eqb : double -> double -> bool := SFeqb.
Definition d_ltb : double -> double -> bool := SFltb.
Definition d_leb : double -> double -> bool := SFleb.

Definition sign_bit (s : bool) : Z := if s then 2 ^ 63 else 0.

(** The bit pattern: sign, 11 bits of biased exponent, 52 bits of fraction. *)
Definition double_bits (x : double) : Z :=
  match x with
  | S754_zero s => sign_bit s
  | S754_infinity s => sign_bit s + 2047 * 2 ^ 52
  | S754_nan => 2047 * 2 ^ 52 + 2 ^ 51
  | S754_finite s m e =>
      if Z.pos m <? 2 ^ 52 then sign_bit s + Z.pos m
      else sign_bit s + (e + 1075) * 2 ^ 52 + (Z.pos m - 2 ^ 52)
  end.

Definition double_of_bits (b : Z) : double :=
  let s := 2 ^ 63 <=? b in
  let e := (b / 2 ^ 52) mod 2 ^ 11 in
  let f := b mod 2 ^ 52 in
  if e =? 0 then
    match f with Z.pos m => S754_finite s m (-1074) | _ => S754_zero s end
  else if e =? 2047 then (if f =? 0 then S754_infinity s else S754_nan)
  else match f + 2 ^ 52 with Z.pos m => S754_finite s m (e - 1075) | _ => S754_nan end.

Example one_third : double_bits (d_div (d_of_Z 1) (d_of_Z 3)) = 0x3FD5555555555555.
Proof. reflexivity. Qed.

Example one_bits : double_bits d_one = 0x3FF0000000000000 /\ double_of_bits 0x3FF0000000000000 = d_one.
Proof. split; reflexivity. Qed.

Example of_int : double_bits (d_of_Z 2147483647) = 0x41DFFFFFFFC00000.
Proof. reflexivity. Qed.

(** * Quotients of small integers *)

Lemma digits2_pos_spec p : 2 ^ (Z.pos (digits2_pos p) - 1) <= Z.pos p < 2 ^ Z.pos (digits2_pos p).
Proof.
  induction p as [p IH|p IH|]; cbn [digits2_pos]; [..|lia].
  all: rewrite Pos2Z.inj_succ; rewrite Z.pow_succ_r by lia.
  all: replace (Z.succ (Z.pos (digits2_pos p)) - 1) with (Z.succ (Z.pos (digits2_pos p) - 1)) by lia.
  all: rewrite Z.pow_succ_r by lia; lia.
Qed.

Lemma digits2_pos_unique p d : 0 < d -> 2 ^ (d - 1) <= Z.pos p < 2 ^ d -> Z.pos (digits2_pos p) = d.
Proof.
  intros Hd Hp. pose proof (digits2_pos_spec p) as Hs.
  destruct (Z.lt_trichotomy (Z.pos (digits2_pos p)) d) as [H|[H|H]]; [|done|].
  - pose proof (Z.pow_le_mono_r 2 (Z.pos (digits2_pos p)) (d - 1)). lia.
  - pose proof (Z.pow_le_mono_r 2 d (Z.pos (digits2_pos p) - 1)). lia.
Qed.

(** The exponent of a number of [dg] digits at exponent [e] does not underflow. *)
Lemma fexp_normal dg e : - 1021 <= dg + e -> fexp d_prec d_emax (dg + e) = dg + e - 53.
Proof. unfold fexp, emin, d_prec, d_emax. lia. Qed.

Lemma shr_fexp_same p e l :
  2 ^ 52 <= Z.pos p < 2 ^ 53 -> - 1074 <= e ->
  shr_fexp d_prec d_emax (Z.pos p) e l = (shr_record_of_loc (Z.pos p) l, e).
Proof.
  intros Hp He. unfold shr_fexp. cbn [Zdigits2]. rewrite (digits2_pos_unique p 53) by (done || lia).
  rewrite fexp_normal by lia. replace (53 + e - 53 - e) with 0 by lia. done.
Qed.

Lemma shr_fexp_one p e l :
  2 ^ 53 <= Z.pos p < 2 ^ 54 -> - 1074 <= e ->
  shr_fexp d_prec d_emax (Z.pos p) e l = (shr_1 (shr_record_of_loc (Z.pos p) l), e + 1).
Proof.
  intros Hp He. unfold shr_fexp. cbn [Zdigits2]. rewrite (digits2_pos_unique p 54) by (done || lia).
  rewrite fexp_normal by lia. replace (54 + e - 53 - e) with 1 by lia. done.
Qed.

Lemma shr_1_half p l : (1 < p)%positive -> shr_m (shr_1 (shr_record_of_loc (Z.pos p) l)) = Z.pos p / 2.
Proof.
  intros Hp. assert (shr_record_of_loc (Z.pos p) l = {| shr_m := Z.pos p;
    shr_r := shr_r (shr_record_of_loc (Z.pos p) l); shr_s := shr_s (shr_record_of_loc (Z.pos p) l) |}) as ->
    by by destruct l as [|[]].
  destruct p as [p|p|]; [| |lia]; cbn.
  - rewrite (Pos2Z.inj_xI p). apply (Z.div_unique _ _ _ 1); lia.
  - rewrite (Pos2Z.inj_xO p). apply (Z.div_unique _ _ _ 0); lia.
Qed.

Lemma shr_record_m m l : shr_m (shr_record_of_loc m l) = m.
Proof. by destruct l as [|[]]. Qed.

Lemma round_even_range m l : m <= round_nearest_even m l <= m + 1.
Proof. destruct l as [|[]]; cbn; [lia| |lia|lia]. destruct (Z.even m); lia. Qed.

(** The second normalisation, after a mantissa was rounded up. *)
Lemma renormalise m e :
  2 ^ 52 <= m <= 2 ^ 53 -> - 1074 <= e ->
  exists p e', shr_fexp d_prec d_emax m e loc_Exact = ({| shr_m := Z.pos p; shr_r := false; shr_s := false |}, e') /\
    2 ^ 52 <= Z.pos p < 2 ^ 53 /\ e <= e' <= e + 1 /\ (m < 2 ^ 53 -> Z.pos p = m /\ e' = e).
Proof.
  intros Hm He. destruct m as [|p|p]; [lia| |lia]. destruct (Z.eq_dec (Z.pos p) (2 ^ 53)) as [E|Hne].
  - rewrite shr_fexp_one by lia. injection E as ->. exists (2 ^ 52)%positive, (e + 1). split; [done|]. lia.
  - rewrite shr_fexp_same by lia. exists p, e. split; [done|]. lia.
Qed.

(** Rounding a mantissa of 53 or 54 digits. *)
Lemma round_aux_spec q e l :
  2 ^ 52 <= q < 2 ^ 54 -> - 1074 <= e <= 969 ->
  exists p e', binary_round_aux d_prec d_emax false q e l = S754_finite false p e' /\
    2 ^ 52 <= Z.pos p < 2 ^ 53 /\ e <= e' <= e + 2 /\
    (q < 2 ^ 53 - 1 -> e' = e) /\ (q < 2 ^ 54 - 2 -> e' <= e + 1) /\
    (l = loc_Exact -> q < 2 ^ 53 -> Z.pos p = q /\ e' = e) /\
    (l = loc_Exact -> q = 2 ^ 53 -> Z.pos p = 2 ^ 52 /\ e' = e + 1).
Proof.
  intros Hq He. destruct q as [|q|q]; [lia| |lia]. unfold binary_round_aux.
  destruct (Z.lt_ge_cases (Z.pos q) (2 ^ 53)) as [Hlt|Hge].
  - rewrite shr_fexp_same by lia. rewrite shr_record_m.
    pose proof (round_even_range (Z.pos q) (loc_of_shr_record (shr_record_of_loc (Z.pos q) l))) as Hr.
    set (m := round_nearest_even _ _) in *.
    destruct (renormalise m e ltac:(lia) ltac:(lia)) as (p & e' & -> & Hp & He' & Hsame).
    cbn [shr_m]. destruct (Z.leb_spec e' (d_emax - d_prec)); [|unfold d_emax, d_prec in *; lia].
    exists p, e'. split; [done|]. split; [done|]. split; [lia|]. split; [lia|]. split; [lia|]. split; [|lia].
    intros -> _. cbn in m. subst m. apply Hsame. lia.
  - rewrite shr_fexp_one by lia. rewrite shr_1_half by lia.
    pose proof (Z.div_mod (Z.pos q) 2 ltac:(lia)). pose proof (Z.mod_pos_bound (Z.pos q) 2 ltac:(lia)).
    pose proof (round_even_range (Z.pos q / 2) (loc_of_shr_record (shr_1 (shr_record_of_loc (Z.pos q) l)))) as Hr.
    set (m := round_nearest_even _ _) in *.
    destruct (renormalise m (e + 1) ltac:(lia) ltac:(lia)) as (p & e' & -> & Hp & He' & Hsame).
    cbn [shr_m]. destruct (Z.leb_spec e' (d_emax - d_prec)); [|unfold d_emax, d_prec in *; lia].
    exists p, e'. split; [done|]. split; [done|]. split; [lia|]. split; [lia|]. split; [lia|]. split; [lia|].
    intros -> Hq2. injection Hq2 as ->. cbn in m. subst m. apply Hsame. lia.
Qed.

Lemma iter_xO p d : Z.pos (Pos.iter xO p d) = Z.pos p * 2 ^ Z.pos d.
Proof.
  revert p. induction d as [|d IH] using Pos.peano_ind; intros p; [cbn; lia|].
  rewrite Pos.iter_succ, Pos2Z.inj_xO, IH, Pos2Z.inj_succ, Z.pow_succ_r by lia. lia.
Qed.

(** An int of [dg] digits, exactly. *)
Lemma d_of_Z_spec z :
  1 <= z < 2 ^ 31 -> exists p dg, 1 <= dg <= 31 /\ 2 ^ (dg - 1) <= z < 2 ^ dg /\
    d_of_Z z = S754_finite false p (dg - 53) /\ Z.pos p = z * 2 ^ (53 - dg) /\ 2 ^ 52 <= Z.pos p < 2 ^ 53.
Proof.
  intros Hz. destruct z as [|p|p]; [lia| |lia]. pose proof (digits2_pos_spec p) as Hd.
  set (dg := Z.pos (digits2_pos p)) in *.
  assert (Hdg : 1 <= dg <= 31).
  { split; [lia|]. destruct (Z.le_gt_cases dg 31); [done|]. pose proof (Z.pow_le_mono_r 2 31 (dg - 1)). lia. }
  unfold d_of_Z, binary_normalize, binary_round. fold dg. rewrite fexp_normal by lia. unfold shl_align.
  rewrite Z.add_0_r, Z.sub_0_r. destruct (dg - 53) as [|q|q] eqn:E; [lia|lia|].
  assert (Hq : Z.pos q = 53 - dg) by lia.
  assert (Hv : Z.pos (Pos.iter xO p q) = Z.pos p * 2 ^ (53 - dg)) by (rewrite iter_xO; by rewrite Hq).
  assert (Hr : 2 ^ 52 <= Z.pos (Pos.iter xO p q) < 2 ^ 53).
  { assert (2 ^ 52 = 2 ^ (dg - 1) * 2 ^ (53 - dg)) as -> by (rewrite <- Z.pow_add_r by lia; f_equal; lia).
    assert (2 ^ 53 = 2 ^ dg * 2 ^ (53 - dg)) as -> by (rewrite <- Z.pow_add_r by lia; f_equal; lia).
    rewrite Hv. pose proof (Z.pow_pos_nonneg 2 (53 - dg)). nia. }
  destruct (round_aux_spec (Z.pos (Pos.iter xO p q)) (Z.neg q) loc_Exact ltac:(lia) ltac:(lia))
    as (m & e' & -> & Hm & _ & _ & _ & Hex & _).
  destruct Hex as [Hpm ->]; [done|lia|]. exists m, dg. rewrite E. split_and!; [lia..|done|by rewrite Hpm|lia|lia].
Qed.

(** Multiplication by 1.0. *)
Lemma d_mul_one p e :
  2 ^ 52 <= Z.pos p < 2 ^ 53 -> - 1000 <= e <= 900 -> d_mul (S754_finite false p e) d_one = S754_finite false p e.
Proof.
  intros Hp He. unfold d_mul, SFmul, d_one, binary_round_aux. cbn [xorb].
  assert (H : shr_fexp d_prec d_emax (Z.pos (p * 4503599627370496)) (e + -52) loc_Exact =
    ({| shr_m := Z.pos p; shr_r := false; shr_s := false |}, e)).
  { unfold shr_fexp. cbn [Zdigits2]. rewrite (digits2_pos_unique _ 105) by lia. rewrite fexp_normal by lia.
    replace (105 + (e + -52) - 53 - (e + -52)) with 52 by lia. unfold SpecFloat.shr. f_equal; [|lia].
    replace (p * 4503599627370496)%positive with (Pos.iter xO p 52) by (apply Pos2Z.inj; rewrite iter_xO; lia).
    reflexivity. }
  rewrite H. cbn [shr_m loc_of_shr_record round_nearest_even]. rewrite shr_fexp_same by lia.
  cbn [shr_record_of_loc shr_m].
  destruct (Z.leb_spec e (d_emax - d_prec)) as [_|Hb]; [done|unfold d_emax, d_prec in Hb; lia].
Qed.

(** The degree [n / m] as the code computes it. *)
Definition d_ratio (n m : Z) : double := d_div (d_mul (d_of_Z n) d_one) (d_of_Z m).

(** The quotient of the mantissas of two numbers. *)
Lemma div_core n m p1 p2 d1 d2 :
  1 <= n <= m -> 1 <= d1 <= 31 -> 1 <= d2 <= 31 ->
  2 ^ (d1 - 1) <= n < 2 ^ d1 -> 2 ^ (d2 - 1) <= m < 2 ^ d2 ->
  Z.pos p1 = n * 2 ^ (53 - d1) -> Z.pos p2 = m * 2 ^ (53 - d2) ->
  2 ^ 52 <= Z.pos p1 < 2 ^ 53 -> 2 ^ 52 <= Z.pos p2 < 2 ^ 53 ->
  exists q l, SFdiv_core_binary d_prec d_emax (Z.pos p1) (d1 - 53) (Z.pos p2) (d2 - 53) = (q, d1 - d2 - 53, l) /\
    q = n * 2 ^ (53 + d2 - d1) / m /\ 2 ^ 52 <= q < 2 ^ 54 /\ (n = m -> l = loc_Exact).
Proof.
  intros Hn Hd1 Hd2 Hn1 Hm1 Hp1 Hp2 Hr1 Hr2. unfold SFdiv_core_binary. cbn [Zdigits2].
  rewrite (digits2_pos_unique p1 53), (digits2_pos_unique p2 53) by (done || lia).
  assert (Hf : fexp d_prec d_emax (53 + (d1 - 53) - (53 + (d2 - 53))) = d1 - d2 - 53).
  { unfold fexp, emin, d_prec, d_emax. lia. }
  rewrite Hf, Z.min_l by lia. replace (d1 - 53 - (d2 - 53) - (d1 - d2 - 53)) with 53 by lia.
  rewrite Z.shiftl_mul_pow2 by lia.
  pose proof (Z.div_eucl_eq (Z.pos p1 * 2 ^ 53) (Z.pos p2) ltac:(lia)) as Hdiv.
  pose proof (Z.mod_pos_bound (Z.pos p1 * 2 ^ 53) (Z.pos p2) ltac:(lia)) as Hmod.
  unfold Z.modulo in Hmod. destruct (Z.div_eucl (Z.pos p1 * 2 ^ 53) (Z.pos p2)) as [q r].
  exists q, (new_location (Z.pos p2) r). split; [done|].
  assert (Hq : q = Z.pos p1 * 2 ^ 53 / Z.pos p2) by (apply (Z.div_unique _ _ _ r); lia).
  assert (d1 <= d2).
  { destruct (Z.le_gt_cases d1 d2); [done|]. pose proof (Z.pow_le_mono_r 2 d2 (d1 - 1)). lia. }
  split; [|split].
  - rewrite Hq, Hp1, Hp2.
    replace (n * 2 ^ (53 - d1) * 2 ^ 53) with (n * 2 ^ (53 + d2 - d1) * 2 ^ (53 - d2)).
    + rewrite Z.div_mul_cancel_r; [done|lia|]. pose proof (Z.pow_pos_nonneg 2 (53 - d2)). lia.
    + rewrite <- !Z.mul_assoc, <- !Z.pow_add_r by lia. do 2 f_equal. lia.
  - rewrite Hq. split.
    + apply Z.div_le_lower_bound; [lia|]. nia.
    + apply Z.div_lt_upper_bound; [lia|]. nia.
  - intros ->. assert (d1 = d2).
    { destruct (Z.eq_dec d1 d2); [done|]. pose proof (Z.pow_le_mono_r 2 d1 (d2 - 1)). lia. }
    assert (r = 0) as ->.
    { subst d2. rewrite <- Hp2 in Hp1. rewrite Hp1 in *. assert (q = 2 ^ 53) by nia. nia. }
    unfold new_location. destruct (Z.even (Z.pos p2)); done.
Qed.

Lemma d_ratio_pos n m :
  1 <= n <= m -> m < 2 ^ 31 ->
  exists p e, d_ratio n m = S754_finite false p e /\ 2 ^ 52 <= Z.pos p < 2 ^ 53 /\ - 100 <= e /\
    (n < m -> e <= - 53) /\ (n = m -> Z.pos p = 2 ^ 52 /\ e = - 52).
Proof.
  intros Hn Hm. unfold d_ratio.
  destruct (d_of_Z_spec n ltac:(lia)) as (p1 & d1 & Hd1 & Hn1 & -> & Hp1 & Hr1).
  destruct (d_of_Z_spec m ltac:(lia)) as (p2 & d2 & Hd2 & Hm1 & -> & Hp2 & Hr2).
  rewrite d_mul_one by lia. unfold d_div, SFdiv.
  destruct (div_core n m p1 p2 d1 d2) as (q & l & -> & Hq & Hrq & Hl); try done. cbn [xorb].
  destruct (round_aux_spec q (d1 - d2 - 53) l Hrq ltac:(lia)) as (p & e & -> & Hp & He & H1 & H2 & _ & H4).
  assert (d1 <= d2).
  { destruct (Z.le_gt_cases d1 d2); [done|]. pose proof (Z.pow_le_mono_r 2 d2 (d1 - 1)). lia. }
  exists p, e. split_and!; [done|lia|lia|lia| |].
  - intros Hlt. destruct (Z.le_gt_cases (d2 - d1) 1) as [Hle|]; [|lia].
    assert (Hb : q <= 2 ^ (53 + d2 - d1) - 2 ^ 22).
    { rewrite Hq. apply Z.lt_succ_r, Z.div_lt_upper_bound; [lia|].
      assert (2 ^ 53 <= 2 ^ (53 + d2 - d1)) by (apply Z.pow_le_mono_r; lia). nia. }
    destruct (Z.eq_dec d1 d2) as [->|].
    + replace (53 + d2 - d2) with 53 in Hb by lia. lia.
    + replace (53 + d2 - d1) with 54 in Hb by lia. lia.
  - intros ->. assert (d1 = d2) as ->.
    { destruct (Z.eq_dec d1 d2); [done|]. pose proof (Z.pow_le_mono_r 2 d1 (d2 - 1)). lia. }
    assert (Hq' : q = 2 ^ 53).
    { rewrite Hq. replace (53 + d2 - d2) with 53 by lia. rewrite Z.mul_comm. apply Z.div_mul. lia. }
    specialize (H4 (Hl eq_refl) Hq'). lia.
Qed.

Lemma d_ratio_zero m : 1 <= m < 2 ^ 31 -> d_ratio 0 m = d_zero.
Proof.
  intros Hm. unfold d_ratio. destruct (d_of_Z_spec m Hm) as (p & dg & _ & _ & -> & _). reflexivity.
Qed.

(** The degree is 0.0 exactly when no row supports the dependency. *)
Lemma d_ratio_eq_zero n m : 0 <= n <= m -> 1 <= m < 2 ^ 31 -> d_eqb (d_ratio n m) d_zero = (n =? 0).
Proof.
  intros Hn Hm. destruct (Z.eqb_spec n 0) as [->|].
  - by rewrite d_ratio_zero.
  - by destruct (d_ratio_pos n m ltac:(lia) ltac:(lia)) as (p & e & -> & _).
Qed.

(** It is 1.0 exactly when all rows do. *)
Lemma d_ratio_eq_one n m : 0 <= n <= m -> 1 <= m < 2 ^ 31 -> d_ratio n m = d_one <-> n = m.
Proof.
  intros Hn Hm. destruct (Z.eq_dec n 0) as [->|].
  { rewrite d_ratio_zero by lia. split; [discriminate|lia]. }
  destruct (d_ratio_pos n m ltac:(lia) ltac:(lia)) as (p & e & -> & Hp & He & Hlt & Heq). unfold d_one. split.
  - intros [= -> ->]. lia.
  - intros E. destruct (Heq E) as [Hp2 ->]. f_equal. apply Pos2Z.inj. by rewrite Hp2.
Qed.

Lemma d_ratio_range n m :
  0 <= n <= m -> 1 <= m < 2 ^ 31 -> d_leb d_zero (d_ratio n m) = true /\ d_leb (d_ratio n m) d_one = true.
Proof.
  intros Hn Hm. destruct (Z.eq_dec n 0) as [->|]; [by rewrite d_ratio_zero|].
  destruct (d_ratio_pos n m ltac:(lia) ltac:(lia)) as (p & e & -> & Hp & He & Hlt & Heq). split; [done|].
  unfold d_leb, SFleb, d_one. cbn [SFcompare].
  destruct (Z.eq_dec n m) as [E|].
  - destruct (Heq E) as [Hp2 ->]. replace p with 4503599627370496%positive by lia. vm_compute. reflexivity.
  - assert (Z.compare e (-52) = Lt) as H by (apply Z.compare_lt_iff; lia). change IntDef.Z.compare with Z.compare. by rewrite H.
Qed.

(** * The representation *)
Definition d_valid (x : double) : bool := valid_binary d_prec d_emax x.

Lemma d_valid_finite s p e :
  d_valid (S754_finite s p e) = true -> (Z.pos p < 2 ^ 52 /\ e = - 1074) \/ (2 ^ 52 <= Z.pos p < 2 ^ 53 /\ - 1074 <= e <= 971).
Proof.
  unfold d_valid, valid_binary, bounded, canonical_mantissa. rewrite andb_true_iff. intros [H1 H2].
  apply Z.eqb_eq in H1. apply Z.leb_le in H2. pose proof (digits2_pos_spec p) as Hd.
  unfold fexp, emin, d_prec, d_emax in *. set (dg := Z.pos (digits2_pos p)) in *.
  change (IntDef.Z.add dg e) with (dg + e) in *.
  destruct (Z.eq_dec dg 53) as [E|].
  - right. rewrite E in Hd. lia.
  - left. pose proof (Z.pow_le_mono_r 2 dg 52). lia.
Qed.

Lemma d_ratio_valid n m : 0 <= n <= m -> 1 <= m < 2 ^ 31 -> d_valid (d_ratio n m) = true.
Proof.
  intros Hn Hm. destruct (Z.eq_dec n 0) as [->|]; [by rewrite d_ratio_zero|].
  destruct (d_ratio_pos n m ltac:(lia) ltac:(lia)) as (p & e & -> & Hp & He & Hlt & Heq).
  unfold d_valid, valid_binary, bounded, canonical_mantissa. apply andb_true_iff.
  rewrite (digits2_pos_unique p 53) by (done || lia). unfold fexp, emin, d_prec, d_emax.
  split; [apply Z.eqb_eq|apply Z.leb_le]; destruct (Z.eq_dec n m); lia.
Qed.

Lemma double_bits_range x : d_valid x = true -> 0 <= double_bits x < 2 ^ 64.
Proof.
  intros Hv. destruct x as [s|s| |s p e]; [destruct s; cbn; lia|destruct s; cbn; lia|cbn; lia|].
  apply d_valid_finite in Hv. unfold double_bits, sign_bit. z_cases; destruct s; lia.
Qed.

Lemma bits_fields (s : bool) (ex f : Z) :
  0 <= ex < 2 ^ 11 -> 0 <= f < 2 ^ 52 ->
  let b := sign_bit s + ex * 2 ^ 52 + f in
  (2 ^ 63 <=? b) = s /\ (b / 2 ^ 52) mod 2 ^ 11 = ex /\ b mod 2 ^ 52 = f.
Proof.
  intros He Hf b. assert (Hb : b = ((if s then 2 ^ 11 else 0) + ex) * 2 ^ 52 + f).
  { unfold b, sign_bit. destruct s; lia. }
  split_and!.
  - unfold b, sign_bit. destruct s; z_cases; done || lia.
  - assert (b / 2 ^ 52 = (if s then 2 ^ 11 else 0) + ex) as ->.
    { rewrite Hb. symmetry. apply (Z.div_unique _ _ _ f); lia. }
    symmetry. apply (Z.mod_unique _ _ (if s then 1 else 0)); destruct s; lia.
  - rewrite Hb. symmetry. apply (Z.mod_unique _ _ ((if s then 2 ^ 11 else 0) + ex)); lia.
Qed.

Lemma double_roundtrip x : d_valid x = true -> double_of_bits (double_bits x) = x.
Proof.
  intros Hv. destruct x as [s|s| |s p e]; [by destruct s|by destruct s|done|].
  apply d_valid_finite in Hv. unfold double_bits. destruct (Z.ltb_spec (Z.pos p) (2 ^ 52)).
  - destruct (bits_fields s 0 (Z.pos p) ltac:(lia) ltac:(lia)) as (H1 & H2 & H3).
    unfold double_of_bits. replace (sign_bit s + Z.pos p) with (sign_bit s + 0 * 2 ^ 52 + Z.pos p) by lia.
    rewrite H1, H2, H3. cbn. f_equal. lia.
  - destruct (bits_fields s (e + 1075) (Z.pos p - 2 ^ 52) ltac:(lia) ltac:(lia)) as (H1 & H2 & H3).
    unfold double_of_bits. rewrite H1, H2, H3.
    destruct (Z.eqb_spec (e + 1075) 0); [lia|]. destruct (Z.eqb_spec (e + 1075) 2047); [lia|].
    replace (Z.pos p - 2 ^ 52 + 2 ^ 52) with (Z.pos p) by lia. f_equal. lia.
Qed.

(** * The order of numbers that are not NaN *)
Definition d_nan (x : double) : bool := match x with S754_nan => true | _ => false end.

(** A position in the order: sign and class, exponent, mantissa. *)
Definition d_rank (x : double) : Z * Z * Z :=
  match x with
  | S754_infinity true => (-2, 0, 0)
  | S754_finite true m e => (-1, - e, - Z.pos m)
  | S754_zero _ | S754_nan => (0, 0, 0)
  | S754_finite false m e => (1, e, Z.pos m)
  | S754_infinity false => (2, 0, 0)
  end.

Definition rank_lt (a b : Z * Z * Z) : Prop :=
  let '(a1, a2, a3) := a in
  let '(b1, b2, b3) := b in
  a1 < b1 \/ a1 = b1 /\ (a2 < b2 \/ a2 = b2 /\ a3 < b3).

Lemma d_ltb_rank x y :
  d_nan x = false -> d_nan y = false -> d_ltb x y = true <-> rank_lt (d_rank x) (d_rank y).
Proof.
  intros Hx Hy. unfold d_ltb, SFltb.
  destruct x as [[]|[]| |[] m1 e1], y as [[]|[]| |[] m2 e2]; cbn; try done; try (split; lia || (intros; lia || done)).
  all: destruct (Z.compare_spec e1 e2); try (split; lia || (intros; lia || done)).
  all: change (Pos.compare_cont Eq m1 m2) with (m1 ?= m2)%positive.
  all: destruct (Pos.compare_spec m1 m2); cbn; split; lia || (intros; lia || done).
Qed.

(** [>=], as the code tests it, is transitive. *)
Lemma d_ltb_trans x y z :
  d_nan x = false -> d_nan y = false -> d_nan z = false ->
  d_ltb x y = false -> d_ltb y z = false -> d_ltb x z = false.
Proof.
  intros Hx Hy Hz. rewrite <- !not_true_iff_false, !d_ltb_rank by done.
  destruct (d_rank x) as [[x1 x2] x3], (d_rank y) as [[y1 y2] y3], (d_rank z) as [[z1 z2] z3]. cbn. lia.
Qed.

Lemma d_ltb_asym x y : d_nan x = false -> d_nan y = false -> d_ltb x y = true -> d_ltb y x = false.
Proof.
  intros Hx Hy. rewrite <- not_true_iff_false, !d_ltb_rank by done.
  destruct (d_rank x) as [[x1 x2] x3], (d_rank y) as [[y1 y2] y3]. cbn. lia.
Qed.
