(* ===== verification/ExtStats.v ===== *)
(** The parts of src/postgresql/src/backend/statistics/extended_stats.c that
    functional dependencies are built on: sorting the sample rows on several
    columns, and arrays of attribute numbers.

    A [Datum] is an integer.  What the type system says of a column (its
    length, its default ordering operator, the comparison function of that
    operator, detoasting) is the record [TypeSystem]. *)
From S2P Require Import Prelude.
From S2P Require Import SortTemplate.
From S2P Require Import Bitmapset.
Open Scope Z_scope.

Definition InvalidOid : Z := 0.
Definition InvalidAttrNumber : Z := 0.
Definition MaxAttrNumber : Z := 32767.
Definition WIDTH_THRESHOLD : Z := 1024.

(** The type [AttrNumber] is [int16]. *)
Definition i16 (z : Z) : Z := (z + 2 ^ 15) mod 2 ^ 16 - 2 ^ 15.

Definition AttributeNumberIsValid (a : Z) : bool := negb (a =? InvalidAttrNumber).
Definition AttrNumberIsForUserDefinedAttr (a : Z) : bool := 0 <? a.

(** * Sort support *)
Record SortSupportData := {
  ssup_collation : Z;
  ssup_nulls_first : bool;
  ssup_reverse : bool;
  comparator : Z -> Z -> Z
}.

(** What other modules answer about types and values. *)
Record TypeSystem := {
  get_typlen : Z -> Z;                            (** type to [typlen], -1 for varlena *)
  type_lt_opr : Z -> Z;                           (** [lookup_type_cache]: type to [<] operator *)
  ordering_op : Z -> Z -> res (bool * (Z -> Z -> Z));
      (** [PrepareSortSupportFromOrderingOp]: operator and collation to the
          direction and the comparison function *)
  toast_raw_datum_size : Z -> Z;
  PG_DETOAST_DATUM : Z -> res Z
}.

Definition INVERT_COMPARE_RESULT (v : Z) : Z := if v <? 0 then 1 else - v.

Definition ApplySortComparator (datum1 : Z) (isNull1 : bool) (datum2 : Z) (isNull2 : bool)
    (ssup : SortSupportData) : Z :=
  if isNull1 then
    if isNull2 then 0 else if ssup_nulls_first ssup then -1 else 1
  else if isNull2 then
    if ssup_nulls_first ssup then 1 else -1
  else
    let compare := comparator ssup datum1 datum2 in
    if ssup_reverse ssup then INVERT_COMPARE_RESULT compare else compare.

Record MultiSortSupportData := { ndims : Z; ssup : list SortSupportData }.

(** A row of the sample, restricted to some columns. *)
Record SortItem := { it_values : list Z; it_isnull : list bool; it_count : Z }.

Definition no_ssup : SortSupportData :=
  {| ssup_collation := 0; ssup_nulls_first := false; ssup_reverse := false; comparator := fun _ _ => 0 |}.

Section stats.
(** Whether the server is built with assertions. *)
Context (cassert : bool) (T : TypeSystem).

Definition Assert (b : bool) (what : string) : res unit :=
  if cassert && negb b then UB ("TRAP: FailedAssertion(" ++ what ++ ")")%string else Ok tt.

(** * Multi-column sorting *)
Definition multi_sort_init (n : Z) : res MultiSortSupportData :=
  Assert (2 <=? n) "ndims >= 2";;
  Ok {| ndims := n; ssup := replicate (Z.to_nat n) no_ssup |}.

Definition multi_sort_add_dimension (mss : MultiSortSupportData) (sortdim oper collation : Z)
  : res MultiSortSupportData :=
  '(reverse, cmp) ← ordering_op T oper collation;
  s ← wr (ssup mss) sortdim
        {| ssup_collation := collation; ssup_nulls_first := false; ssup_reverse := reverse;
           comparator := cmp |};
  Ok {| ndims := ndims mss; ssup := s |}.

(** Items and sort supports have one entry per dimension. *)
Definition multi_sort_compare_dim (dim : Z) (a b : SortItem) (mss : MultiSortSupportData) : Z :=
  ApplySortComparator (getd 0 (it_values a) dim) (getd false (it_isnull a) dim)
    (getd 0 (it_values b) dim) (getd false (it_isnull b) dim) (getd no_ssup (ssup mss) dim).

Fixpoint compare_dims (n : nat) (dim : Z) (a b : SortItem) (mss : MultiSortSupportData) : Z :=
  match n with
  | O => 0
  | S n =>
      let r := multi_sort_compare_dim dim a b mss in
      if r =? 0 then compare_dims n (dim + 1) a b mss else r
  end.

Definition multi_sort_compare_dims (start last : Z) (a b : SortItem) (mss : MultiSortSupportData) : Z :=
  compare_dims (Z.to_nat (last - start + 1)) start a b mss.

Definition multi_sort_compare (mss : MultiSortSupportData) (a b : SortItem) : Z :=
  compare_dims (Z.to_nat (ndims mss)) 0 a b mss.

(** * The sample *)
Record VacAttrStats := { attrtypid : Z; attrcollid : Z }.

Record StatsBuildData := {
  numrows : Z;
  nattnums : Z;
  attnums : list Z;
  stats : list VacAttrStats;
  values : list (list Z);
  nulls : list (list bool)
}.

(** * Arrays of attribute numbers *)
Fixpoint collect_attnums (fuel : nat) (attrs : option Bitmapset) (nexprs j : Z) (num : Z)
    (acc : list Z) : res (list Z) :=
  match fuel with
  | O => UB "fuel"
  | S fuel =>
      j ← bms_next_member attrs j;
      if j <? 0 then Ok acc
      else
        let attnum := i32 (j - nexprs) in
        Assert (AttributeNumberIsValid attnum) "AttributeNumberIsValid(attnum)";;
        Assert (attnum <=? MaxAttrNumber) "attnum <= MaxAttrNumber";;
        Assert (i32 (- nexprs) <=? attnum) "attnum >= (-nexprs)";;
        if num <=? len acc then UB "write outside the array"
        else collect_attnums fuel attrs nexprs j num (acc ++ [i16 attnum])
  end.

Definition build_attnums_array (attrs : option Bitmapset) (nexprs : Z) : res (list Z) :=
  num ← bms_num_members attrs;
  collect_attnums (S (Z.to_nat num)) attrs nexprs (-1) num [].

(** * Sorted items *)

(** The position of an attribute in the sample. *)
Definition find_attnum (data : StatsBuildData) (attnum : Z) : res Z :=
  loop_return (for_up 0 (nattnums data)
    (fun idx _ => a ← rd (attnums data) idx; Ok (if attnum =? a then inr idx else inl tt)) tt)
    (nattnums data).

(** A value of a row: [None] if it is too wide. *)
Definition load_value (data : StatsBuildData) (typlen : list Z) (i attnum : Z)
  : res (option (Z * bool)) :=
  idx ← find_attnum data attnum;
  Assert (idx <? nattnums data) "idx < data->nattnums";;
  col ← rd (values data) idx;
  value ← rd col i;
  ncol ← rd (nulls data) idx;
  isnull ← rd ncol i;
  attlen ← rd typlen idx;
  if negb isnull && (attlen =? -1) then
    if WIDTH_THRESHOLD <? toast_raw_datum_size T value then Ok None
    else v ← PG_DETOAST_DATUM T value; Ok (Some (v, isnull))
  else Ok (Some (value, isnull)).

(** Fill the item at [nrows] from row [i]; [inr] when the row is too wide. *)
Definition load_row (data : StatsBuildData) (typlen : list Z) (numattrs : Z) (attrs : list Z)
    (i nrows : Z) (items : list SortItem) : res (list SortItem + list SortItem) :=
  for_up 0 numattrs (fun j items =>
    attnum ← rd attrs j;
    o ← load_value data typlen i attnum;
    match o with
    | None => Ok (inr items)
    | Some (value, isnull) =>
        it ← rd items nrows;
        vs ← wr (it_values it) j value;
        ns ← wr (it_isnull it) j isnull;
        items ← wr items nrows {| it_values := vs; it_isnull := ns; it_count := it_count it |};
        Ok (inl items)
    end) items.

Definition blank_item (numattrs : Z) : SortItem :=
  {| it_values := replicate (Z.to_nat numattrs) 0;
     it_isnull := replicate (Z.to_nat numattrs) false; it_count := 0 |}.

(** The items and their number; [None] for no items (the code returns NULL). *)
Definition build_sorted_items (data : StatsBuildData) (mss : MultiSortSupportData) (numattrs : Z)
    (attrs : list Z) : res (option (list SortItem) * Z) :=
  let items := replicate (Z.to_nat (numrows data)) (blank_item numattrs) in
  typlen ← loop_state (for_up 0 (nattnums data)
    (fun i t => st ← rd (stats data) i; Ok (inl (t ++ [get_typlen T (attrtypid st)]))) []);
  '(items, nrows) ← loop_state (for_up 0 (numrows data) (fun i '(items, nrows) =>
    o ← load_row data typlen numattrs attrs i nrows items;
    Ok (inl (match o with
             | inl items => (items, nrows + 1)
             | inr items => (items, nrows)
             end))) (items, 0));
  if nrows =? 0 then Ok (None, nrows)
  else
    items ← ST_SORT (multi_sort_compare mss) (frames_for nrows) items 0 nrows;
    Ok (Some items, nrows).

End stats.
