(* ===== verification/Dependencies.v ===== *)
(** Functional dependencies as extended statistics, the part of
    src/postgresql/src/backend/statistics/dependencies.c that builds and stores
    them: the generator of candidate dependencies, the degree of a dependency in
    the sample, [statext_dependencies_build], the bytea format and its output
    as text.

    A [bytea] is the list of its data bytes, without the varlena header;
    integers are stored with the least significant byte first. *)
From S2P Require Import Prelude.
From S2P Require Import Double.
From S2P Require Import SortTemplate.
From S2P Require Import Bitmapset.
From S2P Require Import ExtStats.
From stdpp Require Import pretty.
Open Scope Z_scope.

Definition STATS_MAX_DIMENSIONS : Z := 8.
Definition STATS_DEPS_MAGIC : Z := 0xB4549A2C.
Definition STATS_DEPS_TYPE_BASIC : Z := 1.

(** [(a,b,...) -> z]: the implied attribute is the last one. *)
Record MVDependency := { degree : double; nattributes : Z; attributes : list Z }.

Record MVDependencies := { magic : Z; type : Z; ndeps : Z; deps : list MVDependency }.

(** * The generator of candidates *)
Record DependencyGeneratorData := {
  gen_k : Z;
  gen_n : Z;
  gen_current : Z;
  ndependencies : Z;
  dependencies : list Z
}.

(** [repalloc] to one more entry and copy [cur] into it. *)
Definition push_dependency (state : DependencyGeneratorData) (cur : list Z)
  : res DependencyGeneratorData :=
  if ndependencies state <? 0 then UB "write outside the array"
  else Ok {| gen_k := gen_k state; gen_n := gen_n state; gen_current := gen_current state;
             ndependencies := i16 (ndependencies state + 1);
             dependencies := take (Z.to_nat (gen_k state * ndependencies state)) (dependencies state) ++ cur |}.

(** [depth] is the number of levels of the recursion left. *)
Fixpoint generate_dependencies_recurse (depth : nat) (state : DependencyGeneratorData)
    (index start : Z) (cur : list Z) : res (DependencyGeneratorData * list Z) :=
  if index <? gen_k state - 1 then
    match depth with
    | O => UB "fuel"
    | S depth =>
        loop_state (for_up start (gen_n state) (fun i '(state, cur) =>
          cur ← wr cur index i;
          r ← generate_dependencies_recurse depth state (index + 1) (i + 1) cur;
          Ok (inl r)) (state, cur))
    end
  else
    loop_state (for_up 0 (gen_n state) (fun i '(state, cur) =>
      cur ← wr cur index i;
      found ← loop_return (for_up 0 index (fun j _ =>
                  c ← rd cur j; Ok (if c =? i then inr true else inl tt)) tt) false;
      if (found : bool) then Ok (inl (state, cur))
      else state ← push_dependency state cur; Ok (inl (state, cur))) (state, cur)).

Definition generate_dependencies (state : DependencyGeneratorData) : res DependencyGeneratorData :=
  '(state, _) ← generate_dependencies_recurse (Z.to_nat (gen_k state)) state 0 0
                  (replicate (Z.to_nat (gen_k state)) 0);
  Ok state.

(** The next dependency (the [k] cells at the pointer that is returned). *)
Definition DependencyGenerator_next (state : DependencyGeneratorData)
  : option (list Z) * DependencyGeneratorData :=
  if gen_current state =? ndependencies state then (None, state)
  else (Some (take (Z.to_nat (gen_k state)) (drop (Z.to_nat (gen_k state * gen_current state)) (dependencies state))),
        {| gen_k := gen_k state; gen_n := gen_n state; gen_current := gen_current state + 1;
           ndependencies := ndependencies state; dependencies := dependencies state |}).

Section dependencies.
Context (cassert : bool) (T : TypeSystem).

#[local] Abbreviation Assert := (Assert cassert).

Definition DependencyGenerator_init (n k : Z) : res DependencyGeneratorData :=
  Assert ((k <=? n) && (0 <? k)) "(n >= k) && (k > 0)";;
  generate_dependencies {| gen_k := k; gen_n := n; gen_current := 0; ndependencies := 0;
                           dependencies := replicate (Z.to_nat k) 0 |}.

(** * The degree of a dependency *)

(** The sort support of the columns of a dependency. *)
Definition prepare_sort (data : StatsBuildData) (k : Z) (dependency : list Z)
  : res MultiSortSupportData :=
  mss ← multi_sort_init cassert k;
  loop_state (for_up 0 k (fun i mss =>
    d ← rd dependency i;
    colstat ← rd (stats data) d;
    let lt_opr := type_lt_opr T (attrtypid colstat) in
    if lt_opr =? InvalidOid then Err "cache lookup failed for ordering operator for type"
    else mss ← multi_sort_add_dimension T mss i lt_opr (attrcollid colstat); Ok (inl mss)) mss).

(** The counters of the walk through the sorted rows. *)
Record Counters := { group_size : Z; n_violations : Z; n_supporting_rows : Z }.

Definition count_row (items : list SortItem) (nitems k : Z) (mss : MultiSortSupportData)
    (i : Z) (c : Counters) : res Counters :=
  let close := Ok {| group_size := 1; n_violations := 0;
                     n_supporting_rows := if n_violations c =? 0
                                          then i32 (n_supporting_rows c + group_size c)
                                          else n_supporting_rows c |} in
  if i =? nitems then close
  else
    a ← rd items (i - 1);
    b ← rd items i;
    if negb (multi_sort_compare_dims 0 (k - 2) a b mss =? 0) then close
    else
      Ok {| group_size := i32 (group_size c + 1);
            n_violations := if negb (multi_sort_compare_dim (k - 1) a b mss =? 0)
                            then i32 (n_violations c + 1) else n_violations c;
            n_supporting_rows := n_supporting_rows c |}.

Definition dependency_degree (data : StatsBuildData) (k : Z) (dependency : list Z) : res double :=
  Assert (2 <=? k) "k >= 2";;
  attnums_dep ← loop_state (for_up 0 k (fun i l =>
    d ← rd dependency i; a ← rd (attnums data) d; Ok (inl (l ++ [a]))) []);
  mss ← prepare_sort data k dependency;
  '(items, nitems) ← build_sorted_items cassert T data mss k attnums_dep;
  let items := default [] items in
  c ← loop_state (for_up 1 (nitems + 1) (fun i c => c ← count_row items nitems k mss i c; Ok (inl c))
        {| group_size := 1; n_violations := 0; n_supporting_rows := 0 |});
  Ok (d_div (d_mul (d_of_Z (n_supporting_rows c)) d_one) (d_of_Z (numrows data))).

(** * All dependencies of a sample *)
Definition add_dependency (ds : option MVDependencies) (d : MVDependency) : MVDependencies :=
  let ds := default {| magic := STATS_DEPS_MAGIC; type := STATS_DEPS_TYPE_BASIC; ndeps := 0; deps := [] |} ds in
  {| magic := magic ds; type := type ds; ndeps := u32 (ndeps ds + 1); deps := deps ds ++ [d] |}.

(** The dependencies of [k] attributes; the generator's [ndependencies] bounds
    the number of turns. *)
Fixpoint build_variations (fuel : nat) (data : StatsBuildData) (k : Z) (gen : DependencyGeneratorData)
    (ds : option MVDependencies) : res (option MVDependencies) :=
  match fuel with
  | O => UB "fuel"
  | S fuel =>
      match DependencyGenerator_next gen with
      | (None, _) => Ok ds
      | (Some dependency, gen) =>
          deg ← dependency_degree data k dependency;
          if d_eqb deg d_zero then build_variations fuel data k gen ds
          else
            attrs ← loop_state (for_up 0 k (fun i l =>
              d ← rd dependency i; a ← rd (attnums data) d; Ok (inl (l ++ [a]))) []);
            build_variations fuel data k gen
              (Some (add_dependency ds {| degree := deg; nattributes := k; attributes := attrs |}))
      end
  end.

Definition statext_dependencies_build (data : StatsBuildData) : res (option MVDependencies) :=
  Assert (2 <=? nattnums data) "data->nattnums >= 2";;
  loop_state (for_up 2 (nattnums data + 1) (fun k ds =>
    gen ← DependencyGenerator_init (nattnums data) k;
    ds ← build_variations (S (Z.to_nat (ndependencies gen))) data k gen ds;
    Ok (inl ds)) None).

(** * The bytea format *)
Definition SizeOfHeader : Z := 3 * 4.
Definition SizeOfItem (natts : Z) : Z := 8 + 2 * (1 + natts).
Definition MinSizeOfItem : Z := SizeOfItem 2.
Definition MinSizeOfItems (nd : Z) : Z := SizeOfHeader + nd * MinSizeOfItem.

(** The [n] bytes of an integer, and back. *)
Fixpoint le_bytes (n : nat) (z : Z) : list Z :=
  match n with O => [] | S n => z mod 2 ^ 8 :: le_bytes n (z / 2 ^ 8) end.

Fixpoint le_val (l : list Z) : Z :=
  match l with [] => 0 | b :: l => b + 2 ^ 8 * le_val l end.

(** [memcpy] into a buffer and out of it, advancing the pointer. *)
Definition put_bytes (buf : list Z) (tmp : Z) (bytes : list Z) : res (list Z * Z) :=
  if (0 <=? tmp) && (tmp + len bytes <=? len buf)
  then Ok (take (Z.to_nat tmp) buf ++ bytes ++ drop (Z.to_nat (tmp + len bytes)) buf, tmp + len bytes)
  else UB "write outside the array".

Definition get_bytes (buf : list Z) (tmp n : Z) : res (list Z * Z) :=
  if (0 <=? tmp) && (0 <=? n) && (tmp + n <=? len buf)
  then Ok (take (Z.to_nat n) (drop (Z.to_nat tmp) buf), tmp + n)
  else UB "read outside the array".

Definition attr_bytes (a : Z) : list Z := le_bytes 2 (u16 a).

Definition put_dependency (d : MVDependency) (buf : list Z) (tmp : Z) : res (list Z * Z) :=
  '(buf, tmp) ← put_bytes buf tmp (le_bytes 8 (double_bits (degree d)));
  '(buf, tmp) ← put_bytes buf tmp (attr_bytes (nattributes d));
  if (nattributes d <? 0) || (len (attributes d) <? nattributes d) then UB "read outside the array"
  else put_bytes buf tmp (concat (attr_bytes <$> take (Z.to_nat (nattributes d)) (attributes d))).

Definition statext_dependencies_serialize (ds : MVDependencies) : res (list Z) :=
  size ← loop_state (for_up 0 (ndeps ds) (fun i size =>
    d ← rd (deps ds) i; Ok (inl (u64 (size + SizeOfItem (nattributes d))))) SizeOfHeader);
  let buf := replicate (Z.to_nat size) 0 in
  '(buf, tmp) ← put_bytes buf 0 (le_bytes 4 (magic ds));
  '(buf, tmp) ← put_bytes buf tmp (le_bytes 4 (type ds));
  '(buf, tmp) ← put_bytes buf tmp (le_bytes 4 (ndeps ds));
  '(buf, tmp) ← loop_state (for_up 0 (ndeps ds) (fun i '(buf, tmp) =>
    d ← rd (deps ds) i;
    '(buf, tmp) ← put_dependency d buf tmp;
    Assert (tmp <=? size) "tmp <= ((char *) output + len)";;
    Ok (inl (buf, tmp))) (buf, tmp));
  Assert (tmp =? size) "tmp == ((char *) output + len)";;
  Ok buf.

Fixpoint get_attributes (n : nat) (l : list Z) : list Z :=
  match n, l with
  | S n, a :: b :: l => i16 (le_val [a; b]) :: get_attributes n l
  | _, _ => []
  end.

Definition get_dependency (data : list Z) (tmp : Z) : res (MVDependency * Z) :=
  '(b, tmp) ← get_bytes data tmp 8;
  let deg := double_of_bits (le_val b) in
  '(b, tmp) ← get_bytes data tmp 2;
  let k := i16 (le_val b) in
  Assert ((2 <=? k) && (k <=? STATS_MAX_DIMENSIONS)) "(k >= 2) && (k <= STATS_MAX_DIMENSIONS)";;
  '(b, tmp) ← get_bytes data tmp (2 * k);
  Ok ({| degree := deg; nattributes := k; attributes := get_attributes (Z.to_nat k) b |}, tmp).

Definition statext_dependencies_deserialize (data : option (list Z)) : res (option MVDependencies) :=
  match data with
  | None => Ok None
  | Some data =>
      if len data <? SizeOfHeader then Err "invalid MVDependencies size"
      else
        '(b, tmp) ← get_bytes data 0 4;
        let magic := le_val b in
        '(b, tmp) ← get_bytes data tmp 4;
        let type := le_val b in
        '(b, tmp) ← get_bytes data tmp 4;
        let ndeps := le_val b in
        if negb (magic =? STATS_DEPS_MAGIC) then Err "invalid dependency magic"
        else if negb (type =? STATS_DEPS_TYPE_BASIC) then Err "invalid dependency type"
        else if ndeps =? 0 then Err "invalid zero-length item array in MVDependencies"
        else
          let min_expected_size := SizeOfItem ndeps in
          if len data <? min_expected_size then Err "invalid dependencies size"
          else
            '(ds, tmp) ← loop_state (for_up 0 ndeps (fun i '(ds, tmp) =>
              '(d, tmp) ← get_dependency data tmp;
              Assert (tmp <=? len data) "tmp <= ((char *) data + VARSIZE_ANY(data))";;
              Ok (inl (ds ++ [d], tmp))) ([], tmp));
            Assert (tmp =? len data) "tmp == ((char *) data + VARSIZE_ANY(data))";;
            Ok (Some {| magic := magic; type := type; ndeps := ndeps; deps := ds |})
  end.

(** * The text form *)
Definition pg_dependencies_in : res unit := Err "cannot accept a value of type pg_dependencies".
Definition pg_dependencies_recv : res unit := Err "cannot accept a value of type pg_dependencies".

(** [byteasend] sends the bytes as they are. *)
Definition pg_dependencies_send (data : list Z) : list Z := data.

Definition quote_mark : string := String (Ascii.ascii_of_nat 34) EmptyString.

(** [format_f] is [%f] of a double. *)
Definition dependency_text (format_f : double -> string) (d : MVDependency) : res string :=
  body ← loop_state (for_up 0 (nattributes d) (fun j str =>
    a ← rd (attributes d) j;
    let sep := if j =? nattributes d - 1 then " => " else if 0 <? j then ", " else EmptyString in
    Ok (inl (str ++ sep ++ pretty a)%string)) EmptyString);
  Ok (quote_mark ++ body ++ quote_mark ++ ": " ++ format_f (degree d))%string.

Definition pg_dependencies_out (format_f : double -> string) (data : list Z) : res string :=
  o ← statext_dependencies_deserialize (Some data);
  match o with
  | None => UB "null pointer"
  | Some ds =>
      str ← loop_state (for_up 0 (ndeps ds) (fun i str =>
        d ← rd (deps ds) i;
        t ← dependency_text format_f d;
        Ok (inl (str ++ (if (0 <? i)%Z then ", " else EmptyString) ++ t)%string)) "{");
      Ok (str ++ "}")%string
  end.

End dependencies.
