(* ===== verification/DepGen.v ===== *)
(** The generator of candidate dependencies: it lists every choice of [k - 1]
    ascending attributes and one other attribute, each once. *)
From stdpp Require Import sorting.
From S2P Require Import Prelude.
From S2P Require Import Double.
From S2P Require Import SortTemplate.
From S2P Require Import SortProps.
From S2P Require Import Bitmapset.
From S2P Require Import ExtStats.
From S2P Require Import Dependencies.
Open Scope Z_scope.

(** * The candidates *)

(** Ascending lists of [m] numbers from [start] up to [n]. *)
Fixpoint prefixes (m : nat) (start n : Z) : list (list Z) :=
  match m with
  | O => [[]]
  | S m => seqZ start (n - start) ≫= fun i => cons i <$> prefixes m (i + 1) n
  end.

(** The dependencies whose first attributes are [pre] and [m] later ones. *)
Definition candidates_from (n : Z) (pre : list Z) (m : nat) (start : Z) : list (list Z) :=
  prefixes m start n ≫= fun c => (fun i => pre ++ c ++ [i]) <$> filter (fun i => i ∉ pre ++ c) (seqZ 0 n).

Definition candidates (n k : Z) : list (list Z) := candidates_from n [] (Z.to_nat (k - 1)) 0.

(** What a candidate is. *)
Definition is_candidate (n k : Z) (x : list Z) : Prop :=
  exists c i, x = c ++ [i] /\ len x = k /\ StronglySorted Z.lt c /\
    Forall (fun a => 0 <= a < n) x /\ i ∉ c.

Lemma seqZ_next lo i : lo <= i -> seqZ lo (i + 1 - lo) = seqZ lo (i - lo) ++ [i].
Proof.
  intros. replace (i + 1 - lo) with (i - lo + 1) by lia. rewrite seqZ_app by lia. f_equal.
  replace (lo + (i - lo)) with i by lia. done.
Qed.

Lemma seqZ_cut i n : 0 <= i <= n -> seqZ 0 n = seqZ 0 i ++ seqZ i (n - i).
Proof. intros. replace n with (i + (n - i)) at 1 by lia. by rewrite seqZ_app by lia. Qed.

Lemma elem_of_prefixes m start n c :
  c ∈ prefixes m start n <-> length c = m /\ StronglySorted Z.lt c /\ Forall (fun a => start <= a < n) c.
Proof.
  revert start c. induction m as [|m IH]; intros start c; cbn [prefixes].
  - rewrite list_elem_of_singleton. split.
    + intros ->. repeat constructor.
    + intros (H & _). by destruct c.
  - rewrite list_elem_of_bind. split.
    + intros (i & Hc & Hi). apply elem_of_seqZ in Hi. apply list_elem_of_fmap in Hc as (c' & -> & Hc).
      apply IH in Hc as (Hl & Hs & Hf). split_and!.
      * simpl. by rewrite Hl.
      * constructor; [done|]. eapply Forall_impl; [done|]. simpl; lia.
      * constructor; [lia|]. eapply Forall_impl; [done|]. simpl; lia.
    + intros (Hl & Hs & Hf). destruct c as [|i c]; [done|].
      apply Forall_cons in Hf as [Hi Hf]. inversion Hs as [|?? Hs' Hlt]; subst.
      exists i. split; [|apply elem_of_seqZ; lia]. apply list_elem_of_fmap. exists c. split; [done|]. apply IH. split_and!; [by injection Hl|done|].
      rewrite Forall_forall in *. intros x Hx. specialize (Hf _ Hx). specialize (Hlt _ Hx). simpl in *. lia.
Qed.

Lemma NoDup_bind_disjoint {A B} (f : A -> list B) (l : list A) :
  NoDup l -> (forall x, NoDup (f x)) -> (forall x y z, z ∈ f x -> z ∈ f y -> x = y) -> NoDup (l ≫= f).
Proof.
  intros Hl Hf Hd. induction Hl as [|x l Hx Hl IH]; simpl; [constructor|].
  apply NoDup_app. split_and!; [done| |done]. intros z Hz Hz'.
  apply list_elem_of_bind in Hz' as (y & Hzy & Hy). by rewrite (Hd _ _ _ Hz Hzy) in Hx.
Qed.

Lemma NoDup_prefixes m start n : NoDup (prefixes m start n).
Proof.
  revert start. induction m as [|m IH]; intros start; cbn [prefixes]; [apply NoDup_singleton|].
  apply NoDup_bind_disjoint.
  - apply NoDup_seqZ.
  - intros i. apply NoDup_fmap_2; [|apply IH]. intros a b. by injection 1.
  - intros i j c Hi Hj. apply list_elem_of_fmap in Hi as (ci & -> & _).
    apply list_elem_of_fmap in Hj as (cj & Hj & _). by injection Hj.
Qed.

Lemma elem_of_candidates n k x :
  1 <= k -> x ∈ candidates n k <-> is_candidate n k x.
Proof.
  intros Hk. unfold candidates, candidates_from, is_candidate. rewrite list_elem_of_bind.
  unfold len. split.
  - intros (c & Hx & Hc). apply elem_of_prefixes in Hc as (Hl & Hs & Hf).
    apply list_elem_of_fmap in Hx as (i & -> & Hi). apply list_elem_of_filter in Hi as [Hi Hr].
    apply elem_of_seqZ in Hr. exists c, i. split_and!; [done| |done| |done].
    + simpl. rewrite length_app; simpl; lia.
    + simpl. apply Forall_app. split; [done|]. constructor; [lia|constructor].
  - intros (c & i & -> & Hl & Hs & Hf & Hi). apply Forall_app in Hf as [Hf Hf2].
    apply Forall_cons in Hf2 as [Hi2 _]. rewrite length_app in Hl. simpl in Hl.
    exists c. split; [|apply elem_of_prefixes; split_and!; [lia|done|done]].
    apply list_elem_of_fmap. exists i. split; [done|]. apply list_elem_of_filter.
    split; [done|]. apply elem_of_seqZ. lia.
Qed.

Lemma NoDup_candidates n k : NoDup (candidates n k).
Proof.
  apply NoDup_bind_disjoint.
  - apply NoDup_prefixes.
  - intros c. apply NoDup_fmap_2; [|apply NoDup_filter, NoDup_seqZ]. intros i j Hij.
    simpl in Hij. by apply app_inj_tail in Hij as [_ ->].
  - intros c c' x Hx Hx'. apply list_elem_of_fmap in Hx as (i & -> & _).
    apply list_elem_of_fmap in Hx' as (j & Hj & _). simpl in Hj. by apply app_inj_tail in Hj as [-> _].
Qed.

(** With at most 8 attributes the counter, an int16, does not overflow. *)
Lemma candidates_few n k : 1 <= k <= n -> n <= STATS_MAX_DIMENSIONS -> len (candidates n k) <= 280.
Proof.
  unfold STATS_MAX_DIMENSIONS. intros Hk Hn.
  assert (H : forallb (fun n => forallb (fun k => len (candidates n k) <=? 280) (seqZ 1 8)) (seqZ 1 8) = true)
    by (vm_compute; reflexivity).
  rewrite forallb_forall in H. specialize (H n). rewrite <- list_elem_of_In, elem_of_seqZ in H.
  specialize (H ltac:(lia)). rewrite forallb_forall in H. specialize (H k).
  rewrite <- list_elem_of_In, elem_of_seqZ in H. specialize (H ltac:(lia)). lia.
Qed.

Lemma candidates_from_step n pre m start :
  candidates_from n pre (S m) start =
  seqZ start (n - start) ≫= fun i => candidates_from n (pre ++ [i]) m (i + 1).
Proof.
  unfold candidates_from. cbn [prefixes]. induction (seqZ start (n - start)) as [|i l IH]; [done|].
  cbn [mbind list_bind]. rewrite bind_app, IH. f_equal. rewrite list_fmap_bind.
  apply list_bind_ext; [|done]. intros c. cbn. rewrite <- !app_assoc.
  apply list_fmap_ext. intros j x _. by rewrite <- !app_assoc.
Qed.

(** * What the generator holds *)

(** The state holds the dependencies [ds] of [k] attributes out of [n]. *)
Record gen_rep (n k : Z) (st : DependencyGeneratorData) (ds : list (list Z)) : Prop := {
  gr_n : gen_n st = n;
  gr_k : gen_k st = k;
  gr_current : gen_current st = 0;
  gr_count : ndependencies st = len ds;
  gr_cells : take (Z.to_nat (k * len ds)) (dependencies st) = concat ds;
  gr_width : Forall (fun d => len d = k) ds
}.

Lemma len_concat (k : Z) (ds : list (list Z)) : Forall (fun d => len d = k) ds -> len (concat ds) = k * len ds.
Proof.
  induction 1 as [|d ds Hd Hf IH]; [unfold len; cbn; lia|]. simpl. rewrite len_app, len_cons. lia.
Qed.

Lemma i16_small z : - 2 ^ 15 <= z < 2 ^ 15 -> i16 z = z.
Proof. unfold i16; intros. rewrite Z.mod_small; lia. Qed.

Lemma push_dependency_rep n k st ds cur :
  gen_rep n k st ds -> len cur = k -> len ds + 1 < 2 ^ 15 ->
  exists st', push_dependency st cur = Ok st' /\ gen_rep n k st' (ds ++ [cur]).
Proof.
  intros [] Hc Hl. unfold push_dependency. pose proof (len_nonneg ds). rewrite gr_count0.
  destruct (Z.ltb_spec (len ds) 0); [lia|]. eexists; split; [done|].
  assert (Hf : Forall (fun d => len d = k) (ds ++ [cur])) by (apply Forall_app; auto).
  split; cbn [gen_n gen_k gen_current ndependencies dependencies]; [done..| | |done].
  - rewrite i16_small by lia. rewrite len_app, len_cons, len_nil. lia.
  - rewrite gr_k0, gr_cells0, concat_app. simpl. rewrite app_nil_r. apply take_ge.
    pose proof (len_concat _ _ Hf) as Hlen. rewrite concat_app in Hlen. simpl in Hlen.
    rewrite app_nil_r in Hlen. unfold len in *. lia.
Qed.

(** The inner test: the value is among the first cells. *)
Lemma found_wp (cur : list Z) (index i : Z) :
  0 <= index <= len cur ->
  wp (loop_return (for_up 0 index (fun j _ => c ← rd cur j; Ok (if c =? i then inr true else inl tt)) tt) false)
     (fun b => b = bool_decide (i ∈ take (Z.to_nat index) cur)).
Proof.
  intros Hi. apply wp_loop_return, (wp_find_up (fun j => getd 0 cur j =? i) (fun _ => true)).
  - intros j Hj. apply wp_bind, (wp_rd 0); [lia|]. apply wp_Ok. done.
  - intros Hn. symmetry. apply bool_decide_eq_false. intros Hin.
    apply list_elem_of_lookup in Hin as [j Hj]. apply lookup_take_Some in Hj as [Hj Hlt].
    specialize (Hn (Z.of_nat j) ltac:(lia)). unfold getd in Hn. rewrite Nat2Z.id, Hj in Hn. simpl in Hn. lia.
  - intros j Hj Ht _. symmetry. apply bool_decide_eq_true. apply list_elem_of_lookup. exists (Z.to_nat j).
    apply lookup_take_Some. split; [|lia]. unfold getd, len in *.
    destruct (lookup_lt_is_Some_2 cur (Z.to_nat j)) as [v Hv]; [lia|]. rewrite Hv in *. simpl in Ht. f_equal. lia.
Qed.

(** The last level: one dependency for each attribute that is not used yet. *)
Lemma last_level_wp n k st ds cur pre :
  gen_rep n k st ds -> 0 <= n -> len cur = k -> 1 <= k -> take (Z.to_nat (k - 1)) cur = pre ->
  len (ds ++ candidates_from n pre 0 0) < 2 ^ 15 ->
  wp (loop_state (for_up 0 (gen_n st) (fun i '(state, cur) =>
      cur ← wr cur (k - 1) i;
      found ← loop_return (for_up 0 (k - 1) (fun j _ =>
                  c ← rd cur j; Ok (if c =? i then inr true else inl tt)) tt) false;
      if (found : bool) then Ok (inl (state, cur))
      else state ← push_dependency state cur; Ok (inl (state, cur))) (st, cur)))
     (fun '(st', cur') => gen_rep n k st' (ds ++ candidates_from n pre 0 0) /\ len cur' = k /\
        take (Z.to_nat (k - 1)) cur' = pre).
Proof.
  intros Hr Hn Hc Hk Hp Hl. rewrite (gr_n _ _ _ _ Hr). apply wp_loop_state.
  set (done_upto i := (fun i => pre ++ [i]) <$> filter (fun i => i ∉ pre) (seqZ 0 i)).
  assert (Hall : candidates_from n pre 0 0 = done_upto n).
  { unfold candidates_from. cbn [prefixes mbind list_bind]. by rewrite !app_nil_r. }
  rewrite Hall in *.
  apply (wp_for_up (fun i '(st, cur) => gen_rep n k st (ds ++ done_upto i) /\ len cur = k /\
    take (Z.to_nat (k - 1)) cur = pre)); [done|..].
  - cbn. rewrite app_nil_r. auto.
  - intros i [st1 cur1] Hi (Hr1 & Hc1 & Hp1).
    assert (Hnext : done_upto (i + 1) = done_upto i ++ (if bool_decide (i ∈ pre) then [] else [pre ++ [i]])).
    { unfold done_upto. replace (i + 1) with (i + 1 - 0) at 1 by lia. rewrite seqZ_next by lia.
      replace (i - 0) with i by lia. rewrite filter_app, fmap_app. f_equal.
      rewrite filter_cons, filter_nil. case_decide; case_bool_decide; done. }
    assert (Hlen : len (done_upto (i + 1)) <= len (done_upto n)).
    { unfold done_upto. rewrite (seqZ_cut (i + 1) n) by lia. rewrite filter_app, fmap_app, len_app.
      match goal with |- _ <= _ + len ?x => pose proof (len_nonneg x); lia end. }
    apply wp_bind, wp_wr; [lia|]. apply wp_bind.
    eapply wp_mono; [apply found_wp; rewrite len_upd; lia|]. intros b ->.
    assert (Hpre : take (Z.to_nat (k - 1)) (upd cur1 (k - 1) i) = pre).
    { unfold upd. by rewrite take_insert_ge by lia. }
    assert (Hfull : upd cur1 (k - 1) i = pre ++ [i]).
    { rewrite <- Hp1. rewrite <- take_upd by lia. symmetry. apply take_all. rewrite len_upd. lia. }
    rewrite Hpre, Hnext in *. case_bool_decide as Hin.
    + rewrite app_nil_r. split_and!; [done|by rewrite len_upd|done].
    + rewrite len_app, len_cons, len_nil in Hlen. rewrite len_app in Hl.
      destruct (push_dependency_rep n k st1 (ds ++ done_upto i) (upd cur1 (k - 1) i)) as (st2 & -> & Hr2);
        [done|by rewrite len_upd|rewrite len_app; lia|].
      split_and!; [|by rewrite len_upd|done]. rewrite app_assoc, <- Hfull. done.
  - intros [st1 cur1] H. exact H.
Qed.

Lemma generate_recurse_wp n k m : forall depth st ds cur pre index start,
  gen_rep n k st ds -> len cur = k -> 0 <= index -> index + Z.of_nat m = k - 1 -> (m <= depth)%nat ->
  0 <= start <= n -> (m = 0%nat -> 0 <= n) -> take (Z.to_nat index) cur = pre ->
  len (ds ++ candidates_from n pre m start) < 2 ^ 15 ->
  wp (generate_dependencies_recurse depth st index start cur)
     (fun '(st', cur') => gen_rep n k st' (ds ++ candidates_from n pre m start) /\ len cur' = k /\
        take (Z.to_nat index) cur' = pre).
Proof.
  induction m as [|m IH]; intros depth st ds cur pre index start Hr Hc Hi Hm Hd Hs Hn Hp Hl.
  - replace index with (k - 1) in * by lia. destruct depth; cbn [generate_dependencies_recurse];
      rewrite (gr_k _ _ _ _ Hr), Z.ltb_irrefl; apply last_level_wp; try done; lia.
  - destruct depth as [|depth]; [lia|]. cbn [generate_dependencies_recurse].
    rewrite (gr_k _ _ _ _ Hr). destruct (Z.ltb_spec index (k - 1)); [|lia].
    rewrite (gr_n _ _ _ _ Hr). rewrite candidates_from_step in *. apply wp_loop_state.
    set (F := fun i => candidates_from n (pre ++ [i]) m (i + 1)) in *.
    apply (wp_for_up (fun i '(st, cur) => gen_rep n k st (ds ++ (seqZ start (i - start) ≫= F)) /\
      len cur = k /\ take (Z.to_nat index) cur = pre)); [lia|..].
    + replace (start - start) with 0 by lia. cbn. rewrite app_nil_r. auto.
    + intros i [st1 cur1] Hi1 (Hr1 & Hc1 & Hp1).
      assert (Hlen : len (ds ++ (seqZ start (i - start) ≫= F) ++ F i) < 2 ^ 15).
      { replace (n - start) with (i - start + (1 + (n - i - 1))) in Hl by lia.
        rewrite seqZ_app in Hl by lia. rewrite (seqZ_app (start + (i - start)) 1) in Hl by lia.
        rewrite !bind_app in Hl. replace (start + (i - start)) with i in Hl by lia.
        change (seqZ i 1 ≫= F) with (F (Z.of_nat 0 + i) ++ []) in Hl. rewrite app_nil_r in Hl.
        replace (Z.of_nat 0 + i) with i in Hl by lia. rewrite !len_app in Hl. rewrite !len_app.
        pose proof (len_nonneg (seqZ (i + 1) (n - i - 1) ≫= F)). lia. }
      apply wp_bind, wp_wr; [lia|]. apply wp_bind. eapply wp_mono.
      * apply (IH depth st1 (ds ++ (seqZ start (i - start) ≫= F)) _ (pre ++ [i])); try done; try lia.
        -- by rewrite len_upd.
        -- rewrite take_upd by lia. by rewrite Hp1.
        -- by rewrite <- app_assoc.
      * intros [st2 cur2] (Hr2 & Hc2 & Hp2). apply wp_Ok. split_and!; [|done|].
        -- rewrite seqZ_next, bind_app by lia. cbn [mbind list_bind]. rewrite app_nil_r, app_assoc. exact Hr2.
        -- assert (take (Z.to_nat index) (take (Z.to_nat (index + 1)) cur2) = take (Z.to_nat index) (pre ++ [i]))
             as Ht by by rewrite Hp2.
           rewrite take_take in Ht. replace (Z.to_nat index `min` Z.to_nat (index + 1))%nat with (Z.to_nat index) in Ht by lia.
           rewrite Ht. rewrite take_app_le; [|rewrite <- Hp1, length_take; unfold len in *; lia].
           rewrite <- Hp1, take_take. f_equal. lia.
    + intros [st1 cur1] H1. exact H1.
Qed.

Lemma init_rep cassert n k :
  1 <= k <= n -> len (candidates n k) < 2 ^ 15 ->
  exists st, DependencyGenerator_init cassert n k = Ok st /\ gen_rep n k st (candidates n k).
Proof.
  intros Hk Hl. unfold DependencyGenerator_init, Assert.
  destruct (Z.leb_spec k n); [|lia]. destruct (Z.ltb_spec 0 k); [|lia]. rewrite andb_false_r.
  apply wp_ok, wp_bind. apply wp_Ok. unfold generate_dependencies. apply wp_bind.
  eapply wp_mono; [apply (generate_recurse_wp n k (Z.to_nat (k - 1)) _ _ [] _ []); cbn [gen_k]|].
  - split; try done. by rewrite Z.mul_0_r.
  - rewrite len_replicate. lia.
  - lia.
  - lia.
  - lia.
  - lia.
  - lia.
  - done.
  - done.
  - intros [st cur] (Hr & _). exact Hr.
Qed.

(** * The sequence of answers *)
Definition advance (st : DependencyGeneratorData) (c : Z) : DependencyGeneratorData :=
  {| gen_k := gen_k st; gen_n := gen_n st; gen_current := c; ndependencies := ndependencies st;
     dependencies := dependencies st |}.

Lemma take_drop_concat (k : Z) (ds : list (list Z)) (c : nat) d :
  Forall (fun d => len d = k) ds -> 0 <= k -> ds !! c = Some d ->
  take (Z.to_nat k) (drop (Z.to_nat (k * Z.of_nat c)) (concat ds)) = d.
Proof.
  intros Hf Hk. revert c. induction Hf as [|x ds Hx Hf IH]; intros c Hc; [done|]. destruct c as [|c]; simpl in *.
  - injection Hc as ->. rewrite Z.mul_0_r. cbn [Z.to_nat drop].
    apply take_app_length'. unfold len in Hx. lia.
  - rewrite drop_app_ge by (unfold len in Hx; lia). rewrite <- (IH c Hc). do 2 f_equal. unfold len in Hx. lia.
Qed.

Lemma next_rep n k st ds (c : nat) :
  gen_rep n k st ds -> 0 <= k -> (c <= length ds)%nat ->
  DependencyGenerator_next (advance st (Z.of_nat c)) =
    (ds !! c, match ds !! c with
              | Some _ => advance st (Z.of_nat (S c))
              | None => advance st (Z.of_nat c)
              end).
Proof.
  intros [] Hk Hc. unfold DependencyGenerator_next. cbn [advance gen_current ndependencies gen_k dependencies].
  rewrite gr_count0. unfold len. destruct (Z.eqb_spec (Z.of_nat c) (Z.of_nat (length ds))) as [He|Hne].
  - rewrite lookup_ge_None_2 by lia. done.
  - destruct (lookup_lt_is_Some_2 ds c) as [d Hd]; [lia|]. rewrite Hd, gr_k0. f_equal.
    + f_equal. rewrite <- (take_drop_concat k ds c d gr_width0 Hk Hd), <- gr_cells0.
      rewrite !take_drop_commute, take_take. f_equal. f_equal. unfold len. nia.
    + unfold advance. cbn. f_equal; done || lia.
Qed.
