(* ===== verification/DepDegree.v ===== *)
(** The degree of a dependency: it is the share of the rows of the sample whose
    group (the rows with the same values in the first columns) has one value in
    the last column.

    What the degree of a dependency says of the sample in terms of its columns:
    two rows agree on a column if both are null there or the column's ordering
    operator finds the values equal. *)
From stdpp Require Import sorting.
From S2P Require Import Prelude.
From S2P Require Import Bitmapset.
From S2P Require Import SortTemplate.
From S2P Require Import SortProps.
From S2P Require Import Double.
From S2P Require Import ExtStats.
From S2P Require Import Dependencies.
From S2P Require Import DepGen.
Open Scope Z_scope.
#[local] Set Default Proof Using "Type".

(** * Orders on several columns *)

(** Compare by [c1], then by [c2]. *)
Definition lex {A} (c1 c2 : A -> A -> Z) (x y : A) : Z := if c1 x y =? 0 then c2 x y else c1 x y.

Section orders.
Context {A : Type}.
Implicit Types (c : A -> A -> Z).

Lemma cmp_refl c x : SortComparator c -> c x x = 0.
Proof. apply compare_same. exact x. Qed.

Lemma cmp_eq_sym c x y : SortComparator c -> c x y = 0 -> c y x = 0.
Proof.
  intros Hc H. pose proof (compare_flip x y). pose proof (compare_flip y x). lia.
Qed.

Lemma cmp_flip_le c x y : SortComparator c -> c x y <= 0 <-> 0 <= c y x.
Proof. intros Hc. pose proof (compare_flip x y). pose proof (compare_flip y x). lia. Qed.

Lemma cmp_lt_le c x y z : SortComparator c -> c x y < 0 -> c y z <= 0 -> c x z < 0.
Proof.
  intros Hc H1 H2. destruct (Z.lt_ge_cases (c x z) 0) as [|H]; [done|].
  apply cmp_flip_le in H; [|done]. pose proof (compare_trans y z x H2 H). apply compare_flip in H1. lia.
Qed.

Lemma cmp_le_lt c x y z : SortComparator c -> c x y <= 0 -> c y z < 0 -> c x z < 0.
Proof.
  intros Hc H1 H2. destruct (Z.lt_ge_cases (c x z) 0) as [|H]; [done|].
  apply cmp_flip_le in H; [|done]. pose proof (compare_trans z x y H H1). apply compare_flip in H2. lia.
Qed.

Lemma cmp_eq_trans c x y z : SortComparator c -> c x y = 0 -> c y z = 0 -> c x z = 0.
Proof.
  intros Hc H1 H2. pose proof (cmp_eq_sym _ _ _ Hc H1). pose proof (cmp_eq_sym _ _ _ Hc H2).
  pose proof (@compare_trans _ c _ x y z ltac:(lia) ltac:(lia)).
  pose proof (@compare_trans _ c _ z y x ltac:(lia) ltac:(lia)) as H4.
  apply (cmp_flip_le c z x Hc) in H4. lia.
Qed.

Lemma lex_comparator c1 c2 : SortComparator c1 -> SortComparator c2 -> SortComparator (lex c1 c2).
Proof.
  intros H1 H2. split.
  - intros x y. unfold lex. pose proof (@compare_flip _ c1 _ x y). pose proof (@compare_flip _ c1 _ y x).
    pose proof (@compare_flip _ c2 _ x y). z_cases; lia.
  - intros x y z. unfold lex.
    destruct (Z.eqb_spec (c1 x y) 0) as [E1|E1], (Z.eqb_spec (c1 y z) 0) as [E2|E2]; intros Ha Hb.
    + rewrite (cmp_eq_trans c1 x y z H1 E1 E2). by apply (@compare_trans _ c2 _ x y z).
    + pose proof (cmp_le_lt c1 x y z H1 ltac:(lia) ltac:(lia)). z_cases.
    + pose proof (cmp_lt_le c1 x y z H1 ltac:(lia) ltac:(lia)). z_cases.
    + pose proof (cmp_lt_le c1 x y z H1 ltac:(lia) ltac:(lia)). z_cases.
Qed.

Lemma comparator_ext c1 c2 : (forall x y, c1 x y = c2 x y) -> SortComparator c1 -> SortComparator c2.
Proof.
  intros He [Hf Ht]. split; [intros x y; rewrite <- !He; apply Hf|intros x y z; rewrite <- !He; apply Ht].
Qed.

Lemma zero_comparator : SortComparator (fun _ _ : A => 0).
Proof. split; lia. Qed.

End orders.

(** * The comparison of rows *)
Definition ssup_ok (mss : MultiSortSupportData) : Prop :=
  Forall (fun s => SortComparator (comparator s)) (ssup mss).

Lemma dim_comparator mss dim :
  ssup_ok mss -> SortComparator (fun a b => multi_sort_compare_dim dim a b mss).
Proof.
  intros Hok. unfold multi_sort_compare_dim.
  assert (Hs : SortComparator (comparator (getd no_ssup (ssup mss) dim))).
  { apply (getd_Forall (fun s => SortComparator (comparator s))); [done|apply zero_comparator]. }
  destruct (getd no_ssup (ssup mss) dim) as [col nf rev cmp]. cbn in Hs.
  unfold ApplySortComparator, INVERT_COMPARE_RESULT. cbn [ssup_nulls_first ssup_reverse comparator]. split.
  - intros a b. destruct (getd false (it_isnull a) dim), (getd false (it_isnull b) dim), nf, rev; try lia.
    all: pose proof (@compare_flip _ cmp _ (getd 0 (it_values a) dim) (getd 0 (it_values b) dim)).
    all: pose proof (@compare_flip _ cmp _ (getd 0 (it_values b) dim) (getd 0 (it_values a) dim)).
    all: z_cases; lia.
  - intros a b c.
    destruct (getd false (it_isnull a) dim), (getd false (it_isnull b) dim), (getd false (it_isnull c) dim), nf; try lia.
    all: destruct rev; [|apply compare_trans].
    all: pose proof (@compare_trans _ cmp _ (getd 0 (it_values c) dim) (getd 0 (it_values b) dim) (getd 0 (it_values a) dim)).
    all: pose proof (cmp_flip_le cmp (getd 0 (it_values c) dim) (getd 0 (it_values b) dim) Hs).
    all: pose proof (cmp_flip_le cmp (getd 0 (it_values b) dim) (getd 0 (it_values a) dim) Hs).
    all: pose proof (cmp_flip_le cmp (getd 0 (it_values c) dim) (getd 0 (it_values a) dim) Hs).
    all: z_cases; lia.
Qed.

Lemma dims_comparator mss n dim :
  ssup_ok mss -> SortComparator (fun a b => compare_dims n dim a b mss).
Proof.
  intros Hok. revert dim. induction n as [|n IH]; intros dim; [apply zero_comparator|].
  apply (comparator_ext (lex (fun a b => multi_sort_compare_dim dim a b mss)
                             (fun a b => compare_dims n (dim + 1) a b mss))); [done|].
  apply lex_comparator; [by apply dim_comparator|apply IH].
Qed.

Lemma compare_dims_snoc n dim a b mss :
  compare_dims (S n) dim a b mss =
  lex (fun a b => compare_dims n dim a b mss)
      (fun a b => multi_sort_compare_dim (dim + Z.of_nat n) a b mss) a b.
Proof.
  revert dim. induction n as [|n IH]; intros dim.
  - unfold lex. cbn [compare_dims]. rewrite Z.eqb_refl. replace (dim + Z.of_nat 0) with dim by lia.
    destruct (Z.eqb_spec (multi_sort_compare_dim dim a b mss) 0); done.
  - cbn [compare_dims] in *. unfold lex in *. rewrite IH.
    replace (dim + 1 + Z.of_nat n) with (dim + Z.of_nat (S n)) by lia.
    destruct (Z.eqb_spec (multi_sort_compare_dim dim a b mss) 0); [done|].
    destruct (Z.eqb_spec (multi_sort_compare_dim dim a b mss) 0); [lia|done].
Qed.

(** * Counting the supporting rows of a sorted list *)
Section counting.
Context {A : Type} (c1 c2 : A -> A -> Z) (d : A).
Context `{H1 : !SortComparator c1} `{H2 : !SortComparator c2}.
Implicit Types (its : list A).

(** Row [x] is consistent with the dependency: every row with its key has its
    last value. *)
Definition supports its (x : A) : Prop := Forall (fun y => c1 x y = 0 -> c2 x y = 0) its.

#[export] Instance supports_dec its x : Decision (supports its x).
Proof. unfold supports. apply _. Defined.

Definition supporting its : list A := filter (supports its) its.

Lemma supporting_perm its its' : its ≡ₚ its' -> len (supporting its) = len (supporting its').
Proof.
  intros Hp. unfold len, supporting. f_equal. rewrite (filter_elem_ext (supports its) (supports its')).
  - by rewrite Hp.
  - intros x _. unfold supports. by rewrite Hp.
Qed.

Lemma supporting_le its : len (supporting its) <= len its.
Proof. unfold len, supporting. pose proof (length_filter (supports its) its). lia. Qed.

#[local] Abbreviation cell its i := (getd d its i).
#[local] Set Default Proof Using "Type*".

(** The rows [g <= j < i] have one key, the rows before [g] and from [i] on
    have others. *)
Record group its (g i : Z) : Prop := {
  gp_range : 0 <= g < i /\ i <= len its;
  gp_same : forall x y, g <= x < i -> g <= y < i -> c1 (cell its x) (cell its y) = 0
}.

Definition starts its (g : Z) : Prop := g = 0 \/ c1 (cell its (g - 1)) (cell its g) <> 0.
Definition ends its (i : Z) : Prop := i = len its \/ c1 (cell its (i - 1)) (cell its i) <> 0.

Lemma sorted_cells its x y :
  StronglySorted (fun x y => lex c1 c2 x y <= 0) its -> 0 <= x <= y -> y < len its ->
  lex c1 c2 (cell its x) (cell its y) <= 0.
Proof.
  intros Hs Hx Hy. destruct (Z.eq_dec x y) as [->|].
  { unfold lex. rewrite !cmp_refl by done. done. }
  unfold len in Hy. rewrite <- StronglySorted_lookup in Hs.
  destruct (lookup_lt_is_Some_2 its (Z.to_nat x)) as [u Hu]; [lia|].
  destruct (lookup_lt_is_Some_2 its (Z.to_nat y)) as [v Hv]; [lia|].
  unfold getd. rewrite Hu, Hv. apply (Hs (Z.to_nat x) (Z.to_nat y)); [lia|done|done].
Qed.

Lemma sorted_key its x y :
  StronglySorted (fun x y => lex c1 c2 x y <= 0) its -> 0 <= x <= y -> y < len its ->
  c1 (cell its x) (cell its y) <= 0.
Proof.
  intros Hs Hx Hy. pose proof (sorted_cells its x y Hs Hx Hy) as H. unfold lex in H.
  destruct (Z.eqb_spec (c1 (cell its x) (cell its y)) 0); lia.
Qed.

(** A change of key separates all rows before it from all rows after it. *)
Lemma key_change its x i y :
  StronglySorted (fun x y => lex c1 c2 x y <= 0) its -> 0 <= x < i -> i <= y < len its ->
  c1 (cell its (i - 1)) (cell its i) <> 0 -> c1 (cell its x) (cell its y) < 0.
Proof.
  intros Hs Hx Hy Hc. pose proof (sorted_key its x (i - 1) Hs ltac:(lia) ltac:(lia)).
  pose proof (sorted_key its (i - 1) i Hs ltac:(lia) ltac:(lia)).
  pose proof (sorted_key its i y Hs ltac:(lia) ltac:(lia)).
  apply (cmp_le_lt c1 _ (cell its (i - 1))); [done|done|]. apply (cmp_lt_le c1 _ (cell its i)); [done|lia|done].
Qed.

(** Every row with the key of a row of the group is in the group. *)
Lemma group_closed its g i x y :
  StronglySorted (fun x y => lex c1 c2 x y <= 0) its -> group its g i -> starts its g -> ends its i ->
  g <= x < i -> 0 <= y < len its -> c1 (cell its x) (cell its y) = 0 -> g <= y < i.
Proof.
  intros Hs [Hr Hsame] Hst He Hx Hy Hc. split.
  - destruct (Z.lt_ge_cases y g); [|done]. destruct Hst as [->|Hst]; [lia|].
    pose proof (key_change its y g x Hs ltac:(lia) ltac:(lia) Hst). apply cmp_eq_sym in Hc; [lia|done].
  - destruct (Z.lt_ge_cases y i); [done|]. destruct He as [->|He]; [lia|].
    pose proof (key_change its x i y Hs ltac:(lia) ltac:(lia) He). lia.
Qed.

Lemma supports_cells its x :
  supports its x <-> forall y, 0 <= y < len its -> c1 x (cell its y) = 0 -> c2 x (cell its y) = 0.
Proof.
  unfold supports. split.
  - intros H y Hy. rewrite Forall_lookup in H. unfold len in Hy.
    destruct (lookup_lt_is_Some_2 its (Z.to_nat y)) as [v Hv]; [lia|]. unfold getd. rewrite Hv. by apply (H (Z.to_nat y)).
  - intros H. apply (Forall_getd _ d). done.
Qed.

(** A complete group without a violation supports the dependency. *)
Lemma group_supports its g i :
  StronglySorted (fun x y => lex c1 c2 x y <= 0) its -> group its g i -> starts its g -> ends its i ->
  (forall j, g < j < i -> c2 (cell its (j - 1)) (cell its j) = 0) ->
  forall x, g <= x < i -> supports its (cell its x).
Proof.
  intros Hs Hg Hst He Hv x Hx. apply supports_cells. intros y Hy Hc.
  pose proof (group_closed its g i x y Hs Hg Hst He Hx Hy Hc) as Hyg.
  assert (Hall : forall n z, g <= z -> z + Z.of_nat n < i -> c2 (cell its z) (cell its (z + Z.of_nat n)) = 0).
  { induction n as [|n IH]; intros z Hz Hn.
    - replace (z + Z.of_nat 0) with z by lia. by apply cmp_refl.
    - apply (cmp_eq_trans c2 _ (cell its (z + Z.of_nat n))); [done|apply IH; lia|].
      specialize (Hv (z + Z.of_nat (S n)) ltac:(lia)). by replace (z + Z.of_nat (S n) - 1) with (z + Z.of_nat n) in Hv by lia. }
  destruct (Z.le_gt_cases x y).
  - specialize (Hall (Z.to_nat (y - x)) x). replace (x + Z.of_nat (Z.to_nat (y - x))) with y in Hall by lia. apply Hall; lia.
  - specialize (Hall (Z.to_nat (x - y)) y). replace (y + Z.of_nat (Z.to_nat (x - y))) with x in Hall by lia.
    apply cmp_eq_sym; [done|]. apply Hall; lia.
Qed.

(** A group with a violation has no supporting row. *)
Lemma group_violates its g i j :
  StronglySorted (fun x y => lex c1 c2 x y <= 0) its -> group its g i -> g < j < i ->
  c2 (cell its (j - 1)) (cell its j) <> 0 ->
  forall x, g <= x < i -> ~ supports its (cell its x).
Proof.
  intros Hs [Hr Hsame] Hj Hv x Hx Hsup. rewrite supports_cells in Hsup.
  assert (Hle : forall u v, g <= u <= v -> v < i -> c2 (cell its u) (cell its v) <= 0).
  { intros u v Hu Hv'. pose proof (sorted_cells its u v Hs ltac:(lia) ltac:(lia)) as H. unfold lex in H.
    rewrite (Hsame u v) in H by lia. done. }
  pose proof (Hle (j - 1) j ltac:(lia) ltac:(lia)). destruct (Z.lt_ge_cases x j).
  - pose proof (cmp_le_lt c2 (cell its x) _ (cell its j) H2 (Hle x (j - 1) ltac:(lia) ltac:(lia)) ltac:(lia)).
    pose proof (Hsup j ltac:(lia) (Hsame x j ltac:(lia) ltac:(lia))). lia.
  - pose proof (cmp_lt_le c2 (cell its (j - 1)) (cell its j) (cell its x) H2 ltac:(lia) (Hle j x ltac:(lia) ltac:(lia))).
    pose proof (Hsup (j - 1) ltac:(lia) (Hsame x (j - 1) ltac:(lia) ltac:(lia))) as He.
    pose proof (cmp_eq_sym c2 _ _ H2 He). lia.
Qed.

End counting.

(** The elements of a range that all satisfy [P], or all do not. *)
Lemma filter_range {A} (d : A) (P : A -> Prop) `{!forall x, Decision (P x)} (l : list A) (g : Z) (n : nat) (b : bool) :
  0 <= g -> g + Z.of_nat n <= len l ->
  (forall x, g <= x < g + Z.of_nat n -> if b then P (getd d l x) else ~ P (getd d l x)) ->
  len (filter P (take (Z.to_nat (g + Z.of_nat n)) l)) =
  len (filter P (take (Z.to_nat g) l)) + (if b then Z.of_nat n else 0).
Proof.
  intros Hg. induction n as [|n IH]; intros Hl Hall.
  - replace (g + Z.of_nat 0) with g by lia. destruct b; lia.
  - replace (g + Z.of_nat (S n)) with (g + Z.of_nat n + 1) in * by lia.
    rewrite (take_cell d) by lia. rewrite filter_app, len_app, IH; [|lia|intros x Hx; apply Hall; lia].
    specialize (Hall (g + Z.of_nat n) ltac:(lia)). rewrite filter_cons, filter_nil.
    destruct b; case_decide; try done; unfold len; cbn [length]; lia.
Qed.

Section walk.
Context (items : list SortItem) (nitems k : Z) (mss : MultiSortSupportData) (d : SortItem).
Context (Hok : ssup_ok mss) (Hk : 2 <= k) (Hn : 1 <= nitems <= len items) (Hsmall : nitems < 2 ^ 31 - 1).

#[local] Set Default Proof Using "All".

Definition key_cmp (a b : SortItem) : Z := multi_sort_compare_dims 0 (k - 2) a b mss.
Definition last_cmp (a b : SortItem) : Z := multi_sort_compare_dim (k - 1) a b mss.

#[local] Abbreviation its := (take (Z.to_nat nitems) items).

Context (Hsorted : StronglySorted (fun x y => lex key_cmp last_cmp x y <= 0) its).

#[local] Instance key_comparator : SortComparator key_cmp.
Proof. apply dims_comparator, Hok. Qed.

#[local] Instance last_comparator : SortComparator last_cmp.
Proof. apply dim_comparator, Hok. Qed.

(** The counters before row [i]. *)
Definition walk_inv (i : Z) (c : Counters) : Prop :=
  let g := i - group_size c in
  group key_cmp d its g i /\ starts key_cmp d its g /\ 0 <= n_violations c < i /\
  (n_violations c = 0 <-> forall j, g < j < i -> last_cmp (getd d its (j - 1)) (getd d its j) = 0) /\
  n_supporting_rows c = len (filter (supports key_cmp last_cmp its) (take (Z.to_nat g) its)).

Lemma len_its : len its = nitems.
Proof. unfold len in *. rewrite length_take. lia. Qed.

(** Closing a group adds its rows if it has no violation. *)
Lemma close_group i c :
  walk_inv i c -> ends key_cmp d its i -> i <= nitems ->
  (if n_violations c =? 0 then i32 (n_supporting_rows c + group_size c) else n_supporting_rows c) =
  len (filter (supports key_cmp last_cmp its) (take (Z.to_nat i) its)).
Proof.
  intros (Hg & Hst & Hv0 & Hv & Hsup) He Hi. pose proof len_its as Hl. destruct (gp_range _ _ _ _ _ Hg) as [Hr _].
  set (g := i - group_size c) in *. rewrite Hsup.
  pose proof (filter_range d (supports key_cmp last_cmp its) its g (Z.to_nat (i - g)) (n_violations c =? 0)
    ltac:(lia) ltac:(lia)) as Hf.
  replace (g + Z.of_nat (Z.to_nat (i - g))) with i in Hf by lia. rewrite Hf.
  - pose proof (supporting_le key_cmp last_cmp its).
    assert (len (filter (supports key_cmp last_cmp its) (take (Z.to_nat g) its)) <= g).
    { unfold len. pose proof (length_filter (supports key_cmp last_cmp its) (take (Z.to_nat g) its)) as H1.
      rewrite length_take in H1. lia. }
    pose proof (len_nonneg (filter (supports key_cmp last_cmp its) (take (Z.to_nat g) its))).
    destruct (Z.eqb_spec (n_violations c) 0); [|lia]. rewrite i32_small by lia. lia.
  - intros x Hx. destruct (Z.eqb_spec (n_violations c) 0) as [Hz|Hz].
    + apply (group_supports key_cmp last_cmp d its g i); first [done|lia|by apply Hv].
    + destruct (decide (Forall (fun j => last_cmp (getd d its (j - 1)) (getd d its j) = 0) (seqZ (g + 1) (i - g - 1)))) as [Hall|Hex].
      * exfalso. apply Hz, Hv. intros j Hj. rewrite Forall_forall in Hall. apply Hall. apply elem_of_seqZ. lia.
      * apply not_Forall_Exists in Hex; [|apply _]. apply Exists_exists in Hex as (j & Hj & Hjv).
        apply elem_of_seqZ in Hj.
        apply (group_violates key_cmp last_cmp d its g i j); try done; lia.
Qed.

Lemma count_row_wp i c :
  1 <= i <= nitems -> walk_inv i c ->
  wp (count_row items nitems k mss i c) (fun c' =>
    if i =? nitems then n_supporting_rows c' = len (supporting key_cmp last_cmp its) else walk_inv (i + 1) c').
Proof.
  intros Hi Hw. pose proof len_its as Hl. unfold count_row.
  destruct (Z.eqb_spec i nitems) as [->|Hne].
  { apply wp_Ok. cbn. rewrite (close_group nitems c Hw); [|left; lia|lia].
    unfold supporting. rewrite (take_all its) by done. done. }
  apply wp_bind, (wp_rd d); [lia|]. apply wp_bind, (wp_rd d); [lia|].
  rewrite <- (getd_take d items nitems (i - 1)), <- (getd_take d items nitems i) by lia.
  change (multi_sort_compare_dims 0 (k - 2) ?a ?b mss) with (key_cmp a b).
  change (multi_sort_compare_dim (k - 1) ?a ?b mss) with (last_cmp a b).
  pose proof Hw as (Hg & Hst & Hv0 & Hv & Hsup). destruct Hg as [Hr Hsame].
  destruct (Z.eqb_spec (key_cmp (getd d its (i - 1)) (getd d its i)) 0) as [Hc|Hc]; cbn [negb].
  - apply wp_Ok. unfold walk_inv. cbn [group_size n_violations n_supporting_rows].
    rewrite i32_small by lia. replace (i + 1 - (group_size c + 1)) with (i - group_size c) by lia.
    assert (Hd : forall P : Z -> Prop, (forall j, i - group_size c < j < i + 1 -> P j) <->
      (forall j, i - group_size c < j < i -> P j) /\ P i).
    { intros P. split; [intros H; split; [intros; apply H; lia|apply H; lia]|].
      intros [Ha Hb] j Hj. destruct (Z.eq_dec j i) as [->|]; [done|apply Ha; lia]. }
    split_and!; [split; [lia|]|done|..|done].
    + assert (Hx : forall x, i - group_size c <= x < i + 1 -> key_cmp (getd d its x) (getd d its i) = 0).
      { intros x Hx. destruct (Z.eq_dec x i) as [->|]; [by apply cmp_refl, _|].
        apply (cmp_eq_trans key_cmp _ (getd d its (i - 1))); [apply _|apply Hsame; lia|done]. }
      intros x y Hx' Hy'. apply (cmp_eq_trans key_cmp _ (getd d its i)); [apply _|by apply Hx|].
      apply cmp_eq_sym; [apply _|by apply Hx].
    + destruct (Z.eqb_spec (last_cmp (getd d its (i - 1)) (getd d its i)) 0); cbn [negb]; [lia|rewrite i32_small; lia].
    + destruct (Z.eqb_spec (last_cmp (getd d its (i - 1)) (getd d its i)) 0); cbn [negb]; [lia|rewrite i32_small; lia].
    + rewrite (Hd (fun j => last_cmp (getd d its (j - 1)) (getd d its j) = 0)).
      destruct (Z.eqb_spec (last_cmp (getd d its (i - 1)) (getd d its i)) 0) as [He|He]; cbn [negb].
      * rewrite Hv. tauto.
      * rewrite i32_small by lia. split; [lia|]. intros [_ H]. done.
  - apply wp_Ok. unfold walk_inv. cbn [group_size n_violations n_supporting_rows].
    replace (i + 1 - 1) with i by lia. split_and!; [split; [lia|]|by right|lia|lia|..].
    + intros x y Hx Hy. replace x with y by lia. by apply cmp_refl, _.
    + split; [|done]. intros _ j Hj. lia.
    + apply close_group; [done|by right|lia].
Qed.

Lemma count_rows_wp :
  wp (loop_state (for_up 1 (nitems + 1) (fun i c => c ← count_row items nitems k mss i c; Ok (inl c))
        {| group_size := 1; n_violations := 0; n_supporting_rows := 0 |}))
     (fun c => n_supporting_rows c = len (supporting key_cmp last_cmp its)).
Proof.
  pose proof len_its as Hl. apply wp_loop_state.
  apply (wp_for_up (fun i c => if i =? nitems + 1 then n_supporting_rows c = len (supporting key_cmp last_cmp its)
                               else walk_inv i c)); [lia|..].
  - destruct (Z.eqb_spec 1 (nitems + 1)); [lia|]. unfold walk_inv. cbn [group_size n_violations n_supporting_rows].
    split_and!; [split; [lia|]|by left|lia|lia| |done].
    + intros x y Hx Hy. replace x with y by lia. by apply cmp_refl, _.
    + split; [|done]. intros _ j Hj. lia.
  - intros i c Hi Hw. destruct (Z.eqb_spec i (nitems + 1)); [lia|]. apply wp_bind.
    eapply wp_mono; [by apply count_row_wp; [lia|]|]. intros c' Hc'. apply wp_Ok.
    destruct (Z.eqb_spec i nitems), (Z.eqb_spec (i + 1) (nitems + 1)); done || lia.
  - intros c. destruct (Z.eqb_spec (nitems + 1) (nitems + 1)); [done|lia].
Qed.

End walk.

Lemma length_omap_le {A B} (f : A -> option B) (l : list A) : (length (omap f l) <= length l)%nat.
Proof. induction l as [|x l IH]; cbn; [done|]. destruct (f x); cbn; lia. Qed.

(** * The sample *)
Record good_sample (T : TypeSystem) (data : StatsBuildData) : Prop := {
  so_rows : 1 <= numrows data < 2 ^ 31 - 1;
  so_natts : len (attnums data) = nattnums data;
  so_distinct : NoDup (attnums data);
  so_stats : len (stats data) = nattnums data;
  so_values : len (values data) = nattnums data;
  so_nulls : len (nulls data) = nattnums data;
  so_cols : Forall (fun c => len c = numrows data) (values data);
  so_ncols : Forall (fun c => len c = numrows data) (nulls data);
  so_types : Forall (fun st => type_lt_opr T (attrtypid st) <> InvalidOid /\
    exists rev cmp, ordering_op T (type_lt_opr T (attrtypid st)) (attrcollid st) = Ok (rev, cmp) /\
                    SortComparator cmp) (stats data);
  so_toast : forall v, toast_raw_datum_size T v <= WIDTH_THRESHOLD -> exists v', PG_DETOAST_DATUM T v = Ok v'
}.

Section sample.
Context (cassert : bool) (T : TypeSystem) (data : StatsBuildData).
Context (Hs : good_sample T data).
#[local] Set Default Proof Using "Type*".

Definition no_stat : VacAttrStats := {| attrtypid := 0; attrcollid := 0 |}.

Definition detoasted (v : Z) : Z := match PG_DETOAST_DATUM T v with Ok v' => v' | _ => v end.

(** The value of column [idx] in row [i]: [None] if it is too wide. *)
Definition cell_spec (i idx : Z) : option (Z * bool) :=
  let value := getd 0 (getd [] (values data) idx) i in
  let isnull := getd false (getd [] (nulls data) idx) i in
  if negb isnull && (get_typlen T (attrtypid (getd no_stat (stats data) idx)) =? -1) then
    if WIDTH_THRESHOLD <? toast_raw_datum_size T value then None else Some (detoasted value, isnull)
  else Some (value, isnull).

(** Row [i] restricted to the columns [dep]. *)
Definition row_spec (dep : list Z) (i : Z) : option SortItem :=
  cs ← mapM (cell_spec i) dep;
  Some {| it_values := cs.*1; it_isnull := cs.*2; it_count := 0 |}.

(** The rows of the sample that are not too wide. *)
Definition sample_rows (dep : list Z) : list SortItem := omap (row_spec dep) (seqZ 0 (numrows data)).

Lemma find_attnum_wp idx :
  0 <= idx < nattnums data -> wp (find_attnum data (getd 0 (attnums data) idx)) (fun r => r = idx).
Proof.
  intros Hi. destruct Hs. unfold find_attnum. apply wp_loop_return.
  apply (wp_find_up (fun j => getd 0 (attnums data) idx =? getd 0 (attnums data) j) (fun j => j)).
  - intros j Hj. apply wp_bind, (wp_rd 0); [lia|]. apply wp_Ok. done.
  - intros H. specialize (H idx Hi). lia.
  - intros j Hj Ht _. apply Z.eqb_eq in Ht. unfold getd, len in *.
    destruct (lookup_lt_is_Some_2 (attnums data) (Z.to_nat idx)) as [u Hu]; [lia|].
    destruct (lookup_lt_is_Some_2 (attnums data) (Z.to_nat j)) as [v Hv]; [lia|].
    rewrite Hu, Hv in Ht. simpl in Ht. subst.
    pose proof (proj1 (NoDup_alt (attnums data)) so_distinct0 _ _ _ Hu Hv). lia.
Qed.

Definition typlens : list Z := (fun st => get_typlen T (attrtypid st)) <$> stats data.

Lemma load_value_wp i idx :
  0 <= i < numrows data -> 0 <= idx < nattnums data ->
  wp (load_value cassert T data typlens i (getd 0 (attnums data) idx)) (fun o => o = cell_spec i idx).
Proof.
  intros Hi Hidx. unfold load_value. apply wp_bind. eapply wp_mono; [by apply find_attnum_wp|].
  intros r ->. destruct Hs. unfold Assert. destruct (Z.ltb_spec idx (nattnums data)); [|lia].
  rewrite andb_false_r. apply wp_bind, wp_Ok.
  assert (Hc : len (getd [] (values data) idx) = numrows data).
  { unfold getd. destruct (lookup_lt_is_Some_2 (values data) (Z.to_nat idx)) as [u Hu]; [unfold len in *; lia|].
    rewrite Hu. by apply (Forall_lookup_1 _ _ _ _ so_cols0 Hu). }
  assert (Hn : len (getd [] (nulls data) idx) = numrows data).
  { unfold getd. destruct (lookup_lt_is_Some_2 (nulls data) (Z.to_nat idx)) as [u Hu]; [unfold len in *; lia|].
    rewrite Hu. by apply (Forall_lookup_1 _ _ _ _ so_ncols0 Hu). }
  assert (Ht : getd 0 typlens idx = get_typlen T (attrtypid (getd no_stat (stats data) idx))).
  { unfold getd, typlens. rewrite list_lookup_fmap.
    destruct (lookup_lt_is_Some_2 (stats data) (Z.to_nat idx)) as [u Hu]; [unfold len in *; lia|]. by rewrite Hu. }
  apply wp_bind, (wp_rd []); [lia|]. apply wp_bind, (wp_rd 0); [lia|].
  apply wp_bind, (wp_rd []); [lia|]. apply wp_bind, (wp_rd false); [lia|].
  apply wp_bind, (wp_rd 0); [unfold typlens, len in *; rewrite length_fmap; lia|].
  rewrite Ht. unfold cell_spec.
  destruct (negb _ && _); [|by apply wp_Ok].
  destruct (Z.ltb_spec WIDTH_THRESHOLD (toast_raw_datum_size T (getd 0 (getd [] (values data) idx) i))) as [|Hw]; [by apply wp_Ok|].
  unfold detoasted. destruct (so_toast0 _ Hw) as [v' ->]. apply wp_bind, wp_Ok, wp_Ok. done.
Qed.

Definition item_shape (numattrs : Z) (it : SortItem) : Prop :=
  len (it_values it) = numattrs /\ len (it_isnull it) = numattrs /\ it_count it = 0.

Definition no_item : SortItem := {| it_values := []; it_isnull := []; it_count := 0 |}.

(** The columns of the dependency exist. *)
Definition dep_ok (dep : list Z) : Prop := Forall (fun idx => 0 <= idx < nattnums data) dep.

Definition dep_attnums (dep : list Z) : list Z := (fun idx => getd 0 (attnums data) idx) <$> dep.

(** The first [j] cells of an item are loaded. *)
Definition loaded (dep : list Z) (i j : Z) (it : SortItem) : Prop :=
  exists cs, Forall2 (fun idx c => cell_spec i idx = Some c) (take (Z.to_nat j) dep) cs /\
    take (Z.to_nat j) (it_values it) = cs.*1 /\ take (Z.to_nat j) (it_isnull it) = cs.*2.

Lemma loaded_next dep i j it v b :
  0 <= j < len dep -> item_shape (len dep) it -> loaded dep i j it ->
  cell_spec i (getd 0 dep j) = Some (v, b) ->
  loaded dep i (j + 1) {| it_values := upd (it_values it) j v; it_isnull := upd (it_isnull it) j b; it_count := it_count it |}.
Proof using Type.
  intros Hj (H1 & H2 & _) (cs & Hf & Hv & Hn) Hc. exists (cs ++ [(v, b)]). cbn [it_values it_isnull].
  rewrite (take_cell 0) by lia. rewrite !take_upd by lia. rewrite Hv, Hn, !fmap_app. split_and!; [|done|done].
  apply Forall2_app; [done|]. by constructor.
Qed.

Lemma loaded_all dep i it :
  item_shape (len dep) it -> loaded dep i (len dep) it -> row_spec dep i = Some it.
Proof using Type.
  intros (H1 & H2 & H3) (cs & Hf & Hv & Hn). rewrite !take_all in * by done.
  unfold row_spec. apply mapM_Some in Hf. rewrite Hf. destruct it; simpl in *. by subst.
Qed.

Lemma load_row_wp dep i nrows items :
  dep_ok dep -> 0 <= i < numrows data -> 0 <= nrows < len items -> item_shape (len dep) (getd no_item items nrows) ->
  wp (load_row cassert T data typlens (len dep) (dep_attnums dep) i nrows items) (fun o =>
    match row_spec dep i with
    | Some it => o = inl (upd items nrows it)
    | None => exists it, o = inr (upd items nrows it) /\ item_shape (len dep) it
    end).
Proof.
  intros Hd Hi Hn Hsh. unfold load_row.
  apply (wp_for_up (fun j items' => exists it, items' = upd items nrows it /\ item_shape (len dep) it /\
    loaded dep i j it)).
  - apply len_nonneg.
  - exists (getd no_item items nrows). split_and!; [|done|by exists []].
    apply (getd_ext no_item); [by rewrite len_upd|]. intros x Hx. rewrite getd_upd by lia.
    destruct (Z.eqb_spec x nrows) as [->|]; done.
  - intros j items' Hj (it & -> & Hit & Hld).
    assert (Hidx : 0 <= getd 0 dep j < nattnums data).
    { unfold getd. destruct (lookup_lt_is_Some_2 dep (Z.to_nat j)) as [u Hu]; [unfold len in *; lia|].
      rewrite Hu. by apply (Forall_lookup_1 _ _ _ _ Hd Hu). }
    apply wp_bind, (wp_rd 0); [unfold dep_attnums, len in *; rewrite length_fmap; lia|].
    assert (getd 0 (dep_attnums dep) j = getd 0 (attnums data) (getd 0 dep j)) as ->.
    { unfold getd at 1 3, dep_attnums. rewrite list_lookup_fmap.
      destruct (lookup_lt_is_Some_2 dep (Z.to_nat j)) as [u Hu]; [unfold len in *; lia|]. by rewrite Hu. }
    apply wp_bind. eapply wp_mono; [by apply load_value_wp|]. intros o ->.
    destruct (cell_spec i (getd 0 dep j)) as [[v b]|] eqn:Hc.
    + apply wp_bind, (wp_rd no_item); [rewrite len_upd; lia|]. rewrite getd_upd_eq by lia.
      pose proof Hit as (Hv & Hb & Hct).
      apply wp_bind, wp_wr; [lia|]. apply wp_bind, wp_wr; [lia|].
      apply wp_bind, wp_wr; [rewrite len_upd; lia|]. apply wp_Ok.
      exists {| it_values := upd (it_values it) j v; it_isnull := upd (it_isnull it) j b; it_count := it_count it |}.
      split; [|split].
      * by apply list_insert_insert_eq.
      * split_and!; cbn; rewrite ?len_upd; done.
      * by apply loaded_next.
    + apply wp_Ok. assert (row_spec dep i = None) as ->.
      { unfold row_spec. replace (mapM (cell_spec i) dep) with (@None (list (Z * bool))); [done|]. symmetry.
        apply mapM_None. apply Exists_exists. exists (getd 0 dep j). split; [|done].
        unfold getd. destruct (lookup_lt_is_Some_2 dep (Z.to_nat j)) as [u Hu]; [unfold len in *; lia|].
        rewrite Hu. by eapply list_elem_of_lookup_2. }
      by exists it.
  - intros items' (it & -> & Hit & Hld). by rewrite (loaded_all dep i it).
Qed.

(** The rows read so far fill the first cells of the item array. *)
Definition rows_read (dep : list Z) (i : Z) (st : list SortItem * Z) : Prop :=
  let '(items, nrows) := st in
  nrows = len (omap (row_spec dep) (seqZ 0 i)) /\ nrows <= i /\
  take (Z.to_nat nrows) items = omap (row_spec dep) (seqZ 0 i) /\
  len items = numrows data /\ Forall (item_shape (len dep)) items.

Lemma row_shape dep i it : row_spec dep i = Some it -> item_shape (len dep) it.
Proof using Type.
  unfold row_spec. destruct (mapM (cell_spec i) dep) as [cs|] eqn:Hm; [|done]. simpl. intros [= <-].
  apply mapM_Some, Forall2_length in Hm. unfold item_shape, len. cbn. rewrite !length_fmap. by rewrite Hm.
Qed.

Lemma rows_read_step dep i items nrows :
  dep_ok dep -> 0 <= i < numrows data -> rows_read dep i (items, nrows) ->
  wp (o ← load_row cassert T data typlens (len dep) (dep_attnums dep) i nrows items;
      Ok (inl (match o with inl items => (items, nrows + 1) | inr items => (items, nrows) end)))
     (fun o : list SortItem * Z + Empty_set => match o with inl st => rows_read dep (i + 1) st | inr _ => False end).
Proof.
  intros Hd Hi (Hn & Hle & Ht & Hl & Hf). pose proof (len_nonneg (omap (row_spec dep) (seqZ 0 i))).
  apply wp_bind. eapply wp_mono; [apply load_row_wp; try done; [lia|]|].
  { apply (Forall_lookup_1 (item_shape (len dep)) items (Z.to_nat nrows)); [done|].
    unfold getd. destruct (lookup_lt_is_Some_2 items (Z.to_nat nrows)) as [u Hu]; [unfold len in *; lia|]. by rewrite Hu. }
  assert (Hseq : seqZ 0 (i + 1) = seqZ 0 i ++ [i]).
  { pose proof (seqZ_next 0 i ltac:(lia)) as H1. by rewrite !Z.sub_0_r in H1. }
  intros o Ho. apply wp_Ok. unfold rows_read. rewrite Hseq, omap_app. cbn [omap list_omap].
  destruct (row_spec dep i) as [it|] eqn:Hr.
  - subst o. split_and!.
    + rewrite Hn. unfold len. rewrite length_app. cbn [length]. lia.
    + lia.
    + rewrite take_upd by lia. by rewrite Ht.
    + by rewrite len_upd.
    + apply Forall_upd; [done|]. by eapply row_shape.
  - destruct Ho as (it & -> & Hit). rewrite app_nil_r. split_and!; [done|lia| | |].
    + unfold upd. rewrite take_insert_ge by lia. done.
    + by rewrite len_upd.
    + by apply Forall_upd.
Qed.

Lemma build_sorted_items_wp mss dep :
  dep_ok dep -> ndims mss = len dep -> ssup_ok mss ->
  wp (build_sorted_items cassert T data mss (len dep) (dep_attnums dep)) (fun '(o, nitems) =>
    nitems = len (sample_rows dep) /\
    match o with
    | None => sample_rows dep = []
    | Some items => 1 <= nitems <= len items /\ take (Z.to_nat nitems) items ≡ₚ sample_rows dep /\
        StronglySorted (fun x y => multi_sort_compare mss x y <= 0) (take (Z.to_nat nitems) items)
    end).
Proof.
  intros Hd Hn Hok. unfold build_sorted_items. apply wp_bind.
  apply (wp_mono _ (fun t => t = typlens)).
  { destruct Hs. apply wp_loop_state.
    apply (wp_for_up (fun i t => t = take (Z.to_nat i) typlens)); [unfold len in *; lia|done|..].
    - intros i t Hi ->. apply wp_bind, (wp_rd no_stat); [lia|]. apply wp_Ok.
      rewrite (take_cell 0) by (unfold typlens, len in *; rewrite length_fmap; lia). do 2 f_equal.
      unfold getd, typlens. rewrite list_lookup_fmap.
      destruct (lookup_lt_is_Some_2 (stats data) (Z.to_nat i)) as [u Hu]; [unfold len in *; lia|]. by rewrite Hu.
    - intros t ->. apply take_all. unfold typlens, len in *. rewrite length_fmap. lia. }
  intros t ->. apply wp_bind. pose proof (so_rows _ _ Hs) as Hrows.
  apply (wp_mono _ (rows_read dep (numrows data))).
  { apply wp_loop_state. apply (wp_for_up (rows_read dep)); [lia|..].
    - split_and!; [done|lia|done|rewrite len_replicate; lia|]. apply Forall_replicate.
      unfold item_shape, blank_item. cbn. rewrite !len_replicate. pose proof (len_nonneg dep). lia.
    - intros i [items nrows] Hi Hr. by apply rows_read_step.
    - intros st H. exact H. }
  intros [items nrows] (Hnr & Hle & Ht & Hl & Hf). destruct (Z.eqb_spec nrows 0) as [H0|H0].
  { apply wp_Ok. split; [done|]. change (omap (row_spec dep) (seqZ 0 (numrows data))) with (sample_rows dep) in Hnr.
    destruct (sample_rows dep); [done|]. rewrite len_cons in Hnr. pose proof (len_nonneg l). lia. }
  pose proof (len_nonneg (omap (row_spec dep) (seqZ 0 (numrows data)))).
  apply wp_bind. eapply wp_mono; [apply (wp_ST_SORT _ no_item); [lia..|]|].
  { unfold frames_for. pose proof (Z.log2_nonneg nrows). lia. }
  intros items' [Hp Hsort]. pose proof (perm_seg_len _ _ _ _ Hp) as Hl'. apply wp_Ok. split; [done|].
  rewrite Z.add_0_l in *.
  assert (Htake : take (Z.to_nat nrows) items' ≡ₚ take (Z.to_nat nrows) items).
  { destruct Hp as (x & m & m' & y & -> & -> & Hm & Hx & Hlm).
    destruct x; [|unfold len in Hx; simpl in Hx; lia]. simpl. pose proof (Permutation_length Hm).
    rewrite !take_app_length' by (unfold len in *; lia). done. }
  split_and!; [lia|lia|by rewrite Htake, Ht|].
  apply (sorted_seg_StronglySorted _ no_item). intros x y Hx Hy.
  unfold len in Hy. rewrite length_take in Hy. rewrite !getd_take by lia.
  apply Hsort; [|lia|lia]. apply dims_comparator, Hok.
Qed.

(** ** The degree *)

(** How the columns of a dependency are compared. *)
Definition column_ssup (idx : Z) : SortSupportData :=
  let st := getd no_stat (stats data) idx in
  match ordering_op T (type_lt_opr T (attrtypid st)) (attrcollid st) with
  | Ok (rev, cmp) => {| ssup_collation := attrcollid st; ssup_nulls_first := false; ssup_reverse := rev; comparator := cmp |}
  | _ => no_ssup
  end.

Definition dep_mss (dep : list Z) : MultiSortSupportData :=
  {| ndims := len dep; ssup := column_ssup <$> dep |}.

Lemma column_type idx :
  0 <= idx < nattnums data -> exists rev cmp,
    let st := getd no_stat (stats data) idx in
    type_lt_opr T (attrtypid st) <> InvalidOid /\
    ordering_op T (type_lt_opr T (attrtypid st)) (attrcollid st) = Ok (rev, cmp) /\ SortComparator cmp.
Proof.
  intros Hi. destruct Hs. unfold getd.
  destruct (lookup_lt_is_Some_2 (stats data) (Z.to_nat idx)) as [u Hu]; [unfold len in *; lia|].
  rewrite Hu. pose proof (Forall_lookup_1 _ _ _ _ so_types0 Hu) as (H1 & rev & cmp & H2 & H3). by exists rev, cmp.
Qed.

Lemma dep_mss_ok dep : dep_ok dep -> ssup_ok (dep_mss dep).
Proof.
  intros Hd. unfold ssup_ok, dep_mss. cbn. apply Forall_fmap. eapply Forall_impl; [exact Hd|]. intros idx Hi.
  destruct (column_type idx Hi) as (rev & cmp & _ & H2 & H3). unfold compose, column_ssup. by rewrite H2.
Qed.

Lemma prepare_sort_wp dep :
  dep_ok dep -> 2 <= len dep -> wp (prepare_sort cassert T data (len dep) dep) (fun mss => mss = dep_mss dep).
Proof.
  intros Hd Hk. unfold prepare_sort, multi_sort_init, Assert. destruct (Z.leb_spec 2 (len dep)); [|lia].
  rewrite andb_false_r. apply wp_bind, wp_bind, wp_Ok, wp_Ok. apply wp_loop_state.
  apply (wp_for_up (fun i mss => ndims mss = len dep /\ len (ssup mss) = len dep /\
    take (Z.to_nat i) (ssup mss) = column_ssup <$> take (Z.to_nat i) dep)); [lia|..].
  - split_and!; [done|cbn; rewrite len_replicate; lia|done].
  - intros i mss Hi (H1 & H2 & H3). apply wp_bind, (wp_rd 0); [lia|].
    assert (Hidx : 0 <= getd 0 dep i < nattnums data).
    { unfold getd. destruct (lookup_lt_is_Some_2 dep (Z.to_nat i)) as [u Hu]; [unfold len in *; lia|].
      rewrite Hu. by apply (Forall_lookup_1 _ _ _ _ Hd Hu). }
    apply wp_bind, (wp_rd no_stat); [rewrite (so_stats _ _ Hs); lia|].
    destruct (column_type _ Hidx) as (rev & cmp & Ho & Hc & Hcmp).
    destruct (Z.eqb_spec (type_lt_opr T (attrtypid (getd no_stat (stats data) (getd 0 dep i)))) InvalidOid); [done|].
    unfold multi_sort_add_dimension. rewrite Hc. apply wp_bind, wp_bind, wp_Ok, wp_bind, wp_wr; [lia|].
    apply wp_Ok, wp_Ok. cbn [ndims ssup]. split_and!; [done|by rewrite len_upd|].
    rewrite take_upd by lia. rewrite (take_cell 0) by lia. rewrite fmap_app, H3. f_equal. cbn.
    unfold column_ssup. by rewrite Hc.
  - intros mss (H1 & H2 & H3). rewrite !take_all in H3 by done. destruct mss; simpl in *. by subst.
Qed.

(** The first columns, and the last one, of two rows agree. *)
Definition same_key (dep : list Z) : SortItem -> SortItem -> Z := key_cmp (len dep) (dep_mss dep).
Definition same_last (dep : list Z) : SortItem -> SortItem -> Z := last_cmp (len dep) (dep_mss dep).

(** The number of rows of the sample that are consistent with the dependency. *)
Definition support_count (dep : list Z) : Z :=
  len (supporting (same_key dep) (same_last dep) (sample_rows dep)).

Lemma sample_rows_le dep : 0 <= len (sample_rows dep) <= numrows data.
Proof.
  split; [apply len_nonneg|]. unfold sample_rows, len. pose proof (so_rows _ _ Hs).
  pose proof (length_omap_le (row_spec dep) (seqZ 0 (numrows data))) as H1. rewrite length_seqZ in H1. lia.
Qed.

Lemma attnums_dep_wp dep :
  dep_ok dep ->
  wp (loop_state (for_up 0 (len dep) (fun i l =>
    d ← rd dep i; a ← rd (attnums data) d; Ok (inl (l ++ [a]))) [])) (fun l => l = dep_attnums dep).
Proof.
  intros Hd. apply wp_loop_state.
  apply (wp_for_up (fun i l => l = take (Z.to_nat i) (dep_attnums dep))); [apply len_nonneg|done|..].
  - intros i l Hi ->. assert (Hidx : 0 <= getd 0 dep i < nattnums data).
    { unfold getd. destruct (lookup_lt_is_Some_2 dep (Z.to_nat i)) as [u Hu]; [unfold len in *; lia|].
      rewrite Hu. by apply (Forall_lookup_1 _ _ _ _ Hd Hu). }
    apply wp_bind, (wp_rd 0); [lia|]. apply wp_bind, (wp_rd 0); [rewrite (so_natts _ _ Hs); lia|]. apply wp_Ok.
    rewrite (take_cell 0) by (unfold dep_attnums, len in *; rewrite length_fmap; lia). do 2 f_equal.
    unfold getd at 3, dep_attnums. rewrite list_lookup_fmap. unfold getd at 2.
    destruct (lookup_lt_is_Some_2 dep (Z.to_nat i)) as [u Hu]; [unfold len in *; lia|]. by rewrite Hu.
  - intros l ->. apply take_all. unfold dep_attnums, len. by rewrite length_fmap.
Qed.

Lemma dependency_degree_wp dep :
  dep_ok dep -> 2 <= len dep ->
  dependency_degree cassert T data (len dep) dep =
  Ok (d_div (d_mul (d_of_Z (support_count dep)) d_one) (d_of_Z (numrows data))).
Proof.
  intros Hd Hk. apply wp_eq. unfold dependency_degree, Assert. destruct (Z.leb_spec 2 (len dep)); [|lia].
  rewrite andb_false_r. apply wp_bind, wp_Ok. apply wp_bind. eapply wp_mono; [by apply attnums_dep_wp|]. intros l ->.
  apply wp_bind. eapply wp_mono; [by apply prepare_sort_wp|]. intros mss ->.
  apply wp_bind. eapply wp_mono; [apply build_sorted_items_wp; [done|done|by apply dep_mss_ok]|].
  intros [o nitems] [Hn Ho]. pose proof (sample_rows_le dep). pose proof (so_rows _ _ Hs).
  apply wp_bind. apply (wp_mono _ (fun c => n_supporting_rows c = support_count dep)).
  2:{ intros c ->. by apply wp_Ok. }
  destruct o as [items|]; cbn [default].
  - destruct Ho as (Hrange & Hp & Hsort). eapply wp_mono; [apply (count_rows_wp items nitems (len dep) (dep_mss dep) no_item)|].
    + by apply dep_mss_ok.
    + done.
    + lia.
    + lia.
    + eapply StronglySorted_mono; [|exact Hsort]. intros x y Hxy.
      unfold multi_sort_compare in Hxy. cbn [ndims dep_mss] in Hxy.
      replace (Z.to_nat (len dep)) with (S (Z.to_nat (len dep - 1))) in Hxy by lia. rewrite compare_dims_snoc in Hxy.
      unfold key_cmp, last_cmp, multi_sort_compare_dims.
      replace (Z.to_nat (len dep - 2 - 0 + 1)) with (Z.to_nat (len dep - 1)) by lia.
      replace (0 + Z.of_nat (Z.to_nat (len dep - 1))) with (len dep - 1) in Hxy by lia. done.
    + intros c Hc. rewrite Hc. unfold support_count. by apply supporting_perm.
  - unfold support_count. rewrite Ho in *. rewrite Hn. by apply wp_Ok.
Qed.

End sample.

Section meaning.
Context (T : TypeSystem) (data : StatsBuildData).

#[local] Abbreviation cell_of := (cell_spec T data).
#[local] Abbreviation row_of := (row_spec T data).

(** Two cells of a column agree. *)
Definition same_cell (idx : Z) (a b : Z * bool) : Prop :=
  a.2 = b.2 /\ (a.2 = false -> comparator (column_ssup T data idx) a.1 b.1 = 0).

(** Rows [i] and [j] agree on column [idx]. *)
Definition rows_agree (i j idx : Z) : Prop :=
  match cell_of i idx, cell_of j idx with Some a, Some b => same_cell idx a b | _, _ => False end.

#[export] Instance rows_agree_dec i j idx : Decision (rows_agree i j idx).
Proof. unfold rows_agree, same_cell. destruct (cell_of i idx), (cell_of j idx); apply _. Defined.

(** Row [i] has no value that is too wide. *)
Definition row_fits (dep : list Z) (i : Z) : Prop := Forall (fun idx => is_Some (cell_of i idx)) dep.

(** Row [i] respects the dependency of [y] on the columns [X]: any row that
    agrees with it on [X] agrees with it on [y]. *)
Definition row_respects (X : list Z) (y i : Z) : Prop :=
  row_fits (X ++ [y]) i /\
  Forall (fun j => row_fits (X ++ [y]) j -> Forall (rows_agree i j) X -> rows_agree i j y) (seqZ 0 (numrows data)).

#[export] Instance row_respects_dec X y i : Decision (row_respects X y i).
Proof. unfold row_respects, row_fits. apply _. Defined.

Definition respecting_rows (X : list Z) (y : Z) : list Z :=
  filter (row_respects X y) (seqZ 0 (numrows data)).

(** ** Comparing rows column by column *)
Lemma compare_dims_zero n dim a b mss :
  compare_dims n dim a b mss = 0 <->
  forall j, dim <= j < dim + Z.of_nat n -> multi_sort_compare_dim j a b mss = 0.
Proof.
  revert dim. induction n as [|n IH]; intros dim; cbn [compare_dims]; [split; [lia|done]|].
  destruct (Z.eqb_spec (multi_sort_compare_dim dim a b mss) 0) as [E|E].
  - rewrite IH. split; intros H j Hj; [destruct (Z.eq_dec j dim) as [->|]; [done|]|]; apply H; lia.
  - split; [done|]. intros H. apply H. lia.
Qed.

Lemma apply_comparator_zero s v1 b1 v2 b2 :
  ApplySortComparator v1 b1 v2 b2 s = 0 <-> b1 = b2 /\ (b1 = false -> comparator s v1 v2 = 0).
Proof.
  unfold ApplySortComparator, INVERT_COMPARE_RESULT.
  destruct b1, b2, (ssup_nulls_first s), (ssup_reverse s); z_cases; naive_solver lia.
Qed.

Lemma row_cells dep i it :
  row_of dep i = Some it <-> exists cs, Forall2 (fun idx c => cell_of i idx = Some c) dep cs /\
    it = {| it_values := cs.*1; it_isnull := cs.*2; it_count := 0 |}.
Proof.
  unfold row_spec. destruct (mapM (cell_of i) dep) as [cs|] eqn:E; cbn.
  - apply mapM_Some in E. split; [intros [= <-]; by exists cs|]. intros (cs' & H & ->).
    apply mapM_Some in E, H. rewrite E in H. by injection H as ->.
  - split; [done|]. intros (cs & H & _). apply mapM_Some in H. congruence.
Qed.

Lemma row_fits_spec dep i : row_fits dep i <-> is_Some (row_of dep i).
Proof.
  unfold row_spec, row_fits. change (Forall _ dep) with (Forall (is_Some ∘ cell_of i) dep). rewrite <- mapM_is_Some.
  destruct (mapM (cell_of i) dep); cbn; split; intros [? H]; done || by eexists.
Qed.

Lemma compare_dim_agree dep i i' it it' (j : nat) idx :
  row_of dep i = Some it -> row_of dep i' = Some it' -> dep !! j = Some idx ->
  multi_sort_compare_dim (Z.of_nat j) it it' (dep_mss T data dep) = 0 <-> rows_agree i i' idx.
Proof.
  intros (cs & Hc & ->)%row_cells (cs' & Hc' & ->)%row_cells Hj.
  destruct (Forall2_lookup_l _ _ _ _ _ Hc Hj) as (c & Hcj & E).
  destruct (Forall2_lookup_l _ _ _ _ _ Hc' Hj) as (c' & Hcj' & E').
  unfold multi_sort_compare_dim, getd. cbn [it_values it_isnull ssup dep_mss].
  rewrite Nat2Z.id, !list_lookup_fmap, Hcj, Hcj', Hj. cbn. rewrite apply_comparator_zero.
  unfold rows_agree. by rewrite E, E'.
Qed.

Lemma same_key_agree X y i i' it it' :
  row_of (X ++ [y]) i = Some it -> row_of (X ++ [y]) i' = Some it' ->
  same_key T data (X ++ [y]) it it' = 0 <-> Forall (rows_agree i i') X.
Proof.
  intros Hi Hi'. unfold same_key, key_cmp, multi_sort_compare_dims. rewrite compare_dims_zero, len_app.
  change (len [y]) with 1. rewrite Forall_lookup. split.
  - intros H j x Hx. eapply compare_dim_agree; [done..|by rewrite lookup_app_l by (by eapply lookup_lt_Some)|].
    apply lookup_lt_Some in Hx as Hl. apply H. unfold len. lia.
  - intros H j Hj. unfold len in Hj. destruct (lookup_lt_is_Some_2 X (Z.to_nat j)) as [x Hx]; [lia|].
    specialize (H _ _ Hx). rewrite <- (Z2Nat.id j) by lia.
    eapply compare_dim_agree; [done..|rewrite lookup_app_l by (by eapply lookup_lt_Some); done|done].
Qed.

Lemma same_last_agree X y i i' it it' :
  row_of (X ++ [y]) i = Some it -> row_of (X ++ [y]) i' = Some it' ->
  same_last T data (X ++ [y]) it it' = 0 <-> rows_agree i i' y.
Proof.
  intros Hi Hi'. unfold same_last, last_cmp. rewrite len_app. change (len [y]) with 1.
  replace (len X + 1 - 1) with (Z.of_nat (length X)) by (unfold len; lia).
  eapply compare_dim_agree; [done..|]. by rewrite lookup_app_r, Nat.sub_diag by lia.
Qed.

Lemma supports_respects X y i it :
  row_of (X ++ [y]) i = Some it ->
  supports (same_key T data (X ++ [y])) (same_last T data (X ++ [y])) (sample_rows T data (X ++ [y])) it <->
  row_respects X y i.
Proof.
  intros Hi. unfold supports, row_respects. rewrite row_fits_spec, Hi. rewrite !Forall_forall.
  unfold sample_rows. split.
  - intros H. split; [by eexists|]. intros j Hj [it' Hj']%row_fits_spec Hag.
    eapply same_last_agree; [done..|]. apply H; [|by eapply same_key_agree].
    apply list_elem_of_omap. by exists j.
  - intros [_ H] it' (j & Hj & Hj')%list_elem_of_omap Hk. eapply same_last_agree; [done..|].
    apply H; [done|by apply row_fits_spec; eexists|by eapply same_key_agree].
Qed.

Lemma filter_true {A} (l : list A) : filter (fun _ => True) l = l.
Proof. induction l as [|x l IH]; [done|]. rewrite filter_cons, IH. by case_decide. Qed.

Lemma filter_false {A} (l : list A) : filter (fun _ => False) l = [].
Proof. induction l as [|x l IH]; [done|]. rewrite filter_cons, IH. by case_decide. Qed.

Lemma filter_omap {A B} (f : A -> option B) (P : B -> Prop) (P' : A -> Prop)
    `{!forall x, Decision (P x), !forall x, Decision (P' x)} (l : list A) :
  (forall x y, f x = Some y -> P y <-> P' x) -> (forall x, f x = None -> ~ P' x) ->
  len (filter P (omap f l)) = len (filter P' l).
Proof.
  intros Hs Hn. induction l as [|x l IH]; [done|]. rewrite (filter_cons P'). cbn [omap list_omap].
  destruct (f x) as [y|] eqn:E.
  - rewrite filter_cons. specialize (Hs x y E). repeat case_decide; rewrite ?len_cons; tauto || lia.
  - specialize (Hn x E). case_decide; [done|apply IH].
Qed.

(** The count of the code is the number of rows that respect the dependency. *)
Lemma support_count_rows X y : support_count T data (X ++ [y]) = len (respecting_rows X y).
Proof.
  unfold support_count, supporting, respecting_rows, sample_rows at 2. apply filter_omap.
  - intros i it Hi. by apply supports_respects.
  - intros i Hi [Hf _]. apply row_fits_spec in Hf. rewrite Hi in Hf. by destruct Hf.
Qed.

Lemma respecting_all X y :
  0 <= numrows data -> len (respecting_rows X y) = numrows data <->
  forall i, 0 <= i < numrows data -> row_respects X y i.
Proof.
  intros Hn. unfold respecting_rows. split.
  - intros Hl i Hi. destruct (decide (row_respects X y i)) as [|Hne]; [done|].
    assert (Hlt : (length (filter (row_respects X y) (seqZ 0 (numrows data))) < length (seqZ 0 (numrows data)))%nat).
    { apply (length_filter_lt _ _ i); [|done]. apply elem_of_seqZ. lia. }
    rewrite length_seqZ in Hlt. unfold len in Hl. lia.
  - intros H. rewrite (filter_elem_ext _ (fun _ => True)).
    + rewrite filter_true. unfold len. rewrite length_seqZ. lia.
    + intros i Hi%elem_of_seqZ. split; [done|]. intros _. apply H. lia.
Qed.

Lemma respecting_none X y :
  len (respecting_rows X y) = 0 <-> forall i, 0 <= i < numrows data -> ~ row_respects X y i.
Proof.
  unfold respecting_rows. split.
  - intros Hl i Hi Hr. apply (not_elem_of_nil i). rewrite <- (nil_length_inv (filter (row_respects X y) (seqZ 0 (numrows data)))).
    + apply list_elem_of_filter. rewrite elem_of_seqZ. split; [done|lia].
    + unfold len in Hl. lia.
  - intros H. rewrite (filter_elem_ext _ (fun _ => False)); [by rewrite filter_false|].
    intros i Hi%elem_of_seqZ. split; [|done]. apply H. lia.
Qed.

End meaning.
