(* ===== verification/ItemFormat.v ===== *)
(** Arrays of items in a bytea, as the statistics store them: bytes of integers, a
    header of three words, and the loops that write and read the items.  The
    class [ItemFormat] is what the code for one item has to satisfy. *)
From S2P Require Import Prelude.
From S2P Require Import Double.
From S2P Require Import SortTemplate.
From S2P Require Import Bitmapset.
From S2P Require Import ExtStats.
From S2P Require Import Dependencies.
Open Scope Z_scope.

(** * Bytes *)
Lemma len_le_bytes n z : len (le_bytes n z) = Z.of_nat n.
Proof. revert z. induction n as [|n IH]; intros z; [done|]. cbn [le_bytes]. rewrite len_cons, IH. lia. Qed.

Lemma le_val_bytes n z : 0 <= z < 2 ^ (8 * Z.of_nat n) -> le_val (le_bytes n z) = z.
Proof.
  revert z. induction n as [|n IH]; intros z Hz; [cbn in *; lia|]. cbn [le_bytes le_val].
  rewrite IH.
  - pose proof (Z.div_mod z (2 ^ 8) ltac:(lia)). lia.
  - split; [apply Z.div_pos; lia|]. apply Z.div_lt_upper_bound; [lia|].
    rewrite <- Z.pow_add_r by lia. replace (8 + 8 * Z.of_nat n) with (8 * Z.of_nat (S n)) by lia. lia.
Qed.

Lemma attr_roundtrip a : - 2 ^ 15 <= a < 2 ^ 15 -> i16 (le_val (attr_bytes a)) = a.
Proof.
  intros Ha. unfold attr_bytes. rewrite le_val_bytes.
  - unfold i16, u16. rewrite <- Zplus_mod_idemp_l, Zmod_mod, Zplus_mod_idemp_l.
    rewrite Z.mod_small by lia. lia.
  - apply Z.mod_pos_bound. lia.
Qed.

Lemma len_attr_bytes a : len (attr_bytes a) = 2.
Proof. apply len_le_bytes. Qed.

Lemma len_attrs l : len (concat (attr_bytes <$> l)) = 2 * len l.
Proof.
  induction l as [|a l IH]; [done|]. cbn [fmap list_fmap concat]. rewrite len_app, len_attr_bytes, len_cons, IH. lia.
Qed.

Lemma get_attributes_bytes l :
  Forall (fun a => - 2 ^ 15 <= a < 2 ^ 15) l -> get_attributes (length l) (concat (attr_bytes <$> l)) = l.
Proof.
  induction 1 as [|a l Ha Hl IH]; [done|]. cbn [fmap list_fmap concat length].
  unfold attr_bytes at 1. cbn [le_bytes app get_attributes]. fold (attr_bytes <$> l). rewrite IH. f_equal.
  apply (attr_roundtrip a Ha).
Qed.

(** * The writer and the reader *)
Lemma put_spec pre bytes (n : nat) :
  len bytes <= Z.of_nat n ->
  put_bytes (pre ++ replicate n 0) (len pre) bytes =
  Ok ((pre ++ bytes) ++ replicate (n - length bytes) 0, len (pre ++ bytes)).
Proof.
  intros Hb. unfold put_bytes. rewrite !len_app, len_replicate. pose proof (len_nonneg pre).
  destruct (Z.leb_spec 0 (len pre)); [|lia].
  destruct (Z.leb_spec (len pre + len bytes) (len pre + Z.of_nat n)); [|lia]. cbn [andb].
  rewrite take_app_length' by (unfold len; lia). rewrite drop_app_ge by (unfold len in *; lia).
  rewrite drop_replicate, <- app_assoc. do 4 f_equal. unfold len. f_equal. lia.
Qed.

Lemma get_spec pre bytes post :
  get_bytes (pre ++ bytes ++ post) (len pre) (len bytes) = Ok (bytes, len pre + len bytes).
Proof.
  unfold get_bytes. rewrite !len_app. pose proof (len_nonneg pre). pose proof (len_nonneg bytes). pose proof (len_nonneg post).
  destruct (Z.leb_spec 0 (len pre)); [|lia]. destruct (Z.leb_spec 0 (len bytes)); [|lia].
  destruct (Z.leb_spec (len pre + len bytes) (len pre + (len bytes + len post))); [|lia]. cbn [andb].
  rewrite drop_app_length' by (unfold len; lia). rewrite take_app_length' by (unfold len; lia). done.
Qed.

Lemma get_at pre bytes post tmp n :
  tmp = len pre -> n = len bytes -> get_bytes (pre ++ bytes ++ post) tmp n = Ok (bytes, tmp + n).
Proof. intros -> ->. apply get_spec. Qed.

Lemma get_short buf tmp n : 0 <= tmp -> len buf < tmp + n -> get_bytes buf tmp n = UB "read outside the array".
Proof. intros H1 H2. unfold get_bytes. destruct (Z.leb_spec (tmp + n) (len buf)); [lia|]. by rewrite andb_false_r. Qed.

(** * The header *)
Definition header_bytes (m t n : Z) : list Z := le_bytes 4 m ++ le_bytes 4 t ++ le_bytes 4 n.

Lemma len_header m t n : len (header_bytes m t n) = SizeOfHeader.
Proof. unfold header_bytes. by rewrite !len_app, !len_le_bytes. Qed.

Lemma header_read m t n rest :
  get_bytes (header_bytes m t n ++ rest) 0 4 = Ok (le_bytes 4 m, 4) /\
  get_bytes (header_bytes m t n ++ rest) 4 4 = Ok (le_bytes 4 t, 8) /\
  get_bytes (header_bytes m t n ++ rest) 8 4 = Ok (le_bytes 4 n, 12).
Proof.
  unfold header_bytes. assert (H1 : len (le_bytes 4 m) = 4) by apply len_le_bytes.
  assert (H2 : len (le_bytes 4 t) = 4) by apply len_le_bytes.
  assert (H3 : len (le_bytes 4 n) = 4) by apply len_le_bytes. rewrite <- !app_assoc. split_and!.
  - by apply (get_at [] (le_bytes 4 m)).
  - by apply (get_at (le_bytes 4 m) (le_bytes 4 t)).
  - rewrite (app_assoc (le_bytes 4 m)). apply (get_at (le_bytes 4 m ++ le_bytes 4 t)); [|done].
    by rewrite len_app, H1, H2.
Qed.

Lemma wp_assert cassert b what (Q : unit -> Prop) : b = true -> Q tt -> wp (Assert cassert b what) Q.
Proof. intros ->. unfold Assert. by rewrite andb_false_r. Qed.

Lemma put_header m t n size :
  SizeOfHeader <= size -> exists b1 b2,
    put_bytes (replicate (Z.to_nat size) 0) 0 (le_bytes 4 m) = Ok (b1, 4) /\
    put_bytes b1 4 (le_bytes 4 t) = Ok (b2, 8) /\
    put_bytes b2 8 (le_bytes 4 n) = Ok (header_bytes m t n ++ replicate (Z.to_nat (size - SizeOfHeader)) 0, 12).
Proof.
  unfold SizeOfHeader. intros Hs.
  assert (Hl : forall z, length (le_bytes 4 z) = 4%nat) by (intros z; pose proof (len_le_bytes 4 z); unfold len in *; lia).
  pose proof (put_spec [] (le_bytes 4 m) (Z.to_nat size)) as H1. rewrite !app_nil_l, Hl in H1.
  pose proof (put_spec (le_bytes 4 m) (le_bytes 4 t) (Z.to_nat size - 4)) as H2. rewrite Hl in H2.
  pose proof (put_spec (le_bytes 4 m ++ le_bytes 4 t) (le_bytes 4 n) (Z.to_nat size - 4 - 4)) as H3. rewrite Hl in H3.
  rewrite !len_app, !len_le_bytes in *. change (Z.of_nat 4) with 4 in *. change (4 + 4) with 8 in *. do 2 eexists. split; [apply H1; lia|]. split; [apply H2; lia|].
  rewrite H3 by lia. unfold header_bytes. rewrite <- !app_assoc.
  by replace (Z.to_nat size - 4 - 4 - 4)%nat with (Z.to_nat (size - 3 * 4)) by lia.
Qed.

(** * Items *)
Class ItemFormat {I : Type} (bytes : I -> list Z) (wf : I -> Prop)
    (put : I -> list Z -> Z -> res (list Z * Z)) (get : list Z -> Z -> res (I * Z)) : Prop := {
  if_len : forall d, wf d -> 14 <= len (bytes d) <= 28;
  if_put : forall d pre (n : nat), wf d -> len (bytes d) <= Z.of_nat n ->
    put d (pre ++ replicate n 0) (len pre) =
    Ok ((pre ++ bytes d) ++ replicate (n - length (bytes d)) 0, len (pre ++ bytes d));
  if_get : forall d pre post, wf d -> get (pre ++ bytes d ++ post) (len pre) = Ok (d, len (pre ++ bytes d))
}.

Section items.
Context {I : Type} (bytes : I -> list Z) (wf : I -> Prop) (put : I -> list Z -> Z -> res (list Z * Z))
  (get : list Z -> Z -> res (I * Z)) `{F : !ItemFormat bytes wf put get} (cassert : bool).
Implicit Types (l : list I) (hdr : list Z).
#[local] Set Default Proof Using "Type*".

Definition all_bytes l : list Z := concat (bytes <$> l).

Lemma all_bytes_snoc l d : all_bytes (l ++ [d]) = all_bytes l ++ bytes d.
Proof using Type. unfold all_bytes. rewrite fmap_app, concat_app. cbn. by rewrite app_nil_r. Qed.

Lemma all_bytes_split l (i : nat) d :
  l !! i = Some d -> all_bytes l = all_bytes (take i l) ++ bytes d ++ all_bytes (drop (S i) l).
Proof using Type.
  intros Hd. unfold all_bytes. rewrite <- (take_drop_middle _ _ _ Hd) at 1. by rewrite fmap_app, concat_app, fmap_cons.
Qed.

Lemma all_bytes_len l : Forall wf l -> 14 * len l <= len (all_bytes l) <= 28 * len l.
Proof.
  unfold all_bytes. induction 1 as [|d l Hd Hl IH]; [done|]. cbn [fmap list_fmap concat]. rewrite len_app, len_cons.
  pose proof (if_len d Hd). lia.
Qed.

(** The loop that adds up the sizes. *)
Lemma sizes_wp l hlen (body : Z -> Z -> res (Z + Empty_set)) :
  Forall wf l -> len l < 2 ^ 31 -> 0 <= hlen < 2 ^ 31 ->
  (forall i d size, l !! Z.to_nat i = Some d -> 0 <= i < len l ->
     wp (body i size) (fun o => o = inl (u64 (size + len (bytes d))))) ->
  wp (loop_state (for_up 0 (len l) body hlen)) (fun size => size = hlen + len (all_bytes l)).
Proof.
  intros Hf Hl Hh Hbody. apply wp_loop_state.
  apply (wp_for_up (fun i size => size = hlen + len (all_bytes (take (Z.to_nat i) l)))); [apply len_nonneg| |..].
  - change (all_bytes (take (Z.to_nat 0) l)) with (@nil Z). rewrite len_nil. lia.
  - intros i size Hi ->. destruct (lookup_lt_is_Some_2 l (Z.to_nat i)) as [d Hd]; [unfold len in *; lia|].
    eapply wp_mono; [by apply (Hbody i d)|]. intros o ->.
    replace (Z.to_nat (i + 1)) with (S (Z.to_nat i)) by lia. rewrite (take_S_r _ _ _ Hd), all_bytes_snoc, len_app.
    pose proof (all_bytes_len (take (Z.to_nat i) l) (Forall_take _ _ _ Hf)) as Hr.
    pose proof (if_len d (Forall_lookup_1 _ _ _ _ Hf Hd)). pose proof (len_nonneg (take (Z.to_nat i) l)).
    assert (len (take (Z.to_nat i) l) <= len l) by (unfold len; rewrite length_take; lia). rewrite u64_small; lia.
  - intros size ->. by rewrite (take_all l).
Qed.

(** The loop that writes the items behind the header. *)
Lemma put_items_wp l hdr size what :
  Forall wf l -> size = len (hdr ++ all_bytes l) ->
  loop_state (for_up 0 (len l) (fun i '(buf, tmp) =>
    d ← rd l i;
    '(buf, tmp) ← put d buf tmp;
    Assert cassert (tmp <=? size) what;;
    Ok (inl (buf, tmp))) (hdr ++ replicate (Z.to_nat (size - len hdr)) 0, len hdr)) =
  Ok (hdr ++ all_bytes l, size).
Proof.
  intros Hf ->. apply wp_eq, wp_loop_state. rewrite len_app. pose proof (len_nonneg hdr).
  apply (wp_for_up (fun i '(buf, tmp) =>
    let pre := hdr ++ all_bytes (take (Z.to_nat i) l) in
    tmp = len pre /\ buf = pre ++ replicate (Z.to_nat (len hdr + len (all_bytes l) - len pre)) 0)); [apply len_nonneg|..].
  - cbv zeta. change (all_bytes (take (Z.to_nat 0) l)) with (@nil Z). rewrite app_nil_r. done.
  - intros i [buf tmp] Hi [-> ->].
    destruct (lookup_lt_is_Some_2 l (Z.to_nat i)) as [d Hd]; [unfold len in *; lia|].
    pose proof (Forall_lookup_1 _ _ _ _ Hf Hd) as Hdw.
    assert (Hrest : len (all_bytes (take (Z.to_nat i) l)) + len (bytes d) <= len (all_bytes l)).
    { rewrite (all_bytes_split l _ d Hd), !len_app. pose proof (len_nonneg (all_bytes (drop (S (Z.to_nat i)) l))). lia. }
    apply wp_bind, (wp_rd d); [lia|]. unfold getd. rewrite Hd. change (default d (Some d)) with d.
    rewrite if_put by (done || (rewrite len_app; lia)). step_ok.
    apply wp_bind, wp_assert; [apply Z.leb_le; rewrite !len_app; lia|].
    apply wp_Ok. cbv zeta. replace (Z.to_nat (i + 1)) with (S (Z.to_nat i)) by lia.
    rewrite (take_S_r _ _ _ Hd), all_bytes_snoc, app_assoc. split; [done|]. f_equal. f_equal.
    rewrite !len_app. unfold len. lia.
  - intros [buf tmp] [-> ->]. rewrite (take_all l) by done. rewrite len_app, Z.sub_diag. cbn [Z.to_nat replicate]. by rewrite app_nil_r.
Qed.

(** The loop that reads them back. *)
Lemma get_items_wp l hdr what :
  Forall wf l ->
  loop_state (for_up 0 (len l) (fun i '(ds, tmp) =>
    '(d, tmp) ← get (hdr ++ all_bytes l) tmp;
    Assert cassert (tmp <=? len (hdr ++ all_bytes l)) what;;
    Ok (inl (ds ++ [d], tmp))) ([], len hdr)) =
  Ok (l, len (hdr ++ all_bytes l)).
Proof.
  intros Hf. apply wp_eq, wp_loop_state.
  apply (wp_for_up (fun i '(ds, tmp) => ds = take (Z.to_nat i) l /\ tmp = len (hdr ++ all_bytes (take (Z.to_nat i) l)))); [apply len_nonneg|..].
  - split; [done|]. change (all_bytes (take (Z.to_nat 0) l)) with (@nil Z). by rewrite app_nil_r.
  - intros i [ds tmp] Hi [-> ->].
    destruct (lookup_lt_is_Some_2 l (Z.to_nat i)) as [d Hd]; [unfold len in *; lia|].
    pose proof (Forall_lookup_1 _ _ _ _ Hf Hd) as Hdw. set (pre := hdr ++ all_bytes (take (Z.to_nat i) l)).
    assert (Hsplit : hdr ++ all_bytes l = pre ++ bytes d ++ all_bytes (drop (S (Z.to_nat i)) l)).
    { unfold pre. rewrite (all_bytes_split l _ d Hd) at 1. by rewrite <- app_assoc. }
    rewrite Hsplit at 1. rewrite if_get by done. step_ok. apply wp_bind, wp_assert.
    { apply Z.leb_le. rewrite Hsplit, !len_app. pose proof (len_nonneg (all_bytes (drop (S (Z.to_nat i)) l))). lia. }
    apply wp_Ok. replace (Z.to_nat (i + 1)) with (S (Z.to_nat i)) by lia.
    rewrite (take_S_r _ _ _ Hd). split; [done|]. by rewrite all_bytes_snoc, app_assoc.
  - intros [ds tmp] [-> ->]. by rewrite (take_all l).
Qed.

End items.
