(* ===== verification/DepFormat.v ===== *)
(** The bytea format of functional dependencies: what is written is read back,
    and what the size checks of the reader let through.

    [statext_dependencies_build]: every candidate dependency that some row
    supports, with its degree, and what becomes of it in storage. *)
From stdpp Require Import sorting.
From S2P Require Import Prelude.
From S2P Require Import Bitmapset.
From S2P Require Import SortTemplate.
From S2P Require Import SortProps.
From S2P Require Import Double.
From S2P Require Import ExtStats.
From S2P Require Import Dependencies.
From S2P Require Import DepGen.
From S2P Require Import DepDegree.
From S2P Require Import ItemFormat.
Open Scope Z_scope.

(** * The format *)
Record dep_wf (d : MVDependency) : Prop := {
  dw_degree : d_valid (degree d) = true;
  dw_natts : len (attributes d) = nattributes d;
  dw_range : 2 <= nattributes d <= STATS_MAX_DIMENSIONS;
  dw_atts : Forall (fun a => - 2 ^ 15 <= a < 2 ^ 15) (attributes d)
}.

Record deps_wf (ds : MVDependencies) : Prop := {
  sw_magic : magic ds = STATS_DEPS_MAGIC;
  sw_type : type ds = STATS_DEPS_TYPE_BASIC;
  sw_ndeps : len (deps ds) = ndeps ds;
  sw_range : 1 <= ndeps ds < 2 ^ 31;
  sw_deps : Forall dep_wf (deps ds)
}.

Definition dep_bytes (d : MVDependency) : list Z :=
  le_bytes 8 (double_bits (degree d)) ++ attr_bytes (nattributes d) ++ concat (attr_bytes <$> attributes d).

Definition deps_bytes (ds : MVDependencies) : list Z :=
  header_bytes (magic ds) (type ds) (ndeps ds) ++ all_bytes dep_bytes (deps ds).

Lemma len_dep_bytes d : dep_wf d -> len (dep_bytes d) = SizeOfItem (nattributes d).
Proof.
  intros []. unfold dep_bytes, SizeOfItem. rewrite !len_app, len_le_bytes, len_attr_bytes, len_attrs. lia.
Qed.

Lemma len_dep_range d : dep_wf d -> 14 <= len (dep_bytes d) <= 26.
Proof. intros H. rewrite len_dep_bytes by done. destruct H. unfold SizeOfItem, STATS_MAX_DIMENSIONS in *. lia. Qed.

Lemma put_dependency_spec d pre (n : nat) :
  dep_wf d -> len (dep_bytes d) <= Z.of_nat n ->
  put_dependency d (pre ++ replicate n 0) (len pre) =
  Ok ((pre ++ dep_bytes d) ++ replicate (n - length (dep_bytes d)) 0, len (pre ++ dep_bytes d)).
Proof.
  intros Hd Hn. pose proof Hd as []. unfold put_dependency, dep_bytes in *. rewrite !len_app in Hn.
  rewrite len_le_bytes, len_attr_bytes, len_attrs in Hn.
  assert (Hl : forall m z, length (le_bytes m z) = m) by (intros m z; pose proof (len_le_bytes m z); unfold len in *; lia).
  assert (Ha : forall a, length (attr_bytes a) = 2%nat) by (intros a; apply Hl).
  rewrite put_spec by (rewrite len_le_bytes; lia). step_ok.
  rewrite put_spec by (rewrite len_attr_bytes, Hl; lia). step_ok.
  destruct (Z.ltb_spec (nattributes d) 0); [lia|]. destruct (Z.ltb_spec (len (attributes d)) (nattributes d)); [lia|].
  cbn [orb]. rewrite (take_all (attributes d)) by done.
  rewrite put_spec by (rewrite len_attrs, Ha, Hl; lia).
  rewrite <- !app_assoc, !length_app, !Nat.sub_add_distr. done.
Qed.

Section roundtrip.
Context (cassert : bool).

Lemma get_dependency_spec d pre post :
  dep_wf d ->
  get_dependency cassert (pre ++ dep_bytes d ++ post) (len pre) = Ok (d, len (pre ++ dep_bytes d)).
Proof.
  intros Hd. pose proof Hd as []. unfold get_dependency, dep_bytes.
  replace (pre ++ (le_bytes 8 (double_bits (degree d)) ++ attr_bytes (nattributes d) ++
    concat (attr_bytes <$> attributes d)) ++ post) with (pre ++ le_bytes 8 (double_bits (degree d)) ++
    attr_bytes (nattributes d) ++ concat (attr_bytes <$> attributes d) ++ post) by (by rewrite <- !app_assoc).
  set (b1 := le_bytes 8 (double_bits (degree d))). set (b2 := attr_bytes (nattributes d)).
  set (b3 := concat (attr_bytes <$> attributes d)).
  assert (H1 : len b1 = 8) by apply len_le_bytes. assert (H2 : len b2 = 2) by apply len_attr_bytes.
  assert (H3 : len b3 = 2 * nattributes d) by (unfold b3; rewrite len_attrs; lia).
  rewrite <- H1 at 1. rewrite get_spec. step_ok.
  rewrite <- H2 at 1. rewrite <- len_app, (app_assoc pre b1), get_spec. step_ok.
  assert (i16 (le_val b2) = nattributes d) as ->.
  { apply attr_roundtrip. unfold STATS_MAX_DIMENSIONS in *. lia. }
  unfold Assert. destruct (Z.leb_spec 2 (nattributes d)); [|lia].
  destruct (Z.leb_spec (nattributes d) STATS_MAX_DIMENSIONS); [|lia]. rewrite andb_false_r. step_ok.
  rewrite <- H3 at 1. rewrite <- len_app, (app_assoc (pre ++ b1) b2), get_spec. step_ok.
  rewrite <- len_app, <- !app_assoc. do 2 f_equal. destruct d as [dg na at']. cbn [degree nattributes attributes] in *. f_equal.
  - unfold b1. rewrite le_val_bytes by (apply double_bits_range; done). by apply double_roundtrip.
  - unfold b3. rewrite <- dw_natts0. unfold len. rewrite Nat2Z.id. by apply get_attributes_bytes.
Qed.

#[export] Instance dependency_format : ItemFormat dep_bytes dep_wf put_dependency (get_dependency cassert).
Proof.
  split.
  - intros d H. pose proof (len_dep_range d H). lia.
  - apply put_dependency_spec.
  - apply get_dependency_spec.
Qed.

Lemma deps_bytes_len ds : len (deps_bytes ds) = SizeOfHeader + len (all_bytes dep_bytes (deps ds)).
Proof. unfold deps_bytes. by rewrite len_app, len_header. Qed.

Lemma serialize_spec ds : deps_wf ds -> statext_dependencies_serialize cassert ds = Ok (deps_bytes ds).
Proof.
  intros []. apply wp_eq. unfold statext_dependencies_serialize. rewrite <- sw_ndeps0 at 1.
  pose proof (deps_bytes_len ds) as Htot. pose proof (len_nonneg (all_bytes dep_bytes (deps ds))).
  apply wp_bind. eapply wp_mono.
  { apply (sizes_wp dep_bytes dep_wf put_dependency (get_dependency cassert)); [done|lia|unfold SizeOfHeader; lia|].
    intros i d size Hd Hi. apply wp_bind, (wp_rd d); [lia|]. unfold getd. rewrite Hd. apply wp_Ok.
    by rewrite len_dep_bytes by (by apply (Forall_lookup_1 _ _ _ _ sw_deps0 Hd)). }
  intros size ->. rewrite <- Htot.
  destruct (put_header (magic ds) (type ds) (ndeps ds) (len (deps_bytes ds))) as (b1 & b2 & -> & H2 & H3); [lia|].
  step_ok. rewrite H2. step_ok. rewrite H3. step_ok.
  pose proof (put_items_wp dep_bytes dep_wf put_dependency (get_dependency cassert) cassert (deps ds)
    (header_bytes (magic ds) (type ds) (ndeps ds)) (len (deps_bytes ds)) "tmp <= ((char *) output + len)" sw_deps0 eq_refl) as Hw.
  rewrite len_header, sw_ndeps0 in Hw. change 12 with SizeOfHeader. rewrite Hw. step_ok.
  apply wp_bind, wp_assert; [apply Z.eqb_refl|]. by apply wp_Ok.
Qed.

Lemma deserialize_spec ds :
  deps_wf ds -> statext_dependencies_deserialize cassert (Some (deps_bytes ds)) = Ok (Some ds).
Proof.
  intros []. apply wp_eq. pose proof (deps_bytes_len ds) as Htot.
  pose proof (all_bytes_len dep_bytes dep_wf put_dependency (get_dependency cassert) _ sw_deps0) as Hlen.
  unfold statext_dependencies_deserialize, SizeOfHeader in *. destruct (Z.ltb_spec (len (deps_bytes ds)) (3 * 4)); [lia|].
  destruct (header_read (magic ds) (type ds) (ndeps ds) (all_bytes dep_bytes (deps ds))) as (H1 & H2 & H3).
  fold (deps_bytes ds) in H1, H2, H3. rewrite H1. step_ok. rewrite H2. step_ok. rewrite H3. step_ok.
  rewrite !le_val_bytes by (rewrite ?sw_magic0, ?sw_type0; unfold STATS_DEPS_MAGIC, STATS_DEPS_TYPE_BASIC; lia).
  rewrite sw_magic0, sw_type0, !Z.eqb_refl. cbn [negb].
  destruct (Z.eqb_spec (ndeps ds) 0); [lia|].
  destruct (Z.ltb_spec (len (deps_bytes ds)) (SizeOfItem (ndeps ds))); [unfold SizeOfItem in *; lia|].
  pose proof (get_items_wp dep_bytes dep_wf put_dependency (get_dependency cassert) cassert (deps ds)
    (header_bytes (magic ds) (type ds) (ndeps ds)) "tmp <= ((char *) data + VARSIZE_ANY(data))" sw_deps0) as Hw.
  rewrite len_header, sw_ndeps0 in Hw. fold (deps_bytes ds) in Hw. change 12 with SizeOfHeader. rewrite Hw. step_ok.
  apply wp_bind, wp_assert; [apply Z.eqb_refl|]. apply wp_Ok. destruct ds. cbn in *. by subst.
Qed.

End roundtrip.

Section build.
Context (cassert : bool) (T : TypeSystem) (data : StatsBuildData).
Context (Hs : good_sample T data) (Hmax : nattnums data <= STATS_MAX_DIMENSIONS).
#[local] Set Default Proof Using "Type*".

(** The entry of a candidate, if any row supports it. *)
Definition dep_entry (dep : list Z) : option MVDependency :=
  if support_count T data dep =? 0 then None
  else Some {| degree := d_ratio (support_count T data dep) (numrows data); nattributes := len dep;
               attributes := dep_attnums data dep |}.

Definition entries_of (k : Z) : list MVDependency := omap dep_entry (candidates (nattnums data) k).

(** All entries_of up to [k - 1] attributes. *)
Definition entries_below (k : Z) : list MVDependency := seqZ 2 (k - 2) ≫= entries_of.

Definition all_entries : list MVDependency := entries_below (nattnums data + 1).

(** The structure that holds a list of entries_of. *)
Definition deps_of (l : list MVDependency) : option MVDependencies :=
  match l with
  | [] => None
  | _ => Some {| magic := STATS_DEPS_MAGIC; type := STATS_DEPS_TYPE_BASIC; ndeps := len l; deps := l |}
  end.

Lemma add_dependency_of l d :
  len l + 1 < 2 ^ 32 -> Some (add_dependency (deps_of l) d) = deps_of (l ++ [d]).
Proof using Type.
  intros Hl. unfold add_dependency, deps_of. destruct l as [|x l]; cbn [default magic type ndeps deps id].
  - done.
  - cbn [app]. do 2 f_equal. change (x :: l ++ [d]) with ((x :: l) ++ [d]). rewrite len_app.
    change (len [d]) with 1. rewrite u32_small; [done|]. pose proof (len_nonneg (x :: l)). lia.
Qed.

Lemma candidate_ok k dep :
  2 <= k <= nattnums data -> dep ∈ candidates (nattnums data) k -> dep_ok data dep /\ len dep = k.
Proof.
  intros Hk Hd. apply elem_of_candidates in Hd as (c & i & -> & Hl & _ & Hf & _); [|lia]. done.
Qed.

Lemma support_range dep : 0 <= support_count T data dep <= numrows data.
Proof.
  unfold support_count. split; [apply len_nonneg|].
  pose proof (supporting_le (same_key T data dep) (same_last T data dep) (sample_rows T data dep)).
  pose proof (sample_rows_le T data Hs dep). lia.
Qed.

Lemma dep_entry_degree dep :
  d_eqb (d_ratio (support_count T data dep) (numrows data)) d_zero = (support_count T data dep =? 0).
Proof.
  pose proof (support_range dep). pose proof (so_rows _ _ Hs). apply d_ratio_eq_zero; lia.
Qed.

(** The rest of the candidates of [k] attributes, from number [c] on. *)
Lemma build_variations_wp k st l (rest : nat) : forall (c : nat) fuel,
  2 <= k <= nattnums data -> gen_rep (nattnums data) k st (candidates (nattnums data) k) ->
  (c + rest = length (candidates (nattnums data) k))%nat -> (rest < fuel)%nat ->
  len l + Z.of_nat rest < 2 ^ 32 ->
  build_variations cassert T fuel data k (advance st (Z.of_nat c)) (deps_of l) =
  Ok (deps_of (l ++ omap dep_entry (drop c (candidates (nattnums data) k)))).
Proof.
  revert l. induction rest as [|rest IH]; intros l c fuel Hk Hr Hc Hf Hlen; destruct fuel as [|fuel]; try lia.
  - cbn [build_variations]. rewrite (next_rep _ _ _ _ _ Hr) by lia. rewrite lookup_ge_None_2 by lia.
    rewrite drop_ge by lia. cbn. by rewrite app_nil_r.
  - cbn [build_variations]. rewrite (next_rep _ _ _ _ _ Hr) by lia.
    destruct (lookup_lt_is_Some_2 (candidates (nattnums data) k) c) as [dep Hd]; [lia|]. rewrite Hd.
    destruct (candidate_ok k dep Hk (list_elem_of_lookup_2 _ _ _ Hd)) as [Hok Hl].
    rewrite (drop_S _ _ _ Hd). cbn [omap list_omap]. subst k.
    rewrite (dependency_degree_wp cassert T data Hs dep Hok) by lia. step_ok.
    change (d_div _ (d_of_Z (numrows data))) with (d_ratio (support_count T data dep) (numrows data)).
    rewrite dep_entry_degree. unfold dep_entry at 1.
    destruct (Z.eqb_spec (support_count T data dep) 0).
    + apply IH; try done; lia.
    + pose proof (attnums_dep_wp T data Hs dep Hok) as Ha. apply wp_eq in Ha. rewrite Ha. step_ok.
      rewrite add_dependency_of by lia. rewrite IH; try done; try lia.
      * by rewrite <- app_assoc.
      * rewrite len_app. change (len [_]) with 1. lia.
Qed.

Lemma entries_len k : 2 <= k <= nattnums data -> len (entries_of k) <= 280.
Proof.
  intros Hk. unfold entries_of, len. pose proof (length_omap_le dep_entry (candidates (nattnums data) k)).
  pose proof (candidates_few (nattnums data) k ltac:(lia) Hmax). unfold len in *. lia.
Qed.

Lemma entries_below_next k : 2 <= k -> entries_below (k + 1) = entries_below k ++ entries_of k.
Proof using Type.
  intros Hk. unfold entries_below. rewrite seqZ_next by lia. rewrite bind_app. cbn. by rewrite app_nil_r.
Qed.

Lemma entries_below_len k : 2 <= k <= nattnums data + 1 -> len (entries_below k) <= 280 * k.
Proof.
  intros Hk. assert (H : forall n : nat, 2 + Z.of_nat n <= nattnums data + 1 ->
    len (entries_below (2 + Z.of_nat n)) <= 280 * (2 + Z.of_nat n)).
  { induction n as [|n IH]; intros Hn; [change (len (entries_below (2 + Z.of_nat 0))) with 0; lia|].
    replace (2 + Z.of_nat (S n)) with (2 + Z.of_nat n + 1) in * by lia. rewrite entries_below_next, len_app by lia.
    pose proof (entries_len (2 + Z.of_nat n) ltac:(lia)). specialize (IH ltac:(lia)). lia. }
  specialize (H (Z.to_nat (k - 2))). replace (2 + Z.of_nat (Z.to_nat (k - 2))) with k in H by lia. apply H. lia.
Qed.

Lemma build_spec :
  2 <= nattnums data -> statext_dependencies_build cassert T data = Ok (deps_of all_entries).
Proof.
  intros H2. apply wp_eq. unfold statext_dependencies_build, STATS_MAX_DIMENSIONS in *. apply wp_bind, wp_assert.
  { apply Z.leb_le. lia. }
  apply wp_loop_state.
  apply (wp_for_up (fun k ds => ds = deps_of (entries_below k))); [lia|done| |].
  - intros k ds Hk ->. pose proof (candidates_few (nattnums data) k ltac:(lia) Hmax).
    destruct (init_rep cassert (nattnums data) k) as (st & -> & Hr); [lia|lia|]. step_ok.
    assert (st = advance st (Z.of_nat 0)) as Hst by (destruct st, Hr; cbn in *; by subst).
    pose proof (entries_below_len k ltac:(lia)).
    rewrite Hst at 2. rewrite (build_variations_wp k st (entries_below k) (length (candidates (nattnums data) k)));
      [|lia|done|lia|rewrite (gr_count _ _ _ _ Hr); unfold len; lia|unfold len in *; lia].
    step_ok. apply wp_Ok. rewrite drop_0. by rewrite entries_below_next by lia.
  - intros ds ->. done.
Qed.

(** What is built can be stored: it is well formed. *)
Lemma build_wf ds :
  2 <= nattnums data -> Forall (fun a => - 2 ^ 15 <= a < 2 ^ 15) (attnums data) ->
  deps_of all_entries = Some ds -> deps_wf ds.
Proof.
  intros H2 Ha Hd.
  assert (Hf : Forall dep_wf all_entries).
  { apply Forall_forall. intros d Hin. unfold all_entries, entries_below in Hin.
    apply list_elem_of_bind in Hin as (k & Hin & Hk). apply elem_of_seqZ in Hk.
    unfold entries_of in Hin. apply list_elem_of_omap in Hin as (dep & Hdep & He).
    destruct (candidate_ok k dep ltac:(lia) Hdep) as [Hok Hl]. unfold dep_entry in He.
    destruct (Z.eqb_spec (support_count T data dep) 0); [done|]. injection He as <-.
    pose proof (support_range dep). pose proof (so_rows _ _ Hs).
    split; cbn [degree nattributes attributes].
    - apply d_ratio_valid; lia.
    - unfold dep_attnums, len. by rewrite length_fmap.
    - lia.
    - unfold dep_attnums. apply Forall_fmap, Forall_forall. intros idx Hi. cbn.
      apply (getd_Forall (fun a => - 2 ^ 15 <= a < 2 ^ 15)); [done|lia]. }
  pose proof (entries_below_len (nattnums data + 1) ltac:(lia)) as Hlen. fold all_entries in Hlen.
  unfold STATS_MAX_DIMENSIONS in *.
  unfold deps_of in Hd. destruct all_entries as [|x l] eqn:E; [done|]. injection Hd as <-.
  split; cbn [magic type ndeps deps]; try done. rewrite len_cons in *. pose proof (len_nonneg l). lia.
Qed.

End build.
