(* ===== verification/DepProps.v ===== *)
(** Properties of the sort and of the statistics on functional dependencies:
    what is generated, measured, built and stored. *)
From stdpp Require Import sorting.
From S2P Require Import Prelude.
From S2P Require Import Double.
From S2P Require Import SortTemplate.
From S2P Require Import SortProps.
From S2P Require Import Bitmapset.
From S2P Require Import ExtStats.
From S2P Require Import Dependencies.
From S2P Require Import DepGen.
From S2P Require Import DepDegree.
From S2P Require Import ItemFormat.
From S2P Require Import DepFormat.
Open Scope Z_scope.

(** * The sort *)

(** C20. [ST_SORT] on the [n] elements from [a] on, with any comparison function:
    it returns, with [log2 n + 1] stack frames, touches nothing outside the
    segment and permutes the segment; if the function is an order, the segment
    is sorted. *)
Theorem sort_template_correct {A} (compare : A -> A -> Z) (l : list A) (a n : Z) :
  0 <= a -> 0 <= n -> a + n <= len l ->
  exists x m m' y, l = x ++ m ++ y /\ len x = a /\ len m = n /\
    ST_SORT compare (frames_for n) l a n = Ok (x ++ m' ++ y) /\ m' ≡ₚ m /\
    (SortComparator compare -> StronglySorted (fun x y => compare x y <= 0) m').
Proof.
  intros Ha Hn Hl. destruct (split_seg l a (a + n)) as (x0 & m0 & y0 & -> & Hx0 & Hm0); [lia..|].
  destruct (decide (n = 0)) as [->|Hne].
  { exists x0, m0, m0, y0. destruct m0; [|unfold len in Hm0; simpl in Hm0; lia].
    split_and!; try done; [|intros _; constructor].
    unfold frames_for, ST_SORT, sort_loop, sort_pass, insertion_sort. cbn [Z.log2 Z.to_nat].
    unfold for_up. replace (Z.to_nat (a + 0 - (a + 1))) with 0%nat by lia. done. }
  destruct m0 as [|d m0']; [unfold len in Hm0; simpl in Hm0; lia|].
  set (m0 := d :: m0') in *.
  pose proof (wp_ST_SORT compare d (frames_for n) (x0 ++ m0 ++ y0) a n Ha Hn Hl) as Hw.
  destruct (proj1 (wp_ok _ _) (Hw ltac:(unfold frames_for; pose proof (Z.log2_nonneg n); lia)))
    as (l' & -> & (x & m & m' & y & E & -> & Hp & Hx & Hm) & Hs).
  exists x, m, m', y. split_and!; [done|done|lia|done|done|]. intros Hc. specialize (Hs Hc).
  apply (sorted_seg_StronglySorted _ d). intros u v Hu Hv. specialize (Hs (a + u) (a + v)).
  assert (len m' = n) by (unfold len in *; rewrite <- (Permutation_length Hp); lia).
  assert (Hget : forall u, 0 <= u < n -> getd d (x ++ m' ++ y) (a + u) = getd d m' u).
  { intros w Hw'. unfold getd, len in *. rewrite lookup_app_r, lookup_app_l by lia. do 2 f_equal. lia. }
  rewrite !Hget in Hs by lia. apply Hs; lia.
Qed.

Lemma int_comparator : SortComparator Z.sub.
Proof. split; lia. Qed.

Lemma sort_template_correct_witness :
  exists x m m' y, [9; 3; 1; 2; 0] = x ++ m ++ y /\ len x = 1 /\ len m = 3 /\
    ST_SORT Z.sub (frames_for 3) [9; 3; 1; 2; 0] 1 3 = Ok (x ++ m' ++ y) /\ m' ≡ₚ m /\
    (SortComparator Z.sub -> StronglySorted (fun x y => x - y <= 0) m').
Proof. apply (sort_template_correct Z.sub [9; 3; 1; 2; 0] 1 3); unfold len; simpl; lia. Defined.

(** * The generator *)

(** The answers of a generator until it returns NULL. *)
Fixpoint generated (fuel : nat) (gen : DependencyGeneratorData) : list (list Z) :=
  match fuel with
  | O => []
  | S fuel => match DependencyGenerator_next gen with
              | (None, _) => []
              | (Some dep, gen) => dep :: generated fuel gen
              end
  end.

Lemma generated_rep n k st ds : forall (rest c fuel : nat),
  gen_rep n k st ds -> 0 <= k -> (c + rest = length ds)%nat -> (rest < fuel)%nat ->
  generated fuel (advance st (Z.of_nat c)) = drop c ds.
Proof.
  induction rest as [|rest IH]; intros c fuel Hr Hk Hc Hf; (destruct fuel as [|fuel]; [lia|]);
    cbn [generated]; rewrite (next_rep _ _ _ _ _ Hr) by lia.
  - rewrite lookup_ge_None_2 by lia. by rewrite drop_ge by lia.
  - destruct (lookup_lt_is_Some_2 ds c) as [d Hd]; [lia|]. rewrite Hd, (drop_S _ _ _ Hd). f_equal.
    apply IH; done || lia.
Qed.

(** For at most 8 attributes, [DependencyGenerator_init] and
    [DependencyGenerator_next] list every dependency of [k] out of [n]
    attributes (ascending determining attributes, one other implied attribute)
    exactly once, and then answer NULL for ever; the 16-bit counter does not
    overflow. *)
Theorem dependency_generator_enumerates cassert n k :
  1 <= k <= n -> n <= STATS_MAX_DIMENSIONS ->
  exists gen ds, DependencyGenerator_init cassert n k = Ok gen /\ ndependencies gen = len ds /\
    NoDup ds /\ (forall x, x ∈ ds <-> is_candidate n k x) /\
    (forall fuel, (length ds < fuel)%nat -> generated fuel gen = ds).
Proof.
  intros Hk Hn. pose proof (candidates_few n k Hk Hn).
  destruct (init_rep cassert n k) as (st & -> & Hr); [lia|lia|].
  exists st, (candidates n k). split_and!.
  - done.
  - apply (gr_count _ _ _ _ Hr).
  - apply NoDup_candidates.
  - intros x. apply elem_of_candidates. lia.
  - intros fuel Hf. assert (st = advance st (Z.of_nat 0)) as -> by (destruct st, Hr; cbn in *; by subst).
    rewrite (generated_rep n k st (candidates n k) (length (candidates n k))); [by rewrite drop_0|done|lia..].
Qed.

Lemma dependency_generator_enumerates_witness :
  exists gen ds, DependencyGenerator_init true 4 3 = Ok gen /\ ndependencies gen = len ds /\
    NoDup ds /\ (forall x, x ∈ ds <-> is_candidate 4 3 x) /\
    (forall fuel, (length ds < fuel)%nat -> generated fuel gen = ds).
Proof. apply (dependency_generator_enumerates true 4 3); unfold STATS_MAX_DIMENSIONS; lia. Defined.

(** * The degree *)

(** A sample of four rows and two columns, the first of which nearly
    determines the second. *)
Definition int_types : TypeSystem := {|
  get_typlen := fun _ => 4; type_lt_opr := fun _ => 97; ordering_op := fun _ _ => Ok (false, Z.sub);
  toast_raw_datum_size := fun _ => 4; PG_DETOAST_DATUM := fun v => Ok v |}.

Definition small_sample : StatsBuildData := {|
  numrows := 4; nattnums := 2; attnums := [1; 2];
  stats := [{| attrtypid := 23; attrcollid := 0 |}; {| attrtypid := 23; attrcollid := 0 |}];
  values := [[2; 1; 2; 1]; [6; 5; 7; 5]];
  nulls := [[false; false; false; false]; [false; false; false; false]] |}.

Lemma small_good_sample : good_sample int_types small_sample.
Proof.
  split; cbn; try (unfold len; cbn; lia); try done.
  - apply (bool_decide_unpack _). vm_compute. exact I.
  - repeat constructor.
  - repeat constructor.
  - assert (H : 97 <> InvalidOid /\ exists rev cmp, (Ok (false, Z.sub) : res _) = Ok (rev, cmp) /\ SortComparator cmp).
    { split; [done|]. exists false, Z.sub. split; [done|apply int_comparator]. }
    repeat constructor; apply H.
  - intros v _. by exists v.
Qed.

(** C18. The degree of the dependency of column [y] on the columns [X]: the
    share of the rows that respect it (rows equal in [X] are equal in [y],
    rows with a value that is too wide do not count).  It lies in [0, 1], is
    0.0 iff no row respects the dependency, and 1.0 iff all do. *)
Theorem dependency_degree_counts cassert T data X y :
  good_sample T data -> Forall (fun idx => 0 <= idx < nattnums data) (X ++ [y]) -> X <> [] ->
  exists deg, dependency_degree cassert T data (len X + 1) (X ++ [y]) = Ok deg /\
    deg = d_ratio (len (respecting_rows T data X y)) (numrows data) /\
    d_leb d_zero deg = true /\ d_leb deg d_one = true /\
    (d_eqb deg d_zero = true <-> forall i, 0 <= i < numrows data -> ~ row_respects T data X y i) /\
    (deg = d_one <-> forall i, 0 <= i < numrows data -> row_respects T data X y i).
Proof.
  intros Hs Hd HX. pose proof (so_rows _ _ Hs).
  assert (Hk : 2 <= len (X ++ [y])).
  { rewrite len_app. destruct X; [done|]. rewrite len_cons. pose proof (len_nonneg X). change (len [y]) with 1. lia. }
  exists (d_ratio (support_count T data (X ++ [y])) (numrows data)).
  assert (Hr : 0 <= support_count T data (X ++ [y]) <= numrows data).
  { unfold support_count. split; [apply len_nonneg|]. etrans; [apply supporting_le|].
    apply (sample_rows_le T data Hs). }
  rewrite support_count_rows in *. split_and!.
  - replace (len X + 1) with (len (X ++ [y])) by (by rewrite len_app).
    rewrite (dependency_degree_wp cassert T data Hs) by done. by rewrite support_count_rows.
  - done.
  - apply d_ratio_range; lia.
  - apply d_ratio_range; lia.
  - rewrite d_ratio_eq_zero, Z.eqb_eq by lia. apply respecting_none.
  - rewrite d_ratio_eq_one by lia. apply respecting_all. lia.
Qed.

Lemma dependency_degree_counts_witness :
  exists deg, dependency_degree true int_types small_sample (len [0] + 1) ([0] ++ [1]) = Ok deg /\
    deg = d_ratio (len (respecting_rows int_types small_sample [0] 1)) (numrows small_sample) /\
    d_leb d_zero deg = true /\ d_leb deg d_one = true /\
    (d_eqb deg d_zero = true <-> forall i, 0 <= i < numrows small_sample -> ~ row_respects int_types small_sample [0] 1 i) /\
    (deg = d_one <-> forall i, 0 <= i < numrows small_sample -> row_respects int_types small_sample [0] 1 i).
Proof.
  apply (dependency_degree_counts true int_types small_sample [0] 1 small_good_sample); [|done].
  repeat constructor; cbn; lia.
Defined.

Example small_degree :
  dependency_degree true int_types small_sample 2 [0; 1] = Ok (d_ratio 2 4) /\
  dependency_degree true int_types small_sample 2 [1; 0] = Ok d_one.
Proof. vm_compute. done. Qed.

(** * Building and storing *)

(** C22. [statext_dependencies_build] returns one entry for each candidate that
    some row respects, in the order of the generator, with its degree and its
    attribute numbers, and NULL if there is none. *)
Theorem dependencies_build_complete cassert T data :
  good_sample T data -> 2 <= nattnums data <= STATS_MAX_DIMENSIONS ->
  exists l, statext_dependencies_build cassert T data = Ok (deps_of l) /\
    l = seqZ 2 (nattnums data - 1) ≫= (fun k => omap (dep_entry T data) (candidates (nattnums data) k)) /\
    (forall d, d ∈ l <-> exists X y, 2 <= len X + 1 <= nattnums data /\
       is_candidate (nattnums data) (len X + 1) (X ++ [y]) /\
       respecting_rows T data X y <> [] /\
       d = {| degree := d_ratio (len (respecting_rows T data X y)) (numrows data);
              nattributes := len X + 1;
              attributes := (fun idx => getd 0 (attnums data) idx) <$> X ++ [y] |}).
Proof.
  intros Hs Hn. exists (all_entries T data). split; [|split].
  - apply build_spec; done || lia.
  - unfold all_entries, entries_below. do 2 f_equal. lia.
  - intros d. unfold all_entries, entries_below. rewrite list_elem_of_bind. split.
    + intros (k & Hd & Hk%elem_of_seqZ). apply list_elem_of_omap in Hd as (dep & Hc & He).
      apply elem_of_candidates in Hc; [|lia]. pose proof Hc as (X & y & -> & Hl & _).
      rewrite len_app in Hl. change (len [y]) with 1 in Hl. exists X, y.
      unfold dep_entry in He. rewrite support_count_rows in He.
      destruct (Z.eqb_spec (len (respecting_rows T data X y)) 0) as [|Hz]; [done|]. injection He as <-.
      split; [lia|]. split; [by rewrite Hl|]. split; [intros Hnil; by rewrite Hnil in Hz|].
      f_equal. rewrite len_app. done.
    + intros (X & y & Hl & Hc & Hne & ->). exists (len X + 1). split; [|apply elem_of_seqZ; lia].
      apply list_elem_of_omap. exists (X ++ [y]). split; [by apply elem_of_candidates; [lia|]|].
      unfold dep_entry. rewrite support_count_rows.
      destruct (Z.eqb_spec (len (respecting_rows T data X y)) 0) as [Hz|Hz].
      * destruct (respecting_rows T data X y); [done|]. unfold len in Hz. simpl in Hz. lia.
      * do 2 f_equal. by rewrite len_app.
Qed.

Lemma dependencies_build_complete_witness :
  exists l, statext_dependencies_build true int_types small_sample = Ok (deps_of l) /\
    l = seqZ 2 (nattnums small_sample - 1) ≫=
          (fun k => omap (dep_entry int_types small_sample) (candidates (nattnums small_sample) k)).
Proof.
  destruct (dependencies_build_complete true int_types small_sample small_good_sample) as (l & H1 & H2 & _).
  - unfold STATS_MAX_DIMENSIONS; cbn; lia.
  - by exists l.
Defined.

(** C21. What [statext_dependencies_build] returns for a sample is written by
    [statext_dependencies_serialize] without writing outside its buffer or
    failing an assertion, and [statext_dependencies_deserialize] reads the same
    dependencies back. *)
Theorem dependencies_storage_roundtrip cassert T data :
  good_sample T data -> 2 <= nattnums data <= STATS_MAX_DIMENSIONS ->
  Forall (fun a => - 2 ^ 15 <= a < 2 ^ 15) (attnums data) ->
  exists o, statext_dependencies_build cassert T data = Ok o /\
    match o with
    | None => True
    | Some ds => exists bytes, statext_dependencies_serialize cassert ds = Ok bytes /\
        statext_dependencies_deserialize cassert (Some bytes) = Ok (Some ds)
    end.
Proof.
  intros Hs Hn Ha. exists (deps_of (all_entries T data)). split; [apply build_spec; done || lia|].
  destruct (deps_of (all_entries T data)) as [ds|] eqn:E; [|done].
  assert (Hw : deps_wf ds) by (apply (build_wf T data Hs) in E; done || lia).
  exists (deps_bytes ds). split; [by apply serialize_spec|by apply deserialize_spec].
Qed.

Lemma dependencies_storage_roundtrip_witness :
  exists o, statext_dependencies_build true int_types small_sample = Ok o /\
    match o with
    | None => True
    | Some ds => exists bytes, statext_dependencies_serialize true ds = Ok bytes /\
        statext_dependencies_deserialize true (Some bytes) = Ok (Some ds)
    end.
Proof.
  apply (dependencies_storage_roundtrip true int_types small_sample small_good_sample).
  - unfold STATS_MAX_DIMENSIONS; cbn; lia.
  - repeat constructor; cbn; lia.
Defined.

(** C23. The size check of [statext_dependencies_deserialize] takes the number of
    dependencies for a number of attributes: a value that is shorter than
    [MinSizeOfItems] of its own number of dependencies passes it, and reading
    the first dependency runs past the end of the value. *)
Theorem dependencies_reader_overreads cassert n rest :
  1 <= n < 2 ^ 32 -> len rest < 8 -> SizeOfItem n <= SizeOfHeader + len rest ->
  let data := header_bytes STATS_DEPS_MAGIC STATS_DEPS_TYPE_BASIC n ++ rest in
  len data < MinSizeOfItems n /\
  statext_dependencies_deserialize cassert (Some data) = UB "read outside the array".
Proof.
  intros Hn Hr Hsz data. pose proof (len_nonneg rest). unfold SizeOfItem, SizeOfHeader in *.
  assert (Hl : len data = 12 + len rest) by (unfold data; rewrite len_app, len_header; done).
  split; [unfold MinSizeOfItems, MinSizeOfItem, SizeOfItem, SizeOfHeader; lia|].
  destruct (header_read STATS_DEPS_MAGIC STATS_DEPS_TYPE_BASIC n rest) as (H1 & H2 & H3). fold data in H1, H2, H3.
  unfold statext_dependencies_deserialize, SizeOfHeader. destruct (Z.ltb_spec (len data) (3 * 4)); [lia|].
  rewrite H1. step_ok. rewrite H2. step_ok. rewrite H3. step_ok.
  rewrite !le_val_bytes by (unfold STATS_DEPS_MAGIC, STATS_DEPS_TYPE_BASIC; lia). rewrite !Z.eqb_refl. cbn [negb].
  destruct (Z.eqb_spec n 0); [lia|]. unfold SizeOfItem. destruct (Z.ltb_spec (len data) (8 + 2 * (1 + n))); [lia|].
  unfold for_up. replace (Z.to_nat (n - 0)) with (S (Z.to_nat (n - 1))) by lia. cbn [loop_up].
  unfold get_dependency. rewrite get_short by lia. done.
Qed.

Lemma dependencies_reader_overreads_witness :
  let data := header_bytes STATS_DEPS_MAGIC STATS_DEPS_TYPE_BASIC 1 ++ [] in
  len data < MinSizeOfItems 1 /\
  statext_dependencies_deserialize true (Some data) = UB "read outside the array".
Proof.
  apply (dependencies_reader_overreads true 1 []); unfold SizeOfItem, SizeOfHeader, len; simpl; lia.
Defined.
