(* ===== verification/BmsSet.v ===== *)
(** What bitmapset.c promises to the code that uses it for sets of attribute
    numbers: the class [SetLaws] states the operations in terms of finite sets
    of integers, for any relation between bitmap sets and such sets; the
    instance [bms_set_laws] discharges it from the component's own lemmas.
    Also the loop of that code over the members of a set. *)
From stdpp Require Import gmap sorting.
From S2P Require Import Prelude.
From S2P Require Import SortTemplate.
From S2P Require Import SortProps.
From S2P Require Import BitUtils.
From S2P Require Import Bitmapset.
From S2P Require Import BitmapsetVal.
From S2P Require Import BitmapsetTests.
From S2P Require Import BitmapsetProps.
Open Scope Z_scope.

(** * The loop over a set *)

(** [while ((i = bms_next_member(set, i)) >= 0) body] *)
Fixpoint for_members {S} (fuel : nat) (set : option Bitmapset) (i : Z) (body : Z -> S -> res S) (s : S) : res S :=
  match fuel with
  | O => UB "fuel"
  | Datatypes.S fuel =>
      i ← bms_next_member set i;
      if i <? 0 then Ok s else s ← body i s; for_members fuel set i body s
  end.

Definition each_member {S} (set : option Bitmapset) (body : Z -> S -> res S) (s : S) : res S :=
  num ← bms_num_members set;
  for_members (Datatypes.S (Z.to_nat num)) set (-1) body s.

(** The body run on a list of members. *)
Fixpoint run_members {S} (body : Z -> S -> res S) (l : list Z) (s : S) : res S :=
  match l with
  | [] => Ok s
  | i :: l => s ← body i s; run_members body l s
  end.

(** * The interface *)
Class SetLaws (rep : option Bitmapset -> gset Z -> Prop) : Prop := {
  sl_empty : rep None ∅;
  sl_range a X x : rep a X -> x ∈ X -> 0 <= x < 2 ^ 31;
  sl_member a X x : rep a X -> 0 <= x -> bms_is_member x a = Ok (bool_decide (x ∈ X));
  sl_add a X x : rep a X -> 0 <= x < 2 ^ 31 -> exists a', bms_add_member a x = Ok a' /\ rep a' ({[x]} ∪ X);
  sl_del a X x : rep a X -> 0 <= x < 2 ^ 31 -> exists a', bms_del_member a x = Ok a' /\ rep a' (X ∖ {[x]});
  sl_num a X : rep a X -> Z.of_nat (size X) < 2 ^ 31 -> bms_num_members a = Ok (Z.of_nat (size X));
  sl_membership a X : rep a X -> exists m, bms_membership a = Ok m /\
    (m = BMS_MULTIPLE <-> (2 <= size X)%nat) /\ (m = BMS_SINGLETON <-> size X = 1%nat);
  sl_members a X : rep a X -> exists l, NoDup l /\ StronglySorted Z.lt l /\ list_to_set l = X /\
    (Z.of_nat (size X) < 2 ^ 31 - 1 -> (forall x, x ∈ X -> x < 2 ^ 31 - 1) ->
     (forall S (body : Z -> S -> res S) s, each_member a body s = run_members body l s) /\
     (forall x, x ∈ X -> exists i, bms_member_index a x = Ok (Z.of_nat i) /\ l !! i = Some x))
}.

(** * The implementation *)
Definition set_rep (a : option Bitmapset) (X : gset Z) : Prop :=
  bms_ok a /\ forall x, x ∈ X <-> 0 <= x /\ Z.testbit (bms_val a) x = true.

Section implementation.
Implicit Types (a : option Bitmapset) (X : gset Z).

Lemma rep_list a X : set_rep a X -> list_to_set (bms_members a) = X.
Proof.
  intros [Ha HX]. apply set_eq. intros x. rewrite elem_of_list_to_set, HX. by apply elem_of_members.
Qed.

Lemma seqZ_sorted lo n : StronglySorted Z.lt (seqZ lo n).
Proof.
  apply StronglySorted_lookup. intros i j x y Hij Hx Hy.
  apply lookup_seqZ in Hx as [-> _]. apply lookup_seqZ in Hy as [-> _]. lia.
Qed.

Lemma filter_sorted {A} (R : relation A) (P : A -> Prop) `{!forall x, Decision (P x)} l :
  StronglySorted R l -> StronglySorted R (filter P l).
Proof.
  induction 1 as [|x l Hl IH Hx]; [constructor|]. rewrite filter_cons. case_decide; [|done].
  constructor; [done|]. apply Forall_forall. intros y Hy. apply list_elem_of_filter in Hy as [_ Hy].
  by apply (proj1 (Forall_forall _ _) Hx).
Qed.

Lemma members_sorted a : StronglySorted Z.lt (bms_members a).
Proof. destruct a as [a|]; [|constructor]. apply filter_sorted, seqZ_sorted. Qed.

Lemma members_NoDup a : NoDup (bms_members a).
Proof. destruct a as [a|]; [|constructor]. apply NoDup_filter, NoDup_seqZ. Qed.

Lemma rep_size a X : set_rep a X -> Z.of_nat (size X) = len (bms_members a).
Proof.
  intros Hr. rewrite <- (rep_list a X Hr). unfold len. by rewrite size_list_to_set by apply members_NoDup.
Qed.

Lemma for_members_run {S} (body : Z -> S -> res S) a n fuel x s :
  bms_ok a -> (forall y, n <= y -> Z.testbit (bms_val a) y = false) -> n <= 2 ^ 31 ->
  Z.testbit (bms_val a) (2 ^ 31 - 1) = false -> -1 <= x < 2 ^ 31 - 1 ->
  len (members_above (bms_val a) n x) < Z.of_nat fuel ->
  for_members fuel a x body s = run_members body (members_above (bms_val a) n x) s.
Proof.
  intros Ha Hn Hmax Htop. revert x s. induction fuel as [|fuel IH]; intros x s Hx Hf.
  { pose proof (len_nonneg (members_above (bms_val a) n x)). lia. }
  cbn [for_members]. pose proof (bms_next_member_val a x Ha Hx) as Hw. apply wp_ok in Hw as (r & -> & Hr). step_ok.
  destruct (Z.ltb_spec r 0) as [H0|H0].
  - assert (r = -2) as ->.
    { destruct Hr as [(? & Hb & _)|[? _]]; [|done]. rewrite Z.testbit_neg_r in Hb by lia. done. }
    by rewrite (members_above_end _ n x Hr) by lia.
  - rewrite (members_above_next _ n x r Hn H0 Hr) in *. rewrite len_cons in Hf. cbn [run_members].
    destruct (body r s) as [s'|e|w]; [|done|done]. step_ok. apply IH; [|lia].
    split; [lia|]. destruct Hr as [(Hlt & Hb & _)|[-> _]]; [|lia].
    assert (r < n) by (apply Z.nle_gt; intros Hge; by rewrite Hn in Hb).
    assert (r <> 2 ^ 31 - 1) by (intros ->; by rewrite Htop in Hb). lia.
Qed.

#[export] Instance bms_set_laws : SetLaws set_rep.
Proof.
  split.
  - split; [done|]. intros x. cbn. rewrite Z.bits_0. set_solver.
  - intros a X x [Ha HX] Hx. apply HX in Hx as [H0 Hb]. destruct (bms_members_above a Ha) as (n & Hn & _ & Habove).
    split; [done|]. apply Z.nle_gt. intros Hge. rewrite Habove in Hb by lia. done.
  - intros a X x [Ha HX] Hx. rewrite bms_is_member_val by done. f_equal.
    specialize (HX x). case_bool_decide; destruct (Z.testbit (bms_val a) x); naive_solver.
  - intros a X x [Ha HX] Hx. destruct (bms_add_member_val x a Ha Hx) as (a' & Hr & Ha' & Hv). exists a'.
    split; [done|]. split; [done|]. intros y. rewrite elem_of_union, elem_of_singleton, HX, Hv.
    destruct (Z.le_gt_cases 0 y); [|naive_solver lia]. rewrite setbit_bits by lia.
    rewrite orb_true_iff, Z.eqb_eq. naive_solver.
  - intros a X x [Ha HX] Hx. destruct (bms_del_member_val x a Ha Hx) as (a' & Hr & Ha' & Hv). exists a'.
    split; [done|]. split; [done|]. intros y. rewrite elem_of_difference, elem_of_singleton, HX, Hv.
    destruct (Z.le_gt_cases 0 y); [|naive_solver lia]. rewrite Z.ldiff_spec, Z.pow2_bits_eqb by lia.
    rewrite andb_true_iff, negb_true_iff, Z.eqb_neq. naive_solver.
  - intros a X Hr Hs. rewrite (rep_size a X Hr) in *. destruct Hr as [Ha _]. rewrite bms_num_members_val by done.
    pose proof (len_nonneg (bms_members a)). by rewrite i32_small by lia.
  - intros a X [Ha HX]. pose proof (bms_membership_val a Ha) as Hm. apply wp_ok in Hm as (m & -> & Hm).
    exists m. split; [done|]. destruct m.
    + assert (X = ∅) as ->; [|by rewrite size_empty; split; split; done || lia].
      apply set_eq. intros x. rewrite HX, Hm, Z.bits_0. set_solver.
    + destruct Hm as (x & Hx & Hv). assert (X = {[x]}) as ->; [|by rewrite size_singleton; split; split; done || lia].
      apply set_eq. intros y. rewrite HX, Hv, elem_of_singleton. split.
      * intros [Hy Hb]. rewrite Z.pow2_bits_eqb in Hb by done. lia.
      * intros ->. rewrite Z.pow2_bits_true by done. done.
    + assert (2 <= size X)%nat; [|split; split; done || lia].
      destruct Hm as (x & y & Hx & Hy & Hne & Hbx & Hby).
      assert ({[x; y]} ⊆ X) as Hsub by (intros z; rewrite elem_of_union, !elem_of_singleton, HX; naive_solver).
      apply subseteq_size in Hsub. rewrite size_union, !size_singleton in Hsub by set_solver. lia.
  - intros a X Hr. exists (bms_members a). split; [apply members_NoDup|]. split; [apply members_sorted|].
    split; [by apply rep_list|]. intros Hs Htop. pose proof (rep_size a X Hr) as Hsz. pose proof Hr as [Ha HX].
    destruct (bms_members_above a Ha) as (n & Hn & Hm & Habove). split.
    + intros S body s. unfold each_member. rewrite bms_num_members_val by done.
      pose proof (len_nonneg (bms_members a)). rewrite i32_small by lia. step_ok. rewrite Hm.
      assert (Z.testbit (bms_val a) (2 ^ 31 - 1) = false) as Ht.
      { destruct (Z.testbit (bms_val a) (2 ^ 31 - 1)) eqn:E; [|done].
        assert (2 ^ 31 - 1 ∈ X) as Hin by (apply HX; split; [lia|done]). specialize (Htop _ Hin). lia. }
      apply for_members_run; first [done|lia|rewrite <- Hm; lia].
    + intros x Hx. apply HX in Hx as [Hx0 Hb].
      destruct (bms_counting a x Ha Hx0 ltac:(lia)) as (_ & _ & H3).
      rewrite bms_is_member_val, Hb in H3 by done. destruct (H3 eq_refl) as (i & Hi & Hi0 & Hl).
      exists (Z.to_nat i). by rewrite Z2Nat.id by lia.
Qed.

End implementation.
