(* ===== verification/DepSelect.v ===== *)
(** Functional dependencies in the planner, the other part of
    src/postgresql/src/backend/statistics/dependencies.c: which clauses are
    compatible with dependencies, which dependencies apply, and the selectivity
    they give.

    The tree of a clause has the node types the code looks at; any other node
    is [OtherNode].  What the code asks of other modules is the record
    [Planner]. *)
From Stdlib Require Import Ascii.
From S2P Require Import Prelude.
From S2P Require Import Double.
From S2P Require Import Bitmapset.
From S2P Require Import BmsSet.
From S2P Require Import ExtStats.
From S2P Require Import Dependencies.
Open Scope Z_scope.

Inductive BoolExprType := AND_EXPR | OR_EXPR | NOT_EXPR.

Inductive Node :=
| Var (varno varattno varlevelsup : Z)
| RestrictInfo (pseudoconstant : bool) (clause_relids : option Bitmapset) (clause : Node)
| OpExpr (opno : Z) (args : list Node)
| ScalarArrayOpExpr (opno : Z) (useOr : bool) (args : list Node)
| BoolExpr (boolop : BoolExprType) (args : list Node)
| RelabelType (arg : Node)
| OtherNode (tag : Z) (args : list Node).

(** What other modules answer. *)
Record Planner := {
  is_pseudo_constant_clause : Node -> bool;
  get_oprrest : Z -> Z;                         (** operator to its selectivity function *)
  pull_var_clause : Node -> res (list Node);
  equal : Node -> Node -> bool;
  clauselist_selectivity_ext : list Node -> res double;
  pg_statistic_ext_data : Z -> option (option (list Z))
      (** statistics object to its tuple, and the dependencies stored in it *)
}.

Definition F_EQSEL : Z := 101.
Definition MaxHeapAttributeNumber : Z := 1600.

Record StatisticExtInfo := { statOid : Z; kind : Ascii.ascii; keys : option Bitmapset; exprs : list Node }.

Definition STATS_EXT_DEPENDENCIES : Ascii.ascii := "f"%char.

(** The planner's view of the relation: [rte->inh], whether it is a partitioned
    table, its number and its statistics. *)
Record RelOptInfo := { inh : bool; partitioned : bool; relid : Z; statlist : list StatisticExtInfo }.

Definition has_stats_of_kind (stats : list StatisticExtInfo) (requiredkind : Ascii.ascii) : bool :=
  existsb (fun stat => Ascii.eqb (kind stat) requiredkind) stats.

Section planner.
Context (cassert : bool) (P : Planner).

#[local] Abbreviation Assert := (Assert cassert).

(** * Compatible clauses *)

(** The operand that is compared with a pseudoconstant ([None]: not such a
    clause).  Both checks below begin like this, OR clauses apart. *)
Definition clause_operand (clause : Node) : res (option Node) :=
  match clause with
  | OpExpr opno args =>
      match args with
      | [a; b] =>
          let operand := if is_pseudo_constant_clause P b then Some a
                         else if is_pseudo_constant_clause P a then Some b else None in
          match operand with
          | None => Ok None
          | Some e => Ok (if get_oprrest P opno =? F_EQSEL then Some e else None)
          end
      | _ => Ok None
      end
  | ScalarArrayOpExpr opno useOr args =>
      if negb useOr then Ok None
      else match args with
      | [a; b] =>
          if negb (is_pseudo_constant_clause P b) then Ok None
          else Ok (if get_oprrest P opno =? F_EQSEL then Some a else None)
      | _ => Ok None
      end
  | BoolExpr NOT_EXPR args =>
      match args with a :: _ => Ok (Some a) | [] => UB "linitial of an empty list" end
  | clause => Ok (Some clause)
  end.

Definition strip_relabel (e : Node) : Node := match e with RelabelType arg => arg | e => e end.

(** [Some attnum] when the operand is a column of the relation. *)
Definition operand_attnum (rel : Z) (e : Node) : option Z :=
  match strip_relabel e with
  | Var varno varattno varlevelsup =>
      if negb (varno =? rel) then None
      else if negb (varlevelsup =? 0) then None
      else if negb (AttrNumberIsForUserDefinedAttr varattno) then None
      else Some varattno
  | _ => None
  end.

(** The arguments of an OR clause: all compatible, with the same attribute. *)
Definition compatible_or (check : Node -> res (option Z)) : list Node -> Z -> res (option Z) :=
  fix go args attnum :=
    match args with
    | [] => Ok (Some attnum)
    | a :: args =>
        o ← check a;
        match o with
        | None => Ok None
        | Some clause_attnum =>
            let attnum := if attnum =? InvalidAttrNumber then clause_attnum else attnum in
            if attnum =? clause_attnum then go args attnum else Ok None
        end
    end.

(** [dependency_is_compatible_clause]: [Some attnum] for true. *)
Fixpoint dependency_is_compatible_clause (clause : Node) (rel : Z) {struct clause} : res (option Z) :=
  let plain clause :=
    o ← clause_operand clause;
    Ok (match o with Some e => operand_attnum rel e | None => None end) in
  match clause with
  | RestrictInfo pseudoconstant clause_relids clause =>
      if pseudoconstant then Ok None
      else
        m ← bms_membership clause_relids;
        match m with
        | BMS_SINGLETON =>
            match clause with
            | BoolExpr OR_EXPR args =>
                compatible_or (fun a => dependency_is_compatible_clause a rel) args InvalidAttrNumber
            | clause => plain clause
            end
        | _ => Ok None
        end
  | BoolExpr OR_EXPR args =>
      compatible_or (fun a => dependency_is_compatible_clause a rel) args InvalidAttrNumber
  | clause => plain clause
  end.

(** The first expression of the statistics objects that equals [e]. *)
Fixpoint find_stat_expr (stats : list StatisticExtInfo) (e : Node) : option Node :=
  match stats with
  | [] => None
  | info :: stats =>
      if negb (Ascii.eqb (kind info) STATS_EXT_DEPENDENCIES) then find_stat_expr stats e
      else match List.find (equal P e) (exprs info) with
      | Some stat_expr => Some stat_expr
      | None => find_stat_expr stats e
      end
  end.

Definition var_ok (rel : Z) (v : Node) : res bool :=
  match v with
  | Var varno varattno varlevelsup =>
      Ok ((varno =? rel) && (varlevelsup =? 0) && AttrNumberIsForUserDefinedAttr varattno)
  | _ => UB "not a Var"
  end.

Fixpoint vars_ok (rel : Z) (vars : list Node) : res bool :=
  match vars with
  | [] => Ok true
  | v :: vars => b ← var_ok rel v; if (b : bool) then vars_ok rel vars else Ok false
  end.

Definition operand_expr (rel : Z) (stats : list StatisticExtInfo) (e : Node) : res (option Node) :=
  let e := strip_relabel e in
  vars ← pull_var_clause P e;
  ok ← vars_ok rel vars;
  Ok (if (ok : bool) then find_stat_expr stats e else None).

(** The arguments of an OR clause, for expressions. [expr] is the expression
    found so far; [equal] of a null pointer and anything is false. *)
Definition compatible_or_expr (check : Node -> res (option (option Node)))
  : list Node -> option Node -> res (option (option Node)) :=
  fix go args expr :=
    match args with
    | [] => Ok (Some expr)
    | a :: args =>
        o ← check a;
        match o with
        | None => Ok None
        | Some or_expr =>
            let expr := match expr with None => or_expr | e => e end in
            let same := match or_expr, expr with
                        | Some x, Some y => equal P x y
                        | None, None => true
                        | _, _ => false
                        end in
            if (same : bool) then go args expr else Ok None
        end
    end.

(** [dependency_is_compatible_expression]: [Some expr] for true, with the value
    left in [*expr]. *)
Fixpoint dependency_is_compatible_expression (clause : Node) (rel : Z) (stats : list StatisticExtInfo)
    {struct clause} : res (option (option Node)) :=
  let plain clause :=
    o ← clause_operand clause;
    match o with
    | Some e => r ← operand_expr rel stats e; Ok (match r with Some x => Some (Some x) | None => None end)
    | None => Ok None
    end in
  match clause with
  | RestrictInfo pseudoconstant clause_relids clause =>
      if pseudoconstant then Ok None
      else
        m ← bms_membership clause_relids;
        match m with
        | BMS_SINGLETON =>
            match clause with
            | BoolExpr OR_EXPR args =>
                compatible_or_expr (fun a => dependency_is_compatible_expression a rel stats) args None
            | clause => plain clause
            end
        | _ => Ok None
        end
  | BoolExpr OR_EXPR args =>
      compatible_or_expr (fun a => dependency_is_compatible_expression a rel stats) args None
  | clause => plain clause
  end.

(** * The strongest dependency *)
Definition dependency_is_fully_matched (dependency : MVDependency) (attnums : option Bitmapset) : res bool :=
  loop_return (for_up 0 (nattributes dependency) (fun j _ =>
    attnum ← rd (attributes dependency) j;
    m ← bms_is_member attnum attnums;
    Ok (if (m : bool) then inl tt else inr false)) tt) true.

(** Whether the loop goes on to the match: a candidate that is not narrower or
    weaker than the strongest so far. *)
Definition considered (nattnums : Z) (strongest : option MVDependency) (dependency : MVDependency) : bool :=
  if nattnums <? nattributes dependency then false
  else match strongest with
  | None => true
  | Some s =>
      if nattributes dependency <? nattributes s then false
      else negb ((nattributes s =? nattributes dependency) && d_ltb (degree dependency) (degree s))
  end.

Definition stronger (nattnums : Z) (attnums : option Bitmapset) (strongest : option MVDependency)
    (dependency : MVDependency) : res (option MVDependency) :=
  if considered nattnums strongest dependency then
    m ← dependency_is_fully_matched dependency attnums;
    Ok (if (m : bool) then Some dependency else strongest)
  else Ok strongest.

Definition find_strongest_dependency (func : list MVDependencies) (ndependencies : Z)
    (attnums : option Bitmapset) : res (option MVDependency) :=
  nattnums ← bms_num_members attnums;
  loop_state (for_up 0 ndependencies (fun i strongest =>
    ds ← rd func i;
    s ← loop_state (for_up 0 (ndeps ds) (fun j strongest =>
      dependency ← rd (deps ds) j;
      s ← stronger nattnums attnums strongest dependency;
      Ok (inl s)) strongest);
    Ok (inl s)) None).

(** * Applying the dependencies *)

(** The attributes of some dependencies. *)
Definition dependency_attnums (dependencies : list MVDependency) (ndependencies : Z)
  : res (option Bitmapset) :=
  loop_state (for_up 0 ndependencies (fun i attnums =>
    d ← rd dependencies i;
    a ← loop_state (for_up 0 (nattributes d) (fun j attnums =>
      attnum ← rd (attributes d) j;
      a ← bms_add_member attnums attnum;
      Ok (inl a)) attnums);
    Ok (inl a)) None).

(** The clauses on attribute [i], marked as estimated. *)
Definition attribute_clauses (clauses : list Node) (list_attnums : list Z) (i : Z)
    (estimatedclauses : option Bitmapset) : res (list Node * option Bitmapset) :=
  loop_state (for_up 0 (len clauses) (fun listidx '(attr_clauses, estimatedclauses) =>
    clause ← rd clauses listidx;
    attnum ← rd list_attnums listidx;
    if attnum =? i then
      e ← bms_add_member estimatedclauses listidx;
      Ok (inl (attr_clauses ++ [clause], e))
    else Ok (inl (attr_clauses, estimatedclauses))) ([], estimatedclauses)).

(** Replace the implied attribute's selectivity by the conditional one. *)
Definition apply_dependency (attnums : option Bitmapset) (dependency : MVDependency)
    (attr_sel : list double) : res (list double) :=
  s1 ← loop_state (for_up 0 (nattributes dependency - 1) (fun j s1 =>
    attnum ← rd (attributes dependency) j;
    attidx ← bms_member_index attnums attnum;
    s ← rd attr_sel attidx;
    Ok (inl (d_mul s1 s))) d_one);
  attnum ← rd (attributes dependency) (Z.max 0 (nattributes dependency - 1));
  attidx ← bms_member_index attnums attnum;
  s2 ← rd attr_sel attidx;
  let f := degree dependency in
  wr attr_sel attidx
    (if d_leb s1 s2 then d_add f (d_mul (d_sub d_one f) s2)
     else d_add (d_div (d_mul f s2) s1) (d_mul (d_sub d_one f) s2)).

Definition CLAMP_PROBABILITY (p : double) : double :=
  if d_ltb p d_zero then d_zero else if d_ltb d_one p then d_one else p.

Definition clauselist_apply_dependencies (clauses : list Node) (dependencies : list MVDependency)
    (ndependencies : Z) (list_attnums : list Z) (estimatedclauses : option Bitmapset)
  : res (double * option Bitmapset) :=
  attnums ← dependency_attnums dependencies ndependencies;
  nattrs ← bms_num_members attnums;
  '(attr_sel, estimatedclauses) ← each_member attnums (fun i '(attr_sel, estimatedclauses) =>
    '(attr_clauses, estimatedclauses) ← attribute_clauses clauses list_attnums i estimatedclauses;
    simple_sel ← clauselist_selectivity_ext P attr_clauses;
    if nattrs <=? len attr_sel then UB "write outside the array"
    else Ok (attr_sel ++ [simple_sel], estimatedclauses)) ([], estimatedclauses);
  attr_sel ← loop_state (for_down (ndependencies - 1) 0 (fun i attr_sel =>
    d ← rd dependencies i;
    attr_sel ← apply_dependency attnums d attr_sel;
    Ok (inl attr_sel)) attr_sel);
  s1 ← loop_state (for_up 0 nattrs (fun i s1 => s ← rd attr_sel i; Ok (inl (d_mul s1 s))) d_one);
  Ok (CLAMP_PROBABILITY s1, estimatedclauses).

(** * Selectivity of a clause list *)

(** [statext_dependencies_load]. *)
Definition statext_dependencies_load (mvoid : Z) : res MVDependencies :=
  match pg_statistic_ext_data P mvoid with
  | None => Err "cache lookup failed for statistics object"
  | Some None => Err "requested statistics kind is not yet built for statistics object"
  | Some (Some data) =>
      o ← statext_dependencies_deserialize cassert (Some data);
      match o with Some ds => Ok ds | None => UB "null pointer" end
  end.

(** The position of an expression in the array of unique expressions. *)
Definition expr_index (unique_exprs : list Node) (expr : Node) : option Z :=
  match List.find (fun '(_, e) => equal P e expr) (imap (fun i e => (Z.of_nat i, e)) unique_exprs) with
  | Some (i, _) => Some i
  | None => None
  end.

(** The number given to a clause, and the unique expressions after it. *)
Definition clause_attnum (rel : RelOptInfo) (clause : Node) (unique_exprs : list Node)
  : res (Z * list Node) :=
  o ← dependency_is_compatible_clause clause (relid rel);
  match o with
  | Some attnum => Ok (attnum, unique_exprs)
  | None =>
      o ← dependency_is_compatible_expression clause (relid rel) (statlist rel);
      match o with
      | None => Ok (InvalidAttrNumber, unique_exprs)
      | Some None => Assert false "expr != NULL";; UB "null pointer"
      | Some (Some expr) =>
          match expr_index unique_exprs expr with
          | Some i => Ok (i16 (- (i + 1)), unique_exprs)
          | None => Ok (i16 (- (len unique_exprs + 1)), unique_exprs ++ [expr])
          end
      end
  end.

Definition number_clauses (rel : RelOptInfo) (clauses : list Node) (estimatedclauses : option Bitmapset)
  : res (list Z * list Node) :=
  loop_state (for_up 0 (len clauses) (fun listidx '(list_attnums, unique_exprs) =>
    clause ← rd clauses listidx;
    m ← bms_is_member listidx estimatedclauses;
    '(attnum, unique_exprs) ← (if (m : bool) then Ok (InvalidAttrNumber, unique_exprs)
                               else clause_attnum rel clause unique_exprs);
    Ok (inl (list_attnums ++ [attnum], unique_exprs))) ([], [])).

Definition attnum_offset (unique_exprs : list Node) : Z :=
  if 0 <? len unique_exprs then i16 (len unique_exprs + 1) else 0.

(** Shift the numbers to positive ones and collect them in a set. *)
Definition offset_attnums (unique_exprs_cnt offset : Z) (list_attnums : list Z)
  : res (list Z * option Bitmapset) :=
  loop_state (for_up 0 (len list_attnums) (fun i '(list_attnums, clauses_attnums) =>
    a ← rd list_attnums i;
    if a =? InvalidAttrNumber then Ok (inl (list_attnums, clauses_attnums))
    else
      Assert (- unique_exprs_cnt <=? a) "list_attnums[i] >= (-unique_exprs_cnt)";;
      Assert (a <=? MaxHeapAttributeNumber) "list_attnums[i] <= MaxHeapAttributeNumber";;
      let attnum := i16 (a + offset) in
      m ← (if cassert then bms_is_member attnum clauses_attnums else Ok false);
      Assert (AttrNumberIsForUserDefinedAttr a || negb m)
        "AttrNumberIsForUserDefinedAttr(list_attnums[i]) || !bms_is_member(attnum, clauses_attnums)";;
      list_attnums ← wr list_attnums i attnum;
      clauses_attnums ← bms_add_member clauses_attnums attnum;
      Ok (inl (list_attnums, clauses_attnums))) (list_attnums, None)).

(** How many columns and expressions of a statistics object the clauses use. *)
Definition count_matching (stat : StatisticExtInfo) (offset : Z) (clauses_attnums : option Bitmapset)
    (unique_exprs : list Node) : res Z :=
  nmatched ← each_member (keys stat) (fun k nmatched =>
    let attnum := i16 k in
    if negb (AttrNumberIsForUserDefinedAttr attnum) then Ok nmatched
    else
      m ← bms_is_member (i16 (attnum + offset)) clauses_attnums;
      Ok (if (m : bool) then nmatched + 1 else nmatched)) 0;
  let nexprs := len (filter (fun '(u, e) => Is_true (equal P e u)) (cprod unique_exprs (exprs stat))) in
  Ok (nmatched + nexprs).

(** The attribute numbers of a dependency in the numbering of the clauses;
    [None] when one of them is not used by a clause. *)
Definition remap_attribute (stat : StatisticExtInfo) (offset : Z) (clauses_attnums : option Bitmapset)
    (unique_exprs : list Node) (attnum : Z) : res (option Z) :=
  if AttrNumberIsForUserDefinedAttr attnum then
    let a := i16 (attnum + offset) in
    m ← bms_is_member a clauses_attnums;
    Ok (if (m : bool) then Some a else None)
  else
    Assert (AttributeNumberIsValid attnum) "AttributeNumberIsValid(attnum)";;
    let idx := - (1 + attnum) in
    Assert ((0 <=? idx) && (idx <? len (exprs stat))) "(idx >= 0) && (idx < list_length(stat->exprs))";;
    expr ← rd (exprs stat) idx;
    match expr_index unique_exprs expr with
    | None => Ok None
    | Some k => Ok (let a := i16 (- (k + 1) + offset) in if a =? InvalidAttrNumber then None else Some a)
    end.

Definition remap_dependency (stat : StatisticExtInfo) (offset : Z) (clauses_attnums : option Bitmapset)
    (unique_exprs : list Node) (dep : MVDependency) : res (option MVDependency) :=
  o ← for_up 0 (nattributes dep) (fun j attrs =>
        attnum ← rd attrs j;
        o ← remap_attribute stat offset clauses_attnums unique_exprs attnum;
        match o with
        | None => Ok (inr tt)
        | Some a => attrs ← wr attrs j a; Ok (inl attrs)
        end) (attributes dep);
  Ok (match o with
      | inl attrs => Some {| degree := degree dep; nattributes := nattributes dep; attributes := attrs |}
      | inr _ => None
      end).

(** Keep the dependencies of a statistics object that the clauses cover. *)
Definition remap_dependencies (stat : StatisticExtInfo) (offset : Z) (clauses_attnums : option Bitmapset)
    (unique_exprs : list Node) (ds : MVDependencies) : res MVDependencies :=
  if (0 <? len unique_exprs) || negb (match exprs stat with [] => true | _ => false end) then
    kept ← loop_state (for_up 0 (ndeps ds) (fun i kept =>
      dep ← rd (deps ds) i;
      o ← remap_dependency stat offset clauses_attnums unique_exprs dep;
      Ok (inl (match o with Some dep => kept ++ [dep] | None => kept end))) []);
    Ok {| magic := magic ds; type := type ds; ndeps := len kept; deps := kept |}
  else Ok ds.

(** The statistics objects that match at least two attributes of the clauses. *)
Definition load_dependencies (stats : list StatisticExtInfo) (offset : Z)
    (clauses_attnums : option Bitmapset) (unique_exprs : list Node)
  : res (list MVDependencies * Z) :=
  loop_state (for_up 0 (len stats) (fun i '(func, total_ndeps) =>
    stat ← rd stats i;
    if negb (Ascii.eqb (kind stat) STATS_EXT_DEPENDENCIES) then Ok (inl (func, total_ndeps))
    else
      nmatched ← count_matching stat offset clauses_attnums unique_exprs;
      if nmatched <? 2 then Ok (inl (func, total_ndeps))
      else
        ds ← statext_dependencies_load (statOid stat);
        ds ← remap_dependencies stat offset clauses_attnums unique_exprs ds;
        Ok (inl (if 0 <? ndeps ds then (func ++ [ds], total_ndeps + ndeps ds)
                 else (func, total_ndeps)))) ([], 0)).

(** Pick the strongest dependency, drop its implied attribute, and so on. The
    array holds [total_ndeps] pointers; [fuel] bounds the turns of the loop. *)
Fixpoint select_dependencies (fuel : nat) (func : list MVDependencies) (total_ndeps : Z)
    (clauses_attnums : option Bitmapset) (dependencies : list MVDependency) : res (list MVDependency) :=
  match fuel with
  | O => UB "fuel"
  | S fuel =>
      o ← find_strongest_dependency func (len func) clauses_attnums;
      match o with
      | None => Ok dependencies
      | Some dependency =>
          if total_ndeps <=? len dependencies then UB "write outside the array"
          else
            attnum ← rd (attributes dependency) (nattributes dependency - 1);
            clauses_attnums ← bms_del_member clauses_attnums attnum;
            select_dependencies fuel func total_ndeps clauses_attnums (dependencies ++ [dependency])
      end
  end.

(** The selectivity, and the clauses it covers. *)
Definition dependencies_clauselist_selectivity (rel : RelOptInfo) (clauses : list Node)
    (estimatedclauses : option Bitmapset) : res (double * option Bitmapset) :=
  let unused := Ok (d_one, estimatedclauses) in
  if inh rel && negb (partitioned rel) then unused
  else if negb (has_stats_of_kind (statlist rel) STATS_EXT_DEPENDENCIES) then unused
  else
    '(list_attnums, unique_exprs) ← number_clauses rel clauses estimatedclauses;
    let offset := attnum_offset unique_exprs in
    '(list_attnums, clauses_attnums) ← offset_attnums (len unique_exprs) offset list_attnums;
    m ← bms_membership clauses_attnums;
    match m with
    | BMS_MULTIPLE =>
        '(func, total_ndeps) ← load_dependencies (statlist rel) offset clauses_attnums unique_exprs;
        if len func =? 0 then unused
        else
          num ← bms_num_members clauses_attnums;
          dependencies ← select_dependencies (S (Z.to_nat num)) func total_ndeps clauses_attnums [];
          if negb (len dependencies =? 0) then
            clauselist_apply_dependencies clauses dependencies (len dependencies) list_attnums estimatedclauses
          else unused
    | _ => unused
    end.

End planner.
