(* ===== verification/DepStrongest.v ===== *)
(** Choosing dependencies: [find_strongest_dependency] as a fold over all
    dependencies, and the greedy choice of [dependencies_clauselist_selectivity]
    as a relation on sets of attributes.  Proved against [SetLaws], what
    bitmapset.c promises. *)
From stdpp Require Import gmap sorting.
From S2P Require Import Prelude.
From S2P Require Import Double.
From S2P Require Import SortTemplate.
From S2P Require Import Bitmapset.
From S2P Require Import BmsSet.
From S2P Require Import ExtStats.
From S2P Require Import Dependencies.
From S2P Require Import DepSelect.
Open Scope Z_scope.
#[local] Set Default Proof Using "Type".

(** * Well-formed dependencies *)
Record choice_ok (d : MVDependency) : Prop := {
  co_count : nattributes d = len (attributes d);
  co_two : 2 <= nattributes d;
  co_attrs : Forall (fun a => 0 <= a < 2 ^ 31) (attributes d);
  co_distinct : NoDup (attributes d);
  co_degree : d_nan (degree d) = false
}.

Record func_ok (func : list MVDependencies) : Prop := {
  fo_count : Forall (fun ds => ndeps ds = len (deps ds)) func;
  fo_deps : Forall choice_ok (concat (deps <$> func))
}.

(** The clauses cover the dependency. *)
Definition matched (X : gset Z) (d : MVDependency) : Prop := Forall (fun a => a ∈ X) (attributes d).

#[export] Instance matched_dec X d : Decision (matched X d).
Proof. unfold matched. apply _. Defined.

(** [d'] is not better than [d]: it has fewer attributes, or as many and no
    higher degree. *)
Definition not_better (d' d : MVDependency) : Prop :=
  nattributes d' < nattributes d \/
  nattributes d' = nattributes d /\ d_ltb (degree d) (degree d') = false.

Lemma not_better_refl d : d_nan (degree d) = false -> not_better d d.
Proof.
  intros Hd. right. split; [done|]. destruct (d_ltb (degree d) (degree d)) eqn:E; [|done].
  by apply d_ltb_asym in E as E'; [rewrite E in E'|..].
Qed.

Lemma not_better_trans d1 d2 d3 :
  d_nan (degree d1) = false -> d_nan (degree d2) = false -> d_nan (degree d3) = false ->
  not_better d1 d2 -> not_better d2 d3 -> not_better d1 d3.
Proof.
  intros H1 H2 H3 [Hl|[He Hd]] [Hl'|[He' Hd']]; try (left; lia).
  right. split; [lia|]. by apply (d_ltb_trans _ (degree d2)).
Qed.

(** The strongest of the dependencies that the clauses cover. *)
Definition is_strongest (X : gset Z) (l : list MVDependency) (o : option MVDependency) : Prop :=
  match o with
  | None => Forall (fun d => ~ matched X d) l
  | Some d => d ∈ l /\ matched X d /\ Forall (fun d' => matched X d' -> not_better d' d) l
  end.

Lemma matched_size X d : choice_ok d -> matched X d -> nattributes d <= Z.of_nat (size X).
Proof.
  intros [] Hm. rewrite co_count0. unfold len. rewrite <- (size_list_to_set (C := gset Z) (attributes d)) by done.
  apply Nat2Z.inj_le, subseteq_size. intros a Ha%elem_of_list_to_set. by apply (proj1 (Forall_forall _ _) Hm).
Qed.

(** One turn of the loop. *)
Definition pick (X : gset Z) (s : option MVDependency) (d : MVDependency) : option MVDependency :=
  if considered (Z.of_nat (size X)) s d && bool_decide (matched X d) then Some d else s.

Lemma strongest_keep X l s d :
  is_strongest X l s -> (matched X d -> match s with Some s => not_better d s | None => False end) ->
  is_strongest X (l ++ [d]) s.
Proof.
  intros Hs Hd. destruct s as [s|]; cbn [is_strongest] in *.
  - destruct Hs as (Hin & Hm & Hbest). split; [set_solver|]. split; [done|]. apply Forall_app. auto.
  - apply Forall_app. auto.
Qed.

Lemma strongest_replace X l s d :
  Forall choice_ok l -> choice_ok d -> is_strongest X l s -> matched X d ->
  match s with Some s => not_better s d | None => True end -> is_strongest X (l ++ [d]) (Some d).
Proof.
  intros Hl Hd Hs Hm Hb. split; [set_solver|]. split; [done|]. apply Forall_app.
  split; [|constructor; [intros _; apply not_better_refl, co_degree, Hd|done]].
  rewrite Forall_forall in *. intros d' Hd' Hm'. destruct s as [s|].
  - destruct Hs as (Hin & Hms & Hbest). rewrite Forall_forall in Hbest.
    apply (not_better_trans _ s); auto using co_degree.
  - cbn in Hs. rewrite Forall_forall in Hs. by destruct (Hs d').
Qed.

Lemma pick_strongest X l s d :
  Forall choice_ok l -> choice_ok d -> is_strongest X l s -> is_strongest X (l ++ [d]) (pick X s d).
Proof.
  intros Hl Hd Hs. unfold pick, considered. pose proof (matched_size X d Hd) as Hsz.
  case_bool_decide as Hm; rewrite ?andb_true_r, ?andb_false_r; [|by apply strongest_keep].
  destruct (Z.ltb_spec (Z.of_nat (size X)) (nattributes d)); [specialize (Hsz Hm); lia|].
  destruct s as [s|]; [|by eapply strongest_replace].
  assert (Hsok : choice_ok s) by (apply (proj1 (Forall_forall _ _) Hl), Hs).
  destruct (Z.ltb_spec (nattributes d) (nattributes s)); [apply strongest_keep; [done|by left]|].
  destruct (Z.eqb_spec (nattributes s) (nattributes d)) as [He|]; cbn [andb negb].
  - destruct (d_ltb (degree d) (degree s)) eqn:E; cbn [negb].
    + apply strongest_keep; [done|]. intros _. right. split; [done|]. apply d_ltb_asym; [by apply co_degree..|done].
    + eapply strongest_replace; [done..|]. by right.
  - eapply strongest_replace; [done..|]. left. lia.
Qed.

Lemma foldl_strongest X l : Forall choice_ok l -> is_strongest X l (foldl (pick X) None l).
Proof.
  induction l as [|d l IH] using rev_ind; intros Hl; [constructor|]. apply Forall_app in Hl as [Hl Hd].
  rewrite foldl_app. apply pick_strongest; [done|by inversion Hd|auto].
Qed.

(** * The loops *)
Lemma foldl_take_next {A B} (f : A -> B -> A) (a : A) (l : list B) (i : Z) (x : B) :
  0 <= i -> l !! Z.to_nat i = Some x -> foldl f a (take (Z.to_nat (i + 1)) l) = f (foldl f a (take (Z.to_nat i) l)) x.
Proof.
  intros Hi Hx. replace (Z.to_nat (i + 1)) with (S (Z.to_nat i)) by lia. by rewrite (take_S_r _ _ _ Hx), foldl_snoc.
Qed.

(** A loop over an array that folds a function over it. *)
Lemma wp_fold_up {A B} (l : list A) (f : B -> A -> B) (g : B -> A -> res B) (b : B) (n : Z) :
  n = len l -> (forall s x, x ∈ l -> g s x = Ok (f s x)) ->
  loop_state (for_up 0 n (fun i s => x ← rd l i; s ← g s x; Ok (inl s)) b) = Ok (foldl f b l).
Proof.
  intros -> Hg. apply wp_eq, wp_loop_state.
  apply (wp_for_up (fun i s => s = foldl f b (take (Z.to_nat i) l))); [apply len_nonneg|done|..].
  - intros i s Hi ->. unfold len in Hi. destruct (lookup_lt_is_Some_2 l (Z.to_nat i)) as [x Hx]; [lia|].
    apply wp_bind, (wp_rd x); [unfold len; lia|]. unfold getd. rewrite Hx. cbn [default].
    rewrite Hg by (by eapply list_elem_of_lookup_2). step_ok. apply wp_Ok. by rewrite (foldl_take_next _ _ _ _ x) by done || lia.
  - intros s ->. by rewrite take_all.
Qed.

(** * The greedy choice *)

(** The attribute that the others determine. *)
Definition implied (d : MVDependency) : Z := getd 0 (attributes d) (nattributes d - 1).

(** Take the strongest dependency that the attributes [X] cover, go on without
    the attribute it implies. *)
Inductive greedy (l : list MVDependency) : gset Z -> list MVDependency -> Prop :=
| greedy_stop X : is_strongest X l None -> greedy l X []
| greedy_take X d ds :
    is_strongest X l (Some d) -> greedy l (X ∖ {[implied d]}) ds -> greedy l X (d :: ds).

Lemma implied_in d : choice_ok d -> implied d ∈ attributes d.
Proof.
  intros []. unfold implied, getd, len in *.
  destruct (lookup_lt_is_Some_2 (attributes d) (Z.to_nat (nattributes d - 1))) as [v Hv]; [lia|].
  rewrite Hv. by eapply list_elem_of_lookup_2.
Qed.

Lemma matched_mono X Y d : X ⊆ Y -> matched X d -> matched Y d.
Proof. intros HXY Hm. eapply Forall_impl; [exact Hm|]. set_solver. Qed.

Lemma matched_removed X d : choice_ok d -> ~ matched (X ∖ {[implied d]}) d.
Proof.
  intros Hd Hm. pose proof (proj1 (Forall_forall _ _) Hm _ (implied_in d Hd)). set_solver.
Qed.

Lemma greedy_matched l X ds : greedy l X ds -> Forall (matched X) ds.
Proof.
  induction 1 as [|X d ds (_ & Hm & _) _ IH]; constructor; [done|].
  eapply Forall_impl; [exact IH|]. intros d'. apply matched_mono. set_solver.
Qed.

(** No dependency of the choice uses an attribute that an earlier one implies. *)
Lemma greedy_order l X ds (i j : nat) d d' :
  greedy l X ds -> (i < j)%nat -> ds !! i = Some d -> ds !! j = Some d' -> implied d ∉ attributes d'.
Proof.
  intros Hg. revert i j. induction Hg as [|X d0 ds _ Hg IH]; intros i j Hij Hi Hj; [done|].
  destruct j as [|j]; [lia|]. cbn in Hj. destruct i as [|i]; cbn in Hi.
  - simplify_eq. intros Hin. pose proof (greedy_matched _ _ _ Hg) as Hm.
    pose proof (Forall_lookup_1 _ _ _ _ Hm Hj) as Hm'. pose proof (proj1 (Forall_forall _ _) Hm' _ Hin). set_solver.
  - apply (IH i j); [lia|done|done].
Qed.

Lemma greedy_length l X ds : Forall choice_ok l -> greedy l X ds -> (length ds <= size X)%nat.
Proof.
  intros Hl. induction 1 as [|X d ds (Hin & Hm & _) _ IH]; cbn; [lia|].
  assert (Hd : choice_ok d) by (by apply (proj1 (Forall_forall _ _) Hl)).
  assert (implied d ∈ X) by (apply (proj1 (Forall_forall _ _) Hm), implied_in, Hd).
  assert (size (X ∖ {[implied d]}) < size X)%nat; [|lia]. apply subset_size. set_solver.
Qed.

Section choice.
Context {rep : option Bitmapset -> gset Z -> Prop} `{!SetLaws rep}.
#[local] Set Default Proof Using "Type*".
Implicit Types (a : option Bitmapset) (X : gset Z).

Lemma fully_matched_spec a X d :
  rep a X -> choice_ok d -> dependency_is_fully_matched d a = Ok (bool_decide (matched X d)).
Proof.
  intros Hr []. apply wp_eq. unfold dependency_is_fully_matched. apply wp_loop_return.
  apply (wp_find_up (fun j => negb (bool_decide (getd 0 (attributes d) j ∈ X))) (fun _ => false)).
  - intros j Hj. apply wp_bind, (wp_rd 0); [lia|].
    assert (0 <= getd 0 (attributes d) j) by (apply (getd_Forall (fun z => 0 <= z)); [|done];
      eapply Forall_impl; [exact co_attrs0|]; cbn; lia).
    rewrite (sl_member _ _ _ Hr) by done. step_ok. apply wp_Ok. by case_bool_decide.
  - intros Hall. symmetry. apply bool_decide_eq_true. apply (Forall_getd _ 0). intros j Hj.
    specialize (Hall j ltac:(lia)). by case_bool_decide.
  - intros j Hj Ht _. symmetry. apply bool_decide_eq_false. intros Hm.
    pose proof (Forall_lookup_1 _ _ (Z.to_nat j) (getd 0 (attributes d) j) Hm) as Hin. unfold getd in *.
    destruct (lookup_lt_is_Some_2 (attributes d) (Z.to_nat j)) as [v Hv]; [unfold len in *; lia|].
    rewrite Hv in *. cbn in *. case_bool_decide; [done|]. by apply H, Hin.
Qed.

Lemma stronger_spec a X s d :
  rep a X -> choice_ok d -> stronger (Z.of_nat (size X)) a s d = Ok (pick X s d).
Proof.
  intros Hr Hd. unfold stronger, pick. destruct (considered _ s d); [|done].
  rewrite (fully_matched_spec a X d Hr Hd). step_ok. by destruct (bool_decide (matched X d)).
Qed.

Lemma foldl_concat {A B} (f : B -> A -> B) (b : B) (ls : list (list A)) :
  foldl f b (concat ls) = foldl (fun b l => foldl f b l) b ls.
Proof. revert b. induction ls as [|l ls IH]; intros b; [done|]. cbn. by rewrite foldl_app, IH. Qed.

Lemma find_strongest_fold func a X :
  rep a X -> Z.of_nat (size X) < 2 ^ 31 -> func_ok func ->
  find_strongest_dependency func (len func) a = Ok (foldl (pick X) None (concat (deps <$> func))).
Proof.
  intros Hr Hs [Hc Hd]. unfold find_strongest_dependency. rewrite (sl_num _ _ Hr Hs). step_ok.
  rewrite foldl_concat, foldl_fmap.
  apply (wp_fold_up func (fun s ds => foldl (pick X) s (deps ds))); [done|]. intros s ds Hin.
  apply (wp_fold_up (deps ds) (pick X)); [by apply (proj1 (Forall_forall _ _) Hc)|].
  intros s' d Hd'. apply stronger_spec; [done|]. apply (proj1 (Forall_forall _ _) Hd).
  apply list_elem_of_In, in_concat. exists (deps ds). rewrite <- !list_elem_of_In. split; [|done]. apply list_elem_of_fmap. by exists ds.
Qed.

Lemma find_strongest_spec func a X :
  rep a X -> Z.of_nat (size X) < 2 ^ 31 -> func_ok func ->
  exists o, find_strongest_dependency func (len func) a = Ok o /\ is_strongest X (concat (deps <$> func)) o.
Proof.
  intros Hr Hs Hf. eexists. split; [by apply (find_strongest_fold func a X)|].
  apply foldl_strongest, (fo_deps _ Hf).
Qed.

(** The array of chosen dependencies never overflows: what is chosen is no
    longer covered, so nothing is chosen twice. *)
Lemma select_spec func a X acc fuel :
  rep a X -> Z.of_nat (size X) < 2 ^ 31 -> func_ok func -> (size X < fuel)%nat ->
  NoDup acc -> acc ⊆ concat (deps <$> func) -> Forall (fun d => ~ matched X d) acc ->
  exists ds, select_dependencies fuel func (len (concat (deps <$> func))) a acc = Ok (acc ++ ds) /\
    greedy (concat (deps <$> func)) X ds /\ NoDup (acc ++ ds) /\ acc ++ ds ⊆ concat (deps <$> func).
Proof.
  intros Hr Hs Hf. set (l := concat (deps <$> func)).
  revert a X acc Hr Hs. induction fuel as [|fuel IH]; intros a X acc Hr Hs Hfuel Hnd Hsub Hno; [lia|].
  cbn [select_dependencies]. destruct (find_strongest_spec func a X Hr Hs Hf) as (o & -> & Ho). step_ok.
  fold l in Ho. destruct o as [d|].
  - destruct Ho as (Hin & Hm & Hbest).
    assert (Hd : choice_ok d) by (by apply (proj1 (Forall_forall _ _) (fo_deps _ Hf))). pose proof Hd as [].
    assert (Hnd' : NoDup (acc ++ [d])).
    { apply NoDup_app. split; [done|]. split; [|apply NoDup_singleton]. intros x Hx ->%list_elem_of_singleton.
      by apply (proj1 (Forall_forall _ _) Hno _ Hx). }
    assert (Hsub' : acc ++ [d] ⊆ l) by set_solver.
    assert (Hlen : len (acc ++ [d]) <= len l).
    { unfold len. apply Nat2Z.inj_le, submseteq_length, NoDup_submseteq; [done|]. intros x. apply Hsub'. }
    rewrite len_app in Hlen. change (len [d]) with 1 in Hlen.
    destruct (Z.leb_spec (len l) (len acc)); [lia|].
    assert (rd (attributes d) (nattributes d - 1) = Ok (implied d)) as ->.
    { apply wp_eq, (wp_rd 0); [lia|done]. }
    step_ok. assert (HimX : implied d ∈ X) by (apply (proj1 (Forall_forall _ _) Hm), implied_in, Hd).
    destruct (sl_del a X (implied d) Hr) as (a' & -> & Hr'); [by apply (sl_range a X)|]. step_ok.
    assert (Hsz : (size (X ∖ {[implied d]}) < size X)%nat) by (apply subset_size; set_solver).
    destruct (IH a' (X ∖ {[implied d]}) (acc ++ [d])) as (ds & -> & Hg & Hn & Hsu); [done|lia|lia|done|done| |].
    { apply Forall_app. split; [|constructor; [by apply matched_removed|done]].
      eapply Forall_impl; [exact Hno|]. intros x Hx Hm'. apply Hx. eapply matched_mono; [|done]. set_solver. }
    exists (d :: ds). rewrite <- app_assoc in *. cbn in *. split; [done|]. split; [by constructor|done].
  - exists []. rewrite app_nil_r. split; [done|]. split; [by constructor|done].
Qed.

End choice.
