(* ===== verification/DepApply.v ===== *)
(** Applying the chosen dependencies: [clauselist_apply_dependencies] keeps the
    selectivities in an array indexed by [bms_member_index]; here it is proved
    equal to a computation on functions from attributes to selectivities.

    The whole estimate, [dependencies_clauselist_selectivity], for clauses on
    plain columns and statistics on plain columns: the numbering of the clauses,
    the statistics that are loaded, the choice among their dependencies and the
    selectivity. *)
From stdpp Require Import gmap sorting.
From S2P Require Import Prelude.
From S2P Require Import Bitmapset.
From S2P Require Import SortTemplate.
From S2P Require Import Double.
From S2P Require Import ExtStats.
From S2P Require Import Dependencies.
From S2P Require Import ItemFormat.
From S2P Require Import DepFormat.
From S2P Require Import BmsSet.
From S2P Require Import DepSelect.
From S2P Require Import DepStrongest.
Open Scope Z_scope.
#[local] Set Default Proof Using "Type".

(** * The reference computation *)

(** All attributes of some dependencies. *)
Definition attrs_of (ds : list MVDependency) : gset Z := list_to_set (concat (attributes <$> ds)).

(** The clauses on an attribute, and their positions. *)
Definition clauses_on (clauses : list Node) (la : list Z) (i : Z) : list Node :=
  (filter (fun p => p.2 = i) (zip clauses la)).*1.

Definition positions_on (la : list Z) (i : Z) : list Z := filter (fun j => getd 0 la j = i) (seqZ 0 (len la)).

(** [P(a,b) = f * Min(P(a), P(b)) + (1-f) * P(a) * P(b)], divided by [P(a)]. *)
Definition conditional (f s1 s2 : double) : double :=
  if d_leb s1 s2 then d_add f (d_mul (d_sub d_one f) s2)
  else d_add (d_div (d_mul f s2) s1) (d_mul (d_sub d_one f) s2).

Definition product (l : list double) : double := foldl d_mul d_one l.

(** The selectivity of the implied attribute becomes conditional. *)
Definition imply (d : MVDependency) (sel : Z -> double) (a : Z) : double :=
  if decide (a = implied d)
  then conditional (degree d) (product (sel <$> take (Z.to_nat (nattributes d - 1)) (attributes d))) (sel (implied d))
  else sel a.

Lemma elem_of_attrs_of ds a : a ∈ attrs_of ds <-> exists d, d ∈ ds /\ a ∈ attributes d.
Proof.
  unfold attrs_of. rewrite elem_of_list_to_set, list_elem_of_In, in_concat. setoid_rewrite <- list_elem_of_In. split.
  - intros (x & (d & -> & Hd)%list_elem_of_fmap & Hx). by exists d.
  - intros (d & Hd & Ha). exists (attributes d). split; [|done]. apply list_elem_of_fmap. by exists d.
Qed.

(** Updating the cell of one attribute in the array of all of them. *)
Lemma upd_fmap (sel : Z -> double) (l : list Z) (i : nat) (a : Z) (v : double) :
  NoDup l -> l !! i = Some a ->
  upd (sel <$> l) (Z.of_nat i) v = (fun b => if decide (b = a) then v else sel b) <$> l.
Proof.
  intros Hnd Hi. apply list_eq. intros j. unfold upd. rewrite Nat2Z.id, list_lookup_fmap.
  destruct (decide (i = j)) as [<-|Hne].
  - rewrite Hi. cbn. rewrite list_lookup_insert_eq by (rewrite length_fmap; by eapply lookup_lt_Some).
    by rewrite decide_True.
  - rewrite list_lookup_insert_ne, list_lookup_fmap by done. destruct (l !! j) as [b|] eqn:E; [|done]. cbn.
    rewrite decide_False; [done|]. intros ->. by pose proof (proj1 (NoDup_alt l) Hnd _ _ _ Hi E).
Qed.

Section apply.
Context {rep : option Bitmapset -> gset Z -> Prop} `{!SetLaws rep} (P : Planner).
#[local] Set Default Proof Using "Type*".
Implicit Types (X E : gset Z).

Lemma rep_eq a X Y : rep a X -> (forall z, z ∈ X <-> z ∈ Y) -> rep a Y.
Proof using Type. intros Hr He. by replace Y with X by (apply set_eq; done). Qed.

(** The set of attributes of an array of dependencies. *)
Lemma add_attributes_wp d s X :
  choice_ok d -> rep s X ->
  wp (loop_state (for_up 0 (nattributes d) (fun j attnums =>
      attnum ← rd (attributes d) j; a ← bms_add_member attnums attnum; Ok (inl a)) s))
     (fun s' => rep s' (list_to_set (attributes d) ∪ X)).
Proof.
  intros [] Hr. apply wp_loop_state.
  apply (wp_for_up (fun j s => rep s (list_to_set (take (Z.to_nat j) (attributes d)) ∪ X))); [lia|..].
  - apply (rep_eq _ _ _ Hr). set_solver.
  - intros j t Hj Ht. apply wp_bind, (wp_rd 0); [lia|].
    assert (Ha : 0 <= getd 0 (attributes d) j < 2 ^ 31) by (apply (getd_Forall (fun z => 0 <= z < 2 ^ 31)); [done|lia]).
    destruct (sl_add _ _ _ Ht Ha) as (t' & -> & Ht'). step_ok. apply wp_Ok.
    rewrite (take_cell 0), list_to_set_app_L by lia.
    apply (rep_eq _ _ _ Ht'). set_solver.
  - intros t Ht. by rewrite take_all in Ht.
Qed.

Lemma dependency_attnums_wp ds :
  Forall choice_ok ds -> wp (dependency_attnums ds (len ds)) (fun a => rep a (attrs_of ds)).
Proof.
  intros Hd. unfold dependency_attnums. apply wp_loop_state.
  apply (wp_for_up (fun i a => rep a (attrs_of (take (Z.to_nat i) ds)))); [apply len_nonneg|apply sl_empty|..].
  - intros i t Hi Ht. unfold len in Hi. destruct (lookup_lt_is_Some_2 ds (Z.to_nat i)) as [d Hdi]; [lia|].
    apply wp_bind, (wp_rd d); [unfold len; lia|]. unfold getd. rewrite Hdi. cbn [default].
    apply wp_bind. eapply wp_mono; [apply (add_attributes_wp d t _ (Forall_lookup_1 _ _ _ _ Hd Hdi) Ht)|].
    intros t' Ht'. apply wp_Ok. replace (Z.to_nat (i + 1)) with (S (Z.to_nat i)) by lia.
    rewrite (take_S_r _ _ _ Hdi).
    apply (rep_eq _ _ _ Ht'). intros z. rewrite elem_of_union, elem_of_list_to_set, !elem_of_attrs_of.
    setoid_rewrite elem_of_app. setoid_rewrite list_elem_of_singleton. naive_solver.
  - intros t Ht. by rewrite take_all in Ht.
Qed.

(** The clauses on one attribute are collected and marked. *)
Lemma attribute_clauses_wp clauses la i e E :
  len la = len clauses -> len clauses <= 2 ^ 31 -> rep e E ->
  wp (attribute_clauses clauses la i e)
     (fun '(cl, e') => cl = clauses_on clauses la i /\ rep e' (list_to_set (positions_on la i) ∪ E)).
Proof.
  intros Hl Hmax Hr. unfold attribute_clauses. apply wp_loop_state.
  assert (Hz : len (zip clauses la) = len clauses) by (unfold len in *; rewrite length_zip_with; lia).
  apply (wp_for_up (fun j '(cl, e') => cl = (filter (fun p => p.2 = i) (take (Z.to_nat j) (zip clauses la))).*1 /\
    rep e' (list_to_set (filter (fun k => getd 0 la k = i) (seqZ 0 j)) ∪ E))); [apply len_nonneg|..].
  - split; [done|]. apply (rep_eq _ _ _ Hr). set_solver.
  - intros j [cl e'] Hj [-> He]. unfold len in *.
    destruct (lookup_lt_is_Some_2 clauses (Z.to_nat j)) as [c Hc]; [lia|].
    destruct (lookup_lt_is_Some_2 la (Z.to_nat j)) as [v Hv]; [lia|].
    assert (Hzip : zip clauses la !! Z.to_nat j = Some (c, v)) by (rewrite lookup_zip_with, Hc, Hv; done).
    apply wp_bind, (wp_rd c); [unfold len; lia|]. apply wp_bind, (wp_rd 0); [unfold len; lia|].
    assert (getd c clauses j = c) as -> by (unfold getd; by rewrite Hc).
    assert (Hgv : getd 0 la j = v) by (unfold getd; by rewrite Hv). rewrite Hgv.
    replace (Z.to_nat (j + 1)) with (S (Z.to_nat j)) by lia. rewrite (take_S_r _ _ _ Hzip).
    rewrite filter_app, fmap_app, filter_cons, filter_nil. cbn [snd].
    replace (seqZ 0 (j + 1)) with (seqZ 0 j ++ [j]) by (rewrite (seqZ_app 0 j 1) by lia; cbn; by rewrite Z.add_0_r || done).
    rewrite filter_app, list_to_set_app_L, filter_cons, filter_nil, Hgv.
    destruct (Z.eqb_spec v i) as [->|Hne].
    + destruct (sl_add _ _ j He) as (e2 & -> & He2); [lia|]. step_ok. apply wp_Ok.
      rewrite !decide_True by done. split; [done|].
      apply (rep_eq _ _ _ He2). set_solver.
    + rewrite !decide_False by done. cbn. rewrite app_nil_r. split; [done|].
      apply (rep_eq _ _ _ He). set_solver.
  - intros [cl e'] [-> He]. split; [|unfold positions_on; by rewrite Hl].
    unfold clauses_on. by rewrite take_all.
Qed.

(** The selectivity of the clauses on an attribute, by itself. *)
Definition simple_sel (clauses : list Node) (la : list Z) (i : Z) : double :=
  match clauselist_selectivity_ext P (clauses_on clauses la i) with Ok s => s | _ => d_zero end.

Context (Hsel : forall l, exists s, clauselist_selectivity_ext P l = Ok s).

Definition collect_sel (clauses : list Node) (la : list Z) (nattrs i : Z) '(attr_sel, estimatedclauses)
  : res (list double * option Bitmapset) :=
  '(attr_clauses, estimatedclauses) ← attribute_clauses clauses la i estimatedclauses;
  simple_sel ← clauselist_selectivity_ext P attr_clauses;
  if nattrs <=? len attr_sel then UB "write outside the array"
  else Ok (attr_sel ++ [simple_sel], estimatedclauses).

Lemma collect_members_wp clauses la nattrs l sels e E :
  len la = len clauses -> len clauses <= 2 ^ 31 -> rep e E -> len sels + len l <= nattrs ->
  wp (run_members (collect_sel clauses la nattrs) l (sels, e))
     (fun '(sels', e') => sels' = sels ++ (simple_sel clauses la <$> l) /\
        rep e' (list_to_set (l ≫= positions_on la) ∪ E)).
Proof.
  intros Hl Hmax. revert sels e E. induction l as [|i l IH]; intros sels e E Hr Hn; cbn [run_members].
  - split; [by rewrite app_nil_r|]. apply (rep_eq _ _ _ Hr). set_solver.
  - rewrite len_cons in Hn. pose proof (len_nonneg l). apply wp_bind. unfold collect_sel at 1. apply wp_bind.
    eapply wp_mono; [by apply (attribute_clauses_wp clauses la i e E)|]. intros [cl e'] [-> He].
    destruct (Hsel (clauses_on clauses la i)) as [s Hs]. rewrite Hs. step_ok.
    destruct (Z.leb_spec nattrs (len sels)); [lia|]. apply wp_Ok.
    eapply wp_mono; [apply (IH _ _ _ He); rewrite len_app; change (len [s]) with 1; lia|].
    intros [sels' e2] [-> He2]. split.
    + rewrite <- app_assoc. unfold simple_sel at 2. by rewrite fmap_cons, Hs.
    + apply (rep_eq _ _ _ He2). intros z. cbn [mbind list_bind]. rewrite list_to_set_app_L. set_solver.
Qed.

(** ** One dependency *)
Section indexed.
Context (a : option Bitmapset) (l : list Z).
Context (Hnd : NoDup l).
Context (Hidx : forall x, x ∈ l -> exists i, bms_member_index a x = Ok (Z.of_nat i) /\ l !! i = Some x).

Lemma read_attr (sel : Z -> double) (x : Z) :
  x ∈ l -> wp (attidx ← bms_member_index a x; rd (sel <$> l) attidx) (fun s => s = sel x).
Proof using Hidx.
  intros Hx. destruct (Hidx x Hx) as (i & -> & Hi). step_ok. apply (wp_rd d_zero).
  - unfold len. rewrite length_fmap. apply lookup_lt_Some in Hi. lia.
  - unfold getd. by rewrite Nat2Z.id, list_lookup_fmap, Hi.
Qed.

Lemma apply_dependency_wp d sel :
  choice_ok d -> Forall (fun x => x ∈ l) (attributes d) ->
  wp (apply_dependency a d (sel <$> l)) (fun r => r = imply d sel <$> l).
Proof using Hnd Hidx.
  intros Hd Hin. pose proof Hd as []. unfold apply_dependency. apply wp_bind.
  assert (Hcell : forall j, 0 <= j < nattributes d -> getd 0 (attributes d) j ∈ l).
  { intros j Hj. unfold getd. destruct (lookup_lt_is_Some_2 (attributes d) (Z.to_nat j)) as [v Hv]; [unfold len in *; lia|].
    rewrite Hv. by apply (Forall_lookup_1 _ _ _ _ Hin Hv). }
  apply (wp_mono _ (fun s1 => s1 = product (sel <$> take (Z.to_nat (nattributes d - 1)) (attributes d)))).
  - apply wp_loop_state.
    apply (wp_for_up (fun j s1 => s1 = product (sel <$> take (Z.to_nat j) (attributes d)))); [lia|done| |done].
    intros j s1 Hj ->. apply wp_bind, (wp_rd 0); [lia|].
    pose proof (read_attr sel _ (Hcell j ltac:(lia))) as Hw.
    destruct (bms_member_index a (getd 0 (attributes d) j)) as [i| |]; [|done|done]. step_ok. cbn [mbind res_bind] in Hw.
    apply wp_bind. eapply wp_mono; [exact Hw|]. intros s ->. apply wp_Ok.
    rewrite (take_cell 0) by lia. unfold product. by rewrite fmap_app, foldl_app.
  - intros s1 ->. rewrite Z.max_r by lia. apply wp_bind, (wp_rd 0); [lia|]. fold (implied d).
    destruct (Hidx (implied d) (Hcell (nattributes d - 1) ltac:(lia))) as (i & Hi & Hl).
    pose proof (read_attr sel _ (Hcell (nattributes d - 1) ltac:(lia))) as Hw. fold (implied d) in Hw.
    rewrite Hi in *. step_ok. apply wp_bind. eapply wp_mono; [exact Hw|]. intros s2 ->.
    apply wp_wr; [unfold len; rewrite length_fmap; apply lookup_lt_Some in Hl; lia|].
    rewrite (upd_fmap sel l i (implied d)) by done. done.
Qed.

End indexed.

(** ** All of it *)
Definition after_dependencies (ds : list MVDependency) (sel : Z -> double) : Z -> double := foldr imply sel ds.

Lemma apply_all_wp a l ds sel :
  NoDup l -> (forall x, x ∈ l -> exists i, bms_member_index a x = Ok (Z.of_nat i) /\ l !! i = Some x) ->
  Forall choice_ok ds -> (forall x, x ∈ attrs_of ds -> x ∈ l) ->
  wp (loop_state (for_down (len ds - 1) 0 (fun i attr_sel =>
      d ← rd ds i; attr_sel ← apply_dependency a d attr_sel; Ok (inl attr_sel)) (sel <$> l)))
     (fun r => r = after_dependencies ds sel <$> l).
Proof.
  intros Hnd Hidx Hd Hin. apply wp_loop_state. pose proof (len_nonneg ds).
  apply (wp_for_down (fun i r => r = after_dependencies (drop (Z.to_nat (i + 1)) ds) sel <$> l)); [lia|..].
  - rewrite drop_ge by (unfold len; lia). done.
  - intros i r Hi ->. destruct (lookup_lt_is_Some_2 ds (Z.to_nat i)) as [d Hdi]; [unfold len in *; lia|].
    apply wp_bind, (wp_rd d); [lia|]. unfold getd. rewrite Hdi. cbn [default]. apply wp_bind.
    eapply wp_mono; [apply (apply_dependency_wp a l Hnd Hidx d); [by eapply Forall_lookup_1|]|].
    + apply Forall_forall. intros x Hx. apply Hin, elem_of_attrs_of. exists d. split; [by eapply list_elem_of_lookup_2|done].
    + intros r ->. apply wp_Ok. replace (Z.to_nat (i - 1 + 1)) with (Z.to_nat i) by lia.
      rewrite (drop_S _ _ _ Hdi). by replace (S (Z.to_nat i)) with (Z.to_nat (i + 1)) by lia.
  - intros r ->. replace (0 - 1 + 1) with 0 by lia. by rewrite drop_0.
Qed.

Lemma product_wp (l : list double) :
  wp (loop_state (for_up 0 (len l) (fun i s1 => s ← rd l i; Ok (inl (d_mul s1 s))) d_one)) (fun s => s = product l).
Proof using Type.
  apply wp_loop_state. apply (wp_for_up (fun i s => s = product (take (Z.to_nat i) l))); [apply len_nonneg|done|..].
  - intros i s Hi ->. apply wp_bind, (wp_rd d_zero); [lia|]. apply wp_Ok. rewrite (take_cell d_zero) by lia.
    unfold product. by rewrite foldl_app.
  - intros s ->. by rewrite take_all.
Qed.

Lemma apply_dependencies_spec clauses ds la e E :
  Forall choice_ok ds -> Z.of_nat (size (attrs_of ds)) < 2 ^ 31 - 1 -> (forall x, x ∈ attrs_of ds -> x < 2 ^ 31 - 1) ->
  len la = len clauses -> len clauses <= 2 ^ 31 -> rep e E ->
  exists l e', NoDup l /\ list_to_set l = attrs_of ds /\ StronglySorted Z.lt l /\
    clauselist_apply_dependencies P clauses ds (len ds) la e =
      Ok (CLAMP_PROBABILITY (product (after_dependencies ds (simple_sel clauses la) <$> l)), e') /\
    rep e' (list_to_set (l ≫= positions_on la) ∪ E).
Proof.
  intros Hd Hsz Htop Hl Hmax Hr. unfold clauselist_apply_dependencies.
  destruct (proj1 (wp_ok _ _) (dependency_attnums_wp ds Hd)) as (a & -> & Ha). step_ok.
  rewrite (sl_num a _ Ha) by lia. step_ok.
  destruct (sl_members a _ Ha) as (l & Hnd & Hso & Hset & H). destruct (H Hsz Htop) as [Heach Hidx]. rewrite Heach.
  assert (Hlen : Z.of_nat (size (attrs_of ds)) = len l) by (rewrite <- Hset; unfold len; by rewrite size_list_to_set).
  rewrite Hlen. pose proof (collect_members_wp clauses la (len l) l [] e E Hl Hmax Hr) as Hw.
  destruct (proj1 (wp_ok _ _) (Hw ltac:(change (len []) with 0; lia))) as ([sels e'] & Hrun & -> & He').
  unfold collect_sel in Hrun. rewrite Hrun. step_ok. cbn [app].
  assert (Hin : forall x, x ∈ l <-> x ∈ attrs_of ds) by (intros x; rewrite <- Hset; by rewrite elem_of_list_to_set).
  pose proof (apply_all_wp a l ds (simple_sel clauses la) Hnd (fun x Hx => Hidx x (proj1 (Hin x) Hx)) Hd
    (fun x Hx => proj2 (Hin x) Hx)) as Hall. apply wp_eq in Hall. rewrite Hall. step_ok.
  replace (len l) with (len (after_dependencies ds (simple_sel clauses la) <$> l)) by (unfold len; by rewrite length_fmap).
  pose proof (product_wp (after_dependencies ds (simple_sel clauses la) <$> l)) as Hp. apply wp_eq in Hp. rewrite Hp. step_ok.
  by exists l, e'.
Qed.

End apply.

Section plan.
Context {rep : option Bitmapset -> gset Z -> Prop} `{!SetLaws rep} (cassert : bool) (P : Planner) (rel : RelOptInfo).
Context (cols : StatisticExtInfo -> gset Z) (stored : StatisticExtInfo -> MVDependencies).
#[local] Set Default Proof Using "Type*".
Implicit Types (X E : gset Z).

(** The column of a clause, 0 if the clause is not on one column. *)
Definition clause_column (c : Node) : Z :=
  match dependency_is_compatible_clause P c (relid rel) with Ok (Some a) => a | _ => 0 end.

(** A clause on one column, or one that matches no expression. *)
Definition clause_ok (c : Node) : Prop :=
  0 <= clause_column c <= MaxHeapAttributeNumber /\
  ((exists a, dependency_is_compatible_clause P c (relid rel) = Ok (Some a)) \/
   dependency_is_compatible_clause P c (relid rel) = Ok None /\
   dependency_is_compatible_expression P c (relid rel) (statlist rel) = Ok None).

(** A statistics object on the columns [cols st], with [stored st] in the
    catalog if it is one on dependencies. *)
Record stat_ok (st : StatisticExtInfo) : Prop := {
  st_exprs : exprs st = [];
  st_keys : rep (keys st) (cols st);
  st_cols : forall k, k ∈ cols st -> 1 <= k <= MaxHeapAttributeNumber;
  st_data : kind st = STATS_EXT_DEPENDENCIES ->
            pg_statistic_ext_data P (statOid st) = Some (Some (deps_bytes (stored st)));
  st_wf : deps_wf (stored st);
  st_deps : Forall choice_ok (deps (stored st))
}.

Lemma small_set X : (forall k, k ∈ X -> 1 <= k <= MaxHeapAttributeNumber) -> Z.of_nat (size X) <= MaxHeapAttributeNumber.
Proof using Type.
  intros HX. assert (Hsub : X ⊆ list_to_set (seqZ 1 MaxHeapAttributeNumber)).
  { intros k Hk. apply elem_of_list_to_set, elem_of_seqZ. specialize (HX k Hk). lia. }
  apply subseteq_size in Hsub. rewrite size_list_to_set in Hsub by apply NoDup_seqZ. rewrite length_seqZ in Hsub.
  unfold MaxHeapAttributeNumber in *. lia.
Qed.

(** ** Numbering the clauses *)
Definition column_list (E : gset Z) (clauses : list Node) : list Z :=
  imap (fun i c => if decide (Z.of_nat i ∈ E) then 0 else clause_column c) clauses.

Lemma clause_attnum_spec c : clause_ok c -> clause_attnum cassert P rel c [] = Ok (clause_column c, []).
Proof using Type.
  intros [_ H]. unfold clause_attnum, clause_column. destruct H as [[a ->]|[-> H2]]; step_ok; [done|].
  rewrite H2. done.
Qed.

Lemma number_clauses_spec clauses e E :
  rep e E -> Forall clause_ok clauses -> number_clauses cassert P rel clauses e = Ok (column_list E clauses, []).
Proof.
  intros Hr Hc. apply wp_eq. unfold number_clauses. apply wp_loop_state.
  assert (Hl : len (column_list E clauses) = len clauses) by (unfold len, column_list; by rewrite length_imap).
  apply (wp_for_up (fun i s => s = (take (Z.to_nat i) (column_list E clauses), []))); [apply len_nonneg|done|..].
  - intros i s Hi ->. destruct (lookup_lt_is_Some_2 clauses (Z.to_nat i)) as [c Hci]; [unfold len in *; lia|].
    apply wp_bind, (wp_rd c); [lia|]. unfold getd. rewrite Hci. cbn [default].
    rewrite (sl_member _ _ _ Hr) by lia. step_ok.
    assert (Hcell : column_list E clauses !! Z.to_nat i = Some (if decide (i ∈ E) then 0 else clause_column c)).
    { unfold column_list. rewrite list_lookup_imap, Hci. cbn. by rewrite Z2Nat.id by lia. }
    replace (Z.to_nat (i + 1)) with (S (Z.to_nat i)) by lia. rewrite (take_S_r _ _ _ Hcell).
    case_bool_decide; case_decide; try done.
    rewrite clause_attnum_spec by (by eapply Forall_lookup_1). step_ok. by apply wp_Ok.
  - intros s ->. by rewrite take_all.
Qed.

Definition columns_used (la : list Z) : gset Z := list_to_set (filter (fun a => a <> 0) la).

Lemma offset_spec la :
  Forall (fun a => 0 <= a <= MaxHeapAttributeNumber) la ->
  wp (offset_attnums cassert 0 0 la) (fun '(la', a) => la' = la /\ rep a (columns_used la)).
Proof.
  intros Hla. unfold offset_attnums. apply wp_loop_state.
  apply (wp_for_up (fun i '(la', a) => la' = la /\ rep a (columns_used (take (Z.to_nat i) la)))); [apply len_nonneg|..].
  - split; [done|apply sl_empty].
  - intros i [la' a] Hi [-> Hr]. destruct (lookup_lt_is_Some_2 la (Z.to_nat i)) as [v Hv]; [unfold len in *; lia|].
    pose proof (Forall_lookup_1 _ _ _ _ Hla Hv) as Hrange. cbn in Hrange. unfold MaxHeapAttributeNumber in *.
    apply wp_bind, (wp_rd 0); [lia|]. unfold getd. rewrite Hv. cbn [default id].
    replace (Z.to_nat (i + 1)) with (S (Z.to_nat i)) by lia. rewrite (take_S_r _ _ _ Hv).
    unfold InvalidAttrNumber. destruct (Z.eqb_spec v 0) as [->|Hne].
    + apply wp_Ok. split; [done|]. unfold columns_used. rewrite filter_app, filter_cons, filter_nil, decide_False by auto.
      by rewrite app_nil_r.
    + apply wp_bind, wp_assert; [apply Z.leb_le; lia|]. apply wp_bind, wp_assert; [apply Z.leb_le; lia|].
      assert (i16 (v + 0) = v) as -> by (unfold i16; rewrite Z.mod_small; lia).
      apply wp_bind, (wp_mono _ (fun _ => True)).
      { destruct cassert; [|done]. by rewrite (sl_member _ _ _ Hr) by lia. }
      intros m _. apply wp_bind, wp_assert.
      { unfold AttrNumberIsForUserDefinedAttr. destruct (Z.ltb_spec 0 v); [done|lia]. }
      apply wp_bind, wp_wr; [lia|]. destruct (sl_add _ _ v Hr) as (a' & -> & Hr'); [lia|]. step_ok. apply wp_Ok.
      split; [unfold upd; by rewrite list_insert_id|]. apply (rep_eq _ _ _ Hr'). unfold columns_used.
      intros z. rewrite filter_app, filter_cons, filter_nil, decide_True, list_to_set_app_L by done. set_solver.
  - intros [la' a] [-> Hr]. split; [done|]. by rewrite take_all in Hr.
Qed.

(** ** Loading the statistics *)

(** The dependencies of the objects that cover two of the columns. *)
Definition usable (X : gset Z) (stats : list StatisticExtInfo) : list MVDependencies :=
  omap (fun st => if Ascii.eqb (kind st) STATS_EXT_DEPENDENCIES && (2 <=? Z.of_nat (size (cols st ∩ X)))
                  then Some (stored st) else None) stats.

Lemma usable_snoc X stats st :
  usable X (stats ++ [st]) = usable X stats ++
    (if Ascii.eqb (kind st) STATS_EXT_DEPENDENCIES && (2 <=? Z.of_nat (size (cols st ∩ X))) then [stored st] else []).
Proof using Type. unfold usable. rewrite omap_app. cbn. by destruct (_ && _). Qed.

Lemma count_matching_spec st a X :
  stat_ok st -> rep a X -> count_matching P st 0 a [] = Ok (Z.of_nat (size (cols st ∩ X))).
Proof.
  intros [] Hr. pose proof (small_set (cols st) st_cols0) as Hsz. unfold MaxHeapAttributeNumber in *.
  unfold count_matching. destruct (sl_members _ _ st_keys0) as (l & Hnd & _ & Hset & H).
  destruct H as [Heach _]; [lia|intros x Hx; specialize (st_cols0 x Hx); lia|]. rewrite Heach. apply wp_eq, wp_bind.
  match goal with |- wp (run_members ?f l 0) _ => set (body := f) end.
  assert (Hbody : forall k n, 1 <= k <= 1600 -> body k n = Ok (if bool_decide (k ∈ X) then n + 1 else n)).
  { intros k n Hk. unfold body. assert (Hi : i16 k = k) by (unfold i16; rewrite Z.mod_small; lia).
    cbv zeta. rewrite Hi, Z.add_0_r, Hi. unfold AttrNumberIsForUserDefinedAttr.
    destruct (Z.ltb_spec 0 k); [|lia]. cbn [negb]. by rewrite (sl_member _ _ _ Hr) by lia. }
  assert (Hrun : forall l n, Forall (fun k => 1 <= k <= 1600) l ->
    run_members body l n = Ok (n + len (filter (fun k => k ∈ X) l))).
  { clear -Hbody. induction l as [|k l IH]; intros n Hl; cbn [run_members]; [f_equal; cbn; unfold len; simpl; lia|].
    apply Forall_cons in Hl as [Hk Hl]. rewrite Hbody by done. step_ok. rewrite IH by done. f_equal. rewrite filter_cons.
    case_bool_decide; case_decide; try done; rewrite ?len_cons. by rewrite <- Z.add_assoc. }
  rewrite Hrun. 2:{ apply Forall_forall. intros k Hk. apply st_cols0. rewrite <- Hset. by apply elem_of_list_to_set. }
  apply wp_Ok, wp_Ok. rewrite st_exprs0. cbn [cprod mbind list_bind filter list_filter]. change (len []) with 0.
  replace (cols st ∩ X) with (list_to_set (filter (fun k => k ∈ X) l) : gset Z).
  - rewrite size_list_to_set by (by apply NoDup_filter). by rewrite Z.add_0_r.
  - apply set_eq. intros k. rewrite elem_of_list_to_set, list_elem_of_filter, elem_of_intersection, <- Hset, elem_of_list_to_set. tauto.
Qed.

Lemma load_spec st : stat_ok st -> kind st = STATS_EXT_DEPENDENCIES ->
  statext_dependencies_load cassert P (statOid st) = Ok (stored st).
Proof using Type. intros [] Hk. unfold statext_dependencies_load. rewrite st_data0 by done. by rewrite deserialize_spec. Qed.

Definition total (func : list MVDependencies) : Z := len (concat (deps <$> func)).

Lemma load_dependencies_spec stats a X :
  Forall stat_ok stats -> rep a X ->
  load_dependencies cassert P stats 0 a [] = Ok (usable X stats, total (usable X stats)).
Proof.
  intros Hst Hr. apply wp_eq. unfold load_dependencies. apply wp_loop_state.
  apply (wp_for_up (fun i s => s = (usable X (take (Z.to_nat i) stats), total (usable X (take (Z.to_nat i) stats)))));
    [apply len_nonneg|done|..].
  - intros i s Hi ->. destruct (lookup_lt_is_Some_2 stats (Z.to_nat i)) as [st Hsti]; [unfold len in *; lia|].
    pose proof (Forall_lookup_1 _ _ _ _ Hst Hsti) as Hok.
    apply wp_bind, (wp_rd st); [lia|]. unfold getd. rewrite Hsti. change (default st (Some st)) with st.
    replace (Z.to_nat (i + 1)) with (S (Z.to_nat i)) by lia. rewrite (take_S_r _ _ _ Hsti).
    rewrite usable_snoc.
    destruct (Ascii.eqb_spec (kind st) STATS_EXT_DEPENDENCIES) as [Hk|Hk]; cbn [negb andb];
      [|apply wp_Ok; by rewrite app_nil_r].
    rewrite (count_matching_spec st a X Hok Hr). step_ok.
    destruct (Z.ltb_spec (Z.of_nat (size (cols st ∩ X))) 2), (Z.leb_spec 2 (Z.of_nat (size (cols st ∩ X)))); try lia;
      [apply wp_Ok; by rewrite app_nil_r|].
    rewrite load_spec by done. step_ok. pose proof Hok as []. unfold remap_dependencies. rewrite st_exprs0. cbn [len length orb negb].
    change (0 <? len []) with false. cbn [orb]. step_ok. apply wp_Ok. pose proof st_wf0 as [].
    destruct (Z.ltb_spec 0 (ndeps (stored st))); [|lia]. f_equal. f_equal. unfold total.
    rewrite fmap_app, concat_app, len_app. cbn [fmap list_fmap concat]. rewrite app_nil_r. lia.
  - intros s ->. by rewrite take_all.
Qed.

(** ** The choice *)
Lemma usable_ok X stats : Forall stat_ok stats -> func_ok (usable X stats).
Proof.
  intros Hst. assert (H : Forall (fun ds => deps_wf ds /\ Forall choice_ok (deps ds)) (usable X stats)).
  { apply Forall_forall. intros ds (st & Hin & Hst')%list_elem_of_omap.
    pose proof (proj1 (Forall_forall _ _) Hst _ Hin) as []. destruct (_ && _); [|done]. by injection Hst' as <-. }
  split.
  - eapply Forall_impl; [exact H|]. intros ds [[] _]. done.
  - apply Forall_concat, Forall_fmap. eapply Forall_impl; [exact H|]. by intros ds [_ ?].
Qed.

Lemma nothing_usable X stats :
  has_stats_of_kind stats STATS_EXT_DEPENDENCIES = false -> usable X stats = [].
Proof using Type.
  unfold has_stats_of_kind, usable. induction stats as [|st stats IH]; [done|]. cbn.
  intros [-> H]%orb_false_iff. by apply IH.
Qed.

(** Fewer than two columns cover no dependency. *)
Lemma none_matched X l : Forall choice_ok l -> (size X < 2)%nat -> Forall (fun d => ~ matched X d) l.
Proof using Type.
  intros Hl Hs. eapply Forall_impl; [exact Hl|]. intros d Hd Hm. pose proof (matched_size X d Hd Hm).
  pose proof (co_two _ Hd). lia.
Qed.

Lemma columns_range E clauses x :
  Forall clause_ok clauses -> x ∈ columns_used (column_list E clauses) -> 1 <= x <= MaxHeapAttributeNumber.
Proof using Type.
  intros Hc Hx. unfold columns_used in Hx. apply elem_of_list_to_set, list_elem_of_filter in Hx as [Hne Hx].
  unfold column_list in Hx. apply list_elem_of_lookup in Hx as [i Hi]. rewrite list_lookup_imap in Hi.
  destruct (clauses !! i) as [c|] eqn:Hci; [|done]. cbn in Hi. injection Hi as <-. case_decide; [done|].
  pose proof (Forall_lookup_1 _ _ _ _ Hc Hci) as [Hr _]. lia.
Qed.

Lemma column_list_range E clauses :
  Forall clause_ok clauses -> Forall (fun a => 0 <= a <= MaxHeapAttributeNumber) (column_list E clauses).
Proof using Type.
  intros Hc. apply Forall_lookup. intros i a. unfold column_list. rewrite list_lookup_imap.
  destruct (clauses !! i) as [c|] eqn:Hci; [|done]. cbn. intros [= <-].
  pose proof (Forall_lookup_1 _ _ _ _ Hc Hci) as [Hr _]. unfold MaxHeapAttributeNumber in *. case_decide; lia.
Qed.

Lemma selectivity_spec clauses e E :
  (forall l, exists s, clauselist_selectivity_ext P l = Ok s) ->
  Forall clause_ok clauses -> Forall stat_ok (statlist rel) -> inh rel && negb (partitioned rel) = false ->
  len clauses <= 2 ^ 31 -> rep e E ->
  let la := column_list E clauses in
  let X := columns_used la in
  exists ds, greedy (concat (deps <$> usable X (statlist rel))) X ds /\
    match ds with
    | [] => dependencies_clauselist_selectivity cassert P rel clauses e = Ok (d_one, e)
    | _ => exists l e', NoDup l /\ list_to_set l = attrs_of ds /\ StronglySorted Z.lt l /\
        dependencies_clauselist_selectivity cassert P rel clauses e =
          Ok (CLAMP_PROBABILITY (product (after_dependencies ds (simple_sel P clauses la) <$> l)), e') /\
        rep e' (list_to_set (l ≫= positions_on la) ∪ E)
    end.
Proof.
  intros Hsel Hc Hst Hinh Hmax Hr la X. unfold dependencies_clauselist_selectivity. rewrite Hinh.
  pose proof (usable_ok X (statlist rel) Hst) as Hf.
  destruct (has_stats_of_kind (statlist rel) STATS_EXT_DEPENDENCIES) eqn:Hkind; cbn [negb].
  2:{ exists []. split; [|done]. rewrite nothing_usable by done. apply greedy_stop. constructor. }
  rewrite (number_clauses_spec clauses e E Hr Hc). step_ok. change (attnum_offset []) with 0. change (len []) with 0. fold la.
  destruct (proj1 (wp_ok _ _) (offset_spec la (column_list_range E clauses Hc))) as ([la' a] & -> & -> & Ha). step_ok.
  fold X in Ha. assert (HX : forall x, x ∈ X -> 1 <= x <= MaxHeapAttributeNumber) by (intros x; by apply columns_range).
  pose proof (small_set X HX) as Hsz. unfold MaxHeapAttributeNumber in *.
  destruct (sl_membership a X Ha) as (m & -> & Hm & _). step_ok.
  assert (Hnone : (size X < 2)%nat -> greedy (concat (deps <$> usable X (statlist rel))) X []).
  { intros Hlt. apply greedy_stop, none_matched; [apply (fo_deps _ Hf)|done]. }
  destruct m; [exists []; split; [|done]; apply Hnone; destruct (decide (2 <= size X)%nat) as [H2|]; [by apply Hm in H2|lia].. |].
  rewrite (load_dependencies_spec (statlist rel) a X Hst Ha). step_ok.
  destruct (Z.eqb_spec (len (usable X (statlist rel))) 0) as [H0|H0].
  { exists []. split; [|done]. destruct (usable X (statlist rel)); [apply greedy_stop; constructor|]. unfold len in H0. simpl in H0. lia. }
  rewrite (sl_num a X Ha) by lia. step_ok. rewrite Nat2Z.id.
  destruct (select_spec (usable X (statlist rel)) a X [] (S (size X))) as (ds & Hsd & Hg & Hnd & Hsub);
    [done|lia|done|lia|constructor|set_solver|done|]. unfold total. rewrite Hsd. step_ok. exists ds. split; [done|].
  rewrite app_nil_l in *. destruct ds as [|d ds0] eqn:Eds; [done|]. rewrite <- Eds in *.
  destruct (Z.eqb_spec (len ds) 0) as [H1|H1]; [rewrite Eds, len_cons in H1; pose proof (len_nonneg ds0); lia|]. cbn [negb].
  assert (HdX : forall x, x ∈ attrs_of ds -> x ∈ X).
  { intros x (d' & Hd' & Hx)%elem_of_attrs_of. pose proof (greedy_matched _ _ _ Hg) as Hgm.
    pose proof (proj1 (Forall_forall _ _) Hgm _ Hd') as Hm'. by apply (proj1 (Forall_forall _ _) Hm'). }
  assert (size (attrs_of ds) <= size X)%nat by (apply subseteq_size; intros x; apply HdX).
  apply (apply_dependencies_spec P Hsel clauses ds la e E).
  - apply Forall_forall. intros d' Hd'. apply (proj1 (Forall_forall _ _) (fo_deps _ Hf)), Hsub, Hd'.
  - lia.
  - intros x Hx. specialize (HX x (HdX x Hx)). lia.
  - unfold la, len, column_list. by rewrite length_imap.
  - done.
  - done.
Qed.

End plan.
