(* ===== verification/DepSelectProps.v ===== *)
(** Properties of the planner's use of dependencies: the strongest dependency,
    the greedy choice, the whole estimate, and an assertion that a legal clause
    list fails. *)
From Stdlib Require Import Ascii.
From stdpp Require Import gmap sorting.
From S2P Require Import Prelude.
From S2P Require Import Double.
From S2P Require Import SortTemplate.
From S2P Require Import Bitmapset.
From S2P Require Import BmsSet.
From S2P Require Import ExtStats.
From S2P Require Import Dependencies.
From S2P Require Import DepGen.
From S2P Require Import ItemFormat.
From S2P Require Import DepFormat.
From S2P Require Import DepSelect.
From S2P Require Import DepStrongest.
From S2P Require Import DepApply.
Open Scope Z_scope.

(** * A small relation with statistics on its columns 1 and 2 *)
Definition half : double := d_ratio 1 2.

Definition dep12 : MVDependency := {| degree := d_one; nattributes := 2; attributes := [1; 2] |}.
Definition dep21 : MVDependency := {| degree := half; nattributes := 2; attributes := [2; 1] |}.

Definition deps12 : MVDependencies :=
  {| magic := STATS_DEPS_MAGIC; type := STATS_DEPS_TYPE_BASIC; ndeps := 2; deps := [dep21; dep12] |}.

Definition keys12 : option Bitmapset :=
  match bms_make_singleton 1 with
  | Ok b => match bms_add_member b 2 with Ok b => b | _ => None end
  | _ => None
  end.

(** [OtherNode 0] is a constant, operator 96 is an equality, statistics object
    7 holds [deps12]. *)
Definition small_planner : Planner := {|
  is_pseudo_constant_clause := fun n => match n with OtherNode 0 _ => true | _ => false end;
  get_oprrest := fun o => if o =? 96 then F_EQSEL else 0;
  pull_var_clause := fun _ => Ok [];
  equal := fun a b => match a, b with OtherNode x _, OtherNode y _ => x =? y | _, _ => false end;
  clauselist_selectivity_ext := fun l => Ok (if len l =? 1 then half else d_ratio 1 4);
  pg_statistic_ext_data := fun o => if o =? 7 then Some (Some (deps_bytes deps12)) else None |}.

Definition column_is (a : Z) : Node := OpExpr 96 [Var 1 a 0; OtherNode 0 []].
Definition expression_is : Node := OpExpr 96 [OtherNode 5 []; OtherNode 0 []].

Definition stat12 (exprs : list Node) : StatisticExtInfo :=
  {| statOid := 7; kind := STATS_EXT_DEPENDENCIES; keys := keys12; exprs := exprs |}.

Definition small_rel (exprs : list Node) : RelOptInfo :=
  {| inh := false; partitioned := false; relid := 1; statlist := [stat12 exprs] |}.

Definition X12 : gset Z := {[1; 2]}.

Lemma keys12_rep : set_rep keys12 X12.
Proof.
  destruct (sl_add None ∅ 1 sl_empty) as (a & Ha & Hr); [lia|].
  destruct (sl_add a _ 2 Hr) as (b & Hb & Hr'); [lia|].
  assert (keys12 = b) as ->.
  { vm_compute in Ha. injection Ha as <-. vm_compute in Hb. injection Hb as <-. vm_compute. done. }
  replace X12 with ({[2]} ∪ ({[1]} ∪ ∅) : gset Z) by (unfold X12; set_solver). done.
Qed.

Lemma dep12_ok : choice_ok dep12.
Proof. split; try done; [repeat constructor; lia|by apply (bool_decide_unpack _); vm_compute]. Qed.

Lemma dep21_ok : choice_ok dep21.
Proof. split; try done; [repeat constructor; lia|by apply (bool_decide_unpack _); vm_compute]. Qed.

Lemma func12_ok : func_ok [deps12].
Proof. split; [by repeat constructor|]. cbn. auto using Forall_cons_2, Forall_nil_2, dep12_ok, dep21_ok. Qed.

Lemma deps12_wf : deps_wf deps12.
Proof. split; try done. repeat constructor; unfold STATS_MAX_DIMENSIONS; cbn; lia || done. Qed.

(** * The strongest dependency *)

(** [find_strongest_dependency] returns NULL iff the clauses cover no
    dependency; otherwise a covered one such that no covered one has more
    attributes, or as many and a higher degree. *)
Theorem find_strongest_correct func a X :
  set_rep a X -> Z.of_nat (size X) < 2 ^ 31 -> func_ok func ->
  exists o, find_strongest_dependency func (len func) a = Ok o /\
    match o with
    | None => Forall (fun d => ~ matched X d) (concat (deps <$> func))
    | Some d => d ∈ concat (deps <$> func) /\ matched X d /\
        Forall (fun d' => matched X d' -> nattributes d' < nattributes d \/
                  nattributes d' = nattributes d /\ d_ltb (degree d) (degree d') = false) (concat (deps <$> func))
    end.
Proof. apply (find_strongest_spec func a X). Qed.

Lemma find_strongest_correct_witness :
  exists o, find_strongest_dependency [deps12] (len [deps12]) keys12 = Ok o /\
    match o with
    | None => Forall (fun d => ~ matched X12 d) (concat (deps <$> [deps12]))
    | Some d => d ∈ concat (deps <$> [deps12]) /\ matched X12 d /\
        Forall (fun d' => matched X12 d' -> nattributes d' < nattributes d \/
                  nattributes d' = nattributes d /\ d_ltb (degree d) (degree d') = false) (concat (deps <$> [deps12]))
    end.
Proof. apply (find_strongest_correct [deps12] keys12 X12 keys12_rep); [done|apply func12_ok]. Defined.

(** * The greedy choice *)

(** The loop that chooses dependencies ends after at most as many turns as
    the clauses have attributes, never writes past the array of [total_ndeps]
    pointers, and refines the greedy choice: each dependency is the strongest
    that the remaining attributes cover, and its implied attribute is gone
    for the later ones. *)
Theorem select_dependencies_correct func a X :
  set_rep a X -> Z.of_nat (size X) < 2 ^ 31 -> func_ok func ->
  exists ds, select_dependencies (S (size X)) func (len (concat (deps <$> func))) a [] = Ok ds /\
    greedy (concat (deps <$> func)) X ds /\ (length ds <= size X)%nat /\
    len ds <= len (concat (deps <$> func)) /\
    (forall i j d d', (i < j)%nat -> ds !! i = Some d -> ds !! j = Some d' -> implied d ∉ attributes d').
Proof.
  intros Hr Hs Hf.
  destruct (select_spec func a X [] (S (size X)) Hr Hs Hf) as (ds & E & Hg & Hnd & Hsub); [lia|constructor|set_solver|done|].
  exists ds. split; [done|]. split; [done|]. split; [apply (greedy_length _ _ _ (fo_deps _ Hf) Hg)|]. split.
  - unfold len. apply Nat2Z.inj_le, submseteq_length, NoDup_submseteq; [done|]. intros x. apply Hsub.
  - intros i j d d'. by apply (greedy_order (concat (deps <$> func)) X).
Qed.

Lemma select_dependencies_correct_witness :
  exists ds, select_dependencies (S (size X12)) [deps12] (len (concat (deps <$> [deps12]))) keys12 [] = Ok ds /\
    greedy (concat (deps <$> [deps12])) X12 ds /\ (length ds <= size X12)%nat /\
    len ds <= len (concat (deps <$> [deps12])) /\
    (forall i j d d', (i < j)%nat -> ds !! i = Some d -> ds !! j = Some d' -> implied d ∉ attributes d').
Proof. apply (select_dependencies_correct [deps12] keys12 X12 keys12_rep); [done|apply func12_ok]. Defined.

(** * The whole estimate *)
Lemma clamp_range p : d_ltb (CLAMP_PROBABILITY p) d_zero = false /\ d_ltb d_one (CLAMP_PROBABILITY p) = false.
Proof.
  unfold CLAMP_PROBABILITY. destruct (d_ltb p d_zero) eqn:E1; [done|]. destruct (d_ltb d_one p) eqn:E2; done.
Qed.

(** C19. [dependencies_clauselist_selectivity] on clauses and statistics on plain
    columns: of the dependencies of all statistics objects that cover at least
    two columns of the clauses it makes the greedy choice.  If that is empty it
    returns 1.0 and estimates no clause; otherwise the (clamped) product over
    the attributes of the chosen dependencies of their selectivities, those of
    implied attributes made conditional from the last dependency to the first,
    and it adds to the estimated clauses exactly the clauses on these
    attributes. No assertion fails. *)
Theorem dependencies_selectivity_correct cassert P rel cols stored clauses e E :
  (forall l, exists s, clauselist_selectivity_ext P l = Ok s) ->
  Forall (clause_ok P rel) clauses -> Forall (stat_ok (rep := set_rep) P cols stored) (statlist rel) ->
  inh rel && negb (partitioned rel) = false -> len clauses <= 2 ^ 31 -> set_rep e E ->
  let la := column_list P rel E clauses in
  let X := columns_used la in
  exists ds s e', greedy (concat (deps <$> usable cols stored X (statlist rel))) X ds /\
    dependencies_clauselist_selectivity cassert P rel clauses e = Ok (s, e') /\
    d_ltb s d_zero = false /\ d_ltb d_one s = false /\
    match ds with
    | [] => s = d_one /\ e' = e
    | _ => exists l, NoDup l /\ (forall x, x ∈ l <-> exists d, d ∈ ds /\ x ∈ attributes d) /\ StronglySorted Z.lt l /\
        s = CLAMP_PROBABILITY (product (after_dependencies ds (simple_sel P clauses la) <$> l)) /\
        exists E', set_rep e' E' /\
          forall j, j ∈ E' <-> j ∈ E \/ 0 <= j < len la /\ getd 0 la j ∈ l
    end.
Proof.
  intros Hsel Hc Hst Hinh Hmax Hr la X.
  destruct (selectivity_spec cassert P rel cols stored clauses e E Hsel Hc Hst Hinh Hmax Hr) as (ds & Hg & Hds).
  fold la in Hg, Hds. fold X in Hg, Hds. exists ds. destruct ds as [|d ds0] eqn:Eds.
  { exists d_one, e. split_and!; try done. }
  rewrite <- Eds in *. destruct Hds as (l & e' & Hnd & Hset & Hso & -> & He'). eexists _, e'.
  split_and!; [done|done|apply clamp_range|apply clamp_range|]. exists l. split_and!; [done| |done|done|].
  - intros x. rewrite <- elem_of_attrs_of, <- Hset. by rewrite elem_of_list_to_set.
  - eexists. split; [exact He'|]. intros j. rewrite elem_of_union, elem_of_list_to_set, list_elem_of_bind.
    unfold positions_on. setoid_rewrite list_elem_of_filter. setoid_rewrite elem_of_seqZ. rewrite Z.add_0_l. naive_solver.
Qed.

Lemma dependencies_selectivity_correct_witness :
  let la := column_list small_planner (small_rel []) ∅ [column_is 1; column_is 2] in
  let X := columns_used la in
  exists ds s e', greedy (concat (deps <$> usable (fun _ => X12) (fun _ => deps12) X [stat12 []])) X ds /\
    dependencies_clauselist_selectivity true small_planner (small_rel []) [column_is 1; column_is 2] None = Ok (s, e') /\
    d_ltb s d_zero = false /\ d_ltb d_one s = false.
Proof.
  destruct (dependencies_selectivity_correct true small_planner (small_rel []) (fun _ => X12) (fun _ => deps12)
    [column_is 1; column_is 2] None ∅) as (ds & s & e' & H1 & H2 & H3 & H4 & _).
  - intros l. by eexists.
  - assert (Hc : forall a, 1 <= a <= 2 -> clause_ok small_planner (small_rel []) (column_is a)).
    { intros a Ha. assert (Hcol : dependency_is_compatible_clause small_planner (column_is a) 1 = Ok (Some a)).
      { cbn. unfold operand_attnum, AttrNumberIsForUserDefinedAttr. cbn. by destruct (Z.ltb_spec 0 a); [|lia]. }
      unfold clause_ok, clause_column. cbn [relid small_rel]. rewrite Hcol. unfold MaxHeapAttributeNumber.
      split; [lia|]. left. by eexists. }
    apply Forall_cons_2; [apply Hc; lia|]. apply Forall_cons_2; [apply Hc; lia|]. constructor.
  - constructor; [|done]. split.
    + done.
    + apply keys12_rep.
    + unfold MaxHeapAttributeNumber, X12. set_solver by lia.
    + done.
    + apply deps12_wf.
    + exact (fo_deps _ func12_ok).
  - done.
  - unfold len. cbn. lia.
  - apply sl_empty.
  - exists ds, s, e'. exact (conj H1 (conj H2 (conj H3 H4))).
Defined.

Example small_estimate :
  exists e, dependencies_clauselist_selectivity true small_planner (small_rel []) [column_is 1; column_is 2] None =
    Ok (half, e).
Proof. eexists. vm_compute. reflexivity. Qed.

(** * Duplicate expressions *)

(** How a clause is used: on a column, on an expression of the statistics, or
    not at all. *)
Inductive clause_use := UseColumn (a : Z) | UseExpr (e : Node) | UseNone.

Definition clause_uses (P : Planner) (rel : RelOptInfo) (c : Node) (u : clause_use) : Prop :=
  match u with
  | UseColumn a => dependency_is_compatible_clause P c (relid rel) = Ok (Some a) /\ 1 <= a <= MaxHeapAttributeNumber
  | UseExpr e => dependency_is_compatible_clause P c (relid rel) = Ok None /\
      dependency_is_compatible_expression P c (relid rel) (statlist rel) = Ok (Some (Some e))
  | UseNone => dependency_is_compatible_clause P c (relid rel) = Ok None /\
      dependency_is_compatible_expression P c (relid rel) (statlist rel) = Ok None
  end.

Section duplicates.
Context (P : Planner) (rel : RelOptInfo).
Context (Hsym : forall a b, equal P a b = true -> equal P b a = true).
Context (Htrans : forall a b c, equal P a b = true -> equal P b c = true -> equal P a c = true).
#[local] Set Default Proof Using "Type".

Lemma find_app_l {A} (f : A -> bool) l k :
  List.find f (l ++ k) = match List.find f l with Some x => Some x | None => List.find f k end.
Proof. induction l as [|x l IH]; [done|]. cbn. by destruct (f x). Qed.

Lemma expr_index_app ue x e :
  expr_index P (ue ++ [x]) e = match expr_index P ue e with
    | Some k => Some k
    | None => if equal P x e then Some (len ue) else None
    end.
Proof.
  unfold expr_index. rewrite imap_app, find_app_l. cbn. rewrite Nat.add_0_r.
  destruct (List.find _ (imap _ ue)) as [[k y]|]; [done|]. destruct (equal P x e); done.
Qed.

Lemma expr_index_range ue e k : expr_index P ue e = Some k -> 0 <= k < len ue.
Proof.
  induction ue as [|x ue IH] using rev_ind; [done|]. rewrite expr_index_app, len_app. change (len [x]) with 1.
  pose proof (len_nonneg ue). destruct (expr_index P ue e) as [j|].
  - intros [= ->]. specialize (IH eq_refl). lia.
  - destruct (equal P x e); [|done]. intros [= <-]. lia.
Qed.

(** Equal expressions have one place. *)
Lemma expr_index_equal ue e1 e2 : equal P e1 e2 = true -> expr_index P ue e1 = expr_index P ue e2.
Proof using Hsym Htrans.
  intros He. induction ue as [|x ue IH] using rev_ind; [done|]. rewrite !expr_index_app, IH.
  destruct (expr_index P ue e2); [done|].
  destruct (equal P x e1) eqn:E1, (equal P x e2) eqn:E2; try done; exfalso.
  - by rewrite (Htrans _ _ _ E1 He) in E2.
  - by rewrite (Htrans _ _ _ E2 (Hsym _ _ He)) in E1.
Qed.

(** One clause: its number is in range, and earlier places stay. *)
Lemma clause_attnum_wp c u ue :
  clause_uses P rel c u -> len ue < 2 ^ 15 - 1 ->
  wp (clause_attnum true P rel c ue) (fun '(a, ue') =>
    (a = 0 \/ 1 <= a <= MaxHeapAttributeNumber \/ - len ue' <= a < 0) /\
    len ue <= len ue' <= len ue + 1 /\
    (forall e k, expr_index P ue e = Some k -> expr_index P ue' e = Some k) /\
    match u with
    | UseExpr e => equal P e e = true -> exists k, expr_index P ue' e = Some k /\ a = - (k + 1)
    | _ => True
    end).
Proof.
  intros Hu Hl. pose proof (len_nonneg ue). unfold clause_attnum. destruct u as [a|e|]; destruct Hu as [-> Hu]; step_ok.
  - cbn. split; [by right; left|]. split; [lia|]. done.
  - rewrite Hu. step_ok. destruct (expr_index P ue e) as [k|] eqn:Ek.
    + pose proof (expr_index_range _ _ _ Ek). apply wp_Ok. rewrite i16_small by lia.
      split; [right; right; lia|]. split; [lia|]. split; [done|]. intros _. by exists k.
    + apply wp_Ok. rewrite i16_small, len_app by lia. change (len [e]) with 1.
      split; [right; right; lia|]. split; [lia|]. split.
      * intros e' k Hk. by rewrite expr_index_app, Hk.
      * intros Hr. exists (len ue). by rewrite expr_index_app, Ek, Hr.
  - rewrite Hu. step_ok. cbn. split; [by left|]. split; [lia|]. done.
Qed.

(** The numbering gives both clauses the number of one expression. *)
Lemma number_duplicates clauses e E (i1 i2 : nat) c1 c2 e1 e2 :
  (forall c, c ∈ clauses -> exists u, clause_uses P rel c u) -> len clauses <= 30000 ->
  set_rep e E -> (i1 < i2)%nat -> clauses !! i1 = Some c1 -> clauses !! i2 = Some c2 ->
  Z.of_nat i1 ∉ E -> Z.of_nat i2 ∉ E ->
  clause_uses P rel c1 (UseExpr e1) -> clause_uses P rel c2 (UseExpr e2) -> equal P e1 e2 = true ->
  wp (number_clauses true P rel clauses e) (fun '(la, ue) =>
    len la = len clauses /\ len ue <= len clauses /\
    Forall (fun a => a = 0 \/ 1 <= a <= MaxHeapAttributeNumber \/ - len ue <= a < 0) la /\
    exists k, 0 <= k < len ue /\ la !! i1 = Some (- (k + 1)) /\ la !! i2 = Some (- (k + 1))).
Proof using Hsym Htrans.
  intros Hall Hmax Hr Hlt H1 H2 HE1 HE2 Hu1 Hu2 He.
  assert (He11 : equal P e1 e1 = true) by (eapply Htrans; [exact He|by apply Hsym]).
  assert (He22 : equal P e2 e2 = true) by (eapply Htrans; [by apply Hsym|exact He]).
  pose proof (lookup_lt_Some _ _ _ H2) as Hb2. unfold number_clauses. apply wp_loop_state.
  apply (wp_for_up (fun j '(la, ue) => len la = j /\ len ue <= j /\
    Forall (fun a => a = 0 \/ 1 <= a <= MaxHeapAttributeNumber \/ - len ue <= a < 0) la /\
    (Z.of_nat i1 < j -> exists k, expr_index P ue e1 = Some k /\ la !! i1 = Some (- (k + 1))) /\
    (Z.of_nat i2 < j -> exists k, expr_index P ue e2 = Some k /\ la !! i2 = Some (- (k + 1)))));
    [apply len_nonneg|split; [done|]; split; [done|]; split; [constructor|lia]| |].
  - intros j [la ue] Hj (Hla & Hue & HF & HI1 & HI2).
    destruct (lookup_lt_is_Some_2 clauses (Z.to_nat j)) as [c Hc]; [unfold len in Hj; lia|].
    apply wp_bind, (wp_rd c); [lia|]. assert (getd c clauses j = c) as -> by (unfold getd; by rewrite Hc).
    rewrite (sl_member _ _ j Hr) by lia. step_ok.
    destruct (Hall c) as [u Hu]; [by eapply list_elem_of_lookup_2|].
    assert (Hu' : exists u, clause_uses P rel c u /\ (j = Z.of_nat i1 -> u = UseExpr e1) /\ (j = Z.of_nat i2 -> u = UseExpr e2)).
    { destruct (decide (j = Z.of_nat i1)) as [->|]; [|destruct (decide (j = Z.of_nat i2)) as [->|]].
      - rewrite Nat2Z.id, H1 in Hc. injection Hc as <-. exists (UseExpr e1). split; [done|]. split; [done|lia].
      - rewrite Nat2Z.id, H2 in Hc. injection Hc as <-. exists (UseExpr e2). split; [done|]. split; [lia|done].
      - by exists u. }
    clear u Hu. destruct Hu' as (u & Hu & Hj1 & Hj2).
    apply wp_bind. apply (wp_mono _ (fun '(a, ue') =>
      (a = 0 \/ 1 <= a <= MaxHeapAttributeNumber \/ - len ue' <= a < 0) /\ len ue <= len ue' <= len ue + 1 /\
      (forall e k, expr_index P ue e = Some k -> expr_index P ue' e = Some k) /\
      (j = Z.of_nat i1 -> exists k, expr_index P ue' e1 = Some k /\ a = - (k + 1)) /\
      (j = Z.of_nat i2 -> exists k, expr_index P ue' e2 = Some k /\ a = - (k + 1)))).
    { case_bool_decide.
      - cbn. split; [by left|]. split; [lia|]. split; [done|]. split; intros ->; done.
      - eapply wp_mono; [apply (clause_attnum_wp c u ue Hu); unfold len in *; lia|].
        intros [a ue'] (Ha & Hlen & Hst & Hx). split; [done|]. split; [done|]. split; [done|]. split.
        + intros Hj'. rewrite (Hj1 Hj') in Hx. by apply Hx.
        + intros Hj'. rewrite (Hj2 Hj') in Hx. by apply Hx. }
    intros [a ue'] (Ha & Hlen & Hst & Hx1 & Hx2). apply wp_Ok. rewrite len_app. change (len [a]) with 1.
    split; [lia|]. split; [lia|]. split; [|split].
    + apply Forall_app. split; [|by constructor]. eapply Forall_impl; [exact HF|]. cbv beta. lia.
    + intros Hi. destruct (decide (j = Z.of_nat i1)) as [Ej|].
      * destruct (Hx1 Ej) as (k & Hk & ->). exists k. split; [done|].
        rewrite lookup_app_r by (unfold len in Hla; lia). by replace (i1 - length la)%nat with 0%nat by (unfold len in Hla; lia).
      * destruct HI1 as (k & Hk & Hl); [lia|]. exists k. split; [by apply Hst|].
        rewrite lookup_app_l by (by eapply lookup_lt_Some). done.
    + intros Hi. destruct (decide (j = Z.of_nat i2)) as [Ej|].
      * destruct (Hx2 Ej) as (k & Hk & ->). exists k. split; [done|].
        rewrite lookup_app_r by (unfold len in Hla; lia). by replace (i2 - length la)%nat with 0%nat by (unfold len in Hla; lia).
      * destruct HI2 as (k & Hk & Hl); [lia|]. exists k. split; [by apply Hst|].
        rewrite lookup_app_l by (by eapply lookup_lt_Some). done.
  - intros [la ue] (Hla & Hue & HF & HI1 & HI2).
    destruct HI1 as (k1 & Hk1 & Hl1); [unfold len in *; lia|]. destruct HI2 as (k2 & Hk2 & Hl2); [unfold len in *; lia|].
    rewrite (expr_index_equal ue e1 e2 He), Hk2 in Hk1. injection Hk1 as <-.
    split; [done|]. split; [done|]. split; [done|]. exists k2. split; [by eapply expr_index_range|done].
Qed.

End duplicates.

(** The assertion's text. *)
Definition seen_before : string :=
  "TRAP: FailedAssertion(AttrNumberIsForUserDefinedAttr(list_attnums[i]) || !bms_is_member(attnum, clauses_attnums))".

(** The loop that shifts the numbers meets the second clause, or an earlier
    duplicate, and stops at the assertion. *)
Lemma offset_duplicate cnt la (i1 i2 : nat) a :
  0 < cnt <= 30000 -> Forall (fun a => a = 0 \/ 1 <= a <= MaxHeapAttributeNumber \/ - cnt <= a < 0) la ->
  (i1 < i2)%nat -> la !! i1 = Some a -> la !! i2 = Some a -> a < 0 ->
  offset_attnums true cnt (cnt + 1) la = UB seen_before.
Proof.
  intros Hcnt HF Hlt H1 H2 Ha. unfold offset_attnums, for_up.
  set (body := fun (i : Z) '(_, _) => _).
  assert (Hloop : forall n i l c X, 0 <= i <= Z.of_nat i2 -> Z.of_nat i2 < i + Z.of_nat n ->
    (forall j, (i <= Z.of_nat j) -> l !! j = la !! j) -> length l = length la ->
    set_rep c X -> (Z.of_nat i1 < i -> a + (cnt + 1) ∈ X) ->
    loop_up n i body (l, c) = UB seen_before).
  { induction n as [|n IH]; intros i l c X Hi Hn Hl Hlen Hr HX; [lia|]. cbn [loop_up]. unfold body at 2. cbv beta iota.
    pose proof (lookup_lt_Some _ _ _ H2) as Hb2.
    destruct (lookup_lt_is_Some_2 la (Z.to_nat i)) as [v Hv]; [lia|].
    assert (Hrd : rd l i = Ok v).
    { unfold rd. destruct (Z.leb_spec 0 i); [|lia]. rewrite Hl, Hv by lia. done. }
    rewrite Hrd. step_ok. pose proof (Forall_lookup_1 _ _ _ _ HF Hv) as Hrange. cbv beta in Hrange.
    assert (Hnext : i <> Z.of_nat i2 -> forall l' c' X', (forall j, (i + 1 <= Z.of_nat j) -> l' !! j = la !! j) ->
      length l' = length la -> set_rep c' X' -> (Z.of_nat i1 < i + 1 -> a + (cnt + 1) ∈ X') ->
      loop_up n (i + 1) body (l', c') = UB seen_before).
    { intros Hne l' c' X'. apply IH; lia. }
    unfold InvalidAttrNumber. destruct (Z.eqb_spec v 0) as [->|Hv0].
    { step_ok. apply (Hnext ltac:(intros ->; rewrite Nat2Z.id in Hv; simplify_eq; lia) _ _ X); [|done|done|].
      - intros j Hj. apply Hl. lia.
      - intros Hj. apply HX. destruct (decide (i = Z.of_nat i1)) as [->|]; [|lia]. rewrite Nat2Z.id in Hv. simplify_eq. lia. }
    unfold Assert. destruct (Z.leb_spec (- cnt) v), (Z.leb_spec v MaxHeapAttributeNumber); unfold MaxHeapAttributeNumber in *; try lia.
    step_ok. rewrite i16_small by lia. rewrite (sl_member _ _ (v + (cnt + 1)) Hr) by lia. step_ok.
    destruct (AttrNumberIsForUserDefinedAttr v || negb (bool_decide (v + (cnt + 1) ∈ X))) eqn:Eas; [|done].
    cbn [negb andb]. step_ok.
    assert (Hne : i <> Z.of_nat i2).
    { intros ->. rewrite Nat2Z.id in Hv. simplify_eq. unfold AttrNumberIsForUserDefinedAttr in Eas.
      destruct (Z.ltb_spec 0 a); [lia|]. rewrite bool_decide_true in Eas by (apply HX; lia). done. }
    unfold wr. destruct (Z.leb_spec 0 i), (Z.ltb_spec i (len l)); try (unfold len in *; lia). cbn [andb]. step_ok.
    destruct (sl_add _ _ (v + (cnt + 1)) Hr) as (c' & -> & Hr'); [lia|]. step_ok.
    apply (Hnext Hne _ _ ({[v + (cnt + 1)]} ∪ X)); [| |exact Hr'|].
    - intros j Hj. unfold upd. rewrite list_lookup_insert_ne by lia. apply Hl. lia.
    - unfold upd. by rewrite length_insert.
    - intros Hj. destruct (decide (i = Z.of_nat i1)) as [->|]; [|set_solver by lia].
      rewrite Nat2Z.id in Hv. simplify_eq. set_solver. }
  rewrite (Hloop _ 0 la None ∅); [done|lia| |done|done|apply sl_empty|lia].
  apply lookup_lt_Some in H2. unfold len. lia.
Qed.
(** C24. A comment says that a duplicate expression uses the same number, and
    the code that numbers the clauses does so; but the loop after it asserts
    that the number of an expression was not seen before. So whenever two
    clauses of the list that are not yet estimated, however different, are on
    equal expressions of the statistics (equality being symmetric and
    transitive), with any other clauses beside them, both get one number and a
    build with assertions stops there. *)
Theorem duplicate_expression_trips_assert P rel clauses e E (i1 i2 : nat) c1 c2 e1 e2 :
  (forall a b, equal P a b = true -> equal P b a = true) ->
  (forall a b c, equal P a b = true -> equal P b c = true -> equal P a c = true) ->
  (forall c, c ∈ clauses -> exists u, clause_uses P rel c u) -> len clauses <= 30000 ->
  set_rep e E -> (i1 < i2)%nat -> clauses !! i1 = Some c1 -> clauses !! i2 = Some c2 ->
  Z.of_nat i1 ∉ E -> Z.of_nat i2 ∉ E ->
  clause_uses P rel c1 (UseExpr e1) -> clause_uses P rel c2 (UseExpr e2) -> equal P e1 e2 = true ->
  inh rel && negb (partitioned rel) = false ->
  has_stats_of_kind (statlist rel) STATS_EXT_DEPENDENCIES = true ->
  (exists la ue a, number_clauses true P rel clauses e = Ok (la, ue) /\ la !! i1 = Some a /\ la !! i2 = Some a) /\
  dependencies_clauselist_selectivity true P rel clauses e = UB seen_before.
Proof.
  intros Hsym Htrans Hall Hmax Hr Hlt H1 H2 HE1 HE2 Hu1 Hu2 He Hinh Hk.
  pose proof (number_duplicates P rel Hsym Htrans clauses e E i1 i2 c1 c2 e1 e2 Hall Hmax Hr Hlt H1 H2 HE1 HE2 Hu1 Hu2 He) as Hn.
  apply wp_ok in Hn as ([la ue] & Hn & Hla & Hue & HF & k & Hk1 & Hl1 & Hl2).
  split; [by exists la, ue, (- (k + 1))|].
  unfold dependencies_clauselist_selectivity. rewrite Hinh, Hk. cbn [andb negb]. rewrite Hn. step_ok.
  unfold attnum_offset. destruct (Z.ltb_spec 0 (len ue)); [|lia]. rewrite i16_small by lia.
  by rewrite (offset_duplicate (len ue) la i1 i2 (- (k + 1))) by (done || lia).
Qed.

(** Two clauses on expression 5, written the two ways round, and a column. *)
Definition expression_is_too : Node := OpExpr 96 [OtherNode 0 []; OtherNode 5 []].

Lemma duplicate_expression_trips_assert_witness :
  (exists la ue a, number_clauses true small_planner (small_rel [OtherNode 5 []])
      [expression_is; column_is 1; expression_is_too] None = Ok (la, ue) /\
    la !! 0%nat = Some a /\ la !! 2%nat = Some a) /\
  dependencies_clauselist_selectivity true small_planner (small_rel [OtherNode 5 []])
    [expression_is; column_is 1; expression_is_too] None = UB seen_before.
Proof.
  apply (duplicate_expression_trips_assert small_planner (small_rel [OtherNode 5 []])
    [expression_is; column_is 1; expression_is_too] None ∅ 0 2 expression_is expression_is_too
    (OtherNode 5 []) (OtherNode 5 [])).
  - intros [] []; cbn; try done. by rewrite Z.eqb_sym.
  - intros [] [] []; cbn; try done. intros ->%Z.eqb_eq ->%Z.eqb_eq. apply Z.eqb_refl.
  - intros c Hc. rewrite !elem_of_cons, elem_of_nil in Hc. destruct Hc as [->|[->|[->|[]]]].
    + by exists (UseExpr (OtherNode 5 [])).
    + exists (UseColumn 1). by split.
    + by exists (UseExpr (OtherNode 5 [])).
  - vm_compute. congruence.
  - apply sl_empty.
  - lia.
  - reflexivity.
  - reflexivity.
  - set_solver.
  - set_solver.
  - split; vm_compute; reflexivity.
  - split; vm_compute; reflexivity.
  - reflexivity.
  - reflexivity.
  - reflexivity.
Defined.
