(* ===== verification/PgList.v ===== *)
(** The list package, backend/nodes/list.c and include/nodes/pg_list.h of
    src/postgresql/src.  A list is a header in a shared store with an expansible
    array of cells; operations change it in place, and two pointers to one
    header see the same list.

    A cell holds the value last stored in it, or nothing ([None]) if it was never
    written; a list is read at the type it was written at.  [NIL] is [None].  A
    pointer to a cell is the cell's index.  [equal] and [copyObjectImpl] are
    parameters.  The code is that of a build without DEBUG_LIST_MEMORY_USAGE. *)
From stdpp Require Import gmap.
From S2P Require Import Prelude.
From S2P Require Import BitUtils.
From S2P Require Import SortTemplate.
From S2P Require Import BinaryHeap.
From S2P Require Import ExtStats.
Open Scope Z_scope.

Inductive NodeTag := T_List | T_IntList | T_OidList.

#[export] Instance NodeTag_eq_dec : EqDecision NodeTag.
Proof. solve_decision. Defined.

Record List := {
  type : NodeTag;
  length : Z;
  max_length : Z;
  elements : list (option Z);
  separate : bool          (** [elements != initial_elements] *)
}.

(** The lists that are allocated, the next free address, and the other chunks
    of memory that list_free_deep may release. *)
Record Heap := { lists : gmap Z List; next : Z; chunks : gset Z }.

(** * Code that changes the store *)
Definition L (A : Type) : Type := Heap -> res (A * Heap).

#[export] Instance L_ret : MRet L := fun A a h => Ok (a, h).
#[export] Instance L_bind : MBind L := fun A B k m h => '(a, h) ← m h; k a h.

Definition lift {A} (m : res A) : L A := fun h => a ← m; Ok (a, h).

Definition load (p : Z) : L List := fun h =>
  match lists h !! p with Some d => Ok (d, h) | None => UB "use of freed memory" end.

Definition store (p : Z) (d : List) : L unit := fun h =>
  match lists h !! p with
  | Some _ => Ok (tt, {| lists := <[p := d]> (lists h); next := next h; chunks := chunks h |})
  | None => UB "use of freed memory"
  end.

Definition alloc (d : List) : L Z := fun h =>
  Ok (next h, {| lists := <[next h := d]> (lists h); next := next h + 1; chunks := chunks h |}).

Definition pfree_list (p : Z) : L unit := fun h =>
  match lists h !! p with
  | Some _ => Ok (tt, {| lists := delete p (lists h); next := next h; chunks := chunks h |})
  | None => UB "use of freed memory"
  end.

Definition pfree (p : Z) : L unit := fun h =>
  if decide (p ∈ chunks h)
  then Ok (tt, {| lists := lists h; next := next h; chunks := chunks h ∖ {[p]} |})
  else UB "pfree of a pointer that is not allocated".

(** [palloc] of a size. *)
Definition check_size (size : Z) : L unit := fun h =>
  if MaxAllocSize <? u64 size then Err "invalid memory alloc request size" else Ok (tt, h).

(** [n] cells from [src] to [dst] of one array, and from another array. *)
Definition memmove (els : list (option Z)) (dst src n : Z) : res (list (option Z)) :=
  if (0 <=? dst) && (0 <=? src) && (0 <=? n) && (dst + n <=? len els) && (src + n <=? len els)
  then Ok (take (Z.to_nat dst) els ++ take (Z.to_nat n) (drop (Z.to_nat src) els) ++ drop (Z.to_nat (dst + n)) els)
  else UB "memmove outside the array".

Definition memcpy (els : list (option Z)) (dst : Z) (els' : list (option Z)) (src n : Z) : res (list (option Z)) :=
  if (0 <=? dst) && (0 <=? src) && (0 <=? n) && (dst + n <=? len els) && (src + n <=? len els')
  then Ok (take (Z.to_nat dst) els ++ take (Z.to_nat n) (drop (Z.to_nat src) els') ++ drop (Z.to_nat (dst + n)) els)
  else UB "memcpy outside the array".

Definition with_elements (d : List) (n : Z) (els : list (option Z)) : List :=
  {| type := type d; length := n; max_length := max_length d; elements := els; separate := separate d |}.

(** [sizeof] of a cell and of the header, on a 64-bit platform. *)
Definition sizeof_ListCell : Z := 8.
Definition offsetof_initial_elements : Z := 24.
Definition LIST_HEADER_OVERHEAD : Z := (offsetof_initial_elements - 1) / sizeof_ListCell + 1.

Section lists.
Context (cassert : bool) (equal : Z -> Z -> bool) (copyObjectImpl : Z -> L Z).

Definition Assert (b : bool) (what : string) : L unit := lift (ExtStats.Assert cassert b what).

(** * Checks *)
Definition IsList (tag : NodeTag) (l : option Z) : L bool :=
  match l with
  | None => mret true
  | Some p => d ← load p; mret (bool_decide (type d = tag))
  end.

Definition check_list_invariants (l : option Z) : L unit :=
  if cassert then
    match l with
    | None => mret tt
    | Some p =>
        d ← load p;
        Assert (0 <? length d) "list->length > 0";;
        Assert (length d <=? max_length d) "list->length <= list->max_length"
    end
  else mret tt.

Definition assert_list (tag : NodeTag) (l : option Z) : L unit :=
  if cassert then b ← IsList tag l; Assert b "IsPointerList(list)" else mret tt.

(** * Allocation *)
Definition new_list (type : NodeTag) (min_size : Z) : L Z :=
  Assert (0 <? min_size) "min_size > 0";;
  n ← lift (pg_nextpower2_32 (u32 (Z.max 8 (i32 (min_size + LIST_HEADER_OVERHEAD)))));
  let max_size := i32 (i32 n - LIST_HEADER_OVERHEAD) in
  check_size (offsetof_initial_elements + max_size * sizeof_ListCell);;
  alloc {| type := type; length := min_size; max_length := max_size;
           elements := replicate (Z.to_nat max_size) None; separate := false |}.

Definition enlarge_list (p min_size : Z) : L unit :=
  d ← load p;
  Assert (max_length d <? min_size) "min_size > list->max_length";;
  n ← lift (pg_nextpower2_32 (u32 (Z.max 16 min_size)));
  let new_max_len := i32 n in
  check_size (new_max_len * sizeof_ListCell);;
  let els := if separate d then elements d else take (Z.to_nat (length d)) (elements d) in
  store p {| type := type d; length := length d; max_length := new_max_len;
             elements := els ++ replicate (Z.to_nat (new_max_len - len els)) None; separate := true |}.

(** Room for one more cell. *)
Definition make_room (p : Z) : L unit :=
  d ← load p;
  if max_length d <=? length d then enlarge_list p (i32 (length d + 1)) else mret tt.

Definition new_head_cell (p : Z) : L unit :=
  make_room p;;
  d ← load p;
  els ← lift (memmove (elements d) 1 0 (length d));
  store p (with_elements d (i32 (length d + 1)) els).

Definition new_tail_cell (p : Z) : L unit :=
  make_room p;;
  d ← load p;
  store p (with_elements d (i32 (length d + 1)) (elements d)).

(** The new cell is at [pos]. *)
Definition insert_new_cell (p pos : Z) : L unit :=
  d ← load p;
  Assert ((0 <=? pos) && (pos <=? length d)) "pos >= 0 && pos <= list->length";;
  make_room p;;
  d ← load p;
  els ← (if pos <? length d then lift (memmove (elements d) (pos + 1) pos (length d - pos))
         else mret (elements d));
  store p (with_elements d (i32 (length d + 1)) els).

Definition set_cell (p i v : Z) : L unit :=
  d ← load p;
  els ← lift (wr (elements d) i (Some v));
  store p (with_elements d (length d) els).

(** * Building *)

(** [list_make1_impl] to [list_make5_impl], on the list of their data. *)
Definition list_make_impl (t : NodeTag) (datums : list Z) : L (option Z) :=
  p ← new_list t (len datums);
  d ← load p;
  els ← lift (memcpy (elements d) 0 (Some <$> datums) 0 (len datums));
  store p (with_elements d (length d) els);;
  check_list_invariants (Some p);;
  mret (Some p).

Definition list_make1_impl t x1 := list_make_impl t [x1].
Definition list_make2_impl t x1 x2 := list_make_impl t [x1; x2].
Definition list_make3_impl t x1 x2 x3 := list_make_impl t [x1; x2; x3].
Definition list_make4_impl t x1 x2 x3 x4 := list_make_impl t [x1; x2; x3; x4].
Definition list_make5_impl t x1 x2 x3 x4 x5 := list_make_impl t [x1; x2; x3; x4; x5].

Definition append_cell (tag : NodeTag) (l : option Z) (datum : Z) : L (option Z) :=
  assert_list tag l;;
  p ← match l with None => new_list tag 1 | Some p => new_tail_cell p;; mret p end;
  d ← load p;
  set_cell p (length d - 1) datum;;
  check_list_invariants (Some p);;
  mret (Some p).

Definition lappend := append_cell T_List.
Definition lappend_int := append_cell T_IntList.
Definition lappend_oid := append_cell T_OidList.

Definition insert_cell (tag : NodeTag) (l : option Z) (pos datum : Z) : L (option Z) :=
  match l with
  | None => Assert (pos =? 0) "pos == 0";; list_make1_impl tag datum
  | Some p =>
      assert_list tag l;;
      insert_new_cell p pos;;
      set_cell p pos datum;;
      check_list_invariants l;;
      mret l
  end.

Definition list_insert_nth := insert_cell T_List.
Definition list_insert_nth_int := insert_cell T_IntList.
Definition list_insert_nth_oid := insert_cell T_OidList.

Definition cons_cell (tag : NodeTag) (datum : Z) (l : option Z) : L (option Z) :=
  assert_list tag l;;
  p ← match l with None => new_list tag 1 | Some p => new_head_cell p;; mret p end;
  set_cell p 0 datum;;
  check_list_invariants (Some p);;
  mret (Some p).

Definition lcons := cons_cell T_List.
Definition lcons_int := cons_cell T_IntList.
Definition lcons_oid := cons_cell T_OidList.

(** * Copies *)
Definition list_length (l : option Z) : L Z :=
  match l with None => mret 0 | Some p => d ← load p; mret (length d) end.

Definition list_copy (oldlist : option Z) : L (option Z) :=
  match oldlist with
  | None => mret None
  | Some q =>
      d ← load q;
      p ← new_list (type d) (length d);
      d ← load q;
      e ← load p;
      els ← lift (memcpy (elements e) 0 (elements d) 0 (length e));
      store p (with_elements e (length e) els);;
      check_list_invariants (Some p);;
      mret (Some p)
  end.

Definition list_copy_tail (oldlist : option Z) (nskip : Z) : L (option Z) :=
  let nskip := if nskip <? 0 then 0 else nskip in
  match oldlist with
  | None => mret None
  | Some q =>
      d ← load q;
      if length d <=? nskip then mret None
      else
        p ← new_list (type d) (i32 (length d - nskip));
        d ← load q;
        e ← load p;
        els ← lift (memcpy (elements e) 0 (elements d) nskip (length e));
        store p (with_elements e (length e) els);;
        check_list_invariants (Some p);;
        mret (Some p)
  end.

(** * Concatenation and truncation *)
Definition assert_same_type (p q : Z) : L unit :=
  d ← load p; e ← load q; Assert (bool_decide (type d = type e)) "list1->type == list2->type".

Definition list_concat (list1 list2 : option Z) : L (option Z) :=
  match list1, list2 with
  | None, _ => list_copy list2
  | _, None => mret list1
  | Some p, Some q =>
      assert_same_type p q;;
      d ← load p;
      e ← load q;
      let new_len := i32 (length d + length e) in
      (if max_length d <? new_len then enlarge_list p new_len else mret tt);;
      d ← load p;
      e ← load q;
      els ← lift (memcpy (elements d) (length d) (elements e) 0 (length e));
      store p (with_elements d new_len els);;
      check_list_invariants list1;;
      mret list1
  end.

Definition list_concat_copy (list1 list2 : option Z) : L (option Z) :=
  match list1, list2 with
  | None, _ => list_copy list2
  | _, None => list_copy list1
  | Some p, Some q =>
      assert_same_type p q;;
      d ← load p;
      e ← load q;
      r ← new_list (type d) (i32 (length d + length e));
      x ← load r;
      els ← lift (memcpy (elements x) 0 (elements d) 0 (length d));
      els ← lift (memcpy els (length d) (elements e) 0 (length e));
      store r (with_elements x (length x) els);;
      check_list_invariants (Some r);;
      mret (Some r)
  end.

Definition list_truncate (l : option Z) (new_size : Z) : L (option Z) :=
  if new_size <=? 0 then mret None
  else
    n ← list_length l;
    match l with
    | Some p => if new_size <? n then d ← load p; store p (with_elements d new_size (elements d));; mret l else mret l
    | None => mret l
    end.

(** * Iteration *)

(** The value of a cell. *)
Definition lfirst (p i : Z) : L Z :=
  d ← load p;
  c ← lift (rd (elements d) i);
  lift (match c with Some v => Ok v | None => UB "indeterminate value" end).

(** [foreach]: the length of the list is read on each turn; [inr] leaves the
    function. *)
Fixpoint foreach_from {S R} (fuel : nat) (p i : Z) (body : Z -> Z -> S -> L (S + R)) (s : S) : L (S + R) :=
  d ← load p;
  if i <? length d then
    match fuel with
    | O => lift (UB "fuel")
    | Datatypes.S fuel =>
        v ← lfirst p i;
        o ← body i v s;
        match o with
        | inl s => foreach_from fuel p (i + 1) body s
        | inr r => mret (inr r)
        end
    end
  else mret (inl s).

Definition foreach {S R} (l : option Z) (body : Z -> Z -> S -> L (S + R)) (s : S) : L (S + R) :=
  match l with
  | None => mret (inl s)
  | Some p => n ← list_length l; foreach_from (Z.to_nat n) p 0 body s
  end.

(** * Membership *)
Definition member_cell (tag : NodeTag) (eq : Z -> Z -> bool) (l : option Z) (datum : Z) : L bool :=
  assert_list tag l;;
  check_list_invariants l;;
  o ← foreach l (fun _ v (_ : unit) => mret (if eq v datum then inr true else inl tt)) tt;
  mret (match o with inl _ => false | inr b => b end).

Definition list_member := member_cell T_List equal.
Definition list_member_ptr := member_cell T_List Z.eqb.
Definition list_member_int := member_cell T_IntList Z.eqb.
Definition list_member_oid := member_cell T_OidList Z.eqb.

(** * Deletion *)
Definition list_free_private (l : option Z) (deep : bool) : L unit :=
  match l with
  | None => mret tt
  | Some p =>
      check_list_invariants l;;
      d ← load p;
      (if (deep : bool) then
         _ ← foreach_from (R := Empty_set) (Z.to_nat (length d)) p 0 (fun _ v (_ : unit) => pfree v;; mret (inl tt)) tt; mret tt
       else mret tt);;
      pfree_list p
  end.

Definition list_free (l : option Z) : L unit := list_free_private l false.
Definition list_free_deep (l : option Z) : L unit := assert_list T_List l;; list_free_private l true.

Definition list_delete_nth_cell (p n : Z) : L (option Z) :=
  check_list_invariants (Some p);;
  d ← load p;
  Assert ((0 <=? n) && (n <? length d)) "n >= 0 && n < list->length";;
  if length d =? 1 then list_free (Some p);; mret None
  else
    els ← lift (memmove (elements d) n (n + 1) (length d - 1 - n));
    store p (with_elements d (length d - 1) els);;
    mret (Some p).

(** [cell] is the index of the cell. *)
Definition list_delete_cell (p cell : Z) : L (option Z) := list_delete_nth_cell p cell.

Definition delete_cell (tag : NodeTag) (eq : Z -> Z -> bool) (l : option Z) (datum : Z) : L (option Z) :=
  assert_list tag l;;
  check_list_invariants l;;
  o ← foreach l (fun i v (_ : unit) =>
        match l with
        | Some p => if eq v datum then r ← list_delete_cell p i; mret (inr r) else mret (inl tt)
        | None => mret (inl tt)
        end) tt;
  mret (match o with inl _ => l | inr r => r end).

Definition list_delete := delete_cell T_List equal.
Definition list_delete_ptr := delete_cell T_List Z.eqb.
Definition list_delete_int := delete_cell T_IntList Z.eqb.
Definition list_delete_oid := delete_cell T_OidList Z.eqb.

Definition list_delete_first (l : option Z) : L (option Z) :=
  check_list_invariants l;;
  match l with None => mret None | Some p => list_delete_nth_cell p 0 end.

Definition list_delete_last (l : option Z) : L (option Z) :=
  check_list_invariants l;;
  match l with
  | None => mret None
  | Some p =>
      n ← list_length l;
      if n <=? 1 then list_free l;; mret None else list_truncate l (n - 1)
  end.

Definition list_delete_first_n (l : option Z) (n : Z) : L (option Z) :=
  check_list_invariants l;;
  if n <=? 0 then mret l
  else
    k ← list_length l;
    if k <=? n then list_free l;; mret None
    else match l with
    | None => mret None
    | Some p =>
        d ← load p;
        els ← lift (memmove (elements d) 0 n (length d - n));
        store p (with_elements d (length d - n) els);;
        mret l
    end.

(** [foreach(cell, lst) if (test) lst = foreach_delete_current(lst, cell)]:
    the macro steps the loop's index back and gives the loop the list that the
    deletion returns. *)
Fixpoint foreach_delete (fuel : nat) (test : Z -> bool) (l : option Z) (i : Z) : L (option Z) :=
  match l with
  | None => mret None
  | Some p =>
      d ← load p;
      if i <? length d then
        match fuel with
        | O => lift (UB "fuel")
        | S fuel =>
            v ← lfirst p i;
            if test v then
              l ← list_delete_cell p i;
              foreach_delete fuel test l (i - 1 + 1)
            else foreach_delete fuel test l (i + 1)
        end
      else mret l
  end.

(** * Lists as sets *)

(** Append the elements of a list that pass a test, which may depend on the
    list built so far. *)
Definition append_if (tag : NodeTag) (test : option Z -> Z -> L bool) (from : option Z) (result : option Z)
  : L (option Z) :=
  o ← foreach (R := Empty_set) from (fun _ v result =>
        b ← test result v;
        if (b : bool) then r ← append_cell tag result v; mret (inl r) else mret (inl result)) result;
  match o with
  | inl result => check_list_invariants result;; mret result
  | inr e => match (e : Empty_set) with end
  end.

Definition not_member (tag : NodeTag) (eq : Z -> Z -> bool) (l : option Z) (v : Z) : L bool :=
  b ← member_cell tag eq l v; mret (negb b).

Definition union_lists (tag : NodeTag) (eq : Z -> Z -> bool) (list1 list2 : option Z) : L (option Z) :=
  assert_list tag list1;;
  assert_list tag list2;;
  result ← list_copy list1;
  append_if tag (fun result v => not_member tag eq result v) list2 result.

Definition list_union := union_lists T_List equal.
Definition list_union_ptr := union_lists T_List Z.eqb.
Definition list_union_int := union_lists T_IntList Z.eqb.
Definition list_union_oid := union_lists T_OidList Z.eqb.

Definition intersect_lists (tag : NodeTag) (eq : Z -> Z -> bool) (list1 list2 : option Z) : L (option Z) :=
  match list1, list2 with
  | None, _ | _, None => mret None
  | _, _ =>
      assert_list tag list1;;
      assert_list tag list2;;
      append_if tag (fun _ v => member_cell tag eq list2 v) list1 None
  end.

Definition list_intersection := intersect_lists T_List equal.
Definition list_intersection_int := intersect_lists T_IntList Z.eqb.

Definition subtract_lists (tag : NodeTag) (eq : Z -> Z -> bool) (list1 list2 : option Z) : L (option Z) :=
  assert_list tag list1;;
  assert_list tag list2;;
  match list2 with
  | None => list_copy list1
  | _ => append_if tag (fun _ v => not_member tag eq list2 v) list1 None
  end.

Definition list_difference := subtract_lists T_List equal.
Definition list_difference_ptr := subtract_lists T_List Z.eqb.
Definition list_difference_int := subtract_lists T_IntList Z.eqb.
Definition list_difference_oid := subtract_lists T_OidList Z.eqb.

Definition append_unique (tag : NodeTag) (eq : Z -> Z -> bool) (l : option Z) (datum : Z) : L (option Z) :=
  b ← member_cell tag eq l datum;
  if (b : bool) then mret l else append_cell tag l datum.

Definition list_append_unique := append_unique T_List equal.
Definition list_append_unique_ptr := append_unique T_List Z.eqb.
Definition list_append_unique_int := append_unique T_IntList Z.eqb.
Definition list_append_unique_oid := append_unique T_OidList Z.eqb.

Definition concat_unique (tag : NodeTag) (eq : Z -> Z -> bool) (list1 list2 : option Z) : L (option Z) :=
  assert_list tag list1;;
  assert_list tag list2;;
  append_if tag (fun list1 v => not_member tag eq list1 v) list2 list1.

Definition list_concat_unique := concat_unique T_List equal.
Definition list_concat_unique_ptr := concat_unique T_List Z.eqb.
Definition list_concat_unique_int := concat_unique T_IntList Z.eqb.
Definition list_concat_unique_oid := concat_unique T_OidList Z.eqb.

(** Drop adjacent duplicates: [i] is the last cell kept. *)
Definition list_deduplicate_oid (l : option Z) : L unit :=
  assert_list T_OidList l;;
  n ← list_length l;
  match l with
  | Some p =>
      if 1 <? n then
        d ← load p;
        '(els, i) ← lift (loop_state (for_up 1 n (fun j '(els, i) =>
          x ← rd els i;
          y ← rd els j;
          if bool_decide (x = y) then Ok (inl (els, i))
          else els ← wr els (i + 1) y; Ok (inl (els, i + 1))) (elements d, 0)));
        store p (with_elements d (i + 1) els)
      else mret tt
  | None => mret tt
  end;;
  check_list_invariants l.

Definition list_copy_deep (oldlist : option Z) : L (option Z) :=
  match oldlist with
  | None => mret None
  | Some q =>
      d ← load q;
      Assert (bool_decide (type d = T_List)) "IsA(oldlist, List)";;
      p ← new_list (type d) (length d);
      _ ← foreach_from (R := Empty_set) (Z.to_nat (length d)) q 0
            (fun i v (_ : unit) => c ← copyObjectImpl v; set_cell p i c;; mret (inl tt)) tt;
      check_list_invariants (Some p);;
      mret (Some p)
  end.

(** * Sorting *)
Definition list_sort (l : option Z) (cmp : Z -> Z -> Z) : L unit :=
  check_list_invariants l;;
  n ← list_length l;
  match l with
  | Some p =>
      if 1 <? n then
        d ← load p;
        els ← lift (ST_SORT (fun a b => cmp (default 0 a) (default 0 b)) (frames_for n) (elements d) 0 n);
        store p (with_elements d (length d) els)
      else mret tt
  | None => mret tt
  end.

Definition list_int_cmp (v1 v2 : Z) : Z := if v1 <? v2 then -1 else if v2 <? v1 then 1 else 0.
Definition list_oid_cmp (v1 v2 : Z) : Z := if v1 <? v2 then -1 else if v2 <? v1 then 1 else 0.

End lists.

(** * Runs on an empty store *)
Definition empty_heap : Heap := {| lists := ∅; next := 1; chunks := ∅ |}.

(** The contents of a list. *)
Definition contents (h : Heap) (l : option Z) : list Z :=
  match l with
  | None => []
  | Some p => match lists h !! p with
              | Some d => omap id (take (Z.to_nat (length d)) (elements d))
              | None => []
              end
  end.

Definition run {A} (m : L A) (f : A -> Heap -> list Z) : res (list Z) := '(a, h) ← m empty_heap; Ok (f a h).

Example sample_run :
  run (l ← list_make3_impl true T_IntList 5 3 4;
       l ← lappend_int true l 9;
       l ← lcons_int true 1 l;
       l ← list_insert_nth_int true l 2 7;
       l ← list_concat true l l;
       list_sort true l list_int_cmp;;
       mret l) (fun l h => contents h l) = Ok [1; 1; 3; 3; 4; 4; 5; 5; 7; 7; 9; 9].
Proof. vm_compute. reflexivity. Qed.

Example sample_delete :
  run (l ← list_make5_impl true T_IntList 1 2 3 4 6; foreach_delete true 5 Z.even l 0) (fun l h => contents h l) =
  Ok [1; 3].
Proof. vm_compute. reflexivity. Qed.
