(* ===== verification/PgListSpec.v ===== *)
(** The list package of PgList.v against mathematical lists: [rep h l tag xs]
    says that the list at [l] holds [xs].  Each operation is proved to give the
    right contents and to leave every other list of the store alone. *)
From stdpp Require Import gmap.
From S2P Require Import Prelude.
From S2P Require Import BitUtils.
From S2P Require Import SortTemplate.
From S2P Require Import SortProps.
From S2P Require Import BinaryHeap.
From S2P Require Import ExtStats.
From S2P Require Import PgList.
Open Scope Z_scope.
#[local] Set Default Proof Using "Type".

(** * A program logic for [L] *)
Definition wpl {A} (m : L A) (h : Heap) (Q : A -> Heap -> Prop) : Prop :=
  wp (m h) (fun '(a, h') => Q a h').

(** The store with one header replaced. *)
Definition hset (h : Heap) (p : Z) (d : List) : Heap :=
  {| lists := <[p := d]> (lists h); next := next h; chunks := chunks h |}.

Section rules.
Context {A B : Type}.

Lemma wpl_bind (m : L A) (k : A -> L B) h Q :
  wpl m h (fun a h' => wpl (k a) h' Q) -> wpl (m ≫= k) h Q.
Proof. unfold wpl, mbind, L_bind. intros H. apply wp_bind. eapply wp_mono; [exact H|]. by intros [a h']. Qed.

Lemma wpl_ret (a : A) h (Q : A -> Heap -> Prop) : Q a h -> wpl (mret a) h Q.
Proof. done. Qed.

Lemma wpl_lift (m : res A) h (Q : A -> Heap -> Prop) : wp m (fun a => Q a h) -> wpl (lift m) h Q.
Proof. unfold wpl, lift. intros H. apply wp_bind. by eapply wp_mono; [exact H|]. Qed.

Lemma wpl_mono (m : L A) h (Q Q' : A -> Heap -> Prop) :
  wpl m h Q -> (forall a h', Q a h' -> Q' a h') -> wpl m h Q'.
Proof. intros H HQ. eapply wp_mono; [exact H|]. intros [a h']. apply HQ. Qed.

End rules.

Lemma wpl_load h p d (Q : List -> Heap -> Prop) : lists h !! p = Some d -> Q d h -> wpl (load p) h Q.
Proof. unfold wpl, load. by intros ->. Qed.

Lemma wpl_store h p d0 d (Q : unit -> Heap -> Prop) :
  lists h !! p = Some d0 -> Q tt (hset h p d) -> wpl (store p d) h Q.
Proof. unfold wpl, store. by intros ->. Qed.

Lemma wpl_assert cassert b what h (Q : unit -> Heap -> Prop) :
  b = true -> Q tt h -> wpl (Assert cassert b what) h Q.
Proof.
  intros -> HQ. apply wpl_lift. unfold ExtStats.Assert. by rewrite andb_false_r.
Qed.

Lemma hset_hset h p d d' : hset (hset h p d) p d' = hset h p d'.
Proof. unfold hset. cbn. by rewrite insert_insert_eq. Qed.

Lemma hset_id h p d : lists h !! p = Some d -> hset h p d = h.
Proof. intros H. destruct h. unfold hset. cbn in *. by rewrite insert_id. Qed.

Lemma hset_lookup h p d : lists (hset h p d) !! p = Some d.
Proof. cbn. apply lookup_insert_eq. Qed.

#[export] Hint Resolve hset_lookup : pg.

(** * What a header holds *)
Definition MaxListLength : Z := 2 ^ 26.

Record holds (d : List) (tag : NodeTag) (xs : list Z) : Prop := {
  hd_type : type d = tag;
  hd_length : length d = len xs;
  hd_pos : 1 <= len xs;
  hd_cells : exists rest, elements d = (Some <$> xs) ++ rest;
  hd_max : max_length d = len (elements d);
  hd_bound : max_length d <= MaxListLength
}.

Definition rep (h : Heap) (l : option Z) (tag : NodeTag) (xs : list Z) : Prop :=
  match l with
  | None => xs = []
  | Some p => exists d, lists h !! p = Some d /\ holds d tag xs
  end.

(** Addresses are not reused. *)
Definition heap_ok (h : Heap) : Prop := forall p d, lists h !! p = Some d -> p < next h.

Definition ptr (l : option Z) : gset Z := match l with Some p => {[p]} | None => ∅ end.

(** Only the lists of [S] and new ones differ. *)
Record modifies (S : gset Z) (h h' : Heap) : Prop := {
  mo_ok : heap_ok h';
  mo_next : next h <= next h';
  mo_chunks : chunks h' = chunks h;
  mo_same : forall q, q ∉ S -> q < next h -> lists h' !! q = lists h !! q
}.

Lemma modifies_refl S h : heap_ok h -> modifies S h h.
Proof. intros. split; done || lia. Qed.

Lemma modifies_trans S S' h h1 h2 :
  modifies S h h1 -> modifies S' h1 h2 -> (forall q, q ∈ S' -> q ∈ S \/ next h <= q) -> modifies S h h2.
Proof.
  intros [] [] HS. split; [done|lia|congruence|]. intros q Hq Hlt.
  rewrite mo_same1, mo_same0; [done|done|done| |lia]. intros Hin. destruct (HS q Hin); [done|lia].
Qed.

Lemma modifies_hset h p d : heap_ok h -> p < next h -> modifies {[p]} h (hset h p d).
Proof.
  intros Hok Hp. split; cbn; [|lia|done|].
  - intros q e. cbn. destruct (decide (q = p)) as [->|]; [lia|]. rewrite lookup_insert_ne by done. apply Hok.
  - intros q Hq _. apply lookup_insert_ne. set_solver.
Qed.

Lemma rep_frame S h h' l tag xs :
  heap_ok h -> modifies S h h' -> rep h l tag xs -> ptr l ## S -> rep h' l tag xs.
Proof.
  intros Hok Hm Hr Hd. destruct l as [p|]; [|done]. destruct Hr as (d & Hp & Hh). exists d. split; [|done].
  rewrite (mo_same _ _ _ Hm); [done|set_solver|by apply (Hok p d)].
Qed.

Lemma rep_nil_inv h l tag : rep h l tag [] -> l = None.
Proof.
  destruct l as [p|]; [|done]. intros (d & _ & []). change (len []) with 0 in *. lia.
Qed.

Lemma rep_hset h p d tag xs : holds d tag xs -> rep (hset h p d) (Some p) tag xs.
Proof. intros. exists d. split; [apply hset_lookup|done]. Qed.

(** The effect of an operation on the list [l]: the result is [l] itself, NIL or
    a new list, it holds [ys], and no other list changes. *)
Record updates (h : Heap) (l : option Z) (tag : NodeTag) (ys : list Z) (l' : option Z) (h' : Heap) : Prop := {
  up_rep : rep h' l' tag ys;
  up_mod : modifies (ptr l) h h';
  up_ptr : forall p, l' = Some p -> l = Some p \/ next h <= p < next h'
}.

Lemma updates_hset h p d0 d tag ys :
  heap_ok h -> lists h !! p = Some d0 -> holds d tag ys -> updates h (Some p) tag ys (Some p) (hset h p d).
Proof.
  intros Hok Hp Hd. split; [by apply rep_hset|apply modifies_hset; [done|by apply (Hok p d0)]|].
  intros q [= ->]. by left.
Qed.

(** A new header. *)
Definition halloc (h : Heap) (d : List) : Heap :=
  {| lists := <[next h := d]> (lists h); next := next h + 1; chunks := chunks h |}.

Lemma halloc_lookup h d : lists (halloc h d) !! next h = Some d.
Proof. apply lookup_insert_eq. Qed.

Lemma halloc_hset h d d' : hset (halloc h d) (next h) d' = halloc h d'.
Proof. unfold hset, halloc. cbn. by rewrite insert_insert_eq. Qed.

Lemma halloc_old h d q : q < next h -> lists (halloc h d) !! q = lists h !! q.
Proof. intros. apply lookup_insert_ne. lia. Qed.

Lemma modifies_halloc S h d : heap_ok h -> modifies S h (halloc h d).
Proof.
  intros Hok. split; cbn; [|lia|done|].
  - intros q e. cbn. destruct (decide (q = next h)) as [->|]; [lia|].
    rewrite lookup_insert_ne by done. intros He. apply Hok in He. lia.
  - intros q _ Hq. by apply halloc_old.
Qed.

Lemma updates_halloc h l d tag ys :
  heap_ok h -> holds d tag ys -> updates h l tag ys (Some (next h)) (halloc h d).
Proof.
  intros Hok Hd. split; [|by apply modifies_halloc|].
  - exists d. split; [apply halloc_lookup|done].
  - intros q [= <-]. right. cbn. lia.
Qed.

Lemma updates_refl h l tag xs : heap_ok h -> rep h l tag xs -> updates h l tag xs l h.
Proof. intros. split; [done|by apply modifies_refl|]. intros p ->. by left. Qed.

(** Run one command. *)
Ltac wpl_step :=
  lazymatch goal with
  | |- wpl (mbind _ _) _ _ => apply wpl_bind
  | |- wpl (mret _) _ _ => apply wpl_ret
  | |- wpl (load _) _ _ => eapply wpl_load; [first [eassumption | apply hset_lookup | apply halloc_lookup]|]
  | |- wpl (store _ _) _ _ => eapply wpl_store; [first [eassumption | apply hset_lookup | apply halloc_lookup]|rewrite ?hset_hset, ?halloc_hset]
  | |- wpl (Assert _ _ _) _ _ => apply wpl_assert
  | |- wpl (lift _) _ _ => apply wpl_lift
  end.

Lemma len_cells (xs : list Z) : len (Some <$> xs) = len xs.
Proof. unfold len. by rewrite length_fmap. Qed.

(** The header with other cells. *)
Lemma holds_with d tag xs ys rest :
  holds d tag xs -> 1 <= len ys -> len ((Some <$> ys) ++ rest) = len (elements d) ->
  holds (with_elements d (len ys) ((Some <$> ys) ++ rest)) tag ys.
Proof. intros [] Hy Hl. split; cbn; [done|done|done|by exists rest|lia|done]. Qed.

(** * Moving cells *)
Section moves.
Implicit Types (a b r : list (option Z)).

Lemma take_len_app a b : take (Z.to_nat (len a)) (a ++ b) = a.
Proof. unfold len. by rewrite Nat2Z.id, take_app_length. Qed.

Lemma drop_len_app a b : drop (Z.to_nat (len a)) (a ++ b) = b.
Proof. unfold len. by rewrite Nat2Z.id, drop_app_length. Qed.

Lemma memmove_len els dst src n els' : memmove els dst src n = Ok els' -> len els' = len els.
Proof.
  unfold memmove. destruct (_ && _ && _ && _ && _) eqn:E; [|done]. intros [= <-].
  rewrite !andb_true_iff, !Z.leb_le in E. unfold len in *. rewrite !length_app, !length_take, !length_drop. lia.
Qed.

(** Make a hole at [len a]. *)
Lemma shift_right a b x r :
  exists y, memmove (a ++ b ++ x :: r) (len a + 1) (len a) (len b) = Ok (a ++ y :: b ++ r).
Proof.
  unfold memmove. rewrite !len_app, len_cons. pose proof (len_nonneg a). pose proof (len_nonneg b). pose proof (len_nonneg r).
  z_cases. rewrite drop_len_app, take_len_app.
  assert (Hr : drop (Z.to_nat (len a + 1 + len b)) (a ++ b ++ x :: r) = r).
  { replace (a ++ b ++ x :: r) with ((a ++ b ++ [x]) ++ r) by (by rewrite <- !app_assoc).
    replace (len a + 1 + len b) with (len (a ++ b ++ [x])) by (rewrite !len_app; change (len [x]) with 1; lia).
    apply drop_len_app. }
  rewrite Hr. assert (Ht : exists y, take (Z.to_nat (len a + 1)) (a ++ b ++ x :: r) = a ++ [y]).
  { destruct (b ++ x :: r) as [|y t] eqn:E; [by destruct b|]. exists y.
    replace (a ++ y :: t) with ((a ++ [y]) ++ t) by (by rewrite <- app_assoc).
    replace (len a + 1) with (len (a ++ [y])) by (by rewrite len_app). apply take_len_app. }
  destruct Ht as [y ->]. exists y. by rewrite <- app_assoc.
Qed.

(** Close the gap of the cells [g]. *)
Lemma shift_left a g b r :
  exists r', memmove (a ++ g ++ b ++ r) (len a) (len a + len g) (len b) = Ok (a ++ b ++ r').
Proof.
  unfold memmove. rewrite !len_app. pose proof (len_nonneg a). pose proof (len_nonneg b). pose proof (len_nonneg r).
  pose proof (len_nonneg g). z_cases. rewrite take_len_app.
  replace (a ++ g ++ b ++ r) with ((a ++ g) ++ b ++ r) by (by rewrite <- app_assoc).
  rewrite <- len_app, drop_len_app, take_len_app. by eexists.
Qed.

Lemma write_at a x b v : wr (a ++ x :: b) (len a) v = Ok (a ++ v :: b).
Proof.
  apply wp_eq, wp_wr; [rewrite len_app, len_cons; pose proof (len_nonneg a); pose proof (len_nonneg b); lia|].
  unfold upd, len. rewrite Nat2Z.id, insert_app_r_alt, Nat.sub_diag by lia. done.
Qed.

End moves.

Section operations.
Context (cassert : bool).

(** * Checks *)
Lemma check_spec h l tag xs (Q : unit -> Heap -> Prop) :
  rep h l tag xs -> Q tt h -> wpl (check_list_invariants cassert l) h Q.
Proof.
  intros Hr HQ. unfold check_list_invariants. destruct cassert; [|done]. destruct l as [p|]; [|done].
  destruct Hr as (d & Hp & []). wpl_step. wpl_step. wpl_step. wpl_step; [apply Z.ltb_lt; lia|].
  wpl_step; [|done]. destruct hd_cells0 as [rest E]. apply Z.leb_le. rewrite hd_max0, E, len_app, len_cells.
  pose proof (len_nonneg rest). lia.
Qed.

Lemma assert_list_spec h l tag xs (Q : unit -> Heap -> Prop) :
  rep h l tag xs -> Q tt h -> wpl (assert_list cassert tag l) h Q.
Proof.
  intros Hr HQ. unfold assert_list. destruct cassert; [|done]. destruct l as [p|].
  - destruct Hr as (d & Hp & []). wpl_step. unfold IsList. wpl_step. wpl_step. wpl_step. wpl_step; [|done].
    by apply bool_decide_eq_true.
  - wpl_step. unfold IsList. wpl_step. by wpl_step.
Qed.

(** * Allocation *)
Lemma pow2_le k n : 0 <= k -> 0 <= n -> 2 ^ k < 2 * 2 ^ n -> 2 ^ k <= 2 ^ n.
Proof.
  intros Hk Hn H. replace (2 * 2 ^ n) with (2 ^ (n + 1)) in H by (rewrite Z.pow_add_r by lia; lia).
  apply Z.pow_lt_mono_r_iff in H; [|lia|lia]. apply Z.pow_le_mono_r; lia.
Qed.

Lemma check_size_spec size h (Q : unit -> Heap -> Prop) :
  0 <= size <= MaxAllocSize -> Q tt h -> wpl (check_size size) h Q.
Proof.
  intros Hs HQ. unfold wpl, check_size. unfold MaxAllocSize in *. rewrite u64_small by lia.
  destruct (Z.ltb_spec 0x3fffffff size); [lia|done].
Qed.

Lemma new_list_spec h tag n (Q : Z -> Heap -> Prop) :
  1 <= n <= MaxListLength - LIST_HEADER_OVERHEAD ->
  (forall m, n <= m <= MaxListLength ->
     Q (next h) (halloc h {| type := tag; length := n; max_length := m;
                             elements := replicate (Z.to_nat m) None; separate := false |})) ->
  wpl (new_list cassert tag n) h Q.
Proof.
  intros Hn HQ. unfold new_list, MaxListLength in *. change LIST_HEADER_OVERHEAD with 3 in *.
  wpl_step. wpl_step; [apply Z.ltb_lt; lia|]. wpl_step. wpl_step.
  rewrite (i32_small (n + 3)) by lia. rewrite u32_small by lia.
  destruct (nextpower2_32_ok (Z.max 8 (n + 3))) as (k & -> & Hk & Hle); [lia|]. apply wp_Ok.
  assert (2 ^ k <= 2 ^ 26) by (apply pow2_le; lia).
  rewrite (i32_small (2 ^ k)) by lia. rewrite i32_small by lia. wpl_step.
  apply check_size_spec; [unfold offsetof_initial_elements, sizeof_ListCell, MaxAllocSize; lia|].
  apply HQ. lia.
Qed.

Lemma enlarge_spec h p d tag xs n (Q : unit -> Heap -> Prop) :
  lists h !! p = Some d -> holds d tag xs -> max_length d < n <= MaxListLength ->
  (forall d', holds d' tag xs -> n <= max_length d' -> Q tt (hset h p d')) ->
  wpl (enlarge_list cassert p n) h Q.
Proof.
  intros Hp [] Hn HQ. unfold enlarge_list, MaxListLength in *. destruct hd_cells0 as [rest E].
  assert (Hfit : len xs <= max_length d) by (rewrite hd_max0, E, len_app, len_cells; pose proof (len_nonneg rest); lia).
  wpl_step. wpl_step. wpl_step. wpl_step; [apply Z.ltb_lt; lia|]. wpl_step. wpl_step. rewrite u32_small by lia.
  destruct (nextpower2_32_ok (Z.max 16 n)) as (k & -> & Hk & Hle); [lia|]. apply wp_Ok.
  assert (2 ^ k <= 2 ^ 26) by (apply pow2_le; lia). rewrite i32_small by lia. wpl_step.
  apply check_size_spec; [unfold sizeof_ListCell, MaxAllocSize; lia|]. cbv zeta.
  wpl_step. apply HQ; [|cbn; lia].
  set (els := if separate d then elements d else take (Z.to_nat (length d)) (elements d)).
  assert (Hels : exists rest', els = (Some <$> xs) ++ rest' /\ len els <= max_length d).
  { unfold els. destruct (separate d).
    - exists rest. split; [done|lia].
    - exists []. rewrite app_nil_r. rewrite E, hd_length0. rewrite <- (len_cells xs). unfold len.
      rewrite Nat2Z.id, take_app_length. split; [done|]. unfold len in *. rewrite length_fmap. lia. }
  destruct Hels as (rest' & E' & Hlen). split; cbn; [done|done|done| | |unfold MaxListLength; lia].
  - exists (rest' ++ replicate (Z.to_nat (2 ^ k - len els)) None). by rewrite E', <- app_assoc.
  - rewrite len_app, len_replicate. pose proof (len_nonneg els). lia.
Qed.

Lemma make_room_spec h p d tag xs (Q : unit -> Heap -> Prop) :
  lists h !! p = Some d -> holds d tag xs -> len xs < MaxListLength ->
  (forall d', holds d' tag xs -> len xs < max_length d' -> Q tt (hset h p d')) ->
  wpl (make_room cassert p) h Q.
Proof.
  intros Hp Hh Hlt HQ. pose proof Hh as []. unfold make_room, MaxListLength in *. wpl_step. wpl_step.
  destruct (Z.leb_spec (max_length d) (length d)).
  - rewrite i32_small by lia. eapply enlarge_spec; [done|done|unfold MaxListLength; lia|]. intros d' Hd' Hmax. apply HQ; [done|lia].
  - wpl_step. rewrite <- (hset_id h p d Hp). apply HQ; [done|lia].
Qed.

(** * Adding one element *)

(** A header with room has a free cell behind its elements. *)
Lemma free_cell d tag xs :
  holds d tag xs -> len xs < max_length d -> exists x rest, elements d = (Some <$> xs) ++ x :: rest.
Proof.
  intros [] Hlt. destruct hd_cells0 as [[|x rest] E]; [|by exists x, rest].
  rewrite hd_max0, E, len_app, len_cells in Hlt. change (len []) with 0 in Hlt. lia.
Qed.

Lemma insert_room h p d tag xs ys pos (Q : unit -> Heap -> Prop) v :
  heap_ok h -> lists h !! p = Some d -> holds d tag (xs ++ ys) -> pos = len xs ->
  len (xs ++ ys) < MaxListLength ->
  (forall h', updates h (Some p) tag (xs ++ v :: ys) (Some p) h' -> Q tt h') ->
  wpl (insert_new_cell cassert p pos;; set_cell p pos v) h Q.
Proof.
  intros Hok Hp Hh -> Hlt HQ. pose proof Hh as []. unfold MaxListLength in *.
  pose proof (len_nonneg xs) as Hx0. pose proof (len_nonneg ys) as Hy0. rewrite len_app in *.
  wpl_step. unfold insert_new_cell. wpl_step. wpl_step. wpl_step. wpl_step; [z_cases|]. wpl_step.
  eapply make_room_spec; [done|done|unfold MaxListLength; rewrite len_app; lia|]. intros d' Hd' Hmax.
  wpl_step. wpl_step. destruct (free_cell _ _ _ Hd' Hmax) as (x & rest & E). pose proof (hd_length _ _ _ Hd') as Hl'.
  rewrite len_app in Hl'. rewrite fmap_app, <- app_assoc in E.
  wpl_step. apply (wpl_mono _ _ (fun els h' => h' = hset h p d' /\ exists y, els = (Some <$> xs) ++ y :: (Some <$> ys) ++ rest)).
  - destruct (Z.ltb_spec (len xs) (length d')).
    + wpl_step. rewrite E. replace (length d' - len xs) with (len (Some <$> ys)) by (rewrite len_cells; lia).
      rewrite <- (len_cells xs). destruct (shift_right (Some <$> xs) (Some <$> ys) x rest) as [y ->].
      apply wp_Ok. split; [done|by exists y].
    + wpl_step. split; [done|]. exists x. rewrite E. destruct ys; [done|]. rewrite len_cons in *. pose proof (len_nonneg ys). lia.
  - intros els h' [-> [y ->]]. wpl_step. rewrite i32_small by lia. unfold set_cell. wpl_step. wpl_step. wpl_step. wpl_step.
    cbn [elements with_elements length]. rewrite <- (len_cells xs), write_at. apply wp_Ok. wpl_step. apply HQ.
    eapply updates_hset; [done|done|].
    replace (length d' + 1) with (len (xs ++ v :: ys)) by (rewrite len_app, len_cons; lia).
    replace ((Some <$> xs) ++ Some v :: (Some <$> ys) ++ rest) with ((Some <$> xs ++ v :: ys) ++ rest)
      by (rewrite fmap_app, <- app_assoc; done).
    assert (Hlen : len (elements d') = len ((Some <$> xs ++ v :: ys) ++ rest)).
    { rewrite E. repeat rewrite ?len_app, ?len_cons, ?len_cells. lia. }
    pose proof Hd' as []. split; cbn; [done|done| |by exists rest|lia|done].
    rewrite len_app, len_cons. lia.
Qed.

(** The first cells of a new header filled in. *)
Lemma copy_prefix m (xs : list Z) rest :
  len xs <= m -> memcpy (replicate (Z.to_nat m) None) 0 ((Some <$> xs) ++ rest) 0 (len xs) =
  Ok ((Some <$> xs) ++ replicate (Z.to_nat (m - len xs)) None).
Proof.
  intros Hm. unfold memcpy. rewrite len_replicate, len_app, len_cells. pose proof (len_nonneg xs).
  pose proof (len_nonneg rest). z_cases.
  rewrite Z.add_0_l. change (Z.to_nat 0) with 0%nat. rewrite drop_0. rewrite <- (len_cells xs) at 1.
  rewrite take_len_app, drop_replicate. cbn [take app]. rewrite <- Z2Nat.inj_sub by done. done.
Qed.

Lemma fill_new m (xs : list Z) :
  len xs <= m -> memcpy (replicate (Z.to_nat m) None) 0 (Some <$> xs) 0 (len xs) =
  Ok ((Some <$> xs) ++ replicate (Z.to_nat (m - len xs)) None).
Proof. intros Hm. rewrite <- (copy_prefix m xs [] Hm). by rewrite app_nil_r. Qed.

Lemma holds_new tag m xs sep :
  1 <= len xs -> len xs <= m <= MaxListLength ->
  holds {| type := tag; length := len xs; max_length := m;
           elements := (Some <$> xs) ++ replicate (Z.to_nat (m - len xs)) None; separate := sep |} tag xs.
Proof.
  intros H1 Hm. split; cbn; [done|done|done|by eexists| |lia]. rewrite len_app, len_cells, len_replicate. lia.
Qed.

Lemma list_make_spec h tag xs (Q : option Z -> Heap -> Prop) :
  heap_ok h -> 1 <= len xs <= MaxListLength - LIST_HEADER_OVERHEAD ->
  (forall l' h', updates h None tag xs l' h' -> Q l' h') ->
  wpl (list_make_impl cassert tag xs) h Q.
Proof.
  intros Hok Hn HQ. unfold list_make_impl. wpl_step. apply new_list_spec; [done|]. intros m Hm.
  do 4 wpl_step. cbn [elements length]. rewrite fill_new by lia. apply wp_Ok. wpl_step. wpl_step.
  set (d' := with_elements _ _ _).
  assert (Hu : updates h None tag xs (Some (next h)) (halloc h d')).
  { apply updates_halloc; [done|]. apply (holds_new tag m xs false); [lia|done]. }
  wpl_step. eapply check_spec; [apply (up_rep _ _ _ _ _ _ Hu)|]. wpl_step. by apply HQ.
Qed.

(** The new list of an update may be used in a larger update. *)
Lemma append_spec h l tag xs v (Q : option Z -> Heap -> Prop) :
  heap_ok h -> rep h l tag xs -> len xs < MaxListLength ->
  (forall l' h', updates h l tag (xs ++ [v]) l' h' -> Q l' h') ->
  wpl (append_cell cassert tag l v) h Q.
Proof.
  intros Hok Hr Hlt HQ. unfold append_cell. wpl_step. eapply assert_list_spec; [done|]. destruct l as [p|].
  - destruct Hr as (d & Hp & Hh). pose proof Hh as []. unfold MaxListLength in *.
    wpl_step. wpl_step. unfold new_tail_cell. wpl_step.
    eapply make_room_spec; [done|done|done|]. intros d' Hd' Hmax. wpl_step. wpl_step. wpl_step. wpl_step.
    destruct (free_cell _ _ _ Hd' Hmax) as (x & rest & E). pose proof (hd_length _ _ _ Hd') as Hl'.
    rewrite i32_small by lia. wpl_step. wpl_step. wpl_step. unfold set_cell. wpl_step. wpl_step. wpl_step. wpl_step.
    cbn [elements with_elements length]. rewrite E. replace (length d' + 1 - 1) with (len (Some <$> xs)) by (rewrite len_cells; lia).
    rewrite write_at. apply wp_Ok. wpl_step.
    assert (Hnew : holds (with_elements (with_elements d' (length d' + 1) ((Some <$> xs) ++ x :: rest)) (length d' + 1) ((Some <$> xs) ++ Some v :: rest)) tag (xs ++ [v])).
    { pose proof Hd' as []. split; cbn; [done|rewrite len_app; change (len [v]) with 1; lia|rewrite len_app; change (len [v]) with 1; lia| | |done].
      - exists rest. by rewrite fmap_app, <- app_assoc.
      - rewrite hd_max1, E, !len_app, !len_cons. lia. }
    wpl_step. eapply check_spec; [by apply rep_hset|]. wpl_step. apply HQ. by eapply updates_hset.
  - cbn in Hr. subst xs. wpl_step. apply new_list_spec; [unfold MaxListLength; change LIST_HEADER_OVERHEAD with 3; lia|].
    intros m Hm. wpl_step. wpl_step. cbn [length]. wpl_step. unfold set_cell. do 4 wpl_step. cbn [elements length].
    replace (Z.to_nat m) with (S (Z.to_nat (m - 1))) by lia. cbn [replicate].
    assert (wr (None :: replicate (Z.to_nat (m - 1)) None) (1 - 1) (Some v) =
            Ok (Some v :: replicate (Z.to_nat (m - 1)) None)) as -> by apply (write_at [] None).
    apply wp_Ok. wpl_step.
    set (d' := with_elements _ _ _).
    assert (Hu : updates h None tag [v] (Some (next h)) (halloc h d')).
    { apply updates_halloc; [done|]. apply (holds_new tag m [v] false); [done|]. change (len [v]) with 1. lia. }
    wpl_step. eapply check_spec; [apply (up_rep _ _ _ _ _ _ Hu)|]. wpl_step. by apply HQ.
Qed.

Lemma cons_spec h l tag xs v (Q : option Z -> Heap -> Prop) :
  heap_ok h -> rep h l tag xs -> len xs < MaxListLength ->
  (forall l' h', updates h l tag (v :: xs) l' h' -> Q l' h') ->
  wpl (cons_cell cassert tag v l) h Q.
Proof.
  intros Hok Hr Hlt HQ. unfold cons_cell. wpl_step. eapply assert_list_spec; [done|]. destruct l as [p|].
  - destruct Hr as (d & Hp & Hh). unfold MaxListLength in *.
    wpl_step. wpl_step. unfold new_head_cell. wpl_step.
    eapply make_room_spec; [done|done|done|]. intros d' Hd' Hmax. do 4 wpl_step.
    destruct (free_cell _ _ _ Hd' Hmax) as (x & rest & E). pose proof (hd_length _ _ _ Hd') as Hl'. rewrite E.
    rewrite Hl', <- (len_cells xs). destruct (shift_right [] (Some <$> xs) x rest) as [y Hy]. cbn [app] in Hy.
    change (len [] + 1) with 1 in Hy. change (len []) with 0 in Hy. rewrite Hy. apply wp_Ok. wpl_step.
    pose proof (hd_pos _ _ _ Hd'). rewrite len_cells, i32_small by lia. wpl_step. wpl_step. unfold set_cell. do 4 wpl_step.
    cbn [elements with_elements length].
    assert (wr (y :: (Some <$> xs) ++ rest) 0 (Some v) = Ok (Some v :: (Some <$> xs) ++ rest)) as -> by apply (write_at [] y).
    apply wp_Ok. wpl_step. set (d2 := with_elements _ _ _).
    assert (Hnew : holds d2 tag (v :: xs)).
    { pose proof Hd' as []. split; cbn; [done|rewrite len_cons; lia|rewrite len_cons; lia|by exists rest| |done].
      rewrite hd_max0, E. repeat rewrite ?len_app, ?len_cons. lia. }
    wpl_step. eapply check_spec; [by apply rep_hset|]. wpl_step. apply HQ. by eapply updates_hset.
  - cbn in Hr. subst xs. wpl_step. apply new_list_spec; [unfold MaxListLength; change LIST_HEADER_OVERHEAD with 3; lia|].
    intros m Hm. wpl_step. unfold set_cell. do 4 wpl_step. cbn [elements length].
    replace (Z.to_nat m) with (S (Z.to_nat (m - 1))) by lia. cbn [replicate].
    assert (wr (None :: replicate (Z.to_nat (m - 1)) None) 0 (Some v) =
            Ok (Some v :: replicate (Z.to_nat (m - 1)) None)) as -> by apply (write_at [] None).
    apply wp_Ok. wpl_step. set (d' := with_elements _ _ _).
    assert (Hu : updates h None tag [v] (Some (next h)) (halloc h d')).
    { apply updates_halloc; [done|]. apply (holds_new tag m [v] false); [done|]. change (len [v]) with 1. lia. }
    wpl_step. eapply check_spec; [apply (up_rep _ _ _ _ _ _ Hu)|]. wpl_step. by apply HQ.
Qed.

Lemma insert_spec h l tag xs ys v (Q : option Z -> Heap -> Prop) :
  heap_ok h -> rep h l tag (xs ++ ys) -> len (xs ++ ys) < MaxListLength ->
  (forall l' h', updates h l tag (xs ++ v :: ys) l' h' -> Q l' h') ->
  wpl (insert_cell cassert tag l (len xs) v) h Q.
Proof.
  intros Hok Hr Hlt HQ. unfold insert_cell. destruct l as [p|].
  - wpl_step. eapply assert_list_spec; [done|]. destruct Hr as (d & Hp & Hh).
    pose proof (insert_room h p d tag xs ys (len xs) (fun _ h' => updates h (Some p) tag (xs ++ v :: ys) (Some p) h') v
      Hok Hp Hh eq_refl Hlt (fun h' H => H)) as Hw. unfold wpl, mbind, L_bind in Hw |- *.
    destruct (insert_new_cell cassert p (len xs) h) as [[[] h1]| |]; [|done|done]. cbn in Hw |- *.
    destruct (set_cell p (len xs) v h1) as [[[] h2]| |]; [|done|done]. cbn in Hw |- *.
    pose proof (check_spec h2 (Some p) tag (xs ++ v :: ys) (fun _ h' => h' = h2) (up_rep _ _ _ _ _ _ Hw) eq_refl) as Hc.
    unfold wpl in Hc. destruct (check_list_invariants cassert (Some p) h2) as [[[] h3]| |]; [|done|done]. cbn in Hc |- *.
    subst h3. by apply HQ.
  - cbn in Hr. apply app_nil in Hr as [-> ->]. wpl_step. wpl_step; [done|].
    apply (list_make_spec h tag [v]); [done| |done]. unfold MaxListLength. change LIST_HEADER_OVERHEAD with 3. change (len [v]) with 1. lia.
Qed.

(** * Copies *)
Lemma memcpy_shift els dst a b k n : len a = k -> memcpy els dst (a ++ b) k n = memcpy els dst b 0 n.
Proof.
  intros <-. unfold memcpy. rewrite drop_len_app, len_app. change (Z.to_nat 0) with 0%nat. rewrite drop_0.
  pose proof (len_nonneg a). z_cases; done.
Qed.

Lemma copy_tail_spec h l tag xs nskip (Q : option Z -> Heap -> Prop) :
  heap_ok h -> rep h l tag xs -> len xs - Z.max 0 nskip <= MaxListLength - LIST_HEADER_OVERHEAD ->
  (forall l' h', updates h None tag (drop (Z.to_nat nskip) xs) l' h' -> Q l' h') ->
  wpl (list_copy_tail cassert l nskip) h Q.
Proof.
  intros Hok Hr Hlen HQ. unfold list_copy_tail. destruct l as [q|].
  2:{ cbn in Hr. subst xs. wpl_step. apply HQ. rewrite drop_nil. by apply updates_refl. }
  destruct Hr as (d & Hq & Hh). pose proof Hh as []. destruct hd_cells0 as [rest E].
  set (k := if nskip <? 0 then 0 else nskip).
  assert (Hk : k = Z.max 0 nskip) by (unfold k; z_cases; lia). wpl_step. wpl_step.
  destruct (Z.leb_spec (length d) k).
  { wpl_step. apply HQ. rewrite drop_ge by (unfold len in *; lia). by apply (updates_refl h None). }
  assert (Hn : len (drop (Z.to_nat nskip) xs) = len xs - k) by (unfold len in *; rewrite length_drop; lia).
  unfold MaxListLength in *. change LIST_HEADER_OVERHEAD with 3 in *.
  assert (len xs <= 2 ^ 26) by (rewrite E, len_app, len_cells in hd_max0; pose proof (len_nonneg rest); lia).
  rewrite i32_small by lia. wpl_step. apply new_list_spec; [unfold MaxListLength; change LIST_HEADER_OVERHEAD with 3; lia|].
  intros m Hm. wpl_step. eapply wpl_load; [by rewrite halloc_old by (by apply (Hok q d))|]. do 4 wpl_step. cbn [elements length].
  assert (memcpy (replicate (Z.to_nat m) None) 0 (elements d) k (length d - k) =
    Ok ((Some <$> drop (Z.to_nat nskip) xs) ++ replicate (Z.to_nat (m - (length d - k))) None)) as ->.
  { rewrite hd_length0, <- Hn. rewrite <- (copy_prefix m (drop (Z.to_nat nskip) xs) rest) by lia.
    rewrite E, <- (take_drop (Z.to_nat nskip) xs) at 1. rewrite fmap_app, <- app_assoc.
    apply memcpy_shift. rewrite len_cells. unfold len. rewrite length_take. unfold len in *. lia. }
  apply wp_Ok. wpl_step. wpl_step. set (d' := with_elements _ _ _).
  assert (Hu : updates h None tag (drop (Z.to_nat nskip) xs) (Some (next h)) (halloc h d')).
  { apply updates_halloc; [done|]. unfold d', with_elements. cbn. rewrite hd_type0, hd_length0, <- Hn.
    apply holds_new; unfold MaxListLength in *; lia. }
  wpl_step. eapply check_spec; [apply (up_rep _ _ _ _ _ _ Hu)|]. wpl_step. by apply HQ.
Qed.

Lemma header_len d tag xs : holds d tag xs -> 1 <= len xs <= MaxListLength.
Proof.
  intros []. split; [done|]. destruct hd_cells0 as [rest E]. rewrite E, len_app, len_cells in hd_max0.
  pose proof (len_nonneg rest). lia.
Qed.

Lemma rep_len h l tag xs : rep h l tag xs -> len xs <= MaxListLength.
Proof.
  destruct l as [p|]; [intros (d & _ & Hh); by apply (header_len d tag)|]. cbn. intros ->. done.
Qed.

Lemma copy_spec h l tag xs (Q : option Z -> Heap -> Prop) :
  heap_ok h -> rep h l tag xs -> len xs <= MaxListLength - LIST_HEADER_OVERHEAD ->
  (forall l' h', updates h None tag xs l' h' -> Q l' h') ->
  wpl (list_copy cassert l) h Q.
Proof.
  intros Hok Hr Hlen HQ. assert (list_copy cassert l h = list_copy_tail cassert l 0 h) as He.
  { destruct l as [q|]; [|done]. destruct Hr as (d & Hq & Hh). pose proof (header_len _ _ _ Hh). pose proof Hh as [].
    assert (Hl : load q h = Ok (d, h)) by (unfold load; by rewrite Hq).
    unfold MaxListLength in *. cbv [list_copy list_copy_tail mbind L_bind]. rewrite Hl. cbn [res_bind].
    change (if 0 <? 0 then 0 else 0) with 0. destruct (Z.leb_spec (length d) 0); [lia|].
    rewrite Z.sub_0_r, i32_small by lia. done. }
  unfold wpl. rewrite He. apply (copy_tail_spec h l tag xs 0); [done|done| |].
  - unfold MaxListLength in *. change LIST_HEADER_OVERHEAD with 3 in *. lia.
  - intros l' h'. apply HQ.
Qed.

(** * Concatenation and truncation *)
Lemma concat_spec h l1 l2 tag xs ys (Q : option Z -> Heap -> Prop) :
  heap_ok h -> rep h l1 tag xs -> rep h l2 tag ys ->
  len (xs ++ ys) <= MaxListLength - match l1 with Some _ => 0 | None => LIST_HEADER_OVERHEAD end ->
  (forall l' h', updates h l1 tag (xs ++ ys) l' h' -> Q l' h') ->
  wpl (list_concat cassert l1 l2) h Q.
Proof.
  intros Hok H1 H2 Hlen HQ. destruct l1 as [p|].
  2:{ cbn in H1. subst xs. by apply (copy_spec h l2 tag ys). }
  destruct l2 as [q|].
  2:{ cbn in H2. subst ys. rewrite app_nil_r in *. unfold list_concat. wpl_step. apply HQ. by apply updates_refl. }
  destruct H1 as (d & Hp & Hd). destruct H2 as (e & Hq & He). pose proof (header_len _ _ _ Hd). pose proof (header_len _ _ _ He).
  pose proof (hd_length _ _ _ Hd) as Ld. pose proof (hd_length _ _ _ He) as Le. unfold MaxListLength in *. rewrite len_app in Hlen.
  cbn [list_concat]. wpl_step. unfold assert_same_type. do 4 wpl_step. wpl_step.
  { apply bool_decide_eq_true. by rewrite (hd_type _ _ _ Hd), (hd_type _ _ _ He). }
  do 4 wpl_step. rewrite i32_small by lia. wpl_step.
  apply (wpl_mono _ _ (fun _ h' => exists d', h' = hset h p d' /\ holds d' tag xs /\ len (xs ++ ys) <= max_length d')).
  { destruct (Z.ltb_spec (max_length d) (length d + length e)).
    - eapply enlarge_spec; [done|done|unfold MaxListLength; lia|]. intros d' Hd' Hm. exists d'. rewrite len_app. split_and!; [done|done|lia].
    - wpl_step. exists d. rewrite hset_id, len_app by done. split_and!; [done|done|lia]. }
  intros _ h' (d' & -> & Hd' & Hmax). rewrite len_app in Hmax.
  assert (He' : exists e', lists (hset h p d') !! q = Some e' /\ holds e' tag ys).
  { destruct (decide (q = p)) as [->|Hne].
    - exists d'. split; [apply hset_lookup|]. rewrite Hp in Hq. injection Hq as ->.
      pose proof He as []. pose proof Hd as []. destruct hd_cells0 as [r1 E1], hd_cells1 as [r2 E2].
      rewrite E1 in E2. apply app_inj_1 in E2 as [E2 _]; [|rewrite !length_fmap; unfold len in *; lia].
      apply (inj (fmap Some)) in E2. by subst.
    - exists e. split; [|done]. cbn. by rewrite lookup_insert_ne. }
  destruct He' as (e' & Hq' & He'). pose proof (hd_length _ _ _ Hd') as Ld'. pose proof (hd_length _ _ _ He') as Le'.
  wpl_step. wpl_step. wpl_step. wpl_step. wpl_step. wpl_step.
  pose proof Hd' as []. destruct hd_cells0 as [rest E]. destruct (hd_cells _ _ _ He') as [rest2 E2].
  assert (Hsplit : exists mid rest', rest = mid ++ rest' /\ len mid = len ys).
  { exists (take (Z.to_nat (len ys)) rest), (drop (Z.to_nat (len ys)) rest). rewrite take_drop. split; [done|].
    rewrite hd_max0, E, len_app, len_cells in Hmax. unfold len in *. rewrite length_take. lia. }
  destruct Hsplit as (mid & rest' & -> & Hmid).
  assert (memcpy (elements d') (length d') (elements e') 0 (length e') = Ok ((Some <$> xs ++ ys) ++ rest')) as ->.
  { rewrite E, E2, Ld', Le'. unfold memcpy. rewrite !len_app, !len_cells. pose proof (len_nonneg rest'). pose proof (len_nonneg rest2).
    z_cases. change (Z.to_nat 0) with 0%nat. rewrite drop_0. rewrite <- (len_cells xs), take_len_app, <- (len_cells ys), take_len_app.
    rewrite (len_cells ys), <- Hmid, <- len_app. rewrite (app_assoc (Some <$> xs) mid), drop_len_app.
    by rewrite fmap_app, <- app_assoc. }
  apply wp_Ok. wpl_step. wpl_step. set (d2 := with_elements _ _ _).
  assert (Hu : updates h (Some p) tag (xs ++ ys) (Some p) (hset h p d2)).
  { eapply updates_hset; [done|done|]. split; cbn; [done|rewrite len_app; lia|rewrite len_app; lia|by eexists| |done].
    rewrite hd_max0, E. repeat rewrite ?len_app, ?len_cells. lia. }
  wpl_step. eapply check_spec; [apply (up_rep _ _ _ _ _ _ Hu)|]. wpl_step. by apply HQ.
Qed.

End operations.
