(* ===== verification/PgListOps.v ===== *)
(** More of the list package against mathematical lists: iteration, deletion,
    lists as sets, deduplication and sorting. *)
From stdpp Require Import gmap sorting.
From S2P Require Import Prelude.
From S2P Require Import BitUtils.
From S2P Require Import SortTemplate.
From S2P Require Import SortProps.
From S2P Require Import BinaryHeap.
From S2P Require Import ExtStats.
From S2P Require Import PgList.
From S2P Require Import PgListSpec.
Open Scope Z_scope.
#[local] Set Default Proof Using "Type".

Lemma updates_trans h l l1 l2 tag ys zs h1 h2 :
  updates h l tag ys l1 h1 -> updates h1 l1 tag zs l2 h2 -> updates h l tag zs l2 h2.
Proof.
  intros [] []. split; [done| |].
  - eapply modifies_trans; [done..|]. intros q Hq. destruct l1 as [p|]; cbn in Hq; [|set_solver].
    apply elem_of_singleton in Hq as ->. destruct (up_ptr p eq_refl) as [->|]; [left; set_solver|right; lia].
  - intros p Hp. pose proof (mo_next _ _ _ up_mod0). pose proof (mo_next _ _ _ up_mod).
    destruct (up_ptr0 p Hp) as [H1|]; [|right; lia]. destruct (up_ptr p H1); [by left|right; lia].
Qed.

Lemma updates_ok h l tag ys l' h' : updates h l tag ys l' h' -> heap_ok h'.
Proof. intros [? [] ?]. done. Qed.

(** A list that an update does not touch. *)
Lemma updates_frame h l tag ys l' h' k tag' xs :
  heap_ok h -> updates h l tag ys l' h' -> rep h k tag' xs -> ptr k ## ptr l -> rep h' k tag' xs.
Proof. intros Hok Hu Hk Hd. by apply (rep_frame (ptr l) h h'); [|apply (up_mod _ _ _ _ _ _ Hu)|..]. Qed.

Section operations.
Context (cassert : bool).

(** * Iteration *)
Lemma lfirst_spec h p tag xs i v (Q : Z -> Heap -> Prop) :
  rep h (Some p) tag xs -> 0 <= i -> xs !! Z.to_nat i = Some v -> Q v h -> wpl (lfirst p i) h Q.
Proof.
  intros (d & Hp & []) Hi Hv HQ. destruct hd_cells as [rest E]. unfold lfirst. do 4 wpl_step.
  pose proof (lookup_lt_Some _ _ _ Hv) as Hlt. apply (wp_rd None).
  - rewrite E, len_app, len_cells. pose proof (len_nonneg rest). unfold len. lia.
  - wpl_step. unfold getd. rewrite E, lookup_app_l by (by rewrite length_fmap). rewrite list_lookup_fmap, Hv. done.
Qed.

Lemma foreach_from_spec {S R} p tag xs (body : Z -> Z -> S -> L (S + R)) (I : Z -> S -> Heap -> Prop)
    (Q : S + R -> Heap -> Prop) (n : nat) : forall i s h,
  0 <= i -> i + Z.of_nat n = len xs -> I i s h ->
  (forall i s h, I i s h -> rep h (Some p) tag xs) ->
  (forall i v s h, 0 <= i -> xs !! Z.to_nat i = Some v -> I i s h ->
     wpl (body i v s) h (fun o h' => match o with inl s' => I (i + 1) s' h' | inr r => Q (inr r) h' end)) ->
  (forall s h, I (len xs) s h -> Q (inl s) h) ->
  wpl (foreach_from n p i body s) h Q.
Proof.
  induction n as [|n IH]; intros i s h Hi Hn HI Hrep Hbody Hend; cbn [foreach_from];
    pose proof (Hrep _ _ _ HI) as (d & Hp & Hd); pose proof (hd_length _ _ _ Hd) as Hl; do 2 wpl_step; rewrite Hl.
  - destruct (Z.ltb_spec i (len xs)); [lia|]. wpl_step. apply Hend. by replace (len xs) with i by lia.
  - destruct (Z.ltb_spec i (len xs)); [|lia]. unfold len in *.
    destruct (lookup_lt_is_Some_2 xs (Z.to_nat i)) as [v Hv]; [lia|].
    wpl_step. apply (lfirst_spec h p tag xs i v); [by apply (Hrep i s)|done|done|]. wpl_step.
    eapply wpl_mono; [by apply Hbody|]. intros [s'|r] h' H'; [|by wpl_step].
    apply IH; done || lia.
Qed.

(** The rule for [foreach] over a list that the body leaves as it is. *)
Lemma foreach_spec {S R} l tag xs (body : Z -> Z -> S -> L (S + R)) (I : Z -> S -> Heap -> Prop)
    (Q : S + R -> Heap -> Prop) s h :
  rep h l tag xs -> I 0 s h ->
  (forall i s h, I i s h -> rep h l tag xs) ->
  (forall i v s h, 0 <= i -> xs !! Z.to_nat i = Some v -> I i s h ->
     wpl (body i v s) h (fun o h' => match o with inl s' => I (i + 1) s' h' | inr r => Q (inr r) h' end)) ->
  (forall s h, I (len xs) s h -> Q (inl s) h) ->
  wpl (foreach l body s) h Q.
Proof.
  intros Hr HI Hrep Hbody Hend. destruct l as [p|]; cbn [foreach].
  - pose proof Hr as (d & Hp & Hd). wpl_step. unfold list_length. do 3 wpl_step. rewrite (hd_length _ _ _ Hd).
    eapply foreach_from_spec; [lia| |done|done|done|done]. pose proof (len_nonneg xs). lia.
  - cbn in Hr. subst xs. wpl_step. by apply Hend.
Qed.

(** * Membership *)
Definition member (eq : Z -> Z -> bool) (xs : list Z) (v : Z) : bool := existsb (fun x => eq x v) xs.

Lemma member_spec h l tag xs eq v (Q : bool -> Heap -> Prop) :
  rep h l tag xs -> Q (member eq xs v) h -> wpl (member_cell cassert tag eq l v) h Q.
Proof.
  intros Hr HQ. unfold member_cell. wpl_step. eapply assert_list_spec; [done|]. wpl_step. eapply check_spec; [done|].
  wpl_step. apply (foreach_spec l tag xs _ (fun i _ h' => h' = h /\ member eq (take (Z.to_nat i) xs) v = false)).
  - done.
  - done.
  - intros i s h' [-> _]. done.
  - intros i x s h' Hi Hx [-> Hm]. wpl_step.
    assert (Hin : member eq (take (Z.to_nat (i + 1)) xs) v = eq x v).
    { replace (Z.to_nat (i + 1)) with (Datatypes.S (Z.to_nat i)) by lia. rewrite (take_S_r _ _ _ Hx).
      unfold member in *. rewrite existsb_app, Hm. cbn. by rewrite orb_false_r. }
    destruct (eq x v) eqn:E; [|done]. wpl_step. assert (member eq xs v = true) as Ht; [|by rewrite Ht in HQ].
    apply existsb_exists. exists x. split; [|done]. apply list_elem_of_In. by eapply list_elem_of_lookup_2.
  - intros _ h' [-> Hm]. wpl_step. rewrite take_all in Hm by done. by rewrite Hm in HQ.
Qed.

(** * Deletion *)
Lemma free_spec h p tag xs (Q : unit -> Heap -> Prop) :
  heap_ok h -> rep h (Some p) tag xs ->
  (forall h', updates h (Some p) tag [] None h' -> Q tt h') ->
  wpl (list_free cassert (Some p)) h Q.
Proof.
  intros Hok Hr HQ. pose proof Hr as (d & Hp & _). unfold list_free, list_free_private. wpl_step.
  eapply check_spec; [done|]. do 4 wpl_step. unfold wpl, pfree_list. rewrite Hp. apply HQ.
  split; [done| |done]. split; cbn; [|lia|done|].
  - intros q e. cbn. intros [_ He]%lookup_delete_Some. by apply (Hok q e).
  - intros q Hq _. apply lookup_delete_ne. set_solver.
Qed.

Lemma delete_nth_spec h p tag xs x ys (Q : option Z -> Heap -> Prop) :
  heap_ok h -> rep h (Some p) tag (xs ++ x :: ys) ->
  (forall l' h', updates h (Some p) tag (xs ++ ys) l' h' -> (xs ++ ys <> [] -> l' = Some p) -> Q l' h') ->
  wpl (list_delete_nth_cell cassert p (len xs)) h Q.
Proof.
  intros Hok Hr HQ. pose proof Hr as (d & Hp & Hd). pose proof Hd as []. pose proof (len_nonneg xs). pose proof (len_nonneg ys).
  rewrite len_app, len_cons in *. unfold list_delete_nth_cell. wpl_step. eapply check_spec; [done|]. do 2 wpl_step. wpl_step.
  wpl_step; [z_cases|]. destruct (Z.eqb_spec (length d) 1).
  - wpl_step. eapply free_spec; [done|done|]. intros h' Hu. wpl_step.
    destruct xs; [|rewrite len_cons in *; pose proof (len_nonneg xs); lia].
    destruct ys; [|rewrite len_cons in *; pose proof (len_nonneg ys); lia]. by apply HQ.
  - wpl_step. wpl_step. destruct hd_cells as [rest E]. rewrite E, fmap_app, fmap_cons, <- app_assoc.
    destruct (shift_left (Some <$> xs) [Some x] (Some <$> ys) rest) as [r' Hr']. rewrite !len_cells in Hr'.
    change (len [Some x]) with 1 in Hr'. cbn [app] in Hr' |- *.
    replace (length d - 1 - len xs) with (len ys) by lia. rewrite Hr'. apply wp_Ok. wpl_step. wpl_step. wpl_step.
    assert (Hlen : len (elements d) = len ((Some <$> xs) ++ (Some <$> ys) ++ r')).
    { rewrite E, fmap_app, fmap_cons, <- app_assoc. cbn [app].
      pose proof (memmove_len _ _ _ _ _ Hr') as Hm. symmetry. exact Hm. }
    apply HQ; [|done]. eapply updates_hset; [done|done|]. split; cbn.
    + done.
    + rewrite len_app. lia.
    + rewrite len_app. lia.
    + exists r'. by rewrite fmap_app, <- app_assoc.
    + lia.
    + done.
Qed.

(** The list without its first element that the test accepts. *)
Fixpoint remove_first (test : Z -> bool) (xs : list Z) : list Z :=
  match xs with
  | [] => []
  | x :: xs => if test x then xs else x :: remove_first test xs
  end.

Lemma remove_first_app test xs ys :
  existsb test xs = false -> remove_first test (xs ++ ys) = xs ++ remove_first test ys.
Proof.
  induction xs as [|x xs IH]; [done|]. cbn. destruct (test x); [done|]. cbn. intros H. by rewrite IH.
Qed.

Lemma existsb_take_S (test : Z -> bool) xs (i : Z) x :
  0 <= i -> xs !! Z.to_nat i = Some x ->
  existsb test (take (Z.to_nat (i + 1)) xs) = existsb test (take (Z.to_nat i) xs) || test x.
Proof.
  intros Hi Hx. replace (Z.to_nat (i + 1)) with (Datatypes.S (Z.to_nat i)) by lia.
  rewrite (take_S_r _ _ _ Hx), existsb_app. cbn. by rewrite orb_false_r.
Qed.

Lemma split_at (xs : list Z) i x :
  0 <= i -> xs !! Z.to_nat i = Some x ->
  xs = take (Z.to_nat i) xs ++ x :: drop (Datatypes.S (Z.to_nat i)) xs /\ len (take (Z.to_nat i) xs) = i.
Proof.
  intros Hi Hx. split; [symmetry; by apply take_drop_middle|].
  apply lookup_lt_Some in Hx. unfold len. rewrite length_take. lia.
Qed.

Lemma delete_spec h l tag xs eq v (Q : option Z -> Heap -> Prop) :
  heap_ok h -> rep h l tag xs ->
  (forall l' h', updates h l tag (remove_first (fun x => eq x v) xs) l' h' -> Q l' h') ->
  wpl (delete_cell cassert tag eq l v) h Q.
Proof.
  intros Hok Hr HQ. unfold delete_cell. wpl_step. eapply assert_list_spec; [done|]. wpl_step. eapply check_spec; [done|].
  wpl_step. apply (foreach_spec l tag xs _ (fun i _ h' => h' = h /\ existsb (fun x => eq x v) (take (Z.to_nat i) xs) = false)).
  - done.
  - done.
  - intros i s h' [-> _]. done.
  - intros i x s h' Hi Hx [-> Hm]. destruct l as [p|]; [|by cbn in Hr; subst].
    pose proof (existsb_take_S (fun x => eq x v) xs i x Hi Hx) as Hs. rewrite Hm in Hs. cbn [orb] in Hs.
    destruct (eq x v) eqn:E; [|by wpl_step]. destruct (split_at xs i x Hi Hx) as [Hxs Hlen].
    wpl_step. unfold list_delete_cell. rewrite <- Hlen. rewrite Hxs in Hr.
    eapply delete_nth_spec; [done|done|]. intros l' h' Hu _. wpl_step. wpl_step. apply HQ.
    rewrite Hxs, remove_first_app by done. cbn [remove_first]. by rewrite E.
  - intros _ h' [-> Hm]. wpl_step. apply HQ. rewrite take_all in Hm by done.
    replace (remove_first _ xs) with xs; [by apply updates_refl|].
    rewrite <- (app_nil_r xs) at 2. rewrite remove_first_app by done. cbn. by rewrite app_nil_r.
Qed.

Lemma truncate_spec h l tag xs n (Q : option Z -> Heap -> Prop) :
  heap_ok h -> rep h l tag xs ->
  (forall l' h', updates h l tag (take (Z.to_nat n) xs) l' h' -> Q l' h') ->
  wpl (list_truncate l n) h Q.
Proof.
  intros Hok Hr HQ. unfold list_truncate. destruct (Z.leb_spec n 0).
  - wpl_step. apply HQ. replace (Z.to_nat n) with 0%nat by lia. split; [done|by apply modifies_refl|done].
  - destruct l as [p|]; unfold list_length.
    + pose proof Hr as (d & Hp & Hd). pose proof Hd as []. do 3 wpl_step. wpl_step. rewrite hd_length.
      destruct (Z.ltb_spec n (len xs)).
      * do 4 wpl_step. wpl_step. apply HQ. eapply updates_hset; [done|done|].
        assert (Hn : len (take (Z.to_nat n) xs) = n) by (unfold len in *; rewrite length_take; lia).
        destruct hd_cells as [rest E]. split; cbn; [done|done|lia| |done|done].
        exists ((Some <$> drop (Z.to_nat n) xs) ++ rest). by rewrite app_assoc, <- fmap_app, take_drop.
      * wpl_step. apply HQ. rewrite take_ge by (unfold len in *; lia). by apply updates_refl.
    + wpl_step. wpl_step. wpl_step. cbn in Hr. subst xs. apply HQ. rewrite take_nil. by apply updates_refl.
Qed.

Lemma delete_first_spec h l tag xs (Q : option Z -> Heap -> Prop) :
  heap_ok h -> rep h l tag xs ->
  (forall l' h', updates h l tag (drop 1 xs) l' h' -> Q l' h') ->
  wpl (list_delete_first cassert l) h Q.
Proof.
  intros Hok Hr HQ. unfold list_delete_first. wpl_step. eapply check_spec; [done|]. destruct l as [p|].
  - destruct xs as [|x xs]; [by apply rep_nil_inv in Hr|].
    eapply (delete_nth_spec h p tag [] x xs); [done|done|]. intros l' h' Hu _. by apply HQ.
  - cbn in Hr. subst xs. wpl_step. apply HQ. by apply (updates_refl h None).
Qed.

Lemma delete_last_spec h l tag xs (Q : option Z -> Heap -> Prop) :
  heap_ok h -> rep h l tag xs ->
  (forall l' h', updates h l tag (take (Datatypes.length xs - 1) xs) l' h' -> Q l' h') ->
  wpl (list_delete_last cassert l) h Q.
Proof.
  intros Hok Hr HQ. unfold list_delete_last. wpl_step. eapply check_spec; [done|]. destruct l as [p|].
  - pose proof Hr as (d & Hp & Hd). pose proof Hd as []. unfold list_length. do 3 wpl_step. wpl_step. rewrite hd_length.
    destruct (Z.leb_spec (len xs) 1).
    + wpl_step. eapply free_spec; [done|done|]. intros h' Hu. wpl_step. apply HQ.
      unfold len in *. by replace (Datatypes.length xs - 1)%nat with 0%nat by lia.
    + eapply truncate_spec; [done|done|]. intros l' h' Hu. apply HQ.
      by replace (Datatypes.length xs - 1)%nat with (Z.to_nat (len xs - 1)) by (unfold len in *; lia).
  - cbn in Hr. subst xs. wpl_step. apply HQ. by apply (updates_refl h None).
Qed.

Lemma delete_first_n_spec h l tag xs n (Q : option Z -> Heap -> Prop) :
  heap_ok h -> rep h l tag xs ->
  (forall l' h', updates h l tag (drop (Z.to_nat n) xs) l' h' -> Q l' h') ->
  wpl (list_delete_first_n cassert l n) h Q.
Proof.
  intros Hok Hr HQ. unfold list_delete_first_n. wpl_step. eapply check_spec; [done|]. destruct (Z.leb_spec n 0).
  { wpl_step. apply HQ. replace (Z.to_nat n) with 0%nat by lia. by apply updates_refl. }
  destruct l as [p|]; unfold list_length.
  2:{ cbn in Hr. subst xs. wpl_step. wpl_step. destruct (Z.leb_spec 0 n); [|lia]. wpl_step. unfold list_free, list_free_private.
      wpl_step. wpl_step. apply HQ. rewrite drop_nil. by apply (updates_refl h None). }
  pose proof Hr as (d & Hp & Hd). pose proof Hd as []. do 3 wpl_step. wpl_step. rewrite hd_length.
  destruct (Z.leb_spec (len xs) n).
  { wpl_step. eapply free_spec; [done|done|]. intros h' Hu. wpl_step. apply HQ.
    rewrite drop_ge by (unfold len in *; lia). done. }
  destruct hd_cells as [rest E]. do 2 wpl_step. wpl_step. wpl_step.
  set (g := take (Z.to_nat n) xs). set (b := drop (Z.to_nat n) xs).
  assert (Hg : len g = n) by (unfold g, len in *; rewrite length_take; lia).
  assert (Hb : len b = len xs - n) by (unfold b, len in *; rewrite length_drop; lia).
  assert (Hxs : (Some <$> xs) = (Some <$> g) ++ (Some <$> b)) by (unfold g, b; by rewrite <- fmap_app, take_drop).
  destruct (shift_left [] (Some <$> g) (Some <$> b) rest) as [r' Hr']. cbn [app] in Hr'.
  rewrite !len_cells, Hg, Hb in Hr'. change (len []) with 0 in Hr'. rewrite Z.add_0_l in Hr'.
  pose proof (memmove_len _ _ _ _ _ Hr') as Hlen. rewrite hd_length, E, Hxs, <- app_assoc, Hr'. apply wp_Ok. wpl_step. wpl_step. wpl_step.
  apply HQ. eapply updates_hset; [done|done|]. split; cbn; [done|fold b; lia|fold b; lia|by exists r'| |done].
  rewrite hd_max, E, Hxs, <- app_assoc. lia.
Qed.

Lemma concat_copy_spec h l1 l2 tag xs ys (Q : option Z -> Heap -> Prop) :
  heap_ok h -> rep h l1 tag xs -> rep h l2 tag ys -> len (xs ++ ys) <= MaxListLength - LIST_HEADER_OVERHEAD ->
  (forall l' h', updates h None tag (xs ++ ys) l' h' -> Q l' h') ->
  wpl (list_concat_copy cassert l1 l2) h Q.
Proof.
  intros Hok H1 H2 Hlen HQ. destruct l1 as [p|].
  2:{ cbn in H1. subst xs. by apply (copy_spec cassert h l2 tag ys). }
  destruct l2 as [q|].
  2:{ cbn in H2. subst ys. rewrite app_nil_r in *. by apply (copy_spec cassert h (Some p) tag xs). }
  destruct H1 as (d & Hp & Hd). destruct H2 as (e & Hq & He). pose proof (header_len _ _ _ Hd). pose proof (header_len _ _ _ He).
  pose proof (hd_length _ _ _ Hd) as Ld. pose proof (hd_length _ _ _ He) as Le. unfold MaxListLength in *.
  rewrite len_app in Hlen. change LIST_HEADER_OVERHEAD with 3 in *.
  cbn [list_concat_copy]. wpl_step. unfold assert_same_type. do 4 wpl_step. wpl_step.
  { apply bool_decide_eq_true. by rewrite (hd_type _ _ _ Hd), (hd_type _ _ _ He). }
  do 4 wpl_step. rewrite i32_small by lia. wpl_step.
  apply new_list_spec; [unfold MaxListLength; change LIST_HEADER_OVERHEAD with 3; lia|].
  intros m Hm. do 4 wpl_step. cbn [elements length].
  destruct (hd_cells _ _ _ Hd) as [r1 E1]. destruct (hd_cells _ _ _ He) as [r2 E2]. rewrite Ld, Le, E1, E2.
  rewrite copy_prefix by lia. apply wp_Ok. do 2 wpl_step.
  assert (memcpy ((Some <$> xs) ++ replicate (Z.to_nat (m - len xs)) None) (len xs) ((Some <$> ys) ++ r2) 0 (len ys)
    = Ok ((Some <$> xs ++ ys) ++ replicate (Z.to_nat (m - len (xs ++ ys))) None)) as ->.
  { unfold memcpy. rewrite !len_app, !len_cells, len_replicate. pose proof (len_nonneg r2). z_cases.
    change (Z.to_nat 0) with 0%nat. rewrite drop_0, <- (len_cells xs), take_len_app, <- (len_cells ys), take_len_app.
    rewrite drop_app_ge by (unfold len; lia). rewrite fmap_app, <- app_assoc. do 3 f_equal. rewrite drop_replicate. f_equal.
    rewrite !len_cells. unfold len in *. rewrite !length_fmap. lia. }
  apply wp_Ok. wpl_step. wpl_step. set (d2 := with_elements _ _ _).
  assert (Hu : updates h None tag (xs ++ ys) (Some (next h)) (halloc h d2)).
  { apply updates_halloc; [done|]. unfold d2, with_elements. cbn. rewrite (hd_type _ _ _ Hd), ?Ld, ?Le, <- len_app.
    apply holds_new; unfold MaxListLength in *; rewrite len_app; lia. }
  wpl_step. eapply check_spec; [apply (up_rep _ _ _ _ _ _ Hu)|]. wpl_step. by apply HQ.
Qed.

(** [foreach] with [foreach_delete_current] keeps what fails the test. *)
Lemma foreach_delete_spec h l tag test ys (Q : option Z -> Heap -> Prop) : forall (fuel : nat) xs l1 h1,
  updates h l tag (xs ++ ys) l1 h1 -> heap_ok h -> (Datatypes.length ys <= fuel)%nat ->
  (forall l' h', updates h l tag (xs ++ List.filter (fun x => negb (test x)) ys) l' h' -> Q l' h') ->
  wpl (foreach_delete cassert fuel test l1 (len xs)) h1 Q.
Proof.
  induction ys as [|y ys IH]; intros fuel xs l1 h1 Hu Hok Hf HQ; pose proof (up_rep _ _ _ _ _ _ Hu) as Hr.
  - rewrite app_nil_r in *.
    destruct fuel; destruct l1 as [p|]; cbn [foreach_delete]; try (wpl_step; apply HQ; cbn [List.filter]; rewrite ?app_nil_r; exact Hu);
      destruct Hr as (d & Hp & Hd); do 2 wpl_step; rewrite (hd_length _ _ _ Hd);
      (destruct (Z.ltb_spec (len xs) (len xs)); [lia|wpl_step; apply HQ; cbn [List.filter]; rewrite ?app_nil_r; exact Hu]).
  - destruct fuel as [|fuel]; cbn in Hf; [lia|]. destruct l1 as [p|]; [|by destruct xs]. cbn [foreach_delete].
    pose proof Hr as (d & Hp & Hd). do 2 wpl_step. rewrite (hd_length _ _ _ Hd), len_app, len_cons.
    pose proof (len_nonneg xs). pose proof (len_nonneg ys). destruct (Z.ltb_spec (len xs) (len xs + (1 + len ys))); [|lia].
    wpl_step. eapply (lfirst_spec h1 p tag _ _ y); [done|done| |].
    { unfold len. rewrite Nat2Z.id, lookup_app_r, Nat.sub_diag by lia. done. }
    cbn [List.filter] in HQ. destruct (test y) eqn:E; cbn [negb] in HQ.
    + wpl_step. unfold list_delete_cell. eapply delete_nth_spec; [by eapply updates_ok|done|]. intros l2 h2 Hu2 _.
      replace (len xs - 1 + 1) with (len xs) by lia. apply IH; [by eapply updates_trans|done|lia|done].
    + replace (len xs + 1) with (len (xs ++ [y])) by (by rewrite len_app). apply IH; [by rewrite <- app_assoc|done|lia|].
      intros l' h'. rewrite <- app_assoc. apply HQ.
Qed.

(** * Lists as sets *)

(** Append the elements of [ys] that pass a test, which sees what was built. *)
Definition extend (t : list Z -> Z -> bool) (acc : list Z) (v : Z) : list Z := if t acc v then acc ++ [v] else acc.

Lemma extend_len t ys : forall xs, len (foldl (extend t) xs ys) <= len xs + len ys.
Proof.
  induction ys as [|y ys IH]; intros xs; cbn [foldl]; [rewrite len_nil; lia|].
  etrans; [apply IH|]. rewrite len_cons. unfold extend. destruct (t xs y); [rewrite len_app; change (len [y]) with 1|]; lia.
Qed.

Lemma extend_filter (t : Z -> bool) ys : forall xs, foldl (extend (fun _ => t)) xs ys = xs ++ List.filter t ys.
Proof.
  induction ys as [|y ys IH]; intros xs; cbn [foldl List.filter]; [by rewrite app_nil_r|].
  rewrite IH. unfold extend. destruct (t y); [by rewrite <- app_assoc|done].
Qed.

Lemma append_if_spec h from result tag xs zs test t (Q : option Z -> Heap -> Prop) :
  heap_ok h -> rep h from tag xs -> rep h result tag zs -> ptr from ## ptr result ->
  len zs + len xs <= MaxListLength ->
  (forall acc l1 h1 v (Q : bool -> Heap -> Prop),
     updates h result tag acc l1 h1 -> Q (t acc v) h1 -> wpl (test l1 v) h1 Q) ->
  (forall l' h', updates h result tag (foldl (extend t) zs xs) l' h' -> Q l' h') ->
  wpl (append_if cassert tag test from result) h Q.
Proof.
  intros Hok Hf Hr Hdis Hlen Htest HQ. unfold append_if. wpl_step.
  apply (foreach_spec from tag xs _ (fun i l1 h1 => updates h result tag (foldl (extend t) zs (take (Z.to_nat i) xs)) l1 h1)).
  - done.
  - by apply updates_refl.
  - intros i l1 h1 Hu. by eapply updates_frame.
  - intros i v l1 h1 Hi Hv Hu. wpl_step. eapply Htest; [done|].
    assert (Hnext : foldl (extend t) zs (take (Z.to_nat (i + 1)) xs) = extend t (foldl (extend t) zs (take (Z.to_nat i) xs)) v).
    { replace (Z.to_nat (i + 1)) with (Datatypes.S (Z.to_nat i)) by lia. rewrite (take_S_r _ _ _ Hv), foldl_app. done. }
    unfold extend at 2 in Hnext. destruct (t _ v); [|wpl_step; by rewrite Hnext]. wpl_step.
    apply append_spec with (xs := foldl (extend t) zs (take (Z.to_nat i) xs)); [by eapply updates_ok|apply (up_rep _ _ _ _ _ _ Hu)| |].
    + eapply Z.le_lt_trans; [apply extend_len|]. apply lookup_lt_Some in Hv. unfold len in *. rewrite length_take. lia.
    + intros l2 h2 Hu2. wpl_step. rewrite Hnext. by eapply updates_trans.
  - intros l1 h1 Hu. rewrite take_all in Hu by done. wpl_step. eapply check_spec; [apply (up_rep _ _ _ _ _ _ Hu)|].
    wpl_step. by apply HQ.
Qed.

Lemma not_member_spec h l tag xs eq v (Q : bool -> Heap -> Prop) :
  rep h l tag xs -> Q (negb (member eq xs v)) h -> wpl (not_member cassert tag eq l v) h Q.
Proof. intros Hr HQ. unfold not_member. wpl_step. eapply member_spec; [done|]. by wpl_step. Qed.

(** What [list_union] and its like make. *)
Definition union_of (eq : Z -> Z -> bool) (xs ys : list Z) : list Z := foldl (extend (fun acc v => negb (member eq acc v))) xs ys.

(** A new list is none of the old ones. *)
Lemma fresh_disjoint h l tag xs tag' ys l' h' :
  heap_ok h -> rep h l tag xs -> updates h None tag' ys l' h' -> ptr l ## ptr l'.
Proof.
  intros Hok Hr Hu. destruct l as [q|]; [|set_solver]. destruct l' as [p|]; [|set_solver]. destruct Hr as (d & Hq & _).
  apply Hok in Hq. destruct (up_ptr _ _ _ _ _ _ Hu p eq_refl) as [|]; [done|]. cbn. assert (p <> q) by lia. set_solver.
Qed.

Lemma union_spec h l1 l2 tag eq xs ys (Q : option Z -> Heap -> Prop) :
  heap_ok h -> rep h l1 tag xs -> rep h l2 tag ys -> len xs + len ys <= MaxListLength - LIST_HEADER_OVERHEAD ->
  (forall l' h', updates h None tag (union_of eq xs ys) l' h' -> Q l' h') ->
  wpl (union_lists cassert tag eq l1 l2) h Q.
Proof.
  intros Hok H1 H2 Hlen HQ. unfold union_lists. do 2 (wpl_step; eapply assert_list_spec; [done|]).
  unfold MaxListLength in *. change LIST_HEADER_OVERHEAD with 3 in *. pose proof (len_nonneg ys).
  wpl_step. apply (copy_spec cassert h l1 tag xs); [done|done|unfold MaxListLength; change LIST_HEADER_OVERHEAD with 3; lia|].
  intros r h1 Hu. eapply append_if_spec with (t := fun acc v => negb (member eq acc v)).
  - by eapply updates_ok.
  - eapply updates_frame; [done|done|done|set_solver].
  - apply (up_rep _ _ _ _ _ _ Hu).
  - by eapply fresh_disjoint.
  - unfold MaxListLength. lia.
  - intros acc l' h' v Q' Hu' HQ'. eapply not_member_spec; [apply (up_rep _ _ _ _ _ _ Hu')|done].
  - intros l' h' Hu'. apply HQ. by eapply updates_trans.
Qed.

Lemma concat_unique_spec h l1 l2 tag eq xs ys (Q : option Z -> Heap -> Prop) :
  heap_ok h -> rep h l1 tag xs -> rep h l2 tag ys -> ptr l2 ## ptr l1 -> len xs + len ys <= MaxListLength ->
  (forall l' h', updates h l1 tag (union_of eq xs ys) l' h' -> Q l' h') ->
  wpl (concat_unique cassert tag eq l1 l2) h Q.
Proof.
  intros Hok H1 H2 Hd Hlen HQ. unfold concat_unique. do 2 (wpl_step; eapply assert_list_spec; [done|]).
  eapply append_if_spec with (t := fun acc v => negb (member eq acc v)); [done..| |done].
  intros acc l' h' v Q' Hu' HQ'. eapply not_member_spec; [apply (up_rep _ _ _ _ _ _ Hu')|done].
Qed.

Lemma append_unique_spec h l tag eq xs v (Q : option Z -> Heap -> Prop) :
  heap_ok h -> rep h l tag xs -> len xs < MaxListLength ->
  (forall l' h', updates h l tag (union_of eq xs [v]) l' h' -> Q l' h') ->
  wpl (append_unique cassert tag eq l v) h Q.
Proof.
  intros Hok Hr Hlen HQ. unfold append_unique. wpl_step. eapply member_spec; [done|].
  unfold union_of in HQ. cbn [foldl] in HQ. unfold extend in HQ. destruct (member eq xs v); cbn [negb] in HQ.
  - wpl_step. apply HQ. by apply updates_refl.
  - by eapply append_spec.
Qed.

Lemma intersect_spec h l1 l2 tag eq xs ys (Q : option Z -> Heap -> Prop) :
  heap_ok h -> rep h l1 tag xs -> rep h l2 tag ys ->
  (forall l' h', updates h None tag (List.filter (member eq ys) xs) l' h' -> Q l' h') ->
  wpl (intersect_lists cassert tag eq l1 l2) h Q.
Proof.
  intros Hok H1 H2 HQ. unfold intersect_lists. destruct l1 as [p|].
  2:{ cbn in H1. subst xs. wpl_step. apply HQ. by apply (updates_refl h None). }
  destruct l2 as [q|].
  2:{ cbn in H2. subst ys. wpl_step. apply HQ. replace (List.filter _ xs) with (@nil Z); [by apply (updates_refl h None)|].
      clear. induction xs; done. }
  do 2 (wpl_step; eapply assert_list_spec; [done|]).
  eapply append_if_spec with (t := fun _ => member eq ys) (zs := []); [done|done|done|set_solver| | |].
  - rewrite len_nil. by eapply rep_len.
  - intros acc l' h' v Q' Hu' HQ'. eapply member_spec; [|done]. eapply updates_frame; [done|done|done|set_solver].
  - intros l' h'. rewrite extend_filter. apply HQ.
Qed.

Lemma subtract_spec h l1 l2 tag eq xs ys (Q : option Z -> Heap -> Prop) :
  heap_ok h -> rep h l1 tag xs -> rep h l2 tag ys -> len xs <= MaxListLength - LIST_HEADER_OVERHEAD ->
  (forall l' h', updates h None tag (List.filter (fun v => negb (member eq ys v)) xs) l' h' -> Q l' h') ->
  wpl (subtract_lists cassert tag eq l1 l2) h Q.
Proof.
  intros Hok H1 H2 Hlen HQ. unfold subtract_lists. do 2 (wpl_step; eapply assert_list_spec; [done|]).
  destruct l2 as [q|].
  - eapply append_if_spec with (t := fun _ v => negb (member eq ys v)) (zs := []); [done|done|done|set_solver| | |].
    + rewrite len_nil. by eapply rep_len.
    + intros acc l' h' v Q' Hu' HQ'. eapply not_member_spec; [|done]. eapply updates_frame; [done|done|done|set_solver].
    + intros l' h'. rewrite extend_filter. apply HQ.
  - cbn in H2. subst ys. apply (copy_spec cassert h l1 tag xs); [done..|]. intros l' h' Hu. apply HQ.
    replace (List.filter _ xs) with xs; [done|]. clear. induction xs as [|x xs IH]; [done|]. cbn. by f_equal.
Qed.

(** * Deduplication *)

(** The list without the elements that repeat the one before. *)
Definition squash (xs : list Z) : list Z := foldl (extend (fun acc v => negb (bool_decide (last acc = Some v)))) [] xs.

Lemma squash_snoc xs v : squash (xs ++ [v]) = if decide (last (squash xs) = Some v) then squash xs else squash xs ++ [v].
Proof. unfold squash at 1. rewrite foldl_app. cbn. unfold extend at 1. fold (squash xs). by case_bool_decide; case_decide. Qed.

Lemma squash_last xs : last (squash xs) = last xs.
Proof.
  destruct xs as [|v xs _] using rev_ind; [done|]. rewrite squash_snoc, last_snoc.
  case_decide; [done|by rewrite last_snoc].
Qed.

Lemma squash_len xs : len (squash xs) <= len xs.
Proof. pose proof (extend_len (fun acc v => negb (bool_decide (last acc = Some v))) xs []). rewrite len_nil in *. done. Qed.

Lemma squash_nil xs : squash xs = [] -> xs = [].
Proof. intros H. destruct xs as [|v xs _] using rev_ind; [done|]. pose proof (squash_last (xs ++ [v])) as Hl. by rewrite H, last_snoc in Hl. Qed.

Lemma last_cell (acc : list Z) (mid : list (option Z)) w :
  last acc = Some w -> ((Some <$> acc) ++ mid) !! Z.to_nat (len acc - 1) = Some (Some w).
Proof.
  intros Hw. rewrite last_lookup in Hw. pose proof (lookup_lt_Some _ _ _ Hw) as Hlt.
  replace (Z.to_nat (len acc - 1)) with (pred (Datatypes.length acc)) by (unfold len; lia).
  rewrite lookup_app_l by (by rewrite length_fmap). by rewrite list_lookup_fmap, Hw.
Qed.

(** One turn: [j] is read, the last cell kept is [len acc - 1]. *)
Lemma dedup_step xs rest els (j : Z) v :
  let acc := squash (take (Z.to_nat j) xs) in
  1 <= j -> xs !! Z.to_nat j = Some v -> len els = len xs + len rest ->
  (exists mid, els = (Some <$> acc) ++ mid) -> drop (Z.to_nat j) els = (Some <$> drop (Z.to_nat j) xs) ++ rest ->
  wp (x ← rd els (len acc - 1); y ← rd els j;
      if bool_decide (x = y) then Ok (inl (els, len acc - 1)) else els ← wr els (len acc - 1 + 1) y; Ok (inl (els, len acc - 1 + 1)))
    (fun o : (list (option Z) * Z) + Empty_set => match o with
       | inl (els', i') =>
           let acc' := squash (take (Z.to_nat (j + 1)) xs) in
           i' = len acc' - 1 /\ len els' = len xs + len rest /\ (exists mid, els' = (Some <$> acc') ++ mid) /\
           drop (Z.to_nat (j + 1)) els' = (Some <$> drop (Z.to_nat (j + 1)) xs) ++ rest
       | inr _ => False end).
Proof.
  cbv zeta. intros Hj Hv Hlen [mid Hels] Hdrop. set (acc := squash (take (Z.to_nat j) xs)) in *.
  pose proof (lookup_lt_Some _ _ _ Hv) as Hlt. pose proof (len_nonneg rest).
  assert (Hacc : 1 <= len acc <= j).
  { split.
    - destruct acc as [|a acc'] eqn:E; [|rewrite len_cons; pose proof (len_nonneg acc'); lia]. apply squash_nil in E.
      apply (f_equal Datatypes.length) in E. rewrite length_take in E. cbn in E. lia.
    - unfold acc. etrans; [apply squash_len|]. unfold len. rewrite length_take. lia. }
  assert (Hw : exists w, last acc = Some w).
  { destruct (last acc) eqn:E; [by eexists|]. apply last_None in E. rewrite E, len_nil in Hacc. lia. }
  destruct Hw as [w Hw].
  assert (Hnext : squash (take (Z.to_nat (j + 1)) xs) = if decide (w = v) then acc else acc ++ [v]).
  { replace (Z.to_nat (j + 1)) with (Datatypes.S (Z.to_nat j)) by lia. rewrite (take_S_r _ _ _ Hv), squash_snoc. fold acc.
    rewrite Hw. case_decide; case_decide; congruence. }
  assert (Hnd : drop (Z.to_nat (j + 1)) els = (Some <$> drop (Z.to_nat (j + 1)) xs) ++ rest).
  { replace (Z.to_nat (j + 1)) with (Z.to_nat j + 1)%nat by lia.
    rewrite <- (drop_drop els), <- (drop_drop xs), Hdrop, (drop_S _ _ _ Hv). done. }
  assert (Hy : els !! Z.to_nat j = Some (Some v)).
  { rewrite <- (Nat.add_0_r (Z.to_nat j)), <- lookup_drop, Hdrop, (drop_S _ _ _ Hv). done. }
  assert (Hx : els !! Z.to_nat (len acc - 1) = Some (Some w)) by (rewrite Hels; by apply last_cell).
  assert (rd els (len acc - 1) = Ok (Some w)) as -> by (unfold rd; rewrite Hx; destruct (Z.leb_spec 0 (len acc - 1)); [done|lia]).
  assert (rd els j = Ok (Some v)) as -> by (unfold rd; rewrite Hy; destruct (Z.leb_spec 0 j); [done|lia]).
  cbn [mbind res_bind]. unfold len in Hlt. case_bool_decide as Hc.
  - apply wp_Ok. assert (w = v) as -> by congruence. rewrite Hnext, decide_True by done. split_and!; [done|exact Hlen|by exists mid|done].
  - wp_step. apply wp_wr; [unfold len in *; lia|]. apply wp_Ok. rewrite Hnext, decide_False by congruence.
    replace (len acc - 1 + 1) with (len acc) by lia. rewrite len_app. change (len [v]) with 1.
    split_and!; [lia|unfold upd, len in *; rewrite length_insert; lia| |].
    + destruct mid as [|y mid]; [exfalso; rewrite Hels, app_nil_r, len_cells in Hlen; unfold len in *; lia|].
      exists mid. rewrite Hels. unfold upd. rewrite <- (len_cells acc). unfold len. rewrite Nat2Z.id, insert_app_r_alt, Nat.sub_diag by lia.
      by rewrite fmap_app, <- app_assoc.
    + unfold upd. rewrite drop_insert_lt by lia. done.
Qed.

Lemma dedup_spec h l xs (Q : unit -> Heap -> Prop) :
  heap_ok h -> rep h l T_OidList xs ->
  (forall h', updates h l T_OidList (squash xs) l h' -> Q tt h') ->
  wpl (list_deduplicate_oid cassert l) h Q.
Proof.
  intros Hok Hr HQ. unfold list_deduplicate_oid. wpl_step. eapply assert_list_spec; [done|]. wpl_step. unfold list_length.
  destruct l as [p|].
  2:{ cbn in Hr. subst xs. wpl_step. wpl_step. wpl_step. apply (check_spec _ h None T_OidList []); [done|]. apply HQ. by apply (updates_refl h None). }
  pose proof Hr as (d & Hp & Hd). pose proof Hd as []. do 3 wpl_step. rewrite hd_length. wpl_step.
  assert (Hone : forall x, squash [x] = [x]) by done.
  destruct (Z.ltb_spec 1 (len xs)).
  2:{ wpl_step. eapply check_spec; [done|]. apply HQ. destruct xs as [|x [|y xs]]; [by rewrite len_nil in *| |].
      - rewrite Hone. by apply updates_refl.
      - rewrite !len_cons in *. pose proof (len_nonneg xs). lia. }
  destruct hd_cells as [rest E]. wpl_step. wpl_step. wpl_step. wpl_step. apply wp_loop_state.
  apply (wp_for_up (fun j '(els, i) => i = len (squash (take (Z.to_nat j) xs)) - 1 /\ len els = len xs + len rest /\
     (exists mid, els = (Some <$> squash (take (Z.to_nat j) xs)) ++ mid) /\
     drop (Z.to_nat j) els = (Some <$> drop (Z.to_nat j) xs) ++ rest)).
  - lia.
  - destruct xs as [|x xs]; [by rewrite len_nil in *|]. change (Z.to_nat 1) with 1%nat. cbn [take]. rewrite Hone.
    rewrite E. split_and!; [done|by rewrite len_app, len_cells|by eexists|done].
  - intros j [els i] Hj (-> & Hlen & Hmid & Hdrop).
    destruct (lookup_lt_is_Some_2 xs (Z.to_nat j)) as [v Hv]; [unfold len in *; lia|].
    eapply wp_mono; [eapply dedup_step; [lia|done|done|done|done]|]. intros [[els' i']|[]]. done.
  - intros [els i] (-> & Hlen & [mid Hmid] & _).
    assert (Hfull : take (Z.to_nat (len xs)) xs = xs) by (apply take_ge; unfold len; lia). rewrite Hfull in *.
    wpl_step. set (d2 := with_elements _ _ _).
    assert (Hu : updates h (Some p) T_OidList (squash xs) (Some p) (hset h p d2)).
    { eapply updates_hset; [done|done|]. split; cbn; [done|lia| |by exists mid| |done].
      - destruct (squash xs) as [|a acc] eqn:Es; [|rewrite len_cons; pose proof (len_nonneg acc); lia].
        apply squash_nil in Es. by rewrite Es, len_nil in *.
      - rewrite hd_max, E, len_app, len_cells. done. }
    eapply check_spec; [apply (up_rep _ _ _ _ _ _ Hu)|]. by apply HQ.
Qed.

(** * Sorting *)

Lemma sort_cells cmp xs rest els :
  sorts_seg (fun a b => cmp (default 0 a) (default 0 b)) None ((Some <$> xs) ++ rest) 0 (len xs) els ->
  exists ys, els = (Some <$> ys) ++ rest /\ ys ≡ₚ xs /\ (SortComparator cmp -> StronglySorted (fun x y => cmp x y <= 0) ys).
Proof.
  intros [(a & m & m' & y & He & -> & Hperm & Ha & Hm) Hs]. destruct a as [|c a]; [|rewrite len_cons in Ha; pose proof (len_nonneg a); lia].
  rewrite Z.add_0_l, Z.sub_0_r in *. cbn [app] in *.
  apply app_inj_1 in He as [<- <-]; [|rewrite <- (len_cells xs) in Hm; unfold len in Hm; lia].
  destruct (Permutation_map_inv _ _ (symmetry Hperm)) as (ys & -> & Hys). exists ys. split; [done|]. split; [by symmetry|].
  intros Hc. apply StronglySorted_lookup. intros i j x z Hij Hx Hz.
  pose proof (lookup_lt_Some _ _ _ Hz) as Hj. pose proof (Permutation_length Hys) as Hlen.
  assert (Hc' : SortComparator (fun a b : option Z => cmp (default 0 a) (default 0 b))).
  { split; intros; [apply SortTemplate.compare_flip|by eapply SortTemplate.compare_trans]. }
  specialize (Hs Hc' (Z.of_nat i) (Z.of_nat j)). unfold getd, len in Hs. rewrite !Nat2Z.id in Hs.
  rewrite !lookup_app_l in Hs by (rewrite length_fmap; lia). change (map Some ys) with (Some <$> ys) in Hs.
  rewrite !list_lookup_fmap, Hx, Hz in Hs. apply Hs; lia.
Qed.

Lemma sort_spec h l tag xs cmp (Q : unit -> Heap -> Prop) :
  heap_ok h -> rep h l tag xs ->
  (forall ys h', updates h l tag ys l h' -> ys ≡ₚ xs ->
     (SortComparator cmp -> StronglySorted (fun x y => cmp x y <= 0) ys) -> Q tt h') ->
  wpl (list_sort cassert l cmp) h Q.
Proof.
  intros Hok Hr HQ. unfold list_sort. wpl_step. eapply check_spec; [done|]. wpl_step. unfold list_length.
  destruct l as [p|].
  2:{ wpl_step. wpl_step. cbn in Hr. subst xs. apply (HQ []); [by apply (updates_refl h None)|done|]. constructor. }
  pose proof Hr as (d & Hp & Hd). pose proof Hd as []. do 3 wpl_step. rewrite hd_length.
  destruct (Z.ltb_spec 1 (len xs)).
  2:{ wpl_step. apply (HQ xs); [by apply updates_refl|done|]. intros _. destruct xs as [|x [|y xs]]; [constructor|by repeat constructor|].
      rewrite !len_cons in *. pose proof (len_nonneg xs). lia. }
  destruct hd_cells as [rest E]. do 4 wpl_step. rewrite E.
  eapply wp_mono; [apply (wp_ST_SORT _ None); [lia|lia| |]|].
  - rewrite len_app, len_cells. pose proof (len_nonneg rest). lia.
  - unfold frames_for. pose proof (Z.log2_nonneg (len xs)). lia.
  - intros els (ys & -> & Hp' & Hs)%sort_cells. wpl_step. pose proof (Permutation_length Hp') as Hlen.
    apply (HQ ys); [|done|done]. eapply updates_hset; [done|done|].
    split; cbn; [done|unfold len in *; lia|unfold len in *; lia|by exists rest| |done].
    rewrite hd_max, E, !len_app, !len_cells. unfold len. lia.
Qed.

(** The comparators of the package. *)
#[export] Instance list_int_cmp_ok : SortComparator list_int_cmp.
Proof. split; unfold list_int_cmp; intros; repeat case_match; lia. Qed.

#[export] Instance list_oid_cmp_ok : SortComparator list_oid_cmp.
Proof. split; unfold list_oid_cmp; intros; repeat case_match; lia. Qed.

Lemma list_oid_cmp_le x y : list_oid_cmp x y <= 0 <-> x <= y.
Proof. unfold list_oid_cmp. repeat case_match; lia. Qed.

(** * Deep release *)
Lemma free_deep_spec h p xs (Q : unit -> Heap -> Prop) :
  rep h (Some p) T_List xs -> NoDup xs -> (forall x, x ∈ xs -> x ∈ chunks h) ->
  Q tt {| lists := delete p (lists h); next := next h; chunks := chunks h ∖ list_to_set xs |} ->
  wpl (list_free_deep cassert (Some p)) h Q.
Proof.
  intros Hr Hnd Hin HQ. unfold list_free_deep. wpl_step. eapply assert_list_spec; [done|]. unfold list_free_private.
  wpl_step. eapply check_spec; [done|]. pose proof Hr as (d & Hp & Hd). do 2 wpl_step. wpl_step. wpl_step.
  rewrite (hd_length _ _ _ Hd).
  apply (foreach_from_spec p T_List xs _ (fun i _ h' => h' = {| lists := lists h; next := next h;
     chunks := chunks h ∖ list_to_set (take (Z.to_nat i) xs) |})).
  - done.
  - pose proof (len_nonneg xs). lia.
  - replace (chunks h ∖ list_to_set (take (Z.to_nat 0) xs)) with (chunks h) by (cbn; set_solver). by destruct h.
  - intros i s h' ->. exists d. done.
  - intros i v s h' Hi Hv ->. wpl_step. unfold wpl, pfree. cbn [chunks lists next].
    pose proof (list_elem_of_lookup_2 _ _ _ Hv) as Hvin.
    assert (Hnew : v ∉ take (Z.to_nat i) xs).
    { rewrite <- (take_drop (Z.to_nat i) xs), NoDup_app in Hnd. destruct Hnd as (_ & Hnd & _). intros Hv'. apply (Hnd v Hv').
      rewrite (drop_S _ _ _ Hv). set_solver. }
    rewrite decide_True by (specialize (Hin v Hvin); set_solver). cbn. f_equal.
    replace (Z.to_nat (i + 1)) with (Datatypes.S (Z.to_nat i)) by lia. rewrite (take_S_r _ _ _ Hv), list_to_set_app_L. set_solver.
  - intros s h' ->. wpl_step. replace (take (Z.to_nat (len xs)) xs) with xs by (symmetry; apply take_ge; unfold len; lia).
    unfold wpl, pfree_list. cbn [lists]. rewrite Hp. exact HQ.
Qed.

End operations.
