(* ===== verification/PgListProps.v ===== *)
(** The properties of the list package: sequences of updates refine sequences of
    operations on mathematical lists, the set operations, deletion while
    iterating, sorting with deduplication, and the length limit. *)
From stdpp Require Import gmap sorting.
From S2P Require Import Prelude.
From S2P Require Import BitUtils.
From S2P Require Import SortTemplate.
From S2P Require Import SortProps.
From S2P Require Import BinaryHeap.
From S2P Require Import ExtStats.
From S2P Require Import PgList.
From S2P Require Import PgListSpec.
From S2P Require Import PgListOps.
Open Scope Z_scope.

(** * Programs of updates *)

(** The updates of a list variable: each is [list = op(list, ...)].  Some use a
    second list, [other]. *)
Inductive Update :=
| Append (v : Z) | Cons (v : Z) | InsertNth (pos v : Z)
| Concat | ConcatSelf | ConcatCopy | Truncate (n : Z) | Copy | CopyTail (n : Z)
| Delete (v : Z) | DeleteNth (n : Z) | DeleteFirst | DeleteLast | DeleteFirstN (n : Z)
| AppendUnique (v : Z) | ConcatUnique | Union | Intersection | Difference.

Definition exec (cassert : bool) (tag : NodeTag) (eq : Z -> Z -> bool) (other : option Z) (u : Update) (l : option Z)
  : L (option Z) :=
  match u with
  | Append v => append_cell cassert tag l v
  | Cons v => cons_cell cassert tag v l
  | InsertNth pos v => insert_cell cassert tag l pos v
  | Concat => list_concat cassert l other
  | ConcatSelf => list_concat cassert l l
  | ConcatCopy => list_concat_copy cassert l other
  | Truncate n => list_truncate l n
  | Copy => list_copy cassert l
  | CopyTail n => list_copy_tail cassert l n
  | Delete v => delete_cell cassert tag eq l v
  | DeleteNth n => match l with Some p => list_delete_nth_cell cassert p n | None => mret None end
  | DeleteFirst => list_delete_first cassert l
  | DeleteLast => list_delete_last cassert l
  | DeleteFirstN n => list_delete_first_n cassert l n
  | AppendUnique v => append_unique cassert tag eq l v
  | ConcatUnique => concat_unique cassert tag eq l other
  | Union => union_lists cassert tag eq l other
  | Intersection => intersect_lists cassert tag eq l other
  | Difference => subtract_lists cassert tag eq l other
  end.

(** The same update of a mathematical list; [None] if an index is out of range
    or the list may grow too long. *)
Definition when {A} (b : bool) (a : A) : option A := if b then Some a else None.

Definition apply_update (eq : Z -> Z -> bool) (ys : list Z) (u : Update) (xs : list Z) : option (list Z) :=
  let fits zs := len zs <=? MaxListLength - LIST_HEADER_OVERHEAD in
  let guard zs := when (fits zs) zs in
  match u with
  | Append v => guard (xs ++ [v])
  | Cons v => guard (v :: xs)
  | InsertNth pos v =>
      when ((0 <=? pos) && (pos <=? len xs) && fits (v :: xs)) (take (Z.to_nat pos) xs ++ v :: drop (Z.to_nat pos) xs)
  | Concat | ConcatCopy => guard (xs ++ ys)
  | ConcatSelf => guard (xs ++ xs)
  | Truncate n => Some (take (Z.to_nat n) xs)
  | Copy => guard xs
  | CopyTail n => when (fits xs) (drop (Z.to_nat n) xs)
  | Delete v => Some (remove_first (fun x => eq x v) xs)
  | DeleteNth n => when ((0 <=? n) && (n <? len xs)) (take (Z.to_nat n) xs ++ drop (Z.to_nat (n + 1)) xs)
  | DeleteFirst => Some (drop 1 xs)
  | DeleteLast => Some (take (Datatypes.length xs - 1) xs)
  | DeleteFirstN n => Some (drop (Z.to_nat n) xs)
  | AppendUnique v => when (fits (v :: xs)) (union_of eq xs [v])
  | ConcatUnique | Union => when (fits (xs ++ ys)) (union_of eq xs ys)
  | Intersection => Some (List.filter (member eq ys) xs)
  | Difference => when (fits xs) (List.filter (fun v => negb (member eq ys v)) xs)
  end.

Fixpoint exec_all cassert tag eq other (us : list Update) (l : option Z) : L (option Z) :=
  match us with
  | [] => mret l
  | u :: us => l ← exec cassert tag eq other u l; exec_all cassert tag eq other us l
  end.

Fixpoint apply_all eq (ys : list Z) (us : list Update) (xs : list Z) : option (list Z) :=
  match us with
  | [] => Some xs
  | u :: us => xs ← apply_update eq ys u xs; apply_all eq ys us xs
  end.

Lemma updates_fresh h l tag ys l' h' : updates h None tag ys l' h' -> updates h l tag ys l' h'.
Proof.
  intros [Hr [] Hp]. split; [done|split; [done|done|done|]|].
  - intros q _. apply mo_same. set_solver.
  - intros p He. right. destruct (Hp p He); [done|lia].
Qed.

(** The result of an update is not the other list. *)
Lemma updates_disjoint h l tag ys l' h' k tag' zs :
  heap_ok h -> rep h k tag' zs -> ptr k ## ptr l -> updates h l tag ys l' h' -> ptr k ## ptr l'.
Proof.
  intros Hok Hk Hd Hu. destruct l' as [p|]; [|set_solver]. destruct k as [q|]; [|set_solver].
  destruct Hk as (d & Hq & _). apply Hok in Hq. cbn in *.
  destruct (up_ptr _ _ _ _ _ _ Hu p eq_refl) as [->|]; [done|]. assert (p <> q) by lia. set_solver.
Qed.

Lemma when_Some {A} b (a c : A) : when b a = Some c -> b = true /\ c = a.
Proof. destruct b; [|done]. by intros [= ->]. Qed.

Ltac split_when :=
  repeat match goal with
  | H : when _ _ = Some _ |- _ => apply when_Some in H as [H ->]
  | H : Some _ = Some _ |- _ => injection H as <-
  | H : (_ && _)%bool = true |- _ => apply andb_true_iff in H as [? ?]
  | H : (_ <=? _) = true |- _ => apply Z.leb_le in H
  | H : (_ <? _) = true |- _ => apply Z.ltb_lt in H
  end.

(** * Stores for the witnesses *)

(** A list of [xs] with [m] cells. *)
Definition header (tag : NodeTag) (xs : list Z) (m : Z) : List :=
  {| type := tag; length := len xs; max_length := m;
     elements := (Some <$> xs) ++ replicate (Z.to_nat (m - len xs)) None; separate := false |}.

Definition two_lists (tag : NodeTag) (xs ys : list Z) : Heap :=
  halloc (halloc empty_heap (header tag xs 5)) (header tag ys 5).

Lemma empty_heap_ok : heap_ok empty_heap.
Proof. done. Qed.

Lemma two_lists_ok tag xs ys : heap_ok (two_lists tag xs ys).
Proof. eapply mo_ok, (modifies_halloc ∅), mo_ok, (modifies_halloc ∅), empty_heap_ok. Qed.

Lemma two_lists_rep tag xs ys :
  1 <= len xs <= 5 -> 1 <= len ys <= 5 ->
  rep (two_lists tag xs ys) (Some 1) tag xs /\ rep (two_lists tag xs ys) (Some 2) tag ys.
Proof.
  intros Hx Hy. split; eexists; (split; [reflexivity|]); apply holds_new; unfold MaxListLength; lia.
Qed.

Lemma exec_spec cassert tag eq other u h l xs ys zs (Q : option Z -> Heap -> Prop) :
  heap_ok h -> rep h l tag xs -> rep h other tag ys -> ptr other ## ptr l ->
  apply_update eq ys u xs = Some zs ->
  (forall l' h', updates h l tag zs l' h' -> Q l' h') ->
  wpl (exec cassert tag eq other u l) h Q.
Proof.
  intros Hok Hl Hk Hd Hu HQ. assert (HQ' : forall l' h', updates h None tag zs l' h' -> Q l' h').
  { intros l' h' H. by apply HQ, updates_fresh. }
  pose proof (rep_len _ _ _ _ Hl). pose proof (len_nonneg xs). pose proof (len_nonneg ys).
  assert (Hover : LIST_HEADER_OVERHEAD = 3) by done.
  destruct u; cbn [apply_update exec] in *; split_when; rewrite ?len_app, ?len_cons, ?len_nil, ?Hover in *.
  - apply append_spec with (xs := xs); [done|done|lia|done].
  - apply cons_spec with (xs := xs); [done|done|lia|done].
  - assert (Hp : len (take (Z.to_nat pos) xs) = pos) by (unfold len in *; rewrite length_take; lia).
    rewrite <- Hp at 1. apply insert_spec with (ys := drop (Z.to_nat pos) xs); rewrite ?take_drop; [done|done|lia|done].
  - eapply concat_spec; [done|done|done|rewrite len_app; destruct l; lia|done].
  - eapply concat_spec; [done|done|done|rewrite len_app; destruct l; lia|done].
  - eapply concat_copy_spec; [done|done|done|rewrite len_app; lia|done].
  - by eapply truncate_spec.
  - eapply copy_spec; [done|done|lia|done].
  - eapply copy_tail_spec; [done|done|lia|done].
  - by eapply delete_spec.
  - destruct (lookup_lt_is_Some_2 xs (Z.to_nat n)) as [x Hx]; [unfold len in *; lia|].
    destruct (split_at xs n x) as [Hxs Hn]; [lia|done|]. destruct l as [p|]; [|by cbn in Hl; subst].
    rewrite Hxs in Hl. rewrite <- Hn at 1. eapply delete_nth_spec; [done|done|]. intros l' h' Hup _. apply HQ.
    by replace (Z.to_nat (n + 1)) with (S (Z.to_nat n)) by lia.
  - by eapply delete_first_spec.
  - by eapply delete_last_spec.
  - by eapply delete_first_n_spec.
  - eapply append_unique_spec; [done|done|lia|done].
  - eapply concat_unique_spec; [done|done|done|done|lia|done].
  - eapply union_spec; [done|done|done|lia|done].
  - by eapply intersect_spec.
  - eapply subtract_spec; [done|done|done|lia|done].
Qed.

(** C40. Any sequence of updates of a list variable does to the cells in the
    store what the same operations do to a mathematical list, as long as indexes
    are in range and the length stays under the allocation limit: no access is
    out of bounds, no assertion fails, no freed memory is used.  The second list
    keeps its elements, and no list other than the one the variable held changes.
    [list_concat(l, l)] is one of the updates. *)
Theorem list_updates_refine cassert tag eq other us h l xs ys zs :
  heap_ok h -> rep h l tag xs -> rep h other tag ys -> ptr other ## ptr l ->
  apply_all eq ys us xs = Some zs ->
  exists l' h', exec_all cassert tag eq other us l h = Ok (l', h') /\
    updates h l tag zs l' h' /\ rep h' other tag ys.
Proof.
  revert h l xs. induction us as [|u us IH]; intros h l xs Hok Hl Hk Hd Hrun; cbn [apply_all exec_all] in *.
  { injection Hrun as <-. exists l, h. split; [done|]. split; [by apply updates_refl|done]. }
  destruct (apply_update eq ys u xs) as [xs1|] eqn:E; [|done]. cbn in Hrun.
  pose proof (exec_spec cassert tag eq other u h l xs ys xs1 (fun l1 h1 => updates h l tag xs1 l1 h1) Hok Hl Hk Hd E
    ltac:(done)) as Hw. unfold mbind, L_bind. unfold wpl in Hw. apply wp_ok in Hw as ([l1 h1] & -> & Hu). cbn [mbind res_bind].
  assert (Hk1 : rep h1 other tag ys) by (by eapply updates_frame).
  destruct (IH h1 l1 xs1) as (l' & h' & Hr & Hu' & Hk'); [by eapply updates_ok|apply (up_rep _ _ _ _ _ _ Hu)|done| |done|].
  { by eapply updates_disjoint. }
  exists l', h'. split; [exact Hr|]. split; [by eapply updates_trans|done].
Qed.

Lemma list_updates_refine_witness :
  let h := two_lists T_IntList [3; 1; 2] [2; 7] in
  let us := [Append 4; ConcatSelf; Cons 9; InsertNth 2 8; Delete 1; DeleteNth 0; Union; DeleteLast; Difference; Truncate 6] in
  exists l' h', exec_all true T_IntList Z.eqb (Some 2) us (Some 1) h = Ok (l', h') /\
    updates h (Some 1) T_IntList [3; 8; 4; 3; 1; 4] l' h' /\ rep h' (Some 2) T_IntList [2; 7].
Proof.
  cbv zeta. destruct (two_lists_rep T_IntList [3; 1; 2] [2; 7] ltac:(done) ltac:(done)) as [H1 H2].
  apply (list_updates_refine true T_IntList Z.eqb (Some 2) _ _ (Some 1) [3; 1; 2] [2; 7]).
  - apply two_lists_ok.
  - exact H1.
  - exact H2.
  - cbn. set_solver.
  - vm_compute. reflexivity.
Defined.

(** * Lists as sets *)
Lemma member_eqb xs v : member Z.eqb xs v = true <-> v ∈ xs.
Proof.
  unfold member. rewrite existsb_exists. split.
  - intros (x & Hx & ->%Z.eqb_eq). by apply list_elem_of_In.
  - intros Hv. exists v. split; [by apply list_elem_of_In|apply Z.eqb_refl].
Qed.

Lemma elem_of_List_filter (f : Z -> bool) xs v : v ∈ List.filter f xs <-> v ∈ xs /\ f v = true.
Proof. rewrite !list_elem_of_In. apply filter_In. Qed.

Lemma NoDup_List_filter (f : Z -> bool) xs : NoDup xs -> NoDup (List.filter f xs).
Proof.
  induction 1 as [|x xs Hx Hn IH]; cbn; [constructor|]. destruct (f x); [|done].
  constructor; [|done]. rewrite elem_of_List_filter. tauto.
Qed.

Lemma union_of_snoc xs v :
  union_of Z.eqb xs [v] = if decide (v ∈ xs) then xs else xs ++ [v].
Proof.
  unfold union_of, extend. cbn. pose proof (member_eqb xs v). destruct (member Z.eqb xs v); cbn; case_decide; naive_solver.
Qed.

Lemma union_of_cons xs y ys : union_of Z.eqb xs (y :: ys) = union_of Z.eqb (union_of Z.eqb xs [y]) ys.
Proof. done. Qed.

Lemma union_of_elem ys : forall xs v, v ∈ union_of Z.eqb xs ys <-> v ∈ xs \/ v ∈ ys.
Proof.
  induction ys as [|y ys IH]; intros xs v; [cbn; set_solver|].
  rewrite union_of_cons, IH, union_of_snoc. case_decide; set_solver.
Qed.

Lemma union_of_NoDup ys : forall xs, NoDup xs -> NoDup (union_of Z.eqb xs ys).
Proof.
  induction ys as [|y ys IH]; intros xs Hn; [done|]. rewrite union_of_cons. apply IH. rewrite union_of_snoc.
  case_decide; [done|]. apply NoDup_app. split_and!; [done|set_solver|apply NoDup_singleton].
Qed.

Lemma union_of_app ys : forall xs, exists ext, union_of Z.eqb xs ys = xs ++ ext.
Proof.
  induction ys as [|y ys IH]; intros xs; [exists []; by rewrite app_nil_r|]. rewrite union_of_cons, union_of_snoc.
  destruct (decide (y ∈ xs)); [apply IH|]. destruct (IH (xs ++ [y])) as [ext ->]. exists (y :: ext). by rewrite <- app_assoc.
Qed.

Lemma filter_sublist (f : Z -> bool) xs : List.filter f xs `sublist_of` xs.
Proof. induction xs as [|x xs IH]; cbn; [constructor|]. destruct (f x); by constructor. Qed.

(** The call returns a list that holds [zs]; only the list [l] of the store may
    change. *)
Definition makes_of (m : L (option Z)) (h : Heap) (l : option Z) (tag : NodeTag) (zs : list Z) : Prop :=
  exists l' h', m h = Ok (l', h') /\ updates h l tag zs l' h'.

Lemma makes_of_intro m h l tag zs : wpl m h (fun l' h' => updates h l tag zs l' h') -> makes_of m h l tag zs.
Proof. unfold wpl. intros ([l' h'] & Hm & Hu)%wp_ok. by exists l', h'. Qed.

(** The call returns a new list with contents that satisfy [P], and no list of
    the store changes. *)
Definition makes (m : L (option Z)) (h : Heap) (tag : NodeTag) (P : list Z -> Prop) : Prop :=
  exists l' h' zs, m h = Ok (l', h') /\ updates h None tag zs l' h' /\ P zs.

Lemma makes_intro m h tag zs (P : list Z -> Prop) :
  wpl m h (fun l' h' => updates h None tag zs l' h') -> P zs -> makes m h tag P.
Proof. unfold wpl. intros ([l' h'] & Hm & Hu)%wp_ok HP. by exists l', h', zs. Qed.

(** The pointer, integer and OID versions of the set operations:
    [list_member] decides membership; [list_union], [list_intersection] and
    [list_difference] make new lists that hold the union (the first list, then
    what the second adds), the intersection and the difference of the two sets
    (in the order of the first list), without duplicates if the first list has
    none.  No list of the store changes, and the two arguments may be one list. *)
Theorem list_set_operations cassert tag h l1 l2 xs ys :
  heap_ok h -> rep h l1 tag xs -> rep h l2 tag ys ->
  len xs + len ys <= MaxListLength - LIST_HEADER_OVERHEAD ->
  (forall v, member_cell cassert tag Z.eqb l1 v h = Ok (bool_decide (v ∈ xs), h)) /\
  makes (union_lists cassert tag Z.eqb l1 l2) h tag (fun zs =>
    (forall v, v ∈ zs <-> v ∈ xs \/ v ∈ ys) /\ (NoDup xs -> NoDup zs) /\ exists ext, zs = xs ++ ext) /\
  makes (intersect_lists cassert tag Z.eqb l1 l2) h tag (fun zs =>
    (forall v, v ∈ zs <-> v ∈ xs /\ v ∈ ys) /\ (NoDup xs -> NoDup zs) /\ zs `sublist_of` xs) /\
  makes (subtract_lists cassert tag Z.eqb l1 l2) h tag (fun zs =>
    (forall v, v ∈ zs <-> v ∈ xs /\ v ∉ ys) /\ (NoDup xs -> NoDup zs) /\ zs `sublist_of` xs).
Proof.
  intros Hok H1 H2 Hlen. pose proof (len_nonneg ys).
  split_and!; [|eapply makes_intro; [by eapply union_spec|]|eapply makes_intro; [by eapply intersect_spec|]
    |eapply makes_intro; [eapply subtract_spec; [done|done|done|lia|done]|]]; try split_and!.
  - intros v. apply wp_eq. eapply wp_mono; [apply (member_spec cassert h l1 tag xs Z.eqb v (fun b h' => b = bool_decide (v ∈ xs) /\ h' = h)); [done|]|].
    + split; [|done]. apply Bool.eq_iff_eq_true. by rewrite member_eqb, bool_decide_eq_true.
    + by intros [b h'] [-> ->].
  - apply union_of_elem.
  - apply union_of_NoDup.
  - apply union_of_app.
  - intros v. by rewrite elem_of_List_filter, member_eqb.
  - apply NoDup_List_filter.
  - apply filter_sublist.
  - intros v. rewrite elem_of_List_filter, negb_true_iff, <- not_true_iff_false, member_eqb. done.
  - apply NoDup_List_filter.
  - apply filter_sublist.
Qed.

Lemma list_set_operations_witness :
  let h := two_lists T_OidList [3; 1; 2] [2; 7] in
  makes (list_union_oid true (Some 1) (Some 2)) h T_OidList (fun zs => NoDup zs /\ 7 ∈ zs) /\
  makes (list_difference_oid true (Some 1) (Some 1)) h T_OidList (fun zs => 3 ∉ zs).
Proof.
  cbv zeta. destruct (two_lists_rep T_OidList [3; 1; 2] [2; 7] ltac:(done) ltac:(done)) as [H1 H2].
  assert (Hok := two_lists_ok T_OidList [3; 1; 2] [2; 7]). split.
  - destruct (list_set_operations true T_OidList _ _ _ [3; 1; 2] [2; 7] Hok H1 H2 ltac:(done)) as (_ & Hu & _).
    destruct Hu as (l' & h' & zs & Hr & Hup & Hin & Hnd & _). exists l', h', zs. split; [exact Hr|]. split; [exact Hup|].
    split; [|apply Hin; set_solver]. apply Hnd. apply (bool_decide_unpack _). vm_compute. exact I.
  - destruct (list_set_operations true T_OidList _ _ _ [3; 1; 2] [3; 1; 2] Hok H1 H1 ltac:(done)) as (_ & _ & _ & Hu).
    destruct Hu as (l' & h' & zs & Hr & Hup & Hin & _). exists l', h', zs. split; [exact Hr|]. split; [exact Hup|].
    rewrite Hin. set_solver.
Defined.

(** * Deletion while iterating *)

(** The idiom [foreach(cell, list) if (test) list =
    foreach_delete_current(list, cell)] visits every element once, although the
    deletion moves the cells that follow and the list may be freed: it ends, and
    the list that remains holds the elements that fail the test, in order. *)
Theorem foreach_delete_filters cassert tag test h l xs :
  heap_ok h -> rep h l tag xs ->
  exists l' h', foreach_delete cassert (Datatypes.length xs) test l 0 h = Ok (l', h') /\
    updates h l tag (List.filter (fun x => negb (test x)) xs) l' h'.
Proof.
  intros Hok Hr.
  pose proof (foreach_delete_spec cassert h l tag test xs
    (fun l' h' => updates h l tag (List.filter (fun x => negb (test x)) xs) l' h') (Datatypes.length xs) [] l h
    (updates_refl _ _ _ _ Hok Hr) Hok ltac:(done) ltac:(done)) as Hw.
  unfold wpl in Hw. apply wp_ok in Hw as ([l' h'] & He & Hu). by exists l', h'.
Qed.

Lemma foreach_delete_filters_witness :
  exists l' h', foreach_delete true 3 Z.odd (Some 1) 0 (two_lists T_IntList [3; 1; 5] [2; 7]) = Ok (l', h') /\
    updates (two_lists T_IntList [3; 1; 5] [2; 7]) (Some 1) T_IntList [] l' h'.
Proof.
  destruct (two_lists_rep T_IntList [3; 1; 5] [2; 7] ltac:(done) ltac:(done)) as [H1 H2].
  exact (foreach_delete_filters true T_IntList Z.odd _ _ [3; 1; 5] (two_lists_ok _ _ _) H1).
Defined.

(** * Sorting and deduplication *)
Lemma squash_elem xs : forall v, v ∈ squash xs <-> v ∈ xs.
Proof.
  induction xs as [|x xs IH] using rev_ind; intros v; [done|]. rewrite squash_snoc. case_decide as H.
  - assert (x ∈ xs) by (apply IH; rewrite last_lookup in H; by eapply list_elem_of_lookup_2). set_solver.
  - set_solver.
Qed.

Lemma sorted_last xs x y : StronglySorted Z.le (xs ++ [x]) -> y ∈ xs -> y <= x.
Proof. intros H Hy. apply (StronglySorted_app_1_elem_of Z.le xs [x]); [done|done|set_solver]. Qed.

Lemma squash_sorted xs : StronglySorted Z.le xs -> StronglySorted Z.lt (squash xs).
Proof.
  induction xs as [|x xs IH] using rev_ind; intros Hs; [constructor|]. rewrite squash_snoc.
  pose proof (StronglySorted_app_1_l _ _ _ Hs) as Hxs.
  case_decide as Hl; [by apply IH|]. apply StronglySorted_app_2; [|by apply IH|by repeat constructor].
  intros a b Ha ->%list_elem_of_singleton. pose proof (proj1 (squash_elem _ _) Ha) as Ha'.
  pose proof (sorted_last _ _ _ Hs Ha'). destruct (Z.eq_dec a x) as [->|]; [|lia]. exfalso. apply Hl. rewrite squash_last.
  destruct (last xs) as [w|] eqn:Ew; [|apply last_None in Ew; subst; set_solver].
  apply last_Some in Ew as [init ->]. f_equal. apply Z.le_antisymm; [apply (sorted_last _ _ w Hs); set_solver|].
  apply elem_of_app in Ha' as [Hi|Hi%list_elem_of_singleton]; [by apply (sorted_last init)|by subst].
Qed.

(** [list_sort] with [list_oid_cmp] and then [list_deduplicate_oid], the
    two calls that make a set of OIDs of a list, end without an access outside
    the list, work in place, and leave the OIDs of the list, each once, in
    increasing order. *)
Theorem list_sort_deduplicate cassert h l xs :
  heap_ok h -> rep h l T_OidList xs ->
  exists h' ys, (list_sort cassert l list_oid_cmp;; list_deduplicate_oid cassert l) h = Ok (tt, h') /\
    updates h l T_OidList ys l h' /\ StronglySorted Z.lt ys /\ forall v, v ∈ ys <-> v ∈ xs.
Proof.
  intros Hok Hr.
  assert (Hw : wpl (list_sort cassert l list_oid_cmp;; list_deduplicate_oid cassert l) h (fun _ h' =>
    exists ys, updates h l T_OidList ys l h' /\ StronglySorted Z.lt ys /\ forall v, v ∈ ys <-> v ∈ xs)).
  { wpl_step. eapply sort_spec; [done|done|]. intros ys h1 Hu Hp Hs.
    apply (dedup_spec cassert h1 l ys); [by eapply updates_ok|apply (up_rep _ _ _ _ _ _ Hu)|]. intros h2 Hu2.
    exists (squash ys). split_and!; [by eapply updates_trans| |].
    - apply squash_sorted. eapply StronglySorted_mono; [|by apply Hs, list_oid_cmp_ok]. intros x y. apply list_oid_cmp_le.
    - intros v. by rewrite squash_elem, Hp. }
  unfold wpl in Hw. apply wp_ok in Hw as ([[] h'] & He & ys & H). by exists h', ys.
Qed.

Lemma list_sort_deduplicate_witness :
  exists h' ys, (list_sort true (Some 1) list_oid_cmp;; list_deduplicate_oid true (Some 1)) (two_lists T_OidList [3; 1; 3; 2] [2; 7])
      = Ok (tt, h') /\
    updates (two_lists T_OidList [3; 1; 3; 2] [2; 7]) (Some 1) T_OidList ys (Some 1) h' /\ StronglySorted Z.lt ys /\
    forall v, v ∈ ys <-> v ∈ [3; 1; 3; 2].
Proof.
  destruct (two_lists_rep T_OidList [3; 1; 3; 2] [2; 7] ltac:(done) ltac:(done)) as [H1 H2].
  exact (list_sort_deduplicate true _ _ _ (two_lists_ok _ _ _) H1).
Defined.

(** * The length limit *)
Definition too_big : string := "invalid memory alloc request size".

Lemma wpl_exact {A} (m : L A) h a : wpl m h (fun b h' => b = a /\ h' = h) -> m h = Ok (a, h).
Proof. unfold wpl. intros ([b h'] & Hm & -> & ->)%wp_ok. done. Qed.

Lemma bind_run {A B} (m : L A) (k : A -> L B) h a h' : m h = Ok (a, h') -> (m ≫= k) h = k a h'.
Proof. unfold mbind at 1, L_bind. by intros ->. Qed.

Lemma bind_fails {A B} (m : L A) (k : A -> L B) h e : m h = Err e -> (m ≫= k) h = Err e.
Proof. unfold mbind at 1, L_bind. by intros ->. Qed.

Lemma load_run h p d : lists h !! p = Some d -> load p h = Ok (d, h).
Proof. unfold load. by intros ->. Qed.

Lemma assert_run cassert b what h : b = true -> Assert cassert b what h = Ok (tt, h).
Proof. intros Hb. apply wpl_exact. by apply wpl_assert. Qed.

Lemma check_size_fails size h : MaxAllocSize < size < 2 ^ 64 -> check_size size h = Err too_big.
Proof.
  unfold check_size, MaxAllocSize. intros H. rewrite u64_small by lia. by destruct (Z.ltb_spec 0x3fffffff size); [|lia].
Qed.

(** More than [2 ^ 26] cells need [2 ^ 27]. *)
Lemma nextpower2_big n : 2 ^ 26 < n <= 2 ^ 26 + 3 -> pg_nextpower2_32 n = Ok (2 ^ 27).
Proof.
  intros Hn. destruct (nextpower2_32_ok n) as (k & -> & Hk & Hle); [lia|]. do 2 f_equal.
  assert (2 ^ 26 < 2 ^ k) as H1%Z.pow_lt_mono_r_iff by lia; [|lia|lia].
  assert (2 ^ k < 2 ^ 28) as H2%Z.pow_lt_mono_r_iff by lia; lia.
Qed.

Lemma enlarge_fails cassert h p d tag xs :
  lists h !! p = Some d -> holds d tag xs -> len xs = MaxListLength -> make_room cassert p h = Err too_big.
Proof.
  intros Hp Hd Hlen. pose proof Hd as []. unfold MaxListLength in *. destruct hd_cells as [rest E].
  assert (Hm : max_length d = 2 ^ 26) by (rewrite E, len_app, len_cells in hd_max; pose proof (len_nonneg rest); lia).
  unfold make_room. erewrite bind_run by (by apply load_run). rewrite hd_length, Hm, Hlen.
  rewrite (i32_small (2 ^ 26 + 1)) by lia. change (2 ^ 26 <=? 2 ^ 26) with true. cbn iota.
  unfold enlarge_list. erewrite bind_run by (by apply load_run).
  rewrite Hm. erewrite bind_run by (by apply assert_run). change (u32 (Z.max 16 (2 ^ 26 + 1))) with (2 ^ 26 + 1).
  rewrite nextpower2_big by lia. erewrite bind_run by reflexivity. apply bind_fails. apply check_size_fails.
  change (i32 (2 ^ 27)) with (2 ^ 27). unfold MaxAllocSize, sizeof_ListCell. lia.
Qed.

Lemma new_list_fails cassert h tag n :
  MaxListLength - LIST_HEADER_OVERHEAD < n <= MaxListLength -> new_list cassert tag n h = Err too_big.
Proof.
  unfold MaxListLength, new_list. change LIST_HEADER_OVERHEAD with 3. intros Hn.
  erewrite bind_run by (apply assert_run, Z.ltb_lt; lia). rewrite (i32_small (n + 3)) by lia. rewrite u32_small by lia.
  rewrite Z.max_r by lia. rewrite nextpower2_big by lia. erewrite bind_run by reflexivity. apply bind_fails. apply check_size_fails.
  change (i32 (i32 (2 ^ 27) - 3)) with (2 ^ 27 - 3). unfold MaxAllocSize, sizeof_ListCell, offsetof_initial_elements. lia.
Qed.

(** How long a list can be.  [lappend] and [lcons] succeed on every list of
    fewer than [2 ^ 26] elements and raise "invalid memory alloc request size",
    before anything changes, on a list of [2 ^ 26]; a list of more than
    [2 ^ 26 - 3] elements can be extended but [list_copy] of it raises the
    error. *)
Theorem list_length_limit cassert tag h p xs v :
  heap_ok h -> rep h (Some p) tag xs ->
  len xs <= MaxListLength /\
  (if len xs <? MaxListLength
   then makes_of (append_cell cassert tag (Some p) v) h (Some p) tag (xs ++ [v]) /\
        makes_of (cons_cell cassert tag v (Some p)) h (Some p) tag (v :: xs)
   else append_cell cassert tag (Some p) v h = Err too_big /\ cons_cell cassert tag v (Some p) h = Err too_big) /\
  (if len xs <=? MaxListLength - LIST_HEADER_OVERHEAD
   then makes_of (list_copy cassert (Some p)) h None tag xs
   else list_copy cassert (Some p) h = Err too_big).
Proof.
  intros Hok Hr. pose proof (rep_len _ _ _ _ Hr) as Hlen. split; [done|].
  pose proof Hr as (d & Hp & Hd). assert (Ha : assert_list cassert tag (Some p) h = Ok (tt, h)).
  { apply wpl_exact. by eapply assert_list_spec. }
  split.
  - destruct (Z.ltb_spec (len xs) MaxListLength).
    + split; apply makes_of_intro; [by apply append_spec with (xs := xs)|by apply cons_spec with (xs := xs)].
    + unfold append_cell, cons_cell, new_tail_cell, new_head_cell. split; (erewrite bind_run by exact Ha);
        apply bind_fails, bind_fails, bind_fails; (eapply enlarge_fails; [done|done|lia]).
  - destruct (Z.leb_spec (len xs) (MaxListLength - LIST_HEADER_OVERHEAD)).
    + apply makes_of_intro. by apply copy_spec with (tag := tag) (xs := xs).
    + cbn [list_copy]. erewrite bind_run by (by apply load_run). apply bind_fails. apply new_list_fails.
      rewrite (hd_length _ _ _ Hd). lia.
Qed.

(** A store with a list of [2 ^ 26] zeros. *)
Lemma list_length_limit_witness :
  exists h p xs, rep h (Some p) T_IntList xs /\ len xs = MaxListLength /\
    lappend_int true (Some p) 7 h = Err too_big /\ list_copy true (Some p) h = Err too_big.
Proof.
  set (xs := replicate (Z.to_nat MaxListLength) 0). set (d := header T_IntList xs MaxListLength).
  assert (Hx : len xs = MaxListLength) by (unfold xs; rewrite len_replicate; unfold MaxListLength; lia).
  assert (Hd : holds d T_IntList xs) by (apply holds_new; unfold MaxListLength in *; lia).
  assert (Hr : rep (halloc empty_heap d) (Some 1) T_IntList xs) by (exists d; split; [apply halloc_lookup|exact Hd]).
  exists (halloc empty_heap d), 1, xs. split; [exact Hr|]. split; [exact Hx|].
  destruct (list_length_limit true T_IntList (halloc empty_heap d) 1 xs 7) as (_ & Ha & Hc).
  - eapply mo_ok, (modifies_halloc ∅), empty_heap_ok.
  - exact Hr.
  - rewrite Hx in Ha, Hc. rewrite Z.ltb_irrefl in Ha.
    replace (MaxListLength <=? MaxListLength - LIST_HEADER_OVERHEAD) with false in Hc by (symmetry; apply Z.leb_gt; reflexivity).
    destruct Ha as [Ha _]. unfold lappend_int. split; assumption.
Defined.
