(* ===== verification/MvDistinct.v ===== *)
(** N-distinct statistics, src/postgresql/src/backend/statistics/mvdistinct.c: the
    generator of combinations of columns, the number of distinct groups
    estimated for a combination, [statext_ndistinct_build], the bytea format and
    its output as text.

    Sizes, bytes and the sort are those of Dependencies.v and ExtStats.v.  An
    array of int that was allocated and not yet written holds [None]. *)
From S2P Require Import Prelude.
From S2P Require Import Double.
From S2P Require Import SortTemplate.
From S2P Require Import BinaryHeap.
From S2P Require Import ExtStats.
From S2P Require Import Dependencies.
From stdpp Require Import pretty.
Open Scope Z_scope.

Definition STATS_NDISTINCT_MAGIC : Z := 0xA352BFA4.
Definition STATS_NDISTINCT_TYPE_BASIC : Z := 1.

Record MVNDistinctItem := { ndistinct : double; item_natts : Z; item_atts : list Z }.

Record MVNDistinct := { nd_magic : Z; nd_type : Z; nitems : Z; items : list MVNDistinctItem }.

(** * Doubles *)

(** [floor] of the C library. *)
Definition d_floor (x : double) : double :=
  match x with
  | S754_finite s m e =>
      if 0 <=? e then x
      else match (if s then - Z.pos m else Z.pos m) / 2 ^ (- e) with
           | 0 => S754_zero s
           | z => d_of_Z z
           end
  | _ => x
  end.

(** Conversion to [int]: towards zero, undefined if the value does not fit. *)
Definition d_to_int (x : double) : res Z :=
  match x with
  | S754_zero _ => Ok 0
  | S754_finite s m e =>
      let a := if 0 <=? e then Z.pos m * 2 ^ e else Z.pos m / 2 ^ (- e) in
      let z := if s then - a else a in
      if (- 2 ^ 31 <=? z) && (z <? 2 ^ 31) then Ok z else UB "conversion of a double outside the range of int"
  | _ => UB "conversion of a double outside the range of int"
  end.

Definition d_half : double := S754_finite false 4503599627370496 (-53).

(** * Combinations *)
Record CombinationGenerator := {
  comb_k : Z;
  comb_n : Z;
  comb_current : Z;
  ncombinations : Z;
  combinations : list (option Z)
}.

Definition set_current (state : CombinationGenerator) (c : Z) (cells : list (option Z)) : CombinationGenerator :=
  {| comb_k := comb_k state; comb_n := comb_n state; comb_current := c; ncombinations := ncombinations state;
     combinations := cells |}.

(** [memcpy] of the combination into its place, then [current++]. *)
Definition store_combination (state : CombinationGenerator) (cur : list Z) : res CombinationGenerator :=
  let at_ := comb_k state * comb_current state in
  if (0 <=? at_) && (at_ + comb_k state <=? len (combinations state)) && (comb_k state =? len cur)
  then Ok (set_current state (i32 (comb_current state + 1))
             (take (Z.to_nat at_) (combinations state) ++ (Some <$> cur) ++
              drop (Z.to_nat (at_ + comb_k state)) (combinations state)))
  else UB "write outside the array".

(** [depth] is the number of levels of the recursion left. *)
Fixpoint generate_combinations_recurse (depth : nat) (state : CombinationGenerator) (index start : Z) (cur : list Z)
  : res (CombinationGenerator * list Z) :=
  if index <? comb_k state then
    match depth with
    | O => UB "fuel"
    | S depth =>
        loop_state (for_up start (comb_n state) (fun i '(state, cur) =>
          cur ← wr cur index i;
          r ← generate_combinations_recurse depth state (index + 1) (i + 1) cur;
          Ok (inl r)) (state, cur))
    end
  else state ← store_combination state cur; Ok (state, cur).

Definition generate_combinations (state : CombinationGenerator) : res CombinationGenerator :=
  '(state, _) ← generate_combinations_recurse (Z.to_nat (comb_k state)) state 0 0 (replicate (Z.to_nat (comb_k state)) 0);
  Ok state.

(** The [k] cells at the pointer that is returned. *)
Definition generator_next (state : CombinationGenerator) : res (option (list Z) * CombinationGenerator) :=
  if comb_current state =? ncombinations state then Ok (None, state)
  else
    match mapM id (take (Z.to_nat (comb_k state))
                     (drop (Z.to_nat (comb_k state * comb_current state)) (combinations state))) with
    | Some c => Ok (Some c, set_current state (i32 (comb_current state + 1)) (combinations state))
    | None => UB "indeterminate value"
    end.

(** [1 << n] is undefined for [n] outside the width of int. *)
Definition num_combinations (n : Z) : res Z :=
  if (0 <=? n) && (n <? 32) then Ok (i32 (i32 (Z.shiftl 1 n) - i32 (n + 1))) else UB "shift by the width or more".

Section ndistinct.
Context (cassert : bool) (T : TypeSystem).

#[local] Abbreviation Assert := (ExtStats.Assert cassert).

Definition n_choose_k (n k : Z) : res Z :=
  Assert ((0 <? k) && (k <=? n)) "(k > 0) && (n >= k)";;
  let k := Z.min k (i32 (n - k)) in
  '(r, _) ← loop_state (for_up 1 (k + 1) (fun d '(r, n) => Ok (inl (Z.quot (i32 (r * n)) d, i32 (n - 1)))) (1, n));
  Ok r.

Definition generator_init (n k : Z) : res CombinationGenerator :=
  Assert ((k <=? n) && (0 <? k)) "(n >= k) && (k > 0)";;
  count ← n_choose_k n k;
  state ← generate_combinations {| comb_k := k; comb_n := n; comb_current := 0; ncombinations := count;
                                   combinations := replicate (Z.to_nat (k * count)) None |};
  Assert (comb_current state =? ncombinations state) "state->current == state->ncombinations";;
  Ok (set_current state 0 (combinations state)).

(** * The estimate for a combination *)
Definition estimate_ndistinct (totalrows : double) (numrows d f1 : Z) : double :=
  let numer := d_mul (d_of_Z numrows) (d_of_Z d) in
  let denom := d_add (d_of_Z (i32 (numrows - f1))) (d_div (d_mul (d_of_Z f1) (d_of_Z numrows)) totalrows) in
  let nd := d_div numer denom in
  let nd := if d_ltb nd (d_of_Z d) then d_of_Z d else nd in
  let nd := if d_ltb totalrows nd then totalrows else nd in
  d_floor (d_add nd d_half).

(** One dimension: its sort support, and its column copied into the items. *)
Definition load_dimension (data : StatsBuildData) (combination : list Z) (i : Z)
    (mss : MultiSortSupportData) (rows : list SortItem) : res (MultiSortSupportData * list SortItem) :=
  c ← rd combination i;
  colstat ← rd (stats data) c;
  let lt_opr := type_lt_opr T (attrtypid colstat) in
  if lt_opr =? InvalidOid then Err "cache lookup failed for ordering operator for type"
  else
    mss ← multi_sort_add_dimension T mss i lt_opr (attrcollid colstat);
    rows ← loop_state (for_up 0 (numrows data) (fun j rows =>
      col ← rd (values data) c;
      v ← rd col j;
      it ← rd rows j;
      vs ← wr (it_values it) i v;
      ncol ← rd (nulls data) c;
      b ← rd ncol j;
      ns ← wr (it_isnull it) i b;
      rows ← wr rows j {| it_values := vs; it_isnull := ns; it_count := it_count it |};
      Ok (inl rows)) rows);
    Ok (mss, rows).

(** The walk through the sorted rows: values seen once so far, rows of the
    current group, groups. *)
Record Groups := { seen_once : Z; cnt : Z; groups : Z }.

Definition count_groups (rows : list SortItem) (mss : MultiSortSupportData) (i : Z) (g : Groups) : res Groups :=
  a ← rd rows i;
  b ← rd rows (i - 1);
  let g := if negb (multi_sort_compare mss a b =? 0)
           then {| seen_once := if cnt g =? 1 then i32 (seen_once g + 1) else seen_once g; cnt := 0;
                   groups := i32 (groups g + 1) |}
           else g in
  Ok {| seen_once := seen_once g; cnt := i32 (cnt g + 1); groups := groups g |}.

Definition ndistinct_for_combination (totalrows : double) (data : StatsBuildData) (k : Z) (combination : list Z)
  : res double :=
  mss ← multi_sort_init cassert k;
  let rows := replicate (Z.to_nat (numrows data)) (blank_item k) in
  '(mss, rows) ← loop_state (for_up 0 k (fun i '(mss, rows) =>
    r ← load_dimension data combination i mss rows; Ok (inl r)) (mss, rows));
  rows ← ST_SORT (multi_sort_compare mss) (frames_for (numrows data)) rows 0 (numrows data);
  g ← loop_state (for_up 1 (numrows data) (fun i g => g ← count_groups rows mss i g; Ok (inl g))
        {| seen_once := 0; cnt := 1; groups := 1 |});
  let f1 := if cnt g =? 1 then i32 (seen_once g + 1) else seen_once g in
  Ok (estimate_ndistinct totalrows (numrows data) (groups g) f1).

(** * All combinations of a sample *)
Definition translate (data : StatsBuildData) (k : Z) (combination : list Z) : res (list Z) :=
  loop_state (for_up 0 k (fun j l =>
    c ← rd combination j;
    a ← rd (attnums data) c;
    Assert (AttributeNumberIsValid a) "AttributeNumberIsValid(item->attributes[j])";;
    Ok (inl (l ++ [a]))) []).

(** The items so far; their number is [itemcnt], and the array has room for
    [room]. *)
Fixpoint build_items (fuel : nat) (totalrows : double) (data : StatsBuildData) (k room : Z)
    (gen : CombinationGenerator) (acc : list MVNDistinctItem) : res (list MVNDistinctItem) :=
  match fuel with
  | O => UB "fuel"
  | S fuel =>
      '(o, gen) ← generator_next gen;
      match o with
      | None => Ok acc
      | Some combination =>
          if room <=? len acc then UB "write outside the array"
          else
            atts ← translate data k combination;
            nd ← ndistinct_for_combination totalrows data k combination;
            let acc := acc ++ [{| ndistinct := nd; item_natts := k; item_atts := atts |}] in
            Assert (len acc <=? room) "itemcnt <= result->nitems";;
            build_items fuel totalrows data k room gen acc
      end
  end.

(** [nitems] is a uint32; the size of the array is the same number as an int. *)
Definition statext_ndistinct_build (totalrows : double) (data : StatsBuildData) : res MVNDistinct :=
  numcombs ← num_combinations (nattnums data);
  l ← loop_state (for_up 2 (nattnums data + 1) (fun k acc =>
    gen ← generator_init (nattnums data) k;
    acc ← build_items (S (Z.to_nat (ncombinations gen))) totalrows data k numcombs gen acc;
    Ok (inl acc)) []);
  Assert (len l =? u32 numcombs) "itemcnt == result->nitems";;
  Ok {| nd_magic := STATS_NDISTINCT_MAGIC; nd_type := STATS_NDISTINCT_TYPE_BASIC; nitems := u32 numcombs; items := l |}.

(** * The bytea format *)
Definition SizeOfHeader : Z := 3 * 4.
Definition SizeOfItem (natts : Z) : Z := 8 + 4 + natts * 2.
Definition MinSizeOfItem : Z := SizeOfItem 2.
Definition MinSizeOfItems (n : Z) : Z := SizeOfHeader + n * MinSizeOfItem.

Definition put_item (it : MVNDistinctItem) (buf : list Z) (tmp : Z) : res (list Z * Z) :=
  '(buf, tmp) ← put_bytes buf tmp (le_bytes 8 (double_bits (ndistinct it)));
  '(buf, tmp) ← put_bytes buf tmp (le_bytes 4 (u32 (item_natts it)));
  if (item_natts it <? 0) || (len (item_atts it) <? item_natts it) then UB "read outside the array"
  else put_bytes buf tmp (concat (attr_bytes <$> take (Z.to_nat (item_natts it)) (item_atts it))).

Definition statext_ndistinct_serialize (nd : MVNDistinct) : res (list Z) :=
  Assert (nd_magic nd =? STATS_NDISTINCT_MAGIC) "ndistinct->magic == STATS_NDISTINCT_MAGIC";;
  Assert (nd_type nd =? STATS_NDISTINCT_TYPE_BASIC) "ndistinct->type == STATS_NDISTINCT_TYPE_BASIC";;
  size ← loop_state (for_up 0 (nitems nd) (fun i size =>
    it ← rd (items nd) i;
    Assert (2 <=? item_natts it) "nmembers >= 2";;
    Ok (inl (u64 (size + SizeOfItem (item_natts it))))) SizeOfHeader);
  let buf := replicate (Z.to_nat size) 0 in
  '(buf, tmp) ← put_bytes buf 0 (le_bytes 4 (nd_magic nd));
  '(buf, tmp) ← put_bytes buf tmp (le_bytes 4 (nd_type nd));
  '(buf, tmp) ← put_bytes buf tmp (le_bytes 4 (nitems nd));
  '(buf, tmp) ← loop_state (for_up 0 (nitems nd) (fun i '(buf, tmp) =>
    it ← rd (items nd) i;
    '(buf, tmp) ← put_item it buf tmp;
    Assert (tmp <=? size) "tmp <= ((char *) output + len)";;
    Ok (inl (buf, tmp))) (buf, tmp));
  Assert (tmp =? size) "tmp == ((char *) output + len)";;
  Ok buf.

Definition get_item (data : list Z) (tmp : Z) : res (MVNDistinctItem * Z) :=
  '(b, tmp) ← get_bytes data tmp 8;
  let nd := double_of_bits (le_val b) in
  '(b, tmp) ← get_bytes data tmp 4;
  let n := i32 (le_val b) in
  Assert ((2 <=? n) && (n <=? STATS_MAX_DIMENSIONS))
    "(item->nattributes >= 2) && (item->nattributes <= STATS_MAX_DIMENSIONS)";;
  if MaxAllocSize <? u64 (n * 2) then Err "invalid memory alloc request size"
  else
    '(b, tmp) ← get_bytes data tmp (2 * n);
    Ok ({| ndistinct := nd; item_natts := n; item_atts := get_attributes (Z.to_nat n) b |}, tmp).

Definition statext_ndistinct_deserialize (data : option (list Z)) : res (option MVNDistinct) :=
  match data with
  | None => Ok None
  | Some data =>
      if len data <? SizeOfHeader then Err "invalid MVNDistinct size"
      else
        '(b, tmp) ← get_bytes data 0 4;
        let magic := le_val b in
        '(b, tmp) ← get_bytes data tmp 4;
        let type := le_val b in
        '(b, tmp) ← get_bytes data tmp 4;
        let n := le_val b in
        if negb (magic =? STATS_NDISTINCT_MAGIC) then Err "invalid ndistinct magic"
        else if negb (type =? STATS_NDISTINCT_TYPE_BASIC) then Err "invalid ndistinct type"
        else if n =? 0 then Err "invalid zero-length item array in MVNDistinct"
        else if len data <? MinSizeOfItems n then Err "invalid MVNDistinct size"
        else
          '(l, tmp) ← loop_state (for_up 0 n (fun i '(l, tmp) =>
            '(it, tmp) ← get_item data tmp;
            Assert (tmp <=? len data) "tmp <= ((char *) data + VARSIZE_ANY(data))";;
            Ok (inl (l ++ [it], tmp))) ([], tmp));
          Assert (tmp =? len data) "tmp == ((char *) data + VARSIZE_ANY(data))";;
          Ok (Some {| nd_magic := magic; nd_type := type; nitems := n; items := l |})
  end.

(** [SearchSysCache1] gives no tuple, or the attribute, which may be null. *)
Definition statext_ndistinct_load (SearchSysCache1 : Z -> option (option (list Z))) (mvoid : Z) : res (option MVNDistinct) :=
  match SearchSysCache1 mvoid with
  | None => Err "cache lookup failed for statistics object"
  | Some None => Err "requested statistics kind is not yet built for statistics object"
  | Some (Some data) => statext_ndistinct_deserialize (Some data)
  end.

(** * The text form *)
Definition pg_ndistinct_in : res unit := Err "cannot accept a value of type pg_ndistinct".
Definition pg_ndistinct_recv : res unit := Err "cannot accept a value of type pg_ndistinct".

(** [byteasend] sends the bytes as they are. *)
Definition pg_ndistinct_send (data : list Z) : list Z := data.

Definition item_text (it : MVNDistinctItem) : res string :=
  body ← loop_state (for_up 0 (item_natts it) (fun j str =>
    a ← rd (item_atts it) j;
    Ok (inl (str ++ (if (j =? 0)%Z then quote_mark else ", ") ++ pretty a)%string)) EmptyString);
  n ← d_to_int (ndistinct it);
  Ok (body ++ quote_mark ++ ": " ++ pretty n)%string.

Definition pg_ndistinct_out (data : list Z) : res string :=
  o ← statext_ndistinct_deserialize (Some data);
  match o with
  | None => UB "null pointer"
  | Some nd =>
      str ← loop_state (for_up 0 (nitems nd) (fun i str =>
        it ← rd (items nd) i;
        t ← item_text it;
        Ok (inl (str ++ (if (0 <? i)%Z then ", " else EmptyString) ++ t)%string)) "{");
      Ok (str ++ "}")%string
  end.

End ndistinct.
