(* ===== verification/MvGen.v ===== *)
(** The generator of mvdistinct.c: it lists the ascending lists of [k] columns out
    of [n] in lexicographic order, as many as [n_choose_k] says. *)
From stdpp Require Import sorting.
From S2P Require Import Prelude.
From S2P Require Import Double.
From S2P Require Import SortTemplate.
From S2P Require Import SortProps.
From S2P Require Import Bitmapset.
From S2P Require Import ExtStats.
From S2P Require Import Dependencies.
From S2P Require Import DepGen.
From S2P Require Import ItemFormat.
From S2P Require Import DepFormat.
From S2P Require Import MvDistinct.
Open Scope Z_scope.

(** * Binomial coefficients *)
Fixpoint choose (n k : nat) : Z :=
  match n, k with
  | _, O => 1
  | O, S _ => 0
  | S n, S k' => choose n k' + choose n k
  end.

Lemma choose_0 n : choose n 0 = 1.
Proof. by destruct n. Qed.

Lemma choose_S n k : choose (S n) (S k) = choose n k + choose n (S k).
Proof. done. Qed.

Lemma choose_big n k : (n < k)%nat -> choose n k = 0.
Proof.
  revert k. induction n as [|n IH]; intros [|k] Hk; try lia; [done|]. rewrite choose_S, !IH by lia. done.
Qed.

Lemma choose_nonneg n k : 0 <= choose n k.
Proof. revert k. induction n as [|n IH]; intros [|k]; cbn [choose]; try lia. pose proof (IH k). pose proof (IH (S k)). lia. Qed.

Lemma choose_pos n k : (k <= n)%nat -> 1 <= choose n k.
Proof.
  revert k. induction n as [|n IH]; intros [|k] Hk; try lia; [done..|]. rewrite choose_S.
  pose proof (IH k ltac:(lia)). pose proof (choose_nonneg n (S k)). lia.
Qed.

(** [k C(n,k) = (n - k + 1) C(n,k-1)]: the step of the loop. *)
Lemma choose_step n k : (k <= n)%nat -> Z.of_nat (S k) * choose n (S k) = (Z.of_nat n - Z.of_nat k) * choose n k.
Proof.
  revert k. induction n as [|n IH]; intros [|k] Hk; try lia; [done| |].
  - rewrite choose_S, !choose_0. specialize (IH 0%nat ltac:(lia)). rewrite choose_0 in IH. lia.
  - rewrite !choose_S. destruct (Nat.eq_dec k n) as [->|].
    + rewrite (choose_big n (S n)), (choose_big n (S (S n))) by lia. lia.
    + pose proof (IH k ltac:(lia)) as H1. pose proof (IH (S k) ltac:(lia)) as H2. nia.
Qed.

Lemma choose_sym n k : (k <= n)%nat -> choose n (n - k) = choose n k.
Proof.
  revert k. induction n as [|n IH]; intros k Hk; [by replace k with 0%nat by lia|].
  destruct k as [|k].
  - rewrite Nat.sub_0_r, choose_0, choose_S, (choose_big n (S n)) by lia.
    specialize (IH 0%nat ltac:(lia)). rewrite Nat.sub_0_r, choose_0 in IH. lia.
  - cbn [Nat.sub]. rewrite choose_S. destruct (Nat.eq_dec k n) as [->|].
    + rewrite Nat.sub_diag, choose_0, (choose_big n (S n)) by lia. specialize (IH n ltac:(lia)).
      rewrite Nat.sub_diag, choose_0 in IH. lia.
    + replace (n - k)%nat with (S (n - S k)) at 1 by lia. rewrite choose_S.
      replace (S (n - S k)) with (n - k)%nat by lia. rewrite !IH by lia. lia.
Qed.

(** * The loop of [n_choose_k] *)
Lemma n_choose_k_wp cassert (n k : nat) :
  (1 <= k <= n)%nat -> Z.of_nat n < 2 ^ 31 ->
  (forall d, (d <= Nat.min k (n - k))%nat -> Z.of_nat d * choose n d < 2 ^ 31) ->
  n_choose_k cassert (Z.of_nat n) (Z.of_nat k) = Ok (choose n k).
Proof.
  intros Hk Hn Hfit. apply wp_eq. unfold n_choose_k, ExtStats.Assert.
  destruct (Z.ltb_spec 0 (Z.of_nat k)); [|lia]. destruct (Z.leb_spec (Z.of_nat k) (Z.of_nat n)); [|lia].
  rewrite andb_false_r. apply wp_bind, wp_Ok. rewrite (i32_small (Z.of_nat n - Z.of_nat k)) by lia.
  replace (Z.min (Z.of_nat k) (Z.of_nat n - Z.of_nat k)) with (Z.of_nat (Nat.min k (n - k))) by lia.
  set (m := Nat.min k (n - k)) in *. apply wp_bind, wp_loop_state.
  apply (wp_for_up (fun d '(r, x) => r = choose n (Z.to_nat (d - 1)) /\ x = Z.of_nat n - d + 1)); [lia|..].
  - rewrite Z.sub_diag, choose_0. split; [done|lia].
  - intros d [r x] Hd [-> ->]. apply wp_Ok. pose proof (choose_step n (Z.to_nat (d - 1)) ltac:(lia)) as Hs.
    replace (S (Z.to_nat (d - 1))) with (Z.to_nat d) in Hs by lia.
    replace (Z.of_nat (Z.to_nat d)) with d in Hs by lia. replace (Z.of_nat (Z.to_nat (d - 1))) with (d - 1) in Hs by lia.
    assert (Hp : choose n (Z.to_nat (d - 1)) * (Z.of_nat n - d + 1) = d * choose n (Z.to_nat d)) by lia.
    specialize (Hfit (Z.to_nat d) ltac:(lia)). rewrite Z2Nat.id in Hfit by lia.
    assert (0 <= d * choose n (Z.to_nat d)) by (pose proof (choose_nonneg n (Z.to_nat d)); nia).
    rewrite Hp, (i32_small (d * _)) by lia.
    rewrite Z.mul_comm, Z.quot_mul by lia. rewrite i32_small by lia.
    replace (d + 1 - 1) with d by lia. split; [done|lia].
  - intros [r x] [-> ->]. apply wp_Ok. replace (Z.of_nat m + 1 - 1) with (Z.of_nat m) by lia. rewrite Nat2Z.id.
    unfold m. destruct (Nat.min_spec k (n - k)) as [[_ ->]|[_ ->]]; [done|]. apply choose_sym. lia.
Qed.

(** A row of Pascal's triangle, to evaluate the bound. *)
Fixpoint pascal (n : nat) : list Z :=
  match n with O => [1] | S n => let l := pascal n in zip_with Z.add (0 :: l) (l ++ [0]) end.

Lemma pascal_length n : length (pascal n) = S n.
Proof. induction n as [|n IH]; [done|]. cbn [pascal]. rewrite length_zip_with, length_app. cbn [length]. lia. Qed.

Lemma pascal_choose n k : (k <= n)%nat -> pascal n !! k = Some (choose n k).
Proof.
  revert k. induction n as [|n IH]; intros k Hk; [by replace k with 0%nat by lia|]. cbn [pascal].
  rewrite lookup_zip_with. pose proof (pascal_length n). destruct k as [|k].
  - cbn. rewrite lookup_app_l by lia. rewrite IH, choose_0 by lia. done.
  - cbn [lookup list_lookup]. rewrite IH by lia. cbn. destruct (Nat.eq_dec k n) as [->|].
    + rewrite lookup_app_r, H, Nat.sub_diag by lia. cbn. rewrite (choose_big n (S n)) by lia. done.
    + rewrite lookup_app_l, IH by lia. done.
Qed.

Lemma choose_fits (n d : nat) : (n <= 29)%nat -> (d <= n - d)%nat -> Z.of_nat d * choose n d < 2 ^ 31.
Proof.
  intros Hn Hd.
  assert (H : forallb (fun n => forallb (fun d => Z.of_nat d * default 0 (pascal n !! d) <? 2 ^ 31) (seq 0 (S (Nat.div2 n)))) (seq 0 30) = true)
    by (vm_compute; reflexivity).
  rewrite forallb_forall in H. specialize (H n ltac:(apply in_seq; lia)). rewrite forallb_forall in H.
  specialize (H d). rewrite pascal_choose in H by lia. apply Z.ltb_lt, H, in_seq.
  pose proof (Nat.div2_decr). rewrite Nat.div2_div. pose proof (Nat.div_le_lower_bound n 2 d ltac:(lia) ltac:(lia)). lia.
Qed.

Lemma choose_small (n k : nat) : (n <= 29)%nat -> choose n k < 2 ^ 31.
Proof.
  intros Hn. destruct (Nat.le_gt_cases k n) as [Hk|Hk]; [|rewrite choose_big; lia].
  assert (H : forallb (fun n => forallb (fun c => c <? 2 ^ 31) (pascal n)) (seq 0 30) = true) by (vm_compute; reflexivity).
  rewrite forallb_forall in H. specialize (H n ltac:(apply in_seq; lia)). rewrite forallb_forall in H.
  apply Z.ltb_lt, H, list_elem_of_In, list_elem_of_lookup. exists k. by apply pascal_choose.
Qed.

Lemma choose_30_15 : choose 30 15 = 155117520.
Proof.
  pose proof (pascal_choose 30 15 ltac:(lia)) as H. assert (pascal 30 !! 15%nat = Some 155117520) as H2 by (vm_compute; reflexivity).
  exact (inj Some _ _ (eq_trans (eq_sym H) H2)).
Qed.

Lemma n_choose_k_ok cassert n k :
  1 <= k <= n -> n <= 29 -> n_choose_k cassert n k = Ok (choose (Z.to_nat n) (Z.to_nat k)).
Proof.
  intros Hk Hn. rewrite <- (n_choose_k_wp cassert (Z.to_nat n) (Z.to_nat k)); [by rewrite !Z2Nat.id by lia|lia|lia|].
  intros d Hd. apply choose_fits; lia.
Qed.

(** * The number of combinations *)
Lemma prefixes_cut m start n :
  start < n -> prefixes (S m) start n = (cons start <$> prefixes m (start + 1) n) ++ prefixes (S m) (start + 1) n.
Proof.
  intros Hs. cbn [prefixes]. replace (n - start) with (1 + (n - (start + 1))) by lia. rewrite seqZ_app by lia.
  rewrite bind_app. f_equal. change (seqZ start 1) with [Z.of_nat 0 + start]. rewrite Z.add_0_l. cbn. by rewrite app_nil_r.
Qed.

Lemma prefixes_count (r m : nat) n : len (prefixes m (n - Z.of_nat r) n) = choose r m.
Proof.
  revert m. induction r as [|r IH]; intros [|m]; [done| |by rewrite choose_0|].
  - cbn [prefixes choose]. replace (n - (n - Z.of_nat 0)) with 0 by lia. done.
  - rewrite prefixes_cut, len_app by lia. replace (n - Z.of_nat (S r) + 1) with (n - Z.of_nat r) by lia.
    rewrite IH, choose_S. unfold len at 1. rewrite length_fmap. fold (len (prefixes m (n - Z.of_nat r) n)). by rewrite IH.
Qed.

(** The combinations of [k] columns out of [n]. *)
Definition combos (n k : Z) : list (list Z) := prefixes (Z.to_nat k) 0 n.

Lemma combos_count n k : 0 <= n -> len (combos n k) = choose (Z.to_nat n) (Z.to_nat k).
Proof.
  intros Hn. unfold combos. rewrite <- (prefixes_count (Z.to_nat n) (Z.to_nat k) n).
  by replace (n - Z.of_nat (Z.to_nat n)) with 0 by lia.
Qed.

Lemma combos_width n k c : 0 <= k -> c ∈ combos n k -> len c = k.
Proof. intros Hk Hc. apply elem_of_prefixes in Hc as (Hl & _). unfold len. lia. Qed.

(** * The generator *)

(** The part of a concatenation up to [i]. *)
Lemma len_bind_prefix {A} (F : Z -> list A) ds start i n :
  start <= i < n -> len (ds ++ (seqZ start (i - start) ≫= F) ++ F i) <= len (ds ++ (seqZ start (n - start) ≫= F)).
Proof.
  intros Hi. replace (n - start) with (i - start + (1 + (n - i - 1))) by lia.
  rewrite (seqZ_app start (i - start)) by lia. replace (start + (i - start)) with i by lia. rewrite (seqZ_app i 1) by lia.
  rewrite !bind_app, !len_app. change (seqZ i 1 ≫= F) with (F (Z.of_nat 0 + i) ++ []). rewrite app_nil_r, Z.add_0_l.
  pose proof (len_nonneg (seqZ (i + 1) (n - i - 1) ≫= F)). lia.
Qed.

Lemma take_shorter (l pre : list Z) (index i : Z) :
  take (Z.to_nat (index + 1)) l = pre ++ [i] -> 0 <= index -> len pre = index -> take (Z.to_nat index) l = pre.
Proof.
  intros H Hi Hl. assert (take (Z.to_nat index) (take (Z.to_nat (index + 1)) l) = take (Z.to_nat index) (pre ++ [i])) as Ht by by rewrite H.
  rewrite take_take in Ht. replace (Z.to_nat index `min` Z.to_nat (index + 1))%nat with (Z.to_nat index) in Ht by lia.
  rewrite Ht. unfold len in Hl. rewrite take_app_le by lia. apply take_ge. lia.
Qed.

(** The combinations that start with [pre] and [m] later columns. *)
Definition combos_from (n : Z) (pre : list Z) (m : nat) (start : Z) : list (list Z) :=
  app pre <$> prefixes m start n.

Lemma combos_from_step n pre m start :
  combos_from n pre (S m) start = seqZ start (n - start) ≫= fun i => combos_from n (pre ++ [i]) m (i + 1).
Proof.
  unfold combos_from. cbn [prefixes]. induction (seqZ start (n - start)) as [|i l IH]; [done|].
  cbn [mbind list_bind]. rewrite fmap_app, IH. f_equal. rewrite <- list_fmap_compose.
  apply list_fmap_ext. intros j x _. cbn. by rewrite <- app_assoc.
Qed.

(** [ds] are stored, [room] combinations fit. *)
Record comb_rep (n k room : Z) (st : CombinationGenerator) (ds : list (list Z)) : Prop := {
  cr_n : comb_n st = n;
  cr_k : comb_k st = k;
  cr_count : ncombinations st = room;
  cr_current : comb_current st = len ds;
  cr_cells : take (Z.to_nat (k * len ds)) (combinations st) = Some <$> concat ds;
  cr_room : len (combinations st) = k * room;
  cr_width : Forall (fun d => len d = k) ds
}.

Lemma store_combination_rep n k room st ds cur :
  comb_rep n k room st ds -> 0 <= k -> len cur = k -> len ds < room -> room < 2 ^ 31 ->
  exists st', store_combination st cur = Ok st' /\ comb_rep n k room st' (ds ++ [cur]).
Proof.
  intros [] Hk Hc Hl Hroom. unfold store_combination. pose proof (len_nonneg ds).
  rewrite cr_k0, cr_current0, cr_room0.
  destruct (Z.leb_spec 0 (k * len ds)); [|nia]. destruct (Z.leb_spec (k * len ds + k) (k * room)); [|nia].
  destruct (Z.eqb_spec k (len cur)); [|lia]. cbn [andb]. eexists; split; [done|].
  assert (Hlen : len (take (Z.to_nat (k * len ds)) (combinations st)) = k * len ds).
  { unfold len in *. rewrite length_take. lia. }
  split; cbn [set_current comb_n comb_k comb_current ncombinations combinations]; [done|done|done| | | |].
  - rewrite i32_small, len_app by lia. done.
  - rewrite concat_app, fmap_app, cr_cells0. cbn. rewrite app_nil_r, app_assoc. rewrite take_app_le.
    + apply take_ge. rewrite <- cr_cells0. rewrite length_app, length_fmap. unfold len in *. rewrite length_app. cbn. lia.
    + rewrite <- cr_cells0, length_app, length_fmap. unfold len in *. rewrite length_app. cbn. lia.
  - rewrite !len_app, Hlen. unfold len in *. rewrite length_fmap, length_drop. nia.
  - apply Forall_app. auto.
Qed.

Lemma generate_combinations_wp n k room m : forall depth st ds cur pre index start,
  comb_rep n k room st ds -> len cur = k -> 0 <= index -> index + Z.of_nat m = k -> (m <= depth)%nat ->
  0 <= start <= n -> take (Z.to_nat index) cur = pre ->
  len (ds ++ combos_from n pre m start) <= room -> room < 2 ^ 31 ->
  wp (generate_combinations_recurse depth st index start cur)
     (fun '(st', cur') => comb_rep n k room st' (ds ++ combos_from n pre m start) /\ len cur' = k /\
        take (Z.to_nat index) cur' = pre).
Proof.
  induction m as [|m IH]; intros depth st ds cur pre index start Hr Hc Hi Hm Hd Hs Hp Hl Hroom.
  - replace index with k in * by lia. assert (combos_from n pre 0 start = [cur]) as Hone.
    { unfold combos_from. cbn. rewrite app_nil_r, <- Hp. f_equal. apply take_all. lia. }
    rewrite Hone in *. rewrite len_app in Hl. change (len [cur]) with 1 in Hl.
    destruct (store_combination_rep n k room st ds cur Hr ltac:(lia) Hc ltac:(lia) Hroom) as (st' & Hst & Hr').
    destruct depth; cbn [generate_combinations_recurse]; rewrite (cr_k _ _ _ _ _ Hr), Z.ltb_irrefl, Hst; done.
  - destruct depth as [|depth]; [lia|]. cbn [generate_combinations_recurse].
    rewrite (cr_k _ _ _ _ _ Hr). destruct (Z.ltb_spec index k); [|lia].
    rewrite (cr_n _ _ _ _ _ Hr). rewrite combos_from_step in *. apply wp_loop_state.
    set (F := fun i => combos_from n (pre ++ [i]) m (i + 1)) in *.
    apply (wp_for_up (fun i '(st, cur) => comb_rep n k room st (ds ++ (seqZ start (i - start) ≫= F)) /\
      len cur = k /\ take (Z.to_nat index) cur = pre)); [lia|..].
    + replace (start - start) with 0 by lia. cbn. rewrite app_nil_r. auto.
    + intros i [st1 cur1] Hi1 (Hr1 & Hc1 & Hp1).
      assert (Hlen : len (ds ++ (seqZ start (i - start) ≫= F) ++ F i) <= room).
      { etrans; [|exact Hl]. apply len_bind_prefix. lia. }
      apply wp_bind, wp_wr; [lia|]. apply wp_bind. eapply wp_mono.
      * apply (IH depth st1 (ds ++ (seqZ start (i - start) ≫= F)) _ (pre ++ [i])); try done; try lia.
        -- by rewrite len_upd.
        -- rewrite take_upd by lia. by rewrite Hp1.
        -- by rewrite <- app_assoc.
      * intros [st2 cur2] (Hr2 & Hc2 & Hp2). apply wp_Ok. split_and!; [|done|].
        -- rewrite seqZ_next, bind_app by lia. cbn [mbind list_bind]. rewrite app_nil_r, app_assoc. exact Hr2.
        -- apply (take_shorter _ _ _ _ Hp2); [lia|]. rewrite <- Hp1. unfold len in *. rewrite length_take. lia.
    + intros [st1 cur1] H1. exact H1.
Qed.

Lemma generator_init_rep cassert n k :
  1 <= k <= n -> n <= 29 -> choose (Z.to_nat n) (Z.to_nat k) < 2 ^ 31 ->
  exists st, generator_init cassert n k = Ok (set_current st 0 (combinations st)) /\
    comb_rep n k (len (combos n k)) st (combos n k).
Proof.
  intros Hk Hn Hfit. pose proof (combos_count n k ltac:(lia)) as Hcount.
  assert (Hw : wp (generator_init cassert n k) (fun g => exists st, g = set_current st 0 (combinations st) /\
    comb_rep n k (len (combos n k)) st (combos n k))).
  2:{ apply wp_ok in Hw as (g & -> & st & -> & Hr). by exists st. }
  unfold generator_init. apply wp_bind, wp_assert; [z_cases|]. rewrite n_choose_k_ok by lia. rewrite <- Hcount. step_ok.
  pose proof (len_nonneg (combos n k)) as Hpos.
  unfold generate_combinations. apply wp_bind, wp_bind.
  eapply wp_mono; [apply (generate_combinations_wp n k (len (combos n k)) (Z.to_nat k) _ _ [] _ []); cbn [comb_k]|].
  - split; cbn; try done; [by rewrite Z.mul_0_r|]. rewrite len_replicate. nia.
  - rewrite len_replicate. lia.
  - lia.
  - lia.
  - lia.
  - lia.
  - done.
  - unfold combos_from. cbn [app]. unfold len. rewrite length_fmap. done.
  - lia.
  - intros [st cur] (Hr & _). apply wp_Ok.
    assert (combos_from n [] (Z.to_nat k) 0 = combos n k) as Hc.
    { unfold combos_from, combos. rewrite <- (list_fmap_id (prefixes (Z.to_nat k) 0 n)) at 2. by apply list_fmap_ext. }
    rewrite app_nil_l, Hc in Hr.
    apply wp_bind, wp_assert; [apply Z.eqb_eq; by rewrite (cr_current _ _ _ _ _ Hr), (cr_count _ _ _ _ _ Hr)|].
    apply wp_Ok. by exists st.
Qed.

(** The sequence of answers. *)
Lemma generator_next_rep n k room st ds (c : nat) :
  comb_rep n k room st ds -> 0 <= k -> room = len ds -> room < 2 ^ 31 -> (c <= length ds)%nat ->
  generator_next (set_current st (Z.of_nat c) (combinations st)) =
    Ok (ds !! c, match ds !! c with
                 | Some _ => set_current st (Z.of_nat (S c)) (combinations st)
                 | None => set_current st (Z.of_nat c) (combinations st)
                 end).
Proof.
  intros [] Hk -> Hroom Hc. unfold generator_next. cbn [set_current comb_current ncombinations comb_k combinations].
  rewrite cr_count0. unfold len in *. destruct (Z.eqb_spec (Z.of_nat c) (Z.of_nat (length ds))) as [He|Hne].
  - rewrite lookup_ge_None_2 by lia. done.
  - destruct (lookup_lt_is_Some_2 ds c) as [d Hd]; [lia|]. rewrite Hd, cr_k0.
    assert (take (Z.to_nat k) (drop (Z.to_nat (k * Z.of_nat c)) (combinations st)) = Some <$> d) as ->.
    { rewrite <- (take_drop_concat k ds c d cr_width0 Hk Hd), fmap_take, fmap_drop, <- cr_cells0.
      rewrite !take_drop_commute, take_take. f_equal. f_equal. nia. }
    assert (mapM id (Some <$> d) = Some d) as ->.
    { apply mapM_Some, Forall2_fmap_l. apply Forall_Forall2_diag, Forall_forall. done. }
    unfold set_current. cbn. rewrite i32_small by lia. do 4 f_equal. lia.
Qed.
