(* ===== verification/MvCount.v ===== *)
(** Counting groups in mvdistinct.c: the walk through the sorted rows finds the
    number of distinct rows and the number of rows that occur once. *)
From stdpp Require Import sorting sets.
From S2P Require Import Prelude.
From S2P Require Import Double.
From S2P Require Import SortTemplate.
From S2P Require Import SortProps.
From S2P Require Import Bitmapset.
From S2P Require Import ExtStats.
From S2P Require Import Dependencies.
From S2P Require Import DepGen.
From S2P Require Import DepDegree.
From S2P Require Import ItemFormat.
From S2P Require Import DepFormat.
From S2P Require Import MvDistinct.
Open Scope Z_scope.
#[local] Set Default Proof Using "Type".

(** * Classes of a relation *)
Section classes.
Context {A : Type} (R : A -> A -> Prop) `{!RelDecision R}.
Implicit Types (l : list A).

(** How many classes the elements of [l] fall in. *)
Fixpoint classes l : Z :=
  match l with
  | [] => 0
  | x :: l => (if decide (Exists (R x) l) then 0 else 1) + classes l
  end.

(** [x] is the only element of its class. *)
Definition single l (x : A) : Prop := len (filter (R x) l) = 1.

#[export] Instance single_dec l x : Decision (single l x).
Proof. unfold single. apply _. Defined.

(** How many classes have one element. *)
Definition singles l : Z := len (filter (single l) l).

Lemma singles_perm l l' : l ≡ₚ l' -> singles l = singles l'.
Proof.
  intros Hp. unfold singles, len. f_equal. rewrite (filter_elem_ext (single l) (single l')).
  - by rewrite Hp.
  - intros x _. unfold single, len. by rewrite Hp.
Qed.

Lemma classes_nonneg l : 0 <= classes l.
Proof. induction l as [|x l IH]; cbn [classes]; [lia|]. case_decide; lia. Qed.

Lemma classes_le l : classes l <= len l.
Proof. induction l as [|x l IH]; cbn [classes]; [done|]. rewrite len_cons. case_decide; lia. Qed.

Lemma classes_perm `{!Equivalence R} l l' : l ≡ₚ l' -> classes l = classes l'.
Proof.
  induction 1 as [|x l l' Hp IH|x y l|l1 l2 l3 _ IH1 _ IH2]; cbn [classes]; [done| | |congruence].
  - assert (Exists (R x) l <-> Exists (R x) l') as He.
    { rewrite !Exists_exists. split; intros (y & Hy & Hr); exists y; (split; [|done]); [by rewrite <- Hp|by rewrite Hp]. }
    repeat case_decide; tauto || lia.
  - pose proof (Exists_cons (R x) y l). pose proof (Exists_cons (R y) x l). destruct (decide (R x y)) as [Hxy|Hxy].
    + assert (Exists (R x) l <-> Exists (R y) l) as He.
      { rewrite !Exists_exists. split; intros (z & Hz & Hr); exists z; (split; [done|]); [symmetry in Hxy|]; by etrans. }
      assert (R y x) by (by symmetry). repeat case_decide; tauto || lia.
    + assert (~ R y x) by (intros Hyx; apply Hxy; by symmetry). repeat case_decide; tauto || lia.
Qed.

Lemma classes_snoc `{!Equivalence R} l x : classes (l ++ [x]) = (if decide (Exists (R x) l) then 0 else 1) + classes l.
Proof. rewrite (classes_perm (l ++ [x]) (x :: l)); [done|]. by rewrite Permutation_app_comm. Qed.

End classes.

(** The same classes on other elements. *)
Lemma classes_fmap {A B} (f : A -> B) (R : B -> B -> Prop) (R' : A -> A -> Prop) `{!RelDecision R, !RelDecision R'} l :
  (forall x y, x ∈ l -> y ∈ l -> R (f x) (f y) <-> R' x y) -> classes R (f <$> l) = classes R' l.
Proof.
  induction l as [|x l IH]; intros H; [done|]. cbn [fmap list_fmap classes]. rewrite IH by (intros; apply H; set_solver). f_equal.
  assert (Exists (R (f x)) (f <$> l) <-> Exists (R' x) l) as He.
  { rewrite Exists_fmap, !Exists_exists. split; intros (y & Hy & Hr); exists y; (split; [done|]); apply H in Hr; set_solver. }
  repeat case_decide; tauto.
Qed.

Lemma filter_fmap_len {A B} (f : A -> B) (P : B -> Prop) (P' : A -> Prop)
    `{!forall x, Decision (P x), !forall x, Decision (P' x)} (l : list A) :
  (forall x, x ∈ l -> P (f x) <-> P' x) -> len (filter P (f <$> l)) = len (filter P' l).
Proof.
  intros Hpq. induction l as [|x l IH]; [done|]. cbn [fmap list_fmap]. rewrite !filter_cons.
  specialize (IH ltac:(intros; apply Hpq; set_solver)). specialize (Hpq x ltac:(set_solver)).
  repeat case_decide; rewrite ?len_cons; tauto || lia.
Qed.

Lemma singles_fmap {A B} (f : A -> B) (R : B -> B -> Prop) (R' : A -> A -> Prop) `{!RelDecision R, !RelDecision R'} l :
  (forall x y, x ∈ l -> y ∈ l -> R (f x) (f y) <-> R' x y) -> singles R (f <$> l) = singles R' l.
Proof.
  intros H. unfold singles. apply filter_fmap_len. intros x Hx. unfold single.
  rewrite (filter_fmap_len f (R (f x)) (R' x)); [done|]. intros y Hy. by apply H.
Qed.

(** * The walk through a sorted list *)
Section walk.
Context {A : Type} (c : A -> A -> Z) (d : A) `{Hc : !SortComparator c}.

Definition same (x y : A) : Prop := c x y = 0.

#[export] Instance same_dec : RelDecision same.
Proof. intros x y. unfold same. apply _. Defined.

#[local] Set Default Proof Using "Type*".

Lemma same_equivalence : Equivalence same.
Proof.
  split; unfold same.
  - intros x. by apply cmp_refl.
  - intros x y. by apply cmp_eq_sym.
  - intros x y z. by apply cmp_eq_trans.
Qed.
#[local] Existing Instance same_equivalence.

#[local] Abbreviation zero := (fun _ _ : A => 0).
#[local] Instance zero_ok : SortComparator zero := zero_comparator.

Context (its : list A) (Hsorted : StronglySorted (fun x y => c x y <= 0) its).
#[local] Set Default Proof Using "Type*".

Lemma sorted_lex : StronglySorted (fun x y => lex c zero x y <= 0) its.
Proof. eapply StronglySorted_mono; [|exact Hsorted]. intros x y H. unfold lex. by destruct (c x y =? 0). Qed.

(** The size of a complete group. *)
Lemma group_size_count g i x :
  group c d its g i -> starts c d its g -> ends c d its i -> g <= x < i ->
  len (filter (same (getd d its x)) its) = i - g.
Proof.
  intros Hg Hst He Hx. destruct (gp_range _ _ _ _ _ Hg) as [Hr Hle].
  assert (Hin : forall y, 0 <= y < len its -> same (getd d its x) (getd d its y) <-> g <= y < i).
  { intros y Hy. split.
    - intros H. by apply (group_closed c zero d its g i x y sorted_lex Hg Hst He).
    - intros H. by apply (gp_same _ _ _ _ _ Hg). }
  pose proof (filter_range d (same (getd d its x)) its 0 (Z.to_nat g) false ltac:(lia) ltac:(lia)) as H1.
  pose proof (filter_range d (same (getd d its x)) its g (Z.to_nat (i - g)) true ltac:(lia) ltac:(lia)) as H2.
  pose proof (filter_range d (same (getd d its x)) its i (Z.to_nat (len its - i)) false ltac:(lia) ltac:(lia)) as H3.
  rewrite !Z2Nat.id, ?Z.add_0_l in * by lia. replace (g + (i - g)) with i in H2 by lia.
  replace (i + (len its - i)) with (len its) in H3 by lia. rewrite take_all in H3 by done.
  rewrite H3 by (intros y Hy; rewrite Hin by lia; lia). rewrite H2 by (intros y Hy; rewrite Hin by lia; lia).
  rewrite H1 by (intros y Hy; rewrite Hin by lia; lia). cbn. unfold len. cbn. lia.
Qed.

(** The rows of a complete group are single if there is one. *)
Lemma close_singles g i :
  group c d its g i -> starts c d its g -> ends c d its i ->
  len (filter (single same its) (take (Z.to_nat i) its)) =
  len (filter (single same its) (take (Z.to_nat g) its)) + (if i - g =? 1 then 1 else 0).
Proof.
  intros Hg Hst He. destruct (gp_range _ _ _ _ _ Hg) as [Hr Hle].
  pose proof (filter_range d (single same its) its g (Z.to_nat (i - g)) (i - g =? 1) ltac:(lia) ltac:(lia)) as H.
  rewrite Z2Nat.id in H by lia. replace (g + (i - g)) with i in H by lia. rewrite H.
  - destruct (Z.eqb_spec (i - g) 1); lia.
  - intros x Hx. unfold single. rewrite (group_size_count g i x) by (done || lia). destruct (Z.eqb_spec (i - g) 1); lia.
Qed.

(** A new key starts a new class. *)
Lemma classes_next i :
  1 <= i < len its ->
  classes same (take (Z.to_nat (i + 1)) its) =
  (if c (getd d its (i - 1)) (getd d its i) =? 0 then 0 else 1) + classes same (take (Z.to_nat i) its).
Proof.
  intros Hi. rewrite (take_cell d) by lia. rewrite (classes_snoc same).
  destruct (Z.eqb_spec (c (getd d its (i - 1)) (getd d its i)) 0) as [E|E]; case_decide as Hex; try done.
  - destruct Hex. apply Exists_exists. exists (getd d its (i - 1)). split; [|by apply cmp_eq_sym].
    unfold len in Hi. destruct (lookup_lt_is_Some_2 its (Z.to_nat (i - 1))) as [u Hu]; [lia|]. unfold getd. rewrite Hu.
    apply list_elem_of_lookup. exists (Z.to_nat (i - 1)). rewrite lookup_take_lt by lia. done.
  - apply Exists_exists in Hex as (y & Hy & Hs). apply list_elem_of_lookup in Hy as [j Hj].
    apply lookup_take_Some in Hj as [Hj Hlt].
    pose proof (key_change c zero d its (Z.of_nat j) i i sorted_lex ltac:(lia) ltac:(lia) E) as Hk.
    unfold getd at 1 in Hk. rewrite Nat2Z.id, Hj in Hk. cbn in Hk. unfold id in Hk. apply cmp_eq_sym in Hs; [|done]. unfold same in Hs.
    pose proof (compare_flip y (getd d its i)). lia.
Qed.

(** The counters before row [i]. *)
Definition groups_inv (i : Z) (g : Groups) : Prop :=
  group c d its (i - cnt g) i /\ starts c d its (i - cnt g) /\ groups g = classes same (take (Z.to_nat i) its) /\
  seen_once g = len (filter (single same its) (take (Z.to_nat (i - cnt g)) its)).

Lemma groups_inv_start : 1 <= len its -> groups_inv 1 {| seen_once := 0; cnt := 1; groups := 1 |}.
Proof.
  intros Hl. unfold groups_inv. cbn [cnt groups seen_once]. rewrite Z.sub_diag. split_and!.
  - split; [lia|]. intros x y Hx Hy. replace y with x by lia. by apply cmp_refl.
  - by left.
  - destruct its as [|x l]; [by rewrite len_nil in Hl|]. assert (take (Z.to_nat 1) (x :: l) = [x]) as -> by done.
    cbn [classes]. case_decide as H; [by apply Exists_nil in H|done].
  - done.
Qed.

Lemma groups_inv_step i g :
  1 <= i < len its -> len its < 2 ^ 31 -> groups_inv i g ->
  groups_inv (i + 1)
    (let g := if negb (c (getd d its i) (getd d its (i - 1)) =? 0)
              then {| seen_once := if cnt g =? 1 then i32 (seen_once g + 1) else seen_once g; cnt := 0;
                      groups := i32 (groups g + 1) |}
              else g in
     {| seen_once := seen_once g; cnt := i32 (cnt g + 1); groups := groups g |}).
Proof.
  intros Hi Hsmall (Hg & Hst & Hcl & Hone). destruct (gp_range _ _ _ _ _ Hg) as [Hr Hle].
  assert (Hsym : c (getd d its i) (getd d its (i - 1)) = 0 <-> c (getd d its (i - 1)) (getd d its i) = 0)
    by (split; by apply cmp_eq_sym).
  pose proof (classes_next i Hi) as Hn. pose proof (classes_le same (take (Z.to_nat i) its)) as Hcle.
  pose proof (classes_nonneg same (take (Z.to_nat i) its)).
  assert (len (take (Z.to_nat i) its) = i) as Hli by (unfold len in *; rewrite length_take; lia). rewrite Hli in Hcle.
  unfold groups_inv. destruct (Z.eqb_spec (c (getd d its i) (getd d its (i - 1))) 0) as [E|E]; cbn [negb cnt seen_once groups].
  - apply Hsym in E. rewrite (i32_small (cnt g + 1)) by lia. replace (i + 1 - (cnt g + 1)) with (i - cnt g) by lia.
    rewrite E in Hn. cbn in Hn. split_and!; [|done|by rewrite Hn|done].
    split; [lia|]. assert (Hlast : forall x, i - cnt g <= x < i + 1 -> c (getd d its x) (getd d its (i - 1)) = 0).
    { intros x Hx. destruct (Z.eq_dec x i) as [->|]; [by apply Hsym|]. apply (gp_same _ _ _ _ _ Hg); lia. }
    intros x y Hx Hy. apply (cmp_eq_trans c _ (getd d its (i - 1))); [done|by apply Hlast|]. apply cmp_eq_sym; [done|]. by apply Hlast.
  - assert (E' : c (getd d its (i - 1)) (getd d its i) <> 0) by tauto.
    pose proof (close_singles (i - cnt g) i Hg Hst (or_intror E')) as Hcs. rewrite <- Hone in Hcs.
    replace (i - (i - cnt g)) with (cnt g) in Hcs by lia.
    pose proof (len_nonneg (filter (single same its) (take (Z.to_nat (i - cnt g)) its))) as Hnn. rewrite <- Hone in Hnn.
    assert (Hfle : len (filter (single same its) (take (Z.to_nat i) its)) <= i).
    { rewrite <- Hli at 2. unfold len. pose proof (length_filter (single same its) (take (Z.to_nat i) its)). lia. }
    change (i32 (0 + 1)) with 1. replace (i + 1 - 1) with i by lia.
    destruct (Z.eqb_spec (c (getd d its (i - 1)) (getd d its i)) 0); [done|]. split_and!.
    + split; [lia|]. intros x y Hx Hy. replace y with x by lia. by apply cmp_refl.
    + by right.
    + rewrite Hn, Hcl, i32_small by lia. lia.
    + rewrite Hcs. destruct (Z.eqb_spec (cnt g) 1); [rewrite i32_small by lia|]; lia.
Qed.

Lemma groups_inv_end g :
  1 <= len its < 2 ^ 31 -> groups_inv (len its) g ->
  groups g = classes same its /\ (if cnt g =? 1 then i32 (seen_once g + 1) else seen_once g) = singles same its.
Proof.
  intros Hl (Hg & Hst & Hcl & Hone). destruct (gp_range _ _ _ _ _ Hg) as [Hr Hle].
  pose proof (close_singles (len its - cnt g) (len its) Hg Hst (or_introl eq_refl)) as Hcs. rewrite <- Hone in Hcs.
  replace (len its - (len its - cnt g)) with (cnt g) in Hcs by lia. rewrite !take_all in * by done. split; [done|].
  fold (singles same its) in Hcs.
  pose proof (len_nonneg (filter (single same its) (take (Z.to_nat (len its - cnt g)) its))) as Hnn. rewrite <- Hone in Hnn.
  assert (singles same its <= len its).
  { unfold singles, len. pose proof (length_filter (single same its) its). lia. }
  destruct (Z.eqb_spec (cnt g) 1); [rewrite i32_small by lia|]; lia.
Qed.

End walk.
