(* ===== verification/MvEstimate.v ===== *)
(** The estimate for one combination of columns: [ndistinct_for_combination]
    applies the estimator to the number of distinct rows of the sample and the
    number of rows that occur once.

    [statext_ndistinct_build]: one item for each combination of two or more
    columns. *)
From stdpp Require Import sorting sets.
From S2P Require Import Prelude.
From S2P Require Import Bitmapset.
From S2P Require Import SortTemplate.
From S2P Require Import SortProps.
From S2P Require Import Double.
From S2P Require Import ExtStats.
From S2P Require Import Dependencies.
From S2P Require Import DepGen.
From S2P Require Import DepDegree.
From S2P Require Import ItemFormat.
From S2P Require Import DepFormat.
From S2P Require Import MvDistinct.
From S2P Require Import MvGen.
From S2P Require Import MvCount.
Open Scope Z_scope.
#[local] Set Default Proof Using "Type".

Section sample.
Context (cassert : bool) (T : TypeSystem) (data : StatsBuildData).

(** The value of column [idx] in row [i], and whether it is null. *)
Definition raw_cell (i idx : Z) : Z * bool := (getd 0 (getd [] (values data) idx) i, getd false (getd [] (nulls data) idx) i).

(** Two rows agree on the columns of a combination. *)
Definition rows_equal (comb : list Z) (i j : Z) : Prop :=
  Forall (fun idx => same_cell T data idx (raw_cell i idx) (raw_cell j idx)) comb.

#[export] Instance rows_equal_dec comb : RelDecision (rows_equal comb).
Proof. intros i j. unfold rows_equal, same_cell. apply _. Defined.

Definition distinct_rows (comb : list Z) : Z := classes (rows_equal comb) (seqZ 0 (numrows data)).
Definition unique_rows (comb : list Z) : Z := singles (rows_equal comb) (seqZ 0 (numrows data)).

(** Row [j] as an item, with the first [i] dimensions loaded. *)
Definition nd_item (comb : list Z) (i j : Z) : SortItem :=
  let cs := raw_cell j <$> take (Z.to_nat i) comb in
  let rest := Z.to_nat (len comb - i) in
  {| it_values := cs.*1 ++ replicate rest 0; it_isnull := cs.*2 ++ replicate rest false; it_count := 0 |}.

Definition nd_rows (comb : list Z) (i : Z) : list SortItem := nd_item comb i <$> seqZ 0 (numrows data).

Lemma load_prefix {B} (f : Z -> B) (z : B) (comb : list Z) i :
  0 <= i < len comb ->
  upd ((f <$> take (Z.to_nat i) comb) ++ replicate (Z.to_nat (len comb - i)) z) i (f (getd 0 comb i)) =
  (f <$> take (Z.to_nat (i + 1)) comb) ++ replicate (Z.to_nat (len comb - (i + 1))) z.
Proof.
  intros Hi. assert (Hl : length (f <$> take (Z.to_nat i) comb) = Z.to_nat i).
  { rewrite length_fmap, length_take. unfold len in Hi. lia. }
  replace (Z.to_nat (len comb - i)) with (S (Z.to_nat (len comb - (i + 1)))) by lia. cbn [replicate].
  unfold upd. rewrite insert_app_r_alt, Hl, Nat.sub_diag by lia. cbn. rewrite (take_cell 0) by lia.
  rewrite fmap_app, <- app_assoc. done.
Qed.

Lemma nd_item_next comb i j :
  0 <= i < len comb ->
  nd_item comb (i + 1) j = {| it_values := upd (it_values (nd_item comb i j)) i (raw_cell j (getd 0 comb i)).1;
                              it_isnull := upd (it_isnull (nd_item comb i j)) i (raw_cell j (getd 0 comb i)).2;
                              it_count := it_count (nd_item comb i j) |}.
Proof.
  intros Hi. unfold nd_item. cbn [it_values it_isnull it_count]. rewrite <- !list_fmap_compose.
  pose proof (load_prefix (fst ∘ raw_cell j) 0 comb i Hi) as H1.
  pose proof (load_prefix (snd ∘ raw_cell j) false comb i Hi) as H2. by rewrite <- H1, <- H2.
Qed.

Lemma nd_item_width comb i j :
  0 <= i <= len comb -> len (it_values (nd_item comb i j)) = len comb /\ len (it_isnull (nd_item comb i j)) = len comb.
Proof.
  intros Hi. unfold nd_item. cbn. unfold len in *. rewrite !length_app, !length_fmap, !length_replicate, !length_take. lia.
Qed.

Lemma len_nd_rows comb i : 0 <= numrows data -> len (nd_rows comb i) = numrows data.
Proof. intros H. unfold nd_rows, len. rewrite length_fmap, length_seqZ. lia. Qed.

Lemma nd_rows_cell comb i j : 0 <= j < numrows data -> getd no_item (nd_rows comb i) j = nd_item comb i j.
Proof.
  intros Hj. unfold getd, nd_rows. rewrite list_lookup_fmap, lookup_seqZ_lt by lia. cbn. unfold id. f_equal. lia.
Qed.

Context (Hs : good_sample T data).
#[local] Set Default Proof Using "Type*".

Lemma column_cells idx j :
  0 <= idx < nattnums data -> 0 <= j < numrows data ->
  idx < len (values data) /\ idx < len (nulls data) /\
  j < len (getd [] (values data) idx) /\ j < len (getd [] (nulls data) idx).
Proof.
  intros Hi Hj. destruct Hs. split; [lia|]. split; [lia|].
  assert (Hcol : forall {B} (l : list (list B)), len l = nattnums data -> Forall (fun c => len c = numrows data) l ->
    len (getd [] l idx) = numrows data).
  { intros B l Hl Hf. unfold getd. destruct (lookup_lt_is_Some_2 l (Z.to_nat idx)) as [u Hu]; [unfold len in Hl; lia|].
    rewrite Hu. by apply (Forall_lookup_1 _ _ _ _ Hf Hu). }
  rewrite !Hcol by done. lia.
Qed.

(** One dimension. *)
Lemma load_dimension_wp comb i mss :
  dep_ok data comb -> 0 <= i < len comb -> len (ssup mss) = len comb -> ndims mss = len comb ->
  load_dimension T data comb i mss (nd_rows comb i) =
  Ok ({| ndims := len comb; ssup := upd (ssup mss) i (column_ssup T data (getd 0 comb i)) |}, nd_rows comb (i + 1)).
Proof.
  intros Hd Hi Hl Hn. apply wp_eq. unfold load_dimension. pose proof (so_rows _ _ Hs) as Hrows.
  assert (Hidx : 0 <= getd 0 comb i < nattnums data).
  { unfold getd. destruct (lookup_lt_is_Some_2 comb (Z.to_nat i)) as [u Hu]; [unfold len in *; lia|].
    rewrite Hu. by apply (Forall_lookup_1 _ _ _ _ Hd Hu). }
  apply wp_bind, (wp_rd 0); [lia|]. set (c := getd 0 comb i) in *.
  apply wp_bind, (wp_rd no_stat); [rewrite (so_stats _ _ Hs); lia|].
  destruct (column_type T data Hs _ Hidx) as (rev & cmp & Ho & Hc & Hcmp).
  destruct (Z.eqb_spec (type_lt_opr T (attrtypid (getd no_stat (stats data) c))) InvalidOid); [done|].
  unfold multi_sort_add_dimension. rewrite Hc. apply wp_bind, wp_bind, wp_Ok, wp_bind, wp_wr; [lia|]. apply wp_Ok.
  apply wp_bind. apply (wp_map_up no_item (fun j it => {| it_values := upd (it_values it) i (raw_cell j c).1;
    it_isnull := upd (it_isnull it) i (raw_cell j c).2; it_count := it_count it |})).
  - lia.
  - rewrite len_nd_rows; lia.
  - intros j rows Hj Hlr Hget. rewrite len_nd_rows in Hlr by lia. rewrite nd_rows_cell in * by lia.
    destruct (column_cells c j Hidx Hj) as (H1 & H2 & H3 & H4). destruct (nd_item_width comb i j ltac:(lia)) as [W1 W2].
    apply wp_bind, (wp_rd []); [lia|]. apply wp_bind, (wp_rd 0); [lia|]. apply wp_bind, (wp_rd no_item); [lia|].
    rewrite Hget. apply wp_bind, wp_wr; [lia|]. apply wp_bind, (wp_rd []); [lia|]. apply wp_bind, (wp_rd false); [lia|].
    apply wp_bind, wp_wr; [lia|]. apply wp_bind, wp_wr; [lia|]. by apply wp_Ok.
  - intros rows Hlr Hget. rewrite len_nd_rows in Hlr by lia. apply wp_Ok. f_equal.
    + rewrite Hn. f_equal. unfold column_ssup. rewrite Hc. done.
    + apply (getd_ext no_item); [by rewrite len_nd_rows by lia|]. intros j Hj. rewrite Hget by lia.
      destruct (Z.leb_spec 0 j); [|lia]. destruct (Z.ltb_spec j (numrows data)); [|lia]. cbn [andb].
      rewrite !nd_rows_cell by lia. by rewrite nd_item_next.
Qed.

Lemma blank_rows comb : replicate (Z.to_nat (numrows data)) (blank_item (len comb)) = nd_rows comb 0.
Proof.
  pose proof (so_rows _ _ Hs). apply (getd_ext no_item).
  - rewrite len_replicate, len_nd_rows; lia.
  - intros j Hj. rewrite len_replicate in Hj. rewrite nd_rows_cell by lia. unfold getd. rewrite lookup_replicate_2 by lia. cbn.
    unfold nd_item, blank_item, id. by rewrite Z.sub_0_r.
Qed.

Lemma load_dimensions_wp comb mss :
  dep_ok data comb -> ssup mss = replicate (length comb) no_ssup -> ndims mss = len comb ->
  loop_state (for_up 0 (len comb) (fun i '(mss, rows) =>
    r ← load_dimension T data comb i mss rows; Ok (inl r)) (mss, nd_rows comb 0)) =
  Ok (dep_mss T data comb, nd_rows comb (len comb)).
Proof.
  intros Hd Hm Hn. apply wp_eq, wp_loop_state.
  apply (wp_for_up (fun i '(mss, rows) => rows = nd_rows comb i /\ ndims mss = len comb /\ len (ssup mss) = len comb /\
    take (Z.to_nat i) (ssup mss) = column_ssup T data <$> take (Z.to_nat i) comb)); [apply len_nonneg|..].
  - split_and!; [done|done| |done]. rewrite Hm, len_replicate. done.
  - intros i [mss' rows] Hi (-> & H1 & H2 & H3). rewrite load_dimension_wp by done. apply wp_bind, wp_Ok, wp_Ok. cbn [ndims ssup].
    split_and!; [done|done|by rewrite len_upd|]. rewrite take_upd by lia. rewrite (take_cell 0) by lia. by rewrite fmap_app, H3.
  - intros [mss' rows] (-> & H1 & H2 & H3). rewrite !take_all in H3 by done. f_equal. destruct mss'; cbn in *. by subst.
Qed.

(** Comparing two loaded rows. *)
Lemma compare_rows comb i j :
  multi_sort_compare (dep_mss T data comb) (nd_item comb (len comb) i) (nd_item comb (len comb) j) = 0 <-> rows_equal comb i j.
Proof using Type.
  unfold multi_sort_compare. cbn [ndims dep_mss]. rewrite compare_dims_zero. unfold rows_equal. rewrite Forall_lookup.
  assert (Hdim : forall (x : nat) idx, comb !! x = Some idx ->
    multi_sort_compare_dim (Z.of_nat x) (nd_item comb (len comb) i) (nd_item comb (len comb) j) (dep_mss T data comb) = 0 <->
    same_cell T data idx (raw_cell i idx) (raw_cell j idx)).
  { intros x idx Hx. unfold multi_sort_compare_dim, nd_item, getd. rewrite Z.sub_diag. cbn [it_values it_isnull ssup dep_mss replicate Z.to_nat].
    rewrite !app_nil_r, Nat2Z.id, !(take_all comb) by done. rewrite !list_lookup_fmap, Hx. cbn. unfold id. rewrite apply_comparator_zero. done. }
  split.
  - intros H x idx Hx. apply (Hdim x idx Hx). apply H. apply lookup_lt_Some in Hx. unfold len. lia.
  - intros H x Hx. unfold len in Hx. destruct (lookup_lt_is_Some_2 comb (Z.to_nat x)) as [idx Hidx]; [lia|].
    pose proof (Hdim _ _ Hidx) as Hd. rewrite Z2Nat.id in Hd by lia. apply Hd. by apply (H (Z.to_nat x)).
Qed.

Lemma counts_of_rows comb :
  classes (same (multi_sort_compare (dep_mss T data comb))) (nd_rows comb (len comb)) = distinct_rows comb /\
  singles (same (multi_sort_compare (dep_mss T data comb))) (nd_rows comb (len comb)) = unique_rows comb.
Proof using Type.
  split; [apply classes_fmap|apply singles_fmap]; intros x y _ _; apply compare_rows.
Qed.

Lemma ndistinct_spec totalrows comb :
  dep_ok data comb -> 2 <= len comb ->
  ndistinct_for_combination cassert T totalrows data (len comb) comb =
  Ok (estimate_ndistinct totalrows (numrows data) (distinct_rows comb) (unique_rows comb)).
Proof.
  intros Hd Hk. apply wp_eq. pose proof (so_rows _ _ Hs) as Hrows. unfold ndistinct_for_combination, multi_sort_init.
  apply wp_bind, wp_bind, wp_assert; [apply Z.leb_le; lia|]. apply wp_Ok. rewrite blank_rows.
  rewrite load_dimensions_wp; [|done|cbn; unfold len; by rewrite Nat2Z.id|done]. step_ok.
  set (cmp := multi_sort_compare (dep_mss T data comb)).
  assert (Hcmp : SortComparator cmp) by (apply dims_comparator, dep_mss_ok; done).
  apply wp_bind. eapply wp_mono; [apply (wp_ST_SORT _ no_item); [lia|lia|rewrite len_nd_rows; lia|]|].
  { unfold frames_for. pose proof (Z.log2_nonneg (numrows data)). lia. }
  intros rows [Hp Hsort]. pose proof (perm_seg_len _ _ _ _ Hp) as Hl. rewrite len_nd_rows in Hl by lia.
  apply perm_seg_perm in Hp. rewrite Z.add_0_l in Hsort.
  assert (Hsorted : StronglySorted (fun x y => cmp x y <= 0) rows).
  { apply (sorted_seg_StronglySorted _ no_item). rewrite Hl. by apply Hsort. }
  destruct (counts_of_rows comb) as [Hc1 Hc2]. fold cmp in Hc1, Hc2.
  apply wp_bind, wp_loop_state.
  apply (wp_for_up (groups_inv cmp no_item rows)); [lia| | |].
  - apply groups_inv_start; done || lia.
  - intros i g Hi Hinv. unfold count_groups. apply wp_bind, wp_bind, (wp_rd no_item); [lia|].
    apply wp_bind, (wp_rd no_item); [lia|]. apply wp_Ok, wp_Ok. apply groups_inv_step; done || lia.
  - intros g Hinv. rewrite <- Hl in Hinv. apply groups_inv_end in Hinv as [H1 H2]; [|done || lia..].
    rewrite H1, H2. apply wp_Ok. f_equal.
    + rewrite <- Hc1. symmetry. pose proof (same_equivalence cmp no_item). apply (classes_perm (same cmp)). exact Hp.
    + rewrite <- Hc2. symmetry. by apply singles_perm.
Qed.

End sample.

Section build.
Context (cassert : bool) (T : TypeSystem) (data : StatsBuildData) (totalrows : double).

Definition item_of (comb : list Z) : MVNDistinctItem :=
  {| ndistinct := estimate_ndistinct totalrows (numrows data) (distinct_rows T data comb) (unique_rows T data comb);
     item_natts := len comb; item_atts := dep_attnums data comb |}.

(** The combinations of [2] to [k - 1] columns, shorter ones first. *)
Definition combos_below (n k : Z) : list (list Z) := seqZ 2 (k - 2) ≫= combos n.

Definition all_combos (n : Z) : list (list Z) := combos_below n (n + 1).

Lemma combos_below_next n k : 2 <= k -> combos_below n (k + 1) = combos_below n k ++ combos n k.
Proof.
  intros Hk. unfold combos_below. rewrite seqZ_next by lia. rewrite bind_app. cbn. by rewrite app_nil_r.
Qed.

(** [2^n - n - 1] combinations. *)
Lemma all_combos_count n : 2 <= n <= STATS_MAX_DIMENSIONS -> len (all_combos n) = 2 ^ n - (n + 1).
Proof.
  unfold STATS_MAX_DIMENSIONS. intros Hn.
  assert (H : forallb (fun n => len (all_combos n) =? 2 ^ n - (n + 1)) (seqZ 2 7) = true) by (vm_compute; reflexivity).
  rewrite forallb_forall in H. specialize (H n). rewrite <- list_elem_of_In, elem_of_seqZ in H. apply Z.eqb_eq, H. lia.
Qed.

Lemma combos_below_le n k :
  2 <= k <= n -> len (combos_below n k ++ combos n k) <= len (all_combos n).
Proof.
  intros Hk. pose proof (len_bind_prefix (combos n) [] 2 k (n + 1) ltac:(lia)) as H. rewrite !app_nil_l in H. exact H.
Qed.

Lemma elem_of_all_combos n c :
  c ∈ all_combos n <-> 2 <= len c <= n /\ StronglySorted Z.lt c /\ Forall (fun a => 0 <= a < n) c.
Proof.
  unfold all_combos, combos_below, combos. rewrite list_elem_of_bind. setoid_rewrite elem_of_prefixes.
  setoid_rewrite elem_of_seqZ. unfold len. split.
  - intros (k & (Hl & Hs & Hf) & Hk). split_and!; [lia|lia|done|done].
  - intros (Hl & Hs & Hf). exists (Z.of_nat (length c)). rewrite Nat2Z.id. split_and!; [done|done|done|lia|lia].
Qed.

(** An ascending list of numbers below [n] has at most [n] elements. *)
Lemma ascending_len n c : 0 <= n -> StronglySorted Z.lt c -> Forall (fun a => 0 <= a < n) c -> len c <= n.
Proof.
  intros Hn Hs Hf. assert (Hp : forall lo, Forall (fun a => lo <= a < n) c -> lo <= n -> len c <= n - lo).
  { clear Hf. induction Hs as [|a c Hs IH Ha]; intros lo Hf Hlo; [rewrite len_nil; lia|].
    apply Forall_cons in Hf as [Hr Hf]. rewrite len_cons. specialize (IH (a + 1)).
    assert (Forall (fun x => a + 1 <= x < n) c).
    { rewrite Forall_forall in *. intros x Hx. specialize (Hf x Hx). specialize (Ha x Hx). lia. }
    specialize (IH H ltac:(lia)). lia. }
  specialize (Hp 0 Hf). lia.
Qed.

Lemma NoDup_all_combos n : NoDup (all_combos n).
Proof.
  unfold all_combos, combos_below.
  assert (Hd : forall l, NoDup l -> Forall (fun k => 0 <= k) l -> NoDup (l ≫= combos n)).
  { induction 1 as [|k l Hk Hl IH]; intros Hf; [constructor|]. apply Forall_cons in Hf as [H0 Hf]. cbn.
    apply NoDup_app. split_and!; [apply NoDup_prefixes| |by apply IH].
    intros c Hc Hc2. apply list_elem_of_bind in Hc2 as (k' & Hc2 & Hk'). apply Hk.
    rewrite Forall_forall in Hf. pose proof (combos_width n k c H0 Hc). pose proof (combos_width n k' c (Hf _ Hk') Hc2).
    by replace k with k' by lia. }
  apply Hd; [apply NoDup_seqZ|]. apply Forall_forall. intros k Hk%elem_of_seqZ. lia.
Qed.

Context (Hs : good_sample T data) (Hmax : nattnums data <= STATS_MAX_DIMENSIONS) (Hmin : 2 <= nattnums data).
Context (Hvalid : Forall (fun a => AttributeNumberIsValid a = true) (attnums data)).
#[local] Set Default Proof Using "Type*".

Lemma combo_ok k comb : 0 <= k -> comb ∈ combos (nattnums data) k -> dep_ok data comb /\ len comb = k.
Proof.
  intros Hk Hc. split; [|by eapply combos_width]. by apply elem_of_prefixes in Hc as (_ & _ & Hf).
Qed.

Lemma translate_wp comb : dep_ok data comb -> translate cassert data (len comb) comb = Ok (dep_attnums data comb).
Proof.
  intros Hd. apply wp_eq, wp_loop_state.
  apply (wp_for_up (fun i l => l = take (Z.to_nat i) (dep_attnums data comb))); [apply len_nonneg|done|..].
  - intros i l Hi ->. assert (Hidx : 0 <= getd 0 comb i < nattnums data).
    { unfold getd. destruct (lookup_lt_is_Some_2 comb (Z.to_nat i)) as [u Hu]; [unfold len in *; lia|].
      rewrite Hu. by apply (Forall_lookup_1 _ _ _ _ Hd Hu). }
    pose proof (so_natts _ _ Hs) as Hn.
    apply wp_bind, (wp_rd 0); [lia|]. apply wp_bind, (wp_rd 0); [lia|]. apply wp_bind, wp_assert.
    { destruct (lookup_lt_is_Some_2 (attnums data) (Z.to_nat (getd 0 comb i))) as [u Hu]; [unfold len in *; lia|].
      unfold getd at 1. rewrite Hu. by apply (Forall_lookup_1 _ _ _ _ Hvalid Hu). }
    apply wp_Ok. rewrite (take_cell 0) by (unfold dep_attnums, len in *; rewrite length_fmap; lia). do 2 f_equal.
    unfold getd at 3, dep_attnums. rewrite list_lookup_fmap. unfold getd at 2.
    destruct (lookup_lt_is_Some_2 comb (Z.to_nat i)) as [u Hu]; [unfold len in *; lia|]. by rewrite Hu.
  - intros l ->. apply take_all. unfold dep_attnums, len. by rewrite length_fmap.
Qed.

(** The rest of the combinations of [k] columns, from number [c] on. *)
Lemma build_items_wp k st acc room (rest : nat) : forall (c : nat) fuel,
  2 <= k <= nattnums data -> comb_rep (nattnums data) k (len (combos (nattnums data) k)) st (combos (nattnums data) k) ->
  len (combos (nattnums data) k) < 2 ^ 31 ->
  (c + rest = length (combos (nattnums data) k))%nat -> (rest < fuel)%nat -> len acc + Z.of_nat rest <= room ->
  build_items cassert T fuel totalrows data k room (set_current st (Z.of_nat c) (combinations st)) acc =
  Ok (acc ++ (item_of <$> drop c (combos (nattnums data) k))).
Proof.
  revert acc. induction rest as [|rest IH]; intros acc c fuel Hk Hr Hsmall Hc Hf Hlen; destruct fuel as [|fuel]; try lia;
    cbn [build_items]; rewrite (generator_next_rep _ _ _ _ _ _ Hr) by (done || lia).
  - rewrite lookup_ge_None_2 by lia. step_ok. rewrite drop_ge by lia. cbn. by rewrite app_nil_r.
  - destruct (lookup_lt_is_Some_2 (combos (nattnums data) k) c) as [comb Hcomb]; [lia|]. rewrite Hcomb. step_ok.
    destruct (combo_ok k comb ltac:(lia) (list_elem_of_lookup_2 _ _ _ Hcomb)) as [Hd Hl].
    destruct (Z.leb_spec room (len acc)); [lia|]. subst k. rewrite translate_wp by done. step_ok.
    rewrite ndistinct_spec by (done || lia). step_ok. fold (item_of comb).
    unfold ExtStats.Assert. rewrite len_app. change (len [item_of comb]) with 1.
    destruct (Z.leb_spec (len acc + 1) room); [|lia]. rewrite andb_false_r. step_ok.
    rewrite IH; try done; try lia.
    + rewrite (drop_S _ _ _ Hcomb), <- app_assoc. done.
    + rewrite len_app. change (len [item_of comb]) with 1. lia.
Qed.

Lemma ndistinct_build_spec :
  statext_ndistinct_build cassert T totalrows data =
  Ok {| nd_magic := STATS_NDISTINCT_MAGIC; nd_type := STATS_NDISTINCT_TYPE_BASIC;
        nitems := len (all_combos (nattnums data)); items := item_of <$> all_combos (nattnums data) |}.
Proof.
  apply wp_eq. pose proof (all_combos_count (nattnums data) ltac:(lia)) as Hcount. unfold STATS_MAX_DIMENSIONS in *.
  set (n := nattnums data) in *. unfold statext_ndistinct_build. fold n.
  assert (Hpow : 2 ^ n <= 2 ^ 8) by (apply Z.pow_le_mono_r; lia).
  assert (Hpow2 : 2 ^ 2 <= 2 ^ n) by (apply Z.pow_le_mono_r; lia).
  assert (num_combinations n = Ok (len (all_combos n))) as ->.
  { unfold num_combinations. destruct (Z.leb_spec 0 n); [|lia]. destruct (Z.ltb_spec n 32); [|lia]. cbn [andb].
    rewrite Z.shiftl_1_l, (i32_small (2 ^ n)), (i32_small (n + 1)), i32_small by lia. by rewrite Hcount. }
  step_ok. pose proof (len_nonneg (all_combos n)).
  apply wp_bind. eapply (wp_mono _ (fun l => l = item_of <$> all_combos n)).
  - apply wp_loop_state.
    apply (wp_for_up (fun k acc => acc = item_of <$> combos_below n k)); [lia|done| |done].
    intros k acc Hk ->. pose proof (combos_below_le n k ltac:(lia)) as Hle. rewrite len_app in Hle.
    pose proof (len_nonneg (combos_below n k)). pose proof (len_nonneg (combos n k)).
    pose proof (combos_count n k ltac:(lia)) as Hck.
    destruct (generator_init_rep cassert n k) as (st & -> & Hr); [lia|lia|lia|]. step_ok.
    cbn [set_current ncombinations]. rewrite (cr_count _ _ _ _ _ Hr).
    rewrite (build_items_wp k st (item_of <$> combos_below n k) (len (all_combos n)) (length (combos n k)) 0).
    + apply wp_bind, wp_Ok, wp_Ok. rewrite drop_0, combos_below_next, fmap_app by lia. done.
    + fold n. lia.
    + done.
    + fold n. lia.
    + done.
    + unfold len. lia.
    + unfold len in *. rewrite length_fmap. lia.
  - intros l ->. rewrite u32_small by lia. apply wp_bind, wp_assert.
    { apply Z.eqb_eq. unfold len. by rewrite length_fmap. }
    by apply wp_Ok.
Qed.

End build.
