(* ===== verification/MvFormat.v ===== *)
(** The bytea format of n-distinct statistics: what is written is read back.  The
    text form: what a stored value prints, and when the conversion of the
    estimate to [int] is undefined.

    The text form of n-distinct statistics, and the conversion of an estimate to
    [int] that it uses. *)
From stdpp Require Import pretty.
From S2P Require Import Prelude.
From S2P Require Import Bitmapset.
From S2P Require Import BinaryHeap.
From S2P Require Import SortTemplate.
From S2P Require Import Double.
From S2P Require Import ExtStats.
From S2P Require Import Dependencies.
From S2P Require Import DepGen.
From S2P Require Import ItemFormat.
From S2P Require Import MvDistinct.
Open Scope Z_scope.

Record item_wf (it : MVNDistinctItem) : Prop := {
  iw_value : d_valid (ndistinct it) = true;
  iw_natts : len (item_atts it) = item_natts it;
  iw_range : 2 <= item_natts it <= STATS_MAX_DIMENSIONS;
  iw_atts : Forall (fun a => - 2 ^ 15 <= a < 2 ^ 15) (item_atts it)
}.

Record nd_wf (nd : MVNDistinct) : Prop := {
  nw_magic : nd_magic nd = STATS_NDISTINCT_MAGIC;
  nw_type : nd_type nd = STATS_NDISTINCT_TYPE_BASIC;
  nw_nitems : len (items nd) = nitems nd;
  nw_range : 1 <= nitems nd < 2 ^ 31;
  nw_items : Forall item_wf (items nd)
}.

Definition item_bytes (it : MVNDistinctItem) : list Z :=
  le_bytes 8 (double_bits (ndistinct it)) ++ le_bytes 4 (u32 (item_natts it)) ++ concat (attr_bytes <$> item_atts it).

Definition nd_bytes (nd : MVNDistinct) : list Z :=
  header_bytes (nd_magic nd) (nd_type nd) (nitems nd) ++ all_bytes item_bytes (items nd).

Lemma len_item_bytes it : item_wf it -> len (item_bytes it) = SizeOfItem (item_natts it).
Proof. intros []. unfold item_bytes, SizeOfItem. rewrite !len_app, !len_le_bytes, len_attrs. lia. Qed.

Lemma all_bytes_min l : Forall item_wf l -> 16 * len l <= len (all_bytes item_bytes l).
Proof.
  unfold all_bytes. induction 1 as [|it l Hit Hl IH]; [done|]. cbn [fmap list_fmap concat].
  rewrite len_app, len_cons, len_item_bytes by done. destruct Hit. unfold SizeOfItem. lia.
Qed.

Lemma put_item_spec it pre (n : nat) :
  item_wf it -> len (item_bytes it) <= Z.of_nat n ->
  put_item it (pre ++ replicate n 0) (len pre) =
  Ok ((pre ++ item_bytes it) ++ replicate (n - length (item_bytes it)) 0, len (pre ++ item_bytes it)).
Proof.
  intros [] Hn. unfold put_item, item_bytes in *. rewrite !len_app, !len_le_bytes, len_attrs in Hn.
  assert (Hl : forall m z, length (le_bytes m z) = m) by (intros m z; pose proof (len_le_bytes m z); unfold len in *; lia).
  rewrite put_spec by (rewrite len_le_bytes; lia). step_ok.
  rewrite put_spec by (rewrite len_le_bytes, Hl; lia). step_ok.
  destruct (Z.ltb_spec (item_natts it) 0); [lia|]. destruct (Z.ltb_spec (len (item_atts it)) (item_natts it)); [lia|].
  cbn [orb]. rewrite (take_all (item_atts it)) by done.
  rewrite put_spec by (rewrite len_attrs, !Hl; lia).
  rewrite <- !app_assoc, !length_app, !Nat.sub_add_distr. done.
Qed.

Section roundtrip.
Context (cassert : bool).

Lemma get_item_spec it pre post :
  item_wf it -> get_item cassert (pre ++ item_bytes it ++ post) (len pre) = Ok (it, len (pre ++ item_bytes it)).
Proof.
  intros []. unfold get_item, item_bytes, STATS_MAX_DIMENSIONS in *. rewrite <- !app_assoc.
  set (b1 := le_bytes 8 (double_bits (ndistinct it))). set (b2 := le_bytes 4 (u32 (item_natts it))).
  set (b3 := concat (attr_bytes <$> item_atts it)).
  assert (H1 : len b1 = 8) by apply len_le_bytes. assert (H2 : len b2 = 4) by apply len_le_bytes.
  assert (H3 : len b3 = 2 * item_natts it) by (unfold b3; rewrite len_attrs; lia).
  rewrite <- H1 at 1. rewrite get_spec. step_ok.
  rewrite <- H2 at 1. rewrite <- len_app, (app_assoc pre b1), get_spec. step_ok.
  assert (i32 (le_val b2) = item_natts it) as ->.
  { unfold b2. rewrite le_val_bytes by (apply Z.mod_pos_bound; lia). rewrite u32_small, i32_small by lia. done. }
  unfold Assert. destruct (Z.leb_spec 2 (item_natts it)); [|lia].
  destruct (Z.leb_spec (item_natts it) 8); [|lia]. rewrite andb_false_r. step_ok.
  destruct (Z.ltb_spec MaxAllocSize (u64 (item_natts it * 2))) as [Hbig|_]; [rewrite u64_small in Hbig by lia; unfold MaxAllocSize in Hbig; lia|].
  rewrite <- H3 at 1. rewrite <- len_app, (app_assoc (pre ++ b1) b2), get_spec. step_ok.
  rewrite <- len_app, <- !app_assoc. do 2 f_equal. destruct it as [nd na at']. cbn [ndistinct item_natts item_atts] in *. f_equal.
  - unfold b1. rewrite le_val_bytes by (apply double_bits_range; done). by apply double_roundtrip.
  - unfold b3. rewrite <- iw_natts0. unfold len. rewrite Nat2Z.id. by apply get_attributes_bytes.
Qed.

#[export] Instance item_format : ItemFormat item_bytes item_wf put_item (get_item cassert).
Proof.
  split.
  - intros it H. rewrite len_item_bytes by done. destruct H. unfold SizeOfItem, STATS_MAX_DIMENSIONS in *. lia.
  - apply put_item_spec.
  - apply get_item_spec.
Qed.

Lemma nd_bytes_len nd : len (nd_bytes nd) = SizeOfHeader + len (all_bytes item_bytes (items nd)).
Proof. unfold nd_bytes. by rewrite len_app, len_header. Qed.

Lemma nd_serialize_spec nd : nd_wf nd -> statext_ndistinct_serialize cassert nd = Ok (nd_bytes nd).
Proof.
  intros []. apply wp_eq. unfold statext_ndistinct_serialize.
  do 2 (apply wp_bind, wp_assert; [apply Z.eqb_eq; done|]). rewrite <- nw_nitems0 at 1.
  pose proof (nd_bytes_len nd) as Htot. pose proof (len_nonneg (all_bytes item_bytes (items nd))).
  apply wp_bind. eapply wp_mono.
  { apply (sizes_wp item_bytes item_wf put_item (get_item cassert)); [done|lia|unfold SizeOfHeader; lia|].
    intros i it size Hit Hi. pose proof (Forall_lookup_1 _ _ _ _ nw_items0 Hit) as Hw.
    apply wp_bind, (wp_rd it); [lia|]. unfold getd. rewrite Hit. change (default it (Some it)) with it.
    apply wp_bind, wp_assert; [destruct Hw; apply Z.leb_le; lia|]. apply wp_Ok. by rewrite len_item_bytes. }
  intros size ->. rewrite <- Htot.
  destruct (put_header (nd_magic nd) (nd_type nd) (nitems nd) (len (nd_bytes nd))) as (b1 & b2 & -> & H2 & H3).
  { change Dependencies.SizeOfHeader with SizeOfHeader. lia. }
  step_ok. rewrite H2. step_ok. rewrite H3. step_ok.
  pose proof (put_items_wp item_bytes item_wf put_item (get_item cassert) cassert (items nd)
    (header_bytes (nd_magic nd) (nd_type nd) (nitems nd)) (len (nd_bytes nd)) "tmp <= ((char *) output + len)" nw_items0 eq_refl) as Hw.
  rewrite len_header, nw_nitems0 in Hw. change 12 with Dependencies.SizeOfHeader. rewrite Hw. step_ok.
  apply wp_bind, wp_assert; [apply Z.eqb_refl|]. by apply wp_Ok.
Qed.

Lemma nd_deserialize_spec nd : nd_wf nd -> statext_ndistinct_deserialize cassert (Some (nd_bytes nd)) = Ok (Some nd).
Proof.
  intros []. apply wp_eq. pose proof (nd_bytes_len nd) as Htot.
  pose proof (all_bytes_min (items nd) nw_items0) as Hmin.
  unfold statext_ndistinct_deserialize, SizeOfHeader in *. destruct (Z.ltb_spec (len (nd_bytes nd)) (3 * 4)); [lia|].
  destruct (header_read (nd_magic nd) (nd_type nd) (nitems nd) (all_bytes item_bytes (items nd))) as (H1 & H2 & H3).
  fold (nd_bytes nd) in H1, H2, H3. rewrite H1. step_ok. rewrite H2. step_ok. rewrite H3. step_ok.
  rewrite !le_val_bytes by (rewrite ?nw_magic0, ?nw_type0; unfold STATS_NDISTINCT_MAGIC, STATS_NDISTINCT_TYPE_BASIC; lia).
  rewrite nw_magic0, nw_type0, !Z.eqb_refl. cbn [negb]. destruct (Z.eqb_spec (nitems nd) 0); [lia|].
  destruct (Z.ltb_spec (len (nd_bytes nd)) (MinSizeOfItems (nitems nd))).
  { unfold MinSizeOfItems, MinSizeOfItem, SizeOfItem, SizeOfHeader in *. lia. }
  pose proof (get_items_wp item_bytes item_wf put_item (get_item cassert) cassert (items nd)
    (header_bytes (nd_magic nd) (nd_type nd) (nitems nd)) "tmp <= ((char *) data + VARSIZE_ANY(data))" nw_items0) as Hw.
  rewrite len_header, nw_nitems0 in Hw. fold (nd_bytes nd) in Hw. change 12 with Dependencies.SizeOfHeader. rewrite Hw. step_ok.
  apply wp_bind, wp_assert; [apply Z.eqb_refl|]. apply wp_Ok. destruct nd. cbn in *. by subst.
Qed.

Lemma nd_bytes_size nd :
  nd_wf nd -> len (nd_bytes nd) = SizeOfHeader + foldr Z.add 0 ((fun it => SizeOfItem (item_natts it)) <$> items nd).
Proof.
  intros []. rewrite nd_bytes_len. f_equal. clear - nw_items0. unfold all_bytes.
  induction nw_items0 as [|it l Hit Hl IH]; [done|]. cbn [fmap list_fmap concat foldr]. rewrite len_app, len_item_bytes by done. lia.
Qed.

(** A value that is cut below the least size for its number of items. *)
Lemma nd_truncated nd n :
  nd_wf nd -> SizeOfHeader <= n < MinSizeOfItems (nitems nd) ->
  statext_ndistinct_deserialize cassert (Some (take (Z.to_nat n) (nd_bytes nd))) = Err "invalid MVNDistinct size".
Proof.
  intros Hw Hn. pose proof Hw as []. assert (Hmin : MinSizeOfItems (nitems nd) <= len (nd_bytes nd)).
  { rewrite nd_bytes_len. unfold MinSizeOfItems, MinSizeOfItem, SizeOfItem. pose proof (all_bytes_min (items nd) nw_items0). lia. }
  assert (Hl : len (take (Z.to_nat n) (nd_bytes nd)) = n) by (unfold len in *; rewrite length_take; unfold SizeOfHeader in *; lia).
  unfold statext_ndistinct_deserialize. rewrite Hl. destruct (Z.ltb_spec n SizeOfHeader); [lia|].
  assert (Hh : take (Z.to_nat n) (nd_bytes nd) = header_bytes (nd_magic nd) (nd_type nd) (nitems nd) ++
    take (Z.to_nat (n - 12)) (all_bytes item_bytes (items nd))).
  { pose proof (len_header (nd_magic nd) (nd_type nd) (nitems nd)) as Hlh. unfold Dependencies.SizeOfHeader, SizeOfHeader, len in *.
    unfold nd_bytes. rewrite take_app, take_ge by lia. do 2 f_equal. lia. }
  rewrite Hh. destruct (header_read (nd_magic nd) (nd_type nd) (nitems nd) (take (Z.to_nat (n - 12)) (all_bytes item_bytes (items nd)))) as (H1 & H2 & H3).
  rewrite H1. step_ok. rewrite H2. step_ok. rewrite H3. step_ok.
  rewrite !le_val_bytes by (rewrite ?nw_magic0, ?nw_type0; unfold STATS_NDISTINCT_MAGIC, STATS_NDISTINCT_TYPE_BASIC; lia).
  rewrite nw_magic0, nw_type0, !Z.eqb_refl. cbn [negb]. destruct (Z.eqb_spec (nitems nd) 0); [lia|].
  destruct (Z.ltb_spec n (MinSizeOfItems (nitems nd))); [done|lia].
Qed.

End roundtrip.

(** * Conversion to [int] *)
Definition int_overflow : string := "conversion of a double outside the range of int".

Lemma d_to_int_big x : d_valid x = true -> d_leb (d_of_Z (2 ^ 31)) x = true -> d_to_int x = UB int_overflow.
Proof.
  intros Hv Hle. change (d_of_Z (2 ^ 31)) with (S754_finite false (2 ^ 52) (-21)) in Hle.
  destruct x as [s|[]| |[] m e]; [done|done|done|done|done|]. apply d_valid_finite in Hv. unfold d_leb, SFleb in Hle. cbn [SFcompare] in Hle.
  assert (He : - 21 <= e /\ (e = - 21 -> 2 ^ 52 <= Z.pos m)).
  { destruct (Z.compare_spec (- 21) e) as [Heq|Hlt|Hgt]; [|split; lia|done]. split; [lia|]. intros _.
    change (Pos.compare_cont Eq (2 ^ 52) m) with (2 ^ 52 ?= m)%positive in Hle.
    destruct (Pos.compare_spec (2 ^ 52) m) as [<-|Hlt|Hgt]; [lia|lia|done]. }
  assert (Hm : 2 ^ 52 <= Z.pos m) by (destruct Hv as [[H ->]|[H _]]; lia).
  unfold d_to_int. set (a := if 0 <=? e then _ else _). assert (2 ^ 31 <= a).
  { unfold a. destruct (Z.leb_spec 0 e).
    - pose proof (Z.pow_pos_nonneg 2 e). nia.
    - apply Z.div_le_lower_bound; [apply Z.pow_pos_nonneg; lia|].
      assert (2 ^ (- e) <= 2 ^ 21) by (apply Z.pow_le_mono_r; lia). nia. }
  destruct (Z.ltb_spec a (2 ^ 31)); [lia|]. by rewrite andb_false_r.
Qed.

(** * Joining strings *)
Lemma str_app_assoc (a b c : string) : (a ++ (b ++ c) = (a ++ b) ++ c)%string.
Proof. induction a as [|x a IH]; [done|]. change (String x (a ++ (b ++ c)) = String x ((a ++ b) ++ c))%string. by rewrite IH. Qed.

Lemma concat_snoc sep (l : list string) x :
  l <> [] -> String.concat sep (l ++ [x]) = (String.concat sep l ++ sep ++ x)%string.
Proof.
  intros Hl. induction l as [|a l IH]; [done|]. destruct l as [|b l].
  - cbn. by rewrite !str_app_assoc.
  - change (String.concat sep ((a :: b :: l) ++ [x])) with (a ++ sep ++ String.concat sep ((b :: l) ++ [x]))%string.
    rewrite IH by done. change (String.concat sep (a :: b :: l)) with (a ++ sep ++ String.concat sep (b :: l))%string.
    by rewrite !str_app_assoc.
Qed.

(** The state of a loop that prints the elements of [ss] with separators. *)
Definition joined (s0 first : string) (ss : list string) : string :=
  match ss with [] => s0 | _ => (s0 ++ first ++ String.concat ", " ss)%string end.

Lemma joined_snoc s0 first ss x :
  joined s0 first (ss ++ [x]) =
  (joined s0 first ss ++ (if (len ss =? 0)%Z then first else ", ") ++ x)%string.
Proof.
  destruct ss as [|a ss].
  - cbn. done.
  - assert (joined s0 first ((a :: ss) ++ [x]) = (s0 ++ first ++ String.concat ", " ((a :: ss) ++ [x]))%string) as -> by done.
    rewrite concat_snoc by done. rewrite len_cons. pose proof (len_nonneg ss). destruct (Z.eqb_spec (1 + len ss) 0); [lia|].
    cbn [joined]. by rewrite !str_app_assoc.
Qed.

(** A loop whose steps succeed up to [l1] and fail at the next element. *)
Lemma loop_fails {S R} (body : Z -> S -> res (S + R)) (st : Z -> S) w (m : nat) : forall n i,
  (m < n)%nat -> (forall j, i <= j < i + Z.of_nat m -> body j (st j) = Ok (inl (st (j + 1)))) ->
  body (i + Z.of_nat m) (st (i + Z.of_nat m)) = UB w -> loop_up n i body (st i) = UB w.
Proof.
  induction m as [|m IH]; intros n i Hn Hok Hf; (destruct n as [|n]; [lia|]); cbn [loop_up].
  - rewrite Z.add_0_r in Hf. by rewrite Hf.
  - rewrite Hok by lia. cbn [mbind res_bind]. apply IH; [lia| |].
    + intros j Hj. apply Hok. lia.
    + replace (i + 1 + Z.of_nat m) with (i + Z.of_nat (Datatypes.S m)) by lia. done.
Qed.

(** * The output *)

(** What is printed for an item whose estimate converts to [z]. *)
Definition item_string (it : MVNDistinctItem) (z : Z) : string :=
  (quote_mark ++ String.concat ", " (pretty <$> item_atts it) ++ quote_mark ++ ": " ++ pretty z)%string.

Lemma item_text_spec it : item_wf it -> item_text it = (z ← d_to_int (ndistinct it); Ok (item_string it z)).
Proof.
  intros []. unfold item_text.
  assert (Hloop : loop_state (for_up 0 (item_natts it) (fun j str =>
      a ← rd (item_atts it) j;
      Ok (inl (str ++ (if (j =? 0)%Z then quote_mark else ", ") ++ pretty a)%string)) EmptyString) =
    Ok (joined EmptyString quote_mark (pretty <$> item_atts it))).
  { apply wp_eq, wp_loop_state.
    apply (wp_for_up (fun j str => str = joined EmptyString quote_mark (pretty <$> take (Z.to_nat j) (item_atts it)))); [lia|done|..].
    - intros j str Hj ->. destruct (lookup_lt_is_Some_2 (item_atts it) (Z.to_nat j)) as [a Ha]; [unfold len in *; lia|].
      apply wp_bind, (wp_rd a); [lia|]. unfold getd. rewrite Ha. apply wp_Ok.
      replace (Z.to_nat (j + 1)) with (S (Z.to_nat j)) by lia. rewrite (take_S_r _ _ _ Ha), fmap_app. cbn [fmap list_fmap].
      rewrite joined_snoc. replace (len (pretty <$> take (Z.to_nat j) (item_atts it))) with j; [done|].
      unfold len in *. rewrite length_fmap, length_take. lia.
    - intros str ->. by rewrite take_all. }
  rewrite Hloop. cbn [mbind res_bind]. destruct (d_to_int (ndistinct it)) as [z| |]; [|done|done]. cbn [res_bind]. f_equal.
  unfold item_string. destruct (item_atts it) as [|a l] eqn:E; [rewrite len_nil in *; lia|]. cbn [joined fmap list_fmap].
  cbn [String.append]. by rewrite !str_app_assoc.
Qed.

Section out.
Context (cassert : bool).

(** The items that convert, up to a number of them. *)
Definition converts (it : MVNDistinctItem) (z : Z) : Prop := d_to_int (ndistinct it) = Ok z.

Lemma out_step nd l1 it l2 zs :
  nd_wf nd -> items nd = l1 ++ it :: l2 -> Forall2 converts l1 zs ->
  (it' ← rd (items nd) (len l1);
   t ← item_text it';
   Ok (inl (joined "{" EmptyString (zip_with item_string l1 zs) ++ (if (0 <? len l1)%Z then ", " else EmptyString) ++ t)%string)
     : res (string + Empty_set)) =
  (z ← d_to_int (ndistinct it); Ok (inl (joined "{" EmptyString (zip_with item_string (l1 ++ [it]) (zs ++ [z]))))).
Proof.
  intros Hw Hi Hz. assert (Hrd : rd (items nd) (len l1) = Ok it).
  { apply wp_eq, (wp_rd it).
    - rewrite Hi, len_app, len_cons. pose proof (len_nonneg l1). pose proof (len_nonneg l2). lia.
    - rewrite Hi. unfold getd, len. rewrite Nat2Z.id, lookup_app_r, Nat.sub_diag by lia. done. }
  assert (Hwf : item_wf it).
  { pose proof (nw_items _ Hw) as Hall. rewrite Hi in Hall. apply Forall_app in Hall as [_ H]. by apply Forall_cons in H as [H _]. }
  rewrite Hrd. cbn [mbind res_bind]. rewrite item_text_spec by done. cbn [mbind].
  destruct (d_to_int (ndistinct it)) as [z| |]; [|done|done]. step_ok. step_ok.
  pose proof (Forall2_length _ _ _ Hz) as Hlen. rewrite zip_with_app by done. cbn [zip_with]. rewrite joined_snoc.
  assert (len (zip_with item_string l1 zs) = len l1) as -> by (unfold len; rewrite length_zip_with; lia).
  pose proof (len_nonneg l1). destruct (Z.eqb_spec (len l1) 0), (Z.ltb_spec 0 (len l1)); done || lia.
Qed.

Definition out_body (nd : MVNDistinct) (i : Z) (str : string) : res (string + Empty_set) :=
  it ← rd (items nd) i;
  t ← item_text it;
  Ok (inl (str ++ (if (0 <? i)%Z then ", " else EmptyString) ++ t)%string).

Lemma out_unfold nd :
  nd_wf nd ->
  pg_ndistinct_out cassert (nd_bytes nd) =
  (str ← loop_state (for_up 0 (nitems nd) (out_body nd) "{"); Ok (str ++ "}")%string).
Proof. intros Hw. unfold pg_ndistinct_out. by rewrite nd_deserialize_spec. Qed.

(** The printed text after the first [i] items. *)
Definition out_state (nd : MVNDistinct) (zs : list Z) (i : Z) : string :=
  joined "{" EmptyString (zip_with item_string (take (Z.to_nat i) (items nd)) (take (Z.to_nat i) zs)).

Lemma out_body_ok nd zs i :
  nd_wf nd -> 0 <= i < len zs -> Forall2 converts (take (length zs) (items nd)) zs ->
  out_body nd i (out_state nd zs i) = Ok (inl (out_state nd zs (i + 1))).
Proof.
  intros Hw Hi Hz. unfold len in Hi. destruct (lookup_lt_is_Some_2 zs (Z.to_nat i)) as [z Hzi]; [lia|].
  destruct (Forall2_lookup_r _ _ _ _ _ Hz Hzi) as (it & Hit & Hc). apply lookup_take_Some in Hit as [Hit _].
  pose proof (out_step nd (take (Z.to_nat i) (items nd)) it (drop (S (Z.to_nat i)) (items nd)) (take (Z.to_nat i) zs) Hw) as Hs.
  rewrite take_drop_middle in Hs by done. specialize (Hs eq_refl).
  assert (Hl : len (take (Z.to_nat i) (items nd)) = i).
  { apply lookup_lt_Some in Hit. unfold len. rewrite length_take. lia. }
  rewrite Hl in Hs. unfold out_body, out_state. rewrite Hs.
  - rewrite Hc. cbn [mbind res_bind]. replace (Z.to_nat (i + 1)) with (S (Z.to_nat i)) by lia.
    by rewrite (take_S_r _ _ _ Hit), (take_S_r _ _ _ Hzi).
  - apply (Forall2_take _ _ _ (Z.to_nat i)) in Hz. rewrite take_take in Hz. by replace (Z.to_nat i `min` length zs)%nat with (Z.to_nat i) in Hz by lia.
Qed.

Lemma out_text nd zs :
  nd_wf nd -> Forall2 converts (items nd) zs ->
  pg_ndistinct_out cassert (nd_bytes nd) = Ok ("{" ++ String.concat ", " (zip_with item_string (items nd) zs) ++ "}")%string.
Proof.
  intros Hw Hz. rewrite out_unfold by done. pose proof Hw as []. pose proof (Forall2_length _ _ _ Hz) as Hlen.
  assert (Hloop : loop_state (for_up 0 (nitems nd) (out_body nd) "{") = Ok (out_state nd zs (nitems nd))).
  { apply wp_eq, wp_loop_state. apply (wp_for_up (fun i str => str = out_state nd zs i)); [lia|done| |done].
    intros i str Hi ->. rewrite out_body_ok; [done|done|unfold len in *; lia|]. rewrite take_ge by lia. done. }
  rewrite Hloop. cbn [mbind res_bind]. unfold out_state. rewrite !take_ge by (unfold len in *; lia).
  destruct (items nd) as [|it l]; [rewrite len_nil in *; lia|]. destruct zs as [|z zs]; [done|].
  cbn [zip_with joined]. by rewrite !str_app_assoc.
Qed.

(** The first estimate that does not convert stops the output. *)
Lemma out_overflow nd l1 it l2 zs w :
  nd_wf nd -> items nd = l1 ++ it :: l2 -> Forall2 converts l1 zs -> d_to_int (ndistinct it) = UB w ->
  pg_ndistinct_out cassert (nd_bytes nd) = UB w.
Proof.
  intros Hw Hi Hz Hu. rewrite out_unfold by done. pose proof Hw as []. pose proof (Forall2_length _ _ _ Hz) as Hlen.
  assert (Hloop : for_up 0 (nitems nd) (out_body nd) "{" = UB w).
  { unfold for_up. rewrite <- (nw_nitems _ Hw), Hi, len_app, len_cons. pose proof (len_nonneg l2).
    apply (loop_fails (out_body nd) (out_state nd zs) w (length l1)).
    - unfold len in *. lia.
    - intros j Hj. apply out_body_ok; [done|unfold len; lia|]. rewrite Hi, take_app_length' by lia. done.
    - pose proof (out_step nd l1 it l2 zs Hw Hi Hz) as Hs. rewrite Hu in Hs. unfold out_state. rewrite Z.add_0_l, Nat2Z.id.
      rewrite Hi. rewrite take_app_length, (take_ge zs) by lia. exact Hs. }
  by rewrite Hloop.
Qed.

End out.
