(* ===== verification/MvProps.v ===== *)
(** The properties of n-distinct statistics. *)
From stdpp Require Import sorting sets pretty.
From S2P Require Import Prelude.
From S2P Require Import Double.
From S2P Require Import SortTemplate.
From S2P Require Import SortProps.
From S2P Require Import BinaryHeap.
From S2P Require Import Bitmapset.
From S2P Require Import ExtStats.
From S2P Require Import Dependencies.
From S2P Require Import DepGen.
From S2P Require Import DepDegree.
From S2P Require Import ItemFormat.
From S2P Require Import DepFormat.
From S2P Require Import DepProps.
From S2P Require Import MvDistinct.
From S2P Require Import MvGen.
From S2P Require Import MvCount.
From S2P Require Import MvEstimate.
From S2P Require Import MvFormat.
Open Scope Z_scope.

(** * Building *)

(** C25. [statext_ndistinct_build] makes one item for each set of two or more of
    the [n] columns, [2^n - n - 1] items that fill its array exactly, smaller sets
    first.  The value of an item is the estimator applied to the number of
    distinct rows of the sample in these columns and to the number of rows that
    occur once; no assertion fails and no array is overrun. *)
Theorem ndistinct_build_complete cassert T data totalrows :
  good_sample T data -> 2 <= nattnums data <= STATS_MAX_DIMENSIONS ->
  Forall (fun a => AttributeNumberIsValid a = true) (attnums data) ->
  exists combs, statext_ndistinct_build cassert T totalrows data =
      Ok {| nd_magic := STATS_NDISTINCT_MAGIC; nd_type := STATS_NDISTINCT_TYPE_BASIC;
            nitems := 2 ^ nattnums data - nattnums data - 1;
            items := (fun c => {| ndistinct := estimate_ndistinct totalrows (numrows data) (distinct_rows T data c) (unique_rows T data c);
                                  item_natts := len c;
                                  item_atts := (fun idx => getd 0 (attnums data) idx) <$> c |}) <$> combs |} /\
    NoDup combs /\
    (forall c, c ∈ combs <-> 2 <= len c /\ StronglySorted Z.lt c /\ Forall (fun idx => 0 <= idx < nattnums data) c).
Proof.
  intros Hs Hn Hv. exists (all_combos (nattnums data)). split_and!.
  - rewrite ndistinct_build_spec by (done || lia). rewrite all_combos_count by done.
    by replace (2 ^ nattnums data - (nattnums data + 1)) with (2 ^ nattnums data - nattnums data - 1) by lia.
  - apply NoDup_all_combos.
  - intros c. rewrite elem_of_all_combos. split; [naive_solver|]. intros (H1 & H2 & H3). split_and!; [done| |done|done].
    by apply ascending_len; [lia|..].
Qed.

Lemma ndistinct_build_complete_witness :
  exists nd, statext_ndistinct_build true int_types (d_of_Z 100) small_sample = Ok nd /\ nitems nd = 1.
Proof.
  destruct (ndistinct_build_complete true int_types small_sample (d_of_Z 100) small_good_sample) as (combs & H & _).
  - unfold STATS_MAX_DIMENSIONS; cbn; lia.
  - repeat constructor.
  - eexists. split; [exact H|reflexivity].
Defined.

(** The sample has three distinct rows, two of which occur once. *)
Example small_counts :
  distinct_rows int_types small_sample [0; 1] = 3 /\ unique_rows int_types small_sample [0; 1] = 2 /\
  ndistinct_for_combination true int_types (d_of_Z 100) small_sample 2 [0; 1] = Ok (d_of_Z 6).
Proof. vm_compute. done. Qed.

(** * Combinations *)

(** [n_choose_k] is the number of combinations the generator lists, for every
    [n] up to 29.  At 30 its product overflows [int], although the result would
    fit. *)
Theorem combinations_counted cassert n k :
  1 <= k <= n -> n <= 29 ->
  (exists combs gen, n_choose_k cassert n k = Ok (len combs) /\ generator_init cassert n k = Ok gen /\
     NoDup combs /\ (forall c, c ∈ combs <-> len c = k /\ StronglySorted Z.lt c /\ Forall (fun idx => 0 <= idx < n) c) /\
     forall c : nat, (c <= length combs)%nat -> exists gen',
       generator_next (set_current gen (Z.of_nat c) (combinations gen)) = Ok (combs !! c, gen')) /\
  n_choose_k cassert 30 15 = Ok (-131213633) /\ len (combos 30 15) = 155117520.
Proof.
  intros Hk Hn. split; [|split].
  - pose proof (combos_count n k ltac:(lia)) as Hc. exists (combos n k).
    assert (Hfit : choose (Z.to_nat n) (Z.to_nat k) < 2 ^ 31) by (apply choose_small; lia).
    destruct (generator_init_rep cassert n k Hk Hn Hfit) as (st & Hgen & Hr).
    exists (set_current st 0 (combinations st)). split_and!.
    + rewrite n_choose_k_ok by lia. by rewrite Hc.
    + done.
    + apply NoDup_prefixes.
    + intros c. unfold combos. rewrite elem_of_prefixes. unfold len. split; intros (H1 & H2 & H3); split_and!; done || lia.
    + intros c Hlt. eexists. apply (generator_next_rep n k (len (combos n k)) st (combos n k) c Hr); done || lia.
  - destruct cassert; vm_compute; reflexivity.
  - rewrite combos_count by lia. apply choose_30_15.
Qed.

Lemma combinations_counted_witness :
  exists combs gen, n_choose_k true 4 2 = Ok (len combs) /\ generator_init true 4 2 = Ok gen /\ [1; 3] ∈ combs.
Proof.
  destruct (combinations_counted true 4 2) as [(combs & gen & H1 & H2 & _ & H3 & _) _]; [lia|lia|].
  exists combs, gen. split; [exact H1|]. split; [exact H2|]. apply H3. split; [done|]. split; repeat constructor; lia.
Defined.

(** * Storage *)

(** What [statext_ndistinct_serialize] writes for well-formed statistics fits
    its buffer exactly and is read back by [statext_ndistinct_deserialize]; a
    value without bytes for all of its items at their least size is refused. *)
Theorem ndistinct_storage_roundtrip cassert nd :
  nd_wf nd ->
  exists bytes, statext_ndistinct_serialize cassert nd = Ok bytes /\
    len bytes = SizeOfHeader + foldr Z.add 0 ((fun it => SizeOfItem (item_natts it)) <$> items nd) /\
    statext_ndistinct_deserialize cassert (Some bytes) = Ok (Some nd) /\
    (forall n, SizeOfHeader <= n < MinSizeOfItems (nitems nd) ->
       statext_ndistinct_deserialize cassert (Some (take (Z.to_nat n) bytes)) = Err "invalid MVNDistinct size").
Proof.
  intros Hw. exists (nd_bytes nd). split_and!; [by apply nd_serialize_spec|by apply nd_bytes_size|by apply nd_deserialize_spec|].
  intros n Hn. by apply nd_truncated.
Qed.

(** Statistics on two pairs of columns and on three columns. *)
Definition stored_sample (estimate : double) : MVNDistinct := {|
  nd_magic := STATS_NDISTINCT_MAGIC; nd_type := STATS_NDISTINCT_TYPE_BASIC; nitems := 2;
  items := [{| ndistinct := d_of_Z 12; item_natts := 2; item_atts := [1; -1] |};
            {| ndistinct := estimate; item_natts := 3; item_atts := [1; 2; -1] |}] |}.

Lemma stored_sample_wf x : d_valid x = true -> nd_wf (stored_sample x).
Proof.
  intros Hx. split; cbn [stored_sample nd_magic nd_type items nitems]; [done|done|done|lia|].
  constructor; [|constructor; [|constructor]]; split; cbn [ndistinct item_natts item_atts]; unfold STATS_MAX_DIMENSIONS;
    first [done | lia | repeat constructor; lia].
Qed.

Lemma ndistinct_storage_roundtrip_witness :
  exists bytes, statext_ndistinct_serialize true (stored_sample (d_of_Z 40)) = Ok bytes /\ len bytes = 46 /\
    statext_ndistinct_deserialize true (Some bytes) = Ok (Some (stored_sample (d_of_Z 40))).
Proof.
  destruct (ndistinct_storage_roundtrip true (stored_sample (d_of_Z 40)) (stored_sample_wf (d_of_Z 40) eq_refl)) as (bytes & H1 & H2 & H3 & _).
  exists bytes. split; [exact H1|]. split; [rewrite H2; reflexivity|exact H3].
Defined.

(** * The text form *)

(** C26. [pg_ndistinct_out] of a stored value prints each item as its attribute
    numbers and its estimate truncated to an integer.  The cast is to [int]: if
    an estimate is [2^31] or more (a table with that many distinct combinations),
    the conversion is undefined and the output of the whole value with it. *)
Theorem ndistinct_out_int cassert nd l1 it l2 zs :
  nd_wf nd -> items nd = l1 ++ it :: l2 -> Forall2 converts l1 zs ->
  (forall z zs2, converts it z -> Forall2 converts l2 zs2 ->
     pg_ndistinct_out cassert (nd_bytes nd) =
     Ok ("{" ++ String.concat ", " (zip_with item_string (items nd) (zs ++ z :: zs2)) ++ "}")%string) /\
  (d_leb (d_of_Z (2 ^ 31)) (ndistinct it) = true -> pg_ndistinct_out cassert (nd_bytes nd) = UB int_overflow).
Proof.
  intros Hw Hi Hz. split.
  - intros z zs2 Hz1 Hz2. apply out_text; [done|]. rewrite Hi. by apply Forall2_app; [|constructor].
  - intros Hbig. eapply out_overflow; [done..|]. apply d_to_int_big; [|done].
    pose proof (nw_items _ Hw) as Hall. rewrite Hi in Hall. apply Forall_app in Hall as [_ H]. apply Forall_cons in H as [H _].
    apply (iw_value _ H).
Qed.

(** The estimator gives such a value: a sample of 30000 rows, all distinct, of a
    table of three thousand million rows. *)
Definition large_estimate : double := estimate_ndistinct (d_of_Z 3000000000) 30000 30000 30000.

Lemma ndistinct_out_int_witness :
  large_estimate = d_of_Z 3000000000 /\
  pg_ndistinct_out true (nd_bytes (stored_sample large_estimate)) = UB int_overflow.
Proof.
  split; [vm_compute; reflexivity|]. assert (Hv : d_valid large_estimate = true) by (vm_compute; reflexivity).
  refine (proj2 (ndistinct_out_int true (stored_sample large_estimate)
    [{| ndistinct := d_of_Z 12; item_natts := 2; item_atts := [1; -1] |}] _ [] [12] (stored_sample_wf _ Hv) eq_refl _) _).
  - constructor; [vm_compute; reflexivity|constructor].
  - vm_compute. reflexivity.
Defined.

Example sample_text :
  pg_ndistinct_out true (nd_bytes (stored_sample (d_of_Z 40))) =
  Ok ("{" ++ quote_mark ++ "1, -1" ++ quote_mark ++ ": 12, " ++ quote_mark ++ "1, 2, -1" ++ quote_mark ++ ": 40}")%string.
Proof. vm_compute. reflexivity. Qed.
