(* ===== verification/Xid.v ===== *)
(** Transaction ids (src/postgresql/src/include/access/transam.h, the
    comparisons of src/postgresql/src/backend/access/transam/transam.c and the
    sort order of src/postgresql/src/backend/utils/adt/xid.c).

    A [TransactionId] is a [Z] in [0, 2^32).  Ids wrap around, so the order
    of two normal ids is the sign of their 32-bit difference; the lemmas say
    that this is the order of the 64-bit ids they abbreviate as long as those
    are less than 2^31 apart. *)
From S2P Require Import Prelude.
Open Scope string_scope.
Open Scope list_scope.
Open Scope Z_scope.

(** An assertion of a build with assertions: the process stops when it fails. *)
Definition Assert (b : bool) (what : string) : res unit :=
  if b then Ok tt else UB ("TRAP: FailedAssertion(" +:+ what +:+ ")").

(** * Special ids and macros *)
Definition InvalidTransactionId : Z := 0.
Definition BootstrapTransactionId : Z := 1.
Definition FrozenTransactionId : Z := 2.
Definition FirstNormalTransactionId : Z := 3.
Definition MaxTransactionId : Z := 0xFFFFFFFF.

Definition TransactionIdIsValid (xid : Z) : bool := negb (xid =? InvalidTransactionId).
Definition TransactionIdIsNormal (xid : Z) : bool := FirstNormalTransactionId <=? xid.
Definition TransactionIdEquals (id1 id2 : Z) : bool := id1 =? id2.

Definition TransactionIdAdvance (dest : Z) : Z :=
  let dest := u32 (dest + 1) in
  if dest <? FirstNormalTransactionId then FirstNormalTransactionId else dest.

(** [TransactionIdRetreat] decrements until the id is normal: at most four
    times, as the three special ids are adjacent. *)
Fixpoint retreat (fuel : nat) (dest : Z) : res Z :=
  match fuel with
  | O => UB "TransactionIdRetreat"
  | S fuel =>
      let dest := u32 (dest - 1) in
      if dest <? FirstNormalTransactionId then retreat fuel dest else Ok dest
  end.
Definition TransactionIdRetreat (dest : Z) : res Z := retreat 4 dest.

(** * The logical order *)
Definition TransactionIdPrecedes (id1 id2 : Z) : bool :=
  if negb (TransactionIdIsNormal id1) || negb (TransactionIdIsNormal id2)
  then id1 <? id2
  else i32 (id1 - id2) <? 0.

Definition TransactionIdPrecedesOrEquals (id1 id2 : Z) : bool :=
  if negb (TransactionIdIsNormal id1) || negb (TransactionIdIsNormal id2)
  then id1 <=? id2
  else i32 (id1 - id2) <=? 0.

Definition TransactionIdFollows (id1 id2 : Z) : bool :=
  if negb (TransactionIdIsNormal id1) || negb (TransactionIdIsNormal id2)
  then id2 <? id1
  else 0 <? i32 (id1 - id2).

Definition TransactionIdFollowsOrEquals (id1 id2 : Z) : bool :=
  if negb (TransactionIdIsNormal id1) || negb (TransactionIdIsNormal id2)
  then id2 <=? id1
  else 0 <=? i32 (id1 - id2).

(** [while (--nxids >= 0)]: the array is scanned from its end. *)
Definition TransactionIdLatest (mainxid : Z) (xids : list Z) : Z :=
  foldr (fun x result => if TransactionIdPrecedes result x then x else result) mainxid xids.

(** The order of qsort and bsearch on arrays of ids. *)
Definition xidComparator (xid1 xid2 : Z) : Z :=
  if xid2 <? xid1 then 1 else if xid1 <? xid2 then -1 else 0.

(** C's [bsearch] over such an array: the usual halving of [lo, hi). *)
Fixpoint bsearch_xid (fuel : nat) (xid : Z) (xip : list Z) (lo hi : Z) : bool :=
  match fuel with
  | O => false
  | S fuel =>
      if lo <? hi then
        let mid := lo + (hi - lo) / 2 in
        let c := xidComparator xid (getd 0 xip mid) in
        if c =? 0 then true
        else if c <? 0 then bsearch_xid fuel xid xip lo mid
        else bsearch_xid fuel xid xip (mid + 1) hi
      else false
  end.

(** * Lemmas *)
Definition is_xid (x : Z) : Prop := 0 <= x < 2 ^ 32.

Lemma normal_range x : TransactionIdIsNormal x = true <-> 3 <= x.
Proof. unfold TransactionIdIsNormal, FirstNormalTransactionId. lia. Qed.

Lemma valid_nonzero x : TransactionIdIsValid x = true <-> x <> 0.
Proof. unfold TransactionIdIsValid, InvalidTransactionId. lia. Qed.

Lemma i32_diff f g : - 2 ^ 31 <= f - g < 2 ^ 31 -> i32 (u32 f - u32 g) = f - g.
Proof.
  intros H. unfold i32, u32.
  replace (f mod 2 ^ 32 - g mod 2 ^ 32 + 2 ^ 31)
    with ((f - g + 2 ^ 31) + (g / 2 ^ 32 - f / 2 ^ 32) * 2 ^ 32)
    by (rewrite (Z.div_mod f (2 ^ 32)) at 1 by lia;
        rewrite (Z.div_mod g (2 ^ 32)) at 1 by lia; ring).
  rewrite Z.mod_add, Z.mod_small by lia. lia.
Qed.

(** 64-bit ids [f] and [g] whose low halves are normal ids. *)
Lemma precedes_full f g :
  TransactionIdIsNormal (u32 f) = true -> TransactionIdIsNormal (u32 g) = true ->
  - 2 ^ 31 <= f - g < 2 ^ 31 ->
  TransactionIdPrecedes (u32 f) (u32 g) = (f <? g).
Proof. intros Hf Hg H. unfold TransactionIdPrecedes. rewrite Hf, Hg, i32_diff by done. simpl. lia. Qed.

Lemma follows_or_equals_precedes x y :
  TransactionIdFollowsOrEquals x y = negb (TransactionIdPrecedes x y).
Proof.
  unfold TransactionIdFollowsOrEquals, TransactionIdPrecedes.
  destruct (negb (TransactionIdIsNormal x) || negb (TransactionIdIsNormal y)); lia.
Qed.

Lemma precedes_irrefl x : TransactionIdPrecedes x x = false.
Proof.
  unfold TransactionIdPrecedes. rewrite Z.sub_diag, Z.ltb_irrefl.
  by destruct (negb (TransactionIdIsNormal x) || negb (TransactionIdIsNormal x)).
Qed.

(** A special id precedes every normal one. *)
Lemma precedes_special x y :
  TransactionIdIsNormal x = false -> TransactionIdIsNormal y = true -> TransactionIdPrecedes x y = true.
Proof.
  intros Hx Hy. unfold TransactionIdPrecedes. rewrite Hx, Hy. simpl.
  unfold TransactionIdIsNormal, FirstNormalTransactionId in *. lia.
Qed.

Lemma advance_normal x : is_xid x -> 3 <= TransactionIdAdvance x < 2 ^ 32.
Proof.
  unfold TransactionIdAdvance, is_xid, u32, FirstNormalTransactionId. intros.
  pose proof (Z.mod_pos_bound (x + 1) (2 ^ 32) ltac:(lia)). cbv zeta.
  destruct (Z.ltb_spec ((x + 1) mod 2 ^ 32) 3); lia.
Qed.

Lemma retreat_normal x : is_xid x ->
  wp (TransactionIdRetreat x) (fun y => 3 <= y < 2 ^ 32).
Proof.
  unfold TransactionIdRetreat, is_xid, FirstNormalTransactionId. intros.
  destruct (Z.lt_ge_cases 3 x) as [Hx|Hx].
  - cbn [retreat]. unfold FirstNormalTransactionId.
    rewrite u32_small by lia. destruct (Z.ltb_spec (x - 1) 3); [lia|]. simpl. lia.
  - assert (x = 0 \/ x = 1 \/ x = 2 \/ x = 3) as Hc by lia.
    destruct Hc as [->|[->|[->| ->]]]; vm_compute; repeat split; congruence.
Qed.

(** The array search decides membership when the array is sorted. *)
Definition xid_sorted (xip : list Z) : Prop :=
  forall i j, 0 <= i <= j -> j < len xip -> getd 0 xip i <= getd 0 xip j.

Lemma bsearch_xid_spec xid xip : xid_sorted xip ->
  forall fuel lo hi, 0 <= lo -> hi <= len xip -> hi - lo < 2 ^ Z.of_nat fuel ->
  bsearch_xid fuel xid xip lo hi = true <-> exists i, lo <= i < hi /\ getd 0 xip i = xid.
Proof.
  intros Hs. induction fuel as [|fuel IH]; intros lo hi Hlo Hhi Hf.
  - simpl. split; [done|]. intros (i & ? & _). simpl in Hf. lia.
  - rewrite Nat2Z.inj_succ, Z.pow_succ_r in Hf by lia. cbn [bsearch_xid].
    destruct (Z.ltb_spec lo hi) as [Hlt|Hge]; [|split; [done|]; intros (i & ? & _); lia].
    set (mid := lo + (hi - lo) / 2).
    assert (lo <= mid < hi) as Hm by (unfold mid; pose proof (Z.div_mod (hi - lo) 2);
      pose proof (Z.mod_pos_bound (hi - lo) 2); lia).
    assert (mid - lo < 2 ^ Z.of_nat fuel /\ hi - (mid + 1) < 2 ^ Z.of_nat fuel) as [Hl Hr]
      by (unfold mid; pose proof (Z.div_mod (hi - lo) 2);
          pose proof (Z.mod_pos_bound (hi - lo) 2); lia).
    unfold xidComparator.
    destruct (Z.ltb_spec (getd 0 xip mid) xid) as [Hg|Hg]; simpl.
    + rewrite IH by lia. split; intros (i & Hi & He); exists i; (split; [|done]); [lia|].
      destruct (Z.le_gt_cases i mid); [|lia].
      specialize (Hs i mid ltac:(lia) ltac:(lia)). lia.
    + destruct (Z.ltb_spec xid (getd 0 xip mid)) as [Hg'|Hg']; simpl.
      * rewrite IH by lia. split; intros (i & Hi & He); exists i; (split; [|done]); [lia|].
        destruct (Z.lt_ge_cases i mid); [lia|].
        specialize (Hs mid i ltac:(lia) ltac:(lia)). lia.
      * split; [intros _; exists mid; split; [done|lia]|done].
Qed.
