(* ===== verification/Subtrans.v ===== *)
(** The log of subtransaction parents
    (src/postgresql/src/backend/access/transam/subtrans.c).

    The pages of pg_subtrans are a map from page numbers to arrays of
    [SUBTRANS_XACTS_PER_PAGE] transaction ids.  The buffer replacement of
    slru.c, its locks and the truncation of old segments are left out: a page
    that is not in the map was never created or is gone, and reading it is the
    ERROR of slru.c. *)
From stdpp Require Import gmap.
From S2P Require Import Prelude.
From S2P Require Import Xid.
Open Scope string_scope.
Open Scope list_scope.
Open Scope Z_scope.

Definition SUBTRANS_XACTS_PER_PAGE : Z := 2048.

Definition TransactionIdToPage (xid : Z) : Z := xid / SUBTRANS_XACTS_PER_PAGE.
Definition TransactionIdToEntry (xid : Z) : Z := xid mod SUBTRANS_XACTS_PER_PAGE.

Abbreviation SubTransCtl := (gmap Z (list Z)).

(** [SimpleLruReadPage]: the page's contents, or the ERROR of slru.c. *)
Definition SimpleLruReadPage (ctl : SubTransCtl) (pageno : Z) : res (list Z) :=
  match ctl !! pageno with Some p => Ok p | None => Err "could not access status of transaction" end.

Definition ZeroSUBTRANSPage (pageno : Z) (ctl : SubTransCtl) : SubTransCtl :=
  <[pageno := replicate (Z.to_nat SUBTRANS_XACTS_PER_PAGE) 0]> ctl.

Definition SubTransSetParent (xid parent : Z) (ctl : SubTransCtl) : res SubTransCtl :=
  let pageno := TransactionIdToPage xid in
  let entryno := TransactionIdToEntry xid in
  Assert (TransactionIdIsValid parent) "TransactionIdIsValid(parent)";;
  Assert (TransactionIdFollows xid parent) "TransactionIdFollows(xid, parent)";;
  page ← SimpleLruReadPage ctl pageno;
  ptr ← rd page entryno;
  if negb (ptr =? parent) then
    Assert (ptr =? InvalidTransactionId) "*ptr == InvalidTransactionId";;
    page' ← wr page entryno parent;
    Ok (<[pageno := page']> ctl)
  else Ok ctl.

Section lookup.
(** [TransactionXmin] of the backend that looks. *)
Context (TransactionXmin : Z).

Definition SubTransGetParent (xid : Z) (ctl : SubTransCtl) : res Z :=
  let pageno := TransactionIdToPage xid in
  let entryno := TransactionIdToEntry xid in
  Assert (TransactionIdFollowsOrEquals xid TransactionXmin)
    "TransactionIdFollowsOrEquals(xid, TransactionXmin)";;
  if negb (TransactionIdIsNormal xid) then Ok InvalidTransactionId
  else
    page ← SimpleLruReadPage ctl pageno;
    rd page entryno.

(** The loop of [SubTransGetTopmostTransaction], which leaves it with the
    last valid id. *)
Fixpoint topmost_loop (fuel : nat) (parentXid previousXid : Z) (ctl : SubTransCtl) : res Z :=
  match fuel with
  | O => UB "SubTransGetTopmostTransaction: endless loop"
  | S fuel =>
      if TransactionIdIsValid parentXid then
        let previousXid := parentXid in
        if TransactionIdPrecedes parentXid TransactionXmin then Ok previousXid
        else
          parentXid ← SubTransGetParent parentXid ctl;
          if negb (TransactionIdPrecedes parentXid previousXid)
          then Err "pg_subtrans contains invalid entry: xid %u points to parent xid %u"
          else topmost_loop fuel parentXid previousXid ctl
      else Ok previousXid
  end.

Definition SubTransGetTopmostTransaction (fuel : nat) (xid : Z) (ctl : SubTransCtl) : res Z :=
  Assert (TransactionIdFollowsOrEquals xid TransactionXmin)
    "TransactionIdFollowsOrEquals(xid, TransactionXmin)";;
  previousXid ← topmost_loop fuel xid xid ctl;
  Assert (TransactionIdIsValid previousXid) "TransactionIdIsValid(previousXid)";;
  Ok previousXid.
End lookup.

(** The page loop of [StartupSUBTRANS]; page numbers wrap around. *)
Fixpoint zero_pages (fuel : nat) (startPage endPage : Z) (ctl : SubTransCtl) : res SubTransCtl :=
  match fuel with
  | O => UB "StartupSUBTRANS: endless loop"
  | S fuel =>
      if negb (startPage =? endPage) then
        let ctl := ZeroSUBTRANSPage startPage ctl in
        let startPage := startPage + 1 in
        let startPage := if TransactionIdToPage MaxTransactionId <? startPage then 0 else startPage in
        zero_pages fuel startPage endPage ctl
      else Ok (ZeroSUBTRANSPage startPage ctl)
  end.

(** As many rounds as there are page numbers are enough. *)
Definition StartupSUBTRANS (oldestActiveXID nextXid : Z) (ctl : SubTransCtl) : res SubTransCtl :=
  zero_pages (S (Z.to_nat (TransactionIdToPage MaxTransactionId)))
    (TransactionIdToPage oldestActiveXID) (TransactionIdToPage nextXid) ctl.

Definition ExtendSUBTRANS (newestXact : Z) (ctl : SubTransCtl) : SubTransCtl :=
  if negb (TransactionIdToEntry newestXact =? 0)
     && negb (TransactionIdEquals newestXact FirstNormalTransactionId)
  then ctl
  else ZeroSUBTRANSPage (TransactionIdToPage newestXact) ctl.

Definition SubTransPagePrecedes (page1 page2 : Z) : bool :=
  let xid1 := u32 (u32 (page1 * SUBTRANS_XACTS_PER_PAGE) + (FirstNormalTransactionId + 1)) in
  let xid2 := u32 (u32 (page2 * SUBTRANS_XACTS_PER_PAGE) + (FirstNormalTransactionId + 1)) in
  TransactionIdPrecedes xid1 xid2
  && TransactionIdPrecedes xid1 (u32 (u32 (xid2 + SUBTRANS_XACTS_PER_PAGE) - 1)).

(** * Lemmas *)

(** Every page holds [SUBTRANS_XACTS_PER_PAGE] entries. *)
Definition pages_ok (ctl : SubTransCtl) : Prop :=
  forall n p, ctl !! n = Some p -> len p = SUBTRANS_XACTS_PER_PAGE.

(** The parent the log records for [xid], 0 if none or no page. *)
Definition parent_of (ctl : SubTransCtl) (xid : Z) : Z :=
  match ctl !! TransactionIdToPage xid with
  | Some p => getd 0 p (TransactionIdToEntry xid)
  | None => 0
  end.

Definition has_page (ctl : SubTransCtl) (xid : Z) : Prop := is_Some (ctl !! TransactionIdToPage xid).

Lemma entry_range xid : 0 <= TransactionIdToEntry xid < SUBTRANS_XACTS_PER_PAGE.
Proof. apply Z.mod_pos_bound. reflexivity. Qed.

Lemma page_entry_inj x y :
  TransactionIdToPage x = TransactionIdToPage y -> TransactionIdToEntry x = TransactionIdToEntry y -> x = y.
Proof.
  unfold TransactionIdToPage, TransactionIdToEntry. intros Hp He.
  rewrite (Z.div_mod x SUBTRANS_XACTS_PER_PAGE), (Z.div_mod y SUBTRANS_XACTS_PER_PAGE), Hp, He by done.
  done.
Qed.

Lemma wp_SubTransGetParent xm xid ctl (Q : Z -> Prop) :
  pages_ok ctl -> has_page ctl xid -> TransactionIdPrecedes xid xm = false ->
  Q (if TransactionIdIsNormal xid then parent_of ctl xid else 0) ->
  wp (SubTransGetParent xm xid ctl) Q.
Proof.
  intros Hok [p Hp] Hx HQ. unfold SubTransGetParent.
  rewrite follows_or_equals_precedes, Hx. cbn [negb Assert mbind res_bind].
  destruct (TransactionIdIsNormal xid); [|done]. cbn [negb].
  unfold SimpleLruReadPage. rewrite Hp. cbn [mbind res_bind].
  apply wp_rd with 0; [rewrite (Hok _ _ Hp); apply entry_range|].
  unfold parent_of in HQ. by rewrite Hp in HQ.
Qed.

(** Recording a parent changes the entry of [xid] and no other. *)
Lemma SubTransSetParent_spec xid parent ctl :
  pages_ok ctl -> has_page ctl xid -> parent <> 0 -> TransactionIdFollows xid parent = true ->
  parent_of ctl xid = 0 \/ parent_of ctl xid = parent ->
  wp (SubTransSetParent xid parent ctl)
     (fun ctl' => pages_ok ctl' /\ (forall y, has_page ctl' y <-> has_page ctl y)
        /\ forall y, parent_of ctl' y = if y =? xid then parent else parent_of ctl y).
Proof.
  intros Hok [p Hp] Hv Hf Hold. unfold SubTransSetParent.
  rewrite (proj2 (valid_nonzero parent)), Hf by done. cbn [negb Assert mbind res_bind].
  unfold SimpleLruReadPage. rewrite Hp. cbn [mbind res_bind].
  assert (0 <= TransactionIdToEntry xid < len p) as He by (rewrite (Hok _ _ Hp); apply entry_range).
  apply wp_bind, (wp_rd 0); [done|].
  unfold parent_of in Hold; rewrite Hp in Hold.
  destruct (Z.eqb_spec (getd 0 p (TransactionIdToEntry xid)) parent) as [Heq|Hne]; cbn [negb].
  { apply wp_Ok. split; [done|split; [done|]]. intros y. destruct (Z.eqb_spec y xid) as [->|]; [|done].
    unfold parent_of. by rewrite Hp. }
  destruct Hold as [Hz|]; [|done]. rewrite Hz. apply wp_bind, wp_Ok, wp_bind, wp_wr; [done|]. apply wp_Ok. split; [|split].
  - intros n q. rewrite lookup_insert. case_decide; [|apply Hok].
    intros [= <-]. rewrite len_upd. by apply (Hok _ _ Hp).
  - intros y. unfold has_page. rewrite lookup_insert. case_decide as Hd; [|done].
    rewrite <- Hd, Hp. by split.
  - intros y. unfold parent_of. rewrite lookup_insert. case_decide as Hd.
    + rewrite getd_upd by (done || apply entry_range).
      destruct (Z.eqb_spec y xid) as [->|Hyx]; [by rewrite Z.eqb_refl|].
      destruct (Z.eqb_spec (TransactionIdToEntry y) (TransactionIdToEntry xid)) as [He'|He'].
      * exfalso. apply Hyx. by apply page_entry_inj.
      * rewrite <- Hd, Hp. done.
    + destruct (Z.eqb_spec y xid) as [->|]; [done|]. done.
Qed.
