(* ===== verification/Clog.v ===== *)
(** The commit log (src/postgresql/src/backend/access/transam/clog.c).

    The pages of pg_xact are a map from page numbers to pages: [BLCKSZ] bytes
    with four two-bit transaction statuses each, and the group LSNs that the
    buffer slot of the page carries.  A slot is named by the page it holds;
    the buffer replacement of slru.c, the locks themselves, the dirty flags and
    the WAL records are left out, and reading a page that does not exist is the
    ERROR of slru.c.  A byte is its unsigned value, as only masked bits are
    looked at.

    What other processes can see between two writes matters, so the state
    carries, besides the pages, the list of all page maps written so far, one
    per status-bit write, oldest first. *)
From stdpp Require Import gmap.
From S2P Require Import Prelude.
From S2P Require Import Xid.
Open Scope string_scope.
Open Scope list_scope.
Open Scope Z_scope.

(** * Data *)
Definition TRANSACTION_STATUS_IN_PROGRESS : Z := 0.
Definition TRANSACTION_STATUS_COMMITTED : Z := 1.
Definition TRANSACTION_STATUS_ABORTED : Z := 2.
Definition TRANSACTION_STATUS_SUB_COMMITTED : Z := 3.

Definition CLOG_BITS_PER_XACT : Z := 2.
Definition CLOG_XACTS_PER_BYTE : Z := 4.
Definition CLOG_BLCKSZ : Z := 8192.
Definition CLOG_XACTS_PER_PAGE : Z := CLOG_BLCKSZ * CLOG_XACTS_PER_BYTE.
Definition CLOG_XACT_BITMASK : Z := Z.shiftl 1 CLOG_BITS_PER_XACT - 1.
Definition TransactionIdToPage (xid : Z) : Z := xid / CLOG_XACTS_PER_PAGE.
Definition TransactionIdToPgIndex (xid : Z) : Z := xid mod CLOG_XACTS_PER_PAGE.
Definition TransactionIdToByte (xid : Z) : Z := TransactionIdToPgIndex xid / CLOG_XACTS_PER_BYTE.
Definition TransactionIdToBIndex (xid : Z) : Z := xid mod CLOG_XACTS_PER_BYTE.
Definition CLOG_XACTS_PER_LSN_GROUP : Z := 32.
Definition CLOG_LSNS_PER_PAGE : Z := CLOG_XACTS_PER_PAGE / CLOG_XACTS_PER_LSN_GROUP.

(** [GetLSNIndex], within the slot. *)
Definition GetLSNIndex (xid : Z) : Z := xid mod CLOG_XACTS_PER_PAGE / CLOG_XACTS_PER_LSN_GROUP.

Definition THRESHOLD_SUBTRANS_CLOG_OPT : Z := 5.
Definition InvalidXLogRecPtr : Z := 0.

Record Page := mkPage { page_buffer : list Z; group_lsn : list Z }.

Abbreviation XactCtl := (gmap Z Page).

Record ClogState := mkClog { pages : XactCtl; written : list XactCtl }.

(** A process's entry in the list of a group update; [gm_subxids] are the
    cached subtransaction ids of its PGPROC. *)
Record GroupMember := {
  clogGroupMemberXid : Z;
  clogGroupMemberXidStatus : Z;
  clogGroupMemberPage : Z;
  clogGroupMemberLsn : Z;
  gm_subxids : list Z
}.

(** What the routine finds of the other processes: whether XactSLRULock is
    free, the page of the group's head (if there is a group) when the process
    joins it, and the members before and after its own entry in the list that
    the leader walks. *)
Record Others := {
  lock_free : bool;
  group_head_page : option Z;
  members_before : list GroupMember;
  members_after : list GroupMember
}.

(** * Pages *)
Definition SimpleLruReadPage (ctl : XactCtl) (pageno : Z) : res Page :=
  match ctl !! pageno with Some p => Ok p | None => Err "could not access status of transaction" end.

Definition zero_page : Page :=
  mkPage (replicate (Z.to_nat CLOG_BLCKSZ) 0) (replicate (Z.to_nat CLOG_LSNS_PER_PAGE) 0).

Definition ZeroCLOGPage (pageno : Z) (st : ClogState) : ClogState :=
  mkClog (<[pageno := zero_page]> (pages st)) (written st).

Definition TransactionIdGetStatus (xid : Z) (ctl : XactCtl) : res (Z * Z) :=
  let pageno := TransactionIdToPage xid in
  let byteno := TransactionIdToByte xid in
  let bshift := TransactionIdToBIndex xid * CLOG_BITS_PER_XACT in
  slot ← SimpleLruReadPage ctl pageno;
  byte ← rd (page_buffer slot) byteno;
  let status := Z.land (Z.shiftr byte bshift) CLOG_XACT_BITMASK in
  lsn ← rd (group_lsn slot) (GetLSNIndex xid);
  Ok (status, lsn).

Section clog.
(** [InRecovery], the fields of MyProc that are consulted, and the other
    processes. *)
Context (InRecovery : bool) (MyProc_xid : Z) (MyProc_subxids : list Z) (others : Others).

Definition TransactionIdSetStatusBit (xid status lsn slotno : Z) (st : ClogState) : res ClogState :=
  let byteno := TransactionIdToByte xid in
  let bshift := TransactionIdToBIndex xid * CLOG_BITS_PER_XACT in
  slot ← SimpleLruReadPage (pages st) slotno;
  byte ← rd (page_buffer slot) byteno;
  let curval := Z.land (Z.shiftr byte bshift) CLOG_XACT_BITMASK in
  if InRecovery && (status =? TRANSACTION_STATUS_SUB_COMMITTED)
     && (curval =? TRANSACTION_STATUS_COMMITTED)
  then Ok st
  else
    Assert ((curval =? 0)
            || ((curval =? TRANSACTION_STATUS_SUB_COMMITTED)
                && negb (status =? TRANSACTION_STATUS_IN_PROGRESS))
            || (curval =? status))
      "curval == 0 || curval == TRANSACTION_STATUS_SUB_COMMITTED || curval == status";;
    let byteval := Z.land byte (Z.lnot (Z.shiftl (Z.shiftl 1 CLOG_BITS_PER_XACT - 1) bshift)) in
    let byteval := Z.lor byteval (Z.shiftl status bshift) in
    buffer ← wr (page_buffer slot) byteno byteval;
    lsns ← (if negb (lsn =? InvalidXLogRecPtr) then
              let lsnindex := GetLSNIndex xid in
              old ← rd (group_lsn slot) lsnindex;
              if old <? lsn then wr (group_lsn slot) lsnindex lsn else Ok (group_lsn slot)
            else Ok (group_lsn slot));
    let ctl := <[slotno := mkPage buffer lsns]> (pages st) in
    Ok (mkClog ctl (written st ++ [ctl])).

(** The loops over the subxids of one page. *)
Fixpoint set_subxids (subxids : list Z) (status lsn slotno : Z) (st : ClogState) : res ClogState :=
  match subxids with
  | [] => Ok st
  | x :: rest =>
      Assert (slotno =? TransactionIdToPage x) "page_number[slotno] == TransactionIdToPage(subxids[i])";;
      st ← TransactionIdSetStatusBit x status lsn slotno st;
      set_subxids rest status lsn slotno st
  end.

Definition TransactionIdSetPageStatusInternal (xid : Z) (subxids : list Z) (status lsn pageno : Z)
  (st : ClogState) : res ClogState :=
  Assert ((status =? TRANSACTION_STATUS_COMMITTED)
          || (status =? TRANSACTION_STATUS_ABORTED)
          || ((status =? TRANSACTION_STATUS_SUB_COMMITTED) && negb (TransactionIdIsValid xid)))
    "status";;
  _ ← SimpleLruReadPage (pages st) pageno;
  st ← (if TransactionIdIsValid xid then
          st ← (if status =? TRANSACTION_STATUS_COMMITTED
                then set_subxids subxids TRANSACTION_STATUS_SUB_COMMITTED lsn pageno st
                else Ok st);
          TransactionIdSetStatusBit xid status lsn pageno st
        else Ok st);
  set_subxids subxids status lsn pageno st.

(** The leader's walk over the group. *)
Fixpoint group_walk (group : list GroupMember) (st : ClogState) : res ClogState :=
  match group with
  | [] => Ok st
  | m :: rest =>
      Assert (len (gm_subxids m) <=? THRESHOLD_SUBTRANS_CLOG_OPT)
        "proc->subxidStatus.count <= THRESHOLD_SUBTRANS_CLOG_OPT";;
      st ← TransactionIdSetPageStatusInternal (clogGroupMemberXid m) (gm_subxids m)
             (clogGroupMemberXidStatus m) (clogGroupMemberLsn m) (clogGroupMemberPage m) st;
      group_walk rest st
  end.

(** Leader or follower, the process returns after a leader walked a list with
    its own entry in it; it stays out of a group that works on another page. *)
Definition TransactionGroupUpdateXidStatus (xid status lsn pageno : Z) (st : ClogState)
  : res (bool * ClogState) :=
  Assert (TransactionIdIsValid xid) "TransactionIdIsValid(xid)";;
  let own := {| clogGroupMemberXid := xid; clogGroupMemberXidStatus := status;
                clogGroupMemberPage := pageno; clogGroupMemberLsn := lsn;
                gm_subxids := MyProc_subxids |} in
  if match group_head_page others with Some p => negb (p =? pageno) | None => false end
  then Ok (false, st)
  else
    st ← group_walk (members_before others ++ own :: members_after others) st;
    Ok (true, st).

Definition TransactionIdSetPageStatus (xid : Z) (subxids : list Z) (status lsn pageno : Z)
  (all_xact_same_page : bool) (st : ClogState) : res ClogState :=
  if all_xact_same_page && (xid =? MyProc_xid)
     && (len subxids <=? THRESHOLD_SUBTRANS_CLOG_OPT)
     && (len subxids =? len MyProc_subxids)
     && ((len subxids =? 0) || bool_decide (subxids = MyProc_subxids))
  then
    if lock_free others then TransactionIdSetPageStatusInternal xid subxids status lsn pageno st
    else
      '(done, st) ← TransactionGroupUpdateXidStatus xid status lsn pageno st;
      if (done : bool) then Ok st
      else TransactionIdSetPageStatusInternal xid subxids status lsn pageno st
  else TransactionIdSetPageStatusInternal xid subxids status lsn pageno st.

(** The inner [do]-loop: the ids at the front that lie on [pageno]. *)
Fixpoint on_page (pageno : Z) (subxids : list Z) : list Z * list Z :=
  match subxids with
  | [] => ([], [])
  | x :: rest =>
      if negb (TransactionIdToPage x =? pageno) then ([], subxids)
      else let '(run, rest') := on_page pageno rest in (x :: run, rest')
  end.

(** The outer loop, on the ids from [i] on; [nextpageno] is the page of the
    first id left. *)
Fixpoint by_pages (fuel : nat) (pageno : Z) (subxids : list Z) (status lsn : Z) (st : ClogState)
  : res ClogState :=
  match subxids with
  | [] => Ok st
  | _ :: _ =>
      match fuel with
      | O => UB "set_status_by_pages: endless loop"
      | S fuel =>
          let '(run, rest) := on_page pageno subxids in
          st ← TransactionIdSetPageStatus InvalidTransactionId run status lsn pageno false st;
          let nextpageno := match rest with x :: _ => TransactionIdToPage x | [] => pageno end in
          by_pages fuel nextpageno rest status lsn st
      end
  end.

Definition set_status_by_pages (subxids : list Z) (status lsn : Z) (st : ClogState) : res ClogState :=
  first ← rd subxids 0;
  let pageno := TransactionIdToPage first in
  Assert (0 <? len subxids) "nsubxids > 0";;
  by_pages (length subxids) pageno subxids status lsn st.

Definition TransactionIdSetTreeStatus (xid : Z) (subxids : list Z) (status lsn : Z) (st : ClogState)
  : res ClogState :=
  let pageno := TransactionIdToPage xid in
  Assert ((status =? TRANSACTION_STATUS_COMMITTED) || (status =? TRANSACTION_STATUS_ABORTED))
    "status == TRANSACTION_STATUS_COMMITTED || status == TRANSACTION_STATUS_ABORTED";;
  let '(first_page, others_pages) := on_page pageno subxids in
  if bool_decide (others_pages = []) then
    TransactionIdSetPageStatus xid subxids status lsn pageno true st
  else
    st ← (if status =? TRANSACTION_STATUS_COMMITTED
          then set_status_by_pages others_pages TRANSACTION_STATUS_SUB_COMMITTED lsn st
          else Ok st);
    st ← TransactionIdSetPageStatus xid first_page status lsn pageno false st;
    set_status_by_pages others_pages status lsn st.
End clog.

(** * Start-up, growth and order of pages *)
Definition BootStrapCLOG (st : ClogState) : ClogState := ZeroCLOGPage 0 st.

Definition ExtendCLOG (newestXact : Z) (st : ClogState) : ClogState :=
  if negb (TransactionIdToPgIndex newestXact =? 0)
     && negb (TransactionIdEquals newestXact FirstNormalTransactionId)
  then st
  else ZeroCLOGPage (TransactionIdToPage newestXact) st.

Definition TrimCLOG (nextXid : Z) (st : ClogState) : res ClogState :=
  let xid := nextXid in
  let pageno := TransactionIdToPage xid in
  if negb (TransactionIdToPgIndex xid =? 0) then
    let byteno := TransactionIdToByte xid in
    let bshift := TransactionIdToBIndex xid * CLOG_BITS_PER_XACT in
    slot ← SimpleLruReadPage (pages st) pageno;
    byte ← rd (page_buffer slot) byteno;
    buffer ← wr (page_buffer slot) byteno (Z.land byte (Z.shiftl 1 bshift - 1));
    let buffer := take (Z.to_nat (byteno + 1)) buffer
                  ++ replicate (Z.to_nat (CLOG_BLCKSZ - byteno - 1)) 0 in
    Ok (mkClog (<[pageno := mkPage buffer (group_lsn slot)]> (pages st)) (written st))
  else Ok st.

Definition CLOGPagePrecedes (page1 page2 : Z) : bool :=
  let xid1 := u32 (u32 (page1 * CLOG_XACTS_PER_PAGE) + (FirstNormalTransactionId + 1)) in
  let xid2 := u32 (u32 (page2 * CLOG_XACTS_PER_PAGE) + (FirstNormalTransactionId + 1)) in
  TransactionIdPrecedes xid1 xid2
  && TransactionIdPrecedes xid1 (u32 (u32 (xid2 + CLOG_XACTS_PER_PAGE) - 1)).
