(* ===== verification/Transam.v ===== *)
(** Transaction status look-ups
    (src/postgresql/src/backend/access/transam/transam.c): the single-item
    cache in front of the commit log, the commit and abort tests that follow
    pg_subtrans from a sub-committed transaction to its parents, and the entry
    points that mark a transaction tree. *)
From stdpp Require Import gmap.
From S2P Require Import Prelude.
From S2P Require Import Xid.
From S2P Require Import Subtrans.
From S2P Require Import Clog.
Open Scope string_scope.
Open Scope list_scope.
Open Scope Z_scope.

(** The static variables [cachedFetchXid], [cachedFetchXidStatus] and
    [cachedCommitLSN]. *)
Record FetchCache := {
  cachedFetchXid : Z;
  cachedFetchXidStatus : Z;
  cachedCommitLSN : Z
}.

Definition empty_cache : FetchCache :=
  {| cachedFetchXid := InvalidTransactionId; cachedFetchXidStatus := 0; cachedCommitLSN := 0 |}.

Section transam.
(** The commit log, pg_subtrans and the backend's [TransactionXmin]. *)
Context (clog : XactCtl) (subtrans : SubTransCtl) (TransactionXmin : Z).

Definition TransactionLogFetch (transactionId : Z) (c : FetchCache) : res (Z * FetchCache) :=
  if TransactionIdEquals transactionId (cachedFetchXid c) then Ok (cachedFetchXidStatus c, c)
  else if negb (TransactionIdIsNormal transactionId) then
    if TransactionIdEquals transactionId BootstrapTransactionId
    then Ok (TRANSACTION_STATUS_COMMITTED, c)
    else if TransactionIdEquals transactionId FrozenTransactionId
    then Ok (TRANSACTION_STATUS_COMMITTED, c)
    else Ok (TRANSACTION_STATUS_ABORTED, c)
  else
    '(xidstatus, xidlsn) ← TransactionIdGetStatus transactionId clog;
    if negb (xidstatus =? TRANSACTION_STATUS_IN_PROGRESS)
       && negb (xidstatus =? TRANSACTION_STATUS_SUB_COMMITTED)
    then Ok (xidstatus, {| cachedFetchXid := transactionId; cachedFetchXidStatus := xidstatus;
                           cachedCommitLSN := xidlsn |})
    else Ok (xidstatus, c).

(** One level of recursion per parent; the WARNING is left out. *)
Fixpoint TransactionIdDidCommit (fuel : nat) (transactionId : Z) (c : FetchCache)
  : res (bool * FetchCache) :=
  match fuel with
  | O => UB "TransactionIdDidCommit: endless recursion"
  | S fuel =>
      '(xidstatus, c) ← TransactionLogFetch transactionId c;
      if xidstatus =? TRANSACTION_STATUS_COMMITTED then Ok (true, c)
      else if xidstatus =? TRANSACTION_STATUS_SUB_COMMITTED then
        if TransactionIdPrecedes transactionId TransactionXmin then Ok (false, c)
        else
          parentXid ← SubTransGetParent TransactionXmin transactionId subtrans;
          if negb (TransactionIdIsValid parentXid) then Ok (false, c)
          else TransactionIdDidCommit fuel parentXid c
      else Ok (false, c)
  end.

Fixpoint TransactionIdDidAbort (fuel : nat) (transactionId : Z) (c : FetchCache)
  : res (bool * FetchCache) :=
  match fuel with
  | O => UB "TransactionIdDidAbort: endless recursion"
  | S fuel =>
      '(xidstatus, c) ← TransactionLogFetch transactionId c;
      if xidstatus =? TRANSACTION_STATUS_ABORTED then Ok (true, c)
      else if xidstatus =? TRANSACTION_STATUS_SUB_COMMITTED then
        if TransactionIdPrecedes transactionId TransactionXmin then Ok (true, c)
        else
          parentXid ← SubTransGetParent TransactionXmin transactionId subtrans;
          if negb (TransactionIdIsValid parentXid) then Ok (true, c)
          else TransactionIdDidAbort fuel parentXid c
      else Ok (false, c)
  end.

Definition TransactionIdIsKnownCompleted (transactionId : Z) (c : FetchCache) : bool :=
  TransactionIdEquals transactionId (cachedFetchXid c).

Definition TransactionIdGetCommitLSN (xid : Z) (c : FetchCache) : res Z :=
  if TransactionIdEquals xid (cachedFetchXid c) then Ok (cachedCommitLSN c)
  else if negb (TransactionIdIsNormal xid) then Ok InvalidXLogRecPtr
  else
    '(_, result) ← TransactionIdGetStatus xid clog;
    Ok result.
End transam.

Section trees.
Context (InRecovery : bool) (MyProc_xid : Z) (MyProc_subxids : list Z) (others : Others).
Abbreviation set_tree := (TransactionIdSetTreeStatus InRecovery MyProc_xid MyProc_subxids others).

Definition TransactionIdCommitTree (xid : Z) (xids : list Z) : ClogState -> res ClogState :=
  set_tree xid xids TRANSACTION_STATUS_COMMITTED InvalidXLogRecPtr.

Definition TransactionIdAsyncCommitTree (xid : Z) (xids : list Z) (lsn : Z)
  : ClogState -> res ClogState :=
  set_tree xid xids TRANSACTION_STATUS_COMMITTED lsn.

Definition TransactionIdAbortTree (xid : Z) (xids : list Z) : ClogState -> res ClogState :=
  set_tree xid xids TRANSACTION_STATUS_ABORTED InvalidXLogRecPtr.
End trees.
