(* ===== verification/ClogSpec.v ===== *)
(** What a run of the commit-log routines writes: the packed two-bit statuses
    as a function from transaction ids to statuses, and every routine of
    clog.c that marks transactions as the list of its status writes, in order.
    The lists are what the theorems about concurrent readers reason on. *)
From stdpp Require Import gmap.
From S2P Require Import Prelude.
From S2P Require Import Xid.
From S2P Require Import Clog.
Open Scope string_scope.
Open Scope list_scope.
Open Scope Z_scope.

(** * Statuses *)
Definition page_ok (p : Page) : Prop :=
  len (page_buffer p) = CLOG_BLCKSZ /\ Forall (fun b => 0 <= b < 256) (page_buffer p)
  /\ len (group_lsn p) = CLOG_LSNS_PER_PAGE.

Definition clog_ok (ctl : XactCtl) : Prop := forall n p, ctl !! n = Some p -> page_ok p.

Definition has_status (ctl : XactCtl) (xid : Z) : Prop := is_Some (ctl !! TransactionIdToPage xid).

Definition two_bits (byte xid : Z) : Z :=
  Z.land (Z.shiftr byte (TransactionIdToBIndex xid * CLOG_BITS_PER_XACT)) CLOG_XACT_BITMASK.

(** The status recorded for [xid]; 0 where there is no page. *)
Definition status_of (ctl : XactCtl) (xid : Z) : Z :=
  match ctl !! TransactionIdToPage xid with
  | Some p => two_bits (getd 0 (page_buffer p) (TransactionIdToByte xid)) xid
  | None => 0
  end.

(** * Packing *)
Definition pack (byte k status : Z) : Z :=
  Z.lor (Z.land byte (Z.lnot (Z.shiftl 3 (k * 2)))) (Z.shiftl status (k * 2)).

Definition pack_check (byte k status : Z) : bool :=
  let b := pack byte k status in
  (0 <=? b) && (b <? 256)
  && forallb (fun j => Z.land (Z.shiftr b (j * 2)) 3
                       =? if j =? k then status else Z.land (Z.shiftr byte (j * 2)) 3) [0; 1; 2; 3].

(** All bytes, positions and statuses. *)
Lemma pack_checked :
  forallb (fun byte => forallb (fun k => forallb (pack_check byte k) [0; 1; 2; 3]) [0; 1; 2; 3])
    (seqZ 0 256) = true.
Proof. vm_compute. reflexivity. Qed.

Lemma small_in k : 0 <= k < 4 -> k ∈ [0; 1; 2; 3].
Proof. intros. assert (k = 0 \/ k = 1 \/ k = 2 \/ k = 3) as [->|[->|[->| ->]]] by lia; set_solver. Qed.

Lemma forallb_elem {A} (f : A -> bool) l x : forallb f l = true -> x ∈ l -> f x = true.
Proof. intros H Hx. rewrite forallb_forall in H. apply H. by apply list_elem_of_In. Qed.

Lemma pack_ok byte k status :
  0 <= byte < 256 -> 0 <= k < 4 -> 0 <= status < 4 ->
  0 <= pack byte k status < 256
  /\ forall j, 0 <= j < 4 ->
     Z.land (Z.shiftr (pack byte k status) (j * 2)) 3
     = if j =? k then status else Z.land (Z.shiftr byte (j * 2)) 3.
Proof.
  intros Hb Hk Hs. pose proof pack_checked as H.
  apply (forallb_elem _ _ byte) in H; [|apply elem_of_seqZ; lia].
  apply (forallb_elem _ _ k) in H; [|by apply small_in].
  apply (forallb_elem _ _ status) in H; [|by apply small_in].
  unfold pack_check in H. apply andb_prop in H as [H1 H2]. apply andb_prop in H1 as [H0 H1].
  split; [lia|]. intros j Hj.
  apply (forallb_elem _ _ j) in H2; [|by apply small_in]. by apply Z.eqb_eq in H2.
Qed.

(** * Positions *)
Lemma pg_index_range xid : 0 <= TransactionIdToPgIndex xid < CLOG_XACTS_PER_PAGE.
Proof. apply Z.mod_pos_bound. reflexivity. Qed.

Lemma byte_range xid : 0 <= TransactionIdToByte xid < CLOG_BLCKSZ.
Proof.
  unfold TransactionIdToByte. pose proof (pg_index_range xid) as H.
  split; [apply Z.div_pos; [lia|reflexivity]|].
  apply Z.div_lt_upper_bound; [reflexivity|]. unfold CLOG_XACTS_PER_PAGE in H. lia.
Qed.

Lemma bindex_range xid : 0 <= TransactionIdToBIndex xid < 4.
Proof. apply Z.mod_pos_bound. reflexivity. Qed.

Lemma lsn_index_range xid : 0 <= GetLSNIndex xid < CLOG_LSNS_PER_PAGE.
Proof.
  unfold GetLSNIndex. pose proof (pg_index_range xid) as H. unfold TransactionIdToPgIndex in H.
  split; [apply Z.div_pos; [lia|reflexivity]|].
  apply Z.div_lt_upper_bound; [reflexivity|]. exact (proj2 H).
Qed.

(** Page, byte and position within the byte identify the transaction. *)
Lemma position_inj x y :
  TransactionIdToPage x = TransactionIdToPage y -> TransactionIdToByte x = TransactionIdToByte y ->
  TransactionIdToBIndex x = TransactionIdToBIndex y -> x = y.
Proof.
  unfold TransactionIdToPage, TransactionIdToByte, TransactionIdToBIndex, TransactionIdToPgIndex.
  unfold CLOG_XACTS_PER_PAGE, CLOG_BLCKSZ, CLOG_XACTS_PER_BYTE.
  change (8192 * 4) with 32768. intros Hp Hb Hi.
  assert (forall z, z mod 4 = (z mod 32768) mod 4) as E.
  { intros z. rewrite (Z.div_mod z 32768) at 1 by lia.
    replace (32768 * (z / 32768)) with (8192 * (z / 32768) * 4) by ring.
    rewrite Z.add_comm, Z.mod_add by lia. done. }
  rewrite (E x), (E y) in Hi.
  rewrite (Z.div_mod x 32768), (Z.div_mod y 32768), Hp by lia. f_equal.
  rewrite (Z.div_mod (x mod 32768) 4), (Z.div_mod (y mod 32768) 4), Hb, Hi by lia. done.
Qed.

(** * One status write *)

(** [ctl'] is [ctl] with the status of [xid] set. *)
Definition sets (ctl ctl' : XactCtl) (xid status : Z) : Prop :=
  clog_ok ctl' /\ (forall y, has_status ctl' y <-> has_status ctl y)
  /\ forall y, status_of ctl' y = if y =? xid then status else status_of ctl y.

Lemma sets_write ctl slot xid status lsns :
  clog_ok ctl -> ctl !! TransactionIdToPage xid = Some slot -> 0 <= status < 4 ->
  len lsns = CLOG_LSNS_PER_PAGE ->
  sets ctl
    (<[TransactionIdToPage xid :=
         mkPage (upd (page_buffer slot) (TransactionIdToByte xid)
                   (pack (getd 0 (page_buffer slot) (TransactionIdToByte xid))
                      (TransactionIdToBIndex xid) status)) lsns]> ctl)
    xid status.
Proof.
  intros Hok Hp Hs Hl. destruct (Hok _ _ Hp) as (Hlen & Hby & _).
  set (byte := getd 0 (page_buffer slot) (TransactionIdToByte xid)).
  assert (0 <= byte < 256) as Hb by (apply (getd_Forall (fun b => 0 <= b < 256)); [done|lia]).
  destruct (pack_ok byte (TransactionIdToBIndex xid) status) as [Hr Hbits];
    [done|apply bindex_range|done|].
  pose proof (byte_range xid) as Hbr. split; [|split].
  - intros n p. rewrite lookup_insert. case_decide; [|apply Hok]. intros [= <-].
    split; [|split; [|done]]; cbn [page_buffer].
    + by rewrite len_upd.
    + apply Forall_insert; done.
  - intros y. unfold has_status. rewrite lookup_insert. case_decide as Hd; [|done].
    rewrite <- Hd, Hp. by split.
  - intros y. unfold status_of. rewrite lookup_insert. case_decide as Hd.
    + cbn [page_buffer]. rewrite getd_upd by (rewrite ?Hlen; apply byte_range).
      rewrite <- Hd, Hp. destruct (Z.eqb_spec (TransactionIdToByte y) (TransactionIdToByte xid)) as [He|He].
      * unfold two_bits, CLOG_BITS_PER_XACT. change CLOG_XACT_BITMASK with 3.
        rewrite Hbits by apply bindex_range.
        destruct (Z.eqb_spec (TransactionIdToBIndex y) (TransactionIdToBIndex xid)) as [Hx|Hx];
          destruct (Z.eqb_spec y xid) as [Hyx|Hyx]; try done.
        -- exfalso. apply Hyx. by apply position_inj.
        -- by subst y.
        -- unfold byte. by rewrite He.
      * destruct (Z.eqb_spec y xid) as [->|]; [done|]. done.
    + destruct (Z.eqb_spec y xid) as [->|]; [done|]. done.
Qed.

(** The transitions the Assert of [TransactionIdSetStatusBit] allows, short of
    the no-op of recovery. *)
Definition legal (InRecovery : bool) (old status : Z) : Prop :=
  0 <= status < 4 /\ (old = 0 \/ (old = 3 /\ status <> 0) \/ old = status)
  /\ (InRecovery = true -> status = 3 -> old <> 1).

Lemma wp_TransactionIdGetStatus xid ctl (Q : Z * Z -> Prop) :
  clog_ok ctl -> has_status ctl xid -> (forall lsn, Q (status_of ctl xid, lsn)) ->
  wp (TransactionIdGetStatus xid ctl) Q.
Proof.
  intros Hok [p Hp] HQ. destruct (Hok _ _ Hp) as (Hlen & _ & Hl).
  unfold TransactionIdGetStatus, SimpleLruReadPage. rewrite Hp. cbn [mbind res_bind].
  apply wp_bind, (wp_rd 0); [rewrite Hlen; apply byte_range|].
  apply wp_bind, (wp_rd 0); [rewrite Hl; apply lsn_index_range|].
  apply wp_Ok. specialize (HQ (getd 0 (group_lsn p) (GetLSNIndex xid))).
  unfold status_of, two_bits in HQ. by rewrite Hp in HQ.
Qed.

Lemma wp_TransactionIdSetStatusBit rec xid status lsn st :
  clog_ok (pages st) -> has_status (pages st) xid -> legal rec (status_of (pages st) xid) status ->
  wp (TransactionIdSetStatusBit rec xid status lsn (TransactionIdToPage xid) st)
     (fun st' => sets (pages st) (pages st') xid status /\ written st' = written st ++ [pages st']).
Proof.
  intros Hok [p Hp] (Hs & Hleg & Hrec). destruct (Hok _ _ Hp) as (Hlen & _ & Hl).
  unfold TransactionIdSetStatusBit, SimpleLruReadPage. rewrite Hp. cbn [mbind res_bind].
  apply wp_bind, (wp_rd 0); [rewrite Hlen; apply byte_range|]. cbv zeta.
  fold (two_bits (getd 0 (page_buffer p) (TransactionIdToByte xid)) xid).
  assert (two_bits (getd 0 (page_buffer p) (TransactionIdToByte xid)) xid = status_of (pages st) xid)
    as -> by (unfold status_of; by rewrite Hp).
  unfold TRANSACTION_STATUS_SUB_COMMITTED, TRANSACTION_STATUS_COMMITTED,
    TRANSACTION_STATUS_IN_PROGRESS, InvalidXLogRecPtr.
  assert (rec && (status =? 3) && (status_of (pages st) xid =? 1) = false) as ->.
  { destruct rec; [|done]. specialize (Hrec eq_refl). lia. }
  assert ((status_of (pages st) xid =? 0)
    || (status_of (pages st) xid =? 3) && negb (status =? 0)
    || (status_of (pages st) xid =? status) = true) as -> by lia.
  apply wp_bind, wp_Ok, wp_bind, wp_wr; [rewrite Hlen; apply byte_range|].
  assert (forall lsns, len lsns = CLOG_LSNS_PER_PAGE ->
    sets (pages st) (<[TransactionIdToPage xid :=
      mkPage (upd (page_buffer p) (TransactionIdToByte xid)
        (pack (getd 0 (page_buffer p) (TransactionIdToByte xid)) (TransactionIdToBIndex xid) status))
        lsns]> (pages st)) xid status) as Hset by (intros; by apply sets_write).
  apply wp_bind. destruct (lsn =? 0); cbn [negb].
  - apply wp_Ok, wp_Ok. split; [by apply Hset|done].
  - apply wp_bind, (wp_rd 0); [rewrite Hl; apply lsn_index_range|].
    destruct (_ <? lsn).
    + apply wp_wr; [rewrite Hl; apply lsn_index_range|]. apply wp_Ok.
      split; [apply Hset; by rewrite len_upd|done].
    + apply wp_Ok, wp_Ok. split; [by apply Hset|done].
Qed.
