(* ===== verification/ClogWrites.v ===== *)
(** The marking routines of clog.c as lists of status writes: each routine
    performs exactly the writes of its list, in that order, whenever the
    transitions are legal and the pages exist.

    Commit-status answers: what [TransactionIdDidCommit] returns on a commit
    log with correct pages, whatever is in the cache, and the effect of a
    prefix of the writes that mark a transaction tree on those answers. *)
From stdpp Require Import gmap.
From S2P Require Import Prelude.
From S2P Require Import Xid.
From S2P Require Import Subtrans.
From S2P Require Import Clog.
From S2P Require Import Transam.
From S2P Require Import ClogSpec.
Open Scope string_scope.
Open Scope list_scope.
Open Scope Z_scope.

(** * Lists of writes *)
Definition apply_write (f : Z -> Z) (w : Z * Z) : Z -> Z := fun y => if y =? w.1 then w.2 else f y.
Definition apply_writes (f : Z -> Z) (ws : list (Z * Z)) : Z -> Z := foldl apply_write f ws.

Fixpoint legal_writes (rec : bool) (f : Z -> Z) (ws : list (Z * Z)) : Prop :=
  match ws with
  | [] => True
  | w :: ws => legal rec (f w.1) w.2 /\ legal_writes rec (apply_write f w) ws
  end.

Lemma apply_writes_ext f g ws : (forall y, f y = g y) -> forall y, apply_writes f ws y = apply_writes g ws y.
Proof.
  revert f g. induction ws as [|w ws IH]; intros f g H; [done|].
  apply IH. intros y. unfold apply_write. by rewrite H.
Qed.

Lemma legal_writes_ext rec f g ws :
  (forall y, f y = g y) -> legal_writes rec f ws -> legal_writes rec g ws.
Proof.
  revert f g. induction ws as [|w ws IH]; intros f g H; [done|]. intros [H1 H2].
  split; [by rewrite <- H|]. eapply IH; [|done]. intros y. unfold apply_write. by rewrite H.
Qed.

Lemma legal_writes_app rec f ws1 ws2 :
  legal_writes rec f (ws1 ++ ws2) <-> legal_writes rec f ws1 /\ legal_writes rec (apply_writes f ws1) ws2.
Proof.
  revert f. induction ws1 as [|w ws1 IH]; intros f; cbn [app legal_writes]; [by simpl; tauto|].
  rewrite IH. cbn. tauto.
Qed.

Lemma apply_writes_app f ws1 ws2 : apply_writes f (ws1 ++ ws2) = apply_writes (apply_writes f ws1) ws2.
Proof. apply foldl_app. Qed.

(** A write list changes what it mentions only. *)
Lemma apply_writes_other f ws y : y ∉ ws.*1 -> apply_writes f ws y = f y.
Proof.
  revert f. induction ws as [|w ws IH]; intros f Hy; [done|].
  cbn in Hy. apply not_elem_of_cons in Hy as [Hne Hy].
  transitivity (apply_write f w y); [by apply IH|].
  unfold apply_write. by destruct (Z.eqb_spec y w.1).
Qed.

(** The writes that give each of [xs] the status [s]. *)
Definition all_to (s : Z) (xs : list Z) : list (Z * Z) := (fun x => (x, s)) <$> xs.

Lemma all_to_fst s xs : (all_to s xs).*1 = xs.
Proof. unfold all_to. rewrite <- list_fmap_compose. by apply list_fmap_id. Qed.

Lemma apply_all_to f s xs y :
  apply_writes f (all_to s xs) y = if bool_decide (y ∈ xs) then s else f y.
Proof.
  revert f. induction xs as [|x xs IH]; intros f; [done|].
  change (all_to s (x :: xs)) with ([(x, s)] ++ all_to s xs).
  rewrite apply_writes_app, IH. cbn. unfold apply_write. cbn.
  destruct (bool_decide_reflect (y ∈ xs)) as [H1|H1];
    destruct (bool_decide_reflect (y ∈ x :: xs)) as [H2|H2];
    destruct (Z.eqb_spec y x); try done; exfalso; set_solver.
Qed.

Lemma legal_all_to rec f s xs :
  0 < s < 4 -> (forall y, y ∈ xs -> (f y = 0 \/ f y = 3 \/ f y = s)) ->
  (forall y, y ∈ xs -> s = 3 -> f y <> 1) ->
  legal_writes rec f (all_to s xs).
Proof.
  intros Hs. revert f. induction xs as [|x xs IH]; intros f H H1; [done|]. split; cbn.
  - split; [lia|split; [destruct (H x) as [?|[?|?]]; [left|..]; lia|]].
    intros _ ?. apply H1; [left|done].
  - apply IH; intros y Hy; unfold apply_write; cbn; destruct (Z.eqb_spec y x); try lia.
    + apply H. by right.
    + intros. apply H1; [by right|done].
Qed.

(** * Performing writes *)
Inductive does : ClogState -> list (Z * Z) -> ClogState -> Prop :=
| does_nil st : does st [] st
| does_cons st w st1 ws st2 :
    sets (pages st) (pages st1) w.1 w.2 -> written st1 = written st ++ [pages st1] ->
    does st1 ws st2 -> does st (w :: ws) st2.

Lemma does_app st ws1 st1 ws2 st2 : does st ws1 st1 -> does st1 ws2 st2 -> does st (ws1 ++ ws2) st2.
Proof. induction 1; [done|]. intros. econstructor; [done..|]. auto. Qed.

Lemma does_ok st ws st' : does st ws st' -> clog_ok (pages st) ->
  clog_ok (pages st') /\ (forall y, has_status (pages st') y <-> has_status (pages st) y)
  /\ forall y, status_of (pages st') y = apply_writes (status_of (pages st)) ws y.
Proof.
  induction 1 as [st|st w st1 ws st2 (Hok1 & Hp1 & Hs1) _ _ IH]; intros Hok; [done|].
  destruct (IH Hok1) as (Hok2 & Hp2 & Hs2). split; [done|]. split.
  - intros y. by rewrite Hp2, Hp1.
  - intros y. rewrite Hs2. exact (apply_writes_ext _ (apply_write _ w) ws Hs1 y).
Qed.

(** The page maps written are those after the successive prefixes. *)
Lemma does_written st ws st' : does st ws st' -> clog_ok (pages st) ->
  exists snaps, written st' = written st ++ snaps
    /\ forall ctl, ctl ∈ snaps -> clog_ok ctl
       /\ (forall y, has_status ctl y <-> has_status (pages st) y)
       /\ exists pre suf, ws = pre ++ suf /\ forall y, status_of ctl y = apply_writes (status_of (pages st)) pre y.
Proof.
  induction 1 as [st|st w st1 ws st2 (Hok1 & Hp1 & Hs1) Hw _ IH]; intros Hok.
  - exists []. split; [by rewrite app_nil_r|]. intros ? Hin. by apply not_elem_of_nil in Hin.
  - destruct (IH Hok1) as (snaps & Hsn & Hall). exists (pages st1 :: snaps). split.
    { by rewrite Hsn, Hw, <- app_assoc. }
    intros ctl Hin. apply elem_of_cons in Hin as [->|Hin].
    + split; [done|]. split; [done|]. exists [w], ws. split; [done|]. exact Hs1.
    + destruct (Hall _ Hin) as (Ho & Hp & pre & suf & -> & Hs). split; [done|].
      split; [intros y; by rewrite Hp, Hp1|]. exists (w :: pre), suf. split; [done|].
      intros y. rewrite Hs. exact (apply_writes_ext _ (apply_write _ w) pre Hs1 y).
Qed.

(** A routine performs the writes [ws] from [st]. *)
Definition performs (rec : bool) (st : ClogState) (ws : list (Z * Z)) (m : ClogState -> res ClogState) : Prop :=
  clog_ok (pages st) -> legal_writes rec (status_of (pages st)) ws ->
  (forall x, x ∈ ws.*1 -> has_status (pages st) x) -> wp (m st) (does st ws).

Lemma performs_bind rec st ws1 ws2 m1 m2 :
  performs rec st ws1 m1 -> (forall st1, does st ws1 st1 -> performs rec st1 ws2 m2) ->
  performs rec st (ws1 ++ ws2) (fun st => m1 st ≫= m2).
Proof.
  intros H1 H2 Hok Hleg Hp. apply legal_writes_app in Hleg as [Hl1 Hl2].
  apply wp_bind. eapply wp_mono.
  - apply H1; [done..|]. intros x Hx. apply Hp. rewrite fmap_app. set_solver.
  - intros st1 Hd. destruct (does_ok _ _ _ Hd Hok) as (Hok1 & Hp1 & Hs1).
    eapply wp_mono.
    + apply (H2 st1 Hd); [done|eapply legal_writes_ext; [|exact Hl2]; done|].
      intros x Hx. apply Hp1, Hp. rewrite fmap_app. set_solver.
    + intros st2 Hd2. by eapply does_app.
Qed.

Lemma performs_ret rec st : performs rec st [] (fun st => Ok st).
Proof. intros _ _ _. apply wp_Ok. constructor. Qed.

Lemma performs_eq rec st ws ws' (m m' : ClogState -> res ClogState) :
  ws = ws' -> m st = m' st -> performs rec st ws m -> performs rec st ws' m'.
Proof. intros -> E H ???. rewrite <- E. by apply H. Qed.

Section routines.
Context (rec : bool) (MyProc_xid : Z) (MyProc_subxids : list Z) (others : Others).

Lemma performs_bit xid status lsn st :
  performs rec st [(xid, status)]
    (TransactionIdSetStatusBit rec xid status lsn (TransactionIdToPage xid)).
Proof.
  intros Hok [Hleg _] Hp. eapply wp_mono.
  - apply wp_TransactionIdSetStatusBit; [done| |exact Hleg]. apply Hp. by left.
  - intros st' [Hs Hw]. econstructor; [exact Hs|exact Hw|constructor].
Qed.

Lemma performs_subxids subxids status lsn pageno st :
  Forall (fun x => TransactionIdToPage x = pageno) subxids ->
  performs rec st (all_to status subxids) (set_subxids rec subxids status lsn pageno).
Proof.
  intros Hpg. revert st. induction Hpg as [|x xs Hx Hxs IH]; intros st; [apply performs_ret|].
  eapply performs_eq; [| |apply (performs_bind rec st [(x, status)] (all_to status xs))].
  - done.
  - cbn [set_subxids]. rewrite Hx, Z.eqb_refl. cbn [Assert mbind res_bind]. reflexivity.
  - rewrite <- Hx. apply performs_bit.
  - intros st1 _. apply IH.
Qed.

(** The writes of one page. *)
Definition page_writes (xid : Z) (subxids : list Z) (status : Z) : list (Z * Z) :=
  (if TransactionIdIsValid xid
   then (if status =? TRANSACTION_STATUS_COMMITTED
         then all_to TRANSACTION_STATUS_SUB_COMMITTED subxids else []) ++ [(xid, status)]
   else []) ++ all_to status subxids.

Lemma performs_internal xid subxids status lsn pageno st :
  status = 1 \/ status = 2 \/ (status = 3 /\ xid = 0) ->
  (TransactionIdIsValid xid = true -> TransactionIdToPage xid = pageno) ->
  Forall (fun x => TransactionIdToPage x = pageno) subxids -> is_Some (pages st !! pageno) ->
  performs rec st (page_writes xid subxids status)
    (TransactionIdSetPageStatusInternal rec xid subxids status lsn pageno).
Proof.
  intros Hst Hx Hsub [p Hp]. unfold page_writes.
  eapply performs_eq with (m := fun st =>
    (if TransactionIdIsValid xid then
       (if status =? TRANSACTION_STATUS_COMMITTED
        then set_subxids rec subxids TRANSACTION_STATUS_SUB_COMMITTED lsn pageno st
        else Ok st) ≫= TransactionIdSetStatusBit rec xid status lsn pageno
     else Ok st) ≫= set_subxids rec subxids status lsn pageno); [reflexivity| |].
  - unfold TransactionIdSetPageStatusInternal, SimpleLruReadPage. rewrite Hp.
    assert ((status =? TRANSACTION_STATUS_COMMITTED) || (status =? TRANSACTION_STATUS_ABORTED)
      || (status =? TRANSACTION_STATUS_SUB_COMMITTED) && negb (TransactionIdIsValid xid) = true) as ->.
    { unfold TRANSACTION_STATUS_COMMITTED, TRANSACTION_STATUS_ABORTED,
        TRANSACTION_STATUS_SUB_COMMITTED, TransactionIdIsValid, InvalidTransactionId. lia. }
    reflexivity.
  - apply (performs_bind rec st _ _ (fun st => if TransactionIdIsValid xid then _ else _)).
    + destruct (TransactionIdIsValid xid); [|apply performs_ret].
      apply (performs_bind rec st _ _ (fun st => if status =? TRANSACTION_STATUS_COMMITTED then _ else _)).
      * destruct (status =? TRANSACTION_STATUS_COMMITTED); [by apply performs_subxids|apply performs_ret].
      * intros st1 _. rewrite <- (Hx eq_refl). apply performs_bit.
    + intros st1 _. by apply performs_subxids.
Qed.

(** The page is there as soon as one transaction to mark is on it. *)
Lemma performs_page xid subxids status lsn pageno st :
  status = 1 \/ status = 2 \/ (status = 3 /\ xid = 0) ->
  (TransactionIdIsValid xid = true -> TransactionIdToPage xid = pageno) ->
  Forall (fun x => TransactionIdToPage x = pageno) subxids ->
  TransactionIdIsValid xid = true \/ subxids <> [] ->
  performs rec st (page_writes xid subxids status)
    (TransactionIdSetPageStatusInternal rec xid subxids status lsn pageno).
Proof.
  intros Hst Hx Hsub Hne Hok Hleg Hp. apply performs_internal; try done.
  destruct Hne as [Hv|Hne].
  - rewrite <- (Hx Hv). apply Hp. unfold page_writes. rewrite Hv, !fmap_app. set_solver.
  - destruct subxids as [|x xs]; [done|]. apply Forall_cons in Hsub as [<- _]. apply Hp.
    unfold page_writes. rewrite fmap_app, all_to_fst. set_solver.
Qed.

(** * Group updates *)
Definition member_writes (m : GroupMember) : list (Z * Z) :=
  page_writes (clogGroupMemberXid m) (gm_subxids m) (clogGroupMemberXidStatus m).

Definition group_writes (g : list GroupMember) : list (Z * Z) := concat (member_writes <$> g).

(** What a process guarantees when it joins a group. *)
Definition member_ok (m : GroupMember) : Prop :=
  TransactionIdIsValid (clogGroupMemberXid m) = true
  /\ TransactionIdToPage (clogGroupMemberXid m) = clogGroupMemberPage m
  /\ (clogGroupMemberXidStatus m = 1 \/ clogGroupMemberXidStatus m = 2)
  /\ len (gm_subxids m) <= THRESHOLD_SUBTRANS_CLOG_OPT
  /\ Forall (fun x => TransactionIdToPage x = clogGroupMemberPage m) (gm_subxids m).

Lemma performs_group_walk g st :
  Forall member_ok g -> performs rec st (group_writes g) (group_walk rec g).
Proof.
  intros Hg. revert st. induction Hg as [|m g (Hv & Hpg & Hst & Hlen & Hsub) Hg IH]; intros st;
    [apply performs_ret|].
  eapply performs_eq; [| |apply (performs_bind rec st (member_writes m) (group_writes g))].
  - done.
  - cbn [group_walk]. assert ((len (gm_subxids m) <=? THRESHOLD_SUBTRANS_CLOG_OPT) = true) as -> by lia.
    reflexivity.
  - apply performs_page; [tauto|done|done|by left].
  - intros st1 _. apply IH.
Qed.

(** The process asks a group to do its update. *)
Definition uses_group (xid : Z) (subxids : list Z) (pageno : Z) : bool :=
  (xid =? MyProc_xid) && (len subxids <=? THRESHOLD_SUBTRANS_CLOG_OPT)
  && (len subxids =? len MyProc_subxids)
  && ((len subxids =? 0) || bool_decide (subxids = MyProc_subxids))
  && negb (lock_free others)
  && match group_head_page others with Some p => p =? pageno | None => true end.

Definition others_ok : Prop :=
  Forall member_ok (members_before others) /\ Forall member_ok (members_after others).

Definition same_page_writes (xid : Z) (subxids : list Z) (status pageno : Z) : list (Z * Z) :=
  if uses_group xid subxids pageno
  then group_writes (members_before others) ++ page_writes xid subxids status
       ++ group_writes (members_after others)
  else page_writes xid subxids status.

Lemma group_writes_app g h : group_writes (g ++ h) = group_writes g ++ group_writes h.
Proof. unfold group_writes. by rewrite fmap_app, concat_app. Qed.

Lemma performs_apart xid subxids status lsn pageno st :
  status = 1 \/ status = 2 \/ (status = 3 /\ xid = 0) ->
  (TransactionIdIsValid xid = true -> TransactionIdToPage xid = pageno) ->
  Forall (fun x => TransactionIdToPage x = pageno) subxids ->
  TransactionIdIsValid xid = true \/ subxids <> [] ->
  performs rec st (page_writes xid subxids status)
    (TransactionIdSetPageStatus rec MyProc_xid MyProc_subxids others xid subxids status lsn pageno false).
Proof. intros. by apply performs_page. Qed.

Lemma performs_same_page xid subxids status lsn st :
  others_ok -> TransactionIdIsValid xid = true -> status = 1 \/ status = 2 ->
  Forall (fun x => TransactionIdToPage x = TransactionIdToPage xid) subxids ->
  performs rec st (same_page_writes xid subxids status (TransactionIdToPage xid))
    (TransactionIdSetPageStatus rec MyProc_xid MyProc_subxids others xid subxids status lsn
       (TransactionIdToPage xid) true).
Proof.
  intros [Hb Ha] Hv Hst Hsub. unfold same_page_writes.
  assert (performs rec st (page_writes xid subxids status)
    (TransactionIdSetPageStatusInternal rec xid subxids status lsn (TransactionIdToPage xid))) as Hown
    by (apply performs_page; [tauto|done|done|by left]).
  set (own := {| clogGroupMemberXid := xid; clogGroupMemberXidStatus := status;
                 clogGroupMemberPage := TransactionIdToPage xid; clogGroupMemberLsn := lsn;
                 gm_subxids := MyProc_subxids |}).
  unfold performs, uses_group, TransactionIdSetPageStatus, TransactionGroupUpdateXidStatus.
  rewrite Hv. cbn [andb].
  destruct ((xid =? MyProc_xid) && (len subxids <=? THRESHOLD_SUBTRANS_CLOG_OPT)
            && (len subxids =? len MyProc_subxids)
            && ((len subxids =? 0) || bool_decide (subxids = MyProc_subxids))) eqn:Ec; cbn [andb];
    [|exact Hown].
  assert (subxids = MyProc_subxids /\ len subxids <= THRESHOLD_SUBTRANS_CLOG_OPT) as [-> Hlen].
  { apply andb_prop in Ec as [Ec E4]. apply andb_prop in Ec as [Ec E3]. apply andb_prop in Ec as [_ E2].
    split; [|lia]. destruct (bool_decide_reflect (subxids = MyProc_subxids)) as [|]; [done|].
    unfold len in *. destruct subxids, MyProc_subxids; simpl in *; try done; lia. }
  destruct (lock_free others); cbn [negb andb]; [exact Hown|].
  assert (member_ok own) as Ho by (unfold member_ok; simpl; tauto).
  assert (performs rec st
    (group_writes (members_before others) ++ page_writes xid MyProc_subxids status
       ++ group_writes (members_after others))
    (group_walk rec (members_before others ++ own :: members_after others))) as Hg.
  { eapply performs_eq; [|reflexivity|apply performs_group_walk].
    - rewrite group_writes_app. reflexivity.
    - apply Forall_app. split; [done|]. by constructor. }
  intros Hok Hleg Hp. cbn [Assert mbind res_bind].
  destruct (group_head_page others) as [q|]; [destruct (q =? TransactionIdToPage xid)|]; cbn [negb] in *.
  - apply wp_bind, wp_bind. eapply wp_mono; [by apply Hg|]. intros st' Hd. done.
  - by apply Hown.
  - apply wp_bind, wp_bind. eapply wp_mono; [by apply Hg|]. intros st' Hd. done.
Qed.

(** * Page by page *)
Lemma on_page_spec pageno xs : let '(run, rest) := on_page pageno xs in
  xs = run ++ rest /\ Forall (fun x => TransactionIdToPage x = pageno) run
  /\ (forall x l, rest = x :: l -> TransactionIdToPage x <> pageno).
Proof.
  induction xs as [|x xs IH]; [done|]. cbn [on_page].
  destruct (Z.eqb_spec (TransactionIdToPage x) pageno) as [He|Hne]; cbn [negb].
  - destruct (on_page pageno xs) as [run rest]. destruct IH as (-> & Hr & Hn).
    split; [done|]. split; [by constructor|done].
  - split; [done|]. split; [done|]. by intros ? ? [= <- <-].
Qed.

Lemma performs_by_pages fuel pageno xs status lsn st :
  status = 1 \/ status = 2 \/ status = 3 -> (length xs <= fuel)%nat ->
  (forall x l, xs = x :: l -> TransactionIdToPage x = pageno) ->
  performs rec st (all_to status xs)
    (by_pages rec MyProc_xid MyProc_subxids others fuel pageno xs status lsn).
Proof.
  intros Hst. revert pageno xs st. induction fuel as [|fuel IH]; intros pageno xs st Hlen Hp.
  { destruct xs; [apply performs_ret|simpl in Hlen; lia]. }
  destruct xs as [|x xs']; [apply performs_ret|]. specialize (Hp x xs' eq_refl).
  pose proof (on_page_spec pageno (x :: xs')) as Hon. unfold by_pages; fold by_pages.
  cbn [on_page] in *. rewrite Hp, Z.eqb_refl in *. cbn [negb] in *.
  destruct (on_page pageno xs') as [run rest]. destruct Hon as (E & Hr & Hn).
  eapply performs_eq; [| |apply (performs_bind rec st (page_writes 0 (x :: run) status) (all_to status rest))].
  - change (page_writes 0 (x :: run) status) with (all_to status (x :: run)).
    rewrite E. unfold all_to. by rewrite <- fmap_app.
  - cbv zeta. reflexivity.
  - apply performs_apart; [|done|done|by right]. destruct Hst as [->|[->| ->]]; tauto.
  - intros st1 _. apply IH.
    + assert (length (x :: xs') = length ((x :: run) ++ rest)) as El by (by rewrite E).
      rewrite length_app in El. simpl in El, Hlen. lia.
    + intros y l ->. done.
Qed.

Lemma performs_pages xs status lsn st :
  status = 1 \/ status = 2 \/ status = 3 -> xs <> [] ->
  performs rec st (all_to status xs)
    (set_status_by_pages rec MyProc_xid MyProc_subxids others xs status lsn).
Proof.
  intros Hst Hne. destruct xs as [|x xs]; [done|].
  eapply performs_eq; [reflexivity| |apply (performs_by_pages (length (x :: xs)) (TransactionIdToPage x))].
  - unfold set_status_by_pages. change (rd (x :: xs) 0) with (Ok x). cbn [mbind res_bind].
    assert ((0 <? len (x :: xs)) = true) as -> by (rewrite len_cons; pose proof (len_nonneg xs); lia).
    reflexivity.
  - done.
  - done.
  - by intros ? ? [= <- <-].
Qed.

(** * The whole tree *)
Definition tree_writes (xid : Z) (subxids : list Z) (status : Z) : list (Z * Z) :=
  let '(first_page, rest) := on_page (TransactionIdToPage xid) subxids in
  if bool_decide (rest = [])
  then same_page_writes xid subxids status (TransactionIdToPage xid)
  else (if status =? TRANSACTION_STATUS_COMMITTED
        then all_to TRANSACTION_STATUS_SUB_COMMITTED rest else [])
       ++ page_writes xid first_page status ++ all_to status rest.

Lemma performs_tree xid subxids status lsn st :
  others_ok -> TransactionIdIsValid xid = true -> status = 1 \/ status = 2 ->
  performs rec st (tree_writes xid subxids status)
    (TransactionIdSetTreeStatus rec MyProc_xid MyProc_subxids others xid subxids status lsn).
Proof.
  intros Hot Hv Hst. unfold tree_writes, TransactionIdSetTreeStatus.
  assert ((status =? TRANSACTION_STATUS_COMMITTED) || (status =? TRANSACTION_STATUS_ABORTED) = true)
    as -> by (unfold TRANSACTION_STATUS_COMMITTED, TRANSACTION_STATUS_ABORTED; lia).
  cbn [Assert mbind res_bind].
  pose proof (on_page_spec (TransactionIdToPage xid) subxids) as Hon.
  destruct (on_page (TransactionIdToPage xid) subxids) as [fp rest]. destruct Hon as (E & Hfp & _).
  destruct (bool_decide_reflect (rest = [])) as [->|Hne].
  - rewrite app_nil_r in E. subst fp. by apply performs_same_page.
  - apply (performs_bind rec st _ _ (fun st => if status =? TRANSACTION_STATUS_COMMITTED then _ else _)).
    + destruct (status =? TRANSACTION_STATUS_COMMITTED); [|apply performs_ret].
      apply performs_pages; [|done]. tauto.
    + intros st1 _. apply performs_bind.
      * apply performs_apart; [tauto|done|done|by left].
      * intros st2 _. apply performs_pages; [tauto|done].
Qed.
End routines.

(** * Answers *)

(** The status transam.c uses: the special ids are not in the log. *)
Definition log_status (ctl : XactCtl) (x : Z) : Z :=
  if TransactionIdIsNormal x then status_of ctl x
  else if (x =? BootstrapTransactionId) || (x =? FrozenTransactionId) then 1 else 2.

(** A transaction counts as committed when it is marked so, or when it is
    marked sub-committed and its parent counts as committed. *)
Inductive commits (f par : Z -> Z) (xmin : Z) : Z -> Prop :=
| commits_marked x : f x = 1 -> commits f par xmin x
| commits_parent x :
    f x = 3 -> TransactionIdPrecedes x xmin = false -> par x <> 0 -> commits f par xmin (par x) ->
    commits f par xmin x.

(** The cache holds a final status of the log, or nothing yet. *)
Definition cache_ok (ctl : XactCtl) (c : FetchCache) : Prop :=
  (cachedFetchXid c = 0 /\ cachedFetchXidStatus c = 0)
  \/ (TransactionIdIsNormal (cachedFetchXid c) = true
      /\ cachedFetchXidStatus c = status_of ctl (cachedFetchXid c)
      /\ (cachedFetchXidStatus c = 1 \/ cachedFetchXidStatus c = 2)).

Lemma wp_TransactionLogFetch ctl x c (Q : Z * FetchCache -> Prop) :
  clog_ok ctl -> (TransactionIdIsNormal x = true -> has_status ctl x) -> cache_ok ctl c ->
  (forall s c', cache_ok ctl c' -> (s = log_status ctl x \/ (x = 0 /\ s = 0)) -> Q (s, c')) ->
  wp (TransactionLogFetch ctl x c) Q.
Proof.
  intros Hok Hp Hc HQ. unfold TransactionLogFetch, TransactionIdEquals.
  destruct (Z.eqb_spec x (cachedFetchXid c)) as [->|Hne].
  { apply wp_Ok, HQ; [done|]. destruct Hc as [[Hz Hs]|(Hn & Hs & _)]; [right; tauto|left].
    unfold log_status. by rewrite Hn. }
  unfold log_status in HQ. destruct (TransactionIdIsNormal x) eqn:Hn; cbn [negb].
  - apply wp_bind, wp_TransactionIdGetStatus; [done|by apply Hp|]. intros lsn. simpl.
    unfold TRANSACTION_STATUS_IN_PROGRESS, TRANSACTION_STATUS_SUB_COMMITTED.
    destruct (negb (status_of ctl x =? 0) && negb (status_of ctl x =? 3)) eqn:Ef;
      apply wp_Ok, HQ; auto.
    right. simpl. split; [done|split; [done|]].
    assert (0 <= status_of ctl x < 4) as Hr; [|lia].
    destruct (Hp eq_refl) as [p Hpp]. unfold status_of, two_bits. rewrite Hpp.
    change CLOG_XACT_BITMASK with (Z.ones 2). rewrite Z.land_ones by lia.
    apply Z.mod_pos_bound. lia.
  - destruct (x =? BootstrapTransactionId); [by apply wp_Ok, HQ; auto|].
    destruct (x =? FrozenTransactionId); apply wp_Ok, HQ; auto.
Qed.

Section answers.
Context (ctl : XactCtl) (sub : SubTransCtl) (xmin : Z).
Context (Hclog : clog_ok ctl) (Hsub : pages_ok sub).

(** [D] holds of the transactions a look-up can visit, [rank] falls from a
    transaction to its parent. *)
Context (D : Z -> Prop) (rank : Z -> nat).
Hypothesis D_pages : forall y, D y -> TransactionIdIsNormal y = true ->
  has_status ctl y /\ (status_of ctl y = 3 -> has_page sub y).
Hypothesis D_parent : forall y, D y -> TransactionIdIsNormal y = true -> status_of ctl y = 3 ->
  TransactionIdPrecedes y xmin = false -> parent_of sub y <> 0 ->
  D (parent_of sub y) /\ (rank (parent_of sub y) < rank y)%nat.

Lemma wp_TransactionIdDidCommit fuel x c :
  D x -> (rank x < fuel)%nat -> cache_ok ctl c ->
  wp (TransactionIdDidCommit ctl sub xmin fuel x c)
     (fun '(b, c') => cache_ok ctl c'
        /\ (b = true <-> commits (log_status ctl) (parent_of sub) xmin x)).
Proof using D_pages D_parent Hclog Hsub.
  revert x c. induction fuel as [|fuel IH]; intros x c HD Hr Hc; [lia|].
  cbn [TransactionIdDidCommit]. apply wp_bind, wp_TransactionLogFetch; try done.
  { intros Hn. by apply D_pages. }
  intros s c' Hc' Hs. simpl. unfold TRANSACTION_STATUS_COMMITTED, TRANSACTION_STATUS_SUB_COMMITTED.
  assert (x = 0 -> log_status ctl x = 2) as H0 by (intros ->; done).
  destruct (Z.eqb_spec s 1) as [->|Hs1].
  { apply wp_Ok. split; [done|split; [|done]]. intros _. constructor.
    destruct Hs as [<-|[_ ?]]; [done|lia]. }
  destruct (Z.eqb_spec s 3) as [->|Hs3].
  - assert (log_status ctl x = 3) as Hl by lia.
    assert (TransactionIdIsNormal x = true /\ status_of ctl x = 3) as [Hn Hst].
    { unfold log_status in Hl. destruct (TransactionIdIsNormal x); [done|].
      destruct ((x =? BootstrapTransactionId) || (x =? FrozenTransactionId)); lia. }
    destruct (TransactionIdPrecedes x xmin) eqn:Hpre.
    { apply wp_Ok. split; [done|]. split; [done|]. intros Hcm. inversion Hcm; subst; [lia|congruence]. }
    apply wp_bind, wp_SubTransGetParent; [done|by apply D_pages|done|]. rewrite Hn.
    destruct (TransactionIdIsValid (parent_of sub x)) eqn:Hv; cbn [negb].
    + apply valid_nonzero in Hv. destruct (D_parent x) as [HDp Hrk]; try done.
      eapply wp_mono; [apply IH; [done|lia|done]|]. intros [b c''] [Hc'' Hb]. split; [done|].
      rewrite Hb. split; [by intros; apply commits_parent|].
      intros Hcm. inversion Hcm; subst; [lia|done].
    + apply wp_Ok. split; [done|]. split; [done|]. intros Hcm. inversion Hcm; subst; [lia|].
      assert (parent_of sub x = 0); [|done]. unfold TransactionIdIsValid, InvalidTransactionId in Hv. lia.
  - apply wp_Ok. split; [done|]. split; [done|]. intros Hcm. inversion Hcm; subst; [|lia]. lia.
Qed.
End answers.

(** * Final statuses stay *)
Lemma legal_final rec f ws y : legal_writes rec f ws -> f y = 1 \/ f y = 2 ->
  forall pre suf, ws = pre ++ suf -> apply_writes f pre y = f y.
Proof.
  revert f. induction ws as [|w ws IH]; intros f Hl Hf pre suf E.
  - symmetry in E. apply app_eq_nil in E as [-> _]. done.
  - destruct pre as [|w' pre]; [done|]. injection E as <- E. destruct Hl as [(Hr & Hw & _) Hl].
    assert (apply_write f w y = f y) as Hy.
    { unfold apply_write. destruct (Z.eqb_spec y w.1) as [->|]; [|done]. lia. }
    transitivity (apply_write f w y); [|done].
    apply (IH (apply_write f w)) with suf; [done|by rewrite Hy|done].
Qed.

(** A cache filled before the writes is still right in the middle of them. *)
Lemma cache_stays rec ctl ctl' c ws pre suf :
  legal_writes rec (status_of ctl) ws -> ws = pre ++ suf ->
  (forall y, status_of ctl' y = apply_writes (status_of ctl) pre y) ->
  cache_ok ctl c -> cache_ok ctl' c.
Proof.
  intros Hl E Hs [H|(Hn & Hst & Hf)]; [by left|]. right. split; [done|]. split; [|done].
  rewrite Hs, (legal_final rec _ ws _ Hl) with (suf := suf); [done| |done]. by rewrite <- Hst.
Qed.

(** * Prefixes of the writes that mark a tree *)

(** A commit of [x] with the subtransactions [subs] among other writes: every
    subtransaction is marked sub-committed before [x] is committed and
    committed only afterwards. *)
Definition commit_shape (x : Z) (subs : list Z) (ws : list (Z * Z)) : Prop :=
  exists A B, ws = A ++ (x, 1) :: B
    /\ (x ∉ A.*1) /\ (x ∉ B.*1)
    /\ (forall s v, s ∈ subs -> (s, v) ∈ A -> v = 3)
    /\ (forall s v, s ∈ subs -> (s, v) ∈ B -> v = 1)
    /\ (forall s, s ∈ subs -> s ∈ A.*1).

Lemma apply_writes_last f ws y :
  apply_writes f ws y = f y \/ (y, apply_writes f ws y) ∈ ws.
Proof.
  induction ws as [|w ws IH] using rev_ind; [by left|].
  rewrite apply_writes_app. cbn. unfold apply_write.
  destruct (Z.eqb_spec y w.1) as [->|].
  - right. apply elem_of_app. right. destruct w. by left.
  - destruct IH as [?|?]; [by left|right]. set_solver.
Qed.

Lemma apply_writes_hit f ws y : y ∈ ws.*1 -> (y, apply_writes f ws y) ∈ ws.
Proof.
  revert f. induction ws as [|w ws IH]; intros f Hy; [by apply not_elem_of_nil in Hy|].
  destruct (decide (y ∈ ws.*1)) as [Hin|Hni].
  - right. by apply (IH (apply_write f w)).
  - cbn in Hy. apply elem_of_cons in Hy as [->|]; [|done].
    assert (apply_writes f (w :: ws) w.1 = w.2) as ->.
    { transitivity (apply_write f w w.1); [by apply (apply_writes_other (apply_write f w))|].
      unfold apply_write. by rewrite Z.eqb_refl. }
    destruct w. by left.
Qed.

(** Before the commit of [x] no member is committed; from it on, every member
    is committed or sub-committed. *)
Lemma commit_prefix f x subs ws pre suf :
  commit_shape x subs ws -> ws = pre ++ suf -> x ∉ subs -> (forall y, y ∈ x :: subs -> f y = 0) ->
  (apply_writes f pre x = 0 /\ forall s, s ∈ subs -> apply_writes f pre s = 0 \/ apply_writes f pre s = 3)
  \/ (apply_writes f pre x = 1 /\ forall s, s ∈ subs -> apply_writes f pre s = 1 \/ apply_writes f pre s = 3).
Proof.
  intros (A & B & -> & HxA & HxB & HA & HB & Hall) E Hxs Hf.
  apply app_eq_app in E as (l & [[E1 E2]|[E1 E2]]).
  - left. assert (forall s v, (s, v) ∈ pre -> (s, v) ∈ A) as Hin by (intros; rewrite E1; set_solver).
    split.
    + rewrite apply_writes_other; [apply Hf; by left|]. intros Hx. apply HxA.
      rewrite E1, fmap_app. set_solver.
    + intros s Hs. destruct (apply_writes_last f pre s) as [->|Hw]; [left; apply Hf; by right|].
      right. apply (HA s); [done|]. by apply Hin.
  - destruct l as [|w l].
    + rewrite app_nil_r in E1. subst pre. left. split.
      * rewrite apply_writes_other by done. apply Hf; by left.
      * intros s Hs. destruct (apply_writes_last f A s) as [->|Hw]; [left; apply Hf; by right|].
        right. by apply (HA s).
    + injection E2 as <- E2. right. subst pre. rewrite apply_writes_app.
      set (g := apply_writes f A). change ((x, 1) :: l) with ([(x, 1)] ++ l). rewrite apply_writes_app.
      assert (forall s v, (s, v) ∈ l -> (s, v) ∈ B) as Hin by (intros; rewrite E2; set_solver).
      split.
      * rewrite apply_writes_other.
        -- cbn. unfold apply_write. by rewrite Z.eqb_refl.
        -- intros Hx. apply HxB. rewrite E2, fmap_app. set_solver.
      * intros s Hs. destruct (apply_writes_last (apply_writes g [(x, 1)]) l s) as [->|Hw];
          [right|left; by apply (HB s), Hin].
        cbn. unfold apply_write. cbn. destruct (Z.eqb_spec s x) as [->|]; [done|].
        apply (HA s); [done|]. apply apply_writes_hit. by apply Hall.
Qed.
