(* ===== verification/ClogProps.v ===== *)
(** Properties of the commit log: marking a transaction tree looks atomic to
    every reader at every moment, and the packed statuses read back. *)
From stdpp Require Import gmap.
From S2P Require Import Prelude.
From S2P Require Import Xid.
From S2P Require Import Subtrans.
From S2P Require Import Clog.
From S2P Require Import Transam.
From S2P Require Import ClogSpec.
From S2P Require Import ClogWrites.
Open Scope string_scope.
Open Scope list_scope.
Open Scope Z_scope.

(** * The writes of a tree, flattened *)
Definition core_writes (x : Z) (P Q : list Z) (status : Z) : list (Z * Z) :=
  (if status =? 1 then all_to 3 P else []) ++ (x, status) :: all_to status Q.

Lemma all_to_app s xs ys : all_to s (xs ++ ys) = all_to s xs ++ all_to s ys.
Proof. apply fmap_app. Qed.

Lemma elem_of_all_to s xs y v : (y, v) ∈ all_to s xs <-> y ∈ xs /\ v = s.
Proof.
  unfold all_to. rewrite list_elem_of_fmap. split.
  - intros (x & [= -> ->] & Hx). done.
  - intros [H ->]. by exists y.
Qed.

Lemma page_writes_core x subs status : TransactionIdIsValid x = true ->
  page_writes x subs status = core_writes x subs subs status.
Proof.
  intros Hv. unfold page_writes, core_writes. rewrite Hv.
  change TRANSACTION_STATUS_COMMITTED with 1. change TRANSACTION_STATUS_SUB_COMMITTED with 3.
  by rewrite <- app_assoc.
Qed.

Lemma core_writes_fst x P Q status y :
  y ∈ (core_writes x P Q status).*1 -> y = x \/ y ∈ P \/ y ∈ Q.
Proof.
  unfold core_writes. rewrite fmap_app. cbn. rewrite all_to_fst.
  destruct (status =? 1); rewrite ?all_to_fst; cbn; set_solver.
Qed.

(** From entries in progress the writes are legal. *)
Lemma legal_core rec f x P Q status :
  status = 1 \/ status = 2 -> x ∉ P -> (forall y, y ∈ x :: P ++ Q -> f y = 0) ->
  legal_writes rec f (core_writes x P Q status).
Proof.
  intros Hst HxP Hf. unfold core_writes. apply legal_writes_app. split.
  { destruct (status =? 1); [|done]. apply legal_all_to; [lia| |].
    - intros y Hy. left. apply Hf. set_solver.
    - intros y Hy _. rewrite Hf by set_solver. lia. }
  set (g := apply_writes f (if status =? 1 then all_to 3 P else [])).
  assert (forall y, y ∈ x :: P ++ Q -> g y = 0 \/ (g y = 3 /\ status = 1)) as Hg.
  { intros y Hy. unfold g. destruct (Z.eqb_spec status 1).
    - rewrite apply_all_to. destruct (bool_decide (y ∈ P)); [by right|left; by apply Hf].
    - left. by apply Hf. }
  split; cbn.
  - split; [lia|]. specialize (Hg x ltac:(set_solver)). split; [lia|]. intros. lia.
  - apply legal_all_to; [lia| |lia]. intros y Hy. unfold apply_write. cbn.
    specialize (Hg y ltac:(set_solver)). destruct (y =? x); lia.
Qed.

Lemma core_shape x subs P Q Wb Wa :
  (forall y, y ∈ P <-> y ∈ subs) -> (forall y, y ∈ Q <-> y ∈ subs) -> x ∉ subs ->
  (forall y, y ∈ x :: subs -> (y ∉ Wb.*1) /\ (y ∉ Wa.*1)) ->
  commit_shape x subs (Wb ++ core_writes x P Q 1 ++ Wa).
Proof.
  intros HP HQ Hx HW. exists (Wb ++ all_to 3 P), (all_to 1 Q ++ Wa).
  assert (forall (y v : Z) W, (y, v) ∈ W -> y ∈ W.*1) as Hfst
    by (intros y v W Hy; apply list_elem_of_fmap; by exists (y, v)).
  destruct (HW x ltac:(by left)) as [Hxb Hxa].
  split; [unfold core_writes; simpl; by rewrite <- !app_assoc|].
  rewrite !fmap_app, !all_to_fst.
  split; [set_solver|]. split; [set_solver|]. split; [|split].
  - intros s v Hs Hin. apply elem_of_app in Hin as [Hin|Hin].
    + destruct (HW s ltac:(by right)) as [Hb _]. by destruct Hb; eapply Hfst.
    + by apply elem_of_all_to in Hin as [_ ->].
  - intros s v Hs Hin. apply elem_of_app in Hin as [Hin|Hin].
    + by apply elem_of_all_to in Hin as [_ ->].
    + destruct (HW s ltac:(by right)) as [_ Ha]. by destruct Ha; eapply Hfst.
  - intros s Hs. set_solver.
Qed.

Definition member_xids (m : GroupMember) : list Z := clogGroupMemberXid m :: gm_subxids m.

Lemma normal_valid y : TransactionIdIsNormal y = true -> TransactionIdIsValid y = true.
Proof. rewrite normal_range, valid_nonzero. lia. Qed.

Lemma group_writes_fst g y : y ∈ (group_writes g).*1 -> y ∈ concat (member_xids <$> g).
Proof.
  induction g as [|m g IH]; [done|]. unfold group_writes. cbn. rewrite fmap_app.
  intros Hy. apply elem_of_app in Hy as [Hy|Hy]; [|set_solver].
  unfold member_writes, page_writes in Hy. rewrite fmap_app, all_to_fst in Hy.
  destruct (TransactionIdIsValid (clogGroupMemberXid m)); cbn in Hy; [|set_solver].
  rewrite fmap_app in Hy. cbn in Hy.
  destruct (clogGroupMemberXidStatus m =? TRANSACTION_STATUS_COMMITTED);
    rewrite ?all_to_fst in Hy; cbn in Hy; set_solver.
Qed.

Lemma legal_group rec g f : Forall member_ok g -> NoDup (concat (member_xids <$> g)) ->
  (forall y, y ∈ concat (member_xids <$> g) -> f y = 0) -> legal_writes rec f (group_writes g).
Proof.
  intros Hg. revert f. induction Hg as [|m g (Hv & _ & Hst & _) Hg IH]; intros f Hnd Hf; [done|].
  change (group_writes (m :: g)) with (member_writes m ++ group_writes g).
  cbn [fmap list_fmap concat] in Hnd, Hf. apply NoDup_app in Hnd as (Hnd1 & Hdisj & Hnd2).
  unfold member_writes. rewrite page_writes_core by done. apply legal_writes_app. split.
  - apply legal_core; [done| |intros y Hy; apply Hf; unfold member_xids; set_solver].
    unfold member_xids in Hnd1. by apply NoDup_cons in Hnd1 as [? _].
  - apply IH; [done|]. intros y Hy. rewrite apply_writes_other; [apply Hf; set_solver|].
    intros Hin. apply core_writes_fst in Hin. apply (Hdisj y); [|done]. unfold member_xids. set_solver.
Qed.

Section tree.
Context (rec : bool) (MyProc_xid : Z) (MyProc_subxids : list Z) (others : Others).
Context (xid : Z) (subs : list Z) (st : ClogState).

Definition others_xids : list Z :=
  concat (member_xids <$> members_before others ++ members_after others).

(** The transactions to mark, and those of the other members of a group, are
    distinct and in progress, with commit-log pages. *)
Definition tree_ready : Prop :=
  clog_ok (pages st) /\ NoDup (xid :: subs ++ others_xids) /\ others_ok others
  /\ forall y, y ∈ xid :: subs ++ others_xids ->
     TransactionIdIsNormal y = true /\ has_status (pages st) y
     /\ status_of (pages st) y = TRANSACTION_STATUS_IN_PROGRESS.

Context (Hready : tree_ready).

Lemma tree_valid : TransactionIdIsValid xid = true.
Proof using Hready. destruct Hready as (_ & _ & _ & H). apply normal_valid, H. by left. Qed.

Lemma tree_xid_fresh : xid ∉ subs.
Proof using Hready. destruct Hready as (_ & Hnd & _). apply NoDup_cons in Hnd as [Hn _]. set_solver. Qed.

(** The writes of the tree between those of the other group members. *)
Lemma tree_writes_core status : exists P Q Wb Wa,
  tree_writes MyProc_xid MyProc_subxids others xid subs status = Wb ++ core_writes xid P Q status ++ Wa
  /\ (forall y, y ∈ P <-> y ∈ subs) /\ (forall y, y ∈ Q <-> y ∈ subs)
  /\ ((Wb = [] /\ Wa = [])
      \/ (Wb = group_writes (members_before others) /\ Wa = group_writes (members_after others))).
Proof using Hready.
  unfold tree_writes. pose proof (on_page_spec (TransactionIdToPage xid) subs) as Hon.
  destruct (on_page (TransactionIdToPage xid) subs) as [fp rest]. destruct Hon as (E & _ & _).
  destruct (bool_decide_reflect (rest = [])) as [->|Hne].
  - unfold same_page_writes. rewrite page_writes_core by apply tree_valid.
    destruct (uses_group _ _ _ _ _ _).
    + exists subs, subs, (group_writes (members_before others)), (group_writes (members_after others)).
      split; [done|]. tauto.
    + exists subs, subs, [], []. rewrite app_nil_r. split; [done|]. tauto.
  - exists (rest ++ fp), (fp ++ rest), [], []. rewrite page_writes_core by apply tree_valid.
    rewrite app_nil_r, E. split; [|set_solver]. unfold core_writes.
    change TRANSACTION_STATUS_COMMITTED with 1. change TRANSACTION_STATUS_SUB_COMMITTED with 3.
    rewrite !all_to_app. destruct (status =? 1); simpl; by rewrite <- ?app_assoc.
Qed.

(** The group's writes do not touch the tree. *)
Lemma around_disjoint Wb Wa :
  (Wb = [] /\ Wa = [])
  \/ (Wb = group_writes (members_before others) /\ Wa = group_writes (members_after others)) ->
  forall y, y ∈ xid :: subs -> (y ∉ Wb.*1) /\ (y ∉ Wa.*1).
Proof using Hready.
  intros [[-> ->]|[-> ->]] y Hy; [set_solver|].
  destruct Hready as (_ & Hnd & _). change (NoDup ((xid :: subs) ++ others_xids)) in Hnd.
  apply NoDup_app in Hnd as (_ & Hd & _). specialize (Hd y Hy).
  unfold others_xids in Hd. rewrite fmap_app, concat_app in Hd.
  split; intros Hin; apply group_writes_fst in Hin; set_solver.
Qed.

Lemma legal_tree status : status = 1 \/ status = 2 ->
  legal_writes rec (status_of (pages st))
    (tree_writes MyProc_xid MyProc_subxids others xid subs status).
Proof using Hready.
  intros Hst. destruct (tree_writes_core status) as (P & Q & Wb & Wa & -> & HP & HQ & HW).
  pose proof (around_disjoint _ _ HW) as Hdis. pose proof tree_xid_fresh as Hx.
  destruct Hready as (_ & Hnd & [Hb Ha] & Hin).
  change (NoDup ((xid :: subs) ++ others_xids)) in Hnd. apply NoDup_app in Hnd as (_ & Hd & Hno).
  unfold others_xids in Hno. rewrite fmap_app, concat_app in Hno. apply NoDup_app in Hno as (Hnb & Hdd & Hna).
  assert (forall y, y ∈ others_xids -> status_of (pages st) y = 0) as Hz
    by (intros y Hy; apply Hin; set_solver).
  unfold others_xids in Hz, Hd. rewrite fmap_app, concat_app in Hz, Hd.
  apply legal_writes_app. split; [|apply legal_writes_app; split].
  - destruct HW as [[-> _]|[-> _]]; [done|]. apply legal_group; try done.
    intros y Hy. apply Hz. set_solver.
  - apply legal_core; [done|set_solver|]. intros y Hy.
    rewrite apply_writes_other; [|apply Hdis; set_solver]. apply Hin. set_solver.
  - destruct HW as [[_ ->]|[-> ->]]; [done|]. apply legal_group; try done.
    intros y Hy. assert (y ∉ xid :: subs) as Hy' by (intros ?; apply (Hd y); set_solver).
    rewrite apply_writes_other.
    + rewrite apply_writes_other; [apply Hz; set_solver|].
      intros H%group_writes_fst. by apply (Hdd y).
    + intros H%core_writes_fst. set_solver.
Qed.

(** * Answers while the tree is being marked *)

(** pg_subtrans links every subtransaction to [xid] or to an earlier one, and
    the reader may look at it. *)
Definition tree_linked (sub : SubTransCtl) (xmin : Z) : Prop :=
  pages_ok sub /\ forall i s, subs !! i = Some s ->
    has_page sub s /\ TransactionIdPrecedes s xmin = false
    /\ (parent_of sub s = xid \/ exists j, (j < i)%nat /\ subs !! j = Some (parent_of sub s)).

(** Either [xid] is committed and every subtransaction is at least
    sub-committed, or nothing of the tree is committed. *)
Definition tree_phase (f : Z -> Z) (b : bool) : Prop :=
  if b then f xid = 1 /\ forall s, s ∈ subs -> f s = 1 \/ f s = 3
  else f xid <> 1 /\ f xid <> 3 /\ forall s, s ∈ subs -> f s <> 1.

Lemma phase_answers sub xmin f b : tree_linked sub xmin -> tree_phase f b ->
  forall s, s ∈ xid :: subs -> commits f (parent_of sub) xmin s <-> b = true.
Proof using Hready.
  intros [_ Hl] Hph s Hs.
  assert (commits f (parent_of sub) xmin xid <-> b = true) as Hx.
  { destruct b; cbn in Hph.
    - split; [done|]. intros _. apply commits_marked. tauto.
    - split; [|done]. intros Hc. inversion Hc; subst; tauto. }
  apply elem_of_cons in Hs as [->|Hs]; [exact Hx|].
  apply list_elem_of_lookup in Hs as [i Hi]. revert s Hi.
  induction (lt_wf i) as [i _ IH]. intros s Hi. destruct (Hl _ _ Hi) as (_ & Hpre & Hpar).
  assert (s ∈ subs) as Hs by (eapply list_elem_of_lookup_2, Hi).
  assert (commits f (parent_of sub) xmin (parent_of sub s) <-> b = true) as Hp.
  { destruct Hpar as [->|(j & Hj & Hpj)]; [exact Hx|]. by apply (IH j). }
  assert (parent_of sub s <> 0) as Hnz.
  { destruct Hready as (_ & _ & _ & Hin).
    assert (parent_of sub s ∈ xid :: subs) as Hpin.
    { destruct Hpar as [->|(j & _ & Hpj)]; [by left|right; eapply list_elem_of_lookup_2, Hpj]. }
    apply valid_nonzero, normal_valid, Hin. set_solver. }
  destruct b; cbn in Hph.
  - split; [done|]. intros _. destruct (proj2 Hph s Hs) as [?|?]; [by apply commits_marked|].
    apply commits_parent; [done..|]. by apply Hp.
  - split; [|done]. intros Hc. inversion Hc; subst; [|by apply Hp].
    exfalso. by apply (proj2 (proj2 Hph) s).
Qed.

Lemma prefix_phase status pre suf : status = 1 \/ status = 2 ->
  tree_writes MyProc_xid MyProc_subxids others xid subs status = pre ++ suf ->
  exists b, tree_phase (apply_writes (status_of (pages st)) pre) b.
Proof using Hready.
  intros Hst E. destruct (tree_writes_core status) as (P & Q & Wb & Wa & Ew & HP & HQ & HW).
  pose proof (around_disjoint _ _ HW) as Hdis. pose proof tree_xid_fresh as Hx.
  assert (forall y, y ∈ xid :: subs -> status_of (pages st) y = 0) as Hz.
  { intros y Hy. destruct Hready as (_ & _ & _ & Hin). apply Hin. set_solver. }
  destruct Hst as [->| ->].
  - assert (commit_shape xid subs (tree_writes MyProc_xid MyProc_subxids others xid subs 1)) as Hsh
      by (rewrite Ew; by apply core_shape).
    destruct (commit_prefix (status_of (pages st)) xid subs _ pre suf Hsh E Hx Hz) as [[H1 H2]|[H1 H2]].
    + exists false. split; [lia|split; [lia|]]. intros s Hs. specialize (H2 s Hs). lia.
    + by exists true.
  - exists false.
    assert (forall y, y ∈ xid :: subs -> apply_writes (status_of (pages st)) pre y = 0
                      \/ apply_writes (status_of (pages st)) pre y = 2) as Hall.
    { intros y Hy. destruct (apply_writes_last (status_of (pages st)) pre y) as [->|Hin]; [left; by apply Hz|].
      right. set (v := apply_writes _ _ _) in *.
      assert ((y, v) ∈ Wb ++ core_writes xid P Q 2 ++ Wa) as Hv
        by (rewrite <- Ew, E; apply elem_of_app; by left).
      destruct (Hdis y Hy) as [Hnb Hna].
      apply elem_of_app in Hv as [Hv|Hv]; [destruct Hnb; apply list_elem_of_fmap; by exists (y, v)|].
      apply elem_of_app in Hv as [Hv|Hv]; [|destruct Hna; apply list_elem_of_fmap; by exists (y, v)].
      unfold core_writes in Hv. cbn in Hv. apply elem_of_cons in Hv as [[= _ ->]|Hv]; [done|].
      by apply elem_of_all_to in Hv as [_ ->]. }
    split; [|split].
    + specialize (Hall xid ltac:(by left)). lia.
    + specialize (Hall xid ltac:(by left)). lia.
    + intros s Hs. specialize (Hall s ltac:(by right)). lia.
Qed.

(** After all writes every transaction of the tree has the new status. *)
Lemma tree_final status y : status = 1 \/ status = 2 -> y ∈ xid :: subs ->
  apply_writes (status_of (pages st))
    (tree_writes MyProc_xid MyProc_subxids others xid subs status) y = status.
Proof using Hready.
  intros Hst Hy. destruct (tree_writes_core status) as (P & Q & Wb & Wa & -> & HP & HQ & HW).
  pose proof tree_xid_fresh as Hx.
  destruct (around_disjoint _ _ HW y Hy) as [_ Hna]. rewrite !apply_writes_app.
  rewrite apply_writes_other by done. unfold core_writes.
  change ((xid, status) :: all_to status Q) with ([(xid, status)] ++ all_to status Q).
  rewrite !apply_writes_app, apply_all_to.
  destruct (bool_decide_reflect (y ∈ Q)) as [|Hq]; [done|].
  assert (y = xid) as -> by set_solver. cbn. unfold apply_write. cbn. by rewrite Z.eqb_refl.
Qed.

(** The position of a transaction in the tree. *)
Definition depth (y : Z) : nat := match list_find (y =.) subs with Some (i, _) => S i | None => O end.

Lemma depth_bound y : (depth y < S (S (length subs)))%nat.
Proof.
  unfold depth. destruct (list_find (y =.) subs) as [[i z]|] eqn:E; [|lia].
  apply list_find_Some in E as (Hi & _). apply lookup_lt_Some in Hi. lia.
Qed.

Lemma depth_lookup i s : subs !! i = Some s -> depth s = S i.
Proof using Hready.
  intros Hi. unfold depth.
  destruct (list_find (s =.) subs) as [[j z]|] eqn:E.
  - apply list_find_Some in E as (Hj & -> & _). f_equal.
    destruct Hready as (_ & Hnd & _). apply NoDup_cons in Hnd as [_ Hnd].
    apply NoDup_app in Hnd as [Hnd _]. by eapply NoDup_lookup.
  - apply list_find_None in E. rewrite Forall_forall in E.
    destruct (E s); [|done]. eapply list_elem_of_lookup_2, Hi.
Qed.

Lemma depth_xid : depth xid = O.
Proof using Hready.
  unfold depth. destruct (list_find (xid =.) subs) as [[i z]|] eqn:E; [|done].
  apply list_find_Some in E as (Hi & Hz & _). destruct tree_xid_fresh. subst z. eapply list_elem_of_lookup_2, Hi.
Qed.

(** On a log in some tree_phase, every look-up in the tree ends and answers it. *)
Lemma phase_did_commit sub xmin ctl b c y :
  tree_linked sub xmin -> clog_ok ctl -> (forall z, has_status ctl z <-> has_status (pages st) z) ->
  tree_phase (status_of ctl) b -> cache_ok ctl c -> y ∈ xid :: subs ->
  exists c', TransactionIdDidCommit ctl sub xmin (S (S (length subs))) y c = Ok (b, c').
Proof using Hready.
  intros Hl Hok Hpg Hph Hc Hy.
  assert (forall z, z ∈ xid :: subs -> TransactionIdIsNormal z = true) as Hn.
  { intros z Hz. destruct Hready as (_ & _ & _ & Hin). apply Hin. set_solver. }
  assert (wp (TransactionIdDidCommit ctl sub xmin (S (S (length subs))) y c)
    (fun '(b', c') => cache_ok ctl c'
       /\ (b' = true <-> commits (log_status ctl) (parent_of sub) xmin y))) as Hw.
  { apply (wp_TransactionIdDidCommit ctl sub xmin Hok (proj1 Hl) (fun z => z ∈ xid :: subs) depth);
      [| |done|apply depth_bound|done].
    - intros z Hz _. split.
      + apply Hpg. destruct Hready as (_ & _ & _ & Hin). apply Hin. set_solver.
      + intros Hz3. apply elem_of_cons in Hz as [->|Hz].
        * exfalso. destruct b; cbn in Hph; lia.
        * apply list_elem_of_lookup in Hz as [i Hi]. by apply (proj2 Hl i).
    - intros z Hz _ Hz3 _ _. apply elem_of_cons in Hz as [->|Hz].
      { exfalso. destruct b; cbn in Hph; lia. }
      apply list_elem_of_lookup in Hz as [i Hi]. destruct (proj2 Hl i z Hi) as (_ & _ & Hpar).
      rewrite (depth_lookup i z Hi). destruct Hpar as [->|(j & Hj & Hpj)].
      + split; [by left|]. rewrite depth_xid. lia.
      + split; [right; eapply list_elem_of_lookup_2, Hpj|]. rewrite (depth_lookup j _ Hpj). lia. }
  apply wp_ok in Hw as ([b' c'] & E & _ & Hb). exists c'. rewrite E. do 2 f_equal.
  assert (b' = true <-> b = true) as Hbb; [|destruct b, b'; intuition congruence].
  rewrite Hb. apply (phase_answers sub xmin (log_status ctl) b Hl); [|done].
  assert (forall z, z ∈ xid :: subs -> log_status ctl z = status_of ctl z) as El.
  { intros z Hz. unfold log_status. by rewrite (Hn z Hz). }
  destruct b; cbn in Hph |- *; rewrite (El xid) by (by left).
  - split; [tauto|]. intros s Hs. rewrite (El s) by (by right). by apply Hph.
  - split; [tauto|split; [tauto|]]. intros s Hs. rewrite (El s) by (by right). by apply Hph.
Qed.
End tree.

(** * Theorems *)

(** C11. Marking a transaction tree committed or aborted in the commit log
    always finishes with every transaction of the tree in the new status, and
    after every single status write, whatever pages the tree spans and whether
    the process writes itself or a group leader writes for it, a reader's
    TransactionIdDidCommit gives one answer for the whole tree: every
    subtransaction counts as committed exactly when the top transaction does,
    also for a reader whose cache was filled before. *)
Theorem commit_tree_atomic rec MyProc_xid MyProc_subxids others xid subs status lsn st sub xmin :
  status = TRANSACTION_STATUS_COMMITTED \/ status = TRANSACTION_STATUS_ABORTED ->
  tree_ready others xid subs st -> tree_linked xid subs sub xmin ->
  wp (TransactionIdSetTreeStatus rec MyProc_xid MyProc_subxids others xid subs status lsn st)
     (fun st' =>
        (forall y, y ∈ xid :: subs -> exists lsn', TransactionIdGetStatus y (pages st') = Ok (status, lsn'))
        /\ exists snapshots, written st' = written st ++ snapshots
           /\ forall ctl, ctl ∈ snapshots -> exists b, forall y c, y ∈ xid :: subs -> cache_ok (pages st) c ->
              exists c', TransactionIdDidCommit ctl sub xmin (S (S (length subs))) y c = Ok (b, c')).
Proof.
  intros Hst Hr Hl. pose proof Hr as (Hok & _ & Hot & Hin).
  pose proof (legal_tree rec MyProc_xid MyProc_subxids others xid subs st Hr status Hst) as Hleg.
  eapply wp_mono; [apply performs_tree; try done|].
  - by eapply tree_valid.
  - intros y Hy. destruct (tree_writes_core MyProc_xid MyProc_subxids others xid subs st Hr status)
      as (P & Q & Wb & Wa & E & HP & HQ & HW). rewrite E in Hy.
    apply Hin. rewrite !fmap_app in Hy. unfold others_xids. rewrite fmap_app, concat_app.
    apply elem_of_app in Hy as [Hy|Hy]; [|apply elem_of_app in Hy as [Hy|Hy]].
    + destruct HW as [[-> _]|[-> _]]; [by apply not_elem_of_nil in Hy|].
      apply group_writes_fst in Hy. set_solver.
    + apply core_writes_fst in Hy. set_solver.
    + destruct HW as [[_ ->]|[_ ->]]; [by apply not_elem_of_nil in Hy|].
      apply group_writes_fst in Hy. set_solver.
  - intros st' Hd. destruct (does_ok _ _ _ Hd Hok) as (Hok' & Hpg' & Hs').
    destruct (does_written _ _ _ Hd Hok) as (snaps & Hw & Hall). split.
    + intros y Hy. assert (wp (TransactionIdGetStatus y (pages st')) (fun r => r.1 = status)) as Hg.
      { apply wp_TransactionIdGetStatus; [done|apply Hpg', Hin; set_solver|].
        intros l. cbn. rewrite Hs'. by apply tree_final. }
      apply wp_ok in Hg as ([s l] & -> & Hsl). exists l. cbn in Hsl. by rewrite Hsl.
    + exists snaps. split; [done|]. intros ctl Hc. destruct (Hall _ Hc) as (Hco & Hcp & pre & suf & E & Hcs).
      destruct (prefix_phase MyProc_xid MyProc_subxids others xid subs st Hr status pre suf Hst E) as [b Hb].
      exists b. intros y c Hy Hcache. eapply (phase_did_commit others xid subs st Hr); try done.
      * destruct b; cbn in Hb |- *.
        -- rewrite !Hcs. split; [tauto|]. intros s Hs. rewrite Hcs. by apply Hb.
        -- rewrite !Hcs. split; [tauto|split; [tauto|]]. intros s Hs. rewrite Hcs. by apply Hb.
      * by eapply cache_stays.
Qed.

(** A tree on two pages of the log: 32767 is the last transaction of page 0,
    its subtransactions 32768 and 32770 are on page 1. *)
Definition example_clog : ClogState :=
  mkClog (<[0 := zero_page]> (<[1 := zero_page]> ∅)) [].
Definition example_subtrans : SubTransCtl :=
  <[16 := upd (upd (replicate 2048 0) 0 32767) 2 32768]> ∅.
Definition alone : Others :=
  {| lock_free := true; group_head_page := None; members_before := []; members_after := [] |}.

Lemma zero_page_ok : page_ok zero_page.
Proof.
  split; [done|]. split; [|done]. unfold zero_page. cbn [page_buffer]. apply Forall_replicate. lia.
Qed.

Lemma example_ready : tree_ready alone 32767 [32768; 32770] example_clog.
Proof.
  split; [|split; [|split]].
  - intros n p. unfold example_clog. cbn [pages]. rewrite !lookup_insert.
    repeat case_decide; try done; intros [= <-]; apply zero_page_ok.
  - change (NoDup [32767; 32768; 32770]). repeat (apply NoDup_cons; split; [set_solver|]). constructor.
  - split; constructor.
  - intros y Hy.
    assert (y = 32767 \/ y = 32768 \/ y = 32770) as Hc by (unfold others_xids in Hy; cbn in Hy; set_solver).
    destruct Hc as [->|[->| ->]]; (split; [done|]; split; [by eexists|vm_compute; reflexivity]).
Qed.

Lemma example_linked : tree_linked 32767 [32768; 32770] example_subtrans 30000.
Proof.
  split.
  - intros n p. unfold example_subtrans. rewrite lookup_insert. case_decide; [|done]. intros [= <-].
    rewrite !len_upd. done.
  - intros i s Hi. destruct i as [|[|i]]; cbn in Hi; try done; injection Hi as <-.
    + split; [by eexists|]. split; [done|]. left. vm_compute. reflexivity.
    + split; [by eexists|]. split; [done|]. right. exists O. split; [lia|]. vm_compute. reflexivity.
Qed.

Lemma commit_tree_atomic_witness :
  wp (TransactionIdSetTreeStatus false 32767 [32768; 32770] alone 32767 [32768; 32770] 1 0 example_clog)
     (fun st' =>
        (forall y, y ∈ [32767; 32768; 32770] -> exists l, TransactionIdGetStatus y (pages st') = Ok (1, l))
        /\ exists snapshots, written st' = written example_clog ++ snapshots
           /\ forall ctl, ctl ∈ snapshots -> exists b, forall y c, y ∈ [32767; 32768; 32770] ->
              cache_ok (pages example_clog) c ->
              exists c', TransactionIdDidCommit ctl example_subtrans 30000 4 y c = Ok (b, c')).
Proof.
  apply (commit_tree_atomic false 32767 [32768; 32770] alone 32767 [32768; 32770] 1 0 example_clog
           example_subtrans 30000).
  - by left.
  - apply example_ready.
  - apply example_linked.
Defined.
