(* ===== verification/HeapTuple.v ===== *)
(** Heap tuple headers (src/postgresql/src/include/access/htup_details.h) as
    far as visibility looks at them, item pointers
    (src/postgresql/src/include/storage/itemptr.h) and the members of a
    MultiXact (src/postgresql/src/include/access/multixact.h), with the
    updater of a tuple ([MultiXactIdGetUpdateXid] and [HeapTupleGetUpdateXid]
    of heapam.c).

    [t_field3] is the union of t_cid and t_xvac; the fields of the header that
    describe the data (t_hoff, t_bits) are left out. *)
From S2P Require Import Prelude.
From S2P Require Import Xid.
Open Scope string_scope.
Open Scope list_scope.
Open Scope Z_scope.

(** * Item pointers *)
Record ItemPointerData := { ip_blkid : Z; ip_posid : Z }.

Definition SpecTokenOffsetNumber : Z := 0xfffe.

Definition ItemPointerIsValid (p : ItemPointerData) : bool := negb (ip_posid p =? 0).

Definition ItemPointerEquals (p q : ItemPointerData) : bool :=
  (ip_blkid p =? ip_blkid q) && (ip_posid p =? ip_posid q).

(** * Headers *)
Record HeapTupleHeaderData := {
  t_xmin : Z;
  t_xmax : Z;
  t_field3 : Z;
  t_ctid : ItemPointerData;
  t_infomask : Z
}.

Definition set_infomask (m : Z) (h : HeapTupleHeaderData) : HeapTupleHeaderData :=
  {| t_xmin := t_xmin h; t_xmax := t_xmax h; t_field3 := t_field3 h; t_ctid := t_ctid h;
     t_infomask := m |}.

Definition HEAP_XMAX_KEYSHR_LOCK : Z := 0x0010.
Definition HEAP_COMBOCID : Z := 0x0020.
Definition HEAP_XMAX_EXCL_LOCK : Z := 0x0040.
Definition HEAP_XMAX_LOCK_ONLY : Z := 0x0080.
Definition HEAP_XMAX_SHR_LOCK : Z := Z.lor HEAP_XMAX_EXCL_LOCK HEAP_XMAX_KEYSHR_LOCK.
Definition HEAP_LOCK_MASK : Z :=
  Z.lor (Z.lor HEAP_XMAX_SHR_LOCK HEAP_XMAX_EXCL_LOCK) HEAP_XMAX_KEYSHR_LOCK.
Definition HEAP_XMIN_COMMITTED : Z := 0x0100.
Definition HEAP_XMIN_INVALID : Z := 0x0200.
Definition HEAP_XMIN_FROZEN : Z := Z.lor HEAP_XMIN_COMMITTED HEAP_XMIN_INVALID.
Definition HEAP_XMAX_COMMITTED : Z := 0x0400.
Definition HEAP_XMAX_INVALID : Z := 0x0800.
Definition HEAP_XMAX_IS_MULTI : Z := 0x1000.
Definition HEAP_MOVED_OFF : Z := 0x4000.
Definition HEAP_MOVED_IN : Z := 0x8000.
Definition HEAP_MOVED : Z := Z.lor HEAP_MOVED_OFF HEAP_MOVED_IN.

(** [infomask & mask] as a condition. *)
Definition has (infomask mask : Z) : bool := negb (Z.land infomask mask =? 0).

Definition HEAP_XMAX_IS_LOCKED_ONLY (infomask : Z) : bool :=
  has infomask HEAP_XMAX_LOCK_ONLY
  || (Z.land infomask (Z.lor HEAP_XMAX_IS_MULTI HEAP_LOCK_MASK) =? HEAP_XMAX_EXCL_LOCK).

Definition HEAP_LOCKED_UPGRADED (infomask : Z) : bool :=
  has infomask HEAP_XMAX_IS_MULTI && has infomask HEAP_XMAX_LOCK_ONLY
  && (Z.land infomask (Z.lor HEAP_XMAX_EXCL_LOCK HEAP_XMAX_KEYSHR_LOCK) =? 0).

Definition HeapTupleHeaderGetRawXmin (t : HeapTupleHeaderData) : Z := t_xmin t.
Definition HeapTupleHeaderGetRawXmax (t : HeapTupleHeaderData) : Z := t_xmax t.
Definition HeapTupleHeaderGetRawCommandId (t : HeapTupleHeaderData) : Z := t_field3 t.

Definition HeapTupleHeaderXminCommitted (t : HeapTupleHeaderData) : bool :=
  has (t_infomask t) HEAP_XMIN_COMMITTED.

Definition HeapTupleHeaderXminInvalid (t : HeapTupleHeaderData) : bool :=
  Z.land (t_infomask t) (Z.lor HEAP_XMIN_COMMITTED HEAP_XMIN_INVALID) =? HEAP_XMIN_INVALID.

Definition HeapTupleHeaderXminFrozen (t : HeapTupleHeaderData) : bool :=
  Z.land (t_infomask t) HEAP_XMIN_FROZEN =? HEAP_XMIN_FROZEN.

Definition HeapTupleHeaderGetXmin (t : HeapTupleHeaderData) : Z :=
  if HeapTupleHeaderXminFrozen t then FrozenTransactionId else HeapTupleHeaderGetRawXmin t.

Definition HeapTupleHeaderGetXvac (t : HeapTupleHeaderData) : Z :=
  if has (t_infomask t) HEAP_MOVED then t_field3 t else InvalidTransactionId.

Definition HeapTupleHeaderSetCmin (cid : Z) (t : HeapTupleHeaderData) : HeapTupleHeaderData :=
  {| t_xmin := t_xmin t; t_xmax := t_xmax t; t_field3 := cid; t_ctid := t_ctid t;
     t_infomask := Z.ldiff (t_infomask t) HEAP_COMBOCID |}.

Definition HeapTupleHeaderSetCmax (cid : Z) (iscombo : bool) (t : HeapTupleHeaderData)
  : HeapTupleHeaderData :=
  {| t_xmin := t_xmin t; t_xmax := t_xmax t; t_field3 := cid; t_ctid := t_ctid t;
     t_infomask := if iscombo then Z.lor (t_infomask t) HEAP_COMBOCID
                   else Z.ldiff (t_infomask t) HEAP_COMBOCID |}.

Definition HeapTupleHeaderIsSpeculative (t : HeapTupleHeaderData) : bool :=
  ip_posid (t_ctid t) =? SpecTokenOffsetNumber.

Definition HeapTupleHeaderGetSpeculativeToken (t : HeapTupleHeaderData) : Z := ip_blkid (t_ctid t).

(** The parts of HeapTupleData besides the header itself. *)
Record HeapTupleData := { t_self : ItemPointerData; t_tableOid : Z }.

(** * MultiXact members *)
Inductive MultiXactStatus :=
| MultiXactStatusForKeyShare | MultiXactStatusForShare | MultiXactStatusForNoKeyUpdate
| MultiXactStatusForUpdate | MultiXactStatusNoKeyUpdate | MultiXactStatusUpdate.

Definition ISUPDATE_from_mxstatus (s : MultiXactStatus) : bool :=
  match s with MultiXactStatusNoKeyUpdate | MultiXactStatusUpdate => true | _ => false end.

Record MultiXactMember := { mx_xid : Z; mx_status : MultiXactStatus }.

(** * The updater of a tuple

    [Members] reads the members of a MultiXact from its SLRU, [None] where
    that raises an ERROR. *)
Section updater.
Context (Members : Z -> bool -> option (list MultiXactMember)).

Definition GetMultiXactIdMembers (multi : Z) (isLockOnly : bool) : res (list MultiXactMember) :=
  match Members multi isLockOnly with
  | Some ms => Ok ms
  | None => Err "MultiXactId does not exist"
  end.

(** The loop of [MultiXactIdGetUpdateXid], which in a build with assertions
    walks the whole array. *)
Fixpoint find_updater (ms : list MultiXactMember) (update_xact : Z) : res Z :=
  match ms with
  | [] => Ok update_xact
  | m :: ms =>
      if negb (ISUPDATE_from_mxstatus (mx_status m)) then find_updater ms update_xact
      else
        Assert (update_xact =? InvalidTransactionId) "update_xact == InvalidTransactionId";;
        find_updater ms (mx_xid m)
  end.

Definition MultiXactIdGetUpdateXid (xmax infomask : Z) : res Z :=
  Assert (negb (has infomask HEAP_XMAX_LOCK_ONLY)) "!(t_infomask & HEAP_XMAX_LOCK_ONLY)";;
  Assert (has infomask HEAP_XMAX_IS_MULTI) "t_infomask & HEAP_XMAX_IS_MULTI";;
  members ← GetMultiXactIdMembers xmax false;
  find_updater members InvalidTransactionId.

Definition HeapTupleGetUpdateXid (t : HeapTupleHeaderData) : res Z :=
  MultiXactIdGetUpdateXid (HeapTupleHeaderGetRawXmax t) (t_infomask t).

Definition HeapTupleHeaderGetUpdateXid (t : HeapTupleHeaderData) : res Z :=
  if negb (has (t_infomask t) HEAP_XMAX_INVALID) && has (t_infomask t) HEAP_XMAX_IS_MULTI
     && negb (has (t_infomask t) HEAP_XMAX_LOCK_ONLY)
  then HeapTupleGetUpdateXid t
  else Ok (HeapTupleHeaderGetRawXmax t).

End updater.

(** * Lemmas on masks *)
Lemma has_lor a b m : has (Z.lor a b) m = has a m || has b m.
Proof.
  unfold has. rewrite Z.land_lor_distr_l.
  destruct (Z.eqb_spec (Z.lor (Z.land a m) (Z.land b m)) 0) as [E|E].
  - apply Z.lor_eq_0_iff in E as [-> ->]. done.
  - destruct (Z.eqb_spec (Z.land a m) 0) as [Ea|]; [|done].
    destruct (Z.eqb_spec (Z.land b m) 0) as [Eb|]; [|done].
    by rewrite Ea, Eb in E.
Qed.

Lemma land_lor_disjoint a b m : Z.land b m = 0 -> Z.land (Z.lor a b) m = Z.land a m.
Proof. intros H. rewrite Z.land_lor_distr_l, H. apply Z.lor_0_r. Qed.

(** A two-bit mask is tested through its bits. *)
Lemma mask_bit a k : 0 <= k -> Z.land a (2 ^ k) = if Z.testbit a k then 2 ^ k else 0.
Proof.
  intros Hk. apply Z.bits_inj'. intros n Hn. rewrite Z.land_spec, Z.pow2_bits_eqb by done.
  destruct (Z.eqb_spec k n) as [->|Hne].
  - rewrite andb_true_r. destruct (Z.testbit a n); [|by rewrite Z.bits_0].
    by rewrite Z.pow2_bits_true.
  - rewrite andb_false_r. destruct (Z.testbit a k); [|by rewrite Z.bits_0].
    by rewrite Z.pow2_bits_false.
Qed.

Lemma has_bit a k : 0 <= k -> has a (2 ^ k) = Z.testbit a k.
Proof.
  intros Hk. unfold has. rewrite mask_bit by done. destruct (Z.testbit a k); [|done].
  pose proof (Z.pow_pos_nonneg 2 k). lia.
Qed.

(** The two xmin bits: invalid is the second bit alone, frozen is both. *)
Lemma xmin_bits h :
  HeapTupleHeaderXminInvalid h
    = has (t_infomask h) HEAP_XMIN_INVALID && negb (has (t_infomask h) HEAP_XMIN_COMMITTED)
  /\ HeapTupleHeaderXminFrozen h
    = has (t_infomask h) HEAP_XMIN_INVALID && has (t_infomask h) HEAP_XMIN_COMMITTED.
Proof.
  unfold HeapTupleHeaderXminInvalid, HeapTupleHeaderXminFrozen, HEAP_XMIN_FROZEN.
  rewrite !Z.land_lor_distr_r. unfold has, HEAP_XMIN_INVALID, HEAP_XMIN_COMMITTED.
  change 512 with (2 ^ 9). change 256 with (2 ^ 8). rewrite !mask_bit by lia.
  destruct (Z.testbit (t_infomask h) 9), (Z.testbit (t_infomask h) 8); done.
Qed.

(** The bit that marks a combo command id does not bear on the updater. *)
Lemma GetUpdateXid_SetCmax Members cid iscombo h :
  HeapTupleHeaderGetUpdateXid Members (HeapTupleHeaderSetCmax cid iscombo h)
  = HeapTupleHeaderGetUpdateXid Members h.
Proof.
  assert (Hhas : forall m, Z.land HEAP_COMBOCID m = 0 ->
    has (t_infomask (HeapTupleHeaderSetCmax cid iscombo h)) m = has (t_infomask h) m).
  { intros m Hm. unfold HeapTupleHeaderSetCmax, has. cbn [t_infomask]. destruct iscombo.
    - by rewrite land_lor_disjoint.
    - do 2 f_equal. apply Z.bits_inj'. intros n Hn. rewrite !Z.land_spec, Z.ldiff_spec.
      assert (Z.testbit (Z.land HEAP_COMBOCID m) n = false) as Hb by by rewrite Hm, Z.bits_0.
      rewrite Z.land_spec in Hb.
      destruct (Z.testbit HEAP_COMBOCID n), (Z.testbit m n), (Z.testbit (t_infomask h) n); done. }
  unfold HeapTupleHeaderGetUpdateXid, HeapTupleGetUpdateXid, MultiXactIdGetUpdateXid.
  rewrite !Hhas by reflexivity. reflexivity.
Qed.
