(* ===== verification/ComboCid.v ===== *)
(** Combo command ids (src/postgresql/src/backend/utils/time/combocid.c).

    The header of a tuple has room for one command id.  When the inserting
    transaction also deletes the tuple, the field holds a combo command id,
    an index into a per-backend array of (cmin, cmax) pairs; a hash table
    finds the index of a pair that already has one.

    An operation returns the state it leaves behind also when it raises an
    error.  The hash table is a finite map; running out of memory shows as the
    ERROR of repalloc for a request beyond MaxAllocSize. *)
From stdpp Require Import gmap.
From S2P Require Import Prelude.
From S2P Require Import Xid.
From S2P Require Import HeapTuple.
Open Scope string_scope.
Open Scope list_scope.
Open Scope Z_scope.

(** * State *)
Record ComboCidKeyData := mkKey { cmin : Z; cmax : Z }.

#[export] Instance ComboCidKeyData_eq_dec : EqDecision ComboCidKeyData.
Proof. solve_decision. Defined.

#[export] Instance ComboCidKeyData_countable : Countable ComboCidKeyData.
Proof.
  refine (inj_countable' (fun k => (cmin k, cmax k)) (fun '(a, b) => mkKey a b) _).
  by intros [].
Defined.

(** [comboHash] is [None] for a NULL pointer; [comboCids] is the allocated
    array, of [sizeComboCids] cells. *)
Record ComboState := mkCombo {
  comboHash : option (gmap ComboCidKeyData Z);
  comboCids : list ComboCidKeyData;
  usedComboCids : Z;
  sizeComboCids : Z
}.

Definition CCID_ARRAY_SIZE : Z := 100.
Definition combo_MaxAllocSize : Z := 0x3fffffff.
Definition sizeof_ComboCidKeyData : Z := 8.

(** Cells of freshly allocated memory have no particular value. *)
Definition garbage : ComboCidKeyData := mkKey 0 0.

Definition no_combo : ComboState := mkCombo None [] 0 0.

(** * Operations *)
Definition AtEOXact_ComboCid (_ : ComboState) : ComboState := no_combo.

(** The first-use initialization of [GetComboCommandId]. *)
Definition init_combo (s : ComboState) : gmap ComboCidKeyData Z * ComboState :=
  match comboHash s with
  | Some h => (h, s)
  | None => (∅, mkCombo (Some ∅) (replicate (Z.to_nat CCID_ARRAY_SIZE) garbage) 0 CCID_ARRAY_SIZE)
  end.

(** The array is grown before the hash table is touched. *)
Definition grow_combo (s : ComboState) : res ComboState * ComboState :=
  if sizeComboCids s <=? usedComboCids s then
    let newsize := sizeComboCids s * 2 in
    if combo_MaxAllocSize <? sizeof_ComboCidKeyData * newsize
    then (Err "invalid memory alloc request size", s)
    else
      let s := mkCombo (comboHash s)
                 (comboCids s ++ replicate (Z.to_nat (newsize - sizeComboCids s)) garbage)
                 (usedComboCids s) newsize in
      (Ok s, s)
  else (Ok s, s).

Definition GetComboCommandId (cmin cmax : Z) (s : ComboState) : res Z * ComboState :=
  let '(h, s) := init_combo s in
  match grow_combo s with
  | (Ok s, _) =>
      let key := mkKey cmin cmax in
      match h !! key with
      | Some combocid => (Ok combocid, s)
      | None =>
          let combocid := usedComboCids s in
          match wr (comboCids s) combocid key with
          | Ok cids =>
              (Ok combocid, mkCombo (Some (<[key := combocid]> h)) cids
                              (usedComboCids s + 1) (sizeComboCids s))
          | Err e => (Err e, s)
          | UB w => (UB w, s)
          end
      end
  | (Err e, s) => (Err e, s)
  | (UB w, s) => (UB w, s)
  end.

Definition GetRealCmin (combocid : Z) (s : ComboState) : res Z :=
  Assert (combocid <? usedComboCids s) "combocid < usedComboCids";;
  k ← rd (comboCids s) combocid;
  Ok (cmin k).

Definition GetRealCmax (combocid : Z) (s : ComboState) : res Z :=
  Assert (combocid <? usedComboCids s) "combocid < usedComboCids";;
  k ← rd (comboCids s) combocid;
  Ok (cmax k).

Section tuples.
(** TransactionIdIsCurrentTransactionId, and the members of MultiXacts; no
    critical section is open. *)
Context (IsCurrent : Z -> bool) (Members : Z -> bool -> option (list MultiXactMember)).

Definition HeapTupleHeaderGetCmin (t : HeapTupleHeaderData) (s : ComboState) : res Z :=
  let cid := HeapTupleHeaderGetRawCommandId t in
  Assert (negb (has (t_infomask t) HEAP_MOVED)) "!(tup->t_infomask & HEAP_MOVED)";;
  Assert (IsCurrent (HeapTupleHeaderGetXmin t))
    "TransactionIdIsCurrentTransactionId(HeapTupleHeaderGetXmin(tup))";;
  if has (t_infomask t) HEAP_COMBOCID then GetRealCmin cid s else Ok cid.

Definition HeapTupleHeaderGetCmax (t : HeapTupleHeaderData) (s : ComboState) : res Z :=
  let cid := HeapTupleHeaderGetRawCommandId t in
  Assert (negb (has (t_infomask t) HEAP_MOVED)) "!(tup->t_infomask & HEAP_MOVED)";;
  u ← HeapTupleHeaderGetUpdateXid Members t;
  Assert (IsCurrent u) "TransactionIdIsCurrentTransactionId(HeapTupleHeaderGetUpdateXid(tup))";;
  if has (t_infomask t) HEAP_COMBOCID then GetRealCmax cid s else Ok cid.

(** The command id to store, and whether it is a combo one. *)
Definition HeapTupleHeaderAdjustCmax (t : HeapTupleHeaderData) (cmax : Z) (s : ComboState)
  : res (Z * bool) * ComboState :=
  if negb (HeapTupleHeaderXminCommitted t) && IsCurrent (HeapTupleHeaderGetRawXmin t) then
    match HeapTupleHeaderGetCmin t s with
    | Ok cmin =>
        match GetComboCommandId cmin cmax s with
        | (Ok combo, s) => (Ok (combo, true), s)
        | (Err e, s) => (Err e, s)
        | (UB w, s) => (UB w, s)
        end
    | Err e => (Err e, s)
    | UB w => (UB w, s)
    end
  else (Ok (cmax, false), s).
End tuples.

(** * Handing the state to a parallel worker

    The serialized form is the count and the pairs, as 32-bit words. *)
Definition EstimateComboCIDStateSpace (s : ComboState) : Z :=
  4 + sizeof_ComboCidKeyData * usedComboCids s.

Definition SerializeComboCIDState (maxsize : Z) (s : ComboState) : res (list Z) :=
  if maxsize <? 4 + sizeof_ComboCidKeyData * usedComboCids s
  then Err "not enough space to serialize ComboCID state"
  else Ok (usedComboCids s
           :: concat ((fun k => [cmin k; cmax k]) <$> take (Z.to_nat (usedComboCids s)) (comboCids s))).

Definition RestoreComboCIDState (words : list Z) (s : ComboState) : res ComboState :=
  Assert (bool_decide (comboCids s = []) && bool_decide (comboHash s = None)) "!comboCids && !comboHash";;
  num_elements ← rd words 0;
  loop_state (for_up 0 num_elements (fun i s =>
    kmin ← rd words (1 + 2 * i);
    kmax ← rd words (2 + 2 * i);
    match GetComboCommandId kmin kmax s with
    | (Ok cid, s) =>
        if negb (cid =? i) then Err "unexpected command ID while restoring combo CIDs"
        else Ok (inl s)
    | (Err e, _) => Err e
    | (UB w, _) => UB w
    end) s).

(** * Invariant *)

(** Sizes the array goes through: it doubles, within the allocation limit. *)
Definition size_ok (n : Z) : Prop :=
  (exists k : nat, n = CCID_ARRAY_SIZE * 2 ^ Z.of_nat k) /\ sizeof_ComboCidKeyData * n <= combo_MaxAllocSize.

Lemma size_ok_pos n : size_ok n -> 0 < n.
Proof. intros [[k ->] _]. unfold CCID_ARRAY_SIZE. pose proof (Z.pow_pos_nonneg 2 (Z.of_nat k)). lia. Qed.

Lemma size_ok_init : size_ok CCID_ARRAY_SIZE.
Proof. split; [by exists O|vm_compute; congruence]. Qed.

Lemma size_ok_double n :
  size_ok n -> sizeof_ComboCidKeyData * (n * 2) <= combo_MaxAllocSize -> size_ok (n * 2).
Proof.
  intros [[k ->] _] H. split; [|done]. exists (S k). rewrite Nat2Z.inj_succ, Z.pow_succ_r by lia. ring.
Qed.

(** A smaller size can be doubled up to a larger one. *)
Lemma size_ok_lt n m : size_ok n -> size_ok m -> n < m -> n * 2 <= m.
Proof.
  intros [[j ->] _] [[k ->] _] H. unfold CCID_ARRAY_SIZE in *.
  assert (j < k)%nat as Hjk.
  { destruct (Nat.lt_ge_cases j k); [done|].
    pose proof (Z.pow_le_mono_r 2 (Z.of_nat k) (Z.of_nat j)). lia. }
  pose proof (Z.pow_le_mono_r 2 (Z.succ (Z.of_nat j)) (Z.of_nat k)) as Hp.
  rewrite Z.pow_succ_r in Hp by lia. lia.
Qed.

(** The hash table and the used part of the array are inverse to each other. *)
Definition combo_ok (s : ComboState) : Prop :=
  match comboHash s with
  | None => s = no_combo
  | Some h =>
      0 <= usedComboCids s <= sizeComboCids s /\ size_ok (sizeComboCids s)
      /\ len (comboCids s) = sizeComboCids s
      /\ forall k i, h !! k = Some i <-> 0 <= i < usedComboCids s /\ getd garbage (comboCids s) i = k
  end.

(** Every combo id of [s] means the same in [s']. *)
Definition combo_extends (s s' : ComboState) : Prop :=
  usedComboCids s <= usedComboCids s'
  /\ forall i, 0 <= i < usedComboCids s -> getd garbage (comboCids s') i = getd garbage (comboCids s) i.

#[export] Instance combo_extends_preorder : PreOrder combo_extends.
Proof.
  split; [done|]. intros s1 s2 s3 [H1 H2] [H3 H4]. split; [lia|].
  intros i Hi. rewrite H4, H2 by lia. done.
Qed.

Lemma init_combo_ok s : combo_ok s -> let '(h, s') := init_combo s in
  comboHash s' = Some h /\ combo_ok s' /\ combo_extends s s' /\ usedComboCids s' = usedComboCids s.
Proof.
  unfold init_combo. intros Hok. destruct (comboHash s) as [h|] eqn:E.
  - done.
  - unfold combo_ok in Hok. rewrite E in Hok. subst s. split; [done|]. split; [|split; [|done]].
    + unfold combo_ok. cbn. split; [unfold CCID_ARRAY_SIZE; lia|].
      split; [apply size_ok_init|]. split; [done|]. intros k i. split; [done|lia].
    + split; [done|]. cbn. lia.
Qed.

Lemma grow_combo_ok s h : combo_ok s -> comboHash s = Some h ->
  match grow_combo s with
  | (Ok s', s'') => s'' = s' /\ combo_ok s' /\ comboHash s' = Some h /\ combo_extends s s'
      /\ usedComboCids s' = usedComboCids s /\ usedComboCids s' < sizeComboCids s'
  | (Err _, s'') => s'' = s
  | (UB _, _) => False
  end.
Proof.
  intros Hok E. unfold combo_ok in Hok. rewrite E in Hok. destruct Hok as (Hu & Hsz & Hl & Hh).
  pose proof (size_ok_pos _ Hsz) as Hpos. unfold grow_combo. destruct (Z.leb_spec (sizeComboCids s) (usedComboCids s)) as [Hle|Hlt].
  - destruct (Z.ltb_spec combo_MaxAllocSize (sizeof_ComboCidKeyData * (sizeComboCids s * 2))); [done|].
    assert (forall i, 0 <= i < usedComboCids s ->
      getd garbage (comboCids s ++ replicate (Z.to_nat (sizeComboCids s * 2 - sizeComboCids s)) garbage) i
      = getd garbage (comboCids s) i) as Hg.
    { intros i Hi. rewrite getd_app by lia. destruct (Z.ltb_spec i (len (comboCids s))); [done|lia]. }
    split; [done|]. split; [|split; [done|split; [|split; [done|cbn; lia]]]].
    + unfold combo_ok. cbn [comboHash comboCids usedComboCids sizeComboCids]. rewrite E.
      split; [lia|]. split; [by apply size_ok_double; [|lia]|]. split; [rewrite len_app, len_replicate; lia|].
      intros k i. rewrite Hh. split; intros [Hi Hk]; (split; [done|]); [by rewrite Hg|by rewrite <- Hg].
    + split; [cbn; lia|]. exact Hg.
  - split; [done|]. split; [unfold combo_ok; by rewrite E|]. done.
Qed.

(** Growing succeeds while the array is smaller than some possible size. *)
Lemma grow_combo_room s h n : combo_ok s -> comboHash s = Some h ->
  size_ok n -> usedComboCids s < n -> exists s', grow_combo s = (Ok s', s').
Proof.
  intros Hok E Hn Hlt. unfold combo_ok in Hok. rewrite E in Hok. destruct Hok as (Hu & Hsz & _).
  unfold grow_combo. destruct (Z.leb_spec (sizeComboCids s) (usedComboCids s)); [|by eexists].
  assert (sizeComboCids s * 2 <= n) as Hd by (apply size_ok_lt; [done|done|lia]).
  destruct Hn as [_ Hn]. unfold sizeof_ComboCidKeyData in *.
  destruct (Z.ltb_spec combo_MaxAllocSize (8 * (sizeComboCids s * 2))); [lia|by eexists].
Qed.

(** Whatever happens, the invariant holds and old ids keep their meaning; a
    result means the pair asked for. *)
Lemma GetComboCommandId_ok a b s : combo_ok s ->
  let '(r, s') := GetComboCommandId a b s in
  combo_ok s' /\ combo_extends s s'
  /\ match r with
     | Ok c => 0 <= c < usedComboCids s' /\ getd garbage (comboCids s') c = mkKey a b
               /\ ((c < usedComboCids s /\ usedComboCids s' = usedComboCids s)
                   \/ (c = usedComboCids s /\ usedComboCids s' = usedComboCids s + 1
                       /\ forall i, 0 <= i < usedComboCids s -> getd garbage (comboCids s) i <> mkKey a b))
     | Err _ => usedComboCids s' = usedComboCids s
     | UB _ => False
     end.
Proof.
  intros Hok. unfold GetComboCommandId. pose proof (init_combo_ok s Hok) as Hi.
  destruct (init_combo s) as [h s1]. destruct Hi as (Eh & Hok1 & Hext1 & Hu1).
  pose proof (grow_combo_ok s1 h Hok1 Eh) as Hg.
  destruct (grow_combo s1) as [[s2|e|w] s2'].
  - destruct Hg as (-> & Hok2 & Eh2 & Hext2 & Hu2 & Hroom).
    assert (combo_extends s s2) as Hext by (by transitivity s1).
    pose proof Hok2 as Hok2'. unfold combo_ok in Hok2'. rewrite Eh2 in Hok2'.
    destruct Hok2' as (Hu & Hpos & Hl & Hh).
    destruct (h !! mkKey a b) as [c|] eqn:El.
    + apply Hh in El as [Hc Hk]. split; [done|]. split; [done|]. split; [done|]. split; [done|]. left. lia.
    + assert (forall i, 0 <= i < usedComboCids s2 -> getd garbage (comboCids s2) i <> mkKey a b) as Hnew.
      { intros i Hi' Hk. assert (h !! mkKey a b = Some i) as E by (by apply Hh). congruence. }
      unfold wr. assert ((0 <=? usedComboCids s2) && (usedComboCids s2 <? len (comboCids s2)) = true) as ->
        by lia.
      assert (forall i, 0 <= i -> getd garbage (upd (comboCids s2) (usedComboCids s2) (mkKey a b)) i
        = if i =? usedComboCids s2 then mkKey a b else getd garbage (comboCids s2) i) as Hg
        by (intros; apply getd_upd; lia).
      split; [|split; [|split; [cbn; lia|split]]].
      * unfold combo_ok. cbn [comboHash comboCids usedComboCids sizeComboCids]. rewrite len_upd.
        split; [lia|]. split; [done|]. split; [done|].
        intros k i. rewrite lookup_insert. case_decide as Hd.
        -- subst k. split; [intros [= <-]; split; [lia|]; rewrite Hg by lia; by rewrite Z.eqb_refl|].
           intros [Hi' Hk]. rewrite Hg in Hk by lia.
           destruct (Z.eqb_spec i (usedComboCids s2)) as [->|]; [done|].
           exfalso. apply (Hnew i); [lia|done].
        -- rewrite Hh. split; intros [Hi' Hk].
           ++ split; [lia|]. rewrite Hg by lia. destruct (Z.eqb_spec i (usedComboCids s2)); [lia|done].
           ++ rewrite Hg in Hk by lia. destruct (Z.eqb_spec i (usedComboCids s2)); [by destruct Hd|].
              split; [lia|done].
      * destruct Hext as [He1 He2]. split; [cbn; lia|]. intros i Hi'. cbn [comboCids].
        rewrite Hg by lia. destruct (Z.eqb_spec i (usedComboCids s2)); [lia|]. by apply He2.
      * cbn [comboCids]. rewrite Hg by lia. by rewrite Z.eqb_refl.
      * right. cbn. split; [lia|]. split; [lia|]. intros i Hi'.
        destruct Hext as [_ He2]. rewrite <- He2 by done. apply Hnew. lia.
  - subst s2'. split; [done|]. split; [done|]. done.
  - done.
Qed.

Lemma GetComboCommandId_room a b s n : combo_ok s -> size_ok n -> usedComboCids s < n ->
  exists c s', GetComboCommandId a b s = (Ok c, s').
Proof.
  intros Hok Hn Hlt. pose proof (GetComboCommandId_ok a b s Hok) as H. revert H.
  unfold GetComboCommandId. pose proof (init_combo_ok s Hok) as Hi.
  destruct (init_combo s) as [h s1]. destruct Hi as (Eh & Hok1 & _ & Hu1).
  destruct (grow_combo_room s1 h n Hok1 Eh Hn ltac:(lia)) as [s2 ->].
  destruct (h !! mkKey a b); [by eauto|]. destruct (wr _ _ _) eqn:Ew; [by eauto| |tauto].
  unfold wr in Ew. by destruct (_ && _) in Ew.
Qed.

Lemma GetReal_ok i s : combo_ok s -> 0 <= i < usedComboCids s ->
  GetRealCmin i s = Ok (cmin (getd garbage (comboCids s) i))
  /\ GetRealCmax i s = Ok (cmax (getd garbage (comboCids s) i)).
Proof.
  intros Hok Hi. unfold combo_ok in Hok. destruct (comboHash s); [|subst s; cbn in Hi; lia].
  destruct Hok as (Hu & _ & Hl & _).
  assert (forall (B : Type) (f : ComboCidKeyData -> B), (k ← rd (comboCids s) i; Ok (f k))
    = Ok (f (getd garbage (comboCids s) i))) as Hrd.
  { intros B f. assert (wp (rd (comboCids s) i) (fun k => k = getd garbage (comboCids s) i)) as Hw
      by (apply (wp_rd garbage); [lia|done]).
    apply wp_ok in Hw as (k & -> & ->). done. }
  unfold GetRealCmin, GetRealCmax. assert ((i <? usedComboCids s) = true) as -> by lia.
  split; apply Hrd.
Qed.

(** The ids of a state keep their meaning in every later one. *)
Lemma GetReal_later i s s' : combo_ok s' -> combo_extends s s' -> 0 <= i < usedComboCids s ->
  GetRealCmin i s' = Ok (cmin (getd garbage (comboCids s) i))
  /\ GetRealCmax i s' = Ok (cmax (getd garbage (comboCids s) i)).
Proof.
  intros Hok [Hu He] Hi. destruct (GetReal_ok i s' Hok) as [-> ->]; [lia|]. by rewrite He.
Qed.

(** The state after any sequence of requests. *)
Inductive combo_steps : ComboState -> ComboState -> Prop :=
| combo_refl s : combo_steps s s
| combo_request s a b s' : combo_steps (GetComboCommandId a b s).2 s' -> combo_steps s s'.

Lemma combo_steps_ok s s' : combo_steps s s' -> combo_ok s -> combo_ok s' /\ combo_extends s s'.
Proof.
  induction 1 as [s|s a b s' _ IH]; intros Hok; [by split|].
  pose proof (GetComboCommandId_ok a b s Hok) as H.
  destruct (GetComboCommandId a b s) as [r s1]. cbn in IH. destruct H as (Hok1 & He1 & _).
  destruct (IH Hok1) as [Hok' He']. split; [done|]. by transitivity s1.
Qed.

(** * Serialization *)
Lemma words_lookup (ks : list ComboCidKeyData) i : 0 <= i < len ks ->
  let ws := concat ((fun k => [cmin k; cmax k]) <$> ks) in
  len ws = 2 * len ks /\ getd 0 ws (2 * i) = cmin (getd garbage ks i)
  /\ getd 0 ws (2 * i + 1) = cmax (getd garbage ks i).
Proof.
  revert i. induction ks as [|k ks IH]; intros i Hi; [unfold len in Hi; cbn in Hi; lia|].
  rewrite len_cons in *. cbn [fmap list_fmap concat]. 
  set (ws := concat ((fun k => [cmin k; cmax k]) <$> ks)) in *.
  assert (len ws = 2 * len ks) as Hl.
  { clear IH Hi. subst ws. induction ks as [|k' ks IH]; [done|]. cbn [fmap list_fmap concat].
    rewrite len_app, !len_cons, len_nil. lia. }
  assert (forall j, 2 <= j -> getd 0 ([cmin k; cmax k] ++ ws) j = getd 0 ws (j - 2)) as Hj.
  { intros j Hj. rewrite getd_app by lia. rewrite !len_cons, len_nil.
    destruct (Z.ltb_spec j (1 + (1 + 0))); [lia|]. done. }
  rewrite len_app, !len_cons, len_nil. split; [lia|].
  destruct (Z.eq_dec i 0) as [->|Hne]; [done|].
  assert (getd garbage (k :: ks) i = getd garbage ks (i - 1)) as ->.
  { change (k :: ks) with ([k] ++ ks). rewrite getd_app by lia. rewrite len_cons, len_nil.
    destruct (Z.ltb_spec i (1 + 0)); [lia|]. done. }
  destruct (IH (i - 1) ltac:(lia)) as (_ & H1 & H2). rewrite !Hj by lia.
  replace (2 * i - 2) with (2 * (i - 1)) by lia. replace (2 * i + 1 - 2) with (2 * (i - 1) + 1) by lia.
  done.
Qed.

(** A restored prefix of the pairs of [s]. *)
Definition restored (s : ComboState) (i : Z) (s' : ComboState) : Prop :=
  combo_ok s' /\ usedComboCids s' = i
  /\ forall j, 0 <= j < i -> getd garbage (comboCids s') j = getd garbage (comboCids s) j.

(** * Theorems *)

(** C17. HeapTupleHeaderAdjustCmax gives a combo command id for a tuple of our
    own transaction as long as there is room in the array, and that id, stored
    with HeapTupleHeaderSetCmax in a header whose updater (directly or through
    a MultiXact) is also ours, reads back as the tuple's cmin and as the cmax
    given, in that state and after any number of further requests, also failed
    ones. *)
Theorem combo_cid_roundtrip IsCurrent Members t cm s n km xmax infomask u :
  combo_ok s -> size_ok n -> usedComboCids s < n ->
  HeapTupleHeaderXminCommitted t = false -> IsCurrent (t_xmin t) = true ->
  HeapTupleHeaderGetCmin IsCurrent t s = Ok km ->
  has infomask HEAP_MOVED = false -> has infomask HEAP_XMIN_COMMITTED = false ->
  HeapTupleHeaderGetUpdateXid Members
    {| t_xmin := t_xmin t; t_xmax := xmax; t_field3 := t_field3 t; t_ctid := t_ctid t;
       t_infomask := infomask |} = Ok u ->
  IsCurrent u = true ->
  exists cid s', HeapTupleHeaderAdjustCmax IsCurrent t cm s = (Ok (cid, true), s')
  /\ forall s'', combo_steps s' s'' ->
     let t' := HeapTupleHeaderSetCmax cid true
                 {| t_xmin := t_xmin t; t_xmax := xmax; t_field3 := t_field3 t; t_ctid := t_ctid t;
                    t_infomask := infomask |} in
     HeapTupleHeaderGetCmin IsCurrent t' s'' = Ok km
     /\ HeapTupleHeaderGetCmax IsCurrent Members t' s'' = Ok cm.
Proof.
  intros Hok Hn Hroom Hnc Hcur Ek Hnm Hnf Hux Hcx. unfold HeapTupleHeaderAdjustCmax.
  unfold HeapTupleHeaderGetRawXmin. rewrite Hnc, Hcur, Ek. cbn [negb andb].
  pose proof (GetComboCommandId_ok km cm s Hok) as Hg.
  destruct (GetComboCommandId_room km cm s n Hok Hn Hroom) as (c & s1 & E). rewrite E in Hg |- *.
  exists c, s1. split; [done|]. intros s'' Hst. cbv zeta.
  set (t' := HeapTupleHeaderSetCmax c true _). destruct Hg as (Hok1 & _ & Hc & Hkey & _).
  destruct (combo_steps_ok _ _ Hst Hok1) as [Hok2 Hext].
  destruct (GetReal_later c s1 s'' Hok2 Hext Hc) as [Hmin Hmax]. rewrite Hkey in Hmin, Hmax.
  assert (has (t_infomask t') HEAP_MOVED = false /\ has (t_infomask t') HEAP_COMBOCID = true
          /\ has (t_infomask t') HEAP_XMIN_COMMITTED = false) as (Hm & Hcc & Hxc).
  { unfold t', HeapTupleHeaderSetCmax. cbn [t_infomask]. rewrite !has_lor, Hnm, Hnf.
    split; [done|]. split; [apply orb_true_r|done]. }
  unfold HeapTupleHeaderGetCmin, HeapTupleHeaderGetCmax, HeapTupleHeaderGetRawCommandId, HeapTupleHeaderGetXmin.
  assert (HeapTupleHeaderGetUpdateXid Members t' = Ok u) as ->
    by (unfold t'; by rewrite GetUpdateXid_SetCmax).
  rewrite Hm, Hcc, (proj2 (xmin_bits t')), Hxc, andb_false_r. cbn [negb].
  unfold HeapTupleHeaderGetRawXmin. change (t_xmin t') with (t_xmin t). change (t_field3 t') with c.
  rewrite Hcur. cbn [Assert mbind res_bind]. rewrite Hcx. cbn [Assert mbind res_bind]. done.
Qed.

Definition own_tuple : HeapTupleHeaderData :=
  {| t_xmin := 700; t_xmax := 0; t_field3 := 3; t_ctid := {| ip_blkid := 0; ip_posid := 1 |};
     t_infomask := HEAP_XMAX_INVALID |}.

(** MultiXact 9000: the lock of 650 and the update of 700. *)
Definition demo_members (multi : Z) (_ : bool) : option (list MultiXactMember) :=
  if multi =? 9000
  then Some [{| mx_xid := 650; mx_status := MultiXactStatusForKeyShare |};
             {| mx_xid := 700; mx_status := MultiXactStatusNoKeyUpdate |}]
  else None.

Lemma combo_cid_roundtrip_witness :
  exists cid s', HeapTupleHeaderAdjustCmax (Z.eqb 700) own_tuple 5 no_combo = (Ok (cid, true), s')
  /\ forall s'', combo_steps s' s'' ->
     let t' := HeapTupleHeaderSetCmax cid true
                 {| t_xmin := 700; t_xmax := 9000; t_field3 := 3; t_ctid := t_ctid own_tuple;
                    t_infomask := HEAP_XMAX_IS_MULTI |} in
     HeapTupleHeaderGetCmin (Z.eqb 700) t' s'' = Ok 3
     /\ HeapTupleHeaderGetCmax (Z.eqb 700) demo_members t' s'' = Ok 5.
Proof.
  apply (combo_cid_roundtrip (Z.eqb 700) demo_members own_tuple 5 no_combo 100 3 9000
           HEAP_XMAX_IS_MULTI 700);
    try (vm_compute; reflexivity).
  apply size_ok_init.
Defined.

(** A worker that restores the serialized state has the same combo command ids
    with the same meanings, and none of its checks fails. *)
Theorem combo_restore s : combo_ok s ->
  wp (words ← SerializeComboCIDState (EstimateComboCIDStateSpace s) s; RestoreComboCIDState words no_combo)
     (restored s (usedComboCids s)).
Proof.
  intros Hok. unfold SerializeComboCIDState, EstimateComboCIDStateSpace.
  rewrite Z.ltb_irrefl. cbn [mbind res_bind].
  set (used := usedComboCids s). set (ks := take (Z.to_nat used) (comboCids s)).
  set (ws := concat ((fun k => [cmin k; cmax k]) <$> ks)).
  assert (0 <= used /\ len ks = used /\ (0 < used -> exists n, size_ok n /\ used <= n)
          /\ forall i, 0 <= i < used -> getd garbage ks i = getd garbage (comboCids s) i
               /\ forall j, 0 <= j < i -> getd garbage (comboCids s) j <> getd garbage (comboCids s) i)
    as (H0 & Hlen & Hsz & Hks).
  { unfold combo_ok in Hok. destruct (comboHash s) as [h|]; [|subst used ks; rewrite Hok; cbn; repeat split; lia].
    destruct Hok as (Hu & Hsz & Hl & Hh). split; [lia|]. split; [|split].
    - unfold ks, len in *. rewrite length_take. lia.
    - intros _. exists (sizeComboCids s). split; [done|]. unfold used. lia.
    - intros i Hi. split.
      + unfold ks, getd, len in *. rewrite lookup_take_lt by lia. done.
      + intros j Hj E. set (k := getd garbage (comboCids s) i) in *.
        assert (h !! k = Some i) as Ei by (apply Hh; split; [lia|done]).
        assert (h !! k = Some j) as Ej by (apply Hh; split; [lia|done]). rewrite Ei in Ej. injection Ej. lia. }
  unfold RestoreComboCIDState. change (rd (used :: ws) 0) with (Ok used). cbn [mbind res_bind].
  apply wp_loop_state, (wp_for_up (restored s)); [done| | |by intros t Ht].
  { split; [done|]. split; [done|]. lia. }
  intros i t Hi (Hokt & Hut & Het).
  destruct (words_lookup ks i ltac:(lia)) as (Hlw & H1 & H2). fold ws in Hlw, H1, H2.
  assert (forall j, 0 <= j -> getd 0 (used :: ws) (1 + j) = getd 0 ws j) as Hcons.
  { intros j Hj. change (used :: ws) with ([used] ++ ws). rewrite getd_app by lia.
    rewrite len_cons, len_nil. destruct (Z.ltb_spec (1 + j) (1 + 0)); [lia|]. f_equal. lia. }
  apply wp_bind, (wp_rd 0); [rewrite len_cons; lia|].
  apply wp_bind, (wp_rd 0); [rewrite len_cons; lia|].
  replace (2 + 2 * i) with (1 + (2 * i + 1)) by lia. rewrite !Hcons by lia. rewrite H1, H2.
  destruct (Hks i Hi) as [-> Hdist]. set (k := getd garbage (comboCids s) i) in *.
  destruct (Hsz ltac:(lia)) as (n & Hn & Hun).
  pose proof (GetComboCommandId_ok (cmin k) (cmax k) t Hokt) as Hg.
  destruct (GetComboCommandId_room (cmin k) (cmax k) t n Hokt Hn ltac:(lia)) as (c & t1 & E).
  rewrite E in Hg |- *. destruct Hg as (Hok1 & Hext & Hc & Hkey & Hcase).
  assert (mkKey (cmin k) (cmax k) = k) as Ek by (by destruct k). rewrite Ek in *.
  assert (c = i /\ usedComboCids t1 = i + 1) as [-> Hu1].
  { destruct Hcase as [[Hlt _]|(-> & -> & _)]; [|lia]. exfalso.
    destruct Hext as [_ He]. rewrite He, Het in Hkey by lia. apply (Hdist c); [lia|done]. }
  rewrite Z.eqb_refl. cbn [negb]. apply wp_Ok. split; [done|]. split; [done|].
  intros j Hj. destruct Hext as [_ He]. destruct (Z.eq_dec j i) as [->|]; [done|].
  rewrite He, Het by lia. done.
Qed.
