(* ===== verification/Snapshot.v ===== *)
(** Snapshots (src/postgresql/src/include/utils/snapshot.h) and the test
    whether a transaction was running when one was taken
    ([XidInMVCCSnapshot] of src/postgresql/src/backend/utils/time/snapmgr.c). *)
From S2P Require Import Prelude.
From S2P Require Import Xid.
From S2P Require Import Subtrans.
Open Scope string_scope.
Open Scope list_scope.
Open Scope Z_scope.

Inductive SnapshotType :=
| SNAPSHOT_MVCC | SNAPSHOT_SELF | SNAPSHOT_ANY | SNAPSHOT_TOAST | SNAPSHOT_DIRTY
| SNAPSHOT_HISTORIC_MVCC | SNAPSHOT_NON_VACUUMABLE.

(** [xip] and [subxip] hold their first [xcnt] and [subxcnt] elements; the
    fields for reference counting and old-snapshot handling are left out.
    [vistest] names the horizon of a NON_VACUUMABLE snapshot. *)
Record SnapshotData := {
  snapshot_type : SnapshotType;
  xmin : Z;
  xmax : Z;
  xip : list Z;
  subxip : list Z;
  suboverflowed : bool;
  takenDuringRecovery : bool;
  curcid : Z;
  speculativeToken : Z;
  vistest : Z
}.

(** The loops over the arrays. *)
Fixpoint xid_in (xid : Z) (xs : list Z) : bool :=
  match xs with
  | [] => false
  | x :: xs => if TransactionIdEquals xid x then true else xid_in xid xs
  end.

Definition XidInMVCCSnapshot (TransactionXmin : Z) (subtrans : SubTransCtl) (fuel : nat)
  (xid : Z) (snapshot : SnapshotData) : res bool :=
  if TransactionIdPrecedes xid (xmin snapshot) then Ok false
  else if TransactionIdFollowsOrEquals xid (xmax snapshot) then Ok true
  else if negb (takenDuringRecovery snapshot) then
    if negb (suboverflowed snapshot) then
      if xid_in xid (subxip snapshot) then Ok true
      else Ok (xid_in xid (xip snapshot))
    else
      xid ← SubTransGetTopmostTransaction TransactionXmin fuel xid subtrans;
      if TransactionIdPrecedes xid (xmin snapshot) then Ok false
      else Ok (xid_in xid (xip snapshot))
  else
    if suboverflowed snapshot then
      xid ← SubTransGetTopmostTransaction TransactionXmin fuel xid subtrans;
      if TransactionIdPrecedes xid (xmin snapshot) then Ok false
      else Ok (xid_in xid (subxip snapshot))
    else Ok (xid_in xid (subxip snapshot)).

Lemma xid_in_elem xid xs : xid_in xid xs = true <-> xid ∈ xs.
Proof.
  induction xs as [|x xs IH]; cbn; [split; [done|intros H; by apply not_elem_of_nil in H]|].
  unfold TransactionIdEquals. rewrite elem_of_cons, <- IH.
  destruct (Z.eqb_spec xid x); split; intuition.
Qed.
