(* ===== verification/Visibility.v ===== *)
(** Tuple visibility (src/postgresql/src/backend/access/heap/heapam_visibility.c):
    every routine of the file, with the parts of multixact.c and heapam.c that
    it calls ([MultiXactIdIsRunning]).

    The routines read state that other processes change while they run: the
    proc array, the commit log, the LSNs of the log and of the page.  Each such
    look-up is a field of [Backend] that takes the moment of the look-up, and
    the clock of the state advances with every look-up, so two look-ups never
    happen at the same moment and anything may happen between them.  What the
    backend knows about itself (its own transaction ids, its snapshots, its
    combo command ids) does not change during a call.

    A routine changes the header's hint bits, marks the buffer dirty and, for
    SNAPSHOT_DIRTY, writes into the snapshot.  A failed Assert is [UB], an ERROR
    of a callee is [Err]. *)
From S2P Require Import Prelude.
From S2P Require Import Xid.
From S2P Require Import HeapTuple.
From S2P Require Import ComboCid.
From S2P Require Import Snapshot.
Open Scope string_scope.
Open Scope list_scope.
Open Scope Z_scope.

(** * What the routines call

    [IsCurrent] is TransactionIdIsCurrentTransactionId, [InSnapshot]
    XidInMVCCSnapshot, [IsInProgress] TransactionIdIsInProgress, [DidCommit]
    TransactionIdDidCommit, [CommitLSN] TransactionIdGetCommitLSN; the members
    of a MultiXact never change, and [Members] is [None] where
    GetMultiXactIdMembers raises an ERROR.  [ResolveCids] is
    ResolveCminCmaxDuringDecoding at the tuple in question. *)
Record Backend := {
  IsCurrent : Z -> bool;
  InSnapshot : SnapshotData -> Z -> bool;
  IsInProgress : nat -> Z -> bool;
  DidCommit : nat -> Z -> bool;
  Members : Z -> bool -> option (list MultiXactMember);
  CommitLSN : nat -> Z -> Z;
  XLogNeedsFlush : nat -> Z -> bool;
  BufferIsPermanent : bool;
  BufferGetLSNAtomic : nat -> Z;
  GlobalVisTestIsRemovableXid : nat -> Z -> Z -> bool;
  ComboCids : ComboState;
  ResolveCids : option (Z * Z)
}.

(** * State and effects *)
Record VState := mkV { tuple : HeapTupleHeaderData; snapshot : SnapshotData; dirty : bool; now : nat }.

Definition V (A : Type) : Type := VState -> res (A * VState).

#[export] Instance V_ret : MRet V := fun A a s => Ok (a, s).
#[export] Instance V_bind : MBind V := fun A B k m s => '(a, s) ← m s; k a s.

Definition lift {A} (m : res A) : V A := fun s => a ← m; Ok (a, s).
Definition get {A} (f : VState -> A) : V A := fun s => Ok (f s, s).
Definition VAssert (b : bool) (what : string) : V unit := lift (Assert b what).

(** A look-up of shared state: it happens now, and time goes on. *)
Definition ask {A} (f : nat -> A) : V A :=
  fun s => Ok (f (now s), mkV (tuple s) (snapshot s) (dirty s) (S (now s))).

Definition set_snapshot (f : SnapshotData -> SnapshotData) : V unit :=
  fun s => Ok (tt, mkV (tuple s) (f (snapshot s)) (dirty s) (now s)).

(** [mask & t_infomask] now. *)
Definition bit (mask : Z) : V bool := get (fun s => has (t_infomask (tuple s)) mask).

(** A block that may return from the routine: [Some r] is [return r], [None]
    falls through to what follows. *)
Definition returns {R} (r : R) : V (option R) := mret (Some r).
Definition falls {R} : V (option R) := mret None.
Definition block_then {R} (m : V (option R)) (k : V R) : V R :=
  o ← m; match o with Some r => mret r | None => k end.

Declare Scope vis_scope.
Notation "m '>>?' k" := (block_then m k) (at level 60, right associativity) : vis_scope.
Notation "'If' m 'then' a 'else' b" := (c ← m; if (c : bool) then a else b)
  (at level 10, m at level 99, a at level 200, b at level 200) : vis_scope.
Notation "'Not' m" := (b ← m; mret (negb b)) (at level 75) : vis_scope.
Open Scope vis_scope.

Section routines.
Context (B : Backend).

(** * Hint bits *)
Definition SetHintBits (infomask xid : Z) : V unit :=
  o ← (if TransactionIdIsValid xid then
         commitLSN ← ask (fun t => CommitLSN B t xid);
         If (if BufferIsPermanent B then ask (fun t => XLogNeedsFlush B t commitLSN) else mret false)
         then If (pagelsn ← ask (BufferGetLSNAtomic B); mret (pagelsn <? commitLSN))
              then returns tt
              else falls
         else falls
       else falls);
  match o with
  | Some _ => mret tt
  | None => fun s => Ok (tt, mkV (set_infomask (Z.lor (t_infomask (tuple s)) infomask) (tuple s))
                               (snapshot s) true (now s))
  end.

Definition HeapTupleSetHintBits : Z -> Z -> V unit := SetHintBits.

(** * Callees *)
Definition isCurrent (xid : Z) : V bool := mret (IsCurrent B xid).
Definition inProgress (xid : Z) : V bool := ask (fun t => IsInProgress B t xid).
Definition didCommit (xid : Z) : V bool := ask (fun t => DidCommit B t xid).
Definition inSnapshot (xid : Z) : V bool := get (fun s => InSnapshot B (snapshot s) xid).
Definition rawXmin : V Z := get (fun s => HeapTupleHeaderGetRawXmin (tuple s)).
Definition rawXmax : V Z := get (fun s => HeapTupleHeaderGetRawXmax (tuple s)).
Definition xvacOf : V Z := get (fun s => HeapTupleHeaderGetXvac (tuple s)).
Definition lockedOnly : V bool := get (fun s => HEAP_XMAX_IS_LOCKED_ONLY (t_infomask (tuple s))).

(** The loops of [MultiXactIdIsRunning]. *)
Fixpoint any_current (ms : list MultiXactMember) : V bool :=
  match ms with
  | [] => mret false
  | m :: ms => If isCurrent (mx_xid m) then mret true else any_current ms
  end.

Fixpoint any_running (ms : list MultiXactMember) : V bool :=
  match ms with
  | [] => mret false
  | m :: ms => If inProgress (mx_xid m) then mret true else any_running ms
  end.

Definition MultiXactIdIsRunning (multi : Z) (isLockOnly : bool) : V bool :=
  members ← lift (GetMultiXactIdMembers (Members B) multi isLockOnly);
  match members with
  | [] => mret false
  | _ :: _ =>
      If any_current members then mret true else any_running members
  end.

(** [xmax = HeapTupleGetUpdateXid(tuple)] with the Assert that follows it. *)
Definition updateXid : V Z :=
  t ← get tuple;
  xmax ← lift (HeapTupleGetUpdateXid (Members B) t);
  VAssert (TransactionIdIsValid xmax) "TransactionIdIsValid(xmax)";;
  mret xmax.

Definition getCmin : V Z :=
  t ← get tuple; lift (HeapTupleHeaderGetCmin (IsCurrent B) t (ComboCids B)).
Definition getCmax : V Z :=
  t ← get tuple;
  lift (HeapTupleHeaderGetCmax (IsCurrent B) (Members B) t (ComboCids B)).

Section tuple.
Context (htup : HeapTupleData).

Definition assert_htup : V unit :=
  VAssert (ItemPointerIsValid (t_self htup)) "ItemPointerIsValid(&htup->t_self)";;
  VAssert (negb (t_tableOid htup =? 0)) "htup->t_tableOid != InvalidOid".

(** The pre-9.0 VACUUM FULL blocks, which differ between the routines only in
    the test for a running transaction and in the value returned. *)
Definition moved_off {R} (running : Z -> V bool) (invisible : R) : V (option R) :=
  xvac ← xvacOf;
  If isCurrent xvac then returns invisible
  else If Not running xvac then
         If didCommit xvac then SetHintBits HEAP_XMIN_INVALID InvalidTransactionId;; returns invisible
         else SetHintBits HEAP_XMIN_COMMITTED InvalidTransactionId;; falls
       else falls.

Definition moved_in {R} (running : Z -> V bool) (invisible : R) : V (option R) :=
  xvac ← xvacOf;
  If Not isCurrent xvac then
    If running xvac then returns invisible
    else If didCommit xvac then SetHintBits HEAP_XMIN_COMMITTED InvalidTransactionId;; falls
         else SetHintBits HEAP_XMIN_INVALID InvalidTransactionId;; returns invisible
  else falls.

(** * HeapTupleSatisfiesSelf *)
(** What is known of the inserter: an answer, or the inserter committed. *)
Definition Self_xmin : V (option bool) :=
  If Not get (fun s => HeapTupleHeaderXminCommitted (tuple s)) then
    If get (fun s => HeapTupleHeaderXminInvalid (tuple s)) then returns false
    else If bit HEAP_MOVED_OFF then moved_off inProgress false
    else If bit HEAP_MOVED_IN then moved_in inProgress false
    else If (x ← rawXmin; isCurrent x) then
           If bit HEAP_XMAX_INVALID then returns true
           else If lockedOnly then returns true
           else If bit HEAP_XMAX_IS_MULTI then
                  xmax ← updateXid;
                  If Not isCurrent xmax then returns true else returns false
           else If Not (x ← rawXmax; isCurrent x) then
                  SetHintBits HEAP_XMAX_INVALID InvalidTransactionId;; returns true
           else returns false
    else If (x ← rawXmin; inProgress x) then returns false
    else If (x ← rawXmin; didCommit x) then
           x ← rawXmin; SetHintBits HEAP_XMIN_COMMITTED x;; falls
    else SetHintBits HEAP_XMIN_INVALID InvalidTransactionId;; returns false
  else falls.

(** By here, the inserting transaction has committed. *)
Definition Self_xmax : V bool :=
  If bit HEAP_XMAX_INVALID then mret true
  else If bit HEAP_XMAX_COMMITTED then
         If lockedOnly then mret true else mret false
  else If bit HEAP_XMAX_IS_MULTI then
         If lockedOnly then mret true
         else
           xmax ← updateXid;
           If isCurrent xmax then mret false
           else If inProgress xmax then mret true
           else If didCommit xmax then mret false
           else mret true
  else If (x ← rawXmax; isCurrent x) then
         If lockedOnly then mret true else mret false
  else If (x ← rawXmax; inProgress x) then mret true
  else If Not (x ← rawXmax; didCommit x) then
         SetHintBits HEAP_XMAX_INVALID InvalidTransactionId;; mret true
  else If lockedOnly then
         SetHintBits HEAP_XMAX_INVALID InvalidTransactionId;; mret true
  else
    x ← rawXmax; SetHintBits HEAP_XMAX_COMMITTED x;; mret false.

Definition HeapTupleSatisfiesSelf : V bool :=
  assert_htup;;
  Self_xmin >>? Self_xmax.

(** * HeapTupleSatisfiesAny *)
Definition HeapTupleSatisfiesAny : V bool := mret true.

(** * HeapTupleSatisfiesToast *)
Definition HeapTupleSatisfiesToast : V bool :=
  assert_htup;;
  (If Not get (fun s => HeapTupleHeaderXminCommitted (tuple s)) then
     If get (fun s => HeapTupleHeaderXminInvalid (tuple s)) then returns false
     else If bit HEAP_MOVED_OFF then moved_off inProgress false
     else If bit HEAP_MOVED_IN then moved_in inProgress false
     else If get (fun s => negb (TransactionIdIsValid (HeapTupleHeaderGetXmin (tuple s))))
          then returns false
     else falls
   else falls)
  >>? mret true.

(** * HeapTupleSatisfiesUpdate *)
Inductive TM_Result :=
| TM_Ok | TM_Invisible | TM_SelfModified | TM_Updated | TM_Deleted | TM_BeingModified | TM_WouldBlock.

(** Whether the item pointer of the tuple shows an update rather than a delete. *)
Definition updated_or_deleted : V TM_Result :=
  c ← get (fun s => t_ctid (tuple s));
  VAssert (ItemPointerIsValid (t_self htup)) "ItemPointerIsValid(pointer1)";;
  VAssert (ItemPointerIsValid c) "ItemPointerIsValid(pointer2)";;
  if negb (ItemPointerEquals (t_self htup) c) then mret TM_Updated else mret TM_Deleted.

(** What is known of the inserter: an answer, or the inserter committed. *)
Definition Update_xmin (cid : Z) : V (option TM_Result) :=
  If Not get (fun s => HeapTupleHeaderXminCommitted (tuple s)) then
    If get (fun s => HeapTupleHeaderXminInvalid (tuple s)) then returns TM_Invisible
    else If bit HEAP_MOVED_OFF then moved_off inProgress TM_Invisible
    else If bit HEAP_MOVED_IN then moved_in inProgress TM_Invisible
    else If (x ← rawXmin; isCurrent x) then
           If (c ← getCmin; mret (cid <=? c)) then returns TM_Invisible
           else If bit HEAP_XMAX_INVALID then returns TM_Ok
           else If lockedOnly then
                  xmax ← rawXmax;
                  If bit HEAP_XMAX_IS_MULTI then
                    If MultiXactIdIsRunning xmax true then returns TM_BeingModified
                    else returns TM_Ok
                  else If Not inProgress xmax then returns TM_Ok
                  else returns TM_BeingModified
           else If bit HEAP_XMAX_IS_MULTI then
                  xmax ← updateXid;
                  If Not isCurrent xmax then
                    If (x ← rawXmax; MultiXactIdIsRunning x false) then returns TM_BeingModified
                    else returns TM_Ok
                  else If (c ← getCmax; mret (cid <=? c)) then returns TM_SelfModified
                  else returns TM_Invisible
           else If Not (x ← rawXmax; isCurrent x) then
                  SetHintBits HEAP_XMAX_INVALID InvalidTransactionId;; returns TM_Ok
           else If (c ← getCmax; mret (cid <=? c)) then returns TM_SelfModified
           else returns TM_Invisible
    else If (x ← rawXmin; inProgress x) then returns TM_Invisible
    else If (x ← rawXmin; didCommit x) then
           x ← rawXmin; SetHintBits HEAP_XMIN_COMMITTED x;; falls
    else SetHintBits HEAP_XMIN_INVALID InvalidTransactionId;; returns TM_Invisible
  else falls.

(** By here, the inserting transaction has committed. *)
Definition Update_xmax (cid : Z) : V TM_Result :=
  If bit HEAP_XMAX_INVALID then mret TM_Ok
  else If bit HEAP_XMAX_COMMITTED then
         If lockedOnly then mret TM_Ok else updated_or_deleted
  else If bit HEAP_XMAX_IS_MULTI then
         If get (fun s => HEAP_LOCKED_UPGRADED (t_infomask (tuple s))) then mret TM_Ok
         else If lockedOnly then
                If (x ← rawXmax; MultiXactIdIsRunning x true) then mret TM_BeingModified
                else SetHintBits HEAP_XMAX_INVALID InvalidTransactionId;; mret TM_Ok
         else
           t ← get tuple;
           xmax ← lift (HeapTupleGetUpdateXid (Members B) t);
           (if negb (TransactionIdIsValid xmax)
            then If (x ← rawXmax; MultiXactIdIsRunning x false) then returns TM_BeingModified else falls
            else falls)
           >>? (VAssert (TransactionIdIsValid xmax) "TransactionIdIsValid(xmax)";;
                If isCurrent xmax then
                  If (c ← getCmax; mret (cid <=? c)) then mret TM_SelfModified else mret TM_Invisible
                else If (x ← rawXmax; MultiXactIdIsRunning x false) then mret TM_BeingModified
                else If didCommit xmax then updated_or_deleted
                else If Not (x ← rawXmax; MultiXactIdIsRunning x false) then
                       SetHintBits HEAP_XMAX_INVALID InvalidTransactionId;; mret TM_Ok
                else mret TM_BeingModified)
  else If (x ← rawXmax; isCurrent x) then
         If lockedOnly then mret TM_BeingModified
         else If (c ← getCmax; mret (cid <=? c)) then mret TM_SelfModified
         else mret TM_Invisible
  else If (x ← rawXmax; inProgress x) then mret TM_BeingModified
  else If Not (x ← rawXmax; didCommit x) then
         SetHintBits HEAP_XMAX_INVALID InvalidTransactionId;; mret TM_Ok
  else If lockedOnly then
         SetHintBits HEAP_XMAX_INVALID InvalidTransactionId;; mret TM_Ok
  else
    x ← rawXmax; SetHintBits HEAP_XMAX_COMMITTED x;; updated_or_deleted.

Definition HeapTupleSatisfiesUpdate (cid : Z) : V TM_Result :=
  assert_htup;;
  Update_xmin cid >>? Update_xmax cid.

(** * HeapTupleSatisfiesDirty *)
Definition report_xids (x m tok : Z) (s : SnapshotData) : SnapshotData :=
  {| snapshot_type := snapshot_type s; xmin := x; xmax := m; xip := xip s; subxip := subxip s;
     suboverflowed := suboverflowed s; takenDuringRecovery := takenDuringRecovery s;
     curcid := curcid s; speculativeToken := tok; vistest := vistest s |}.

(** [snapshot->xmin = x] and so on. *)
Definition set_snap_xmin (x : Z) : V unit :=
  set_snapshot (fun s => report_xids x (xmax s) (speculativeToken s) s).
Definition set_snap_xmax (x : Z) : V unit :=
  set_snapshot (fun s => report_xids (xmin s) x (speculativeToken s) s).
Definition set_snap_token (x : Z) : V unit :=
  set_snapshot (fun s => report_xids (xmin s) (xmax s) x s).

(** What is known of the inserter: an answer, or the inserter committed. *)
Definition Dirty_xmin : V (option bool) :=
  If Not get (fun s => HeapTupleHeaderXminCommitted (tuple s)) then
    If get (fun s => HeapTupleHeaderXminInvalid (tuple s)) then returns false
    else If bit HEAP_MOVED_OFF then moved_off inProgress false
    else If bit HEAP_MOVED_IN then moved_in inProgress false
    else If (x ← rawXmin; isCurrent x) then
           If bit HEAP_XMAX_INVALID then returns true
           else If lockedOnly then returns true
           else If bit HEAP_XMAX_IS_MULTI then
                  xmax ← updateXid;
                  If Not isCurrent xmax then returns true else returns false
           else If Not (x ← rawXmax; isCurrent x) then
                  SetHintBits HEAP_XMAX_INVALID InvalidTransactionId;; returns true
           else returns false
    else If (x ← rawXmin; inProgress x) then
           (If get (fun s => HeapTupleHeaderIsSpeculative (tuple s)) then
              tok ← get (fun s => HeapTupleHeaderGetSpeculativeToken (tuple s));
              set_snap_token tok;;
              VAssert (negb (tok =? 0)) "snapshot->speculativeToken != 0"
            else mret tt);;
           x ← rawXmin; set_snap_xmin x;;
           returns true
    else If (x ← rawXmin; didCommit x) then
           x ← rawXmin; SetHintBits HEAP_XMIN_COMMITTED x;; falls
    else SetHintBits HEAP_XMIN_INVALID InvalidTransactionId;; returns false
  else falls.

(** By here, the inserting transaction has committed. *)
Definition Dirty_xmax : V bool :=
  If bit HEAP_XMAX_INVALID then mret true
  else If bit HEAP_XMAX_COMMITTED then
         If lockedOnly then mret true else mret false
  else If bit HEAP_XMAX_IS_MULTI then
         If lockedOnly then mret true
         else
           xmax ← updateXid;
           If isCurrent xmax then mret false
           else If inProgress xmax then set_snap_xmax xmax;; mret true
           else If didCommit xmax then mret false
           else mret true
  else If (x ← rawXmax; isCurrent x) then
         If lockedOnly then mret true else mret false
  else If (x ← rawXmax; inProgress x) then
         (If Not lockedOnly then x ← rawXmax; set_snap_xmax x else mret tt);;
         mret true
  else If Not (x ← rawXmax; didCommit x) then
         SetHintBits HEAP_XMAX_INVALID InvalidTransactionId;; mret true
  else If lockedOnly then
         SetHintBits HEAP_XMAX_INVALID InvalidTransactionId;; mret true
  else
    x ← rawXmax; SetHintBits HEAP_XMAX_COMMITTED x;; mret false.

Definition HeapTupleSatisfiesDirty : V bool :=
  assert_htup;;
  set_snap_xmax InvalidTransactionId;;
  set_snap_xmin InvalidTransactionId;;
  set_snap_token 0;;
  Dirty_xmin >>? Dirty_xmax.

(** * HeapTupleSatisfiesMVCC *)
Definition snapCid : V Z := get (fun s => curcid (snapshot s)).

(** [HeapTupleHeaderGetCmax(tuple) >= snapshot->curcid] *)
Definition deleted_after_scan : V bool :=
  c ← getCmax; cid ← snapCid; mret (cid <=? c).

(** What is known of the inserter: an answer, or the inserter committed. *)
Definition MVCC_xmin : V (option bool) :=
  If Not get (fun s => HeapTupleHeaderXminCommitted (tuple s)) then
    If get (fun s => HeapTupleHeaderXminInvalid (tuple s)) then returns false
    else If bit HEAP_MOVED_OFF then moved_off inSnapshot false
    else If bit HEAP_MOVED_IN then moved_in inSnapshot false
    else If (x ← rawXmin; isCurrent x) then
           If (c ← getCmin; cid ← snapCid; mret (cid <=? c)) then returns false
           else If bit HEAP_XMAX_INVALID then returns true
           else If lockedOnly then returns true
           else If bit HEAP_XMAX_IS_MULTI then
                  xmax ← updateXid;
                  If Not isCurrent xmax then returns true
                  else If deleted_after_scan then returns true
                  else returns false
           else If Not (x ← rawXmax; isCurrent x) then
                  SetHintBits HEAP_XMAX_INVALID InvalidTransactionId;; returns true
           else If deleted_after_scan then returns true
           else returns false
    else If (x ← rawXmin; inSnapshot x) then returns false
    else If (x ← rawXmin; didCommit x) then
           x ← rawXmin; SetHintBits HEAP_XMIN_COMMITTED x;; falls
    else SetHintBits HEAP_XMIN_INVALID InvalidTransactionId;; returns false
  else
    If get (fun s => negb (HeapTupleHeaderXminFrozen (tuple s))) then
      If (x ← rawXmin; inSnapshot x) then returns false else falls
    else falls.

(** By here, the inserting transaction has committed. *)
Definition MVCC_xmax : V bool :=
  If bit HEAP_XMAX_INVALID then mret true
  else If lockedOnly then mret true
  else If bit HEAP_XMAX_IS_MULTI then
         l ← lockedOnly;
         VAssert (negb l) "!HEAP_XMAX_IS_LOCKED_ONLY(tuple->t_infomask)";;
         xmax ← updateXid;
         If isCurrent xmax then
           If deleted_after_scan then mret true else mret false
         else If inSnapshot xmax then mret true
         else If didCommit xmax then mret false
         else mret true
  else
    (If Not bit HEAP_XMAX_COMMITTED then
       If (x ← rawXmax; isCurrent x) then
         If deleted_after_scan then returns true else returns false
       else If (x ← rawXmax; inSnapshot x) then returns true
       else If Not (x ← rawXmax; didCommit x) then
              SetHintBits HEAP_XMAX_INVALID InvalidTransactionId;; returns true
       else
         x ← rawXmax; SetHintBits HEAP_XMAX_COMMITTED x;; falls
     else If (x ← rawXmax; inSnapshot x) then returns true else falls)
    >>? mret false.

Definition HeapTupleSatisfiesMVCC : V bool :=
  assert_htup;;
  MVCC_xmin >>? MVCC_xmax.

(** * HeapTupleHeaderIsOnlyLocked *)
Definition HeapTupleHeaderIsOnlyLocked : V bool :=
  If bit HEAP_XMAX_INVALID then mret true
  else If bit HEAP_XMAX_LOCK_ONLY then mret true
  else If (x ← rawXmax; mret (negb (TransactionIdIsValid x))) then mret true
  else If Not bit HEAP_XMAX_IS_MULTI then mret false
  else
    xmax ← updateXid;
    If isCurrent xmax then mret false
    else If inProgress xmax then mret false
    else If didCommit xmax then mret false
    else mret true.

(** * HeapTupleSatisfiesVacuum *)
Inductive HTSV_Result :=
| HEAPTUPLE_DEAD | HEAPTUPLE_LIVE | HEAPTUPLE_RECENTLY_DEAD | HEAPTUPLE_INSERT_IN_PROGRESS
| HEAPTUPLE_DELETE_IN_PROGRESS.

(** The result and [*dead_after]. *)
(** What is known of the inserter: an answer, or the inserter committed. *)
Definition Vacuum_xmin : V (option (HTSV_Result * Z)) :=
  let status r := (r, InvalidTransactionId) in
  If Not get (fun s => HeapTupleHeaderXminCommitted (tuple s)) then
    If get (fun s => HeapTupleHeaderXminInvalid (tuple s)) then returns (status HEAPTUPLE_DEAD)
    else If bit HEAP_MOVED_OFF then
           xvac ← xvacOf;
           If isCurrent xvac then returns (status HEAPTUPLE_DELETE_IN_PROGRESS)
           else If inProgress xvac then returns (status HEAPTUPLE_DELETE_IN_PROGRESS)
           else If didCommit xvac then
                  SetHintBits HEAP_XMIN_INVALID InvalidTransactionId;; returns (status HEAPTUPLE_DEAD)
           else SetHintBits HEAP_XMIN_COMMITTED InvalidTransactionId;; falls
    else If bit HEAP_MOVED_IN then
           xvac ← xvacOf;
           If isCurrent xvac then returns (status HEAPTUPLE_INSERT_IN_PROGRESS)
           else If inProgress xvac then returns (status HEAPTUPLE_INSERT_IN_PROGRESS)
           else If didCommit xvac then SetHintBits HEAP_XMIN_COMMITTED InvalidTransactionId;; falls
           else SetHintBits HEAP_XMIN_INVALID InvalidTransactionId;; returns (status HEAPTUPLE_DEAD)
    else If (x ← rawXmin; isCurrent x) then
           If bit HEAP_XMAX_INVALID then returns (status HEAPTUPLE_INSERT_IN_PROGRESS)
           else If (l ← lockedOnly; if (l : bool) then mret true else HeapTupleHeaderIsOnlyLocked)
                then returns (status HEAPTUPLE_INSERT_IN_PROGRESS)
           else If (t ← get tuple; x ← lift (HeapTupleHeaderGetUpdateXid (Members B) t); isCurrent x)
                then returns (status HEAPTUPLE_DELETE_IN_PROGRESS)
           else returns (status HEAPTUPLE_INSERT_IN_PROGRESS)
    else If (x ← rawXmin; inProgress x) then returns (status HEAPTUPLE_INSERT_IN_PROGRESS)
    else If (x ← rawXmin; didCommit x) then
           x ← rawXmin; SetHintBits HEAP_XMIN_COMMITTED x;; falls
    else SetHintBits HEAP_XMIN_INVALID InvalidTransactionId;; returns (status HEAPTUPLE_DEAD)
  else falls.

(** The inserter committed. *)
Definition Vacuum_xmax : V (HTSV_Result * Z) :=
  let status r := (r, InvalidTransactionId) in
  If bit HEAP_XMAX_INVALID then mret (status HEAPTUPLE_LIVE)
  else If lockedOnly then
         (If Not bit HEAP_XMAX_COMMITTED then
            If bit HEAP_XMAX_IS_MULTI then
              If (u ← get (fun s => HEAP_LOCKED_UPGRADED (t_infomask (tuple s)));
                  if negb u then x ← rawXmax; MultiXactIdIsRunning x true else mret false)
              then returns (status HEAPTUPLE_LIVE)
              else SetHintBits HEAP_XMAX_INVALID InvalidTransactionId;; falls
            else If (x ← rawXmax; inProgress x) then returns (status HEAPTUPLE_LIVE)
            else SetHintBits HEAP_XMAX_INVALID InvalidTransactionId;; falls
          else falls)
         >>? mret (status HEAPTUPLE_LIVE)
  else If bit HEAP_XMAX_IS_MULTI then
         t ← get tuple;
         xmax ← lift (HeapTupleGetUpdateXid (Members B) t);
         l ← lockedOnly;
         VAssert (negb l) "!HEAP_XMAX_IS_LOCKED_ONLY(tuple->t_infomask)";;
         VAssert (TransactionIdIsValid xmax) "TransactionIdIsValid(xmax)";;
         If inProgress xmax then mret (status HEAPTUPLE_DELETE_IN_PROGRESS)
         else If didCommit xmax then mret (HEAPTUPLE_RECENTLY_DEAD, xmax)
         else
           (If Not (x ← rawXmax; MultiXactIdIsRunning x false)
            then SetHintBits HEAP_XMAX_INVALID InvalidTransactionId else mret tt);;
           mret (status HEAPTUPLE_LIVE)
  else
    (If Not bit HEAP_XMAX_COMMITTED then
       If (x ← rawXmax; inProgress x) then returns (status HEAPTUPLE_DELETE_IN_PROGRESS)
       else If (x ← rawXmax; didCommit x) then
              x ← rawXmax; SetHintBits HEAP_XMAX_COMMITTED x;; falls
       else SetHintBits HEAP_XMAX_INVALID InvalidTransactionId;; returns (status HEAPTUPLE_LIVE)
     else falls)
    >>? (x ← rawXmax; mret (HEAPTUPLE_RECENTLY_DEAD, x)).

Definition HeapTupleSatisfiesVacuumHorizon : V (HTSV_Result * Z) :=
  assert_htup;;
  Vacuum_xmin >>? Vacuum_xmax.

Definition HeapTupleSatisfiesVacuum (OldestXmin : Z) : V HTSV_Result :=
  '(r, dead_after) ← HeapTupleSatisfiesVacuumHorizon;
  match r with
  | HEAPTUPLE_RECENTLY_DEAD =>
      VAssert (TransactionIdIsValid dead_after) "TransactionIdIsValid(dead_after)";;
      if TransactionIdPrecedes dead_after OldestXmin then mret HEAPTUPLE_DEAD else mret r
  | _ =>
      VAssert (negb (TransactionIdIsValid dead_after)) "!TransactionIdIsValid(dead_after)";;
      mret r
  end.

Definition HeapTupleSatisfiesNonVacuumable : V bool :=
  '(r, dead_after) ← HeapTupleSatisfiesVacuumHorizon;
  match r with
  | HEAPTUPLE_RECENTLY_DEAD =>
      VAssert (TransactionIdIsValid dead_after) "TransactionIdIsValid(dead_after)";;
      h ← get (fun s => vistest (snapshot s));
      If ask (fun t => GlobalVisTestIsRemovableXid B t h dead_after) then mret false else mret true
  | _ =>
      VAssert (negb (TransactionIdIsValid dead_after)) "!TransactionIdIsValid(dead_after)";;
      mret (match r with HEAPTUPLE_DEAD => false | _ => true end)
  end.

(** * HeapTupleIsSurelyDead *)
Definition HeapTupleIsSurelyDead (h : Z) : V bool :=
  assert_htup;;
  If Not get (fun s => HeapTupleHeaderXminCommitted (tuple s))
  then get (fun s => HeapTupleHeaderXminInvalid (tuple s))
  else If bit HEAP_XMAX_INVALID then mret false
  else If lockedOnly then mret false
  else If bit HEAP_XMAX_IS_MULTI then mret false
  else If Not bit HEAP_XMAX_COMMITTED then mret false
  else x ← rawXmax; ask (fun t => GlobalVisTestIsRemovableXid B t h x).

(** * HeapTupleSatisfiesHistoricMVCC *)
Definition TransactionIdInArray (xid : Z) (xs : list Z) : bool :=
  (0 <? len xs) && bsearch_xid (length xs) xid xs 0 (len xs).

Definition InvalidCommandId : Z := 0xFFFFFFFF.

Definition snap : V SnapshotData := get snapshot.

Definition HeapTupleSatisfiesHistoricMVCC : V bool :=
  xmin0 ← get (fun s => HeapTupleHeaderGetXmin (tuple s));
  xmax0 ← rawXmax;
  assert_htup;;
  sn ← snap;
  (If get (fun s => HeapTupleHeaderXminInvalid (tuple s)) then
     c ← didCommit xmin0;
     VAssert (negb c) "!TransactionIdDidCommit(xmin)";;
     returns false
   else if TransactionIdInArray xmin0 (subxip sn) then
     match ResolveCids B with
     | None => returns false
     | Some (cmin, _) =>
         VAssert (negb (cmin =? InvalidCommandId)) "cmin != InvalidCommandId";;
         if curcid sn <=? cmin then returns false else falls
     end
   else if TransactionIdPrecedes xmin0 (xmin sn) then
     h ← get (fun s => HeapTupleHeaderXminCommitted (tuple s));
     c ← (if (h : bool) then didCommit xmin0 else mret true);
     VAssert (negb (h && negb c)) "!(HeapTupleHeaderXminCommitted(tuple) && !TransactionIdDidCommit(xmin))";;
     If (if negb h then (Not didCommit xmin0) else mret false) then returns false else falls
   else if TransactionIdFollowsOrEquals xmin0 (xmax sn) then returns false
   else if TransactionIdInArray xmin0 (xip sn) then falls
   else returns false)
  >>? (* xmin is visible *)
  If bit HEAP_XMAX_INVALID then mret true
  else If lockedOnly then mret true
  else
    xmaxv ← (If bit HEAP_XMAX_IS_MULTI
             then t ← get tuple; lift (HeapTupleGetUpdateXid (Members B) t) else mret xmax0);
    if TransactionIdInArray xmaxv (subxip sn) then
      match ResolveCids B with
      | None => mret true
      | Some (_, cmax) =>
          if cmax =? InvalidCommandId then mret true
          else if curcid sn <=? cmax then mret true else mret false
      end
    else if TransactionIdPrecedes xmaxv (xmin sn) then
      h ← bit HEAP_XMAX_COMMITTED;
      c ← (if (h : bool) then didCommit xmaxv else mret true);
      VAssert (negb (h && negb c)) "!(tuple->t_infomask & HEAP_XMAX_COMMITTED && !TransactionIdDidCommit(xmax))";;
      if (h : bool) then mret false else (Not didCommit xmaxv)
    else if TransactionIdFollowsOrEquals xmaxv (xmax sn) then mret true
    else if TransactionIdInArray xmaxv (xip sn) then mret false
    else mret true.

(** * HeapTupleSatisfiesVisibility *)
Definition HeapTupleSatisfiesVisibility : V bool :=
  sn ← snap;
  match snapshot_type sn with
  | SNAPSHOT_MVCC => HeapTupleSatisfiesMVCC
  | SNAPSHOT_SELF => HeapTupleSatisfiesSelf
  | SNAPSHOT_ANY => HeapTupleSatisfiesAny
  | SNAPSHOT_TOAST => HeapTupleSatisfiesToast
  | SNAPSHOT_DIRTY => HeapTupleSatisfiesDirty
  | SNAPSHOT_HISTORIC_MVCC => HeapTupleSatisfiesHistoricMVCC
  | SNAPSHOT_NON_VACUUMABLE => HeapTupleSatisfiesNonVacuumable
  end.
End tuple.
End routines.
