(* ===== verification/VisSpec.v ===== *)
(** What tuple visibility rests on and what it maintains: the laws of the
    look-ups that heapam_visibility.c makes, the truth about the inserting and
    the deleting transaction of a tuple that the hint bits cache, and the
    invariant of the routines (the hint bits say nothing false, nothing but
    hint bits changes, and a commit hint is set only when the commit record is
    safe).

    Reasoning about the routines of heapam_visibility.c: facts about headers
    that differ in hint bits only, facts that stay true as time goes on, a
    weakest-precondition calculus for the effect type of Visibility.v, and the
    rule for each look-up and for each kind of hint bit. *)
From S2P Require Import Prelude.
From S2P Require Import Xid.
From S2P Require Import HeapTuple.
From S2P Require Import ComboCid.
From S2P Require Import Snapshot.
From S2P Require Import Visibility.
Open Scope string_scope.
Open Scope list_scope.
Open Scope Z_scope.
#[local] Set Default Proof Using "Type*".

(** * Laws *)

(** xact.c records the outcome of a transaction in the commit log before the
    transaction leaves the proc array, and neither changes afterwards. *)
Class History (B : Backend) : Prop := {
  finished_stays : forall t t' x, (t <= t')%nat -> IsInProgress B t x = false -> IsInProgress B t' x = false;
  outcome_stays : forall t t' x, (t <= t')%nat -> IsInProgress B t x = false ->
    DidCommit B t' x = DidCommit B t x;
  current_runs : forall t x, IsCurrent B x = true -> IsInProgress B t x = true;
  invalid_aborted : forall t, IsInProgress B t 0 = false /\ DidCommit B t 0 = false
}.

(** Transactions that a snapshot does not show as running have ended, or are
    our own. *)
Definition snapshot_ok (B : Backend) (s : SnapshotData) : Prop :=
  forall t x, InSnapshot B s x = false -> IsCurrent B x = false -> IsInProgress B t x = false.

(** * Truths *)
Inductive XState := Mine | Running | Committed | Aborted.

Definition xstate (B : Backend) (t : nat) (x : Z) : XState :=
  if IsCurrent B x then Mine
  else if IsInProgress B t x then Running
  else if DidCommit B t x then Committed
  else Aborted.

(** The inserter: gone without trace, one of our transactions, running
    elsewhere, or done. *)
Inductive Inserter := INever | IMine | IRunning | IDone.

Definition inserter (B : Backend) (t : nat) (h : HeapTupleHeaderData) : Inserter :=
  if HeapTupleHeaderXminFrozen h then IDone
  else if has (t_infomask h) HEAP_MOVED_OFF then
    if DidCommit B t (HeapTupleHeaderGetXvac h) then INever else IDone
  else if has (t_infomask h) HEAP_MOVED_IN then
    if DidCommit B t (HeapTupleHeaderGetXvac h) then IDone else INever
  else match xstate B t (t_xmin h) with
       | Mine => IMine | Running => IRunning | Committed => IDone | Aborted => INever
       end.

(** The transaction that deleted or updated the tuple, if its xmax is not just
    a lock. *)
Definition updater (B : Backend) (h : HeapTupleHeaderData) : option Z :=
  if HEAP_XMAX_IS_LOCKED_ONLY (t_infomask h) then None
  else if has (t_infomask h) HEAP_XMAX_IS_MULTI then
    match HeapTupleGetUpdateXid (Members B) h with Ok u => Some u | _ => None end
  else Some (t_xmax h).

(** Whether anything in xmax, updater or locker, is still running. *)
Definition xmax_running (B : Backend) (t : nat) (h : HeapTupleHeaderData) : bool :=
  if has (t_infomask h) HEAP_XMAX_IS_MULTI then
    if HEAP_LOCKED_UPGRADED (t_infomask h) then false
    else match Members B (t_xmax h) (HEAP_XMAX_IS_LOCKED_ONLY (t_infomask h)) with
         | Some ms => existsb (fun m => IsInProgress B t (mx_xid m)) ms
         | None => false
         end
  else IsInProgress B t (t_xmax h).

Definition real_cmin (B : Backend) (h : HeapTupleHeaderData) : Z :=
  if has (t_infomask h) HEAP_COMBOCID then cmin (getd garbage (comboCids (ComboCids B)) (t_field3 h))
  else t_field3 h.
Definition real_cmax (B : Backend) (h : HeapTupleHeaderData) : Z :=
  if has (t_infomask h) HEAP_COMBOCID then cmax (getd garbage (comboCids (ComboCids B)) (t_field3 h))
  else t_field3 h.

(** * Well-formed tuples *)

(** A transaction that ended before any running snapshot: those that moved
    tuples before release 9.0. *)
Definition ancient (B : Backend) (s : SnapshotData) (x : Z) : Prop :=
  IsCurrent B x = false /\ InSnapshot B s x = false /\ forall t, IsInProgress B t x = false.

Record tuple_ok (B : Backend) (s : SnapshotData) (htup : HeapTupleData) (h : HeapTupleHeaderData) : Prop := {
  ok_self : ItemPointerIsValid (t_self htup) = true /\ t_tableOid htup <> 0;
  ok_ctid : ItemPointerIsValid (t_ctid h) = true
            /\ (HeapTupleHeaderIsSpeculative h = true -> HeapTupleHeaderGetSpeculativeToken h <> 0);
  ok_moved : HeapTupleHeaderXminFrozen h = false -> has (t_infomask h) HEAP_MOVED = true ->
    ancient B s (t_xmin h) /\ ancient B s (HeapTupleHeaderGetXvac h);
  (* a MultiXact has members, and exactly one updater unless it only locks *)
  ok_multi : has (t_infomask h) HEAP_XMAX_IS_MULTI = true ->
    (HEAP_LOCKED_UPGRADED (t_infomask h) = false ->
     is_Some (Members B (t_xmax h) (HEAP_XMAX_IS_LOCKED_ONLY (t_infomask h))))
    /\ (HEAP_XMAX_IS_LOCKED_ONLY (t_infomask h) = false ->
        exists u, u <> 0 /\ HeapTupleGetUpdateXid (Members B) h = Ok u);
  ok_multi_id : has (t_infomask h) HEAP_XMAX_IS_MULTI = true -> t_xmax h <> 0;
  (* what we inserted, only we can have deleted; its locks are not from an
     older release *)
  ok_own : IsCurrent B (t_xmin h) = true ->
    HEAP_LOCKED_UPGRADED (t_infomask h) = false
    /\ forall u, updater B h = Some u -> IsCurrent B u = true \/ forall t, xstate B t u = Aborted;
  ok_combo : combo_ok (ComboCids B)
    /\ (has (t_infomask h) HEAP_COMBOCID = true ->
        IsCurrent B (t_xmin h) = true \/ (exists u, updater B h = Some u /\ IsCurrent B u = true) ->
        0 <= t_field3 h < usedComboCids (ComboCids B));
  (* what we delete is no longer marked as moved *)
  ok_delete : forall u, updater B h = Some u -> IsCurrent B u = true ->
    has (t_infomask h) HEAP_MOVED = false
}.

(** * Hint bits *)
Record hints_ok (B : Backend) (t : nat) (h : HeapTupleHeaderData) : Prop := {
  hint_xmin_committed : has (t_infomask h) HEAP_XMIN_COMMITTED = true -> inserter B t h = IDone;
  hint_xmin_invalid : HeapTupleHeaderXminInvalid h = true -> inserter B t h = INever;
  hint_xmax_invalid : has (t_infomask h) HEAP_XMAX_INVALID = true ->
    xmax_running B t h = false /\ forall u, updater B h = Some u -> xstate B t u = Aborted;
  hint_xmax_committed : has (t_infomask h) HEAP_XMAX_COMMITTED = true ->
    has (t_infomask h) HEAP_XMAX_IS_MULTI = false /\ xstate B t (t_xmax h) = Committed
}.

Definition HINTS : Z := 0x0F00.

(** [h'] differs from [h] in hint bits only, and is frozen if [h] is. *)
Definition same_core (h h' : HeapTupleHeaderData) : Prop :=
  t_xmin h' = t_xmin h /\ t_xmax h' = t_xmax h /\ t_field3 h' = t_field3 h /\ t_ctid h' = t_ctid h
  /\ Z.ldiff (t_infomask h') HINTS = Z.ldiff (t_infomask h) HINTS
  /\ HeapTupleHeaderXminFrozen h' = HeapTupleHeaderXminFrozen h.

(** The commit record of [x] was seen to be safe between [t0] and [t1]: the
    table is not permanent, or the record is flushed, or the page's LSN makes
    the page wait for it. *)
Definition commit_safe (B : Backend) (t0 t1 : nat) (x : Z) : Prop :=
  BufferIsPermanent B = false
  \/ exists a b c, (t0 <= a <= t1 /\ t0 <= b <= t1 /\ t0 <= c <= t1)%nat
     /\ (XLogNeedsFlush B b (CommitLSN B a x) = false \/ CommitLSN B a x <= BufferGetLSNAtomic B c).

(** What a routine guarantees between its start [s0] and [s]. *)
Record Inv (B : Backend) (s0 s : VState) : Prop := {
  inv_time : (now s0 <= now s)%nat;
  inv_core : same_core (tuple s0) (tuple s);
  inv_hints : hints_ok B (now s) (tuple s);
  inv_xmin_safe : has (t_infomask (tuple s0)) HEAP_XMIN_COMMITTED = false ->
    has (t_infomask (tuple s)) HEAP_XMIN_COMMITTED = true ->
    has (t_infomask (tuple s)) HEAP_MOVED = true \/ commit_safe B (now s0) (now s) (t_xmin (tuple s));
  inv_xmax_safe : has (t_infomask (tuple s0)) HEAP_XMAX_COMMITTED = false ->
    has (t_infomask (tuple s)) HEAP_XMAX_COMMITTED = true ->
    commit_safe B (now s0) (now s) (t_xmax (tuple s))
}.

Lemma has_moved im : has im HEAP_MOVED = has im HEAP_MOVED_OFF || has im HEAP_MOVED_IN.
Proof.
  unfold has, HEAP_MOVED. rewrite Z.land_lor_distr_r.
  destruct (Z.eqb_spec (Z.land im HEAP_MOVED_OFF) 0) as [->|Hn]; [done|].
  destruct (Z.eqb_spec (Z.lor (Z.land im HEAP_MOVED_OFF) (Z.land im HEAP_MOVED_IN)) 0) as [E|]; [|done].
  by apply Z.lor_eq_0_iff in E as [? _].
Qed.

(** * Headers with the same core *)
Lemma same_core_refl h : same_core h h.
Proof. by repeat split. Qed.

Lemma same_core_trans h1 h2 h3 : same_core h1 h2 -> same_core h2 h3 -> same_core h1 h3.
Proof. unfold same_core. intuition congruence. Qed.

Lemma land_core h h' m : same_core h h' -> Z.land m HINTS = 0 ->
  Z.land (t_infomask h') m = Z.land (t_infomask h) m.
Proof.
  intros (_ & _ & _ & _ & E & _) Hm.
  assert (forall a, Z.land a m = Z.land (Z.ldiff a HINTS) m) as Hd.
  { intros a. apply Z.bits_inj'. intros n Hn. rewrite !Z.land_spec, Z.ldiff_spec.
    assert (Z.testbit m n && Z.testbit HINTS n = false) as Hb by (by rewrite <- Z.land_spec, Hm, Z.bits_0).
    by destruct (Z.testbit a n), (Z.testbit m n), (Z.testbit HINTS n). }
  rewrite (Hd (t_infomask h')), (Hd (t_infomask h)), E. done.
Qed.

Section core.
Context (B : Backend) (h h' : HeapTupleHeaderData) (Hc : same_core h h').

Lemma core_has m : Z.land m HINTS = 0 -> has (t_infomask h') m = has (t_infomask h) m.
Proof using Hc. intros Hm. unfold has. by rewrite (land_core h h'). Qed.

Lemma core_locked : HEAP_XMAX_IS_LOCKED_ONLY (t_infomask h') = HEAP_XMAX_IS_LOCKED_ONLY (t_infomask h).
Proof using Hc. unfold HEAP_XMAX_IS_LOCKED_ONLY. by rewrite core_has, (land_core h h'). Qed.

Lemma core_upgraded : HEAP_LOCKED_UPGRADED (t_infomask h') = HEAP_LOCKED_UPGRADED (t_infomask h).
Proof using Hc. unfold HEAP_LOCKED_UPGRADED. by rewrite !core_has, (land_core h h'). Qed.

Lemma core_fields : t_xmin h' = t_xmin h /\ t_xmax h' = t_xmax h /\ t_field3 h' = t_field3 h
  /\ t_ctid h' = t_ctid h.
Proof using Hc. destruct Hc as (? & ? & ? & ? & _). done. Qed.

Lemma core_frozen : HeapTupleHeaderXminFrozen h' = HeapTupleHeaderXminFrozen h.
Proof using Hc. apply Hc. Qed.

Lemma core_xvac : HeapTupleHeaderGetXvac h' = HeapTupleHeaderGetXvac h.
Proof using Hc.
  unfold HeapTupleHeaderGetXvac. rewrite core_has by done.
  destruct core_fields as (_ & _ & -> & _). done.
Qed.

Lemma core_getupdate : HeapTupleGetUpdateXid (Members B) h' = HeapTupleGetUpdateXid (Members B) h.
Proof using Hc.
  unfold HeapTupleGetUpdateXid, MultiXactIdGetUpdateXid, HeapTupleHeaderGetRawXmax.
  rewrite !core_has by done. destruct core_fields as (_ & -> & _). done.
Qed.

Lemma core_updater : updater B h' = updater B h.
Proof using Hc.
  unfold updater. rewrite core_locked, core_has, core_getupdate by done.
  destruct core_fields as (_ & -> & _). done.
Qed.

Lemma core_inserter t : inserter B t h' = inserter B t h.
Proof using Hc.
  unfold inserter. rewrite core_frozen, !core_has, core_xvac by done.
  destruct core_fields as (-> & _). done.
Qed.

Lemma core_running t : xmax_running B t h' = xmax_running B t h.
Proof using Hc.
  unfold xmax_running. rewrite core_has, core_upgraded, core_locked by done.
  destruct core_fields as (_ & -> & _). done.
Qed.

Lemma core_cids : real_cmin B h' = real_cmin B h /\ real_cmax B h' = real_cmax B h.
Proof using Hc.
  unfold real_cmin, real_cmax. rewrite !core_has by done.
  destruct core_fields as (_ & _ & -> & _). done.
Qed.

Lemma core_tuple_ok s htup : tuple_ok B s htup h -> tuple_ok B s htup h'.
Proof using Hc.
  intros [H1 H2 H3 H4 H5 H6 H7 H8]. pose proof core_fields as (E1 & E2 & E3 & E4).
  split; rewrite ?core_frozen, ?core_has, ?core_locked, ?core_upgraded, ?core_xvac, ?core_getupdate,
    ?core_updater, ?E1, ?E2, ?E3, ?E4 by done; try done.
  unfold HeapTupleHeaderIsSpeculative, HeapTupleHeaderGetSpeculativeToken. by rewrite E4.
Qed.
End core.

(** * As time goes on *)
Section time.
Context (B : Backend) `{!History B}.

Lemma xstate_stays t t' x : (t <= t')%nat ->
  xstate B t x = Committed \/ xstate B t x = Aborted -> xstate B t' x = xstate B t x.
Proof.
  unfold xstate. intros Ht. destruct (IsCurrent B x); [done|].
  destruct (IsInProgress B t x) eqn:E; [intros [?|?]; done|]. intros _.
  by rewrite (finished_stays t t' x Ht E), (outcome_stays t t' x Ht E).
Qed.

Lemma xstate_zero t : IsCurrent B 0 = false /\ xstate B t 0 = Aborted.
Proof.
  destruct (invalid_aborted t) as [H1 H2].
  assert (IsCurrent B 0 = false) as Hc.
  { destruct (IsCurrent B 0) eqn:E; [|done]. by rewrite (current_runs t 0 E) in H1. }
  split; [done|]. unfold xstate. by rewrite Hc, H1, H2.
Qed.

(** The outcome looked up after the transaction was seen to have ended is its
    outcome then. *)
Lemma xstate_ended t t' x : (t <= t')%nat -> IsInProgress B t x = false ->
  xstate B t x = if DidCommit B t' x then Committed else Aborted.
Proof.
  intros Ht E. unfold xstate. destruct (IsCurrent B x) eqn:Ec; [by rewrite (current_runs t x Ec) in E|].
  by rewrite E, (outcome_stays t t' x Ht E).
Qed.

Lemma xstate_ended_at t x : IsInProgress B t x = false ->
  xstate B t x = if DidCommit B t x then Committed else Aborted.
Proof. by apply xstate_ended. Qed.

Lemma xmax_running_stays t t' h : (t <= t')%nat -> xmax_running B t h = false -> xmax_running B t' h = false.
Proof.
  intros Ht. unfold xmax_running. destruct (has _ _); [|by apply finished_stays].
  destruct (HEAP_LOCKED_UPGRADED _); [done|]. destruct (Members _ _ _) as [ms|]; [|done].
  induction ms as [|m ms IH]; [done|]. cbn. rewrite !orb_false_iff. intros [H1 H2].
  split; [by apply (finished_stays t)|by apply IH].
Qed.

(** A decided inserter stays decided; moved tuples are ancient. *)
Lemma inserter_stays s htup t t' h : tuple_ok B s htup h -> (t <= t')%nat ->
  inserter B t h = IDone \/ inserter B t h = INever -> inserter B t' h = inserter B t h.
Proof.
  intros Hok Ht. unfold inserter. destruct (HeapTupleHeaderXminFrozen h) eqn:Ef; [done|].
  assert (has (t_infomask h) HEAP_MOVED = true ->
    DidCommit B t' (HeapTupleHeaderGetXvac h) = DidCommit B t (HeapTupleHeaderGetXvac h)) as Hx.
  { intros Hm. destruct (ok_moved _ _ _ _ Hok Ef Hm) as [_ (_ & _ & Hr)].
    by apply outcome_stays. }
  rewrite has_moved in Hx. revert Hx.
  destruct (has (t_infomask h) HEAP_MOVED_OFF); [intros Hx; by rewrite Hx|].
  destruct (has (t_infomask h) HEAP_MOVED_IN); intros Hx; [by rewrite Hx|]. intros H.
  rewrite (xstate_stays t t' (t_xmin h) Ht); [done|].
  destruct (xstate B t (t_xmin h)), H; (discriminate || auto).
Qed.

Lemma hints_stay s htup t t' h : tuple_ok B s htup h -> (t <= t')%nat -> hints_ok B t h -> hints_ok B t' h.
Proof.
  intros Hok Ht [H1 H2 H3 H4]. split.
  - intros H. rewrite (inserter_stays s htup t t'); auto.
  - intros H. rewrite (inserter_stays s htup t t'); auto.
  - intros H. destruct (H3 H) as [Hr Hu]. split; [by eapply xmax_running_stays|].
    intros u E. rewrite (xstate_stays t t'); auto.
  - intros H. destruct (H4 H) as [Hm Hx]. split; [done|]. rewrite (xstate_stays t t'); auto.
Qed.
End time.


(** * Weakest preconditions *)
Definition wpv {A} (m : V A) (s : VState) (Q : A -> VState -> Prop) : Prop :=
  wp (m s) (fun r => Q r.1 r.2).

Definition tick (s : VState) : VState := mkV (tuple s) (snapshot s) (dirty s) (S (now s)).

Lemma wpv_ret {A} (a : A) s Q : Q a s -> wpv (mret a) s Q.
Proof. done. Qed.

Lemma wpv_bind {A C} (m : V A) (k : A -> V C) s Q :
  wpv m s (fun a s' => wpv (k a) s' Q) -> wpv (m ≫= k) s Q.
Proof.
  unfold wpv. intros H. apply (wp_bind (m s) (fun '(a, s') => k a s')).
  eapply wp_mono; [exact H|]. by intros [a s'].
Qed.

(** Back to the sequence, to use a lemma about it. *)
Lemma wpv_bind_inv {A C} (m : V A) (k : A -> V C) s Q :
  wpv (m ≫= k) s Q -> wpv m s (fun a s' => wpv (k a) s' Q).
Proof.
  unfold wpv. change ((m ≫= k) s) with (m s ≫= (fun '(a, s') => k a s')).
  by destruct (m s) as [[a s']| |].
Qed.

Lemma wpv_mono {A} (m : V A) s (P Q : A -> VState -> Prop) :
  wpv m s P -> (forall a s', P a s' -> Q a s') -> wpv m s Q.
Proof. unfold wpv. intros H HPQ. eapply wp_mono; [exact H|]. intros [a s']. apply HPQ. Qed.

Lemma wpv_get {A} (f : VState -> A) s Q : Q (f s) s -> wpv (get f) s Q.
Proof. done. Qed.

Lemma wpv_ask {A} (f : nat -> A) s Q : Q (f (now s)) (tick s) -> wpv (ask f) s Q.
Proof. done. Qed.

Lemma wpv_lift {A} (m : res A) a s Q : m = Ok a -> Q a s -> wpv (lift m) s Q.
Proof. by intros ->. Qed.

Lemma wpv_assert b what s Q : b = true -> Q tt s -> wpv (VAssert b what) s Q.
Proof. by intros ->. Qed.

Lemma wpv_set_snapshot f s (Q : unit -> VState -> Prop) :
  Q tt (mkV (tuple s) (f (snapshot s)) (dirty s) (now s)) -> wpv (set_snapshot f) s Q.
Proof. done. Qed.

Lemma wpv_block {R} (m : V (option R)) (k : V R) s Q :
  wpv m s (fun o s' => match o with Some r => Q r s' | None => wpv k s' Q end) -> wpv (block_then m k) s Q.
Proof. intros H. apply wpv_bind. eapply wpv_mono; [exact H|]. by intros [r|] s'. Qed.

(** * Hint bits *)
Lemma commit_safe_wider B t0 t0' t1 t1' x :
  (t0' <= t0)%nat -> (t1 <= t1')%nat -> commit_safe B t0 t1 x -> commit_safe B t0' t1' x.
Proof. intros ?? [?|(a & b & c & Ht & H)]; [by left|right]. exists a, b, c. split; [lia|done]. Qed.

Lemma wpv_SetHintBits B mask xid s Q :
  (forall t, (now s <= t)%nat -> Q tt (mkV (tuple s) (snapshot s) (dirty s) t)) ->
  (forall t, (now s <= t)%nat -> (xid <> 0 -> commit_safe B (now s) t xid) ->
     Q tt (mkV (set_infomask (Z.lor (t_infomask (tuple s)) mask) (tuple s)) (snapshot s) true t)) ->
  wpv (SetHintBits B mask xid) s Q.
Proof.
  intros Hno Hyes. unfold SetHintBits. apply wpv_bind.
  destruct (TransactionIdIsValid xid) eqn:Hv.
  - apply wpv_bind, wpv_ask, wpv_bind. destruct (BufferIsPermanent B) eqn:Hp.
    + apply wpv_ask. destruct (XLogNeedsFlush _ _ _) eqn:Hf.
      * apply wpv_bind, wpv_bind, wpv_ask, wpv_ret.
        destruct (Z.ltb_spec (BufferGetLSNAtomic B (now (tick (tick s)))) (CommitLSN B (now s) xid)) as [|Hl].
        -- apply wpv_ret, wpv_ret. apply (Hno (S (S (S (now s))))). lia.
        -- apply wpv_ret. apply (Hyes (S (S (S (now s))))); [lia|]. intros _. right.
           exists (now s), (S (now s)), (S (S (now s))). split; [lia|]. right. done.
      * apply wpv_ret. apply (Hyes (S (S (now s)))); [lia|]. intros _. right.
        exists (now s), (S (now s)), (S (now s)). split; [lia|]. by left.
    + apply wpv_ret, wpv_ret. apply (Hyes (S (now s))); [lia|]. intros _. by left.
  - apply wpv_ret. apply (Hyes (now s)); [lia|]. intros Hx.
    by rewrite (proj2 (valid_nonzero xid) Hx) in Hv.
Qed.

(** Setting hint bits keeps the core, unless it freezes the tuple. *)
Lemma same_core_set h mask :
  Z.ldiff mask HINTS = 0 ->
  HeapTupleHeaderXminFrozen (set_infomask (Z.lor (t_infomask h) mask) h) = HeapTupleHeaderXminFrozen h ->
  same_core h (set_infomask (Z.lor (t_infomask h) mask) h).
Proof.
  intros Hm Hf. do 4 (split; [done|]). split; [|done]. cbn [t_infomask set_infomask].
  apply Z.bits_inj'. intros n Hn. rewrite !Z.ldiff_spec, Z.lor_spec.
  assert (Z.testbit mask n && negb (Z.testbit HINTS n) = false) as Hb
    by (by rewrite <- Z.ldiff_spec, Hm, Z.bits_0).
  by destruct (Z.testbit (t_infomask h) n), (Z.testbit mask n), (Z.testbit HINTS n).
Qed.

Lemma frozen_set h mask :
  (has mask HEAP_XMIN_COMMITTED = false /\ has mask HEAP_XMIN_INVALID = false)
  \/ (has mask HEAP_XMIN_INVALID = false /\ has (t_infomask h) HEAP_XMIN_INVALID = false)
  \/ (has mask HEAP_XMIN_COMMITTED = false /\ has (t_infomask h) HEAP_XMIN_COMMITTED = false) ->
  HeapTupleHeaderXminFrozen (set_infomask (Z.lor (t_infomask h) mask) h) = HeapTupleHeaderXminFrozen h.
Proof.
  intros H. rewrite !(proj2 (xmin_bits _)). cbn [t_infomask set_infomask]. rewrite !has_lor.
  destruct H as [[-> ->]|[[-> ->]|[-> ->]]]; rewrite ?orb_false_r; [done|done|].
  by rewrite !andb_false_r.
Qed.
