(* ===== verification/VisInv.v ===== *)
(** The invariant of the visibility routines: it holds at the start, survives
    the passing of time, and every SetHintBits call whose hint is true keeps
    it.  The blocks for tuples moved before release 9.0 and the look-ups
    through a MultiXact are verified here once for all routines. *)
From S2P Require Import Prelude.
From S2P Require Import Xid.
From S2P Require Import HeapTuple.
From S2P Require Import ComboCid.
From S2P Require Import Snapshot.
From S2P Require Import Visibility.
From S2P Require Import VisSpec.
Open Scope string_scope.
Open Scope list_scope.
Open Scope Z_scope.

#[local] Set Default Proof Using "Type*".

Section inv.
Context (B : Backend) {HB : History B} (sn : SnapshotData) (htup : HeapTupleData) (s0 : VState).
Context (Hok : tuple_ok B sn htup (tuple s0)).

Lemma inv_tuple_ok s : Inv B s0 s -> tuple_ok B sn htup (tuple s).
Proof. intros Hi. eapply core_tuple_ok; [apply (inv_core _ _ _ Hi)|done]. Qed.

Lemma inv_start : hints_ok B (now s0) (tuple s0) -> Inv B s0 s0.
Proof using Type. intros Hh. split; [lia|apply same_core_refl|done|congruence..]. Qed.

(** Time passes, the snapshot or the dirty flag is written. *)
Lemma inv_later s s' : Inv B s0 s -> tuple s' = tuple s -> (now s <= now s')%nat -> Inv B s0 s'.
Proof.
  intros Hi E Ht. pose proof (inv_tuple_ok s Hi) as Ho. destruct Hi as [H1 H2 H3 H4 H5].
  split; rewrite ?E; [lia|done|by eapply hints_stay| |].
  - intros Ha Hb. destruct (H4 Ha Hb) as [?|?]; [by left|right]. by eapply commit_safe_wider; [| |done].
  - intros Ha Hb. by eapply commit_safe_wider; [| |apply H5].
Qed.

Lemma inv_tick s : Inv B s0 s -> Inv B s0 (tick s).
Proof. intros Hi. eapply inv_later; [done|done|simpl; lia]. Qed.

(** Two moments of a routine. *)
Lemma inv_cores s s' : Inv B s0 s -> Inv B s0 s' -> same_core (tuple s) (tuple s').
Proof using Type.
  intros Hi Hi'. destruct (inv_core _ _ _ Hi') as (A1 & A2 & A3 & A4 & A5 & A6).
  destruct (inv_core _ _ _ Hi) as (B1 & B2 & B3 & B4 & B5 & B6). repeat split; congruence.
Qed.

Lemma inv_inserter s s' : Inv B s0 s -> Inv B s0 s' -> (now s <= now s')%nat ->
  inserter B (now s) (tuple s) = IDone \/ inserter B (now s) (tuple s) = INever ->
  inserter B (now s') (tuple s') = inserter B (now s) (tuple s).
Proof.
  intros Hi Hi' Ht Hd. rewrite (core_inserter B (tuple s) (tuple s')) by (by apply inv_cores).
  apply (inserter_stays B sn htup); [by apply inv_tuple_ok|done|done].
Qed.

(** A hint is true. *)
Definition hint_true (mask : Z) (t : nat) (h : HeapTupleHeaderData) : Prop :=
  (has mask HEAP_XMIN_COMMITTED = true -> inserter B t h = IDone)
  /\ (has mask HEAP_XMIN_INVALID = true -> inserter B t h = INever)
  /\ (has mask HEAP_XMAX_INVALID = true ->
      xmax_running B t h = false /\ forall u, updater B h = Some u -> xstate B t u = Aborted)
  /\ (has mask HEAP_XMAX_COMMITTED = true ->
      has (t_infomask h) HEAP_XMAX_IS_MULTI = false /\ xstate B t (t_xmax h) = Committed).

Lemma hints_set mask t h :
  same_core h (set_infomask (Z.lor (t_infomask h) mask) h) -> hint_true mask t h -> hints_ok B t h ->
  hints_ok B t (set_infomask (Z.lor (t_infomask h) mask) h).
Proof.
  intros Hc (T1 & T2 & T3 & T4) [H1 H2 H3 H4]. set (h' := set_infomask _ h) in *.
  assert (forall m, has (t_infomask h') m = has (t_infomask h) m || has mask m) as Hb
    by (intros; apply has_lor).
  rewrite (proj1 (xmin_bits h)) in H2.
  split; rewrite ?(core_inserter B h h' Hc), ?(core_running B h h' Hc), ?(core_updater B h h' Hc),
    ?(proj1 (xmin_bits h')).
  - rewrite Hb. intros [?|?]%orb_prop; auto.
  - rewrite !Hb. intros [Ha Hn]%andb_prop. rewrite negb_true_iff, orb_false_iff in Hn. destruct Hn as [Hn _].
    apply orb_prop in Ha as [Ha|Ha]; [|auto]. apply H2. by rewrite Ha, Hn.
  - rewrite Hb. intros [?|?]%orb_prop; auto.
  - change (t_xmax h') with (t_xmax h). rewrite (Hb HEAP_XMAX_COMMITTED), (core_has h h' Hc) by done.
    intros [?|?]%orb_prop; auto.
Qed.

(** The transaction named by the caller is the one whose commit the hint
    claims, or no check is needed. *)
Definition hint_xid (mask xid : Z) (h : HeapTupleHeaderData) : Prop :=
  (has mask HEAP_XMIN_COMMITTED = true ->
   has (t_infomask h) HEAP_MOVED = true \/ (xid = t_xmin h /\ xid <> 0))
  /\ (has mask HEAP_XMAX_COMMITTED = true -> xid = t_xmax h /\ xid <> 0).

Lemma wpv_hint mask xid s Q :
  Inv B s0 s -> Z.ldiff mask HINTS = 0 ->
  same_core (tuple s) (set_infomask (Z.lor (t_infomask (tuple s)) mask) (tuple s)) ->
  hint_true mask (now s) (tuple s) -> hint_xid mask xid (tuple s) ->
  (forall s', Inv B s0 s' -> snapshot s' = snapshot s -> (now s <= now s')%nat -> Q tt s') ->
  wpv (SetHintBits B mask xid) s Q.
Proof.
  intros Hi Hm Hc Ht [Hx1 Hx2] HQ. apply wpv_SetHintBits.
  - intros t Hle. apply HQ; [|done|done]. by eapply inv_later.
  - intros t Hle Hs. apply HQ; [|done|done].
    pose proof (inv_tuple_ok s Hi) as Ho. destruct Hi as [H1 H2 H3 H4 H5].
    set (h' := set_infomask _ (tuple s)) in *.
    assert (forall m, has (t_infomask h') m = has (t_infomask (tuple s)) m || has mask m) as Hb
      by (intros; apply has_lor).
    pose proof (hints_set mask (now s) (tuple s) Hc Ht H3) as Hh. fold h' in Hh.
    assert (tuple_ok B sn htup h') as Ho' by (by eapply core_tuple_ok).
    split; cbn [now tuple snapshot].
    + lia.
    + by eapply same_core_trans.
    + by eapply hints_stay.
    + intros Ha. rewrite Hb, (core_has _ _ Hc HEAP_MOVED) by done. intros [Hy|Hy]%orb_prop.
      * destruct (H4 Ha Hy) as [?|?]; [by left|right]. by eapply commit_safe_wider; [| |done].
      * destruct (Hx1 Hy) as [?|[Ex Hn]]; [by left|right]. change (t_xmin h') with (t_xmin (tuple s)).
        rewrite <- Ex. eapply commit_safe_wider; [exact H1| |by apply Hs]. done.
    + intros Ha. rewrite Hb. intros [Hy|Hy]%orb_prop.
      * by eapply commit_safe_wider; [| |apply H5].
      * destruct (Hx2 Hy) as [Ex Hn]. change (t_xmax h') with (t_xmax (tuple s)).
        rewrite <- Ex. eapply commit_safe_wider; [exact H1| |by apply Hs]. done.
Qed.

(** The four hints. *)
Lemma wpv_hint_xmin_committed xid s Q :
  Inv B s0 s -> inserter B (now s) (tuple s) = IDone ->
  has (t_infomask (tuple s)) HEAP_XMIN_INVALID = false ->
  has (t_infomask (tuple s)) HEAP_MOVED = true \/ (xid = t_xmin (tuple s) /\ xid <> 0) ->
  (forall s', Inv B s0 s' -> snapshot s' = snapshot s -> (now s <= now s')%nat -> Q tt s') ->
  wpv (SetHintBits B HEAP_XMIN_COMMITTED xid) s Q.
Proof.
  intros Hi Hd Hn Hx HQ. apply wpv_hint; try done.
  - apply same_core_set; [done|]. apply frozen_set. right; left. done.
Qed.

Lemma wpv_hint_xmin_invalid s Q :
  Inv B s0 s -> inserter B (now s) (tuple s) = INever ->
  has (t_infomask (tuple s)) HEAP_XMIN_COMMITTED = false ->
  (forall s', Inv B s0 s' -> snapshot s' = snapshot s -> (now s <= now s')%nat -> Q tt s') ->
  wpv (SetHintBits B HEAP_XMIN_INVALID InvalidTransactionId) s Q.
Proof.
  intros Hi Hd Hn HQ. apply wpv_hint; try done.
  - apply same_core_set; [done|]. apply frozen_set. right; right. done.
Qed.

Lemma wpv_hint_xmax_invalid s Q :
  Inv B s0 s -> xmax_running B (now s) (tuple s) = false ->
  (forall u, updater B (tuple s) = Some u -> xstate B (now s) u = Aborted) ->
  (forall s', Inv B s0 s' -> snapshot s' = snapshot s -> (now s <= now s')%nat -> Q tt s') ->
  wpv (SetHintBits B HEAP_XMAX_INVALID InvalidTransactionId) s Q.
Proof.
  intros Hi Hr Hu HQ. apply wpv_hint; try done.
  - apply same_core_set; [done|]. apply frozen_set. by left.
Qed.

Lemma wpv_hint_xmax_committed s Q :
  Inv B s0 s -> has (t_infomask (tuple s)) HEAP_XMAX_IS_MULTI = false ->
  xstate B (now s) (t_xmax (tuple s)) = Committed ->
  (forall s', Inv B s0 s' -> snapshot s' = snapshot s -> (now s <= now s')%nat -> Q tt s') ->
  wpv (SetHintBits B HEAP_XMAX_COMMITTED (t_xmax (tuple s))) s Q.
Proof.
  intros Hi Hm Hx HQ. apply wpv_hint; try done.
  - apply same_core_set; [done|]. apply frozen_set. by left.
  - split; [done|]. intros _. split; [done|]. intros E. rewrite E in Hx.
    destruct (xstate_zero B (now s)) as [_ H0]. congruence.
Qed.

(** * Callees *)

(** [s'] is [s] some time later. *)
Definition later (s s' : VState) : Prop :=
  tuple s' = tuple s /\ snapshot s' = snapshot s /\ (now s <= now s')%nat.

Lemma later_tick s : later s (tick s).
Proof using Type. split; [done|]. split; [done|simpl; lia]. Qed.

Lemma inv_after s s' : Inv B s0 s -> later s s' -> Inv B s0 s'.
Proof. intros Hi (E & _ & Ht). by eapply inv_later. Qed.

Lemma wpv_assert_htup s (Q : unit -> VState -> Prop) : Q tt s -> wpv (assert_htup htup) s Q.
Proof.
  intros HQ. destruct (ok_self _ _ _ _ Hok) as [H1 H2]. apply wpv_bind, wpv_assert; [done|].
  apply wpv_assert; [|done]. lia.
Qed.

Lemma wpv_updateXid s (Q : Z -> VState -> Prop) :
  Inv B s0 s -> has (t_infomask (tuple s)) HEAP_XMAX_IS_MULTI = true ->
  HEAP_XMAX_IS_LOCKED_ONLY (t_infomask (tuple s)) = false ->
  (forall u, updater B (tuple s) = Some u -> HeapTupleGetUpdateXid (Members B) (tuple s) = Ok u -> u <> 0 -> Q u s) ->
  wpv (updateXid B) s Q.
Proof.
  intros Hi Hm Hl HQ. destruct (ok_multi _ _ _ _ (inv_tuple_ok s Hi) Hm) as [_ Hu].
  destruct (Hu Hl) as (u & Hu0 & E). apply wpv_bind, wpv_get, wpv_bind. eapply wpv_lift; [exact E|].
  apply wpv_bind, wpv_assert; [by apply valid_nonzero|]. apply wpv_ret, HQ; [|done|done].
  unfold updater. by rewrite Hl, Hm, E.
Qed.

Lemma wpv_getCmin s (Q : Z -> VState -> Prop) :
  Inv B s0 s -> has (t_infomask (tuple s)) HEAP_MOVED = false ->
  HeapTupleHeaderXminFrozen (tuple s) = false -> IsCurrent B (t_xmin (tuple s)) = true ->
  Q (real_cmin B (tuple s)) s -> wpv (getCmin B) s Q.
Proof.
  intros Hi Hm Hf Hc HQ. destruct (ok_combo _ _ _ _ (inv_tuple_ok s Hi)) as [Hco Hcid].
  apply wpv_bind, wpv_get. eapply wpv_lift; [|exact HQ].
  unfold HeapTupleHeaderGetCmin, HeapTupleHeaderGetXmin, HeapTupleHeaderGetRawXmin,
    HeapTupleHeaderGetRawCommandId. rewrite Hm, Hf, Hc. cbn [negb Assert mbind res_bind].
  unfold real_cmin. destruct (has (t_infomask (tuple s)) HEAP_COMBOCID) eqn:Ec; [|done].
  apply GetReal_ok; [done|]. apply Hcid; [done|by left].
Qed.

Lemma wpv_getCmax s u (Q : Z -> VState -> Prop) :
  Inv B s0 s -> updater B (tuple s) = Some u -> IsCurrent B u = true ->
  has (t_infomask (tuple s)) HEAP_XMAX_INVALID = false ->
  Q (real_cmax B (tuple s)) s -> wpv (getCmax B) s Q.
Proof.
  intros Hi Hu Hc Hx HQ. pose proof (inv_tuple_ok s Hi) as Ho.
  destruct (ok_combo _ _ _ _ Ho) as [Hco Hcid]. pose proof (ok_delete _ _ _ _ Ho u Hu Hc) as Hm.
  apply wpv_bind, wpv_get. eapply wpv_lift; [|exact HQ].
  unfold HeapTupleHeaderGetCmax. rewrite Hm. cbn [negb Assert mbind res_bind].
  assert (HeapTupleHeaderGetUpdateXid (Members B) (tuple s) = Ok u) as ->.
  { unfold updater in Hu. destruct (HEAP_XMAX_IS_LOCKED_ONLY _) eqn:El; [done|].
    unfold HEAP_XMAX_IS_LOCKED_ONLY in El. apply orb_false_iff in El as [El _].
    unfold HeapTupleHeaderGetUpdateXid. rewrite Hx, El. cbn [negb andb].
    destruct (has (t_infomask (tuple s)) HEAP_XMAX_IS_MULTI); cbn [andb].
    - destruct (HeapTupleGetUpdateXid (Members B) (tuple s)) as [v| |]; try done. congruence.
    - unfold HeapTupleHeaderGetRawXmax. congruence. }
  cbn [mbind res_bind]. rewrite Hc. cbn [Assert mbind res_bind]. unfold real_cmax.
  destruct (has (t_infomask (tuple s)) HEAP_COMBOCID) eqn:Ec; [|done].
  apply GetReal_ok; [done|]. apply Hcid; [done|right; by exists u].
Qed.

(** ** Is anything in a MultiXact running? *)
Lemma wpv_any_current ms s (Q : bool -> VState -> Prop) :
  Q (existsb (fun m => IsCurrent B (mx_xid m)) ms) s -> wpv (any_current B ms) s Q.
Proof using Type.
  revert Q. induction ms as [|m ms IH]; intros Q HQ; [done|]. cbn [any_current].
  apply wpv_bind, wpv_ret. cbn in HQ. destruct (IsCurrent B (mx_xid m)); [done|]. by apply IH.
Qed.

Lemma wpv_any_running ms s (Q : bool -> VState -> Prop) :
  (forall b s', later s s' ->
     (b = true -> exists t, (now s <= t <= now s')%nat /\ existsb (fun m => IsInProgress B t (mx_xid m)) ms = true) ->
     (b = false -> existsb (fun m => IsInProgress B (now s') (mx_xid m)) ms = false) -> Q b s') ->
  wpv (any_running B ms) s Q.
Proof using HB.
  revert s Q. induction ms as [|m ms IH]; intros s Q HQ.
  { apply wpv_ret, HQ; [split; [done|]; split; [done|lia]|done|done]. }
  cbn [any_running]. apply wpv_bind, wpv_ask.
  destruct (IsInProgress B (now s) (mx_xid m)) eqn:E.
  - apply wpv_ret, HQ; [apply later_tick| |done]. intros _. exists (now s). split; [simpl; lia|].
    cbn. by rewrite E.
  - apply IH. intros b s' (L1 & L2 & L3) Ht Hf. cbn in L3.
    apply HQ; [split; [done|]; split; [done|lia]| |].
    + intros Hb. destruct (Ht Hb) as (t & Hr & Hex). exists t. split; [cbn in Hr; lia|].
      cbn. rewrite Hex. apply orb_true_r.
    + intros Hb. cbn. rewrite (Hf Hb), (finished_stays (now s) (now s')); [done|lia|done].
Qed.

Lemma wpv_MultiXactIdIsRunning s (Q : bool -> VState -> Prop) :
  Inv B s0 s -> has (t_infomask (tuple s)) HEAP_XMAX_IS_MULTI = true ->
  HEAP_LOCKED_UPGRADED (t_infomask (tuple s)) = false ->
  (forall b s', later s s' ->
     (b = true -> exists t, (now s <= t <= now s')%nat /\ xmax_running B t (tuple s) = true) ->
     (b = false -> xmax_running B (now s') (tuple s) = false) -> Q b s') ->
  wpv (MultiXactIdIsRunning B (t_xmax (tuple s)) (HEAP_XMAX_IS_LOCKED_ONLY (t_infomask (tuple s)))) s Q.
Proof.
  intros Hi Hm Hu HQ. destruct (ok_multi _ _ _ _ (inv_tuple_ok s Hi) Hm) as [Hmem _].
  destruct (Hmem Hu) as [ms E].
  assert (forall t, xmax_running B t (tuple s) = existsb (fun m => IsInProgress B t (mx_xid m)) ms) as Er.
  { intros t. unfold xmax_running. by rewrite Hm, Hu, E. }
  setoid_rewrite Er in HQ. unfold MultiXactIdIsRunning, GetMultiXactIdMembers. rewrite E.
  apply wpv_bind. eapply wpv_lift; [done|].
  assert (later s s) as Hrefl by (split; [done|]; split; [done|lia]).
  destruct ms as [|m ms]; [by apply wpv_ret, HQ|].
  apply wpv_bind, wpv_any_current. destruct (existsb _ (m :: ms)) eqn:Ec.
  - apply wpv_ret, HQ; [done| |done]. intros _. exists (now s). split; [lia|].
    apply existsb_exists in Ec as (x & Hin & Hx). apply existsb_exists. exists x. split; [done|].
    by apply current_runs.
  - by apply wpv_any_running.
Qed.

(** ** Tuples moved before release 9.0 *)
Lemma unhinted h : HeapTupleHeaderXminCommitted h = false -> HeapTupleHeaderXminInvalid h = false ->
  has (t_infomask h) HEAP_XMIN_INVALID = false /\ HeapTupleHeaderXminFrozen h = false.
Proof using Type.
  unfold HeapTupleHeaderXminCommitted. intros Hc Hi. rewrite (proj1 (xmin_bits h)), Hc in Hi.
  rewrite (proj2 (xmin_bits h)), Hc. rewrite andb_true_r in Hi. by rewrite Hi.
Qed.

(** The look-up finds at [s] that [x] does not run. *)
Definition finds_ended (running : Z -> V bool) (x : Z) (s : VState) : Prop :=
  forall Q : bool -> VState -> Prop, (forall s', later s s' -> Q false s') -> wpv (running x) s Q.

Lemma ancient_inProgress x s : ancient B sn x -> finds_ended (inProgress B) x s.
Proof using Type.
  intros (_ & _ & Hr) Q HQ. apply wpv_ask. rewrite Hr. apply HQ, later_tick.
Qed.

Lemma ancient_inSnapshot x s : ancient B sn x -> snapshot s = sn -> finds_ended (inSnapshot B) x s.
Proof using Type.
  intros (_ & Hs & _) E Q HQ. apply wpv_get. rewrite E, Hs. apply HQ. split; [done|]. split; [done|lia].
Qed.

Section moved.
Context {R : Type} (running : Z -> V bool) (invisible : R) (s : VState) (Q : option R -> VState -> Prop).
Context (Hi : Inv B s0 s).
Context (Hc : HeapTupleHeaderXminCommitted (tuple s) = false).
Context (Hn : HeapTupleHeaderXminInvalid (tuple s) = false).
Context (Hrun : has (t_infomask (tuple s)) HEAP_MOVED = true ->
  finds_ended running (HeapTupleHeaderGetXvac (tuple s)) s).
Context (Hnever : forall s', Inv B s0 s' -> snapshot s' = snapshot s -> (now s <= now s')%nat ->
  inserter B (now s') (tuple s') = INever -> Q (Some invisible) s').
Context (Hdone : forall s', Inv B s0 s' -> snapshot s' = snapshot s -> (now s <= now s')%nat ->
  inserter B (now s') (tuple s') = IDone -> Q None s').

Lemma moved_ancient : has (t_infomask (tuple s)) HEAP_MOVED = true ->
  ancient B sn (HeapTupleHeaderGetXvac (tuple s)).
Proof using HB Hok Hi Hc Hn.
  intros Hm. destruct (unhinted _ Hc Hn) as [_ Hf].
  by destruct (ok_moved _ _ _ _ (inv_tuple_ok s Hi) Hf Hm).
Qed.

(** The rest of both blocks, once the mover is known to have ended. *)
Lemma moved_outcome s' r1 r2 (m1 m2 : V (option R)) :
  later s s' -> has (t_infomask (tuple s)) HEAP_MOVED = true ->
  (forall t, inserter B t (tuple s) = if DidCommit B t (HeapTupleHeaderGetXvac (tuple s)) then r1 else r2) ->
  (forall s'', Inv B s0 s'' -> later s s'' -> inserter B (now s'') (tuple s'') = r1 -> wpv m1 s'' Q) ->
  (forall s'', Inv B s0 s'' -> later s s'' -> inserter B (now s'') (tuple s'') = r2 -> wpv m2 s'' Q) ->
  wpv (c ← didCommit B (HeapTupleHeaderGetXvac (tuple s)); if (c : bool) then m1 else m2) s' Q.
Proof using HB Hok Hi Hc Hn.
  intros (L1 & L2 & L3) Hm Hins H1 H2. apply wpv_bind, wpv_ask.
  assert (Inv B s0 (tick s')) as Hi' by (eapply inv_later; [exact Hi|done|simpl; lia]).
  assert (later s (tick s')) as Hl by (split; [done|]; split; [done|simpl; lia]).
  destruct (moved_ancient Hm) as (_ & _ & Hr).
  assert (inserter B (now (tick s')) (tuple (tick s'))
    = if DidCommit B (now s') (HeapTupleHeaderGetXvac (tuple s)) then r1 else r2) as E.
  { cbn [tick now tuple]. rewrite L1, Hins, (outcome_stays (now s') (S (now s'))); [done|lia|done]. }
  destruct (DidCommit B (now s') _); [by apply H1|by apply H2].
Qed.

Lemma set_xmin_invalid s' : Inv B s0 s' -> later s s' -> inserter B (now s') (tuple s') = INever ->
  wpv (SetHintBits B HEAP_XMIN_INVALID InvalidTransactionId;; returns invisible) s' Q.
Proof using HB Hok Hc Hnever.
  intros Hi' (L1 & L2 & L3) Hins. apply wpv_bind, wpv_hint_xmin_invalid; [done|done|by rewrite L1|].
  intros s'' Hi'' E Ht. apply wpv_ret, Hnever; [done|congruence|lia|].
  rewrite (inv_inserter s' s''); auto.
Qed.

Lemma set_xmin_committed s' : Inv B s0 s' -> later s s' -> inserter B (now s') (tuple s') = IDone ->
  has (t_infomask (tuple s)) HEAP_MOVED = true ->
  wpv (SetHintBits B HEAP_XMIN_COMMITTED InvalidTransactionId;; falls) s' Q.
Proof using HB Hok Hc Hn Hdone.
  intros Hi' (L1 & L2 & L3) Hins Hm. destruct (unhinted _ Hc Hn) as [Hin _].
  apply wpv_bind, wpv_hint_xmin_committed; [done|done|by rewrite L1|left; by rewrite L1|].
  intros s'' Hi'' E Ht. apply wpv_ret, Hdone; [done|congruence|lia|].
  rewrite (inv_inserter s' s''); auto.
Qed.

Lemma wpv_moved_off : has (t_infomask (tuple s)) HEAP_MOVED_OFF = true ->
  wpv (moved_off B running invisible) s Q.
Proof.
  intros Hoff. assert (has (t_infomask (tuple s)) HEAP_MOVED = true) as Hm by (by rewrite has_moved, Hoff).
  destruct (moved_ancient Hm) as (Hcur & _). destruct (unhinted _ Hc Hn) as [_ Hf].
  apply wpv_bind, wpv_get, wpv_bind, wpv_ret. rewrite Hcur. apply wpv_bind, wpv_bind.
  apply Hrun; [done|]. intros s' Hl. apply wpv_ret. cbn [negb].
  eapply (moved_outcome s' INever IDone); [done|done| | |].
  - intros t. unfold inserter. by rewrite Hf, Hoff.
  - intros s'' Hi' Hl' E. by apply set_xmin_invalid.
  - intros s'' Hi' Hl' E. by apply set_xmin_committed.
Qed.

Lemma wpv_moved_in : has (t_infomask (tuple s)) HEAP_MOVED_OFF = false ->
  has (t_infomask (tuple s)) HEAP_MOVED_IN = true -> wpv (moved_in B running invisible) s Q.
Proof.
  intros Hoff Hin. assert (has (t_infomask (tuple s)) HEAP_MOVED = true) as Hm
    by (by rewrite has_moved, Hoff, Hin).
  destruct (moved_ancient Hm) as (Hcur & _). destruct (unhinted _ Hc Hn) as [_ Hf].
  apply wpv_bind, wpv_get, wpv_bind, wpv_bind, wpv_ret, wpv_ret. rewrite Hcur. cbn [negb].
  apply wpv_bind, Hrun; [done|]. intros s' Hl.
  eapply (moved_outcome s' IDone INever); [done|done| | |].
  - intros t. unfold inserter. by rewrite Hf, Hoff, Hin.
  - intros s'' Hi' Hl' E. by apply set_xmin_committed.
  - intros s'' Hi' Hl' E. by apply set_xmin_invalid.
Qed.
End moved.
End inv.
