(* ===== verification/VisSelf.v ===== *)
(** HeapTupleSatisfiesSelf: its answer is that of a short rule about the inserter
    and the updater of the tuple, each judged at one moment during the call,
    whatever the hint bits were; with the steps that the other routines share. *)
From S2P Require Import Prelude.
From S2P Require Import Xid.
From S2P Require Import HeapTuple.
From S2P Require Import ComboCid.
From S2P Require Import Snapshot.
From S2P Require Import Visibility.
From S2P Require Import VisSpec.
From S2P Require Import VisInv.
Open Scope string_scope.
Open Scope list_scope.
Open Scope Z_scope.

#[local] Set Default Proof Using "Type*".

(** * Symbolic execution *)

(** One step of a routine; a condition is taken both ways.  The steps stop
    where an outcome is looked up to be hinted: lemmas cover what follows. *)
Ltac vstep :=
  lazymatch goal with
  | |- wpv ((rawXmin ≫= (fun x => didCommit _ x)) ≫= _) _ _ => fail
  | |- wpv (((rawXmax ≫= (fun x => didCommit _ x)) ≫= _) ≫= _) _ _ => fail
  | |- wpv (_ ≫= _) _ _ => apply wpv_bind
  | |- wpv (block_then _ _) _ _ => apply wpv_block
  | |- wpv (mret _) _ _ => apply wpv_ret
  | |- wpv (returns _) _ _ => apply wpv_ret
  | |- wpv falls _ _ => apply wpv_ret
  | |- wpv (get _) _ _ => apply wpv_get
  | |- wpv (bit _) _ _ => apply wpv_get
  | |- wpv lockedOnly _ _ => apply wpv_get
  | |- wpv rawXmin _ _ => apply wpv_get
  | |- wpv rawXmax _ _ => apply wpv_get
  | |- wpv xvacOf _ _ => apply wpv_get
  | |- wpv (inSnapshot _ _) _ _ => apply wpv_get
  | |- wpv (isCurrent _ _) _ _ => apply wpv_ret
  | |- wpv (inProgress _ _) _ _ => apply wpv_ask
  | |- wpv (didCommit _ _) _ _ => apply wpv_ask
  | |- wpv (if negb ?b then _ else _) _ _ => destruct b eqn:?; cbn [negb]
  | |- wpv (if ?b then _ else _) _ _ => destruct b eqn:?
  end;
  unfold HeapTupleHeaderGetRawXmin, HeapTupleHeaderGetRawXmax in *;
  cbn [tick tuple snapshot now] in *.

Ltac vsteps := repeat vstep.

(** Rewrite with every condition that was decided. *)
Ltac decided :=
  repeat match goal with
  | H : ?b = true |- context [?b] => rewrite H
  | H : ?b = false |- context [?b] => rewrite H
  | H : updater ?B ?h = _ |- context [updater ?B ?h] => rewrite H
  end.

(** * The rule *)
Definition deleted (B : Backend) (t : nat) (h : HeapTupleHeaderData) : bool :=
  match updater B h with
  | Some u => match xstate B t u with Mine | Committed => true | _ => false end
  | None => false
  end.

Definition self_visible (B : Backend) (ti td : nat) (h : HeapTupleHeaderData) : bool :=
  match inserter B ti h with
  | IMine | IDone => negb (deleted B td h)
  | _ => false
  end.

(** An ordinary tuple without xmin hints. *)
Definition plain (h : HeapTupleHeaderData) : Prop :=
  HeapTupleHeaderXminCommitted h = false /\ HeapTupleHeaderXminInvalid h = false
  /\ has (t_infomask h) HEAP_MOVED_OFF = false /\ has (t_infomask h) HEAP_MOVED_IN = false.

Ltac plain_facts :=
  match goal with
  | H : HeapTupleHeaderXminInvalid (tuple ?s) = false |- _ =>
      assert (plain (tuple s)) as Hp by (by repeat split)
  end.

Section self.
Context (B : Backend) {HB : History B} (sn : SnapshotData) (htup : HeapTupleData) (s0 : VState).
Context (Hok : tuple_ok B sn htup (tuple s0)).

Lemma plain_inserter h t : plain h ->
  inserter B t h = match xstate B t (t_xmin h) with
                   | Mine => IMine | Running => IRunning | Committed => IDone | Aborted => INever
                   end.
Proof using Type.
  intros (Hc & Hi & Ho & Hn). destruct (unhinted _ Hc Hi) as [_ Hf]. unfold inserter. by rewrite Hf, Ho, Hn.
Qed.

(** The end of every xmin block: the inserter has ended, its outcome is
    looked up and hinted. *)
Lemma xmin_settle {R} (invisible : R) s (Q : option R -> VState -> Prop) :
  Inv B s0 s -> plain (tuple s) -> IsInProgress B (now s) (t_xmin (tuple s)) = false ->
  (forall s', Inv B s0 s' -> snapshot s' = snapshot s -> (now s <= now s')%nat ->
     inserter B (now s') (tuple s') = INever -> Q (Some invisible) s') ->
  (forall s', Inv B s0 s' -> snapshot s' = snapshot s -> (now s <= now s')%nat ->
     inserter B (now s') (tuple s') = IDone -> Q None s') ->
  wpv (c ← (x ← rawXmin; didCommit B x);
       if (c : bool) then x ← rawXmin; SetHintBits B HEAP_XMIN_COMMITTED x;; falls
       else SetHintBits B HEAP_XMIN_INVALID InvalidTransactionId;; returns invisible) s Q.
Proof.
  intros Hi Hp Hr Hnever Hdone. pose proof Hp as (Hc & Hn & _). destruct (unhinted _ Hc Hn) as [Hin _].
  pose proof (xstate_ended_at B (now s) (t_xmin (tuple s)) Hr) as Ex.
  pose proof (plain_inserter _ (now s) Hp) as Ei. rewrite Ex in Ei.
  assert (Inv B s0 (tick s)) as Hi' by (by eapply inv_tick).
  apply wpv_bind. vsteps.
  - apply (wpv_hint_xmin_committed B sn htup s0 Hok); [done| |done| |].
    + rewrite (inv_inserter B sn htup s0 Hok s (tick s)); [by decided|done|done|simpl; lia|left; by decided].
    + right. cbn [tick tuple]. split; [done|]. intros E. 
      destruct (invalid_aborted (now s)) as [_ H0]. congruence.
    + intros s' Hs' E Ht. apply wpv_ret, Hdone; [done|done|simpl in Ht; lia|].
      rewrite (inv_inserter B sn htup s0 Hok s s'); [by decided|done|done|simpl in Ht; lia|left; by decided].
  - apply (wpv_hint_xmin_invalid B sn htup s0 Hok); [done| |done|].
    + rewrite (inv_inserter B sn htup s0 Hok s (tick s)); [by decided|done|done|simpl; lia|right; by decided].
    + intros s' Hs' E Ht. apply wpv_ret, Hnever; [done|done|simpl in Ht; lia|].
      rewrite (inv_inserter B sn htup s0 Hok s s'); [by decided|done|done|simpl in Ht; lia|right; by decided].
Qed.

(** ** The xmax half *)
Definition self_post (b : bool) (s s' : VState) : Prop :=
  Inv B s0 s' /\ exists td, (now s <= td <= now s')%nat /\ b = negb (deleted B td (tuple s)).

Lemma updater_plain h : HEAP_XMAX_IS_LOCKED_ONLY (t_infomask h) = false ->
  has (t_infomask h) HEAP_XMAX_IS_MULTI = false -> updater B h = Some (t_xmax h).
Proof using Type. intros Hl Hm. unfold updater. by rewrite Hl, Hm. Qed.

Lemma updater_locked h : HEAP_XMAX_IS_LOCKED_ONLY (t_infomask h) = true -> updater B h = None.
Proof using Type. intros Hl. unfold updater. by rewrite Hl. Qed.

(** [deleted] by what is known of the updater. *)
Lemma deleted_by t h u : updater B h = Some u ->
  deleted B t h = match xstate B t u with Mine | Committed => true | _ => false end.
Proof using Type. intros E. unfold deleted. by rewrite E. Qed.

Lemma deleted_none t h : updater B h = None -> deleted B t h = false.
Proof using Type. intros E. unfold deleted. by rewrite E. Qed.

Lemma deleted_hint s : Inv B s0 s -> has (t_infomask (tuple s)) HEAP_XMAX_INVALID = true ->
  deleted B (now s) (tuple s) = false.
Proof using Type.
  intros Hi Hx. destruct (hint_xmax_invalid _ _ _ (inv_hints _ _ _ Hi) Hx) as [_ Hu].
  unfold deleted. destruct (updater B (tuple s)) as [u|]; [|done]. by rewrite Hu.
Qed.

(** Setting a true XMAX_INVALID hint on a plain xmax. *)
Lemma hint_gone s (Q : unit -> VState -> Prop) :
  Inv B s0 s -> has (t_infomask (tuple s)) HEAP_XMAX_IS_MULTI = false ->
  IsInProgress B (now s) (t_xmax (tuple s)) = false ->
  HEAP_XMAX_IS_LOCKED_ONLY (t_infomask (tuple s)) = true \/ DidCommit B (now s) (t_xmax (tuple s)) = false ->
  (forall s', Inv B s0 s' -> snapshot s' = snapshot s -> (now s <= now s')%nat -> Q tt s') ->
  wpv (SetHintBits B HEAP_XMAX_INVALID InvalidTransactionId) s Q.
Proof.
  intros Hi Hm Hr Hd HQ. apply (wpv_hint_xmax_invalid B sn htup s0 Hok); [done| | |done].
  - unfold xmax_running. by rewrite Hm.
  - intros u Hu. unfold updater in Hu. rewrite Hm in Hu.
    destruct (HEAP_XMAX_IS_LOCKED_ONLY _); [done|]. injection Hu as <-.
    rewrite (xstate_ended_at B _ _ Hr). by destruct Hd as [?| ->].
Qed.

(** After some look-ups the invariant still holds. *)
Lemma inv_ticks s s' : Inv B s0 s -> later s s' -> Inv B s0 s'.
Proof. by apply (inv_after B sn htup s0 Hok). Qed.

Lemma self_leaf td b s s' : Inv B s0 s' -> (now s <= td <= now s')%nat ->
  b = negb (deleted B td (tuple s)) -> self_post b s s'.
Proof using Type. intros Hi Ht E. split; [done|]. by exists td. Qed.

(** Once a transaction has ended, all later look-ups agree. *)
Lemma ended_stays t x : IsInProgress B t x = false -> forall t', (t <= t')%nat ->
  IsInProgress B t' x = false /\ DidCommit B t' x = DidCommit B t x
  /\ xstate B t' x = (if DidCommit B t x then Committed else Aborted).
Proof using HB.
  intros E t' Ht. pose proof (finished_stays t t' x Ht E) as E'. pose proof (outcome_stays t t' x Ht E) as E''.
  split; [done|]. split; [done|]. rewrite (xstate_ended_at B t' x E'). by rewrite E''.
Qed.

(** The end of every xmax half with a plain xmax: the deleter has ended. *)
Lemma xmax_settle s : Inv B s0 s -> has (t_infomask (tuple s)) HEAP_XMAX_IS_MULTI = false ->
  IsInProgress B (now s) (t_xmax (tuple s)) = false ->
  forall {R} (gone : R) (k : V R) (Q : R -> VState -> Prop),
  (forall s', Inv B s0 s' -> snapshot s' = snapshot s -> (now s <= now s')%nat ->
     deleted B (now s) (tuple s) = false -> Q gone s') ->
  (forall s', Inv B s0 s' -> snapshot s' = snapshot s -> (now s <= now s')%nat ->
     t_ctid (tuple s') = t_ctid (tuple s) ->
     updater B (tuple s) = Some (t_xmax (tuple s)) -> xstate B (now s) (t_xmax (tuple s)) = Committed ->
     wpv k s' Q) ->
  wpv (c ← (b ← (x ← rawXmax; didCommit B x); mret (negb b));
       if (c : bool) then SetHintBits B HEAP_XMAX_INVALID InvalidTransactionId;; mret gone
       else c ← lockedOnly;
            if (c : bool) then SetHintBits B HEAP_XMAX_INVALID InvalidTransactionId;; mret gone
            else x ← rawXmax; SetHintBits B HEAP_XMAX_COMMITTED x;; k) s Q.
Proof.
  intros Hi Hm Hr R gone k Q Hgone Hdel.
  pose proof (ended_stays _ _ Hr) as He. destruct (He (now s) ltac:(lia)) as (_ & _ & Hx).
  destruct (He (S (now s)) ltac:(lia)) as (Hr1 & Hd1 & Hx1).
  assert (Inv B s0 (tick s)) as Hi' by (by eapply inv_tick).
  assert (forall s', Inv B s0 s' -> snapshot s' = snapshot (tick s) -> (now (tick s) <= now s')%nat ->
    deleted B (now s) (tuple s) = false -> Q gone s') as Hg.
  { intros s' Hs' E Ht Hd. apply Hgone; [done|done|simpl in Ht; lia|done]. }
  apply wpv_bind. vsteps.
  - apply hint_gone; [done|done|done|by left|]. intros s' Hs' E Ht. apply wpv_ret, Hg; try done.
    apply deleted_none. by apply updater_locked.
  - apply (wpv_hint_xmax_committed B sn htup s0 Hok (tick s)); [done|done|done|].
    intros s' Hs' E Ht. apply Hdel; [done|done|simpl in Ht; lia| |by apply updater_plain|done].
    assert (same_core (tuple (tick s)) (tuple s')) as Hc by (by eapply inv_cores).
    by destruct (core_fields _ _ Hc) as (_ & _ & _ & ->).
  - apply hint_gone; [done|done|done|by right|]. intros s' Hs' E Ht. apply wpv_ret, Hg; try done.
    unfold deleted, updater. rewrite Hm. destruct (HEAP_XMAX_IS_LOCKED_ONLY _); [done|]. by rewrite Hx.
Qed.

(** What [deleted] is once the updater is known. *)
Lemma deleted_current h u t : updater B h = Some u -> IsCurrent B u = true -> deleted B t h = true.
Proof using Type. intros E Hc. rewrite (deleted_by _ _ u E). unfold xstate. by rewrite Hc. Qed.

Lemma deleted_running h u t : updater B h = Some u -> IsCurrent B u = false ->
  IsInProgress B t u = true -> deleted B t h = false.
Proof using Type. intros E Hc Hr. rewrite (deleted_by _ _ u E). unfold xstate. by rewrite Hc, Hr. Qed.

Lemma deleted_ended h u t t' : updater B h = Some u -> IsInProgress B t u = false -> (t <= t')%nat ->
  deleted B t h = DidCommit B t' u.
Proof using HB.
  intros E Hr Ht. rewrite (deleted_by _ _ u E), (xstate_ended B t t' u Ht Hr). by destruct (DidCommit B t' u).
Qed.

(** A running xmax deletes nothing yet, and a lock never does. *)
Lemma deleted_xmax_running h t : has (t_infomask h) HEAP_XMAX_IS_MULTI = false ->
  IsCurrent B (t_xmax h) = false -> IsInProgress B t (t_xmax h) = true -> deleted B t h = false.
Proof using Type.
  intros Hm Hc Hr. unfold deleted, updater. rewrite Hm. destruct (HEAP_XMAX_IS_LOCKED_ONLY _); [done|].
  unfold xstate. by rewrite Hc, Hr.
Qed.

Ltac self_leaf td := apply (self_leaf td); [by eauto using inv_tick|simpl; lia|].

Lemma Self_xmax_ok s : Inv B s0 s -> wpv (Self_xmax B) s (fun b s' => self_post b s s').
Proof.
  intros Hi. pose proof (inv_hints _ _ _ Hi) as Hh. unfold Self_xmax.
  assert (Inv B s0 (tick s)) as Hi1 by (by eapply inv_tick).
  assert (Inv B s0 (tick (tick s))) as Hi2 by (by eapply inv_tick).
  vsteps.
  - self_leaf (now s). by rewrite deleted_hint.
  - self_leaf (now s). by rewrite deleted_none by by apply updater_locked.
  - self_leaf (now s). destruct (hint_xmax_committed _ _ _ Hh) as [Hm Hx]; [done|].
    by rewrite (deleted_by _ _ (t_xmax (tuple s))), Hx by by apply updater_plain.
  - self_leaf (now s). by rewrite deleted_none by by apply updater_locked.
  - eapply wpv_updateXid; [done..|]. intros u Hu _ _. vsteps.
    + self_leaf (now s). by rewrite (deleted_current _ u).
    + self_leaf (now s). by rewrite (deleted_running _ u).
    + self_leaf (now s). rewrite (deleted_ended _ u (now s) (S (now s))); [by decided|done|done|lia].
    + self_leaf (now s). rewrite (deleted_ended _ u (now s) (S (now s))); [by decided|done|done|lia].
  - self_leaf (now s). by rewrite deleted_none by by apply updater_locked.
  - self_leaf (now s). by rewrite (deleted_current _ (t_xmax (tuple s))) by (done || by apply updater_plain).
  - self_leaf (now s). by rewrite deleted_xmax_running.
  - pose proof (ended_stays _ _ Heqb3 (S (now s)) ltac:(lia)) as (Hr1 & _).
    apply (xmax_settle (tick s)); [done|done|done| |].
    + intros s' Hs' _ Ht Hd. apply (self_leaf (S (now s))); [done|simpl in Ht; lia|].
      cbn [tick tuple now] in Hd. by rewrite Hd.
    + intros s' Hs' _ Ht _ Hu Hx. apply wpv_ret, (self_leaf (S (now s))); [done|simpl in Ht; lia|].
      cbn [tick tuple now] in Hu, Hx. by rewrite (deleted_by _ _ _ Hu), Hx.
Qed.

(** ** The xmin half *)
Definition self_xmin_post (o : option bool) (s s' : VState) : Prop :=
  Inv B s0 s' /\ match o with
                 | Some b => exists ti td, (now s <= ti <= td /\ td <= now s')%nat
                             /\ b = self_visible B ti td (tuple s)
                 | None => inserter B (now s') (tuple s') = IDone
                 end.

Lemma self_xmin_leaf ti td b s s' : Inv B s0 s' -> (now s <= ti <= td /\ td <= now s')%nat ->
  b = self_visible B ti td (tuple s) -> self_xmin_post (Some b) s s'.
Proof using Type. intros Hi Ht E. split; [done|]. by exists ti, td. Qed.

Lemma self_visible_mine ti td h : inserter B ti h = IMine -> self_visible B ti td h = negb (deleted B td h).
Proof using Type. intros E. unfold self_visible. by rewrite E. Qed.

(** A tuple we inserted and whose updater is not ours: a subtransaction of
    ours that aborted. *)
Lemma own_updater s u : Inv B s0 s -> IsCurrent B (t_xmin (tuple s)) = true ->
  updater B (tuple s) = Some u -> IsCurrent B u = false -> forall t, xstate B t u = Aborted.
Proof.
  intros Hi Hc Hu Hn. destruct (ok_own _ _ _ _ (inv_tuple_ok B sn htup s0 Hok s Hi) Hc) as [_ H].
  destruct (H u Hu) as [?|?]; [congruence|done].
Qed.

Lemma aborted_ended t u : xstate B t u = Aborted ->
  IsInProgress B t u = false /\ DidCommit B t u = false /\ IsCurrent B u = false.
Proof using Type.
  unfold xstate. destruct (IsCurrent B u); [done|]. destruct (IsInProgress B t u); [done|].
  by destruct (DidCommit B t u).
Qed.

Lemma decided_hint s : Inv B s0 s ->
  (HeapTupleHeaderXminCommitted (tuple s) = true -> inserter B (now s) (tuple s) = IDone)
  /\ (HeapTupleHeaderXminInvalid (tuple s) = true -> inserter B (now s) (tuple s) = INever).
Proof using Type. intros Hi. destruct (inv_hints _ _ _ Hi) as [H1 H2 _ _]. done. Qed.

Lemma moved_in_progress s : Inv B s0 s -> HeapTupleHeaderXminCommitted (tuple s) = false ->
  HeapTupleHeaderXminInvalid (tuple s) = false -> has (t_infomask (tuple s)) HEAP_MOVED = true ->
  finds_ended (inProgress B) (HeapTupleHeaderGetXvac (tuple s)) s.
Proof.
  intros Hi Hc Hn Hm. apply (ancient_inProgress B sn). by eapply moved_ancient.
Qed.

(** Where the inserter is one of ours. *)
Lemma plain_mine h t : plain h -> IsCurrent B (t_xmin h) = true -> inserter B t h = IMine.
Proof using Type. intros Hp Hc. rewrite (plain_inserter _ _ Hp). unfold xstate. by rewrite Hc. Qed.

Ltac own_leaf :=
  match goal with |- self_xmin_post _ ?s ?s' => apply (self_xmin_leaf (now s) (now s)) end;
  [done|simpl; lia|rewrite self_visible_mine by (by apply plain_mine)].

Lemma Self_xmin_ok s : Inv B s0 s -> wpv (Self_xmin B) s (fun o s' => self_xmin_post o s s').
Proof.
  intros Hi. destruct (decided_hint s Hi) as [Hhc Hhi]. unfold Self_xmin.
  assert (Inv B s0 (tick s)) as Hi1 by (by eapply inv_tick).
  assert (forall s', Inv B s0 s' -> snapshot s' = snapshot s -> (now s <= now s')%nat ->
    inserter B (now s') (tuple s') = INever -> self_xmin_post (Some false) s s') as Hnever.
  { intros s' Hs' _ Ht E. apply (self_xmin_leaf (now s') (now s')); [done|lia|].
    unfold self_visible. rewrite <- (core_inserter B (tuple s) (tuple s')) by (by eapply inv_cores).
    by rewrite E. }
  assert (forall s', Inv B s0 s' -> snapshot s' = snapshot s -> (now s <= now s')%nat ->
    inserter B (now s') (tuple s') = IDone -> self_xmin_post None s s') as Hdone by (intros; by split).
  vsteps. all: try plain_facts.
  - by apply Hdone; auto.
  - by apply Hnever; auto.
  - eapply wpv_moved_off; eauto using moved_in_progress.
  - eapply wpv_moved_in; eauto using moved_in_progress.
  - own_leaf. by rewrite deleted_hint.
  - own_leaf. by rewrite deleted_none by by apply updater_locked.
  - eapply wpv_updateXid; [done..|]. intros u Hu _ _. vsteps.
    + own_leaf. by rewrite (deleted_current _ u).
    + own_leaf. by rewrite (deleted_by _ _ u Hu), (own_updater s u).
  - own_leaf. by rewrite (deleted_current _ (t_xmax (tuple s))) by (done || by apply updater_plain).
  - assert (updater B (tuple s) = Some (t_xmax (tuple s))) as Hu by (by apply updater_plain).
    pose proof (own_updater s _ Hi Heqb3 Hu Heqb7 (now s)) as Ha.
    destruct (aborted_ended _ _ Ha) as (Hr & Hd & _). eapply hint_gone; [done|done|done|by right|].
    intros s' Hs' _ Ht. apply wpv_ret, (self_xmin_leaf (now s) (now s)); [done|lia|].
    rewrite self_visible_mine by (by apply plain_mine). by rewrite (deleted_by _ _ _ Hu), Ha.
  - apply (self_xmin_leaf (now s) (now s)); [done|simpl; lia|]. unfold self_visible.
    rewrite (plain_inserter _ _ Hp). unfold xstate. by decided.
  - apply (xmin_settle false (tick s)); [done|done|apply (ended_stays _ _ Heqb4); simpl; lia| |];
      intros s' Hs' E Ht; [apply Hnever|apply Hdone]; (done || simpl in Ht; lia).
Qed.

Lemma core_self s s' ti td : Inv B s0 s -> Inv B s0 s' ->
  self_visible B ti td (tuple s') = self_visible B ti td (tuple s).
Proof using Type.
  intros Hi Hi'. assert (same_core (tuple s) (tuple s')) as Hc by (by eapply inv_cores).
  unfold self_visible, deleted. by rewrite (core_inserter B _ _ Hc), (core_updater B _ _ Hc).
Qed.

(** The answer of HeapTupleSatisfiesSelf. *)
Lemma satisfies_self : hints_ok B (now s0) (tuple s0) ->
  wpv (HeapTupleSatisfiesSelf B htup) s0 (fun b s => Inv B s0 s /\ exists ti td,
    (now s0 <= ti <= td /\ td <= now s)%nat /\ b = self_visible B ti td (tuple s0)).
Proof.
  intros Hh. assert (Inv B s0 s0) as Hi by (by apply inv_start).
  apply wpv_bind, (wpv_assert_htup B sn htup s0 Hok), wpv_block.
  eapply wpv_mono; [by apply Self_xmin_ok|]. intros [b|] s [Hs Hpost]; [done|].
  eapply wpv_mono; [by apply Self_xmax_ok|]. intros b s' (Hs' & td & Ht & ->). split; [done|].
  exists (now s), td. split; [pose proof (inv_time _ _ _ Hs); lia|].
  rewrite <- (core_self s0 s) by done. unfold self_visible. by rewrite Hpost.
Qed.
End self.
