(* ===== verification/VisDirty.v ===== *)
(** HeapTupleSatisfiesDirty: the answer of HeapTupleSatisfiesSelf extended by
    the effects of other open transactions, and the transactions it reports in
    the snapshot. *)
From S2P Require Import Prelude.
From S2P Require Import Xid.
From S2P Require Import HeapTuple.
From S2P Require Import ComboCid.
From S2P Require Import Snapshot.
From S2P Require Import Visibility.
From S2P Require Import VisSpec.
From S2P Require Import VisInv.
From S2P Require Import VisSelf.
Open Scope string_scope.
Open Scope list_scope.
Open Scope Z_scope.

#[local] Set Default Proof Using "Type*".

(** What is left in the snapshot: xmin, xmax and speculativeToken. *)
Definition reported (s : SnapshotData) : Z * Z * Z := (xmin s, xmax s, speculativeToken s).

Definition nothing : Z * Z * Z := (0, 0, 0).

Definition dirty_rule (B : Backend) (ti td : nat) (h : HeapTupleHeaderData) : bool * (Z * Z * Z) :=
  match inserter B ti h with
  | INever => (false, nothing)
  | IRunning => (true, (t_xmin h, 0, if HeapTupleHeaderIsSpeculative h
                                     then HeapTupleHeaderGetSpeculativeToken h else 0))
  | IMine | IDone =>
      match updater B h with
      | None => (true, nothing)
      | Some u => match xstate B td u with
                  | Mine | Committed => (false, nothing)
                  | Running => (true, (0, u, 0))
                  | Aborted => (true, nothing)
                  end
      end
  end.

Lemma report_xmax s u : reported s = nothing ->
  reported (report_xids (xmin s) u (speculativeToken s) s) = (0, u, 0).
Proof. unfold reported, nothing. intros [= E1 _ E3]. cbn. by rewrite E1, E3. Qed.

Lemma report_token s tok : reported s = nothing -> reported (report_xids (xmin s) (xmax s) tok s) = (0, 0, tok).
Proof. unfold reported, nothing. intros [= E1 E2 _]. cbn. by rewrite E1, E2. Qed.

Section dirty.
Context (B : Backend) {HB : History B} (sn : SnapshotData) (htup : HeapTupleData) (s0 : VState).
Context (Hok : tuple_ok B sn htup (tuple s0)).

Definition dirty_post (b : bool) (s s' : VState) : Prop :=
  Inv B s0 s' /\ exists ti td, (now s <= ti <= td /\ td <= now s')%nat
  /\ (b, reported (snapshot s')) = dirty_rule B ti td (tuple s).

Lemma dirty_leaf ti td b s s' : Inv B s0 s' -> (now s <= ti <= td /\ td <= now s')%nat ->
  (b, reported (snapshot s')) = dirty_rule B ti td (tuple s) -> dirty_post b s s'.
Proof using Type. intros Hi Ht E. split; [done|]. by exists ti, td. Qed.

(** Where the inserter is ours or done, by what is known of the updater. *)
Lemma dirty_here ti td h : inserter B ti h = IMine \/ inserter B ti h = IDone ->
  updater B h = None \/ (exists u, updater B h = Some u /\ xstate B td u <> Running) ->
  dirty_rule B ti td h = (negb (deleted B td h), nothing).
Proof using Type.
  intros Hi Hu. unfold dirty_rule, deleted. destruct Hu as [->|(u & -> & Hr)].
  - by destruct Hi as [-> | ->].
  - destruct Hi as [-> | ->]; by destruct (xstate B td u).
Qed.

Lemma dirty_running ti td h u : inserter B ti h = IMine \/ inserter B ti h = IDone ->
  updater B h = Some u -> IsCurrent B u = false -> IsInProgress B td u = true ->
  dirty_rule B ti td h = (true, (0, u, 0)).
Proof using Type.
  intros Hi Hu Hc Hr. unfold dirty_rule. rewrite Hu. unfold xstate. rewrite Hc, Hr. by destruct Hi as [-> | ->].
Qed.

Lemma xstate_not_running t t' u : IsInProgress B t u = false -> (t <= t')%nat -> xstate B t' u <> Running.
Proof using HB.
  intros E Ht. rewrite (xstate_ended_at B t' u (finished_stays t t' u Ht E)). by destruct (DidCommit B t' u).
Qed.

Lemma xstate_current t u : IsCurrent B u = true -> xstate B t u = Mine.
Proof using Type. intros E. unfold xstate. by rewrite E. Qed.

(** ** The xmax half *)
Lemma Dirty_xmax_ok s : Inv B s0 s -> inserter B (now s) (tuple s) = IDone -> reported (snapshot s) = nothing ->
  wpv (Dirty_xmax B) s (fun b s' => dirty_post b s s').
Proof.
  intros Hi Hins Hrep. pose proof (inv_hints _ _ _ Hi) as Hh. unfold Dirty_xmax.
  assert (Inv B s0 (tick s)) as Hi1 by (by eapply inv_tick).
  assert (Inv B s0 (tick (tick s))) as Hi2 by (by eapply inv_tick).
  assert (forall b td s', Inv B s0 s' -> (now s <= td <= now s')%nat -> reported (snapshot s') = nothing ->
    updater B (tuple s) = None \/ (exists u, updater B (tuple s) = Some u /\ xstate B td u <> Running) ->
    b = negb (deleted B td (tuple s)) -> dirty_post b s s') as Hleaf.
  { intros b td s' Hs' Ht Hr Hu E. apply (dirty_leaf (now s) td); [done|lia|].
    rewrite dirty_here by (done || by right). by rewrite Hr, E. }
  assert (forall u, updater B (tuple s) = Some u -> forall td, xstate B td u <> Running ->
    updater B (tuple s) = None \/ (exists u, updater B (tuple s) = Some u /\ xstate B td u <> Running)) as Hsome
    by (intros u Hu td Hx; right; by exists u).
  assert (HEAP_XMAX_IS_LOCKED_ONLY (t_infomask (tuple s)) = true -> forall s', Inv B s0 s' ->
    (now s <= now s')%nat -> reported (snapshot s') = nothing -> dirty_post true s s') as Hlock.
  { intros Hl s' Hs' Ht Hr. apply (Hleaf _ (now s)); [done|lia|done|left; by apply updater_locked|].
    by rewrite deleted_none by (by apply updater_locked). }
  vsteps.
  - apply (Hleaf _ (now s)); [done|lia|done| |by rewrite (deleted_hint B s0)].
    destruct (hint_xmax_invalid _ _ _ Hh) as [_ Hu]; [done|].
    destruct (updater B (tuple s)) as [u|] eqn:E; [|by left]. apply (Hsome u); [done|]. by rewrite (Hu u).
  - by apply Hlock.
  - destruct (hint_xmax_committed _ _ _ Hh) as [Hm Hx]; [done|].
    pose proof (updater_plain B (tuple s) Heqb1 Hm) as Hu.
    apply (Hleaf _ (now s)); [done|lia|done|apply (Hsome _ Hu); by rewrite Hx|].
    by rewrite (deleted_by B _ _ _ Hu), Hx.
  - by apply Hlock.
  - eapply wpv_updateXid; [done..|]. intros u Hu _ _. vsteps.
    + apply (Hleaf _ (now s)); [done|lia|done|apply (Hsome u Hu); by rewrite xstate_current|].
      by rewrite (deleted_current B _ u).
    + apply wpv_set_snapshot, wpv_ret, (dirty_leaf (now s) (now s)); [apply (inv_later B sn htup s0 Hok s); [done|done|simpl; lia]|simpl; lia|].
      rewrite (dirty_running _ _ _ u) by (done || by right). cbn [snapshot].
      by rewrite report_xmax.
    + apply (Hleaf _ (now s)); [done|simpl; lia|done|apply (Hsome u Hu); by eapply xstate_not_running|].
      rewrite (deleted_ended B _ u (now s) (S (now s))); [by decided|done|done|lia].
    + apply (Hleaf _ (now s)); [done|simpl; lia|done|apply (Hsome u Hu); by eapply xstate_not_running|].
      rewrite (deleted_ended B _ u (now s) (S (now s))); [by decided|done|done|lia].
  - by apply Hlock.
  - pose proof (updater_plain B (tuple s) Heqb3 Heqb1) as Hu.
    apply (Hleaf _ (now s)); [done|lia|done|apply (Hsome _ Hu); by rewrite xstate_current|].
    by rewrite (deleted_current B _ _ _ Hu).
  - by apply Hlock; [..|simpl; lia|].
  - pose proof (updater_plain B (tuple s) Heqb4 Heqb1) as Hu.
    apply wpv_set_snapshot, wpv_ret, (dirty_leaf (now s) (now s)); [apply (inv_later B sn htup s0 Hok s); [done|done|simpl; lia]|simpl; lia|].
    rewrite (dirty_running _ _ _ _) by (done || by right). cbn [snapshot].
      by rewrite report_xmax.
  - pose proof (ended_stays B _ _ Heqb3 (S (now s)) ltac:(lia)) as (Hr1 & _).
    assert (updater B (tuple s) = None \/ (exists u, updater B (tuple s) = Some u /\ xstate B (S (now s)) u <> Running)) as Hu.
    { unfold updater. rewrite Heqb1. destruct (HEAP_XMAX_IS_LOCKED_ONLY _); [by left|right].
      exists (t_xmax (tuple s)). split; [done|]. by eapply xstate_not_running. }
    apply (xmax_settle B sn htup s0 Hok (tick s)); [done|done|done| |].
    + intros s' Hs' E Ht Hd. cbn [tick tuple now snapshot] in *.
      apply (Hleaf _ (S (now s))); [done|lia|by rewrite E|done|by rewrite Hd].
    + intros s' Hs' E Ht _ Hu' Hx. cbn [tick tuple now snapshot] in *.
      apply wpv_ret, (Hleaf _ (S (now s))); [done|lia|by rewrite E|done|].
      by rewrite (deleted_by B _ _ _ Hu'), Hx.
Qed.

(** ** The xmin half *)
Definition dirty_xmin_post (o : option bool) (s s' : VState) : Prop :=
  match o with
  | Some b => dirty_post b s s'
  | None => Inv B s0 s' /\ inserter B (now s') (tuple s') = IDone /\ reported (snapshot s') = nothing
            /\ (now s <= now s')%nat
  end.

Lemma dirty_own s b : Inv B s0 s -> plain (tuple s) -> IsCurrent B (t_xmin (tuple s)) = true ->
  forall s', Inv B s0 s' -> (now s <= now s')%nat -> reported (snapshot s') = nothing ->
  b = negb (deleted B (now s) (tuple s)) -> dirty_xmin_post (Some b) s s'.
Proof.
  intros Hi Hp Hc s' Hs' Ht Hr E. apply (dirty_leaf (now s) (now s)); [done|lia|].
  rewrite dirty_here; [by rewrite Hr, E|left; by apply plain_mine|].
  destruct (updater B (tuple s)) as [u|] eqn:Hu; [right; exists u; split; [done|]|by left].
  destruct (IsCurrent B u) eqn:Hcu; [by rewrite xstate_current|].
  by rewrite (own_updater B sn htup s0 Hok s u).
Qed.

(** An insertion in progress is reported. *)
Lemma dirty_inserting s s1 tok : Inv B s0 s -> plain (tuple s) -> IsCurrent B (t_xmin (tuple s)) = false ->
  IsInProgress B (now s) (t_xmin (tuple s)) = true -> tuple s1 = tuple s -> (now s <= now s1)%nat ->
  tok = (if HeapTupleHeaderIsSpeculative (tuple s) then HeapTupleHeaderGetSpeculativeToken (tuple s) else 0) ->
  reported (snapshot s1) = (0, 0, tok) ->
  wpv (set_snap_xmin (t_xmin (tuple s));; returns true) s1 (fun o s' => dirty_xmin_post o s s').
Proof.
  intros Hi Hp Hc Hr E Ht -> Hrep. apply wpv_bind, wpv_set_snapshot, wpv_ret.
  apply (dirty_leaf (now s) (now s)); [by apply (inv_later B sn htup s0 Hok s)|simpl; lia|].
  unfold dirty_rule. rewrite (plain_inserter B _ _ Hp). unfold xstate. rewrite Hc, Hr. f_equal.
  unfold reported in Hrep |- *. injection Hrep as _ E2 E3. cbn. by rewrite E2, E3.
Qed.

Lemma Dirty_xmin_ok s : Inv B s0 s -> reported (snapshot s) = nothing ->
  wpv (Dirty_xmin B) s (fun o s' => dirty_xmin_post o s s').
Proof.
  intros Hi Hrep. destruct (decided_hint B s0 s Hi) as [Hhc Hhi]. unfold Dirty_xmin.
  assert (Inv B s0 (tick s)) as Hi1 by (by eapply inv_tick).
  assert (forall s', Inv B s0 s' -> snapshot s' = snapshot s -> (now s <= now s')%nat ->
    inserter B (now s') (tuple s') = INever -> dirty_xmin_post (Some false) s s') as Hnever.
  { intros s' Hs' Es Ht E. apply (dirty_leaf (now s') (now s')); [done|lia|].
    unfold dirty_rule. rewrite <- (core_inserter B (tuple s) (tuple s')) by (by eapply inv_cores).
    by rewrite E, Es, Hrep. }
  assert (forall s', Inv B s0 s' -> snapshot s' = snapshot s -> (now s <= now s')%nat ->
    inserter B (now s') (tuple s') = IDone -> dirty_xmin_post None s s') as Hdone
    by (intros s' ? Es ??; split; [done|]; split; [done|]; split; [by rewrite Es|done]).
  vsteps. all: try plain_facts.
  - by apply Hdone; auto.
  - by apply Hnever; auto.
  - eapply wpv_moved_off; eauto using moved_in_progress.
  - eapply wpv_moved_in; eauto using moved_in_progress.
  - apply dirty_own; try done. by rewrite (deleted_hint B s0).
  - apply dirty_own; try done. by rewrite deleted_none by by apply updater_locked.
  - eapply wpv_updateXid; [done..|]. intros u Hu _ _. vsteps.
    + apply dirty_own; try done. by rewrite (deleted_current B _ u).
    + apply dirty_own; try done. by rewrite (deleted_by B _ _ u Hu), (own_updater B sn htup s0 Hok s u).
  - apply dirty_own; try done.
    by rewrite (deleted_current B _ (t_xmax (tuple s))) by (done || by apply updater_plain).
  - assert (updater B (tuple s) = Some (t_xmax (tuple s))) as Hu by (by apply updater_plain).
    pose proof (own_updater B sn htup s0 Hok s _ Hi Heqb3 Hu Heqb7 (now s)) as Ha.
    destruct (aborted_ended B _ _ Ha) as (Hr & Hd & _). apply (hint_gone B sn htup s0 Hok); [done|done|done|by right|].
    intros s' Hs' Es Ht. apply wpv_ret, dirty_own; try done; [by rewrite Es|].
    by rewrite (deleted_by B _ _ _ Hu), Ha.
  - apply wpv_set_snapshot, wpv_assert.
    { destruct (ok_ctid _ _ _ _ (inv_tuple_ok B sn htup s0 Hok s Hi)) as [_ Ht]. specialize (Ht Heqb5). lia. }
    apply wpv_bind, wpv_get.
    apply (dirty_inserting s _ (HeapTupleHeaderGetSpeculativeToken (tuple s))); try done.
    + simpl; lia.
    + by rewrite Heqb5.
    + by apply report_token.
  - apply wpv_bind_inv.
    apply (dirty_inserting s (tick s) 0); try done; [simpl; lia|]. by rewrite Heqb5.
  - apply (xmin_settle B sn htup s0 Hok false (tick s)); [done|done|apply (ended_stays B _ _ Heqb4); simpl; lia| |];
      intros s' Hs' E Ht; [apply Hnever|apply Hdone]; (done || simpl in Ht; lia).
Qed.

(** The answer and the report of HeapTupleSatisfiesDirty. *)
Lemma satisfies_dirty : hints_ok B (now s0) (tuple s0) ->
  wpv (HeapTupleSatisfiesDirty B htup) s0 (fun b s => dirty_post b s0 s).
Proof.
  intros Hh. apply wpv_bind, (wpv_assert_htup B sn htup s0 Hok).
  apply wpv_bind, wpv_set_snapshot, wpv_bind, wpv_set_snapshot, wpv_bind, wpv_set_snapshot, wpv_block.
  set (s1 := mkV _ _ _ _).
  assert (Inv B s0 s1) as Hi by (apply (inv_later B sn htup s0 Hok s0); [by apply inv_start|done|done]).
  eapply wpv_mono; [by apply Dirty_xmin_ok|]. intros [b|] s; [done|]. intros (Hs & Hins & Hrep & Ht).
  eapply wpv_mono; [by apply Dirty_xmax_ok|]. intros b s' (Hs' & ti & td & Htt & E). split; [done|].
  exists ti, td. split; [cbn in Ht; lia|]. rewrite E.
  assert (same_core (tuple s0) (tuple s)) as Hc by (apply Hs).
  unfold dirty_rule. destruct (core_fields _ _ Hc) as (-> & _ & _ & Ec).
  unfold HeapTupleHeaderIsSpeculative, HeapTupleHeaderGetSpeculativeToken. rewrite Ec.
  by rewrite (core_inserter B _ _ Hc), (core_updater B _ _ Hc).
Qed.
End dirty.
