(* ===== verification/VisMvcc.v ===== *)
(** HeapTupleSatisfiesMVCC: a tuple is visible to a snapshot when its inserter
    is and its updater is not, whatever its hint bits are, and whenever the
    question is asked. *)
From S2P Require Import Prelude.
From S2P Require Import Xid.
From S2P Require Import HeapTuple.
From S2P Require Import ComboCid.
From S2P Require Import Snapshot.
From S2P Require Import Visibility.
From S2P Require Import VisSpec.
From S2P Require Import VisInv.
From S2P Require Import VisSelf.
Open Scope string_scope.
Open Scope list_scope.
Open Scope Z_scope.

#[local] Set Default Proof Using "Type*".

(** * The rule *)

(** [x] did its work before the snapshot was taken; [cid] is the command of our
    own transaction that did it. *)
Definition seen (B : Backend) (t : nat) (s : SnapshotData) (x cid : Z) : bool :=
  if IsCurrent B x then cid <? curcid s else negb (InSnapshot B s x) && DidCommit B t x.

Definition mvcc_inserted (B : Backend) (t : nat) (s : SnapshotData) (h : HeapTupleHeaderData) : bool :=
  if HeapTupleHeaderXminFrozen h then true
  else if has (t_infomask h) HEAP_MOVED_OFF then negb (DidCommit B t (HeapTupleHeaderGetXvac h))
  else if has (t_infomask h) HEAP_MOVED_IN then DidCommit B t (HeapTupleHeaderGetXvac h)
  else seen B t s (t_xmin h) (real_cmin B h).

Definition mvcc_deleted (B : Backend) (t : nat) (s : SnapshotData) (h : HeapTupleHeaderData) : bool :=
  match updater B h with Some u => seen B t s u (real_cmax B h) | None => false end.

Definition mvcc_visible (B : Backend) (t : nat) (s : SnapshotData) (h : HeapTupleHeaderData) : bool :=
  mvcc_inserted B t s h && negb (mvcc_deleted B t s h).

(** * The rule does not depend on the moment *)
Section time.
Context (B : Backend) {HB : History B} (sn : SnapshotData) (Hsn : snapshot_ok B sn).

Lemma seen_any_time t t' x cid : seen B t sn x cid = seen B t' sn x cid.
Proof.
  unfold seen. destruct (IsCurrent B x) eqn:Hc; [done|].
  destruct (InSnapshot B sn x) eqn:Hs; [done|]. cbn.
  destruct (Nat.le_ge_cases t t') as [H|H].
  - symmetry. apply outcome_stays; [done|]. by apply Hsn.
  - apply outcome_stays; [done|]. by apply Hsn.
Qed.

Lemma mvcc_deleted_any_time t t' h : mvcc_deleted B t sn h = mvcc_deleted B t' sn h.
Proof. unfold mvcc_deleted. destruct (updater B h); [apply seen_any_time|done]. Qed.

Lemma mvcc_inserted_any_time htup t t' h : tuple_ok B sn htup h ->
  mvcc_inserted B t sn h = mvcc_inserted B t' sn h.
Proof.
  intros Hok. unfold mvcc_inserted. destruct (HeapTupleHeaderXminFrozen h) eqn:Hf; [done|].
  assert (has (t_infomask h) HEAP_MOVED = true ->
    DidCommit B t (HeapTupleHeaderGetXvac h) = DidCommit B t' (HeapTupleHeaderGetXvac h)) as Hx.
  { intros Hm. destruct (ok_moved _ _ _ _ Hok Hf Hm) as [_ (_ & _ & Hr)].
    destruct (Nat.le_ge_cases t t') as [H|H]; [symmetry|]; by apply outcome_stays. }
  rewrite has_moved in Hx. revert Hx.
  destruct (has (t_infomask h) HEAP_MOVED_OFF); [intros ->; done|].
  destruct (has (t_infomask h) HEAP_MOVED_IN); [intros ->; done|]. intros _. apply seen_any_time.
Qed.
End time.

Section mvcc.
Context (B : Backend) {HB : History B} (sn : SnapshotData) (htup : HeapTupleData) (s0 : VState).
Context (Hok : tuple_ok B sn htup (tuple s0)) (Hsn : snapshot_ok B sn).

(** By what is known of the updater. *)
Lemma mvcc_by t h u : updater B h = Some u ->
  mvcc_deleted B t sn h = seen B t sn u (real_cmax B h).
Proof using Type. intros E. unfold mvcc_deleted. by rewrite E. Qed.

Lemma mvcc_none t h : updater B h = None -> mvcc_deleted B t sn h = false.
Proof using Type. intros E. unfold mvcc_deleted. by rewrite E. Qed.

Lemma seen_aborted t x cid : xstate B t x = Aborted -> seen B t sn x cid = false.
Proof using Type.
  intros E. destruct (aborted_ended B t x E) as (_ & Hd & Hc). unfold seen. rewrite Hc, Hd. apply andb_false_r.
Qed.

Lemma mvcc_hint s : Inv B s0 s -> has (t_infomask (tuple s)) HEAP_XMAX_INVALID = true ->
  mvcc_deleted B (now s) sn (tuple s) = false.
Proof using Type.
  intros Hi Hx. destruct (hint_xmax_invalid _ _ _ (inv_hints _ _ _ Hi) Hx) as [_ Hu].
  unfold mvcc_deleted. destruct (updater B (tuple s)) as [u|]; [|done]. by apply seen_aborted, Hu.
Qed.

(** An updater of ours: its command decides. *)
Lemma wpv_deleted_after_scan s u (Q : bool -> VState -> Prop) :
  Inv B s0 s -> snapshot s = sn -> updater B (tuple s) = Some u -> IsCurrent B u = true ->
  has (t_infomask (tuple s)) HEAP_XMAX_INVALID = false ->
  Q (negb (mvcc_deleted B (now s) sn (tuple s))) s -> wpv (deleted_after_scan B) s Q.
Proof.
  intros Hi E Hu Hc Hx HQ. apply wpv_bind, (wpv_getCmax B sn htup s0 Hok s u); [done..|].
  apply wpv_bind, wpv_get, wpv_ret. rewrite (mvcc_by _ _ u Hu) in HQ. unfold seen in HQ.
  rewrite Hc, Z.ltb_antisym, negb_involutive, <- E in HQ. exact HQ.
Qed.

Definition mvcc_post (b : bool) (s s' : VState) : Prop :=
  Inv B s0 s' /\ snapshot s' = sn /\ b = negb (mvcc_deleted B (now s) sn (tuple s)).

(** A foreign updater: the snapshot decides, then the commit log. *)
Lemma mvcc_in_snapshot t h u : updater B h = Some u -> IsCurrent B u = false -> InSnapshot B sn u = true ->
  mvcc_deleted B t sn h = false.
Proof using Type. intros Hu Hc Hs. rewrite (mvcc_by _ _ u Hu). unfold seen. by rewrite Hc, Hs. Qed.

Lemma mvcc_outside t t' h u : updater B h = Some u -> IsCurrent B u = false -> InSnapshot B sn u = false ->
  mvcc_deleted B t sn h = DidCommit B t' u.
Proof using HB Hsn.
  intros Hu Hc Hs. rewrite (mvcc_deleted_any_time B sn Hsn t t'), (mvcc_by _ _ u Hu). unfold seen. by rewrite Hc, Hs.
Qed.

Lemma core_mvcc_deleted s s' t : Inv B s0 s -> Inv B s0 s' ->
  mvcc_deleted B t sn (tuple s') = mvcc_deleted B t sn (tuple s).
Proof using Type.
  intros Hi Hi'. assert (same_core (tuple s) (tuple s')) as Hc by (by eapply inv_cores).
  unfold mvcc_deleted. rewrite (core_updater B _ _ Hc). by rewrite (proj2 (core_cids B _ _ Hc)).
Qed.

Lemma mvcc_leaf b s s' : Inv B s0 s' -> snapshot s' = sn ->
  b = negb (mvcc_deleted B (now s) sn (tuple s)) -> mvcc_post b s s'.
Proof using Type. done. Qed.

Lemma MVCC_xmax_ok s : Inv B s0 s -> snapshot s = sn ->
  wpv (MVCC_xmax B) s (fun b s' => mvcc_post b s s').
Proof.
  intros Hi Es. pose proof (inv_hints _ _ _ Hi) as Hh. unfold MVCC_xmax.
  assert (Inv B s0 (tick s)) as Hi1 by (by eapply inv_tick).
  assert (snapshot (tick s) = sn) as Es1 by done.
  vsteps; rewrite ?Es in *.
  4-8: pose proof (updater_plain B (tuple s) Heqb0 Heqb1) as Hu.
  - apply mvcc_leaf; [done..|]. by rewrite mvcc_hint.
  - apply mvcc_leaf; [done..|]. by rewrite mvcc_none by (by apply updater_locked).
  - apply wpv_assert; [by rewrite Heqb0|]. vsteps. eapply wpv_updateXid; [done..|]. intros u Hu _ _. vsteps.
    + eapply wpv_deleted_after_scan; [done..|]. vsteps; apply mvcc_leaf; (done || by decided).
    + apply mvcc_leaf; [done..|]. rewrite Es in *. by rewrite (mvcc_in_snapshot _ _ u).
    + apply mvcc_leaf; [done..|]. rewrite Es in *. rewrite (mvcc_outside _ (now s) _ u); [by decided|done..].
    + apply mvcc_leaf; [done..|]. rewrite Es in *. rewrite (mvcc_outside _ (now s) _ u); [by decided|done..].
  - destruct (hint_xmax_committed _ _ _ Hh) as [_ Hx]; [done|]. apply mvcc_leaf; [done..|].
    rewrite (mvcc_in_snapshot _ _ _ Hu); [done| |done]. revert Hx. unfold xstate. by destruct (IsCurrent B _).
  - destruct (hint_xmax_committed _ _ _ Hh) as [_ Hx]; [done|]. apply mvcc_leaf; [done..|].
    revert Hx. unfold xstate. destruct (IsCurrent B _) eqn:Hc; [done|].
    destruct (IsInProgress B _ _); [done|]. destruct (DidCommit B _ _) eqn:Hd; [|done]. intros _.
    by rewrite (mvcc_outside _ (now s) _ _ Hu), Hd.
  - eapply wpv_deleted_after_scan; [done..|]. vsteps; apply mvcc_leaf; (done || by decided).
  - apply mvcc_leaf; [done..|]. by rewrite (mvcc_in_snapshot _ _ _ Hu).
  - assert (forall t, IsInProgress B t (t_xmax (tuple s)) = false) as Hr by (intros t; by apply Hsn).
    destruct (ended_stays B _ _ (Hr (now s)) (S (now s)) ltac:(lia)) as (_ & Hd1 & Hx1).
    apply wpv_bind. vsteps.
    + apply (wpv_hint_xmax_committed B sn htup s0 Hok (tick s)); [done|done|done|].
      intros s' Hs' E _. apply wpv_ret, wpv_ret, mvcc_leaf; [done|by rewrite E|].
      rewrite (mvcc_outside _ (now s) _ _ Hu); [by decided|done..].
    + apply (hint_gone B sn htup s0 Hok (tick s)); [done|done|apply Hr|by right|].
      intros s' Hs' E _. apply wpv_ret, mvcc_leaf; [done|by rewrite E|].
      rewrite (mvcc_outside _ (now s) _ _ Hu); [by decided|done..].
Qed.

(** ** The xmin half *)
Definition mvcc_xmin_post (o : option bool) (s s' : VState) : Prop :=
  Inv B s0 s' /\ snapshot s' = sn
  /\ match o with
     | Some b => b = mvcc_visible B (now s) sn (tuple s)
     | None => mvcc_inserted B (now s) sn (tuple s) = true
     end.

(** The rule of the snapshot agrees with a decided inserter that the snapshot
    does not show as running. *)
Lemma mvcc_inserted_done t h : tuple_ok B sn htup h -> inserter B t h = IDone ->
  HeapTupleHeaderXminFrozen h = true \/ InSnapshot B sn (t_xmin h) = false -> mvcc_inserted B t sn h = true.
Proof using HB.
  intros Ho. unfold inserter, mvcc_inserted. destruct (HeapTupleHeaderXminFrozen h) eqn:Hf; [done|].
  destruct (has (t_infomask h) HEAP_MOVED_OFF); [by destruct (DidCommit B t _)|].
  destruct (has (t_infomask h) HEAP_MOVED_IN); [by destruct (DidCommit B t _)|].
  unfold xstate, seen. destruct (IsCurrent B _); [done|]. destruct (IsInProgress B t _); [done|].
  destruct (DidCommit B t _); [|done]. by intros _ [?| ->].
Qed.

Lemma mvcc_inserted_never t h : inserter B t h = INever -> mvcc_inserted B t sn h = false.
Proof using Type.
  unfold inserter, mvcc_inserted. destruct (HeapTupleHeaderXminFrozen h) eqn:Hf; [done|].
  destruct (has (t_infomask h) HEAP_MOVED_OFF); [by destruct (DidCommit B t _)|].
  destruct (has (t_infomask h) HEAP_MOVED_IN); [by destruct (DidCommit B t _)|].
  unfold xstate, seen. destruct (IsCurrent B _); [done|]. destruct (IsInProgress B t _); [done|].
  destruct (DidCommit B t _); [done|]. intros _. apply andb_false_r.
Qed.

(** An inserter that the snapshot shows as running. *)
Lemma mvcc_inserted_running t h : tuple_ok B sn htup h -> HeapTupleHeaderXminFrozen h = false ->
  IsCurrent B (t_xmin h) = false -> InSnapshot B sn (t_xmin h) = true -> mvcc_inserted B t sn h = false.
Proof using Type.
  intros Ho Hf Hc Hs. unfold mvcc_inserted. rewrite Hf. pose proof (ok_moved _ _ _ _ Ho Hf) as Hm.
  rewrite has_moved in Hm. revert Hm.
  destruct (has (t_infomask h) HEAP_MOVED_OFF); [intros [(_ & H & _) _]; [done|congruence]|].
  destruct (has (t_infomask h) HEAP_MOVED_IN); [intros [(_ & H & _) _]; [done|congruence]|].
  intros _. unfold seen. by rewrite Hc, Hs.
Qed.

Lemma done_not_current t h : tuple_ok B sn htup h -> HeapTupleHeaderXminFrozen h = false ->
  inserter B t h = IDone -> IsCurrent B (t_xmin h) = false.
Proof using Type.
  intros Ho Hf. unfold inserter. rewrite Hf. pose proof (ok_moved _ _ _ _ Ho Hf) as Hm.
  rewrite has_moved in Hm. revert Hm.
  destruct (has (t_infomask h) HEAP_MOVED_OFF); [intros [(H & _) _]; done|].
  destruct (has (t_infomask h) HEAP_MOVED_IN); [intros [(H & _) _]; done|].
  intros _. unfold xstate. by destruct (IsCurrent B _).
Qed.

(** An inserter of ours: its command decides, then the updater. *)
Lemma plain_mvcc t h : plain h -> mvcc_inserted B t sn h = seen B t sn (t_xmin h) (real_cmin B h).
Proof using Type.
  intros (Hc & Hn & Ho & Hi). destruct (unhinted _ Hc Hn) as [_ Hf]. unfold mvcc_inserted. by rewrite Hf, Ho, Hi.
Qed.

Lemma mvcc_own_leaf b s s' : Inv B s0 s' -> snapshot s' = sn -> plain (tuple s) ->
  IsCurrent B (t_xmin (tuple s)) = true -> real_cmin B (tuple s) < curcid sn ->
  b = negb (mvcc_deleted B (now s) sn (tuple s)) -> mvcc_xmin_post (Some b) s s'.
Proof using Type.
  intros Hi Es Hp Hc Hlt ->. split; [done|]. split; [done|]. unfold mvcc_visible.
  rewrite (plain_mvcc _ _ Hp). unfold seen at 1. rewrite Hc. by rewrite (proj2 (Z.ltb_lt _ _) Hlt).
Qed.

Lemma mvcc_not_inserted s s' : Inv B s0 s' -> snapshot s' = sn ->
  mvcc_inserted B (now s) sn (tuple s) = false -> mvcc_xmin_post (Some false) s s'.
Proof using Type. intros Hi Es E. split; [done|]. split; [done|]. unfold mvcc_visible. by rewrite E. Qed.

Lemma core_mvcc_inserted s s' t : Inv B s0 s -> Inv B s0 s' ->
  mvcc_inserted B t sn (tuple s') = mvcc_inserted B t sn (tuple s).
Proof using Type.
  intros Hi Hi'. assert (same_core (tuple s) (tuple s')) as Hc by (by eapply inv_cores).
  unfold mvcc_inserted. rewrite (core_frozen _ _ Hc), !(core_has _ _ Hc), (core_xvac _ _ Hc) by done.
  destruct (core_fields _ _ Hc) as (-> & _). by rewrite (proj1 (core_cids B _ _ Hc)).
Qed.

(** The rest of the branch for a tuple of our own. *)
Lemma mvcc_own s : Inv B s0 s -> snapshot s = sn -> plain (tuple s) ->
  IsCurrent B (t_xmin (tuple s)) = true -> real_cmin B (tuple s) < curcid sn ->
  wpv (If bit HEAP_XMAX_INVALID then returns true
       else If lockedOnly then returns true
       else If bit HEAP_XMAX_IS_MULTI then
              xmax ← updateXid B;
              If Not isCurrent B xmax then returns true
              else If deleted_after_scan B then returns true
              else returns false
       else If Not (x ← rawXmax; isCurrent B x) then
              SetHintBits B HEAP_XMAX_INVALID InvalidTransactionId;; returns true
       else If deleted_after_scan B then returns true
       else returns false) s (fun o s' => mvcc_xmin_post o s s').
Proof.
  intros Hi Es Hp Hc Hlt. vsteps.
  - apply mvcc_own_leaf; try done. by rewrite mvcc_hint.
  - apply mvcc_own_leaf; try done. by rewrite mvcc_none by (by apply updater_locked).
  - eapply wpv_updateXid; [done..|]. intros u Hu _ _. vsteps.
    + eapply wpv_deleted_after_scan; [done..|]. vsteps; apply mvcc_own_leaf; (done || by decided).
    + apply mvcc_own_leaf; try done. rewrite (mvcc_by _ _ u Hu), seen_aborted; [done|].
      by apply (own_updater B sn htup s0 Hok s u).
  - eapply wpv_deleted_after_scan; [done|done|by apply updater_plain|done|done|].
    vsteps; apply mvcc_own_leaf; (done || by decided).
  - assert (updater B (tuple s) = Some (t_xmax (tuple s))) as Hu by (by apply updater_plain).
    pose proof (own_updater B sn htup s0 Hok s _ Hi Hc Hu Heqb2 (now s)) as Ha.
    destruct (aborted_ended B _ _ Ha) as (Hr & Hd & _).
    apply (hint_gone B sn htup s0 Hok); [done|done|done|by right|].
    intros s' Hs' E Ht. apply wpv_ret, mvcc_own_leaf; try done; [by rewrite E|].
    by rewrite (mvcc_by _ _ _ Hu), seen_aborted.
Qed.

Lemma MVCC_xmin_ok s : Inv B s0 s -> snapshot s = sn ->
  wpv (MVCC_xmin B) s (fun o s' => mvcc_xmin_post o s s').
Proof.
  intros Hi Es. destruct (decided_hint B s0 s Hi) as [Hhc Hhi]. unfold MVCC_xmin.
  pose proof (inv_tuple_ok B sn htup s0 Hok s Hi) as Ho.
  assert (forall t, mvcc_inserted B t sn (tuple s) = mvcc_inserted B (now s) sn (tuple s)) as Hat
    by (intros t; by apply (mvcc_inserted_any_time B sn Hsn htup)).
  assert (forall s', Inv B s0 s' -> snapshot s' = snapshot s -> (now s <= now s')%nat ->
    inserter B (now s') (tuple s') = INever -> mvcc_xmin_post (Some false) s s') as Hnever.
  { intros s' Hs' E Ht Hn. apply mvcc_not_inserted; [done|congruence|].
    rewrite <- (Hat (now s')), <- (core_mvcc_inserted s s') by done. by apply mvcc_inserted_never. }
  assert (InSnapshot B sn (t_xmin (tuple s)) = false -> forall s', Inv B s0 s' -> snapshot s' = snapshot s ->
    (now s <= now s')%nat -> inserter B (now s') (tuple s') = IDone -> mvcc_xmin_post None s s') as Hdone.
  { intros Hns s' Hs' E Ht Hn. split; [done|]. split; [congruence|].
    rewrite <- (Hat (now s')), <- (core_mvcc_inserted s s') by done.
    apply mvcc_inserted_done; [by apply (inv_tuple_ok B sn htup s0 Hok s')|done|right].
    assert (same_core (tuple s) (tuple s')) as Hc by (by eapply inv_cores).
    by destruct (core_fields _ _ Hc) as (-> & _). }
  vsteps; rewrite ?Es in *. all: try plain_facts.
  - split; [done|]. split; [done|]. apply mvcc_inserted_done; [done|by apply Hhc|by left].
  - apply mvcc_not_inserted; [done..|]. apply mvcc_inserted_running; [done..| |done].
    apply (done_not_current (now s)); [done..|by apply Hhc].
  - apply Hdone; [done|done|by rewrite Es|done|by apply Hhc].
  - apply Hnever; [done|by rewrite Es|done|by apply Hhi].
  - destruct (unhinted _ Heqb Heqb0) as [_ Hf].
    destruct (ok_moved _ _ _ _ Ho Hf) as [Ha' Ha]; [by rewrite has_moved, Heqb1|].
    eapply (wpv_moved_off B sn htup s0 Hok); try done.
    + intros _. by apply (ancient_inSnapshot B sn).
    + intros; apply Hnever; congruence.
    + intros; apply Hdone; [apply Ha'|congruence..].
  - destruct (unhinted _ Heqb Heqb0) as [_ Hf].
    destruct (ok_moved _ _ _ _ Ho Hf) as [Ha' Ha]; [by rewrite has_moved, Heqb1, Heqb2|].
    eapply (wpv_moved_in B sn htup s0 Hok); try done.
    + intros _. by apply (ancient_inSnapshot B sn).
    + intros; apply Hnever; congruence.
    + intros; apply Hdone; [apply Ha'|congruence..].
  - destruct (unhinted _ Heqb Heqb0) as [_ Hf].
    eapply (wpv_getCmin B sn htup s0 Hok); [done|by rewrite has_moved, Heqb1, Heqb2|done|done|].
    apply wpv_bind, wpv_get, wpv_ret. rewrite Es.
    destruct (Z.leb_spec (curcid sn) (real_cmin B (tuple s))) as [Hle|Hlt].
    + apply wpv_ret, mvcc_not_inserted; [done..|]. rewrite (plain_mvcc _ _ Hp). unfold seen.
      rewrite Heqb3. lia.
    + by apply mvcc_own.
  - apply mvcc_not_inserted; [done..|]. destruct (unhinted _ Heqb Heqb0) as [_ Hf].
    by apply mvcc_inserted_running.
  - apply (xmin_settle B sn htup s0 Hok false s); [done|done|by apply Hsn|..].
    + intros; apply Hnever; congruence.
    + intros; apply Hdone; congruence.
Qed.

(** The answer of HeapTupleSatisfiesMVCC. *)
Lemma satisfies_mvcc : snapshot s0 = sn -> hints_ok B (now s0) (tuple s0) ->
  wpv (HeapTupleSatisfiesMVCC B htup) s0 (fun b s => Inv B s0 s /\ snapshot s = sn
    /\ b = mvcc_visible B (now s0) sn (tuple s0)).
Proof.
  intros Es Hh. assert (Inv B s0 s0) as Hi by (by apply inv_start).
  apply wpv_bind, (wpv_assert_htup B sn htup s0 Hok), wpv_block.
  eapply wpv_mono; [by apply MVCC_xmin_ok|]. intros [b|] s (Hs & E & Hpost); [done|].
  eapply wpv_mono; [by apply MVCC_xmax_ok|]. intros b s' (Hs' & E' & ->).
  split; [done|]. split; [done|]. unfold mvcc_visible. rewrite Hpost. cbn [andb]. f_equal.
  rewrite (core_mvcc_deleted s0 s) by done. apply (mvcc_deleted_any_time B sn Hsn).
Qed.
End mvcc.
