(* ===== verification/VisUpdate.v ===== *)
(** HeapTupleSatisfiesUpdate: what an UPDATE, DELETE or row lock is told about
    a tuple, as a rule about its inserter and everything in its xmax, each
    judged at one moment during the call. *)
From S2P Require Import Prelude.
From S2P Require Import Xid.
From S2P Require Import HeapTuple.
From S2P Require Import ComboCid.
From S2P Require Import Snapshot.
From S2P Require Import Visibility.
From S2P Require Import VisSpec.
From S2P Require Import VisInv.
From S2P Require Import VisSelf.
Open Scope string_scope.
Open Scope list_scope.
Open Scope Z_scope.

#[local] Set Default Proof Using "Type*".

(** * The rule *)

(** What stands in xmax: a deletion of ours, someone at work on the tuple
    (updater or locker), a committed update or deletion, or nothing. *)
Definition update_xmax_rule (B : Backend) (htup : HeapTupleData) (cid : Z) (t : nat) (h : HeapTupleHeaderData)
  : TM_Result :=
  let others :=
    if xmax_running B t h then TM_BeingModified
    else match updater B h with
         | Some u => match xstate B t u with
                     | Committed => if ItemPointerEquals (t_self htup) (t_ctid h) then TM_Deleted else TM_Updated
                     | _ => TM_Ok
                     end
         | None => TM_Ok
         end in
  match updater B h with
  | Some u => if IsCurrent B u then if cid <=? real_cmax B h then TM_SelfModified else TM_Invisible else others
  | None => others
  end.

Definition update_rule (B : Backend) (htup : HeapTupleData) (cid : Z) (ti td : nat) (h : HeapTupleHeaderData)
  : TM_Result :=
  match inserter B ti h with
  | INever | IRunning => TM_Invisible
  | IMine => if cid <=? real_cmin B h then TM_Invisible else update_xmax_rule B htup cid td h
  | IDone => update_xmax_rule B htup cid td h
  end.

(** * Members of a MultiXact *)
Lemma find_updater_in ms x u : find_updater ms x = Ok u -> u = x \/ exists m, In m ms /\ mx_xid m = u.
Proof.
  revert x. induction ms as [|m ms IH]; intros x; cbn [find_updater]; [intros [= ->]; by left|].
  destruct (negb (ISUPDATE_from_mxstatus (mx_status m))).
  - intros H. destruct (IH _ H) as [?|(m' & Hin & E)]; [by left|right]. exists m'. split; [by right|done].
  - destruct (x =? InvalidTransactionId); [cbn|done]. intros H. right.
    destruct (IH _ H) as [->|(m' & Hin & E)]; [exists m; split; [by left|done]|].
    exists m'. split; [by right|done].
Qed.

Section update.
Context (B : Backend) {HB : History B} (sn : SnapshotData) (htup : HeapTupleData) (s0 : VState) (cid : Z).
Context (Hok : tuple_ok B sn htup (tuple s0)).

(** When nothing in the MultiXact runs, its updater has ended. *)
Lemma multi_updater_ended t h u : has (t_infomask h) HEAP_XMAX_IS_MULTI = true ->
  updater B h = Some u -> u <> 0 -> xmax_running B t h = false -> IsInProgress B t u = false.
Proof using Type.
  intros Hm. unfold updater, xmax_running. rewrite Hm.
  destruct (HEAP_XMAX_IS_LOCKED_ONLY (t_infomask h)) eqn:Hl; [done|].
  assert (has (t_infomask h) HEAP_XMAX_LOCK_ONLY = false) as Hlo
    by (unfold HEAP_XMAX_IS_LOCKED_ONLY in Hl; by apply orb_false_iff in Hl as [? _]).
  unfold HEAP_LOCKED_UPGRADED. rewrite Hlo, andb_false_r. cbn [andb].
  unfold HeapTupleGetUpdateXid, MultiXactIdGetUpdateXid, GetMultiXactIdMembers. rewrite Hlo, Hm.
  cbn [negb Assert mbind res_bind]. unfold HeapTupleHeaderGetRawXmax.
  destruct (Members B (t_xmax h) false) as [ms|]; [|done]. cbn [mbind res_bind].
  destruct (find_updater ms InvalidTransactionId) as [v| |] eqn:Ef; [|done|done].
  intros [= ->] Hu Hr. destruct (find_updater_in _ _ _ Ef) as [->|(m & Hin & <-)]; [done|].
  destruct (IsInProgress B t (mx_xid m)) eqn:E; [|done].
  rewrite <- Hr. symmetry. apply existsb_exists. by exists m.
Qed.

Lemma upgraded_locked im : HEAP_LOCKED_UPGRADED im = true -> HEAP_XMAX_IS_LOCKED_ONLY im = true.
Proof using Type.
  unfold HEAP_LOCKED_UPGRADED, HEAP_XMAX_IS_LOCKED_ONLY.
  destruct (has im HEAP_XMAX_LOCK_ONLY); [done|]. by rewrite andb_false_r.
Qed.

Lemma unlocked_not_upgraded im : HEAP_XMAX_IS_LOCKED_ONLY im = false -> HEAP_LOCKED_UPGRADED im = false.
Proof using Type. intros H. destruct (HEAP_LOCKED_UPGRADED im) eqn:E; [|done]. by rewrite (upgraded_locked _ E) in H. Qed.

(** ** The rule by what is known of xmax *)
Abbreviation rule := (update_xmax_rule B htup cid).

Lemma rule_own t h u : updater B h = Some u -> IsCurrent B u = true ->
  rule t h = if cid <=? real_cmax B h then TM_SelfModified else TM_Invisible.
Proof using Type. intros Hu Hc. unfold update_xmax_rule. by rewrite Hu, Hc. Qed.

(** The updater, if there is one, is not ours. *)
Definition foreign (h : HeapTupleHeaderData) : Prop := forall u, updater B h = Some u -> IsCurrent B u = false.

Lemma rule_running t h : foreign h -> xmax_running B t h = true -> rule t h = TM_BeingModified.
Proof using Type.
  intros Hf Hr. unfold update_xmax_rule. rewrite Hr. unfold foreign in Hf.
  destruct (updater B h) as [u|]; [|done]. by rewrite (Hf u).
Qed.

Lemma rule_ok t h : xmax_running B t h = false -> (forall u, updater B h = Some u -> xstate B t u = Aborted) ->
  rule t h = TM_Ok.
Proof using Type.
  intros Hr Hu. unfold update_xmax_rule. rewrite Hr. destruct (updater B h) as [u|]; [|done].
  rewrite (Hu u) by done. by destruct (aborted_ended B t u (Hu u eq_refl)) as (_ & _ & ->).
Qed.

Lemma rule_gone t h u : updater B h = Some u -> xmax_running B t h = false -> xstate B t u = Committed ->
  rule t h = if ItemPointerEquals (t_self htup) (t_ctid h) then TM_Deleted else TM_Updated.
Proof using Type.
  intros Hu Hr Hx. unfold update_xmax_rule. rewrite Hu, Hr, Hx.
  revert Hx. unfold xstate. by destruct (IsCurrent B u).
Qed.

(** ** Callees *)
Lemma wpv_updated_or_deleted s (Q : TM_Result -> VState -> Prop) : Inv B s0 s ->
  Q (if ItemPointerEquals (t_self htup) (t_ctid (tuple s)) then TM_Deleted else TM_Updated) s ->
  wpv (updated_or_deleted htup) s Q.
Proof.
  intros Hi HQ. pose proof (inv_tuple_ok B sn htup s0 Hok s Hi) as Ho.
  apply wpv_bind, wpv_get, wpv_bind, wpv_assert; [by apply (ok_self _ _ _ _ Ho)|].
  apply wpv_bind, wpv_assert; [by apply (ok_ctid _ _ _ _ Ho)|].
  by destruct (ItemPointerEquals (t_self htup) (t_ctid (tuple s))).
Qed.

Lemma wpv_get_updater s : Inv B s0 s -> has (t_infomask (tuple s)) HEAP_XMAX_IS_MULTI = true ->
  HEAP_XMAX_IS_LOCKED_ONLY (t_infomask (tuple s)) = false ->
  forall P : Prop, (forall u, updater B (tuple s) = Some u -> HeapTupleGetUpdateXid (Members B) (tuple s) = Ok u -> u <> 0 -> P) -> P.
Proof.
  intros Hi Hm Hl P HP. destruct (ok_multi _ _ _ _ (inv_tuple_ok B sn htup s0 Hok s Hi) Hm) as [_ Hu].
  destruct (Hu Hl) as (u & Hu0 & E). apply (HP u); [|done|done]. unfold updater. by rewrite Hl, Hm, E.
Qed.

(** [MultiXactIdIsRunning] with the flag the caller derived. *)
Lemma wpv_running s b (Q : bool -> VState -> Prop) :
  Inv B s0 s -> has (t_infomask (tuple s)) HEAP_XMAX_IS_MULTI = true ->
  HEAP_LOCKED_UPGRADED (t_infomask (tuple s)) = false ->
  HEAP_XMAX_IS_LOCKED_ONLY (t_infomask (tuple s)) = b ->
  (forall b s', later s s' -> Inv B s0 s' ->
     (b = true -> exists t, (now s <= t <= now s')%nat /\ xmax_running B t (tuple s) = true) ->
     (b = false -> xmax_running B (now s') (tuple s) = false) -> Q b s') ->
  wpv (MultiXactIdIsRunning B (t_xmax (tuple s)) b) s Q.
Proof.
  intros Hi Hm Hu <- HQ. apply (wpv_MultiXactIdIsRunning B sn htup s0 Hok); [done..|].
  intros b s' Hl Ht Hf. apply HQ; [done| |done..]. by apply (inv_after B sn htup s0 Hok s).
Qed.

Definition update_post (r : TM_Result) (s s' : VState) : Prop :=
  Inv B s0 s' /\ exists td, (now s <= td <= now s')%nat /\ r = rule td (tuple s).

Lemma update_leaf td r s s' : Inv B s0 s' -> (now s <= td <= now s')%nat -> rule td (tuple s) = r ->
  update_post r s s'.
Proof using Type. intros Hi Ht E. split; [done|]. by exists td. Qed.

(** An updater of ours: its command decides. *)
Lemma wpv_own_cmax s u (Q : Z -> VState -> Prop) :
  Inv B s0 s -> updater B (tuple s) = Some u -> IsCurrent B u = true ->
  has (t_infomask (tuple s)) HEAP_XMAX_INVALID = false ->
  (forall c, (forall t, rule t (tuple s) = if cid <=? c then TM_SelfModified else TM_Invisible) -> Q c s) ->
  wpv (getCmax B) s Q.
Proof.
  intros Hi Hu Hc Hx HQ. apply (wpv_getCmax B sn htup s0 Hok s u); [done..|].
  apply HQ. intros t. by apply (rule_own _ _ u).
Qed.

(** The rule on a plain xmax. *)
Lemma plain_running t h : has (t_infomask h) HEAP_XMAX_IS_MULTI = false ->
  xmax_running B t h = IsInProgress B t (t_xmax h).
Proof using Type. intros Hm. unfold xmax_running. by rewrite Hm. Qed.

Lemma plain_foreign h : has (t_infomask h) HEAP_XMAX_IS_MULTI = false -> IsCurrent B (t_xmax h) = false -> foreign h.
Proof using Type.
  intros Hm Hc u. unfold updater. rewrite Hm. destruct (HEAP_XMAX_IS_LOCKED_ONLY _); [done|]. congruence.
Qed.

Lemma locked_foreign h : HEAP_XMAX_IS_LOCKED_ONLY (t_infomask h) = true -> foreign h.
Proof using Type. intros Hl u. by rewrite updater_locked. Qed.

Lemma locked_none h t : HEAP_XMAX_IS_LOCKED_ONLY (t_infomask h) = true ->
  forall u, updater B h = Some u -> xstate B t u = Aborted.
Proof using Type. intros Hl u. by rewrite updater_locked. Qed.

Lemma committed_ended t u : xstate B t u = Committed -> IsInProgress B t u = false.
Proof using Type. unfold xstate. destruct (IsCurrent B u); [done|]. by destruct (IsInProgress B t u). Qed.

(** Nothing deletes the tuple. *)
Lemma rule_not_deleted t h : has (t_infomask h) HEAP_XMAX_IS_MULTI = false ->
  IsInProgress B t (t_xmax h) = false -> deleted B t h = false -> rule t h = TM_Ok.
Proof using HB.
  intros Hm Hr Hd. apply rule_ok; [by rewrite plain_running|]. intros u Hu.
  assert (u = t_xmax h) as ->.
  { unfold updater in Hu. rewrite Hm in Hu. destruct (HEAP_XMAX_IS_LOCKED_ONLY _); [done|congruence]. }
  rewrite (deleted_by B _ _ _ Hu) in Hd. rewrite (xstate_ended_at B _ _ Hr) in *. by destruct (DidCommit B t _).
Qed.

(** A MultiXact whose updater is not ours. *)
Lemma Update_multi_ok s u : Inv B s0 s -> has (t_infomask (tuple s)) HEAP_XMAX_IS_MULTI = true ->
  HEAP_XMAX_IS_LOCKED_ONLY (t_infomask (tuple s)) = false ->
  updater B (tuple s) = Some u -> u <> 0 -> IsCurrent B u = false ->
  wpv (If (x ← rawXmax; MultiXactIdIsRunning B x false) then mret TM_BeingModified
       else If didCommit B u then updated_or_deleted htup
       else If Not (x ← rawXmax; MultiXactIdIsRunning B x false) then
              SetHintBits B HEAP_XMAX_INVALID InvalidTransactionId;; mret TM_Ok
       else mret TM_BeingModified) s (fun r s' => update_post r s s').
Proof.
  intros Hi Hm Hl Hu Hu0 Hc. pose proof (unlocked_not_upgraded _ Hl) as Hup.
  assert (foreign (tuple s)) as Hf by (intros v Hv; congruence).
  apply wpv_bind, wpv_bind, wpv_get. apply wpv_running; [done..|].
  intros [] s1 (L1 & L2 & L3) Hi1 Ht Hn.
  { destruct (Ht eq_refl) as (t & Hr & Hrun). apply wpv_ret, (update_leaf t); [done|lia|]. by apply rule_running. }
  specialize (Hn eq_refl). pose proof (multi_updater_ended _ _ _ Hm Hu Hu0 Hn) as He.
  pose proof (xstate_ended_at B _ _ He) as Hx. apply wpv_bind, wpv_ask.
  assert (Inv B s0 (tick s1)) as Hi2 by (by eapply inv_tick).
  destruct (DidCommit B (now s1) u) eqn:Hd.
  - apply wpv_updated_or_deleted; [done|]. apply (update_leaf (now s1)); [done|simpl; lia|].
    cbn [tick tuple]. rewrite L1. by apply (rule_gone _ _ u).
  - apply wpv_bind, wpv_bind, wpv_bind, wpv_get. cbn [tick tuple]. rewrite <- L1 in Hm, Hl, Hup.
    apply (wpv_running (tick s1)); [done..|]. intros b s2 (M1 & M2 & M3) Hi3 Hrun _. cbn [tick tuple now] in *.
    assert (xmax_running B (now s2) (tuple s2) = false) as Hr2.
    { rewrite M1, L1. apply (xmax_running_stays B (now s1)); [lia|done]. }
    assert (forall v, updater B (tuple s2) = Some v -> xstate B (now s2) v = Aborted) as Hab.
    { intros v. rewrite M1, L1, Hu. intros [= <-]. rewrite <- Hx. apply xstate_stays; [done|lia|]. rewrite Hx. by right. }
    destruct b.
    + destruct (Hrun eq_refl) as (t & Hr & Hrun'). rewrite L1 in Hrun'.
      rewrite (xmax_running_stays B (now s1) t) in Hrun'; [done|lia|done].
    + apply wpv_bind, (wpv_hint_xmax_invalid B sn htup s0 Hok); [done..|].
      intros s3 Hi4 _ Ht3. cbn [snd] in Ht3. apply wpv_ret, (update_leaf (now s1)); [done|lia|].
      apply rule_ok; [done|]. intros v. rewrite Hu. by intros [= <-].
Qed.

Lemma Update_xmax_ok s : Inv B s0 s -> wpv (Update_xmax B htup cid) s (fun r s' => update_post r s s').
Proof.
  intros Hi. pose proof (inv_hints _ _ _ Hi) as Hh. unfold Update_xmax.
  assert (Inv B s0 (tick s)) as Hi1 by (by eapply inv_tick).
  vsteps.
  - destruct (hint_xmax_invalid _ _ _ Hh) as [Hr Hu]; [done|]. apply (update_leaf (now s)); [done|lia|]. by apply rule_ok.
  - destruct (hint_xmax_committed _ _ _ Hh) as [Hm Hx]; [done|].
    apply (update_leaf (now s)); [done|lia|]. apply rule_ok; [|by apply locked_none].
    rewrite plain_running by done. by apply committed_ended.
  - destruct (hint_xmax_committed _ _ _ Hh) as [Hm Hx]; [done|]. apply wpv_updated_or_deleted; [done|].
    apply (update_leaf (now s)); [done|lia|]. apply (rule_gone _ _ (t_xmax (tuple s))); [by apply updater_plain| |done].
    rewrite plain_running by done. by apply committed_ended.
  - apply (update_leaf (now s)); [done|lia|]. apply rule_ok; [|by apply locked_none, upgraded_locked].
    unfold xmax_running. by decided.
  - apply wpv_running; [done..|]. intros [] s1 (L1 & L2 & L3) Hs1 Ht Hn.
    + destruct (Ht eq_refl) as (t & Hr & Hrun). apply wpv_ret, (update_leaf t); [done|lia|].
      apply rule_running; [by apply locked_foreign|done].
    + specialize (Hn eq_refl). apply wpv_bind, (wpv_hint_xmax_invalid B sn htup s0 Hok); [done|by rewrite L1| |].
      { rewrite L1. by apply locked_none. }
      intros s2 Hs2 _ Ht2. apply wpv_ret, (update_leaf (now s1)); [done|lia|]. apply rule_ok; [done|by apply locked_none].
  - eapply (wpv_get_updater s); [done..|]. intros u Hu E Hu0. eapply wpv_lift; [exact E|].
    apply wpv_block. rewrite (proj2 (valid_nonzero u) Hu0). cbn [negb].
    apply wpv_ret, wpv_bind, wpv_assert; [done|]. apply wpv_bind, wpv_ret. destruct (IsCurrent B u) eqn:Hc.
    + vsteps. apply (wpv_own_cmax s u); [done..|]. intros c Hr. apply wpv_ret.
      destruct (cid <=? c); apply wpv_ret, (update_leaf (now s)); (done || lia).
    + by apply Update_multi_ok.
  - apply (update_leaf (now s)); [done|lia|]. apply rule_running; [by apply locked_foreign|].
    rewrite plain_running by done. by apply current_runs.
  - apply (wpv_own_cmax s (t_xmax (tuple s))); [done|by apply updater_plain|done|done|]. intros c Hr. apply wpv_ret.
    destruct (cid <=? c); apply wpv_ret, (update_leaf (now s)); (done || lia).
  - apply (update_leaf (now s)); [done|simpl; lia|]. apply rule_running; [by apply plain_foreign|].
    by rewrite plain_running.
  - pose proof (ended_stays B _ _ Heqb3 (S (now s)) ltac:(lia)) as (Hr1 & _).
    apply (xmax_settle B sn htup s0 Hok (tick s)); [done|done|done| |].
    + intros s' Hs' _ Ht Hd. cbn [tick tuple now] in *. apply (update_leaf (S (now s))); [done|lia|].
      by apply rule_not_deleted.
    + intros s' Hs' _ Ht Ec Hu Hx. cbn [tick tuple now] in *. apply wpv_updated_or_deleted; [done|].
      apply (update_leaf (S (now s))); [done|lia|]. rewrite Ec. apply (rule_gone _ _ _ Hu); [by rewrite plain_running|done].
Qed.
(** ** The xmin half *)
Definition update_xmin_post (o : option TM_Result) (s s' : VState) : Prop :=
  Inv B s0 s' /\ match o with
                 | Some r => exists ti td, (now s <= ti <= td /\ td <= now s')%nat
                             /\ r = update_rule B htup cid ti td (tuple s)
                 | None => inserter B (now s') (tuple s') = IDone
                 end.

Lemma update_xmin_leaf ti td r s s' : Inv B s0 s' -> (now s <= ti <= td /\ td <= now s')%nat ->
  update_rule B htup cid ti td (tuple s) = r -> update_xmin_post (Some r) s s'.
Proof using Type. intros Hi Ht <-. split; [done|]. by exists ti, td. Qed.

(** A tuple of ours, inserted by an earlier command. *)
Definition own (s : VState) : Prop :=
  plain (tuple s) /\ IsCurrent B (t_xmin (tuple s)) = true /\ (cid <=? real_cmin B (tuple s)) = false.

Lemma own_leaf td r s s' : own s -> Inv B s0 s' -> (now s <= td <= now s')%nat ->
  rule td (tuple s) = r -> update_xmin_post (Some r) s s'.
Proof using Type.
  intros (Hp & Hc & Hlt) Hi Ht E. apply (update_xmin_leaf (now s) td); [done|lia|].
  unfold update_rule. by rewrite (plain_mine B _ _ Hp Hc), Hlt.
Qed.

(** Its updater is ours or has aborted. *)
Lemma own_foreign s u : Inv B s0 s -> own s -> updater B (tuple s) = Some u -> IsCurrent B u = false ->
  forall t v, updater B (tuple s) = Some v -> xstate B t v = Aborted.
Proof.
  intros Hi (_ & Hc & _) Hu Hn t v. rewrite Hu. intros [= <-]. by apply (own_updater B sn htup s0 Hok s u).
Qed.

(** What is left of the branch for a tuple of ours. *)
Lemma Update_own_ok s : Inv B s0 s -> own s ->
  wpv (If bit HEAP_XMAX_INVALID then returns TM_Ok
       else If lockedOnly then
              xmax ← rawXmax;
              If bit HEAP_XMAX_IS_MULTI then
                If MultiXactIdIsRunning B xmax true then returns TM_BeingModified
                else returns TM_Ok
              else If Not inProgress B xmax then returns TM_Ok
              else returns TM_BeingModified
       else If bit HEAP_XMAX_IS_MULTI then
              xmax ← updateXid B;
              If Not isCurrent B xmax then
                If (x ← rawXmax; MultiXactIdIsRunning B x false) then returns TM_BeingModified
                else returns TM_Ok
              else If (c ← getCmax B; mret (cid <=? c)) then returns TM_SelfModified
              else returns TM_Invisible
       else If Not (x ← rawXmax; isCurrent B x) then
              SetHintBits B HEAP_XMAX_INVALID InvalidTransactionId;; returns TM_Ok
       else If (c ← getCmax B; mret (cid <=? c)) then returns TM_SelfModified
       else returns TM_Invisible) s (fun o s' => update_xmin_post o s s').
Proof.
  intros Hi Hown. assert (Inv B s0 (tick s)) as Hi1 by (by eapply inv_tick).
  destruct (ok_own _ _ _ _ (inv_tuple_ok B sn htup s0 Hok s Hi)) as [Hup _]; [by apply Hown|].
  vsteps.
  - destruct (hint_xmax_invalid _ _ _ (inv_hints _ _ _ Hi)) as [Hr Hu]; [done|].
    apply (own_leaf (now s)); [done|done|lia|]. by apply rule_ok.
  - apply wpv_running; [done..|]. intros [] s1 (L1 & L2 & L3) Hs1 Ht Hn; apply wpv_ret.
    + destruct (Ht eq_refl) as (t & Hr & Hrun). apply (own_leaf t); [done|done|lia|].
      apply rule_running; [by apply locked_foreign|done].
    + apply (own_leaf (now s1)); [done|done|lia|]. apply rule_ok; [by apply Hn|by apply locked_none].
  - apply (own_leaf (now s)); [done|done|simpl; lia|]. apply rule_running; [by apply locked_foreign|].
    by rewrite plain_running.
  - apply (own_leaf (now s)); [done|done|simpl; lia|]. apply rule_ok; [by rewrite plain_running|by apply locked_none].
  - eapply wpv_updateXid; [done..|]. intros u Hu _ Hu0. vsteps.
    + apply (wpv_own_cmax s u); [done..|]. intros c Hr. apply wpv_ret.
      destruct (cid <=? c); apply wpv_ret, (own_leaf (now s)); (done || lia).
    + apply wpv_running; [done..|]. intros [] s1 (L1 & L2 & L3) Hs1 Ht Hn; apply wpv_ret.
      * destruct (Ht eq_refl) as (t & Hr & Hrun). apply (own_leaf t); [done|done|lia|].
        apply rule_running; [|done]. intros v. rewrite Hu. by intros [= <-].
      * apply (own_leaf (now s1)); [done|done|lia|]. apply rule_ok; [by apply Hn|by eapply own_foreign].
  - apply (wpv_own_cmax s (t_xmax (tuple s))); [done|by apply updater_plain|done|done|]. intros c Hr. apply wpv_ret.
    destruct (cid <=? c); apply wpv_ret, (own_leaf (now s)); (done || lia).
  - assert (updater B (tuple s) = Some (t_xmax (tuple s))) as Hu by (by apply updater_plain).
    pose proof (own_foreign s _ Hi Hown Hu Heqb2 (now s)) as Ha.
    destruct (aborted_ended B _ _ (Ha _ Hu)) as (Hr & Hd & _).
    apply (hint_gone B sn htup s0 Hok); [done|done|done|by right|].
    intros s' Hs' _ Ht. apply wpv_ret, (own_leaf (now s)); [done|done|lia|]. apply rule_ok; [by rewrite plain_running|done].
Qed.

Lemma Update_xmin_ok s : Inv B s0 s -> wpv (Update_xmin B cid) s (fun o s' => update_xmin_post o s s').
Proof.
  intros Hi. destruct (decided_hint B s0 s Hi) as [Hhc Hhi]. unfold Update_xmin.
  assert (Inv B s0 (tick s)) as Hi1 by (by eapply inv_tick).
  assert (forall s', Inv B s0 s' -> snapshot s' = snapshot s -> (now s <= now s')%nat ->
    inserter B (now s') (tuple s') = INever -> update_xmin_post (Some TM_Invisible) s s') as Hnever.
  { intros s' Hs' _ Ht E. apply (update_xmin_leaf (now s') (now s')); [done|lia|].
    unfold update_rule. rewrite <- (core_inserter B (tuple s) (tuple s')) by (by eapply inv_cores). by rewrite E. }
  assert (forall s', Inv B s0 s' -> snapshot s' = snapshot s -> (now s <= now s')%nat ->
    inserter B (now s') (tuple s') = IDone -> update_xmin_post None s s') as Hdone by (intros; by split).
  vsteps. all: try plain_facts.
  - by apply Hdone; auto.
  - by apply Hnever; auto.
  - eapply wpv_moved_off; eauto using moved_in_progress.
  - eapply wpv_moved_in; eauto using moved_in_progress.
  - destruct (unhinted _ Heqb Heqb0) as [_ Hf].
    apply (wpv_getCmin B sn htup s0 Hok); [done|by rewrite has_moved, Heqb1, Heqb2|done|done|].
    apply wpv_ret. destruct (cid <=? real_cmin B (tuple s)) eqn:Hcm.
    + apply wpv_ret, (update_xmin_leaf (now s) (now s)); [done|lia|]. unfold update_rule.
      by rewrite (plain_mine B _ _ Hp Heqb3), Hcm.
    + apply Update_own_ok; [done|]. by split.
  - apply (update_xmin_leaf (now s) (now s)); [done|simpl; lia|]. unfold update_rule.
    rewrite (plain_inserter B _ _ Hp). unfold xstate. by decided.
  - apply (xmin_settle B sn htup s0 Hok TM_Invisible (tick s)); [done|done|apply (ended_stays B _ _ Heqb4); simpl; lia| |];
      intros s' Hs' E Ht; [apply Hnever|apply Hdone]; (done || simpl in Ht; lia).
Qed.

(** The answer of HeapTupleSatisfiesUpdate. *)
Lemma satisfies_update : hints_ok B (now s0) (tuple s0) ->
  wpv (HeapTupleSatisfiesUpdate B htup cid) s0 (fun r s => Inv B s0 s /\ exists ti td,
    (now s0 <= ti <= td /\ td <= now s)%nat /\ r = update_rule B htup cid ti td (tuple s0)).
Proof.
  intros Hh. assert (Inv B s0 s0) as Hi by (by apply inv_start).
  apply wpv_bind, (wpv_assert_htup B sn htup s0 Hok), wpv_block.
  eapply wpv_mono; [by apply Update_xmin_ok|]. intros [b|] s [Hs Hpost]; [done|].
  eapply wpv_mono; [by apply Update_xmax_ok|]. intros b s' (Hs' & td & Ht & ->). split; [done|].
  exists (now s), td. split; [pose proof (inv_time _ _ _ Hs); lia|].
  assert (same_core (tuple s0) (tuple s)) as Hc by (apply Hs).
  rewrite (core_inserter B _ _ Hc) in Hpost. unfold update_rule. rewrite Hpost.
  unfold update_xmax_rule. rewrite (core_updater B _ _ Hc), (core_running B _ _ Hc), (proj2 (core_cids B _ _ Hc)).
  by destruct (core_fields _ _ Hc) as (_ & _ & _ & ->).
Qed.
End update.
