(* ===== verification/VisVacuum.v ===== *)
(** HeapTupleSatisfiesVacuum and its relatives: the state of a tuple as VACUUM
    sees it, as a rule about its inserter and its updater, and what the verdict
    "dead" means for the snapshots of other backends. *)
From S2P Require Import Prelude.
From S2P Require Import Xid.
From S2P Require Import HeapTuple.
From S2P Require Import ComboCid.
From S2P Require Import Snapshot.
From S2P Require Import Visibility.
From S2P Require Import VisSpec.
From S2P Require Import VisInv.
From S2P Require Import VisSelf.
From S2P Require Import VisMvcc.
From S2P Require Import VisUpdate.
Open Scope string_scope.
Open Scope list_scope.
Open Scope Z_scope.

#[local] Set Default Proof Using "Type*".

(** * The rule *)
Definition vacuum_rule (B : Backend) (ti td : nat) (h : HeapTupleHeaderData) : HTSV_Result * Z :=
  match inserter B ti h with
  | INever => (HEAPTUPLE_DEAD, 0)
  | IRunning => (HEAPTUPLE_INSERT_IN_PROGRESS, 0)
  | IMine => match updater B h with
             | Some u => if IsCurrent B u then (HEAPTUPLE_DELETE_IN_PROGRESS, 0)
                         else (HEAPTUPLE_INSERT_IN_PROGRESS, 0)
             | None => (HEAPTUPLE_INSERT_IN_PROGRESS, 0)
             end
  | IDone => match updater B h with
             | Some u => match xstate B td u with
                         | Mine | Running => (HEAPTUPLE_DELETE_IN_PROGRESS, 0)
                         | Committed => (HEAPTUPLE_RECENTLY_DEAD, u)
                         | Aborted => (HEAPTUPLE_LIVE, 0)
                         end
             | None => (HEAPTUPLE_LIVE, 0)
             end
  end.

Section vacuum.
Context (B : Backend) {HB : History B} (sn : SnapshotData) (htup : HeapTupleData) (s0 : VState).
Context (Hok : tuple_ok B sn htup (tuple s0)).

(** ** The xmax half *)
Definition vacuum_xmax_rule (t : nat) (h : HeapTupleHeaderData) : HTSV_Result * Z :=
  match updater B h with
  | Some u => match xstate B t u with
              | Mine | Running => (HEAPTUPLE_DELETE_IN_PROGRESS, 0)
              | Committed => (HEAPTUPLE_RECENTLY_DEAD, u)
              | Aborted => (HEAPTUPLE_LIVE, 0)
              end
  | None => (HEAPTUPLE_LIVE, 0)
  end.

Definition vacuum_post (r : HTSV_Result * Z) (s s' : VState) : Prop :=
  Inv B s0 s' /\ exists td, (now s <= td <= now s')%nat /\ r = vacuum_xmax_rule td (tuple s).

Lemma vacuum_leaf td r s s' : Inv B s0 s' -> (now s <= td <= now s')%nat -> vacuum_xmax_rule td (tuple s) = r ->
  vacuum_post r s s'.
Proof using Type. intros Hi Ht E. split; [done|]. by exists td. Qed.

Lemma vacuum_live t h : (forall u, updater B h = Some u -> xstate B t u = Aborted) ->
  vacuum_xmax_rule t h = (HEAPTUPLE_LIVE, 0).
Proof using Type. intros Hu. unfold vacuum_xmax_rule. destruct (updater B h) as [u|]; [|done]. by rewrite (Hu u). Qed.

Lemma vacuum_running t h u : updater B h = Some u -> IsInProgress B t u = true ->
  vacuum_xmax_rule t h = (HEAPTUPLE_DELETE_IN_PROGRESS, 0).
Proof using Type. intros Hu Hr. unfold vacuum_xmax_rule. rewrite Hu. unfold xstate. rewrite Hr. by destruct (IsCurrent B u). Qed.

Lemma vacuum_dead t h u : updater B h = Some u -> xstate B t u = Committed ->
  vacuum_xmax_rule t h = (HEAPTUPLE_RECENTLY_DEAD, u).
Proof using Type. intros Hu Hx. unfold vacuum_xmax_rule. by rewrite Hu, Hx. Qed.

Lemma vacuum_locked s s' : Inv B s0 s' -> (now s <= now s')%nat ->
  HEAP_XMAX_IS_LOCKED_ONLY (t_infomask (tuple s)) = true -> vacuum_post (HEAPTUPLE_LIVE, 0) s s'.
Proof using Type. intros Hi Ht Hl. apply (vacuum_leaf (now s)); [done|lia|]. by apply vacuum_live, locked_none. Qed.

(** Where the updater of a MultiXact has been seen to have ended. *)
Lemma Vacuum_multi_ok s s1 u : Inv B s0 s -> later s s1 -> has (t_infomask (tuple s)) HEAP_XMAX_IS_MULTI = true ->
  HEAP_XMAX_IS_LOCKED_ONLY (t_infomask (tuple s)) = false -> updater B (tuple s) = Some u ->
  IsInProgress B (now s) u = false ->
  wpv (If didCommit B u then mret (HEAPTUPLE_RECENTLY_DEAD, u)
       else
         (If Not (x ← rawXmax; MultiXactIdIsRunning B x false)
          then SetHintBits B HEAP_XMAX_INVALID InvalidTransactionId else mret tt);;
         mret (HEAPTUPLE_LIVE, InvalidTransactionId)) s1 (fun r s' => vacuum_post r s s').
Proof.
  intros Hi (L1 & _ & L3) Hm Hl Hu He. pose proof (unlocked_not_upgraded _ Hl) as Hup.
  destruct (ended_stays B _ _ He (now s1) L3) as (_ & Hd & _). pose proof (ended_stays B _ _ He) as Hst.
  destruct (Hst (now s) ltac:(lia)) as (_ & _ & Hx).
  assert (Inv B s0 (tick s1)) as Hi1 by (eapply (inv_later B sn htup s0 Hok s); [done|done|simpl; lia]).
  apply wpv_bind, wpv_ask. rewrite Hd. destruct (DidCommit B (now s) u) eqn:E.
  - apply wpv_ret, (vacuum_leaf (now s)); [done|simpl; lia|]. by apply (vacuum_dead _ _ u).
  - assert (forall s', Inv B s0 s' -> (now s <= now s')%nat -> vacuum_post (HEAPTUPLE_LIVE, 0) s s') as Hlive.
    { intros s' Hs' Ht. apply (vacuum_leaf (now s)); [done|lia|]. apply vacuum_live. intros v. rewrite Hu. by intros [= <-]. }
    apply wpv_bind, wpv_bind, wpv_bind, wpv_bind, wpv_get. cbn [tick tuple]. unfold HeapTupleHeaderGetRawXmax.
    rewrite <- L1 in Hm, Hl, Hup. apply (wpv_running B sn htup s0 Hok (tick s1)); [done..|].
    intros b s2 (M1 & M2 & M3) Hi2 _ Hn. apply wpv_ret. cbn [tick tuple now] in *. destruct b; cbn [negb].
    + apply wpv_ret, wpv_ret, Hlive; [done|lia].
    + apply (wpv_hint_xmax_invalid B sn htup s0 Hok); [done|rewrite M1; by apply Hn| |].
      * rewrite M1, L1, Hu. intros v [= <-]. by destruct (Hst (now s2) ltac:(lia)) as (_ & _ & ->).
      * intros s3 Hi3 _ Ht3. apply wpv_ret, Hlive; [done|lia].
Qed.

Lemma Vacuum_xmax_ok s : Inv B s0 s -> wpv (Vacuum_xmax B) s (fun r s' => vacuum_post r s s').
Proof.
  intros Hi. pose proof (inv_hints _ _ _ Hi) as Hh. unfold Vacuum_xmax.
  assert (Inv B s0 (tick s)) as Hi1 by (by eapply inv_tick).
  assert (Inv B s0 (tick (tick s))) as Hi2 by (by eapply inv_tick).
  vsteps.
  - destruct (hint_xmax_invalid _ _ _ Hh) as [Hr Hu]; [done|]. apply (vacuum_leaf (now s)); [done|lia|]. by apply vacuum_live.
  - by apply vacuum_locked.
  - apply (wpv_hint_xmax_invalid B sn htup s0 Hok); [done|unfold xmax_running; by decided|by apply locked_none|].
    intros s' Hs' _ Ht. by apply wpv_ret, wpv_ret, vacuum_locked.
  - apply (wpv_running B sn htup s0 Hok); [done..|]. intros [] s1 (L1 & L2 & L3) Hs1 _ Hn.
    + by apply wpv_ret, vacuum_locked.
    + apply wpv_bind, (wpv_hint_xmax_invalid B sn htup s0 Hok); [done|rewrite L1; by apply Hn|rewrite L1; by apply locked_none|].
      intros s' Hs' _ Ht. apply wpv_ret, wpv_ret, vacuum_locked; [done|lia|done].
  - apply vacuum_locked; [done|simpl; lia|done].
  - apply (hint_gone B sn htup s0 Hok (tick s)); [done|done| |by left|].
    { by apply (finished_stays (now s)); [simpl; lia|]. }
    intros s' Hs' _ Ht. apply wpv_ret, wpv_ret, vacuum_locked; [done|simpl in Ht; lia|done].
  - eapply (wpv_get_updater B sn htup s0 Hok s); [done..|]. intros u Hu E Hu0. eapply wpv_lift; [exact E|].
    apply wpv_bind, wpv_get, wpv_bind, wpv_assert; [by rewrite Heqb0|].
    apply wpv_bind, wpv_assert; [by apply valid_nonzero|].
    apply wpv_bind, wpv_ask. destruct (IsInProgress B (now s) u) eqn:Hr.
    + apply wpv_ret, (vacuum_leaf (now s)); [done|simpl; lia|]. by apply (vacuum_running _ _ u).
    + apply Vacuum_multi_ok; (done || apply later_tick).
  - destruct (hint_xmax_committed _ _ _ Hh) as [Hm Hx]; [done|]. apply (vacuum_leaf (now s)); [done|lia|].
    apply (vacuum_dead _ _ (t_xmax (tuple s))); [by apply updater_plain|done].
  - apply (vacuum_leaf (now s)); [done|simpl; lia|].
    apply (vacuum_running _ _ (t_xmax (tuple s))); [by apply updater_plain|done].
  - pose proof (updater_plain B (tuple s) Heqb0 Heqb1) as Hu.
    assert (xstate B (S (S (now s))) (t_xmax (tuple s)) = Committed) as Hx.
    { destruct (ended_stays B _ _ Heqb3 (S (S (now s))) ltac:(lia)) as (_ & _ & ->).
      destruct (ended_stays B _ _ Heqb3 (S (now s)) ltac:(lia)) as (_ & <- & _). by rewrite Heqb4. }
    apply (wpv_hint_xmax_committed B sn htup s0 Hok (tick (tick s))); [done|done|done|].
    intros s' Hs' _ Ht. apply wpv_ret, wpv_bind, wpv_get, wpv_ret, (vacuum_leaf (S (S (now s)))); [done|simpl in Ht; lia|].
    assert (same_core (tuple s) (tuple s')) as Hc by (by eapply inv_cores). unfold HeapTupleHeaderGetRawXmax.
    destruct (core_fields _ _ Hc) as (_ & -> & _). by apply vacuum_dead.
  - destruct (ended_stays B _ _ Heqb3 (S (S (now s))) ltac:(lia)) as (Hr2 & Hd2 & Hx2).
    destruct (ended_stays B _ _ Heqb3 (S (now s)) ltac:(lia)) as (_ & Hd1 & _).
    assert (DidCommit B (now s) (t_xmax (tuple s)) = false) as Hd by congruence. rewrite Hd in *.
    apply (hint_gone B sn htup s0 Hok (tick (tick s))); [done|done|done|by right|].
    intros s' Hs' _ Ht. apply wpv_ret, (vacuum_leaf (S (S (now s)))); [done|simpl in Ht; lia|].
    apply vacuum_live. intros v. rewrite updater_plain by done. by intros [= <-].
Qed.

(** ** The xmin half *)
Definition vacuum_xmin_post (o : option (HTSV_Result * Z)) (s s' : VState) : Prop :=
  Inv B s0 s' /\ match o with
                 | Some r => exists ti, (now s <= ti <= now s')%nat /\ r = vacuum_rule B ti ti (tuple s)
                 | None => inserter B (now s') (tuple s') = IDone
                 end.

Lemma vacuum_xmin_leaf ti r s s' : Inv B s0 s' -> (now s <= ti <= now s')%nat ->
  vacuum_rule B ti ti (tuple s) = r -> vacuum_xmin_post (Some r) s s'.
Proof using Type. intros Hi Ht <-. split; [done|]. by exists ti. Qed.

(** HeapTupleHeaderIsOnlyLocked on a tuple of ours with an updater. *)
Lemma only_locked_own s u (Q : bool -> VState -> Prop) : Inv B s0 s -> IsCurrent B (t_xmin (tuple s)) = true ->
  HEAP_XMAX_IS_LOCKED_ONLY (t_infomask (tuple s)) = false -> updater B (tuple s) = Some u ->
  has (t_infomask (tuple s)) HEAP_XMAX_INVALID = false ->
  (forall b s', later s s' -> Inv B s0 s' -> (b = true -> IsCurrent B u = false) -> Q b s') ->
  wpv (HeapTupleHeaderIsOnlyLocked B) s Q.
Proof.
  intros Hi Hc Hl Hu Hx HQ. unfold HeapTupleHeaderIsOnlyLocked.
  assert (has (t_infomask (tuple s)) HEAP_XMAX_LOCK_ONLY = false) as Hlo
    by (unfold HEAP_XMAX_IS_LOCKED_ONLY in Hl; by apply orb_false_iff in Hl as [? _]).
  assert (later s s) as Hrefl by (split; [done|]; split; [done|lia]).
  vsteps; try congruence.
  - eapply wpv_updateXid; [done..|]. intros v Hv _ _. assert (v = u) as -> by congruence.
    vsteps; (apply HQ; [by repeat split; simpl; lia| |done]);
      [done| |by apply (inv_later B sn htup s0 Hok s); [..|simpl; lia]..].
    by eapply inv_tick.
  - by apply HQ.
  - apply HQ; [done|done|]. intros _. pose proof (ok_multi_id _ _ _ _ (inv_tuple_ok B sn htup s0 Hok s Hi)) as Hm.
    assert (t_xmax (tuple s) = 0) as E0.
    { destruct (Z.eq_dec (t_xmax (tuple s)) 0) as [|Hn]; [done|]. apply valid_nonzero in Hn. congruence. }
    unfold updater in Hu. rewrite Hl in Hu.
    destruct (has (t_infomask (tuple s)) HEAP_XMAX_IS_MULTI); [by destruct Hm|].
    injection Hu as <-. rewrite E0. apply (xstate_zero B 0).
Qed.

Lemma header_update_xid h u : updater B h = Some u -> has (t_infomask h) HEAP_XMAX_INVALID = false ->
  HeapTupleHeaderGetUpdateXid (Members B) h = Ok u.
Proof using Type.
  intros Hu Hx. unfold updater in Hu. destruct (HEAP_XMAX_IS_LOCKED_ONLY _) eqn:El; [done|].
  unfold HEAP_XMAX_IS_LOCKED_ONLY in El. apply orb_false_iff in El as [El _].
  unfold HeapTupleHeaderGetUpdateXid. rewrite Hx, El. cbn [negb andb].
  destruct (has (t_infomask h) HEAP_XMAX_IS_MULTI); cbn [andb].
  - destruct (HeapTupleGetUpdateXid (Members B) h) as [v| |]; try done. congruence.
  - unfold HeapTupleHeaderGetRawXmax. congruence.
Qed.

(** The pre-9.0 blocks: the mover has ended. *)
Lemma wpv_vacuum_moved s (Q : option (HTSV_Result * Z) -> VState -> Prop) running r1 r2
  (m1 m2 : V (option (HTSV_Result * Z))) :
  Inv B s0 s -> HeapTupleHeaderXminCommitted (tuple s) = false -> HeapTupleHeaderXminInvalid (tuple s) = false ->
  has (t_infomask (tuple s)) HEAP_MOVED = true ->
  (forall t, inserter B t (tuple s) = if DidCommit B t (HeapTupleHeaderGetXvac (tuple s)) then r1 else r2) ->
  (forall s'', Inv B s0 s'' -> later s s'' -> inserter B (now s'') (tuple s'') = r1 -> wpv m1 s'' Q) ->
  (forall s'', Inv B s0 s'' -> later s s'' -> inserter B (now s'') (tuple s'') = r2 -> wpv m2 s'' Q) ->
  wpv (xvac ← xvacOf;
       If isCurrent B xvac then returns running
       else If inProgress B xvac then returns running
       else If didCommit B xvac then m1 else m2) s Q.
Proof.
  intros Hi Hc Hn Hm Hins H1 H2. destruct (unhinted _ Hc Hn) as [_ Hf].
  destruct (ok_moved _ _ _ _ (inv_tuple_ok B sn htup s0 Hok s Hi) Hf Hm) as [_ (Hcur & _ & Hr)].
  apply wpv_bind, wpv_get, wpv_bind, wpv_ret. rewrite Hcur. apply wpv_bind, wpv_ask. rewrite Hr.
  eapply (moved_outcome B sn htup s0 Hok); [done|done|done|apply later_tick|done|done|done|done].
Qed.

Lemma vacuum_own_insert t h : inserter B t h = IMine -> foreign B h ->
  vacuum_rule B t t h = (HEAPTUPLE_INSERT_IN_PROGRESS, 0).
Proof using Type.
  intros Hi Hf. unfold vacuum_rule. rewrite Hi. unfold foreign in Hf. destruct (updater B h) as [u|]; [|done].
  by rewrite (Hf u).
Qed.

Lemma updater_some s : Inv B s0 s -> HEAP_XMAX_IS_LOCKED_ONLY (t_infomask (tuple s)) = false ->
  is_Some (updater B (tuple s)).
Proof.
  intros Hi Hl. destruct (has (t_infomask (tuple s)) HEAP_XMAX_IS_MULTI) eqn:Hm.
  - by apply (wpv_get_updater B sn htup s0 Hok s); [..|intros u ->].
  - by rewrite updater_plain.
Qed.

Ltac stop_moved := lazymatch goal with |- wpv (xvacOf ≫= _) _ _ => fail | _ => idtac end.

Lemma Vacuum_xmin_ok s : Inv B s0 s -> wpv (Vacuum_xmin B) s (fun o s' => vacuum_xmin_post o s s').
Proof.
  intros Hi. destruct (decided_hint B s0 s Hi) as [Hhc Hhi]. unfold Vacuum_xmin.
  assert (Inv B s0 (tick s)) as Hi1 by (by eapply inv_tick).
  assert (forall s', Inv B s0 s' -> snapshot s' = snapshot s -> (now s <= now s')%nat ->
    inserter B (now s') (tuple s') = INever -> vacuum_xmin_post (Some (HEAPTUPLE_DEAD, 0)) s s') as Hnever.
  { intros s' Hs' _ Ht E. apply (vacuum_xmin_leaf (now s')); [done|lia|].
    unfold vacuum_rule. rewrite <- (core_inserter B (tuple s) (tuple s')) by (by eapply inv_cores). by rewrite E. }
  assert (forall s', Inv B s0 s' -> snapshot s' = snapshot s -> (now s <= now s')%nat ->
    inserter B (now s') (tuple s') = IDone -> vacuum_xmin_post None s s') as Hdone by (intros; by split).
  repeat (stop_moved; vstep). all: try plain_facts.
  - by apply Hdone; auto.
  - by apply Hnever; auto.
  - destruct (unhinted _ Heqb Heqb0) as [_ Hf].
    apply (wpv_vacuum_moved s _ _ INever IDone); [done|done|done|by rewrite has_moved, Heqb1| | |].
    + intros t. unfold inserter. by rewrite Hf, Heqb1.
    + intros s' Hs' Hl E. by apply (set_xmin_invalid B sn htup s0 Hok _ s).
    + intros s' Hs' Hl E. apply (set_xmin_committed B sn htup s0 Hok s); try done. by rewrite has_moved, Heqb1.
  - destruct (unhinted _ Heqb Heqb0) as [_ Hf].
    apply (wpv_vacuum_moved s _ _ IDone INever); [done|done|done|by rewrite has_moved, Heqb1, Heqb2| | |].
    + intros t. unfold inserter. by rewrite Hf, Heqb1, Heqb2.
    + intros s' Hs' Hl E. apply (set_xmin_committed B sn htup s0 Hok s); try done. by rewrite has_moved, Heqb1, Heqb2.
    + intros s' Hs' Hl E. by apply (set_xmin_invalid B sn htup s0 Hok _ s).
  - apply (vacuum_xmin_leaf (now s)); [done|lia|]. apply vacuum_own_insert; [by apply plain_mine|].
    intros u Hu. destruct (hint_xmax_invalid _ _ _ (inv_hints _ _ _ Hi)) as [_ Hx]; [done|].
    by destruct (aborted_ended B _ _ (Hx u Hu)) as (_ & _ & ?).
  - apply (vacuum_xmin_leaf (now s)); [done|lia|]. apply vacuum_own_insert; [by apply plain_mine|]. by apply locked_foreign.
  - destruct (updater_some s) as [u Hu]; [done..|].
    apply (only_locked_own s u); [done..|]. intros [] s' (L1 & L2 & L3) Hs' Hcur.
    + apply wpv_ret, (vacuum_xmin_leaf (now s)); [done|lia|]. apply vacuum_own_insert; [by apply plain_mine|].
      intros v. rewrite Hu. intros [= <-]. by apply Hcur.
    + apply wpv_bind, wpv_bind, wpv_get, wpv_bind. rewrite L1. eapply wpv_lift; [by apply header_update_xid|].
      apply wpv_ret. destruct (IsCurrent B u) eqn:Ec; apply wpv_ret, (vacuum_xmin_leaf (now s)); try done; try lia.
      * unfold vacuum_rule. by rewrite (plain_mine B _ _ Hp Heqb3), Hu, Ec.
      * unfold vacuum_rule. by rewrite (plain_mine B _ _ Hp Heqb3), Hu, Ec.
  - apply (vacuum_xmin_leaf (now s)); [done|simpl; lia|]. unfold vacuum_rule.
    rewrite (plain_inserter B _ _ Hp). unfold xstate. by decided.
  - apply (xmin_settle B sn htup s0 Hok (HEAPTUPLE_DEAD, 0) (tick s));
      [done|done|apply (ended_stays B _ _ Heqb4); simpl; lia| |];
      intros s' Hs' E Ht; [apply Hnever|apply Hdone]; (done || simpl in Ht; lia).
Qed.

(** The answer of HeapTupleSatisfiesVacuumHorizon. *)
Lemma satisfies_horizon : hints_ok B (now s0) (tuple s0) ->
  wpv (HeapTupleSatisfiesVacuumHorizon B htup) s0 (fun r s => Inv B s0 s /\ exists ti td,
    (now s0 <= ti <= td /\ td <= now s)%nat /\ r = vacuum_rule B ti td (tuple s0)).
Proof.
  intros Hh. assert (Inv B s0 s0) as Hi by (by apply inv_start).
  apply wpv_bind, (wpv_assert_htup B sn htup s0 Hok), wpv_block.
  eapply wpv_mono; [by apply Vacuum_xmin_ok|]. intros [b|] s [Hs Hpost].
  { destruct Hpost as (ti & Ht & ->). split; [done|]. exists ti, ti. split; [lia|done]. }
  eapply wpv_mono; [by apply Vacuum_xmax_ok|]. intros b s' (Hs' & td & Ht & ->). split; [done|].
  exists (now s), td. split; [pose proof (inv_time _ _ _ Hs); lia|].
  assert (same_core (tuple s0) (tuple s)) as Hc by (apply Hs).
  rewrite (core_inserter B _ _ Hc) in Hpost. unfold vacuum_rule. rewrite Hpost.
  unfold vacuum_xmax_rule. by rewrite (core_updater B _ _ Hc).
Qed.

(** With a removal horizon. *)
Definition vacuum_verdict (removable : Z -> bool) (r : HTSV_Result * Z) : HTSV_Result :=
  match r with
  | (HEAPTUPLE_RECENTLY_DEAD, u) => if removable u then HEAPTUPLE_DEAD else HEAPTUPLE_RECENTLY_DEAD
  | (r, _) => r
  end.

(** The transaction named by the rule is the committed updater, and no other
    answer names one. *)
Lemma vacuum_rule_after ti td h :
  match vacuum_rule B ti td h with
  | (HEAPTUPLE_RECENTLY_DEAD, u) => u <> 0 /\ inserter B ti h = IDone /\ updater B h = Some u /\ xstate B td u = Committed
  | (HEAPTUPLE_DEAD, u) => u = 0 /\ inserter B ti h = INever
  | (_, u) => u = 0
  end.
Proof using HB.
  unfold vacuum_rule. destruct (inserter B ti h); try done.
  - destruct (updater B h) as [u|]; [|done]. by destruct (IsCurrent B u).
  - destruct (updater B h) as [u|] eqn:Hu; [|done]. destruct (xstate B td u) eqn:Hx; try done.
    split; [|done]. intros ->. destruct (xstate_zero B td). congruence.
Qed.

Lemma satisfies_vacuum OldestXmin : hints_ok B (now s0) (tuple s0) ->
  wpv (HeapTupleSatisfiesVacuum B htup OldestXmin) s0 (fun r s => Inv B s0 s /\ exists ti td,
    (now s0 <= ti <= td /\ td <= now s)%nat
    /\ r = vacuum_verdict (fun u => TransactionIdPrecedes u OldestXmin) (vacuum_rule B ti td (tuple s0))).
Proof.
  intros Hh. apply wpv_bind. eapply wpv_mono; [by apply satisfies_horizon|].
  intros [r u] s (Hs & ti & td & Ht & E). pose proof (vacuum_rule_after ti td (tuple s0)) as Ha. rewrite <- E in *.
  assert (forall r', r' = vacuum_verdict (fun u => TransactionIdPrecedes u OldestXmin) (r, u) ->
    Inv B s0 s /\ exists ti td, (now s0 <= ti <= td /\ td <= now s)%nat
    /\ r' = vacuum_verdict (fun u => TransactionIdPrecedes u OldestXmin) (vacuum_rule B ti td (tuple s0))) as Hleaf.
  { intros r' ->. split; [done|]. exists ti, td. by rewrite E. }
  destruct r; try (apply wpv_bind, wpv_assert; [|by apply Hleaf]).
  - by destruct Ha as [-> _].
  - by rewrite Ha.
  - apply wpv_bind, wpv_assert; [apply valid_nonzero; by destruct Ha|]. cbn [vacuum_verdict] in Hleaf.
    by destruct (TransactionIdPrecedes u OldestXmin); apply wpv_ret, Hleaf.
  - by rewrite Ha.
  - by rewrite Ha.
Qed.
End vacuum.

Section verdicts.
Context (B : Backend) {HB : History B} (sn : SnapshotData) (htup : HeapTupleData) (s0 : VState).
Context (Hok : tuple_ok B sn htup (tuple s0)).

(** HeapTupleSatisfiesNonVacuumable: the horizon is consulted once, at [tv]. *)
Lemma satisfies_nonvacuumable : hints_ok B (now s0) (tuple s0) -> snapshot s0 = sn ->
  wpv (HeapTupleSatisfiesNonVacuumable B htup) s0 (fun b s => Inv B s0 s /\ exists ti td tv h,
    (now s0 <= ti <= td /\ td <= tv <= now s)%nat
    /\ b = match vacuum_verdict (GlobalVisTestIsRemovableXid B tv h) (vacuum_rule B ti td (tuple s0)) with
           | HEAPTUPLE_DEAD => false | _ => true
           end).
Proof.
  intros Hh Es. apply wpv_bind. eapply wpv_mono; [by apply (satisfies_horizon B sn)|].
  intros [r u] s (Hs & ti & td & Ht & E). pose proof (vacuum_rule_after B ti td (tuple s0)) as Ha. rewrite <- E in *.
  destruct r; try (apply wpv_bind, wpv_assert; [|apply wpv_ret; split; [done|];
    exists ti, td, (now s), 0; rewrite <- E; split; [lia|done]]).
  - by destruct Ha as [-> _].
  - by rewrite Ha.
  - apply wpv_bind, wpv_assert; [apply valid_nonzero; by destruct Ha|]. apply wpv_bind, wpv_get.
    apply wpv_bind, wpv_ask. assert (Inv B s0 (tick s)) as Hi by (by eapply inv_tick).
    destruct (GlobalVisTestIsRemovableXid B (now s) _ u) eqn:Er; apply wpv_ret; (split; [done|]);
      exists ti, td, (now s), (vistest (snapshot s)); (split; [simpl; lia|]); rewrite <- E; cbn [vacuum_verdict];
      by rewrite Er.
  - by rewrite Ha.
  - by rewrite Ha.
Qed.

(** HeapTupleIsSurelyDead asks nobody but the horizon; what it calls dead is
    dead by the rule. *)
Lemma surely_dead h : hints_ok B (now s0) (tuple s0) ->
  wpv (HeapTupleIsSurelyDead B htup h) s0 (fun b s => later s0 s /\
    (b = true -> vacuum_verdict (GlobalVisTestIsRemovableXid B (now s0) h)
                   (vacuum_rule B (now s0) (now s0) (tuple s0)) = HEAPTUPLE_DEAD)).
Proof.
  intros Hh. assert (Inv B s0 s0) as Hi by (by apply inv_start).
  destruct (decided_hint B s0 s0 Hi) as [Hhc Hhi].
  assert (later s0 s0) as Hrefl by (split; [done|]; split; [done|lia]).
  apply wpv_bind, (wpv_assert_htup B sn htup s0 Hok). vsteps; try done.
  - split; [apply later_tick|]. intros Er. destruct (hint_xmax_committed _ _ _ Hh) as [Hm Hx]; [done|].
    unfold vacuum_rule. rewrite Hhc by done. rewrite updater_plain, Hx by done. cbn in *. by rewrite Er.
  - split; [done|]. intros Hn. unfold vacuum_rule. by rewrite Hhi.
Qed.

(** HeapTupleSatisfiesToast. *)
Lemma satisfies_toast : hints_ok B (now s0) (tuple s0) ->
  wpv (HeapTupleSatisfiesToast B htup) s0 (fun b s => Inv B s0 s
    /\ (b = false -> inserter B (now s) (tuple s0) = INever \/ t_xmin (tuple s0) = 0)).
Proof.
  intros Hh. assert (Inv B s0 s0) as Hi by (by apply inv_start).
  destruct (decided_hint B s0 s0 Hi) as [Hhc Hhi].
  apply wpv_bind, (wpv_assert_htup B sn htup s0 Hok), wpv_block.
  assert (forall s', Inv B s0 s' -> snapshot s' = snapshot s0 -> (now s0 <= now s')%nat ->
    inserter B (now s') (tuple s') = INever ->
    Inv B s0 s' /\ (false = false -> inserter B (now s') (tuple s0) = INever \/ t_xmin (tuple s0) = 0)) as Hnever.
  { intros s' Hs' _ _ E. split; [done|]. intros _. left. by rewrite <- (core_inserter B _ _ (inv_core _ _ _ Hs')). }
  vsteps; try done.
  - split; [done|]. intros _. left. by apply Hhi.
  - eapply wpv_moved_off; eauto using moved_in_progress. intros; by apply wpv_ret.
  - eapply wpv_moved_in; eauto using moved_in_progress. intros; by apply wpv_ret.
  - split; [done|]. intros _. right. destruct (unhinted _ Heqb Heqb0) as [_ Hf].
    unfold HeapTupleHeaderGetXmin, HeapTupleHeaderGetRawXmin in Heqb3. rewrite Hf in Heqb3.
    destruct (Z.eq_dec (t_xmin (tuple s0)) 0) as [|Hn]; [done|]. apply valid_nonzero in Hn. congruence.
Qed.
End verdicts.
