(* ===== verification/VisShared.v ===== *)
(** Several backends at one tuple: a hint bit that one of them sets is true for
    all, the answers of snapshots do not change when others visit the tuple in
    between, and what VACUUM finds dead no snapshot sees. *)
From stdpp Require Import relations.
From S2P Require Import Prelude.
From S2P Require Import Xid.
From S2P Require Import HeapTuple.
From S2P Require Import ComboCid.
From S2P Require Import Snapshot.
From S2P Require Import Visibility.
From S2P Require Import VisSpec.
From S2P Require Import VisInv.
From S2P Require Import VisSelf.
From S2P Require Import VisDirty.
From S2P Require Import VisMvcc.
From S2P Require Import VisUpdate.
From S2P Require Import VisVacuum.
Open Scope string_scope.
Open Scope list_scope.
Open Scope Z_scope.

#[local] Set Default Proof Using "Type*".

(** * Two backends of one server

    They see the same proc array, commit log and MultiXacts; which transactions
    are their own, their snapshots and command ids differ. *)
Record Shares (B C : Backend) : Prop := {
  same_running : forall t x, IsInProgress C t x = IsInProgress B t x;
  same_outcome : forall t x, DidCommit C t x = DidCommit B t x;
  same_members : forall m l, Members C m l = Members B m l
}.

Section shares.
Context (B C : Backend) {HB : History B} {HC : History C} (Hs : Shares B C).

(** A transaction that has ended is foreign to everybody. *)
Lemma ended_foreign t x : IsInProgress B t x = false -> IsCurrent C x = false.
Proof using HC Hs.
  intros E. destruct (IsCurrent C x) eqn:Hc; [|done]. pose proof (current_runs t x Hc) as Hr.
  rewrite (same_running _ _ Hs) in Hr. congruence.
Qed.

Lemma shared_xstate t x : xstate B t x = Committed \/ xstate B t x = Aborted -> xstate C t x = xstate B t x.
Proof using HB HC Hs.
  unfold xstate. destruct (IsCurrent B x) eqn:Hc; [intros [?|?]; done|].
  destruct (IsInProgress B t x) eqn:Hr; [intros [?|?]; done|]. intros _.
  by rewrite (ended_foreign t x Hr), (same_running _ _ Hs), (same_outcome _ _ Hs), Hr.
Qed.

Lemma shared_updater h : updater C h = updater B h.
Proof using Hs.
  unfold updater, HeapTupleGetUpdateXid, MultiXactIdGetUpdateXid, GetMultiXactIdMembers.
  by rewrite (same_members _ _ Hs).
Qed.

Lemma shared_running t h : xmax_running C t h = xmax_running B t h.
Proof using Hs.
  unfold xmax_running. rewrite (same_members _ _ Hs), (same_running _ _ Hs).
  destruct (has _ _); [|done]. destruct (HEAP_LOCKED_UPGRADED _); [done|].
  destruct (Members B _ _) as [ms|]; [|done]. induction ms as [|m ms IH]; [done|].
  cbn. by rewrite IH, (same_running _ _ Hs).
Qed.

Lemma shared_inserter t h : inserter B t h = IDone \/ inserter B t h = INever -> inserter C t h = inserter B t h.
Proof using HB HC Hs.
  unfold inserter. rewrite (same_outcome _ _ Hs). destruct (HeapTupleHeaderXminFrozen h); [done|].
  destruct (has _ HEAP_MOVED_OFF); [done|]. destruct (has _ HEAP_MOVED_IN); [done|]. intros H.
  rewrite shared_xstate; [done|]. destruct (xstate B t (t_xmin h)), H; (discriminate || auto).
Qed.

(** The hints of one backend are true for the other. *)
Lemma shared_hints t h : hints_ok B t h -> hints_ok C t h.
Proof using HB HC Hs.
  intros [H1 H2 H3 H4]. split; rewrite ?shared_running, ?shared_updater.
  - intros H. rewrite shared_inserter; auto.
  - intros H. rewrite shared_inserter; auto.
  - intros H. destruct (H3 H) as [Hr Hu]. split; [done|]. intros u E. rewrite shared_xstate; auto.
  - intros H. destruct (H4 H) as [Hm Hx]. split; [done|]. rewrite shared_xstate; auto.
Qed.

(** * Dead tuples *)
Lemma never_invisible sn htup sn' t t' h : tuple_ok B sn htup h -> (t <= t')%nat ->
  inserter B t h = INever -> mvcc_visible C t' sn' h = false.
Proof using HB HC Hs.
  intros Ho Ht E. unfold mvcc_visible. rewrite (mvcc_inserted_never C sn'); [done|].
  assert (inserter B t' h = INever) as E' by (rewrite <- E; apply (inserter_stays B sn htup); auto).
  rewrite <- E'. apply shared_inserter. by right.
Qed.

Lemma gone_invisible sn' t t' h u : (t <= t')%nat -> updater B h = Some u -> xstate B t u = Committed ->
  InSnapshot C sn' u = false -> mvcc_visible C t' sn' h = false.
Proof using HB HC Hs.
  intros Ht Hu Hx Hn. unfold mvcc_visible, mvcc_deleted. rewrite shared_updater, Hu. unfold seen.
  pose proof (committed_ended B t u Hx) as Hr. rewrite (ended_foreign t u Hr), Hn, (same_outcome _ _ Hs).
  destruct (ended_stays B _ _ Hr t' Ht) as (_ & -> & _). rewrite (xstate_ended_at B t u Hr) in Hx.
  destruct (DidCommit B t u); [cbn; apply andb_false_r|done].
Qed.

(** The verdict of the vacuum rule, for a horizon that the snapshot respects. *)
Lemma dead_invisible sn htup sn' removable ti td t' h : tuple_ok B sn htup h -> (ti <= t')%nat -> (td <= t')%nat ->
  (forall u, updater B h = Some u -> removable u = true -> InSnapshot C sn' u = false) ->
  vacuum_verdict removable (vacuum_rule B ti td h) = HEAPTUPLE_DEAD -> mvcc_visible C t' sn' h = false.
Proof using HB HC Hs.
  intros Ho Hti Htd Hrem. pose proof (vacuum_rule_after B ti td h) as Ha.
  destruct (vacuum_rule B ti td h) as [[] u]; cbn [vacuum_verdict]; try done.
  - intros _. destruct Ha as [_ Ha]. by apply (never_invisible sn htup sn' ti).
  - destruct Ha as (_ & _ & Hu & Hx). destruct (removable u) eqn:Er; [|done]. intros _.
    apply (gone_invisible sn' td t' h u); auto.
Qed.
End shares.

(** * Routines that write nothing *)
Definition quiet {A} (m : V A) : Prop := forall s a s', m s = Ok (a, s') -> later s s'.

Lemma later_refl s : later s s.
Proof. split; [done|]. split; [done|lia]. Qed.

Lemma quiet_bind {A C} (m : V A) (k : A -> V C) : quiet m -> (forall a, quiet (k a)) -> quiet (m ≫= k).
Proof.
  intros Hm Hk s c s'. change ((m ≫= k) s) with (m s ≫= (fun '(a, s1) => k a s1)).
  destruct (m s) as [[a s1]| |] eqn:E; [cbn|done|done]. intros E'.
  destruct (Hm _ _ _ E) as (H1 & H2 & H3). destruct (Hk _ _ _ _ E') as (H4 & H5 & H6).
  split; [congruence|]. split; [congruence|lia].
Qed.

Lemma quiet_ret {A} (a : A) : quiet (mret a).
Proof. intros s b s' [= <- <-]. apply later_refl. Qed.

Lemma quiet_get {A} (f : VState -> A) : quiet (get f).
Proof. intros s b s' [= <- <-]. apply later_refl. Qed.

Lemma quiet_ask {A} (f : nat -> A) : quiet (ask f).
Proof. intros s b s' [= <- <-]. apply later_tick. Qed.

Lemma quiet_lift {A} (m : res A) : quiet (lift m).
Proof. intros s b s'. unfold lift. destruct m; [cbn|done|done]. intros [= <- <-]. apply later_refl. Qed.

Ltac quiet :=
  repeat lazymatch goal with
  | |- quiet (_ ≫= _) => apply quiet_bind; [|intros ?]
  | |- quiet (block_then _ _) => apply quiet_bind; [|intros [?|]]
  | |- quiet (mret _) => apply quiet_ret
  | |- quiet (returns _) => apply quiet_ret
  | |- quiet falls => apply quiet_ret
  | |- quiet (get _) => apply quiet_get
  | |- quiet (bit _) => apply quiet_get
  | |- quiet rawXmin => apply quiet_get
  | |- quiet rawXmax => apply quiet_get
  | |- quiet snap => apply quiet_get
  | |- quiet lockedOnly => apply quiet_get
  | |- quiet (isCurrent _ _) => apply quiet_ret
  | |- quiet (inProgress _ _) => apply quiet_ask
  | |- quiet (didCommit _ _) => apply quiet_ask
  | |- quiet (ask _) => apply quiet_ask
  | |- quiet (lift _) => apply quiet_lift
  | |- quiet (VAssert _ _) => apply quiet_lift
  | |- quiet (assert_htup _) => unfold assert_htup
  | |- quiet (updateXid _) => unfold updateXid
  | |- quiet (if ?b then _ else _) => destruct b
  | |- quiet (match ?m with Some _ => _ | None => _ end) => destruct m as [[? ?]|]
  end.

Lemma historic_quiet B htup : quiet (HeapTupleSatisfiesHistoricMVCC B htup).
Proof. unfold HeapTupleSatisfiesHistoricMVCC. quiet. Qed.

Lemma only_locked_quiet B : quiet (HeapTupleHeaderIsOnlyLocked B).
Proof. unfold HeapTupleHeaderIsOnlyLocked. quiet. Qed.

(** * The entry points of the file *)
Inductive Entry :=
| EVisibility | EUpdate (cid : Z) | EVacuum (OldestXmin : Z) | EHorizon | EOnlyLocked | ESurelyDead (h : Z).

Definition void {A} (m : V A) : V unit := _ ← m; mret tt.

Definition run_entry (B : Backend) (htup : HeapTupleData) (e : Entry) : V unit :=
  match e with
  | EVisibility => void (HeapTupleSatisfiesVisibility B htup)
  | EUpdate cid => void (HeapTupleSatisfiesUpdate B htup cid)
  | EVacuum oldest => void (HeapTupleSatisfiesVacuum B htup oldest)
  | EHorizon => void (HeapTupleSatisfiesVacuumHorizon B htup)
  | EOnlyLocked => void (HeapTupleHeaderIsOnlyLocked B)
  | ESurelyDead h => void (HeapTupleIsSurelyDead B htup h)
  end.

Lemma void_ok {A} (m : V A) s s' : void m s = Ok (tt, s') -> exists a, m s = Ok (a, s').
Proof.
  unfold void. change ((_ ← m; mret tt) s) with (m s ≫= (fun '(_, s1) => @Ok (unit * VState) (tt, s1))).
  destruct (m s) as [[a s1]| |]; [cbn|done|done]. intros [= <-]. by exists a.
Qed.

Lemma wpv_run {A} (m : V A) s Q a s' : wpv m s Q -> m s = Ok (a, s') -> Q a s'.
Proof. unfold wpv, wp. intros H E. by rewrite E in H. Qed.

Lemma get_run {A C} (f : VState -> A) (k : A -> V C) s : (get f ≫= k) s = k (f s) s.
Proof. done. Qed.

Section entries.
Context (B : Backend) {HB : History B} (sn : SnapshotData) (htup : HeapTupleData) (s0 : VState).
Context (Hok : tuple_ok B sn htup (tuple s0)) (Hh : hints_ok B (now s0) (tuple s0)) (Hsn : snapshot s0 = sn).

Lemma inv_quiet {A} (m : V A) a s : quiet m -> m s0 = Ok (a, s) -> Inv B s0 s.
Proof using Hok Hh HB. intros Hq E. apply (inv_after B sn htup s0 Hok s0); [by apply inv_start|by apply (Hq _ a)]. Qed.

Lemma visibility_inv b s : (snapshot_type sn = SNAPSHOT_MVCC -> snapshot_ok B sn) ->
  HeapTupleSatisfiesVisibility B htup s0 = Ok (b, s) -> Inv B s0 s.
Proof.
  intros Hmv. unfold HeapTupleSatisfiesVisibility, snap. rewrite get_run, Hsn.
  destruct (snapshot_type sn) eqn:Et; intros E.
  - apply (wpv_run _ _ _ _ _ (satisfies_mvcc B sn htup s0 Hok (Hmv eq_refl) Hsn Hh) E).
  - apply (wpv_run _ _ _ _ _ (satisfies_self B sn htup s0 Hok Hh) E).
  - eapply inv_quiet; [|exact E]. apply quiet_ret.
  - apply (wpv_run _ _ _ _ _ (satisfies_toast B sn htup s0 Hok Hh) E).
  - apply (wpv_run _ _ _ _ _ (satisfies_dirty B sn htup s0 Hok Hh) E).
  - eapply inv_quiet; [|exact E]. apply historic_quiet.
  - apply (wpv_run _ _ _ _ _ (satisfies_nonvacuumable B sn htup s0 Hok Hh Hsn) E).
Qed.

Lemma entry_inv e s : (snapshot_type sn = SNAPSHOT_MVCC -> snapshot_ok B sn) ->
  run_entry B htup e s0 = Ok (tt, s) -> Inv B s0 s.
Proof.
  intros Hmv. destruct e; cbn [run_entry]; intros [a E]%void_ok.
  - by apply (visibility_inv a).
  - apply (wpv_run _ _ _ _ _ (satisfies_update B sn htup s0 cid Hok Hh) E).
  - apply (wpv_run _ _ _ _ _ (satisfies_vacuum B sn htup s0 Hok OldestXmin Hh) E).
  - apply (wpv_run _ _ _ _ _ (satisfies_horizon B sn htup s0 Hok Hh) E).
  - eapply inv_quiet; [|exact E]. apply only_locked_quiet.
  - apply (inv_after B sn htup s0 Hok s0); [by apply inv_start|].
    apply (wpv_run _ _ _ _ _ (surely_dead B sn htup s0 Hok h Hh) E).
Qed.
End entries.

(** * A server: backends that visit one tuple in turn *)
Definition Members_of : Type := Backend -> SnapshotData -> Prop.

Record server_ok (member : Members_of) (htup : HeapTupleData) (h : HeapTupleHeaderData) : Prop := {
  srv_history : forall B sn, member B sn -> History B;
  srv_shares : forall B sn C sn', member B sn -> member C sn' -> Shares B C;
  srv_tuple : forall B sn, member B sn -> tuple_ok B sn htup h;
  srv_snapshot : forall B sn, member B sn -> snapshot_type sn = SNAPSHOT_MVCC -> snapshot_ok B sn
}.

(** The moment and the header, before and after: some backend calls one of the
    entry points with its snapshot, or time goes by. *)
Inductive visit (member : Members_of) (htup : HeapTupleData)
  : nat * HeapTupleHeaderData -> nat * HeapTupleHeaderData -> Prop :=
| visit_call B sn e d t h s' : member B sn -> run_entry B htup e (mkV h sn d t) = Ok (tt, s') ->
    visit member htup (t, h) (now s', tuple s')
| visit_wait t t' h : (t <= t')%nat -> visit member htup (t, h) (t', h).

Section server.
Context (member : Members_of) (htup : HeapTupleData).

Lemma server_core h h' : same_core h h' -> server_ok member htup h -> server_ok member htup h'.
Proof.
  intros Hc [H1 H2 H3 H4]. split; [done|done| |done]. intros B sn Hm. eapply core_tuple_ok; [done|by apply H3].
Qed.

(** The commit of [x] was safe for some member of the server. *)
Definition someone_safe (t t' : nat) (x : Z) : Prop := exists B sn, member B sn /\ commit_safe B t t' x.

(** What any number of visits leaves true. *)
Record visited (p q : nat * HeapTupleHeaderData) : Prop := {
  vis_time : (p.1 <= q.1)%nat;
  vis_core : same_core p.2 q.2;
  vis_hints : forall B sn, member B sn -> hints_ok B q.1 q.2;
  vis_xmin_safe : has (t_infomask p.2) HEAP_XMIN_COMMITTED = false ->
    has (t_infomask q.2) HEAP_XMIN_COMMITTED = true ->
    has (t_infomask q.2) HEAP_MOVED = true \/ someone_safe p.1 q.1 (t_xmin q.2);
  vis_xmax_safe : has (t_infomask p.2) HEAP_XMAX_COMMITTED = false ->
    has (t_infomask q.2) HEAP_XMAX_COMMITTED = true -> someone_safe p.1 q.1 (t_xmax q.2)
}.

Lemma visited_refl p : (forall B sn, member B sn -> hints_ok B p.1 p.2) -> visited p p.
Proof. intros Hh. split; [done|apply same_core_refl|done|congruence|congruence]. Qed.

Lemma someone_wider t t' u u' x : (u <= t)%nat -> (t' <= u')%nat -> someone_safe t t' x -> someone_safe u u' x.
Proof. intros H1 H2 (B & sn & Hm & Hs). exists B, sn. split; [done|]. by eapply commit_safe_wider. Qed.

Lemma visited_step p q r : server_ok member htup p.2 -> visited p q -> visit member htup q r -> visited p r.
Proof.
  intros Hsrv [V1 V2 V3 V4 V5] Hv. pose proof (server_core _ _ V2 Hsrv) as Hsrv'. inversion Hv as
    [B sn e d t h s' Hm Hrun|t t' h Ht]; subst; cbn [fst snd] in *.
  - pose proof (srv_history _ _ _ Hsrv' B sn Hm) as HB. pose proof (srv_tuple _ _ _ Hsrv' B sn Hm) as Hok.
    assert (Inv B (mkV h sn d t) s') as [I1 I2 I3 I4 I5].
    { apply (entry_inv B sn htup (mkV h sn d t) Hok (V3 B sn Hm) eq_refl e); [by apply Hsrv'|done]. }
    cbn [now tuple] in *. split; cbn [fst snd].
    + lia.
    + by eapply same_core_trans.
    + intros C sn' Hc. pose proof (srv_history _ _ _ Hsrv' C sn' Hc) as HC.
      apply (shared_hints B C); [|done]. by apply (srv_shares _ _ _ Hsrv' _ sn _ sn').
    + intros Ha Hb. rewrite (core_has h (tuple s') I2 HEAP_MOVED) in * by done. destruct (core_fields _ _ I2) as (Ex & _).
      destruct (has (t_infomask h) HEAP_XMIN_COMMITTED) eqn:Hx.
      * destruct (V4 Ha eq_refl) as [?|Hs]; [by left|right]. rewrite Ex. by eapply someone_wider; [| |exact Hs].
      * destruct (I4 eq_refl Hb) as [?|Hs]; [by left|right]. exists B, sn. split; [done|]. by eapply commit_safe_wider; [| |exact Hs].
    + intros Ha Hb. destruct (core_fields _ _ I2) as (_ & Ex & _).
      destruct (has (t_infomask h) HEAP_XMAX_COMMITTED) eqn:Hx.
      * rewrite Ex. by eapply someone_wider; [| |apply V5].
      * exists B, sn. split; [done|]. by eapply commit_safe_wider; [| |apply I5].
  - split; cbn [fst snd]; [lia|done| | |].
    + intros B sn Hm. pose proof (srv_history _ _ _ Hsrv' B sn Hm). eapply (hints_stay B sn htup); [by apply (srv_tuple _ _ _ Hsrv')|done|by eapply V3].
    + intros Ha Hb. destruct (V4 Ha Hb) as [?|Hs]; [by left|right]. by eapply someone_wider; [| |exact Hs].
    + intros Ha Hb. by eapply someone_wider; [| |apply V5].
Qed.

Lemma visits_visited p q : server_ok member htup p.2 -> (forall B sn, member B sn -> hints_ok B p.1 p.2) ->
  rtc (visit member htup) p q -> visited p q.
Proof.
  intros Hsrv Hh. apply (rtc_ind_r (visited p)); [by apply visited_refl|].
  intros q' r _ Hv IH. by eapply visited_step.
Qed.
End server.
