(* ===== verification/VisProps.v ===== *)
(** The properties of tuple visibility: snapshot reads are repeatable whatever
    other backends do to the hint bits, hint bits are always true and set only
    for commits that are safe, what UPDATE and unique checks are told, and that
    VACUUM removes only what no snapshot sees.  Each is applied to a small
    server of two backends. *)
From stdpp Require Import relations.
From S2P Require Import Prelude.
From S2P Require Import Xid.
From S2P Require Import HeapTuple.
From S2P Require Import ComboCid.
From S2P Require Import Snapshot.
From S2P Require Import Visibility.
From S2P Require Import VisSpec.
From S2P Require Import VisInv.
From S2P Require Import VisSelf.
From S2P Require Import VisDirty.
From S2P Require Import VisMvcc.
From S2P Require Import VisUpdate.
From S2P Require Import VisVacuum.
From S2P Require Import VisShared.
Open Scope string_scope.
Open Scope list_scope.
Open Scope Z_scope.

(** * Helpers *)
Lemma wpv_ok {A} (m : V A) s Q : wpv m s Q -> exists a s', m s = Ok (a, s') /\ Q a s'.
Proof. unfold wpv, wp. destruct (m s) as [[a s']| |]; [|done|done]. intros H. by exists a, s'. Qed.

Lemma mvcc_run B htup sn h d t : snapshot_type sn = SNAPSHOT_MVCC ->
  HeapTupleSatisfiesVisibility B htup (mkV h sn d t) = HeapTupleSatisfiesMVCC B htup (mkV h sn d t).
Proof. intros E. unfold HeapTupleSatisfiesVisibility, snap. rewrite get_run. cbn [snapshot]. by rewrite E. Qed.

(** The rule sees the core of the header only. *)
Lemma core_visible B t sn h h' : same_core h h' -> mvcc_visible B t sn h' = mvcc_visible B t sn h.
Proof.
  intros Hc. unfold mvcc_visible, mvcc_inserted, mvcc_deleted.
  rewrite (core_frozen _ _ Hc), !(core_has _ _ Hc), (core_xvac _ _ Hc), (core_updater B _ _ Hc) by done.
  destruct (core_cids B _ _ Hc) as [-> ->]. by destruct (core_fields _ _ Hc) as (-> & _).
Qed.

Lemma visible_any_time B `{!History B} sn htup t t' h : snapshot_ok B sn -> tuple_ok B sn htup h ->
  mvcc_visible B t sn h = mvcc_visible B t' sn h.
Proof.
  intros Hs Ho. unfold mvcc_visible.
  by rewrite (mvcc_inserted_any_time B sn Hs htup t t' h Ho), (mvcc_deleted_any_time B sn Hs t t').
Qed.

Section server.
Context (member : Members_of) (htup : HeapTupleData) (h : HeapTupleHeaderData).
Context (Hsrv : server_ok member htup h).

Lemma hints_for_all B sn t : member B sn -> hints_ok B t h -> forall C sn', member C sn' -> hints_ok C t h.
Proof using Hsrv.
  intros Hm Hh C sn' Hc. pose proof (srv_history _ _ _ Hsrv B sn Hm) as HB.
  pose proof (srv_history _ _ _ Hsrv C sn' Hc) as HC.
  apply (shared_hints B C); [|done]. by apply (srv_shares _ _ _ Hsrv _ sn _ sn').
Qed.

(** A snapshot asks after any visits. *)
Lemma visible_after_visits C sn d t t' h' : member C sn -> snapshot_type sn = SNAPSHOT_MVCC ->
  visited member (t, h) (t', h') ->
  exists s, HeapTupleSatisfiesVisibility C htup (mkV h' sn d t') = Ok (mvcc_visible C t sn h, s)
    /\ Inv C (mkV h' sn d t') s.
Proof using Hsrv.
  intros Hm Et [V1 V2 V3 _ _]. cbn [fst snd] in *. pose proof (srv_history _ _ _ Hsrv C sn Hm) as HC.
  pose proof (srv_tuple _ _ _ Hsrv C sn Hm) as Ho. pose proof (srv_snapshot _ _ _ Hsrv C sn Hm Et) as Hs.
  assert (tuple_ok C sn htup h') as Ho' by (by eapply core_tuple_ok).
  rewrite mvcc_run by done.
  destruct (wpv_ok _ _ _ (satisfies_mvcc C sn htup (mkV h' sn d t') Ho' Hs eq_refl (V3 C sn Hm)))
    as (b & s & E & Hi & _ & ->).
  exists s. split; [|done]. rewrite E. cbn [now tuple]. rewrite (core_visible _ _ _ h h' V2).
  by rewrite (visible_any_time C sn htup t' t h Hs Ho).
Qed.
End server.

(** Where Dirty reports nobody it agrees with Self. *)
Lemma running_nonzero B `{!History B} t x : IsInProgress B t x = true -> x <> 0.
Proof. intros E ->. destruct (invalid_aborted t) as [H _]. congruence. Qed.

Lemma running_xstate B t x : xstate B t x = Running -> IsInProgress B t x = true.
Proof. unfold xstate. destruct (IsCurrent B x), (IsInProgress B t x), (DidCommit B t x); done. Qed.

Lemma running_inserter B t h : inserter B t h = IRunning -> IsInProgress B t (t_xmin h) = true.
Proof.
  unfold inserter. destruct (HeapTupleHeaderXminFrozen h); [done|].
  destruct (has _ HEAP_MOVED_OFF); [by destruct (DidCommit B t _)|].
  destruct (has _ HEAP_MOVED_IN); [by destruct (DidCommit B t _)|].
  intros E. apply running_xstate. by destruct (xstate B t (t_xmin h)).
Qed.

Lemma dirty_against_self B `{!History B} ti td h b r : (b, r) = dirty_rule B ti td h ->
  (r = nothing -> b = self_visible B ti td h)
  /\ (r <> nothing -> b = true
      /\ (inserter B ti h = IRunning \/ exists u, updater B h = Some u /\ xstate B td u = Running)).
Proof.
  unfold dirty_rule, self_visible, deleted. destruct (inserter B ti h) eqn:Ei; try (intros [= -> ->]; done).
  2: { intros [= -> ->]. pose proof (running_nonzero B ti _ (running_inserter B ti h Ei)) as Hn.
       split; [by intros [= E]|]. intros _. split; [done|by left]. }
  all: destruct (updater B h) as [u|]; [|by intros [= -> ->]].
  all: destruct (xstate B td u) eqn:Ex; try (intros [= -> ->]; done).
  all: intros [= -> ->]; pose proof (running_nonzero B td u (running_xstate B td u Ex)) as Hn.
  all: (split; [by intros [= E]|]); intros _; (split; [done|]); right; by exists u.
Qed.

(** * A small server

    Transaction 100 has inserted a tuple and committed, 150 has deleted it and
    commits at the moment [c], 200 is running, in the first of two backends. *)
Definition demo_running (c t : nat) (x : Z) : bool := (x =? 200) || ((x =? 150) && (t <? c)%nat).
Definition demo_committed (c t : nat) (x : Z) : bool := (x =? 100) || ((x =? 150) && (c <=? t)%nat).

Definition demo_backend (c : nat) (current : Z -> bool) : Backend :=
  {| IsCurrent := current;
     InSnapshot := fun s x => negb (TransactionIdPrecedes x (xmin s)) && xid_in x (xip s);
     IsInProgress := demo_running c;
     DidCommit := demo_committed c;
     Members := fun _ _ => None;
     CommitLSN := fun _ _ => 7;
     XLogNeedsFlush := fun t _ => (t <? 9)%nat;
     BufferIsPermanent := true;
     BufferGetLSNAtomic := fun _ => 0;
     GlobalVisTestIsRemovableXid := fun _ _ x => x <? 160;
     ComboCids := no_combo;
     ResolveCids := None |}.

Definition demo_first (c : nat) : Backend := demo_backend c (fun x => x =? 200).
Definition demo_second (c : nat) : Backend := demo_backend c (fun _ => false).

Definition demo_snapshot (oldest : Z) (running : list Z) : SnapshotData :=
  {| snapshot_type := SNAPSHOT_MVCC; xmin := oldest; xmax := 201; xip := running; subxip := [];
     suboverflowed := false; takenDuringRecovery := false; curcid := 0; speculativeToken := 0; vistest := 0 |}.

(** While 150 runs, and after it. *)
Definition demo_early : SnapshotData := demo_snapshot 150 [150; 200].
Definition demo_late : SnapshotData := demo_snapshot 200 [200].

Definition demo_tid : ItemPointerData := {| ip_blkid := 0; ip_posid := 1 |}.
Definition demo_htup : HeapTupleData := {| t_self := demo_tid; t_tableOid := 16384 |}.
Definition demo_tuple : HeapTupleHeaderData :=
  {| t_xmin := 100; t_xmax := 150; t_field3 := 0; t_ctid := demo_tid; t_infomask := 0 |}.

Definition demo_member (c : nat) (sn : SnapshotData) (B : Backend) (s : SnapshotData) : Prop :=
  (B = demo_first c \/ B = demo_second c) /\ s = sn.

(** The deletion is running, or done. *)
Definition demo_ok (c : nat) (sn : SnapshotData) : Prop := sn = demo_early \/ (c = 0%nat /\ sn = demo_late).

#[local] Instance demo_history c current :
  (forall x, current x = true -> x = 200) -> History (demo_backend c current).
Proof.
  intros Hcur. split; cbn [demo_backend IsCurrent IsInProgress DidCommit]; unfold demo_running, demo_committed.
  - intros t t' x Ht. destruct (x =? 200); [done|]. destruct (x =? 150); [|done]. cbn [orb andb].
    destruct (Nat.ltb_spec t c), (Nat.ltb_spec t' c); (done || lia).
  - intros t t' x Ht. destruct (x =? 200); [done|]. destruct (x =? 100); [done|]. destruct (x =? 150); [|done]. cbn [orb andb].
    destruct (Nat.ltb_spec t c), (Nat.leb_spec c t), (Nat.leb_spec c t'); (done || lia).
  - by intros t x ->%Hcur.
  - done.
Qed.

Lemma demo_first_history c : History (demo_first c).
Proof. apply demo_history. intros x Hx. lia. Qed.

Lemma demo_second_history c : History (demo_second c).
Proof. by apply demo_history. Qed.

Lemma demo_snapshot_ok c current sn : demo_ok c sn ->
  snapshot_ok (demo_backend c current) sn.
Proof.
  intros Hd t x. cbn. unfold demo_running.
  destruct (Z.eqb_spec x 200) as [->|]; [by destruct Hd as [->|[_ ->]]|].
  destruct (Z.eqb_spec x 150) as [->|]; [|done]. by destruct Hd as [->|[-> ->]].
Qed.

Lemma demo_tuple_ok c current sn : current 100 = false -> current 150 = false ->
  tuple_ok (demo_backend c current) sn demo_htup demo_tuple.
Proof.
  intros H1 H2. split; try done.
  - cbn. congruence.
Qed.

Lemma demo_hints_ok B t : hints_ok B t demo_tuple.
Proof. by split. Qed.

Lemma demo_server c sn : demo_ok c sn -> server_ok (demo_member c sn) demo_htup demo_tuple.
Proof.
  intros Hd. split.
  - intros B s [[-> | ->] _]; [apply demo_first_history|apply demo_second_history].
  - intros B s C s' [[-> | ->] _] [[-> | ->] _]; by split.
  - intros B s [[-> | ->] ->]; by apply demo_tuple_ok.
  - intros B s [[-> | ->] ->] _; by apply demo_snapshot_ok.
Qed.

(** The second backend looks at the tuple with its own snapshot. *)
Lemma demo_visit c sn t h s' : run_entry (demo_second c) demo_htup EVisibility (mkV h sn false t) = Ok (tt, s') ->
  rtc (visit (demo_member c sn) demo_htup) (t, h) (now s', tuple s').
Proof. intros E. apply rtc_once. eapply visit_call; [|exact E]. split; [by right|done]. Qed.

(** * Properties *)

(** C8. Snapshot reads are repeatable: whether a tuple is visible to an MVCC
    snapshot is decided by its inserter and its updater (each seen by the
    snapshot, or one of our own earlier commands), and the answer stays the
    same however much later it is asked and whatever hint bits any backends of
    the server set in between. *)
Theorem snapshot_read_repeatable member htup C sn d t h t' h' :
  server_ok member htup h -> member C sn -> snapshot_type sn = SNAPSHOT_MVCC -> hints_ok C t h ->
  rtc (visit member htup) (t, h) (t', h') ->
  exists s, HeapTupleSatisfiesVisibility C htup (mkV h' sn d t') = Ok (mvcc_visible C t sn h, s).
Proof.
  intros Hsrv Hm Et Hh Hv.
  destruct (visible_after_visits member htup h Hsrv C sn d t t' h') as (s & E & _); [done|done| |by exists s].
  eapply visits_visited; [done| |done]. by apply (hints_for_all member htup h Hsrv C sn).
Qed.

Lemma snapshot_read_repeatable_witness :
  exists t' h' s, has (t_infomask h') HEAP_XMIN_COMMITTED = true
  /\ HeapTupleSatisfiesVisibility (demo_first 5) demo_htup (mkV h' demo_early false t') = Ok (true, s).
Proof.
  destruct (run_entry (demo_second 5) demo_htup EVisibility (mkV demo_tuple demo_early false 20)) as [[[] s1]| |] eqn:E;
    [|exfalso; vm_compute in E; discriminate..].
  destruct (snapshot_read_repeatable (demo_member 5 demo_early) demo_htup (demo_first 5) demo_early false 20 demo_tuple
    (now s1) (tuple s1)) as [s Hs].
  - apply demo_server. by left.
  - split; [by left|done].
  - done.
  - apply demo_hints_ok.
  - by apply demo_visit.
  - exists (now s1), (tuple s1), s. split; [|exact Hs]. vm_compute in E. injection E as <-. reflexivity.
Defined.

(** C9. Hint bits: whatever entry points of the file the backends of a server
    call on a tuple, in any order, its fields and its other flags stay as they
    are, its hint bits are true for every backend, and a commit hint appears
    only when some backend found the commit record safe (the table is not
    permanent, the record flushed, or the page's LSN not before it). *)
Theorem hint_bits_sound member htup B sn t h t' h' :
  server_ok member htup h -> member B sn -> hints_ok B t h ->
  rtc (visit member htup) (t, h) (t', h') ->
  same_core h h' /\ (forall C sn', member C sn' -> hints_ok C t' h')
  /\ (has (t_infomask h) HEAP_XMIN_COMMITTED = false -> has (t_infomask h') HEAP_XMIN_COMMITTED = true ->
      has (t_infomask h') HEAP_MOVED = true \/ someone_safe member t t' (t_xmin h))
  /\ (has (t_infomask h) HEAP_XMAX_COMMITTED = false -> has (t_infomask h') HEAP_XMAX_COMMITTED = true ->
      someone_safe member t t' (t_xmax h)).
Proof.
  intros Hsrv Hm Hh Hv.
  destruct (visits_visited member htup (t, h) (t', h') Hsrv) as [_ V2 V3 V4 V5]; [|done|]; cbn [fst snd] in *.
  { by apply (hints_for_all member htup h Hsrv B sn). }
  destruct (core_fields _ _ V2) as (Ex & Em & _). by rewrite Ex, Em in *.
Qed.

Lemma hint_bits_sound_witness :
  exists t' h', has (t_infomask h') HEAP_XMAX_COMMITTED = true
  /\ someone_safe (demo_member 0 demo_late) 20 t' 150.
Proof.
  destruct (run_entry (demo_second 0) demo_htup EVisibility (mkV demo_tuple demo_late false 20)) as [[[] s1]| |] eqn:E;
    [|exfalso; vm_compute in E; discriminate..].
  destruct (hint_bits_sound (demo_member 0 demo_late) demo_htup (demo_second 0) demo_late 20 demo_tuple
    (now s1) (tuple s1)) as (_ & _ & _ & Hs).
  - apply demo_server. by right.
  - split; [by right|done].
  - apply demo_hints_ok.
  - by apply demo_visit.
  - exists (now s1), (tuple s1). 
    assert (has (t_infomask (tuple s1)) HEAP_XMAX_COMMITTED = true) as Hx
      by (vm_compute in E; injection E as <-; reflexivity).
    split; [exact Hx|]. apply Hs; [reflexivity|exact Hx].
Defined.

(** C12. HeapTupleSatisfiesUpdate tells an UPDATE, DELETE or row lock: the tuple
    is not there (yet, or for this command), it was modified by a later command
    of ours, someone is at work on it (an updater or a locker, alone or in a
    MultiXact), it was updated or deleted, or it is free; judged for the
    inserter and then for xmax at a moment during the call, whatever the hint
    bits were, and the assertions of the routine hold. *)
Theorem update_verdict B (HB : History B) sn htup cid s0 :
  tuple_ok B sn htup (tuple s0) -> hints_ok B (now s0) (tuple s0) ->
  exists r s ti td, HeapTupleSatisfiesUpdate B htup cid s0 = Ok (r, s)
    /\ (now s0 <= ti <= td /\ td <= now s)%nat /\ r = update_rule B htup cid ti td (tuple s0) /\ Inv B s0 s.
Proof.
  intros Ho Hh. destruct (wpv_ok _ _ _ (satisfies_update B sn htup s0 cid Ho Hh)) as (r & s & E & Hi & ti & td & Ht & Er).
  by exists r, s, ti, td.
Qed.

Lemma update_verdict_witness :
  exists s ti td, HeapTupleSatisfiesUpdate (demo_first 50) demo_htup 0 (mkV demo_tuple demo_early false 0)
    = Ok (TM_BeingModified, s)
  /\ TM_BeingModified = update_rule (demo_first 50) demo_htup 0 ti td demo_tuple.
Proof.
  destruct (update_verdict (demo_first 50) (demo_first_history 50) demo_early demo_htup 0 (mkV demo_tuple demo_early false 0))
    as (r & s & ti & td & E & _ & Er & _).
  - by apply demo_tuple_ok.
  - apply demo_hints_ok.
  - assert (r = TM_BeingModified) as -> by (vm_compute in E; by injection E as <- _).
    exists s, ti, td. split; [exact E|exact Er].
Defined.

(** HeapTupleSatisfiesDirty (used for unique checks) answers as
    HeapTupleSatisfiesSelf does but counts the open transactions of others: an
    insertion in progress is visible and a deletion in progress does not hide
    the tuple, and exactly then the snapshot reports whom to wait for (with the
    token of a speculative insertion). *)
Theorem dirty_verdict B (HB : History B) sn htup s0 :
  tuple_ok B sn htup (tuple s0) -> hints_ok B (now s0) (tuple s0) ->
  exists b s ti td, HeapTupleSatisfiesDirty B htup s0 = Ok (b, s)
    /\ (now s0 <= ti <= td /\ td <= now s)%nat
    /\ (b, reported (snapshot s)) = dirty_rule B ti td (tuple s0)
    /\ (reported (snapshot s) = nothing -> b = self_visible B ti td (tuple s0))
    /\ (reported (snapshot s) <> nothing -> b = true
        /\ (inserter B ti (tuple s0) = IRunning
            \/ exists u, updater B (tuple s0) = Some u /\ xstate B td u = Running)).
Proof.
  intros Ho Hh. destruct (wpv_ok _ _ _ (satisfies_dirty B sn htup s0 Ho Hh)) as (b & s & E & Hi & ti & td & Ht & Er).
  exists b, s, ti, td. do 3 (split; [done|]). by apply dirty_against_self.
Qed.

Lemma dirty_verdict_witness :
  exists s, HeapTupleSatisfiesDirty (demo_first 50) demo_htup (mkV demo_tuple demo_early false 0) = Ok (true, s)
  /\ reported (snapshot s) = (0, 150, 0)
  /\ exists td, xstate (demo_first 50) td 150 = Running.
Proof.
  destruct (dirty_verdict (demo_first 50) (demo_first_history 50) demo_early demo_htup (mkV demo_tuple demo_early false 0))
    as (b & s & ti & td & E & _ & _ & _ & Hr).
  - by apply demo_tuple_ok.
  - apply demo_hints_ok.
  - assert (b = true /\ reported (snapshot s) = (0, 150, 0)) as [-> Es]
      by (vm_compute in E; injection E as <- <-; by vm_compute).
    exists s. split; [exact E|]. split; [exact Es|]. destruct Hr as [_ [Hi|(u & Hu & Hx)]]; [by rewrite Es| |].
    + by destruct ti.
    + exists td. injection Hu as <-. exact Hx.
Defined.

(** 64-bit ids behind an updater, a removal horizon and the xmin of a snapshot
    that is not older than the horizon, no two of them 2^31 or more apart. *)
Definition in_window (u oldest x : Z) : Prop :=
  exists fu fo fx, u32 fu = u /\ u32 fo = oldest /\ u32 fx = x /\ fo <= fx
    /\ - 2 ^ 31 <= fu - fo < 2 ^ 31 /\ - 2 ^ 31 <= fu - fx < 2 ^ 31
    /\ TransactionIdIsNormal u = true /\ TransactionIdIsNormal oldest = true /\ TransactionIdIsNormal x = true.

Lemma window_precedes u oldest x : in_window u oldest x ->
  TransactionIdPrecedes u oldest = true -> TransactionIdPrecedes u x = true.
Proof.
  intros (fu & fo & fx & <- & <- & <- & Hle & H1 & H2 & Hu & Ho & Hx).
  rewrite !precedes_full by done. lia.
Qed.

(** C10. VACUUM removes only what no snapshot sees: a tuple that
    HeapTupleSatisfiesVacuum declares dead for a horizon is invisible to every
    MVCC snapshot of the server whose xmin is not older than the horizon, then
    and at any time later. *)
Theorem vacuum_dead_is_invisible member htup h B sn d t OldestXmin s C sn' d' t' h' :
  server_ok member htup h -> member B sn -> hints_ok B t h ->
  HeapTupleSatisfiesVacuum B htup OldestXmin (mkV h sn d t) = Ok (HEAPTUPLE_DEAD, s) ->
  member C sn' -> snapshot_type sn' = SNAPSHOT_MVCC ->
  (forall x, TransactionIdPrecedes x (xmin sn') = true -> InSnapshot C sn' x = false) ->
  (forall u, updater B h = Some u -> in_window u OldestXmin (xmin sn')) ->
  rtc (visit member htup) (now s, tuple s) (t', h') ->
  exists s', HeapTupleSatisfiesVisibility C htup (mkV h' sn' d' t') = Ok (false, s').
Proof.
  intros Hsrv Hm Hh E Hc Et Hx Hw Hv. pose proof (srv_tuple _ _ _ Hsrv B sn Hm) as Ho.
  pose proof (srv_history _ _ _ Hsrv B sn Hm) as HB. pose proof (srv_history _ _ _ Hsrv C sn' Hc) as HC.
  destruct (wpv_run _ _ _ _ _ (satisfies_vacuum B sn htup (mkV h sn d t) Ho OldestXmin Hh) E)
    as (Hi & ti & td & Ht & Er). cbn [tuple now] in *.
  assert (same_core h (tuple s)) as Hcore by apply Hi. pose proof (server_core member htup _ _ Hcore Hsrv) as Hsrv'.
  destruct (visible_after_visits member htup (tuple s) Hsrv' C sn' d' (now s) t' h') as (s' & E' & _); [done|done| |].
  { apply (visits_visited member htup); [done| |done]. cbn [fst snd].
    apply (hints_for_all member htup _ Hsrv' B sn); [done|apply Hi]. }
  exists s'. rewrite E', (core_visible _ _ _ h (tuple s)) by done.
  rewrite (dead_invisible B C (srv_shares _ _ _ Hsrv B sn C sn' Hm Hc) sn htup sn'
    (fun u => TransactionIdPrecedes u OldestXmin) ti td); [done|done|lia|lia| |done].
  intros u Hu Hp. apply Hx. by eapply window_precedes; [apply Hw|].
Qed.

Lemma vacuum_dead_is_invisible_witness :
  exists s s', HeapTupleSatisfiesVacuum (demo_second 0) demo_htup 160 (mkV demo_tuple demo_late false 20)
    = Ok (HEAPTUPLE_DEAD, s)
  /\ HeapTupleSatisfiesVisibility (demo_first 0) demo_htup (mkV (tuple s) demo_late false (now s)) = Ok (false, s').
Proof.
  destruct (HeapTupleSatisfiesVacuum (demo_second 0) demo_htup 160 (mkV demo_tuple demo_late false 20))
    as [[r s]| |] eqn:E; [|exfalso; vm_compute in E; discriminate..].
  assert (r = HEAPTUPLE_DEAD) as -> by (vm_compute in E; by injection E as <- _).
  destruct (vacuum_dead_is_invisible (demo_member 0 demo_late) demo_htup demo_tuple (demo_second 0) demo_late false 20 160
    s (demo_first 0) demo_late false (now s) (tuple s)) as [s' Hs'].
  - apply demo_server. by right.
  - split; [by right|done].
  - apply demo_hints_ok.
  - exact E.
  - split; [by left|done].
  - reflexivity.
  - intros x Hx. cbn. cbn in Hx. by rewrite Hx.
  - intros u [= <-]. exists 150, 160, 200. vm_compute. repeat split; congruence.
  - apply rtc_refl.
  - exists s, s'. split; [reflexivity|exact Hs'].
Defined.
