(* ===== verification/ProcArray.v ===== *)
(** Which transactions run (src/postgresql/src/backend/storage/ipc/procarray.c)
    and the assignment of transaction ids ([GetNewTransactionId] of
    src/postgresql/src/backend/access/transam/varsup.c), outside recovery, with
    what fills an entry before it joins the array (InitProcess of
    storage/lmgr/proc.c; MarkAsPreparingGuts and GXactLoadSubxactData of
    access/transam/twophase.c) and what changes its status flags (vacuum_rel of
    commands/vacuum.c, set_indexsafe_procflags of commands/indexcmds.c,
    StartupDecodingContext and ReplicationSlotRelease of replication/).

    The shared state is the record [Shared]: the PGPROC entries, the dense
    arrays of ProcGlobal and ProcArrayStruct that mirror parts of them (a slot is
    an index into the dense arrays), and the id counters of ShmemVariableCache.
    A cached subtransaction array holds its first [count] elements.  Routines
    that hold ProcArrayLock exclusively are functions of [Shared].

    [GetSnapshotData] holds the lock in shared mode, which keeps out everything
    but the assignment of new ids: it runs over a history of the shared state,
    each of its reads happens at a moment of its own, and the clock advances
    with every read.

    Left out are the PGPROC fields that these routines only reset
    (lxid, delayChkpt, delayChkptEnd, recoveryConflictPending), the bounds of
    GlobalVisState that GetSnapshotData maintains on the side, and hot standby. *)
From S2P Require Import Prelude.
From S2P Require Import Xid.
From S2P Require Import Subtrans.
From S2P Require Import Snapshot.
Open Scope string_scope.
Open Scope list_scope.
Open Scope Z_scope.

(** * State *)
Definition MAX_CACHED_SUBXIDS : Z := 64.
Definition PROC_IS_AUTOVACUUM : Z := 0x01.
Definition PROC_IN_VACUUM : Z := 0x02.
Definition PROC_IN_SAFE_IC : Z := 0x04.
Definition PROC_VACUUM_FOR_WRAPAROUND : Z := 0x08.
Definition PROC_IN_LOGICAL_DECODING : Z := 0x10.
Definition PROC_VACUUM_STATE_MASK : Z := Z.lor (Z.lor PROC_IN_VACUUM PROC_IN_SAFE_IC) PROC_VACUUM_FOR_WRAPAROUND.

Record XidCacheStatus := { count : Z; overflowed : bool }.
Definition empty_cache_status : XidCacheStatus := {| count := 0; overflowed := false |}.

Record PGPROC := mkProc {
  p_xid : Z;
  p_xmin : Z;
  p_subxidStatus : XidCacheStatus;
  p_subxids : list Z;
  p_statusFlags : Z;
  p_pgxactoff : Z
}.

Record Shared := mkShared {
  allProcs : list PGPROC;
  pgprocnos : list Z;
  xids : list Z;
  subxidStates : list XidCacheStatus;
  statusFlags : list Z;
  maxProcs : Z;
  latestCompletedXid : Z;
  nextXid : Z;
  oldestXid : Z;
  xactCompletionCount : Z
}.

Definition numProcs (st : Shared) : Z := len (pgprocnos st).

(** Assignments to one field. *)
Definition set_proc (no : Z) (p : PGPROC) (st : Shared) : res Shared :=
  ps ← wr (allProcs st) no p;
  Ok (mkShared ps (pgprocnos st) (xids st) (subxidStates st) (statusFlags st) (maxProcs st)
        (latestCompletedXid st) (nextXid st) (oldestXid st) (xactCompletionCount st)).
Definition set_xid (off x : Z) (st : Shared) : res Shared :=
  xs ← wr (xids st) off x;
  Ok (mkShared (allProcs st) (pgprocnos st) xs (subxidStates st) (statusFlags st) (maxProcs st)
        (latestCompletedXid st) (nextXid st) (oldestXid st) (xactCompletionCount st)).
Definition set_subxidState (off : Z) (s : XidCacheStatus) (st : Shared) : res Shared :=
  ss ← wr (subxidStates st) off s;
  Ok (mkShared (allProcs st) (pgprocnos st) (xids st) ss (statusFlags st) (maxProcs st)
        (latestCompletedXid st) (nextXid st) (oldestXid st) (xactCompletionCount st)).
Definition set_statusFlags (off f : Z) (st : Shared) : res Shared :=
  fs ← wr (statusFlags st) off f;
  Ok (mkShared (allProcs st) (pgprocnos st) (xids st) (subxidStates st) fs (maxProcs st)
        (latestCompletedXid st) (nextXid st) (oldestXid st) (xactCompletionCount st)).
Definition set_latest (l : Z) (st : Shared) : Shared :=
  mkShared (allProcs st) (pgprocnos st) (xids st) (subxidStates st) (statusFlags st) (maxProcs st)
    l (nextXid st) (oldestXid st) (xactCompletionCount st).
Definition set_next (n : Z) (st : Shared) : Shared :=
  mkShared (allProcs st) (pgprocnos st) (xids st) (subxidStates st) (statusFlags st) (maxProcs st)
    (latestCompletedXid st) n (oldestXid st) (xactCompletionCount st).
Definition count_completion (st : Shared) : Shared :=
  mkShared (allProcs st) (pgprocnos st) (xids st) (subxidStates st) (statusFlags st) (maxProcs st)
    (latestCompletedXid st) (nextXid st) (oldestXid st) (u64 (xactCompletionCount st + 1)).

(** * 64-bit ids *)
Definition FirstNormalFullTransactionId : Z := 3.

(** The loop of [FullTransactionIdAdvance] passes at most three special ids. *)
Fixpoint skip_special (fuel : nat) (value : Z) : res Z :=
  match fuel with
  | O => UB "FullTransactionIdAdvance"
  | S fuel => if u32 value <? FirstNormalTransactionId then skip_special fuel (value + 1) else Ok value
  end.

Definition FullTransactionIdAdvance (value : Z) : res Z :=
  let value := value + 1 in
  if value <? FirstNormalFullTransactionId then Ok value else skip_special 4 value.

Definition AssertTransactionIdInAllowableRange (xid : Z) (st : Shared) : res unit :=
  Assert (TransactionIdIsValid xid) "TransactionIdIsValid(xid)";;
  if negb (TransactionIdIsNormal xid) then Ok tt
  else Assert (TransactionIdFollowsOrEquals xid (oldestXid st)
               || TransactionIdPrecedesOrEquals xid (u32 (nextXid st)))
         "TransactionIdFollowsOrEquals(xid, oldest_xid) || TransactionIdPrecedesOrEquals(xid, next_xid)".

Definition FullXidRelativeTo (rel xid : Z) (st : Shared) : res Z :=
  let rel_xid := u32 rel in
  Assert (TransactionIdIsValid xid) "TransactionIdIsValid(xid)";;
  Assert (TransactionIdIsValid rel_xid) "TransactionIdIsValid(rel_xid)";;
  AssertTransactionIdInAllowableRange xid st;;
  Ok (rel + i32 (xid - rel_xid)).

Definition MaintainLatestCompletedXid (latestXid : Z) (st : Shared) : res Shared :=
  let cur_latest := latestCompletedXid st in
  Assert (TransactionIdIsValid (u32 cur_latest)) "FullTransactionIdIsValid(cur_latest)";;
  st ← (if TransactionIdPrecedes (u32 cur_latest) latestXid
        then l ← FullXidRelativeTo cur_latest latestXid st; Ok (set_latest l st)
        else Ok st);
  Assert (FirstNormalFullTransactionId <=? latestCompletedXid st)
    "FullTransactionIdIsNormal(ShmemVariableCache->latestCompletedXid)";;
  Ok st.

(** * Assignment of ids *)
Record Limits := {
  xidVacLimit : Z;
  xidWarnLimit : Z;
  xidStopLimit : Z;
  xidWrapLimit : Z;
  IsUnderPostmaster : bool
}.

Definition set_oldest (x : Z) (st : Shared) : Shared :=
  mkShared (allProcs st) (pgprocnos st) (xids st) (subxidStates st) (statusFlags st) (maxProcs st)
    (latestCompletedXid st) (nextXid st) x (xactCompletionCount st).

(** Without the messages and the signal to the autovacuum launcher. *)
Definition SetTransactionIdLimit (oldest_datfrozenxid autovacuum_freeze_max_age : Z) (lim : Limits) (st : Shared)
  : res (Limits * Shared) :=
  Assert (TransactionIdIsNormal oldest_datfrozenxid) "TransactionIdIsNormal(oldest_datfrozenxid)";;
  let xidWrapLimit := u32 (oldest_datfrozenxid + Z.shiftr MaxTransactionId 1) in
  let xidWrapLimit := if xidWrapLimit <? FirstNormalTransactionId
                      then u32 (xidWrapLimit + FirstNormalTransactionId) else xidWrapLimit in
  let xidStopLimit := u32 (xidWrapLimit - 3000000) in
  let xidStopLimit := if xidStopLimit <? FirstNormalTransactionId
                      then u32 (xidStopLimit - FirstNormalTransactionId) else xidStopLimit in
  let xidWarnLimit := u32 (xidWrapLimit - 40000000) in
  let xidWarnLimit := if xidWarnLimit <? FirstNormalTransactionId
                      then u32 (xidWarnLimit - FirstNormalTransactionId) else xidWarnLimit in
  let xidVacLimit := u32 (oldest_datfrozenxid + autovacuum_freeze_max_age) in
  let xidVacLimit := if xidVacLimit <? FirstNormalTransactionId
                     then u32 (xidVacLimit + FirstNormalTransactionId) else xidVacLimit in
  Ok ({| xidVacLimit := xidVacLimit; xidWarnLimit := xidWarnLimit; xidStopLimit := xidStopLimit;
         xidWrapLimit := xidWrapLimit; IsUnderPostmaster := IsUnderPostmaster lim |},
      set_oldest oldest_datfrozenxid st).

(** What happens once XidGenLock is held for good: the commit log is extended
    ([extend]: ExtendCLOG, ExtendCommitTs, ExtendSUBTRANS), the counter moves,
    and the id is stored in the slot of [MyProc]. *)
Definition assign_xid_to (extend : Z -> res unit) (me : Z) (isSubXact : bool) (st : Shared)
  : res (Z * Shared) :=
  let full_xid := nextXid st in
  let xid := u32 full_xid in
  extend xid;;
  next ← FullTransactionIdAdvance full_xid;
  let st := set_next next st in
  my ← rd (allProcs st) me;
  let off := p_pgxactoff my in
  substat ← rd (subxidStates st) off;
  if negb isSubXact then
    Assert (count substat =? 0) "ProcGlobal->subxidStates[MyProc->pgxactoff].count == 0";;
    Assert (negb (overflowed substat)) "!ProcGlobal->subxidStates[MyProc->pgxactoff].overflowed";;
    Assert (count (p_subxidStatus my) =? 0) "MyProc->subxidStatus.count == 0";;
    Assert (negb (overflowed (p_subxidStatus my))) "!MyProc->subxidStatus.overflowed";;
    st ← set_proc me (mkProc xid (p_xmin my) (p_subxidStatus my) (p_subxids my) (p_statusFlags my) off) st;
    st ← set_xid off xid st;
    Ok (full_xid, st)
  else
    let nxids := count (p_subxidStatus my) in
    Assert (count substat =? count (p_subxidStatus my)) "substat->count == MyProc->subxidStatus.count";;
    Assert (Bool.eqb (overflowed substat) (overflowed (p_subxidStatus my)))
      "substat->overflowed == MyProc->subxidStatus.overflowed";;
    if nxids <? MAX_CACHED_SUBXIDS then
      let s := {| count := nxids + 1; overflowed := overflowed substat |} in
      st ← set_proc me (mkProc (p_xid my) (p_xmin my)
                          {| count := nxids + 1; overflowed := overflowed (p_subxidStatus my) |}
                          (take (Z.to_nat nxids) (p_subxids my) ++ [xid]) (p_statusFlags my) off) st;
      st ← set_subxidState off s st;
      Ok (full_xid, st)
    else
      st ← set_proc me (mkProc (p_xid my) (p_xmin my)
                          {| count := nxids; overflowed := true |}
                          (p_subxids my) (p_statusFlags my) off) st;
      st ← set_subxidState off {| count := count substat; overflowed := true |} st;
      Ok (full_xid, st).

(** [again] is the shared state when XidGenLock, released for the warnings
    about wraparound, is held again. *)
Definition GetNewTransactionId (lim : Limits) (extend : Z -> res unit) (inParallel bootstrap : bool)
  (me : Z) (isSubXact : bool) (st again : Shared) : res (Z * Shared) :=
  if inParallel then Err "cannot assign TransactionIds during a parallel operation"
  else if bootstrap then
    Assert (negb isSubXact) "!isSubXact";;
    my ← rd (allProcs st) me;
    st ← set_proc me (mkProc BootstrapTransactionId (p_xmin my) (p_subxidStatus my) (p_subxids my)
                        (p_statusFlags my) (p_pgxactoff my)) st;
    st ← set_xid (p_pgxactoff my) BootstrapTransactionId st;
    Ok (BootstrapTransactionId, st)
  else
    let xid := u32 (nextXid st) in
    if TransactionIdFollowsOrEquals xid (xidVacLimit lim) then
      if IsUnderPostmaster lim && TransactionIdFollowsOrEquals xid (xidStopLimit lim)
      then Err "database is not accepting commands to avoid wraparound data loss"
      else assign_xid_to extend me isSubXact again
    else assign_xid_to extend me isSubXact st.

(** * The end of transactions *)

(** [statusFlags &= ~PROC_VACUUM_STATE_MASK], in the entry and its slot. *)
Definition clear_vacuum_flags (no : Z) (st : Shared) : res Shared :=
  p ← rd (allProcs st) no;
  if negb (Z.land (p_statusFlags p) PROC_VACUUM_STATE_MASK =? 0) then
    let f := Z.ldiff (p_statusFlags p) PROC_VACUUM_STATE_MASK in
    st ← set_proc no (mkProc (p_xid p) (p_xmin p) (p_subxidStatus p) (p_subxids p) f (p_pgxactoff p)) st;
    set_statusFlags (p_pgxactoff p) f st
  else Ok st.

(** The subtransaction cache of an entry and of its slot is emptied. *)
Definition clear_subxids (no : Z) (st : Shared) : res Shared :=
  p ← rd (allProcs st) no;
  s ← rd (subxidStates st) (p_pgxactoff p);
  Assert ((count s =? count (p_subxidStatus p)) && Bool.eqb (overflowed s) (overflowed (p_subxidStatus p)))
    "ProcGlobal->subxidStates[pgxactoff] == proc->subxidStatus";;
  if (0 <? count (p_subxidStatus p)) || overflowed (p_subxidStatus p) then
    st ← set_subxidState (p_pgxactoff p) empty_cache_status st;
    set_proc no (mkProc (p_xid p) (p_xmin p) empty_cache_status [] (p_statusFlags p) (p_pgxactoff p)) st
  else Ok st.

(** xid and xmin of an entry, and the xid of its slot, become invalid. *)
Definition clear_xid (no : Z) (st : Shared) : res Shared :=
  p ← rd (allProcs st) no;
  st ← set_xid (p_pgxactoff p) InvalidTransactionId st;
  set_proc no (mkProc InvalidTransactionId InvalidTransactionId (p_subxidStatus p) (p_subxids p)
                 (p_statusFlags p) (p_pgxactoff p)) st.

Definition ProcArrayEndTransactionInternal (no latestXid : Z) (st : Shared) : res Shared :=
  p ← rd (allProcs st) no;
  x ← rd (xids st) (p_pgxactoff p);
  Assert (TransactionIdIsValid x) "TransactionIdIsValid(ProcGlobal->xids[pgxactoff])";;
  Assert (x =? p_xid p) "ProcGlobal->xids[pgxactoff] == proc->xid";;
  st ← clear_xid no st;
  st ← clear_vacuum_flags no st;
  st ← clear_subxids no st;
  st ← MaintainLatestCompletedXid latestXid st;
  Ok (count_completion st).

(** The leader clears the ids of all that joined the list: [(no, latestXid)],
    itself among them. *)
Fixpoint ProcArrayGroupClearXid (group : list (Z * Z)) (st : Shared) : res Shared :=
  match group with
  | [] => Ok st
  | (no, latestXid) :: group =>
      st ← ProcArrayEndTransactionInternal no latestXid st;
      ProcArrayGroupClearXid group st
  end.

(** [group]: [None] when the lock is free at once, otherwise the list that the
    leader (this process or another) walks. *)
Definition ProcArrayEndTransaction (no latestXid : Z) (group : option (list (Z * Z))) (st : Shared)
  : res Shared :=
  p ← rd (allProcs st) no;
  if TransactionIdIsValid latestXid then
    Assert (TransactionIdIsValid (p_xid p)) "TransactionIdIsValid(proc->xid)";;
    match group with
    | None => ProcArrayEndTransactionInternal no latestXid st
    | Some g => ProcArrayGroupClearXid g st
    end
  else
    Assert (negb (TransactionIdIsValid (p_xid p))) "!TransactionIdIsValid(proc->xid)";;
    Assert (count (p_subxidStatus p) =? 0) "proc->subxidStatus.count == 0";;
    Assert (negb (overflowed (p_subxidStatus p))) "!proc->subxidStatus.overflowed";;
    st ← set_proc no (mkProc (p_xid p) InvalidTransactionId (p_subxidStatus p) (p_subxids p)
                        (p_statusFlags p) (p_pgxactoff p)) st;
    (if negb (Z.land (p_statusFlags p) PROC_VACUUM_STATE_MASK =? 0) then
       f ← rd (statusFlags st) (p_pgxactoff p);
       Assert (p_statusFlags p =? f) "proc->statusFlags == ProcGlobal->statusFlags[proc->pgxactoff]"
     else Ok tt);;
    clear_vacuum_flags no st.

Definition ProcArrayClearTransaction (no : Z) (st : Shared) : res Shared :=
  st ← clear_xid no st;
  p ← rd (allProcs st) no;
  Assert (Z.land (p_statusFlags p) PROC_VACUUM_STATE_MASK =? 0)
    "!(proc->statusFlags & PROC_VACUUM_STATE_MASK)";;
  clear_subxids no (count_completion st).

(** ** Aborted subtransactions *)

(** The last occurrence of [anxid] is overwritten by the last element, and the
    count drops; nothing is found: [None]. *)
Fixpoint find_from_end (anxid : Z) (l : list Z) (j : nat) : option nat :=
  match j with
  | O => None
  | S j => if TransactionIdEquals (getd 0 l (Z.of_nat j)) anxid then Some j else find_from_end anxid l j
  end.

Definition remove_cached (no anxid : Z) (st : Shared) : res Shared :=
  p ← rd (allProcs st) no;
  let n := count (p_subxidStatus p) in
  match find_from_end anxid (p_subxids p) (Z.to_nat n) with
  | Some j =>
      last ← rd (p_subxids p) (n - 1);
      l ← wr (p_subxids p) (Z.of_nat j) last;
      s ← rd (subxidStates st) (p_pgxactoff p);
      st ← set_subxidState (p_pgxactoff p) {| count := count s - 1; overflowed := overflowed s |} st;
      set_proc no (mkProc (p_xid p) (p_xmin p)
                     {| count := n - 1; overflowed := overflowed (p_subxidStatus p) |}
                     (take (Z.to_nat (n - 1)) l) (p_statusFlags p) (p_pgxactoff p)) st
  | None => Ok st   (* a WARNING unless the cache has overflowed *)
  end.

Fixpoint remove_all_cached (no : Z) (xs : list Z) (st : Shared) : res Shared :=
  match xs with
  | [] => Ok st
  | x :: xs => st ← remove_cached no x st; remove_all_cached no xs st
  end.

Definition XidCacheRemoveRunningXids (no xid : Z) (xs : list Z) (latestXid : Z) (st : Shared) : res Shared :=
  Assert (TransactionIdIsValid xid) "TransactionIdIsValid(xid)";;
  st ← remove_all_cached no (rev xs) st;
  st ← remove_cached no xid st;
  st ← MaintainLatestCompletedXid latestXid st;
  Ok (count_completion st).

(** * Processes come and go *)

(** [memmove] of the tail of a dense array, to make room at [i] or to close the
    gap at [i]. *)
Definition insert_at {A} (i : Z) (v : A) (l : list A) : list A :=
  take (Z.to_nat i) l ++ v :: drop (Z.to_nat i) l.
Definition delete_at {A} (i : Z) (l : list A) : list A :=
  take (Z.to_nat i) l ++ drop (Z.to_nat (i + 1)) l.

Definition set_off (p : PGPROC) (off : Z) : PGPROC :=
  mkProc (p_xid p) (p_xmin p) (p_subxidStatus p) (p_subxids p) (p_statusFlags p) off.

(** The first slot whose process number is greater. *)
Fixpoint add_position (n : nat) (index procno : Z) (st : Shared) : res Z :=
  match n with
  | O => Ok index
  | S n =>
      no ← rd (pgprocnos st) index;
      p ← rd (allProcs st) no;
      Assert (p_pgxactoff p =? index) "allProcs[procno].pgxactoff == index";;
      if procno <? no then Ok index else add_position n (index + 1) procno st
  end.

(** [allProcs[pgprocnos[index]].pgxactoff = index] for [n] slots from [index];
    each was [was] away before. *)
Fixpoint adjust_offsets (n : nat) (index was : Z) (st : Shared) : res Shared :=
  match n with
  | O => Ok st
  | S n =>
      no ← rd (pgprocnos st) index;
      p ← rd (allProcs st) no;
      Assert (p_pgxactoff p =? index + was) "allProcs[procno].pgxactoff";;
      st ← set_proc no (set_off p index) st;
      adjust_offsets n (index + 1) was st
  end.

Definition ProcArrayAdd (no : Z) (st : Shared) : res Shared :=
  if maxProcs st <=? numProcs st then Err "sorry, too many clients already"
  else
    index ← add_position (length (pgprocnos st)) 0 no st;
    p ← rd (allProcs st) no;
    let st := mkShared (allProcs st) (insert_at index no (pgprocnos st)) (insert_at index (p_xid p) (xids st))
                (insert_at index (p_subxidStatus p) (subxidStates st))
                (insert_at index (p_statusFlags p) (statusFlags st)) (maxProcs st)
                (latestCompletedXid st) (nextXid st) (oldestXid st) (xactCompletionCount st) in
    st ← set_proc no (set_off p index) st;
    adjust_offsets (Z.to_nat (numProcs st - (index + 1))) (index + 1) (-1) st.

Definition ProcArrayRemove (no latestXid : Z) (st : Shared) : res Shared :=
  p ← rd (allProcs st) no;
  let myoff := p_pgxactoff p in
  Assert ((0 <=? myoff) && (myoff <? numProcs st)) "myoff >= 0 && myoff < arrayP->numProcs";;
  no' ← rd (pgprocnos st) myoff;
  p' ← rd (allProcs st) no';
  Assert (p_pgxactoff p' =? myoff) "ProcGlobal->allProcs[arrayP->pgprocnos[myoff]].pgxactoff == myoff";;
  x ← rd (xids st) myoff;
  st ← (if TransactionIdIsValid latestXid then
          Assert (TransactionIdIsValid x) "TransactionIdIsValid(ProcGlobal->xids[myoff])";;
          st ← MaintainLatestCompletedXid latestXid st;
          st ← set_xid myoff InvalidTransactionId (count_completion st);
          set_subxidState myoff empty_cache_status st
        else
          Assert (negb (TransactionIdIsValid x)) "!TransactionIdIsValid(ProcGlobal->xids[myoff])";;
          Ok st);
  x ← rd (xids st) myoff;
  Assert (negb (TransactionIdIsValid x)) "!TransactionIdIsValid(ProcGlobal->xids[myoff])";;
  s ← rd (subxidStates st) myoff;
  Assert ((count s =? 0) && negb (overflowed s)) "ProcGlobal->subxidStates[myoff].count == 0";;
  st ← set_statusFlags myoff 0 st;
  let st := mkShared (allProcs st) (delete_at myoff (pgprocnos st)) (delete_at myoff (xids st))
              (delete_at myoff (subxidStates st)) (delete_at myoff (statusFlags st)) (maxProcs st)
              (latestCompletedXid st) (nextXid st) (oldestXid st) (xactCompletionCount st) in
  adjust_offsets (Z.to_nat (numProcs st - myoff)) myoff 1 st.

(** ** Entries that are not in the array *)

(** A backend takes over a free entry. *)
Definition InitProcess (no : Z) (isAutoVacuumWorker : bool) (st : Shared) : res Shared :=
  p ← rd (allProcs st) no;
  set_proc no (mkProc InvalidTransactionId InvalidTransactionId (p_subxidStatus p) (p_subxids p)
                 (if isAutoVacuumWorker then Z.lor 0 PROC_IS_AUTOVACUUM else 0) (p_pgxactoff p)) st.

(** The entry of a transaction about to be prepared is zeroed and gets its id;
    the Assert on xmin holds by the MemSet. *)
Definition MarkAsPreparingGuts (gxact xid : Z) (st : Shared) : res Shared :=
  set_proc gxact (mkProc xid InvalidTransactionId empty_cache_status [] 0 0) st.

(** As many of its committed children as the cache holds. *)
Definition GXactLoadSubxactData (gxact : Z) (children : list Z) (st : Shared) : res Shared :=
  p ← rd (allProcs st) gxact;
  let over := MAX_CACHED_SUBXIDS <? len children in
  let nsubxacts := if over then MAX_CACHED_SUBXIDS else len children in
  let o := if over then true else overflowed (p_subxidStatus p) in
  if 0 <? nsubxacts then
    set_proc gxact (mkProc (p_xid p) (p_xmin p) {| count := nsubxacts; overflowed := o |}
                      (take (Z.to_nat nsubxacts) children) (p_statusFlags p) (p_pgxactoff p)) st
  else
    set_proc gxact (mkProc (p_xid p) (p_xmin p) {| count := count (p_subxidStatus p); overflowed := o |}
                      (p_subxids p) (p_statusFlags p) (p_pgxactoff p)) st.

(** PREPARE up to MarkAsPrepared: StartPrepare loads children if there are
    any. *)
Definition fill_prepared (gxact xid : Z) (children : list Z) (st : Shared) : res Shared :=
  st ← MarkAsPreparingGuts gxact xid st;
  if 0 <? len children then GXactLoadSubxactData gxact children st else Ok st.

(** ** Status flags *)

(** [MyProc->statusFlags = f], and the slot follows. *)
Definition store_flags (no : Z) (f : Z -> Z) (st : Shared) : res Shared :=
  p ← rd (allProcs st) no;
  let fl := f (p_statusFlags p) in
  st ← set_proc no (mkProc (p_xid p) (p_xmin p) (p_subxidStatus p) (p_subxids p) fl (p_pgxactoff p)) st;
  set_statusFlags (p_pgxactoff p) fl st.

(** A lazy vacuum announces itself. *)
Definition vacuum_rel_flags (no : Z) (is_wraparound : bool) : Shared -> res Shared :=
  store_flags no (fun f =>
    let f := Z.lor f PROC_IN_VACUUM in
    if is_wraparound then Z.lor f PROC_VACUUM_FOR_WRAPAROUND else f).

Definition set_indexsafe_procflags (no : Z) (st : Shared) : res Shared :=
  p ← rd (allProcs st) no;
  Assert ((p_xid p =? InvalidTransactionId) && (p_xmin p =? InvalidTransactionId))
    "MyProc->xid == InvalidTransactionId && MyProc->xmin == InvalidTransactionId";;
  store_flags no (fun f => Z.lor f PROC_IN_SAFE_IC) st.

Definition StartupDecodingContext_flags (no : Z) (inTransaction : bool) (st : Shared) : res Shared :=
  if negb inTransaction then store_flags no (fun f => Z.lor f PROC_IN_LOGICAL_DECODING) st else Ok st.

Definition ReplicationSlotRelease_flags (no : Z) : Shared -> res Shared :=
  store_flags no (fun f => Z.ldiff f PROC_IN_LOGICAL_DECODING).

(** * Snapshots *)

(** Reads of shared state: at a moment of the history, after which the clock
    has advanced. *)
Definition Rd (A : Type) : Type := nat -> res (A * nat).

#[export] Instance Rd_ret : MRet Rd := fun A a t => Ok (a, t).
#[export] Instance Rd_bind : MBind Rd := fun A B k m t => '(a, t) ← m t; k a t.

Definition pure {A} (m : res A) : Rd A := fun t => a ← m; Ok (a, t).

Definition NormalTransactionIdPrecedes (id1 id2 : Z) : res bool :=
  Assert (TransactionIdIsNormal id1 && TransactionIdIsNormal id2)
    "TransactionIdIsNormal(id1) && TransactionIdIsNormal(id2)";;
  Ok (i32 (id1 - id2) <? 0).

(** What GetSnapshotData has collected. *)
Record Collected := { c_xmin : Z; c_xip : list Z; c_subxip : list Z; c_overflowed : bool }.

(** What the backend itself keeps: its entry, and the variables TransactionXmin
    and RecentXmin. *)
Record Local := { MyProc : Z; TransactionXmin : Z; RecentXmin : Z }.

(** The static snapshot of the caller, with the completion count it was built
    at (0: never). *)
Record Static := { data : SnapshotData; snapXactCompletionCount : Z }.

Record Taken := { taken : Static; my_xmin : Z; local : Local }.

Section snapshot.
Context (history : nat -> Shared).

Definition look {A} (f : Shared -> res A) : Rd A := fun t => a ← f (history t); Ok (a, S t).

(** The cached ids of a slot; its count is read before they are. *)
Definition copy_subxids (off : Z) (c : Collected) : Rd Collected :=
  nsubxids ← look (fun st => s ← rd (subxidStates st) off; Ok (count s));
  if 0 <? nsubxids then
    subs ← look (fun st =>
      no ← rd (pgprocnos st) off;
      p ← rd (allProcs st) no;
      if len (p_subxids p) <? nsubxids then UB "proc->subxids.xids" else Ok (take (Z.to_nat nsubxids) (p_subxids p)));
    room ← look (fun st => Ok ((MAX_CACHED_SUBXIDS + 1) * maxProcs st));
    if room <? len (c_subxip c) + nsubxids then pure (UB "snapshot->subxip")
    else mret {| c_xmin := c_xmin c; c_xip := c_xip c; c_subxip := c_subxip c ++ subs;
                 c_overflowed := c_overflowed c |}
  else mret c.

(** A running transaction is added to the snapshot, its cached subtransactions
    unless the snapshot has already lost some. *)
Definition add_slot (xid off : Z) (c : Collected) : Rd Collected :=
  lower ← pure (NormalTransactionIdPrecedes xid (c_xmin c));
  room ← look (fun st => Ok (maxProcs st));
  if room <=? len (c_xip c) then pure (UB "snapshot->xip")
  else
    let c := {| c_xmin := if (lower : bool) then xid else c_xmin c; c_xip := c_xip c ++ [xid];
                c_subxip := c_subxip c; c_overflowed := c_overflowed c |} in
    if negb (c_overflowed c) then
      over ← look (fun st => s ← rd (subxidStates st) off; Ok (overflowed s));
      if (over : bool)
      then mret {| c_xmin := c_xmin c; c_xip := c_xip c; c_subxip := c_subxip c; c_overflowed := true |}
      else copy_subxids off c
    else mret c.

(** One round of the loop over the slots. *)
Definition collect_slot (mypgxactoff xmax off : Z) (c : Collected) : Rd Collected :=
  xid ← look (fun st => rd (xids st) off);
  back ← look (fun st => no ← rd (pgprocnos st) off; p ← rd (allProcs st) no; Ok (p_pgxactoff p));
  pure (Assert (back =? off) "allProcs[arrayP->pgprocnos[pgxactoff]].pgxactoff == pgxactoff");;
  if xid =? InvalidTransactionId then mret c
  else if off =? mypgxactoff then mret c
  else
    pure (Assert (TransactionIdIsNormal xid) "TransactionIdIsNormal(xid)");;
    before ← pure (NormalTransactionIdPrecedes xid xmax);
    if negb before then mret c
    else
      flags ← look (fun st => rd (statusFlags st) off);
      if negb (Z.land flags (Z.lor PROC_IN_LOGICAL_DECODING PROC_IN_VACUUM) =? 0) then mret c
      else
        add_slot xid off c.

Fixpoint collect_slots (n : nat) (mypgxactoff xmax off : Z) (c : Collected) : Rd Collected :=
  match n with
  | O => mret c
  | S n => c ← collect_slot mypgxactoff xmax off c; collect_slots n mypgxactoff xmax (off + 1) c
  end.

(** [curcid]: GetCurrentCommandId(false). *)
Definition with_curcid (cid : Z) (s : SnapshotData) : SnapshotData :=
  {| snapshot_type := snapshot_type s; xmin := xmin s; xmax := xmax s; xip := xip s; subxip := subxip s;
     suboverflowed := suboverflowed s; takenDuringRecovery := takenDuringRecovery s; curcid := cid;
     speculativeToken := speculativeToken s; vistest := vistest s |}.

(** Both ends of GetSnapshotData: the xmin of our entry is set if it is not
    yet, RecentXmin always. *)
Definition publish (my : PGPROC) (x : Z) (loc : Local) (s : Static) : res Taken :=
  let fresh := negb (TransactionIdIsValid (p_xmin my)) in
  let txmin := if fresh then x else TransactionXmin loc in
  Assert (TransactionIdPrecedesOrEquals txmin x) "TransactionIdPrecedesOrEquals(TransactionXmin, RecentXmin)";;
  Ok {| taken := s; my_xmin := if fresh then x else p_xmin my;
        local := {| MyProc := MyProc loc; TransactionXmin := txmin; RecentXmin := x |} |}.

Definition GetSnapshotDataReuse (cid : Z) (loc : Local) (s : Static) : Rd (option Taken) :=
  if snapXactCompletionCount s =? 0 then mret None
  else
    cur ← look (fun st => Ok (xactCompletionCount st));
    if negb (cur =? snapXactCompletionCount s) then mret None
    else
      my ← look (fun st => rd (allProcs st) (MyProc loc));
      r ← pure (publish my (xmin (data s)) loc
                  {| data := with_curcid cid (data s); snapXactCompletionCount := snapXactCompletionCount s |});
      mret (Some r).

Definition GetSnapshotData (cid : Z) (loc : Local) (s : Static) : Rd Taken :=
  reused ← GetSnapshotDataReuse cid loc s;
  match reused with
  | Some r => mret r
  | None =>
      latest_completed ← look (fun st => Ok (latestCompletedXid st));
      my ← look (fun st => rd (allProcs st) (MyProc loc));
      myxid ← look (fun st => rd (xids st) (p_pgxactoff my));
      pure (Assert (myxid =? p_xid my) "myxid == MyProc->xid");;
      curXactCompletionCount ← look (fun st => Ok (xactCompletionCount st));
      let x_max := TransactionIdAdvance (u32 latest_completed) in
      pure (Assert (TransactionIdIsNormal x_max) "TransactionIdIsNormal(xmax)");;
      lower ← (if TransactionIdIsNormal myxid then pure (NormalTransactionIdPrecedes myxid x_max) else mret false);
      n ← look (fun st => Ok (length (pgprocnos st)));
      c ← collect_slots n (p_pgxactoff my) x_max 0
            {| c_xmin := if (lower : bool) then myxid else x_max; c_xip := []; c_subxip := [];
               c_overflowed := false |};
      pure (publish my (c_xmin c) loc
              {| data := {| snapshot_type := snapshot_type (data s); xmin := c_xmin c; xmax := x_max;
                            xip := c_xip c; subxip := c_subxip c; suboverflowed := c_overflowed c;
                            takenDuringRecovery := false; curcid := cid;
                            speculativeToken := speculativeToken (data s); vistest := vistest (data s) |};
                 snapXactCompletionCount := curXactCompletionCount |})
  end.
End snapshot.
