(* ===== verification/ProcInv.v ===== *)
(** What the proc array shows: the invariant that ties the shared state of
    ProcArray.v to the transactions that run, and that every operation under the
    exclusive lock, and the assignment of ids, preserves it.

    The ghost state gives for each entry the transaction that its process runs:
    its 64-bit id and those of its running subtransactions.  All ids in use lie
    in a window of [2 ^ 31] ids from [lo], the oldest one. *)
From S2P Require Import Prelude.
From S2P Require Import Xid.
From S2P Require Import ProcArray.
Open Scope string_scope.
Open Scope list_scope.
Open Scope Z_scope.

(** * Ids *)
Definition fits (lo x : Z) : Prop := lo <= x < lo + 2 ^ 31 /\ 3 <= u32 x.

(** The normal id that follows a normal one. *)
Definition fnext (f : Z) : Z := if u32 (f + 1) =? 0 then f + 4 else f + 1.

(** Arithmetic of low halves. *)
Ltac u32_lia := unfold fits, fnext, u32 in *; Z.to_euclidean_division_equations; lia.

Lemma u32_range z : 0 <= u32 z < 2 ^ 32.
Proof. u32_lia. Qed.
#[export] Hint Resolve u32_range : pg.

Lemma u32_add f d : u32 (u32 f + d) = u32 (f + d).
Proof. unfold u32. by rewrite Zplus_mod_idemp_l. Qed.

(** Normal ids of the window are told apart and ordered by their low half. *)
Lemma fits_inj lo x y : fits lo x -> fits lo y -> u32 x = u32 y -> x = y.
Proof. intros. u32_lia. Qed.

Lemma fits_precedes lo x y : fits lo x -> fits lo y -> TransactionIdPrecedes (u32 x) (u32 y) = (x <? y).
Proof. intros [??] [??]. apply precedes_full; [by apply normal_range..|lia]. Qed.

Lemma fits_normal lo x : fits lo x -> TransactionIdIsNormal (u32 x) = true.
Proof. intros [_ H]. by apply normal_range. Qed.

Lemma fits_valid lo x : fits lo x -> TransactionIdIsValid (u32 x) = true.
Proof. intros [_ H]. apply valid_nonzero. lia. Qed.

Lemma fits_between lo x y z : fits lo x -> fits lo z -> x <= y <= z -> 3 <= u32 y -> fits lo y.
Proof. unfold fits. lia. Qed.

Lemma fnext_normal f : 3 <= u32 f -> 3 <= u32 (fnext f) /\ f < fnext f <= f + 4.
Proof. intros. unfold fnext. z_case; u32_lia. Qed.

(** No normal id lies between. *)
Lemma fnext_least f g : 3 <= u32 f -> 3 <= u32 g -> f < g -> fnext f <= g.
Proof. intros. unfold fnext. z_case; u32_lia. Qed.

Lemma fnext_cases f : 3 <= u32 f ->
  (u32 (f + 1) = 0 /\ u32 (f + 2) = 1 /\ u32 (f + 3) = 2 /\ u32 (f + 4) = 3 /\ fnext f = f + 4) \/
  (3 < u32 (f + 1) /\ fnext f = f + 1).
Proof. intros. unfold fnext. z_case; [left|right]; u32_lia. Qed.

Lemma TransactionIdAdvance_full f : 3 <= u32 f -> TransactionIdAdvance (u32 f) = u32 (fnext f).
Proof.
  intros Hf. unfold TransactionIdAdvance, FirstNormalTransactionId. rewrite u32_add.
  destruct (fnext_cases f Hf) as [(E1 & _ & _ & E4 & ->)|(E & ->)]; z_case.
Qed.

Lemma FullTransactionIdAdvance_full f : 3 <= f -> 3 <= u32 f -> FullTransactionIdAdvance f = Ok (fnext f).
Proof.
  intros Hf Hn. unfold FullTransactionIdAdvance, FirstNormalFullTransactionId. z_case.
  cbn [skip_special]. unfold FirstNormalTransactionId. replace (f + 1 + 1) with (f + 2) by lia.
  replace (f + 2 + 1) with (f + 3) by lia. replace (f + 3 + 1) with (f + 4) by lia.
  destruct (fnext_cases f Hn) as [(-> & -> & -> & -> & ->)|(E & ->)]; [done|]. z_case. done.
Qed.

(** * The invariant *)
Definition Tx : Type := option (Z * list Z).

Definition no_proc : PGPROC := mkProc 0 0 empty_cache_status [] 0 0.
Definition proc (st : Shared) (no : Z) : PGPROC := getd no_proc (allProcs st) no.
Definition off (st : Shared) (no : Z) : Z := p_pgxactoff (proc st no).

Definition attached (st : Shared) (no : Z) : Prop :=
  0 <= no < len (allProcs st) /\ 0 <= off st no < numProcs st /\ getd 0 (pgprocnos st) (off st no) = no.

(** A subtransaction cache is a part of the running subtransactions, and all of
    them unless it has overflowed. *)
Definition shows (p : PGPROC) (tx : Tx) : Prop :=
  count (p_subxidStatus p) = len (p_subxids p) /\ len (p_subxids p) <= MAX_CACHED_SUBXIDS /\
  match tx with
  | None => p_xid p = InvalidTransactionId /\ p_subxids p = [] /\ overflowed (p_subxidStatus p) = false
  | Some (t, subs) =>
      p_xid p = u32 t /\ NoDup (p_subxids p) /\
      (forall z, z ∈ p_subxids p -> exists s, s ∈ subs /\ z = u32 s) /\
      (overflowed (p_subxidStatus p) = false -> forall s, s ∈ subs -> u32 s ∈ p_subxids p)
  end.

Definition in_tx (t : Tx) (x : Z) : Prop :=
  match t with Some (t, subs) => x ∈ t :: subs | None => False end.

Definition running (tx : Z -> Tx) (x : Z) : Prop := exists no, in_tx (tx no) x.

Record lens_ok (st : Shared) : Prop := {
  l_xids : len (xids st) = numProcs st;
  l_states : len (subxidStates st) = numProcs st;
  l_flags : len (statusFlags st) = numProcs st;
  l_max : numProcs st <= maxProcs st
}.

Record mirrors (st : Shared) (no : Z) : Prop := {
  m_xid : getd 0 (xids st) (off st no) = p_xid (proc st no);
  m_state : getd empty_cache_status (subxidStates st) (off st no) = p_subxidStatus (proc st no);
  m_flags : getd 0 (statusFlags st) (off st no) = p_statusFlags (proc st no)
}.

(** Every slot belongs to an entry that knows its slot, and shows what it
    runs. *)
Record slots_ok (tx : Z -> Tx) (st : Shared) : Prop := {
  s_lens : lens_ok st;
  s_slot : forall i, 0 <= i < numProcs st ->
             attached st (getd 0 (pgprocnos st) i) /\ off st (getd 0 (pgprocnos st) i) = i;
  s_mirrors : forall no, attached st no -> mirrors st no;
  s_shows : forall no, attached st no -> shows (proc st no) (tx no);
  s_attached : forall no, tx no <> None -> attached st no
}.

(** The ids that run, and the counters: an id between latestCompletedXid and
    nextXid runs. *)
Record ids_ok (lo : Z) (tx : Z -> Tx) (latest next : Z) : Prop := {
  i_ids : forall no t subs x, tx no = Some (t, subs) -> x ∈ t :: subs -> fits lo x /\ t <= x < next;
  i_next : fits lo next;
  i_latest : fits lo latest;
  i_order : latest < next;
  i_cover : forall x, 3 <= u32 x -> latest < x < next -> running tx x
}.

Record inv (lo : Z) (tx : Z -> Tx) (st : Shared) : Prop := {
  v_slots : slots_ok tx st;
  v_ids : ids_ok lo tx (latestCompletedXid st) (nextXid st);
  v_lo : 3 <= lo /\ 3 <= u32 lo;
  v_oldest : oldestXid st = u32 lo
}.

Definition set_tx (tx : Z -> Tx) (no : Z) (t : Tx) : Z -> Tx := fun n => if n =? no then t else tx n.

Lemma set_tx_eq tx no t : set_tx tx no t no = t.
Proof. unfold set_tx. by rewrite Z.eqb_refl. Qed.

Lemma set_tx_ne tx no t n : n <> no -> set_tx tx no t n = tx n.
Proof. unfold set_tx. intros. by destruct (Z.eqb_spec n no). Qed.

(** An id that runs keeps running when the transaction of one entry changes,
    unless it was there and is there no more. *)
Lemma running_set tx no t x : in_tx t x -> running (set_tx tx no t) x.
Proof. exists no. by rewrite set_tx_eq. Qed.

Lemma running_keep tx no t x :
  running tx x -> (in_tx (tx no) x -> in_tx t x) -> running (set_tx tx no t) x.
Proof.
  intros [n Hn] Hx. destruct (decide (n = no)) as [->|Hne]; [by apply running_set, Hx|].
  exists n. by rewrite set_tx_ne.
Qed.

Lemma running_inv tx no t x : running (set_tx tx no t) x -> in_tx t x \/ running tx x.
Proof.
  intros [n Hn]. unfold set_tx in Hn. destruct (n =? no); [by left|right; by exists n].
Qed.

(** ** Storing an entry with its slot *)
Definition put (no : Z) (p : PGPROC) (st : Shared) : Shared :=
  mkShared (upd (allProcs st) no p) (pgprocnos st) (upd (xids st) (off st no) (p_xid p))
    (upd (subxidStates st) (off st no) (p_subxidStatus p))
    (upd (statusFlags st) (off st no) (p_statusFlags p)) (maxProcs st)
    (latestCompletedXid st) (nextXid st) (oldestXid st) (xactCompletionCount st).

Lemma upd_getd {A} (d : A) l i : 0 <= i < len l -> upd l i (getd d l i) = l.
Proof.
  intros Hi. unfold upd, getd. apply list_insert_id. unfold len in Hi.
  destruct (lookup_lt_is_Some_2 l (Z.to_nat i)) as [v ->]; [lia|done].
Qed.

Lemma upd_twice {A} (l : list A) i v w : upd (upd l i v) i w = upd l i w.
Proof. apply list_insert_insert_eq. Qed.

Lemma rd_ok {A} (d : A) l i : 0 <= i < len l -> rd l i = Ok (getd d l i).
Proof. intros. apply wp_eq. by eapply wp_rd. Qed.

Lemma wr_ok {A} (l : list A) i v : 0 <= i < len l -> wr l i v = Ok (upd l i v).
Proof. intros. apply wp_eq. by apply wp_wr. Qed.

#[local] Set Default Proof Using "Type*".

Lemma off_inj st n m : attached st n -> attached st m -> off st n = off st m -> n = m.
Proof. intros (_ & _ & Hn) (_ & _ & Hm) E. congruence. Qed.

Section put.
Context (st : Shared) (no : Z) (Hno : attached st no) (p : PGPROC) (Hoff : p_pgxactoff p = off st no).

Lemma proc_put n : 0 <= n -> proc (put no p st) n = if n =? no then p else proc st n.
Proof.
  destruct Hno as (? & ?). intros. unfold proc; cbn.
  rewrite getd_upd by lia. by destruct (Z.eqb_spec n no).
Qed.

Lemma off_put n : 0 <= n -> off (put no p st) n = off st n.
Proof. intros. unfold off at 1. rewrite proc_put by done. by destruct (Z.eqb_spec n no) as [->|]. Qed.

Lemma attached_put n : attached (put no p st) n <-> attached st n.
Proof.
  unfold attached. cbn. rewrite len_upd. unfold numProcs; cbn.
  split; intros (? & H); (split; [done|]); rewrite off_put in * by lia; done.
Qed.

Lemma slots_put tx t : slots_ok tx st -> shows p t -> slots_ok (set_tx tx no t) (put no p st).
Proof.
  intros Hs Hp. pose proof Hs as [[Lx Ls Lf Lm] Hslot Hm Hsh Hat].
  pose proof Hno as (Hr & Ho & _).
  split.
  - split; cbn; rewrite ?len_upd; done.
  - intros i Hi. change (pgprocnos (put no p st)) with (pgprocnos st).
    destruct (Hslot i Hi) as [Ha Hi']. rewrite attached_put, off_put by apply Ha. done.
  - intros n Hn. apply attached_put in Hn. pose proof Hn as (Hnr & Hn' & _). pose proof (Hm n Hn) as [M1 M2 M3].
    split; rewrite off_put, proc_put by lia; cbn; rewrite getd_upd by lia;
      destruct (Z.eqb_spec n no) as [->|Hne]; rewrite ?Z.eqb_refl; try done;
      (destruct (Z.eqb_spec (off st n) (off st no)) as [E|]; [by apply off_inj in E|done]).
  - intros n Hn. apply attached_put in Hn. rewrite proc_put by apply Hn. unfold set_tx.
    destruct (Z.eqb_spec n no); [done|by apply Hsh].
  - intros n. rewrite attached_put. unfold set_tx. destruct (Z.eqb_spec n no) as [->|]; [done|apply Hat].
Qed.
End put.

Lemma upd_mirror {A} (d : A) l i v : 0 <= i < len l -> getd d l i = v -> upd l i v = l.
Proof. intros ? <-. by apply upd_getd. Qed.

Lemma slots_counters tx st l n c :
  slots_ok tx st ->
  slots_ok tx (mkShared (allProcs st) (pgprocnos st) (xids st) (subxidStates st) (statusFlags st) (maxProcs st)
                 l n (oldestXid st) c).
Proof.
  intros [[] Hslot Hm Hsh Hat]. split; [by split|exact Hslot| |exact Hsh|exact Hat].
  intros no Hno. destruct (Hm no Hno). by split.
Qed.

Lemma slots_latest tx st l : slots_ok tx st -> slots_ok tx (set_latest l st).
Proof. apply slots_counters. Qed.
Lemma slots_next tx st n : slots_ok tx st -> slots_ok tx (set_next n st).
Proof. apply slots_counters. Qed.
Lemma slots_completion tx st : slots_ok tx st -> slots_ok tx (count_completion st).
Proof. apply slots_counters. Qed.
#[export] Hint Resolve slots_latest slots_next slots_completion slots_put : pg.

(** ** An entry and its slot *)
Record well (st : Shared) (me : Z) : Prop := {
  w_lens : lens_ok st;
  w_attached : attached st me;
  w_mirrors : mirrors st me
}.

Lemma slots_well tx st me : slots_ok tx st -> attached st me -> well st me.
Proof. intros [] ?. split; auto. Qed.

Section entry.
Context (st : Shared) (me : Z) (Hw : well st me).

Lemma bounds_me :
  0 <= me < len (allProcs st) /\ 0 <= off st me < len (xids st) /\
  0 <= off st me < len (subxidStates st) /\ 0 <= off st me < len (statusFlags st).
Proof. destruct Hw as [[-> -> -> _] (? & ? & _) _]. done. Qed.

Lemma rd_me : rd (allProcs st) me = Ok (proc st me).
Proof. apply rd_ok, bounds_me. Qed.

Lemma rd_state_me : rd (subxidStates st) (off st me) = Ok (p_subxidStatus (proc st me)).
Proof. rewrite (rd_ok empty_cache_status) by apply bounds_me. f_equal. apply Hw. Qed.

Lemma rd_xid_me : rd (xids st) (off st me) = Ok (p_xid (proc st me)).
Proof. rewrite (rd_ok 0) by apply bounds_me. f_equal. apply Hw. Qed.

Lemma rd_flags_me : rd (statusFlags st) (off st me) = Ok (p_statusFlags (proc st me)).
Proof. rewrite (rd_ok 0) by apply bounds_me. f_equal. apply Hw. Qed.

Context (p : PGPROC) (Hoff : p_pgxactoff p = off st me).

Lemma proc_put_me : proc (put me p st) me = p.
Proof. rewrite proc_put; [by rewrite Z.eqb_refl|apply Hw|done|apply bounds_me]. Qed.

Lemma off_put_me : off (put me p st) me = off st me.
Proof. apply off_put; [apply Hw|done|apply bounds_me]. Qed.

Lemma well_put : well (put me p st) me.
Proof.
  destruct bounds_me as (B1 & B2 & B3 & B4). destruct Hw as [[] ? ?]. split.
  - split; cbn; rewrite ?len_upd; done.
  - by apply attached_put.
  - split; rewrite off_put_me, proc_put_me; cbn; by apply getd_upd_eq.
Qed.

Lemma put_put q : put me q (put me p st) = put me q st.
Proof. unfold put at 1 3. rewrite off_put_me. cbn. by rewrite !upd_twice. Qed.
End entry.

Lemma put_same st me : well st me -> put me (proc st me) st = st.
Proof.
  intros Hw. destruct (bounds_me st me Hw) as (B1 & B2 & B3 & B4). destruct Hw as [_ _ [M1 M2 M3]].
  unfold put. rewrite <- M1, <- M2, <- M3. unfold proc. rewrite !upd_getd by done. by destruct st.
Qed.

(** Run a load or a store of the entry or its slot. *)
Ltac fields := cbn [allProcs pgprocnos xids subxidStates statusFlags maxProcs latestCompletedXid nextXid
  oldestXid xactCompletionCount set_next set_latest count_completion
  p_xid p_xmin p_subxidStatus p_subxids p_statusFlags p_pgxactoff count overflowed].
Ltac store :=
  unfold set_proc, set_xid, set_subxidState, set_statusFlags; fields;
  rewrite wr_ok by (fields; rewrite ?len_upd; lia); repeat (progress step_ok).
Ltac assert_ok H :=
  rewrite ?H; cbn [negb andb]; change (Assert true ?w) with (Ok tt); repeat (progress step_ok).


(** The state after the stores is the entry put with its slot. *)
Ltac put_eq := unfold off; fields; do 2 f_equal; symmetry; eapply upd_mirror; done.

(** Stores that change neither the ids nor the cache. *)
Lemma inv_put_same lo tx st no q :
  inv lo tx st -> attached st no -> p_pgxactoff q = off st no -> shows q (tx no) -> inv lo tx (put no q st).
Proof.
  intros Hi Hno Hq Hsh. split; try apply Hi.
  destruct (slots_put st no Hno q Hq tx (tx no) (v_slots _ _ _ Hi) Hsh) as [L1 L2 L3 L4 L5].
  assert (E : forall n, set_tx tx no (tx no) n = tx n).
  { intros n. unfold set_tx. by destruct (Z.eqb_spec n no) as [->|]. }
  split; try done; intros n Hn; [specialize (L4 n Hn); by rewrite E in L4|]. apply L5. by rewrite E.
Qed.

Lemma set_proc_put st no q :
  well st no -> p_xid q = p_xid (proc st no) -> p_subxidStatus q = p_subxidStatus (proc st no) ->
  p_statusFlags q = p_statusFlags (proc st no) -> set_proc no q st = Ok (put no q st).
Proof.
  intros Hw E1 E2 E3. destruct (bounds_me _ _ Hw) as (B1 & B2 & B3 & B4). destruct (w_mirrors _ _ Hw) as [M1 M2 M3].
  unfold set_proc. rewrite wr_ok by done. step_ok. unfold put. rewrite E1, E2, E3.
  do 2 f_equal; symmetry; eapply upd_mirror; done.
Qed.

(** ** Storing an entry that is in no slot *)
Definition put_free (no : Z) (p : PGPROC) (st : Shared) : Shared :=
  mkShared (upd (allProcs st) no p) (pgprocnos st) (xids st) (subxidStates st) (statusFlags st) (maxProcs st)
    (latestCompletedXid st) (nextXid st) (oldestXid st) (xactCompletionCount st).

Section put_free.
Context (st : Shared) (no : Z) (Hno : 0 <= no < len (allProcs st)) (Hfree : ~ attached st no).

Lemma set_proc_free q : set_proc no q st = Ok (put_free no q st).
Proof using Hno. unfold set_proc. by rewrite wr_ok. Qed.

Lemma proc_put_free q n : 0 <= n -> proc (put_free no q st) n = if n =? no then q else proc st n.
Proof using Hno. intros. unfold proc; cbn. rewrite getd_upd by lia. by destruct (Z.eqb_spec n no). Qed.

Lemma put_free_twice p q : put_free no q (put_free no p st) = put_free no q st.
Proof using Hno. unfold put_free; cbn. by rewrite upd_twice. Qed.

(** Such a store changes nothing of the entries in the array, and does not put
    [no] there, if the slots are in order. *)
Context (tx : Z -> Tx) (Hs : slots_ok tx st) (q : PGPROC).

Lemma attached_put_free n : attached (put_free no q st) n <-> attached st n.
Proof.
  split; intros (Hr & Ho & Hn); revert Ho Hn; unfold off.
  - cbn in Hr. rewrite len_upd in Hr. rewrite proc_put_free by lia. destruct (Z.eqb_spec n no) as [->|Hne]; [|done].
    intros Ho Hn. destruct (s_slot _ _ Hs (p_pgxactoff q) Ho) as [Ha _]. cbn in Hn. by rewrite Hn in Ha.
  - intros Ho Hn. assert (n <> no) by (intros ->; by apply Hfree).
    unfold attached, off. rewrite proc_put_free by lia. cbn. rewrite len_upd.
    destruct (Z.eqb_spec n no); [done|]. done.
Qed.

Lemma proc_put_free_attached n : attached st n -> proc (put_free no q st) n = proc st n.
Proof.
  intros Hn. rewrite proc_put_free by apply Hn. destruct (Z.eqb_spec n no) as [->|]; [by destruct Hfree|done].
Qed.

Lemma slots_put_free : slots_ok tx (put_free no q st).
Proof.
  pose proof Hs as [[L1 L2 L3 L4] Hslot Hm Hsh Hat]. split; [by split| | | |].
  - intros i Hi. destruct (Hslot i Hi) as [Ha Ho]. cbn. split; [by apply attached_put_free|].
    unfold off. by rewrite proc_put_free_attached.
  - intros n Hn%attached_put_free. destruct (Hm n Hn) as [M1 M2 M3]. split; unfold off; by rewrite proc_put_free_attached.
  - intros n Hn%attached_put_free. rewrite proc_put_free_attached by done. by apply Hsh.
  - intros n Hn. by apply attached_put_free, Hat.
Qed.
End put_free.

Lemma inv_put_free lo tx st no q :
  0 <= no < len (allProcs st) -> ~ attached st no -> inv lo tx st -> inv lo tx (put_free no q st).
Proof. intros Hno Hf Hi. split; [by apply slots_put_free, Hi|apply Hi|apply Hi|apply Hi]. Qed.

(** * Assignment *)
Definition assigned (isSubXact : bool) (xid : Z) (my : PGPROC) : PGPROC :=
  let s := p_subxidStatus my in
  if negb isSubXact
  then mkProc xid (p_xmin my) s (p_subxids my) (p_statusFlags my) (p_pgxactoff my)
  else if count s <? MAX_CACHED_SUBXIDS
  then mkProc (p_xid my) (p_xmin my) {| count := count s + 1; overflowed := overflowed s |}
         (p_subxids my ++ [xid]) (p_statusFlags my) (p_pgxactoff my)
  else mkProc (p_xid my) (p_xmin my) {| count := count s; overflowed := true |}
         (p_subxids my) (p_statusFlags my) (p_pgxactoff my).

(** The transaction of an entry that has got the id [x]. *)
Definition tx_assigned (x : Z) (t : Tx) : Tx :=
  match t with
  | None => Some (x, [])
  | Some (t, subs) => Some (t, x :: subs)
  end.

Definition has_tx (t : Tx) : bool := match t with Some _ => true | None => false end.

Section step.
Context (lo : Z) (tx : Z -> Tx) (st : Shared) (Hinv : inv lo tx st).
Context (me : Z) (Hme : attached st me).

Lemma well_me : well st me.
Proof. eapply slots_well; [apply Hinv|done]. Qed.

Lemma shows_me : shows (proc st me) (tx me).
Proof. by apply Hinv. Qed.

Lemma assign_xid_to_eq extend isSubXact :
  extend (u32 (nextXid st)) = Ok tt -> has_tx (tx me) = isSubXact ->
  assign_xid_to extend me isSubXact st =
  Ok (nextXid st, put me (assigned isSubXact (u32 (nextXid st)) (proc st me)) (set_next (fnext (nextXid st)) st)).
Proof.
  intros He Htx. pose proof well_me as Hw. destruct (bounds_me _ _ Hw) as (B1 & B2 & B3 & B4).
  destruct (w_mirrors _ _ Hw) as [M1 M2 M3].
  destruct Hinv as [_ [_ [? Hn] _ _ _] Hlo _]. pose proof shows_me as (C1 & C2 & C3).
  unfold assign_xid_to. rewrite He. step_ok. rewrite FullTransactionIdAdvance_full by lia. step_ok. fields.
  rewrite rd_me by done. step_ok. fold (off st me). rewrite rd_state_me by done. step_ok.
  unfold put, assigned. fields. destruct isSubXact; cbn [negb].
  - destruct (tx me) as [[t subs]|]; [|done].
    assert_ok (Z.eqb_refl (count (p_subxidStatus (proc st me)))).
    assert_ok (eqb_reflx (overflowed (p_subxidStatus (proc st me)))).
    unfold set_proc, set_subxidState.
    destruct (Z.ltb_spec (count (p_subxidStatus (proc st me))) MAX_CACHED_SUBXIDS).
    + store. store. 
      rewrite take_all by done. 
      unfold off; fields; do 3 f_equal; symmetry; eapply upd_mirror; done.
    + store. store. unfold off; fields; do 3 f_equal; symmetry; eapply upd_mirror; done.
  - destruct (tx me) as [[t subs]|]; [done|]. destruct C3 as (C3 & C4 & C5).
    assert (E : (count (p_subxidStatus (proc st me)) =? 0) = true) by (rewrite C1, C4; done).
    assert_ok E. assert_ok C5. store. store.
    unfold off; fields; do 3 f_equal; symmetry; eapply upd_mirror; done.
Qed.

Lemma ids_me x : in_tx (tx me) x -> fits lo x /\ x < nextXid st.
Proof.
  intros Hx. destruct (tx me) as [[t subs]|] eqn:E; [|done].
  destruct (i_ids _ _ _ _ (v_ids _ _ _ Hinv) me t subs x E Hx). split; [done|lia].
Qed.

Lemma shows_assigned :
  shows (assigned (has_tx (tx me)) (u32 (nextXid st)) (proc st me)) (tx_assigned (nextXid st) (tx me)).
Proof.
  pose proof shows_me as (C1 & C2 & C3). pose proof ids_me as Hids.
  pose proof (i_next _ _ _ _ (v_ids _ _ _ Hinv)) as Hn.
  unfold shows, assigned. destruct (tx me) as [[t subs]|]; cbn [has_tx negb tx_assigned].
  - destruct C3 as (C3 & C4 & C5 & C6). unfold MAX_CACHED_SUBXIDS in *. z_case;
      cbn [count overflowed p_subxids p_subxidStatus p_xid].
    + len_simpl. split; [lia|]. split; [lia|]. split; [done|]. split; [|split].
      * apply NoDup_app. split; [done|]. split; [|apply NoDup_singleton].
        intros z Hz ->%list_elem_of_singleton. destruct (C5 _ Hz) as (s & Hs & E).
        destruct (Hids s) as [Hf ?]; [by right|]. pose proof (fits_inj lo _ _ Hn Hf E). lia.
      * intros z [Hz| ->%list_elem_of_singleton]%elem_of_app; [|exists (nextXid st); split; [by left|done]].
        destruct (C5 z Hz) as (s & Hs & ->). exists s. split; [by right|done].
      * intros Ho s [->|Hs]%elem_of_cons; apply elem_of_app; [right; by left|left; by apply C6].
    + split; [done|]. split; [done|]. split; [done|]. split; [done|]. split; [|done].
      intros z Hz. destruct (C5 z Hz) as (s & Hs & ->). exists s. split; [by right|done].
  - destruct C3 as (C3 & C4 & C5). cbn. rewrite C4 in *. split; [done|]. split; [done|]. split; [done|].
    split; [constructor|]. split; [intros z Hz|intros _ z Hz]; by apply not_elem_of_nil in Hz.
Qed.

Lemma ids_assigned :
  fits lo (fnext (nextXid st)) ->
  ids_ok lo (set_tx tx me (tx_assigned (nextXid st) (tx me))) (latestCompletedXid st) (fnext (nextXid st)).
Proof.
  intros Hf. destruct Hinv as [_ [Hids [Hn1 Hn2] Hl Ho Hc] Hlo _]. destruct (fnext_normal _ Hn2) as [_ ?].
  split; try done; [| lia|].
  - intros no t subs x E Hx. destruct (decide (no = me)) as [->|Hne].
    + rewrite set_tx_eq in E. destruct (tx me) as [[t0 s0]|] eqn:Em; cbn in E; simplify_eq.
      * pose proof (Hids me t s0 t Em ltac:(by left)).
        apply elem_of_cons in Hx as [->|[->|Hx]%elem_of_cons]; [split; [apply H0|lia]|split; [by split|lia]|].
        destruct (Hids me t s0 x Em ltac:(by right)). split; [done|lia].
      * apply elem_of_cons in Hx as [->|Hx]; [split; [by split|lia]|by apply not_elem_of_nil in Hx].
    + rewrite set_tx_ne in E by done. destruct (Hids no t subs x E Hx). split; [done|lia].
  - intros x Hx Hr. destruct (Z.eq_dec x (nextXid st)) as [->|Hne].
    + apply running_set. destruct (tx me) as [[t subs]|]; cbn; [right; by left|by left].
    + apply running_keep; [apply Hc; [done|]|].
      * pose proof (fnext_least _ _ Hn2 Hx). lia.
      * destruct (tx me) as [[t subs]|]; cbn; [|done].
        intros [->|?]%elem_of_cons; [by left|right; by right].
Qed.

Lemma inv_assigned :
  fits lo (fnext (nextXid st)) ->
  inv lo (set_tx tx me (tx_assigned (nextXid st) (tx me)))
    (put me (assigned (has_tx (tx me)) (u32 (nextXid st)) (proc st me)) (set_next (fnext (nextXid st)) st)).
Proof.
  intros Hf. split; [|by apply ids_assigned|apply Hinv|apply Hinv].
  apply slots_put; [exact Hme| |apply slots_next, Hinv|apply shows_assigned].
  unfold assigned. by repeat case_match.
Qed.
End step.

(** * The end of transactions *)
Definition flags_cleared (f : Z) : Z :=
  if negb (Z.land f PROC_VACUUM_STATE_MASK =? 0) then Z.ldiff f PROC_VACUUM_STATE_MASK else f.

Definition ended (p : PGPROC) : PGPROC :=
  mkProc InvalidTransactionId InvalidTransactionId empty_cache_status [] (flags_cleared (p_statusFlags p))
    (p_pgxactoff p).

Section clear.
Context (st : Shared) (me : Z) (Hw : well st me).
Abbreviation p := (proc st me).

Lemma clear_xid_eq :
  clear_xid me st =
  Ok (put me (mkProc InvalidTransactionId InvalidTransactionId (p_subxidStatus p) (p_subxids p)
                (p_statusFlags p) (p_pgxactoff p)) st).
Proof.
  destruct (bounds_me _ _ Hw) as (B1 & B2 & B3 & B4). destruct (w_mirrors _ _ Hw) as [M1 M2 M3].
  unfold clear_xid. rewrite rd_me by done. step_ok. fold (off st me). store. store. unfold put. put_eq.
Qed.

Lemma clear_vacuum_flags_eq :
  clear_vacuum_flags me st =
  Ok (put me (mkProc (p_xid p) (p_xmin p) (p_subxidStatus p) (p_subxids p)
                (flags_cleared (p_statusFlags p)) (p_pgxactoff p)) st).
Proof.
  destruct (bounds_me _ _ Hw) as (B1 & B2 & B3 & B4). destruct (w_mirrors _ _ Hw) as [M1 M2 M3].
  unfold clear_vacuum_flags, flags_cleared. rewrite rd_me by done. step_ok. fold (off st me).
  destruct (negb _).
  - store. store. unfold put. put_eq.
  - unfold off. f_equal. symmetry. etransitivity; [|apply (put_same st me Hw)]. f_equal. by destruct (proc st me).
Qed.

Lemma store_flags_eq f :
  store_flags me f st =
  Ok (put me (mkProc (p_xid p) (p_xmin p) (p_subxidStatus p) (p_subxids p) (f (p_statusFlags p)) (p_pgxactoff p)) st).
Proof.
  destruct (bounds_me _ _ Hw) as (B1 & B2 & B3 & B4). destruct (w_mirrors _ _ Hw) as [M1 M2 M3].
  unfold store_flags. rewrite rd_me by done. step_ok. fold (off st me). store. store. unfold put. put_eq.
Qed.

Lemma clear_subxids_eq :
  count (p_subxidStatus p) = len (p_subxids p) ->
  clear_subxids me st =
  Ok (put me (mkProc (p_xid p) (p_xmin p) empty_cache_status [] (p_statusFlags p) (p_pgxactoff p)) st).
Proof.
  intros Hc. destruct (bounds_me _ _ Hw) as (B1 & B2 & B3 & B4). destruct (w_mirrors _ _ Hw) as [M1 M2 M3].
  unfold clear_subxids. rewrite rd_me by done. step_ok. fold (off st me). rewrite rd_state_me by done. step_ok.
  rewrite Z.eqb_refl, eqb_reflx. assert_ok Z.eqb_refl.
  destruct (Z.ltb_spec 0 (count (p_subxidStatus p))) as [Hpos|Hpos]; cbn [orb].
  2: destruct (overflowed (p_subxidStatus p)) eqn:Ho.
  1-2: store; store; unfold put; put_eq.
  f_equal. symmetry. etransitivity; [|apply (put_same st me Hw)]. f_equal. unfold off.
  destruct (proc st me) as [? ? [c o] l ? ?]; cbn in *. destruct l; [|cbn in *; len_simpl_all; pose proof (len_nonneg l); lia].
  subst o. replace c with 0 by (rewrite Hc; done). done.
Qed.
End clear.

Lemma MaintainLatestCompletedXid_eq lo st l :
  3 <= lo -> 3 <= u32 lo -> oldestXid st = u32 lo -> fits lo (latestCompletedXid st) -> fits lo l ->
  MaintainLatestCompletedXid (u32 l) st = Ok (set_latest (Z.max (latestCompletedXid st) l) st).
Proof.
  intros Hlo Hlo' Ho Hc Hl. unfold MaintainLatestCompletedXid. assert_ok (fits_valid lo _ Hc).
  rewrite (fits_precedes lo) by done. unfold FirstNormalFullTransactionId. pose proof Hc as [? _]. pose proof Hl as [? _].
  z_case.
  - unfold FullXidRelativeTo. assert_ok (fits_valid lo _ Hl). assert_ok (fits_valid lo _ Hc).
    unfold AssertTransactionIdInAllowableRange. assert_ok (fits_valid lo _ Hl).
    rewrite (fits_normal lo _ Hl), Ho, follows_or_equals_precedes, (fits_precedes lo) by (done || (split; [lia|done])).
    cbn [negb]. destruct (Z.ltb_spec l lo); [lia|]. cbn [negb orb]. assert_ok Z.eqb_refl.
    rewrite i32_diff by lia. cbn [latestCompletedXid set_latest].
    replace (latestCompletedXid st + (l - latestCompletedXid st)) with l by lia.
    destruct (Z.leb_spec 3 l); [|lia]. assert_ok Z.eqb_refl. by rewrite Z.max_r by lia.
  - step_ok. destruct (Z.leb_spec 3 (latestCompletedXid st)); [|lia]. assert_ok Z.eqb_refl.
    rewrite Z.max_l by lia. by destruct st.
Qed.

Section finish.
Context (lo : Z) (tx : Z -> Tx) (st : Shared) (Hinv : inv lo tx st).
Context (me : Z) (Hme : attached st me).

(** Some ids of [me] are gone, the latest of which is [l]. *)
Lemma ids_gone t' l :
  (forall x, in_tx t' x -> in_tx (tx me) x) ->
  (forall t subs, t' = Some (t, subs) -> exists subs0, tx me = Some (t, subs0)) ->
  fits lo l -> l < nextXid st -> (forall x, in_tx (tx me) x -> in_tx t' x \/ x <= l) ->
  ids_ok lo (set_tx tx me t') (Z.max (latestCompletedXid st) l) (nextXid st).
Proof.
  intros Hsub Htop Hl Hln Hgone. destruct (v_ids _ _ _ Hinv) as [Hids Hn Hc Ho Hcov]. split; try done; [| |lia|].
  - intros no t subs x E Hx. destruct (decide (no = me)) as [->|Hne].
    + rewrite set_tx_eq in E. destruct (Htop _ _ E) as [subs0 E0]. subst t'.
      specialize (Hsub x Hx). rewrite E0 in Hsub. by apply (Hids me t subs0).
    + rewrite set_tx_ne in E by done. by apply (Hids no t subs).
  - unfold fits in *. destruct (Z.max_spec (latestCompletedXid st) l) as [[_ ->]|[_ ->]]; done.
  - intros x Hx Hr. apply running_keep; [apply Hcov; [done|lia]|]. intros Hin.
    destruct (Hgone x Hin); [done|lia].
Qed.

Lemma ids_none t' l : t' = None -> fits lo l -> l < nextXid st -> (forall x, in_tx (tx me) x -> x <= l) ->
  ids_ok lo (set_tx tx me t') (Z.max (latestCompletedXid st) l) (nextXid st).
Proof. intros -> ? ? H. apply ids_gone; try done. intros. right. by apply H. Qed.

Lemma ProcArrayEndTransactionInternal_eq l :
  tx me <> None -> fits lo l ->
  ProcArrayEndTransactionInternal me (u32 l) st =
  Ok (count_completion (set_latest (Z.max (latestCompletedXid st) l) (put me (ended (proc st me)) st))).
Proof.
  intros Htx Hl. pose proof (well_me _ _ _ Hinv me Hme) as Hw.
  pose proof (shows_me _ _ _ Hinv me Hme) as (C1 & C2 & C3).
  destruct (tx me) as [[t subs]|] eqn:Et; [|done]. destruct C3 as (C3 & _).
  unfold ProcArrayEndTransactionInternal. rewrite rd_me by done. step_ok. fold (off st me).
  rewrite rd_xid_me by done. step_ok.
  destruct (i_ids _ _ _ _ (v_ids _ _ _ Hinv) me t subs t Et ltac:(by left)) as [Ht _].
  rewrite C3 at 1. assert_ok (fits_valid lo _ Ht). assert_ok (Z.eqb_refl (p_xid (proc st me))).
  rewrite clear_xid_eq by done. step_ok.
  set (p1 := mkProc _ _ _ _ _ _). pose proof (well_put _ _ Hw p1 eq_refl) as Hw1.
  rewrite clear_vacuum_flags_eq by done. step_ok. rewrite proc_put_me, put_put by done.
  set (p2 := mkProc _ _ _ _ _ _). pose proof (well_put _ _ Hw p2 eq_refl) as Hw2.
  rewrite clear_subxids_eq by (try done; rewrite proc_put_me by done; done). step_ok.
  rewrite proc_put_me, put_put by done.
  rewrite (MaintainLatestCompletedXid_eq lo) by (try done; apply Hinv). done.
Qed.

Lemma inv_ended l :
  fits lo l -> l < nextXid st -> (forall x, in_tx (tx me) x -> x <= l) ->
  inv lo (set_tx tx me None)
    (count_completion (set_latest (Z.max (latestCompletedXid st) l) (put me (ended (proc st me)) st))).
Proof.
  intros Hl Hln Hall. split; [|by apply ids_none|apply Hinv|apply Hinv].
  apply slots_completion, slots_latest, slots_put; [done|done|apply Hinv|].
  unfold shows, ended, MAX_CACHED_SUBXIDS; cbn. done.
Qed.
End finish.

(** After a PREPARE the entry of the prepared transaction shows the ids. *)
Lemma ProcArrayClearTransaction_eq lo tx st me :
  inv lo tx st -> attached st me -> Z.land (p_statusFlags (proc st me)) PROC_VACUUM_STATE_MASK = 0 ->
  ProcArrayClearTransaction me st = Ok (count_completion (put me (ended (proc st me)) st)).
Proof.
  intros Hinv Hme Hf. pose proof (well_me _ _ _ Hinv me Hme) as Hw.
  pose proof (shows_me _ _ _ Hinv me Hme) as (C1 & C2 & C3).
  unfold ProcArrayClearTransaction. rewrite clear_xid_eq by done. step_ok.
  set (p1 := mkProc _ _ _ _ _ _). pose proof (well_put _ _ Hw p1 eq_refl) as Hw1.
  rewrite rd_me by done. step_ok. rewrite proc_put_me by done.
  change (p_statusFlags p1) with (p_statusFlags (proc st me)). rewrite Hf. assert_ok Z.eqb_refl.
  assert (Hw2 : well (count_completion (put me p1 st)) me) by (destruct Hw1 as [[] ? []]; split; done || split; done).
  assert (E : proc (count_completion (put me p1 st)) me = p1) by exact (proc_put_me _ _ Hw p1 eq_refl).
  rewrite clear_subxids_eq by (try done; rewrite E; done). rewrite E.
  unfold ended, flags_cleared. rewrite Hf. cbn [negb Z.eqb].
  change (put me ?q (count_completion ?s)) with (count_completion (put me q s)). rewrite put_put by done. done.
Qed.

Lemma inv_cleared lo tx st me :
  inv lo tx st -> attached st me ->
  (forall x, in_tx (tx me) x -> exists no, no <> me /\ in_tx (tx no) x) ->
  inv lo (set_tx tx me None) (count_completion (put me (ended (proc st me)) st)).
Proof.
  intros Hinv Hme Hdup. split; [|split|apply Hinv|apply Hinv]; try apply Hinv.
  - apply slots_completion, slots_put; [done|done|apply Hinv|].
    unfold shows, ended, MAX_CACHED_SUBXIDS; cbn. done.
  - intros no t subs x E Hx. unfold set_tx in E. case_match; [done|].
    by apply (i_ids _ _ _ _ (v_ids _ _ _ Hinv) no t subs).
  - intros x Hx Hr. destruct (i_cover _ _ _ _ (v_ids _ _ _ Hinv) x Hx Hr) as [no Hno].
    destruct (decide (no = me)) as [->|Hne]; [destruct (Hdup x Hno) as (n & Hne & Hn)|];
      [exists n|exists no]; by rewrite set_tx_ne.
Qed.

(** ** Aborted subtransactions *)
Lemma find_from_end_spec z l n :
  (n <= length l)%nat ->
  match find_from_end z l n with
  | Some j => (j < n)%nat /\ l !! j = Some z
  | None => z ∉ take n l
  end.
Proof.
  induction n as [|n IH]; intros Hn; cbn [find_from_end].
  - rewrite take_0. apply not_elem_of_nil.
  - destruct (lookup_lt_is_Some_2 l n) as [v Hv]; [lia|]. unfold TransactionIdEquals, getd at 1.
    rewrite Nat2Z.id, Hv. cbn [from_option id]. destruct (Z.eqb_spec v z) as [->|Hne]; [split; [lia|done]|].
    specialize (IH ltac:(lia)). destruct (find_from_end z l n); [destruct IH; split; [lia|done]|].
    rewrite (take_S_r _ _ v) by done. rewrite elem_of_app, list_elem_of_singleton. naive_solver.
Qed.

(** The cache without an id: the last element has moved to its place. *)
Definition uncached_list (z : Z) (l : list Z) : list Z :=
  match find_from_end z l (length l) with
  | Some j => take (length l - 1) (<[j := getd 0 l (len l - 1)]> l)
  | None => l
  end.

Lemma uncached_list_perm z l : z ∈ l -> l ≡ₚ uncached_list z l ++ [z].
Proof.
  intros Hz. unfold uncached_list. pose proof (find_from_end_spec z l (length l) ltac:(done)) as Hf.
  destruct (find_from_end z l (length l)) as [j|]; [|by rewrite take_ge in Hf by done].
  destruct Hf as [Hj Hl]. destruct (lookup_lt_is_Some_2 l (length l - 1)) as [y Hy]; [lia|].
  assert (E : getd 0 l (len l - 1) = y) by (unfold getd, len; replace (Z.to_nat (Z.of_nat (length l) - 1)) with (length l - 1)%nat by lia; by rewrite Hy).
  rewrite E. rewrite <- (insert_swap_perm l j (length l - 1)%nat z y Hl Hy) at 1.
  rewrite <- (take_drop (length l - 1)%nat (<[(length l - 1)%nat:=z]> _)) at 1.
  rewrite take_insert_ge by lia. f_equiv. 
  erewrite drop_S by (apply list_lookup_insert_eq; rewrite length_insert; lia).
  rewrite drop_ge by (rewrite !length_insert; lia). done.
Qed.

Lemma uncached_list_absent z l : z ∉ l -> uncached_list z l = l.
Proof.
  intros Hz. unfold uncached_list. pose proof (find_from_end_spec z l (length l) ltac:(done)) as Hf.
  destruct (find_from_end z l (length l)) as [j|]; [|done].
  destruct Hf as [_ Hl]. by apply list_elem_of_lookup_2 in Hl.
Qed.

Lemma uncached_list_elem z l w : NoDup l -> w ∈ uncached_list z l <-> w ∈ l /\ w <> z.
Proof.
  intros Hn. destruct (decide (z ∈ l)) as [Hz|Hz].
  - pose proof (uncached_list_perm z l Hz) as Hp. pose proof Hn as Hn'. rewrite Hp in Hn'.
    apply NoDup_app in Hn' as (_ & Hd & _). rewrite Hp at 2. rewrite elem_of_app, list_elem_of_singleton.
    split; [|naive_solver]. intros Hw. split; [by apply or_introl|]. intros ->. apply (Hd z Hw). by left.
  - rewrite uncached_list_absent by done. naive_solver.
Qed.

Lemma uncached_list_NoDup z l : NoDup l -> NoDup (uncached_list z l).
Proof.
  intros Hn. destruct (decide (z ∈ l)) as [Hz|Hz]; [|by rewrite uncached_list_absent].
  rewrite (uncached_list_perm z l Hz) in Hn. by apply NoDup_app in Hn as [? _].
Qed.

Definition uncached (z : Z) (p : PGPROC) : PGPROC :=
  let l := uncached_list z (p_subxids p) in
  mkProc (p_xid p) (p_xmin p) {| count := len l; overflowed := overflowed (p_subxidStatus p) |} l
    (p_statusFlags p) (p_pgxactoff p).

Lemma uncached_list_len z l j :
  find_from_end z l (length l) = Some j -> len (uncached_list z l) = len l - 1 /\ Z.of_nat j < len l.
Proof.
  intros Hf. pose proof (find_from_end_spec z l (length l) ltac:(done)) as Hs. rewrite Hf in Hs.
  unfold uncached_list. rewrite Hf. unfold len. rewrite length_take, length_insert. lia.
Qed.

Lemma remove_cached_eq st me z :
  well st me -> count (p_subxidStatus (proc st me)) = len (p_subxids (proc st me)) ->
  remove_cached me z st = Ok (put me (uncached z (proc st me)) st).
Proof.
  intros Hw Hc. destruct (bounds_me _ _ Hw) as (B1 & B2 & B3 & B4). destruct (w_mirrors _ _ Hw) as [M1 M2 M3].
  unfold remove_cached. rewrite rd_me by done. step_ok. fold (off st me).
  rewrite Hc. unfold len at 1. rewrite Nat2Z.id.
  destruct (find_from_end _ _ _) as [j|] eqn:Hf.
  - destruct (uncached_list_len _ _ _ Hf) as [Hl Hj].
    rewrite (rd_ok 0) by lia. step_ok. rewrite wr_ok by lia. step_ok.
    rewrite rd_state_me by done. step_ok. store. store. unfold put, uncached. fields.
    assert (E : uncached_list z (p_subxids (proc st me)) =
      take (Z.to_nat (len (p_subxids (proc st me)) - 1))
        (upd (p_subxids (proc st me)) (Z.of_nat j) (getd 0 (p_subxids (proc st me)) (len (p_subxids (proc st me)) - 1)))).
    { unfold uncached_list, upd. rewrite Hf, Nat2Z.id. f_equal. unfold len. lia. }
    rewrite <- E, Hl, Hc. unfold off. fields. f_equal. f_equal; symmetry; eapply upd_mirror; done.
  - f_equal. symmetry. etransitivity; [|apply (put_same st me Hw)]. f_equal. unfold uncached, uncached_list.
    rewrite Hf, <- Hc. by destruct (proc st me) as [? ? [] ? ? ?].
Qed.

(** The ids [gone] leave a list of ids. *)
Definition minus (subs gone : list Z) : list Z := filter (fun s => s ∉ gone) subs.

Lemma elem_of_minus x subs gone : x ∈ minus subs gone <-> x ∈ subs /\ x ∉ gone.
Proof. unfold minus. rewrite list_elem_of_filter. tauto. Qed.

Lemma shows_uncached lo p t subs a :
  (forall s, s ∈ subs -> fits lo s) -> fits lo a ->
  shows p (Some (t, subs)) -> shows (uncached (u32 a) p) (Some (t, minus subs [a])).
Proof.
  intros Hs Ha (C1 & C2 & C3 & C4 & C5 & C6). unfold shows, uncached; cbn [p_subxidStatus p_subxids count overflowed p_xid].
  split; [done|]. split; [|split; [done|split; [by apply uncached_list_NoDup|split]]].
  - etransitivity; [|exact C2]. unfold len, uncached_list. case_match; [|lia].
    rewrite length_take, length_insert. lia.
  - intros z [Hz Hne]%uncached_list_elem; [|done]. destruct (C5 z Hz) as (s & Hin & ->).
    exists s. split; [|done]. rewrite elem_of_minus, list_elem_of_singleton. split; [done|]. by intros ->.
  - intros Ho s [Hin Hne]%elem_of_minus. apply uncached_list_elem; [done|]. split; [by apply C6|].
    intros E. apply Hne, list_elem_of_singleton. by eapply fits_inj; [apply Hs| |].
Qed.

Lemma minus_minus subs g h : minus (minus subs g) h = minus subs (g ++ h).
Proof.
  unfold minus. rewrite list_filter_filter. apply filter_elem_ext. intros x _. rewrite not_elem_of_app. tauto.
Qed.

Lemma minus_nil subs : minus subs [] = subs.
Proof.
  unfold minus. induction subs as [|x subs IH]; [done|].
  rewrite filter_cons_True by apply not_elem_of_nil. by rewrite IH.
Qed.

(** A whole list of ids leaves the cache. *)
Fixpoint uncached_all (zs : list Z) (p : PGPROC) : PGPROC :=
  match zs with [] => p | z :: zs => uncached_all zs (uncached z p) end.

Lemma uncached_all_off zs p : p_pgxactoff (uncached_all zs p) = p_pgxactoff p.
Proof. revert p. induction zs as [|z zs IH]; intros p; [done|]. cbn. by rewrite IH. Qed.

Lemma remove_all_cached_eq st me zs :
  well st me -> count (p_subxidStatus (proc st me)) = len (p_subxids (proc st me)) ->
  remove_all_cached me zs st = Ok (put me (uncached_all zs (proc st me)) st).
Proof.
  revert st. induction zs as [|z zs IH]; intros st Hw Hc; cbn [remove_all_cached uncached_all].
  - by rewrite put_same.
  - rewrite remove_cached_eq by done. step_ok. 
    rewrite IH; [|by apply well_put|by rewrite proc_put_me]. by rewrite proc_put_me, put_put.
Qed.

Lemma shows_uncached_all lo p t subs gone :
  (forall s, s ∈ subs -> fits lo s) -> Forall (fits lo) gone ->
  shows p (Some (t, subs)) -> shows (uncached_all (map u32 gone) p) (Some (t, minus subs gone)).
Proof.
  intros Hs Hg. revert p subs Hs. induction Hg as [|a gone Ha Hg IH]; intros p subs Hs Hp; cbn [map uncached_all].
  - by rewrite minus_nil.
  - change (a :: gone) with ([a] ++ gone). rewrite <- minus_minus. apply IH.
    + intros s [Hin _]%elem_of_minus. by apply Hs.
    + by eapply shows_uncached.
Qed.

Lemma uncached_all_app zs ws p : uncached_all (zs ++ ws) p = uncached_all ws (uncached_all zs p).
Proof. revert p. induction zs as [|z zs IH]; intros p; [done|]. cbn. by rewrite IH. Qed.

Section abort.
Context (lo : Z) (tx : Z -> Tx) (st : Shared) (Hinv : inv lo tx st).
Context (me : Z) (Hme : attached st me) (t : Z) (subs : list Z) (Htx : tx me = Some (t, subs)).
(** The aborted subtransaction, its children, and the latest of them. *)
Context (a : Z) (children : list Z) (l : Z) (Hgone : a :: children ⊆ subs).
Context (Hl : l ∈ a :: children) (Hmax : forall x, x ∈ a :: children -> x <= l).
Abbreviation gone := (rev children ++ [a]).

Lemma elem_of_gone x : x ∈ gone <-> x ∈ a :: children.
Proof.
  rewrite elem_of_app, (list_elem_of_In (rev children) x), <- in_rev, <- list_elem_of_In.
  rewrite list_elem_of_singleton, elem_of_cons. tauto.
Qed.

Lemma fits_subs s : s ∈ subs -> fits lo s /\ t <= s < nextXid st.
Proof. intros. eapply (i_ids _ _ _ _ (v_ids _ _ _ Hinv)); [done|by right]. Qed.

Lemma fits_gone : Forall (fits lo) gone.
Proof. apply Forall_forall. intros x Hx%elem_of_gone. by apply fits_subs, Hgone. Qed.

Definition aborted_state : Shared :=
  count_completion (set_latest (Z.max (latestCompletedXid st) l)
    (put me (uncached_all (map u32 gone) (proc st me)) st)).

Lemma XidCacheRemoveRunningXids_eq :
  XidCacheRemoveRunningXids me (u32 a) (map u32 children) (u32 l) st = Ok aborted_state.
Proof.
  pose proof (well_me _ _ _ Hinv me Hme) as Hw. pose proof (shows_me _ _ _ Hinv me Hme) as (C1 & C2 & C3).
  pose proof fits_gone as Hg. rewrite Forall_app, Forall_singleton in Hg. destruct Hg as [Hg Ha].
  unfold XidCacheRemoveRunningXids. assert_ok (fits_valid lo _ Ha). rewrite <- map_rev.
  rewrite remove_all_cached_eq by done. step_ok.
  set (p1 := uncached_all _ _). assert (Ho : p_pgxactoff p1 = off st me) by apply uncached_all_off.
  assert (Hp1 : shows p1 (Some (t, minus subs (rev children)))).
  { apply (shows_uncached_all lo); [intros s Hs; by apply fits_subs|done|]. rewrite <- Htx. by apply (shows_me _ _ _ Hinv). }
  rewrite remove_cached_eq by (try (by apply well_put); rewrite proc_put_me by done; apply Hp1).
  step_ok. rewrite proc_put_me, put_put by done.
  rewrite (MaintainLatestCompletedXid_eq lo) by (try apply Hinv; by apply fits_subs, Hgone). step_ok.
  unfold aborted_state. rewrite map_app, uncached_all_app. done.
Qed.

Lemma inv_aborted : inv lo (set_tx tx me (Some (t, minus subs gone))) aborted_state.
Proof.
  assert (Hlf : fits lo l /\ t <= l < nextXid st) by (apply fits_subs, Hgone, Hl).
  split; [| |apply Hinv|apply Hinv].
  - apply slots_completion, slots_latest, slots_put; [done|apply uncached_all_off|apply Hinv|].
    apply (shows_uncached_all lo); [intros s Hs; by apply fits_subs|apply fits_gone|].
    rewrite <- Htx. by apply (shows_me _ _ _ Hinv).
  - apply (ids_gone lo tx st Hinv me Hme); [| |apply Hlf|apply Hlf|].
    + rewrite Htx. cbn. intros x [->|[? _]%elem_of_minus]%elem_of_cons; [by left|by right].
    + intros ? ? [= <- <-]. by exists subs.
    + rewrite Htx. cbn. intros x [->|Hx]%elem_of_cons; [left; by left|].
      destruct (decide (x ∈ gone)) as [Hg|Hg]; [right; by apply Hmax, elem_of_gone|].
      left. right. by apply elem_of_minus.
Qed.
End abort.
