(* ===== verification/ProcSnap.v ===== *)
(** Taking a snapshot: what [GetSnapshotData] of ProcArray.v returns while other
    processes go on assigning ids.

    [later] relates two moments under the shared lock: slots stay, caches only
    grow, and what is new in them has an id from nextXid on.  [describes] says
    that the arrays of a snapshot hold the transactions that run; it is what
    [GetSnapshotData] establishes, and what assignments keep. *)
From stdpp Require Import relations.
From S2P Require Import Prelude.
From S2P Require Import Xid.
From S2P Require Import Subtrans.
From S2P Require Import Snapshot.
From S2P Require Import ProcArray.
From S2P Require Import ProcInv.
Open Scope string_scope.
Open Scope list_scope.
Open Scope Z_scope.

#[local] Set Default Proof Using "Type*".

(** * Two moments under the shared lock *)
Definition tx_grows (next : Z) (t t' : Tx) : Prop :=
  match t with
  | None => forall x, in_tx t' x -> next <= x
  | Some (t, subs) =>
      exists subs', t' = Some (t, subs') /\ subs ⊆ subs' /\ forall x, x ∈ subs' -> x ∈ subs \/ next <= x
  end.

Record entry_grows (st st' : Shared) (no : Z) : Prop := {
  g_attached : attached st' no;
  g_off : off st' no = off st no;
  g_flags : p_statusFlags (proc st' no) = p_statusFlags (proc st no);
  g_cache : p_subxids (proc st no) `prefix_of` p_subxids (proc st' no)
}.

Record later (lo : Z) (tx : Z -> Tx) (st : Shared) (tx' : Z -> Tx) (st' : Shared) : Prop := {
  r_inv : inv lo tx' st';
  r_nos : pgprocnos st' = pgprocnos st;
  r_max : maxProcs st' = maxProcs st;
  r_latest : latestCompletedXid st' = latestCompletedXid st;
  r_completion : xactCompletionCount st' = xactCompletionCount st;
  r_next : nextXid st <= nextXid st';
  r_entry : forall no, attached st no -> entry_grows st st' no;
  r_tx : forall no, tx_grows (nextXid st) (tx no) (tx' no)
}.

Lemma tx_grows_refl next t : tx_grows next t t.
Proof. destruct t as [[t subs]|]; [|by intros x []]. exists subs. split; [done|]. split; [done|by left]. Qed.

Lemma later_self lo tx st : inv lo tx st -> later lo tx st tx st.
Proof.
  intros Hi. split; try done; intros no; first [apply tx_grows_refl|intros; by split].
Qed.

Lemma tx_grows_trans n n' a b c : n <= n' -> tx_grows n a b -> tx_grows n' b c -> tx_grows n a c.
Proof.
  intros Hn. destruct a as [[t subs]|]; cbn.
  - intros (s1 & -> & H1 & H2) (s2 & -> & H3 & H4). exists s2. split; [done|]. split; [by transitivity s1|].
    intros x Hx. destruct (H4 x Hx) as [H|H]; [by apply H2|right; lia].
  - intros Hb Hc x Hx. destruct b as [[t subs]|]; cbn in Hb, Hc; [|specialize (Hc x Hx); lia].
    destruct Hc as (s2 & -> & H3 & H4). apply elem_of_cons in Hx as [->|Hx]; [apply Hb; by left|].
    destruct (H4 x Hx) as [H|H]; [apply Hb; by right|lia].
Qed.

Lemma later_compose lo tx1 st1 tx2 st2 tx3 st3 :
  later lo tx1 st1 tx2 st2 -> later lo tx2 st2 tx3 st3 -> later lo tx1 st1 tx3 st3.
Proof.
  intros [] []. split; try congruence; [lia| |].
  - intros no Hno. destruct (r_entry0 no Hno). destruct (r_entry1 no g_attached0). split; try congruence.
    by etransitivity.
  - intros no. by eapply tx_grows_trans.
Qed.

(** * Steps of others while the lock is shared

    An entry outside the array is filled without that lock (a process starts, a
    transaction is about to be prepared). *)
Definition set_p_xmin (x : Z) (p : PGPROC) : PGPROC :=
  mkProc (p_xid p) x (p_subxidStatus p) (p_subxids p) (p_statusFlags p) (p_pgxactoff p).

Inductive shared_step (lo : Z) (me : Z) (tx : Z -> Tx) (st : Shared) : (Z -> Tx) -> Shared -> Prop :=
| sh_idle : shared_step lo me tx st tx st
| sh_xmin no x : attached st no -> no <> me -> shared_step lo me tx st tx (put no (set_p_xmin x (proc st no)) st)
| sh_free no q : 0 <= no < len (allProcs st) -> ~ attached st no -> shared_step lo me tx st tx (put_free no q st)
| sh_assign no extend x st' :
    attached st no -> no <> me -> fits lo (fnext (nextXid st)) ->
    (forall z, extend z = Ok tt) ->
    assign_xid_to extend no (has_tx (tx no)) st = Ok (x, st') ->
    shared_step lo me tx st (set_tx tx no (tx_assigned (nextXid st) (tx no))) st'.

Lemma entry_grows_put st no q n :
  attached st no -> p_pgxactoff q = off st no -> p_statusFlags q = p_statusFlags (proc st no) ->
  p_subxids (proc st no) `prefix_of` p_subxids q ->
  attached st n -> entry_grows st (put no q st) n.
Proof.
  intros Hno Ho Hf Hp Hn. pose proof Hn as (Hr & _). split.
  - by apply attached_put.
  - apply off_put; (done || lia).
  - rewrite proc_put by (done || lia). by destruct (Z.eqb_spec n no) as [->|].
  - rewrite proc_put by (done || lia). by destruct (Z.eqb_spec n no) as [->|].
Qed.

Lemma shared_step_later lo me tx st tx' st' :
  inv lo tx st -> attached st me -> shared_step lo me tx st tx' st' ->
  later lo tx st tx' st' /\ tx' me = tx me /\ proc st' me = proc st me.
Proof.
  intros Hi Hatt [|no x Hno Hne|no q Hno Hfree|no extend x st1 Hno Hne Hf He Hst]; pose proof Hatt as (Hme & _).
  - split; [by apply later_self|done].
  - split; [|split; [done|]; rewrite proc_put by (done || lia); by destruct (Z.eqb_spec me no)]. split; try done.
    + apply inv_put_same; try done. apply (s_shows _ _ (v_slots _ _ _ Hi) no Hno).
    + intros n Hn. by apply entry_grows_put.
    + intros n. apply tx_grows_refl.
  - assert (Hp : forall n, attached st n -> proc (put_free no q st) n = proc st n)
      by (intros n; by eapply proc_put_free_attached, Hi).
    split; [|split; [done|by apply Hp]]. split; try done; [by apply inv_put_free| |].
    + intros n Hn. split; unfold off; rewrite ?Hp by done; try done. apply (attached_put_free st no Hno Hfree tx); [apply Hi|done].
    + intros n. apply tx_grows_refl.
  - rewrite (assign_xid_to_eq lo tx) in Hst by (done || apply He). simplify_eq.
    split; [|split; [by rewrite set_tx_ne|]].
    2: { rewrite (proc_put (set_next _ st)) by (try done; try lia; unfold assigned; by repeat case_match).
         by destruct (Z.eqb_spec me no). }
    pose proof (i_next _ _ _ _ (v_ids _ _ _ Hi)) as [_ Hn].
    destruct (fnext_normal _ Hn) as [_ ?].
    split; try done; [by apply inv_assigned|cbn; lia| |].
    + intros n Hn'. set (q := assigned _ _ _).
      destruct (entry_grows_put (set_next (fnext (nextXid st)) st) no q n) as [G1 G2 G3 G4]; try done.
      all: unfold q, assigned; repeat case_match; try done. cbn. by apply prefix_app_r.
    + intros n. unfold set_tx. destruct (Z.eqb_spec n no) as [->|]; [|apply tx_grows_refl].
      destruct (tx no) as [[t subs]|]; cbn.
      * exists (nextXid st :: subs). split; [done|]. split; [by intros y ?; right|].
        intros y [->|?]%elem_of_cons; [right; lia|by left].
      * intros y [->|Hy]%elem_of_cons; [lia|by apply not_elem_of_nil in Hy].
Qed.

(** * What a snapshot says *)
Definition visible (st : Shared) (no : Z) : Prop :=
  Z.land (p_statusFlags (proc st no)) (Z.lor PROC_IN_LOGICAL_DECODING PROC_IN_VACUUM) = 0.

(** The snapshot [s], taken by [me], with the 64-bit ids [fmin] and [fmax] of
    its bounds, holds what runs below [fmax]. *)
Record describes (lo me : Z) (tx : Z -> Tx) (st : Shared) (s : SnapshotData) (fmin fmax : Z) : Prop := {
  d_xmin : xmin s = u32 fmin;
  d_xmax : xmax s = u32 fmax;
  d_fits : fits lo fmin /\ fits lo fmax;
  d_le : fmin <= fmax <= nextXid st;
  d_normal : takenDuringRecovery s = false;
  d_bound : fmax = fnext (latestCompletedXid st);
  d_attained : fmin = fmax \/ exists no subs, tx no = Some (fmin, subs) /\ (no = me \/ visible st no);
  d_tops : forall no t subs, no <> me -> visible st no -> tx no = Some (t, subs) -> t < fmax ->
             u32 t ∈ xip s /\ fmin <= t;
  d_xip : forall z, z ∈ xip s -> exists no t subs, no <> me /\ tx no = Some (t, subs) /\ t < fmax /\ z = u32 t;
  d_subs : suboverflowed s = false -> forall no t subs x, no <> me -> visible st no ->
             tx no = Some (t, subs) -> x ∈ subs -> x < fmax -> u32 x ∈ subxip s;
  d_subxip : suboverflowed s = false -> forall z, z ∈ subxip s ->
             exists x, z = u32 x /\ fits lo x /\ (x < fmax -> running tx x);
  d_own : forall t subs, tx me = Some (t, subs) -> t < fmax -> fmin <= t
}.

(** Ids that are not of the snapshot's own transaction, nor of a VACUUM or of
    logical decoding. *)
Definition foreign (me : Z) (tx : Z -> Tx) (st : Shared) (x : Z) : Prop :=
  forall no, in_tx (tx no) x -> no <> me /\ visible st no.

(** pg_subtrans holds the parents of ids from [txmin] on: a subtransaction
    points to one that began before it, and one that runs to one that runs. *)
Record subtrans_ok (lo : Z) (tx : Z -> Tx) (st : Shared) (txmin : Z) (parent : Z -> option Z)
  (ctl : SubTransCtl) : Prop := {
  sub_pages : pages_ok ctl;
  sub_parent : forall x, fits lo x -> txmin <= x < nextXid st ->
                 has_page ctl (u32 x) /\ parent_of ctl (u32 x) = match parent x with Some p => u32 p | None => 0 end;
  sub_down : forall x p, parent x = Some p -> fits lo p /\ p < x;
  sub_running : forall no t subs, tx no = Some (t, subs) ->
                  parent t = None /\ forall x, x ∈ subs -> exists p, parent x = Some p /\ p ∈ t :: subs
}.

Definition ancestor (parent : Z -> option Z) : Z -> Z -> Prop := rtc (fun x p => parent x = Some p).

Section in_snapshot.
Context (lo me : Z) (tx : Z -> Tx) (st : Shared) (Hinv : inv lo tx st).
Context (s : SnapshotData) (fmin fmax : Z) (Hd : describes lo me tx st s fmin fmax).
Context (x : Z) (Hx : fits lo x).

Lemma in_xmin : TransactionIdPrecedes (u32 x) (xmin s) = (x <? fmin).
Proof. rewrite (d_xmin _ _ _ _ _ _ _ Hd). apply (fits_precedes lo); [done|apply Hd]. Qed.

Lemma in_xmax : TransactionIdFollowsOrEquals (u32 x) (xmax s) = (fmax <=? x).
Proof.
  rewrite follows_or_equals_precedes, (d_xmax _ _ _ _ _ _ _ Hd), (fits_precedes lo) by (done || apply Hd). lia.
Qed.

Lemma running_above : fmax <= x -> running tx x \/ nextXid st <= x.
Proof.
  intros H. destruct (Z_lt_le_dec x (nextXid st)); [|by right]. left. rewrite (d_bound _ _ _ _ _ _ _ Hd) in H.
  destruct (v_ids _ _ _ Hinv) as [_ _ Hl _ Hc]. apply Hc; [apply Hx|].
  destruct (fnext_normal _ (proj2 Hl)). lia.
Qed.

(** A running id below [fmax] has a top in the snapshot. *)
Lemma running_top no t subs :
  no <> me -> visible st no -> tx no = Some (t, subs) -> x ∈ t :: subs -> x < fmax ->
  u32 t ∈ xip s /\ fmin <= t <= x /\ fits lo t.
Proof.
  intros Hne Hv Ht Hin Hlt. destruct (i_ids _ _ _ _ (v_ids _ _ _ Hinv) no t subs x Ht Hin) as [_ ?].
  destruct (d_tops _ _ _ _ _ _ _ Hd no t subs Hne Hv Ht ltac:(lia)). split; [done|]. split; [lia|].
  by apply (i_ids _ _ _ _ (v_ids _ _ _ Hinv) no t subs t Ht ltac:(by left)).
Qed.

Lemma xip_running z : fits lo z -> u32 z ∈ xip s -> exists no subs, tx no = Some (z, subs).
Proof.
  intros Hz Hin. destruct (d_xip _ _ _ _ _ _ _ Hd _ Hin) as (no & t & subs & _ & Ht & _ & E).
  exists no, subs. rewrite Ht. do 2 f_equal. symmetry. eapply fits_inj; [done| |done].
  by apply (i_ids _ _ _ _ (v_ids _ _ _ Hinv) no t subs t Ht ltac:(by left)).
Qed.

(** The cache is complete: the snapshot is exact. *)
Lemma in_snapshot_exact TransactionXmin ctl fuel :
  foreign me tx st x -> suboverflowed s = false ->
  exists b, XidInMVCCSnapshot TransactionXmin ctl fuel (u32 x) s = Ok b /\
            (b = true <-> running tx x \/ nextXid st <= x).
Proof.
  intros Hf Ho. unfold XidInMVCCSnapshot. rewrite in_xmin, in_xmax, (d_normal _ _ _ _ _ _ _ Hd), Ho. cbn [negb].
  pose proof (d_le _ _ _ _ _ _ _ Hd) as Hle.
  destruct (Z.ltb_spec x fmin).
  { exists false. split; [done|]. split; [done|]. intros [[no Hn]|?]; [|lia]. destruct (Hf no Hn) as [Hne Hv].
    destruct (tx no) as [[t subs]|] eqn:Ht; [|done]. destruct (running_top no t subs); (done || lia). }
  destruct (Z.leb_spec fmax x).
  { exists true. split; [done|]. split; [intros _; by apply running_above|done]. }
  destruct (xid_in (u32 x) (subxip s)) eqn:Hs; eexists; (split; [done|]).
  - apply xid_in_elem in Hs. split; [|done]. intros _. left.
    destruct (d_subxip _ _ _ _ _ _ _ Hd Ho _ Hs) as (y & E & Hy & Hr).
    rewrite (fits_inj lo x y) by done. apply Hr. rewrite <- (fits_inj lo x y) by done. done.
  - rewrite xid_in_elem. split.
    + intros Hin. left. destruct (xip_running x Hx Hin) as (no & subs & Ht). exists no. rewrite Ht. by left.
    + intros [[no Hn]|?]; [|lia]. destruct (Hf no Hn) as [Hne Hv].
      destruct (tx no) as [[t subs]|] eqn:Ht; [|done]. cbn in Hn. pose proof Hn as Hn'. apply elem_of_cons in Hn' as [E|Hin].
      * rewrite E. by apply (running_top no t subs).
      * pose proof (d_subs _ _ _ _ _ _ _ Hd Ho no t subs x Hne Hv Ht Hin ltac:(lia)) as Hsub.
        apply xid_in_elem in Hsub. congruence.
Qed.
End in_snapshot.

(** ** Overflowed snapshots go through pg_subtrans *)
Lemma ancestor_linear parent x y z :
  ancestor parent x y -> ancestor parent x z -> ancestor parent y z \/ ancestor parent z y.
Proof.
  intros Hy Hz. induction Hy as [x|x p y Hp Hy IH]; [by left|].
  inversion Hz as [|? q ? Hq Hz']; subst; [right; by eapply rtc_l|].
  apply IH. cbn in Hp, Hq. by replace p with q by congruence.
Qed.

Section topmost.
Context (lo : Z) (tx : Z -> Tx) (st : Shared) (Hinv : inv lo tx st).
Context (txmin : Z) (Htx : fits lo txmin) (parent : Z -> option Z) (ctl : SubTransCtl).
Context (Hsub : subtrans_ok lo tx st txmin parent ctl).

Lemma topmost_loop_full fuel prev x :
  fits lo x -> txmin <= x < nextXid st -> (Z.to_nat (x - txmin) + 1 < fuel)%nat ->
  exists y, topmost_loop (u32 txmin) fuel (u32 x) prev ctl = Ok (u32 y) /\
            ancestor parent x y /\ fits lo y /\ y <= x /\ (parent y = None \/ y < txmin).
Proof.
  revert prev x. induction fuel as [|fuel IH]; intros prev x Hx Hr Hfuel; [lia|].
  cbn [topmost_loop]. rewrite (fits_valid lo x), (fits_precedes lo) by done. destruct (Z.ltb_spec x txmin); [lia|].
  destruct (sub_parent _ _ _ _ _ _ Hsub x Hx Hr) as [Hp E].
  assert (G : SubTransGetParent (u32 txmin) (u32 x) ctl = Ok (parent_of ctl (u32 x))).
  { apply wp_eq, wp_SubTransGetParent; [apply Hsub|done| |by rewrite (fits_normal lo)].
    rewrite (fits_precedes lo) by done. lia. }
  rewrite G, E. step_ok. destruct (parent x) as [p|] eqn:Ep.
  - destruct (sub_down _ _ _ _ _ _ Hsub x p Ep) as [Hpf Hpx]. rewrite (fits_precedes lo) by done.
    destruct (Z.ltb_spec p x); [|lia]. cbn [negb].
    destruct (Z_lt_le_dec p txmin) as [Hlt|Hge].
    + exists p. split; [|split; [by eapply rtc_once|split; [done|split; [lia|by right]]]].
      destruct fuel; [lia|]. cbn [topmost_loop]. rewrite (fits_valid lo p), (fits_precedes lo) by done.
      by destruct (Z.ltb_spec p txmin); [|lia].
    + destruct (IH (u32 x) p Hpf ltac:(lia) ltac:(lia)) as (y & Hy & Ha & Hyf & Hyx & Hend). exists y.
      split; [done|]. split; [by eapply rtc_l|]. split; [done|]. split; [lia|done].
  - rewrite precedes_special by (done || by apply (fits_normal lo)). cbn [negb].
    exists x. split; [|split; [by apply rtc_refl|split; [done|split; [lia|by left]]]].
    destruct fuel; [lia|]. done.
Qed.

Lemma ancestor_le x y : ancestor parent x y -> y <= x.
Proof.
  induction 1 as [x|x p y Hp _ IH]; [lia|]. destruct (sub_down _ _ _ _ _ _ Hsub x p Hp). lia.
Qed.

(** The ancestors of a running id run in the same transaction, up to its top. *)
Lemma ancestor_running no t subs x y :
  tx no = Some (t, subs) -> x ∈ t :: subs -> ancestor parent x y ->
  y ∈ t :: subs /\ (parent y = None -> y = t).
Proof.
  intros Ht Hx Ha. revert Hx. destruct (sub_running _ _ _ _ _ _ Hsub no t subs Ht) as [Hn Hs].
  assert (Hstep : forall z, z ∈ t :: subs -> z = t \/ exists p, parent z = Some p /\ p ∈ t :: subs).
  { intros z [->|Hz]%elem_of_cons; [by left|right; by apply Hs]. }
  induction Ha as [x|x p y Hp _ IH]; intros Hx.
  - split; [done|]. intros Hnone. destruct (Hstep x Hx) as [->|(p & ? & _)]; [done|congruence].
  - apply IH. destruct (Hstep x Hx) as [->|(q & ? & ?)]; congruence.
Qed.
End topmost.

Section overflowed.
Context (lo me : Z) (tx : Z -> Tx) (st : Shared) (Hinv : inv lo tx st).
Context (s : SnapshotData) (fmin fmax : Z) (Hd : describes lo me tx st s fmin fmax).
Context (txmin : Z) (Htx : fits lo txmin) (parent : Z -> option Z) (ctl : SubTransCtl).
Context (Hsub : subtrans_ok lo tx st txmin parent ctl) (Hle : txmin <= fmin).

(** An id is in the snapshot if it or one of its ancestors runs: an aborted
    subtransaction counts as running as long as its parent does. *)
Lemma in_snapshot_overflowed fuel x :
  fits lo x -> (forall y, ancestor parent x y -> foreign me tx st y) -> suboverflowed s = true ->
  (Z.to_nat (x - txmin) + 1 < fuel)%nat ->
  exists b, XidInMVCCSnapshot (u32 txmin) ctl fuel (u32 x) s = Ok b /\
            (b = true <-> (exists y, ancestor parent x y /\ running tx y) \/ nextXid st <= x).
Proof.
  intros Hx Hf Ho Hfuel. unfold XidInMVCCSnapshot.
  rewrite (in_xmin lo me tx st Hinv s fmin fmax), (in_xmax lo me tx st Hinv s fmin fmax), (d_normal _ _ _ _ _ _ _ Hd), Ho by done.
  cbn [negb]. pose proof (d_le _ _ _ _ _ _ _ Hd) as Hle'.
  (* what an ancestor that runs gives *)
  assert (Htop : forall y, ancestor parent x y -> running tx y -> x < fmax ->
            exists no t subs, tx no = Some (t, subs) /\ y ∈ t :: subs /\ u32 t ∈ xip s /\ fmin <= t <= y /\ fits lo t).
  { intros y Ha [no Hn] Hlt. destruct (Hf y Ha no Hn) as [Hne Hv].
    destruct (tx no) as [[t subs]|] eqn:Ht; [|done]. exists no, t, subs. split; [done|]. split; [done|].
    pose proof (ancestor_le lo tx st Hinv txmin Htx parent ctl Hsub x y Ha).
    apply (running_top lo me tx st Hinv s fmin fmax Hd y) with no subs; try done; [|lia].
    by apply (i_ids _ _ _ _ (v_ids _ _ _ Hinv) no t subs y Ht Hn). }
  destruct (Z.ltb_spec x fmin).
  { exists false. split; [done|]. split; [done|]. intros [(y & Ha & Hr)|?]; [|lia].
    destruct (Htop y Ha Hr ltac:(lia)) as (no & t & subs & _ & _ & _ & ? & _).
    pose proof (ancestor_le lo tx st Hinv txmin Htx parent ctl Hsub x y Ha). lia. }
  destruct (Z.leb_spec fmax x).
  { exists true. split; [done|]. split; [intros _|done].
    destruct (running_above lo me tx st Hinv s fmin fmax Hd x Hx ltac:(done)); [left|by right].
    exists x. split; [by apply rtc_refl|done]. }
  unfold SubTransGetTopmostTransaction.
  destruct (topmost_loop_full lo tx st Hinv txmin Htx parent ctl Hsub fuel (u32 x) x Hx ltac:(lia) Hfuel)
    as (y & Hy & Ha & Hyf & Hyx & Hend).
  rewrite follows_or_equals_precedes, (fits_precedes lo) by done. destruct (Z.ltb_spec x txmin); [lia|].
  assert_ok Z.eqb_refl. rewrite Hy. step_ok. assert_ok (fits_valid lo _ Hyf).
  rewrite (in_xmin lo me tx st Hinv s fmin fmax Hd) by done.
  assert (Hroot : forall z, ancestor parent x z -> running tx z -> u32 y ∈ xip s /\ fmin <= y).
  { intros z Hz Hr. destruct (Htop z Hz Hr ltac:(lia)) as (no & t & subs & Ht & Hin & Hxip & Hb & _).
    enough (y = t) as -> by (split; [done|lia]).
    destruct (ancestor_linear parent x z y Hz Ha) as [Hzy|Hyz].
    - destruct (ancestor_running lo tx st Hinv txmin Htx parent ctl Hsub no t subs z y Ht Hin Hzy) as [Hyt Hnone].
      apply Hnone. destruct (i_ids _ _ _ _ (v_ids _ _ _ Hinv) no t subs y Ht Hyt). destruct Hend; [done|lia].
    - apply rtc_inv in Hyz as [->|(p & Hp & Hpz)].
      + destruct (ancestor_running lo tx st Hinv txmin Htx parent ctl Hsub no t subs z z Ht Hin (rtc_refl _ _)) as [_ Hnone].
        apply Hnone. destruct Hend; [done|lia].
      + destruct (sub_down _ _ _ _ _ _ Hsub y p Hp) as [_ ?].
        pose proof (ancestor_le lo tx st Hinv txmin Htx parent ctl Hsub p z Hpz). destruct Hend; [congruence|lia]. }
  destruct (Z.ltb_spec y fmin); eexists; (split; [done|]).
  - split; [done|]. intros [(z & Hz & Hr)|?]; [destruct (Hroot z Hz Hr); lia|lia].
  - rewrite xid_in_elem. split.
    + intros Hin. left. exists y. split; [done|].
      destruct (xip_running lo me tx st Hinv s fmin fmax Hd y Hyf y Hyf Hin) as (no & subs & Ht).
      exists no. rewrite Ht. by left.
    + intros [(z & Hz & Hr)|?]; [by apply (Hroot z)|lia].
Qed.
End overflowed.

(** * Taking the snapshot *)

(** The outcome of reads from the moment [t] on. *)
Definition rwp {A} (m : Rd A) (t : nat) (Q : A -> nat -> Prop) : Prop :=
  wp (m t) (fun r => (t <= r.2)%nat /\ Q r.1 r.2).

Lemma rwp_ret {A} (a : A) t (Q : A -> nat -> Prop) : Q a t -> rwp (mret a) t Q.
Proof. by split. Qed.

Lemma rwp_bind {A B} (m : Rd A) (k : A -> Rd B) t Q :
  rwp m t (fun a t' => rwp (k a) t' Q) -> rwp (mbind k m) t Q.
Proof.
  unfold rwp, mbind, Rd_bind. destruct (m t) as [[a t']| |]; cbn; try done.
  intros [Hle Hk]. eapply wp_mono; [exact Hk|]. intros r [? ?]. split; [lia|done].
Qed.

Lemma rwp_pure {A} (m : res A) t (Q : A -> nat -> Prop) : wp m (fun a => Q a t) -> rwp (pure m) t Q.
Proof. unfold rwp, pure. destruct m; cbn; try done. Qed.

Lemma rwp_pure_ok {A} (a : A) t (Q : A -> nat -> Prop) : Q a t -> rwp (pure (Ok a)) t Q.
Proof. by split. Qed.

Lemma rwp_look {A} (h : nat -> Shared) (f : Shared -> res A) t (Q : A -> nat -> Prop) :
  wp (f (h t)) (fun a => Q a (S t)) -> rwp (look h f) t Q.
Proof. unfold rwp, look. destruct (f (h t)); cbn; try done. by split; [lia|]. Qed.

Section taking.
Context (lo me : Z) (history : nat -> Shared) (txs : nat -> Z -> Tx) (t0 : nat).
Context (Hinv : inv lo (txs t0) (history t0)) (Hme : attached (history t0) me).
Context (Hsteps : forall t, (t0 <= t)%nat -> shared_step lo me (txs t) (history t) (txs (S t)) (history (S t))).
Abbreviation S0 := (history t0).
Abbreviation tx0 := (txs t0).

Lemma history_later t :
  (t0 <= t)%nat ->
  later lo tx0 S0 (txs t) (history t) /\ txs t me = tx0 me /\ proc (history t) me = proc S0 me.
Proof.
  induction 1 as [|t Ht (IH & IHt & IHp)]; [split; [by apply later_self|done]|].
  destruct (shared_step_later lo me (txs t) (history t) (txs (S t)) (history (S t))) as (HS & HSt & HSp).
  - apply IH.
  - apply (g_attached _ _ _ (r_entry _ _ _ _ _ IH me Hme)).
  - by apply Hsteps.
  - split; [by eapply later_compose|]. split; congruence.
Qed.

Lemma later_from s t : (t0 <= s <= t)%nat -> later lo (txs s) (history s) (txs t) (history t).
Proof.
  intros [Hs Hst]. induction Hst as [|t Ht IH]; [by apply later_self, history_later|].
  destruct (history_later t ltac:(lia)) as [Hl _].
  eapply later_compose; [exact IH|].
  apply (shared_step_later lo me); [apply Hl| |apply Hsteps; lia].
  apply (g_attached _ _ _ (r_entry _ _ _ _ _ Hl me Hme)).
Qed.

(** What a slot reads as at a later moment. *)
Record reads (i no : Z) (t : nat) : Prop := {
  rd_no : rd (pgprocnos (history t)) i = Ok no;
  rd_entry : rd (allProcs (history t)) no = Ok (proc (history t) no);
  rd_xid : rd (xids (history t)) i = Ok (p_xid (proc (history t) no));
  rd_state : rd (subxidStates (history t)) i = Ok (p_subxidStatus (proc (history t) no));
  rd_flags : rd (statusFlags (history t)) i = Ok (p_statusFlags (proc S0 no));
  rd_back : p_pgxactoff (proc (history t) no) = i;
  rd_shows : shows (proc (history t) no) (txs t no)
}.

Lemma slot_reads no t : attached S0 no -> (t0 <= t)%nat -> reads (off S0 no) no t.
Proof.
  intros Hno Ht. destruct (history_later t Ht) as [Hl _]. destruct (r_entry _ _ _ _ _ Hl no Hno) as [Ha Ho Hf _].
  pose proof (r_inv _ _ _ _ _ Hl) as Hi. pose proof (well_me lo (txs t) (history t) Hi no Ha) as Hw.
  rewrite <- Ho. split.
  - rewrite (rd_ok 0) by apply Ha. f_equal. apply Ha.
  - by apply rd_me.
  - by apply rd_xid_me.
  - by apply rd_state_me.
  - rewrite rd_flags_me by done. by f_equal.
  - done.
  - by apply (shows_me lo (txs t) (history t) Hi).
Qed.

Lemma NormalTransactionIdPrecedes_eq x y :
  fits lo x -> fits lo y -> NormalTransactionIdPrecedes (u32 x) (u32 y) = Ok (x <? y).
Proof.
  intros Hx Hy. unfold NormalTransactionIdPrecedes. rewrite (fits_normal lo x), (fits_normal lo y) by done.
  cbn [andb]. assert_ok Z.eqb_refl. rewrite i32_diff by (destruct Hx, Hy; lia). f_equal. lia.
Qed.

(** ** The loop over the slots *)
Abbreviation fmax := (fnext (latestCompletedXid S0)).

Lemma fmax_ok : fits lo fmax /\ latestCompletedXid S0 < fmax <= nextXid S0.
Proof.
  destruct (v_ids _ _ _ Hinv) as [_ Hn Hc Ho _]. destruct (fnext_normal _ (proj2 Hc)) as [? ?].
  pose proof (fnext_least _ _ (proj2 Hc) (proj2 Hn) Ho). split; [|lia].
  apply (fits_between lo (latestCompletedXid S0) _ (nextXid S0)); (done || lia).
Qed.

(** The transactions that the snapshot has to hold. *)
Definition counts (no t : Z) (subs : list Z) : Prop :=
  no <> me /\ visible S0 no /\ tx0 no = Some (t, subs) /\ t < fmax.

Record collected (i : Z) (c : Collected) (fmin : Z) : Prop := {
  k_xmin : c_xmin c = u32 fmin;
  k_fits : fits lo fmin /\ fmin <= fmax;
  k_tops : forall no t subs, counts no t subs -> off S0 no < i -> u32 t ∈ c_xip c /\ fmin <= t;
  k_xip : forall z, z ∈ c_xip c -> exists no t subs, no <> me /\ tx0 no = Some (t, subs) /\ t < fmax /\ z = u32 t;
  k_subs : c_overflowed c = false -> forall no t subs x, counts no t subs -> off S0 no < i -> x ∈ subs ->
             u32 x ∈ c_subxip c;
  k_subxip : forall z, z ∈ c_subxip c -> exists x, z = u32 x /\ fits lo x /\ (x < fmax -> running tx0 x);
  k_attained : fmin = fmax \/ exists no subs, tx0 no = Some (fmin, subs) /\ (no = me \/ visible S0 no);
  k_own : forall t subs, tx0 me = Some (t, subs) -> t < fmax -> fmin <= t;
  k_xip_len : len (c_xip c) <= i;
  k_subxip_len : len (c_subxip c) <= MAX_CACHED_SUBXIDS * i
}.

(** A slot that adds nothing. *)
Lemma collected_skip i no c fmin :
  attached S0 no -> off S0 no = i -> (forall t subs, ~ counts no t subs) ->
  collected i c fmin -> collected (i + 1) c fmin.
Proof.
  intros Hno Hi Hc [K1 K2 K3 K4 K5 K6 Ka K7 K8 K9].
  assert (Hlt : forall n t subs, counts n t subs -> off S0 n < i + 1 -> off S0 n < i).
  { intros n t subs Hn Hlt. destruct (decide (off S0 n = i)) as [E|]; [|lia].
    assert (n = no) as ->; [|by apply Hc in Hn]. apply (off_inj S0); [|done|congruence].
    apply (s_attached _ _ (v_slots _ _ _ Hinv)). destruct Hn as (_ & _ & -> & _). done. }
  split; try done; [| |lia|unfold MAX_CACHED_SUBXIDS in *; lia].
  - intros n t subs Hn H. by apply (K3 n t subs), (Hlt _ t subs).
  - intros Ho n t subs x Hn H Hx. apply (K5 Ho n t subs); try done. by apply (Hlt _ t subs).
Qed.

(** A slot whose transaction is added, with the cached ids [l]. *)
Lemma collected_add i no t subs c fmin l ov :
  attached S0 no -> off S0 no = i -> counts no t subs -> collected i c fmin ->
  (ov = false -> c_overflowed c = false /\ forall x, x ∈ subs -> u32 x ∈ l) ->
  (forall z, z ∈ l -> exists x, z = u32 x /\ fits lo x /\ (x < fmax -> running tx0 x)) ->
  len l <= MAX_CACHED_SUBXIDS ->
  collected (i + 1) {| c_xmin := u32 (Z.min fmin t); c_xip := c_xip c ++ [u32 t]; c_subxip := c_subxip c ++ l;
                       c_overflowed := ov |} (Z.min fmin t).
Proof.
  intros Hno Hi Hc [K1 [K2 K2'] K3 K4 K5 K6 Ka K7 K8 K9] Hov Hl Hlen.
  pose proof Hc as (Hne & Hv & Ht & Hlt).
  assert (Hcase : forall n t' subs', counts n t' subs' -> off S0 n < i + 1 ->
            off S0 n < i \/ t' = t /\ subs' = subs).
  { intros n t' subs' Hn Hlt'. destruct (decide (off S0 n = i)) as [E|]; [right|left; lia].
    assert (n = no) as ->; [|destruct Hn as (_ & _ & Hn & _); by rewrite Ht in Hn; simplify_eq].
    apply (off_inj S0); [|done|congruence]. apply (s_attached _ _ (v_slots _ _ _ Hinv)).
    destruct Hn as (_ & _ & -> & _). done. }
  pose proof (proj1 (i_ids _ _ _ _ (v_ids _ _ _ Hinv) no t subs t Ht ltac:(by left))) as Htf.
  split; cbn; [done|split; [|lia]| | | | | | | |].
  - destruct (Z.min_spec fmin t) as [[_ ->]|[_ ->]]; done.
  - intros n t' subs' Hn Hlt'. rewrite elem_of_app.
    destruct (Hcase n t' subs' Hn Hlt') as [H|[-> ->]]; [|split; [right; by left|lia]].
    destruct (K3 n t' subs' Hn H). split; [by left|lia].
  - intros z [Hz| ->%list_elem_of_singleton]%elem_of_app; [by apply K4|by exists no, t, subs].
  - intros Ho n t' subs' x Hn Hlt' Hx. destruct (Hov Ho) as [Ho' Hsub]. rewrite elem_of_app.
    destruct (Hcase n t' subs' Hn Hlt') as [H|[-> ->]]; [left; by eapply K5|right; by apply Hsub].
  - intros z [Hz|Hz]%elem_of_app; [by apply K6|by apply Hl].
  - destruct (Z.min_spec fmin t) as [[_ ->]|[_ ->]]; [done|]. right. exists no, subs. split; [done|by right].
  - intros t' subs' H1 H2. specialize (K7 t' subs' H1 H2). lia.
  - len_simpl. lia.
  - rewrite len_app. lia.
Qed.

Lemma slot_later i : 0 <= i < numProcs S0 -> exists no, attached S0 no /\ off S0 no = i.
Proof. intros Hi. exists (getd 0 (pgprocnos S0) i). by apply (s_slot _ _ (v_slots _ _ _ Hinv)). Qed.

Definition cache (no : Z) (t : nat) : list Z := p_subxids (proc (history t) no).

Lemma cache_grows no s t : attached S0 no -> (t0 <= s <= t)%nat -> cache no s `prefix_of` cache no t.
Proof.
  intros Hno Hst. destruct (history_later s ltac:(lia)) as [Hs _].
  pose proof (g_attached _ _ _ (r_entry _ _ _ _ _ Hs no Hno)) as Ha.
  apply (r_entry _ _ _ _ _ (later_from s t Hst) no Ha).
Qed.

Lemma copy_subxids_spec no c t (Q : Collected -> nat -> Prop) :
  attached S0 no -> (t0 <= t)%nat -> len (c_subxip c) <= MAX_CACHED_SUBXIDS * (maxProcs S0 - 1) ->
  (forall t', (t <= t')%nat ->
     Q {| c_xmin := c_xmin c; c_xip := c_xip c; c_subxip := c_subxip c ++ cache no t; c_overflowed := c_overflowed c |} t') ->
  rwp (copy_subxids history (off S0 no) c) t Q.
Proof.
  intros Hno Ht Hroom HQ. unfold copy_subxids.
  destruct (slot_reads no t Hno Ht) as [_ _ _ R4 _ _ (C1 & C2 & _)].
  apply rwp_bind, rwp_look. rewrite R4. step_ok. apply wp_Ok. rewrite C1.
  destruct (Z.ltb_spec 0 (len (p_subxids (proc (history t) no)))) as [Hpos|Hz].
  2: { apply rwp_ret. specialize (HQ (S t) ltac:(lia)). unfold cache in HQ.
       destruct (p_subxids (proc (history t) no)) as [|x l]; [|len_simpl_all; pose proof (len_nonneg l); lia].
       rewrite app_nil_r in HQ. by destruct c. }
  destruct (slot_reads no (S t) Hno ltac:(lia)) as [R1 R2 _ _ _ _ _].
  apply rwp_bind, rwp_look. rewrite R1. step_ok. rewrite R2. step_ok.
  destruct (cache_grows no t (S t) Hno ltac:(lia)) as [ext E]. unfold cache in E. rewrite E, len_app.
  destruct (Z.ltb_spec (len (p_subxids (proc (history t) no)) + len ext) (len (p_subxids (proc (history t) no)))) as [Hbad|_];
    [pose proof (len_nonneg ext); lia|].
  apply wp_Ok. apply rwp_bind, rwp_look, wp_Ok.
  rewrite (r_max _ _ _ _ _ (proj1 (history_later (S (S t)) ltac:(lia)))).
  pose proof (s_lens _ _ (v_slots _ _ _ Hinv)) as [_ _ _ Hm]. destruct Hno as (_ & ? & _).
  unfold MAX_CACHED_SUBXIDS in *.
  destruct (Z.ltb_spec ((64 + 1) * maxProcs S0) (len (c_subxip c) + len (p_subxids (proc (history t) no)))); [lia|].
  apply rwp_ret. unfold len. rewrite Nat2Z.id, take_app_length. apply HQ. lia.
Qed.

(** The transaction of a slot as a later moment shows it. *)
Lemma slot_tx no t : (t0 <= t)%nat ->
  match txs t no with
  | None => tx0 no = None
  | Some (top, subs) =>
      fits lo top /\
      (tx0 no = None /\ nextXid S0 <= top \/
       exists subs0, tx0 no = Some (top, subs0) /\ subs0 ⊆ subs /\
                     (forall x, x ∈ subs -> fits lo x /\ (x ∈ subs0 \/ nextXid S0 <= x)))
  end.
Proof.
  intros Ht. destruct (history_later t Ht) as [Hl _]. pose proof (r_tx _ _ _ _ _ Hl no) as Hg.
  pose proof (i_ids _ _ _ _ (v_ids _ _ _ (r_inv _ _ _ _ _ Hl)) no) as Hids.
  destruct (txs t no) as [[top subs]|].
  - split; [by apply (Hids top subs top eq_refl); left|].
    destruct (tx0 no) as [[top0 subs0]|]; cbn in Hg; [right|left; split; [done|apply Hg; by left]].
    destruct Hg as (subs' & E & Hsub & Hnew). simplify_eq. exists subs0. split; [done|]. split; [done|].
    intros x Hx. split; [by apply (Hids top0 subs' x eq_refl); right|by apply Hnew].
  - destruct (tx0 no) as [[top0 subs0]|]; [|done]. by destruct Hg as (? & ? & _).
Qed.

Lemma not_counts_none no : tx0 no = None -> forall t subs, ~ counts no t subs.
Proof. intros E t subs (_ & _ & H & _). congruence. Qed.

(** The cache of a slot whose overflow flag was not set a moment before. *)
Lemma cache_complete no top subs0 s t :
  attached S0 no -> (t0 <= s <= t)%nat -> tx0 no = Some (top, subs0) ->
  overflowed (p_subxidStatus (proc (history s) no)) = false ->
  forall x, x ∈ subs0 -> u32 x ∈ cache no t.
Proof.
  intros Hno Hst E Ho x Hx. pose proof (slot_tx no s ltac:(lia)) as Htx.
  destruct (slot_reads no s Hno ltac:(lia)) as [_ _ _ _ _ _ (_ & _ & Hsh)].
  destruct (txs s no) as [[top' subs]|]; [|congruence].
  destruct Hsh as (_ & _ & _ & Hall). destruct Htx as [_ [[? _]|(s0 & E' & Hsub & _)]]; [congruence|].
  rewrite E in E'. simplify_eq. eapply elem_of_prefix; [|by apply cache_grows]. by apply Hall, Hsub.
Qed.

Lemma cache_sound no top subs0 t :
  attached S0 no -> (t0 <= t)%nat -> tx0 no = Some (top, subs0) ->
  len (cache no t) <= MAX_CACHED_SUBXIDS /\
  forall z, z ∈ cache no t -> exists x, z = u32 x /\ fits lo x /\ (x < fmax -> running tx0 x).
Proof.
  intros Hno Ht E. destruct (slot_reads no t Hno Ht) as [_ _ _ _ _ _ (_ & Hlen & Hsh)]. split; [done|].
  intros z Hz. pose proof (slot_tx no t Ht) as Htx. destruct (txs t no) as [[top' subs]|]; [|congruence].
  destruct Hsh as (_ & _ & Hin & _). destruct Htx as [_ [[? _]|(s0 & E' & _ & Hnew)]]; [congruence|].
  destruct (Hin z Hz) as (x & Hx & ->). destruct (Hnew x Hx) as [Hf Hcase]. exists x. split; [done|]. split; [done|].
  intros Hlt. destruct fmax_ok as [_ ?]. destruct Hcase as [Hin0|]; [|lia]. exists no. rewrite E'. by right.
Qed.

Lemma add_slot_spec i no top subs0 c fmin t :
  0 <= i < numProcs S0 -> attached S0 no -> off S0 no = i -> counts no top subs0 -> (t0 <= t)%nat ->
  collected i c fmin ->
  rwp (add_slot history (u32 top) i c) t (fun c' _ => exists fmin', collected (i + 1) c' fmin').
Proof.
  intros Hi Hno Hoff Hcnt Ht Hc. pose proof Hcnt as (_ & _ & E0 & _). unfold add_slot.
  pose proof (proj1 (i_ids _ _ _ _ (v_ids _ _ _ Hinv) no top subs0 top E0 ltac:(by left))) as Htop.
  pose proof Hc as [K1 [K2 _] _ _ _ _ _ _ K8 K9]. pose proof (s_lens _ _ (v_slots _ _ _ Hinv)) as [_ _ _ Hmax].
  apply rwp_bind. rewrite K1, NormalTransactionIdPrecedes_eq by done. apply rwp_pure_ok.
  apply rwp_bind, rwp_look, wp_Ok.
  rewrite (r_max _ _ _ _ _ (proj1 (history_later t ltac:(lia)))).
  destruct (Z.leb_spec (maxProcs S0) (len (c_xip c))); [lia|].
  replace (if top <? fmin then u32 top else u32 fmin) with (u32 (Z.min fmin top))
    by (destruct (Z.ltb_spec top fmin); f_equal; lia).
  cbn [c_overflowed c_xmin c_xip c_subxip].
  destruct (c_overflowed c) eqn:Ho; cbn [negb].
  { apply rwp_ret. exists (Z.min fmin top). rewrite <- (app_nil_r (c_subxip c)).
    apply (collected_add i no top subs0); try done; by intros z ?%not_elem_of_nil. }
  destruct (slot_reads no (S t) Hno ltac:(lia)) as [_ _ _ R4 _ _ _]. rewrite Hoff in *.
  apply rwp_bind, rwp_look. rewrite R4. step_ok. apply wp_Ok.
  destruct (overflowed (p_subxidStatus (proc (history (S t)) no))) eqn:Ho'.
  { apply rwp_ret. exists (Z.min fmin top). rewrite <- (app_nil_r (c_subxip c)).
    apply (collected_add i no top subs0); try done; by intros z ?%not_elem_of_nil. }
  rewrite <- Hoff. apply copy_subxids_spec; [done|lia|unfold MAX_CACHED_SUBXIDS in *; cbn; lia|].
  intros t' Ht'. exists (Z.min fmin top). rewrite Hoff. cbn [c_overflowed c_xmin c_xip c_subxip].
  destruct (cache_sound no top subs0 (S (S t)) Hno ltac:(lia) E0) as [Hlen Hsound].
  apply (collected_add i no top subs0); try done. intros _. split; [done|].
  by eapply cache_complete; [| |exact E0|exact Ho']; [|lia].
Qed.

Lemma collect_slot_spec i c fmin t :
  0 <= i < numProcs S0 -> (t0 <= t)%nat -> collected i c fmin ->
  rwp (collect_slot history (off S0 me) (u32 fmax) i c) t (fun c' _ => exists fmin', collected (i + 1) c' fmin').
Proof.
  intros Hi Ht Hc. destruct (slot_later i Hi) as (no & Hno & Hoff). destruct fmax_ok as [Hmf Hm].
  unfold collect_slot.
  destruct (slot_reads no t Hno Ht) as [_ _ R3 _ _ _ (_ & _ & Hsh)]. rewrite Hoff in R3.
  apply rwp_bind, rwp_look. rewrite R3. apply wp_Ok.
  destruct (slot_reads no (S t) Hno ltac:(lia)) as [R1 R2 _ _ _ R6 _]. rewrite Hoff in *.
  apply rwp_bind, rwp_look. rewrite R1. step_ok. rewrite R2. step_ok. apply wp_Ok. rewrite R6.
  apply rwp_bind. rewrite Z.eqb_refl. apply rwp_pure_ok.
  pose proof (slot_tx no t Ht) as Htx.
  destruct (txs t no) as [[top subs]|]; cycle 1.
  { destruct Hsh as (-> & _). apply rwp_ret. exists fmin. by eapply collected_skip, Hc; [..|by apply not_counts_none]. }
  destruct Hsh as (-> & _). destruct Htx as [Htop Htx].
  destruct (Z.eqb_spec (u32 top) InvalidTransactionId) as [E|_];
    [destruct Htop as [_ Hn]; unfold InvalidTransactionId in E; lia|].
  destruct (Z.eqb_spec i (off S0 me)) as [Eme|Hneme].
  { apply rwp_ret. exists fmin. eapply collected_skip, Hc; [done|done|]. intros ? ? (Hne & _). apply Hne.
    apply (off_inj S0); [done|done|congruence]. }
  assert (Hne : no <> me) by congruence.
  rewrite (fits_normal lo top) by done. apply rwp_bind, rwp_pure_ok, rwp_bind.
  rewrite NormalTransactionIdPrecedes_eq by done. apply rwp_pure_ok.
  destruct (Z.ltb_spec top fmax) as [Hlt|Hge]; cbn [negb]; cycle 1.
  { apply rwp_ret. exists fmin. eapply collected_skip, Hc; [done|done|]. intros t1 s1 (_ & _ & E & ?).
    destruct Htx as [[E' _]|(s0 & E' & _)]; [congruence|]. rewrite E in E'. simplify_eq. lia. }
  destruct Htx as [[_ ?]|(subs0 & E0 & Hsub & Hnew)]; [lia|].
  destruct (slot_reads no (S (S t)) Hno ltac:(lia)) as [_ _ _ _ R5 _ _]. rewrite Hoff in *.
  apply rwp_bind, rwp_look. rewrite R5. apply wp_Ok.
  destruct (Z.eqb_spec (Z.land (p_statusFlags (proc S0 no)) (Z.lor PROC_IN_LOGICAL_DECODING PROC_IN_VACUUM)) 0)
    as [Hv|Hv]; cbn [negb]; cycle 1.
  { apply rwp_ret. exists fmin. eapply collected_skip, Hc; [done|done|]. by intros ? ? (_ & Hv' & _). }
  by eapply (add_slot_spec i no top subs0); [| | | |lia|].
Qed.

Lemma collect_slots_spec n i c fmin t :
  0 <= i -> i + Z.of_nat n <= numProcs S0 -> (t0 <= t)%nat -> collected i c fmin ->
  rwp (collect_slots history n (off S0 me) (u32 fmax) i c) t
    (fun c' _ => exists fmin', collected (i + Z.of_nat n) c' fmin').
Proof.
  revert i c fmin t. induction n as [|n IH]; intros i c fmin t Hi Hn Ht Hc; cbn [collect_slots].
  - apply rwp_ret. exists fmin. by rewrite Z.add_0_r.
  - apply rwp_bind. eapply wp_mono; [apply (collect_slot_spec i c fmin t); try done; lia|].
    intros [c' t'] [Hle [fmin' Hc']]. split; [done|]. cbn in *.
    replace (i + Z.of_nat (S n)) with (i + 1 + Z.of_nat n) by lia. eapply IH; [lia|lia|lia|done].
Qed.

(** ** GetSnapshotData *)

(** [m] is no later than anything the snapshot has to see as running. *)
Definition held (m : Z) : Prop :=
  fits lo m /\ m <= fmax /\ forall no t subs, tx0 no = Some (t, subs) -> no = me \/ visible S0 no -> m <= t.

Context (cid : Z) (loc : Local) (s : Static).
Context (Hloc : MyProc loc = me).
(** The xmin we already advertise: that of the oldest snapshot still registered,
    which may have advanced beyond TransactionXmin. *)
Definition advertised : Prop :=
  p_xmin (proc S0 me) <> 0 ->
  (exists m, TransactionXmin loc = u32 m /\ held m) /\ (exists m, p_xmin (proc S0 me) = u32 m /\ held m).
Context (Hxmin : advertised).
(** A snapshot from before, if no transaction has completed since. *)
Context (Hreuse : snapXactCompletionCount s <> 0 -> snapXactCompletionCount s = xactCompletionCount S0 ->
                  exists fmin, describes lo me tx0 S0 (data s) fmin fmax).

Record taken_ok (r : Taken) (fmin : Z) : Prop := {
  tk_describes : describes lo me tx0 S0 (data (taken r)) fmin fmax;
  tk_curcid : curcid (data (taken r)) = cid;
  tk_count : snapXactCompletionCount (taken r) = xactCompletionCount S0;
  tk_recent : RecentXmin (local r) = u32 fmin;
  tk_xmin : exists m, TransactionXmin (local r) = u32 m /\ held m /\ m <= fmin;
  tk_published : exists m, my_xmin r = u32 m /\ held m /\ m <= fmin
}.

Lemma held_le m fmin : held m ->
  fmin = fmax \/ (exists no subs, tx0 no = Some (fmin, subs) /\ (no = me \/ visible S0 no)) -> m <= fmin.
Proof. intros (_ & Hm & Hall) [->|(no & subs & Ht & Hv)]; [done|by eapply Hall]. Qed.

Lemma fmin_held st' fmin : describes lo me tx0 S0 st' fmin fmax -> held fmin.
Proof.
  intros Hd. split; [apply Hd|]. split; [apply Hd|]. intros no t subs Ht [->|Hv].
  - destruct (Z_lt_le_dec t fmax); [by apply (d_own _ _ _ _ _ _ _ Hd t subs)|]. pose proof (d_le _ _ _ _ _ _ _ Hd). lia.
  - destruct (decide (no = me)) as [->|Hne].
    + destruct (Z_lt_le_dec t fmax); [by apply (d_own _ _ _ _ _ _ _ Hd t subs)|]. pose proof (d_le _ _ _ _ _ _ _ Hd). lia.
    + destruct (Z_lt_le_dec t fmax); [|pose proof (d_le _ _ _ _ _ _ _ Hd); lia].
      by apply (d_tops _ _ _ _ _ _ _ Hd no t subs).
Qed.

Lemma publish_spec my st' fmin (Q : Taken -> Prop) :
  p_xmin my = p_xmin (proc S0 me) -> describes lo me tx0 S0 (data st') fmin fmax ->
  curcid (data st') = cid -> snapXactCompletionCount st' = xactCompletionCount S0 ->
  (forall r, taken_ok r fmin -> Q r) -> wp (publish my (u32 fmin) loc st') Q.
Proof.
  intros Hmy Hd Hcid Hcnt HQ. unfold publish. rewrite Hmy.
  unfold TransactionIdIsValid, InvalidTransactionId. pose proof (fmin_held _ _ Hd) as Hf.
  assert (Hm : exists m, (if negb (negb (p_xmin (proc S0 me) =? 0)) then u32 fmin else TransactionXmin loc) = u32 m /\
                         held m /\ m <= fmin).
  { destruct (Z.eqb_spec (p_xmin (proc S0 me)) 0) as [E|E]; cbn [negb]; [by exists fmin|].
    destruct (Hxmin E) as [(m & Em & Hh) _]. exists m. split; [done|]. split; [done|].
    apply (held_le m fmin Hh), Hd. }
  assert (Hm' : exists m, (if negb (negb (p_xmin (proc S0 me) =? 0)) then u32 fmin else p_xmin (proc S0 me)) = u32 m /\
                          held m /\ m <= fmin).
  { destruct (Z.eqb_spec (p_xmin (proc S0 me)) 0) as [E|E]; cbn [negb]; [by exists fmin|].
    destruct (Hxmin E) as [_ (m & Em & Hh)]. exists m. split; [done|]. split; [done|].
    apply (held_le m fmin Hh), Hd. }
  destruct Hm as (m & Em & Hh & Hle). rewrite Em.
  assert (Hp : TransactionIdPrecedesOrEquals (u32 m) (u32 fmin) = true).
  { unfold TransactionIdPrecedesOrEquals. destruct Hh as [Hmf _]. destruct Hf as [Hff _].
    rewrite (fits_normal lo m), (fits_normal lo fmin), i32_diff by (done || destruct Hmf, Hff; lia). cbn [negb orb]. lia. }
  assert_ok Hp. apply wp_Ok, HQ. split; try done. by exists m.
Qed.

Lemma GetSnapshotDataReuse_spec t (Q : option Taken -> nat -> Prop) :
  (t0 <= t)%nat ->
  (forall t', (t <= t')%nat -> Q None t') ->
  (forall r fmin t', (t <= t')%nat -> taken_ok r fmin -> Q (Some r) t') ->
  rwp (GetSnapshotDataReuse history cid loc s) t Q.
Proof.
  intros Ht Hnone Hsome. unfold GetSnapshotDataReuse.
  destruct (Z.eqb_spec (snapXactCompletionCount s) 0) as [|Hne]; [apply rwp_ret, Hnone; lia|].
  apply rwp_bind, rwp_look, wp_Ok.
  rewrite (r_completion _ _ _ _ _ (proj1 (history_later t Ht))).
  destruct (Z.eqb_spec (xactCompletionCount S0) (snapXactCompletionCount s)) as [E|]; cbn [negb];
    [|apply rwp_ret, Hnone; lia].
  destruct (Hreuse Hne (eq_sym E)) as [fmin Hd]. destruct (history_later (S t) ltac:(lia)) as (Hl & _ & Hp).
  apply rwp_bind, rwp_look. rewrite Hloc.
  rewrite (rd_me (history (S t)) me) by
    (apply (well_me lo (txs (S t))); [apply Hl|apply (g_attached _ _ _ (r_entry _ _ _ _ _ Hl me Hme))]).
  apply wp_Ok. rewrite Hp. apply rwp_bind, rwp_pure. rewrite (d_xmin _ _ _ _ _ _ _ Hd).
  apply publish_spec; try done.
  - by destruct Hd.
  - intros r Hr. apply rwp_ret. eapply Hsome; [|done]. lia.
Qed.

Lemma collected_init fmin :
  fits lo fmin -> (fmin = fmax /\ forall t subs, tx0 me = Some (t, subs) -> fmax <= t) \/
  (fmin < fmax /\ exists subs, tx0 me = Some (fmin, subs)) ->
  collected 0 {| c_xmin := u32 fmin; c_xip := []; c_subxip := []; c_overflowed := false |} fmin.
Proof.
  intros Hf Hcase.
  assert (Hneg : forall no t subs, counts no t subs -> off S0 no < 0 -> False).
  { intros no t subs (_ & _ & Ht & _) ?. destruct (s_attached _ _ (v_slots _ _ _ Hinv) no) as (_ & ? & _); [by rewrite Ht|lia]. }
  split; cbn; try done.
  - split; [done|]. destruct Hcase as [[-> _]|[? _]]; lia.
  - intros no t subs Hc Ho. by destruct (Hneg no t subs).
  - intros z Hz. by apply not_elem_of_nil in Hz.
  - intros _ no t subs x Hc Ho. by destruct (Hneg no t subs).
  - intros z Hz. by apply not_elem_of_nil in Hz.
  - destruct Hcase as [[-> _]|[_ [subs Ht]]]; [by left|]. right. exists me, subs. split; [done|by left].
  - intros t subs Ht ?. destruct Hcase as [[-> Hall]|[_ [subs' Ht']]]; [specialize (Hall t subs Ht); lia|].
    rewrite Ht in Ht'. simplify_eq. done.
Qed.

(** The first value of xmin: our own id if it comes before xmax. *)
Lemma own_xmin t (k : bool -> Rd Taken) (Q : Taken -> nat -> Prop) :
  (forall lower fmin,
     (if lower : bool then p_xid (proc S0 me) else u32 fmax) = u32 fmin ->
     collected 0 {| c_xmin := u32 fmin; c_xip := []; c_subxip := []; c_overflowed := false |} fmin ->
     rwp (k lower) t Q) ->
  rwp (lower ← (if TransactionIdIsNormal (p_xid (proc S0 me))
                then pure (NormalTransactionIdPrecedes (p_xid (proc S0 me)) (u32 fmax)) else mret false); k lower) t Q.
Proof.
  intros Hk. destruct fmax_ok as [Hmf _]. destruct (shows_me lo tx0 S0 Hinv me Hme) as (_ & _ & Hsh).
  apply rwp_bind. destruct (tx0 me) as [[t1 subs]|] eqn:Et.
  - destruct Hsh as (E & _). rewrite E in *.
    pose proof (proj1 (i_ids _ _ _ _ (v_ids _ _ _ Hinv) me t1 subs t1 Et ltac:(by left))) as Hf.
    rewrite (fits_normal lo t1), NormalTransactionIdPrecedes_eq by done. apply rwp_pure_ok.
    destruct (Z.ltb_spec t1 fmax).
    + apply (Hk true t1); [done|]. apply collected_init; [done|]. right. split; [done|by exists subs].
    + apply (Hk false fmax); [done|]. apply collected_init; [done|]. left. split; [done|].
      intros t2 s2 E2. rewrite Et in E2. by simplify_eq.
  - destruct Hsh as (E & _). rewrite E in *. apply rwp_ret. apply (Hk false fmax); [done|].
    apply collected_init; [done|]. left. split; [done|]. intros t2 s2 E2. congruence.
Qed.

Lemma collected_describes c fmin s' :
  collected (numProcs S0) c fmin ->
  xmin s' = c_xmin c -> xmax s' = u32 fmax -> xip s' = c_xip c -> subxip s' = c_subxip c ->
  suboverflowed s' = c_overflowed c -> takenDuringRecovery s' = false ->
  describes lo me tx0 S0 s' fmin fmax.
Proof.
  intros [K1 [K2 K2'] K3 K4 K5 K6 Ka K7 _ _] E1 E2 E3 E4 E5 E6. destruct fmax_ok as [Hmf Hm].
  assert (Hoff : forall no t subs, tx0 no = Some (t, subs) -> off S0 no < numProcs S0).
  { intros no t subs Ht. apply (s_attached _ _ (v_slots _ _ _ Hinv) no). by rewrite Ht. }
  split; rewrite ?E1, ?E2, ?E3, ?E4, ?E5, ?E6; try done.
  - split; [done|lia].
  - intros no t subs Hne Hv Ht Hlt. apply (K3 no t subs); [done|by eapply Hoff].
  - intros Ho no t subs x Hne Hv Ht Hx Hlt. apply (K5 Ho no t subs); [|by eapply Hoff|done].
    destruct (i_ids _ _ _ _ (v_ids _ _ _ Hinv) no t subs x Ht ltac:(by right)) as [_ ?].
    split; [done|]. split; [done|]. split; [done|lia].
Qed.

Lemma GetSnapshotData_spec :
  rwp (GetSnapshotData history cid loc s) t0 (fun r _ => exists fmin, taken_ok r fmin).
Proof.
  unfold GetSnapshotData. apply rwp_bind, GetSnapshotDataReuse_spec; [done| |intros r fmin t' _ Hr; apply rwp_ret; by exists fmin].
  intros t Ht. destruct fmax_ok as [Hmf Hm].
  apply rwp_bind, rwp_look, wp_Ok. rewrite (r_latest _ _ _ _ _ (proj1 (history_later t Ht))).
  destruct (history_later (S t) ltac:(lia)) as (Hl & _ & Hp).
  apply rwp_bind, rwp_look. rewrite Hloc.
  rewrite (rd_me (history (S t)) me) by
    (apply (well_me lo (txs (S t))); [apply Hl|apply (g_attached _ _ _ (r_entry _ _ _ _ _ Hl me Hme))]).
  apply wp_Ok. rewrite Hp. fold (off S0 me).
  destruct (slot_reads me (S (S t)) Hme ltac:(lia)) as [_ _ R3 _ _ _ _].
  destruct (history_later (S (S t)) ltac:(lia)) as (_ & _ & Hp'). rewrite Hp' in R3.
  apply rwp_bind, rwp_look. rewrite R3. apply wp_Ok. apply rwp_bind. rewrite Z.eqb_refl. apply rwp_pure_ok.
  apply rwp_bind, rwp_look, wp_Ok. rewrite (r_completion _ _ _ _ _ (proj1 (history_later (S (S (S t))) ltac:(lia)))).
  rewrite TransactionIdAdvance_full by apply (i_latest _ _ _ _ (v_ids _ _ _ Hinv)).
  rewrite (fits_normal lo) by done. apply rwp_bind, rwp_pure_ok.
  apply own_xmin. intros lower fmin0 E0 Hc0. rewrite E0.
  apply rwp_bind, rwp_look, wp_Ok. rewrite (r_nos _ _ _ _ _ (proj1 (history_later (S (S (S (S t)))) ltac:(lia)))).
  apply rwp_bind. eapply wp_mono; [eapply (collect_slots_spec _ 0); [lia| |lia|exact Hc0]|].
  { unfold numProcs, len. lia. }
  intros [c t'] [Hle [fmin Hc]]. split; [done|]. cbn [fst snd] in *. change (0 + _) with (numProcs S0) in Hc.
  apply rwp_pure. rewrite (k_xmin _ _ _ Hc). eapply publish_spec; try done.
  - eapply collected_describes; [exact Hc|..]; try done. cbn. by rewrite (k_xmin _ _ _ Hc).
  - intros r Hr. by exists fmin.
Qed.
End taking.
