(* ===== verification/ProcProps.v ===== *)
(** Processes that join and leave the proc array, executions of all its
    operations, and the properties of the snapshots taken along them. *)
From stdpp Require Import relations gmap.
From S2P Require Import Prelude.
From S2P Require Import Xid.
From S2P Require Import Subtrans.
From S2P Require Import Snapshot.
From S2P Require Import ProcArray.
From S2P Require Import ProcInv.
From S2P Require Import ProcSnap.
Open Scope string_scope.
Open Scope list_scope.
Open Scope Z_scope.

#[local] Set Default Proof Using "Type*".

(** * Slot by slot *)
Abbreviation owner st j := (getd 0 (pgprocnos st) j).

Record slot_ok (tx : Z -> Tx) (st : Shared) (j : Z) : Prop := {
  o_range : 0 <= owner st j < len (allProcs st);
  o_off : off st (owner st j) = j;
  o_xid : getd 0 (xids st) j = p_xid (proc st (owner st j));
  o_state : getd empty_cache_status (subxidStates st) j = p_subxidStatus (proc st (owner st j));
  o_flags : getd 0 (statusFlags st) j = p_statusFlags (proc st (owner st j));
  o_shows : shows (proc st (owner st j)) (tx (owner st j))
}.

Lemma slots_ok_slots tx st :
  slots_ok tx st <->
  lens_ok st /\ (forall j, 0 <= j < numProcs st -> slot_ok tx st j) /\
  (forall no, tx no <> None -> exists j, 0 <= j < numProcs st /\ owner st j = no).
Proof.
  split.
  - intros [Hl Hslot Hm Hsh Hat]. split; [done|]. split.
    + intros j Hj. destruct (Hslot j Hj) as [Ha Ho]. destruct (Hm _ Ha) as [M1 M2 M3]. rewrite Ho in *.
      split; try done; [apply Ha|by apply Hsh].
    + intros no Hno. destruct (Hat no Hno) as (_ & ? & ?). by exists (off st no).
  - intros (Hl & Hslot & Hat).
    assert (Ha : forall j, 0 <= j < numProcs st -> attached st (owner st j)).
    { intros j Hj. destruct (Hslot j Hj) as [? Ho _ _ _ _]. split; [done|]. by rewrite Ho. }
    assert (Hall : forall (P : Z -> Prop), (forall j, 0 <= j < numProcs st -> P (owner st j)) ->
                     forall no, attached st no -> P no).
    { intros P HP no (_ & Ho & <-). by apply HP. }
    split; [done| | | |].
    + intros j Hj. split; [by apply Ha|apply (Hslot j Hj)].
    + apply Hall. intros j Hj. destruct (Hslot j Hj) as [? Ho ? ? ? ?]. split; by rewrite Ho.
    + apply Hall. intros j Hj. apply (Hslot j Hj).
    + intros no Hno. destruct (Hat no Hno) as (j & Hj & <-). by apply Ha.
Qed.

(** An entry that is in the array is in one slot only. *)
Lemma owner_inj tx st i j :
  slots_ok tx st -> 0 <= i < numProcs st -> 0 <= j < numProcs st -> owner st i = owner st j -> i = j.
Proof.
  intros (_ & Hs & _)%slots_ok_slots Hi Hj E. rewrite <- (o_off _ _ _ (Hs i Hi)), <- (o_off _ _ _ (Hs j Hj)). by rewrite E.
Qed.

(** ** Dense arrays that shift *)
Lemma getd_insert_at {A} (d : A) i v l j :
  0 <= i <= len l -> 0 <= j ->
  getd d (insert_at i v l) j = if j <? i then getd d l j else if j =? i then v else getd d l (j - 1).
Proof.
  intros Hi Hj. unfold insert_at, getd, len in *.
  assert (El : length (take (Z.to_nat i) l) = Z.to_nat i) by (rewrite length_take; lia).
  z_case; [|z_case].
  - rewrite lookup_app_l, lookup_take_lt by lia. done.
  - subst. by rewrite list_lookup_middle by lia.
  - rewrite lookup_app_r, El by lia.
    replace (Z.to_nat j - Z.to_nat i)%nat with (S (Z.to_nat (j - 1) - Z.to_nat i)) by lia.
    rewrite lookup_cons, lookup_drop. do 2 f_equal. lia.
Qed.

Lemma getd_delete_at {A} (d : A) i l j :
  0 <= i < len l -> 0 <= j -> getd d (delete_at i l) j = if j <? i then getd d l j else getd d l (j + 1).
Proof.
  intros Hi Hj. unfold delete_at, getd, len in *.
  assert (El : length (take (Z.to_nat i) l) = Z.to_nat i) by (rewrite length_take; lia).
  z_case.
  - rewrite lookup_app_l, lookup_take_lt by lia. done.
  - rewrite lookup_app_r, El, lookup_drop by lia. do 2 f_equal. lia.
Qed.

Lemma len_insert_at {A} i (v : A) l : 0 <= i <= len l -> len (insert_at i v l) = len l + 1.
Proof. unfold insert_at, len. intros. rewrite length_app, length_take. cbn. rewrite length_drop. lia. Qed.

Lemma len_delete_at {A} i (l : list A) : 0 <= i < len l -> len (delete_at i l) = len l - 1.
Proof. unfold delete_at, len. intros. rewrite length_app, length_take, length_drop. lia. Qed.

Lemma delete_at_upd {A} i (v : A) l : 0 <= i < len l -> delete_at i (upd l i v) = delete_at i l.
Proof.
  intros Hi. unfold delete_at, upd. rewrite take_insert_ge by lia. rewrite drop_insert_lt by lia. done.
Qed.

(** * Joining and leaving *)
Definition with_procs (ps : list PGPROC) (st : Shared) : Shared :=
  mkShared ps (pgprocnos st) (xids st) (subxidStates st) (statusFlags st) (maxProcs st)
    (latestCompletedXid st) (nextXid st) (oldestXid st) (xactCompletionCount st).

Lemma set_off_getd p k : p_pgxactoff p = k -> set_off p k = p.
Proof. intros <-. by destruct p. Qed.

(** The loop gives the entries of the slots from [index] on their slots. *)
Lemma adjust_offsets_spec n index was st :
  0 <= index -> index + Z.of_nat n = numProcs st ->
  (forall j, index <= j < numProcs st -> 0 <= owner st j < len (allProcs st) /\ off st (owner st j) = j + was) ->
  exists ps, adjust_offsets n index was st = Ok (with_procs ps st) /\ len ps = len (allProcs st) /\
    (forall j, index <= j < numProcs st -> getd no_proc ps (owner st j) = set_off (proc st (owner st j)) j) /\
    (forall m, 0 <= m -> (forall j, index <= j < numProcs st -> owner st j <> m) -> getd no_proc ps m = proc st m) /\
    (forall m, 0 <= m -> exists k, getd no_proc ps m = set_off (proc st m) k).
Proof.
  revert index st. induction n as [|n IH]; intros index st Hi Hn Hall.
  { exists (allProcs st). split; [by destruct st|]. split; [done|]. split; [intros; lia|]. split; [done|].
    intros m _. exists (off st m). symmetry. by apply set_off_getd. }
  destruct (Hall index ltac:(lia)) as [Hr Ho]. cbn [adjust_offsets].
  rewrite (rd_ok 0) by (unfold numProcs in Hn; lia). step_ok.
  rewrite (rd_ok no_proc) by done. step_ok. fold (proc st (owner st index)). fold (off st (owner st index)).
  rewrite Ho, Z.eqb_refl. assert_ok Z.eqb_refl. store.
  set (ps1 := upd (allProcs st) (owner st index) (set_off (proc st (owner st index)) index)).
  change (mkShared ps1 _ _ _ _ _ _ _ _ _) with (with_procs ps1 st).
  assert (Hp1 : forall m, 0 <= m -> proc (with_procs ps1 st) m =
            if m =? owner st index then set_off (proc st m) index else proc st m).
  { intros m Hm. unfold proc at 1; cbn. unfold ps1. rewrite getd_upd by lia.
    by destruct (Z.eqb_spec m (owner st index)) as [->|]. }
  assert (Hne : forall j, index < j < numProcs st -> owner st j <> owner st index).
  { intros j Hj E. destruct (Hall j ltac:(lia)) as [_ Hoj]. rewrite E, Ho in Hoj. lia. }
  destruct (IH (index + 1) (with_procs ps1 st)) as (ps & E & Hlen & Hset & Hkeep & Hflags).
  - lia.
  - unfold numProcs in *; cbn. lia.
  - intros j Hj. change (numProcs (with_procs ps1 st)) with (numProcs st) in Hj.
    destruct (Hall j ltac:(lia)) as [Hrj Hoj]. cbn. unfold ps1 at 1. rewrite len_upd. split; [done|].
    unfold off. cbn. rewrite Hp1 by lia. destruct (Z.eqb_spec (owner st j) (owner st index)) as [E|]; [|done].
    by apply Hne in E; [|lia].
  - exists ps. split; [by rewrite E|]. split; [rewrite Hlen; cbn; unfold ps1; by rewrite len_upd|].
    change (numProcs (with_procs ps1 st)) with (numProcs st) in *. cbn [pgprocnos with_procs] in *. split; [|split].
    + intros j Hj. destruct (Hall j Hj) as [Hrj _]. destruct (Z.eq_dec j index) as [->|Hjne].
      * rewrite Hkeep; [|lia|intros k Hk; apply Hne; lia]. rewrite Hp1 by lia. by rewrite Z.eqb_refl.
      * rewrite Hset by lia. rewrite Hp1 by lia.
        destruct (Z.eqb_spec (owner st j) (owner st index)) as [E'|]; [|done]. by apply Hne in E'; [|lia].
    + intros m Hm Hno. rewrite Hkeep; [|done|intros j Hj; apply Hno; lia]. rewrite Hp1 by done.
      destruct (Z.eqb_spec m (owner st index)) as [->|]; [|done]. by destruct (Hno index ltac:(lia)).
    + intros m Hm. destruct (Hflags m Hm) as [k ->]. exists k. rewrite Hp1 by done. by destruct (m =? owner st index).
Qed.

Section join.
Context (lo : Z) (tx : Z -> Tx) (st : Shared) (Hinv : inv lo tx st).
Context (no : Z) (Hno : 0 <= no < len (allProcs st)) (Hnew : ~ attached st no).

Lemma slots_join_facts :
  lens_ok st /\ (forall j, 0 <= j < numProcs st -> slot_ok tx st j) /\
  (forall no, tx no <> None -> exists j, 0 <= j < numProcs st /\ owner st j = no).
Proof. apply slots_ok_slots, Hinv. Qed.

Lemma owner_new j : 0 <= j < numProcs st -> owner st j <> no.
Proof.
  intros Hj E. apply Hnew. rewrite <- E. apply (s_slot _ _ (v_slots _ _ _ Hinv)), Hj.
Qed.

Lemma add_position_spec n i :
  0 <= i -> i + Z.of_nat n = numProcs st ->
  exists index, add_position n i no st = Ok index /\ i <= index <= numProcs st /\
    (index < numProcs st -> no < owner st index).
Proof.
  destruct slots_join_facts as (_ & Hs & _).
  revert i. induction n as [|n IH]; intros i Hi Hn; cbn [add_position].
  { exists i. split; [done|]. lia. }
  destruct (Hs i ltac:(lia)) as [Hr Ho _ _ _ _].
  rewrite (rd_ok 0) by (unfold numProcs in Hn; lia). step_ok. rewrite (rd_ok no_proc) by done. step_ok.
  fold (proc st (owner st i)). fold (off st (owner st i)). rewrite Ho, Z.eqb_refl. assert_ok Z.eqb_refl.
  destruct (Z.ltb_spec no (owner st i)); [exists i; split; [done|lia]|].
  destruct (IH (i + 1)) as (index & E & ? & ?); [lia|lia|]. exists index. split; [done|]. split; [lia|done].
Qed.

(** The arrays with room made at [index]. *)
Definition joined (index : Z) : Shared :=
  mkShared (upd (allProcs st) no (set_off (proc st no) index)) (insert_at index no (pgprocnos st))
    (insert_at index (p_xid (proc st no)) (xids st)) (insert_at index (p_subxidStatus (proc st no)) (subxidStates st))
    (insert_at index (p_statusFlags (proc st no)) (statusFlags st)) (maxProcs st)
    (latestCompletedXid st) (nextXid st) (oldestXid st) (xactCompletionCount st).

Section at_index.
Context (index : Z) (Hindex : 0 <= index <= numProcs st).

Lemma proc_joined m : 0 <= m -> proc (joined index) m = if m =? no then set_off (proc st no) index else proc st m.
Proof. intros Hm. unfold proc at 1; cbn. rewrite getd_upd by lia. by destruct (m =? no). Qed.

Lemma num_joined : numProcs (joined index) = numProcs st + 1.
Proof. unfold numProcs at 1; cbn. by rewrite len_insert_at. Qed.

Lemma owner_joined j : 0 <= j ->
  owner (joined index) j = if j <? index then owner st j else if j =? index then no else owner st (j - 1).
Proof. intros Hj. cbn. by rewrite getd_insert_at. Qed.

Lemma lens_joined : numProcs st < maxProcs st -> lens_ok (joined index).
Proof.
  intros Hroom. destruct slots_join_facts as ([L1 L2 L3 L4] & _).
  split; rewrite ?num_joined; cbn; rewrite ?len_insert_at; lia.
Qed.

Lemma owner_index : owner (joined index) index = no.
Proof. rewrite owner_joined by lia. destruct (Z.ltb_spec index index); [lia|]. by rewrite Z.eqb_refl. Qed.

(** Every other slot is a slot of before, possibly shifted. *)
Definition shifted (j k : Z) : Prop := j < index /\ k = j \/ index < j /\ k = j - 1.

Lemma getd_shifted {A} (d : A) v l j k :
  0 <= index <= len l -> 0 <= j -> shifted j k -> getd d (insert_at index v l) j = getd d l k.
Proof.
  intros Hl Hj Hs. rewrite getd_insert_at by done.
  destruct Hs as [[? ->]|[? ->]]; (destruct (Z.ltb_spec j index); [try lia|try lia]); [done|].
  destruct (Z.eqb_spec j index); [lia|done].
Qed.

Lemma shifted_ex j : 0 <= j < numProcs (joined index) -> j <> index -> exists k, 0 <= k < numProcs st /\ shifted j k.
Proof.
  rewrite num_joined. unfold shifted. intros Hj Hne. destruct (Z_lt_le_dec j index); [exists j|exists (j - 1)]; lia.
Qed.

(** The offsets of the later slots are adjusted. *)
Context (ps : list PGPROC) (Hlen : len ps = len (allProcs st)).
Context (Hset : forall j, index + 1 <= j < numProcs (joined index) ->
     getd no_proc ps (owner (joined index) j) = set_off (proc (joined index) (owner (joined index) j)) j).
Context (Hkeep : forall m, 0 <= m -> (forall j, index + 1 <= j < numProcs (joined index) -> owner (joined index) j <> m) ->
     getd no_proc ps m = proc (joined index) m).

Lemma proc_shifted j k :
  0 <= j < numProcs (joined index) -> 0 <= k < numProcs st -> shifted j k ->
  owner (joined index) j = owner st k /\ getd no_proc ps (owner st k) = set_off (proc st (owner st k)) j.
Proof.
  intros Hj Hk Hs. destruct slots_join_facts as (_ & Hslots & _). destruct (Hslots k Hk) as [Hr Ho _ _ _ _].
  assert (E : owner (joined index) j = owner st k) by (apply getd_shifted; (done || lia)). split; [done|].
  assert (Ep : proc (joined index) (owner st k) = proc st (owner st k)).
  { rewrite proc_joined by lia. destruct (Z.eqb_spec (owner st k) no) as [E'|_]; [|done]. by apply owner_new in E'. }
  destruct Hs as [[? ->]|[? ->]].
  - rewrite Hkeep, Ep; [by rewrite set_off_getd|lia|]. intros i Hi Ei.
    destruct (shifted_ex i) as (k & Hk' & Hs'); [lia|lia|].
    assert (Ei' : owner (joined index) i = owner st k) by (apply getd_shifted; (done || lia)).
    rewrite Ei' in Ei. apply (owner_inj tx) in Ei; [|apply Hinv|done|done]. unfold shifted in Hs'. lia.
  - rewrite <- E, Hset, E, Ep by lia. done.
Qed.

Lemma proc_new : getd no_proc ps no = set_off (proc st no) index.
Proof.
  rewrite Hkeep, proc_joined, Z.eqb_refl; [done|lia|lia|]. intros j Hj.
  destruct (shifted_ex j) as (k & Hk & Hs); [lia|lia|]. destruct (proc_shifted j k) as [-> _]; [lia|done|done|].
  by apply owner_new.
Qed.

Lemma slots_joined t :
  numProcs st < maxProcs st -> shows (proc st no) t ->
  slots_ok (set_tx tx no t) (with_procs ps (joined index)).
Proof.
  intros Hroom Hsh. destruct slots_join_facts as ([L1 L2 L3 L4] & Hs & Hat).
  apply slots_ok_slots. split; [destruct (lens_joined Hroom); by split|].
  change (numProcs (with_procs ps (joined index))) with (numProcs (joined index)).
  change (pgprocnos (with_procs ps (joined index))) with (pgprocnos (joined index)). split.
  - intros j Hj. destruct (Z.eq_dec j index) as [->|Hne].
    + pose proof owner_index as E. pose proof proc_new as Hp.
      split; unfold off, proc; cbn [allProcs pgprocnos with_procs]; rewrite ?E, ?Hp, ?Hlen; try done.
      4: by rewrite set_tx_eq.
      all: cbn; rewrite getd_insert_at by lia; rewrite Z.ltb_irrefl; by rewrite Z.eqb_refl.
    + destruct (shifted_ex j Hj Hne) as (k & Hk & Hsh'). destruct (proc_shifted j k Hj Hk Hsh') as [E Hp].
      destruct (Hs k Hk) as [Hr Ho Hx Hst Hfl Hshow].
      split; unfold off, proc; cbn [allProcs pgprocnos with_procs]; rewrite ?E, ?Hp, ?Hlen; try done.
      4: rewrite set_tx_ne by (by apply owner_new); done.
      all: cbn; rewrite (getd_shifted _ _ _ j k) by (done || lia); done.
  - intros m Hm. destruct (Z.eq_dec m no) as [->|Hne]; [exists index; rewrite num_joined, owner_index; split; [lia|done]|].
    rewrite set_tx_ne in Hm by done. destruct (Hat m Hm) as (k & Hk & <-).
    exists (if k <? index then k else k + 1). rewrite num_joined. split; [destruct (k <? index); lia|].
    apply getd_shifted; [done|destruct (k <? index); lia|]. unfold shifted. destruct (Z.ltb_spec k index); lia.
Qed.
End at_index.

Lemma ProcArrayAdd_slots t :
  numProcs st < maxProcs st -> shows (proc st no) t ->
  exists index ps, ProcArrayAdd no st = Ok (with_procs ps (joined index)) /\ 0 <= index <= numProcs st /\
    slots_ok (set_tx tx no t) (with_procs ps (joined index)) /\
    (forall m, 0 <= m -> exists k, getd no_proc ps m = set_off (proc st m) k).
Proof.
  intros Hroom Hsh. destruct (add_position_spec (length (pgprocnos st)) 0) as (index & E & Hi & _); [lia|done|].
  unfold ProcArrayAdd. destruct (Z.leb_spec (maxProcs st) (numProcs st)); [lia|]. rewrite E. step_ok.
  rewrite (rd_ok no_proc) by done. step_ok. fold (proc st no). store. fold (joined index).
  destruct slots_join_facts as (_ & Hs & _). rewrite num_joined by done.
  destruct (adjust_offsets_spec (Z.to_nat (numProcs st + 1 - (index + 1))) (index + 1) (-1) (joined index))
    as (ps & Ea & Hlen & Hset & Hkeep & Hflags).
  - lia.
  - rewrite num_joined by done. lia.
  - intros j Hj. destruct (shifted_ex index ltac:(lia) j) as (k & Hk & Hshift); [lia|lia|].
    assert (Eo : owner (joined index) j = owner st k) by (apply (getd_shifted index); (done || lia)).
    rewrite Eo. destruct (Hs k Hk) as [Hr Ho _ _ _ _]. cbn [allProcs joined]. rewrite len_upd. split; [done|].
    unfold off. rewrite proc_joined by (done || lia).
    destruct (Z.eqb_spec (owner st k) no) as [E'|_]; [by apply owner_new in E'|].
    fold (off st (owner st k)). rewrite Ho. destruct Hshift; lia.
  - exists index, ps. split; [done|]. split; [lia|].
    split; [apply slots_joined; try done; rewrite Hlen; cbn; by rewrite len_upd|].
    intros m Hm. destruct (Hflags m Hm) as [k ->]. exists k. rewrite proc_joined by done.
    by destruct (Z.eqb_spec m no) as [->|].
Qed.

(** The new entry runs nothing, or it is that of a prepared transaction and
    shows what its process shows. *)
Lemma ids_join t : t = None \/ (exists n, tx n = t) ->
  ids_ok lo (set_tx tx no t) (latestCompletedXid st) (nextXid st).
Proof.
  intros Ht. assert (Hold : tx no = None).
  { destruct (tx no) eqn:E; [|done]. destruct Hnew. apply (s_attached _ _ (v_slots _ _ _ Hinv)). by rewrite E. }
  destruct (v_ids _ _ _ Hinv) as [Hids Hn Hl Ho Hc]. split; try done.
  - intros m top subs x E Hx. unfold set_tx in E. destruct (m =? no); [|by apply (Hids m top subs)].
    destruct Ht as [->|[n Hn']]; [done|]. apply (Hids n top subs); [by rewrite Hn'|done].
  - intros x Hx Hr. apply running_keep; [by apply Hc|]. by rewrite Hold.
Qed.

Lemma inv_joined ps index t :
  slots_ok (set_tx tx no t) (with_procs ps (joined index)) -> t = None \/ (exists n, tx n = t) ->
  inv lo (set_tx tx no t) (with_procs ps (joined index)).
Proof. intros Hs Ht. split; [done|by apply ids_join|apply Hinv|apply Hinv]. Qed.
End join.

Section leave.
Context (lo : Z) (tx : Z -> Tx) (st : Shared) (Hinv : inv lo tx st) (no : Z) (Hno : attached st no).
Abbreviation myoff := (off st no).

(** The arrays without the slot, with counters [l] and [c]. *)
Definition left (l c : Z) : Shared :=
  mkShared (allProcs st) (delete_at myoff (pgprocnos st)) (delete_at myoff (xids st))
    (delete_at myoff (subxidStates st)) (delete_at myoff (statusFlags st)) (maxProcs st)
    l (nextXid st) (oldestXid st) c.

Definition before (j : Z) : Z := if j <? myoff then j else j + 1.

Lemma leave_facts :
  lens_ok st /\ (forall j, 0 <= j < numProcs st -> slot_ok tx st j) /\
  (forall no, tx no <> None -> exists j, 0 <= j < numProcs st /\ owner st j = no).
Proof. apply slots_ok_slots, Hinv. Qed.

Lemma num_left l c : numProcs (left l c) = numProcs st - 1.
Proof. unfold numProcs at 1; cbn. rewrite len_delete_at by apply Hno. done. Qed.

Lemma getd_left {A} (d : A) l j : len l = numProcs st -> 0 <= j -> getd d (delete_at myoff l) j = getd d l (before j).
Proof.
  intros Hl Hj. destruct Hno as (_ & Ho & _). rewrite getd_delete_at by lia. unfold before. by destruct (j <? myoff).
Qed.

Lemma before_range j : 0 <= j < numProcs st - 1 -> 0 <= before j < numProcs st /\ before j <> myoff.
Proof. intros. unfold before. destruct (Z.ltb_spec j myoff); lia. Qed.

Lemma slots_left l c ps :
  len ps = len (allProcs st) ->
  (forall j, myoff <= j < numProcs (left l c) ->
     getd no_proc ps (owner (left l c) j) = set_off (proc st (owner (left l c) j)) j) ->
  (forall m, 0 <= m -> (forall j, myoff <= j < numProcs (left l c) -> owner (left l c) j <> m) ->
     getd no_proc ps m = proc st m) ->
  slots_ok (set_tx tx no None) (with_procs ps (left l c)).
Proof.
  intros Hlen Hset Hkeep. destruct leave_facts as ([L1 L2 L3 L4] & Hs & Hat). pose proof Hno as (_ & Hr & Hown).
  rewrite num_left in *.
  assert (Eo : forall j, 0 <= j -> owner (left l c) j = owner st (before j)) by (intros j Hj; apply (getd_left 0 (pgprocnos st)); done).
  assert (Hp : forall j, 0 <= j < numProcs st - 1 ->
            getd no_proc ps (owner st (before j)) = set_off (proc st (owner st (before j))) j).
  { intros j Hj. destruct (before_range j Hj) as [Hb Hbne]. destruct (Hs _ Hb) as [Hrb Hob _ _ _ _].
    destruct (Z_lt_le_dec j myoff) as [Hlt|Hge]; [|rewrite <- Eo by lia; apply Hset; lia].
    rewrite Hkeep; [|lia|].
    - symmetry. apply set_off_getd. unfold off in Hob. rewrite Hob. unfold before. by destruct (Z.ltb_spec j myoff); [|lia].
    - intros i Hi E. rewrite Eo in E by lia. apply (owner_inj tx) in E; [|apply Hinv|apply before_range; lia|done].
      unfold before in E. destruct (Z.ltb_spec i myoff), (Z.ltb_spec j myoff); lia. }
  apply slots_ok_slots.
  change (numProcs (with_procs ps (left l c))) with (numProcs (left l c)). rewrite num_left.
  change (pgprocnos (with_procs ps (left l c))) with (pgprocnos (left l c)). split; [|split].
  - split; change (numProcs (with_procs ps (left l c))) with (numProcs (left l c)); rewrite ?num_left; cbn;
      rewrite ?len_delete_at; lia.
  - intros j Hj. destruct (before_range j Hj) as [Hb Hbne]. destruct (Hs _ Hb) as [Hrb Hob Hx Hst Hfl Hsh].
    split; unfold off, proc; cbn [allProcs pgprocnos with_procs]; rewrite ?Eo, ?Hp, ?Hlen by lia; try done.
    4: rewrite set_tx_ne; [done|]; intros E; rewrite E in Hob; congruence.
    all: cbn; rewrite getd_left by (done || lia); done.
  - intros m Hm. unfold set_tx in Hm. destruct (Z.eqb_spec m no) as [|Hne]; [done|].
    destruct (Hat m Hm) as (k & Hk & <-). assert (k <> myoff) by (by intros ->).
    exists (if k <? myoff then k else k - 1). destruct (Z.ltb_spec k myoff); (split; [lia|]); rewrite Eo by lia; unfold before.
    + by destruct (Z.ltb_spec k myoff); [|lia].
    + destruct (Z.ltb_spec (k - 1) myoff); [lia|]. by replace (k - 1 + 1) with k by lia.
Qed.

Lemma adjust_left l c :
  exists ps, adjust_offsets (Z.to_nat (numProcs (left l c) - myoff)) myoff 1 (left l c) = Ok (with_procs ps (left l c)) /\
    slots_ok (set_tx tx no None) (with_procs ps (left l c)) /\
    (forall m, 0 <= m -> exists k, getd no_proc ps m = set_off (proc st m) k).
Proof.
  destruct leave_facts as (_ & Hs & _). pose proof Hno as (_ & Hr & _).
  destruct (adjust_offsets_spec (Z.to_nat (numProcs (left l c) - myoff)) myoff 1 (left l c)) as (ps & E & Hlen & Hset & Hkeep & Hflags).
  - lia.
  - rewrite num_left. lia.
  - rewrite num_left. intros j Hj. change (owner (left l c) j) with (getd 0 (delete_at myoff (pgprocnos st)) j).
    rewrite getd_left by (done || lia). unfold before. destruct (Z.ltb_spec j myoff); [lia|].
    destruct (Hs (j + 1) ltac:(lia)) as [? Ho _ _ _ _]. done.
  - exists ps. split; [done|]. split; [by apply slots_left|done].
Qed.

Lemma rd_own_slot : rd (pgprocnos st) myoff = Ok no.
Proof. rewrite (rd_ok 0) by apply Hno. f_equal. apply Hno. Qed.

(** A process without a transaction leaves. *)
Lemma ProcArrayRemove_idle :
  tx no = None ->
  exists ps, let st' := with_procs ps (left (latestCompletedXid st) (xactCompletionCount st)) in
    ProcArrayRemove no InvalidTransactionId st = Ok st' /\ inv lo (set_tx tx no None) st' /\
    (forall m, 0 <= m -> exists k, getd no_proc ps m = set_off (proc st m) k).
Proof.
  intros Ht. pose proof (well_me lo tx st Hinv no Hno) as Hw. destruct (bounds_me _ _ Hw) as (B1 & B2 & B3 & B4).
  pose proof (shows_me lo tx st Hinv no Hno) as (C1 & _ & C3). rewrite Ht in C3. destruct C3 as (C3 & C4 & C5).
  destruct (adjust_left (latestCompletedXid st) (xactCompletionCount st)) as (ps & Ea & Hslots & Hflags).
  exists ps. split; [|split; [|done]].
  - unfold ProcArrayRemove. rewrite rd_me by done. step_ok. fold (off st no).
    pose proof Hno as (_ & Hr & _). destruct (Z.leb_spec 0 myoff); [|lia]. destruct (Z.ltb_spec myoff (numProcs st)); [|lia].
    assert_ok Z.eqb_refl. rewrite rd_own_slot. step_ok. rewrite rd_me by done. step_ok. fold (off st no).
    assert_ok (Z.eqb_refl (off st no)). rewrite rd_xid_me by done. step_ok. rewrite C3.
    change (TransactionIdIsValid InvalidTransactionId) with false. cbn iota. assert_ok Z.eqb_refl.
    rewrite rd_xid_me by done. step_ok. rewrite C3. assert_ok Z.eqb_refl. rewrite rd_state_me by done. step_ok. rewrite C1, C4, C5. assert_ok Z.eqb_refl.
    store. fields. rewrite delete_at_upd by done. exact Ea.
  - split; [done| |apply Hinv|apply Hinv].
    destruct (v_ids _ _ _ Hinv) as [Hids Hn Hl Ho Hc]. split; try done.
    + intros m t subs x E Hx. unfold set_tx in E. destruct (m =? no); [done|by apply (Hids m t subs)].
    + intros x Hx Hxr. apply running_keep; [by apply Hc|]. by rewrite Ht.
Qed.

(** The entry of a prepared transaction leaves when that ends. *)
Lemma ProcArrayRemove_ended l :
  tx no <> None -> fits lo l -> l < nextXid st -> (forall x, in_tx (tx no) x -> x <= l) ->
  exists ps, let st' := with_procs ps (left (Z.max (latestCompletedXid st) l) (u64 (xactCompletionCount st + 1))) in
    ProcArrayRemove no (u32 l) st = Ok st' /\ inv lo (set_tx tx no None) st'.
Proof.
  intros Ht Hl Hln Hall. pose proof (well_me lo tx st Hinv no Hno) as Hw. destruct (bounds_me _ _ Hw) as (B1 & B2 & B3 & B4).
  pose proof (shows_me lo tx st Hinv no Hno) as (_ & _ & C3). destruct (tx no) as [[t subs]|] eqn:Et; [|done].
  destruct C3 as (C3 & _).
  pose proof (proj1 (i_ids _ _ _ _ (v_ids _ _ _ Hinv) no t subs t Et ltac:(by left))) as Hf.
  destruct (adjust_left (Z.max (latestCompletedXid st) l) (u64 (xactCompletionCount st + 1))) as (ps & Ea & Hslots & _).
  exists ps. split.
  - unfold ProcArrayRemove. rewrite rd_me by done. step_ok. fold (off st no).
    pose proof Hno as (_ & Hr & _). destruct (Z.leb_spec 0 myoff); [|lia]. destruct (Z.ltb_spec myoff (numProcs st)); [|lia].
    assert_ok Z.eqb_refl. rewrite rd_own_slot. step_ok. rewrite rd_me by done. step_ok. fold (off st no).
    assert_ok (Z.eqb_refl (off st no)). rewrite rd_xid_me by done. step_ok. rewrite C3, (fits_valid lo l) by done.
    assert_ok (fits_valid lo t Hf). rewrite (MaintainLatestCompletedXid_eq lo) by (try done; apply Hinv). step_ok.
    store. store. fields. rewrite (rd_ok 0) by (rewrite len_upd; done). step_ok. rewrite getd_upd_eq by done.
    assert_ok Z.eqb_refl. rewrite (rd_ok empty_cache_status) by (rewrite len_upd; done). step_ok.
    rewrite getd_upd_eq by done. assert_ok Z.eqb_refl. store. fields. rewrite !delete_at_upd by done. exact Ea.
  - split; [done| |apply Hinv|apply Hinv]. apply (ids_none lo tx st Hinv no Hno); [done|done|done|]. by rewrite Et.
Qed.
End leave.

(** * All operations *)

(** Who changes the status flags of a process. *)
Inductive flag_change :=
| InVacuum (is_wraparound : bool)
| InSafeIC
| InLogicalDecoding (inTransaction : bool)
| SlotReleased.

Definition change_flags (no : Z) (f : flag_change) : Shared -> res Shared :=
  match f with
  | InVacuum w => vacuum_rel_flags no w
  | InSafeIC => set_indexsafe_procflags no
  | InLogicalDecoding t => StartupDecodingContext_flags no t
  | SlotReleased => ReplicationSlotRelease_flags no
  end.

(** What processes do to the array; ids are the 64-bit ones. *)
Inductive op :=
| Assign (no : Z) (isSubXact : bool)
| SetXmin (no x : Z)
| EndTransaction (no l : Z) (group : option (list (Z * Z)))
| EndIdle (no : Z)
| AbortSub (no a : Z) (children : list Z) (l : Z)
| FillPrepared (no gxact : Z) (children : list Z)
| AddPrepared (no gxact : Z)
| ClearPrepared (no : Z)
| SetFlags (no : Z) (f : flag_change)
| Init (no : Z) (isAutoVacuumWorker : bool)
| Join (no : Z)
| Leave (no : Z)
| FinishPrepared (gxact l : Z).

Definition low_halves (g : list (Z * Z)) : list (Z * Z) := map (fun e => (e.1, u32 e.2)) g.

Definition run_op (extend : Z -> res unit) (o : op) (st : Shared) : res Shared :=
  match o with
  | Assign no isSubXact => '(_, st) ← assign_xid_to extend no isSubXact st; Ok st
  | SetXmin no x =>
      p ← rd (allProcs st) no;
      set_proc no (mkProc (p_xid p) x (p_subxidStatus p) (p_subxids p) (p_statusFlags p) (p_pgxactoff p)) st
  | EndTransaction no l group => ProcArrayEndTransaction no (u32 l) (option_map low_halves group) st
  | EndIdle no => ProcArrayEndTransaction no InvalidTransactionId None st
  | AbortSub no a children l => XidCacheRemoveRunningXids no (u32 a) (map u32 children) (u32 l) st
  | FillPrepared no gxact children =>
      p ← rd (allProcs st) no;
      fill_prepared gxact (p_xid p) (map u32 children) st
  | AddPrepared no gxact => ProcArrayAdd gxact st
  | ClearPrepared no => ProcArrayClearTransaction no st
  | SetFlags no f => change_flags no f st
  | Init no w => InitProcess no w st
  | Join no => ProcArrayAdd no st
  | Leave no => ProcArrayRemove no InvalidTransactionId st
  | FinishPrepared gxact l => ProcArrayRemove gxact (u32 l) st
  end.

(** [l] is the latest id of the transaction of [no]. *)
Definition latest_of (tx : Z -> Tx) (st : Shared) (no l : Z) : Prop :=
  attached st no /\ in_tx (tx no) l /\ forall x, in_tx (tx no) x -> x <= l.

(** Vacuum and index builds set their flags before they have an id, decoding
    outside a transaction; a slot that is released in a transaction was not
    marked. *)
Definition flags_ok (tx : Z -> Tx) (st : Shared) (no : Z) (f : flag_change) : Prop :=
  match f with
  | InVacuum _ => tx no = None
  | InSafeIC => tx no = None /\ p_xmin (proc st no) = InvalidTransactionId
  | InLogicalDecoding t => t = false -> tx no = None
  | SlotReleased => tx no = None \/ Z.land (p_statusFlags (proc st no)) PROC_IN_LOGICAL_DECODING = 0
  end.

(** When an operation is in order.  PREPARE fills a free entry with the id and
    the committed children of the transaction ([FillPrepared]), puts it into the
    array, and only then clears the entry of its own process. *)
Definition op_ok (lo : Z) (tx : Z -> Tx) (st : Shared) (o : op) : Prop :=
  match o with
  | Assign no isSubXact => attached st no /\ has_tx (tx no) = isSubXact /\ fits lo (fnext (nextXid st))
  | SetXmin no x => attached st no
  | EndTransaction no l None => latest_of tx st no l
  | EndTransaction no l (Some g) =>
      (no, l) ∈ g /\ NoDup (map fst g) /\ Forall (fun e => latest_of tx st e.1 e.2) g
  | EndIdle no => attached st no /\ tx no = None
  | AbortSub no a children l =>
      attached st no /\ (exists t subs, tx no = Some (t, subs) /\ a :: children ⊆ subs) /\
      l ∈ a :: children /\ forall x, x ∈ a :: children -> x <= l
  | FillPrepared no gxact children =>
      attached st no /\ 0 <= gxact < len (allProcs st) /\ ~ attached st gxact /\
      exists t subs, tx no = Some (t, subs) /\ NoDup children /\ forall x, x ∈ children <-> x ∈ subs
  | AddPrepared no gxact =>
      0 <= gxact < len (allProcs st) /\ ~ attached st gxact /\ numProcs st < maxProcs st /\
      tx no <> None /\ visible st no /\ shows (proc st gxact) (tx no)
  | ClearPrepared no =>
      attached st no /\ Z.land (p_statusFlags (proc st no)) PROC_VACUUM_STATE_MASK = 0 /\
      forall x, in_tx (tx no) x -> exists n, n <> no /\ in_tx (tx n) x
  | SetFlags no f => attached st no /\ flags_ok tx st no f
  | Init no _ => 0 <= no < len (allProcs st) /\ ~ attached st no
  | Join no =>
      0 <= no < len (allProcs st) /\ ~ attached st no /\ numProcs st < maxProcs st /\ shows (proc st no) None
  | Leave no => attached st no /\ tx no = None
  | FinishPrepared gxact l => latest_of tx st gxact l
  end.

Definition clear_all (tx : Z -> Tx) (g : list (Z * Z)) : Z -> Tx := fold_left (fun tx e => set_tx tx e.1 None) g tx.

(** What runs after it. *)
Definition op_tx (tx : Z -> Tx) (st : Shared) (o : op) : Z -> Tx :=
  match o with
  | Assign no _ => set_tx tx no (tx_assigned (nextXid st) (tx no))
  | SetXmin _ _ | EndIdle _ | FillPrepared _ _ _ | SetFlags _ _ | Init _ _ => tx
  | EndTransaction no _ None => set_tx tx no None
  | EndTransaction _ _ (Some g) => clear_all tx g
  | AbortSub no a children _ =>
      match tx no with Some (t, subs) => set_tx tx no (Some (t, minus subs (rev children ++ [a]))) | None => tx end
  | AddPrepared no gxact => set_tx tx gxact (tx no)
  | ClearPrepared no | Join no | Leave no | FinishPrepared no _ => set_tx tx no None
  end.

(** How many completions it counts. *)
Definition completions (o : op) : Z :=
  match o with
  | EndTransaction _ _ None | AbortSub _ _ _ _ | ClearPrepared _ | FinishPrepared _ _ => 1
  | EndTransaction _ _ (Some g) => len g
  | _ => 0
  end.

Lemma latest_of_facts lo tx st no l :
  inv lo tx st -> latest_of tx st no l -> tx no <> None /\ fits lo l /\ l < nextXid st.
Proof.
  intros Hinv (Hno & Hl & _). split; [by intros E; rewrite E in Hl|]. by apply (ids_me lo tx st Hinv no Hno).
Qed.

Lemma end_attached st no q l n :
  attached st no -> p_pgxactoff q = off st no ->
  attached (count_completion (set_latest l (put no q st))) n <-> attached st n.
Proof. intros Hno Hq. exact (attached_put st no Hno q Hq n). Qed.

(** [n] more completions have been counted, and nextXid has not gone back. *)
Definition counters (st st' : Shared) (n : Z) : Prop :=
  u64 (xactCompletionCount st') = u64 (xactCompletionCount st + n) /\ nextXid st <= nextXid st'.

Lemma counters_trans st1 st2 st3 n m : counters st1 st2 n -> counters st2 st3 m -> counters st1 st3 (n + m).
Proof.
  unfold counters, u64. intros [H1 ?] [H2 ?]. split; [|lia].
  rewrite H2, <- Zplus_mod_idemp_l, H1, Zplus_mod_idemp_l. f_equal. lia.
Qed.

Lemma counters_refl st : counters st st 0.
Proof. split; [f_equal; lia|done]. Qed.

(** One transaction ends. *)
Lemma end_spec lo tx st no l :
  inv lo tx st -> latest_of tx st no l ->
  exists st', ProcArrayEndTransactionInternal no (u32 l) st = Ok st' /\ inv lo (set_tx tx no None) st' /\
    counters st st' 1 /\ (forall n, attached st' n <-> attached st n).
Proof.
  intros Hinv Hlat. destruct (latest_of_facts _ _ _ _ _ Hinv Hlat) as (Ht & Hf & Hn). destruct Hlat as (Hno & _ & Hall).
  eexists. split; [by apply (ProcArrayEndTransactionInternal_eq lo tx st Hinv no Hno)|].
  split; [by apply inv_ended|]. split; [split; [apply Z.mod_mod; lia|done]|]. intros n. by apply end_attached.
Qed.

(** One member of a group after the other. *)
Lemma group_spec lo tx st g :
  inv lo tx st -> NoDup (map fst g) -> Forall (fun e => latest_of tx st e.1 e.2) g ->
  exists st', ProcArrayGroupClearXid (low_halves g) st = Ok st' /\ inv lo (clear_all tx g) st' /\
              counters st st' (len g).
Proof.
  revert tx st. induction g as [|[no l] g IH]; intros tx st Hinv Hnd Hall.
  { exists st. split; [done|]. split; [done|apply counters_refl]. }
  apply Forall_cons in Hall as [Hl Hall]. cbn in Hnd. apply NoDup_cons in Hnd as [Hnin Hnd].
  destruct (end_spec lo tx st no l Hinv Hl) as (st1 & E1 & Hinv1 & Hc1 & Ha1).
  destruct (IH (set_tx tx no None) st1 Hinv1 Hnd) as (st' & E & Hinv' & Hc).
  - apply Forall_forall. intros [n m] Hin. rewrite Forall_forall in Hall. destruct (Hall _ Hin) as (H1 & H2 & H3).
    assert (n <> no). { intros ->. apply Hnin, list_elem_of_fmap. by exists (no, m). }
    unfold latest_of; cbn [fst snd]. rewrite set_tx_ne by done. split; [by apply Ha1|done].
  - exists st'. cbn [low_halves map ProcArrayGroupClearXid fst snd]. rewrite E1. step_ok.
    split; [exact E|]. split; [done|]. rewrite len_cons. by eapply counters_trans.
Qed.

Section preserve.
Context (lo : Z) (tx : Z -> Tx) (st : Shared) (Hinv : inv lo tx st) (extend : Z -> res unit).
Context (Hextend : forall z, extend z = Ok tt).

Definition good (o : op) : Prop :=
  exists st', run_op extend o st = Ok st' /\ inv lo (op_tx tx st o) st' /\
              counters st st' (completions o).

Ltac same_count := split; [cbn [completions]; rewrite ?Z.add_0_r; done|done].
Ltac one_count := split; [apply Z.mod_mod; lia|done].

Lemma p_xid_valid no : attached st no -> tx no <> None -> TransactionIdIsValid (p_xid (proc st no)) = true.
Proof.
  intros Hno Ht. destruct (shows_me lo tx st Hinv no Hno) as (_ & _ & C). destruct (tx no) as [[t subs]|] eqn:E; [|done].
  destruct C as (-> & _). apply (fits_valid lo).
  apply (i_ids _ _ _ _ (v_ids _ _ _ Hinv) no t subs t E). by left.
Qed.

Lemma good_end no l g : op_ok lo tx st (EndTransaction no l g) -> good (EndTransaction no l g).
Proof.
  intros Hok. assert (Hlat : latest_of tx st no l).
  { destruct g as [g|]; [|done]. destruct Hok as (Hin & _ & Hall). rewrite Forall_forall in Hall. by apply (Hall (no, l)). }
  destruct (latest_of_facts _ _ _ _ _ Hinv Hlat) as (Ht & Hf & _). pose proof (p_xid_valid no (proj1 Hlat) Ht) as Hv.
  unfold good. cbn [run_op]. unfold ProcArrayEndTransaction.
  rewrite rd_me by (apply (well_me lo tx st Hinv), Hlat). step_ok. rewrite (fits_valid lo l) by done. assert_ok Hv.
  destruct g as [g|]; cbn [option_map op_tx completions].
  - destruct Hok as (_ & Hnd & Hall). by apply group_spec.
  - destruct (end_spec lo tx st no l Hinv Hlat) as (st' & H1 & H2 & H3 & _). by exists st'.
Qed.

Definition idle_ended (p : PGPROC) : PGPROC :=
  mkProc (p_xid p) InvalidTransactionId (p_subxidStatus p) (p_subxids p) (flags_cleared (p_statusFlags p)) (p_pgxactoff p).

Lemma EndIdle_eq no : attached st no -> tx no = None -> run_op extend (EndIdle no) st = Ok (put no (idle_ended (proc st no)) st).
Proof.
  intros Hno Ht. pose proof (well_me lo tx st Hinv no Hno) as Hw.
  pose proof (shows_me lo tx st Hinv no Hno) as Hsh. pose proof Hsh as (C1 & _ & C3). rewrite Ht in C3.
  destruct C3 as (C3 & C4 & C5). cbn [run_op]. unfold ProcArrayEndTransaction.
  rewrite rd_me by done. step_ok. change (TransactionIdIsValid InvalidTransactionId) with false. cbn iota.
  assert (Hv : TransactionIdIsValid (p_xid (proc st no)) = false) by (by rewrite C3).
  assert (Hc : (count (p_subxidStatus (proc st no)) =? 0) = true) by (by rewrite C1, C4).
  assert_ok Hv. assert_ok Hc. assert_ok C5.
  set (q := mkProc _ InvalidTransactionId _ _ _ _). rewrite set_proc_put by done. step_ok.
  pose proof (well_put st no Hw q eq_refl) as Hw1.
  assert (Hfl : rd (statusFlags (put no q st)) (p_pgxactoff (proc st no)) = Ok (p_statusFlags (proc st no))).
  { pose proof (rd_flags_me _ _ Hw1) as Hfl. by rewrite off_put_me, proc_put_me in Hfl. }
  rewrite Hfl. step_ok. rewrite Z.eqb_refl.
  replace (if negb (Z.land (p_statusFlags (proc st no)) PROC_VACUUM_STATE_MASK =? 0) then _ else Ok tt) with (Ok tt)
    by (by destruct (negb _)). step_ok.
  rewrite clear_vacuum_flags_eq by done. rewrite proc_put_me, put_put by done.
  done.
Qed.

Lemma good_idle no : op_ok lo tx st (EndIdle no) -> good (EndIdle no).
Proof.
  intros (Hno & Ht). eexists. split; [by apply EndIdle_eq|]. split; [|same_count].
  apply inv_put_same; try done. exact (shows_me lo tx st Hinv no Hno).
Qed.

Lemma good_xmin no x : op_ok lo tx st (SetXmin no x) -> good (SetXmin no x).
Proof.
  intros Hno. pose proof (well_me lo tx st Hinv no Hno) as Hw. unfold good. cbn [run_op op_tx].
  rewrite rd_me by done. step_ok. rewrite set_proc_put by done. eexists. split; [done|]. split; [|same_count].
  apply inv_put_same; try done. by apply (shows_me lo tx st Hinv).
Qed.

Lemma good_assign no isSubXact : op_ok lo tx st (Assign no isSubXact) -> good (Assign no isSubXact).
Proof.
  intros (Hno & Hsub & Hf). subst isSubXact. unfold good. cbn [run_op op_tx].
  rewrite (assign_xid_to_eq lo tx) by done. step_ok. eexists. split; [done|]. split; [by apply inv_assigned|].
  split; [cbn [completions]; by rewrite Z.add_0_r|]. destruct (i_next _ _ _ _ (v_ids _ _ _ Hinv)) as [_ Hn].
  destruct (fnext_normal _ Hn). cbn. lia.
Qed.

Lemma good_abort no a children l : op_ok lo tx st (AbortSub no a children l) -> good (AbortSub no a children l).
Proof.
  intros (Hno & (t & subs & Ht & Hgone) & Hl & Hmax). unfold good. cbn [run_op op_tx]. rewrite Ht.
  rewrite (XidCacheRemoveRunningXids_eq lo tx st Hinv no Hno t subs Ht a children l Hgone Hl Hmax).
  eexists. split; [done|]. split; [by eapply (inv_aborted lo tx st Hinv no Hno t subs Ht)|one_count].
Qed.

(** Status flags are stored in the entry and its slot; what runs stays. *)
Lemma change_flags_eq no f :
  attached st no -> flags_ok tx st no f ->
  exists q, change_flags no f st = Ok (put no q st) /\ p_pgxactoff q = off st no /\ shows q (tx no) /\
            (tx no <> None -> (visible (put no q st) no <-> visible st no)).
Proof.
  intros Hno Hok. pose proof (well_me lo tx st Hinv no Hno) as Hw. pose proof (shows_me lo tx st Hinv no Hno) as Hsh.
  pose proof Hno as (Hr & _).
  assert (Hstore : forall g, (tx no <> None -> g (p_statusFlags (proc st no)) = p_statusFlags (proc st no)) ->
    exists q, store_flags no g st = Ok (put no q st) /\ p_pgxactoff q = off st no /\ shows q (tx no) /\
              (tx no <> None -> (visible (put no q st) no <-> visible st no))).
  { intros g Hg. rewrite store_flags_eq by done. eexists. split; [done|]. split; [done|]. split; [exact Hsh|].
    intros Ht. unfold visible. rewrite proc_put by (done || lia). rewrite Z.eqb_refl. cbn. by rewrite Hg. }
  destruct f as [w| |t|]; cbn [change_flags flags_ok] in *.
  - by apply Hstore.
  - destruct Hok as [Ht Hx]. unfold set_indexsafe_procflags. rewrite rd_me by done. step_ok.
    destruct Hsh as (_ & _ & Hsh). rewrite Ht in Hsh. destruct Hsh as (Ex & _). rewrite Ex, Hx. assert_ok Z.eqb_refl.
    by apply Hstore.
  - unfold StartupDecodingContext_flags. destruct t; cbn [negb]; [|apply Hstore; by rewrite Hok].
    exists (proc st no). rewrite put_same by done. done.
  - apply Hstore. intros Ht. destruct Hok as [?|Hz]; [done|]. apply Z.bits_inj'. intros n Hn.
    rewrite Z.ldiff_spec. apply (f_equal (fun z => Z.testbit z n)) in Hz. rewrite Z.land_spec, Z.bits_0 in Hz.
    destruct (Z.testbit _ n), (Z.testbit PROC_IN_LOGICAL_DECODING n); done.
Qed.

Lemma good_flags no f : op_ok lo tx st (SetFlags no f) -> good (SetFlags no f).
Proof.
  intros (Hno & Hok). destruct (change_flags_eq no f Hno Hok) as (q & E & Hq & Hsh & _).
  eexists. split; [exact E|]. split; [by apply inv_put_same|same_count].
Qed.

Lemma InitProcess_eq no w :
  0 <= no < len (allProcs st) -> exists q, InitProcess no w st = Ok (put_free no q st).
Proof. intros Hno. unfold InitProcess. rewrite (rd_ok no_proc) by done. step_ok. rewrite set_proc_free by done. by eexists. Qed.

Lemma good_init no w : op_ok lo tx st (Init no w) -> good (Init no w).
Proof.
  intros (Hno & Hfree). destruct (InitProcess_eq no w Hno) as [q E].
  eexists. split; [exact E|]. split; [by apply inv_put_free|same_count].
Qed.

(** The entry that PREPARE fills. *)
Definition prepared_entry (xid : Z) (children : list Z) : PGPROC :=
  let kept := take 64 children in
  mkProc xid InvalidTransactionId {| count := len kept; overflowed := MAX_CACHED_SUBXIDS <? len children |} kept 0 0.

Lemma fill_prepared_eq gxact xid children :
  0 <= gxact < len (allProcs st) ->
  fill_prepared gxact xid children st = Ok (put_free gxact (prepared_entry xid children) st).
Proof.
  intros Hg. unfold fill_prepared, MarkAsPreparingGuts. rewrite set_proc_free by done. step_ok.
  unfold prepared_entry, MAX_CACHED_SUBXIDS. destruct children as [|x children].
  { done. }
  pose proof (len_nonneg children). rewrite len_cons. destruct (Z.ltb_spec 0 (len children + 1)); [|lia].
  unfold GXactLoadSubxactData, MAX_CACHED_SUBXIDS. set (st1 := put_free _ _ _).
  assert (Hg1 : 0 <= gxact < len (allProcs st1)) by (unfold st1; cbn; by rewrite len_upd).
  rewrite (rd_ok no_proc) by done. step_ok. fold (proc st1 gxact).
  unfold st1 at 1 2 3 4 5 6 7 8 9 10. rewrite !proc_put_free by lia. rewrite !Z.eqb_refl. cbn [p_xid p_xmin p_subxidStatus p_statusFlags p_pgxactoff overflowed count p_subxids].
  set (l := x :: children). rewrite <- (len_cons x children). fold l.
  assert (Hl : 0 < len l) by (unfold l; rewrite len_cons; lia).
  destruct (Z.ltb_spec 64 (len l)) as [Hov|Hov].
  - change (0 <? 64) with true. cbn iota. rewrite set_proc_free by done. unfold st1. rewrite put_free_twice by done.
    do 3 f_equal. unfold len in *. rewrite length_take. f_equal. lia.
  - destruct (Z.ltb_spec 0 (len l)); [|lia]. rewrite set_proc_free by done. unfold st1. rewrite put_free_twice by done.
    unfold len in *. rewrite !take_ge by lia. done.
Qed.

Lemma good_fill no gxact children :
  op_ok lo tx st (FillPrepared no gxact children) -> good (FillPrepared no gxact children).
Proof.
  intros (Hno & Hg & Hfree & _). unfold good. cbn [run_op op_tx].
  rewrite rd_me by (by apply (well_me lo tx st Hinv)). step_ok. rewrite fill_prepared_eq by done.
  eexists. split; [done|]. split; [by apply inv_put_free|same_count].
Qed.

(** What is filled in shows the transaction, as [AddPrepared] needs it. *)
Lemma filled_shows no gxact children st' :
  op_ok lo tx st (FillPrepared no gxact children) -> run_op extend (FillPrepared no gxact children) st = Ok st' ->
  shows (proc st' gxact) (tx no).
Proof.
  intros (Hno & Hg & Hfree & t & subs & Ht & Hnd & Hsub). cbn [run_op].
  rewrite rd_me by (by apply (well_me lo tx st Hinv)). step_ok. rewrite fill_prepared_eq by done. intros [= <-].
  rewrite proc_put_free, Z.eqb_refl by lia. pose proof (shows_me lo tx st Hinv no Hno) as (_ & _ & Hsh).
  rewrite Ht in *. destruct Hsh as (-> & _). unfold shows, prepared_entry; cbn [p_subxidStatus p_subxids count overflowed p_xid].
  assert (Hfit : forall x, x ∈ children -> fits lo x).
  { intros x Hx. apply (i_ids _ _ _ _ (v_ids _ _ _ Hinv) no t subs x Ht). right. by apply Hsub. }
  assert (Hnd' : NoDup (map u32 children)).
  { clear Hsub. induction Hnd as [|x l Hnin Hnd IH]; cbn; constructor; [|apply IH; intros; apply Hfit; by right].
    intros (y & E & Hy)%list_elem_of_fmap. apply (fits_inj lo) in E; [by subst|apply Hfit; by left|apply Hfit; by right]. }
  split; [done|]. split; [unfold len, MAX_CACHED_SUBXIDS; rewrite length_take; lia|]. split; [done|].
  split; [by eapply sublist_NoDup; [|apply sublist_take]|]. split.
  - intros z Hz. apply elem_of_take in Hz as (i & Hz & _). apply list_elem_of_lookup_2, list_elem_of_fmap in Hz as (s & -> & Hs).
    exists s. split; [by apply Hsub|done].
  - intros Hov s Hs. apply Hsub in Hs. unfold MAX_CACHED_SUBXIDS in Hov. rewrite take_ge by (unfold len in Hov; lia).
    apply list_elem_of_fmap. by exists s.
Qed.

Lemma filled_add no gxact children st' :
  op_ok lo tx st (FillPrepared no gxact children) -> run_op extend (FillPrepared no gxact children) st = Ok st' ->
  visible st no -> numProcs st < maxProcs st -> op_ok lo tx st' (AddPrepared no gxact).
Proof.
  intros Hok E Hv Hroom. pose proof (filled_shows no gxact children st' Hok E) as Hsh.
  destruct Hok as (Hno & Hg & Hfree & t & subs & Ht & _). revert E. cbn [run_op].
  rewrite rd_me by (by apply (well_me lo tx st Hinv)). step_ok. rewrite fill_prepared_eq by done. intros [= <-].
  set (q := prepared_entry _ _) in *. split; [cbn; by rewrite len_upd|].
  split; [by rewrite (attached_put_free st gxact Hg Hfree tx (v_slots _ _ _ Hinv))|]. split; [done|].
  split; [by rewrite Ht|]. split; [|done]. unfold visible.
  by rewrite (proc_put_free_attached st gxact Hg Hfree tx (v_slots _ _ _ Hinv)).
Qed.

Lemma good_add_prepared no gxact : op_ok lo tx st (AddPrepared no gxact) -> good (AddPrepared no gxact).
Proof.
  intros (Hr & Hnew & Hroom & Ht & _ & Hsh). unfold good. cbn [run_op op_tx].
  destruct (ProcArrayAdd_slots lo tx st Hinv gxact Hr Hnew (tx no) Hroom Hsh) as (index & ps & E & _ & Hslots & _).
  eexists. split; [exact E|]. split; [|same_count]. apply inv_joined; try done. right. by exists no.
Qed.

Lemma good_join no : op_ok lo tx st (Join no) -> good (Join no).
Proof.
  intros (Hr & Hnew & Hroom & Hsh). unfold good. cbn [run_op op_tx].
  destruct (ProcArrayAdd_slots lo tx st Hinv no Hr Hnew None Hroom Hsh) as (index & ps & E & _ & Hslots & _).
  eexists. split; [exact E|]. split; [|same_count]. apply inv_joined; try done. by left.
Qed.

Lemma good_clear no : op_ok lo tx st (ClearPrepared no) -> good (ClearPrepared no).
Proof.
  intros (Hno & Hf & Hdup). unfold good. cbn [run_op op_tx].
  rewrite (ProcArrayClearTransaction_eq lo tx) by done. eexists. split; [done|]. split; [by apply inv_cleared|one_count].
Qed.

Lemma good_leave no : op_ok lo tx st (Leave no) -> good (Leave no).
Proof.
  intros (Hno & Ht). destruct (ProcArrayRemove_idle lo tx st Hinv no Hno Ht) as (ps & E & Hi & _).
  eexists. split; [exact E|]. split; [exact Hi|same_count].
Qed.

Lemma good_finish gxact l : op_ok lo tx st (FinishPrepared gxact l) -> good (FinishPrepared gxact l).
Proof.
  intros Hlat. destruct (latest_of_facts _ _ _ _ _ Hinv Hlat) as (Ht & Hf & Hn). destruct Hlat as (Hno & _ & Hall).
  destruct (ProcArrayRemove_ended lo tx st Hinv gxact Hno l Ht Hf Hn Hall) as (ps & E & Hi).
  eexists. split; [exact E|]. split; [exact Hi|one_count].
Qed.

Lemma op_good o : op_ok lo tx st o -> good o.
Proof.
  destruct o; eauto using good_end, good_idle, good_xmin, good_assign, good_abort, good_add_prepared, good_join,
    good_clear, good_leave, good_finish, good_flags, good_init, good_fill.
Qed.
End preserve.

(** * A snapshot stays true until a transaction completes *)

(** Nothing has completed: what runs now ran before, or has an id from
    nextXid on. *)
Record no_completion (me : Z) (tx : Z -> Tx) (st : Shared) (tx' : Z -> Tx) (st' : Shared) : Prop := {
  n_latest : latestCompletedXid st' = latestCompletedXid st;
  n_next : nextXid st <= nextXid st';
  n_kept : forall no t subs, tx no = Some (t, subs) ->
             (exists subs', tx' no = Some (t, subs') /\ subs ⊆ subs') /\ (visible st no -> visible st' no);
  n_old : forall no t subs, tx' no = Some (t, subs) -> t < nextXid st -> no <> me ->
            exists n subs0, n <> me /\ tx n = Some (t, subs0) /\ (visible st' no -> visible st n) /\
                            forall x, x ∈ subs -> x < nextXid st -> x ∈ subs0;
  n_own : forall t subs, tx' me = Some (t, subs) -> t < nextXid st -> exists subs0, tx me = Some (t, subs0)
}.

Lemma describes_later lo me tx st tx' st' s fmin fmax :
  inv lo tx' st' -> no_completion me tx st tx' st' -> describes lo me tx st s fmin fmax ->
  describes lo me tx' st' s fmin fmax.
Proof.
  intros Hinv' [N1 N2 N3 N4 N5] [D1 D2 D3 D4 D5 D6 D7 D8 D9 D10 D11 D12].
  assert (Hrun : forall x, running tx x -> running tx' x).
  { intros x [no Hx]. destruct (tx no) as [[t subs]|] eqn:E; [|done]. destruct (N3 no t subs E) as [(subs' & E' & Hs) _].
    exists no. rewrite E'. apply elem_of_cons in Hx as [->|Hx]; [by left|right; by apply Hs]. }
  split; try done; [lia|congruence|..].
  - destruct D7 as [|(no & subs & E & Hv)]; [by left|right]. destruct (N3 no fmin subs E) as [(subs' & E' & _) Hvis].
    exists no, subs'. split; [done|]. destruct Hv; [by left|right; by apply Hvis].
  - intros no t subs Hne Hv E Hlt. destruct (N4 no t subs E ltac:(lia) Hne) as (n & s0 & Hn & E0 & Hvis & _).
    by apply (D8 n t s0); [|apply Hvis| |].
  - intros z Hz. destruct (D9 z Hz) as (no & t & subs & Hne & E & Hlt & ->).
    destruct (N3 no t subs E) as [(subs' & E' & _) _]. by exists no, t, subs'.
  - intros Ho no t subs x Hne Hv E Hx Hlt.
    destruct (Z_lt_le_dec t (nextXid st)) as [Ht|Ht].
    + destruct (N4 no t subs E Ht Hne) as (n & s0 & Hn & E0 & Hvis & Hsub).
      apply (D10 Ho n t s0); [done|by apply Hvis|done|apply Hsub; [done|lia]|done].
    + destruct (i_ids _ _ _ _ (v_ids _ _ _ Hinv') no t subs x E ltac:(by right)) as [_ ?]. lia.
  - intros Ho z Hz. destruct (D11 Ho z Hz) as (x & -> & Hf & Hr). exists x. split; [done|]. split; [done|].
    intros Hlt. by apply Hrun, Hr.
  - intros t subs E Hlt. destruct (N5 t subs E ltac:(lia)) as [s0 E0]. by apply (D12 t s0).
Qed.

Lemma no_completion_same me tx st tx' st' :
  latestCompletedXid st' = latestCompletedXid st -> nextXid st' = nextXid st ->
  (forall no, tx' no = tx no) -> (forall no, tx no <> None -> (visible st' no <-> visible st no)) ->
  no_completion me tx st tx' st'.
Proof.
  intros H1 H2 H3 H4. split; [done|lia| | |].
  - intros no t subs E. split; [exists subs; by rewrite H3|]. by apply H4; rewrite E.
  - intros no t subs E _ Hne. rewrite H3 in E. exists no, subs. split; [done|]. split; [done|]. split; [|done].
    by apply H4; rewrite E.
  - intros t subs E _. rewrite H3 in E. by exists subs.
Qed.

Lemma set_tx_none tx no n : tx no = None -> set_tx tx no None n = tx n.
Proof. intros E. unfold set_tx. by destruct (Z.eqb_spec n no) as [->|]. Qed.

Section quiet.
Context (lo me : Z) (tx : Z -> Tx) (st : Shared) (Hinv : inv lo tx st) (extend : Z -> res unit).
Context (Hextend : forall z, extend z = Ok tt).

Lemma tx_range no : tx no <> None -> 0 <= no.
Proof. intros H. destruct (s_attached _ _ (v_slots _ _ _ Hinv) no H) as (? & _). lia. Qed.

(** Flags of entries whose slots have moved. *)
Lemma visible_moved ps st1 :
  (forall m, 0 <= m -> exists k, getd no_proc ps m = set_off (proc st m) k) ->
  forall no, tx no <> None -> (visible (with_procs ps st1) no <-> visible st no).
Proof.
  intros H no Hno. destruct (H no (tx_range no Hno)) as [k E]. unfold visible, proc at 1; cbn. by rewrite E.
Qed.

Lemma visible_put no q n :
  attached st no -> p_pgxactoff q = off st no -> (n = no -> p_statusFlags q = p_statusFlags (proc st no)) ->
  0 <= n -> (visible (put no q st) n <-> visible st n).
Proof.
  intros Hno Hq Hf Hn. unfold visible. rewrite proc_put by done. destruct (Z.eqb_spec n no) as [->|]; [|done].
  by rewrite Hf.
Qed.

Lemma quiet_assign no st' :
  attached st no -> fits lo (fnext (nextXid st)) -> run_op extend (Assign no (has_tx (tx no))) st = Ok st' ->
  no_completion me tx st (op_tx tx st (Assign no (has_tx (tx no)))) st'.
Proof.
  intros Hno Hf. cbn [run_op op_tx]. rewrite (assign_xid_to_eq lo tx) by done. step_ok. intros [= <-].
  pose proof (i_next _ _ _ _ (v_ids _ _ _ Hinv)) as [_ Hn]. destruct (fnext_normal _ Hn) as [_ ?].
  set (q := assigned _ _ _).
  assert (Hvis : forall n, tx n <> None -> visible (put no q (set_next (fnext (nextXid st)) st)) n <-> visible st n).
  { intros n Ht. unfold visible. rewrite (proc_put (set_next _ st)); [|done| |by apply tx_range].
    - destruct (Z.eqb_spec n no) as [->|]; [|done]. unfold q, assigned. by repeat case_match.
    - unfold q, assigned. by repeat case_match. }
  split; [done|cbn; lia| | |].
  - intros n t subs E. split; [|by apply Hvis; rewrite E]. unfold set_tx. destruct (Z.eqb_spec n no) as [->|]; [|by exists subs].
    rewrite E. exists (nextXid st :: subs). split; [done|]. by intros x; right.
  - intros n t subs E Hlt Hne. unfold set_tx in E. destruct (Z.eqb_spec n no) as [->|].
    + destruct (tx no) as [[t0 s0]|] eqn:E0; cbn in E; simplify_eq; [|lia]. exists no, s0.
      split; [done|]. split; [done|]. split; [by apply Hvis; rewrite E0|].
      intros x [->|?]%elem_of_cons ?; [lia|done].
    + exists n, subs. split; [done|]. split; [done|]. split; [by apply Hvis; rewrite E|done].
  - intros t subs E Hlt. unfold set_tx in E. destruct (Z.eqb_spec me no) as [->|]; [|by exists subs].
    destruct (tx no) as [[t0 s0]|]; cbn in E; simplify_eq; [by exists s0|lia].
Qed.

Lemma quiet_add_prepared no gxact st' :
  no <> me -> gxact <> me -> op_ok lo tx st (AddPrepared no gxact) -> run_op extend (AddPrepared no gxact) st = Ok st' ->
  no_completion me tx st (op_tx tx st (AddPrepared no gxact)) st'.
Proof.
  intros Hne Hgme (Hr & Hnew & Hroom & Ht & Hv & Hsh). cbn [run_op op_tx].
  destruct (ProcArrayAdd_slots lo tx st Hinv gxact Hr Hnew (tx no) Hroom Hsh) as (index & ps & -> & _ & _ & Hflags).
  intros [= <-]. pose proof (visible_moved ps (joined st gxact index) Hflags) as Hvis.
  assert (Hg : tx gxact = None).
  { destruct (tx gxact) eqn:E; [|done]. destruct Hnew. apply (s_attached _ _ (v_slots _ _ _ Hinv)). by rewrite E. }
  split; [done|done| | |].
  - intros n t subs E. split; [|by apply Hvis; rewrite E]. exists subs. rewrite set_tx_ne by congruence. done.
  - intros n t subs E Hlt Hn. unfold set_tx in E. destruct (Z.eqb_spec n gxact) as [->|]; [by exists no, subs|].
    exists n, subs. split; [done|]. split; [done|]. split; [by apply Hvis; rewrite E|done].
  - intros t subs E Hlt. unfold set_tx in E. destruct (Z.eqb_spec me gxact) as [Eme|]; [|by exists subs].
    by destruct Hgme.
Qed.

Lemma quiet_join no st' :
  op_ok lo tx st (Join no) -> run_op extend (Join no) st = Ok st' -> no_completion me tx st (op_tx tx st (Join no)) st'.
Proof.
  intros (Hr & Hnew & Hroom & Hsh). cbn [run_op op_tx].
  destruct (ProcArrayAdd_slots lo tx st Hinv no Hr Hnew None Hroom Hsh) as (index & ps & -> & _ & _ & Hflags).
  intros [= <-]. apply no_completion_same; [done|done| |by apply visible_moved].
  intros n. apply set_tx_none. destruct (tx no) eqn:E; [|done]. destruct Hnew.
  apply (s_attached _ _ (v_slots _ _ _ Hinv)). by rewrite E.
Qed.

Lemma quiet_leave no st' :
  op_ok lo tx st (Leave no) -> run_op extend (Leave no) st = Ok st' -> no_completion me tx st (op_tx tx st (Leave no)) st'.
Proof.
  intros (Hno & Ht). cbn [run_op op_tx].
  destruct (ProcArrayRemove_idle lo tx st Hinv no Hno Ht) as (ps & -> & _ & Hflags). intros [= <-].
  apply no_completion_same; [done|done|intros n; by apply set_tx_none|by apply visible_moved].
Qed.

Lemma quiet_xmin no x st' :
  attached st no -> run_op extend (SetXmin no x) st = Ok st' -> no_completion me tx st (op_tx tx st (SetXmin no x)) st'.
Proof.
  intros Hno. pose proof (well_me lo tx st Hinv no Hno) as Hw. cbn [run_op op_tx]. rewrite rd_me by done. step_ok.
  rewrite set_proc_put by done. intros [= <-]. apply no_completion_same; [done..|].
  intros n Hn. apply visible_put; try done. by apply tx_range.
Qed.

Lemma quiet_free no q :
  0 <= no < len (allProcs st) -> ~ attached st no -> no_completion me tx st tx (put_free no q st).
Proof.
  intros Hno Hf. apply no_completion_same; [done..|]. intros n Hn.
  pose proof (s_attached _ _ (v_slots _ _ _ Hinv) n Hn) as Ha. unfold visible.
  by rewrite (proc_put_free_attached st no Hno Hf tx (v_slots _ _ _ Hinv)).
Qed.

Lemma quiet_flags no f st' :
  op_ok lo tx st (SetFlags no f) -> run_op extend (SetFlags no f) st = Ok st' ->
  no_completion me tx st (op_tx tx st (SetFlags no f)) st'.
Proof.
  intros (Hno & Hok). cbn [run_op op_tx].
  destruct (change_flags_eq lo tx st Hinv no f Hno Hok) as (q & -> & Hq & _ & Hvis). intros [= <-].
  apply no_completion_same; [done..|]. intros n Hn. destruct (Z.eq_dec n no) as [->|Hne]; [by apply Hvis|].
  apply visible_put; try done. by apply tx_range.
Qed.

Lemma quiet_init no w st' :
  op_ok lo tx st (Init no w) -> run_op extend (Init no w) st = Ok st' -> no_completion me tx st (op_tx tx st (Init no w)) st'.
Proof.
  intros (Hno & Hf). cbn [run_op op_tx]. destruct (InitProcess_eq lo tx st Hinv no w Hno) as [q ->].
  intros [= <-]. by apply quiet_free.
Qed.

Lemma quiet_fill no gxact children st' :
  op_ok lo tx st (FillPrepared no gxact children) -> run_op extend (FillPrepared no gxact children) st = Ok st' ->
  no_completion me tx st (op_tx tx st (FillPrepared no gxact children)) st'.
Proof.
  intros (Hno & Hg & Hf & _). cbn [run_op op_tx]. rewrite rd_me by (by apply (well_me lo tx st Hinv)). step_ok.
  rewrite (fill_prepared_eq lo tx st Hinv) by done. intros [= <-]. by apply quiet_free.
Qed.

(** A process without a transaction ends: its flags are not those of a running
    transaction. *)
Lemma quiet_idle no st' :
  op_ok lo tx st (EndIdle no) -> run_op extend (EndIdle no) st = Ok st' -> no_completion me tx st (op_tx tx st (EndIdle no)) st'.
Proof.
  intros Hok Hrun. pose proof Hok as (Hno & Ht). rewrite (EndIdle_eq lo tx st Hinv extend Hextend no Hno Ht) in Hrun. injection Hrun as <-.
  apply no_completion_same; [done..|]. intros n Hn. apply visible_put; try done; [|by apply tx_range]. by intros ->.
Qed.

(** The own transaction of a snapshot is not being prepared. *)
Definition spares (o : op) : Prop :=
  match o with AddPrepared no gxact => no <> me /\ gxact <> me | _ => True end.

Lemma quiet_op o st' :
  op_ok lo tx st o -> spares o -> completions o = 0 -> run_op extend o st = Ok st' ->
  no_completion me tx st (op_tx tx st o) st'.
Proof.
  intros Hok Hsp Hc Hrun. destruct o as [no b|no x|no l [g|]|no|no a ch l|no gx ch|no gx|no|no f|no w|no|no|no l]; try done.
  - destruct Hok as (? & <- & ?). by apply quiet_assign.
  - by apply quiet_xmin.
  - cbn in Hc. destruct Hok as (Hin & _). destruct g; [by apply not_elem_of_nil in Hin|].
    rewrite len_cons in Hc. pose proof (len_nonneg g). lia.
  - by apply quiet_idle.
  - by apply quiet_fill.
  - by apply quiet_add_prepared; try apply Hsp.
  - by apply quiet_flags.
  - by apply quiet_init.
  - by apply quiet_join.
  - by apply quiet_leave.
Qed.
End quiet.

(** * Wraparound *)

(** The limits lie before the end of the window that starts at [lo]. *)
Lemma limits_full lo age lim st lim' st' :
  3 <= u32 lo -> 100000 <= age <= 2000000000 -> SetTransactionIdLimit (u32 lo) age lim st = Ok (lim', st') ->
  IsUnderPostmaster lim' = IsUnderPostmaster lim /\
  (exists v, xidVacLimit lim' = u32 v /\ 3 <= u32 v /\ lo + 100000 <= v <= lo + 2000000003) /\
  (exists s, xidStopLimit lim' = u32 s /\ 3 <= u32 s /\ lo + 2 ^ 31 - 3000010 <= s <= lo + 2 ^ 31 - 2999990).
Proof.
  intros Hlo Hage. unfold SetTransactionIdLimit. rewrite (proj2 (normal_range _) Hlo). assert_ok Z.eqb_refl.
  intros [= <- <-]. split; [done|]. cbn [xidVacLimit xidStopLimit]. change (Z.shiftr MaxTransactionId 1) with (2 ^ 31 - 1).
  unfold FirstNormalTransactionId. rewrite !u32_add. split.
  - destruct (Z.ltb_spec (u32 (lo + age)) 3); rewrite ?u32_add; [exists (lo + age + 3)|exists (lo + age)];
      (split; [done|]); (split; [u32_lia|lia]).
  - set (w := if u32 (lo + (2 ^ 31 - 1)) <? 3 then lo + (2 ^ 31 - 1) + 3 else lo + (2 ^ 31 - 1)).
    replace (if u32 (lo + (2 ^ 31 - 1)) <? 3 then u32 (lo + (2 ^ 31 - 1) + 3) else u32 (lo + (2 ^ 31 - 1))) with (u32 w)
      by (unfold w; by destruct (_ <? 3)).
    assert (Hw : lo + 2 ^ 31 - 1 <= w <= lo + 2 ^ 31 + 2) by (unfold w; destruct (_ <? 3); lia).
    replace (u32 w - 3000000) with (u32 w + -3000000) by lia. rewrite u32_add.
    destruct (Z.ltb_spec (u32 (w + -3000000)) 3) as [Hs|Hs]; [exists (w + -3000000 - 3)|exists (w + -3000000)].
    + split; [replace (u32 (w + -3000000) - 3) with (u32 (w + -3000000) + -3) by lia; rewrite u32_add; f_equal; lia|].
      split; [clearbody w; clear Hw; u32_lia|lia].
    + split; [done|]. split; [done|lia].
Qed.

(** * Executions *)
Inductive execution (lo : Z) (extend : Z -> res unit) (tx : Z -> Tx) (st : Shared) : list op -> (Z -> Tx) -> Shared -> Prop :=
| ex_nil : execution lo extend tx st [] tx st
| ex_cons o os st1 tx' st' :
    op_ok lo tx st o -> run_op extend o st = Ok st1 ->
    execution lo extend (op_tx tx st o) st1 os tx' st' -> execution lo extend tx st (o :: os) tx' st'.

Fixpoint total_completions (os : list op) : Z :=
  match os with [] => 0 | o :: os => completions o + total_completions os end.

Lemma completions_nonneg o : 0 <= completions o.
Proof. destruct o as [| |no l [g|]| | | | | | | | | |]; cbn; try lia. apply len_nonneg. Qed.

Lemma total_nonneg os : 0 <= total_completions os.
Proof. induction os as [|o os IH]; cbn; [lia|]. pose proof (completions_nonneg o). lia. Qed.

Section executions.
Context (lo : Z) (extend : Z -> res unit) (Hextend : forall z, extend z = Ok tt).

Lemma op_run_inv tx st o st' :
  inv lo tx st -> op_ok lo tx st o -> run_op extend o st = Ok st' ->
  inv lo (op_tx tx st o) st' /\ counters st st' (completions o).
Proof. intros Hi Hok E. destruct (op_good lo tx st Hi extend Hextend o Hok) as (st1 & E1 & H). rewrite E in E1. by simplify_eq. Qed.

Lemma execution_inv tx st os tx' st' :
  inv lo tx st -> execution lo extend tx st os tx' st' ->
  inv lo tx' st' /\ counters st st' (total_completions os).
Proof.
  intros Hi He. revert Hi. induction He as [tx st|tx st o os st1 tx' st' Hok E He IH]; intros Hi.
  - split; [done|apply counters_refl].
  - destruct (op_run_inv tx st o st1 Hi Hok E) as [Hi1 Hc]. destruct (IH Hi1) as [Hi' Hc']. split; [done|].
    by eapply counters_trans.
Qed.

Lemma execution_quiet me tx st os tx' st' s fmin fmax :
  inv lo tx st -> execution lo extend tx st os tx' st' -> Forall (spares me) os -> total_completions os = 0 ->
  describes lo me tx st s fmin fmax -> describes lo me tx' st' s fmin fmax.
Proof.
  intros Hi He. revert Hi. induction He as [tx st|tx st o os st1 tx' st' Hok E He IH]; intros Hi Hsp Htot Hd; [done|].
  apply Forall_cons in Hsp as [Hso Hsp]. cbn in Htot. pose proof (completions_nonneg o). pose proof (total_nonneg os).
  destruct (op_run_inv tx st o st1 Hi Hok E) as [Hi1 _].
  apply IH; [done|done|lia|]. eapply describes_later; [done| |done].
  eapply (quiet_op lo me tx st Hi extend Hextend); try done. lia.
Qed.

Lemma clear_all_running tx g x : running (clear_all tx g) x -> running tx x.
Proof.
  revert tx. induction g as [|[no l] g IH]; intros tx H; [done|].
  apply IH, running_inv in H as [[]|H]; done.
Qed.

(** Only an assignment makes an id run, and that is nextXid. *)
Lemma op_running tx st o x : running (op_tx tx st o) x -> running tx x \/ x = nextXid st.
Proof.
  destruct o as [no b|no y|no l [g|]|no|no a ch l|no gx ch|no gx|no|no f|no w|no|no|no l]; cbn [op_tx]; intros H; try (by left).
  - apply running_inv in H as [H|H]; [|by left]. destruct (tx no) as [[t subs]|] eqn:E; cbn in H.
    + apply elem_of_cons in H as [->|[->|H]%elem_of_cons]; [|by right|]; left; exists no; rewrite E; [by left|by right].
    + apply elem_of_cons in H as [->|[]%not_elem_of_nil]. by right.
  - left. by eapply clear_all_running.
  - by apply running_inv in H as [[]|H]; [left].
  - left. destruct (tx no) as [[t subs]|] eqn:E; [|done]. apply running_inv in H as [H|H]; [|done].
    exists no. rewrite E. apply elem_of_cons in H as [->|[H _]%elem_of_minus]; [by left|by right].
  - left. apply running_inv in H as [H|H]; [by exists no|done].
  - by apply running_inv in H as [[]|H]; [left].
  - by apply running_inv in H as [[]|H]; [left].
  - by apply running_inv in H as [[]|H]; [left].
  - by apply running_inv in H as [[]|H]; [left].
Qed.

Lemma execution_running tx st os tx' st' x :
  inv lo tx st -> execution lo extend tx st os tx' st' -> running tx' x -> running tx x \/ nextXid st <= x.
Proof.
  intros Hi He. revert Hi. induction He as [tx st|tx st o os st1 tx' st' Hok E He IH]; intros Hi Hr; [by left|].
  destruct (op_run_inv tx st o st1 Hi Hok E) as [Hi1 [_ Hn]].
  destruct (IH Hi1 Hr) as [H|H]; [|right; lia]. apply op_running in H as [H|H]; [by left|right; lia].
Qed.
End executions.

(** ** What no operation but an assignment changes *)

(** If [m] returns, nextXid is [n] and there are [k] entries. *)
Definition framed (n k : Z) (m : res Shared) : Prop :=
  match m with Ok st => nextXid st = n /\ len (allProcs st) = k | _ => True end.

Lemma framed_bind {A} n k (m : res A) (f : A -> res Shared) :
  (forall a, m = Ok a -> framed n k (f a)) -> framed n k (mbind f m).
Proof. destruct m; cbn; auto. Qed.

Lemma framed_wr {A} n k (l : list A) i v (f : list A -> res Shared) :
  (forall l', len l' = len l -> framed n k (f l')) -> framed n k (mbind f (wr l i v)).
Proof.
  intros Hf. apply framed_bind. intros l' E. apply Hf. unfold wr in E. case_match; [|done]. simplify_eq. apply len_upd.
Qed.

(** A call that keeps the frame. *)
Lemma framed_call n k (m : res Shared) (f : Shared -> res Shared) :
  framed n k m -> (forall st, nextXid st = n -> len (allProcs st) = k -> framed n k (f st)) -> framed n k (mbind f m).
Proof. intros Hm Hf. apply framed_bind. intros st E. rewrite E in Hm. by apply Hf; apply Hm. Qed.

Ltac frame_step :=
  lazymatch goal with
  | |- framed _ _ (Ok _) => split; cbn in *; congruence
  | |- framed _ _ (Err _) => exact I
  | |- framed _ _ (UB _) => exact I
  | |- framed _ _ (mbind _ (wr _ _ _)) => apply framed_wr; intros ? ?
  | |- framed _ _ (@mbind _ _ Shared _ _ _) => apply framed_call; [|intros ? ? ?]
  | |- framed _ _ (mbind _ _) => apply framed_bind; intros ? _
  | |- framed _ _ (match ?x with _ => _ end) => destruct x
  | |- framed _ _ (let _ := _ in _) => cbv zeta
  end.
Create HintDb proc_frame discriminated.
#[export] Hint Extern 2 (_ = _) => cbn; congruence : proc_frame.
Ltac frame := repeat first [frame_step | solve [eauto 2 with proc_frame]].

Section frame.
Context (n k : Z).
Abbreviation keeps F := (forall st, nextXid st = n -> len (allProcs st) = k -> framed n k (F st)).

Lemma frame_set_proc no p : keeps (set_proc no p).
Proof. intros. unfold set_proc. frame. Qed.
Lemma frame_set_xid o x : keeps (set_xid o x).
Proof. intros. unfold set_xid. frame. Qed.
Lemma frame_set_subxidState o x : keeps (set_subxidState o x).
Proof. intros. unfold set_subxidState. frame. Qed.
Lemma frame_set_statusFlags o x : keeps (set_statusFlags o x).
Proof. intros. unfold set_statusFlags. frame. Qed.
#[local] Hint Resolve frame_set_proc frame_set_xid frame_set_subxidState frame_set_statusFlags : proc_frame.

Lemma frame_MaintainLatestCompletedXid l : keeps (MaintainLatestCompletedXid l).
Proof. intros. unfold MaintainLatestCompletedXid. frame. Qed.
Lemma frame_clear_xid no : keeps (clear_xid no).
Proof. intros. unfold clear_xid. frame. Qed.
Lemma frame_clear_vacuum_flags no : keeps (clear_vacuum_flags no).
Proof. intros. unfold clear_vacuum_flags. frame. Qed.
Lemma frame_clear_subxids no : keeps (clear_subxids no).
Proof. intros. unfold clear_subxids. frame. Qed.
Lemma frame_remove_cached no x : keeps (remove_cached no x).
Proof. intros. unfold remove_cached. frame. Qed.
Lemma frame_store_flags no f : keeps (store_flags no f).
Proof. intros. unfold store_flags. frame. Qed.
Lemma frame_adjust_offsets m i was : keeps (adjust_offsets m i was).
Proof. revert i. induction m as [|m IH]; intros i st Hn Hk; cbn [adjust_offsets]; frame. Qed.
#[local] Hint Resolve frame_MaintainLatestCompletedXid frame_clear_xid frame_clear_vacuum_flags frame_clear_subxids
  frame_remove_cached frame_store_flags frame_adjust_offsets : proc_frame.

Lemma frame_remove_all_cached no xs : keeps (remove_all_cached no xs).
Proof. induction xs as [|x xs IH]; intros st Hn Hk; cbn [remove_all_cached]; frame. Qed.
Lemma frame_EndTransactionInternal no l : keeps (ProcArrayEndTransactionInternal no l).
Proof. intros. unfold ProcArrayEndTransactionInternal. frame. Qed.
#[local] Hint Resolve frame_remove_all_cached frame_EndTransactionInternal : proc_frame.

Lemma frame_GroupClearXid g : keeps (ProcArrayGroupClearXid g).
Proof. induction g as [|[no l] g IH]; intros st Hn Hk; cbn [ProcArrayGroupClearXid]; frame. Qed.
Lemma frame_Add no : keeps (ProcArrayAdd no).
Proof. intros. unfold ProcArrayAdd. frame. Qed.
Lemma frame_Remove no l : keeps (ProcArrayRemove no l).
Proof. intros. unfold ProcArrayRemove. frame. Qed.
#[local] Hint Resolve frame_GroupClearXid frame_Add frame_Remove : proc_frame.

Definition assigns (o : op) : bool := match o with Assign _ _ => true | _ => false end.

Lemma frame_op extend o : assigns o = false -> keeps (run_op extend o).
Proof.
  intros Ho st Hn Hk. destruct o as [| | | | | | | |no f| | | |]; try done; cbn [run_op].
  all: try destruct f; cbn [change_flags].
  all: unfold ProcArrayEndTransaction, XidCacheRemoveRunningXids, fill_prepared, MarkAsPreparingGuts, GXactLoadSubxactData,
    ProcArrayClearTransaction, vacuum_rel_flags, set_indexsafe_procflags, StartupDecodingContext_flags,
    ReplicationSlotRelease_flags, InitProcess; frame.
Qed.
End frame.

(** ** Processes between the check of the limits and their new id

    Past xidVacLimit, GetNewTransactionId checks the limits, releases XidGenLock,
    and takes the next id when it has the lock again, without another check.
    [gap] holds the processes that are there, with what each has read.  When the
    limits are set anew ([gs_limits]), the oldest id is not later than any that
    runs or than latestCompletedXid. *)
Definition releases (lim : Limits) (st : Shared) : bool :=
  let xid := u32 (nextXid st) in
  TransactionIdFollowsOrEquals xid (xidVacLimit lim) &&
  negb (IsUnderPostmaster lim && TransactionIdFollowsOrEquals xid (xidStopLimit lim)).

Record Gen := mkGen {
  g_lo : Z;
  g_lim : Limits;
  g_tx : Z -> Tx;
  g_st : Shared;
  g_gap : list (Z * (Limits * Shared))
}.

Inductive gen_step (extend : Z -> res unit) : Gen -> Gen -> Prop :=
| gs_op lo lim tx st gap o st' :
    assigns o = false -> op_ok lo tx st o -> run_op extend o st = Ok st' ->
    gen_step extend (mkGen lo lim tx st gap) (mkGen lo lim (op_tx tx st o) st' gap)
| gs_release lo lim tx st gap p :
    attached st p -> p ∉ gap.*1 -> releases lim st = true ->
    gen_step extend (mkGen lo lim tx st gap) (mkGen lo lim tx st ((p, (lim, st)) :: gap))
| gs_resume lo lim tx st gap1 p lim0 st0 gap2 x st' :
    attached st p -> GetNewTransactionId lim0 extend false false p (has_tx (tx p)) st0 st = Ok (x, st') ->
    gen_step extend (mkGen lo lim tx st (gap1 ++ (p, (lim0, st0)) :: gap2))
      (mkGen lo lim (set_tx tx p (tx_assigned x (tx p))) st' (gap1 ++ gap2))
| gs_direct lo lim tx st gap p x st' :
    attached st p -> p ∉ gap.*1 -> releases lim st = false ->
    GetNewTransactionId lim extend false false p (has_tx (tx p)) st st = Ok (x, st') ->
    gen_step extend (mkGen lo lim tx st gap) (mkGen lo lim (set_tx tx p (tx_assigned x (tx p))) st' gap)
| gs_limits lo lim tx st gap lo' age lim' st' :
    lo <= lo' -> 3 <= u32 lo' -> ids_ok lo' tx (latestCompletedXid st) (nextXid st) -> 100000 <= age <= 2000000000 ->
    SetTransactionIdLimit (u32 lo') age lim st = Ok (lim', st') ->
    gen_step extend (mkGen lo lim tx st gap) (mkGen lo' lim' tx st' gap).

(** The limits that belong to the window from [lo]. *)
Definition limits_of (lo : Z) (lim : Limits) : Prop :=
  IsUnderPostmaster lim = true /\
  (exists v, xidVacLimit lim = u32 v /\ 3 <= u32 v /\ lo + 100000 <= v <= lo + 2000000003) /\
  (exists s, xidStopLimit lim = u32 s /\ 3 <= u32 s /\ lo + 2 ^ 31 - 3000010 <= s <= lo + 2 ^ 31 - 2999990).

(** postmaster.h, proc.h: max_connections and the other backends are at most
    MAX_BACKENDS together, and so are prepared transactions. *)
Definition MAX_BACKENDS : Z := 0x3FFFF.
Definition NUM_AUXILIARY_PROCS : Z := 5.
Definition MaxTotalProcs : Z := MAX_BACKENDS + NUM_AUXILIARY_PROCS + MAX_BACKENDS.

Record gen_ok (g : Gen) : Prop := {
  gn_inv : inv (g_lo g) (g_tx g) (g_st g);
  gn_limits : limits_of (g_lo g) (g_lim g);
  gn_procs : len (allProcs (g_st g)) <= MaxTotalProcs;
  gn_gap : NoDup ((g_gap g).*1);
  gn_range : Forall (fun e => 0 <= e.1 < len (allProcs (g_st g))) (g_gap g);
  gn_passed : Forall (fun e => releases e.2.1 e.2.2 = true) (g_gap g);
  gn_next : nextXid (g_st g) + 4 * len (g_gap g) <= g_lo g + 2 ^ 31 - 2999986 + 4 * len (allProcs (g_st g))
}.

Lemma NoDup_range (l : list Z) n : NoDup l -> Forall (fun x => 0 <= x < n) l -> 0 <= n -> len l <= n.
Proof.
  intros Hnd Hr Hn. assert (Hs : l ⊆+ seqZ 0 n).
  { apply NoDup_submseteq; [done|]. intros x Hx. rewrite Forall_forall in Hr. apply elem_of_seqZ. specialize (Hr x Hx). lia. }
  apply submseteq_length in Hs. rewrite length_seqZ in Hs. unfold len. lia.
Qed.

Section gen.
Context (extend : Z -> res unit) (Hextend : forall z, extend z = Ok tt).

Lemma gap_room g : gen_ok g -> len (g_gap g) <= len (allProcs (g_st g)) <= MaxTotalProcs.
Proof.
  intros []. split; [|done].
  assert (E : len (g_gap g) = len ((g_gap g).*1)) by (unfold len; by rewrite length_fmap). rewrite E.
  apply NoDup_range; [done| |apply len_nonneg]. by apply Forall_fmap.
Qed.

(** In the window the limits are compared as 64-bit ids. *)
Lemma limits_compare lo lim tx st :
  inv lo tx st -> limits_of lo lim ->
  exists v s, lo + 100000 <= v <= lo + 2000000003 /\ lo + 2 ^ 31 - 3000010 <= s <= lo + 2 ^ 31 - 2999990 /\
    TransactionIdFollowsOrEquals (u32 (nextXid st)) (xidVacLimit lim) = (v <=? nextXid st) /\
    TransactionIdFollowsOrEquals (u32 (nextXid st)) (xidStopLimit lim) = (s <=? nextXid st).
Proof.
  intros Hi (_ & (v & -> & Hv & Hvb) & (s & -> & Hs & Hsb)). exists v, s. split; [done|]. split; [done|].
  pose proof (i_next _ _ _ _ (v_ids _ _ _ Hi)) as Hn. pose proof Hn as [? _].
  rewrite !follows_or_equals_precedes, !(fits_precedes lo) by first [done|split; [lia|done]]. split; lia.
Qed.

(** The window has room for the ids of all that wait, and one more. *)
Lemma next_fits g : gen_ok g -> nextXid (g_st g) <= g_lo g + 2 ^ 31 - 8 /\ fits (g_lo g) (fnext (nextXid (g_st g))).
Proof.
  intros Hg. pose proof (gap_room g Hg). pose proof (len_nonneg (g_gap g)). destruct Hg.
  destruct (i_next _ _ _ _ (v_ids _ _ _ gn_inv0)) as [? Hn]. destruct (fnext_normal _ Hn).
  unfold MaxTotalProcs, MAX_BACKENDS, NUM_AUXILIARY_PROCS in *. split; [lia|]. split; [lia|done].
Qed.

(** Whoever has passed the check gets the next id. *)
Lemma assign_next g p :
  gen_ok g -> attached (g_st g) p ->
  exists st', assign_xid_to extend p (has_tx (g_tx g p)) (g_st g) = Ok (nextXid (g_st g), st') /\
    inv (g_lo g) (set_tx (g_tx g) p (tx_assigned (nextXid (g_st g)) (g_tx g p))) st' /\
    nextXid st' <= nextXid (g_st g) + 4 /\ len (allProcs st') = len (allProcs (g_st g)).
Proof.
  intros Hg Hp. destruct (next_fits g Hg) as [_ Hf]. pose proof (gn_inv g Hg) as Hi.
  rewrite (assign_xid_to_eq (g_lo g) (g_tx g)) by done. eexists. split; [done|]. split; [by apply inv_assigned|].
  destruct (i_next _ _ _ _ (v_ids _ _ _ Hi)) as [_ Hn]. destruct (fnext_normal _ Hn). cbn. rewrite len_upd. lia.
Qed.

Lemma resume_eq lim0 p sub st0 st :
  releases lim0 st0 = true -> GetNewTransactionId lim0 extend false false p sub st0 st = assign_xid_to extend p sub st.
Proof.
  unfold releases, GetNewTransactionId. intros [-> H%negb_true_iff]%andb_true_iff. by rewrite H.
Qed.

Lemma direct_cases g p :
  gen_ok g -> releases (g_lim g) (g_st g) = false ->
  (GetNewTransactionId (g_lim g) extend false false p (has_tx (g_tx g p)) (g_st g) (g_st g) =
     assign_xid_to extend p (has_tx (g_tx g p)) (g_st g) /\ nextXid (g_st g) < g_lo g + 2000000003) \/
  (exists e, GetNewTransactionId (g_lim g) extend false false p (has_tx (g_tx g p)) (g_st g) (g_st g) = Err e /\
     g_lo g + 2 ^ 31 - 3000010 <= nextXid (g_st g)).
Proof.
  intros Hg. destruct (limits_compare _ _ _ _ (gn_inv g Hg) (gn_limits g Hg)) as (v & s & Hv & Hs & Ev & Es).
  unfold releases, GetNewTransactionId. rewrite (proj1 (gn_limits g Hg)), Ev, Es. cbn [andb].
  destruct (Z.leb_spec v (nextXid (g_st g))), (Z.leb_spec s (nextXid (g_st g))); cbn; try done; intros _.
  - right. eexists. split; [done|lia].
  - left. split; [done|lia].
  - left. split; [done|lia].
Qed.

Lemma release_ok lo lim tx st gap p :
  gen_ok (mkGen lo lim tx st gap) -> attached st p -> p ∉ gap.*1 -> releases lim st = true ->
  gen_ok (mkGen lo lim tx st ((p, (lim, st)) :: gap)).
Proof.
  intros Hg Hp Hnin Hrel. pose proof Hg as [Hi Hlim Hk Hnd Hr Hpass _]; cbn in *.
  destruct (limits_compare _ _ _ _ Hi Hlim) as (v & s & _ & Hs & Ev & Es).
  pose proof Hrel as Hlt. unfold releases in Hlt. rewrite Ev, Es, (proj1 Hlim) in Hlt. cbn in Hlt.
  assert (Hnd' : NoDup (((p, (lim, st)) :: gap).*1)) by (by constructor).
  assert (Hr' : Forall (fun e => 0 <= e.1 < len (allProcs st)) ((p, (lim, st)) :: gap)) by (constructor; [apply Hp|done]).
  split; cbn; try done; [by constructor|].
  pose proof (NoDup_range _ (len (allProcs st)) Hnd' ltac:(by apply Forall_fmap) (len_nonneg _)) as Hl.
  unfold len in *. rewrite length_fmap in Hl. lia.
Qed.

Lemma gen_step_ok g g' : gen_ok g -> gen_step extend g g' -> gen_ok g'.
Proof.
  intros Hg Hst. destruct Hst as [lo lim tx st gap o st' Ho Hok E|lo lim tx st gap p Hp Hnin Hrel
    |lo lim tx st gap1 p lim0 st0 gap2 x st' Hp E|lo lim tx st gap p x st' Hp Hnin Hrel E
    |lo lim tx st gap lo' age lim' st' Hle Hlo Hids Hage E].
  - destruct Hg as [Hi ? ? ? ? ? ?]; cbn [g_lo g_lim g_tx g_st g_gap] in *. destruct (op_good lo tx st Hi extend Hextend o Hok) as (st1 & E1 & Hi1 & _).
    rewrite E in E1. simplify_eq. pose proof (frame_op (nextXid st) (len (allProcs st)) extend o Ho st eq_refl eq_refl) as Hf.
    rewrite E in Hf. destruct Hf as [Hn Hk]. split; cbn [g_lo g_lim g_tx g_st g_gap]; rewrite ?Hk, ?Hn; done.
  - by apply release_ok.
  - destruct (assign_next _ p Hg Hp) as (st1 & E1 & Hi & Hn & Hk). destruct Hg as [_ ? ? Hnd Hr Hpass Hx]; cbn [g_lo g_lim g_tx g_st g_gap] in *.
    apply Forall_app in Hpass as [? [? ?]%Forall_cons]. apply Forall_app in Hr as [? [? ?]%Forall_cons].
    rewrite (resume_eq lim0), E1 in E by done. simplify_eq. split; cbn [g_lo g_lim g_tx g_st g_gap]; rewrite ?Hk; try done; [|by apply Forall_app..|].
    + rewrite fmap_app in *. eapply sublist_NoDup; [exact Hnd|]. by apply sublist_app, sublist_cons.
    + rewrite !len_app, len_cons in *. lia.
  - destruct (assign_next _ p Hg Hp) as (st1 & E1 & Hi & Hn & Hk). pose proof (gap_room _ Hg) as Hroom.
    destruct (direct_cases _ p Hg Hrel) as [[E2 Hlt]|(e & E2 & _)]; cbn [g_lo g_lim g_tx g_st g_gap] in *; [|congruence].
    rewrite E2, E1 in E. simplify_eq. destruct Hg; cbn [g_lo g_lim g_tx g_st g_gap] in *. split; cbn [g_lo g_lim g_tx g_st g_gap]; rewrite ?Hk; try done. lia.
  - destruct (limits_full lo' age lim st lim' st' Hlo Hage E) as (Epm & Hv & Hs).
    revert E. unfold SetTransactionIdLimit. rewrite (proj2 (normal_range _) Hlo). assert_ok Z.eqb_refl. intros [= _ <-].
    destruct Hg as [[Hslots _ [Hlo3 _] _] [? _] ? ? ? ? ?]; cbn [g_lo g_lim g_tx g_st g_gap] in *. split; cbn [g_lo g_lim g_tx g_st g_gap]; try done; [|split; [congruence|done]|cbn; lia].
    split; [by destruct Hslots as [[] ? Hm ? ?]; split; try done; intros n Hn; destruct (Hm n Hn)|done|split; [lia|done]|done].
Qed.

Lemma gen_run_ok g g' : gen_ok g -> rtc (gen_step extend) g g' -> gen_ok g'.
Proof. intros Hg Hr. induction Hr; [done|]. eauto using gen_step_ok. Qed.
End gen.

(** The shared state when the server starts: [n] entries, none in the array,
    and [lo] the last id that was used. *)
Definition boot (n : nat) (max lo : Z) : Shared :=
  mkShared (replicate n no_proc) [] [] [] [] max lo (fnext lo) (u32 lo) 1.

Lemma boot_inv n max lo : 0 <= max -> 3 <= lo -> 3 <= u32 lo -> inv lo (fun _ => None) (boot n max lo).
Proof.
  intros Hm Hlo Hn. destruct (fnext_normal lo Hn) as [Hf Hb]. split; [|split|done|done].
  - apply slots_ok_slots. split; [by split|]. split; [intros j Hj; change (numProcs (boot n max lo)) with 0 in Hj; lia|done].
  - done.
  - split; [cbn; lia|done].
  - split; [cbn; lia|done].
  - cbn. lia.
  - cbn. intros x Hx Hr. pose proof (fnext_least lo x Hn Hx). lia.
Qed.

(** * Properties *)

(** C14. From the start of the server on, whatever sequence of operations the
    processes perform (assignments of ids, ends of transactions alone and in
    groups, aborts of subtransactions, the steps of PREPARE and the end of what
    was prepared, changes of status flags by VACUUM, index builds and logical
    decoding, processes that come and go), the
    dense arrays mirror the entries, every slot shows the transaction that its
    process runs with its cached subtransactions, latestCompletedXid lies below
    nextXid with every id between them running; and every operation that is in
    order in a state so reached runs to its end without a failed Assert or an
    access outside an array.  The entry that PREPARE fills can join the array: it
    shows the transaction of the process that prepares. *)
Theorem procarray_invariant n max lo extend os tx st :
  0 <= max -> 3 <= lo -> 3 <= u32 lo -> (forall z, extend z = Ok tt) ->
  execution lo extend (fun _ => None) (boot n max lo) os tx st ->
  inv lo tx st /\
  (forall o, op_ok lo tx st o -> exists st', run_op extend o st = Ok st') /\
  (forall no gxact children st', op_ok lo tx st (FillPrepared no gxact children) ->
     run_op extend (FillPrepared no gxact children) st = Ok st' ->
     visible st no -> numProcs st < maxProcs st -> op_ok lo tx st' (AddPrepared no gxact)).
Proof.
  intros Hm Hlo Hn He Hex. destruct (execution_inv lo extend He _ _ _ _ _ (boot_inv n max lo Hm Hlo Hn) Hex) as [Hi _].
  split; [done|]. split; [|by apply filled_add].
  intros o Hok. destruct (op_good lo tx st Hi extend He o Hok) as (st' & E & _). by exists st'.
Qed.

(** C13. A snapshot that GetSnapshotData returns, while other processes go on
    assigning ids, tells for each id of others whether it was running when the
    lock was taken or had yet to be assigned (ids of VACUUM and logical decoding
    apart).  Once a cache of subtransactions has overflowed, an id counts as
    running if it or one of its ancestors does.  An id that the snapshot shows as
    ended does not run in any later state either.  GetSnapshotData stays inside
    its arrays; and the xmin its process advertises in its entry (MyProc->xmin,
    set if it was not yet) and TransactionXmin are normal ids, not later than any
    transaction that runs when the lock is taken, its own included (those of
    VACUUM and logical decoding apart), provided an xmin advertised before is the
    xmin of a snapshot that still says so. *)
Theorem snapshot_sees_running lo me history txs t0 cid loc s :
  inv lo (txs t0) (history t0) -> attached (history t0) me ->
  (forall t, (t0 <= t)%nat -> shared_step lo me (txs t) (history t) (txs (S t)) (history (S t))) ->
  MyProc loc = me ->
  advertised lo me history txs t0 loc ->
  (snapXactCompletionCount s <> 0 -> snapXactCompletionCount s = xactCompletionCount (history t0) ->
   exists fmin, describes lo me (txs t0) (history t0) (data s) fmin (fnext (latestCompletedXid (history t0)))) ->
  exists r t1 m m',
    GetSnapshotData history cid loc s t0 = Ok (r, t1) /\
    TransactionXmin (local r) = u32 m /\ held lo me history txs t0 m /\
    my_xmin r = u32 m' /\ held lo me history txs t0 m' /\
    forall x parent ctl fuel,
      fits lo x -> subtrans_ok lo (txs t0) (history t0) m parent ctl ->
      (forall y, ancestor parent x y -> foreign me (txs t0) (history t0) y) ->
      (Z.to_nat (x - m) + 1 < fuel)%nat ->
      exists b, XidInMVCCSnapshot (TransactionXmin (local r)) ctl fuel (u32 x) (data (taken r)) = Ok b /\
        (b = true <->
         (if suboverflowed (data (taken r)) then exists y, ancestor parent x y /\ running (txs t0) y
          else running (txs t0) x) \/ nextXid (history t0) <= x) /\
        (b = false -> forall extend os tx' st', (forall z, extend z = Ok tt) ->
           execution lo extend (txs t0) (history t0) os tx' st' -> ~ running tx' x).
Proof.
  intros Hinv Hme Hsteps Hloc Hxmin Hreuse.
  pose proof (GetSnapshotData_spec lo me history txs t0 Hinv Hme Hsteps cid loc s Hloc Hxmin Hreuse) as Hsp.
  unfold rwp in Hsp. apply wp_ok in Hsp as ([r t1] & E & _ & fmin & [Hd _ _ _ (m & Em & Hh & Hle) (m' & Em' & Hh' & _)]). cbn [fst snd] in *.
  exists r, t1, m, m'. do 5 (split; [done|]). intros x parent ctl fuel Hx Hsub Hf Hfuel. rewrite Em.
  assert (Hb : exists b, XidInMVCCSnapshot (u32 m) ctl fuel (u32 x) (data (taken r)) = Ok b /\
    (b = true <-> (if suboverflowed (data (taken r)) then exists y, ancestor parent x y /\ running (txs t0) y
                   else running (txs t0) x) \/ nextXid (history t0) <= x)).
  { destruct (suboverflowed (data (taken r))) eqn:Ho.
    - by eapply (in_snapshot_overflowed lo me (txs t0) (history t0) Hinv _ _ _ Hd m (proj1 Hh)).
    - eapply (in_snapshot_exact lo me (txs t0) (history t0) Hinv _ _ _ Hd); try done. apply Hf, rtc_refl. }
  destruct Hb as (b & Eb & Hb). exists b. split; [done|]. split; [done|]. intros -> extend os tx' st' Hext Hex Hrun.
  enough (false = true) by done. apply Hb.
  destruct (execution_running lo extend Hext (txs t0) (history t0) os tx' st' x Hinv Hex Hrun) as [H|H]; [left|by right].
  destruct (suboverflowed _); [exists x; split; [apply rtc_refl|done]|done].
Qed.

(** C15. GetSnapshotDataReuse is sound: as long as xactCompletionCount has the
    value it had when a snapshot was taken, that snapshot describes what runs,
    whatever processes have done since (fewer than 2^64 transactions have
    completed, and the transaction of the snapshot has not put up a prepared
    entry without clearing its own). *)
Theorem snapshot_reuse_sound lo me extend tx st os tx' st' s fmin fmax :
  inv lo tx st -> (forall z, extend z = Ok tt) -> execution lo extend tx st os tx' st' ->
  Forall (spares me) os -> total_completions os < 2 ^ 64 ->
  xactCompletionCount st' = xactCompletionCount st ->
  describes lo me tx st s fmin fmax -> describes lo me tx' st' s fmin fmax.
Proof.
  intros Hi He Hex Hsp Htot Hcnt Hd. destruct (execution_inv lo extend He tx st os tx' st' Hi Hex) as [_ [Hc _]].
  eapply (execution_quiet lo extend He); try done. rewrite Hcnt in Hc. pose proof (total_nonneg os).
  unfold u64 in Hc. Z.to_euclidean_division_equations. lia.
Qed.

(** C16. Under the postmaster (a server in single-user mode is exempt),
    GetNewTransactionId never hands out an id that could compare as older than
    one in use, although it releases XidGenLock between the check of the limits
    and the assignment: from a state whose nextXid has not passed the stop limit
    that SetTransactionIdLimit computes from the oldest id, whatever processes do
    (any of them may wait between check and assignment while others assign ids,
    end, prepare, come and go, and while the limits advance), nextXid stays inside
    the window of 2^31 ids; a process that has passed the check gets nextXid, and
    the invariant of the proc array holds after; one that has not is refused, and
    that only within about three million ids of the end of the window.  The room
    is enough because each entry can wait at most once: there are at most
    MaxTotalProcs of them, and an assignment advances nextXid by at most four. *)
Theorem wraparound_refused extend lo age lim0 lim st0 tx st g :
  (forall z, extend z = Ok tt) -> 3 <= u32 lo -> 100000 <= age <= 2000000000 ->
  SetTransactionIdLimit (u32 lo) age lim0 st0 = Ok (lim, st) -> IsUnderPostmaster lim0 = true ->
  inv lo tx st -> len (allProcs st) <= MaxTotalProcs -> nextXid st <= lo + 2 ^ 31 - 3000000 ->
  rtc (gen_step extend) (mkGen lo lim tx st []) g ->
  inv (g_lo g) (g_tx g) (g_st g) /\
  (forall p lim1 st1, (p, (lim1, st1)) ∈ g_gap g -> attached (g_st g) p ->
     exists st', GetNewTransactionId lim1 extend false false p (has_tx (g_tx g p)) st1 (g_st g) = Ok (nextXid (g_st g), st') /\
       inv (g_lo g) (set_tx (g_tx g) p (tx_assigned (nextXid (g_st g)) (g_tx g p))) st') /\
  (forall p, attached (g_st g) p -> releases (g_lim g) (g_st g) = false ->
     match GetNewTransactionId (g_lim g) extend false false p (has_tx (g_tx g p)) (g_st g) (g_st g) with
     | Ok (x, st') => x = nextXid (g_st g) /\ x < g_lo g + 2 ^ 31 - 2999990 /\
                      inv (g_lo g) (set_tx (g_tx g) p (tx_assigned x (g_tx g p))) st'
     | Err _ => g_lo g + 2 ^ 31 - 3000010 <= nextXid (g_st g)
     | UB _ => False
     end).
Proof.
  intros He Hlo Hage Hset Hpm Hi Hk Hn Hr.
  assert (Hg : gen_ok g).
  { eapply (gen_run_ok extend He); [|exact Hr]. destruct (limits_full lo age lim0 st0 lim st Hlo Hage Hset) as (Epm & Hv & Hs).
    split; cbn [g_lo g_lim g_tx g_st g_gap]; try done; [split; [congruence|done]|by constructor|].
    change (len []) with 0. pose proof (len_nonneg (allProcs st)). lia. }
  split; [apply Hg|]. split.
  - intros p lim1 st1 Hin Hp. destruct (assign_next extend He g p Hg Hp) as (st' & E & Hi' & _).
    pose proof (gn_passed g Hg) as Hpass. rewrite Forall_forall in Hpass. rewrite (resume_eq extend He lim1) by exact (Hpass _ Hin).
    by exists st'.
  - intros p Hp Hrel. destruct (assign_next extend He g p Hg Hp) as (st' & E & Hi' & _).
    destruct (direct_cases extend He g p Hg Hrel) as [[-> Hlt]|(e & -> & Hb)]; [|done]. rewrite E. split; [done|]. split; [lia|done].
Qed.

(** * Witnesses *)
Module Demo.
Definition extend (xid : Z) : res unit := Ok tt.

(** Three processes join; 1 runs 101 with the subtransaction 102, 2 has run 103. *)
Definition ops : list op :=
  [Join 0; Join 2; Join 1; Assign 1 false; Assign 1 true; Assign 2 false; EndTransaction 2 103 None].

Definition tx3 : Z -> Tx := set_tx (set_tx (set_tx (fun _ => None) 0 None) 2 None) 1 None.
Definition tx6 : Z -> Tx :=
  set_tx (set_tx (set_tx tx3 1 (Some (101, []))) 1 (Some (101, [102]))) 2 (Some (103, [])).
Definition tx7 : Z -> Tx := set_tx tx6 2 None.

Fixpoint run_ops (os : list op) (st : Shared) : res Shared :=
  match os with [] => Ok st | o :: os => st ← run_op extend o st; run_ops os st end.

Definition st7 : Shared :=
  Eval vm_compute in match run_ops ops (boot 4 4 100) with Ok st => st | _ => boot 4 4 100 end.

Ltac concrete := vm_compute; repeat split; (discriminate || reflexivity).
Ltac detached := intros Hd; vm_compute in Hd; destruct Hd as ([? ?] & [? ?] & ?); congruence.
Ltac step_with tac := eapply ex_cons; [tac|vm_compute; reflexivity|].
Ltac join_ok := cbn [op_ok]; split; [concrete|split; [detached|split; [concrete|]]]; concrete.
Ltac assign_ok := cbn [op_ok]; split; [concrete|split; concrete].

Lemma execution7 : execution 100 extend (fun _ => None) (boot 4 4 100) ops tx7 st7.
Proof.
  unfold ops. do 3 step_with ltac:(join_ok). do 3 step_with ltac:(assign_ok).
  step_with ltac:(cbn [op_ok]; split; [concrete|split]; [by left|intros x [->|[]%not_elem_of_nil]%elem_of_cons; concrete]).
  exact (ex_nil _ _ tx7 st7).
Defined.

Definition ops11 : list op :=
  ops ++ [FillPrepared 1 3 [102]; SetFlags 0 (InVacuum true); AddPrepared 1 3; ClearPrepared 1].
Definition tx11 : Z -> Tx := set_tx (set_tx tx7 3 (Some (101, [102]))) 1 None.
Definition st11 : Shared :=
  Eval vm_compute in match run_ops ops11 (boot 4 4 100) with Ok st => st | _ => boot 4 4 100 end.

Lemma execution11 : execution 100 extend (fun _ => None) (boot 4 4 100) ops11 tx11 st11.
Proof.
  unfold ops11, ops. cbn [app]. do 3 step_with ltac:(join_ok). do 3 step_with ltac:(assign_ok).
  step_with ltac:(cbn [op_ok]; split; [concrete|split]; [by left|intros x [->|[]%not_elem_of_nil]%elem_of_cons; concrete]).
  step_with ltac:(cbn [op_ok]; split; [concrete|]; split; [concrete|]; split; [detached|]; exists 101, [102];
    split; [reflexivity|]; split; [apply NoDup_singleton|done]).
  step_with ltac:(cbn [op_ok flags_ok]; split; [concrete|reflexivity]).
  step_with ltac:(cbn [op_ok]; split; [concrete|]; split; [detached|]; split; [concrete|]; split; [discriminate|];
    split; [reflexivity|]; split; [reflexivity|]; split; [discriminate|]; split; [reflexivity|];
    split; [apply NoDup_singleton|]; split;
    [intros z [->|[]%not_elem_of_nil]%elem_of_cons; exists 102; split; [by left|done]
    |intros _ z [->|[]%not_elem_of_nil]%elem_of_cons; by left]).
  step_with ltac:(cbn [op_ok]; split; [concrete|]; split; [reflexivity|];
    intros x Hx; exists 3; split; [done|]; exact Hx).
  exact (ex_nil _ _ tx11 st11).
Defined.

Lemma inv7 : inv 100 tx7 st7.
Proof. eapply execution_inv; [|apply boot_inv|apply execution7]; (done || lia || concrete). Qed.

(** Process 0 takes a snapshot; 1 gets a second subtransaction, 104, meanwhile. *)
Definition tx8 : Z -> Tx := set_tx tx7 1 (Some (101, [104; 102])).
Definition st8 : Shared :=
  Eval vm_compute in match run_op extend (Assign 1 true) st7 with Ok st => st | _ => st7 end.

Definition history (t : nat) : Shared := if (t <? 8)%nat then st7 else st8.
Definition txs (t : nat) : Z -> Tx := if (t <? 8)%nat then tx7 else tx8.

Lemma steps t : shared_step 100 0 (txs t) (history t) (txs (S t)) (history (S t)).
Proof.
  unfold txs, history. destruct (decide (t < 7)%nat) as [Hlt|Hge].
  - destruct (Nat.ltb_spec t 8), (Nat.ltb_spec (S t) 8); try lia. apply sh_idle.
  - destruct (decide (t = 7%nat)) as [->|Hne].
    + change (shared_step 100 0 tx7 st7 (set_tx tx7 1 (tx_assigned (nextXid st7) (tx7 1))) st8).
      apply (sh_assign 100 0 tx7 st7 1 extend 104); [concrete|done|concrete|done|reflexivity].
    + destruct (Nat.ltb_spec t 8), (Nat.ltb_spec (S t) 8); try lia. apply sh_idle.
Qed.

Definition static : Static :=
  {| data := {| snapshot_type := SNAPSHOT_MVCC; xmin := 0; xmax := 0; xip := []; subxip := []; suboverflowed := false;
                takenDuringRecovery := false; curcid := 0; speculativeToken := 0; vistest := 0 |};
     snapXactCompletionCount := 0 |}.
Definition loc : Local := {| MyProc := 0; TransactionXmin := 0; RecentXmin := 0 |}.

(** 101 is the parent of 102. *)
Definition parent (x : Z) : option Z := if x =? 102 then Some 101 else None.
Definition ctl : SubTransCtl := <[0 := upd (replicate 2048 0) 102 101]> ∅.

Lemma subtrans m : subtrans_ok 100 tx7 st7 m parent ctl.
Proof.
  split.
  - intros n p Hp. unfold ctl in Hp. rewrite lookup_insert_Some, lookup_empty in Hp.
    destruct Hp as [[<- <-]|[_ ?]]; [|done]. by rewrite len_upd.
  - intros x [Hx _] Hm. assert (nextXid st7 = 104) as E by reflexivity. rewrite E in Hm.
    assert (x = 100 \/ x = 101 \/ x = 102 \/ x = 103) as Hcase by lia.
    destruct Hcase as [->|[->|[->| ->]]]; (split; [by eexists|reflexivity]).
  - intros x p. unfold parent. destruct (Z.eqb_spec x 102) as [->|]; [|done]. intros [= <-]. concrete.
  - intros no t subs. unfold tx7, tx6, tx3, set_tx.
    destruct (Z.eqb_spec no 2); [done|]. destruct (Z.eqb_spec no 1); [|by destruct (no =? 0)].
    intros [= <- <-]. split; [done|]. intros x [->|[]%not_elem_of_nil]%elem_of_cons. exists 101. split; [done|by left].
Qed.

Lemma running102 : running tx7 102.
Proof. exists 1. right. by left. Qed.

Lemma foreign102 y : ancestor parent 102 y -> foreign 0 tx7 st7 y.
Proof.
  intros _ no. unfold tx7, tx6, tx3, set_tx.
  destruct (Z.eqb_spec no 2); [done|]. destruct (Z.eqb_spec no 1) as [->|]; [|by destruct (no =? 0)]. done.
Qed.

(** 199900 ids after the oldest one, with autovacuum_freeze_max_age at its least. *)
Definition aged : Shared := mkShared (replicate 2 no_proc) [] [] [] [] 2 200000 200001 100 1.
Definition lim0 : Limits :=
  {| xidVacLimit := 0; xidWarnLimit := 0; xidStopLimit := 0; xidWrapLimit := 0; IsUnderPostmaster := true |}.
Definition lim : Limits :=
  Eval vm_compute in match SetTransactionIdLimit 100 100000 lim0 aged with Ok (l, _) => l | _ => lim0 end.
Definition aged1 : Shared := Eval vm_compute in match ProcArrayAdd 1 aged with Ok st => st | _ => aged end.

Lemma aged_inv : inv 100 (fun _ => None) aged.
Proof.
  split; [|split|done|done].
  - apply slots_ok_slots. split; [by split|]. split; [intros j Hj; change (numProcs aged) with 0 in Hj; lia|done].
  - done.
  - split; [cbn; lia|done].
  - split; [cbn; lia|done].
  - cbn. lia.
  - cbn. lia.
Qed.
End Demo.

(** 1 prepares its transaction with entry 3 while 0 begins a VACUUM; COMMIT
    PREPARED then takes the entry away. *)
Lemma procarray_invariant_witness :
  inv 100 Demo.tx11 Demo.st11 /\ exists st', run_op Demo.extend (FinishPrepared 3 102) Demo.st11 = Ok st'.
Proof.
  destruct (procarray_invariant 4 4 100 Demo.extend Demo.ops11 Demo.tx11 Demo.st11) as (Hi & Hall & _);
    [lia|lia|vm_compute; discriminate|done|exact Demo.execution11|].
  split; [exact Hi|]. apply Hall. split; [Demo.concrete|]. split; [right; by left|].
  intros x [->|[->|[]%not_elem_of_nil]%elem_of_cons]%elem_of_cons; lia.
Defined.

Lemma snapshot_sees_running_witness :
  exists r t1 fuel,
    GetSnapshotData Demo.history 0 Demo.loc Demo.static 0%nat = Ok (r, t1) /\
    XidInMVCCSnapshot (TransactionXmin (local r)) Demo.ctl fuel (u32 102) (data (taken r)) = Ok true.
Proof.
  destruct (snapshot_sees_running 100 0 Demo.history Demo.txs 0%nat 0 Demo.loc Demo.static) as (r & t1 & m & m' & E & _ & _ & _ & _ & Hall).
  - exact Demo.inv7.
  - Demo.concrete.
  - intros t _. apply Demo.steps.
  - reflexivity.
  - intros H. by destruct H.
  - intros H. by destruct H.
  - destruct (Hall 102 Demo.parent Demo.ctl (Z.to_nat (102 - m) + 2)%nat) as (b & Eb & Hb & _);
      [Demo.concrete|apply Demo.subtrans|apply Demo.foreign102|lia|].
    exists r, t1, (Z.to_nat (102 - m) + 2)%nat. split; [exact E|]. rewrite Eb. f_equal. apply Hb. left.
    destruct (suboverflowed _); [|exact Demo.running102]. exists 102. split; [apply rtc_refl|exact Demo.running102].
Defined.

(** The snapshot is taken, 1 gets another id, and process 3 joins. *)
Lemma snapshot_reuse_sound_witness :
  exists s fmin st', run_op Demo.extend (Join 3) Demo.st8 = Ok st' /\
    describes 100 0 (op_tx Demo.tx8 Demo.st8 (Join 3)) st' s fmin 104.
Proof.
  pose proof (GetSnapshotData_spec 100 0 Demo.history Demo.txs 0%nat Demo.inv7 ltac:(Demo.concrete)
    (fun t _ => Demo.steps t) 0 Demo.loc Demo.static eq_refl) as Hsp.
  unfold rwp in Hsp. rewrite wp_ok in Hsp. destruct Hsp as (r & _ & _ & fmin & Hr); [by intros []|by intros []|].
  exists (data (taken r.1)), fmin. eexists. split; [vm_compute; reflexivity|].
  apply (snapshot_reuse_sound 100 0 Demo.extend Demo.tx7 Demo.st7 [Assign 1 true; Join 3]).
  - exact Demo.inv7.
  - done.
  - Demo.step_with ltac:(Demo.assign_ok). Demo.step_with ltac:(Demo.join_ok). apply ex_nil.
  - by repeat constructor.
  - Demo.concrete.
  - reflexivity.
  - exact (tk_describes _ _ _ _ _ _ _ _ Hr).
Defined.

(** Process 1 has passed the check and waits for the lock. *)
Lemma wraparound_refused_witness :
  exists st', GetNewTransactionId Demo.lim Demo.extend false false 1 false Demo.aged1 Demo.aged1 = Ok (200001, st').
Proof.
  destruct (wraparound_refused Demo.extend 100 100000 Demo.lim0 Demo.lim Demo.aged (fun _ => None) Demo.aged
    (mkGen 100 Demo.lim (op_tx (fun _ => None) Demo.aged (Join 1)) Demo.aged1 [(1, (Demo.lim, Demo.aged1))]))
    as (_ & Hgap & _).
  - done.
  - vm_compute. discriminate.
  - lia.
  - reflexivity.
  - reflexivity.
  - exact Demo.aged_inv.
  - vm_compute. discriminate.
  - vm_compute. discriminate.
  - eapply rtc_l; [apply (gs_op Demo.extend 100 Demo.lim (fun _ => None) Demo.aged [] (Join 1) Demo.aged1);
      [reflexivity|Demo.join_ok|reflexivity]|].
    apply rtc_once, gs_release; [Demo.concrete|apply not_elem_of_nil|reflexivity].
  - destruct (Hgap 1 Demo.lim Demo.aged1) as (st' & E & _); [by left|Demo.concrete|]. exists st'. exact E.
Defined.
